(* ===== verification/_CoqProject ===== *)
-Q . S2P
Prelude.v
OrdMap.v
NativeArena.v
X86.v
NativeThread.v
NativeThreadProps.v
Fault.v
FaultProps.v
GuestMemory.v
GuestMemoryProps.v
Elf64.v
Dynamic.v
Symbols.v
LateImports.v
LateThunks.v
PatchMemory.v
Linker.v
CpuPatches.v
CpuPatchesProps.v
TcbThunks.v
Tls.v
Scopes.v
ScopesProps.v
Execution.v
KernelMem.v
HleRegistry.v
HleBridge.v
HleBridgeCode.v
HleBridgeProps.v
EntryWindows.v
EntryWindowsCode.v
EntryWindowsProps.v
FaultWindows.v
FaultWindowsProps.v
Arenas.v
ArenasProps.v
Libkernel.v
LibkernelExports.v
LibkernelProps.v
HandleTable.v
KernelAttrs.v
KernelTime.v
KernelFiles.v
KernelFilesProps.v
RegionList.v
Loader.v
LoaderProps.v
MapImageProps.v
Lifecycle.v
LifecycleProps.v
Startup.v
Paths.v
Dependencies.v
DependenciesProps.v
KernelVm.v
KernelVmInv.v
KernelVmFit.v
KernelVmDirect.v
KernelVmRelease.v
KernelVmMap.v
KernelVmProps.v
Threads.v
ThreadManager.v
ThreadManagerProps.v
KernelSem.v
KernelSync.v
KernelSyncInv.v
KernelSyncProps.v
Pm4.v
GpuBackend.v
