(* ===== verification/Prelude.v ===== *)
(** * NyxoraRT: verification library

    NyxoraRT runs console programs natively on a desktop x86-64 processor.  It
    loads the program's modules into a guest address space, links them, gives
    their threads stacks and thread-local storage, calls their code, answers
    the calls of their kernel library, and decodes their graphics commands.
    This library models those parts, in the Linux x86-64 build and where the
    Windows build has code of its own (the trampoline, the bridges, the fault
    handler, the TCB thunks, the TLS slots, the host memory) in that too, and
    proves what makes them correct.  Every definition translates the function it names in
    its file's comment; the paths below are those of [src/].

    ** The parts and how they interact

    _Memory._  NativeArena.v is the reservation of host memory
    ([src/memory/native_arena.cpp]) over a host, [HostOs], whose [mmap] and
    [mprotect] are parameters, and Arenas.v its owners, the Windows calls and the moves;
    GuestMemory.v the address space
    ([src/memory/guest_address_space.cpp]), a map of regions over buffers of
    its own or over an arena.  OrdMap.v is the [std::map] both use, RegionList.v
    what the services see of the regions.

    _Machine code._  X86.v gives the instructions that the runtime emits a
    semantics, over the host memory.  NativeThread.v has guest stacks and the
    entry trampoline ([src/runtime/native_thread.cpp]), LateThunks.v and
    TcbThunks.v run the thunks that LateImports.v and CpuPatches.v write
    ([late_imports.cpp], [cpu_patches.cpp]), Fault.v captures the faults of guest code
    and the exits of guest threads ([fault.cpp]), which continue in the
    trampoline.  EntryWindows.v and FaultWindows.v are the trampoline and the
    vectored handler of the Windows build, HleBridge.v the bridges through which
    guest code calls host functions there ([hle_registry.cpp]); for both, a
    second file (EntryWindowsCode.v, HleBridgeCode.v) reads the emitted bytes as
    a listing of instructions and runs its parts.

    _Loading._  Elf64.v and Dynamic.v accept images
    ([src/loader/elf64.cpp], [dynamic.cpp]); Symbols.v resolves symbols
    ([symbol_registry.cpp]); Linker.v registers exports and relocates
    ([linker.cpp]) over the interface PatchMemory.v, which the address space
    implements; Tls.v has the thread-local blocks and Scopes.v the scopes that
    bind a context, a manager and the segment register to a host thread
    ([tls.cpp]).  Loader.v composes
    them into [map_image], [find_module_base] and [link_module], Dependencies.v
    into [load_program], and Lifecycle.v runs initialisers and finalisers
    ([runtime.cpp]); Paths.v is the lexical part of [std::filesystem::path].
    Execution.v prepares a call of a guest entry and has the life of a guest
    thread ([runtime.cpp], [guest_thread.cpp]), Startup.v makes a runtime and
    starts its threads.

    _Kernel services._  KernelMem.v reads and writes guest arguments;
    HandleTable.v and KernelAttrs.v are the handles and attribute objects,
    KernelTime.v clocks and timeouts, KernelFiles.v the read-only files,
    KernelVm.v the memory calls, KernelSem.v semaphores, KernelSync.v mutexes
    and condition variables, all of [kernel_services.cpp]; ThreadManager.v the
    guest threads ([thread_manager.cpp], [guest_thread.cpp]).  HleRegistry.v,
    Libkernel.v and LibkernelExports.v are the functions the guest calls
    ([hle_registry.cpp], [src/hle/libkernel.cpp]), over the interface [HleHost] of
    the services.

    _Graphics._  Pm4.v decodes and runs command streams ([src/gpu/pm4.cpp]),
    GpuBackend.v submits the commands ([backend.cpp], [null_backend.cpp]).

    ** How the code is modelled

    A machine integer is a [Z] with its wrap-around written out ([wrap64],
    [wrap32], [to_i64], ...); checked operations answer an option.  Code that
    throws is in the monad [result] of this file; a call outside a precondition
    of the standard library, or a store to a page that the host protects, is
    the exception [undefined_behaviour], and safety theorems rule it out.
    Stateful code takes and returns its object.  A handler that takes locks is
    a sequence of sections, each atomic for what the lock protects
    (Threads.v); a step relation interleaves the sections of any number of
    threads, with the guest's own stores in between.  Objects that are shared by
    pointers live in stores under identifiers.  What lies outside the
    sources is a typeclass with laws: [HostOs], the allocator of Tls.v, the
    Zydis decoder of CpuPatches.v, the file system of KernelFiles.v, [SignalOs] of
    Fault.v, [VectoredOs] of FaultWindows.v, [OsMemory] of Arenas.v, the segment
    calls of Scopes.v, guest code in Lifecycle.v.

    ** What is proved

    - Memory: regions stay disjoint and agree with the host's protections in
      every reachable space, so that no store faults; [map], [unmap_range],
      [protect_range] and the stores do what they say to every address
      (GuestMemoryProps.v); each reservation of host memory has one owner and is
      given back once (ArenasProps.v).
    - Images and loading: nothing outside the file is read; a loaded module is
      in memory as its headers say, at the lowest free base; relocation stores
      exactly the words the tables call for; discovery ends and finds the
      needed files (Elf64.v, Dynamic.v, Linker.v, LoaderProps.v,
      MapImageProps.v, DependenciesProps.v, Paths.v).
    - Machine code: the bytes of the trampoline and of the thunks, decoded and
      run, do what they are for; a captured call comes back from every
      departure of the guest, on Linux and on Windows (NativeThreadProps.v,
      LateThunks.v, TcbThunks.v, FaultProps.v, EntryWindowsProps.v,
      FaultWindowsProps.v); a call of a bridge reaches the function registered
      for it and returns (HleBridgeProps.v); the rewriting of code finds the same instructions as a
      sweep of the original (CpuPatchesProps.v).
    - Lifecycle: each module's functions run once and in the right order,
      whatever the guest does (LifecycleProps.v); TLS blocks are private and
      initialised (Tls.v), scopes are lexical (ScopesProps.v), a prepared
      execution can be entered and a guest thread runs in its own context
      (Execution.v, Startup.v).
    - Services: memory calls keep the accounting of flexible and direct memory
      and change exactly their range (KernelVmInv.v to KernelVmProps.v); files
      stay below the root (KernelFilesProps.v); under every interleaving, mutexes
      have one owner, no signal is lost, semaphores conserve tokens, and thread
      records outlive their users (KernelSyncInv.v, KernelSyncProps.v,
      KernelSem.v, ThreadManagerProps.v); the wrappers of the kernel library are
      well typed, agree between their two conventions, and are all registered
      (LibkernelProps.v).
    - Graphics: decoding inverts encoding, and running a stream is decoding it
      and running its packets (Pm4.v); the backend executes what it is given, in
      order (GpuBackend.v).

    ** Fuel

    Loops that are not structural take a fuel, and a theorem says which fuel is
    enough: the length of the stream (Pm4.v), the number of modules plus one
    (the depth-first visit of Lifecycle.v), the number of files plus one
    (Dependencies.v, where any more gives the same), the number of handles
    in use plus one (HandleTable.v), the pages of the address space
    (Loader.v, KernelVm.v), the bytes of a segment (CpuPatches.v).

    ** What is not modelled

    The macOS branches; the bytes of the thread control block in memory, which
    Tls.v has as a record; exhaustion of host memory ([std::bad_alloc]) where a
    comment does not say otherwise; the state an exception leaves in the loader;
    [app/main.cpp], which only prints; tests and build files.  The semantics of
    the processor covers the emitted instructions; guest code is any change of
    state that the theorem in question allows. *)

From Stdlib Require Export ZArith Lia.
From Stdlib Require Import Strings.Byte.
From stdpp Require Export base tactics option list gmap strings pretty relations.

#[export] Set Default Goal Selector "!".

Local Open Scope Z_scope.

#[global] Arguments Nat.ltb : simpl never.
#[global] Arguments Nat.leb : simpl never.

(** ** Thrown exceptions

    The C++ sources throw [std::runtime_error], [std::out_of_range] and
    [std::invalid_argument]; [undefined_behaviour] marks the calls whose
    precondition the standard library leaves to the caller (a
    [std::span::subspan] out of its range), so that a theorem can state that a
    caller never reaches them. *)
Inductive exn : Type :=
| runtime_error (what : string)
| out_of_range (what : string)
| invalid_argument (what : string)
| undefined_behaviour (what : string).

Inductive result (A : Type) : Type :=
| Ok (a : A)
| Throw (e : exn).
Arguments Ok {A} a.
Arguments Throw {A} e.

#[export] Instance result_ret : MRet result := fun A a => Ok a.
#[export] Instance result_bind : MBind result := fun A B f m =>
  match m with Ok a => f a | Throw e => Throw e end.
#[export] Instance result_fmap : FMap result := fun A B f m =>
  match m with Ok a => Ok (f a) | Throw e => Throw e end.

(** [throw_if b e] is the guard [if (b) throw e;]. *)
Definition throw_if (b : bool) (e : exn) : result unit :=
  if b then Throw e else Ok tt.

(** Whether a computation reached a call outside its precondition. *)
Definition is_ub {A} (m : result A) : Prop :=
  exists w, m = Throw (undefined_behaviour w).

Lemma Ok_inj {A} (a b : A) : Ok a = Ok b -> a = b.
Proof. by intros [= ->]. Qed.

Lemma bind_Ok {A B} (f : A -> result B) (m : result A) (b : B) :
  (m ≫= f) = Ok b <-> exists a, m = Ok a /\ f a = Ok b.
Proof.
  destruct m as [a|e]; cbn; split; [by eauto|by intros (? & [= ->] & ?)|done|].
  by intros (? & ? & ?).
Qed.

Lemma fmap_Ok {A B} (f : A -> B) (m : result A) (b : B) :
  f <$> m = Ok b <-> exists a, m = Ok a /\ b = f a.
Proof.
  destruct m as [a|e]; cbn; split; [intros [= <-]; by eauto|by intros (? & [= ->] & ->)|done|].
  by intros (? & ? & ?).
Qed.

Lemma throw_if_Ok b e u : throw_if b e = Ok u <-> b = false.
Proof. destruct b, u; cbn; naive_solver. Qed.

Lemma bind_no_ub {A B} (m : result A) (f : A -> result B) :
  ~ is_ub m -> (forall a, m = Ok a -> ~ is_ub (f a)) -> ~ is_ub (m ≫= f).
Proof. destruct m as [a|e]; cbn; intros Hm Hf [w Hw]; [eapply Hf; [done|by exists w]|].
  apply Hm. exists w. congruence. Qed.

Lemma Ok_no_ub {A} (a : A) : ~ is_ub (Ok a).
Proof. by intros [w Hw]. Qed.

Lemma runtime_no_ub {A} w : ~ is_ub (@Throw A (runtime_error w)).
Proof. by intros [w' Hw]. Qed.

Lemma throw_if_no_ub b w : ~ is_ub (throw_if b (runtime_error w)).
Proof. destruct b; cbn; [apply runtime_no_ub|apply Ok_no_ub]. Qed.

Create HintDb no_ub discriminated.
#[export] Hint Resolve Ok_no_ub runtime_no_ub throw_if_no_ub bind_no_ub : no_ub.

(** Splits a goal or hypothesis about boolean connectives. *)
Ltac bools :=
  repeat match goal with
  | H : (_ && _) = true |- _ => apply andb_true_iff in H as [? ?]
  | H : (_ || _) = false |- _ => apply orb_false_iff in H as [? ?]
  | H : negb _ = true |- _ => apply negb_true_iff in H
  | H : negb _ = false |- _ => apply negb_false_iff in H
  | H : (_ <? _) = true |- _ => apply Z.ltb_lt in H
  | H : (_ <? _) = false |- _ => apply Z.ltb_ge in H
  | H : (_ <=? _) = true |- _ => apply Z.leb_le in H
  | H : (_ <=? _) = false |- _ => apply Z.leb_gt in H
  | H : (_ =? _) = true |- _ => apply Z.eqb_eq in H
  | H : (_ =? _) = false |- _ => apply Z.eqb_neq in H
  | H : bool_decide _ = true |- _ => apply bool_decide_eq_true in H
  | H : bool_decide _ = false |- _ => apply bool_decide_eq_false in H
  end.

(** Clears the monadic plumbing of a hypothesis [... = Ok _]. *)
Ltac inv_result :=
  repeat match goal with
  | H : (_ ≫= _) = Ok _ |- _ =>
      let a := fresh "r" in let H1 := fresh "Hr" in
      apply bind_Ok in H as (a & H1 & H)
  | H : (_ <$> _) = Ok _ |- _ =>
      let a := fresh "r" in let H1 := fresh "Hr" in
      apply fmap_Ok in H as (a & H1 & H)
  | H : throw_if _ _ = Ok ?u |- _ => apply throw_if_Ok in H; try clear u
  | H : mret _ = Ok _ |- _ => cbv [mret result_ret] in H
  | H : Ok _ = Ok _ |- _ => apply Ok_inj in H; simplify_eq/=
  | H : Throw _ = Ok _ |- _ => discriminate H
  end.

(** ** Machine integers

    [std::uint64_t] and [std::uint32_t] values are [Z]s in range; every
    operation that can wrap in the source goes through [wrap64] or
    [wrap32]. *)
Abbreviation u64_max := 18446744073709551615 (only parsing).
Abbreviation u64_mod := 18446744073709551616 (only parsing).
Abbreviation u32_mod := 4294967296 (only parsing).
Abbreviation i64_max := 9223372036854775807 (only parsing).

Definition wrap64 (z : Z) : Z := z mod u64_mod.
Definition wrap32 (z : Z) : Z := z mod u32_mod.
Definition in_u64 (z : Z) : Prop := 0 <= z < u64_mod.
Definition in_u32 (z : Z) : Prop := 0 <= z < u32_mod.

(** [static_cast<std::int64_t>] of a 64-bit pattern. *)
Definition to_i64 (z : Z) : Z :=
  let w := wrap64 z in if w <? 9223372036854775808 then w else w - u64_mod.
(** [static_cast<std::int32_t>] of a 32-bit pattern. *)
Definition to_i32 (z : Z) : Z :=
  let w := wrap32 z in if w <? 2147483648 then w else w - u32_mod.

Ltac unfold_ints := unfold to_i64, to_i32, wrap64, wrap32, in_u64, in_u32 in *.

(** [lia] with division, modulo and the wrapping operations. *)
Ltac int_lia := unfold_ints; Z.div_mod_to_equations; lia.

Lemma wrap64_small z : in_u64 z -> wrap64 z = z.
Proof. intros; int_lia. Qed.
Lemma wrap64_range z : in_u64 (wrap64 z).
Proof. int_lia. Qed.
Lemma wrap32_small z : in_u32 z -> wrap32 z = z.
Proof. intros; int_lia. Qed.
Lemma wrap32_range z : in_u32 (wrap32 z).
Proof. int_lia. Qed.
Lemma to_i64_small z : 0 <= z < 9223372036854775808 -> to_i64 z = z.
Proof. intros. unfold_ints. rewrite Z.mod_small by lia.
  destruct (Z.ltb_spec z 9223372036854775808); lia. Qed.
Lemma to_i64_wrap64 z : wrap64 (to_i64 z) = wrap64 z.
Proof. unfold to_i64. case_match; int_lia. Qed.

Create HintDb ints discriminated.
#[export] Hint Resolve wrap64_range wrap32_range : ints.
#[export] Hint Rewrite wrap64_small using (unfold in_u64; lia) : ints.
#[export] Hint Rewrite wrap32_small using (unfold in_u32; lia) : ints.

(** Equality modulo [2^64], the equality of wrapped counters. *)
Definition eq64 (a b : Z) : Prop := wrap64 a = wrap64 b.

#[export] Instance eq64_equivalence : Equivalence eq64.
Proof. split; unfold eq64; congruence. Qed.
#[export] Instance eq64_add : Proper (eq64 ==> eq64 ==> eq64) Z.add.
Proof.
  intros a b Hab c d Hcd. unfold eq64, wrap64 in *.
  by rewrite Z.add_mod, Hab, Hcd, <- Z.add_mod by lia.
Qed.
#[export] Instance eq64_sub : Proper (eq64 ==> eq64 ==> eq64) Z.sub.
Proof.
  intros a b Hab c d Hcd. unfold eq64, wrap64 in *.
  by rewrite Zminus_mod, Hab, Hcd, <- Zminus_mod.
Qed.
Lemma to_i64_eq64 z : eq64 (to_i64 z) z.
Proof. apply to_i64_wrap64. Qed.
Lemma wrap64_eq64 z : eq64 (wrap64 z) z.
Proof. unfold eq64, wrap64. by rewrite Z.mod_mod by lia. Qed.
#[export] Instance wrap64_proper : Proper (eq64 ==> eq64) wrap64.
Proof. intros a b Hab. by rewrite !wrap64_eq64. Qed.
Lemma eq64_u64 a b : in_u64 a -> eq64 a b -> a = wrap64 b.
Proof. intros Ha Hab. by rewrite <- Hab, wrap64_small. Qed.

(** Two fields that do not overlap: [or] is addition. *)
Lemma lor_shiftl_low hi lo n :
  0 <= n -> 0 <= lo < 2 ^ n -> Z.lor (Z.shiftl hi n) lo = hi * 2 ^ n + lo.
Proof.
  intros Hn Hlo. rewrite <- Z.lxor_lor, <- Z.add_nocarry_lxor, ?Z.shiftl_mul_pow2; try done;
    apply Z.bits_inj'; intros i Hi; rewrite Z.land_spec, Z.bits_0, Z.shiftl_spec by lia;
    (destruct (Z.ltb_spec i n);
      [by rewrite Z.testbit_neg_r by lia|]);
    rewrite <- (Z.mod_small lo (2 ^ n)), Z.mod_pow2_bits_high by lia; by rewrite andb_false_r.
Qed.

(** Masking the low [k] bits away. *)
Lemma land_high_mask n k x :
  0 <= k <= n -> 0 <= x < 2 ^ n -> Z.land x (2 ^ n - 2 ^ k) = x - x mod 2 ^ k.
Proof.
  intros Hk Hx. assert (2 ^ n = 2 ^ (n - k) * 2 ^ k) as Hpow by (rewrite <- Z.pow_add_r; [f_equal; lia|lia..]).
  assert (2 ^ n - 2 ^ k = Z.shiftl (Z.ones (n - k)) k) as ->.
  { rewrite Z.shiftl_mul_pow2, Z.ones_equiv, <- Z.sub_1_r by lia. rewrite Hpow. ring. }
  assert (Z.land x (Z.shiftl (Z.ones (n - k)) k) = Z.shiftl (Z.land (Z.shiftr x k) (Z.ones (n - k))) k) as ->.
  { apply Z.bits_inj'. intros i Hi. rewrite Z.land_spec, !Z.shiftl_spec, Z.land_spec by lia.
    destruct (Z.ltb_spec (i - k) 0).
    - by rewrite !(Z.testbit_neg_r _ (i - k)), !andb_false_r by lia.
    - rewrite Z.shiftr_spec by lia. do 2 f_equal. lia. }
  assert (0 < 2 ^ k) by lia. rewrite Z.land_ones, Z.shiftr_div_pow2, Z.shiftl_mul_pow2 by lia.
  rewrite (Z.mod_small (x / 2 ^ k)) by (split; [apply Z.div_pos; lia|apply Z.div_lt_upper_bound; lia]).
  pose proof (Z.div_mod x (2 ^ k)). lia.
Qed.

(** [checked_align_up] of [include/nyxora/base/types.hpp]. *)
Definition checked_align_up (value alignment : Z) : option Z :=
  if (value =? 0) || (alignment =? 0) || (u64_max - (alignment - 1) <? value)
  then None
  else Some (wrap64 (wrap64 (value + alignment - 1) / alignment * alignment)).

(** The result is the least multiple of the alignment not below the value. *)
Lemma checked_align_up_Some value alignment r :
  in_u64 value -> in_u64 alignment ->
  checked_align_up value alignment = Some r ->
  value <= r < value + alignment /\ r mod alignment = 0 /\ in_u64 r /\ 0 < value.
Proof.
  unfold checked_align_up, in_u64. intros Hv Ha H.
  destruct (_ || _) eqn:E; [done|]. injection H as <-.
  rewrite (wrap64_small (value + alignment - 1)) by (unfold in_u64; lia).
  set (q := (value + alignment - 1) / alignment).
  assert (alignment * q <= value + alignment - 1 < alignment * q + alignment)
    by (unfold q; Z.div_mod_to_equations; lia).
  rewrite wrap64_small by (unfold in_u64; lia).
  split; [lia|]. split; [apply Z.mod_mul; lia|lia].
Qed.

(** ** Bytes and little-endian words *)

Abbreviation byte := Byte.byte.
Abbreviation zero_byte := Byte.x00.

#[export] Instance byte_eq_dec : EqDecision byte := Byte.byte_eq_dec.

Definition byte_val (b : byte) : Z := Z.of_N (Byte.to_N b).
Definition byte_of_Z (z : Z) : byte :=
  match Byte.of_N (Z.to_N (z mod 256)) with Some b => b | None => x00 end.

Lemma byte_val_range b : 0 <= byte_val b < 256.
Proof. unfold byte_val. pose proof (Byte.to_N_bounded b). lia. Qed.

Lemma byte_val_of_Z z : byte_val (byte_of_Z z) = z mod 256.
Proof.
  unfold byte_val, byte_of_Z.
  destruct (Byte.of_N _) as [b|] eqn:E.
  - apply Byte.to_of_N in E. rewrite E. rewrite Z2N.id; [done|].
    apply Z.mod_pos_bound; lia.
  - apply Byte.of_N_None_iff in E.
    pose proof (Z.mod_pos_bound z 256 ltac:(lia)). lia.
Qed.

Lemma byte_of_val b : byte_of_Z (byte_val b) = b.
Proof.
  unfold byte_of_Z. rewrite Z.mod_small by apply byte_val_range.
  unfold byte_val. rewrite N2Z.id, Byte.of_to_N. done.
Qed.

(** [std::memcpy] between an [n]-byte little-endian object and its value. *)
Fixpoint le_encode (n : nat) (v : Z) : list byte :=
  match n with
  | O => []
  | S n => byte_of_Z v :: le_encode n (v / 256)
  end.

Fixpoint le_decode (bs : list byte) : Z :=
  match bs with
  | [] => 0
  | b :: bs => byte_val b + 256 * le_decode bs
  end.

Lemma le_encode_length n v : length (le_encode n v) = n.
Proof. revert v; induction n; intros; cbn; auto. Qed.

Lemma le_decode_encode n v : le_decode (le_encode n v) = v mod 256 ^ Z.of_nat n.
Proof.
  revert v; induction n as [|n IH]; intros v; cbn [le_encode le_decode].
  { by rewrite Z.mod_1_r. }
  rewrite IH, byte_val_of_Z, Nat2Z.inj_succ, Z.pow_succ_r by lia.
  by rewrite Z.rem_mul_r by lia.
Qed.

Lemma le_decode_bound bs : 0 <= le_decode bs < 256 ^ Z.of_nat (length bs).
Proof.
  induction bs as [|b bs IH]; cbn [le_decode length]; [lia|].
  rewrite Nat2Z.inj_succ, Z.pow_succ_r by lia.
  pose proof (byte_val_range b). lia.
Qed.

Lemma le_encode_decode bs : le_encode (length bs) (le_decode bs) = bs.
Proof.
  induction bs as [|b bs IH]; cbn [le_encode le_decode length]; [done|].
  pose proof (byte_val_range b).
  assert ((byte_val b + 256 * le_decode bs) / 256 = le_decode bs) as ->
    by (Z.div_mod_to_equations; lia).
  rewrite IH. f_equal. rewrite <- (byte_of_val b) at 2. unfold byte_of_Z.
  assert ((byte_val b + 256 * le_decode bs) mod 256 = byte_val b mod 256) as ->
    by (Z.div_mod_to_equations; lia).
  done.
Qed.

(** Only the low [n] bytes of a value are written. *)
Lemma le_encode_mod n v : le_encode n (v mod 256 ^ Z.of_nat n) = le_encode n v.
Proof.
  rewrite <- (le_decode_encode n v). pose proof (le_encode_decode (le_encode n v)) as H.
  by rewrite le_encode_length in H.
Qed.

Lemma le_encode_i64 v : le_encode 8 (to_i64 v) = le_encode 8 v.
Proof.
  rewrite <- (le_encode_mod 8 (to_i64 v)), <- (le_encode_mod 8 v).
  change (256 ^ Z.of_nat 8) with u64_mod. f_equal. apply (to_i64_wrap64 v).
Qed.

Lemma to_i64_range v : -9223372036854775808 <= to_i64 v < 9223372036854775808.
Proof. unfold to_i64, wrap64. case_match; bools; Z.div_mod_to_equations; lia. Qed.

Lemma to_i64_id v : -9223372036854775808 <= v < 9223372036854775808 -> to_i64 v = v.
Proof.
  intros Hv. unfold to_i64, wrap64. destruct (Z.ltb_spec (v mod u64_mod) 9223372036854775808);
    Z.div_mod_to_equations; lia.
Qed.

Lemma to_i64_eq v w : wrap64 v = wrap64 w -> to_i64 v = to_i64 w.
Proof. unfold to_i64. by intros ->. Qed.

Lemma le_decode_encode_u64 v : in_u64 v -> le_decode (le_encode 8 v) = v.
Proof. intros. rewrite le_decode_encode. apply Z.mod_small. done. Qed.
Lemma le_decode_encode_u32 v : in_u32 v -> le_decode (le_encode 4 v) = v.
Proof. intros. rewrite le_decode_encode. apply Z.mod_small. done. Qed.

Create HintDb bytes discriminated.
#[export] Hint Rewrite le_encode_length le_decode_encode_u64 le_decode_encode_u32
  using (unfold in_u64, in_u32 in *; lia) : bytes.

(** [std::optional::has_value]. *)
Definition isSome {A} (o : option A) : bool := match o with Some _ => true | None => false end.

(** ** Lists indexed by machine integers *)

Abbreviation zlen l := (Z.of_nat (length l)).

(** [span.subspan(off, n)] inside its range. *)
Definition zslice {A} (l : list A) (off n : Z) : list A :=
  take (Z.to_nat n) (drop (Z.to_nat off) l).

(** [std::memcpy(l.data() + off, bs.data(), bs.size())] inside its range. *)
Definition zsplice {A} (l : list A) (off : Z) (bs : list A) : list A :=
  take (Z.to_nat off) l ++ bs ++ drop (Z.to_nat off + length bs) l.

(** [l[i]] with a machine index. *)
Definition zget {A} (l : list A) (i : Z) : option A :=
  if i <? 0 then None else l !! Z.to_nat i.

Lemma zlen_nonneg {A} (l : list A) : 0 <= zlen l.
Proof. lia. Qed.

Lemma zslice_length {A} (l : list A) off n :
  0 <= off -> 0 <= n -> off + n <= zlen l -> zlen (zslice l off n) = n.
Proof. intros. unfold zslice. rewrite length_take, length_drop. lia. Qed.

(** A slice of a slice. *)
Lemma zslice_zslice {A} (l : list A) a n o k :
  0 <= a -> 0 <= o -> 0 <= k -> o + k <= n -> zslice (zslice l a n) o k = zslice l (a + o) k.
Proof.
  intros. unfold zslice. rewrite skipn_firstn_comm, drop_drop, firstn_firstn.
  f_equal; [lia|]. f_equal. lia.
Qed.

Lemma zsplice_length {A} (l : list A) off bs :
  0 <= off -> off + zlen bs <= zlen l -> length (zsplice l off bs) = length l.
Proof.
  intros. unfold zsplice. rewrite !length_app, length_take, length_drop. lia.
Qed.

Lemma to_i32_le_encode v :
  -2147483648 <= v < 2147483648 -> to_i32 (le_decode (le_encode 4 v)) = v.
Proof.
  intros Hv. rewrite le_decode_encode. change (256 ^ Z.of_nat 4) with u32_mod.
  unfold to_i32, wrap32. case_match; bools; Z.div_mod_to_equations; lia.
Qed.

Lemma zget_Some_lt {A} (l : list A) i x : zget l i = Some x -> 0 <= i < zlen l.
Proof.
  unfold zget. destruct (Z.ltb_spec i 0); [done|].
  intros H1%lookup_lt_Some. lia.
Qed.

Lemma zget_is_Some {A} (l : list A) i : 0 <= i < zlen l -> is_Some (zget l i).
Proof.
  intros. unfold zget. destruct (Z.ltb_spec i 0); [lia|].
  apply lookup_lt_is_Some. lia.
Qed.

Lemma zget_zslice {A} (l : list A) off n i :
  0 <= off -> 0 <= i < n -> zget (zslice l off n) i = zget l (off + i).
Proof.
  intros. unfold zget, zslice. destruct (Z.ltb_spec i 0); [lia|].
  destruct (Z.ltb_spec (off + i) 0); [lia|].
  rewrite lookup_take_lt by lia. rewrite lookup_drop. f_equal. lia.
Qed.

Lemma zget_zsplice {A} (l : list A) off bs i :
  0 <= off -> off + zlen bs <= zlen l ->
  zget (zsplice l off bs) i =
    if (off <=? i) && (i <? off + zlen bs) then zget bs (i - off) else zget l i.
Proof.
  intros Ho Hl. unfold zget, zsplice.
  destruct (Z.ltb_spec i 0).
  { destruct (Z.leb_spec off i); [lia|done]. }
  destruct (Z.leb_spec off i); cbn [andb].
  - rewrite lookup_app_r by (rewrite length_take; lia).
    rewrite length_take_le by lia.
    destruct (Z.ltb_spec i (off + zlen bs)).
    + destruct (Z.ltb_spec (i - off) 0); [lia|].
      rewrite lookup_app_l by lia. f_equal. lia.
    + rewrite lookup_app_r by lia. rewrite lookup_drop. f_equal. lia.
  - rewrite lookup_app_l by (rewrite length_take; lia).
    rewrite lookup_take_lt by lia. done.
Qed.

Lemma zget_app {A} (l1 l2 : list A) i :
  zget (l1 ++ l2) i = if i <? zlen l1 then zget l1 i else zget l2 (i - zlen l1).
Proof.
  unfold zget. destruct (Z.ltb_spec i 0), (Z.ltb_spec i (zlen l1)),
    (Z.ltb_spec (i - zlen l1) 0); try lia; try done.
  - by rewrite lookup_app_l by lia.
  - rewrite lookup_app_r by lia. f_equal. lia.
Qed.

Lemma zget_replicate {A} n (x : A) i :
  0 <= i < n -> zget (replicate (Z.to_nat n) x) i = Some x.
Proof.
  intros. unfold zget. destruct (Z.ltb_spec i 0); [lia|].
  apply lookup_replicate_2. lia.
Qed.

(** Two lists of the same length with the same elements are equal. *)
Lemma zget_ext {A} (l1 l2 : list A) :
  length l1 = length l2 ->
  (forall i, 0 <= i < zlen l1 -> zget l1 i = zget l2 i) -> l1 = l2.
Proof.
  intros Hlen H. apply list_eq_same_length with (n := length l1); [done..|].
  intros i x y Hi Hx Hy. specialize (H (Z.of_nat i) ltac:(lia)).
  unfold zget in H. destruct (Z.ltb_spec (Z.of_nat i) 0); [lia|].
  rewrite Nat2Z.id in H. congruence.
Qed.

Create HintDb zlist discriminated.
#[export] Hint Rewrite @zget_zslice @zget_zsplice @zget_replicate using lia : zlist.

(** ** Case analysis on the guards of a handler

    [split_guards] destructs the tests of the goal and the hypotheses until
    no conditional is left, closing the branches that contradict each
    other. *)
Ltac split_guards := repeat (case_match; simplify_eq/=; try done).

(** ** Displacements in machine code *)

Lemma le_encode_4 v : exists b0 b1 b2 b3, le_encode 4 v = [b0; b1; b2; b3].
Proof. cbn [le_encode]. by do 4 eexists. Qed.

(** The displacement from [c + k] to [d] leads to [d]. *)
Lemma displacement_lands c k d :
  wrap64 (c + k + (to_i64 d - to_i64 (wrap64 (c + k)))) = wrap64 d.
Proof.
  change (eq64 (c + k + (to_i64 d - to_i64 (wrap64 (c + k)))) d).
  rewrite (to_i64_eq64 d), (to_i64_eq64 (wrap64 (c + k))), (wrap64_eq64 (c + k)).
  by replace (c + k + (d - (c + k))) with d by lia.
Qed.
