(* ===== verification/OrdMap.v ===== *)
(** * Ordered maps

    The [std::map] with integer keys that the address space, the kernel
    services and the runtime keep: an association list in increasing key order
    ([sorted]), with the operations the sources use.  The lemmas describe every
    operation by what [ofind] answers after it, so that the components never
    look at the list itself. *)

From Stdlib Require Import Sorting.Sorted.
From S2P Require Import Prelude.

Local Open Scope Z_scope.

Abbreviation omap V := (list (Z * V)).

Section Operations.
Context {V : Type}.
Implicit Types (m : omap V) (k : Z) (v : V).

(** [find]. *)
Fixpoint ofind k m : option V :=
  match m with
  | [] => None
  | (k', v) :: m => if k =? k' then Some v else ofind k m
  end.

(** [insert_or_assign]. *)
Fixpoint oinsert k v m : omap V :=
  match m with
  | [] => [(k, v)]
  | (k', v') :: m' =>
      if k <? k' then (k, v) :: m
      else if k =? k' then (k, v) :: m'
      else (k', v') :: oinsert k v m'
  end.

(** [emplace]: an existing entry is kept. *)
Definition oemplace k v m : omap V :=
  match ofind k m with Some _ => m | None => oinsert k v m end.

(** [erase] by key. *)
Definition oerase k m : omap V := filter (fun kv => kv.1 <> k) m.

(** [merge]: the entries of [m2] whose keys [m1] does not have. *)
Definition omerge m1 m2 : omap V := foldl (fun m kv => oemplace kv.1 kv.2 m) m1 m2.

(** [lower_bound]: the first entry not below the key. *)
Definition olower k m : option (Z * V) := head (filter (fun kv => k <= kv.1) m).

(** [std::prev(lower_bound)]: the last entry below the key. *)
Definition oprev_lt k m : option (Z * V) := last (filter (fun kv => kv.1 < k) m).

(** [std::prev(upper_bound)]: the last entry not above the key. *)
Definition oprev_le k m : option (Z * V) := last (filter (fun kv => kv.1 <= k) m).

(** The iteration from [lower_bound(lo)] while the key is below [hi]. *)
Definition orange (lo hi : Z) m : list (Z * V) :=
  filter (fun kv => lo <= kv.1 /\ kv.1 < hi) m.

(** Keys in increasing order. *)
Definition sorted m : Prop := StronglySorted Z.lt m.*1.

End Operations.

Section Lemmas.
Context {V : Type}.
Implicit Types (m : omap V) (k : Z) (v : V).

Lemma sorted_nil : sorted (@nil (Z * V)).
Proof. constructor. Qed.

Lemma sorted_cons k v m :
  sorted ((k, v) :: m) <-> sorted m /\ forall k' v', (k', v') ∈ m -> k < k'.
Proof.
  unfold sorted. cbn. split.
  - intros H. inversion H as [|? ? ? Hall]; subst. split; [done|].
    intros k' v' Hin. rewrite Forall_forall in Hall. apply Hall. by apply list_elem_of_fmap_2 with (f := fst) in Hin.
  - intros [Hs Hall]. constructor; [done|]. apply Forall_forall.
    intros k' ([? v'] & -> & Hin)%list_elem_of_fmap. by eapply Hall.
Qed.

Lemma sorted_filter (P : Z * V -> Prop) `{forall kv, Decision (P kv)} m :
  sorted m -> sorted (filter P m).
Proof.
  induction m as [|[k v] m IH]; [done|]. rewrite sorted_cons. intros [Hs Hlt].
  rewrite filter_cons. case_decide; [|by apply IH]. rewrite sorted_cons. split; [by apply IH|].
  intros k' v' [_ Hin]%list_elem_of_filter. by eapply Hlt.
Qed.

(** In a sorted list a key has one entry, the one [ofind] answers. *)
Lemma ofind_elem k v m : sorted m -> ofind k m = Some v <-> (k, v) ∈ m.
Proof.
  induction m as [|[k' v'] m IH]; cbn; [by rewrite elem_of_nil|].
  rewrite sorted_cons. intros [Hs Hlt]. rewrite elem_of_cons.
  destruct (Z.eqb_spec k k') as [->|Hk].
  - split; [intros [= ->]; by left|]. intros [[= ->]|Hin]; [done|].
    apply Hlt in Hin. lia.
  - rewrite IH by done. split; [by right|]. by intros [[= -> ->]|?].
Qed.

Lemma elem_ofind k v m : sorted m -> (k, v) ∈ m -> ofind k m = Some v.
Proof. intros. by apply ofind_elem. Qed.

Lemma ofind_filter (P : Z * V -> Prop) `{forall kv, Decision (P kv)} k m :
  sorted m ->
  ofind k (filter P m) = v ← ofind k m; if decide (P (k, v)) then Some v else None.
Proof.
  intros Hs. destruct (ofind k m) as [v|] eqn:Hf; cbn.
  - apply ofind_elem in Hf; [|done]. case_decide as HP.
    + apply ofind_elem; [by apply sorted_filter|]. by apply list_elem_of_filter.
    + destruct (ofind k (filter P m)) as [v'|] eqn:Hf'; [|done].
      apply ofind_elem in Hf'; [|by apply sorted_filter].
      apply list_elem_of_filter in Hf' as [HP' Hf']. apply (elem_ofind _ _ _ Hs) in Hf, Hf'.
      congruence.
  - destruct (ofind k (filter P m)) as [v'|] eqn:Hf'; [|done].
    apply ofind_elem in Hf'; [|by apply sorted_filter].
    apply list_elem_of_filter in Hf' as [_ Hf']. apply (elem_ofind _ _ _ Hs) in Hf'. congruence.
Qed.

Lemma ofind_erase k k' m :
  sorted m -> ofind k (oerase k' m) = if decide (k = k') then None else ofind k m.
Proof.
  intros Hs. unfold oerase. rewrite ofind_filter by done. cbn.
  destruct (ofind k m) as [v|]; cbn; repeat case_decide; naive_solver.
Qed.

Lemma sorted_erase k m : sorted m -> sorted (oerase k m).
Proof. apply sorted_filter. Qed.

Lemma oinsert_elem k v m k' v' :
  (k', v') ∈ oinsert k v m -> (k', v') = (k, v) \/ (k', v') ∈ m.
Proof.
  induction m as [|[k1 v1] m IH]; cbn; [rewrite elem_of_cons, elem_of_nil; naive_solver|].
  repeat case_match; rewrite ?elem_of_cons; tauto.
Qed.

Lemma sorted_insert k v m : sorted m -> sorted (oinsert k v m).
Proof.
  induction m as [|[k1 v1] m IH]; cbn [oinsert]; intros Hs.
  { rewrite sorted_cons. split; [done|]. by intros ? ? ?%elem_of_nil. }
  pose proof Hs as [Hs1 Hlt]%sorted_cons.
  destruct (Z.ltb_spec k k1).
  { rewrite sorted_cons. split; [done|]. intros k' v' [[= -> ->]|Hin]%elem_of_cons; [done|].
    apply Hlt in Hin. lia. }
  destruct (Z.eqb_spec k k1) as [->|]; [by rewrite sorted_cons|].
  rewrite sorted_cons. split; [by apply IH|].
  intros k' v' [[= -> ->]|Hin]%oinsert_elem; [lia|by eapply Hlt].
Qed.

Lemma ofind_insert k k' v m :
  sorted m -> ofind k (oinsert k' v m) = if decide (k = k') then Some v else ofind k m.
Proof.
  induction m as [|[k1 v1] m IH]; cbn [oinsert ofind]; intros Hs.
  { case_decide; destruct (Z.eqb_spec k k'); naive_solver. }
  pose proof Hs as [Hs1 Hlt]%sorted_cons.
  destruct (Z.ltb_spec k' k1); [|destruct (Z.eqb_spec k' k1)]; cbn [ofind];
    rewrite ?IH by done; destruct (decide (k = k')), (Z.eqb_spec k k'), (Z.eqb_spec k k1);
    subst; rewrite ?Z.eqb_refl; done || lia.
Qed.

Lemma sorted_emplace k v m : sorted m -> sorted (oemplace k v m).
Proof. unfold oemplace. case_match; auto using sorted_insert. Qed.

Lemma ofind_emplace k k' v m :
  sorted m -> ofind k (oemplace k' v m) =
    match ofind k m with
    | Some w => Some w
    | None => if decide (k = k') then Some v else None
    end.
Proof.
  intros Hs. unfold oemplace. destruct (ofind k' m) as [w|] eqn:Hf.
  - destruct (ofind k m) eqn:Hk; [done|]. case_decide; congruence.
  - rewrite ofind_insert by done. destruct (decide (k = k')) as [->|]; [by rewrite Hf|].
    by case_match.
Qed.

Lemma sorted_merge m1 m2 : sorted m1 -> sorted (omerge m1 m2).
Proof.
  unfold omerge. revert m1. induction m2 as [|[k v] m2 IH]; intros m1 Hs; cbn; [done|].
  by apply IH, sorted_emplace.
Qed.

Lemma ofind_merge k m1 m2 :
  sorted m1 -> ofind k (omerge m1 m2) =
    match ofind k m1 with Some w => Some w | None => ofind k m2 end.
Proof.
  unfold omerge. revert m1. induction m2 as [|[k' v] m2 IH]; intros m1 Hs; cbn.
  { by destruct (ofind k m1). }
  rewrite IH, ofind_emplace by auto using sorted_emplace.
  destruct (ofind k m1); [done|]. by destruct (decide (k = k')), (Z.eqb_spec k k').
Qed.

(** The neighbours of a key. *)
Lemma olower_Some k k' v m :
  sorted m -> olower k m = Some (k', v) <->
    ofind k' m = Some v /\ k <= k' /\ forall k'' v'', ofind k'' m = Some v'' -> k <= k'' -> k' <= k''.
Proof.
  intros Hs. setoid_rewrite ofind_elem; [|done..]. unfold olower.
  induction m as [|[k1 v1] m IH].
  { cbn. split; [done|]. intros [?%elem_of_nil _]. done. }
  apply sorted_cons in Hs as [Hs Hlt]. rewrite filter_cons. cbn [fst]. case_decide as Hk; cbn [head].
  - split.
    + intros [= -> ->]. split; [by left|]. split; [done|].
      intros k'' v'' [[= -> ->]|Hin]%elem_of_cons _; [done|]. apply Hlt in Hin. lia.
    + intros ([[= -> ->]|Hin]%elem_of_cons & Hle & Hmin); [done|].
      pose proof (Hlt _ _ Hin). specialize (Hmin k1 v1 ltac:(by left) Hk). lia.
  - rewrite IH by done. setoid_rewrite elem_of_cons. split.
    + intros (Hin & Hle & Hmin). split; [by right|]. split; [done|].
      intros k'' v'' [[= -> ->]|Hin'] ?; [lia|by eapply Hmin].
    + intros ([[= -> ->]|Hin] & Hle & Hmin); [lia|]. split; [done|]. split; [done|].
      intros k'' v'' Hin'. apply (Hmin k'' v''). by right.
Qed.

Lemma olower_None k m :
  sorted m -> olower k m = None <-> forall k' v', ofind k' m = Some v' -> k' < k.
Proof.
  intros Hs. setoid_rewrite ofind_elem; [|done]. unfold olower. rewrite head_None. split.
  - intros Hf k' v' Hin. destruct (decide (k <= k')); [|lia].
    assert ((k', v') ∈ filter (fun kv : Z * V => k <= kv.1) m) as Hin'
      by (by apply list_elem_of_filter). rewrite Hf in Hin'. by apply elem_of_nil in Hin'.
  - intros Hlt. destruct (filter _ m) as [|[k' v'] l] eqn:Hf; [done|].
    assert ((k', v') ∈ filter (fun kv : Z * V => k <= kv.1) m) as Hin by (rewrite Hf; by left).
    apply list_elem_of_filter in Hin as [Hle Hin]. apply Hlt in Hin. cbn in Hle. lia.
Qed.

(** The last entry of a sorted list satisfying a property. *)
Lemma last_filter_Some (P : Z -> Prop) `{forall k, Decision (P k)} k v m :
  sorted m -> last (filter (fun kv => P kv.1) m) = Some (k, v) <->
    ofind k m = Some v /\ P k /\ forall k' v', ofind k' m = Some v' -> P k' -> k' <= k.
Proof.
  intros Hs. setoid_rewrite ofind_elem; [|done..].
  induction m as [|[k1 v1] m IH].
  { cbn. split; [done|]. intros [?%elem_of_nil _]. done. }
  apply sorted_cons in Hs as [Hs Hlt]. rewrite filter_cons. cbn [fst].
  setoid_rewrite elem_of_cons. case_decide as Hk.
  - rewrite last_cons. destruct (last _) as [[k2 v2]|] eqn:Hl.
    + split.
      * intros [= -> ->]. destruct (IH Hs) as [IH' _].
        destruct (IH' eq_refl) as (Hin & HP & Hmax).
        split; [by right|]. split; [done|].
        intros k' v' [[= -> ->]|Hin'] HP'; [|by eapply Hmax]. apply Hlt in Hin. lia.
      * intros ([[= -> ->]|Hin] & HP & Hmax).
        -- assert ((k2, v2) ∈ filter (fun kv : Z * V => P kv.1) m) as Hin
             by (apply last_Some in Hl as [l' Hl]; rewrite Hl; apply elem_of_app; right; by left).
           apply list_elem_of_filter in Hin as [HP2 Hin].
           specialize (Hmax k2 v2 (or_intror Hin) HP2). apply Hlt in Hin. lia.
        -- apply IH; [done|]. split; [done|]. split; [done|]. intros k' v' ?. apply (Hmax k' v'). by right.
    + rewrite last_None in Hl. split.
      * intros [= -> ->]. split; [by left|]. split; [done|].
        intros k' v' [[= -> ->]|Hin'] HP'; [done|].
        assert ((k', v') ∈ filter (fun kv : Z * V => P kv.1) m) as Hin
          by (by apply list_elem_of_filter). rewrite Hl in Hin. by apply elem_of_nil in Hin.
      * intros ([[= -> ->]|Hin] & HP & Hmax); [done|].
        assert ((k, v) ∈ filter (fun kv : Z * V => P kv.1) m) as Hin'
          by (by apply list_elem_of_filter). rewrite Hl in Hin'. by apply elem_of_nil in Hin'.
  - rewrite IH by done. split.
    + intros (Hin & HP & Hmax). split; [by right|]. split; [done|].
      intros k' v' [[= -> ->]|Hin'] HP'; [done|by eapply Hmax].
    + intros ([[= -> ->]|Hin] & HP & Hmax); [done|]. split; [done|]. split; [done|].
      intros k' v' ?. apply (Hmax k' v'). by right.
Qed.

Lemma last_filter_None (P : Z -> Prop) `{forall k, Decision (P k)} m :
  sorted m -> last (filter (fun kv => P kv.1) m) = None <->
    forall k v, ofind k m = Some v -> ~ P k.
Proof.
  intros Hs. setoid_rewrite ofind_elem; [|done]. rewrite last_None. split.
  - intros Hf k v Hin HP.
    assert ((k, v) ∈ filter (fun kv : Z * V => P kv.1) m) as Hin'
      by (by apply list_elem_of_filter). rewrite Hf in Hin'. by apply elem_of_nil in Hin'.
  - intros Hn. destruct (filter _ m) as [|[k v] l] eqn:Hf; [done|].
    assert ((k, v) ∈ filter (fun kv : Z * V => P kv.1) m) as Hin by (rewrite Hf; by left).
    apply list_elem_of_filter in Hin as [HP Hin]. by destruct (Hn k v).
Qed.

Lemma oprev_le_Some a k v m :
  sorted m -> oprev_le a m = Some (k, v) <->
    ofind k m = Some v /\ k <= a /\ forall k' v', ofind k' m = Some v' -> k' <= a -> k' <= k.
Proof. exact (last_filter_Some (fun k => k <= a) k v m). Qed.

Lemma oprev_le_None a m :
  sorted m -> oprev_le a m = None <-> forall k v, ofind k m = Some v -> ~ k <= a.
Proof. exact (last_filter_None (fun k => k <= a) m). Qed.

Lemma oprev_lt_Some a k v m :
  sorted m -> oprev_lt a m = Some (k, v) <->
    ofind k m = Some v /\ k < a /\ forall k' v', ofind k' m = Some v' -> k' < a -> k' <= k.
Proof. exact (last_filter_Some (fun k => k < a) k v m). Qed.

Lemma oprev_lt_None a m :
  sorted m -> oprev_lt a m = None <-> forall k v, ofind k m = Some v -> ~ k < a.
Proof. exact (last_filter_None (fun k => k < a) m). Qed.

Lemma orange_elem lo hi m k v :
  sorted m -> (k, v) ∈ orange lo hi m <-> ofind k m = Some v /\ lo <= k < hi.
Proof.
  intros Hs. unfold orange. rewrite list_elem_of_filter, ofind_elem by done. cbn. tauto.
Qed.

End Lemmas.

Create HintDb omap discriminated.
#[export] Hint Resolve sorted_nil sorted_erase sorted_insert sorted_emplace sorted_merge : omap.
#[export] Hint Rewrite @ofind_erase @ofind_insert @ofind_emplace @ofind_merge
  using (auto with omap) : omap.
