(* ===== verification/NativeArena.v ===== *)
(** * Protections, the host and the native arena

    [src/include/nyxora/memory/protection.hpp],
    [src/include/nyxora/memory/native_arena.hpp] and
    [src/src/memory/native_arena.cpp] (POSIX side).

    The host operating system is the typeclass [HostOs]: its page size and the
    answers of [mmap] and [mprotect], which may differ from call to call (the
    host state counts the calls).  The host memory of the process is a
    [HostMem]: the byte and the protection of every address.  A [memcpy] to an
    address the host has not made writable ends the process and is an
    [undefined_behaviour]. *)

From S2P Require Import Prelude.

Local Open Scope Z_scope.

(** ** Protections *)

(** [enum class Protection]: a byte of flags. *)
Definition prot_none := 0.
Definition prot_read := 1.
Definition prot_write := 2.
Definition prot_execute := 4.

Definition prot_or (lhs rhs : Z) : Z := Z.lor lhs rhs.
Definition has (value flag : Z) : bool := negb (Z.land value flag =? 0).

(** [posix_protection]: the flags of [<sys/mman.h>]. *)
Definition PROT_NONE := 0.
Definition PROT_READ := 1.
Definition PROT_WRITE := 2.
Definition PROT_EXEC := 4.

Definition posix_protection (protection : Z) : Z :=
  let result := PROT_NONE in
  let result := if has protection prot_read then Z.lor result PROT_READ else result in
  let result := if has protection prot_write then Z.lor result PROT_WRITE else result in
  if has protection prot_execute then Z.lor result PROT_EXEC else result.

(** ** The host *)

Record HostMem : Type := mkHostMem {
  hm_byte : Z -> byte;
  hm_prot : Z -> Z;
  hm_calls : nat;
}.

(** What the arena asks of the operating system. *)
Class HostOs : Type := {
  page_size : Z;
  (** [mmap] of a fresh private anonymous range at a wished address *)
  os_mmap : nat -> Z -> Z -> option Z;
  (** whether [mprotect] of a range succeeds *)
  os_mprotect : nat -> Z -> Z -> Z -> bool;
}.

(** The documented behaviour of [sysconf(_SC_PAGESIZE)] and [mmap]. *)
Class HostOsLaws (H : HostOs) : Prop := {
  page_size_pos : 0 < page_size < 2 ^ 32;
  os_mmap_range n size want p :
    os_mmap n size want = Some p ->
    0 < p /\ p + size <= u64_max /\ p mod page_size = 0;
}.

(** The addresses [addr, addr + size). *)
Definition in_range (addr size a : Z) : bool := (addr <=? a) && (a <? addr + size).

Definition host_set_prot (h : HostMem) (addr size prot : Z) : HostMem :=
  mkHostMem (hm_byte h)
    (fun a => if in_range addr size a then prot else hm_prot h a) (S (hm_calls h)).

Definition host_failed_call (h : HostMem) : HostMem :=
  mkHostMem (hm_byte h) (hm_prot h) (S (hm_calls h)).

Definition host_writable (h : HostMem) (addr size : Z) : bool :=
  forallb (fun i => has (hm_prot h (addr + Z.of_nat i)) PROT_WRITE) (seq 0 (Z.to_nat size)).

Definition host_put (h : HostMem) (addr : Z) (bytes : list byte) : HostMem :=
  mkHostMem
    (fun a => match zget bytes (a - addr) with Some b => b | None => hm_byte h a end)
    (hm_prot h) (hm_calls h).

(** [std::memcpy] and [std::memset] into the arena. *)
Definition host_memcpy (h : HostMem) (addr : Z) (bytes : list byte) : result HostMem :=
  throw_if (negb (host_writable h addr (zlen bytes)))
    (undefined_behaviour "store to a page that is not writable") ;;
  Ok (host_put h addr bytes).

(** Bytes read through [host_pointer]. *)
Definition host_bytes (h : HostMem) (addr size : Z) : list byte :=
  map (fun i => hm_byte h (addr + Z.of_nat i)) (seq 0 (Z.to_nat size)).

(** ** The arena *)

Record NativeArena : Type := mkNativeArena { arena_base : Z; arena_size : Z }.

Section Arena.
Context `{HostOs}.

(** [NativeArena::reserve]: a fresh range without any access. *)
Definition reserve (h : HostMem) (size preferred_base : Z) : option (NativeArena * HostMem) :=
  match checked_align_up size page_size with
  | None => None
  | Some rounded_size =>
      if negb (preferred_base =? 0) && negb (preferred_base mod page_size =? 0) then None
      else
        match os_mmap (hm_calls h) rounded_size preferred_base with
        | None => None
        | Some pointer =>
            if negb (preferred_base =? 0) && negb (pointer =? preferred_base) then None
            else
              Some (mkNativeArena pointer rounded_size,
                    mkHostMem
                      (fun a => if in_range pointer rounded_size a then zero_byte else hm_byte h a)
                      (fun a => if in_range pointer rounded_size a then PROT_NONE
                                else hm_prot h a)
                      (S (hm_calls h)))
        end
  end.

(** [NativeArena::protect]. *)
Definition arena_protect (arena : NativeArena) (h : HostMem) (offset size protection : Z)
  : bool * HostMem :=
  if (arena_base arena =? 0) || (size =? 0) then (false, h)
  else if negb (offset mod page_size =? 0) || (arena_size arena <? offset) then (false, h)
  else
    match checked_align_up size page_size with
    | None => (false, h)
    | Some rounded_size =>
        if arena_size arena - offset <? rounded_size then (false, h)
        else
          let pointer := arena_base arena + offset in
          let prot := posix_protection protection in
          if os_mprotect (hm_calls h) pointer rounded_size prot
          then (true, host_set_prot h pointer rounded_size prot)
          else (false, host_failed_call h)
    end.

(** [NativeArena::copy]. *)
Definition arena_copy (arena : NativeArena) (h : HostMem) (offset : Z) (bytes : list byte)
  : result (bool * HostMem) :=
  if (arena_base arena =? 0) || (arena_size arena <? offset)
     || (arena_size arena - offset <? zlen bytes)
  then Ok (false, h)
  else (fun h => (true, h)) <$> host_memcpy h (arena_base arena + offset) bytes.

(** [NativeArena::flush_instruction_cache]. *)
Definition arena_flush (arena : NativeArena) (offset size : Z) : bool :=
  negb ((arena_base arena =? 0) || (arena_size arena <? offset)
        || (arena_size arena - offset <? size)).

(** [NativeArena::host_pointer]. *)
Definition host_pointer (arena : NativeArena) (offset : Z) : option Z :=
  if (arena_base arena =? 0) || (arena_size arena <? offset) then None
  else Some (arena_base arena + offset).

(** [NativeArena::release]: the destructor unmaps the range, so that every
    later access to it faults. *)
Definition release (arena : NativeArena) (h : HostMem) : HostMem :=
  if arena_base arena =? 0 then h
  else host_set_prot h (arena_base arena) (arena_size arena) PROT_NONE.

End Arena.

(** ** Lemmas *)

Lemma has_posix p flag :
  flag = prot_read \/ flag = prot_write \/ flag = prot_execute ->
  has (posix_protection p) flag = has p flag.
Proof.
  unfold posix_protection.
  destruct (has p prot_read) eqn:H1, (has p prot_write) eqn:H2, (has p prot_execute) eqn:H3;
    intros [-> | [-> | ->]]; rewrite ?H1, ?H2, ?H3; done.
Qed.

Lemma in_range_true addr size a : in_range addr size a = true <-> addr <= a < addr + size.
Proof. unfold in_range. rewrite andb_true_iff, Z.leb_le, Z.ltb_lt. done. Qed.
Lemma in_range_false addr size a : in_range addr size a = false <-> ~ addr <= a < addr + size.
Proof. rewrite <- in_range_true. by destruct (in_range _ _ _). Qed.

Lemma host_writable_true h addr size :
  0 <= size ->
  host_writable h addr size = true <->
  forall a, addr <= a < addr + size -> has (hm_prot h a) PROT_WRITE = true.
Proof.
  intros Hs. unfold host_writable. rewrite forallb_forall. split.
  - intros Hall a Ha. specialize (Hall (Z.to_nat (a - addr))).
    replace (addr + Z.of_nat (Z.to_nat (a - addr))) with a in Hall by lia.
    apply Hall, in_seq. lia.
  - intros Hall i Hi%in_seq. apply Hall. lia.
Qed.

Lemma host_bytes_length h addr size : 0 <= size -> zlen (host_bytes h addr size) = size.
Proof. intros. unfold host_bytes. rewrite length_map, length_seq. lia. Qed.

Lemma host_bytes_get h addr size i :
  0 <= i < size -> zget (host_bytes h addr size) i = Some (hm_byte h (addr + i)).
Proof.
  intros Hi. unfold zget, host_bytes. destruct (Z.ltb_spec i 0); [lia|].
  rewrite list_lookup_fmap, lookup_seq_lt by lia. cbn. do 2 f_equal. lia.
Qed.

Lemma host_put_get h addr bytes a :
  hm_byte (host_put h addr bytes) a =
  if in_range addr (zlen bytes) a then default zero_byte (zget bytes (a - addr)) else hm_byte h a.
Proof.
  unfold host_put. cbn. destruct (in_range addr (zlen bytes) a) eqn:Hr.
  - apply in_range_true in Hr. destruct (zget_is_Some bytes (a - addr)) as [b ->]; [lia|done].
  - apply in_range_false in Hr. destruct (zget bytes (a - addr)) as [b|] eqn:Hb; [|done].
    apply zget_Some_lt in Hb. lia.
Qed.

Lemma host_bytes_ext h h' addr size :
  (forall a, addr <= a < addr + size -> hm_byte h' a = hm_byte h a) ->
  host_bytes h' addr size = host_bytes h addr size.
Proof. intros He. apply map_ext_in. intros i Hi%in_seq. apply He. lia. Qed.

Lemma host_bytes_put h addr bytes : host_bytes (host_put h addr bytes) addr (zlen bytes) = bytes.
Proof.
  apply zget_ext.
  { pose proof (host_bytes_length (host_put h addr bytes) addr (zlen bytes)). lia. }
  intros i Hi. rewrite host_bytes_length in Hi by lia.
  rewrite host_bytes_get, host_put_get by done.
  rewrite (proj2 (in_range_true _ _ _)) by lia. replace (addr + i - addr) with i by lia.
  destruct (zget_is_Some bytes i) as [b Hb]; [lia|]. by rewrite Hb.
Qed.

Lemma host_bytes_put_ne h addr bytes addr' size :
  addr' + size <= addr \/ addr + zlen bytes <= addr' ->
  host_bytes (host_put h addr bytes) addr' size = host_bytes h addr' size.
Proof.
  intros Hd. apply host_bytes_ext. intros a Ha. rewrite host_put_get.
  by rewrite (proj2 (in_range_false _ _ _)) by lia.
Qed.

(** The 64-bit word at an address. *)
Definition host_word (h : HostMem) (addr : Z) : Z := le_decode (host_bytes h addr 8).

Lemma host_word_put h addr v : in_u64 v -> host_word (host_put h addr (le_encode 8 v)) addr = v.
Proof.
  intros Hv. unfold host_word. pose proof (host_bytes_put h addr (le_encode 8 v)) as Hb.
  rewrite le_encode_length in Hb. change (Z.of_nat 8) with 8 in Hb. rewrite Hb.
  by apply le_decode_encode_u64.
Qed.

Section ArenaLemmas.
Context `{HostOs, !HostOsLaws H}.

(** What a call to [protect] does to the host: on success the pages of the
    range get the protection, otherwise nothing changes. *)
Lemma arena_protect_spec arena h offset size prot ok h' :
  in_u64 size -> arena_protect arena h offset size prot = (ok, h') ->
  (forall a, hm_byte h' a = hm_byte h a) /\
  (ok = true ->
    0 < size /\ offset mod page_size = 0 /\ arena_base arena <> 0 /\
    exists rounded, size <= rounded < size + page_size /\ rounded mod page_size = 0 /\
      offset + rounded <= arena_size arena /\
      forall a, hm_prot h' a =
        if in_range (arena_base arena + offset) rounded a then posix_protection prot
        else hm_prot h a) /\
  (ok = false -> forall a, hm_prot h' a = hm_prot h a).
Proof.
  unfold arena_protect. intros Hs Hp. pose proof page_size_pos.
  destruct (_ || _) eqn:E1; [by simplify_eq|]. destruct (_ || _) eqn:E2 in Hp; [by simplify_eq|].
  destruct (checked_align_up size page_size) as [rounded|] eqn:E3; [|by simplify_eq].
  apply checked_align_up_Some in E3 as (Hr & Hm & _ & Hpos); [|done|unfold in_u64; lia].
  destruct (Z.ltb_spec (arena_size arena - offset) rounded); [by simplify_eq|].
  apply orb_false_iff in E1 as [E1 _], E2 as [E2 _].
  apply Z.eqb_neq in E1. apply negb_false_iff, Z.eqb_eq in E2.
  destruct (os_mprotect _ _ _ _); simplify_eq; split; try done; (split; [|done]);
    intros _; split_and!; try done. exists rounded. split_and!; try done; lia.
Qed.

(** Whole pages: the protection changes on exactly the range. *)
Lemma arena_protect_exact arena h offset size prot h' :
  in_u64 size -> size mod page_size = 0 ->
  arena_protect arena h offset size prot = (true, h') ->
  (forall a, hm_byte h' a = hm_byte h a) /\
  forall a, hm_prot h' a = if in_range (arena_base arena + offset) size a
                           then posix_protection prot else hm_prot h a.
Proof.
  intros Hs Hm Hp. destruct (arena_protect_spec _ _ _ _ _ _ _ Hs Hp) as (Hb & Ht & _).
  destruct (Ht eq_refl) as (_ & _ & _ & rounded & Hr & Hrm & _ & Ha). split; [done|].
  assert (rounded = size) as ->; [|done]. pose proof page_size_pos.
  assert ((rounded - size) mod page_size = 0) as Hz by (by rewrite Zminus_mod, Hrm, Hm).
  rewrite Z.mod_small in Hz by lia. lia.
Qed.

Lemma arena_protect_aligned arena h offset size prot h' :
  arena_protect arena h offset size prot = (true, h') -> offset mod page_size = 0.
Proof.
  unfold arena_protect. intros Hp. destruct (_ || _); [done|].
  destruct (Z.eqb_spec (offset mod page_size) 0); [done|]. by simplify_eq.
Qed.

Lemma arena_copy_spec arena h offset bytes ok h' :
  arena_copy arena h offset bytes = Ok (ok, h') ->
  (ok = false /\ h' = h) \/
  (ok = true /\ h' = host_put h (arena_base arena + offset) bytes /\
   offset + zlen bytes <= arena_size arena).
Proof.
  unfold arena_copy, host_memcpy. intros Hc. destruct (_ || _) eqn:E; inv_result; [by left|].
  right. apply orb_false_iff in E as [_ E]. apply Z.ltb_ge in E. split_and!; try done. lia.
Qed.

Lemma arena_copy_fails arena h offset bytes h' :
  arena_copy arena h offset bytes = Ok (false, h') -> arena_base arena <> 0 ->
  arena_size arena < offset + zlen bytes.
Proof.
  unfold arena_copy. intros Hc Hb. destruct (Z.eqb_spec (arena_base arena) 0); [done|].
  cbn [orb] in Hc. destruct (_ || _) eqn:E; [|inv_result; by simplify_eq].
  apply orb_true_iff in E as [E|E]; apply Z.ltb_lt in E; lia.
Qed.

(** What a reservation is: fresh pages without access. *)
Lemma reserve_spec h size want arena h' :
  in_u64 size -> reserve h size want = Some (arena, h') ->
  size <= arena_size arena < size + page_size /\ arena_size arena mod page_size = 0 /\
  0 < arena_base arena /\ arena_base arena + arena_size arena <= u64_max /\
  arena_base arena mod page_size = 0 /\
  (forall a, hm_prot h' a = if in_range (arena_base arena) (arena_size arena) a then PROT_NONE
                            else hm_prot h a) /\
  (forall a, hm_byte h' a = if in_range (arena_base arena) (arena_size arena) a then zero_byte
                            else hm_byte h a).
Proof.
  intros Hs. unfold reserve. pose proof page_size_pos.
  destruct (checked_align_up size page_size) as [rounded|] eqn:Hr; [|done].
  apply checked_align_up_Some in Hr as (Hr & Hm & Hu & _); [|done|unfold in_u64; lia].
  destruct (_ && _); [done|]. destruct (os_mmap _ _ _) as [p|] eqn:Hp; [|done].
  apply os_mmap_range in Hp as (? & ? & ?). destruct (_ && _); [done|]. intros [= <- <-]. done.
Qed.

End ArenaLemmas.

(** ** What the operations on an arena leave alone *)

(** [h'] is [h] outside the arena. *)
Definition inside (arena : NativeArena) (h h' : HostMem) : Prop :=
  forall a, ~ arena_base arena <= a < arena_base arena + arena_size arena ->
    hm_byte h' a = hm_byte h a /\ hm_prot h' a = hm_prot h a.

#[export] Instance inside_preorder arena : PreOrder (inside arena).
Proof.
  split; [by intros h a|]. intros h1 h2 h3 H12 H23 a Ha.
  destruct (H12 a Ha), (H23 a Ha). split; congruence.
Qed.

Section Inside.
Context `{HostOs, !HostOsLaws H}.

Lemma reserve_inside h size want arena h' :
  in_u64 size -> reserve h size want = Some (arena, h') -> inside arena h h'.
Proof.
  intros Hs Hr. apply reserve_spec in Hr as (_ & _ & _ & _ & _ & Hp & Hb); [|done].
  intros a Ha. rewrite Hp, Hb. by rewrite (proj2 (in_range_false _ _ _)) by lia.
Qed.

Lemma protect_inside arena h offset size prot ok h' :
  in_u64 size -> 0 <= offset -> arena_protect arena h offset size prot = (ok, h') -> inside arena h h'.
Proof.
  intros Hs Ho Hp. destruct (arena_protect_spec _ _ _ _ _ _ _ Hs Hp) as (Hb & Ht & Hf). intros a Ha.
  split; [apply Hb|]. destruct ok; [|by apply Hf].
  destruct (Ht eq_refl) as (_ & _ & _ & rounded & _ & _ & Hfit & Hpr). rewrite Hpr.
  by rewrite (proj2 (in_range_false _ _ _)) by lia.
Qed.

Lemma copy_inside arena h offset bs ok h' :
  0 <= offset -> arena_copy arena h offset bs = Ok (ok, h') -> inside arena h h'.
Proof.
  intros Ho Hc. apply arena_copy_spec in Hc as [[_ ->]|(_ & -> & Hfit)]; [done|]. intros a Ha.
  split; [|done]. rewrite host_put_get. by rewrite (proj2 (in_range_false _ _ _)) by lia.
Qed.

Lemma release_inside arena h : inside arena h (release arena h).
Proof.
  intros a Ha. unfold release. destruct (_ =? 0); [done|]. split; [done|]. cbn.
  by rewrite (proj2 (in_range_false _ _ _)) by lia.
Qed.
End Inside.

(** ** A concrete host *)

(** A host whose [mmap] answers another megabyte at each call. *)
Definition step_host : HostOs := {|
  page_size := 4096;
  os_mmap := fun n size want =>
    if (size <=? 1048576) && (Z.of_nat n <? 1048576) then Some (1048576 * (Z.of_nat n + 1)) else None;
  os_mprotect := fun _ _ _ _ => true |}.

Lemma step_host_laws : HostOsLaws step_host.
Proof.
  split; cbn; [lia|]. intros n size want p. case_match; [|done]. bools. intros [= <-].
  split_and!; [lia|lia|]. replace (1048576 * _) with ((256 * (Z.of_nat n + 1)) * 4096) by ring.
  apply Z.mod_mul. lia.
Qed.
