(* ===== verification/X86.v ===== *)
(** * The processor of the emitted code

    The semantics of the machine code that
    [src/src/runtime/native_thread.cpp], [src/src/runtime/late_imports.cpp],
    [src/src/runtime/cpu_patches.cpp] and [src/src/runtime/hle_registry.cpp]
    write byte by byte: a decoder and a step function for the x86-64
    instructions they emit, in the encodings of the architecture manual
    (prefixes, REX, ModRM, SIB, displacements and immediates), the unaligned
    moves of XMM registers included.  A byte sequence outside this subset does not decode and the
    processor is stuck, so a theorem that a piece of code runs to its end also
    says that it contains nothing else.

    The memory is the host memory of NativeArena.v: fetching needs the execute
    permission, loading the read permission and storing the write permission.
    Addresses are flat; the segments FS and GS add their base.  The flags are
    ZF, SF, CF, OF and PF. *)

From S2P Require Import Prelude NativeArena.

Local Open Scope Z_scope.

(** ** Instructions *)

(** The general purpose registers, by their number in an encoding. *)
Abbreviation rax := 0.
Abbreviation rcx := 1.
Abbreviation rdx := 2.
Abbreviation rbx := 3.
Abbreviation rsp := 4.
Abbreviation rbp := 5.
Abbreviation rsi := 6.
Abbreviation rdi := 7.
Abbreviation r8 := 8.
Abbreviation r9 := 9.
Abbreviation r10 := 10.
Abbreviation r11 := 11.
Abbreviation r12 := 12.
Abbreviation r13 := 13.
Abbreviation r14 := 14.
Abbreviation r15 := 15.

Inductive segment : Type := seg_none | seg_fs | seg_gs.
Inductive address_base : Type := base_none | base_rip | base_reg (r : Z).

Record mem_operand : Type := mkMem {
  mo_segment : segment;
  mo_base : address_base;
  mo_disp : Z;
}.

Inductive operand : Type := op_reg (r : Z) | op_mem (m : mem_operand).

Inductive alu_op : Type := alu_add | alu_sub | alu_and | alu_xor | alu_cmp.

Inductive instr : Type :=
| PUSH (r : Z)
| POP (r : Z)
| MOV (dst src : operand)
| MOVI (dst : operand) (imm : Z)
| LEA (dst : Z) (m : mem_operand)
| ALU (op : alu_op) (dst src : operand)
| ALUI (op : alu_op) (dst : operand) (imm : Z)
| TEST (dst src : operand)
| INC (dst : operand)
| XOR32 (dst src : Z)
| XORPS (dst src : Z)
| MOVDQU_LD (dst : Z) (m : mem_operand)
| MOVDQU_ST (m : mem_operand) (src : Z)
| JCC (on_zero : bool) (rel : Z)
| JMP (rel : Z)
| JMPR (target : operand)
| CALLR (target : operand)
| RET.

(** ** Decoding

    [bs] is the rest of the instruction; a decoder answers what it read and
    the number of bytes it took. *)

Definition to_i8 (z : Z) : Z := if z <? 128 then z else z - 256.

Definition imm8 (bs : list byte) : option Z :=
  match bs with b :: _ => Some (to_i8 (byte_val b)) | [] => None end.

Definition imm32 (bs : list byte) : option Z :=
  match bs with
  | b0 :: b1 :: b2 :: b3 :: _ => Some (to_i32 (le_decode [b0; b1; b2; b3]))
  | _ => None
  end.

Definition byte_at (bs : list byte) (n : nat) : option Z := byte_val <$> bs !! n.

Definition ext (b : bool) (r : Z) : Z := if b then r + 8 else r.

(** ModRM, SIB (without an index) and displacement: the register field, the
    operand of the r/m field and the bytes taken. *)
Definition decode_modrm (seg : segment) (rex_r rex_b : bool) (bs : list byte)
  : option (Z * operand * nat) :=
  b ← byte_at bs 0;
  let md := b / 64 in
  let reg := ext rex_r (b / 8 mod 8) in
  let rm := b mod 8 in
  if md =? 3 then Some (reg, op_reg (ext rex_b rm), 1%nat)
  else
    '(base, n) ←
      (if rm =? 4 then
         s ← byte_at bs 1;
         if negb (s / 8 mod 8 =? 4) then None
         else Some (if (md =? 0) && (s mod 8 =? 5) then base_none
                    else base_reg (ext rex_b (s mod 8)), 2%nat)
       else Some (if (md =? 0) && (rm =? 5) then base_rip
                  else base_reg (ext rex_b rm), 1%nat));
    if md =? 1 then
      d ← imm8 (drop n bs); Some (reg, op_mem (mkMem seg base d), (n + 1)%nat)
    else if (md =? 2) || (match base with base_reg _ => false | _ => true end) then
      d ← imm32 (drop n bs); Some (reg, op_mem (mkMem seg base d), (n + 4)%nat)
    else Some (reg, op_mem (mkMem seg base 0), n).

(** The group of opcodes [0x81] and [0x83], by its register field. *)
Definition alu_group (reg : Z) : option alu_op :=
  if reg =? 0 then Some alu_add else if reg =? 4 then Some alu_and
  else if reg =? 5 then Some alu_sub else if reg =? 6 then Some alu_xor
  else if reg =? 7 then Some alu_cmp else None.

(** The group of opcode [0xff]. *)
Definition ff_group (w : bool) (reg : Z) (o : operand) : option instr :=
  if (reg =? 0) && w then Some (INC o) else if reg =? 2 then Some (CALLR o)
  else if reg =? 4 then Some (JMPR o) else None.

(** An instruction with a ModRM byte and no immediate. *)
Definition rm_instr (op : Z) (w : bool) (reg : Z) (o : operand) : option instr :=
  if op =? 0xff then ff_group w reg o
  else if w then
    if op =? 0x01 then Some (ALU alu_add o (op_reg reg))
    else if op =? 0x89 then Some (MOV o (op_reg reg))
    else if op =? 0x8b then Some (MOV (op_reg reg) o)
    else if op =? 0x85 then Some (TEST o (op_reg reg))
    else if op =? 0x33 then Some (ALU alu_xor (op_reg reg) o)
    else if op =? 0x3b then Some (ALU alu_cmp (op_reg reg) o)
    else if op =? 0x8d then match o with op_mem m => Some (LEA reg m) | op_reg _ => None end
    else None
  else if op =? 0x31 then match o with op_reg r => Some (XOR32 r reg) | op_mem _ => None end
  else None.

(** The opcode and what follows it. *)
Definition decode_opcode (seg : segment) (w rex_r rex_b : bool) (bs : list byte)
  : option (instr * nat) :=
  op ← byte_at bs 0;
  let rest := drop 1 bs in
  if (0x50 <=? op) && (op <=? 0x57) then Some (PUSH (ext rex_b (op - 0x50)), 1%nat)
  else if (0x58 <=? op) && (op <=? 0x5f) then Some (POP (ext rex_b (op - 0x58)), 1%nat)
  else if op =? 0xc3 then Some (RET, 1%nat)
  else if op =? 0x74 then d ← imm8 rest; Some (JCC true d, 2%nat)
  else if op =? 0x75 then d ← imm8 rest; Some (JCC false d, 2%nat)
  else if op =? 0xe9 then d ← imm32 rest; Some (JMP d, 5%nat)
  else if op =? 0x0f then
    op2 ← byte_at bs 1;
    '(reg, o, n) ← decode_modrm seg rex_r rex_b (drop 2 bs);
    match o with
    | op_reg r => if (op2 =? 0x57) then Some (XORPS reg r, (2 + n)%nat) else None
    | op_mem _ => None
    end
  else
    '(reg, o, n) ← decode_modrm seg rex_r rex_b rest;
    if (op =? 0x83) && w then
      a ← alu_group reg; d ← imm8 (drop n rest); Some (ALUI a o d, (2 + n)%nat)
    else if (op =? 0x81) && w then
      a ← alu_group reg; d ← imm32 (drop n rest); Some (ALUI a o d, (5 + n)%nat)
    else if (op =? 0xc7) && w && (reg =? 0) then
      d ← imm32 (drop n rest); Some (MOVI o d, (5 + n)%nat)
    else i ← rm_instr op w reg o; Some (i, (1 + n)%nat).

(** REX, when there is one. *)
Definition decode_rex (seg : segment) (bs : list byte) : option (instr * nat) :=
  b ← byte_at bs 0;
  if b / 16 =? 4 then
    '(i, n) ← decode_opcode seg (Z.testbit b 3) (Z.testbit b 2) (Z.testbit b 0) (drop 1 bs);
    Some (i, S n)
  else decode_opcode seg false false false bs.

(** What follows the prefix [0xf3]: [movdqu] from or to memory. *)
Definition decode_movdqu (bs : list byte) : option (instr * nat) :=
  b ← byte_at bs 0;
  let has_rex := b / 16 =? 4 in
  let k := if has_rex then 1%nat else 0%nat in
  op1 ← byte_at bs k; op2 ← byte_at bs (S k);
  '(reg, o, n) ← decode_modrm seg_none (has_rex && Z.testbit b 2) (has_rex && Z.testbit b 0) (drop (2 + k) bs);
  match o with
  | op_mem m =>
      if negb (op1 =? 0x0f) then None
      else if op2 =? 0x6f then Some (MOVDQU_LD reg m, (2 + k + n)%nat)
      else if op2 =? 0x7f then Some (MOVDQU_ST m reg, (2 + k + n)%nat)
      else None
  | op_reg _ => None
  end.

(** At most one prefix: FS, GS, [movdqu]'s or LOCK, the latter on a memory
    operand. *)
Definition decode (bs : list byte) : option (instr * nat) :=
  b ← byte_at bs 0;
  if b =? 0x64 then '(i, n) ← decode_rex seg_fs (drop 1 bs); Some (i, S n)
  else if b =? 0x65 then '(i, n) ← decode_rex seg_gs (drop 1 bs); Some (i, S n)
  else if b =? 0xf0 then
    '(i, n) ← decode_rex seg_none (drop 1 bs);
    match i with INC (op_mem _) => Some (i, S n) | _ => None end
  else if b =? 0xf3 then '(i, n) ← decode_movdqu (drop 1 bs); Some (i, S n)
  else decode_rex seg_none bs.

(** ** The state *)

Record Flags : Type := mkFlags {
  fl_zero : bool; fl_sign : bool; fl_carry : bool; fl_overflow : bool; fl_parity : bool;
}.

Record Cpu : Type := mkCpu {
  cpu_reg : Z -> Z;
  cpu_xmm : Z -> Z;
  cpu_flags : Flags;
  cpu_fs : Z;
  cpu_gs : Z;
  cpu_rip : Z;
  cpu_mem : HostMem;
}.

Definition upd (f : Z -> Z) (r v : Z) : Z -> Z := fun x => if x =? r then v else f x.

Definition set_reg (c : Cpu) (r v : Z) : Cpu :=
  mkCpu (upd (cpu_reg c) r v) (cpu_xmm c) (cpu_flags c) (cpu_fs c) (cpu_gs c) (cpu_rip c) (cpu_mem c).
Definition set_xmm (c : Cpu) (r v : Z) : Cpu :=
  mkCpu (cpu_reg c) (upd (cpu_xmm c) r v) (cpu_flags c) (cpu_fs c) (cpu_gs c) (cpu_rip c) (cpu_mem c).
Definition set_flags (c : Cpu) (f : Flags) : Cpu :=
  mkCpu (cpu_reg c) (cpu_xmm c) f (cpu_fs c) (cpu_gs c) (cpu_rip c) (cpu_mem c).
Definition set_rip (c : Cpu) (a : Z) : Cpu :=
  mkCpu (cpu_reg c) (cpu_xmm c) (cpu_flags c) (cpu_fs c) (cpu_gs c) a (cpu_mem c).
Definition set_mem (c : Cpu) (h : HostMem) : Cpu :=
  mkCpu (cpu_reg c) (cpu_xmm c) (cpu_flags c) (cpu_fs c) (cpu_gs c) (cpu_rip c) h.

(** Whether the host lets every byte of a range be accessed. *)
Definition host_allows (flag : Z) (h : HostMem) (addr size : Z) : bool :=
  forallb (fun i => has (hm_prot h (addr + Z.of_nat i)) flag) (seq 0 (Z.to_nat size)).

Definition load64 (h : HostMem) (a : Z) : option Z :=
  if host_allows PROT_READ h a 8 then Some (host_word h a) else None.

Definition store64 (c : Cpu) (a v : Z) : option Cpu :=
  if host_allows PROT_WRITE (cpu_mem c) a 8
  then Some (set_mem c (host_put (cpu_mem c) a (le_encode 8 v))) else None.

(** The 16 bytes of an XMM register. *)
Definition host_xmm (h : HostMem) (a : Z) : Z := le_decode (host_bytes h a 16).

Definition load128 (h : HostMem) (a : Z) : option Z :=
  if host_allows PROT_READ h a 16 then Some (host_xmm h a) else None.

Definition store128 (c : Cpu) (a v : Z) : option Cpu :=
  if host_allows PROT_WRITE (cpu_mem c) a 16
  then Some (set_mem c (host_put (cpu_mem c) a (le_encode 16 v))) else None.

(** ** Operands *)

(** [c] has the address of the next instruction in [rip]. *)
Definition effective (c : Cpu) (m : mem_operand) : Z :=
  wrap64 (match mo_segment m with seg_none => 0 | seg_fs => cpu_fs c | seg_gs => cpu_gs c end +
          match mo_base m with
          | base_none => 0 | base_rip => cpu_rip c | base_reg r => cpu_reg c r
          end + mo_disp m).

(** What [lea] computes: the segment does not count. *)
Definition effective_offset (c : Cpu) (m : mem_operand) : Z :=
  effective c (mkMem seg_none (mo_base m) (mo_disp m)).

Definition read_operand (c : Cpu) (o : operand) : option Z :=
  match o with
  | op_reg r => Some (cpu_reg c r)
  | op_mem m => load64 (cpu_mem c) (effective c m)
  end.

Definition write_operand (c : Cpu) (o : operand) (v : Z) : option Cpu :=
  match o with
  | op_reg r => Some (set_reg c r v)
  | op_mem m => store64 c (effective c m) v
  end.

(** ** Arithmetic *)

(** PF: the low byte has an even number of ones. *)
Definition parity_even (r : Z) : bool :=
  negb (foldr (fun i acc => xorb (Z.testbit r i) acc) false [0; 1; 2; 3; 4; 5; 6; 7]).

Definition flags_of (r : Z) (carry overflow : bool) : Flags :=
  mkFlags (r =? 0) (Z.testbit r 63) carry overflow (parity_even r).

(** The result of an operation on 64-bit words and the flags it sets. *)
Definition alu (op : alu_op) (a b : Z) : Z * Flags :=
  match op with
  | alu_add =>
      let r := wrap64 (a + b) in
      (r, flags_of r (u64_max <? a + b) (negb (to_i64 a + to_i64 b =? to_i64 r)))
  | alu_sub | alu_cmp =>
      let r := wrap64 (a - b) in
      (r, flags_of r (a <? b) (negb (to_i64 a - to_i64 b =? to_i64 r)))
  | alu_and => let r := Z.land a b in (r, flags_of r false false)
  | alu_xor => let r := Z.lxor a b in (r, flags_of r false false)
  end.

(** [inc] keeps CF. *)
Definition inc_flags (f : Flags) (a r : Z) : Flags :=
  mkFlags (r =? 0) (Z.testbit r 63) (fl_carry f) (to_i64 a =? i64_max) (parity_even r).

Definition exec_alu (c : Cpu) (op : alu_op) (dst : operand) (a b : Z) : option Cpu :=
  let '(r, f) := alu op a b in
  c ← match op with alu_cmp => Some c | _ => write_operand c dst r end;
  Some (set_flags c f).

(** ** Execution *)

Definition push (c : Cpu) (v : Z) : option Cpu :=
  let sp := wrap64 (cpu_reg c rsp - 8) in
  store64 (set_reg c rsp sp) sp v.

Definition pop (c : Cpu) : option (Z * Cpu) :=
  v ← load64 (cpu_mem c) (cpu_reg c rsp);
  Some (v, set_reg c rsp (wrap64 (cpu_reg c rsp + 8))).

Definition exec (i : instr) (c : Cpu) : option Cpu :=
  match i with
  | PUSH r => push c (cpu_reg c r)
  | POP r => '(v, c) ← pop c; Some (set_reg c r v)
  | MOV dst src => v ← read_operand c src; write_operand c dst v
  | MOVI dst imm => write_operand c dst (wrap64 imm)
  | LEA dst m => Some (set_reg c dst (effective_offset c m))
  | ALU op dst src => a ← read_operand c dst; b ← read_operand c src; exec_alu c op dst a b
  | ALUI op dst imm => a ← read_operand c dst; exec_alu c op dst a (wrap64 imm)
  | TEST dst src =>
      a ← read_operand c dst; b ← read_operand c src; Some (set_flags c (snd (alu alu_and a b)))
  | INC dst =>
      a ← read_operand c dst;
      let r := wrap64 (a + 1) in
      c ← write_operand c dst r; Some (set_flags c (inc_flags (cpu_flags c) a r))
  | XOR32 dst src =>
      let r := Z.lxor (wrap32 (cpu_reg c dst)) (wrap32 (cpu_reg c src)) in
      Some (set_flags (set_reg c dst r)
              (mkFlags (r =? 0) (Z.testbit r 31) false false (parity_even r)))
  | XORPS dst src => Some (set_xmm c dst (Z.lxor (cpu_xmm c dst) (cpu_xmm c src)))
  | MOVDQU_LD dst m => v ← load128 (cpu_mem c) (effective c m); Some (set_xmm c dst v)
  | MOVDQU_ST m src => store128 c (effective c m) (cpu_xmm c src)
  | JCC on_zero rel =>
      Some (if Bool.eqb (fl_zero (cpu_flags c)) on_zero
            then set_rip c (wrap64 (cpu_rip c + rel)) else c)
  | JMP rel => Some (set_rip c (wrap64 (cpu_rip c + rel)))
  | JMPR o => t ← read_operand c o; Some (set_rip c t)
  | CALLR o => t ← read_operand c o; c ← push c (cpu_rip c); Some (set_rip c t)
  | RET => '(t, c) ← pop c; Some (set_rip c t)
  end.

(** The longest instruction of the architecture. *)
Definition max_instruction := 15.

(** One instruction; [None] when the processor faults or the bytes are not in
    the subset. *)
Definition step (c : Cpu) : option Cpu :=
  '(i, n) ← decode (host_bytes (cpu_mem c) (cpu_rip c) max_instruction);
  if host_allows PROT_EXEC (cpu_mem c) (cpu_rip c) (Z.of_nat n)
  then exec i (set_rip c (wrap64 (cpu_rip c + Z.of_nat n))) else None.

Definition steps : relation Cpu := rtc (fun c c' => step c = Some c').

(** [n] instructions, for evaluation. *)
Fixpoint run (n : nat) (c : Cpu) : option Cpu :=
  match n with O => Some c | S n => c ← step c; run n c end.

(** ** Code in memory *)

(** The bytes [l] are an encoding of [i], whatever follows them. *)
Definition encodes (i : instr) (l : list byte) : Prop :=
  0 < zlen l <= max_instruction /\ forall rest, decode (l ++ rest) = Some (i, length l).

Create HintDb listings discriminated.

(** A listing: the instructions of a piece of code beside their bytes. *)
Definition listing : Type := list (instr * list byte).
Definition listing_ok (p : listing) : Prop := Forall (fun e => encodes (fst e) (snd e)) p.
Definition listing_bytes (p : listing) : list byte := concat (map snd p).

Lemma listing_ok_nil : listing_ok [].
Proof. by apply Forall_nil. Qed.
Lemma listing_ok_cons i l p : encodes i l -> listing_ok p -> listing_ok ((i, l) :: p).
Proof. intros. by apply Forall_cons. Qed.
Lemma listing_ok_app p q : listing_ok p -> listing_ok q -> listing_ok (p ++ q).
Proof. apply Forall_app_2. Qed.
Lemma listing_bytes_app p q : listing_bytes (p ++ q) = listing_bytes p ++ listing_bytes q.
Proof. unfold listing_bytes. by rewrite map_app, concat_app. Qed.
#[export] Hint Resolve listing_ok_nil listing_ok_cons listing_ok_app : listings.

(** Code is in memory: readable, executable and not writable. *)
Record code_at (h : HostMem) (base : Z) (code : list byte) : Prop := {
  ca_range : 0 <= base /\ base + zlen code <= u64_max;
  ca_bytes : host_bytes h base (zlen code) = code;
  ca_exec : forall a, base <= a < base + zlen code -> has (hm_prot h a) PROT_EXEC = true;
  ca_read_only : forall a, base <= a < base + zlen code -> has (hm_prot h a) PROT_WRITE = false;
}.

Lemma host_allows_true flag h addr size :
  0 <= size ->
  host_allows flag h addr size = true <->
  forall a, addr <= a < addr + size -> has (hm_prot h a) flag = true.
Proof.
  intros Hs. unfold host_allows. rewrite forallb_forall. split.
  - intros Hall a Ha. specialize (Hall (Z.to_nat (a - addr))).
    replace (addr + Z.of_nat (Z.to_nat (a - addr))) with a in Hall by lia.
    apply Hall, in_seq. lia.
  - intros Hall i Hi%in_seq. apply Hall. lia.
Qed.

Lemma host_allows_prot flag h h' addr size :
  0 <= size -> (forall a, addr <= a < addr + size -> hm_prot h' a = hm_prot h a) ->
  host_allows flag h' addr size = host_allows flag h addr size.
Proof.
  intros Hs Hp. apply eq_bool_prop_intro. rewrite !Is_true_true, !host_allows_true by done.
  split; intros Ha a Hr; [rewrite <- Hp by done|rewrite Hp by done]; by apply Ha.
Qed.

Lemma host_bytes_app h addr n m :
  0 <= n -> 0 <= m -> host_bytes h addr (n + m) = host_bytes h addr n ++ host_bytes h (addr + n) m.
Proof.
  intros. apply zget_ext; [rewrite length_app; unfold host_bytes; rewrite !length_map, !length_seq; lia|].
  intros i Hi. rewrite host_bytes_length in Hi by lia.
  rewrite zget_app, (host_bytes_length h addr n), host_bytes_get by lia.
  destruct (Z.ltb_spec i n); rewrite host_bytes_get by lia; [done|]. do 2 f_equal. lia.
Qed.

(** An instruction of the code steps as it is listed. *)
Lemma step_code c base pre i l post :
  code_at (cpu_mem c) base (pre ++ l ++ post) -> encodes i l -> cpu_rip c = base + zlen pre ->
  step c = exec i (set_rip c (base + zlen pre + zlen l)).
Proof.
  intros [Hr Hb Hx _] [Hl Hd] Hip. rewrite !length_app, !Nat2Z.inj_add in *. unfold max_instruction in *.
  assert (host_bytes (cpu_mem c) (base + zlen pre) (zlen l) = l) as Hbl.
  { rewrite host_bytes_app in Hb by lia. apply app_inj_1 in Hb as [_ Hb];
      [|pose proof (host_bytes_length (cpu_mem c) base (zlen pre)); lia].
    rewrite host_bytes_app in Hb by lia. apply app_inj_1 in Hb as [Hb _]; [done|].
    pose proof (host_bytes_length (cpu_mem c) (base + zlen pre) (zlen l)). lia. }
  unfold step. rewrite Hip. unfold max_instruction.
  replace 15 with (zlen l + (15 - zlen l)) by lia.
  rewrite host_bytes_app, Hbl, Hd by lia. cbn [mbind option_bind].
  rewrite (proj2 (host_allows_true _ _ _ _ (zlen_nonneg l))); [|intros a Ha; apply Hx; lia].
  rewrite wrap64_small by (unfold in_u64; lia). done.
Qed.

(** ** What an instruction can do to the memory *)

(** The memory is as before, or bytes that could be written have changed. *)
Definition mem_step (h h' : HostMem) : Prop :=
  h' = h \/ exists a bs, host_allows PROT_WRITE h a (zlen bs) = true /\ h' = host_put h a bs.

Lemma store64_mem c a v c' : store64 c a v = Some c' -> mem_step (cpu_mem c) (cpu_mem c').
Proof.
  unfold store64. destruct (host_allows _ _ _ _) eqn:Hw; [|done]. intros [= <-].
  right. by exists a, (le_encode 8 v).
Qed.

Lemma store128_mem c a v c' : store128 c a v = Some c' -> mem_step (cpu_mem c) (cpu_mem c').
Proof.
  unfold store128. destruct (host_allows _ _ _ _) eqn:Hw; [|done]. intros [= <-].
  right. by exists a, (le_encode 16 v).
Qed.

Lemma write_operand_mem c o v c' :
  write_operand c o v = Some c' -> mem_step (cpu_mem c) (cpu_mem c').
Proof. destruct o; cbn; [intros [= <-]; by left|apply store64_mem]. Qed.

Lemma push_mem c v c' : push c v = Some c' -> mem_step (cpu_mem c) (cpu_mem c').
Proof. apply store64_mem. Qed.

Lemma pop_mem c v c' : pop c = Some (v, c') -> cpu_mem c' = cpu_mem c.
Proof. unfold pop. intros (w & _ & [= _ <-])%bind_Some. done. Qed.

Create HintDb mem_step discriminated.
#[local] Hint Resolve store64_mem store128_mem write_operand_mem push_mem : mem_step.
#[local] Hint Extern 1 (mem_step _ _) => left; reflexivity : mem_step.

Lemma exec_mem i c c' : exec i c = Some c' -> mem_step (cpu_mem c) (cpu_mem c').
Proof.
  intros He. destruct i; cbn [exec] in He; unfold exec_alu in He;
    repeat match type of He with
    | (_ ≫= _) = Some _ =>
        let x := fresh "x" in let Hx := fresh "Hx" in apply bind_Some in He as (x & Hx & He)
    | (let '(_, _) := ?p in _) = Some _ => destruct p
    end; simplify_eq/=; eauto with mem_step.
  all: try match goal with
    | H : pop _ = Some _ |- _ => apply pop_mem in H; left; done
    | H : match ?op with _ => _ end = Some _ |- _ => destruct op; simplify_eq/=; eauto with mem_step
    end.
  by case_match; left.
Qed.

Lemma mem_step_prot h h' : mem_step h h' -> hm_prot h' = hm_prot h.
Proof. by intros [->|(? & ? & _ & ->)]. Qed.

Lemma mem_step_code h h' base code : mem_step h h' -> code_at h base code -> code_at h' base code.
Proof.
  intros Hm [Hr Hb Hx Hw]. pose proof (mem_step_prot _ _ Hm) as Hp.
  split; [done| |by rewrite Hp|by rewrite Hp].
  destruct Hm as [->|(a & bs & Ha & ->)]; [done|]. rewrite <- Hb at 2. apply host_bytes_ext.
  intros x Hin. rewrite host_put_get.
  destruct (in_range a (zlen bs) x) eqn:Hi; [|done]. apply in_range_true in Hi.
  rewrite host_allows_true in Ha by lia. specialize (Ha x Hi). by rewrite Hw in Ha.
Qed.

(** Code stays where it is: it cannot be written. *)
Lemma exec_code i c c' base code :
  exec i c = Some c' -> code_at (cpu_mem c) base code -> code_at (cpu_mem c') base code.
Proof. intros He%exec_mem. by apply mem_step_code. Qed.

(** ** Running a listing *)

(** One listed instruction, then the rest. *)
Lemma steps_code base pre i l post c c1 c2 :
  code_at (cpu_mem c) base (pre ++ l ++ post) -> encodes i l -> cpu_rip c = base + zlen pre ->
  exec i (set_rip c (base + zlen pre + zlen l)) = Some c1 ->
  (code_at (cpu_mem c1) base (pre ++ l ++ post) -> steps c1 c2) -> steps c c2.
Proof.
  intros Hc He Hip Hx Hs. eapply rtc_l.
  - cbn. erewrite step_code by done. exact Hx.
  - apply Hs. by eapply exec_code in Hx.
Qed.

(** Straight-line execution: every instruction leaves [rip] to the next one. *)
Fixpoint exec_listing (p : listing) (c : Cpu) : option Cpu :=
  match p with
  | [] => Some c
  | (i, l) :: p => c ← exec i (set_rip c (cpu_rip c + zlen l)); exec_listing p c
  end.

Lemma exec_listing_app p q c : exec_listing (p ++ q) c = exec_listing p c ≫= exec_listing q.
Proof.
  revert c. induction p as [|[i l] p IH]; intros c; [done|]. cbn [app exec_listing].
  destruct (exec i _) as [c1|]; [apply IH|done].
Qed.

Lemma exec_listing_code p c c' base code :
  exec_listing p c = Some c' -> code_at (cpu_mem c) base code -> code_at (cpu_mem c') base code.
Proof.
  revert c. induction p as [|[i l] p IH]; intros c Hx Hc; cbn in Hx; [by simplify_eq|].
  apply bind_Some in Hx as (c1 & Hi & Hx). eapply IH; [exact Hx|]. by eapply exec_code.
Qed.

Definition straight (i : instr) : bool :=
  match i with JCC _ _ | JMP _ | JMPR _ | CALLR _ | RET => false | _ => true end.

Lemma store64_rip c a v c' : store64 c a v = Some c' -> cpu_rip c' = cpu_rip c.
Proof. unfold store64. case_match; [|done]. by intros [= <-]. Qed.

Lemma store128_rip c a v c' : store128 c a v = Some c' -> cpu_rip c' = cpu_rip c.
Proof. unfold store128. case_match; [|done]. by intros [= <-]. Qed.

Lemma write_operand_rip c o v c' : write_operand c o v = Some c' -> cpu_rip c' = cpu_rip c.
Proof. destruct o; cbn; [by intros [= <-]|apply store64_rip]. Qed.

Lemma exec_straight_rip i c c' : straight i = true -> exec i c = Some c' -> cpu_rip c' = cpu_rip c.
Proof.
  intros Hs He. destruct i; cbn [exec straight] in *; try discriminate Hs;
    unfold exec_alu, push, pop in He;
    repeat match type of He with
    | (_ ≫= _) = Some _ =>
        let x := fresh "x" in let Hx := fresh "Hx" in apply bind_Some in He as (x & Hx & He)
    | (let '(_, _) := ?p in _) = Some _ => destruct p
    end; simplify_eq/=; try done.
  all: try (apply bind_Some in Hx as (? & ? & ?); simplify_eq/=; done).
  all: try (by eapply write_operand_rip); try (by eapply (store64_rip (set_reg c _ _))); try (by eapply store128_rip).
  all: match goal with H : match ?op with _ => _ end = Some _ |- _ => destruct op end;
    simplify_eq/=; try done; by eapply write_operand_rip.
Qed.

Lemma listing_bytes_cons i l p : listing_bytes ((i, l) :: p) = l ++ listing_bytes p.
Proof. done. Qed.

Lemma exec_listing_rip p : forall c c',
  forallb (fun e => straight (fst e)) p = true -> exec_listing p c = Some c' ->
  cpu_rip c' = cpu_rip c + zlen (listing_bytes p).
Proof.
  induction p as [|[i l] p IH]; cbn [exec_listing forallb fst]; intros c c' Hst Hx.
  { simplify_eq. cbn. lia. }
  apply andb_true_iff in Hst as [Hsi Hst]. apply bind_Some in Hx as (c1 & Hi & Hx).
  rewrite (IH _ _ Hst Hx), (exec_straight_rip _ _ _ Hsi Hi), listing_bytes_cons, length_app. cbn. lia.
Qed.

(** A straight-line stretch of the code runs to its end. *)
Lemma steps_listing base pre p post c c1 c2 :
  code_at (cpu_mem c) base (pre ++ listing_bytes p ++ post) -> listing_ok p ->
  forallb (fun e => straight (fst e)) p = true ->
  cpu_rip c = base + zlen pre -> exec_listing p c = Some c1 ->
  (code_at (cpu_mem c1) base (pre ++ listing_bytes p ++ post) ->
   cpu_rip c1 = base + zlen pre + zlen (listing_bytes p) -> steps c1 c2) ->
  steps c c2.
Proof.
  revert pre c. induction p as [|[i l] p IH]; intros pre c Hc Hok Hst Hip Hx Hs.
  { cbn in *. simplify_eq. apply Hs; [done|]. lia. }
  cbn [exec_listing forallb fst] in *. rewrite listing_bytes_cons in *.
  apply bind_Some in Hx as (c' & Hi & Hx). apply Forall_cons in Hok as [Hi' Hok].
  apply andb_true_iff in Hst as [Hsi Hst]. rewrite Hip in Hi.
  pose proof (exec_straight_rip _ _ _ Hsi Hi) as Hip'. cbn [cpu_rip set_rip] in Hip'.
  rewrite <- (app_assoc l) in Hc, Hs.
  eapply (steps_code base pre i l); [exact Hc|exact Hi'|exact Hip|exact Hi|]. intros Hc'.
  rewrite app_assoc in Hc', Hs. apply (IH (pre ++ l) c'); [done|done|done| |done|].
  - rewrite Hip', length_app. lia.
  - intros H1 H2. apply Hs; [done|]. rewrite H2, !length_app. lia.
Qed.

(** The same, by the offset of the instruction in the code. *)
Definition has_at (code : list byte) (n : nat) (l : list byte) : Prop :=
  take (length l) (drop n code) = l /\ (n <= length code)%nat.

Lemma has_at_cut code n l :
  has_at code n l -> exists post, code = take n code ++ l ++ post /\ length (take n code) = n.
Proof.
  intros [Hl Hn]. exists (drop (length l) (drop n code)). split.
  - rewrite <- Hl at 1. rewrite take_drop. by rewrite take_drop.
  - by apply length_take_le.
Qed.

Lemma steps_code_at code base n i l c c1 c2 :
  code_at (cpu_mem c) base code -> encodes i l -> has_at code n l ->
  cpu_rip c = base + Z.of_nat n -> exec i (set_rip c (base + Z.of_nat n + zlen l)) = Some c1 ->
  (code_at (cpu_mem c1) base code -> steps c1 c2) -> steps c c2.
Proof.
  intros Hc He (post & Hcut & Hn)%has_at_cut Hip Hx Hs. rewrite Hcut in Hc, Hs.
  eapply steps_code; [exact Hc|exact He|by rewrite Hn|by rewrite Hn|exact Hs].
Qed.

Lemma steps_listing_at code base n p c c1 c2 :
  code_at (cpu_mem c) base code -> listing_ok p -> has_at code n (listing_bytes p) ->
  forallb (fun e => straight (fst e)) p = true ->
  cpu_rip c = base + Z.of_nat n -> exec_listing p c = Some c1 ->
  (code_at (cpu_mem c1) base code ->
   cpu_rip c1 = base + Z.of_nat n + zlen (listing_bytes p) -> steps c1 c2) ->
  steps c c2.
Proof.
  intros Hc He (post & Hcut & Hn)%has_at_cut Hst Hip Hx Hs. rewrite Hcut in Hc, Hs.
  eapply steps_listing; [exact Hc|exact He|exact Hst|by rewrite Hn|exact Hx|by rewrite Hn].
Qed.

(** ** Words in memory *)

Lemma host_word_ext h h' a :
  (forall x, a <= x < a + 8 -> hm_byte h' x = hm_byte h x) -> host_word h' a = host_word h a.
Proof. intros He. unfold host_word. by rewrite (host_bytes_ext h h'). Qed.

Lemma host_word_u64 h a : in_u64 (host_word h a).
Proof.
  unfold host_word. pose proof (le_decode_bound (host_bytes h a 8)) as Hb.
  pose proof (host_bytes_length h a 8 ltac:(lia)) as Hl. apply (Nat2Z.inj _ 8) in Hl. rewrite Hl in Hb.
  exact Hb.
Qed.

Lemma host_put_word_byte h a v x :
  hm_byte (host_put h a (le_encode 8 v)) x = hm_byte h x \/ a <= x < a + 8.
Proof.
  rewrite host_put_get, le_encode_length. change (Z.of_nat 8) with 8.
  destruct (in_range a 8 x) eqn:Hi; [right; by apply in_range_true in Hi|by left].
Qed.

Lemma host_word_put_ne h a v b :
  b + 8 <= a \/ a + 8 <= b -> host_word (host_put h a (le_encode 8 v)) b = host_word h b.
Proof.
  intros Hd. apply host_word_ext. intros x Hx. destruct (host_put_word_byte h a v x); [done|lia].
Qed.

Lemma host_word_put_wrap h a v : host_word (host_put h a (le_encode 8 v)) a = wrap64 v.
Proof.
  rewrite <- (le_encode_mod 8 v). change (v mod 256 ^ Z.of_nat 8) with (wrap64 v).
  apply host_word_put, wrap64_range.
Qed.

Lemma upd_eq f r v : upd f r v r = v.
Proof. unfold upd. by rewrite Z.eqb_refl. Qed.
Lemma upd_ne f r v x : x <> r -> upd f r v x = f x.
Proof. unfold upd. intros. by destruct (Z.eqb_spec x r). Qed.

Lemma eight_nonneg : 0 <= 8.
Proof. lia. Qed.

(** The XMM words of the memory. *)
Lemma host_xmm_ext h h' a :
  (forall x, a <= x < a + 16 -> hm_byte h' x = hm_byte h x) -> host_xmm h' a = host_xmm h a.
Proof. intros He. unfold host_xmm. by rewrite (host_bytes_ext h h'). Qed.

Lemma host_xmm_put h a v : 0 <= v < 2 ^ 128 -> host_xmm (host_put h a (le_encode 16 v)) a = v.
Proof.
  intros Hv. unfold host_xmm. pose proof (host_bytes_put h a (le_encode 16 v)) as Hb.
  rewrite le_encode_length in Hb. change (Z.of_nat 16) with 16 in Hb. rewrite Hb, le_decode_encode.
  by apply Z.mod_small.
Qed.

Lemma load128_ok h a : host_allows PROT_READ h a 16 = true -> load128 h a = Some (host_xmm h a).
Proof. unfold load128. by intros ->. Qed.

Lemma store128_ok c a v :
  host_allows PROT_WRITE (cpu_mem c) a 16 = true ->
  store128 c a v = Some (set_mem c (host_put (cpu_mem c) a (le_encode 16 v))).
Proof. unfold store128. by intros ->. Qed.

(** Executes the first instruction of a listing and reads its registers. *)
Lemma exec_listing_cons i l p c :
  exec_listing ((i, l) :: p) c = exec i (set_rip c (cpu_rip c + zlen l)) ≫= exec_listing p.
Proof. done. Qed.

Lemma store64_ok c a v :
  host_allows PROT_WRITE (cpu_mem c) a 8 = true ->
  store64 c a v = Some (set_mem c (host_put (cpu_mem c) a (le_encode 8 v))).
Proof. unfold store64. by intros ->. Qed.

Lemma load64_ok h a : host_allows PROT_READ h a 8 = true -> load64 h a = Some (host_word h a).
Proof. unfold load64. by intros ->. Qed.

Ltac read_regs := repeat first [rewrite upd_eq | rewrite upd_ne by discriminate].

(** A register that is not in an explicit list, and one that is said to be. *)
Ltac reg_notin :=
  cbn; rewrite ?not_elem_of_cons; split_and?; try discriminate; try apply not_elem_of_nil.
Ltac reg_absurd Hin :=
  exfalso; cbn in Hin; rewrite ?elem_of_cons, ?elem_of_nil in Hin;
  repeat (destruct Hin as [Hin|Hin]; [discriminate Hin|]); destruct Hin.

Ltac exec_one :=
  rewrite exec_listing_cons;
  cbv [exec read_operand write_operand mbind option_bind exec_alu alu push pop effective_offset effective
       mo_segment mo_base mo_disp
       cpu_reg cpu_mem cpu_rip cpu_xmm cpu_flags cpu_fs cpu_gs
       set_reg set_rip set_flags set_mem set_xmm];
  read_regs.

(** ** Saving and restoring registers *)

(** A listing that pushes, or pops, the registers [rs]. *)
Definition pushes (rs : list Z) (p : listing) : Prop := map fst p = map PUSH rs.
Definition pops (rs : list Z) (p : listing) : Prop := map fst p = map POP rs.

(** [c'] is [c] but for its registers, its memory and its [rip]. *)
Record same_context (c c' : Cpu) : Prop := {
  sc_xmm : cpu_xmm c' = cpu_xmm c;
  sc_flags : cpu_flags c' = cpu_flags c;
  sc_fs : cpu_fs c' = cpu_fs c;
  sc_gs : cpu_gs c' = cpu_gs c;
}.

#[export] Instance same_context_preorder : PreOrder same_context.
Proof.
  split; [by intros c|]. intros c1 c2 c3 [] []. split; congruence.
Qed.

(** The pushes: every register is in its slot below the old [rsp]. *)
Record pushed (rs : list Z) (c c' : Cpu) : Prop := {
  pu_context : same_context c c';
  pu_regs r : r <> rsp -> cpu_reg c' r = cpu_reg c r;
  pu_rsp : cpu_reg c' rsp = cpu_reg c rsp - 8 * zlen rs;
  pu_slot (i : nat) r : rs !! i = Some r ->
    host_word (cpu_mem c') (cpu_reg c rsp - 8 * (Z.of_nat i + 1)) = wrap64 (cpu_reg c r);
  pu_mem a : ~ cpu_reg c rsp - 8 * zlen rs <= a < cpu_reg c rsp ->
    hm_byte (cpu_mem c') a = hm_byte (cpu_mem c) a;
  pu_prot : hm_prot (cpu_mem c') = hm_prot (cpu_mem c);
}.

Lemma exec_pushes rs p c :
  pushes rs p -> rsp ∉ rs -> 8 * zlen rs <= cpu_reg c rsp <= u64_max ->
  host_allows PROT_WRITE (cpu_mem c) (cpu_reg c rsp - 8 * zlen rs) (8 * zlen rs) = true ->
  exists c', exec_listing p c = Some c' /\ cpu_rip c' = cpu_rip c + zlen (listing_bytes p) /\
    pushed rs c c'.
Proof.
  revert rs c. induction p as [|[i l] p IH]; intros [|r rs] c Hp Hni Hsp Hw; try done.
  { exists c. split_and!; [done|cbn; lia|]. split; try done. by rewrite Z.sub_0_r. }
  unfold pushes in Hp. cbn [map fst] in Hp. injection Hp as -> Hp.
  apply not_elem_of_cons in Hni as [Hr Hni]. cbn [length] in *. rewrite Nat2Z.inj_succ in *.
  rewrite host_allows_true in Hw by lia.
  set (c1 := set_mem (set_reg (set_rip c (cpu_rip c + zlen l)) rsp (cpu_reg c rsp - 8))
               (host_put (cpu_mem c) (cpu_reg c rsp - 8) (le_encode 8 (cpu_reg c r)))).
  assert (exec (PUSH r) (set_rip c (cpu_rip c + zlen l)) = Some c1) as He.
  { cbn [exec]. unfold push, store64. cbn [cpu_reg cpu_mem set_reg set_rip].
    rewrite wrap64_small by (unfold in_u64; lia).
    rewrite (proj2 (host_allows_true _ _ _ 8 eight_nonneg)); [done|]. intros a Ha. apply Hw. lia. }
  assert (cpu_reg c1 rsp = cpu_reg c rsp - 8) as Hsp1 by done.
  assert (forall x, x <> rsp -> cpu_reg c1 x = cpu_reg c x) as Hr1 by (intros; by apply upd_ne).
  destruct (IH rs c1) as (c' & Hx & Hip & [Hcx Hrs Hsp' Hsl Hm Hpr]); [done|done|lia| |].
  { rewrite Hsp1, host_allows_true by lia. intros a Ha. apply Hw. lia. }
  exists c'. split_and!; [cbn [exec_listing]; by rewrite He| |].
  { rewrite listing_bytes_cons, length_app, Hip. cbn. lia. }
  rewrite Hsp1 in *. split.
  - etrans; [|exact Hcx]. done.
  - intros x Hx'. by rewrite Hrs, Hr1.
  - cbn [length]. lia.
  - intros [|j] x Hj; cbn in Hj.
    + injection Hj as <-. erewrite host_word_ext.
      * apply host_word_put_wrap.
      * intros a Ha. rewrite Hm; [done|lia].
    + rewrite <- (Hr1 x) by (apply list_elem_of_lookup_2 in Hj; by intros ->).
      rewrite <- (Hsl j x Hj). f_equal. lia.
  - cbn [length]. intros a Ha. rewrite Hm by lia.
    destruct (host_put_word_byte (cpu_mem c) (cpu_reg c rsp - 8) (cpu_reg c r) a) as [Hk|]; [exact Hk|lia].
  - by rewrite Hpr.
Qed.

(** The pops: every register has the word of its slot. *)
Record popped (rs : list Z) (c c' : Cpu) : Prop := {
  po_context : same_context c c';
  po_slot (i : nat) r : rs !! i = Some r ->
    cpu_reg c' r = host_word (cpu_mem c) (cpu_reg c rsp + 8 * Z.of_nat i);
  po_regs r : r <> rsp -> r ∉ rs -> cpu_reg c' r = cpu_reg c r;
  po_rsp : cpu_reg c' rsp = cpu_reg c rsp + 8 * zlen rs;
  po_mem : cpu_mem c' = cpu_mem c;
}.

Lemma exec_pops rs p c :
  pops rs p -> rsp ∉ rs -> NoDup rs -> 0 <= cpu_reg c rsp -> cpu_reg c rsp + 8 * zlen rs <= u64_max ->
  host_allows PROT_READ (cpu_mem c) (cpu_reg c rsp) (8 * zlen rs) = true ->
  exists c', exec_listing p c = Some c' /\ cpu_rip c' = cpu_rip c + zlen (listing_bytes p) /\
    popped rs c c'.
Proof.
  revert rs c. induction p as [|[i l] p IH]; intros [|r rs] c Hp Hni Hnd Hsp0 Hsp Hw; try done.
  { exists c. split_and!; [done|cbn; lia|]. split; try done. by rewrite Z.add_0_r. }
  unfold pops in Hp. cbn [map fst] in Hp. injection Hp as -> Hp.
  apply not_elem_of_cons in Hni as [Hr Hni]. apply NoDup_cons in Hnd as [Hrn Hnd].
  cbn [length] in *. rewrite Nat2Z.inj_succ in *. rewrite host_allows_true in Hw by lia.
  set (c1 := set_reg (set_reg (set_rip c (cpu_rip c + zlen l)) rsp (cpu_reg c rsp + 8))
               r (host_word (cpu_mem c) (cpu_reg c rsp))).
  assert (exec (POP r) (set_rip c (cpu_rip c + zlen l)) = Some c1) as He.
  { cbn [exec]. unfold pop, load64. cbn [cpu_reg cpu_mem set_reg set_rip].
    rewrite (proj2 (host_allows_true _ _ _ 8 eight_nonneg)) by (intros a Ha; apply Hw; lia).
    cbn [mbind option_bind]. by rewrite wrap64_small by (unfold in_u64; lia). }
  assert (cpu_reg c1 rsp = cpu_reg c rsp + 8) as Hsp1.
  { unfold c1. cbn [cpu_reg set_reg]. by rewrite upd_ne, upd_eq by done. }
  destruct (IH rs c1) as (c' & Hx & Hip & [Hcx Hsl Hrs Hsp' Hm]); [done|done|done|lia|lia| |].
  { rewrite Hsp1, host_allows_true by lia. intros a Ha. apply Hw. lia. }
  exists c'. split_and!; [cbn [exec_listing]; by rewrite He| |].
  { rewrite listing_bytes_cons, length_app, Hip. cbn. lia. }
  rewrite Hsp1 in *. split.
  - etrans; [|exact Hcx]. done.
  - intros [|j] x Hj; cbn in Hj.
    + injection Hj as <-. rewrite Hrs by done. unfold c1. cbn [cpu_reg set_reg].
      rewrite upd_eq. f_equal. lia.
    + rewrite (Hsl j x Hj). cbn [cpu_mem c1 set_reg set_rip]. f_equal. lia.
  - intros x Hx' Hn. apply not_elem_of_cons in Hn as [Hxr Hn]. rewrite Hrs by done.
    unfold c1. cbn [cpu_reg set_reg]. by rewrite !upd_ne by done.
  - cbn [length]. lia.
  - done.
Qed.

(** Evaluation is execution. *)
Lemma run_steps n c c' : run n c = Some c' -> steps c c'.
Proof.
  revert c. induction n as [|n IH]; cbn; intros c Hr; [simplify_eq; apply rtc_refl|].
  apply bind_Some in Hr as (c1 & Hs & Hr). eapply rtc_l; [exact Hs|]. by apply IH.
Qed.
