(* ===== verification/NativeThread.v ===== *)
(** * Guest stacks and the entry trampoline

    [src/src/runtime/native_thread.cpp] and
    [src/include/nyxora/runtime/native_thread.hpp] (POSIX, x86-64).

    A [GuestStack] is an arena whose first pages are left without access; the
    [EntryTrampoline] is a page of machine code that a host function pointer
    calls: it saves the host's registers, switches to the guest's stack, calls
    the guest and comes back, normally or, after a fault, at the recovery
    address with the stack pointer it recorded.  Its bytes are the source's;
    [invoke] is the call of the function pointer on the processor of X86.v. *)

From S2P Require Import Prelude NativeArena X86.

Local Open Scope Z_scope.

(** ** Guest stacks *)

Record GuestStack : Type := mkGuestStack { gst_arena : NativeArena; gst_base : Z; gst_size : Z }.

Definition stack_top (s : GuestStack) : Z := wrap64 (gst_base s + gst_size s).

Definition stack_contains (s : GuestStack) (address : Z) : bool :=
  (gst_base s <=? address) && (address <? stack_top s).

Section Create.
Context `{HostOs}.

(** [GuestStack::create]. *)
Definition create_stack (h : HostMem) (usable_size guard_pages : Z) : option GuestStack * HostMem :=
  match checked_align_up usable_size page_size with
  | None => (None, h)
  | Some rounded_usable =>
      if u64_max / page_size <? guard_pages then (None, h)
      else
        let guard_size := guard_pages * page_size in
        if u64_max - rounded_usable <? guard_size then (None, h)
        else
          match reserve h (guard_size + rounded_usable) 0 with
          | None => (None, h)
          | Some (arena, h) =>
              let '(ok, h) := arena_protect arena h guard_size rounded_usable
                                (prot_or prot_read prot_write) in
              if negb ok then (None, release arena h)
              else (Some (mkGuestStack arena (arena_base arena + guard_size) rounded_usable), h)
          end
  end.

End Create.

(** ** The trampoline's code *)

Definition trampoline_prefix : list byte := map byte_of_Z
  [ 0x55;                                      (* push rbp *)
    0x53;                                      (* push rbx *)
    0x41; 0x54;                                (* push r12 *)
    0x41; 0x55;                                (* push r13 *)
    0x41; 0x56;                                (* push r14 *)
    0x41; 0x57;                                (* push r15 *)
    0x4d; 0x85; 0xc9;                          (* test r9,r9 *)
    0x74; 0x03;                                (* jz +3 *)
    0x49; 0x89; 0x21;                          (* mov [r9],rsp *)
    0x49; 0x89; 0xfb;                          (* mov r11,rdi *)
    0x49; 0x89; 0xf6;                          (* mov r14,rsi *)
    0x48; 0x89; 0xd7;                          (* mov rdi,rdx *)
    0x48; 0x89; 0xce;                          (* mov rsi,rcx *)
    0x4c; 0x89; 0xc2;                          (* mov rdx,r8 *)
    0x49; 0x89; 0xe4;                          (* mov r12,rsp *)
    0x4c; 0x89; 0xf4;                          (* mov rsp,r14 *)
    0x48; 0x83; 0xe4; 0xf0;                    (* and rsp,-16 *)
    0x48; 0x83; 0xec; 0x10;                    (* sub rsp,16 *)
    0x48; 0xc7; 0x04; 0x24; 0x00;
    0x00; 0x00; 0x00;                          (* mov qword [rsp],0 *)
    0x48; 0xc7; 0x44; 0x24; 0x08;
    0x00; 0x00; 0x00; 0x00;                    (* mov qword [rsp+8],0 *)
    0x48; 0x89; 0xe5;                          (* mov rbp,rsp *)
    0x41; 0xff; 0xd3;                          (* call r11 *)
    0x4c; 0x89; 0xe4;                          (* mov rsp,r12 *)
    0x41; 0x5f;                                (* pop r15 *)
    0x41; 0x5e;                                (* pop r14 *)
    0x41; 0x5d;                                (* pop r13 *)
    0x41; 0x5c;                                (* pop r12 *)
    0x5b;                                      (* pop rbx *)
    0x5d;                                      (* pop rbp *)
    0xc3 ].                                    (* ret *)

Definition trampoline_recovery : list byte := map byte_of_Z
  [ 0x41; 0x5f;                                (* pop r15 *)
    0x41; 0x5e;                                (* pop r14 *)
    0x41; 0x5d;                                (* pop r13 *)
    0x41; 0x5c;                                (* pop r12 *)
    0x5b;                                      (* pop rbx *)
    0x5d;                                      (* pop rbp *)
    0x31; 0xc0;                                (* xor eax,eax *)
    0xc3 ].                                    (* ret *)

(** [build_entry_trampoline]: the code and the recovery offset. *)
Definition build_entry_trampoline : list byte * Z :=
  let code := trampoline_prefix in
  let recovery_offset := zlen code in
  (code ++ trampoline_recovery, recovery_offset).

(** ** The trampoline *)

Record EntryTrampoline : Type := mkEntryTrampoline { et_code : NativeArena; et_recovery_offset : Z }.

Definition recovery_address (t : EntryTrampoline) : Z :=
  if arena_base (et_code t) =? 0 then 0
  else wrap64 (arena_base (et_code t) + et_recovery_offset t).

Section CreateTrampoline.
Context `{HostOs}.

(** [EntryTrampoline::create]. *)
Definition create_trampoline (h : HostMem) : result (option EntryTrampoline * HostMem) :=
  let '(code, recovery_offset) := build_entry_trampoline in
  if (zlen code =? 0) || (zlen code <=? recovery_offset) then Ok (None, h)
  else
    match reserve h page_size 0 with
    | None => Ok (None, h)
    | Some (arena, h) =>
        let '(ok, h) := arena_protect arena h 0 page_size (prot_or prot_read prot_write) in
        if negb ok then Ok (None, release arena h)
        else
          '(ok, h) ← arena_copy arena h 0 code;
          if negb ok then Ok (None, release arena h)
          else if negb (arena_flush arena 0 (zlen code)) then Ok (None, release arena h)
          else
            let '(ok, h) := arena_protect arena h 0 page_size (prot_or prot_read prot_execute) in
            if negb ok then Ok (None, release arena h)
            else Ok (Some (mkEntryTrampoline arena recovery_offset), h)
    end.

End CreateTrampoline.

(** A call of a host function pointer with six integer arguments, in the
    System V convention; the caller continues at its [rip]. *)
Definition host_call (c : Cpu) (function a0 a1 a2 a3 a4 a5 : Z) : option Cpu :=
  let c := set_reg (set_reg (set_reg c rdi a0) rsi a1) rdx a2 in
  let c := set_reg (set_reg (set_reg c rcx a3) r8 a4) r9 a5 in
  c ← push c (cpu_rip c);
  Some (set_rip c function).

(** [EntryTrampoline::invoke], up to the first instruction of the code;
    [recovery] is the address of the [EntryRecoveryState], 0 for none. *)
Definition invoke (t : EntryTrampoline) (c : Cpu) (entry stack_top arg0 arg1 arg2 recovery : Z)
  : result (option Cpu) :=
  throw_if ((arena_base (et_code t) =? 0) || (entry =? 0) || (stack_top =? 0))
    (runtime_error "entry trampoline is not initialized") ;;
  Ok (host_call c (arena_base (et_code t)) entry stack_top arg0 arg1 arg2 recovery).
