(* ===== verification/NativeThreadProps.v ===== *)
(** * Properties of guest stacks and the entry trampoline

    What [create_stack] and [create_trampoline] leave in memory, and what the
    trampoline's code does: the call into the guest, the return and the
    recovery. *)

From S2P Require Import Prelude NativeArena X86 NativeThread.

Local Open Scope Z_scope.

(** ** Creation *)

Section Creation.
Context `{HostOs, !HostOsLaws H}.

(** The guest's stack is guarded: when [GuestStack::create] succeeds, every
    byte from [base()] up to [top()], at least the size asked for, can be read
    and written, and the [guard_pages] pages below [base()] have no access, so
    that running over the stack faults. *)
Lemma create_stack_guards h usable_size guard_pages s h' :
  in_u64 usable_size -> 0 <= guard_pages -> create_stack h usable_size guard_pages = (Some s, h') ->
  usable_size <= gst_size s < usable_size + page_size /\
  0 < gst_base s - guard_pages * page_size /\ stack_top s = gst_base s + gst_size s /\
  stack_top s mod page_size = 0 /\
  (forall a, stack_contains s a = true <-> gst_base s <= a < gst_base s + gst_size s) /\
  (forall a, gst_base s <= a < gst_base s + gst_size s ->
     hm_prot h' a = Z.lor PROT_READ PROT_WRITE) /\
  (forall a, gst_base s - guard_pages * page_size <= a < gst_base s -> hm_prot h' a = PROT_NONE).
Proof.
  intros Hu Hg. unfold create_stack. pose proof page_size_pos as Hpage.
  destruct (checked_align_up usable_size page_size) as [rounded|] eqn:Hr; [|done].
  apply checked_align_up_Some in Hr as (Hr & Hm & Hru & Hpos); [|done|unfold in_u64; lia].
  destruct (Z.ltb_spec (u64_max / page_size) guard_pages); [done|].
  destruct (Z.ltb_spec (u64_max - rounded) (guard_pages * page_size)); [done|].
  destruct (reserve _ _ _) as [[arena h1]|] eqn:Hres; [|done].
  assert (0 <= guard_pages * page_size) as Hnn by (apply Z.mul_nonneg_nonneg; lia).
  apply reserve_spec in Hres as (Hsz & Hszm & Hb & Htop & Hbm & Hprot & _); [|unfold in_u64 in *; lia].
  assert (arena_size arena = guard_pages * page_size + rounded) as Hsize.
  { assert ((guard_pages * page_size + rounded) mod page_size = 0) as Hz.
    { by rewrite Z.add_comm, Z.mod_add by lia. }
    assert ((arena_size arena - (guard_pages * page_size + rounded)) mod page_size = 0) as Hd
      by (by rewrite Zminus_mod, Hszm, Hz).
    rewrite Z.mod_small in Hd by lia. lia. }
  destruct (arena_protect _ _ _ _ _) as [[] h2] eqn:Hp; [|done]. intros [= <- <-]. cbn [gst_base gst_size].
  apply arena_protect_exact in Hp as [_ Hp]; [|done|done].
  assert (stack_top (mkGuestStack arena (arena_base arena + guard_pages * page_size) rounded) =
          arena_base arena + guard_pages * page_size + rounded) as Ht.
  { unfold stack_top. cbn. apply wrap64_small. unfold in_u64. lia. }
  split_and!; [lia|lia|lia|exact Ht| | | |].
  - rewrite Ht, <- Z.add_assoc, <- Hsize, Z.add_mod, Hbm, Hszm by lia. by rewrite Z.mod_0_l by lia.
  - intros a. unfold stack_contains. rewrite andb_true_iff, Z.leb_le, Z.ltb_lt, Ht. done.
  - intros a Ha. rewrite Hp, (proj2 (in_range_true _ _ _)) by done. done.
  - intros a Ha. rewrite Hp, (proj2 (in_range_false _ _ _)) by lia.
    rewrite Hprot, (proj2 (in_range_true _ _ _)) by lia. done.
Qed.

(** [EntryTrampoline::create] leaves the code readable and executable, and no
    longer writable, at the arena's base, and the recovery address inside it. *)
Lemma create_trampoline_code h t h' :
  create_trampoline h = Ok (Some t, h') ->
  code_at h' (arena_base (et_code t)) (fst build_entry_trampoline) /\
  0 < arena_base (et_code t) /\
  recovery_address t = arena_base (et_code t) + zlen trampoline_prefix.
Proof.
  unfold create_trampoline. cbn [build_entry_trampoline fst].
  set (code := trampoline_prefix ++ trampoline_recovery).
  assert (zlen code = 97) as Hl by reflexivity.
  assert (zlen trampoline_prefix = 84) as Hlp by reflexivity.
  pose proof page_size_pos as Hpage. destruct (_ || _); [done|].
  destruct (reserve _ _ _) as [[arena h1]|] eqn:Hres; [|done].
  apply reserve_spec in Hres as (Hsz & Hszm & Hb & Htop & Hbm & _); [|unfold in_u64; lia].
  destruct (arena_protect arena h1 _ _ _) as [[] h2] eqn:Hp1; [|done]. cbn [negb].
  intros Hc. inv_result. destruct r as [ok h3]. apply arena_copy_spec in Hr as [[-> ->]|(-> & -> & Hfit)];
    [done|]. cbn [negb] in Hc. destruct (negb (arena_flush _ _ _)); [done|].
  destruct (arena_protect arena (host_put _ _ _) _ _ _) as [[] h4] eqn:Hp2; [|done].
  cbn [negb] in Hc. simplify_eq. cbn [et_code et_recovery_offset].
  apply arena_protect_exact in Hp2 as [Hb2 Hp2]; [|unfold in_u64; lia|by apply Z.mod_same; lia].
  rewrite !Z.add_0_r in *.
  assert (arena_size arena = page_size) as Hsame.
  { assert ((arena_size arena - page_size) mod page_size = 0) as Hd
      by (by rewrite Zminus_mod, Hszm, Z.mod_same by lia).
    rewrite Z.mod_small in Hd by lia. lia. }
  assert (forall a, arena_base arena <= a < arena_base arena + zlen code ->
    hm_prot h' a = Z.lor PROT_READ PROT_EXEC) as Hprot.
  { intros a Ha. rewrite Hp2, (proj2 (in_range_true _ _ _)); [done|]. lia. }
  split_and!; [|done|].
  - split; [lia| |by intros a Ha; rewrite Hprot|by intros a Ha; rewrite Hprot].
    rewrite (host_bytes_ext (host_put h2 (arena_base arena) code) h'); [apply host_bytes_put|].
    intros a _. apply Hb2.
  - unfold recovery_address. cbn [et_code et_recovery_offset].
    destruct (Z.eqb_spec (arena_base arena) 0); [lia|]. apply wrap64_small. unfold in_u64.
    rewrite Hlp, Hl in *. lia.
Qed.

End Creation.

(** ** The listing of the code *)

Abbreviation at_ r d := (op_mem (mkMem seg_none (base_reg r) d)).
Abbreviation bytes l := (map byte_of_Z l).

(** The callee-saved registers, in the order in which they are pushed. *)
Definition saved : list Z := [rbp; rbx; r12; r13; r14; r15].

Definition save_listing : listing :=
  [ (PUSH rbp, bytes [0x55]); (PUSH rbx, bytes [0x53]); (PUSH r12, bytes [0x41; 0x54]);
    (PUSH r13, bytes [0x41; 0x55]); (PUSH r14, bytes [0x41; 0x56]); (PUSH r15, bytes [0x41; 0x57]) ].

Definition test_code : list byte := bytes [0x4d; 0x85; 0xc9].
Definition jz_code : list byte := bytes [0x74; 0x03].
Definition record_code : list byte := bytes [0x49; 0x89; 0x21].

Definition switch_listing : listing :=
  [ (MOV (op_reg r11) (op_reg rdi), bytes [0x49; 0x89; 0xfb]);
    (MOV (op_reg r14) (op_reg rsi), bytes [0x49; 0x89; 0xf6]);
    (MOV (op_reg rdi) (op_reg rdx), bytes [0x48; 0x89; 0xd7]);
    (MOV (op_reg rsi) (op_reg rcx), bytes [0x48; 0x89; 0xce]);
    (MOV (op_reg rdx) (op_reg r8), bytes [0x4c; 0x89; 0xc2]);
    (MOV (op_reg r12) (op_reg rsp), bytes [0x49; 0x89; 0xe4]);
    (MOV (op_reg rsp) (op_reg r14), bytes [0x4c; 0x89; 0xf4]);
    (ALUI alu_and (op_reg rsp) (-16), bytes [0x48; 0x83; 0xe4; 0xf0]);
    (ALUI alu_sub (op_reg rsp) 16, bytes [0x48; 0x83; 0xec; 0x10]);
    (MOVI (at_ rsp 0) 0, bytes [0x48; 0xc7; 0x04; 0x24; 0; 0; 0; 0]);
    (MOVI (at_ rsp 8) 0, bytes [0x48; 0xc7; 0x44; 0x24; 0x08; 0; 0; 0; 0]);
    (MOV (op_reg rbp) (op_reg rsp), bytes [0x48; 0x89; 0xe5]) ].

Definition call_code : list byte := bytes [0x41; 0xff; 0xd3].
Definition back_code : list byte := bytes [0x4c; 0x89; 0xe4].

Definition restore_listing : listing :=
  [ (POP r15, bytes [0x41; 0x5f]); (POP r14, bytes [0x41; 0x5e]); (POP r13, bytes [0x41; 0x5d]);
    (POP r12, bytes [0x41; 0x5c]); (POP rbx, bytes [0x5b]); (POP rbp, bytes [0x5d]) ].

Definition ret_code : list byte := bytes [0xc3].
Definition xor_code : list byte := bytes [0x31; 0xc0].

Definition code : list byte := fst build_entry_trampoline.

(** Every instruction of the listing has its encoding. *)
Ltac encodes := split; [vm_compute; split; [reflexivity|discriminate]|intros rest; vm_compute; reflexivity].

Lemma save_ok : listing_ok save_listing.
Proof. unfold listing_ok, save_listing. repeat (apply Forall_cons; split; [encodes|]). constructor. Qed.
Lemma switch_ok : listing_ok switch_listing.
Proof. unfold listing_ok, switch_listing. repeat (apply Forall_cons; split; [encodes|]). constructor. Qed.
Lemma restore_ok : listing_ok restore_listing.
Proof. unfold listing_ok, restore_listing. repeat (apply Forall_cons; split; [encodes|]). constructor. Qed.
Lemma test_ok : encodes (TEST (op_reg r9) (op_reg r9)) test_code.
Proof. encodes. Qed.
Lemma jz_ok : encodes (JCC true 3) jz_code.
Proof. encodes. Qed.
Lemma record_ok : encodes (MOV (at_ r9 0) (op_reg rsp)) record_code.
Proof. encodes. Qed.
Lemma call_r11_ok : encodes (CALLR (op_reg r11)) call_code.
Proof. encodes. Qed.
Lemma back_ok : encodes (MOV (op_reg rsp) (op_reg r12)) back_code.
Proof. encodes. Qed.
Lemma ret_ok : encodes RET ret_code.
Proof. encodes. Qed.
Lemma xor_ok : encodes (XOR32 rax rax) xor_code.
Proof. encodes. Qed.


Lemma code_is_the_listing :
  code = listing_bytes save_listing ++ test_code ++ jz_code ++ record_code ++
         listing_bytes switch_listing ++ call_code ++ back_code ++
         listing_bytes restore_listing ++ ret_code ++
         listing_bytes restore_listing ++ xor_code ++ ret_code.
Proof. vm_compute. reflexivity. Qed.

(** ** The stretches of the code *)

Lemma land_minus_16 x : in_u64 x -> Z.land x (wrap64 (-16)) = x - x mod 16.
Proof.
  exact (land_high_mask 64 4 x ltac:(lia)).
Qed.

(** An instruction is at its offset in the code. *)
Ltac here := split; [vm_compute; reflexivity|apply Nat.leb_le; vm_compute; reflexivity].

(** The registers of two states agree but for the ones in [rs]. *)
Definition regs_but (rs : list Z) (c c' : Cpu) : Prop :=
  forall r, r ∉ rs -> cpu_reg c' r = cpu_reg c r.

(** The memory of two states agrees where [P] does not hold. *)
Definition mem_but (P : Z -> Prop) (c c' : Cpu) : Prop :=
  hm_prot (cpu_mem c') = hm_prot (cpu_mem c) /\
  forall a, ~ P a -> hm_byte (cpu_mem c') a = hm_byte (cpu_mem c) a.

(** The three instructions that record the host's stack pointer. *)
Lemma run_record base c :
  code_at (cpu_mem c) base code -> cpu_rip c = base + 10 -> in_u64 (cpu_reg c r9) ->
  (cpu_reg c r9 <> 0 -> host_allows PROT_WRITE (cpu_mem c) (cpu_reg c r9) 8 = true) ->
  exists c1, steps c c1 /\ code_at (cpu_mem c1) base code /\ cpu_rip c1 = base + 18 /\
    cpu_reg c1 = cpu_reg c /\ cpu_xmm c1 = cpu_xmm c /\ cpu_fs c1 = cpu_fs c /\ cpu_gs c1 = cpu_gs c /\
    cpu_mem c1 = (if cpu_reg c r9 =? 0 then cpu_mem c
                  else host_put (cpu_mem c) (cpu_reg c r9) (le_encode 8 (cpu_reg c rsp))).
Proof.
  intros Hc Hip Hr9 Hw. pose proof (ca_range _ _ _ Hc) as Hrange. change (zlen code) with 97 in Hrange.
  set (c1 := set_flags (set_rip c (base + 10 + 3)) (snd (alu alu_and (cpu_reg c r9) (cpu_reg c r9)))).
  assert (fl_zero (cpu_flags c1) = (cpu_reg c r9 =? 0)) as Hz by (cbn; by rewrite Z.land_diag).
  set (c2 := set_rip c1 (base + 13 + 2)).
  assert (forall c3, (if cpu_reg c r9 =? 0 then c3 = set_rip c2 (wrap64 (base + 13 + 2 + 3))
                      else exec (MOV (at_ r9 0) (op_reg rsp)) (set_rip c2 (base + 15 + 3)) = Some c3) ->
          code_at (cpu_mem c3) base code /\ steps c c3) as Hsteps.
  { intros c3 H3. assert (code_at (cpu_mem c3) base code) as Hc3.
    { destruct (cpu_reg c r9 =? 0); [by subst c3|]. eapply exec_code; [exact H3|done]. }
    split; [exact Hc3|].
    eapply (steps_code_at code base 10); [exact Hc|exact test_ok|here|exact Hip|reflexivity|]. intros Hc1.
    eapply (steps_code_at code base 13 _ _ c1); [exact Hc1|exact jz_ok|here|cbn; lia|reflexivity|].
    change (cpu_flags (set_rip c1 _)) with (cpu_flags c1). rewrite Hz. fold c2.
    destruct (cpu_reg c r9 =? 0); cbn [Bool.eqb]; intros Hc2; [subst c3; apply rtc_refl|].
    eapply (steps_code_at code base 15); [exact Hc2|exact record_ok|here|cbn; lia|exact H3|].
    intros _. apply rtc_refl. }
  destruct (Z.eqb_spec (cpu_reg c r9) 0) as [H0|H0].
  - eexists. destruct (Hsteps _ eq_refl) as [Hc3 Hs]. split_and!; [exact Hs|exact Hc3| |done..].
    cbn. rewrite wrap64_small; unfold in_u64; lia.
  - assert (exec (MOV (at_ r9 0) (op_reg rsp)) (set_rip c2 (base + 15 + 3)) =
      Some (set_mem (set_rip c2 (base + 15 + 3))
              (host_put (cpu_mem c) (cpu_reg c r9) (le_encode 8 (cpu_reg c rsp))))) as He.
    { cbn [exec read_operand write_operand mbind option_bind]. unfold effective.
      cbn [mo_segment mo_base mo_disp cpu_reg set_rip set_flags c1 c2].
      rewrite Z.add_0_r, Z.add_0_l, wrap64_small by done.
      rewrite store64_ok by (by apply Hw). done. }
    eexists. destruct (Hsteps _ He) as [Hc3 Hs]. split_and!; [exact Hs|exact Hc3| |done..]. cbn. lia.
Qed.

(** The stretch that switches to the guest's stack. *)
Lemma exec_switch c :
  in_u64 (cpu_reg c rsi) ->
  let top := cpu_reg c rsi - cpu_reg c rsi mod 16 in
  16 <= top -> host_allows PROT_WRITE (cpu_mem c) (top - 16) 16 = true ->
  exists c', exec_listing switch_listing c = Some c' /\
    cpu_reg c' rdi = cpu_reg c rdx /\ cpu_reg c' rsi = cpu_reg c rcx /\
    cpu_reg c' rdx = cpu_reg c r8 /\ cpu_reg c' r11 = cpu_reg c rdi /\
    cpu_reg c' r12 = cpu_reg c rsp /\ cpu_reg c' rsp = top - 16 /\ cpu_reg c' rbp = top - 16 /\
    regs_but [rdi; rsi; rdx; r11; r12; r14; rsp; rbp] c c' /\
    cpu_xmm c' = cpu_xmm c /\ cpu_fs c' = cpu_fs c /\ cpu_gs c' = cpu_gs c /\
    cpu_mem c' = host_put (host_put (cpu_mem c) (top - 16) (le_encode 8 0)) (top - 8) (le_encode 8 0).
Proof.
  intros Hsi top Ht Hw.
  assert (wrap64 (Z.land (cpu_reg c rsi) (wrap64 (-16)) - wrap64 16) = top - 16) as Hsp.
  { rewrite land_minus_16 by done. apply wrap64_small. unfold top, in_u64, wrap64 in *.
    Z.div_mod_to_equations. lia. }
  assert (in_u64 top) as Hu.
  { unfold top, in_u64 in *. Z.div_mod_to_equations. lia. }
  rewrite host_allows_true in Hw by lia.
  destruct c as [f x fl fs gs ip h]. cbn [cpu_reg cpu_mem cpu_xmm cpu_fs cpu_gs] in *.
  assert (wrap64 (0 + (top - 16) + 0) = top - 16) as Ha0 by (rewrite wrap64_small; unfold in_u64 in *; lia).
  assert (wrap64 (0 + (top - 16) + 8) = top - 8) as Ha8.
  { rewrite wrap64_small by (unfold in_u64 in *; lia). ring. }
  eexists. split.
  - unfold switch_listing. do 9 exec_one. rewrite Hsp.
    exec_one. rewrite Ha0. rewrite store64_ok by (apply host_allows_true; [lia|intros a Ha; apply Hw; lia]).
    exec_one. rewrite Ha8. rewrite store64_ok by (apply host_allows_true; [lia|intros a Ha; apply Hw; lia]).
    exec_one. reflexivity.
  - cbn [cpu_reg cpu_mem cpu_xmm cpu_fs cpu_gs set_mem]. read_regs. split_and!; try done.
    intros r Hr. rewrite !not_elem_of_cons in Hr. cbn [cpu_reg].
    destruct Hr as (? & ? & ? & ? & ? & ? & ? & ? & _). by rewrite !upd_ne by done.
Qed.

(** ** The whole call *)

(** The guest's stack pointer is aligned down to 16 bytes. *)
Definition aligned_top (c : Cpu) : Z := cpu_reg c rsi - cpu_reg c rsi mod 16.

(** The host's frame: the six saved registers and the return address. *)
Definition in_frame (sp a : Z) : Prop := sp - 48 <= a < sp + 8.

(** Where the trampoline may write: the saved registers, the three words on
    top of the guest's stack and the recovery record. *)
Definition written (c : Cpu) (a : Z) : Prop :=
  cpu_reg c rsp - 48 <= a < cpu_reg c rsp \/ aligned_top c - 24 <= a < aligned_top c \/
  (cpu_reg c r9 <> 0 /\ cpu_reg c r9 <= a < cpu_reg c r9 + 8).

(** What the caller of the trampoline provides: room on the host's stack, a
    guest stack, and a recovery record when there is one, all apart. *)
Record ready (c : Cpu) : Prop := {
  rd_regs r : in_u64 (cpu_reg c r);
  rd_stack : 48 <= cpu_reg c rsp /\ cpu_reg c rsp + 8 <= u64_max;
  rd_frame_write : host_allows PROT_WRITE (cpu_mem c) (cpu_reg c rsp - 48) 48 = true;
  rd_frame_read : host_allows PROT_READ (cpu_mem c) (cpu_reg c rsp - 48) 56 = true;
  rd_guest : 24 <= aligned_top c;
  rd_guest_write : host_allows PROT_WRITE (cpu_mem c) (aligned_top c - 24) 24 = true;
  rd_record : cpu_reg c r9 <> 0 -> host_allows PROT_WRITE (cpu_mem c) (cpu_reg c r9) 8 = true;
  rd_apart a : in_frame (cpu_reg c rsp) a -> ~ aligned_top c - 24 <= a < aligned_top c;
  rd_record_apart a : cpu_reg c r9 <> 0 -> cpu_reg c r9 <= a < cpu_reg c r9 + 8 ->
    ~ in_frame (cpu_reg c rsp) a /\ ~ aligned_top c - 24 <= a < aligned_top c;
}.

(** The offsets of the return from the guest and of the recovery. *)
Definition return_offset : Z := 70.
Definition recovery_offset : Z := snd build_entry_trampoline.

(** The guest has been called. *)
Record called (base : Z) (c ce : Cpu) : Prop := {
  cl_code : code_at (cpu_mem ce) base code;
  cl_rip : cpu_rip ce = cpu_reg c rdi;
  cl_args : cpu_reg ce rdi = cpu_reg c rdx /\ cpu_reg ce rsi = cpu_reg c rcx /\
            cpu_reg ce rdx = cpu_reg c r8;
  cl_rsp : cpu_reg ce rsp = aligned_top c - 24;
  cl_rbp : cpu_reg ce rbp = aligned_top c - 16;
  cl_r12 : cpu_reg ce r12 = cpu_reg c rsp - 48;
  cl_return : host_word (cpu_mem ce) (aligned_top c - 24) = base + return_offset;
  cl_frame_end : host_word (cpu_mem ce) (aligned_top c - 16) = 0 /\
                 host_word (cpu_mem ce) (aligned_top c - 8) = 0;
  cl_saved (i : nat) r : saved !! i = Some r ->
    host_word (cpu_mem ce) (cpu_reg c rsp - 8 * (Z.of_nat i + 1)) = cpu_reg c r;
  cl_recorded : cpu_reg c r9 <> 0 ->
    host_word (cpu_mem ce) (cpu_reg c r9) = cpu_reg c rsp - 48;
  cl_mem : mem_but (written c) c ce;
  cl_context : cpu_xmm ce = cpu_xmm c /\ cpu_fs ce = cpu_fs c /\ cpu_gs ce = cpu_gs c;
}.

(** The memory of the call, built up word by word. *)
Lemma called_memory c c1 h2 :
  ready c -> pushed saved c c1 ->
  h2 = (if cpu_reg c r9 =? 0 then cpu_mem c1
        else host_put (cpu_mem c1) (cpu_reg c r9) (le_encode 8 (cpu_reg c rsp - 48))) ->
  forall ret h, in_u64 ret ->
  h = host_put (host_put (host_put h2 (aligned_top c - 16) (le_encode 8 0))
         (aligned_top c - 8) (le_encode 8 0)) (aligned_top c - 24) (le_encode 8 ret) ->
  host_word h (aligned_top c - 24) = ret /\
  host_word h (aligned_top c - 16) = 0 /\ host_word h (aligned_top c - 8) = 0 /\
  (forall (i : nat) r, saved !! i = Some r ->
     host_word h (cpu_reg c rsp - 8 * (Z.of_nat i + 1)) = cpu_reg c r) /\
  (cpu_reg c r9 <> 0 -> host_word h (cpu_reg c r9) = cpu_reg c rsp - 48) /\
  (forall a, ~ written c a -> hm_byte h a = hm_byte (cpu_mem c) a) /\
  hm_prot h = hm_prot (cpu_mem c).
Proof.
  intros Hr Hp Hh2 ret h Hret ->. pose proof (rd_regs _ Hr rsp) as Hsp. pose proof (rd_stack _ Hr) as Hst.
  pose proof (rd_apart _ Hr) as Hap. pose proof (rd_record_apart _ Hr) as Hrp. unfold in_frame in *.
  assert (forall a, ~ aligned_top c - 24 <= a < aligned_top c ->
    hm_byte (host_put (host_put (host_put h2 (aligned_top c - 16) (le_encode 8 0))
         (aligned_top c - 8) (le_encode 8 0)) (aligned_top c - 24) (le_encode 8 ret)) a = hm_byte h2 a) as Hb.
  { intros a Ha. rewrite !host_put_get, !le_encode_length. change (Z.of_nat 8) with 8.
    by rewrite !(proj2 (in_range_false _ _ _)) by lia. }
  assert (forall a, ~ (cpu_reg c r9 <> 0 /\ cpu_reg c r9 <= a < cpu_reg c r9 + 8) ->
    hm_byte h2 a = hm_byte (cpu_mem c1) a) as Hb2.
  { intros a Ha. subst h2. destruct (Z.eqb_spec (cpu_reg c r9) 0); [done|].
    rewrite host_put_get, le_encode_length. change (Z.of_nat 8) with 8.
    by rewrite (proj2 (in_range_false _ _ _)) by lia. }
  split_and!.
  - by apply host_word_put.
  - rewrite !host_word_put_ne by lia. by apply host_word_put.
  - rewrite host_word_put_ne by lia. by apply host_word_put.
  - intros i r Hi. pose proof (pu_slot _ _ _ Hp i r Hi) as Hs.
    rewrite wrap64_small in Hs by apply Hr. rewrite <- Hs.
    apply lookup_lt_Some in Hi. cbn [length saved] in Hi. apply host_word_ext. intros a Ha.
    rewrite Hb by (apply Hap; lia). apply Hb2. intros [Hn Hin]. destruct (Hrp a Hn Hin) as [Hno _]. lia.
  - intros Hn. rewrite (host_word_ext h2).
    + subst h2. destruct (Z.eqb_spec (cpu_reg c r9) 0); [done|]. apply host_word_put.
      unfold in_u64 in *. lia.
    + intros a Ha. apply Hb. by apply Hrp.
  - unfold written. intros a Ha. rewrite Hb, Hb2 by tauto.
    apply (pu_mem _ _ _ Hp). cbn [length saved]. lia.
  - transitivity (hm_prot h2); [done|]. rewrite <- (pu_prot _ _ _ Hp). subst h2. by case_match.
Qed.

(** From the switch to the first instruction of the guest. *)
Lemma run_switch base c :
  code_at (cpu_mem c) base code -> cpu_rip c = base + 18 -> in_u64 (cpu_reg c rsi) ->
  24 <= aligned_top c -> host_allows PROT_WRITE (cpu_mem c) (aligned_top c - 24) 24 = true ->
  exists ce, steps c ce /\ code_at (cpu_mem ce) base code /\ cpu_rip ce = cpu_reg c rdi /\
    (cpu_reg ce rdi = cpu_reg c rdx /\ cpu_reg ce rsi = cpu_reg c rcx /\ cpu_reg ce rdx = cpu_reg c r8) /\
    cpu_reg ce rsp = aligned_top c - 24 /\ cpu_reg ce rbp = aligned_top c - 16 /\
    cpu_reg ce r12 = cpu_reg c rsp /\
    (cpu_xmm ce = cpu_xmm c /\ cpu_fs ce = cpu_fs c /\ cpu_gs ce = cpu_gs c) /\
    cpu_mem ce = host_put (host_put (host_put (cpu_mem c) (aligned_top c - 16) (le_encode 8 0))
         (aligned_top c - 8) (le_encode 8 0)) (aligned_top c - 24) (le_encode 8 (base + return_offset)).
Proof.
  intros Hc Hip Hu Ht Hw. assert (aligned_top c <= cpu_reg c rsi) as Hle.
  { unfold aligned_top, in_u64 in *. Z.div_mod_to_equations. lia. }
  rewrite host_allows_true in Hw by lia.
  destruct (exec_switch c) as (c1 & Hx & Hdi & Hsi & Hdx & H11 & H12 & Hsp & Hbp & _ & Hxmm & Hfs & Hgs & Hm);
    [done|unfold aligned_top in *; lia|apply host_allows_true; [lia|]; intros a Ha; apply Hw;
      unfold aligned_top; lia|]. fold (aligned_top c) in *.
  set (ce := set_rip (set_mem (set_reg (set_rip c1 (base + 67 + 3)) rsp (aligned_top c - 24))
      (host_put (cpu_mem c1) (aligned_top c - 24) (le_encode 8 (base + return_offset)))) (cpu_reg c rdi)).
  assert (exec (CALLR (op_reg r11)) (set_rip c1 (base + 67 + 3)) = Some ce) as He.
  { cbn [exec read_operand mbind option_bind]. unfold push. cbn [cpu_reg set_rip].
    rewrite Hsp, wrap64_small by (unfold in_u64 in *; lia).
    replace (aligned_top c - 16 - 8) with (aligned_top c - 24) by ring.
    rewrite store64_ok; cbn [cpu_mem set_reg set_rip cpu_rip].
    - cbn [mbind option_bind]. rewrite H11. unfold ce, return_offset. do 4 f_equal. f_equal. lia.
    - apply host_allows_true; [lia|]. intros a Ha. rewrite Hm. apply Hw. lia. }
  exists ce. split.
  - eapply (steps_listing_at code base 18); [exact Hc|exact switch_ok|here|reflexivity|exact Hip|exact Hx|].
    intros Hc1 Hip1. eapply (steps_code_at code base 67); [exact Hc1|exact call_r11_ok|here| |exact He|].
    + rewrite Hip1. change (zlen (listing_bytes switch_listing)) with 49. lia.
    + intros _. apply rtc_refl.
  - split_and!; [|reflexivity|exact Hdi|exact Hsi|exact Hdx|reflexivity|exact Hbp|exact H12
                |exact Hxmm|exact Hfs|exact Hgs|].
    + eapply exec_code; [exact He|]. cbn [cpu_mem set_rip]. eapply exec_listing_code; [exact Hx|exact Hc].
    + unfold ce. cbn [cpu_mem set_rip set_mem]. by rewrite Hm.
Qed.

(** From the first instruction to the first instruction of the guest. *)
Lemma run_entry base c :
  code_at (cpu_mem c) base code -> cpu_rip c = base -> ready c ->
  exists ce, steps c ce /\ called base c ce.
Proof.
  intros Hc Hip Hr. pose proof (ca_range _ _ _ Hc) as Hrange. change (zlen code) with 97 in Hrange.
  pose proof (rd_stack _ Hr) as [Hst1 Hst2]. pose proof (rd_regs _ Hr) as Hu.
  destruct (exec_pushes saved save_listing c) as (c1 & Hx1 & Hip1 & Hp); [reflexivity| |cbn; lia| |].
  { unfold saved. reg_notin. }
  { apply (rd_frame_write _ Hr). }
  pose proof (pu_regs _ _ _ Hp) as Hrs. pose proof (pu_rsp _ _ _ Hp) as Hsp1. cbn [length saved] in Hsp1.
  assert (code_at (cpu_mem c1) base code /\ steps c c1) as [Hc1 Hs1].
  { split.
    - by eapply exec_listing_code.
    - eapply (steps_listing_at code base 0); [exact Hc|exact save_ok|here|reflexivity|cbn; lia|exact Hx1|].
      intros _ _. apply rtc_refl. }
  assert (forall flag a n, host_allows flag (cpu_mem c1) a n = host_allows flag (cpu_mem c) a n) as Hall1
    by (intros; unfold host_allows; by rewrite (pu_prot _ _ _ Hp)).
  destruct (run_record base c1) as (c2 & Hs2 & Hc2 & Hip2 & Hreg2 & Hxmm2 & Hfs2 & Hgs2 & Hm2);
    [done|rewrite Hip1; cbn; lia|rewrite Hrs by done; apply Hu|
     rewrite Hall1, Hrs by done; apply (rd_record _ Hr)|].
  assert (aligned_top c2 = aligned_top c) as Hat by (unfold aligned_top; by rewrite Hreg2, Hrs).
  rewrite (Hrs r9), Hsp1 in Hm2 by done.
  destruct (run_switch base c2) as (ce & Hs3 & Hce & Hipe & Hargs & Hspe & Hbpe & H12e & Hctx & Hme);
    [done|done|rewrite Hreg2, Hrs by done; apply Hu|rewrite Hat; apply Hr| |].
  { rewrite Hat. transitivity (host_allows PROT_WRITE (cpu_mem c1) (aligned_top c - 24) 24).
    - rewrite Hm2. by case_match.
    - rewrite Hall1. apply Hr. }
  rewrite Hat in *. rewrite Hreg2 in *. rewrite !Hrs in * by done.
  destruct (called_memory c c1 (cpu_mem c2) Hr Hp Hm2 (base + return_offset) (cpu_mem ce))
    as (Hw1 & Hw2 & Hw3 & Hw4 & Hw5 & Hw6 & Hw7); [unfold in_u64, return_offset; lia|done|].
  exists ce. split; [by etrans; [exact Hs1|etrans; [exact Hs2|]]|].
  split; try done.
  - rewrite H12e, Hsp1. done.
  - destruct (pu_context _ _ _ Hp). destruct Hctx as (-> & -> & ->). split_and!; congruence.
Qed.

(** ** Coming back *)

(** What the guest leaves in place: the trampoline's code and the host's
    frame. *)
Record kept (base : Z) (c ce cr : Cpu) : Prop := {
  kp_code : code_at (cpu_mem cr) base code;
  kp_read : host_allows PROT_READ (cpu_mem cr) (cpu_reg c rsp - 48) 56 = true;
  kp_frame a : in_frame (cpu_reg c rsp) a -> hm_byte (cpu_mem cr) a = hm_byte (cpu_mem ce) a;
}.

(** The host continues after its call, with its registers. *)
Record returned (c cr cf : Cpu) : Prop := {
  rt_rip : cpu_rip cf = host_word (cpu_mem c) (cpu_reg c rsp);
  rt_rsp : cpu_reg cf rsp = cpu_reg c rsp + 8;
  rt_saved r : r ∈ saved -> cpu_reg cf r = cpu_reg c r;
  rt_mem : cpu_mem cf = cpu_mem cr;
}.

(** The pops and the return, with [i] between them. *)
Lemma exec_restore base c ce cr :
  ready c -> called base c ce -> kept base c ce cr -> cpu_reg cr rsp = cpu_reg c rsp - 48 ->
  exists c1, exec_listing restore_listing cr = Some c1 /\ cpu_mem c1 = cpu_mem cr /\
    cpu_reg c1 rax = cpu_reg cr rax /\ cpu_reg c1 rsp = cpu_reg c rsp /\
    (forall r, r ∈ saved -> cpu_reg c1 r = cpu_reg c r).
Proof.
  intros Hr Hcl Hk Hsp. pose proof (rd_stack _ Hr) as [Hst1 Hst2].
  pose proof (kp_read _ _ _ _ Hk) as Hread. rewrite host_allows_true in Hread by lia.
  destruct (exec_pops (rev saved) restore_listing cr) as (c1 & Hx & _ & Hp); [reflexivity| | |rewrite Hsp; lia| | |].
  { reg_notin. }
  { apply (bool_decide_unpack _). vm_compute. done. }
  { cbn. lia. }
  { cbn [length rev app saved]. apply host_allows_true; [lia|]. intros a Ha. apply Hread.
    change (Z.of_nat 6) with 6 in Ha. lia. }
  exists c1. split_and!; [exact Hx|apply Hp|apply (po_regs _ _ _ Hp)| |].
  - done.
  - reg_notin.
  - rewrite (po_rsp _ _ _ Hp), Hsp. cbn. lia.
  - intros r Hin. apply list_elem_of_lookup in Hin as [i Hi].
    assert (rev saved !! (5 - i)%nat = Some r) as Hi'.
    { do 6 (destruct i as [|i]; [exact Hi|]). done. }
    pose proof (lookup_lt_Some _ _ _ Hi) as Hlt. cbn [length saved] in Hlt.
    rewrite (po_slot _ _ _ Hp _ _ Hi'), Hsp, <- (cl_saved _ _ _ Hcl i r Hi).
    replace (cpu_reg c rsp - 48 + 8 * Z.of_nat (5 - i)) with (cpu_reg c rsp - 8 * (Z.of_nat i + 1)) by lia.
    apply host_word_ext. intros a Ha. apply (kp_frame _ _ _ _ Hk). unfold in_frame. lia.
Qed.

(** The return instruction. *)
Lemma exec_ret base c ce cr c1 next :
  ready c -> called base c ce -> kept base c ce cr -> cpu_mem c1 = cpu_mem cr ->
  cpu_reg c1 rsp = cpu_reg c rsp -> (forall r, r ∈ saved -> cpu_reg c1 r = cpu_reg c r) ->
  exists cf, exec RET (set_rip c1 next) = Some cf /\ returned c cr cf /\ cpu_reg cf rax = cpu_reg c1 rax.
Proof.
  intros Hr Hcl Hk Hm Hsp Hs. pose proof (rd_stack _ Hr) as [Hst1 Hst2].
  pose proof (kp_read _ _ _ _ Hk) as Hread. rewrite host_allows_true in Hread by lia.
  eexists. split.
  - cbn [exec]. unfold pop. cbn [cpu_mem cpu_reg set_rip]. rewrite Hm, Hsp, load64_ok.
    + reflexivity.
    + apply host_allows_true; [lia|]. intros a Ha. apply Hread. lia.
  - split; [|reflexivity]. split.
    + cbn [cpu_rip set_rip]. apply host_word_ext. intros a Ha.
      rewrite (kp_frame _ _ _ _ Hk) by (unfold in_frame; lia). apply (cl_mem _ _ _ Hcl). unfold written.
      pose proof (rd_apart _ Hr a) as Hap. pose proof (rd_record_apart _ Hr a) as Hrp. unfold in_frame in *.
      intros [?|[?|[? ?]]]; [lia|apply Hap; lia|]. destruct Hrp as [Hno _]; [done|done|]. lia.
    + cbn. apply wrap64_small. pose proof (rd_regs _ Hr rsp). unfold in_u64 in *. lia.
    + intros r Hin. cbn. rewrite upd_ne; [by apply Hs|]. intros ->.
      unfold saved in Hin. reg_absurd Hin.
    + done.
Qed.

Lemma run_back base c ce cr :
  ready c -> called base c ce -> kept base c ce cr -> cpu_rip cr = base + return_offset ->
  cpu_reg cr r12 = cpu_reg ce r12 ->
  exists cf, steps cr cf /\ returned c cr cf /\ cpu_reg cf rax = cpu_reg cr rax.
Proof.
  intros Hr Hcl Hk Hip H12. set (c0 := set_reg (set_rip cr (base + 70 + 3)) rsp (cpu_reg cr r12)).
  assert (kept base c ce c0) as Hk0 by (destruct Hk; by split).
  destruct (exec_restore base c ce c0) as (c1 & Hx & Hm & Ha & Hsp & Hs); [done..| |].
  { cbn [cpu_reg set_reg c0]. rewrite upd_eq, H12. apply Hcl. }
  destruct (exec_ret base c ce cr c1 (base + 83 + 1)) as (cf & Hret & Hback & Hax); [done..|].
  exists cf. split_and!; [|exact Hback|by rewrite Hax, Ha].
  eapply (steps_code_at code base 70 _ _ cr c0); [apply Hk|exact back_ok|here|exact Hip|reflexivity|]. intros Hc0.
  eapply (steps_listing_at code base 73); [exact Hc0|exact restore_ok|here|reflexivity|cbn; lia|exact Hx|].
  intros Hc1 Hip1. change (zlen (listing_bytes restore_listing)) with 10 in Hip1.
  eapply (steps_code_at code base 83); [exact Hc1|exact ret_ok|here|lia|exact Hret|].
  intros _. apply rtc_refl.
Qed.

Lemma run_recovery base c ce cr :
  ready c -> called base c ce -> kept base c ce cr -> cpu_rip cr = base + recovery_offset ->
  cpu_reg cr rsp = cpu_reg c rsp - 48 ->
  exists cf, steps cr cf /\ returned c cr cf /\ cpu_reg cf rax = 0.
Proof.
  intros Hr Hcl Hk Hip Hsp0.
  destruct (exec_restore base c ce cr) as (c1 & Hx & Hm & Ha & Hsp & Hs); [done..|].
  set (c2 := set_flags (set_reg (set_rip c1 (base + 94 + 2)) rax 0) (mkFlags true false false false true)).
  assert (exec (XOR32 rax rax) (set_rip c1 (base + 94 + 2)) = Some c2) as Hxor.
  { cbn [exec]. cbn [cpu_reg set_rip]. rewrite Z.lxor_nilpotent. reflexivity. }
  assert (forall r, r <> rax -> cpu_reg c2 r = cpu_reg c1 r) as Hr2 by (intros; cbn; by rewrite upd_ne).
  destruct (exec_ret base c ce cr c2 (base + 96 + 1)) as (cf & Hret & Hback & Hax); try done.
  { intros r Hin. rewrite Hr2; [by apply Hs|]. intros ->. unfold saved in Hin. reg_absurd Hin. }
  exists cf. split_and!; [|exact Hback|by rewrite Hax].
  eapply (steps_listing_at code base 84); [apply Hk|exact restore_ok|here|reflexivity|exact Hip|exact Hx|].
  intros Hc1 Hip1. change (zlen (listing_bytes restore_listing)) with 10 in Hip1.
  eapply (steps_code_at code base 94); [exact Hc1|exact xor_ok|here|lia|exact Hxor|]. intros Hc2.
  eapply (steps_code_at code base 96); [exact Hc2|exact ret_ok|here|cbn; lia|exact Hret|].
  intros _. apply rtc_refl.
Qed.

(** ** The invocation *)

(** The trampoline is in memory, as [create_trampoline_code] leaves it. *)
Record trampoline_in (t : EntryTrampoline) (h : HostMem) : Prop := {
  ti_base : 0 < arena_base (et_code t);
  ti_code : code_at h (arena_base (et_code t)) code;
  ti_recovery : recovery_address t = arena_base (et_code t) + recovery_offset;
}.

(** The state in which the code starts. *)
Lemma invoke_state t c entry top a0 a1 a2 recovery c1 :
  trampoline_in t (cpu_mem c) -> in_u64 (cpu_reg c rsp) -> in_u64 (cpu_rip c) ->
  invoke t c entry top a0 a1 a2 recovery = Ok (Some c1) -> ready c1 ->
  code_at (cpu_mem c1) (arena_base (et_code t)) code /\ cpu_rip c1 = arena_base (et_code t) /\
  (cpu_reg c1 rdi = entry /\ cpu_reg c1 rsi = top /\ cpu_reg c1 rdx = a0 /\ cpu_reg c1 rcx = a1 /\
   cpu_reg c1 r8 = a2 /\ cpu_reg c1 r9 = recovery) /\
  cpu_reg c1 rsp + 8 = cpu_reg c rsp /\ host_word (cpu_mem c1) (cpu_reg c1 rsp) = cpu_rip c /\
  (forall r, r ∈ saved -> cpu_reg c1 r = cpu_reg c r).
Proof.
  intros [Hb Hc _] Hsp Hip Hi Hr. unfold invoke in Hi. inv_result. unfold host_call in Hi.
  apply bind_Some in Hi as (c2 & Hpush & [= <-]). pose proof (push_mem _ _ _ Hpush) as Hm.
  pose proof (rd_stack _ Hr) as [_ Hst]. unfold push, store64 in Hpush.
  destruct (host_allows _ _ _ _); [|done]. injection Hpush as <-.
  split_and!; try reflexivity.
  - cbn [cpu_mem set_rip set_mem]. eapply mem_step_code; [exact Hm|exact Hc].
  - cbn in *. int_lia.
  - apply host_word_put. done.
  - intros r Hin. unfold saved in Hin. rewrite !elem_of_cons, elem_of_nil in Hin.
    repeat (destruct Hin as [->|Hin]; [reflexivity|]). done.
Qed.

(** A call of [EntryTrampoline::invoke] on the processor.  The code of the
    trampoline reaches the guest's entry point with the three arguments in the
    System V registers, on the guest's stack: the stack pointer is the top
    aligned down as the convention wants it at a function's first instruction
    (the return address at the bottom of a 16-byte boundary), the frame pointer
    ends the chain of frames, and nothing has been written but the saved
    registers, the three words on the guest's stack and the recovery record,
    which holds the host's stack pointer.  However the guest comes back, as
    long as it leaves the code and the host's frame alone: when it returns
    (with R12 as it was), the host continues behind its call with the guest's
    RAX; when a fault handler continues at [recovery_address] on the recorded
    stack pointer, it continues there with 0.  Either way all callee-saved
    registers and the stack pointer are the host's again. *)
Theorem invoke_calls_the_guest_and_returns t c entry top a0 a1 a2 recovery c1 :
  trampoline_in t (cpu_mem c) -> in_u64 (cpu_reg c rsp) -> in_u64 (cpu_rip c) ->
  invoke t c entry top a0 a1 a2 recovery = Ok (Some c1) -> ready c1 ->
  exists ce, steps c1 ce /\
    cpu_rip ce = entry /\ cpu_reg ce rdi = a0 /\ cpu_reg ce rsi = a1 /\ cpu_reg ce rdx = a2 /\
    cpu_reg ce rsp + 24 <= top < cpu_reg ce rsp + 40 /\ (cpu_reg ce rsp + 8) mod 16 = 0 /\
    cpu_reg ce rbp = cpu_reg ce rsp + 8 /\ host_word (cpu_mem ce) (cpu_reg ce rbp) = 0 /\
    mem_but (written c1) c1 ce /\
    (recovery <> 0 -> host_word (cpu_mem ce) recovery = cpu_reg c1 rsp - 48) /\
    (forall cr, kept (arena_base (et_code t)) c1 ce cr ->
       (cpu_rip cr = host_word (cpu_mem ce) (cpu_reg ce rsp) /\ cpu_reg cr r12 = cpu_reg ce r12 ->
        exists cf, steps cr cf /\ cpu_rip cf = cpu_rip c /\ cpu_reg cf rax = cpu_reg cr rax /\
          (forall r, r ∈ rsp :: saved -> cpu_reg cf r = cpu_reg c r) /\ cpu_mem cf = cpu_mem cr) /\
       (recovery <> 0 /\ cpu_rip cr = recovery_address t /\
        cpu_reg cr rsp = host_word (cpu_mem ce) recovery ->
        exists cf, steps cr cf /\ cpu_rip cf = cpu_rip c /\ cpu_reg cf rax = 0 /\
          (forall r, r ∈ rsp :: saved -> cpu_reg cf r = cpu_reg c r) /\ cpu_mem cf = cpu_mem cr)).
Proof.
  intros Ht Hsp Hip Hi Hr.
  destruct (invoke_state _ _ _ _ _ _ _ _ _ Ht Hsp Hip Hi Hr)
    as (Hc1 & Hip1 & (Hdi & Hsi & Hdx & Hcx & H8 & H9) & Hsp1 & Hret & Hsaved).
  destruct (run_entry _ c1 Hc1 Hip1 Hr) as (ce & Hs & Hcl). exists ce.
  assert (forall cr cf, returned c1 cr cf -> cpu_rip cf = cpu_rip c /\
    (forall r, r ∈ rsp :: saved -> cpu_reg cf r = cpu_reg c r) /\ cpu_mem cf = cpu_mem cr) as Hback.
  { intros cr cf [Hrip Hrsp Hrs Hm]. split_and!; [by rewrite Hrip| |done].
    intros r [->|Hin]%elem_of_cons; [by rewrite Hrsp|]. by rewrite Hrs, Hsaved. }
  pose proof (cl_args _ _ _ Hcl) as (Ha0 & Ha1 & Ha2). pose proof (cl_rsp _ _ _ Hcl) as Hspe.
  pose proof (cl_rbp _ _ _ Hcl) as Hbpe. pose proof (cl_rip _ _ _ Hcl) as Hripe.
  assert (aligned_top c1 = top - top mod 16) as Hat by (unfold aligned_top; by rewrite Hsi).
  split; [exact Hs|]. rewrite Ha0, Ha1, Ha2, Hripe, Hspe, Hbpe, <- H9. split_and!; try done.
  - rewrite Hat. Z.div_mod_to_equations. lia.
  - rewrite Hat. Z.div_mod_to_equations. lia.
  - rewrite Hat. Z.div_mod_to_equations. lia.
  - lia.
  - apply Hcl.
  - apply Hcl.
  - apply Hcl.
  - intros cr Hk. split.
    + intros [Hipr H12]. rewrite (cl_return _ _ _ Hcl) in Hipr.
      destruct (run_back _ c1 ce cr Hr Hcl Hk Hipr H12) as (cf & Hsf & Hrt & Hax).
      destruct (Hback _ _ Hrt) as (? & ? & ?). by exists cf.
    + intros (Hn & Hipr & Hspr). rewrite (ti_recovery _ _ Ht) in Hipr.
      rewrite (cl_recorded _ _ _ Hcl Hn) in Hspr.
      destruct (run_recovery _ c1 ce cr Hr Hcl Hk Hipr Hspr) as (cf & Hsf & Hrt & Hax).
      destruct (Hback _ _ Hrt) as (? & ? & ?). by exists cf.
Qed.

(** ** Witnesses

    The guest of [src/tests/native_thread_tests.cpp]: it records its stack and
    frame pointers through its first argument and returns the sum of the other
    two. *)

Definition guest_code : list byte := map byte_of_Z
  [ 0x48; 0x89; 0x27;          (* mov [rdi],rsp *)
    0x48; 0x89; 0x6f; 0x08;    (* mov [rdi+8],rbp *)
    0x48; 0x89; 0xf0;          (* mov rax,rsi *)
    0x48; 0x01; 0xd0;          (* add rax,rdx *)
    0xc3 ].                    (* ret *)

(** The trampoline at 4096, the guest at 8192; everything else is data. *)
Definition tiny_memory : HostMem :=
  host_put (host_put (mkHostMem (fun _ => zero_byte)
    (fun a => if in_range 4096 8192 a then Z.lor PROT_READ PROT_EXEC else Z.lor PROT_READ PROT_WRITE) 0)
    4096 code) 8192 guest_code.

Definition tiny_trampoline : EntryTrampoline :=
  mkEntryTrampoline (mkNativeArena 4096 4096) recovery_offset.

(** The host's stack pointer is 65536; the guest's stack ends at 32776. *)
Definition tiny_cpu : Cpu :=
  mkCpu (upd (fun _ => 7) rsp 65536) (fun _ => 0) (mkFlags false false false false false)
    0 0 1048576 tiny_memory.

Definition tiny_call : Cpu :=
  default tiny_cpu
    match invoke tiny_trampoline tiny_cpu 8192 32776 49152 20 22 57344 with
    | Ok (Some c) => Some c
    | _ => None
    end.

(** The test of the repository, run: the trampoline's 22 instructions on the
    way in, the guest's five, and the 8 on the way back. *)
Example the_guest_adds :
  (fun c => (cpu_reg c rax, cpu_rip c, cpu_reg c rsp, host_word (cpu_mem c) 49152,
             host_word (cpu_mem c) 49160, host_word (cpu_mem c) 57344)) <$> run 35 tiny_call =
  Some (42, 1048576, 65536, 32744, 32752, 65480).
Proof. vm_compute. reflexivity. Qed.

Lemma tiny_in : trampoline_in tiny_trampoline tiny_memory.
Proof.
  split; [done| |vm_compute; reflexivity]. split.
  - vm_compute. split; discriminate.
  - vm_compute. reflexivity.
  - intros a Ha. change (zlen code) with 97 in Ha. cbn in *.
    rewrite (proj2 (in_range_true _ _ _)) by lia. done.
  - intros a Ha. change (zlen code) with 97 in Ha. cbn in *.
    rewrite (proj2 (in_range_true _ _ _)) by lia. done.
Qed.

Lemma tiny_ready : ready tiny_call.
Proof.
  assert (aligned_top tiny_call = 32768) as Hat by reflexivity.
  assert (cpu_reg tiny_call rsp = 65528) as Hsp by reflexivity.
  assert (cpu_reg tiny_call r9 = 57344) as H9 by reflexivity.
  split; rewrite ?Hat, ?Hsp, ?H9; unfold in_frame.
  - intros r. change (cpu_reg tiny_call r) with
      (upd (upd (upd (upd (upd (upd (upd (upd (fun _ => 7) rsp 65536) rdi 8192) rsi 32776) rdx 49152)
         rcx 20) r8 22) r9 57344) rsp 65528 r).
    unfold upd. repeat case_match; unfold in_u64; lia.
  - lia.
  - vm_compute. reflexivity.
  - vm_compute. reflexivity.
  - lia.
  - vm_compute. reflexivity.
  - intros _. vm_compute. reflexivity.
  - intros a Ha. lia.
  - intros a _ Ha. lia.
Qed.

Lemma invoke_calls_the_guest_and_returns_witness :
  exists ce, steps tiny_call ce /\ cpu_rip ce = 8192 /\ cpu_reg ce rdi = 49152.
Proof.
  destruct (invoke_calls_the_guest_and_returns tiny_trampoline tiny_cpu 8192 32776 49152 20 22 57344
              tiny_call tiny_in ltac:(vm_compute; split; [discriminate|reflexivity])
              ltac:(vm_compute; split; [discriminate|reflexivity]) eq_refl tiny_ready)
    as (ce & Hs & Hip & Hdi & _).
  exists ce. split; [exact Hs|]. split; [exact Hip|exact Hdi].
Defined.
