(* ===== verification/Fault.v ===== *)
(** * Capturing guest faults

    [src/src/runtime/fault.cpp] and [src/include/nyxora/runtime/fault.hpp]
    (Linux, x86-64): the signal handler that turns a fault of guest code into a
    result of the host's call, its installation, and the way guest code is left
    early.

    The objects that C++ frames share by pointers (a [GuestFault], an
    [ActiveCapture]) live in stores under identifiers; the recovery state is a
    word of host memory, which the trampoline writes.  The kernel's table of
    signal actions is a function of the signal; whether a [sigaction] call
    succeeds is a parameter, as is the handler's address.  [deliver] is what the
    kernel does with a signal that an instruction of the thread raises. *)

From Stdlib Require Import Strings.String Strings.Ascii.
From S2P Require Import Prelude NativeArena X86 NativeThread.

Local Open Scope Z_scope.

(** [GuestFaultKind::unknown] has a suffix, as [kind] names are used elsewhere. *)
Inductive GuestFaultKind : Type :=
| access_violation | bus_error | illegal_instruction | unknown_fault.

Record GuestFault : Type := mkGuestFault {
  gf_kind : GuestFaultKind;
  gf_native_code : Z;
  gf_address : Z;
  gf_instruction_pointer : Z;
}.

Record GuestInvocationResult : Type := mkInvocation {
  gi_value : Z;
  gi_fault : option GuestFault;
}.


(** [GuestInvocationResult::completed]. *)
Definition completed (r : GuestInvocationResult) : bool :=
  match gi_fault r with Some _ => false | None => true end.

(** ** Signals *)

Definition SIGILL : Z := 4.
Definition SIGBUS : Z := 7.
Definition SIGSEGV : Z := 11.
Definition SIG_DFL : Z := 0.
Definition SIG_IGN : Z := 1.
Definition SA_SIGINFO : Z := 4.

(** [struct sigaction]; its two handlers are the members of a union. *)
Record sigaction : Type := mkSigaction { sa_handler : Z; sa_flags : Z }.

Record SignalState : Type := mkSignalState { signal_number : Z; previous : sigaction }.

Class SignalOs : Type := {
  (** the address of [guest_signal_handler] *)
  handler_address : Z;
  (** whether the kernel accepts an action *)
  sigaction_ok : (Z -> sigaction) -> Z -> sigaction -> bool;
  (** what the kernel writes below the stack pointer to call a handler, the
      red zone included *)
  signal_frame : Z;
}.

(** A function's address is none of the two special values. *)
Class SignalOsLaws (S : SignalOs) : Prop := {
  handler_address_ok : SIG_IGN < handler_address;
  signal_frame_pos : 0 < signal_frame;
}.

(** ** State *)

(** A pointer is an identifier; 0 is the null address. *)
Record ActiveCapture : Type := mkActiveCapture {
  cap_fault : option nat;
  cap_recovery : Z;
  cap_recovery_address : Z;
  exit_requested : bool;
  exit_value : Z;
}.

(** The process's signal actions and the statics of the file, with the
    calling thread's [active_capture]. *)
Record FaultState : Type := mkFaultState {
  actions : Z -> sigaction;
  signal_states : list SignalState;
  install_once : bool;
  faults : gmap nat GuestFault;
  captures : gmap nat ActiveCapture;
  active_capture : option nat;
}.

Definition initial_signal_states : list SignalState :=
  [ mkSignalState SIGSEGV (mkSigaction 0 0); mkSignalState SIGBUS (mkSigaction 0 0);
    mkSignalState SIGILL (mkSigaction 0 0) ].

Definition set_actions (s : FaultState) (d : Z -> sigaction) (states : list SignalState) : FaultState :=
  mkFaultState d states (install_once s) (faults s) (captures s) (active_capture s).
Definition set_active (s : FaultState) (active : option nat) : FaultState :=
  mkFaultState (actions s) (signal_states s) (install_once s) (faults s) (captures s) active.
Definition put_fault (s : FaultState) (p : nat) (f : GuestFault) : FaultState :=
  mkFaultState (actions s) (signal_states s) (install_once s) (<[p := f]> (faults s)) (captures s)
    (active_capture s).
Definition put_capture (s : FaultState) (p : nat) (a : ActiveCapture) : FaultState :=
  mkFaultState (actions s) (signal_states s) (install_once s) (faults s) (<[p := a]> (captures s))
    (active_capture s).

Definition set_action (d : Z -> sigaction) (signal : Z) (a : sigaction) : Z -> sigaction :=
  fun n => if n =? signal then a else d n.

(** How a handler ends: it returns to the context it leaves in its argument, it
    has called another handler (with [siginfo_t] or without), or the process is
    gone, killed by a signal or with an exit status. *)
Inductive handled : Type :=
| returns (s : FaultState) (context : option Cpu)
| calls (s : FaultState) (handler : Z) (with_info : bool)
| killed (signal : Z)
| exits (status : Z).

Section Handler.
Context `{SignalOs}.

Definition signal_state (s : FaultState) (signal : Z) : option SignalState :=
  List.find (fun state => signal_number state =? signal) (signal_states s).

Definition instruction_pointer (context : option Cpu) : Z :=
  match context with None => 0 | Some c => cpu_rip c end.

Definition redirect_to_recovery (context : option Cpu) (stack instruction : Z) : option Cpu :=
  match context with
  | None => None
  | Some c =>
      if (stack =? 0) || (instruction =? 0) then None
      else Some (set_rip (set_reg c rsp stack) instruction)
  end.

Definition fault_kind (signal : Z) : GuestFaultKind :=
  if signal =? SIGSEGV then access_violation
  else if signal =? SIGBUS then bus_error
  else if signal =? SIGILL then illegal_instruction
  else unknown_fault.

(** The signal is blocked while its handler runs (the action has no
    [SA_NODEFER]), so that [raise] leaves it pending and [_Exit] is reached. *)
Definition restore_default_and_reraise (signal : Z) : handled := exits (128 + signal).

Definition dispatch_previous (s : FaultState) (signal : Z) (context : option Cpu) : handled :=
  match signal_state s signal with
  | None => restore_default_and_reraise signal
  | Some state =>
      let previous := previous state in
      if sa_handler previous =? SIG_IGN then returns s context
      else if sa_handler previous =? SIG_DFL then restore_default_and_reraise signal
      else if negb (Z.land (sa_flags previous) SA_SIGINFO =? 0) && negb (sa_handler previous =? 0) then
        calls s (sa_handler previous) true
      else if negb (sa_handler previous =? 0) then calls s (sa_handler previous) false
      else restore_default_and_reraise signal
  end.

(** [guest_signal_handler]; [info] is [si_addr], [h] the memory, where the
    [host_stack] of the recovery state is. *)
Definition guest_signal_handler (s : FaultState) (h : HostMem) (signal : Z) (info : option Z)
    (context : option Cpu) : handled :=
  match active_capture s with
  | None => dispatch_previous s signal context
  | Some p =>
      match captures s !! p with
      | None => dispatch_previous s signal context
      | Some capture =>
          match cap_fault capture with
          | None => dispatch_previous s signal context
          | Some fault_slot =>
              if (cap_recovery capture =? 0) || (host_word h (cap_recovery capture) =? 0) ||
                 (cap_recovery_address capture =? 0) then dispatch_previous s signal context
              else
                let host_stack := host_word h (cap_recovery capture) in
                if exit_requested capture && (signal =? SIGILL) then
                  match redirect_to_recovery context host_stack (cap_recovery_address capture) with
                  | Some context => returns s (Some context)
                  | None => dispatch_previous s signal context
                  end
                else
                  let fault := mkGuestFault (fault_kind signal) signal (default 0 info)
                                 (instruction_pointer context) in
                  match redirect_to_recovery context host_stack (cap_recovery_address capture) with
                  | None => dispatch_previous s signal context
                  | Some context => returns (put_fault s fault_slot fault) (Some context)
                  end
          end
      end
  end.

(** Whether the kernel can call a handler: none of the actions has
    [SA_ONSTACK], so that the handler's frame goes to the thread's stack, which
    is the guest's while guest code runs. *)
Definition has_room (c : Cpu) : bool :=
  host_allows PROT_WRITE (cpu_mem c) (cpu_reg c rsp - signal_frame) signal_frame.

(** The kernel's part: an instruction of the thread raises a signal.  One that
    is ignored, or whose handler cannot be called, kills as the default action
    does, since the instruction cannot go on.  What the frame overwrites is
    below the stack pointer; the memory of [c] is the one the handler finds. *)
Definition deliver (s : FaultState) (signal : Z) (address : Z) (c : Cpu) : handled :=
  let action := actions s signal in
  if (sa_handler action =? SIG_DFL) || (sa_handler action =? SIG_IGN) || negb (has_room c) then killed signal
  else if sa_handler action =? handler_address then
    guest_signal_handler s (cpu_mem c) signal (Some address) (Some c)
  else calls s (sa_handler action) (negb (Z.land (sa_flags action) SA_SIGINFO =? 0)).

(** ** Installation *)

(** How a call ends: normally, with an exception, or in [std::terminate]. *)
Inductive ending (A : Type) : Type :=
| finished (a : A) (s : FaultState)
| threw (e : exn) (s : FaultState)
| terminated.
#[global] Arguments finished {A}.
#[global] Arguments threw {A}.
#[global] Arguments terminated {A}.

Definition handler_action : sigaction := mkSigaction handler_address SA_SIGINFO.

(** The loop that takes back what was installed, the last first. *)
Fixpoint rollback_loop (installed : list SignalState) (d : Z -> sigaction) : option (Z -> sigaction) :=
  match installed with
  | [] => Some d
  | state :: installed =>
      if sigaction_ok d (signal_number state) (previous state) then
        rollback_loop installed (set_action d (signal_number state) (previous state))
      else None
  end.

(** The loop over [signal_states]; [installed] holds the states before the
    current one, the last first. *)
Fixpoint install_loop (installed todo : list SignalState) (d : Z -> sigaction) (s : FaultState)
  : ending unit :=
  match todo with
  | [] => finished tt (set_actions s d (rev installed))
  | state :: todo' =>
      if sigaction_ok d (signal_number state) handler_action then
        install_loop (mkSignalState (signal_number state) (d (signal_number state)) :: installed) todo'
          (set_action d (signal_number state) handler_action) s
      else
        match rollback_loop installed d with
        | None => terminated
        | Some d' => threw (runtime_error "unable to install guest fault signal handler")
                       (set_actions s d' (rev_append installed todo))
        end
  end.

Definition install_handlers (s : FaultState) : ending unit :=
  install_loop [] (signal_states s) (actions s) s.

(** [std::call_once]: the flag is set when the call returns. *)
Definition call_once_install (s : FaultState) : ending unit :=
  if install_once s then finished tt s
  else
    match install_handlers s with
    | finished _ s => finished tt (mkFaultState (actions s) (signal_states s) true (faults s)
                                     (captures s) (active_capture s))
    | threw e s => threw e s
    | terminated => terminated
    end.

(** ** Invocations *)

(** The locals of a call of [invoke_guest_captured]. *)
Record Frame : Type := mkFrame {
  fr_fault : nat;
  fr_capture : nat;
  fr_previous_capture : option nat;
}.

(** [invoke_guest_captured] up to the call of the trampoline: the frame and
    the processor at the trampoline's first instruction, [None] when the host's
    own stack faults.  [recovery] is the address of the local of that name. *)
Definition begin_capture (s : FaultState) (t : EntryTrampoline) (c : Cpu)
    (entry stack_top arg0 arg1 arg2 recovery : Z) : ending (Frame * option Cpu) :=
  match call_once_install s with
  | terminated => terminated
  | threw e s => threw e s
  | finished _ s =>
      let fault_slot := fresh (dom (faults s)) in
      let s := put_fault s fault_slot (mkGuestFault unknown_fault 0 0 0) in
      let capture := fresh (dom (captures s)) in
      let s := put_capture s capture
                 (mkActiveCapture (Some fault_slot) recovery (recovery_address t) false 0) in
      let previous_capture := active_capture s in
      let s := set_active s (Some capture) in
      let frame := mkFrame fault_slot capture previous_capture in
      match store64 c recovery 0 with
      | None => finished (frame, None) s
      | Some c =>
          match invoke t c entry stack_top arg0 arg1 arg2 recovery with
          | Throw e => threw e (set_active s previous_capture)
          | Ok c => finished (frame, c) s
          end
      end
  end.

(** The rest, when the trampoline has returned [value]; [None] where the frame
    is gone, which is not the case before it returns. *)
Definition finish_capture (s : FaultState) (frame : Frame) (value : Z)
  : option (GuestInvocationResult * FaultState) :=
  let s := set_active s (fr_previous_capture frame) in
  capture ← captures s !! fr_capture frame;
  fault ← faults s !! fr_fault frame;
  Some
    (if exit_requested capture then mkInvocation (exit_value capture) None
     else if negb (gf_native_code fault =? 0) then mkInvocation 0 (Some fault)
     else mkInvocation value None, s).

(** [terminate_guest_execution], up to the trap; [None] for [std::terminate]. *)
Definition terminate_guest_execution (s : FaultState) (h : HostMem) (value : Z) : option FaultState :=
  p ← active_capture s;
  capture ← captures s !! p;
  if (cap_recovery capture =? 0) || (host_word h (cap_recovery capture) =? 0) ||
     (cap_recovery_address capture =? 0) then None
  else
    Some (put_capture s p (mkActiveCapture (cap_fault capture) (cap_recovery capture)
                             (cap_recovery_address capture) true value)).

End Handler.

(** ** The exception of an uncaptured result *)

(** [std::hex] of an unsigned number. *)
Definition hex_digit (d : Z) : ascii :=
  ascii_of_nat (Z.to_nat (if d <? 10 then 48 + d else 87 + d)).

Fixpoint hex_digits (fuel : nat) (n : Z) : string :=
  match fuel with
  | O => EmptyString
  | S fuel => (if n <? 16 then EmptyString else hex_digits fuel (n / 16)) +:+ String (hex_digit (n mod 16)) EmptyString
  end.

(** Sixteen digits are enough for 64 bits. *)
Definition fault_message (fault : GuestFault) : string :=
  "guest execution fault at 0x" +:+ hex_digits 16 (gf_instruction_pointer fault).
