(* ===== verification/FaultProps.v ===== *)
(** * Properties of the capture of guest faults

    How a captured call of the guest ends, on the processor of X86.v, and what
    the installation of the handlers leaves. *)

From Stdlib Require Import Strings.String Strings.Ascii.
From S2P Require Import Prelude NativeArena X86 NativeThread NativeThreadProps Fault.

Local Open Scope Z_scope.

(** ** Installation *)

Definition captured_signals : list Z := [SIGSEGV; SIGBUS; SIGILL].

(** The states that the file starts with, whatever was recorded in them. *)
Definition states_ok (s : FaultState) : Prop := map signal_number (signal_states s) = captured_signals.

Section Installation.
Context `{SignalOs, !SignalOsLaws H}.

(** Actions that differ from [d] by our handler on the signals of [installed],
    whose states recorded those of [d]. *)
Definition installed_over (d : Z -> sigaction) (installed : list SignalState) (d' : Z -> sigaction) : Prop :=
  (forall n, n ∉ map signal_number installed -> d' n = d n) /\
  Forall (fun st => d' (signal_number st) = handler_action /\ previous st = d (signal_number st)) installed.

Lemma elem_of_rev {A} (x : A) l : x ∈ rev l <-> x ∈ l.
Proof. by rewrite !list_elem_of_In, <- in_rev. Qed.
Lemma set_action_eq d n a : set_action d n a n = a.
Proof. unfold set_action. by rewrite Z.eqb_refl. Qed.
Lemma set_action_ne d n a m : m <> n -> set_action d n a m = d m.
Proof. intros Hm. unfold set_action. by rewrite (proj2 (Z.eqb_neq _ _)) by done. Qed.

Lemma rollback_loop_spec d0 installed : forall d d',
  NoDup (map signal_number installed) -> installed_over d0 installed d ->
  rollback_loop installed d = Some d' -> forall n, d' n = d0 n.
Proof.
  induction installed as [|st installed IH]; cbn [rollback_loop map]; intros d d' Hnd [Ho Hi].
  { intros [= <-] n. apply Ho. apply not_elem_of_nil. }
  destruct (sigaction_ok _ _ _); [|done]. apply NoDup_cons in Hnd as [Hni Hnd].
  apply Forall_cons in Hi as [[_ Hp] Hi]. apply IH; [done|]. split.
  - intros n Hn. destruct (decide (n = signal_number st)) as [->|Hne]; [by rewrite set_action_eq|].
    rewrite set_action_ne by done. apply Ho. by apply not_elem_of_cons.
  - rewrite Forall_forall in Hi |- *. intros st' Hst'. rewrite set_action_ne; [by apply Hi|].
    intros E. apply Hni. rewrite <- E. by apply list_elem_of_fmap_2.
Qed.

Lemma install_loop_spec d0 s todo : forall installed d,
  NoDup (map signal_number (rev_append installed todo)) -> installed_over d0 installed d ->
  match install_loop installed todo d s with
  | finished _ s' => exists states, s' = set_actions s (actions s') states /\
      map signal_number states = map signal_number (rev_append installed todo) /\
      installed_over d0 states (actions s')
  | threw e s' => e = runtime_error "unable to install guest fault signal handler" /\
      exists states, s' = set_actions s (actions s') states /\
      map signal_number states = map signal_number (rev_append installed todo) /\
      forall n, actions s' n = d0 n
  | terminated => True
  end.
Proof.
  induction todo as [|st todo IH]; cbn [install_loop]; intros installed d Hnd Hi.
  - exists (rev installed). rewrite rev_append_rev, app_nil_r. split_and!; [done|done|].
    destruct Hi as [Ho Hi]. split.
    + intros n Hn. apply Ho. by rewrite map_rev, elem_of_rev in Hn.
    + by apply Forall_rev.
  - assert (Hn0 := Hnd). rewrite rev_append_rev, map_app, map_rev in Hnd. cbn [map] in Hnd.
    apply NoDup_app in Hnd as (Hnd1 & Hdis & [Hni Hnd2]%NoDup_cons).
    assert (signal_number st ∉ map signal_number installed) as Hst.
    { intros Hin. apply (Hdis (signal_number st)); [by apply elem_of_rev|by left]. }
    destruct (sigaction_ok _ _ _).
    + destruct Hi as [Ho Hi].
      specialize (IH (mkSignalState (signal_number st) (d (signal_number st)) :: installed)
                     (set_action d (signal_number st) handler_action)).
      cbn [rev_append] in IH |- *.
      assert (map signal_number (rev_append installed
                (mkSignalState (signal_number st) (d (signal_number st)) :: todo)) =
              map signal_number (rev_append installed (st :: todo))) as E.
      { rewrite !rev_append_rev, !map_app. done. }
      rewrite E in IH. apply IH; [exact Hn0|]. split.
      * intros n [Hne Hn]%not_elem_of_cons. rewrite set_action_ne by done. by apply Ho.
      * apply Forall_cons. split; [cbn; split; [apply set_action_eq|by apply Ho]|].
        rewrite Forall_forall in Hi |- *. intros st' Hst'. rewrite set_action_ne; [by apply Hi|].
        intros E'. apply Hst. rewrite <- E'. by apply list_elem_of_fmap_2.
    + destruct (rollback_loop installed d) as [d'|] eqn:Hr; [|done]. split; [done|].
      exists (rev_append installed (st :: todo)). split_and!; [done|done|].
      eapply rollback_loop_spec; [|exact Hi|exact Hr].
      rewrite NoDup_ListNoDup in *. apply NoDup_rev in Hnd1. by rewrite rev_involutive in Hnd1.
Qed.

Lemma install_loop_succeeds s todo : forall installed d,
  (forall d n a, sigaction_ok d n a = true) -> exists s', install_loop installed todo d s = finished tt s'.
Proof.
  induction todo as [|st todo IH]; cbn [install_loop]; intros installed d Hok; [by eexists|].
  rewrite Hok. by apply IH.
Qed.

(** A state is found by its number. *)
Lemma signal_state_found s n : n ∈ map signal_number (signal_states s) ->
  exists st, signal_state s n = Some st /\ st ∈ signal_states s /\ signal_number st = n.
Proof.
  unfold signal_state. intros Hn. destruct (List.find _ _) as [st|] eqn:Hf.
  - apply List.find_some in Hf as [Hin Hst]. apply list_elem_of_In in Hin. apply Z.eqb_eq in Hst. eauto.
  - apply list_elem_of_fmap in Hn as (st & -> & Hin). apply list_elem_of_In in Hin.
    apply (List.find_none _ _ Hf) in Hin. by rewrite Z.eqb_refl in Hin.
Qed.

(** What a signal that no capture takes does when our handler is in the place
    of an action. *)
Definition passed_on (s : FaultState) (previous : sigaction) (signal : Z) (c : Cpu) : handled :=
  if sa_handler previous =? SIG_IGN then returns s (Some c)
  else if sa_handler previous =? SIG_DFL then exits (128 + signal)
  else calls s (sa_handler previous) (negb (Z.land (sa_flags previous) SA_SIGINFO =? 0)).

Lemma dispatch_previous_spec s signal st c :
  signal_state s signal = Some st ->
  dispatch_previous s signal (Some c) = passed_on s (previous st) signal c.
Proof.
  unfold dispatch_previous, passed_on, SIG_DFL. intros ->. destruct (_ =? SIG_IGN); [done|].
  destruct (Z.eqb_spec (sa_handler (previous st)) 0); [done|]. cbn [negb]. rewrite andb_true_r.
  by destruct (negb _).
Qed.

Lemma deliver_ours s signal address c :
  actions s signal = handler_action -> has_room c = true ->
  deliver s signal address c = guest_signal_handler s (cpu_mem c) signal (Some address) (Some c).
Proof.
  intros Ha Hroom. pose proof handler_address_ok as Hh. unfold SIG_IGN in Hh. unfold deliver. rewrite Ha, Hroom.
  cbn [sa_handler handler_action]. unfold SIG_DFL, SIG_IGN.
  rewrite !(proj2 (Z.eqb_neq _ _)), Z.eqb_refl by lia. done.
Qed.

(** C13: The handlers are installed entirely or not at all.  The first
    invocation takes over the three signals: each is then handled by
    [guest_signal_handler], no other signal's action changes, and a signal that
    arrives while nothing is captured (and whose handler the stack has room for)
    goes where it went before: to the same handler, called the same way, when
    the host had one.  When [sigaction]
    fails half-way, an exception is thrown, every action is again what it was,
    and the next invocation tries again; when the kernel accepts every action,
    the installation succeeds. *)
Theorem handlers_are_installed_or_rolled_back s :
  states_ok s -> install_once s = false ->
  match call_once_install s with
  | finished _ s' =>
      install_once s' = true /\ states_ok s' /\
      (forall n, n ∉ captured_signals -> actions s' n = actions s n) /\
      (forall n, n ∈ captured_signals -> actions s' n = handler_action /\
         forall address c, active_capture s' = None -> has_room c = true ->
           deliver s' n address c = passed_on s' (actions s n) n c)
  | threw e s' =>
      e = runtime_error "unable to install guest fault signal handler" /\
      install_once s' = false /\ states_ok s' /\ forall n, actions s' n = actions s n
  | terminated => True
  end /\
  ((forall d n a, sigaction_ok d n a = true) -> exists s', call_once_install s = finished tt s').
Proof.
  intros Hok Hf. unfold call_once_install. rewrite Hf. split.
  2: { intros Ha. unfold install_handlers.
       destruct (install_loop_succeeds s (signal_states s) [] (actions s) Ha) as [s' ->]. eauto. }
  unfold install_handlers. unfold states_ok in Hok.
  pose proof (install_loop_spec (actions s) s (signal_states s) [] (actions s)) as Hl.
  cbn [rev_append] in Hl. rewrite Hok in Hl.
  specialize (Hl ltac:(apply (bool_decide_unpack _); vm_compute; done) ltac:(by split)).
  destruct (install_loop _ _ _ _) as [[] s'|e s'|]; [| |done].
  - destruct Hl as (states & Hs & Hn & Ho & Hi). rewrite Forall_forall in Hi. rewrite Hn in Ho.
    assert (signal_states s' = states) as Hst by (by rewrite Hs).
    split_and!; [done|unfold states_ok; cbn; by rewrite Hst|exact Ho|]. intros n Hin.
    rewrite <- Hn, <- Hst in Hin. destruct (signal_state_found _ _ Hin) as (st & Hss & Hsi & <-).
    rewrite Hst in Hsi. destruct (Hi _ Hsi) as [Ha Hp]. split; [exact Ha|]. intros address c Hnone Hroom.
    rewrite deliver_ours by done. unfold guest_signal_handler. rewrite Hnone, <- Hp.
    apply dispatch_previous_spec. exact Hss.
  - destruct Hl as (-> & states & Hs & Hn & Ha). split_and!; [done| | |exact Ha].
    + by rewrite Hs.
    + unfold states_ok. by rewrite Hs.
Qed.
End Installation.

(** ** Captured calls *)

(** How the guest is left: by its return, by a signal that it raises, or by
    [terminate_guest_execution], whose trap raises SIGILL. *)
Inductive departure : Type :=
| by_return
| by_signal (signal address : Z)
| by_exit (value address : Z).

Section Captures.
Context `{SignalOs, !SignalOsLaws H}.

(** The state and the processor after the departure. *)
Definition depart (d : departure) (s : FaultState) (c : Cpu) : option (FaultState * Cpu) :=
  match d with
  | by_return => Some (s, c)
  | by_signal signal address =>
      match deliver s signal address c with returns s (Some c) => Some (s, c) | _ => None end
  | by_exit value address =>
      s ← terminate_guest_execution s (cpu_mem c) value;
      match deliver s SIGILL address c with returns s (Some c) => Some (s, c) | _ => None end
  end.

(** What the host is told. *)
Definition departure_result (d : departure) (c : Cpu) : GuestInvocationResult :=
  match d with
  | by_return => mkInvocation (cpu_reg c rax) None
  | by_signal signal address => mkInvocation 0 (Some (mkGuestFault (fault_kind signal) signal address (cpu_rip c)))
  | by_exit value _ => mkInvocation value None
  end.

(** When: a return is to the address on the stack and preserves R12; a fault is
    one of the three signals, and it and the trap of an exit leave room for the
    handler on the stack. *)
Definition departs_at (d : departure) (ce c : Cpu) : Prop :=
  match d with
  | by_return => cpu_rip c = host_word (cpu_mem ce) (cpu_reg ce rsp) /\ cpu_reg c r12 = cpu_reg ce r12
  | by_signal signal _ => signal ∈ captured_signals /\ has_room c = true
  | by_exit _ _ => has_room c = true
  end.

(** What runs inside the call leaves its frame as it was: captured calls that
    the guest makes through the host are over. *)
Record undisturbed (frame : Frame) (s1 s2 : FaultState) : Prop := {
  un_active : active_capture s2 = active_capture s1;
  un_capture : captures s2 !! fr_capture frame = captures s1 !! fr_capture frame;
  un_fault : faults s2 !! fr_fault frame = faults s1 !! fr_fault frame;
  un_actions n : n ∈ captured_signals -> actions s2 n = handler_action;
}.

(** Two states agree outside a frame. *)
Definition outside (frame : Frame) (s s' : FaultState) : Prop :=
  (forall p, p <> fr_capture frame -> captures s' !! p = captures s !! p) /\
  (forall p, p <> fr_fault frame -> faults s' !! p = faults s !! p).

(** The call begins with a new frame, and the trampoline starts. *)
Lemma begin_capture_spec s t c entry top a0 a1 a2 recovery frame c1 s1 :
  begin_capture s t c entry top a0 a1 a2 recovery = finished (frame, Some c1) s1 ->
  exists s0 c0, call_once_install s = finished tt s0 /\
    store64 c recovery 0 = Some c0 /\ invoke t c0 entry top a0 a1 a2 recovery = Ok (Some c1) /\
    fr_previous_capture frame = active_capture s0 /\
    s1 = set_active (put_capture (put_fault s0 (fr_fault frame) (mkGuestFault unknown_fault 0 0 0))
           (fr_capture frame)
           (mkActiveCapture (Some (fr_fault frame)) recovery (recovery_address t) false 0))
           (Some (fr_capture frame)) /\
    captures s0 !! fr_capture frame = None /\ faults s0 !! fr_fault frame = None.
Proof.
  unfold begin_capture. destruct (call_once_install s) as [[] s0|e s0|] eqn:H0; [|done..].
  destruct (store64 c recovery 0) as [c0|] eqn:Hs; [|intros E; congruence].
  destruct (invoke _ _ _ _ _ _ _ _) as [oc|e] eqn:Hi; [|done]. intros E.
  injection E as <- -> <-. exists s0, c0. cbn [fr_fault fr_capture fr_previous_capture].
  split_and!; try done; apply not_elem_of_dom, is_fresh.
Qed.

(** The installation does not touch captures. *)
Lemma call_once_install_captures s s0 :
  call_once_install s = finished tt s0 ->
  active_capture s0 = active_capture s /\ captures s0 = captures s /\ faults s0 = faults s.
Proof.
  unfold call_once_install. destruct (install_once s); [by intros [= <-]|].
  unfold install_handlers. destruct (install_loop _ _ _ s) as [[] s'|e s'|] eqn:Hl; [|done..].
  intros [= <-]. cbn. revert Hl. generalize (@nil SignalState) (signal_states s) (actions s).
  intros i todo. revert i. induction todo as [|st todo IH]; cbn [install_loop]; intros i d.
  - by intros [= <-].
  - destruct (sigaction_ok _ _ _); [apply IH|]. by destruct (rollback_loop _ _).
Qed.

(** The handler, inside a call whose stack pointer is recorded. *)
Lemma deliver_captured s signal address c p a f :
  actions s signal = handler_action -> has_room c = true ->
  active_capture s = Some p -> captures s !! p = Some a -> cap_fault a = Some f ->
  cap_recovery a <> 0 -> host_word (cpu_mem c) (cap_recovery a) <> 0 -> cap_recovery_address a <> 0 ->
  deliver s signal address c =
    returns (if exit_requested a && (signal =? SIGILL) then s
             else put_fault s f (mkGuestFault (fault_kind signal) signal address (cpu_rip c)))
      (Some (set_rip (set_reg c rsp (host_word (cpu_mem c) (cap_recovery a))) (cap_recovery_address a))).
Proof.
  intros Hact Hroom Ha Hc Hf H1 H2 H3. rewrite deliver_ours by done. unfold guest_signal_handler.
  apply Z.eqb_neq in H1, H2, H3. rewrite Ha, Hc, Hf, H1, H2, H3. cbn [orb redirect_to_recovery].
  rewrite H2, H3. cbn [orb]. by destruct (exit_requested a && _).
Qed.

(** The departure of an undisturbed call: nothing but the frame changes, the
    processor stands at the return or at the recovery address, and the frame
    says what happened. *)
Lemma depart_spec t c ce cr frame recovery s1 s2 d :
  captures s1 !! fr_capture frame =
    Some (mkActiveCapture (Some (fr_fault frame)) recovery (recovery_address t) false 0) ->
  faults s1 !! fr_fault frame = Some (mkGuestFault unknown_fault 0 0 0) ->
  active_capture s1 = Some (fr_capture frame) -> undisturbed frame s1 s2 ->
  recovery <> 0 -> recovery_address t <> 0 -> cpu_reg c rsp <> 48 ->
  host_word (cpu_mem cr) recovery = cpu_reg c rsp - 48 -> departs_at d ce cr ->
  exists s3 c3, depart d s2 cr = Some (s3, c3) /\ outside frame s2 s3 /\
    (if d is by_return then c3 = cr
     else c3 = set_rip (set_reg cr rsp (cpu_reg c rsp - 48)) (recovery_address t)) /\
    forall rax_value, (if d is by_return then rax_value = cpu_reg cr rax else rax_value = 0) ->
      finish_capture s3 frame rax_value =
        Some (departure_result d cr, set_active s3 (fr_previous_capture frame)).
Proof.
  intros Hc1 Hf1 Ha1 [Ha Hc Hf Hact] Hr Ht Hsp Hw Hd. rewrite Hc1 in Hc. rewrite Hf1 in Hf. rewrite Ha1 in Ha.
  destruct d as [|signal address|value address]; cbn [depart departs_at departure_result] in *.
  - exists s2, cr. split_and!; [done|done|done|]. intros v ->. unfold finish_capture. cbn. by rewrite Hc, Hf.
  - destruct Hd as [Hd Hroom].
    rewrite (deliver_captured s2 signal address cr _ _ _ (Hact _ Hd) Hroom Ha Hc eq_refl) by (cbn; rewrite ?Hw; lia).
    cbn [exit_requested andb cap_recovery cap_recovery_address]. rewrite Hw. do 2 eexists.
    split_and!; [done| |done|].
    + split; intros p Hp; cbn; [done|]. by rewrite lookup_insert_ne.
    + intros v ->. unfold finish_capture. cbn. rewrite Hc, lookup_insert_eq. cbn [mbind option_bind exit_requested].
      cbn [gf_native_code]. assert (signal <> 0) as Hn by (intros ->; revert Hd; unfold captured_signals;
        by rewrite !elem_of_cons, elem_of_nil; intros [?|[?|[?|?]]]).
      apply Z.eqb_neq in Hn. by rewrite Hn.
  - unfold terminate_guest_execution. rewrite Ha. cbn [mbind option_bind]. rewrite Hc.
    cbn [mbind option_bind cap_recovery cap_recovery_address cap_fault]. rewrite Hw.
    rewrite !(proj2 (Z.eqb_neq _ _)) by lia. cbn [orb mbind option_bind].
    rewrite (deliver_captured _ SIGILL address cr (fr_capture frame)
      (mkActiveCapture (Some (fr_fault frame)) recovery (recovery_address t) true value) (fr_fault frame)).
    + cbn [exit_requested cap_recovery cap_recovery_address]. rewrite Hw. do 2 eexists.
      split_and!; [done| |done|].
      * split; intros p Hp; cbn; [|done]. by rewrite lookup_insert_ne.
      * intros v ->. unfold finish_capture. cbn. by rewrite lookup_insert_eq, Hf.
    + apply Hact. unfold captured_signals. rewrite !elem_of_cons. tauto.
    + done.
    + done.
    + cbn. apply lookup_insert_eq.
    + done.
    + done.
    + cbn [cap_recovery]. rewrite Hw. lia.
    + done.
Qed.

(** C10: A captured call of the guest ends in a result.  The trampoline reaches
    the guest's entry point with the three arguments; and however the guest is
    left after that, as long as the trampoline's code, the host's frame and the
    recovery record are in place and the stack has room for a handler - by its
    return, by an access violation, a bus
    error or an illegal instruction anywhere, in the guest or in the host code
    it called, or by [terminate_guest_execution] - the processor comes back
    behind the host's call with the host's stack pointer and callee-saved
    registers, and the call gives, in that order, the guest's value, the fault
    (its kind, signal, address and instruction), or the exit value.  Captures
    nest: the enclosing one is active again and untouched. *)
Theorem captured_calls_end_in_results s t c entry top a0 a1 a2 recovery frame c1 s1 :
  trampoline_in t (cpu_mem c) -> in_u64 (cpu_reg c rsp) -> in_u64 (cpu_rip c) -> recovery <> 0 ->
  begin_capture s t c entry top a0 a1 a2 recovery = finished (frame, Some c1) s1 ->
  ready c1 -> cpu_reg c1 rsp <> 48 ->
  outside frame s s1 /\
  exists ce, steps c1 ce /\
    cpu_rip ce = entry /\ cpu_reg ce rdi = a0 /\ cpu_reg ce rsi = a1 /\ cpu_reg ce rdx = a2 /\
    forall s2 cr d,
      undisturbed frame s1 s2 -> kept (arena_base (et_code t)) c1 ce cr ->
      host_word (cpu_mem cr) recovery = host_word (cpu_mem ce) recovery -> departs_at d ce cr ->
      exists s3 c3 cf s4, depart d s2 cr = Some (s3, c3) /\ steps c3 cf /\
        cpu_rip cf = cpu_rip c /\ (forall r, r ∈ rsp :: saved -> cpu_reg cf r = cpu_reg c r) /\
        cpu_mem cf = cpu_mem cr /\
        finish_capture s3 frame (cpu_reg cf rax) = Some (departure_result d cr, s4) /\
        active_capture s4 = active_capture s /\ outside frame s2 s4.
Proof.
  intros Ht Hsp Hip Hrec Hb Hr H48.
  destruct (begin_capture_spec _ _ _ _ _ _ _ _ _ _ _ _ Hb) as (s0 & c0 & H0 & Hst & Hi & Hprev & Hs1 & _).
  apply call_once_install_captures in H0 as (Hact0 & Hcap0 & Hfault0).
  assert (trampoline_in t (cpu_mem c0)) as Ht0.
  { destruct Ht as [? Hcode ?]. split; [done| |done]. eapply mem_step_code; [by eapply store64_mem|done]. }
  assert (cpu_reg c0 = cpu_reg c /\ cpu_rip c0 = cpu_rip c) as [Hreg0 Hrip0].
  { unfold store64 in Hst. destruct (host_allows _ _ _ _); [by injection Hst as <-|done]. }
  rewrite <- Hreg0, <- Hrip0 in *.
  destruct (invoke_state _ _ _ _ _ _ _ _ _ Ht0 Hsp Hip Hi Hr)
    as (Hc1 & Hip1 & (Hdi & _ & Hdx & Hcx & H8 & H9) & Hsp1 & Hret & Hsaved).
  destruct (run_entry _ c1 Hc1 Hip1 Hr) as (ce & Hs & Hcl).
  pose proof (cl_args _ _ _ Hcl) as (Ha0 & Ha1 & Ha2). split.
  { rewrite Hs1. split; intros p Hp; cbn; rewrite lookup_insert_ne by done; congruence. }
  exists ce. split_and!; [done|by rewrite (cl_rip _ _ _ Hcl)|congruence..|].
  intros s2 cr d Hu Hk Hw Hd. rewrite <- H9, (cl_recorded _ _ _ Hcl), H9 in Hw by congruence.
  assert (recovery_address t <> 0) as Hra.
  { rewrite (ti_recovery _ _ Ht). pose proof (ti_base _ _ Ht). unfold recovery_offset. cbn. lia. }
  destruct (depart_spec t c1 ce cr frame recovery s1 s2 d) as (s3 & c3 & Hdep & Hout & Hc3 & Hfin);
    [by rewrite Hs1; cbn; apply lookup_insert_eq|by rewrite Hs1; cbn; apply lookup_insert_eq
    |by rewrite Hs1|done..|congruence|done|].
  assert (exists cf, steps c3 cf /\ returned c1 cr cf /\
            if d is by_return then cpu_reg cf rax = cpu_reg cr rax else cpu_reg cf rax = 0) as (cf & Hsf & Hrt & Hax).
  { pose proof (run_recovery (arena_base (et_code t)) c1 ce c3 Hr Hcl) as Hrr.
    destruct d as [|signal address|value address].
    - subst c3. destruct Hd as [Hipr H12]. rewrite (cl_rsp _ _ _ Hcl), (cl_return _ _ _ Hcl) in Hipr.
      by apply (run_back (arena_base (et_code t)) c1 ce).
    - subst c3. destruct Hrr as (cf & ? & [] & ?); [by destruct Hk; split|apply (ti_recovery _ _ Ht)|done|].
      by exists cf.
    - subst c3. destruct Hrr as (cf & ? & [] & ?); [by destruct Hk; split|apply (ti_recovery _ _ Ht)|done|].
      by exists cf. }
  exists s3, c3, cf, (set_active s3 (fr_previous_capture frame)). destruct Hrt as [Hrip Hrsp Hrs Hm].
  split_and!; [done|done|by rewrite Hrip| |done|apply Hfin; by destruct d|cbn; congruence|done].
  intros r [->|Hin]%elem_of_cons; [by rewrite Hrsp|]. by rewrite Hrs, Hsaved.
Qed.

(** The guard pages of a guest stack do not give a captured fault: the handler
    would run on the stack that is exhausted, so the first push below [base()]
    kills the process. *)
Theorem stack_overflow_kills_the_process `{HostOs, !HostOsLaws H0} h usable_size guard_pages stack h' s address c :
  in_u64 usable_size -> 0 < guard_pages -> create_stack h usable_size guard_pages = (Some stack, h') ->
  hm_prot (cpu_mem c) = hm_prot h' -> cpu_reg c rsp = gst_base stack ->
  host_allows PROT_WRITE (cpu_mem c) (cpu_reg c rsp - 8) 8 = false /\
  deliver s SIGSEGV address c = killed SIGSEGV.
Proof.
  intros Hu Hg Hc Hp Hsp. pose proof page_size_pos as Hpage. pose proof signal_frame_pos as Hf.
  destruct (create_stack_guards _ _ _ _ _ Hu (Z.lt_le_incl _ _ Hg) Hc) as (_ & _ & _ & _ & _ & _ & Hguard).
  assert (forall n, 0 < n -> host_allows PROT_WRITE (cpu_mem c) (cpu_reg c rsp - n) n = false) as Hno.
  { intros n Hn. apply not_true_is_false. rewrite host_allows_true by lia. intros Ha.
    specialize (Ha (cpu_reg c rsp - 1) ltac:(lia)). rewrite Hp, Hsp, Hguard in Ha by nia. done. }
  split; [by apply Hno|]. unfold deliver, has_room. rewrite Hno by done. by rewrite orb_true_r.
Qed.

End Captures.

(** ** Witnesses *)

(** A kernel that accepts every action, and one that refuses those for
    SIGILL. *)
Definition tiny_signals : SignalOs := {|
  handler_address := 0x700000; sigaction_ok _ _ _ := true; signal_frame := 1024 |}.
Definition partial_signals : SignalOs := {|
  handler_address := 0x700000; sigaction_ok _ n _ := negb (n =? SIGILL); signal_frame := 1024 |}.

Lemma tiny_signals_laws : SignalOsLaws tiny_signals.
Proof. split; reflexivity. Qed.
Lemma partial_signals_laws : SignalOsLaws partial_signals.
Proof. split; reflexivity. Qed.

(** A host with a SIGSEGV handler of its own, and nothing installed yet. *)
Definition tiny_actions : Z -> sigaction :=
  set_action (fun _ => mkSigaction SIG_DFL 0) SIGSEGV (mkSigaction 0x600000 SA_SIGINFO).
Definition tiny_faults : FaultState := mkFaultState tiny_actions initial_signal_states false ∅ ∅ None.

Lemma handlers_are_installed_or_rolled_back_witness :
  states_ok tiny_faults /\ install_once tiny_faults = false /\
  (exists s', @call_once_install tiny_signals tiny_faults = finished tt s') /\
  (exists e s', @call_once_install partial_signals tiny_faults = threw e s' /\
     forall n, actions s' n = tiny_actions n).
Proof.
  split; [reflexivity|]. split; [reflexivity|]. split.
  - apply (@handlers_are_installed_or_rolled_back tiny_signals tiny_signals_laws); reflexivity.
  - destruct (@handlers_are_installed_or_rolled_back partial_signals partial_signals_laws tiny_faults
                eq_refl eq_refl) as [Hi _].
    destruct (@call_once_install partial_signals tiny_faults) as [u s'|e s'|] eqn:E; [discriminate E| |discriminate E].
    exists e, s'. split; [reflexivity|]. destruct Hi as (_ & _ & _ & Ha). exact Ha.
Defined.

(** The call of NativeThreadProps.v, captured. *)
Definition tiny_begin := @begin_capture tiny_signals tiny_faults tiny_trampoline tiny_cpu 8192 32776 49152 20 22 57344.

Definition tiny_captured : Cpu :=
  match tiny_begin with finished (_, Some c) _ => c | _ => tiny_cpu end.
Definition tiny_capturing : FaultState :=
  match tiny_begin with finished _ s => s | _ => tiny_faults end.

Definition tiny_frame : Frame :=
  match tiny_begin with finished (frame, _) _ => frame | _ => mkFrame 0 0 None end.

Lemma tiny_begins : tiny_begin = finished (tiny_frame, Some tiny_captured) tiny_capturing.
Proof.
  assert (match tiny_begin with finished (_, Some _) _ => true | _ => false end = true) as Hb
    by (vm_compute; reflexivity).
  unfold tiny_frame, tiny_captured, tiny_capturing. by destruct tiny_begin as [[frame [c|]] s|e s|].
Qed.

Lemma tiny_captured_ready : ready tiny_captured.
Proof.
  assert (aligned_top tiny_captured = 32768) as Hat by reflexivity.
  assert (cpu_reg tiny_captured rsp = 65528) as Hsp by reflexivity.
  assert (cpu_reg tiny_captured r9 = 57344) as H9 by reflexivity.
  split; rewrite ?Hat, ?Hsp, ?H9; unfold in_frame.
  - intros r. exact (rd_regs _ tiny_ready r).
  - lia.
  - vm_compute. reflexivity.
  - vm_compute. reflexivity.
  - lia.
  - vm_compute. reflexivity.
  - intros _. vm_compute. reflexivity.
  - intros a Ha. lia.
  - intros a _ Ha. lia.
Qed.

(** The guest faults at its first instruction: the result is the fault. *)
Lemma captured_calls_end_in_results_witness :
  trampoline_in tiny_trampoline (cpu_mem tiny_cpu) /\ ready tiny_captured /\
  exists frame ce, steps tiny_captured ce /\ cpu_rip ce = 8192 /\
    forall d, kept 4096 tiny_captured ce ce -> @departs_at tiny_signals d ce ce ->
      exists s3 c3 cf s4, @depart tiny_signals d tiny_capturing ce = Some (s3, c3) /\ steps c3 cf /\
        cpu_rip cf = 1048576 /\
        finish_capture s3 frame (cpu_reg cf rax) = Some (departure_result d ce, s4).
Proof.
  split; [exact tiny_in|]. split; [exact tiny_captured_ready|].
  destruct (@captured_calls_end_in_results tiny_signals tiny_signals_laws tiny_faults tiny_trampoline
     tiny_cpu 8192 32776 49152 20 22 57344 tiny_frame tiny_captured tiny_capturing tiny_in
     ltac:(vm_compute; split; [discriminate|reflexivity])
     ltac:(vm_compute; split; [discriminate|reflexivity]) ltac:(discriminate) tiny_begins
     tiny_captured_ready ltac:(discriminate)) as (_ & ce & Hs & Hip & _ & _ & _ & Hd).
  exists tiny_frame, ce. split; [exact Hs|]. split; [exact Hip|]. intros d Hk Hdep.
  destruct (Hd tiny_capturing ce d) as (s3 & c3 & cf & s4 & H1 & H2 & H3 & _ & _ & H4 & _).
  - split; [reflexivity..|]. intros n Hn. unfold captured_signals in Hn.
    rewrite !elem_of_cons, elem_of_nil in Hn. destruct Hn as [->|[->|[->|[]]]]; reflexivity.
  - exact Hk.
  - reflexivity.
  - exact Hdep.
  - exists s3, c3, cf, s4. split; [exact H1|]. split; [exact H2|]. split; [exact H3|exact H4].
Defined.

(** ** The message of the exception *)

(** What a reader makes of hexadecimal digits, [None] for another character. *)
Definition digit_value (a : ascii) : option Z :=
  let n := Z.of_nat (nat_of_ascii a) in
  if (48 <=? n) && (n <? 58) then Some (n - 48)
  else if (97 <=? n) && (n <? 103) then Some (n - 87) else None.

Fixpoint read_hex (acc : Z) (s : string) : option Z :=
  match s with
  | EmptyString => Some acc
  | String a s => d ← digit_value a; read_hex (16 * acc + d) s
  end.

Lemma digit_value_hex d : 0 <= d < 16 -> digit_value (hex_digit d) = Some d.
Proof.
  intros Hd. assert (d ∈ seqZ 0 16) as Hin by (apply elem_of_seqZ; lia). clear Hd. revert d Hin.
  apply Forall_forall. apply (bool_decide_unpack _). vm_compute. exact I.
Qed.

Lemma read_hex_app s : forall acc t v, read_hex acc s = Some v -> read_hex acc (s +:+ t) = read_hex v t.
Proof.
  induction s as [|a s IH]; intros acc t v; cbn [read_hex]; [by intros [= ->]|].
  change (String a s +:+ t) with (String a (s +:+ t)). cbn [read_hex].
  destruct (digit_value a) as [d|]; [|done]. cbn [mbind option_bind]. apply IH.
Qed.

Lemma read_hex_digits fuel : forall n, 0 <= n < 16 ^ Z.of_nat fuel -> (0 < fuel)%nat -> read_hex 0 (hex_digits fuel n) = Some n.
Proof.
  induction fuel as [|fuel IH]; intros n Hn Hf; [lia|]. cbn [hex_digits].
  pose proof (Z.mod_pos_bound n 16 eq_refl) as Hm. pose proof (Z.div_mod n 16 ltac:(done)) as Hd.
  assert (forall v, read_hex v (String (hex_digit (n mod 16)) EmptyString) = Some (16 * v + n mod 16)) as Hlast.
  { intros v. cbn [read_hex]. by rewrite digit_value_hex. }
  destruct (Z.ltb_spec n 16) as [Hlt|Hge].
  - change (EmptyString +:+ ?x) with x. rewrite Hlast, Z.mod_small by lia. f_equal; lia.
  - rewrite Nat2Z.inj_succ, Z.pow_succ_r in Hn by lia. destruct fuel as [|fuel]; [cbn in Hn; lia|].
    erewrite read_hex_app; [|apply IH; [|lia]].
    + rewrite Hlast. f_equal; lia.
    + split; [apply Z.div_pos; lia|]. apply Z.div_lt_upper_bound; lia.
Qed.

(** The message ends with the instruction's address: read back, it is the
    address. *)
Theorem the_message_names_the_instruction fault :
  in_u64 (gf_instruction_pointer fault) ->
  exists digits, fault_message fault = "guest execution fault at 0x" +:+ digits /\
    read_hex 0 digits = Some (gf_instruction_pointer fault).
Proof.
  intros Hi. exists (hex_digits 16 (gf_instruction_pointer fault)). split; [done|]. apply read_hex_digits; [|lia].
  change (16 ^ Z.of_nat 16) with u64_mod. unfold in_u64 in Hi. lia.
Qed.

Example the_message_of_a_fault :
  fault_message (mkGuestFault access_violation 11 0 0x80001c) = "guest execution fault at 0x80001c".
Proof. reflexivity. Qed.
