(* ===== verification/GuestMemory.v ===== *)
(** * The guest address space

    [src/include/nyxora/memory/guest_address_space.hpp] and
    [src/src/memory/guest_address_space.cpp]: the map of regions, over buffers
    of its own or over a native arena.

    [space] is the object: the regions by base address, the arena when the
    space is native-backed, and the host memory the arena lives in.  Every
    method returns what the C++ method returns together with the object after
    the call; the three methods that store through a pointer are in [result],
    because a store to a page the host protects would end the process. *)

From S2P Require Import Prelude OrdMap NativeArena.

Local Open Scope Z_scope.

Inductive RegionKind : Type :=
| kind_generic | kind_anonymous | kind_file | kind_stack | kind_reserved
| kind_flexible | kind_direct.

#[export] Instance RegionKind_eq_dec : EqDecision RegionKind.
Proof. solve_decision. Defined.

Record RegionInfo : Type := mkRegionInfo {
  ri_base : Z;
  ri_size : Z;
  ri_protection : Z;
  ri_name : string;
  ri_offset : Z;
  ri_memory_type : Z;
  ri_kind : RegionKind;
  ri_committed : bool;
  ri_auxiliary_protection : Z;
}.

Record Region : Type := mkRegion { info : RegionInfo; storage : list byte }.

Record space : Type := mkSpace {
  regions_ : omap Region;
  native_ : option NativeArena;
  host_ : HostMem;
}.

Definition with_regions (s : space) (m : omap Region) : space := mkSpace m (native_ s) (host_ s).
Definition with_host (s : space) (h : HostMem) : space := mkSpace (regions_ s) (native_ s) h.

(** A piece of a region, with a base, size, protection and offset of its
    own. *)
Definition piece_info (i : RegionInfo) (base size protection offset : Z) : RegionInfo :=
  mkRegionInfo base size protection (ri_name i) offset (ri_memory_type i) (ri_kind i)
    (ri_committed i) (ri_auxiliary_protection i).

Definition set_protection (i : RegionInfo) (protection : Z) : RegionInfo :=
  piece_info i (ri_base i) (ri_size i) protection (ri_offset i).

Definition end_address (base size : Z) : option Z :=
  if (size =? 0) || (u64_max - size <? base) then None else Some (base + size).

(** [info.base + info.size]. *)
Definition region_end (i : RegionInfo) : Z := wrap64 (ri_base i + ri_size i).

Definition native_backed (s : space) : bool := match native_ s with Some _ => true | None => false end.
Definition native_base (s : space) : Z :=
  match native_ s with Some a => arena_base a | None => 0 end.
Definition native_size (s : space) : Z :=
  match native_ s with Some a => arena_size a | None => 0 end.

Definition arena_offset (arena : NativeArena) (address : Z) : option Z :=
  if address <? arena_base arena then None
  else
    let offset := address - arena_base arena in
    if offset <=? arena_size arena then Some offset else None.

Definition native_offset (s : space) (address : Z) : option Z :=
  arena ← native_ s; arena_offset arena address.

Definition find_region (m : omap Region) (address : Z) : option Region :=
  match oprev_le address m with
  | None => None
  | Some (_, r) => if address <? region_end (info r) then Some r else None
  end.

(** Whether the offset of a kind counts bytes from the start of the region. *)
Definition offset_advances (k : RegionKind) : bool :=
  bool_decide (k = kind_direct) || bool_decide (k = kind_file).

Section Operations.
Context `{HostOs}.

Definition reserve_native (h : HostMem) (size preferred_base : Z) : option space :=
  '(arena, h) ← reserve h size preferred_base; Some (mkSpace [] (Some arena) h).

Definition map_region (s : space) (i : RegionInfo) : bool * space :=
  match end_address (ri_base i) (ri_size i) with
  | None => (false, s)
  | Some end_ =>
      let base := ri_base i in
      let size := ri_size i in
      if (match olower base (regions_ s) with Some (k, _) => k <? end_ | None => false end)
      then (false, s)
      else if (match oprev_lt base (regions_ s) with
               | Some (_, previous) => base <? region_end (info previous)
               | None => false
               end)
      then (false, s)
      else
        match native_ s with
        | Some arena =>
            match arena_offset arena base with
            | None => (false, s)
            | Some offset =>
                if arena_size arena - offset <? size then (false, s)
                else
                  let '(ok, h) := arena_protect arena (host_ s) offset size (ri_protection i) in
                  let s := with_host s h in
                  if ok then (true, with_regions s (oemplace base (mkRegion i []) (regions_ s)))
                  else (false, s)
            end
        | None =>
            (true, with_regions s
               (oemplace base (mkRegion i (replicate (Z.to_nat size) zero_byte)) (regions_ s)))
        end
  end.

(** [map(base, size, protection, name)]. *)
Definition map_named (s : space) (base size protection : Z) (name : string) : bool * space :=
  map_region s (mkRegionInfo base size protection name 0 0 kind_generic true 0).

Definition unmap (s : space) (base size : Z) : bool * space :=
  match ofind base (regions_ s) with
  | None => (false, s)
  | Some r =>
      if negb (ri_size (info r) =? size) then (false, s)
      else
        match native_ s with
        | None => (true, with_regions s (oerase base (regions_ s)))
        | Some arena =>
            match arena_offset arena base with
            | None => (false, s)
            | Some offset =>
                let '(ok, h) := arena_protect arena (host_ s) offset size prot_none in
                let s := with_host s h in
                if ok then (true, with_regions s (oerase base (regions_ s))) else (false, s)
            end
        end
  end.

(** *** [unmap_range] *)

Record Removal : Type := mkRemoval {
  region_base : Z;
  overlap_base : Z;
  overlap_size : Z;
  removal_protection : Z;
}.

(** [prepare_overlap]: what is to be removed of a region, and the pieces that
    remain. *)
Definition overlap_removal (original : Region) (ob oe : Z) : Removal :=
  mkRemoval (ri_base (info original)) ob (oe - ob) (ri_protection (info original)).

Definition overlap_before (native : bool) (original : Region) (ob : Z) : omap Region :=
  let i := info original in
  if ri_base i <? ob then
    let size := ob - ri_base i in
    [(ri_base i, mkRegion (piece_info i (ri_base i) size (ri_protection i) (ri_offset i))
                   (if native then [] else zslice (storage original) 0 size))]
  else [].

Definition overlap_after (native : bool) (original : Region) (oe : Z) : omap Region :=
  let i := info original in
  let original_end := region_end i in
  if oe <? original_end then
    let size := original_end - oe in
    let offset := if offset_advances (ri_kind i)
                  then wrap64 (ri_offset i + (oe - ri_base i)) else ri_offset i in
    [(oe, mkRegion (piece_info i oe size (ri_protection i) offset)
            (if native then [] else
               zslice (storage original) (oe - ri_base i)
                 (zlen (storage original) - (oe - ri_base i))))]
  else [].

Definition prepare_overlap (native : bool) (acc : list Removal * omap Region)
    (overlap : Region * Z * Z) : list Removal * omap Region :=
  let '(original, ob, oe) := overlap in
  (acc.1 ++ [overlap_removal original ob oe],
   omerge (omerge acc.2 (overlap_before native original ob)) (overlap_after native original oe)).

(** The overlaps of [base, end_) with the regions, in the order the source
    visits them. *)
Definition overlaps_of (m : omap Region) (base end_ : Z) : list (Region * Z * Z) :=
  (match find_region m base with
   | Some original =>
       if ri_base (info original) <? base then
         let oe := Z.min end_ (region_end (info original)) in
         if base <? oe then [(original, base, oe)] else []
       else []
   | None => []
   end) ++
  (orange base end_ m ≫= fun kr =>
     let original := kr.2 in
     let ob := Z.max base (ri_base (info original)) in
     let oe := Z.min end_ (region_end (info original)) in
     if ob <? oe then [(original, ob, oe)] else []).

(** Undoing the protections already applied, last one first. *)
Fixpoint rollback (arena : NativeArena) (h : HostMem) (applied : list Removal) : HostMem :=
  match applied with
  | [] => h
  | r :: applied =>
      let offset := default 0 (arena_offset arena (overlap_base r)) in
      rollback arena
        (arena_protect arena h offset (overlap_size r) (removal_protection r)).2 applied
  end.

Fixpoint protect_removals (arena : NativeArena) (h : HostMem) (applied todo : list Removal)
  : bool * HostMem :=
  match todo with
  | [] => (true, h)
  | r :: todo =>
      let offset := default 0 (arena_offset arena (overlap_base r)) in
      let '(ok, h) := arena_protect arena h offset (overlap_size r) prot_none in
      if ok then protect_removals arena h (r :: applied) todo
      else (false, rollback arena h applied)
  end.

Definition removal_aligned (arena : NativeArena) (r : Removal) : bool :=
  match arena_offset arena (overlap_base r) with
  | None => false
  | Some _ => (overlap_base r mod page_size =? 0) && (overlap_size r mod page_size =? 0)
  end.

Definition unmap_range (s : space) (base size : Z) : bool * space :=
  match end_address base size with
  | None => (false, s)
  | Some end_ =>
      let '(removals, prepared) :=
        foldl (prepare_overlap (native_backed s)) ([], []) (overlaps_of (regions_ s) base end_) in
      let commit s :=
        with_regions s
          (omerge (foldl (fun m r => oerase (region_base r) m) (regions_ s) removals) prepared) in
      match native_ s with
      | None => (true, commit s)
      | Some arena =>
          if negb (forallb (removal_aligned arena) removals) then (false, s)
          else
            let '(ok, h) := protect_removals arena (host_ s) [] removals in
            let s := with_host s h in
            if ok then (true, commit s) else (false, s)
      end
  end.

(** *** Protection *)

Definition protect (s : space) (base size protection : Z) : bool * space :=
  match ofind base (regions_ s) with
  | None => (false, s)
  | Some r =>
      if negb (ri_size (info r) =? size) then (false, s)
      else
        let commit s :=
          with_regions s
            (oinsert base (mkRegion (set_protection (info r) protection) (storage r))
               (regions_ s)) in
        match native_ s with
        | None => (true, commit s)
        | Some arena =>
            match arena_offset arena base with
            | None => (false, s)
            | Some offset =>
                let '(ok, h) := arena_protect arena (host_ s) offset size protection in
                let s := with_host s h in
                if ok then (true, commit s) else (false, s)
            end
        end
  end.

(** [make_region] of [protect_range]. *)
Definition make_region (native : bool) (original : Region)
    (piece_base piece_size piece_protection storage_offset : Z) : omap Region :=
  let i := info original in
  let offset := if offset_advances (ri_kind i)
                then wrap64 (ri_offset i + storage_offset) else ri_offset i in
  [(piece_base, mkRegion (piece_info i piece_base piece_size piece_protection offset)
                  (if native then [] else zslice (storage original) storage_offset piece_size))].

Definition protect_range (s : space) (base size protection : Z) : bool * space :=
  match end_address base size with
  | None => (false, s)
  | Some end_ =>
      match find_region (regions_ s) base with
      | None => (false, s)
      | Some r =>
          let original_base := ri_base (info r) in
          let original_size := ri_size (info r) in
          if (u64_max - original_size <? original_base)
             || (original_base + original_size <? end_) then (false, s)
          else if (base =? original_base) && (size =? original_size)
          then protect s base size protection
          else
            let native := native_backed s in
            let before_size := base - original_base in
            let after_size := original_base + original_size - end_ in
            let replacements :=
              omerge
                (omerge
                   (if negb (before_size =? 0)
                    then make_region native r original_base before_size
                           (ri_protection (info r)) 0
                    else [])
                   (make_region native r base size protection before_size))
                (if negb (after_size =? 0)
                 then make_region native r end_ after_size (ri_protection (info r))
                        (before_size + size)
                 else []) in
            let commit s :=
              with_regions s (omerge (oerase original_base (regions_ s)) replacements) in
            match native_ s with
            | None => (true, commit s)
            | Some arena =>
                match arena_offset arena base with
                | None => (false, s)
                | Some offset =>
                    if negb (size mod page_size =? 0) then (false, s)
                    else
                      let '(ok, h) := arena_protect arena (host_ s) offset size protection in
                      let s := with_host s h in
                      if ok then (true, commit s) else (false, s)
                end
            end
      end
  end.

(** *** Bytes *)

(** The region's buffer after a [memcpy] into it. *)
Definition store_buffered (s : space) (r : Region) (offset : Z) (bytes : list byte) : space :=
  with_regions s
    (oinsert (ri_base (info r)) (mkRegion (info r) (zsplice (storage r) offset bytes))
       (regions_ s)).

Definition write (s : space) (address : Z) (bytes : list byte) : result (bool * space) :=
  match bytes with
  | [] => Ok (true, s)
  | _ =>
      match find_region (regions_ s) address with
      | None => Ok (false, s)
      | Some r =>
          if negb (has (ri_protection (info r)) prot_write) then Ok (false, s)
          else
            let offset := address - ri_base (info r) in
            if ri_size (info r) - offset <? zlen bytes then Ok (false, s)
            else
              match native_ s with
              | Some arena =>
                  match arena_offset arena address with
                  | None => Ok (false, s)
                  | Some o =>
                      '(ok, h) ← arena_copy arena (host_ s) o bytes; Ok (ok, with_host s h)
                  end
              | None => Ok (true, store_buffered s r offset bytes)
              end
      end
  end.

(** [patch] makes a read-only native region writable for the copy and
    restores its protection. *)
Definition patch_native (s : space) (arena : NativeArena) (r : Region)
    (region_offset patch_offset : Z) (bytes : list byte) : result (bool * space) :=
  let original := ri_protection (info r) in
  let size := ri_size (info r) in
  let '(ok, h) :=
    if has original prot_write then (true, host_ s)
    else arena_protect arena (host_ s) region_offset size (prot_or prot_read prot_write) in
  if negb ok then Ok (false, with_host s h)
  else
    '(copied, h) ← arena_copy arena h patch_offset bytes;
    if has original prot_write then Ok (copied, with_host s h)
    else
      let '(ok, h) := arena_protect arena h region_offset size original in
      Ok (ok && copied, with_host s h).

Definition patch (s : space) (address : Z) (bytes : list byte) : result (bool * space) :=
  match bytes with
  | [] => Ok (true, s)
  | _ =>
      match find_region (regions_ s) address with
      | None => Ok (false, s)
      | Some r =>
          let offset := address - ri_base (info r) in
          if ri_size (info r) - offset <? zlen bytes then Ok (false, s)
          else
            match native_ s with
            | None => Ok (true, store_buffered s r offset bytes)
            | Some arena =>
                match arena_offset arena (ri_base (info r)), arena_offset arena address with
                | Some region_offset, Some patch_offset =>
                    patch_native s arena r region_offset patch_offset bytes
                | _, _ => Ok (false, s)
                end
            end
      end
  end.

Definition flush_instruction_cache (s : space) (address size : Z) : bool :=
  if size =? 0 then true
  else
    match find_region (regions_ s) address with
    | None => false
    | Some r =>
        let offset := address - ri_base (info r) in
        if ri_size (info r) - offset <? size then false
        else
          match native_ s with
          | None => true
          | Some arena =>
              match arena_offset arena address with
              | None => false
              | Some o => arena_flush arena o size
              end
          end
    end.

Definition zero (s : space) (address size : Z) : result (bool * space) :=
  match find_region (regions_ s) address with
  | None => Ok (false, s)
  | Some r =>
      if negb (has (ri_protection (info r)) prot_write) then Ok (false, s)
      else
        let offset := address - ri_base (info r) in
        if ri_size (info r) - offset <? size then Ok (false, s)
        else
          let zeros := replicate (Z.to_nat size) zero_byte in
          match native_ s with
          | Some arena =>
              match arena_offset arena address with
              | None => Ok (false, s)
              | Some o =>
                  match host_pointer arena o with
                  | None => Throw (undefined_behaviour "memset through a null pointer")
                  | Some pointer =>
                      h ← host_memcpy (host_ s) pointer zeros; Ok (true, with_host s h)
                  end
              end
          | None => Ok (true, store_buffered s r offset zeros)
          end
  end.

(** [view]: the bytes of the span, which is empty when the range is not inside
    one region. *)
Definition view (s : space) (address size : Z) : list byte :=
  match find_region (regions_ s) address with
  | None => []
  | Some r =>
      let offset := address - ri_base (info r) in
      if ri_size (info r) - offset <? size then []
      else
        match native_ s with
        | Some arena =>
            match arena_offset arena address with
            | None => []
            | Some o =>
                match host_pointer arena o with
                | None => []
                | Some pointer => host_bytes (host_ s) pointer size
                end
            end
        | None => zslice (storage r) offset size
        end
  end.

Definition find (s : space) (address : Z) : option RegionInfo :=
  info <$> find_region (regions_ s) address.

Definition regions (s : space) : list RegionInfo := map (fun kr => info kr.2) (regions_ s).

End Operations.

(** ** The invariant *)

Section Invariant.
Context `{HostOs, !HostOsLaws H}.

(** The addresses of a region. *)
Definition covers (r : Region) (a : Z) : Prop :=
  ri_base (info r) <= a < ri_base (info r) + ri_size (info r).

(** The bytes of a region: its own buffer, or pages of the arena. *)
Definition backed (native : option NativeArena) (r : Region) : Prop :=
  match native with
  | None => zlen (storage r) = ri_size (info r)
  | Some arena =>
      storage r = [] /\ arena_base arena <= ri_base (info r) /\
      ri_base (info r) + ri_size (info r) <= arena_base arena + arena_size arena /\
      ri_base (info r) mod page_size = 0
  end.

Record region_wf (native : option NativeArena) (k : Z) (r : Region) : Prop := {
  wf_key : ri_base (info r) = k;
  wf_base : 0 <= k;
  wf_size : 0 < ri_size (info r);
  wf_end : k + ri_size (info r) <= u64_max;
  wf_backed : backed native r;
}.

(** The region map: ordered, each region well formed, no two overlapping. *)
Record map_wf (native : option NativeArena) (m : omap Region) : Prop := {
  wf_sorted : sorted m;
  wf_region k r : ofind k m = Some r -> region_wf native k r;
  wf_disjoint k1 r1 k2 r2 :
    ofind k1 m = Some r1 -> ofind k2 m = Some r2 -> k1 < k2 ->
    k1 + ri_size (info r1) <= k2;
}.

Definition arena_wf (a : NativeArena) : Prop :=
  0 < arena_base a /\ 0 <= arena_size a /\ arena_base a + arena_size a <= u64_max /\
  arena_base a mod page_size = 0.

Record space_wf (s : space) : Prop := {
  wf_map : map_wf (native_ s) (regions_ s);
  wf_arena a : native_ s = Some a -> arena_wf a;
}.

(** The region that owns an address. *)
Definition owner (m : omap Region) (a : Z) (r : Region) : Prop :=
  ofind (ri_base (info r)) m = Some r /\ covers r a.

Lemma wf_region_end native k r : region_wf native k r -> region_end (info r) = k + ri_size (info r).
Proof. intros [<- ? ? ? _]. unfold region_end. apply wrap64_small. unfold in_u64. lia. Qed.

Lemma owner_unique native m a r1 r2 :
  map_wf native m -> owner m a r1 -> owner m a r2 -> r1 = r2.
Proof.
  intros Hm [H1 C1] [H2 C2]. unfold covers in *.
  destruct (Z.lt_trichotomy (ri_base (info r1)) (ri_base (info r2))) as [Hl|[Hl|Hl]].
  - pose proof (wf_disjoint _ _ Hm _ _ _ _ H1 H2 Hl). lia.
  - rewrite Hl in H1. congruence.
  - pose proof (wf_disjoint _ _ Hm _ _ _ _ H2 H1 Hl). lia.
Qed.

Lemma find_region_owner native m a r :
  map_wf native m -> find_region m a = Some r <-> owner m a r.
Proof.
  intros Hm. pose proof (wf_sorted _ _ Hm) as Hs. unfold find_region, owner, covers. split.
  - destruct (oprev_le a m) as [[k r']|] eqn:Hl; [|done].
    apply oprev_le_Some in Hl as (Hf & Hk & _); [|done].
    pose proof (wf_region _ _ Hm _ _ Hf) as Hw. rewrite (wf_region_end _ _ _ Hw).
    destruct Hw as [Hw _ _ _ _].
    destruct (Z.ltb_spec a (k + ri_size (info r'))); [|done]. intros [= ->]. subst k.
    split; [done|lia].
  - intros [Hf Hc].
    assert (oprev_le a m = Some (ri_base (info r), r)) as ->.
    { apply oprev_le_Some; [done|]. split; [done|]. split; [lia|].
      intros k' r' Hf' Hk'. destruct (Z.le_gt_cases k' (ri_base (info r))); [done|].
      pose proof (wf_disjoint _ _ Hm _ _ _ _ Hf Hf' ltac:(lia)). lia. }
    pose proof (wf_region _ _ Hm _ _ Hf) as Hw. rewrite (wf_region_end _ _ _ Hw).
    destruct (Z.ltb_spec a (ri_base (info r) + ri_size (info r))); [done|lia].
Qed.

Lemma find_region_None native m a :
  map_wf native m -> find_region m a = None <-> forall r, ~ owner m a r.
Proof.
  intros Hm. split.
  - intros Hf r Ho. apply (find_region_owner native) in Ho; [congruence|done].
  - intros Hn. destruct (find_region m a) as [r|] eqn:Hf; [|done].
    apply (find_region_owner native) in Hf; [|done]. by apply Hn in Hf.
Qed.

(** Maps with the same owners find the same regions. *)
Lemma find_region_iff native m native' m' a a' (f : Region -> Region) :
  map_wf native m -> map_wf native' m' ->
  (forall r, owner m a r -> owner m' a' (f r)) ->
  (forall r, owner m' a' r -> exists r', owner m a r') ->
  find_region m' a' = f <$> find_region m a.
Proof.
  intros Hm Hm' H1 H2. destruct (find_region m a) as [r|] eqn:Hf; cbn.
  - apply (find_region_owner native') ; [done|]. apply H1. by apply (find_region_owner native) in Hf.
  - apply (find_region_None native'); [done|]. intros r (r' & Hr')%H2.
    rewrite (find_region_None native) in Hf by done. by apply Hf in Hr'.
Qed.

(** ** Rebuilding a region map

    [unmap_range] and [protect_range] erase some regions and merge pieces of
    them back. *)
Definition rebuild (m : omap Region) (erased : list Z) (pieces : omap Region) : omap Region :=
  omerge (foldl (fun m k => oerase k m) m erased) (omerge [] pieces).

Lemma sorted_erase_all (m : omap Region) ks :
  sorted m -> sorted (foldl (fun m k => oerase k m) m ks).
Proof. revert m. induction ks as [|k ks IH]; intros m Hm; cbn; auto with omap. Qed.

Lemma ofind_erase_all (m : omap Region) ks k :
  sorted m ->
  ofind k (foldl (fun m k => oerase k m) m ks) = if decide (k ∈ ks) then None else ofind k m.
Proof.
  revert m. induction ks as [|k' ks IH]; intros m Hm; cbn.
  { rewrite decide_False; [done|apply not_elem_of_nil]. }
  rewrite IH, ofind_erase by auto with omap.
  destruct (decide (k ∈ ks)), (decide (k = k')), (decide (k ∈ k' :: ks)) as [?|Hn];
    try done; rewrite elem_of_cons in *; tauto.
Qed.

Lemma ofind_elem_of {V} k v (m : omap V) : ofind k m = Some v -> (k, v) ∈ m.
Proof.
  induction m as [|[k' v'] m IH]; cbn; [done|]. destruct (Z.eqb_spec k k') as [->|].
  - intros [= ->]. by left.
  - intros ?%IH. by right.
Qed.

Lemma elem_of_ofind {V} k v (m : omap V) : (k, v) ∈ m -> exists v', ofind k m = Some v'.
Proof.
  induction m as [|[k' v'] m IH]; [by intros ?%elem_of_nil|].
  rewrite elem_of_cons. cbn. destruct (Z.eqb_spec k k') as [->|Hk]; [by eexists|].
  intros [[= -> ->]|Hin]; [done|by apply IH].
Qed.

(** The pieces fit in the erased regions and do not overlap. *)
Record pieces_ok (native : option NativeArena) (m : omap Region) (erased : list Z)
    (pieces : omap Region) : Prop := {
  piece_wf k p : (k, p) ∈ pieces -> region_wf native k p;
  piece_inside k p : (k, p) ∈ pieces ->
    exists r, ofind (ri_base (info r)) m = Some r /\ ri_base (info r) ∈ erased /\
      ri_base (info r) <= k /\
      k + ri_size (info p) <= ri_base (info r) + ri_size (info r);
  pieces_disjoint k1 p1 k2 p2 : (k1, p1) ∈ pieces -> (k2, p2) ∈ pieces -> k1 < k2 ->
    k1 + ri_size (info p1) <= k2;
  pieces_unique k p1 p2 : (k, p1) ∈ pieces -> (k, p2) ∈ pieces -> p1 = p2;
}.

Lemma ofind_rebuild native m erased pieces k r :
  map_wf native m -> pieces_ok native m erased pieces ->
  ofind k (rebuild m erased pieces) = Some r <->
  (k, r) ∈ pieces \/ (ofind k m = Some r /\ k ∉ erased).
Proof.
  intros Hm Hp. pose proof (wf_sorted _ _ Hm) as Hs. unfold rebuild.
  rewrite ofind_merge, ofind_merge, ofind_erase_all by auto using sorted_erase_all with omap.
  cbn [ofind].
  assert (forall p, ofind k pieces = Some p <-> (k, p) ∈ pieces) as Hpk.
  { intros p. split; [apply ofind_elem_of|]. intros Hin.
    destruct (elem_of_ofind _ _ _ Hin) as [p' Hp']. rewrite Hp'. f_equal.
    eapply (pieces_unique _ _ _ _ Hp); [|done]. by apply ofind_elem_of. }
  destruct (decide (k ∈ erased)) as [Hk|Hk].
  - rewrite Hpk. tauto.
  - destruct (ofind k m) as [r'|] eqn:Hf.
    + split; [intros [= ->]; by right|]. intros [Hin|[[= ->] _]]; [exfalso|done].
      destruct (piece_inside _ _ _ _ Hp _ _ Hin) as (r0 & Hr0 & He & Hle & Hend).
      pose proof (wf_size _ _ _ (piece_wf _ _ _ _ Hp _ _ Hin)).
      destruct (Z.eq_dec (ri_base (info r0)) k) as [Heq|Hne]; [congruence|].
      pose proof (wf_disjoint _ _ Hm _ _ _ _ Hr0 Hf ltac:(lia)). lia.
    + rewrite Hpk. split; [by left|]. by intros [?|[? _]].
Qed.

Lemma rebuild_wf native m erased pieces :
  map_wf native m -> pieces_ok native m erased pieces ->
  map_wf native (rebuild m erased pieces).
Proof.
  intros Hm Hp. split.
  - unfold rebuild. apply sorted_merge, sorted_erase_all, (wf_sorted _ _ Hm).
  - intros k r Hf. apply (ofind_rebuild native) in Hf as [Hf|[Hf _]]; [|by eapply wf_region|done..].
    by eapply piece_wf.
  - assert (forall k1 r1 k p, ofind k1 m = Some r1 -> k1 ∉ erased -> (k, p) ∈ pieces ->
      (k1 < k -> k1 + ri_size (info r1) <= k) /\ (k < k1 -> k + ri_size (info p) <= k1)) as Hmix.
    { intros k1 r1 k p Hf Hk1 Hin.
      destruct (piece_inside _ _ _ _ Hp _ _ Hin) as (r & Hr & He & Hle & Hend).
      pose proof (wf_size _ _ _ (piece_wf _ _ _ _ Hp _ _ Hin)).
      destruct (Z.lt_trichotomy k1 (ri_base (info r))) as [Hl|[Hl|Hl]].
      - pose proof (wf_disjoint _ _ Hm _ _ _ _ Hf Hr Hl). lia.
      - congruence.
      - pose proof (wf_disjoint _ _ Hm _ _ _ _ Hr Hf Hl). lia. }
    intros k1 r1 k2 r2 [H1|[H1 N1]]%(ofind_rebuild native) [H2|[H2 N2]]%(ofind_rebuild native) Hlt;
      try done.
    + by eapply (pieces_disjoint _ _ _ _ Hp).
    + by eapply (Hmix _ _ _ _ H2 N2 H1).
    + by eapply (Hmix _ _ _ _ H1 N1 H2).
    + by eapply (wf_disjoint _ _ Hm).
Qed.

Lemma owner_rebuild native m erased pieces a r :
  map_wf native m -> pieces_ok native m erased pieces ->
  owner (rebuild m erased pieces) a r <->
  ((ri_base (info r), r) ∈ pieces /\ covers r a) \/ (owner m a r /\ ri_base (info r) ∉ erased).
Proof. intros Hm Hp. unfold owner. rewrite (ofind_rebuild native) by done. tauto. Qed.

End Invariant.

(** ** What an address holds

    The abstract view of an address space: the attributes and the byte of
    every address.  The regions are only a representation of it, which the
    operations split and join. *)

Record cell : Type := mkCell {
  c_protection : Z;
  c_name : string;
  c_offset : Z;
  c_memory_type : Z;
  c_kind : RegionKind;
  c_committed : bool;
  c_auxiliary_protection : Z;
}.

(** The offset of an address in the object it maps (file and direct memory
    only). *)
Definition cell_offset (i : RegionInfo) (a : Z) : Z :=
  if offset_advances (ri_kind i) then wrap64 (ri_offset i + (a - ri_base i)) else ri_offset i.

Definition cell_of (i : RegionInfo) (a : Z) : cell :=
  mkCell (ri_protection i) (ri_name i) (cell_offset i a) (ri_memory_type i) (ri_kind i)
    (ri_committed i) (ri_auxiliary_protection i).

Definition cell_at (s : space) (a : Z) : option cell :=
  (fun r => cell_of (info r) a) <$> find_region (regions_ s) a.

Definition byte_in (s : space) (r : Region) (a : Z) : option byte :=
  match native_ s with
  | None => zget (storage r) (a - ri_base (info r))
  | Some _ => Some (hm_byte (host_ s) a)
  end.

Definition byte_at (s : space) (a : Z) : option byte :=
  r ← find_region (regions_ s) a; byte_in s r a.

Definition cell_set_protection (p : Z) (c : cell) : cell :=
  mkCell p (c_name c) (c_offset c) (c_memory_type c) (c_kind c) (c_committed c)
    (c_auxiliary_protection c).

(** [p] is the part of [r] in its own range, with a protection of its own. *)
Record is_piece (native : bool) (r p : Region) : Prop := {
  piece_info_of : exists prot off,
    info p = piece_info (info r) (ri_base (info p)) (ri_size (info p)) prot off /\
    (if offset_advances (ri_kind (info r))
     then eq64 off (ri_offset (info r) + (ri_base (info p) - ri_base (info r)))
     else off = ri_offset (info r));
  piece_storage : storage p =
    if native then [] else
    zslice (storage r) (ri_base (info p) - ri_base (info r)) (ri_size (info p));
  piece_nonempty : 0 < ri_size (info p);
  piece_from : ri_base (info r) <= ri_base (info p);
  piece_to : ri_base (info p) + ri_size (info p) <= ri_base (info r) + ri_size (info r);
}.

Section Pieces.
Context `{HostOs, !HostOsLaws H}.

Lemma piece_cell native r p a :
  is_piece native r p -> cell_of (info p) a =
    cell_set_protection (ri_protection (info p)) (cell_of (info r) a).
Proof.
  intros [(prot & off & -> & Hoff) _ _ _ _]. cbn in Hoff. unfold cell_of, cell_set_protection, cell_offset.
  cbn. destruct (offset_advances _); [|by subst]. f_equal.
  change (eq64 (off + (a - ri_base (info p)))
    (ri_offset (info r) + (a - ri_base (info r)))).
  rewrite Hoff. unfold eq64. f_equal. lia.
Qed.

Lemma piece_covers native r p a : is_piece native r p -> covers p a -> covers r a.
Proof. intros [_ _ _ H1 H2]. unfold covers. lia. Qed.

(** A piece holds the bytes of its region. *)
Lemma piece_byte s s' r p a :
  native_ s' = native_ s -> (forall x, hm_byte (host_ s') x = hm_byte (host_ s) x) ->
  is_piece (native_backed s) r p -> covers p a -> byte_in s' p a = byte_in s r a.
Proof.
  intros Hn Hh [_ Hst _ H1 H2] Hc. unfold byte_in, covers in *. rewrite Hn.
  unfold native_backed in Hst. destruct (native_ s); [by rewrite Hh|].
  rewrite Hst. rewrite zget_zslice by lia. f_equal. lia.
Qed.

Lemma piece_backed native r p :
  region_wf native (ri_base (info r)) r -> is_piece (bool_decide (is_Some native)) r p ->
  (forall arena, native = Some arena -> ri_base (info p) mod page_size = 0) ->
  region_wf native (ri_base (info p)) p.
Proof.
  intros [_ Hb Hs He Hbk] [Hi Hst Hn Hf Ht] Hal. split; try done; try lia.
  unfold backed in *. destruct native as [arena|]; cbn in Hst.
  - destruct Hbk as (_ & ? & ? & _). split_and!; [done|lia|lia|by eapply Hal].
  - rewrite Hst. apply zslice_length; lia.
Qed.

(** The piece of [make_region]. *)
Lemma make_region_piece native r pb ps prot so k p :
  0 < ps -> so = pb - ri_base (info r) -> ri_base (info r) <= pb ->
  pb + ps <= ri_base (info r) + ri_size (info r) ->
  (k, p) ∈ make_region native r pb ps prot so ->
  k = pb /\ ri_base (info p) = pb /\ ri_size (info p) = ps /\ ri_protection (info p) = prot /\
  is_piece native r p.
Proof.
  unfold make_region. intros Hps -> Hb He [[= -> ->]|?%elem_of_nil]%elem_of_cons; [|done].
  split_and!; try done. split; cbn; try done; try lia. do 2 eexists. split; [done|].
  destruct (offset_advances _); [apply wrap64_eq64|done].
Qed.

Lemma overlap_before_piece native r ob k p :
  ob <= ri_base (info r) + ri_size (info r) -> (k, p) ∈ overlap_before native r ob ->
  k = ri_base (info r) /\ ri_base (info p) = k /\ ri_size (info p) = ob - ri_base (info r) /\
  ri_protection (info p) = ri_protection (info r) /\ is_piece native r p.
Proof.
  unfold overlap_before. intros He. destruct (Z.ltb_spec (ri_base (info r)) ob);
    [|by intros ?%elem_of_nil].
  intros [[= -> ->]|?%elem_of_nil]%elem_of_cons; [|done].
  split_and!; try done. split; cbn; try lia.
  - do 2 eexists. split; [done|]. destruct (offset_advances _); [|done].
    unfold eq64. f_equal. lia.
  - by rewrite Z.sub_diag.
Qed.

Lemma overlap_after_piece native r oe k p :
  region_wf native (ri_base (info r)) r -> ri_base (info r) <= oe ->
  (k, p) ∈ overlap_after (bool_decide (is_Some native)) r oe ->
  k = oe /\ ri_base (info p) = oe /\ oe < ri_base (info r) + ri_size (info r) /\
  ri_size (info p) = ri_base (info r) + ri_size (info r) - oe /\
  ri_protection (info p) = ri_protection (info r) /\
  is_piece (bool_decide (is_Some native)) r p.
Proof.
  unfold overlap_after. intros Hw Hb. rewrite (wf_region_end _ _ _ Hw).
  destruct (Z.ltb_spec oe (ri_base (info r) + ri_size (info r))); [|by intros ?%elem_of_nil].
  intros [[= -> ->]|?%elem_of_nil]%elem_of_cons; [|done].
  split_and!; try done. split; cbn; try lia.
  - do 2 eexists. split; [done|]. destruct (offset_advances _); [apply wrap64_eq64|done].
  - destruct Hw as [_ _ _ _ Hbk]. unfold backed in Hbk.
    destruct native; cbn; [done|]. rewrite Hbk. f_equal. lia.
Qed.

Lemma native_backed_decide s : native_backed s = bool_decide (is_Some (native_ s)).
Proof. unfold native_backed. by destruct (native_ s). Qed.

End Pieces.

(** ** [unmap_range] *)

Section UnmapRange.
Context `{HostOs, !HostOsLaws H}.

(** The part of a region inside a range. *)
Definition overlap_ok (m : omap Region) (base end_ : Z) (ov : Region * Z * Z) : Prop :=
  let '(r, ob, oe) := ov in
  ofind (ri_base (info r)) m = Some r /\
  ob = Z.max base (ri_base (info r)) /\
  oe = Z.min end_ (ri_base (info r) + ri_size (info r)) /\ ob < oe.

(** The loop of the source visits exactly the regions that meet the range. *)
Lemma overlaps_of_spec native m base end_ r ob oe :
  map_wf native m -> base < end_ ->
  (r, ob, oe) ∈ overlaps_of m base end_ <-> overlap_ok m base end_ (r, ob, oe).
Proof.
  intros Hm Hbe. pose proof (wf_sorted _ _ Hm) as Hs. unfold overlaps_of, overlap_ok.
  rewrite elem_of_app. split.
  - intros [Hin|Hin].
    + destruct (find_region m base) as [r'|] eqn:Hf; [|by apply elem_of_nil in Hin].
      apply (find_region_owner native) in Hf as [Hf Hc]; [|done].
      pose proof (wf_region _ _ Hm _ _ Hf) as Hw. rewrite (wf_region_end _ _ _ Hw) in Hin.
      unfold covers in Hc.
      destruct (Z.ltb_spec (ri_base (info r')) base); [|by apply elem_of_nil in Hin].
      destruct (Z.ltb_spec base (Z.min end_ (ri_base (info r') + ri_size (info r'))));
        [|by apply elem_of_nil in Hin].
      apply list_elem_of_singleton in Hin. simplify_eq. split_and!; [done|lia..].
    + apply list_elem_of_bind in Hin as ([k r'] & Hin & Hk).
      apply orange_elem in Hk as [Hf Hk]; [|done].
      pose proof (wf_region _ _ Hm _ _ Hf) as Hw. cbn in Hin.
      pose proof (wf_key _ _ _ Hw) as Hkey. subst k. rewrite (wf_region_end _ _ _ Hw) in Hin.
      destruct (Z.ltb_spec (Z.max base (ri_base (info r')))
        (Z.min end_ (ri_base (info r') + ri_size (info r')))); [|by apply elem_of_nil in Hin].
      apply list_elem_of_singleton in Hin. by simplify_eq.
  - intros (Hf & -> & -> & Hlt). pose proof (wf_region _ _ Hm _ _ Hf) as Hw.
    destruct (Z.lt_ge_cases (ri_base (info r)) base) as [Hb|Hb].
    + left. assert (find_region m base = Some r) as ->
        by (apply (find_region_owner native); [done|]; split; [done|unfold covers; lia]).
      rewrite (wf_region_end _ _ _ Hw). destruct (Z.ltb_spec (ri_base (info r)) base); [|lia].
      rewrite Z.max_l in * by lia.
      destruct (Z.ltb_spec base (Z.min end_ (ri_base (info r) + ri_size (info r)))); [|lia].
      by apply list_elem_of_singleton.
    + right. apply list_elem_of_bind. exists (ri_base (info r), r). cbn.
      rewrite (wf_region_end _ _ _ Hw).
      destruct (Z.ltb_spec (Z.max base (ri_base (info r)))
        (Z.min end_ (ri_base (info r) + ri_size (info r)))); [|lia].
      split; [by apply list_elem_of_singleton|]. apply orange_elem; [done|]. split; [done|lia].
Qed.

(** The pieces the loop prepares. *)
Definition overlap_pieces (native : bool) (ov : Region * Z * Z) : omap Region :=
  let '(r, ob, oe) := ov in overlap_before native r ob ++ overlap_after native r oe.

Lemma omerge_app {V} (m m1 m2 : omap V) : omerge m (m1 ++ m2) = omerge (omerge m m1) m2.
Proof. apply foldl_app. Qed.

Lemma prepare_overlaps native ovs removals prepared :
  foldl (prepare_overlap native) (removals, prepared) ovs =
  (removals ++ map (fun ov => overlap_removal ov.1.1 ov.1.2 ov.2) ovs,
   omerge prepared (ovs ≫= overlap_pieces native)).
Proof.
  revert removals prepared. induction ovs as [|[[r ob] oe] ovs IH]; intros removals prepared.
  { by rewrite app_nil_r. }
  cbn [foldl]. unfold prepare_overlap at 2. rewrite IH. cbn [fst snd map].
  rewrite <- app_assoc, bind_cons. unfold overlap_pieces at 2. by rewrite !omerge_app.
Qed.

Lemma erase_removals (m : omap Region) ovs :
  foldl (fun m r => oerase (region_base r) m) m
    (map (fun ov => overlap_removal ov.1.1 ov.1.2 ov.2) ovs) =
  foldl (fun m k => oerase k m) m (map (fun ov : Region * Z * Z => ri_base (info ov.1.1)) ovs).
Proof. revert m. induction ovs as [|ov ovs IH]; intros m; cbn; auto. Qed.

(** The map [unmap_range] installs. *)
Definition unmapped (s : space) (base end_ : Z) : omap Region :=
  let ovs := overlaps_of (regions_ s) base end_ in
  rebuild (regions_ s) (map (fun ov => ri_base (info ov.1.1)) ovs)
    (ovs ≫= overlap_pieces (native_backed s)).

(** The cut points of the range lie on pages when the space is native. *)
Definition cuts_aligned (s : space) (base end_ : Z) : Prop :=
  forall a r ob oe, native_ s = Some a -> (r, ob, oe) ∈ overlaps_of (regions_ s) base end_ ->
    ob mod page_size = 0 /\ (oe - ob) mod page_size = 0.

Lemma unmapped_pieces s base end_ k p :
  map_wf (native_ s) (regions_ s) -> base < end_ ->
  (k, p) ∈ overlaps_of (regions_ s) base end_ ≫= overlap_pieces (native_backed s) ->
  exists r, ofind (ri_base (info r)) (regions_ s) = Some r /\
    (exists ob oe, (r, ob, oe) ∈ overlaps_of (regions_ s) base end_) /\
    is_piece (native_backed s) r p /\ ri_base (info p) = k /\
    ri_protection (info p) = ri_protection (info r) /\
    ((k = ri_base (info r) /\ k + ri_size (info p) = base /\
      (k, p) ∈ overlap_before (native_backed s) r base) \/
     (k = end_ /\ k + ri_size (info p) = ri_base (info r) + ri_size (info r) /\
      end_ = Z.min end_ (ri_base (info r) + ri_size (info r)) /\
      (k, p) ∈ overlap_after (native_backed s) r end_)).
Proof.
  intros Hm Hbe. intros ([[r ob] oe] & Hp & Hov)%list_elem_of_bind. cbn in Hp.
  pose proof Hov as (Hf & -> & -> & Hlt)%(overlaps_of_spec (native_ s)); [|done..].
  pose proof (wf_region _ _ Hm _ _ Hf) as Hw. exists r. split; [done|].
  split; [by do 2 eexists|]. apply elem_of_app in Hp as [Hp|Hp].
  - assert (ri_base (info r) < base) as Hb.
    { unfold overlap_before in Hp. destruct (Z.ltb_spec (ri_base (info r))
        (Z.max base (ri_base (info r)))); [lia|by apply elem_of_nil in Hp]. }
    rewrite Z.max_l in Hp by lia. pose proof Hp as Hp'.
    apply overlap_before_piece in Hp as (-> & Hpb & Hps & Hpr & Hpi); [|lia].
    split_and!; [done..|]. left. split_and!; [done|lia|done].
  - pose proof Hp as Hp'. rewrite native_backed_decide in Hp.
    apply (overlap_after_piece (native_ s)) in Hp as (-> & Hpb & Hlt' & Hps & Hpr & Hpi);
      [|done|lia]. rewrite native_backed_decide in *. split_and!; [done..|]. right.
    assert (Z.min end_ (ri_base (info r) + ri_size (info r)) = end_) as He by lia.
    rewrite He in *. split_and!; [done|lia|done|done].
Qed.

Lemma unmapped_ok s base end_ :
  space_wf s -> base < end_ -> cuts_aligned s base end_ ->
  pieces_ok (native_ s) (regions_ s)
    (map (fun ov => ri_base (info ov.1.1)) (overlaps_of (regions_ s) base end_))
    (overlaps_of (regions_ s) base end_ ≫= overlap_pieces (native_backed s)).
Proof.
  intros [Hm Ha] Hbe Hcut. split.
  - intros k p Hp. apply unmapped_pieces in Hp as (r & Hf & Hov & Hpi & <- & _ & Hk); [|done..].
    pose proof (wf_region _ _ Hm _ _ Hf) as Hw. eapply piece_backed; [done| |].
    { by rewrite <- native_backed_decide. }
    intros arena Harena. destruct Hov as (ob & oe & Hov).
    pose proof (Hcut _ _ _ _ Harena Hov) as [Hc1 Hc2].
    apply (overlaps_of_spec (native_ s)) in Hov as (_ & -> & -> & Hlt); [|done..].
    destruct Hk as [(Hk & _)|(Hk & Hs & Hmin & _)].
    + rewrite Hk. pose proof (wf_backed _ _ _ Hw) as Hbk. rewrite Harena in Hbk. apply Hbk.
    + rewrite Hk, Hmin. set (ob := Z.max _ _) in *. set (oe := Z.min _ _) in *.
      replace oe with ((oe - ob) + ob) by lia. pose proof page_size_pos.
      by rewrite Z.add_mod, Hc1, Hc2, Z.mod_0_l by lia.
  - intros k p Hp. apply unmapped_pieces in Hp as (r & Hf & (ob & oe & Hov) & Hpi & Hk & _ & _);
      [|done..]. exists r. split; [done|]. destruct Hpi as [_ _ _ Hfr Hto].
    split_and!; [|lia|lia]. apply list_elem_of_fmap. by exists (r, ob, oe).
  - intros k1 p1 k2 p2 H1 H2 Hlt.
    apply unmapped_pieces in H1 as (r1 & Hf1 & _ & Hp1 & Hk1 & _ & Hc1); [|done..].
    apply unmapped_pieces in H2 as (r2 & Hf2 & _ & Hp2 & Hk2 & _ & Hc2); [|done..].
    pose proof (wf_disjoint _ _ Hm _ _ _ _ Hf1 Hf2). pose proof (wf_disjoint _ _ Hm _ _ _ _ Hf2 Hf1).
    destruct Hp1 as [_ _ ? ? ?], Hp2 as [_ _ ? ? ?].
    destruct (Z.eq_dec (ri_base (info r1)) (ri_base (info r2))) as [He|He].
    + rewrite He in Hf1. simplify_eq. lia.
    + lia.
  - intros k p1 p2 H1 H2.
    pose proof H1 as H1'. pose proof H2 as H2'.
    apply unmapped_pieces in H1 as (r1 & Hf1 & _ & Hp1 & Hk1 & Hr1 & Hc1); [|done..].
    apply unmapped_pieces in H2 as (r2 & Hf2 & _ & Hp2 & Hk2 & Hr2 & Hc2); [|done..].
    pose proof (wf_disjoint _ _ Hm _ _ _ _ Hf1 Hf2). pose proof (wf_disjoint _ _ Hm _ _ _ _ Hf2 Hf1).
    assert (r1 = r2) as <-.
    { destruct Hp1 as [_ _ ? ? ?], Hp2 as [_ _ ? ? ?].
      destruct (Z.eq_dec (ri_base (info r1)) (ri_base (info r2))) as [He|He]; [|lia].
      rewrite He in Hf1. congruence. }
    destruct Hc1 as [(-> & ? & Hin1)|(-> & ? & ? & Hin1)], Hc2 as [(? & ? & Hin2)|(? & ? & ? & Hin2)];
      destruct Hp1 as [_ _ ? ? ?], Hp2 as [_ _ ? ? ?]; try lia.
    + unfold overlap_before in *. case_match; [|by apply elem_of_nil in Hin1].
      apply list_elem_of_singleton in Hin1, Hin2. congruence.
    + unfold overlap_after in *. case_match; [|by apply elem_of_nil in Hin1].
      apply list_elem_of_singleton in Hin1, Hin2. congruence.
Qed.

(** Changing protections leaves the bytes of the host alone. *)
Definition same_bytes (h h' : HostMem) : Prop := forall a, hm_byte h' a = hm_byte h a.

Lemma arena_protect_bytes arena h offset size prot :
  same_bytes h (arena_protect arena h offset size prot).2.
Proof. intros a. unfold arena_protect. by repeat case_match. Qed.

Lemma rollback_bytes arena h applied : same_bytes h (rollback arena h applied).
Proof.
  revert h. induction applied as [|r applied IH]; intros h a; cbn; [done|].
  rewrite (IH _ a). apply arena_protect_bytes.
Qed.

Lemma protect_removals_bytes arena h applied todo ok h' :
  protect_removals arena h applied todo = (ok, h') -> same_bytes h h'.
Proof.
  revert h applied. induction todo as [|r todo IH]; intros h applied; cbn; [by intros [= <- <-]|].
  pose proof (arena_protect_bytes arena h
    (default 0 (arena_offset arena (overlap_base r))) (overlap_size r) prot_none) as Hb.
  destruct (arena_protect _ _ _ _ _) as [ok1 h1]. cbn in Hb. destruct ok1.
  - intros Hp%IH a. by rewrite (Hp a).
  - intros [= <- <-] a. rewrite (rollback_bytes _ _ _ a). apply Hb.
Qed.

(** What a call leaves: the object untouched but for host protections, or the
    rebuilt map. *)
Lemma unmap_range_result s base size ok s' :
  unmap_range s base size = (ok, s') ->
  native_ s' = native_ s /\ same_bytes (host_ s) (host_ s') /\
  (ok = false -> regions_ s' = regions_ s) /\
  (ok = true -> exists end_, end_address base size = Some end_ /\
    regions_ s' = unmapped s base end_ /\ cuts_aligned s base end_).
Proof.
  unfold unmap_range. destruct (end_address base size) as [end_|]; [|by intros [= <- <-]].
  rewrite prepare_overlaps. cbn [app].
  assert (forall s', regions_ (with_regions s'
    (omerge (foldl (fun m r => oerase (region_base r) m) (regions_ s)
       (map (fun ov => overlap_removal ov.1.1 ov.1.2 ov.2) (overlaps_of (regions_ s) base end_)))
       (omerge [] (overlaps_of (regions_ s) base end_ ≫= overlap_pieces (native_backed s)))))
    = unmapped s base end_) as Hr by (intros; by rewrite erase_removals).
  destruct (native_ s) as [arena|] eqn:Hn.
  - destruct (forallb _ _) eqn:Hall; cbn [negb]; [|by intros [= <- <-]].
    destruct (protect_removals _ _ _ _) as [ok1 h1] eqn:Hp. apply protect_removals_bytes in Hp.
    destruct ok1; intros [= <- <-]; split_and!; try done. intros _. exists end_.
    split_and!; [done|apply Hr|]. intros a r ob oe Ha Hin.
    rewrite forallb_forall in Hall.
    specialize (Hall (overlap_removal r ob oe)).
    rewrite <- list_elem_of_In, list_elem_of_fmap in Hall.
    specialize (Hall ltac:(by exists (r, ob, oe))).
    unfold removal_aligned in Hall. case_match; [|done]. cbn in Hall. bools. done.
  - intros [= <- <-]. split_and!; try done. intros _. exists end_.
    split_and!; [done|apply Hr|]. intros a r ob oe Ha. congruence.
Qed.

Lemma end_address_Some base size end_ :
  end_address base size = Some end_ <->
  size <> 0 /\ base + size <= u64_max /\ end_ = base + size.
Proof.
  unfold end_address. destruct (Z.eqb_spec size 0), (Z.ltb_spec (u64_max - size) base);
    cbn; split; try done; try lia; try (intros [= <-]; lia).
  intros (? & ? & ->). done.
Qed.

(** What owns an address after a region map was cut. *)
Lemma owner_unmapped s base end_ a r :
  space_wf s -> base < end_ -> cuts_aligned s base end_ ->
  owner (unmapped s base end_) a r <->
  ~ base <= a < end_ /\
  exists r0, owner (regions_ s) a r0 /\
    ((r = r0 /\ (forall x, base <= x < end_ -> ~ covers r0 x)) \/
     ((ri_base (info r), r) ∈ overlaps_of (regions_ s) base end_
        ≫= overlap_pieces (native_backed s) /\
      covers r a /\ is_piece (native_backed s) r0 r /\
      ri_protection (info r) = ri_protection (info r0))).
Proof.
  intros Hs Hbe Hcut. pose proof (wf_map _ Hs) as Hm. unfold unmapped.
  rewrite (owner_rebuild (native_ s)) by (done || by apply unmapped_ok).
  assert (forall r0, ofind (ri_base (info r0)) (regions_ s) = Some r0 ->
    ri_base (info r0) ∉ map (fun ov => ri_base (info ov.1.1)) (overlaps_of (regions_ s) base end_)
    <-> forall x, base <= x < end_ -> ~ covers r0 x) as Herased.
  { intros r0 Hf. unfold covers. rewrite list_elem_of_fmap. split.
    - intros Hn x Hx Hc. apply Hn. eexists (r0, _, _). split; [done|].
      apply (overlaps_of_spec (native_ s)); [done..|]. split_and!; [done..|lia].
    - intros Hn ([[r1 ob] oe] & Hk & Hin).
      apply (overlaps_of_spec (native_ s)) in Hin as (Hf1 & -> & -> & Hlt); [|done..].
      cbn in Hk. assert (r1 = r0) as -> by congruence.
      apply (Hn (Z.max base (ri_base (info r0)))); lia. }
  split.
  - intros [[Hin Hc]|[Ho Hn]].
    + pose proof Hin as (r0 & Hf & _ & Hpi & _ & Hpr & Hk)%unmapped_pieces; [|done..].
      pose proof (wf_size _ _ _ (wf_region _ _ Hm _ _ Hf)). destruct Hpi as [? ? ? Hfr Hto] eqn:E.
      split; [unfold covers in Hc; lia|]. exists r0. split; [|by right].
      split; [done|]. by eapply piece_covers.
    + rewrite Herased in Hn by apply Ho. split; [|by exists r; split; [|left]].
      intros Ha. by apply (Hn a Ha), Ho.
  - intros (Ha & r0 & Ho & [[-> Hn]|(Hin & Hc & _)]); [right|by left].
    split; [done|]. by apply Herased; [apply Ho|].
Qed.

End UnmapRange.

(** ** Cells and bytes from owners *)

Section Cells.
Context `{HostOs, !HostOsLaws H}.

Lemma at_owner s a r :
  space_wf s -> owner (regions_ s) a r ->
  cell_at s a = Some (cell_of (info r) a) /\ byte_at s a = byte_in s r a.
Proof.
  intros [Hm _] Ho%(find_region_owner (native_ s)); [|done].
  unfold cell_at, byte_at. by rewrite Ho.
Qed.

Lemma at_no_owner s a :
  space_wf s -> (forall r, ~ owner (regions_ s) a r) -> cell_at s a = None /\ byte_at s a = None.
Proof.
  intros [Hm _] Hn%(find_region_None (native_ s)); [|done].
  unfold cell_at, byte_at. by rewrite Hn.
Qed.

Lemma owner_dec s a :
  space_wf s -> (exists r, owner (regions_ s) a r) \/ forall r, ~ owner (regions_ s) a r.
Proof.
  intros [Hm _]. destruct (find_region (regions_ s) a) as [r|] eqn:Hf.
  - left. exists r. by apply (find_region_owner (native_ s)).
  - right. by apply (find_region_None (native_ s)).
Qed.

Lemma cell_at_owner s a c :
  space_wf s -> cell_at s a = Some c ->
  exists r, owner (regions_ s) a r /\ c = cell_of (info r) a.
Proof.
  intros Hs Hc. destruct (owner_dec s a Hs) as [[r Ho]|Hn].
  - destruct (at_owner s a r) as [Hc' _]; [done..|]. exists r. split; [done|congruence].
  - destruct (at_no_owner s a) as [Hc' _]; [done..|congruence].
Qed.

(** Owners have their byte. *)
Lemma byte_in_Some s a r :
  space_wf s -> owner (regions_ s) a r -> is_Some (byte_in s r a).
Proof.
  intros [Hm _] [Hf Hc]. unfold byte_in, covers in *.
  destruct (native_ s) eqn:Hn; [done|]. apply zget_is_Some.
  pose proof (wf_backed _ _ _ (wf_region _ _ Hm _ _ Hf)) as Hb. cbn in Hb.
  rewrite Hb. lia.
Qed.

(** An address that holds the same in two spaces. *)
Definition same_at (s s' : space) (a : Z) : Prop :=
  cell_at s' a = cell_at s a /\ byte_at s' a = byte_at s a.

Lemma same_at_intro s s' a :
  space_wf s -> space_wf s' ->
  (forall r, owner (regions_ s) a r -> exists r', owner (regions_ s') a r' /\
    cell_of (info r') a = cell_of (info r) a /\ byte_in s' r' a = byte_in s r a) ->
  (forall r', owner (regions_ s') a r' -> exists r, owner (regions_ s) a r) ->
  same_at s s' a.
Proof.
  intros Hs Hs' H1 H2. unfold same_at. destruct (owner_dec s a Hs) as [[r Ho]|Hn].
  - destruct (H1 r Ho) as (r' & Ho' & Hc & Hb).
    destruct (at_owner s a r Hs Ho) as [-> ->], (at_owner s' a r' Hs' Ho') as [-> ->].
    by rewrite Hc, Hb.
  - destruct (at_no_owner s a Hs Hn) as [-> ->].
    destruct (at_no_owner s' a Hs') as [-> ->]; [|done].
    intros r' (r & Ho)%H2. by apply Hn in Ho.
Qed.

(** Replacing a region by one over the same addresses. *)
Lemma ofind_update native m k r r' k' x :
  map_wf native m -> ofind k m = Some r ->
  ofind k' (oinsert k r' m) = Some x <-> (k' = k /\ x = r') \/ (k' <> k /\ ofind k' m = Some x).
Proof.
  intros Hm Hf. rewrite ofind_insert by apply (wf_sorted _ _ Hm). case_decide; intuition congruence.
Qed.

Lemma update_wf native m k r r' :
  map_wf native m -> ofind k m = Some r -> ri_base (info r') = ri_base (info r) ->
  ri_size (info r') = ri_size (info r) -> backed native r' -> map_wf native (oinsert k r' m).
Proof.
  intros Hm Hf Hb Hsz Hbk. pose proof (wf_region _ _ Hm _ _ Hf) as [Hk H0 Hp He _]. split.
  - apply sorted_insert, (wf_sorted _ _ Hm).
  - intros k' x [[-> ->]|[_ Hx]]%(ofind_update native _ _ r); [|by eapply wf_region|done..].
    split; congruence || lia.
  - intros k1 r1 k2 r2 [[-> ->]|[H1 H1']]%(ofind_update native _ _ r)
      [[-> ->]|[H2 H2']]%(ofind_update native _ _ r) Hlt; try done; try lia.
    + rewrite Hsz. by eapply (wf_disjoint _ _ Hm).
    + by eapply (wf_disjoint _ _ Hm).
    + by eapply (wf_disjoint _ _ Hm).
Qed.

Lemma owner_update native m r r' a x :
  map_wf native m -> ofind (ri_base (info r)) m = Some r ->
  ri_base (info r') = ri_base (info r) -> ri_size (info r') = ri_size (info r) ->
  owner (oinsert (ri_base (info r)) r' m) a x <->
  (x = r' /\ covers r a) \/ (owner m a x /\ ~ covers r a).
Proof.
  intros Hm Hf Hb Hsz. unfold owner. rewrite (ofind_update native _ _ r) by done. split.
  - intros [[[Hk ->]|[Hk Hx]] Hc].
    + left. split; [done|]. unfold covers in *. rewrite Hb, Hsz in Hc. lia.
    + right. split; [done|]. intros Hc'. apply Hk. f_equal. f_equal.
      by eapply (owner_unique native); [done|by split|by split].
  - intros [[-> Hc]|[[Hx Hc] Hn]].
    + split; [left; by rewrite Hb|]. unfold covers in *. rewrite Hb, Hsz. lia.
    + split; [|done]. right. split; [|done]. intros Hk. rewrite Hk, Hf in Hx. by simplify_eq.
Qed.

End Cells.

(** ** The operations on cells *)

Section Specs.
Context `{HostOs, !HostOsLaws H}.

Lemma overlap_dec base end_ r :
  (exists x, base <= x < end_ /\ covers r x) \/ (forall x, base <= x < end_ -> ~ covers r x).
Proof.
  unfold covers.
  destruct (Z.lt_ge_cases (Z.max base (ri_base (info r)))
    (Z.min end_ (ri_base (info r) + ri_size (info r)))) as [Hl|Hl].
  - left. exists (Z.max base (ri_base (info r))). lia.
  - right. lia.
Qed.

(** Outside the range, what a region held is in a piece of it. *)
Lemma unmapped_piece_covering s base end_ r a :
  space_wf s -> base < end_ -> owner (regions_ s) a r -> ~ base <= a < end_ ->
  (exists x, base <= x < end_ /\ covers r x) ->
  exists p, (ri_base (info p), p) ∈ overlaps_of (regions_ s) base end_
      ≫= overlap_pieces (native_backed s) /\ covers p a.
Proof.
  intros [Hm _] Hbe [Hf Hc] Ha (x & Hx & Hcx). unfold covers in *.
  pose proof (wf_region _ _ Hm _ _ Hf) as Hw.
  set (ob := Z.max base (ri_base (info r))).
  set (oe := Z.min end_ (ri_base (info r) + ri_size (info r))).
  assert ((r, ob, oe) ∈ overlaps_of (regions_ s) base end_) as Hov
    by (apply (overlaps_of_spec (native_ s)); [done..|]; split_and!; [done..|lia]).
  setoid_rewrite list_elem_of_bind. destruct (Z.lt_ge_cases a base) as [Hl|Hl].
  - eexists. split.
    + exists (r, ob, oe). split; [|done]. cbn. apply elem_of_app. left. unfold overlap_before.
      destruct (Z.ltb_spec (ri_base (info r)) ob); [|lia].
      apply list_elem_of_singleton, pair_equal_spec. split; [|reflexivity]. done.
    + cbn. lia.
  - pose proof (wf_region_end _ _ _ Hw) as Hre.
    eexists. split.
    + exists (r, ob, oe). split; [|done]. cbn. apply elem_of_app. right. unfold overlap_after.
      rewrite Hre. destruct (Z.ltb_spec oe (ri_base (info r) + ri_size (info r))); [|lia].
      apply list_elem_of_singleton, pair_equal_spec. split; [|reflexivity]. done.
    + cbn. lia.
Qed.

Lemma unmapped_wf s s' base end_ :
  space_wf s -> base < end_ -> cuts_aligned s base end_ ->
  native_ s' = native_ s -> regions_ s' = unmapped s base end_ -> space_wf s'.
Proof.
  intros Hs Hbe Hcut Hn Hr. pose proof Hs as [Hm Ha]. split.
  - rewrite Hr, Hn. apply rebuild_wf; [done|]. by apply unmapped_ok.
  - rewrite Hn. apply Ha.
Qed.

Lemma unmap_range_cells s base size s' :
  space_wf s -> 0 <= size -> unmap_range s base size = (true, s') ->
  space_wf s' /\
  forall a, if in_range base size a then cell_at s' a = None /\ byte_at s' a = None
            else same_at s s' a.
Proof.
  intros Hs Hsz Hu. apply unmap_range_result in Hu as (Hn & Hb & _ & Hok).
  destruct (Hok eq_refl) as (end_ & (Hsz0 & Hend & ->)%end_address_Some & Hr & Hcut).
  assert (base < base + size) as Hbe by lia.
  assert (space_wf s') as Hs' by (by eapply (unmapped_wf s _ base (base + size))).
  split; [done|]. intros a. destruct (in_range base size a) eqn:Ha.
  - apply in_range_true in Ha. apply at_no_owner; [done|]. rewrite Hr.
    intros r (Hna & _)%owner_unmapped; [by apply Hna|done..].
  - apply in_range_false in Ha. apply same_at_intro; [done..| |].
    + intros r Ho. destruct (overlap_dec base (base + size) r) as [Hx|Hx].
      * destruct (unmapped_piece_covering s base (base + size) r a) as (p & Hin & Hc); [done..|].
        pose proof Hin as (r0 & Hf0 & _ & Hpi & _ & Hpr & _)%unmapped_pieces; [|apply Hs|done].
        assert (r0 = r) as -> by (eapply (owner_unique (native_ s)); [apply Hs| |done];
          split; [done|by eapply piece_covers]).
        exists p. split_and!.
        -- rewrite Hr. apply owner_unmapped; [done..|]. split; [done|].
           exists r. split; [done|]. by right.
        -- rewrite (piece_cell _ r) by done. by rewrite Hpr.
        -- by eapply piece_byte.
      * exists r. split_and!; [|done|].
        -- rewrite Hr. apply owner_unmapped; [done..|]. split; [done|]. exists r.
           split; [done|]. by left.
        -- unfold byte_in. rewrite Hn. by destruct (native_ s); rewrite ?Hb.
    + rewrite Hr. intros r' (_ & r0 & Ho & _)%owner_unmapped; [by exists r0|done..].
Qed.

(** *** [protect] and [protect_range] *)

Lemma protect_result s base size prot ok s' :
  protect s base size prot = (ok, s') ->
  native_ s' = native_ s /\ same_bytes (host_ s) (host_ s') /\
  (ok = false -> regions_ s' = regions_ s) /\
  (ok = true -> exists r, ofind base (regions_ s) = Some r /\ ri_size (info r) = size /\
    regions_ s' = oinsert base (mkRegion (set_protection (info r) prot) (storage r))
                    (regions_ s)).
Proof.
  unfold protect. destruct (ofind base (regions_ s)) as [r|]; [|by intros [= <- <-]].
  destruct (Z.eqb_spec (ri_size (info r)) size); cbn [negb]; [|by intros [= <- <-]].
  destruct (native_ s) as [arena|] eqn:Hn.
  - destruct (arena_offset arena base) as [o|]; [|by intros [= <- <-]].
    pose proof (arena_protect_bytes arena (host_ s) o size prot) as Hb.
    destruct (arena_protect _ _ _ _ _) as [ok1 h1]. cbn in Hb.
    destruct ok1; intros [= <- <-]; split_and!; try done. intros _. by exists r.
  - intros [= <- <-]. split_and!; try done. intros _. by exists r.
Qed.

(** Updating the attributes of a whole region. *)
Lemma protect_cells s base size prot s' :
  space_wf s -> protect s base size prot = (true, s') ->
  space_wf s' /\ forall a, byte_at s' a = byte_at s a /\
    cell_at s' a = (if in_range base size a then cell_set_protection prot else id)
                     <$> cell_at s a.
Proof.
  intros Hs (Hn & Hb & _ & Hok)%protect_result. pose proof Hs as [Hm Ha].
  destruct (Hok eq_refl) as (r & Hf & <- & Hr).
  pose proof (wf_region _ _ Hm _ _ Hf) as Hw. pose proof (wf_key _ _ _ Hw) as Hk. subst base.
  set (r' := mkRegion (set_protection (info r) prot) (storage r)) in *.
  assert (space_wf s') as Hs'.
  { split; rewrite Hn; [rewrite Hr|done]. eapply update_wf; [done..|].
    apply (wf_backed _ _ _ Hw). }
  split; [done|]. intros a.
  assert (forall x, byte_in s' x a = byte_in s x a) as Hbi
    by (intros x; unfold byte_in; rewrite Hn; destruct (native_ s); by rewrite ?Hb).
  destruct (owner_dec s a Hs) as [[x Ho]|Hno].
  - destruct (at_owner s a x Hs Ho) as [-> ->].
    destruct (in_range (ri_base (info r)) (ri_size (info r)) a) eqn:Hin.
    + apply in_range_true in Hin.
      assert (x = r) as -> by (eapply (owner_unique (native_ s)); [done|done|by split]).
      destruct (at_owner s' a r' Hs') as [-> ->]; [|by rewrite Hbi].
      rewrite Hr. apply (owner_update (native_ s)); [done..|by left].
    + apply in_range_false in Hin.
      destruct (at_owner s' a x Hs') as [-> ->]; [|by rewrite Hbi].
      rewrite Hr. apply (owner_update (native_ s)); [done..|by right].
  - destruct (at_no_owner s a Hs Hno) as [-> ->].
    destruct (at_no_owner s' a Hs') as [-> ->]; [|done].
    intros x. rewrite Hr. intros [[-> Hc]|[Ho _]]%(owner_update (native_ s)); try done;
      [by apply (Hno r)|by apply (Hno x)].
Qed.

(** The pieces [protect_range] cuts a region into. *)
Definition protect_pieces (native : bool) (r : Region) (base size prot : Z) : omap Region :=
  let before_size := base - ri_base (info r) in
  let after_size := ri_base (info r) + ri_size (info r) - (base + size) in
  (if negb (before_size =? 0)
   then make_region native r (ri_base (info r)) before_size (ri_protection (info r)) 0 else []) ++
  make_region native r base size prot before_size ++
  (if negb (after_size =? 0)
   then make_region native r (base + size) after_size (ri_protection (info r))
          (before_size + size) else []).

Lemma protect_pieces_merge native r base size prot :
  omerge
    (omerge
       (if negb (base - ri_base (info r) =? 0)
        then make_region native r (ri_base (info r)) (base - ri_base (info r))
               (ri_protection (info r)) 0 else [])
       (make_region native r base size prot (base - ri_base (info r))))
    (if negb (ri_base (info r) + ri_size (info r) - (base + size) =? 0)
     then make_region native r (base + size)
            (ri_base (info r) + ri_size (info r) - (base + size)) (ri_protection (info r))
            (base - ri_base (info r) + size) else []) =
  omerge [] (protect_pieces native r base size prot).
Proof. unfold protect_pieces. rewrite !omerge_app. f_equal. f_equal. by case_match. Qed.

(** An arena offset on a page is an address on a page. *)
Lemma arena_offset_aligned arena base o :
  arena_base arena mod page_size = 0 -> arena_offset arena base = Some o ->
  o mod page_size = 0 -> base mod page_size = 0.
Proof.
  unfold arena_offset. intros Hab Ho Hm. pose proof page_size_pos. repeat case_match; simplify_eq.
  replace base with ((base - arena_base arena) + arena_base arena) by lia.
  by rewrite Z.add_mod, Hm, Hab, Z.mod_0_l by lia.
Qed.

Lemma protect_range_result s base size prot ok s' :
  space_wf s -> protect_range s base size prot = (ok, s') ->
  native_ s' = native_ s /\ same_bytes (host_ s) (host_ s') /\
  (ok = false -> regions_ s' = regions_ s) /\
  (ok = true -> exists r, owner (regions_ s) base r /\ size <> 0 /\
    base + size <= ri_base (info r) + ri_size (info r) /\
    ((base = ri_base (info r) /\ size = ri_size (info r) /\
      protect s base size prot = (true, s')) \/
     (regions_ s' = rebuild (regions_ s) [ri_base (info r)]
                      (protect_pieces (native_backed s) r base size prot) /\
      forall arena, native_ s = Some arena ->
        base mod page_size = 0 /\ size mod page_size = 0))).
Proof.
  intros Hs. pose proof Hs as [Hm Ha]. unfold protect_range.
  destruct (end_address base size) as [end_|] eqn:He; [|by intros [= <- <-]].
  apply end_address_Some in He as (Hsz & Hend & ->).
  destruct (find_region (regions_ s) base) as [r|] eqn:Hf; [|by intros [= <- <-]].
  apply (find_region_owner (native_ s)) in Hf; [|done].
  destruct (Z.ltb_spec (u64_max - ri_size (info r)) (ri_base (info r))); cbn [orb];
    [by intros [= <- <-]|].
  destruct (Z.ltb_spec (ri_base (info r) + ri_size (info r)) (base + size));
    [by intros [= <- <-]|].
  destruct (_ && _) eqn:Hex.
  { intros Hp. pose proof Hp as (? & ? & ? & ?)%protect_result. bools.
    split_and!; try done. intros ->. exists r. split_and!; try done. by left. }
  rewrite protect_pieces_merge.
  assert (forall s', (regions_ (with_regions s' (omerge (oerase (ri_base (info r)) (regions_ s))
    (omerge [] (protect_pieces (native_backed s) r base size prot))))) =
    rebuild (regions_ s) [ri_base (info r)] (protect_pieces (native_backed s) r base size prot))
    as Hre by done.
  destruct (native_ s) as [arena|] eqn:Hn.
  - destruct (arena_offset arena base) as [o|] eqn:Hof; [|by intros [= <- <-]].
    destruct (Z.eqb_spec (size mod page_size) 0) as [Hzm|]; cbn [negb]; [|by intros [= <- <-]].
    destruct (arena_protect arena (host_ s) o size prot) as [ok1 h1] eqn:Hp.
    pose proof (arena_protect_bytes arena (host_ s) o size prot) as Hby. rewrite Hp in Hby.
    destruct ok1; intros [= <- <-]; split_and!; try done.
    intros _; exists r; split_and!; try done; right; split; [apply Hre|].
    intros arena' [= <-]; split; [|done].
    apply arena_protect_aligned in Hp. destruct (Ha arena eq_refl) as (_ & _ & _ & Hab).
    by apply (arena_offset_aligned arena base o).
  - intros [= <- <-]; split_and!; try done; intros _; exists r; split_and!; try done.
    right. by split; [apply Hre|].
Qed.

Lemma protect_pieces_spec native r base size prot k p :
  0 < size -> ri_base (info r) <= base -> base + size <= ri_base (info r) + ri_size (info r) ->
  (k, p) ∈ protect_pieces native r base size prot ->
  is_piece native r p /\ ri_base (info p) = k /\
  ((k = ri_base (info r) /\ k + ri_size (info p) = base /\
    ri_protection (info p) = ri_protection (info r) /\
    (k, p) ∈ make_region native r k (ri_size (info p)) (ri_protection (info p)) 0) \/
   (k = base /\ ri_size (info p) = size /\ ri_protection (info p) = prot /\
    (k, p) ∈ make_region native r base size prot (base - ri_base (info r))) \/
   (k = base + size /\ k + ri_size (info p) = ri_base (info r) + ri_size (info r) /\
    ri_protection (info p) = ri_protection (info r) /\
    (k, p) ∈ make_region native r k (ri_size (info p)) (ri_protection (info p))
      (base - ri_base (info r) + size))).
Proof.
  intros Hsz Hb He. unfold protect_pieces. rewrite !elem_of_app. intros [Hin|[Hin|Hin]].
  - destruct (Z.eqb_spec (base - ri_base (info r)) 0); [by apply elem_of_nil in Hin|].
    pose proof Hin as (-> & ? & Hps & Hpp & ?)%make_region_piece; [|lia..].
    split_and!; [done..|]. left. rewrite Hps, Hpp. split_and!; [done|lia|done|done].
  - pose proof Hin as (-> & ? & ? & ? & ?)%make_region_piece; [|lia..].
    split_and!; [done..|]. right. by left.
  - destruct (Z.eqb_spec (ri_base (info r) + ri_size (info r) - (base + size)) 0);
      [by apply elem_of_nil in Hin|].
    pose proof Hin as (-> & ? & Hps & Hpp & ?)%make_region_piece; [|lia..].
    split_and!; [done..|]. right. right. rewrite Hps, Hpp. split_and!; [done|lia|done|done].
Qed.

Lemma make_region_unique native r pb ps prot so k p1 p2 :
  (k, p1) ∈ make_region native r pb ps prot so -> (k, p2) ∈ make_region native r pb ps prot so ->
  p1 = p2.
Proof. unfold make_region. intros H1%list_elem_of_singleton H2%list_elem_of_singleton. congruence. Qed.

Lemma protect_pieces_ok s r base size prot :
  space_wf s -> owner (regions_ s) base r -> 0 < size ->
  base + size <= ri_base (info r) + ri_size (info r) ->
  (forall arena, native_ s = Some arena -> base mod page_size = 0 /\ size mod page_size = 0) ->
  pieces_ok (native_ s) (regions_ s) [ri_base (info r)]
    (protect_pieces (native_backed s) r base size prot).
Proof.
  intros [Hm Ha] [Hf Hc] Hsz He Hal. unfold covers in Hc.
  pose proof (wf_region _ _ Hm _ _ Hf) as Hw. split.
  - intros k p Hin. apply protect_pieces_spec in Hin as (Hpi & <- & Hk); [|lia..].
    eapply piece_backed; [done|by rewrite <- native_backed_decide|].
    intros arena Harena. destruct (Hal _ Harena) as [Hb Hz].
    destruct Hk as [(-> & _)|[(-> & _)|(-> & _)]]; [|done|].
    + pose proof (wf_backed _ _ _ Hw) as Hbk. rewrite Harena in Hbk. apply Hbk.
    + pose proof page_size_pos. by rewrite Z.add_mod, Hb, Hz, Z.mod_0_l by lia.
  - intros k p Hin. apply protect_pieces_spec in Hin as ([_ _ ? ? ?] & <- & _); [|lia..].
    exists r. split_and!; [done|by left|lia|lia].
  - intros k1 p1 k2 p2 H1 H2 Hlt.
    apply protect_pieces_spec in H1 as ([_ _ ? ? ?] & <- & Hk1); [|lia..].
    apply protect_pieces_spec in H2 as ([_ _ ? ? ?] & <- & Hk2); [|lia..]. lia.
  - intros k p1 p2 H1 H2.
    apply protect_pieces_spec in H1 as ([_ _ ? ? ?] & Hb1 & Hk1); [|lia..].
    apply protect_pieces_spec in H2 as ([_ _ ? ? ?] & Hb2 & Hk2); [|lia..].
    destruct Hk1 as [(? & Hs1 & Hp1 & Hk1)|[(? & _ & _ & Hk1)|(? & Hs1 & Hp1 & Hk1)]],
      Hk2 as [(? & Hs2 & Hp2 & Hk2)|[(? & _ & _ & Hk2)|(? & Hs2 & Hp2 & Hk2)]]; try lia;
      try (by eapply make_region_unique).
    + replace (ri_size (info p2)) with (ri_size (info p1)) in Hk2 by lia.
      rewrite Hp2, <- Hp1 in Hk2. by eapply make_region_unique.
    + replace (ri_size (info p2)) with (ri_size (info p1)) in Hk2 by lia.
      rewrite Hp2, <- Hp1 in Hk2. by eapply make_region_unique.
Qed.

(** Every address of the region is in one of its pieces. *)
Lemma protect_pieces_cover native r base size prot a :
  0 < size -> ri_base (info r) <= base -> base + size <= ri_base (info r) + ri_size (info r) ->
  covers r a ->
  exists p, (ri_base (info p), p) ∈ protect_pieces native r base size prot /\ covers p a /\
    ri_protection (info p) = if in_range base size a then prot else ri_protection (info r).
Proof.
  intros Hsz Hb He Hc. unfold covers in *. setoid_rewrite elem_of_app. setoid_rewrite elem_of_app.
  unfold make_region.
  destruct (in_range base size a) eqn:Hin; [apply in_range_true in Hin|apply in_range_false in Hin].
  - eexists. split_and!.
    + right. left. apply list_elem_of_singleton, pair_equal_spec. split; [|reflexivity]. done.
    + cbn. lia.
    + cbn. lia.
    + done.
  - destruct (Z.lt_ge_cases a base).
    + destruct (Z.eqb_spec (base - ri_base (info r)) 0); [lia|]. eexists. split_and!.
      * left. apply list_elem_of_singleton, pair_equal_spec. split; [|reflexivity]. done.
      * cbn. lia.
      * cbn. lia.
      * done.
    + destruct (Z.eqb_spec (ri_base (info r) + ri_size (info r) - (base + size)) 0); [lia|].
      eexists. split_and!.
      * right. right. apply list_elem_of_singleton, pair_equal_spec. split; [|reflexivity]. done.
      * cbn. lia.
      * cbn. lia.
      * done.
Qed.

Lemma protect_range_cells s base size prot s' :
  space_wf s -> 0 <= size -> protect_range s base size prot = (true, s') ->
  space_wf s' /\ forall a, byte_at s' a = byte_at s a /\
    cell_at s' a = (if in_range base size a then cell_set_protection prot else id)
                     <$> cell_at s a.
Proof.
  intros Hs Hsz Hp. apply protect_range_result in Hp as (Hn & Hb & _ & Hok); [|done].
  destruct (Hok eq_refl) as (r & Ho & Hsz0 & Hend & [(-> & -> & Hp)|[Hr Hal]]).
  { by apply protect_cells. }
  pose proof Ho as [Hf Hc]. pose proof Hs as [Hm Ha].
  assert (pieces_ok (native_ s) (regions_ s) [ri_base (info r)]
    (protect_pieces (native_backed s) r base size prot)) as Hok'
    by (apply protect_pieces_ok; [done..|lia|done|done]).
  assert (space_wf s') as Hs'.
  { split; rewrite Hn; [rewrite Hr|done]. by apply rebuild_wf. }
  split; [done|]. intros a. unfold covers in Hc.
  destruct (owner_dec s a Hs) as [[x Hx]|Hno].
  - destruct (at_owner s a x Hs Hx) as [-> ->].
    destruct (in_range (ri_base (info r)) (ri_size (info r)) a) eqn:Hca;
      [apply in_range_true in Hca|apply in_range_false in Hca].
    + assert (x = r) as -> by (by eapply (owner_unique (native_ s))).
      destruct (protect_pieces_cover (native_backed s) r base size prot a) as (p & Hin & Hcp & Hpp);
        [lia..|by apply Hx|].
      pose proof Hin as (Hpi & _)%protect_pieces_spec; [|lia..].
      destruct (at_owner s' a p Hs') as [-> ->].
      { rewrite Hr. apply (owner_rebuild (native_ s)); [done..|]. by left. }
      rewrite (piece_byte s s' r p a), (piece_cell _ r p a), Hpp by done.
      split; [done|]. by destruct (in_range base size a).
    + assert (in_range base size a = false) as -> by (apply in_range_false; lia).
      destruct (at_owner s' a x Hs') as [-> ->].
      { rewrite Hr. apply (owner_rebuild (native_ s)); [done..|]. right. split; [done|].
        rewrite list_elem_of_singleton. intros He. apply Hca. destruct Hx as [Hx Hcx].
        rewrite He, Hf in Hx. by simplify_eq. }
      split; [|done]. unfold byte_in. rewrite Hn. by destruct (native_ s); rewrite ?Hb.
  - destruct (at_no_owner s a Hs Hno) as [-> ->].
    destruct (at_no_owner s' a Hs') as [-> ->]; [|done].
    intros x. rewrite Hr. intros [[Hin Hcx]|[Hx _]]%(owner_rebuild (native_ s)); [| |done..].
    + apply protect_pieces_spec in Hin as (Hpi & _); [|lia..]. apply (Hno r). split; [done|].
      by eapply piece_covers.
    + by apply (Hno x).
Qed.

(** *** [map] *)

(** Adding a region where there is none. *)
Lemma fresh_wf native m k r :
  map_wf native m -> region_wf native k r ->
  (forall a x, k <= a < k + ri_size (info r) -> ~ owner m a x) -> map_wf native (oemplace k r m) /\
  forall a x, owner (oemplace k r m) a x <-> (x = r /\ covers r a) \/ owner m a x.
Proof.
  intros Hm Hw Hfree. pose proof (wf_sorted _ _ Hm) as Hs.
  pose proof (wf_size _ _ _ Hw) as Hsz. pose proof (wf_key _ _ _ Hw) as Hk.
  assert (forall k' r', ofind k' m = Some r' ->
    k' + ri_size (info r') <= k \/ k + ri_size (info r) <= k') as Hsep.
  { intros k' r' Hf. pose proof (wf_region _ _ Hm _ _ Hf) as [Hk' _ Hp _ _].
    destruct (Z.le_gt_cases (k' + ri_size (info r')) k); [by left|].
    destruct (Z.le_gt_cases (k + ri_size (info r)) k'); [by right|].
    exfalso. apply (Hfree (Z.max k k') r'); [lia|]. unfold owner, covers. rewrite Hk'.
    split; [done|lia]. }
  assert (ofind k m = None) as Hnone.
  { destruct (ofind k m) as [r'|] eqn:Hf; [|done].
    pose proof (wf_size _ _ _ (wf_region _ _ Hm _ _ Hf)).
    destruct (Hsep _ _ Hf); lia. }
  assert (forall k' x, ofind k' (oemplace k r m) = Some x <->
    (k' = k /\ x = r) \/ ofind k' m = Some x) as Hfind.
  { intros k' x. rewrite ofind_emplace by done. destruct (ofind k' m) eqn:Hf; [|case_decide];
      intuition congruence. }
  split; [split|].
  - by apply sorted_emplace.
  - intros k' x [[-> ->]|Hx]%Hfind; [done|by eapply wf_region].
  - intros k1 r1 k2 r2 [[-> ->]|H1]%Hfind [[-> ->]|H2]%Hfind Hlt; [lia| | |].
    + pose proof (wf_size _ _ _ (wf_region _ _ Hm _ _ H2)). destruct (Hsep _ _ H2); lia.
    + destruct (Hsep _ _ H1); lia.
    + by eapply (wf_disjoint _ _ Hm).
  - intros a x. unfold owner. rewrite Hfind. split.
    + intros [[[Hb ->]|Hf] Hc]; [by left|by right].
    + intros [[-> Hc]|[Hf Hc]]; (split; [|done]); [by left|by right].
Qed.

(** The two neighbour tests of [map] accept exactly the free ranges. *)
Definition neighbours_clear (m : omap Region) (base end_ : Z) : bool :=
  negb (match olower base m with Some (k, _) => k <? end_ | None => false end) &&
  negb (match oprev_lt base m with
        | Some (_, previous) => base <? region_end (info previous)
        | None => false
        end).

Lemma neighbours_clear_free native m base end_ :
  map_wf native m -> base < end_ ->
  neighbours_clear m base end_ = true <-> forall a r, base <= a < end_ -> ~ owner m a r.
Proof.
  intros Hm Hbe. pose proof (wf_sorted _ _ Hm) as Hs. unfold neighbours_clear. split.
  - intros Hc a r Ha [Hf Hcov]. unfold covers in Hcov.
    apply andb_true_iff in Hc as [Hc1 Hc2]. rewrite negb_true_iff in Hc1, Hc2.
    destruct (Z.le_gt_cases base (ri_base (info r))) as [Hl|Hl].
    + destruct (olower base m) as [[k r']|] eqn:Hlo.
      * apply olower_Some in Hlo as (_ & _ & Hmin); [|done].
        specialize (Hmin _ _ Hf Hl). apply Z.ltb_ge in Hc1. lia.
      * rewrite olower_None in Hlo by done. specialize (Hlo _ _ Hf). lia.
    + destruct (oprev_lt base m) as [[k r']|] eqn:Hpr.
      * apply oprev_lt_Some in Hpr as (Hf' & Hk & Hmax); [|done].
        specialize (Hmax _ _ Hf Hl). apply Z.ltb_ge in Hc2.
        rewrite (wf_region_end native k) in Hc2 by (by eapply wf_region).
        destruct (Z.eq_dec (ri_base (info r)) k) as [He|He].
        -- rewrite He, Hf' in Hf. simplify_eq. lia.
        -- pose proof (wf_disjoint _ _ Hm _ _ _ _ Hf Hf' ltac:(lia)). lia.
      * rewrite oprev_lt_None in Hpr by done. by specialize (Hpr _ _ Hf).
  - intros Hfree. apply andb_true_iff. split; apply negb_true_iff.
    + destruct (olower base m) as [[k r]|] eqn:Hlo; [|done].
      apply olower_Some in Hlo as (Hf & Hk & _); [|done]. apply Z.ltb_ge.
      pose proof (wf_region _ _ Hm _ _ Hf) as [Hkey _ Hp _ _].
      destruct (Z.le_gt_cases end_ k); [done|]. exfalso. apply (Hfree k r); [lia|].
      unfold owner, covers. rewrite Hkey. split; [done|lia].
    + destruct (oprev_lt base m) as [[k r]|] eqn:Hpr; [|done].
      apply oprev_lt_Some in Hpr as (Hf & Hk & _); [|done].
      pose proof (wf_region _ _ Hm _ _ Hf) as Hw. rewrite (wf_region_end _ _ _ Hw).
      destruct Hw as [Hkey _ Hp _ _]. apply Z.ltb_ge.
      destruct (Z.le_gt_cases (k + ri_size (info r)) base); [done|]. exfalso.
      apply (Hfree base r); [lia|]. unfold owner, covers. rewrite Hkey. split; [done|lia].
Qed.

(** The region [map] adds. *)
Definition fresh_region (native : bool) (i : RegionInfo) : Region :=
  mkRegion i (if native then [] else replicate (Z.to_nat (ri_size i)) zero_byte).

Lemma map_region_result s i ok s' :
  map_region s i = (ok, s') ->
  native_ s' = native_ s /\ same_bytes (host_ s) (host_ s') /\
  (ok = false -> regions_ s' = regions_ s) /\
  (ok = true ->
    ri_size i <> 0 /\ ri_base i + ri_size i <= u64_max /\
    neighbours_clear (regions_ s) (ri_base i) (ri_base i + ri_size i) = true /\
    regions_ s' = oemplace (ri_base i) (fresh_region (native_backed s) i) (regions_ s) /\
    forall arena, native_ s = Some arena -> exists o, arena_offset arena (ri_base i) = Some o /\
      o mod page_size = 0 /\ o + ri_size i <= arena_size arena).
Proof.
  unfold map_region. destruct (end_address _ _) as [end_|] eqn:He; [|by intros [= <- <-]].
  apply end_address_Some in He as (Hsz & Hend & ->). unfold neighbours_clear.
  destruct (match olower _ _ with Some (k, _) => _ | None => _ end); [by intros [= <- <-]|].
  destruct (match oprev_lt _ _ with Some (k, _) => _ | None => _ end); [by intros [= <- <-]|].
  unfold fresh_region, native_backed. destruct (native_ s) as [arena|] eqn:Hn.
  - destruct (arena_offset arena (ri_base i)) as [o|] eqn:Ho; [|by intros [= <- <-]].
    destruct (Z.ltb_spec (arena_size arena - o) (ri_size i)); [by intros [= <- <-]|].
    destruct (arena_protect _ _ _ _ _) as [ok1 h1] eqn:Hp.
    pose proof (arena_protect_bytes arena (host_ s) o (ri_size i) (ri_protection i)) as Hby.
    rewrite Hp in Hby. destruct ok1; intros [= <- <-]; split_and!; try done.
    intros _. split_and!; try done. intros arena' [= <-]. exists o.
    apply arena_protect_aligned in Hp. split_and!; [done|done|lia].
  - intros [= <- <-]. split_and!; try done.
Qed.

Lemma map_region_cells s i s' :
  space_wf s -> 0 <= ri_base i -> 0 <= ri_size i -> map_region s i = (true, s') ->
  space_wf s' /\
  forall a,
    if in_range (ri_base i) (ri_size i) a
    then cell_at s a = None /\ cell_at s' a = Some (cell_of i a) /\
         byte_at s' a = Some (if native_backed s then hm_byte (host_ s) a else zero_byte)
    else same_at s s' a.
Proof.
  intros Hs Hb0 Hs0 (Hn & Hb & _ & Hok)%map_region_result. pose proof Hs as [Hm Ha].
  destruct (Hok eq_refl) as (Hsz & Hend & Hclear & Hr & Hnat).
  set (r := fresh_region (native_backed s) i) in *.
  rewrite (neighbours_clear_free (native_ s)) in Hclear by (done || lia).
  assert (region_wf (native_ s) (ri_base i) r) as Hw.
  { split; cbn; try done; try lia. unfold r, fresh_region, native_backed, backed. cbn.
    destruct (native_ s) as [arena|] eqn:He; cbn; [|rewrite length_replicate; lia].
    destruct (Hnat _ eq_refl) as (o & Ho & Hom & Hsz'). destruct (Ha _ eq_refl) as (_ & _ & _ & Hal).
    split; [done|]. split; [|split; [|by eapply arena_offset_aligned]];
      unfold arena_offset in Ho; repeat case_match; simplify_eq; lia. }
  destruct (fresh_wf (native_ s) (regions_ s) (ri_base i) r) as [Hm' Howner]; [done..|].
  assert (space_wf s') as Hs' by (split; rewrite Hn, ?Hr; done).
  split; [done|]. intros a. rewrite <- Hr in Howner. destruct (in_range _ _ a) eqn:Hin.
  - apply in_range_true in Hin. destruct (at_no_owner s a Hs) as [-> _]; [by intros ?; apply Hclear|].
    destruct (at_owner s' a r Hs') as [-> ->]; [apply Howner; by left|].
    split_and!; [done..|]. unfold byte_in, native_backed. rewrite Hn. unfold r, fresh_region, native_backed.
    destruct (native_ s); [by rewrite Hb|]. cbn. apply zget_replicate. lia.
  - apply in_range_false in Hin. apply same_at_intro; [done..| |].
    + intros x Hx. exists x. split; [apply Howner; by right|]. split; [done|].
      unfold byte_in. rewrite Hn. by destruct (native_ s); rewrite ?Hb.
    + intros x [[-> Hc]|Hx]%Howner; [done|by exists x].
Qed.

(** *** [unmap] *)

Lemma unmap_result s base size ok s' :
  unmap s base size = (ok, s') ->
  native_ s' = native_ s /\ same_bytes (host_ s) (host_ s') /\
  (ok = false -> regions_ s' = regions_ s) /\
  (ok = true -> exists r, ofind base (regions_ s) = Some r /\ ri_size (info r) = size /\
    regions_ s' = oerase base (regions_ s)).
Proof.
  unfold unmap. destruct (ofind base (regions_ s)) as [r|]; [|by intros [= <- <-]].
  destruct (Z.eqb_spec (ri_size (info r)) size); cbn [negb]; [|by intros [= <- <-]].
  destruct (native_ s) as [arena|] eqn:Hn.
  - destruct (arena_offset arena base) as [o|]; [|by intros [= <- <-]].
    pose proof (arena_protect_bytes arena (host_ s) o size prot_none) as Hb.
    destruct (arena_protect _ _ _ _ _) as [ok1 h1]. cbn in Hb.
    destruct ok1; intros [= <- <-]; split_and!; try done. intros _. by exists r.
  - intros [= <- <-]. split_and!; try done. intros _. by exists r.
Qed.

Lemma unmap_wf s base size s' :
  space_wf s -> unmap s base size = (true, s') -> space_wf s'.
Proof.
  intros [Hm Ha] (Hn & _ & _ & Hok)%unmap_result. destruct (Hok eq_refl) as (r & _ & _ & Hr).
  pose proof (wf_sorted _ _ Hm) as Hs. split; rewrite Hn; [rewrite Hr|done].
  assert (forall k x, ofind k (oerase base (regions_ s)) = Some x -> ofind k (regions_ s) = Some x)
    as Hx by (intros k x; rewrite ofind_erase by done; by case_decide).
  split.
  - by apply sorted_erase.
  - intros k x ?%Hx. by eapply wf_region.
  - intros k1 r1 k2 r2 ?%Hx ?%Hx. by eapply (wf_disjoint _ _ Hm).
Qed.

(** *** Stores *)

(** The same regions, with the same attributes. *)
Definition same_infos (s s' : space) : Prop :=
  forall k, info <$> ofind k (regions_ s') = info <$> ofind k (regions_ s).

(** The bytes of [address, address + |bytes|) are replaced, nothing else
    changes. *)
Definition stored (s s' : space) (address : Z) (bytes : list byte) : Prop :=
  space_wf s' /\ same_infos s s' /\ forall a, cell_at s' a = cell_at s a /\
    byte_at s' a = if in_range address (zlen bytes) a then zget bytes (a - address)
                   else byte_at s a.

(** The range lies inside the region that owns its first address. *)
Definition in_region (s : space) (r : Region) (address size : Z) : Prop :=
  owner (regions_ s) address r /\ address + size <= ri_base (info r) + ri_size (info r).

Lemma store_buffered_stored s r address bytes :
  space_wf s -> native_ s = None -> in_region s r address (zlen bytes) ->
  stored s (store_buffered s r (address - ri_base (info r)) bytes) address bytes.
Proof.
  intros Hs Hn [[Hf Hc] He]. pose proof Hs as [Hm Ha]. unfold covers in Hc.
  pose proof (wf_region _ _ Hm _ _ Hf) as Hw. pose proof (wf_backed _ _ _ Hw) as Hbk.
  rewrite Hn in Hbk. cbn in Hbk.
  set (r' := mkRegion (info r) (zsplice (storage r) (address - ri_base (info r)) bytes)).
  set (s' := store_buffered _ _ _ _).
  assert (space_wf s') as Hs'.
  { split; [|done]. cbn. eapply update_wf; [done..|]. rewrite Hn. cbn.
    rewrite zsplice_length by lia. done. }
  split; [done|]. split.
  { intros k. cbn. rewrite ofind_insert by apply (wf_sorted _ _ Hm).
    case_decide as Hk; [|done]. rewrite Hk, Hf. done. }
  intros a. destruct (owner_dec s a Hs) as [[x Hx]|Hno].
  - destruct (at_owner s a x Hs Hx) as [-> ->].
    destruct (in_range (ri_base (info r)) (ri_size (info r)) a) eqn:Hin;
      [apply in_range_true in Hin|apply in_range_false in Hin].
    + assert (x = r) as -> by (by eapply (owner_unique (native_ s))).
      destruct (at_owner s' a r' Hs') as [-> ->].
      { apply (owner_update (native_ s)); [done..|by left]. }
      split; [done|]. unfold byte_in. cbn. rewrite Hn. rewrite zget_zsplice by lia.
      replace (a - ri_base (info r) - (address - ri_base (info r))) with (a - address) by lia.
      match goal with |- (if ?b then _ else _) = _ =>
        replace b with (in_range address (zlen bytes) a); [done|] end.
      unfold in_range. destruct (Z.leb_spec (address - ri_base (info r)) (a - ri_base (info r))),
        (Z.leb_spec address a), (Z.ltb_spec (a - ri_base (info r))
          (address - ri_base (info r) + zlen bytes)), (Z.ltb_spec a (address + zlen bytes));
        done || lia.
    + destruct (at_owner s' a x Hs') as [-> ->].
      { apply (owner_update (native_ s)); [done..|by right]. }
      split; [done|]. rewrite (proj2 (in_range_false _ _ _)) by lia. done.
  - destruct (at_no_owner s a Hs Hno) as [-> ->].
    destruct (at_no_owner s' a Hs') as [-> ->].
    { intros x [[-> Hc']|[Hx _]]%(owner_update (native_ s)); try done;
        [by apply (Hno r)|by apply (Hno x)]. }
    split; [done|]. destruct (in_range _ _ a) eqn:Hin; [|done]. apply in_range_true in Hin.
    exfalso. apply (Hno r). split; [done|unfold covers; lia].
Qed.

(** A change of the host memory alone. *)
Lemma host_stored s s' address bytes r :
  space_wf s -> is_Some (native_ s) -> regions_ s' = regions_ s -> native_ s' = native_ s ->
  in_region s r address (zlen bytes) ->
  same_bytes (host_put (host_ s) address bytes) (host_ s') -> stored s s' address bytes.
Proof.
  intros [Hm Ha] [arena Hn] Hr Hn' [[Hf Hc] He] Hb. unfold stored.
  assert (space_wf s') as Hs' by (split; rewrite ?Hr, ?Hn'; done).
  split; [done|]. split; [intros k; by rewrite Hr|].
  intros a. unfold cell_at, byte_at. rewrite Hr. split; [done|].
  destruct (find_region (regions_ s) a) as [x|] eqn:Hx; cbn.
  - unfold byte_in. rewrite Hn', Hn, (Hb a), host_put_get.
    destruct (in_range _ _ a) eqn:Hin; [|done]. apply in_range_true in Hin.
    destruct (zget_is_Some bytes (a - address)) as [b ->]; [lia|done].
  - destruct (in_range _ _ a) eqn:Hin; [|done]. apply in_range_true in Hin.
    rewrite (find_region_None (native_ s)) in Hx by done. exfalso. apply (Hx r).
    unfold covers in Hc. split; [done|unfold covers; lia].
Qed.

(** The arena offset of an address of a region. *)
Lemma region_arena_offset s arena r a size :
  space_wf s -> native_ s = Some arena -> in_region s r a size -> 0 <= size ->
  arena_offset arena a = Some (a - arena_base arena) /\
  arena_base arena <> 0 /\ a - arena_base arena + size <= arena_size arena.
Proof.
  intros [Hm Ha] Hn [[Hf Hc] He] Hs. unfold covers in Hc.
  pose proof (wf_backed _ _ _ (wf_region _ _ Hm _ _ Hf)) as Hbk. rewrite Hn in Hbk.
  destruct Hbk as (_ & ? & ? & _). destruct (Ha _ Hn) as (? & _). unfold arena_offset.
  destruct (Z.ltb_spec a (arena_base arena)); [lia|].
  destruct (Z.leb_spec (a - arena_base arena) (arena_size arena)); [|lia]. split; [done|lia].
Qed.

End Specs.

(** ** Stores and views *)

Section Stores.
Context `{HostOs, !HostOsLaws H}.

Lemma find_in_region s address size r :
  space_wf s -> find_region (regions_ s) address = Some r ->
  (ri_size (info r) - (address - ri_base (info r)) <? size) = false <->
  in_region s r address size.
Proof.
  intros [Hm _] Hf. apply (find_region_owner (native_ s)) in Hf; [|done]. rewrite Z.ltb_ge.
  unfold in_region. split; [intros ?; split; [done|lia]|intros [_ ?]; lia].
Qed.

Lemma in_region_find s address size r :
  space_wf s -> in_region s r address size -> find_region (regions_ s) address = Some r.
Proof. intros [Hm _] [Ho _]. by apply (find_region_owner (native_ s)). Qed.

Lemma in_region_unique s address size r r' :
  space_wf s -> in_region s r address size -> in_region s r' address size -> r = r'.
Proof. intros [Hm _] [Ho _] [Ho' _]. by eapply (owner_unique (native_ s)). Qed.

(** A store whose range lies in one region. *)
Definition store_ok (need_write : bool) (s : space) (address size : Z) : Prop :=
  exists r, in_region s r address size /\
    (need_write = true -> has (ri_protection (info r)) prot_write = true).

Lemma write_spec s address bytes ok s' :
  space_wf s -> bytes <> [] -> write s address bytes = Ok (ok, s') ->
  (ok = true <-> store_ok true s address (zlen bytes)) /\
  (ok = true -> stored s s' address bytes) /\ (ok = false -> s' = s).
Proof.
  intros Hs Hne. unfold write. destruct bytes as [|b bs] eqn:E; [done|].
  rewrite <- E. clear E Hne b bs.
  destruct (find_region (regions_ s) address) as [r|] eqn:Hf.
  2: { intros [= <- <-]. split_and!; try done. split; [done|].
       intros (r & Hr%(in_region_find s) & _); [congruence|done]. }
  pose proof (find_in_region s address (zlen bytes) r Hs Hf) as Hin.
  assert (forall x, in_region s x address (zlen bytes) -> x = r) as Hx.
  { intros x Hx%(in_region_find s); [congruence|done]. }
  destruct (has (ri_protection (info r)) prot_write) eqn:Hw; cbn [negb].
  2: { intros [= <- <-]. split_and!; try done. split; [done|].
       intros (x & Hi & Hp). apply Hx in Hi as ->. specialize (Hp eq_refl). congruence. }
  destruct (_ <? _) eqn:Hlt.
  { intros [= <- <-]. split_and!; try done. split; [done|]. intros (x & Hi & _).
    pose proof (Hx _ Hi) as ->. apply Hin in Hi. congruence. }
  apply proj1 in Hin. specialize (Hin eq_refl).
  assert (store_ok true s address (zlen bytes)) as Hok by (by exists r).
  destruct (native_ s) as [arena|] eqn:Hn.
  - destruct (region_arena_offset s arena r address (zlen bytes)) as (-> & Hb & Hle);
      [done..|lia|]. intros Hc. inv_result. destruct r0 as [ok0 h0]. simplify_eq/=.
    pose proof Hr as [[-> ->]|(-> & -> & _)]%arena_copy_spec.
    { pose proof (arena_copy_fails _ _ _ _ _ Hr Hb). lia. }
    split_and!; [done| |done]. intros _. eapply (host_stored _ _ _ _ r); try done.
    intros a. cbn. by replace (arena_base arena + (address - arena_base arena)) with address by lia.
  - intros [= <- <-]. split_and!; [done| |done]. intros _. by apply store_buffered_stored.
Qed.

Lemma zero_spec s address size ok s' :
  space_wf s -> 0 <= size -> zero s address size = Ok (ok, s') ->
  (ok = true <-> store_ok true s address size) /\
  (ok = true -> stored s s' address (replicate (Z.to_nat size) zero_byte)) /\
  (ok = false -> s' = s).
Proof.
  intros Hs Hsz. unfold zero. set (bytes := replicate (Z.to_nat size) zero_byte).
  assert (zlen bytes = size) as Hlen by (unfold bytes; rewrite length_replicate; lia).
  destruct (find_region (regions_ s) address) as [r|] eqn:Hf.
  2: { intros [= <- <-]. split_and!; try done. split; [done|].
       intros (r & Hr%(in_region_find s) & _); [congruence|done]. }
  pose proof (find_in_region s address size r Hs Hf) as Hin.
  assert (forall x, in_region s x address size -> x = r) as Hx.
  { intros x Hx%(in_region_find s); [congruence|done]. }
  destruct (has (ri_protection (info r)) prot_write) eqn:Hw; cbn [negb].
  2: { intros [= <- <-]. split_and!; try done. split; [done|].
       intros (x & Hi & Hp). apply Hx in Hi as ->. specialize (Hp eq_refl). congruence. }
  destruct (_ <? _) eqn:Hlt.
  { intros [= <- <-]. split_and!; try done. split; [done|]. intros (x & Hi & _).
    pose proof (Hx _ Hi) as ->. apply Hin in Hi. congruence. }
  apply proj1 in Hin. specialize (Hin eq_refl).
  assert (store_ok true s address size) as Hok by (by exists r).
  destruct (native_ s) as [arena|] eqn:Hn.
  - destruct (region_arena_offset s arena r address size) as (-> & Hb & Hle); [done..|].
    unfold host_pointer. destruct (Z.eqb_spec (arena_base arena) 0); [done|].
    destruct (Z.ltb_spec (arena_size arena) (address - arena_base arena)); [lia|]. cbn [orb].
    unfold host_memcpy. intros Hc. inv_result.
    split_and!; [done| |done]. intros _. rewrite <- Hlen in Hin.
    eapply (host_stored _ _ _ _ r); try done. intros a. cbn.
    by replace (arena_base arena + (address - arena_base arena)) with address by lia.
  - intros [= <- <-]. split_and!; [done| |done]. intros _.
    apply store_buffered_stored; [done..|]. by rewrite Hlen.
Qed.

(** [patch] needs no write permission; a native read-only region is made
    writable for the copy, which [mprotect] may refuse. *)
Lemma patch_native_spec s arena r address bytes ok s' :
  space_wf s -> native_ s = Some arena -> in_region s r address (zlen bytes) ->
  patch_native s arena r (ri_base (info r) - arena_base arena) (address - arena_base arena) bytes
    = Ok (ok, s') ->
  regions_ s' = regions_ s /\ native_ s' = native_ s /\ (ok = true -> stored s s' address bytes).
Proof.
  intros Hs Hn Hin. unfold patch_native.
  destruct (region_arena_offset s arena r address (zlen bytes)) as (_ & Hb & Hle);
    [done..|lia|].
  set (p1 := if has _ _ then _ else _).
  assert (same_bytes (host_ s) p1.2) as Hp1 by (unfold p1; case_match; [done|apply arena_protect_bytes]).
  destruct p1 as [ok1 h1]. destruct ok1; cbn [negb]; [|by intros [= <- <-]]. cbn in Hp1.
  intros Hc. inv_result. destruct r0 as [copied h2].
  assert (forall h3, same_bytes h2 h3 -> copied = true ->
    stored s (with_host s h3) address bytes) as Hst.
  { intros h3 H3 ->. pose proof Hr as [[? _]|(_ & -> & _)]%arena_copy_spec; [done|].
    eapply (host_stored _ _ _ _ r); try done. intros a. cbn [host_ with_host]. rewrite (H3 a), !host_put_get.
    replace (arena_base arena + (address - arena_base arena)) with address by lia.
    by rewrite (Hp1 a). }
  destruct (has _ _); [inv_result; by split_and!; [..|apply Hst]|].
  pose proof (arena_protect_bytes arena h2 (ri_base (info r) - arena_base arena)
    (ri_size (info r)) (ri_protection (info r))) as Hp3.
  destruct (arena_protect _ _ _ _ _) as [ok3 h3]. inv_result. split_and!; [done..|].
  intros [_ Hcp]%andb_true_iff. by apply Hst.
Qed.

Lemma patch_spec s address bytes ok s' :
  space_wf s -> bytes <> [] -> patch s address bytes = Ok (ok, s') ->
  (native_ s = None -> ok = true <-> store_ok false s address (zlen bytes)) /\
  (ok = true -> store_ok false s address (zlen bytes) /\ stored s s' address bytes) /\
  (ok = false -> regions_ s' = regions_ s /\ native_ s' = native_ s).
Proof.
  intros Hs Hne. unfold patch. destruct bytes as [|b bs] eqn:E; [done|].
  rewrite <- E. clear E Hne b bs.
  destruct (find_region (regions_ s) address) as [r|] eqn:Hf.
  2: { intros [= <- <-]. split_and!; try done. intros _. split; [done|].
       intros (r & Hr%(in_region_find s) & _); [congruence|done]. }
  pose proof (find_in_region s address (zlen bytes) r Hs Hf) as Hin.
  destruct (_ <? _) eqn:Hlt.
  { intros [= <- <-]. split_and!; try done. intros _. split; [done|]. intros (x & Hi & _).
    pose proof Hi as Hx%(in_region_find s); [|done].
    assert (x = r) as -> by congruence. apply Hin in Hi. congruence. }
  apply proj1 in Hin. specialize (Hin eq_refl).
  assert (store_ok false s address (zlen bytes)) as Hok by (by exists r).
  destruct (native_ s) as [arena|] eqn:Hn.
  - destruct (region_arena_offset s arena r address (zlen bytes)) as (-> & _); [done..|lia|].
    destruct (region_arena_offset s arena r (ri_base (info r)) (ri_size (info r))) as (-> & _);
      [done|done| |pose proof (wf_size _ _ _ (wf_region _ _ (wf_map _ Hs) _ _ (proj1 (proj1 Hin)))); lia|].
    { pose proof (wf_size _ _ _ (wf_region _ _ (wf_map _ Hs) _ _ (proj1 (proj1 Hin)))).
      split; [|lia]. split; [apply Hin|unfold covers; lia]. }
    intros (Hr & Hn' & Hst)%patch_native_spec; [|done..]. rewrite Hn in Hn'.
    split; [done|]. split; [intros ->; by auto|by intros _].
  - intros [= <- <-]. split; [done|]. split; [|done]. intros _. split; [done|].
    by apply store_buffered_stored.
Qed.

(** [view] shows the bytes of a range inside one region, and nothing of any
    other range. *)
Lemma view_spec s address size :
  space_wf s -> 0 <= size ->
  (store_ok false s address size ->
    zlen (view s address size) = size /\
    forall i, 0 <= i < size -> zget (view s address size) i = byte_at s (address + i)) /\
  (~ store_ok false s address size -> view s address size = []).
Proof.
  intros Hs Hsz. unfold view. pose proof Hs as [Hm Ha].
  destruct (find_region (regions_ s) address) as [r|] eqn:Hf.
  2: { split; [|done]. intros (r & Hr%(in_region_find s) & _); [congruence|done]. }
  pose proof (find_in_region s address size r Hs Hf) as Hin.
  destruct (_ <? _) eqn:Hlt.
  { split; [|done]. intros (x & Hi & _).
    pose proof Hi as Hx%(in_region_find s); [|done].
    assert (x = r) as -> by congruence. apply Hin in Hi. congruence. }
  apply proj1 in Hin. specialize (Hin eq_refl). split; [intros _|].
  2: { intros []. by exists r. }
  assert (forall i, 0 <= i < size -> byte_at s (address + i) = byte_in s r (address + i)) as Hby.
  { intros i Hi. apply at_owner; [done|]. destruct Hin as [[Hf' Hc] He].
    split; [done|]. unfold covers in *. lia. }
  pose proof (proj2 (proj1 Hin)) as Hcov. unfold covers in Hcov.
  pose proof (proj1 (proj1 Hin)) as Hf'. pose proof (proj2 Hin) as He.
  destruct (native_ s) as [arena|] eqn:Hn.
  - destruct (region_arena_offset s arena r address size) as (-> & Hb & Hle); [done..|].
    unfold host_pointer. destruct (Z.eqb_spec (arena_base arena) 0); [done|].
    destruct (Z.ltb_spec (arena_size arena) (address - arena_base arena)); [lia|]. cbn [orb].
    rewrite host_bytes_length by done. split; [done|]. intros i Hi.
    rewrite host_bytes_get, Hby by done. unfold byte_in. rewrite Hn. do 2 f_equal. lia.
  - pose proof (wf_backed _ _ _ (wf_region _ _ Hm _ _ Hf')) as Hbk. cbn in Hbk.
    rewrite zslice_length by lia. split; [done|]. intros i Hi.
    rewrite zget_zslice, Hby by lia. unfold byte_in. rewrite Hn. f_equal. lia.
Qed.

End Stores.
