(* ===== verification/GuestMemoryProps.v ===== *)
(** * Properties of the guest address space

    The theorems of [GuestMemory] over the spaces a program can reach: any
    sequence of calls from an empty buffered space or from a native
    reservation.  The first part shows that host protections agree with region
    protections, so that no store of the address space hits a protected
    page. *)

From S2P Require Import Prelude OrdMap NativeArena GuestMemory.

Local Open Scope Z_scope.

(** ** Calls and reachable spaces *)

Inductive op : Type :=
| OpMap (i : RegionInfo)
| OpUnmap (base size : Z)
| OpUnmapRange (base size : Z)
| OpProtect (base size protection : Z)
| OpProtectRange (base size protection : Z)
| OpWrite (address : Z) (bytes : list byte)
| OpPatch (address : Z) (bytes : list byte)
| OpZero (address size : Z).

(** The arguments are 64-bit words. *)
Definition op_args (o : op) : Prop :=
  match o with
  | OpMap i => in_u64 (ri_base i) /\ in_u64 (ri_size i)
  | OpUnmap base size | OpUnmapRange base size | OpProtect base size _
  | OpProtectRange base size _ | OpZero base size => in_u64 base /\ in_u64 size
  | OpWrite address bytes | OpPatch address bytes => in_u64 address
  end.

Section Reachable.
Context `{HostOs, !HostOsLaws H}.

Definition do_op (s : space) (o : op) : result (bool * space) :=
  match o with
  | OpMap i => Ok (map_region s i)
  | OpUnmap base size => Ok (unmap s base size)
  | OpUnmapRange base size => Ok (unmap_range s base size)
  | OpProtect base size prot => Ok (protect s base size prot)
  | OpProtectRange base size prot => Ok (protect_range s base size prot)
  | OpWrite address bytes => write s address bytes
  | OpPatch address bytes => patch s address bytes
  | OpZero address size => zero s address size
  end.

Inductive reachable : space -> Prop :=
| reach_buffered h : reachable (mkSpace [] None h)
| reach_native h size preferred_base s :
    in_u64 size -> reserve_native h size preferred_base = Some s -> reachable s
| reach_op s o ok s' :
    reachable s -> op_args o -> do_op s o = Ok (ok, s') -> reachable s'.

Lemma empty_map_wf native : map_wf native [].
Proof. split; [apply sorted_nil|done|done]. Qed.

Lemma reserve_wf h size preferred_base s :
  in_u64 size -> reserve_native h size preferred_base = Some s ->
  space_wf s /\ regions_ s = [] /\ is_Some (native_ s).
Proof.
  unfold reserve_native, reserve. intros Hsz Hr. pose proof page_size_pos.
  destruct (checked_align_up size page_size) as [rounded|] eqn:Ha; [|done].
  apply checked_align_up_Some in Ha as (Hle & Hm & Hu & Hp); [|done|unfold in_u64; lia].
  destruct (_ && _); [done|].
  destruct (os_mmap _ _ _) as [p|] eqn:Hmm; [|done]. destruct (_ && _); [done|].
  cbn in Hr. simplify_eq. apply os_mmap_range in Hmm as (Hp0 & Hpe & Hpm).
  split; [|done]. split; [apply empty_map_wf|]. intros a [= <-]. unfold arena_wf. cbn.
  unfold in_u64 in Hu. split_and!; done || lia.
Qed.

Lemma false_wf (s s' : space) :
  space_wf s -> regions_ s' = regions_ s -> native_ s' = native_ s -> space_wf s'.
Proof. intros [Hm Ha] Hr Hn. split; rewrite ?Hn, ?Hr; done. Qed.

Lemma do_op_wf s o ok s' :
  space_wf s -> op_args o -> do_op s o = Ok (ok, s') -> space_wf s'.
Proof.
  intros Hs Ho Hop. destruct o as [i|b z|b z|b z p|b z p|a bs|a bs|a z]; cbn in Hop, Ho;
    unfold in_u64 in Ho.
  - injection Hop as Hop. destruct ok; [apply map_region_cells in Hop; [apply Hop|done|lia..]|].
    apply map_region_result in Hop as (Hn & _ & Hr & _). eapply false_wf; eauto.
  - injection Hop as Hop. destruct ok; [by eapply unmap_wf|].
    apply unmap_result in Hop as (Hn & _ & Hr & _). eapply false_wf; eauto.
  - injection Hop as Hop. destruct ok; [apply unmap_range_cells in Hop; [apply Hop|done|lia]|].
    apply unmap_range_result in Hop as (Hn & _ & Hr & _). eapply false_wf; eauto.
  - injection Hop as Hop. destruct ok; [apply protect_cells in Hop; [apply Hop|done]|].
    apply protect_result in Hop as (Hn & _ & Hr & _). eapply false_wf; eauto.
  - injection Hop as Hop. destruct ok; [apply protect_range_cells in Hop; [apply Hop|done|lia]|].
    apply protect_range_result in Hop as (Hn & _ & Hr & _); [|done]. eapply false_wf; eauto.
  - destruct bs as [|b bs]; [by simplify_eq/=|]. apply write_spec in Hop as (_ & Ht & Hf); [|done..].
    destruct ok; [by apply Ht|]. by rewrite Hf.
  - destruct bs as [|b bs]; [by simplify_eq/=|]. apply patch_spec in Hop as (_ & Ht & Hf); [|done..].
    destruct ok; [by apply Ht|]. destruct Hf; [done|]. by eapply false_wf.
  - apply zero_spec in Hop as (_ & Ht & Hf); [|done|lia].
    destruct ok; [by apply Ht|]. by rewrite Hf.
Qed.

Lemma reachable_wf s : reachable s -> space_wf s.
Proof.
  induction 1 as [h|h size p s Hsz Hr|s o ok s' _ IH Ho Hop].
  - split; [apply empty_map_wf|done].
  - by apply reserve_wf in Hr as [? _].
  - by eapply do_op_wf.
Qed.

(** ** Host protections *)

(** Where a region may be written, the host page may be written. *)
Definition host_agrees (s : space) : Prop :=
  forall a c, native_ s <> None -> cell_at s a = Some c ->
    has (c_protection c) prot_write = true -> has (hm_prot (host_ s) a) PROT_WRITE = true.

(** At most one change of the host, of the pages of one range. *)
Definition one_protect (arena : NativeArena) (h : HostMem) (base size prot : Z) (ok : bool)
    (h' : HostMem) : Prop :=
  (ok = false /\ h' = h) \/
  (arena_offset arena base = Some (base - arena_base arena) /\
   arena_protect arena h (base - arena_base arena) size prot = (ok, h')).

Lemma arena_offset_value arena base o :
  arena_offset arena base = Some o -> o = base - arena_base arena.
Proof. unfold arena_offset. intros Ho. by repeat case_match; simplify_eq. Qed.

Ltac one_protect_solve :=
  repeat case_match; intros; simplify_eq/=; try (by left; split);
  match goal with
  | Ho : arena_offset _ _ = Some ?o |- _ =>
      pose proof (arena_offset_value _ _ _ Ho); subst o; right; split; done
  end.

Lemma map_region_host s i ok s' arena :
  native_ s = Some arena -> map_region s i = (ok, s') ->
  one_protect arena (host_ s) (ri_base i) (ri_size i) (ri_protection i) ok (host_ s').
Proof. unfold map_region, one_protect. intros ->. one_protect_solve. Qed.

Lemma unmap_host s base size ok s' arena :
  native_ s = Some arena -> unmap s base size = (ok, s') ->
  one_protect arena (host_ s) base size prot_none ok (host_ s').
Proof. unfold unmap, one_protect. intros ->. one_protect_solve. Qed.

Lemma protect_host s base size prot ok s' arena :
  native_ s = Some arena -> protect s base size prot = (ok, s') ->
  one_protect arena (host_ s) base size prot ok (host_ s').
Proof. unfold protect, one_protect. intros ->. one_protect_solve. Qed.

Lemma protect_range_host s base size prot ok s' arena :
  native_ s = Some arena -> protect_range s base size prot = (ok, s') ->
  one_protect arena (host_ s) base size prot ok (host_ s').
Proof.
  intros Hn. unfold protect_range. rewrite Hn.
  destruct (end_address base size) as [e|]; [|by intros [= <- <-]; left].
  destruct (find_region (regions_ s) base) as [r|]; [|by intros [= <- <-]; left].
  destruct (_ || _); [by intros [= <- <-]; left|].
  destruct (_ && _); [by apply protect_host|].
  unfold one_protect. one_protect_solve.
Qed.

(** What one protection change does to an address. *)
Lemma one_protect_prot arena h base size prot ok h' :
  in_u64 size -> one_protect arena h base size prot ok h' ->
  (ok = true -> exists rounded, size <= rounded < size + page_size /\
     rounded mod page_size = 0 /\
     forall a, hm_prot h' a = if in_range base rounded a then posix_protection prot
                              else hm_prot h a) /\
  (ok = false -> forall a, hm_prot h' a = hm_prot h a).
Proof.
  intros Hsz [[-> ->]|[Ho Hp]]; [done|].
  apply arena_protect_spec in Hp as (_ & Ht & Hf); [|done]. split; [|done].
  intros Hok. destruct (Ht Hok) as (_ & _ & _ & rounded & Hr & Hm & _ & Ha).
  exists rounded. split_and!; [lia|lia|done|]. intros a. rewrite (Ha a).
  by replace (arena_base arena + (base - arena_base arena)) with base by lia.
Qed.

(** The last page of a region belongs to no other region. *)
Lemma page_tail_free s arena base r rounded a :
  space_wf s -> native_ s = Some arena -> ofind base (regions_ s) = Some r ->
  ri_size (info r) <= rounded < ri_size (info r) + page_size -> rounded mod page_size = 0 ->
  in_range base rounded a = true -> in_range base (ri_size (info r)) a = false ->
  cell_at s a = None.
Proof.
  intros Hs Hn Hf Hr Hm Hin%in_range_true Hout%in_range_false.
  pose proof Hs as [Hmp Ha]. apply at_no_owner; [done|]. intros x [Hx Hc]. unfold covers in Hc.
  pose proof (wf_region _ _ Hmp _ _ Hf) as [Hk _ _ _ Hbk].
  pose proof (wf_region _ _ Hmp _ _ Hx) as [_ _ Hxs _ Hbx].
  rewrite Hn in Hbk, Hbx. destruct Hbk as (_ & _ & _ & Hbm), Hbx as (_ & _ & _ & Hxm).
  pose proof page_size_pos as Hpg.
  destruct (Z.lt_trichotomy (ri_base (info x)) base) as [Hlt|[He|Hlt]].
  - pose proof (wf_disjoint _ _ Hmp _ _ _ _ Hx Hf Hlt). lia.
  - rewrite He, Hf in Hx. simplify_eq. lia.
  - pose proof (wf_disjoint _ _ Hmp _ _ _ _ Hf Hx Hlt).
    apply Z.mod_divide in Hm as [p ->], Hbm as [q Hq], Hxm as [t Ht]; [|lia..].
    assert (p <= t - q) by nia. nia.
Qed.

(** A successful change keeps the agreement, when the cells change the same
    way. *)
Lemma agrees_after s s' arena base size prot ok :
  host_agrees s -> space_wf s' -> in_u64 size ->
  native_ s = Some arena -> native_ s' = native_ s ->
  one_protect arena (host_ s) base size prot ok (host_ s') ->
  (ok = false -> regions_ s' = regions_ s) ->
  (ok = true ->
    (forall a c, cell_at s' a = Some c ->
      if in_range base size a then c_protection c = prot
      else cell_at s a = Some c) /\
    (size mod page_size = 0 \/ (exists r, ofind base (regions_ s') = Some r /\
                                 ri_size (info r) = size) \/ prot = prot_none /\
     exists r, space_wf s /\ ofind base (regions_ s) = Some r /\ ri_size (info r) = size)) ->
  host_agrees s'.
Proof.
  intros Hag Hs' Hsz Hn Hn' Hop Hf Ht a c Hnn Hc Hw.
  apply one_protect_prot in Hop as [Hpt Hpf]; [|done]. destruct ok.
  - destruct (Ht eq_refl) as [Hcells Hsize]. destruct (Hpt eq_refl) as (rounded & Hr & Hm & Hpr).
    rewrite (Hpr a). specialize (Hcells a c Hc).
    destruct (in_range base size a) eqn:Hin.
    + assert (in_range base rounded a = true) as ->
        by (apply in_range_true; apply in_range_true in Hin; lia).
      change PROT_WRITE with prot_write. rewrite has_posix by tauto. by rewrite <- Hcells.
    + destruct (in_range base rounded a) eqn:Hinr; [|eapply Hag; [congruence|done|done]].
      exfalso. destruct Hsize as [Hz|[(r & Hrf & Hrs)|(_ & r & Hs & Hrf & Hrs)]].
      * apply in_range_true in Hinr. apply in_range_false in Hin. pose proof page_size_pos.
        apply Z.mod_divide in Hm as [p ->], Hz as [q ->]; [|lia..]. assert (p = q) by nia. subst p. lia.
      * subst size. rewrite Hn in Hn'. by rewrite (page_tail_free s' arena base r rounded a) in Hc.
      * subst size. by rewrite (page_tail_free s arena base r rounded a) in Hcells.
  - rewrite Hpf by done. eapply (Hag a c); [congruence| |done].
    unfold cell_at in *. by rewrite <- Hf.
Qed.

(** The host grants every [mprotect] of pages the process owns. *)
Definition mprotect_granted : Prop := forall n addr size prot, os_mprotect n addr size prot = true.

Lemma arena_protect_granted arena h base size prot :
  mprotect_granted -> arena_wf arena -> 0 < size -> size mod page_size = 0 ->
  base mod page_size = 0 -> arena_base arena <= base ->
  base + size <= arena_base arena + arena_size arena ->
  exists h', arena_protect arena h (base - arena_base arena) size prot = (true, h') /\
    forall a, in_range base size a = false -> hm_prot h' a = hm_prot h a.
Proof.
  intros Hg (Hb0 & Hs0 & Hend & Hbm) Hsz Hzm Hm Hle He. pose proof page_size_pos as Hpg.
  unfold arena_protect. destruct (Z.eqb_spec (arena_base arena) 0); [lia|].
  destruct (Z.eqb_spec size 0); [lia|]. cbn [orb].
  assert ((base - arena_base arena) mod page_size = 0) as ->
    by (by rewrite Zminus_mod, Hm, Hbm, Z.mod_0_l by lia). cbn [Z.eqb negb orb].
  destruct (Z.ltb_spec (arena_size arena) (base - arena_base arena)); [lia|].
  apply Z.mod_divide in Hzm as [q Hq]; [|lia]. apply Z.mod_divide in Hbm as [p Hp]; [|lia].
  assert (1 <= p) by nia. assert (page_size <= arena_base arena) by nia.
  assert (checked_align_up size page_size = Some size) as ->.
  { unfold checked_align_up. destruct (Z.eqb_spec size 0); [lia|].
    destruct (Z.eqb_spec page_size 0); [lia|].
    destruct (Z.ltb_spec (u64_max - (page_size - 1)) size); [lia|]. cbn. f_equal.
    rewrite (wrap64_small (size + page_size - 1)) by (unfold in_u64; lia).
    assert ((size + page_size - 1) / page_size = q) as ->.
    { subst size. symmetry. apply (Z.div_unique _ _ _ (page_size - 1)); lia. }
    rewrite wrap64_small by (unfold in_u64; lia). lia. }
  destruct (Z.ltb_spec (arena_size arena - (base - arena_base arena)) size); [lia|].
  rewrite Hg. eexists. split; [done|]. intros a Ha. cbn.
  replace (arena_base arena + (base - arena_base arena)) with base by lia. by rewrite Ha.
Qed.

(** A removal of [unmap_range]: pages of one region. *)
Definition removal_ok (arena : NativeArena) (r : Removal) : Prop :=
  0 < overlap_size r /\ overlap_size r mod page_size = 0 /\ overlap_base r mod page_size = 0 /\
  arena_base arena <= overlap_base r /\
  overlap_base r + overlap_size r <= arena_base arena + arena_size arena.

Lemma protect_removals_granted arena h applied todo :
  mprotect_granted -> arena_wf arena -> Forall (removal_ok arena) todo ->
  exists h', protect_removals arena h applied todo = (true, h') /\
    forall a, Forall (fun r => in_range (overlap_base r) (overlap_size r) a = false) todo ->
      hm_prot h' a = hm_prot h a.
Proof.
  intros Hg Ha Htodo. revert h applied. induction Htodo as [|r todo Hr Htodo IH]; intros h applied.
  { by exists h. }
  cbn [protect_removals]. destruct Hr as (Hs & Hsm & Hbm & Hlo & Hhi).
  assert (arena_offset arena (overlap_base r) = Some (overlap_base r - arena_base arena)) as ->.
  { unfold arena_offset. destruct (Z.ltb_spec (overlap_base r) (arena_base arena)); [lia|].
    destruct (Z.leb_spec (overlap_base r - arena_base arena) (arena_size arena)); [done|lia]. }
  cbn [default]. unfold default, id.
  destruct (arena_protect_granted arena h (overlap_base r) (overlap_size r) prot_none)
    as (h1 & -> & H1); [done..|].
  destruct (IH h1 (r :: applied)) as (h' & -> & H').
  exists h'. split; [done|]. intros a [Hr Hrest]%Forall_cons. rewrite H', H1; done.
Qed.

Lemma unmap_range_agrees s base size ok s' :
  mprotect_granted -> space_wf s -> 0 <= size -> host_agrees s ->
  unmap_range s base size = (ok, s') -> host_agrees s'.
Proof.
  intros Hg Hs Hsz Hag Hu. destruct (native_ s) as [arena|] eqn:Hn.
  2: { apply unmap_range_result in Hu as (Hn' & _). intros a c Hnn. by rewrite Hn', Hn in Hnn. }
  pose proof Hu as Hcells. revert Hu. unfold unmap_range. rewrite Hn.
  destruct (end_address base size) as [end_|] eqn:He; [|by intros [= <- <-]].
  apply end_address_Some in He as (Hsz0 & Hend & ->).
  rewrite prepare_overlaps. cbn [app].
  destruct (forallb (removal_aligned arena) _) eqn:Hall; cbn [negb]; [|by intros [= <- <-]].
  pose proof Hs as [Hm Ha].
  match goal with |- context [protect_removals arena _ [] ?l] =>
    assert (Forall (fun r => removal_ok arena r /\ base <= overlap_base r /\
      overlap_base r + overlap_size r <= base + size) l) as Hl end.
  { apply Forall_forall. intros r Hin. rewrite forallb_forall in Hall.
    pose proof (Hall r ltac:(by apply list_elem_of_In)) as Hal.
    apply list_elem_of_fmap in Hin as ([[x ob] oe] & -> & Hin).
    apply (overlaps_of_spec (native_ s)) in Hin as (Hf & Hob & Hoe & Hlt); [|done|lia].
    unfold removal_aligned in Hal. cbn [fst snd overlap_removal overlap_base overlap_size] in *.
    case_match; [|done]. bools.
    pose proof (wf_backed _ _ _ (wf_region _ _ Hm _ _ Hf)) as Hbk. rewrite Hn in Hbk.
    destruct Hbk as (_ & Hlo & Hhi & _). unfold removal_ok. cbn.
    split_and!; done || lia. }
  destruct (protect_removals_granted arena (host_ s) []
    (map (fun ov => overlap_removal ov.1.1 ov.1.2 ov.2) (overlaps_of (regions_ s) base (base + size))))
    as (h' & Hp & Hpr); [done|by apply Ha|eapply Forall_impl; [exact Hl|by intros r [? _]]|].
  rewrite Hp. intros [= <- <-]. apply unmap_range_cells in Hcells as [_ Hc]; [|done..].
  intros a c Hnn Hca Hw. specialize (Hc a).
  destruct (in_range base size a) eqn:Hin; [destruct Hc; congruence|].
  destruct Hc as [Hc _]. cbn [host_ with_host with_regions]. rewrite Hpr.
  { eapply Hag; [congruence| |done]. by rewrite <- Hc. }
  eapply Forall_impl; [exact Hl|]. intros r (_ & Hlo & Hhi). apply in_range_false.
  apply in_range_false in Hin. lia.
Qed.

Lemma map_region_agrees s i ok s' :
  space_wf s -> in_u64 (ri_base i) -> in_u64 (ri_size i) -> host_agrees s ->
  map_region s i = (ok, s') -> host_agrees s'.
Proof.
  intros Hs Hb Hsz Hag Hm. pose proof (map_region_result _ _ _ _ Hm) as (Hn' & _ & Hf & Ht).
  destruct (native_ s) as [arena|] eqn:Hn; [|intros a c Hnn; by rewrite Hn' in Hnn].
  assert (space_wf s') as Hs'.
  { eapply (do_op_wf s (OpMap i)); [done|done|]. cbn. by rewrite Hm. }
  eapply agrees_after; [done|done|exact Hsz|exact Hn|congruence|by eapply map_region_host|done|].
  intros ->. unfold in_u64 in *. pose proof Hm as [_ Hc]%map_region_cells; [|done|lia..]. split.
  - intros a c Hca. specialize (Hc a). destruct (in_range _ _ a).
    + destruct Hc as (_ & Hc & _). rewrite Hc in Hca. by simplify_eq.
    + destruct Hc as [Hc _]. by rewrite <- Hc.
  - right. left. destruct (Ht eq_refl) as (Hz & _ & _ & Hr & _).
    exists (fresh_region (native_backed s) i). split; [|done].
    rewrite Hr, ofind_emplace by apply Hs. rewrite decide_True by done.
    destruct (ofind (ri_base i) (regions_ s)) as [w|] eqn:Hw; [exfalso|done].
    specialize (Hc (ri_base i)). rewrite (proj2 (in_range_true _ _ _)) in Hc by lia.
    destruct Hc as [Hc _]. pose proof (wf_region _ _ (wf_map _ Hs) _ _ Hw) as [Hk _ Hp _ _].
    destruct (at_owner s (ri_base i) w Hs) as [Hcw _]; [|congruence].
    unfold owner, covers. rewrite Hk. split; [done|lia].
Qed.

Lemma protect_agrees s base size prot ok s' :
  space_wf s -> in_u64 size -> host_agrees s ->
  protect s base size prot = (ok, s') -> host_agrees s'.
Proof.
  intros Hs Hsz Hag Hp. pose proof (protect_result _ _ _ _ _ _ Hp) as (Hn' & _ & Hf & Ht).
  destruct (native_ s) as [arena|] eqn:Hn; [|intros a c Hnn; by rewrite Hn' in Hnn].
  assert (space_wf s') as Hs'.
  { destruct ok; [by apply protect_cells in Hp as [? _]|]. eapply false_wf; [done|auto|congruence]. }
  eapply agrees_after; [done|done|exact Hsz|exact Hn|congruence|by eapply protect_host|done|].
  intros ->. pose proof Hp as [_ Hc]%protect_cells; [|done]. split.
  - intros a c Hca. destruct (Hc a) as [_ Hca']. rewrite Hca in Hca'.
    destruct (cell_at s a) as [c0|] eqn:E; [|done]. cbn in Hca'.
    destruct (in_range _ _ a); by simplify_eq/=.
  - right. left. destruct (Ht eq_refl) as (r & Hr & Hrs & Hreg). eexists. rewrite Hreg.
    rewrite ofind_insert by apply Hs. by rewrite decide_True.
Qed.

Lemma protect_range_agrees s base size prot ok s' :
  space_wf s -> in_u64 size -> host_agrees s ->
  protect_range s base size prot = (ok, s') -> host_agrees s'.
Proof.
  intros Hs Hsz Hag Hp. pose proof (protect_range_result _ _ _ _ _ _ Hs Hp) as (Hn' & _ & Hf & Ht).
  destruct (native_ s) as [arena|] eqn:Hn; [|intros a c Hnn; by rewrite Hn' in Hnn].
  assert (ok = true -> 0 <= size) as Hsz0 by (unfold in_u64 in Hsz; lia).
  assert (space_wf s') as Hs'.
  { destruct ok; [apply protect_range_cells in Hp as [? _]; auto|].
    eapply false_wf; [done|auto|congruence]. }
  assert (ok = true -> exists r, owner (regions_ s) base r /\
    (protect s base size prot = (true, s') \/ size mod page_size = 0)) as Hcase.
  { intros Hok. destruct (Ht Hok) as (r & Ho & _ & _ & [(_ & _ & Hpr)|[_ Hal]]); exists r.
    - split; [done|by left].
    - split; [done|right]. by apply (Hal arena). }
  destruct ok.
  - destruct (Hcase eq_refl) as (r & _ & [Hpr|Hz]); [by apply (protect_agrees s base size prot true s')|].
    eapply agrees_after; [done|done|exact Hsz|exact Hn|congruence|
      by eapply protect_range_host|done|].
    intros _. apply protect_range_cells in Hp as [_ Hc]; [|done|auto]. split; [|by left].
    intros a c Hca. destruct (Hc a) as [_ Hca']. rewrite Hca in Hca'.
    destruct (cell_at s a) as [c0|] eqn:E; [|done]. cbn in Hca'.
    destruct (in_range _ _ a); by simplify_eq/=.
  - eapply agrees_after; [done|done|exact Hsz|exact Hn|congruence|
      by eapply protect_range_host|done|done].
Qed.

Lemma unmap_agrees s base size ok s' :
  space_wf s -> in_u64 size -> host_agrees s -> unmap s base size = (ok, s') -> host_agrees s'.
Proof.
  intros Hs Hsz Hag Hp. pose proof (unmap_result _ _ _ _ _ Hp) as (Hn' & _ & Hf & Ht).
  destruct (native_ s) as [arena|] eqn:Hn; [|intros a c Hnn; by rewrite Hn' in Hnn].
  assert (space_wf s') as Hs'.
  { destruct ok; [by eapply unmap_wf|]. eapply false_wf; [done|auto|congruence]. }
  eapply agrees_after; [done|done|exact Hsz|exact Hn|congruence|by eapply unmap_host|done|].
  intros ->. destruct (Ht eq_refl) as (r & Hr & Hrs & Hreg).
  pose proof (wf_region _ _ (wf_map _ Hs) _ _ Hr) as [Hk _ _ _ _]. split.
  - intros a c (x & Ho & ->)%cell_at_owner; [|done]. rewrite Hreg in Ho.
    destruct Ho as [Hx Hc]. rewrite ofind_erase in Hx by apply Hs. case_decide as Hd; [done|].
    destruct (in_range base size a) eqn:Hin.
    + exfalso. apply Hd. apply in_range_true in Hin. rewrite <- Hk. f_equal. f_equal.
      eapply (owner_unique (native_ s)); [apply Hs|by split|]. unfold owner, covers.
      rewrite Hk. split; [done|lia].
    + destruct (at_owner s a x Hs) as [-> _]; [by split|done].
  - right. right. split; [done|]. by exists r.
Qed.

(** *** Stores *)

Lemma put_agrees s r address bytes :
  in_region s r address (zlen bytes) -> host_agrees s ->
  host_agrees (with_host s (host_put (host_ s) address bytes)).
Proof. intros _ Hag a c Hn Hc. by apply (Hag a c). Qed.

(** A writable region is writable for the host. *)
Lemma region_host_writable s r address size :
  space_wf s -> host_agrees s -> native_ s <> None -> in_region s r address size -> 0 <= size ->
  has (ri_protection (info r)) prot_write = true -> host_writable (host_ s) address size = true.
Proof.
  intros Hs Hag Hn [[Hf Hc] He] Hsz Hw. unfold covers in Hc.
  apply host_writable_true; [done|]. intros a Ha.
  destruct (at_owner s a r Hs) as [Hca _]; [split; [done|unfold covers; lia]|].
  by apply (Hag a _ Hn Hca).
Qed.

Lemma arena_copy_ok arena h address bytes :
  arena_base arena <> 0 -> address - arena_base arena + zlen bytes <= arena_size arena ->
  host_writable h address (zlen bytes) = true ->
  arena_copy arena h (address - arena_base arena) bytes = Ok (true, host_put h address bytes).
Proof.
  intros Hb Hle Hw. unfold arena_copy, host_memcpy.
  destruct (Z.eqb_spec (arena_base arena) 0); [done|].
  destruct (Z.ltb_spec (arena_size arena) (address - arena_base arena)); [lia|].
  destruct (Z.ltb_spec (arena_size arena - (address - arena_base arena)) (zlen bytes)); [lia|].
  cbn [orb]. replace (arena_base arena + (address - arena_base arena)) with address by lia.
  by rewrite Hw.
Qed.

Lemma write_total s address bytes :
  space_wf s -> host_agrees s ->
  exists ok s', write s address bytes = Ok (ok, s') /\ host_agrees s'.
Proof.
  intros Hs Hag. unfold write. destruct bytes as [|b bs] eqn:E; [by do 2 eexists|].
  rewrite <- E. clear E b bs.
  destruct (find_region (regions_ s) address) as [r|] eqn:Hf; [|by do 2 eexists].
  destruct (has (ri_protection (info r)) prot_write) eqn:Hw; cbn [negb]; [|by do 2 eexists].
  destruct (_ <? _) eqn:Hlt; [by do 2 eexists|]. apply (proj1 (find_in_region _ _ _ _ Hs Hf)) in Hlt.
  destruct (native_ s) as [arena|] eqn:Hn.
  - destruct (region_arena_offset s arena r address (zlen bytes)) as (-> & Hb & Hle);
      [done..|lia|].
    rewrite arena_copy_ok; [|done|done|eapply region_host_writable; [done|done|congruence|done|lia|done]].
    do 2 eexists. split; [done|]. by eapply put_agrees.
  - do 2 eexists. split; [done|]. intros a c Hnn. cbn in Hnn. congruence.
Qed.

Lemma zero_total s address size :
  space_wf s -> host_agrees s -> 0 <= size ->
  exists ok s', zero s address size = Ok (ok, s') /\ host_agrees s'.
Proof.
  intros Hs Hag Hsz. unfold zero.
  destruct (find_region (regions_ s) address) as [r|] eqn:Hf; [|by do 2 eexists].
  destruct (has (ri_protection (info r)) prot_write) eqn:Hw; cbn [negb]; [|by do 2 eexists].
  destruct (_ <? _) eqn:Hlt; [by do 2 eexists|]. apply (proj1 (find_in_region _ _ _ _ Hs Hf)) in Hlt.
  set (bytes := replicate _ _). assert (zlen bytes = size) as Hlen
    by (unfold bytes; rewrite length_replicate; lia).
  destruct (native_ s) as [arena|] eqn:Hn.
  - destruct (region_arena_offset s arena r address size) as (-> & Hb & Hle); [done..|].
    unfold host_pointer. destruct (Z.eqb_spec (arena_base arena) 0); [done|].
    destruct (Z.ltb_spec (arena_size arena) (address - arena_base arena)); [lia|]. cbn [orb].
    unfold host_memcpy. rewrite Hlen.
    replace (arena_base arena + (address - arena_base arena)) with address by lia.
    rewrite (region_host_writable s r) by (done || congruence).
    do 2 eexists. split; [done|]. eapply put_agrees; [|done]. by rewrite Hlen.
  - do 2 eexists. split; [done|]. intros a c Hnn. cbn in Hnn. congruence.
Qed.

(** Pages outside the regions and those of a region without write permission
    do not matter for the agreement. *)
Lemma agrees_host_change s r h' rounded :
  space_wf s -> native_ s <> None -> host_agrees s ->
  ofind (ri_base (info r)) (regions_ s) = Some r -> has (ri_protection (info r)) prot_write = false ->
  ri_size (info r) <= rounded < ri_size (info r) + page_size -> rounded mod page_size = 0 ->
  (forall a, in_range (ri_base (info r)) rounded a = false -> hm_prot h' a = hm_prot (host_ s) a) ->
  host_agrees (with_host s h').
Proof.
  intros Hs Hn Hag Hf Hw Hr Hm Hpr a c _ Hc Hcw. cbn.
  change (cell_at (with_host s h') a) with (cell_at s a) in Hc.
  destruct (in_range (ri_base (info r)) rounded a) eqn:Hin; [|rewrite Hpr by done; by apply (Hag a c)].
  destruct (native_ s) as [arena|] eqn:Hna; [|done].
  destruct (in_range (ri_base (info r)) (ri_size (info r)) a) eqn:Hin'.
  - apply in_range_true in Hin'. destruct (at_owner s a r Hs) as [Hca _]; [done|].
    rewrite Hc in Hca. simplify_eq/=. congruence.
  - by rewrite (page_tail_free s arena (ri_base (info r)) r rounded a) in Hc.
Qed.

Lemma patch_native_total s arena r address bytes :
  space_wf s -> host_agrees s -> native_ s = Some arena -> in_region s r address (zlen bytes) ->
  exists ok s',
    patch_native s arena r (ri_base (info r) - arena_base arena) (address - arena_base arena) bytes
      = Ok (ok, s') /\ host_agrees s'.
Proof.
  intros Hs Hag Hn Hin. unfold patch_native.
  destruct (region_arena_offset s arena r address (zlen bytes)) as (_ & Hb & Hle); [done..|lia|].
  pose proof (proj1 (proj1 Hin)) as Hf. pose proof (proj2 (proj1 Hin)) as Hc. unfold covers in Hc.
  pose proof (wf_region _ _ (wf_map _ Hs) _ _ Hf) as Hw. pose proof (proj2 Hin) as He.
  destruct (has (ri_protection (info r)) prot_write) eqn:Hpw; cbn [negb].
  { rewrite arena_copy_ok; [|done|done|
      by eapply region_host_writable; [done|done|congruence|done|lia|done]].
    cbn. rewrite ?Hpw. do 2 eexists. split; [done|]. by eapply put_agrees. }
  assert (in_u64 (ri_size (info r))) as Hu by (destruct Hw; unfold in_u64; lia).
  assert (arena_offset arena (ri_base (info r)) = Some (ri_base (info r) - arena_base arena)) as Ho.
  { eapply (region_arena_offset s arena r _ (ri_size (info r))); [done..| |destruct Hw; lia].
    split; [split; [done|unfold covers; destruct Hw; lia]|lia]. }
  set (ro := ri_base (info r) - arena_base arena) in *.
  destruct (arena_protect arena (host_ s) ro _ (prot_or _ _)) as [ok1 h1] eqn:Hp1.
  destruct (one_protect_prot _ _ _ _ _ _ _ Hu (or_intror (conj Ho Hp1))) as [Ht1 Hf1].
  destruct ok1; cbn [negb].
  2: { do 2 eexists. split; [done|]. intros a c Hnn Hca Hcw. cbn. rewrite Hf1 by done.
       by apply (Hag a c). }
  destruct (Ht1 eq_refl) as (n1 & Hn1 & Hm1 & Hpr1).
  rewrite arena_copy_ok; [|done|done|].
  2: { apply host_writable_true; [lia|]. intros a Ha. rewrite Hpr1.
       by rewrite (proj2 (in_range_true _ _ _)) by lia. }
  cbn [mbind result_bind].
  set (h2 := host_put h1 address bytes).
  destruct (arena_protect arena h2 ro (ri_size (info r)) (ri_protection (info r))) as [ok3 h3] eqn:Hp3.
  do 2 eexists. split; [done|].
  destruct (one_protect_prot _ _ _ _ _ _ _ Hu (or_intror (conj Ho Hp3))) as [Ht3 Hf3].
  assert (exists n, ri_size (info r) <= n < ri_size (info r) + page_size /\ n mod page_size = 0 /\
    forall a, in_range (ri_base (info r)) n a = false -> hm_prot h3 a = hm_prot (host_ s) a)
    as (n & Hnr & Hnm & Hnp).
  { destruct ok3.
    - destruct (Ht3 eq_refl) as (n3 & Hn3 & Hm3 & Hpr3). exists (Z.max n1 n3).
      assert (n1 = n3) as <-.
      { pose proof page_size_pos. apply Z.mod_divide in Hm1 as [p1 ->], Hm3 as [p3 ->]; [|lia..].
        assert (p1 = p3) by nia. congruence. }
      rewrite Z.max_id. split_and!; [lia|lia|done|]. intros a Ha. rewrite Hpr3, Ha.
      change (hm_prot h2 a) with (hm_prot h1 a). by rewrite Hpr1, Ha.
    - exists n1. split_and!; [lia|lia|done|]. intros a Ha. rewrite Hf3 by done.
      change (hm_prot h2 a) with (hm_prot h1 a). by rewrite Hpr1, Ha. }
  eapply (agrees_host_change s r h3 n); try done. congruence.
Qed.

Lemma patch_total s address bytes :
  space_wf s -> host_agrees s ->
  exists ok s', patch s address bytes = Ok (ok, s') /\ host_agrees s'.
Proof.
  intros Hs Hag. unfold patch. destruct bytes as [|b bs] eqn:E; [by do 2 eexists|].
  rewrite <- E. clear E b bs.
  destruct (find_region (regions_ s) address) as [r|] eqn:Hf; [|by do 2 eexists].
  destruct (_ <? _) eqn:Hlt; [by do 2 eexists|]. apply (proj1 (find_in_region _ _ _ _ Hs Hf)) in Hlt.
  destruct (native_ s) as [arena|] eqn:Hn.
  - destruct (region_arena_offset s arena r address (zlen bytes)) as (-> & _); [done..|lia|].
    pose proof (wf_size _ _ _ (wf_region _ _ (wf_map _ Hs) _ _ (proj1 (proj1 Hlt)))) as Hsz.
    destruct (region_arena_offset s arena r (ri_base (info r)) (ri_size (info r))) as (-> & _);
      [done|done| |lia|by apply patch_native_total].
    split; [split; [apply Hlt|unfold covers; lia]|lia].
  - do 2 eexists. split; [done|]. intros a c Hnn. cbn in Hnn. congruence.
Qed.

Lemma do_op_total s o :
  mprotect_granted -> space_wf s -> host_agrees s -> op_args o ->
  exists ok s', do_op s o = Ok (ok, s') /\ host_agrees s'.
Proof.
  intros Hg Hs Hag Ho. destruct o as [i|b z|b z|b z p|b z p|a bs|a bs|a z]; cbn in *.
  - destruct (map_region s i) as [ok s'] eqn:Hm. do 2 eexists. split; [done|].
    eapply map_region_agrees; [done|apply Ho|apply Ho|done|done].
  - destruct (unmap s b z) as [ok s'] eqn:Hm. do 2 eexists. split; [done|].
    eapply unmap_agrees; [done|apply Ho|done|done].
  - destruct (unmap_range s b z) as [ok s'] eqn:Hm. do 2 eexists. split; [done|].
    eapply unmap_range_agrees; [done|done| |done|done]. unfold in_u64 in Ho. lia.
  - destruct (protect s b z p) as [ok s'] eqn:Hm. do 2 eexists. split; [done|].
    eapply protect_agrees; [done|apply Ho|done|done].
  - destruct (protect_range s b z p) as [ok s'] eqn:Hm. do 2 eexists. split; [done|].
    eapply protect_range_agrees; [done|apply Ho|done|done].
  - by apply write_total.
  - by apply patch_total.
  - apply zero_total; [done|done|]. unfold in_u64 in Ho. lia.
Qed.

Lemma reachable_agrees s : mprotect_granted -> reachable s -> host_agrees s.
Proof.
  intros Hg. induction 1 as [h|h size p s Hsz Hr|s o ok s' Hr IH Ho Hop].
  - intros a c Hn. done.
  - apply reserve_wf in Hr as (_ & Hr & _); [|done]. intros a c _. unfold cell_at.
    by rewrite Hr.
  - destruct (do_op_total s o) as (ok' & s'' & Hop' & Hag); [done|by apply reachable_wf|done..|].
    rewrite Hop in Hop'. by simplify_eq.
Qed.

(** ** Properties *)


(** [map].  A successful call adds the given region, with the
    attributes it was given, zero bytes in a buffered space, and leaves every
    other address alone; a refused call changes no region.  In a buffered space
    the call succeeds exactly when the range is not empty, does not wrap and is
    entirely free. *)
Theorem map_adds_region s i ok s' :
  reachable s -> in_u64 (ri_base i) -> in_u64 (ri_size i) -> map_region s i = (ok, s') ->
  (ok = true -> forall a,
     if in_range (ri_base i) (ri_size i) a
     then cell_at s a = None /\ cell_at s' a = Some (cell_of i a) /\
          byte_at s' a = Some (if native_backed s then hm_byte (host_ s) a else zero_byte)
     else same_at s s' a) /\
  (ok = false -> regions s' = regions s) /\
  (native_ s = None -> ok = true <->
     ri_size i <> 0 /\ ri_base i + ri_size i <= u64_max /\
     forall a, in_range (ri_base i) (ri_size i) a = true -> cell_at s a = None).
Proof.
  intros Hr Hb Hz Hm. pose proof (reachable_wf s Hr) as Hs. unfold in_u64 in *.
  pose proof (map_region_result _ _ _ _ Hm) as (_ & _ & Hf & Ht). split_and!.
  - intros ->. by apply map_region_cells in Hm as [_ Hc]; [|done|lia..].
  - intros Hok. unfold regions. by rewrite Hf.
  - intros Hn. split.
    + intros ->. destruct (Ht eq_refl) as (H1 & H2 & _). split_and!; [done..|].
      intros a Ha. apply map_region_cells in Hm as [_ Hc]; [|done|lia..].
      specialize (Hc a). rewrite Ha in Hc. apply Hc.
    + intros (Hsz & He & Hfree). destruct ok; [done|exfalso].
      assert (neighbours_clear (regions_ s) (ri_base i) (ri_base i + ri_size i) = true) as Hcl.
      { apply (neighbours_clear_free (native_ s)); [apply Hs|lia|].
        intros a r Ha Ho. destruct (at_owner s a r Hs Ho) as [Hc _].
        rewrite Hfree in Hc; [done|]. by apply in_range_true. }
      revert Hm. unfold map_region, neighbours_clear in *. rewrite Hn.
      rewrite (proj2 (end_address_Some (ri_base i) (ri_size i) _)) by (split_and!; [done|done|reflexivity]).
      apply andb_true_iff in Hcl as [->%negb_true_iff ->%negb_true_iff]. done.
Qed.

(** C1: [unmap_range].  A successful call empties exactly the range: every
    address of it holds nothing, every other address keeps its attributes, its
    offset in the file or direct memory it maps and its byte, however regions
    had to be split.  A refused call changes no region; in a buffered space
    only an empty or wrapping range is refused. *)
Theorem unmap_range_empties_exactly_the_range s base size ok s' :
  reachable s -> in_u64 base -> in_u64 size -> unmap_range s base size = (ok, s') ->
  (ok = true -> forall a,
     if in_range base size a then cell_at s' a = None /\ byte_at s' a = None
     else same_at s s' a) /\
  (ok = false -> regions s' = regions s) /\
  (native_ s = None -> ok = true <-> size <> 0 /\ base + size <= u64_max).
Proof.
  intros Hr Hb Hz Hu. pose proof (reachable_wf s Hr) as Hs. unfold in_u64 in *.
  pose proof (unmap_range_result _ _ _ _ _ Hu) as (_ & _ & Hf & Ht). split_and!.
  - intros ->. by apply unmap_range_cells in Hu as [_ Hc]; [|done|lia].
  - intros Hok. unfold regions. by rewrite Hf.
  - intros Hn. split.
    + intros Hok. destruct (Ht Hok) as (e & He & _). by apply end_address_Some in He as (? & ? & _).
    + intros [Hsz He]. destruct ok; [done|exfalso]. revert Hu. unfold unmap_range.
      rewrite (proj2 (end_address_Some base size _)) by (split_and!; [done|done|reflexivity]).
      by rewrite prepare_overlaps, Hn.
Qed.

(** C3: [protect_range].  A successful call changes the protection of
    exactly the addresses of the range and nothing else: no byte, name, kind
    or offset.  A refused call changes no region; in a buffered space the call
    succeeds exactly when the range is not empty and lies in one region. *)
Theorem protect_range_changes_only_the_range s base size prot ok s' :
  reachable s -> in_u64 base -> in_u64 size -> protect_range s base size prot = (ok, s') ->
  (ok = true -> forall a,
     byte_at s' a = byte_at s a /\
     cell_at s' a = (if in_range base size a then cell_set_protection prot else id)
                      <$> cell_at s a) /\
  (ok = false -> regions s' = regions s) /\
  (native_ s = None -> ok = true <-> size <> 0 /\ store_ok false s base size).
Proof.
  intros Hr Hb Hz Hp. pose proof (reachable_wf s Hr) as Hs. unfold in_u64 in *.
  pose proof (protect_range_result _ _ _ _ _ _ Hs Hp) as (_ & _ & Hf & Ht). split_and!.
  - intros ->. by apply protect_range_cells in Hp as [_ Hc]; [|done|lia].
  - intros Hok. unfold regions. by rewrite Hf.
  - intros Hn. split.
    + intros Hok. destruct (Ht Hok) as (r & Ho & Hsz & He & _). split; [done|]. exists r.
      split; [by split|done].
    + intros [Hsz (r & [Ho He] & _)]. destruct ok; [done|exfalso]. revert Hp.
      pose proof (wf_region _ _ (wf_map _ Hs) _ _ (proj1 Ho)) as [_ ? ? Hend _].
      unfold protect_range, protect.
      rewrite (proj2 (end_address_Some base size _)) by (split_and!; [done|lia|reflexivity]).
      rewrite (proj2 (find_region_owner (native_ s) _ _ _ (wf_map _ Hs)) Ho), Hn.
      destruct (Z.ltb_spec (u64_max - ri_size (info r)) (ri_base (info r))); [lia|].
      destruct (Z.ltb_spec (ri_base (info r) + ri_size (info r)) (base + size)); [lia|]. cbn [orb].
      destruct (Z.eqb_spec base (ri_base (info r))) as [Heq|]; cbn [andb]; [|done].
      destruct (Z.eqb_spec size (ri_size (info r))) as [Hzq|]; [|done].
      rewrite Heq, (proj1 Ho). by rewrite Hzq, Z.eqb_refl.
Qed.

(** A store leaves a range in one region. *)
Lemma same_infos_in_region s s' r address size :
  space_wf s -> space_wf s' -> same_infos s s' -> in_region s r address size ->
  exists r', in_region s' r' address size.
Proof.
  intros Hs Hs' Hinf [[Hf Hc] He]. specialize (Hinf (ri_base (info r))). rewrite Hf in Hinf.
  destruct (ofind (ri_base (info r)) (regions_ s')) as [r'|] eqn:Hf'; [|done].
  cbn in Hinf. injection Hinf as Hi. exists r'. unfold in_region, owner, covers in *.
  by rewrite !Hi.
Qed.

(** A view of a range just stored. *)
Lemma view_stored s s' address bytes :
  space_wf s -> store_ok false s address (zlen bytes) -> stored s s' address bytes ->
  view s' address (zlen bytes) = bytes.
Proof.
  intros Hs (r & Hin & _) (Hs' & Hinf & Hst).
  destruct (same_infos_in_region s s' r address (zlen bytes)) as [r' Hin']; [done..|].
  destruct (view_spec s' address (zlen bytes) Hs' ltac:(lia)) as [Hv _].
  destruct Hv as [Hl Hv]; [by exists r'|]. apply zget_ext; [lia|].
  intros i Hi. rewrite Hv by lia. destruct (Hst (address + i)) as [_ ->].
  rewrite (proj2 (in_range_true _ _ _)) by lia. f_equal. lia.
Qed.

(** stores and views.  [write], [patch] and [zero] replace exactly the
    bytes of their range and change no attribute; they ask for the range to lie
    in one region, writable for [write] and [zero].  [view] returns exactly
    the bytes of a range that lies in one region, so that a view after a store
    shows the stored bytes. *)
Theorem stores_and_views s address bytes ok s' :
  reachable s -> bytes <> [] ->
  (write s address bytes = Ok (ok, s') ->
     (ok = true <-> store_ok true s address (zlen bytes)) /\
     if ok then stored s s' address bytes /\ view s' address (zlen bytes) = bytes else s' = s) /\
  (patch s address bytes = Ok (ok, s') ->
     (native_ s = None -> ok = true <-> store_ok false s address (zlen bytes)) /\
     if ok then stored s s' address bytes /\ view s' address (zlen bytes) = bytes
     else regions s' = regions s) /\
  (forall size, 0 <= size -> zero s address size = Ok (ok, s') ->
     (ok = true <-> store_ok true s address size) /\
     if ok then stored s s' address (replicate (Z.to_nat size) zero_byte) else s' = s).
Proof.
  intros Hr Hne. pose proof (reachable_wf s Hr) as Hs.
  split_and!.
  - intros Hw. pose proof (write_spec s address bytes ok s' Hs Hne Hw) as (Hiff & Ht & Hf).
    split; [done|]. destruct ok; [|by apply Hf]. split; [by apply Ht|].
    apply (view_stored s); [done| |by apply Ht].
    destruct Hiff as [Hi _]. destruct (Hi eq_refl) as (r & Hin & _). by exists r.
  - intros Hw. pose proof (patch_spec s address bytes ok s' Hs Hne Hw) as (Hiff & Ht & Hf).
    split; [done|]. destruct ok.
    + destruct (Ht eq_refl) as [Hok Hst]. split; [done|]. by apply (view_stored s).
    + unfold regions. by destruct (Hf eq_refl) as [-> _].
  - intros size Hsz Hw. pose proof (zero_spec s address size ok s' Hs Hsz Hw) as (Hiff & Ht & Hf).
    split; [done|]. destruct ok; [by apply Ht|by apply Hf].
Qed.

End Reachable.

(** ** Witnesses

    A host with pages of 16 bytes that grants every [mprotect] and maps
    where it is asked to, or at 64. *)

Definition tiny_host : HostOs := {|
  page_size := 16;
  os_mmap := fun _ size want =>
    if want =? 0 then (if 64 + size <=? u64_max then Some 64 else None)
    else if (0 <? want) && (want + size <=? u64_max) && (want mod 16 =? 0) then Some want else None;
  os_mprotect := fun _ _ _ _ => true |}.

Lemma tiny_host_laws : HostOsLaws tiny_host.
Proof.
  split; cbn; [lia|]. intros _ size want p. repeat case_match; intros; simplify_eq; bools.
  - split_and!; [lia|done|done].
  - split_and!; done.
Qed.

Definition tiny_mem : HostMem := mkHostMem (fun _ => zero_byte) (fun _ => PROT_NONE) 0.
Definition tiny_info (base size protection : Z) (kind : RegionKind) : RegionInfo :=
  mkRegionInfo base size protection "r" 100 0 kind true 0.

(** A native space with one read-write direct region of three pages. *)
Definition tiny_native : space :=
  match @reserve_native tiny_host tiny_mem 128 0 with
  | Some s => (@map_region tiny_host s (tiny_info 80 48 3 kind_direct)).2
  | None => mkSpace [] None tiny_mem
  end.
(** The same region in a buffered space. *)
Definition tiny_buffered : space :=
  (@map_region tiny_host (mkSpace [] None tiny_mem) (tiny_info 80 48 3 kind_direct)).2.

Lemma tiny_native_reachable : @reachable tiny_host tiny_native.
Proof.
  eapply (@reach_op tiny_host _ (OpMap (tiny_info 80 48 3 kind_direct)) true).
  - by apply (@reach_native tiny_host tiny_mem 128 0).
  - done.
  - reflexivity.
Qed.

Lemma tiny_buffered_reachable : @reachable tiny_host tiny_buffered.
Proof.
  eapply (@reach_op tiny_host _ (OpMap (tiny_info 80 48 3 kind_direct)) true).
  - apply (@reach_buffered tiny_host tiny_mem).
  - done.
  - reflexivity.
Qed.


Definition tiny_mapped : space :=
  (@map_region tiny_host tiny_buffered (tiny_info 200 8 1 kind_generic)).2.

Lemma map_adds_region_witness :
  cell_at tiny_mapped 203 = Some (cell_of (tiny_info 200 8 1 kind_generic) 203) /\
  same_at tiny_buffered tiny_mapped 90.
Proof.
  destruct (@map_adds_region tiny_host tiny_host_laws tiny_buffered
    (tiny_info 200 8 1 kind_generic) true tiny_mapped tiny_buffered_reachable)
    as (H & _); [by vm_compute|by vm_compute|reflexivity|].
  split; [exact (proj1 (proj2 (H eq_refl 203)))|exact (H eq_refl 90)].
Defined.

(** Cutting the middle page: two regions remain, the second one with its
    offset advanced. *)
Definition tiny_cut : space := (@unmap_range tiny_host tiny_native 96 16).2.

Lemma unmap_range_empties_exactly_the_range_witness :
  cell_at tiny_cut 100 = None /\ same_at tiny_native tiny_cut 115 /\
  map ri_offset (regions tiny_cut) = [100; 132].
Proof.
  destruct (@unmap_range_empties_exactly_the_range tiny_host tiny_host_laws tiny_native 96 16
    true tiny_cut tiny_native_reachable) as (H & _); [by vm_compute|by vm_compute|reflexivity|].
  split; [exact (proj1 (H eq_refl 100))|split; [exact (H eq_refl 115)|reflexivity]].
Defined.

Definition tiny_protected : space := (@protect_range tiny_host tiny_native 96 16 1).2.

Lemma protect_range_changes_only_the_range_witness :
  c_protection <$> cell_at tiny_protected 100 = Some 1 /\
  cell_at tiny_protected 115 = cell_at tiny_native 115.
Proof.
  destruct (@protect_range_changes_only_the_range tiny_host tiny_host_laws tiny_native 96 16 1
    true tiny_protected tiny_native_reachable) as (H & _);
    [by vm_compute|by vm_compute|reflexivity|].
  split; [rewrite (proj2 (H eq_refl 100)); reflexivity|exact (proj2 (H eq_refl 115))].
Defined.

Lemma stores_and_views_witness :
  exists s', write tiny_native 94 [Byte.x01; Byte.x02; Byte.x03] = Ok (true, s') /\
    view s' 94 3 = [Byte.x01; Byte.x02; Byte.x03].
Proof.
  destruct (write tiny_native 94 [Byte.x01; Byte.x02; Byte.x03]) as [[ok s']|e] eqn:E;
    [|vm_compute in E; discriminate E].
  destruct (@stores_and_views tiny_host tiny_host_laws tiny_native 94
    [Byte.x01; Byte.x02; Byte.x03] ok s' tiny_native_reachable) as (H & _); [discriminate|].
  destruct (H E) as [H1 H2].
  destruct ok; [exists s'; split; [reflexivity|exact (proj2 H2)]|vm_compute in E; discriminate E].
Defined.
