(* ===== verification/Elf64.v ===== *)
(** * ELF images

    [src/include/nyxora/loader/elf64.hpp] and [src/src/loader/elf64.cpp]:
    [Elf64Image::from_bytes], the only way an image comes to exist (reading the
    file in [from_file] is left to the operating system).  The packed structs of
    the source are read field by field, little-endian, at their offsets. *)

From S2P Require Import Prelude.

Local Open Scope Z_scope.

Definition kMachineX86_64 := 62.
Definition kTypeSceDynExec := 0xfe10.
Definition kTypeSceDynamic := 0xfe18.
Definition kProgramLoad := 1.
Definition kProgramDynamic := 2.
Definition kProgramTls := 7.
Definition kProgramSceDynlibData := 0x61000000.
Definition kProgramSceProcParam := 0x61000001.
Definition kProgramSceRelro := 0x61000010.

Record TlsSegment : Type := mkTlsSegment {
  tls_virtual_address : Z;
  tls_file_size : Z;
  tls_memory_size : Z;
  tls_alignment : Z;
}.

Record ProgramHeader : Type := mkProgramHeader {
  ph_type : Z;
  ph_flags : Z;
  ph_offset : Z;
  ph_virtual_address : Z;
  ph_physical_address : Z;
  ph_file_size : Z;
  ph_memory_size : Z;
  ph_alignment : Z;
}.

Record Elf64Image : Type := mkElf64Image {
  bytes_ : list byte;
  program_headers_ : list ProgramHeader;
  type_ : Z;
  entry_ : Z;
  tls_ : option TlsSegment;
}.

Definition is_sce_dynamic (image : Elf64Image) : bool :=
  (type_ image =? kTypeSceDynExec) || (type_ image =? kTypeSceDynamic).

(** ** Reading packed objects *)

(** The unsigned field of [n] bytes at an offset of an object. *)
Definition field (object : list byte) (off n : Z) : Z := le_decode (zslice object off n).

(** The [size] bytes of an object at an offset of the input. *)
Definition read_object (what : string) (size : Z) (bytes : list byte) (offset : Z)
  : result (list byte) :=
  throw_if ((zlen bytes <? offset) || (zlen bytes - offset <? size)) (runtime_error what) ;;
  Ok (zslice bytes offset size).

Definition elf_outside : string := "ELF structure lies outside the input image".

Definition range_fits (offset size image_size : Z) : bool :=
  if image_size <? offset then false else size <=? image_size - offset.

(** The fields of [RawElfHeader] that the parser reads. *)
Record RawElfHeader : Type := mkRawElfHeader {
  e_ident : list byte;
  e_type : Z;
  e_machine : Z;
  e_entry : Z;
  e_program_header_offset : Z;
  e_program_header_entry_size : Z;
  e_program_header_count : Z;
}.

Definition raw_elf_header (object : list byte) : RawElfHeader := {|
  e_ident := zslice object 0 16;
  e_type := field object 16 2;
  e_machine := field object 18 2;
  e_entry := field object 24 8;
  e_program_header_offset := field object 32 8;
  e_program_header_entry_size := field object 54 2;
  e_program_header_count := field object 56 2 |}.

Definition raw_program_header (object : list byte) : ProgramHeader := {|
  ph_type := field object 0 4;
  ph_flags := field object 4 4;
  ph_offset := field object 8 8;
  ph_virtual_address := field object 16 8;
  ph_physical_address := field object 24 8;
  ph_file_size := field object 32 8;
  ph_memory_size := field object 40 8;
  ph_alignment := field object 48 8 |}.

Definition elf_magic : list byte := map byte_of_Z [0x7f; 0x45; 0x4c; 0x46].

(** [header.ident[i]]. *)
Definition ident_at (h : RawElfHeader) (i : nat) : Z := byte_val (nth i (e_ident h) zero_byte).

(** ** The parser *)

(** One turn of the loop over the program-header table. *)
Definition parse_program_header (program_header_offset index : Z) (image : Elf64Image)
  : result Elf64Image :=
  let offset := wrap64 (program_header_offset + index * 56) in
  object ← read_object elf_outside 56 (bytes_ image) offset;
  let raw := raw_program_header object in
  throw_if (ph_memory_size raw <? ph_file_size raw)
    (runtime_error "ELF segment file size exceeds memory size") ;;
  throw_if (negb (ph_file_size raw =? 0)
            && negb (range_fits (ph_offset raw) (ph_file_size raw) (zlen (bytes_ image))))
    (runtime_error "ELF segment data is outside the input image") ;;
  tls ← (if ph_type raw =? kProgramTls
         then match tls_ image with
              | Some _ => Throw (runtime_error "ELF contains multiple PT_TLS segments")
              | None => Ok (Some (mkTlsSegment (ph_virtual_address raw) (ph_file_size raw)
                                    (ph_memory_size raw) (ph_alignment raw)))
              end
         else Ok (tls_ image));
  Ok (mkElf64Image (bytes_ image) (program_headers_ image ++ [raw]) (type_ image)
        (entry_ image) tls).

Fixpoint parse_program_headers (count : nat) (program_header_offset index : Z)
    (image : Elf64Image) : result Elf64Image :=
  match count with
  | O => Ok image
  | S count =>
      image ← parse_program_header program_header_offset index image;
      parse_program_headers count program_header_offset (index + 1) image
  end.

Definition from_bytes (bytes : list byte) : result Elf64Image :=
  object ← read_object elf_outside 64 bytes 0;
  let header := raw_elf_header object in
  throw_if (negb (bool_decide (take 4 (e_ident header) = elf_magic)))
    (runtime_error "input is not an ELF image") ;;
  throw_if (negb (ident_at header 4 =? 2) || negb (ident_at header 5 =? 1)
            || negb (ident_at header 6 =? 1))
    (runtime_error "only 64-bit little-endian ELF v1 images are supported") ;;
  throw_if (negb (e_machine header =? kMachineX86_64))
    (runtime_error "ELF image is not x86-64") ;;
  throw_if (negb (e_program_header_entry_size header =? 56))
    (runtime_error "unexpected ELF program-header entry size") ;;
  let table_size := e_program_header_count header * 56 in
  throw_if (negb (range_fits (e_program_header_offset header) table_size (zlen bytes)))
    (runtime_error "ELF program-header table is outside the input image") ;;
  parse_program_headers (Z.to_nat (e_program_header_count header))
    (e_program_header_offset header) 0
    (mkElf64Image bytes [] (e_type header) (e_entry header) None).

(** ** What an image satisfies *)

Record header_wf (bytes : list byte) (h : ProgramHeader) : Prop := {
  ph_wf_type : in_u32 (ph_type h);
  ph_wf_flags : in_u32 (ph_flags h);
  ph_wf_offset : in_u64 (ph_offset h);
  ph_wf_virtual : in_u64 (ph_virtual_address h);
  ph_wf_physical : in_u64 (ph_physical_address h);
  ph_wf_alignment : in_u64 (ph_alignment h);
  ph_wf_memory : 0 <= ph_file_size h <= ph_memory_size h /\ ph_memory_size h < u64_mod;
  ph_wf_data : ph_file_size h <> 0 -> ph_offset h + ph_file_size h <= zlen bytes;
}.

Definition tls_of (h : ProgramHeader) : TlsSegment :=
  mkTlsSegment (ph_virtual_address h) (ph_file_size h) (ph_memory_size h) (ph_alignment h).

Definition is_tls (h : ProgramHeader) : Prop := ph_type h = kProgramTls.

Record image_wf (image : Elf64Image) : Prop := {
  image_headers : Forall (header_wf (bytes_ image)) (program_headers_ image);
  image_tls : map tls_of (filter is_tls (program_headers_ image)) = option_list (tls_ image);
}.

(** ** Lemmas *)

Lemma zslice_length_eq {A} (l : list A) off n :
  0 <= off -> 0 <= n -> off + n <= zlen l -> length (zslice l off n) = Z.to_nat n.
Proof. intros. pose proof (zslice_length l off n). lia. Qed.

Lemma field_range object off n :
  0 <= n -> 0 <= field object off n < 256 ^ n.
Proof.
  intros Hn. unfold field. pose proof (le_decode_bound (zslice object off n)) as Hb.
  assert (256 ^ zlen (zslice object off n) <= 256 ^ n); [|lia].
  apply Z.pow_le_mono_r; [lia|]. unfold zslice. rewrite length_take. lia.
Qed.

Lemma raw_program_header_range object :
  let h := raw_program_header object in
  in_u32 (ph_type h) /\ in_u32 (ph_flags h) /\ in_u64 (ph_offset h) /\
  in_u64 (ph_virtual_address h) /\ in_u64 (ph_physical_address h) /\
  in_u64 (ph_file_size h) /\ in_u64 (ph_memory_size h) /\ in_u64 (ph_alignment h).
Proof.
  cbn. pose proof (fun o => field_range object o 4 ltac:(lia)) as H4.
  pose proof (fun o => field_range object o 8 ltac:(lia)) as H8. unfold in_u32, in_u64.
  change (256 ^ 4) with u32_mod in H4. change (256 ^ 8) with u64_mod in H8.
  split_and!; apply H4 || apply H8.
Qed.

#[local] Opaque raw_program_header.

Lemma read_object_no_ub w n bs o : ~ is_ub (read_object w n bs o).
Proof. unfold read_object. auto with no_ub. Qed.
#[export] Hint Resolve read_object_no_ub : no_ub.

Lemma parse_program_header_wf pho i image image' :
  parse_program_header pho i image = Ok image' -> image_wf image ->
  bytes_ image' = bytes_ image /\ type_ image' = type_ image /\ entry_ image' = entry_ image /\
  length (program_headers_ image') = S (length (program_headers_ image)) /\ image_wf image'.
Proof.
  unfold parse_program_header. intros H [Hh Ht]. inv_result.
  rename r2 into tls.
  pose proof (raw_program_header_range r) as (? & ? & ? & ? & ? & ? & ? & ?).
  set (raw := raw_program_header r) in *.
  split_and!; try done; [cbn; rewrite length_app; cbn; lia|]. split; cbn.
  - apply Forall_app. split; [done|]. constructor; [|done]. unfold in_u64 in *. bools.
    split; try done; [unfold in_u64; lia|]. intros Hfs. unfold range_fits in Hr1.
    apply andb_false_iff in Hr1 as [Hr1|Hr1]; bools; [done|].
    destruct (Z.ltb_spec (zlen (bytes_ image)) (ph_offset raw)); [done|]. bools. lia.
  - rewrite filter_app, map_app, Ht. unfold is_tls at 1. rewrite filter_cons, filter_nil.
    destruct (Z.eqb_spec (ph_type raw) kProgramTls) as [He|He].
    + rewrite decide_True by done. destruct (tls_ image); [done|]. inv_result. done.
    + rewrite decide_False by done. inv_result. cbn. by rewrite app_nil_r.
Qed.

Lemma parse_program_headers_wf n pho i image image' :
  parse_program_headers n pho i image = Ok image' -> image_wf image ->
  bytes_ image' = bytes_ image /\ type_ image' = type_ image /\ entry_ image' = entry_ image /\
  length (program_headers_ image') = (length (program_headers_ image) + n)%nat /\ image_wf image'.
Proof.
  revert i image. induction n as [|n IH]; intros i image H Hwf; cbn in H; inv_result.
  - split_and!; done || lia.
  - apply parse_program_header_wf in Hr as (Hb & Ht & He & Hl & Hw); [|done].
    apply IH in H as (-> & -> & -> & -> & ?); [|done]. split_and!; done || lia.
Qed.

(** ** Writing images *)

Definition encode_header (h : ProgramHeader) : list byte :=
  le_encode 4 (ph_type h) ++ le_encode 4 (ph_flags h) ++ le_encode 8 (ph_offset h) ++
  le_encode 8 (ph_virtual_address h) ++ le_encode 8 (ph_physical_address h) ++
  le_encode 8 (ph_file_size h) ++ le_encode 8 (ph_memory_size h) ++ le_encode 8 (ph_alignment h).

(** The file header of an image whose program-header table follows it. *)
Definition encode_elf_header (type entry count : Z) : list byte :=
  elf_magic ++ map byte_of_Z [2; 1; 1] ++ replicate 9 zero_byte ++
  le_encode 2 type ++ le_encode 2 kMachineX86_64 ++ le_encode 4 1 ++ le_encode 8 entry ++
  le_encode 8 64 ++ le_encode 8 0 ++ le_encode 4 0 ++ le_encode 2 64 ++ le_encode 2 56 ++
  le_encode 2 count ++ le_encode 2 0 ++ le_encode 2 0 ++ le_encode 2 0.

Definition encode_elf (type entry : Z) (hs : list ProgramHeader) (payload : list byte)
  : list byte :=
  encode_elf_header type entry (zlen hs) ++ (hs ≫= encode_header) ++ payload.

Lemma encode_header_length h : length (encode_header h) = 56%nat.
Proof. done. Qed.
Lemma encode_elf_header_length type entry count :
  length (encode_elf_header type entry count) = 64%nat.
Proof. done. Qed.

Lemma encode_headers_length hs : length (hs ≫= encode_header) = (56 * length hs)%nat.
Proof.
  induction hs as [|h hs IH]; [done|]. rewrite bind_cons, length_app, encode_header_length, IH.
  cbn. lia.
Qed.

Lemma zslice_middle {A} (l1 l2 l3 : list A) off n :
  off = zlen l1 -> n = zlen l2 -> zslice (l1 ++ l2 ++ l3) off n = l2.
Proof.
  intros -> ->. unfold zslice. rewrite !Nat2Z.id, drop_app_length. by rewrite take_app_length.
Qed.

Lemma read_object_middle w (l1 l2 l3 : list byte) off n :
  off = zlen l1 -> n = zlen l2 -> read_object w n (l1 ++ l2 ++ l3) off = Ok l2.
Proof.
  intros Ho Hn. unfold read_object. rewrite !length_app.
  destruct (Z.ltb_spec (Z.of_nat (length l1 + (length l2 + length l3))) off); [lia|].
  destruct (Z.ltb_spec (Z.of_nat (length l1 + (length l2 + length l3)) - off) n); [lia|].
  cbn. by rewrite zslice_middle.
Qed.

#[local] Transparent raw_program_header.

Lemma raw_encode_header bytes h :
  header_wf bytes h -> raw_program_header (encode_header h) = h.
Proof.
  intros [Ht Hf Ho Hv Hp Ha [Hm Hm'] _].
  change (raw_program_header (encode_header h)) with
    (mkProgramHeader (le_decode (le_encode 4 (ph_type h))) (le_decode (le_encode 4 (ph_flags h)))
       (le_decode (le_encode 8 (ph_offset h))) (le_decode (le_encode 8 (ph_virtual_address h)))
       (le_decode (le_encode 8 (ph_physical_address h))) (le_decode (le_encode 8 (ph_file_size h)))
       (le_decode (le_encode 8 (ph_memory_size h))) (le_decode (le_encode 8 (ph_alignment h)))).
  rewrite !le_decode_encode_u64, !le_decode_encode_u32 by (done || (unfold in_u64; lia)).
  by destruct h.
Qed.

#[local] Opaque raw_program_header.

Lemma raw_elf_header_encode type entry count :
  0 <= type < 65536 -> in_u64 entry -> 0 <= count < 65536 ->
  raw_elf_header (encode_elf_header type entry count) =
  mkRawElfHeader (elf_magic ++ map byte_of_Z [2; 1; 1] ++ replicate 9 zero_byte)
    type 62 entry 64 56 count.
Proof.
  intros Ht He Hc.
  change (raw_elf_header (encode_elf_header type entry count)) with
    (mkRawElfHeader (elf_magic ++ map byte_of_Z [2; 1; 1] ++ replicate 9 zero_byte)
      (le_decode (le_encode 2 type)) (le_decode (le_encode 2 kMachineX86_64))
      (le_decode (le_encode 8 entry)) (le_decode (le_encode 8 64))
      (le_decode (le_encode 2 56)) (le_decode (le_encode 2 count))).
  rewrite (le_decode_encode_u64 entry) by done. rewrite (le_decode_encode_u64 64) by done.
  rewrite !le_decode_encode. change (256 ^ Z.of_nat 2) with 65536.
  by rewrite !Z.mod_small by (done || lia).
Qed.

(** The loop reads the headers back. *)
Lemma parse_encoded_headers pre hs done_hs rest image :
  bytes_ image = pre ++ (done_hs ≫= encode_header) ++ (hs ≫= encode_header) ++ rest ->
  zlen (bytes_ image) < u64_mod -> zlen pre = 64 ->
  program_headers_ image = done_hs -> Forall (header_wf (bytes_ image)) hs ->
  (length (filter is_tls (done_hs ++ hs)) <= 1)%nat ->
  tls_ image = head (map tls_of (filter is_tls done_hs)) ->
  parse_program_headers (length hs) 64 (zlen done_hs) image =
  Ok (mkElf64Image (bytes_ image) (done_hs ++ hs) (type_ image) (entry_ image)
        (head (map tls_of (filter is_tls (done_hs ++ hs))))).
Proof.
  revert done_hs image. induction hs as [|h hs IH]; intros dn image Hb Hlen Hpre Hd Hh Htls Ht.
  { cbn. rewrite app_nil_r. rewrite <- Ht, <- Hd. by destruct image. }
  apply Forall_cons in Hh as [Hh Hhs]. cbn [length parse_program_headers].
  assert (parse_program_header 64 (zlen dn) image =
    Ok (mkElf64Image (bytes_ image) (dn ++ [h]) (type_ image) (entry_ image)
          (head (map tls_of (filter is_tls (dn ++ [h])))))) as ->.
  { unfold parse_program_header.
    assert (zlen dn * 56 + 120 <= zlen (bytes_ image)) as Hle.
    { rewrite Hb, !length_app, !encode_headers_length. cbn [length]. lia. }
    rewrite wrap64_small by (unfold in_u64; lia).
    assert (read_object elf_outside 56 (bytes_ image) (64 + zlen dn * 56) = Ok (encode_header h))
      as ->.
    { rewrite Hb, bind_cons, app_assoc, <- (app_assoc (encode_header h)).
      apply read_object_middle; [|done]. rewrite length_app, encode_headers_length. lia. }
    cbn [mbind result_bind]. rewrite (raw_encode_header (bytes_ image)) by done.
    destruct Hh as [_ _ Ho _ _ _ [Hm _] Hdata].
    destruct (Z.ltb_spec (ph_memory_size h) (ph_file_size h)); [lia|]. cbn [throw_if mbind result_bind].
    replace (negb (ph_file_size h =? 0) && _) with false.
    2: { unfold range_fits. destruct (Z.eqb_spec (ph_file_size h) 0); [done|].
         specialize (Hdata n). destruct (Z.ltb_spec (zlen (bytes_ image)) (ph_offset h)); [lia|].
         destruct (Z.leb_spec (ph_file_size h) (zlen (bytes_ image) - ph_offset h)); [done|lia]. }
    cbn [throw_if mbind result_bind]. rewrite Hd.
    rewrite filter_app, map_app, filter_cons, filter_nil. unfold is_tls at 2.
    destruct (Z.eqb_spec (ph_type h) kProgramTls) as [He|He].
    - rewrite decide_True by done. rewrite Ht.
      rewrite filter_app, filter_cons, decide_True in Htls by done.
      rewrite length_app in Htls. cbn in Htls.
      destruct (filter is_tls dn) as [|x l] eqn:Hfl; [done|]. cbn in Htls. lia.
    - rewrite decide_False by done. cbn. by rewrite app_nil_r, Ht. }
  cbn [mbind result_bind].
  replace (zlen dn + 1) with (zlen (dn ++ [h])) by (rewrite length_app; cbn; lia).
  rewrite (IH (dn ++ [h])); cbn [bytes_ program_headers_ type_ entry_ tls_]; rewrite <- ?app_assoc;
    try done. rewrite Hb, bind_app, !bind_cons. cbn. by rewrite <- !app_assoc.
Qed.

Lemma from_bytes_wf bytes image :
  from_bytes bytes = Ok image -> bytes_ image = bytes /\ image_wf image.
Proof.
  unfold from_bytes. intros H. inv_result.
  apply parse_program_headers_wf in H as (Hb & _ & _ & _ & Hw); [|by split]. done.
Qed.

Lemma parse_program_headers_no_ub n pho i image :
  ~ is_ub (parse_program_headers n pho i image).
Proof.
  revert i image. induction n as [|n IH]; intros i image; cbn; [auto with no_ub|].
  apply bind_no_ub; [|auto]. unfold parse_program_header.
  repeat (case_match || (apply bind_no_ub; [auto with no_ub|intros ? _])); auto with no_ub;
    apply bind_no_ub; auto with no_ub.
Qed.

(** ** Properties *)


(** images written to a file are read back.  The file made of an ELF
    header, the program headers and any further bytes is accepted, and the image
    has the type, the entry point and the headers it was written with, provided
    the headers are what an ELF file may hold: fields in range, data inside the
    file, at most one thread-local segment. *)
Theorem from_bytes_encode_elf type entry hs payload :
  0 <= type < 65536 -> in_u64 entry -> zlen hs < 65536 ->
  zlen (encode_elf type entry hs payload) < u64_mod ->
  Forall (header_wf (encode_elf type entry hs payload)) hs ->
  (length (filter is_tls hs) <= 1)%nat ->
  from_bytes (encode_elf type entry hs payload) =
  Ok (mkElf64Image (encode_elf type entry hs payload) hs type entry
        (head (map tls_of (filter is_tls hs)))).
Proof.
  intros Ht He Hn Hlen Hwf Htls. set (file := encode_elf type entry hs payload) in *.
  assert (file = [] ++ encode_elf_header type entry (zlen hs) ++ (hs ≫= encode_header) ++ payload)
    as Hfile by done.
  unfold from_bytes. rewrite Hfile at 1. rewrite read_object_middle by done.
  cbn [mbind result_bind]. rewrite raw_elf_header_encode by (done || lia).
  cbn [e_ident e_type e_machine e_entry e_program_header_offset e_program_header_entry_size
    e_program_header_count].
  assert (range_fits 64 (zlen hs * 56) (zlen file) = true) as Hfit.
  { unfold range_fits. assert (zlen file = 64 + 56 * zlen hs + zlen payload) as Hl.
    { unfold file, encode_elf. rewrite !length_app, encode_headers_length,
        encode_elf_header_length. lia. }
    destruct (Z.ltb_spec (zlen file) 64); [lia|].
    destruct (Z.leb_spec (zlen hs * 56) (zlen file - 64)); [done|lia]. }
  rewrite Hfit. cbn [negb throw_if mbind result_bind Z.eqb].
  rewrite Nat2Z.id.
  rewrite bool_decide_true by done.
  change (ident_at _ 4) with 2. change (ident_at _ 5) with 1. change (ident_at _ 6) with 1.
  cbn [negb orb throw_if mbind result_bind Z.eqb Pos.eqb kMachineX86_64].
  change (parse_program_headers (length hs) 64 0 ?i) with
    (parse_program_headers (length hs) 64 (zlen (@nil ProgramHeader)) i).
  rewrite (parse_encoded_headers (encode_elf_header type entry (zlen hs)) hs [] payload); done.
Qed.

(** ** Witnesses *)

Definition sample_load : ProgramHeader := mkProgramHeader kProgramLoad 5 176 0x1000 0 2 16 4096.
Definition sample_tls : ProgramHeader := mkProgramHeader kProgramTls 4 176 0x1000 0 0 8 16.
Definition sample_file : list byte := encode_elf kTypeSceDynamic 0x1000 [sample_load; sample_tls]
  [Byte.x90; Byte.xc3].

Lemma sample_header_wf h : h ∈ [sample_load; sample_tls] -> header_wf sample_file h.
Proof.
  intros Hh. repeat apply elem_of_cons in Hh as [->|Hh]; [..|by apply elem_of_nil in Hh];
    (split; [by vm_compute..|split; [by split|by vm_compute]|by vm_compute]).
Qed.

Lemma from_bytes_encode_elf_witness :
  from_bytes sample_file = Ok (mkElf64Image sample_file [sample_load; sample_tls] kTypeSceDynamic
    0x1000 (Some (mkTlsSegment 0x1000 0 8 16))).
Proof.
  apply (from_bytes_encode_elf kTypeSceDynamic 0x1000 [sample_load; sample_tls]
    [Byte.x90; Byte.xc3]); [by split|by split|by vm_compute|by vm_compute| |by vm_compute; lia].
  apply Forall_forall. exact sample_header_wf.
Defined.
