(* ===== verification/Dynamic.v ===== *)
(** * Dynamic sections

    [src/include/nyxora/loader/dynamic.hpp] and [src/src/loader/dynamic.cpp]:
    [parse_dynamic_info] and everything it calls.  [std::span::subspan] has no
    meaning outside its span, so [subspan] is [undefined_behaviour] there and
    the safety theorem has to rule it out; the [bool&] results of the source
    are returned in pairs. *)

From Stdlib Require Import Strings.String Strings.Ascii.
From S2P Require Import Prelude Elf64.

Local Open Scope Z_scope.

(** ** Tags *)

Definition kDynamicNull := 0.
Definition kDynamicNeeded := 1.
Definition kDynamicPltRelSize := 2.
Definition kDynamicPltGot := 3.
Definition kDynamicHash := 4.
Definition kDynamicStringTable := 5.
Definition kDynamicSymbolTable := 6.
Definition kDynamicRela := 7.
Definition kDynamicRelaSize := 8.
Definition kDynamicRelaEntrySize := 9.
Definition kDynamicStringTableSize := 10.
Definition kDynamicSymbolEntrySize := 11.
Definition kDynamicInit := 12.
Definition kDynamicFini := 13.
Definition kDynamicSoName := 14.
Definition kDynamicRPath := 15.
Definition kDynamicPltRel := 20.
Definition kDynamicJumpRel := 23.
Definition kDynamicInitArray := 25.
Definition kDynamicFiniArray := 26.
Definition kDynamicInitArraySize := 27.
Definition kDynamicFiniArraySize := 28.
Definition kDynamicRunPath := 29.
Definition kDynamicPreinitArray := 32.
Definition kDynamicPreinitArraySize := 33.
Definition kDynamicRelaCount := 0x6ffffff9.
Definition kDynamicSceOriginalFilename := 0x61000009.
Definition kDynamicSceModuleInfo := 0x6100000d.
Definition kDynamicSceNeededModule := 0x6100000f.
Definition kDynamicSceExportLib := 0x61000013.
Definition kDynamicSceImportLib := 0x61000015.
Definition kDynamicScePltGot := 0x61000027.
Definition kDynamicSceJumpRel := 0x61000029.
Definition kDynamicScePltRel := 0x6100002b.
Definition kDynamicScePltRelSize := 0x6100002d.
Definition kDynamicSceRela := 0x6100002f.
Definition kDynamicSceRelaSize := 0x61000031.
Definition kDynamicSceRelaEntrySize := 0x61000033.
Definition kDynamicSceStringTable := 0x61000035.
Definition kDynamicSceStringTableSize := 0x61000037.
Definition kDynamicSceSymbolTable := 0x61000039.
Definition kDynamicSceSymbolEntrySize := 0x6100003b.
Definition kDynamicSceSymbolTableSize := 0x6100003f.
Definition kDynamicSceOriginalFilename1 := 0x61000041.
Definition kDynamicSceModuleInfo1 := 0x61000043.
Definition kDynamicSceNeededModule1 := 0x61000045.
Definition kDynamicSceExportLib1 := 0x61000047.
Definition kDynamicSceImportLib1 := 0x61000049.

(** ** Data *)

Record DynamicEntry : Type := mkDynamicEntry { de_tag : Z; de_value : Z }.

Record DynamicSymbol : Type := mkDynamicSymbol {
  ds_name_offset : Z;
  ds_info : Z;
  ds_other : Z;
  ds_section_index : Z;
  ds_value : Z;
  ds_size : Z;
  ds_name : string;
}.

Definition binding (s : DynamicSymbol) : Z := Z.shiftr (ds_info s) 4.
Definition symbol_type (s : DynamicSymbol) : Z := Z.land (ds_info s) 0x0f.

Record Relocation : Type := mkRelocation { r_offset : Z; r_info : Z; r_addend : Z }.

Definition symbol_index (r : Relocation) : Z := wrap32 (Z.shiftr (r_info r) 32).
Definition relocation_type (r : Relocation) : Z := wrap32 (Z.land (r_info r) 0xffffffff).

Record ModuleReference : Type := mkModuleReference {
  mr_id : Z;
  mr_version_major : Z;
  mr_version_minor : Z;
  mr_encoded_id : string;
  mr_name : string;
}.

Record LibraryReference : Type := mkLibraryReference {
  lr_id : Z;
  lr_version : Z;
  lr_encoded_id : string;
  lr_name : string;
}.

Record DynamicInfo : Type := mkDynamicInfo {
  sce_layout : bool;
  entries : list DynamicEntry;
  string_table : list byte;
  symbols : list DynamicSymbol;
  relocations : list Relocation;
  plt_relocations : list Relocation;
  needed : list string;
  so_name : string;
  rpath : string;
  runpath : string;
  original_filename : string;
  import_modules : list ModuleReference;
  export_modules : list ModuleReference;
  import_libraries : list LibraryReference;
  export_libraries : list LibraryReference;
  init : Z;
  fini : Z;
  init_array : Z;
  init_array_size : Z;
  fini_array : Z;
  fini_array_size : Z;
  preinit_array : Z;
  preinit_array_size : Z;
  plt_got : Z;
  relative_count : Z;
}.

(** ** Spans and lookups *)

(** [std::span::subspan]. *)
Definition subspan (bytes : list byte) (offset count : Z) : result (list byte) :=
  throw_if ((zlen bytes <? offset) || (zlen bytes - offset <? count))
    (undefined_behaviour "subspan outside its span") ;;
  Ok (zslice bytes offset count).

Definition checked_add (lhs rhs : Z) : option Z :=
  if u64_max - rhs <? lhs then None else Some (lhs + rhs).

Definition file_segment (image : Elf64Image) (header : ProgramHeader) : result (list byte) :=
  throw_if ((zlen (bytes_ image) <? ph_offset header)
            || (zlen (bytes_ image) - ph_offset header <? ph_file_size header))
    (runtime_error "ELF segment is outside the input image") ;;
  subspan (bytes_ image) (ph_offset header) (ph_file_size header).

Definition find_header (image : Elf64Image) (type : Z) : option ProgramHeader :=
  head (filter (fun h => ph_type h = type) (program_headers_ image)).

(** The loop over the headers of [virtual_file_span]. *)
Fixpoint virtual_file_span_in (bytes : list byte) (headers : list ProgramHeader)
    (address size end_ : Z) : result (list byte) :=
  match headers with
  | [] => Throw (runtime_error "dynamic virtual address is not backed by an ELF load segment")
  | header :: headers =>
      let continue_ := virtual_file_span_in bytes headers address size end_ in
      if negb (ph_type header =? kProgramLoad) && negb (ph_type header =? kProgramSceRelro)
      then continue_
      else
        match checked_add (ph_virtual_address header) (ph_file_size header) with
        | None => continue_
        | Some file_end =>
            if (address <? ph_virtual_address header) || (file_end <? end_) then continue_
            else
              let inside := address - ph_virtual_address header in
              let file_offset := wrap64 (ph_offset header + inside) in
              subspan bytes file_offset size
        end
  end.

Definition virtual_file_span (image : Elf64Image) (address size : Z) : result (list byte) :=
  match checked_add address size with
  | None => Throw (runtime_error "dynamic virtual-address range overflows")
  | Some end_ =>
      virtual_file_span_in (bytes_ image) (program_headers_ image) address size end_
  end.

Definition all_values (entries : list DynamicEntry) (tag : Z) : list Z :=
  map de_value (filter (fun e => de_tag e = tag) entries).

Definition first_value (entries : list DynamicEntry) (tag : Z) : option Z :=
  de_value <$> head (filter (fun e => de_tag e = tag) entries).

(** [first_value(...).value_or(0)]. *)
Definition value_or_0 (entries : list DynamicEntry) (tag : Z) : Z :=
  default 0 (first_value entries tag).

(** [exclusive_value]: the value and whether it is the SCE one. *)
Definition exclusive_value (entries : list DynamicEntry) (sce_tag generic_tag : Z)
  : result (option Z * bool) :=
  match first_value entries sce_tag, first_value entries generic_tag with
  | Some _, Some _ =>
      Throw (runtime_error "ELF mixes SCE and generic dynamic tags for the same table")
  | Some v, None => Ok (Some v, true)
  | None, v => Ok (v, false)
  end.

(** The bytes before the first zero, when there is one. *)
Fixpoint until_nul (bytes : list byte) : option (list byte) :=
  match bytes with
  | [] => None
  | b :: bytes =>
      if bool_decide (b = zero_byte) then Some []
      else (fun rest => b :: rest) <$> until_nul bytes
  end.

Definition string_at (table : list byte) (offset : Z) : result string :=
  throw_if (zlen table <=? offset)
    (runtime_error "dynamic string offset is outside the string table") ;;
  match until_nul (drop (Z.to_nat offset) table) with
  | None => Throw (runtime_error "dynamic string is not NUL terminated")
  | Some bs => Ok (string_of_list_byte bs)
  end.

(** [resolve_table]: the table and whether it came from the SCE segment. *)
Definition resolve_table (image : Elf64Image) (sce_dynamic_data : option ProgramHeader)
    (entries : list DynamicEntry) (sce_pointer_tag generic_pointer_tag size : Z)
  : result (list byte * bool) :=
  '(pointer, sce_pointer) ← exclusive_value entries sce_pointer_tag generic_pointer_tag;
  match pointer with
  | None => Ok ([], false)
  | Some pointer =>
      if sce_pointer : bool then
        match sce_dynamic_data with
        | None => Throw (runtime_error "SCE dynamic table references missing PT_SCE_DYNLIBDATA")
        | Some header =>
            data ← file_segment image header;
            throw_if ((zlen data <? pointer) || (zlen data - pointer <? size))
              (runtime_error "SCE dynamic table lies outside PT_SCE_DYNLIBDATA") ;;
            table ← subspan data pointer size;
            Ok (table, true)
        end
      else
        table ← virtual_file_span image pointer size;
        Ok (table, false)
  end.

(** ** Tables *)

Definition dynamic_outside : string := "dynamic ELF structure lies outside its table".

(** A signed 64-bit field. *)
Definition field_i64 (object : list byte) (off : Z) : Z := to_i64 (field object off 8).

Definition raw_relocation (object : list byte) : Relocation :=
  mkRelocation (field object 0 8) (field object 8 8) (field_i64 object 16).

Fixpoint parse_relocation_loop (fuel : nat) (bytes : list byte) (offset : Z)
    (acc : list Relocation) : result (list Relocation) :=
  match fuel with
  | O => Throw (undefined_behaviour "loop without end")
  | S fuel =>
      if offset <? zlen bytes then
        object ← read_object dynamic_outside 24 bytes offset;
        parse_relocation_loop fuel bytes (offset + 24) (acc ++ [raw_relocation object])
      else Ok acc
  end.

Definition parse_relocations (bytes : list byte) (entry_size : Z) : result (list Relocation) :=
  match bytes with
  | [] => Ok []
  | _ =>
      throw_if (negb (entry_size =? 24) || negb (zlen bytes mod entry_size =? 0))
        (runtime_error "unsupported ELF RELA entry size") ;;
      parse_relocation_loop (S (length bytes)) bytes 0 []
  end.

Definition sce_alphabet : string :=
  "ABCDEFGHIJKLMNOPQRSTUVWXYZabcdefghijklmnopqrstuvwxyz0123456789+-".

(** [alphabet[i]]. *)
Definition alphabet_at (i : Z) : ascii :=
  match String.get (Z.to_nat i) sce_alphabet with Some c => c | None => "000"%char end.

Definition encode_sce_id (id : Z) : string :=
  if id <? 0x40 then String (alphabet_at id) EmptyString
  else if id <? 0x1000 then
    String (alphabet_at (Z.land (Z.shiftr id 6) 0x3f))
      (String (alphabet_at (Z.land id 0x3f)) EmptyString)
  else
    String (alphabet_at (Z.land (Z.shiftr id 12) 0x3f))
      (String (alphabet_at (Z.land (Z.shiftr id 6) 0x3f))
        (String (alphabet_at (Z.land id 0x3f)) EmptyString)).

Definition module_reference (table : list byte) (packed : Z) : result ModuleReference :=
  let id := Z.land (Z.shiftr packed 48) 0xffff in
  name ← string_at table (Z.land packed 0xffffffff);
  Ok (mkModuleReference id (Z.land (Z.shiftr packed 40) 0xff) (Z.land (Z.shiftr packed 32) 0xff)
        (encode_sce_id id) name).

Definition library_reference (table : list byte) (packed : Z) : result LibraryReference :=
  let id := Z.land (Z.shiftr packed 48) 0xffff in
  name ← string_at table (Z.land packed 0xffffffff);
  Ok (mkLibraryReference id (Z.land (Z.shiftr packed 32) 0xffff) (encode_sce_id id) name).

(** A loop that appends the result of each step. *)
Fixpoint map_result {A B} (f : A -> result B) (l : list A) : result (list B) :=
  match l with
  | [] => Ok []
  | a :: l => b ← f a; bs ← map_result f l; Ok (b :: bs)
  end.

(** [append_modules] and [append_libraries]. *)
Definition append_modules (table : list byte) (entries : list DynamicEntry) (tag : Z)
    (modules : list ModuleReference) : result (list ModuleReference) :=
  new ← map_result (module_reference table) (all_values entries tag);
  Ok (modules ++ new).

Definition append_libraries (table : list byte) (entries : list DynamicEntry) (tag : Z)
    (libraries : list LibraryReference) : result (list LibraryReference) :=
  new ← map_result (library_reference table) (all_values entries tag);
  Ok (libraries ++ new).

Definition raw_symbol (object : list byte) : DynamicSymbol :=
  mkDynamicSymbol (field object 0 4) (field object 4 1) (field object 5 1) (field object 6 2)
    (field object 8 8) (field object 16 8) "".

Definition with_name (s : DynamicSymbol) (name : string) : DynamicSymbol :=
  mkDynamicSymbol (ds_name_offset s) (ds_info s) (ds_other s) (ds_section_index s) (ds_value s)
    (ds_size s) name.

(** One symbol of the table. *)
Definition parse_symbol (table symbol_bytes : list byte) (index : Z) : result DynamicSymbol :=
  object ← read_object dynamic_outside 24 symbol_bytes (wrap64 (index * 24));
  let symbol := raw_symbol object in
  if negb (ds_name_offset symbol =? 0) then
    throw_if (bool_decide (table = []))
      (runtime_error "ELF symbol name requires a string table") ;;
    name ← string_at table (ds_name_offset symbol);
    Ok (with_name symbol name)
  else Ok symbol.

(** The loop over [PT_DYNAMIC]: the entries before the first [DT_NULL]. *)
Fixpoint parse_entries (fuel : nat) (bytes : list byte) (offset : Z) (acc : list DynamicEntry)
  : result (list DynamicEntry) :=
  match fuel with
  | O => Throw (undefined_behaviour "loop without end")
  | S fuel =>
      if offset + 16 <=? zlen bytes then
        object ← read_object dynamic_outside 16 bytes offset;
        let raw := mkDynamicEntry (field_i64 object 0) (field object 8 8) in
        if de_tag raw =? kDynamicNull then Ok acc
        else parse_entries fuel bytes (offset + 16) (acc ++ [raw])
      else Throw (runtime_error "ELF PT_DYNAMIC has no DT_NULL terminator")
  end.

(** ** [parse_dynamic_info]

    One definition per block of the function, in its order; [sce] is the value
    [info.sce_layout] has so far. *)

Definition parse_string_table (image : Elf64Image) (sce_dynamic_data : option ProgramHeader)
    (entries : list DynamicEntry) : result (list byte * bool) :=
  '(pointer, is_sce) ← exclusive_value entries kDynamicSceStringTable kDynamicStringTable;
  let size := value_or_0 entries
    (if is_sce : bool then kDynamicSceStringTableSize else kDynamicStringTableSize) in
  match pointer with
  | None => Ok ([], false)
  | Some pointer =>
      throw_if (size =? 0) (runtime_error "dynamic string table has no size") ;;
      if is_sce then
        match sce_dynamic_data with
        | None => Throw (runtime_error "SCE string table requires PT_SCE_DYNLIBDATA")
        | Some header =>
            data ← file_segment image header;
            throw_if ((zlen data <? pointer) || (zlen data - pointer <? size))
              (runtime_error "SCE string table lies outside PT_SCE_DYNLIBDATA") ;;
            strings ← subspan data pointer size;
            Ok (strings, true)
        end
      else
        strings ← virtual_file_span image pointer size;
        Ok (strings, false)
  end.

Definition has_tag (entries : list DynamicEntry) (tag : Z) : bool :=
  match first_value entries tag with Some _ => true | None => false end.

Definition parse_rela (image : Elf64Image) (sce_dynamic_data : option ProgramHeader)
    (entries : list DynamicEntry) (sce : bool) : result (list Relocation * bool) :=
  let is_sce := has_tag entries kDynamicSceRela in
  let rela_size := value_or_0 entries
    (if is_sce then kDynamicSceRelaSize else kDynamicRelaSize) in
  if negb (rela_size =? 0) then
    let rela_entry_size := value_or_0 entries
      (if is_sce then kDynamicSceRelaEntrySize else kDynamicRelaEntrySize) in
    '(rela_bytes, from_sce) ←
      resolve_table image sce_dynamic_data entries kDynamicSceRela kDynamicRela rela_size;
    rs ← parse_relocations rela_bytes rela_entry_size;
    Ok (rs, sce || from_sce)
  else Ok ([], sce).

Definition parse_plt (image : Elf64Image) (sce_dynamic_data : option ProgramHeader)
    (entries : list DynamicEntry) (sce : bool) : result (list Relocation * bool) :=
  let is_sce := has_tag entries kDynamicSceJumpRel in
  let plt_size := value_or_0 entries
    (if is_sce then kDynamicScePltRelSize else kDynamicPltRelSize) in
  if negb (plt_size =? 0) then
    let plt_kind := value_or_0 entries
      (if is_sce then kDynamicScePltRel else kDynamicPltRel) in
    throw_if (negb (plt_kind =? kDynamicRela))
      (runtime_error "only RELA PLT relocations are supported") ;;
    '(plt_bytes, from_sce) ←
      resolve_table image sce_dynamic_data entries kDynamicSceJumpRel kDynamicJumpRel plt_size;
    rs ← parse_relocations plt_bytes 24;
    Ok (rs, sce || from_sce)
  else Ok ([], sce).

(** The number of symbols when there is no hash table: one more than the
    highest index a relocation uses. *)
Definition symbols_used (rs : list Relocation) (count : Z) : Z :=
  foldl (fun count r => Z.max count (symbol_index r + 1)) count rs.

Definition symbol_count (image : Elf64Image) (entries : list DynamicEntry)
    (relocations plt_relocations : list Relocation) : result Z :=
  let sce_symbols := has_tag entries kDynamicSceSymbolTable in
  let symbol_entry_size := value_or_0 entries
    (if sce_symbols then kDynamicSceSymbolEntrySize else kDynamicSymbolEntrySize) in
  if sce_symbols then
    let symbol_bytes := value_or_0 entries kDynamicSceSymbolTableSize in
    if negb (symbol_bytes =? 0) then
      throw_if (negb (symbol_entry_size =? 24) || negb (symbol_bytes mod symbol_entry_size =? 0))
        (runtime_error "unsupported SCE symbol-table entry size") ;;
      Ok (symbol_bytes / symbol_entry_size)
    else Ok 0
  else if has_tag entries kDynamicSymbolTable then
    throw_if (negb (symbol_entry_size =? 0) && negb (symbol_entry_size =? 24))
      (runtime_error "unsupported ELF symbol-table entry size") ;;
    match first_value entries kDynamicHash with
    | Some hash_pointer =>
        hash_header ← virtual_file_span image hash_pointer 8;
        Ok (field hash_header 4 4)
    | None => Ok (symbols_used plt_relocations (symbols_used relocations 0))
    end
  else Ok 0.

Definition parse_symbols (image : Elf64Image) (sce_dynamic_data : option ProgramHeader)
    (entries : list DynamicEntry) (table : list byte) (count : Z) (sce : bool)
  : result (list DynamicSymbol * bool) :=
  if negb (count =? 0) then
    '(symbol_bytes, from_sce) ←
      resolve_table image sce_dynamic_data entries kDynamicSceSymbolTable kDynamicSymbolTable
        (wrap64 (count * 24));
    ss ← map_result (fun i => parse_symbol table symbol_bytes (Z.of_nat i))
           (seq 0 (Z.to_nat count));
    Ok (ss, sce || from_sce)
  else Ok ([], sce).

(** The strings and references that need a string table. *)
Record Names : Type := mkNames {
  n_needed : list string;
  n_so_name : string;
  n_rpath : string;
  n_runpath : string;
  n_original_filename : string;
  n_import_modules : list ModuleReference;
  n_export_modules : list ModuleReference;
  n_import_libraries : list LibraryReference;
  n_export_libraries : list LibraryReference;
}.

Definition optional_string (table : list byte) (offset : option Z) : result string :=
  match offset with None => Ok EmptyString | Some offset => string_at table offset end.

Definition parse_names (table : list byte) (entries : list DynamicEntry) : result Names :=
  if bool_decide (table = []) then
    Ok (mkNames [] "" "" "" "" [] [] [] [])
  else
    needed ← map_result (string_at table) (all_values entries kDynamicNeeded);
    so_name ← optional_string table (first_value entries kDynamicSoName);
    rpath ← optional_string table (first_value entries kDynamicRPath);
    runpath ← optional_string table (first_value entries kDynamicRunPath);
    let filename :=
      match first_value entries kDynamicSceOriginalFilename with
      | Some f => Some f
      | None => first_value entries kDynamicSceOriginalFilename1
      end in
    original_filename ← optional_string table filename;
    im ← append_modules table entries kDynamicSceNeededModule [];
    im ← append_modules table entries kDynamicSceNeededModule1 im;
    em ← append_modules table entries kDynamicSceModuleInfo [];
    em ← append_modules table entries kDynamicSceModuleInfo1 em;
    il ← append_libraries table entries kDynamicSceImportLib [];
    il ← append_libraries table entries kDynamicSceImportLib1 il;
    el ← append_libraries table entries kDynamicSceExportLib [];
    el ← append_libraries table entries kDynamicSceExportLib1 el;
    Ok (mkNames needed so_name rpath runpath original_filename im em il el).

Definition parse_dynamic_info (image : Elf64Image) : result (option DynamicInfo) :=
  match find_header image kProgramDynamic with
  | None => Ok None
  | Some dynamic_header =>
      if ph_file_size dynamic_header =? 0 then Ok None
      else
        dynamic_bytes ← file_segment image dynamic_header;
        throw_if (zlen dynamic_bytes <? 16) (runtime_error "ELF PT_DYNAMIC is too small") ;;
        es ← parse_entries (S (length dynamic_bytes)) dynamic_bytes 0 [];
        let sce_dynamic_data := find_header image kProgramSceDynlibData in
        '(table, sce) ← parse_string_table image sce_dynamic_data es;
        '(rs, sce) ← parse_rela image sce_dynamic_data es sce;
        '(ps, sce) ← parse_plt image sce_dynamic_data es sce;
        count ← symbol_count image es rs ps;
        '(ss, sce) ← parse_symbols image sce_dynamic_data es table count sce;
        names ← parse_names table es;
        let got :=
          match first_value es kDynamicScePltGot with
          | Some v => Some v
          | None => first_value es kDynamicPltGot
          end in
        Ok (Some {|
          sce_layout := sce;
          entries := es;
          string_table := table;
          symbols := ss;
          relocations := rs;
          plt_relocations := ps;
          needed := n_needed names;
          so_name := n_so_name names;
          rpath := n_rpath names;
          runpath := n_runpath names;
          original_filename := n_original_filename names;
          import_modules := n_import_modules names;
          export_modules := n_export_modules names;
          import_libraries := n_import_libraries names;
          export_libraries := n_export_libraries names;
          init := value_or_0 es kDynamicInit;
          fini := value_or_0 es kDynamicFini;
          init_array := value_or_0 es kDynamicInitArray;
          init_array_size := value_or_0 es kDynamicInitArraySize;
          fini_array := value_or_0 es kDynamicFiniArray;
          fini_array_size := value_or_0 es kDynamicFiniArraySize;
          preinit_array := value_or_0 es kDynamicPreinitArray;
          preinit_array_size := value_or_0 es kDynamicPreinitArraySize;
          plt_got := default 0 got;
          relative_count := value_or_0 es kDynamicRelaCount |})
  end.

(** ** Safety *)

Lemma subspan_no_ub bytes offset count :
  0 <= count -> offset + count <= zlen bytes -> ~ is_ub (subspan bytes offset count).
Proof.
  intros Hc Hb. unfold subspan. destruct (Z.ltb_spec (zlen bytes) offset); [lia|].
  destruct (Z.ltb_spec (zlen bytes - offset) count); [lia|]. cbn. auto with no_ub.
Qed.

Lemma file_segment_no_ub image header :
  0 <= ph_file_size header -> ~ is_ub (file_segment image header).
Proof.
  intros Hs. unfold file_segment. apply bind_no_ub; [auto with no_ub|]. intros u Hu.
  inv_result. bools. apply subspan_no_ub; lia.
Qed.

(** A virtual range of a well-formed image is inside the file. *)
Lemma virtual_file_span_no_ub image address size :
  image_wf image -> zlen (bytes_ image) < u64_mod -> 0 < size ->
  ~ is_ub (virtual_file_span image address size).
Proof.
  intros Hw Hlen Hs. unfold virtual_file_span, checked_add.
  destruct (Z.ltb_spec (u64_max - size) address); [auto with no_ub|].
  pose proof (image_headers _ Hw) as Hh. induction Hh as [|h hs Hh _ IH]; cbn; [auto with no_ub|].
  destruct (_ && _); [done|]. unfold checked_add.
  destruct (Z.ltb_spec (u64_max - ph_file_size h) (ph_virtual_address h)); [done|].
  destruct (Z.ltb_spec address (ph_virtual_address h)); [done|]. cbn [orb].
  destruct (Z.ltb_spec (ph_virtual_address h + ph_file_size h) (address + size)); [done|].
  destruct Hh as [_ _ Ho _ _ _ _ Hd]. unfold in_u64 in Ho. specialize (Hd ltac:(lia)).
  rewrite wrap64_small by (unfold in_u64; lia). apply subspan_no_ub; lia.
Qed.

Lemma exclusive_value_no_ub es t1 t2 : ~ is_ub (exclusive_value es t1 t2).
Proof. unfold exclusive_value. repeat case_match; auto with no_ub. Qed.

Lemma string_at_no_ub table o : ~ is_ub (string_at table o).
Proof.
  unfold string_at. apply bind_no_ub; [auto with no_ub|]. intros. case_match; auto with no_ub.
Qed.

Lemma map_result_no_ub {A B} (f : A -> result B) l :
  (forall a, ~ is_ub (f a)) -> ~ is_ub (map_result f l).
Proof.
  intros Hf. induction l as [|a l IH]; cbn; [auto with no_ub|].
  apply bind_no_ub; [auto|]. intros b _. apply bind_no_ub; auto with no_ub.
Qed.

#[local] Hint Resolve exclusive_value_no_ub string_at_no_ub map_result_no_ub : no_ub.

Lemma resolve_table_no_ub image sce es t1 t2 size :
  image_wf image -> zlen (bytes_ image) < u64_mod -> 0 < size ->
  (forall h, sce = Some h -> 0 <= ph_file_size h) ->
  ~ is_ub (resolve_table image sce es t1 t2 size).
Proof.
  intros Hw Hlen Hs Hsce. unfold resolve_table. apply bind_no_ub; [auto with no_ub|].
  intros [[p|] []] _; [| |auto with no_ub..].
  - destruct sce as [h|]; [|auto with no_ub].
    apply bind_no_ub; [apply file_segment_no_ub; auto|]. intros data _.
    apply bind_no_ub; [auto with no_ub|]. intros u Hu. apply throw_if_Ok in Hu. bools.
    apply bind_no_ub; [|auto with no_ub]. apply subspan_no_ub; lia.
  - apply bind_no_ub; [|auto with no_ub]. by apply virtual_file_span_no_ub.
Qed.

(** The two loops advance by the size of an entry. *)
Lemma parse_relocation_loop_no_ub fuel bytes offset acc :
  0 <= offset -> (0 < fuel)%nat -> zlen bytes - offset < Z.of_nat fuel ->
  ~ is_ub (parse_relocation_loop fuel bytes offset acc).
Proof.
  revert offset acc. induction fuel as [|fuel IH]; intros offset acc Ho Hp Hf; [lia|]. cbn.
  destruct (Z.ltb_spec offset (zlen bytes)); [|auto with no_ub].
  apply bind_no_ub; [auto with no_ub|]. intros o Hr.
  unfold read_object in Hr. inv_result. bools. apply IH; lia.
Qed.

Lemma parse_relocations_no_ub bytes entry_size : ~ is_ub (parse_relocations bytes entry_size).
Proof.
  unfold parse_relocations. destruct bytes as [|b bs] eqn:E; [auto with no_ub|].
  rewrite <- E. clear E. apply bind_no_ub; [auto with no_ub|]. intros _ _.
  apply parse_relocation_loop_no_ub; lia.
Qed.

Lemma parse_entries_no_ub fuel bytes offset acc :
  0 <= offset -> (0 < fuel)%nat -> zlen bytes - offset < Z.of_nat fuel ->
  ~ is_ub (parse_entries fuel bytes offset acc).
Proof.
  revert offset acc. induction fuel as [|fuel IH]; intros offset acc Ho Hp Hf; [lia|]. cbn.
  destruct (Z.leb_spec (offset + 16) (zlen bytes)); [|auto with no_ub].
  apply bind_no_ub; [auto with no_ub|]. intros o _.
  destruct (_ =? _); [auto with no_ub|]. apply IH; lia.
Qed.

Lemma parse_symbol_no_ub table bytes i : ~ is_ub (parse_symbol table bytes i).
Proof.
  unfold parse_symbol. apply bind_no_ub; [auto with no_ub|]. intros o _.
  destruct (negb _); [|auto with no_ub]. repeat (apply bind_no_ub; [auto with no_ub|intros ? _]).
  auto with no_ub.
Qed.

Lemma module_reference_no_ub table p : ~ is_ub (module_reference table p).
Proof. unfold module_reference. apply bind_no_ub; auto with no_ub. Qed.
Lemma library_reference_no_ub table p : ~ is_ub (library_reference table p).
Proof. unfold library_reference. apply bind_no_ub; auto with no_ub. Qed.

#[local] Hint Resolve parse_relocations_no_ub parse_symbol_no_ub module_reference_no_ub
  library_reference_no_ub : no_ub.

Lemma parse_names_no_ub table es : ~ is_ub (parse_names table es).
Proof.
  unfold parse_names, append_modules, append_libraries, optional_string.
  destruct (bool_decide _); [auto with no_ub|].
  repeat (case_match || (apply bind_no_ub; [|intros ? _])); auto with no_ub.
Qed.

(** Table sizes are 64-bit words read from the file, so "not zero" is
    "positive". *)
Definition entries_wf (es : list DynamicEntry) : Prop :=
  forall e, e ∈ es -> in_u64 (de_value e).

Lemma first_value_elem es tag v : first_value es tag = Some v -> mkDynamicEntry tag v ∈ es.
Proof.
  unfold first_value. destruct (filter _ es) as [|e l] eqn:Hf; [done|]. cbn. intros [= <-].
  assert (e ∈ filter (fun e => de_tag e = tag) es) as Hin by (rewrite Hf; by left).
  apply list_elem_of_filter in Hin as [<- Hin]. by destruct e.
Qed.

Lemma value_or_0_range es tag : entries_wf es -> in_u64 (value_or_0 es tag).
Proof.
  intros Hes. unfold value_or_0. destruct (first_value es tag) as [v|] eqn:Hv; [|by split].
  apply first_value_elem, Hes in Hv. done.
Qed.

Lemma parse_entries_wf fuel bytes offset acc es :
  parse_entries fuel bytes offset acc = Ok es -> entries_wf acc -> entries_wf es.
Proof.
  revert offset acc. induction fuel as [|fuel IH]; intros offset acc H Hacc; cbn in H; [done|].
  destruct (_ <=? _); [|done]. inv_result. destruct (_ =? _); inv_result; [done|].
  eapply IH; [done|]. intros e [He|He%list_elem_of_singleton]%elem_of_app; [by apply Hacc|].
  subst e. cbn. pose proof (field_range r 8 8 ltac:(lia)) as Hr'. exact Hr'.
Qed.

Section Safe.
Context (image : Elf64Image) (Hw : image_wf image) (Hlen : zlen (bytes_ image) < u64_mod).

Lemma find_header_size type h : find_header image type = Some h -> 0 <= ph_file_size h.
Proof.
  unfold find_header. intros Hh.
  destruct (filter _ _) as [|h' l] eqn:Hf; [done|]. cbn in Hh. simplify_eq.
  assert (h ∈ filter (fun h => ph_type h = type) (program_headers_ image)) as Hin
    by (rewrite Hf; by left).
  apply list_elem_of_filter in Hin as [_ Hin]. pose proof (image_headers _ Hw) as Hall.
  rewrite Forall_forall in Hall. apply Hall in Hin. apply (ph_wf_memory _ _ Hin).
Qed.

Lemma parse_string_table_no_ub sce es :
  (forall h, sce = Some h -> 0 <= ph_file_size h) -> entries_wf es ->
  ~ is_ub (parse_string_table image sce es).
Proof.
  intros Hsce Hes. unfold parse_string_table. apply bind_no_ub; [auto with no_ub|].
  intros [[p|] is_sce] _; [|auto with no_ub].
  set (size := value_or_0 _ _). assert (in_u64 size) as Hs by (by apply value_or_0_range).
  apply bind_no_ub; [auto with no_ub|]. intros u Hu. apply throw_if_Ok in Hu. bools.
  unfold in_u64 in Hs. destruct is_sce.
  - destruct sce as [h|]; [|auto with no_ub].
    apply bind_no_ub; [apply file_segment_no_ub; auto|]. intros data _.
    apply bind_no_ub; [auto with no_ub|]. intros u' Hu'. apply throw_if_Ok in Hu'. bools.
    apply bind_no_ub; [|auto with no_ub]. apply subspan_no_ub; lia.
  - apply bind_no_ub; [|auto with no_ub]. apply virtual_file_span_no_ub; [done..|lia].
Qed.

Lemma parse_rela_no_ub sce es b :
  (forall h, sce = Some h -> 0 <= ph_file_size h) -> entries_wf es ->
  ~ is_ub (parse_rela image sce es b).
Proof.
  intros Hsce Hes. unfold parse_rela. set (size := value_or_0 es _).
  assert (in_u64 size) as Hs by (by apply value_or_0_range). unfold in_u64 in Hs.
  destruct (Z.eqb_spec size 0); cbn [negb]; [auto with no_ub|].
  apply bind_no_ub; [apply resolve_table_no_ub; [done..|lia|done]|]. intros [bs from] _.
  apply bind_no_ub; auto with no_ub.
Qed.

Lemma parse_plt_no_ub sce es b :
  (forall h, sce = Some h -> 0 <= ph_file_size h) -> entries_wf es ->
  ~ is_ub (parse_plt image sce es b).
Proof.
  intros Hsce Hes. unfold parse_plt. set (size := value_or_0 es _).
  assert (in_u64 size) as Hs by (by apply value_or_0_range). unfold in_u64 in Hs.
  destruct (Z.eqb_spec size 0); cbn [negb]; [auto with no_ub|].
  apply bind_no_ub; [auto with no_ub|]. intros _ _.
  apply bind_no_ub; [apply resolve_table_no_ub; [done..|lia|done]|]. intros [bs from] _.
  apply bind_no_ub; auto with no_ub.
Qed.

Lemma symbols_used_range rs c :
  0 <= c <= u32_mod -> 0 <= symbols_used rs c <= u32_mod.
Proof.
  unfold symbols_used. revert c. induction rs as [|r rs IH]; intros c Hc; cbn; [done|].
  apply IH. pose proof (wrap32_range (Z.shiftr (r_info r) 32)) as Hr.
  unfold symbol_index. unfold in_u32 in Hr. lia.
Qed.

Lemma symbol_count_no_ub es rs1 rs2 : ~ is_ub (symbol_count image es rs1 rs2).
Proof.
  unfold symbol_count. destruct (has_tag es kDynamicSceSymbolTable).
  - destruct (negb _); [|auto with no_ub]. apply bind_no_ub; auto with no_ub.
  - destruct (has_tag _ _); [|auto with no_ub]. apply bind_no_ub; [auto with no_ub|]. intros _ _.
    destruct (first_value es kDynamicHash); [|auto with no_ub].
    apply bind_no_ub; [|auto with no_ub]. apply virtual_file_span_no_ub; done || lia.
Qed.

Lemma symbol_count_range es rs1 rs2 n :
  entries_wf es -> symbol_count image es rs1 rs2 = Ok n -> 0 <= n /\ n * 24 < u64_mod.
Proof.
  intros Hes. unfold symbol_count. destruct (has_tag es kDynamicSceSymbolTable).
  - pose proof (value_or_0_range es kDynamicSceSymbolTableSize Hes) as Hr. unfold in_u64 in Hr.
    destruct (negb _); intros H; inv_result; [|lia]. bools.
    match goal with He : value_or_0 es kDynamicSceSymbolEntrySize = 24 |- _ => rewrite He in * end.
    Z.div_mod_to_equations. lia.
  - destruct (has_tag _ _); [|intros H; inv_result; lia].
    destruct (first_value es kDynamicHash); intros H; inv_result.
    + match goal with |- context [field ?o 4 4] => pose proof (field_range o 4 4 ltac:(lia)) end.
      change (256 ^ 4) with u32_mod in *. lia.
    + pose proof (symbols_used_range rs1 0 ltac:(lia)) as H1.
      pose proof (symbols_used_range rs2 _ H1). lia.
Qed.

Lemma parse_symbols_no_ub sce es table n b :
  (forall h, sce = Some h -> 0 <= ph_file_size h) -> 0 <= n /\ n * 24 < u64_mod ->
  ~ is_ub (parse_symbols image sce es table n b).
Proof.
  intros Hsce Hn. unfold parse_symbols. destruct (Z.eqb_spec n 0); cbn [negb]; [auto with no_ub|].
  rewrite wrap64_small by (unfold in_u64; lia).
  apply bind_no_ub; [apply resolve_table_no_ub; [done..|lia|done]|]. intros [bs from] _.
  apply bind_no_ub; auto with no_ub.
Qed.

Lemma parse_dynamic_info_no_ub : ~ is_ub (parse_dynamic_info image).
Proof.
  unfold parse_dynamic_info. destruct (find_header image kProgramDynamic) as [h|] eqn:Hh;
    [|auto with no_ub].
  apply find_header_size in Hh. destruct (_ =? 0); [auto with no_ub|].
  apply bind_no_ub; [by apply file_segment_no_ub|]. intros bytes _.
  apply bind_no_ub; [auto with no_ub|]. intros _ _.
  apply bind_no_ub; [apply parse_entries_no_ub; lia|]. intros es Hes.
  apply parse_entries_wf in Hes; [|intros e ?%elem_of_nil; done].
  set (sce := find_header image kProgramSceDynlibData).
  assert (forall h, sce = Some h -> 0 <= ph_file_size h) as Hsce
    by (intros; by eapply find_header_size).
  apply bind_no_ub; [by apply parse_string_table_no_ub|]. intros [table s0] _.
  apply bind_no_ub; [by apply parse_rela_no_ub|]. intros [rs s1] _.
  apply bind_no_ub; [by apply parse_plt_no_ub|]. intros [ps s2] _.
  apply bind_no_ub; [apply symbol_count_no_ub|]. intros n Hn.
  apply symbol_count_range in Hn; [|done].
  apply bind_no_ub; [by apply parse_symbols_no_ub|]. intros [ss s3] _.
  apply bind_no_ub; [apply parse_names_no_ub|auto with no_ub].
Qed.

End Safe.

(** ** What the tables contain *)

(** The packed form of the entries. *)
Definition encode_entry (e : DynamicEntry) : list byte :=
  le_encode 8 (de_tag e) ++ le_encode 8 (de_value e).
Definition encode_relocation (r : Relocation) : list byte :=
  le_encode 8 (r_offset r) ++ le_encode 8 (r_info r) ++ le_encode 8 (r_addend r).

Definition in_i64 (z : Z) : Prop := -9223372036854775808 <= z < 9223372036854775808.
Definition entry_wf (e : DynamicEntry) : Prop := in_i64 (de_tag e) /\ in_u64 (de_value e).
Definition relocation_wf (r : Relocation) : Prop :=
  in_u64 (r_offset r) /\ in_u64 (r_info r) /\ in_i64 (r_addend r).

(** A field written back. *)
Lemma encode_field object off n :
  0 <= off -> 0 <= n -> off + n <= zlen object ->
  le_encode (Z.to_nat n) (field object off n) = zslice object off n.
Proof.
  intros. unfold field. rewrite <- (zslice_length_eq object off n) by done.
  apply le_encode_decode.
Qed.

Lemma zslice_split {A} (l : list A) a n m :
  0 <= a -> 0 <= n -> 0 <= m -> zslice l a (n + m) = zslice l a n ++ zslice l (a + n) m.
Proof.
  intros. unfold zslice. rewrite (Z2Nat.inj_add n m), (Z2Nat.inj_add a n) by lia.
  rewrite <- drop_drop. generalize (drop (Z.to_nat a) l). intros l'. clear.
  revert l'. induction (Z.to_nat n) as [|k IH]; intros l'; [done|].
  destruct l'; cbn; [by rewrite take_nil|]. by rewrite IH.
Qed.

Lemma zslice_all {A} (l : list A) : zslice l 0 (zlen l) = l.
Proof. unfold zslice. rewrite drop_0, Nat2Z.id. apply firstn_all. Qed.

Lemma encode_raw_entry object :
  zlen object = 16 ->
  encode_entry (mkDynamicEntry (field_i64 object 0) (field object 8 8)) = object.
Proof.
  intros Hl. unfold encode_entry, field_i64. cbn [de_tag de_value]. rewrite le_encode_i64.
  change 8%nat with (Z.to_nat 8). rewrite !encode_field by lia.
  etrans; [symmetry; apply (zslice_split object 0 8 8); lia|].
  change (8 + 8) with 16. rewrite <- Hl. apply zslice_all.
Qed.

Lemma encode_raw_relocation object :
  zlen object = 24 -> encode_relocation (raw_relocation object) = object.
Proof.
  intros Hl. unfold encode_relocation, raw_relocation, field_i64. cbn [r_offset r_info r_addend].
  rewrite le_encode_i64. change 8%nat with (Z.to_nat 8). rewrite !encode_field by lia.
  assert (zslice object 8 8 ++ zslice object 16 8 = zslice object 8 16) as ->
    by (symmetry; apply (zslice_split object 8 8 8); lia).
  etrans; [symmetry; apply (zslice_split object 0 8 16); lia|].
  change (8 + 16) with 24. rewrite <- Hl. apply zslice_all.
Qed.

Lemma raw_encode_relocation r : relocation_wf r -> raw_relocation (encode_relocation r) = r.
Proof.
  intros (Ho & Hi & Ha).
  change (raw_relocation (encode_relocation r)) with
    (mkRelocation (le_decode (le_encode 8 (r_offset r))) (le_decode (le_encode 8 (r_info r)))
       (to_i64 (le_decode (le_encode 8 (r_addend r))))).
  rewrite !(le_decode_encode_u64 (r_offset r)), (le_decode_encode_u64 (r_info r)) by done.
  rewrite le_decode_encode. change (256 ^ Z.of_nat 8) with u64_mod.
  assert (to_i64 (r_addend r mod u64_mod) = r_addend r) as ->.
  { rewrite (to_i64_eq _ (r_addend r)); [by apply to_i64_id|].
    unfold wrap64. by rewrite Z.mod_mod by lia. }
  by destruct r.
Qed.

Lemma raw_relocation_wf object : relocation_wf (raw_relocation object).
Proof.
  unfold relocation_wf, raw_relocation, field_i64. cbn.
  pose proof (field_range object 0 8 ltac:(lia)) as H1.
  pose proof (field_range object 8 8 ltac:(lia)) as H2.
  split_and!; [exact H1|exact H2|apply to_i64_range].
Qed.

Lemma read_object_Ok w n bytes o object :
  0 <= o -> 0 <= n -> read_object w n bytes o = Ok object ->
  o + n <= zlen bytes /\ object = zslice bytes o n /\ zlen object = n.
Proof.
  intros Ho Hn H. unfold read_object in H. inv_result. bools.
  split_and!; [lia|done|]. apply zslice_length; lia.
Qed.

Lemma zslice_nil_after {A} (l : list A) o n : zlen l <= o -> zslice l o n = [].
Proof. intros. unfold zslice. rewrite drop_ge by lia. apply take_nil. Qed.

Lemma drop_zslice {A} (l : list A) o n :
  0 <= o -> 0 <= n -> drop (Z.to_nat o) l = zslice l o n ++ drop (Z.to_nat (o + n)) l.
Proof.
  intros. unfold zslice. rewrite Z2Nat.inj_add by lia. rewrite <- drop_drop.
  by rewrite take_drop.
Qed.

Lemma parse_relocation_loop_sound fuel bytes o acc rs :
  0 <= o -> parse_relocation_loop fuel bytes o acc = Ok rs ->
  exists new, rs = acc ++ new /\ drop (Z.to_nat o) bytes = new ≫= encode_relocation /\
    Forall relocation_wf new.
Proof.
  revert o acc. induction fuel as [|fuel IH]; intros o acc Ho H; cbn in H; [done|].
  destruct (Z.ltb_spec o (zlen bytes)).
  - inv_result. apply read_object_Ok in Hr as (Hle & -> & Hl); [|lia..].
    apply IH in H as (new & -> & Hd & Hwf); [|lia].
    exists (raw_relocation (zslice bytes o 24) :: new). rewrite <- app_assoc. split; [done|].
    split; [|constructor; [apply raw_relocation_wf|done]].
    rewrite bind_cons, encode_raw_relocation, <- Hd by done. apply drop_zslice; lia.
  - inv_result. exists []. rewrite app_nil_r. split_and!; [done| |done].
    by rewrite drop_ge by lia.
Qed.

Lemma relocations_length rs : length (rs ≫= encode_relocation) = (24 * length rs)%nat.
Proof.
  induction rs as [|r rs IH]; [done|]. rewrite bind_cons, length_app, IH. cbn. lia.
Qed.

Lemma parse_relocation_loop_complete rs fuel pre acc :
  Forall relocation_wf rs -> (length rs < fuel)%nat ->
  parse_relocation_loop fuel (pre ++ (rs ≫= encode_relocation)) (zlen pre) acc = Ok (acc ++ rs).
Proof.
  intros Hrs. revert fuel pre acc.
  induction Hrs as [|r rs Hr Hrs IH]; intros fuel pre acc Hf; (destruct fuel as [|fuel]; [cbn in Hf; lia|]);
    cbn [parse_relocation_loop].
  - rewrite !app_nil_r, Z.ltb_irrefl. done.
  - rewrite bind_cons. destruct (Z.ltb_spec (zlen pre)
      (zlen (pre ++ encode_relocation r ++ (rs ≫= encode_relocation)))) as [_|Hge].
    2: { rewrite !length_app in Hge. cbn in Hge. lia. }
    rewrite read_object_middle by done. cbn [mbind result_bind].
    rewrite raw_encode_relocation by done. rewrite app_assoc.
    replace (zlen pre + 24) with (zlen (pre ++ encode_relocation r))
      by (rewrite length_app; cbn; lia).
    rewrite IH by (cbn in Hf; lia). by rewrite <- app_assoc.
Qed.

Lemma parse_entries_sound fuel bytes o acc es :
  0 <= o -> parse_entries fuel bytes o acc = Ok es ->
  exists new v tail, es = acc ++ new /\
    drop (Z.to_nat o) bytes =
      (new ≫= encode_entry) ++ encode_entry (mkDynamicEntry kDynamicNull v) ++ tail /\
    Forall (fun e => de_tag e <> kDynamicNull) new.
Proof.
  revert o acc. induction fuel as [|fuel IH]; intros o acc Ho H; cbn in H; [done|].
  destruct (Z.leb_spec (o + 16) (zlen bytes)); [|done].
  inv_result. apply read_object_Ok in Hr as (Hle & -> & Hl); [|lia..].
  pose proof (encode_raw_entry _ Hl) as He.
  destruct (Z.eqb_spec (field_i64 (zslice bytes o 16) 0) kDynamicNull) as [Hn|Hn].
  - assert (encode_entry (mkDynamicEntry kDynamicNull (field (zslice bytes o 16) 8 8))
      = zslice bytes o 16) as Henc by (by rewrite <- Hn at 1).
    inv_result. eexists [], _, (drop (Z.to_nat (o + 16)) bytes).
    split; [by rewrite app_nil_r|]. split; [|done].
    etrans; [apply (drop_zslice bytes o 16); lia|]. rewrite <- Henc. done.
  - apply IH in H as (new & v & tail & -> & Hd & Hwf); [|lia].
    exists (mkDynamicEntry (field_i64 (zslice bytes o 16) 0) (field (zslice bytes o 16) 8 8) :: new),
      v, tail.
    rewrite <- app_assoc. split; [done|]. split; [|by constructor].
    rewrite bind_cons, He, <- app_assoc, <- Hd. apply drop_zslice; lia.
Qed.

(** ** Strings *)

(** [s] is the NUL-terminated string at an offset of the table. *)
Definition string_in (table : list byte) (offset : Z) (s : string) : Prop :=
  exists tail, drop (Z.to_nat offset) table = list_byte_of_string s ++ zero_byte :: tail /\
    zero_byte ∉ list_byte_of_string s.

Lemma until_nul_Some l bs :
  until_nul l = Some bs -> exists tail, l = bs ++ zero_byte :: tail /\ zero_byte ∉ bs.
Proof.
  revert bs. induction l as [|b l IH]; intros bs; cbn; [done|]. case_bool_decide as Hb.
  - intros [= <-]. exists l. subst b. split; [done|apply not_elem_of_nil].
  - destruct (until_nul l) as [bs'|] eqn:Hu; [|done]. cbn. intros [= <-].
    destruct (IH bs' eq_refl) as (tail & -> & Hn). exists tail. split; [done|].
    rewrite elem_of_cons. intros [?|?]; [by apply Hb|done].
Qed.

Lemma string_at_in table o s : string_at table o = Ok s -> string_in table o s.
Proof.
  unfold string_at. intros H. inv_result. destruct (until_nul _) as [bs|] eqn:Hu; [|done].
  inv_result. apply until_nul_Some in Hu as (tail & Hd & Hn). exists tail.
  by rewrite list_byte_of_string_of_list_byte.
Qed.

Lemma map_result_Forall2 {A B} (f : A -> result B) l l' :
  map_result f l = Ok l' -> Forall2 (fun a b => f a = Ok b) l l'.
Proof.
  revert l'. induction l as [|a l IH]; intros l' H; cbn in H; inv_result; [constructor|].
  constructor; auto.
Qed.

(** ** Encoded identifiers *)

Lemma alphabet_injective i j :
  0 <= i < 64 -> 0 <= j < 64 -> alphabet_at i = alphabet_at j -> i = j.
Proof.
  intros Hi Hj He.
  assert (forallb (fun a => forallb (fun b =>
    implb (bool_decide (alphabet_at (Z.of_nat a) = alphabet_at (Z.of_nat b))) (a =? b)%nat)
      (seq 0 64)) (seq 0 64) = true) as Hall by (by vm_compute).
  rewrite forallb_forall in Hall. specialize (Hall (Z.to_nat i)).
  rewrite in_seq, forallb_forall in Hall. specialize (Hall ltac:(lia) (Z.to_nat j)).
  rewrite in_seq, !Z2Nat.id in Hall by lia. specialize (Hall ltac:(lia)).
  rewrite bool_decide_true in Hall by done. apply Nat.eqb_eq in Hall. lia.
Qed.

(** The base-64 digits of an identifier. *)
Lemma digits6 id k : 0 <= k -> Z.land (Z.shiftr id k) 0x3f = (id / 2 ^ k) mod 64.
Proof.
  intros Hk. change 0x3f with (Z.ones 6). rewrite Z.land_ones by lia.
  by rewrite Z.shiftr_div_pow2.
Qed.

Lemma digit0 id : Z.land id 0x3f = id mod 64.
Proof. change 0x3f with (Z.ones 6). by rewrite Z.land_ones by lia. Qed.

(** ** Names and references *)

#[local] Arguments encode_entry : simpl never.

Definition encoded_module (m : ModuleReference) : Prop := mr_encoded_id m = encode_sce_id (mr_id m).
Definition encoded_library (l : LibraryReference) : Prop := lr_encoded_id l = encode_sce_id (lr_id l).

Lemma append_modules_encoded table es tag ms ms' :
  append_modules table es tag ms = Ok ms' -> Forall encoded_module ms -> Forall encoded_module ms'.
Proof.
  unfold append_modules. intros H Hms. inv_result. apply Forall_app. split; [done|].
  apply map_result_Forall2 in Hr. induction Hr as [|p m ps l Hm _ IH]; constructor; [|done].
  unfold module_reference in Hm. by inv_result.
Qed.

Lemma append_libraries_encoded table es tag ls ls' :
  append_libraries table es tag ls = Ok ls' ->
  Forall encoded_library ls -> Forall encoded_library ls'.
Proof.
  unfold append_libraries. intros H Hms. inv_result. apply Forall_app. split; [done|].
  apply map_result_Forall2 in Hr. induction Hr as [|p m ps l Hm _ IH]; constructor; [|done].
  unfold library_reference in Hm. by inv_result.
Qed.

#[local] Hint Resolve append_modules_encoded append_libraries_encoded : core.

Lemma parse_names_spec table es names :
  parse_names table es = Ok names ->
  (table <> [] -> Forall2 (string_in table) (all_values es kDynamicNeeded) (n_needed names)) /\
  Forall encoded_module (n_import_modules names) /\
  Forall encoded_module (n_export_modules names) /\
  Forall encoded_library (n_import_libraries names) /\
  Forall encoded_library (n_export_libraries names).
Proof.
  unfold parse_names. case_bool_decide as Ht; intros H.
  - apply Ok_inj in H. subst names. by split_and!.
  - repeat match type of H with (_ ≫= _) = Ok _ =>
      let a := fresh "v" in let Ha := fresh "Hv" in apply bind_Ok in H as (a & Ha & H) end.
    apply Ok_inj in H. subst names.
    cbn [n_needed n_import_modules n_export_modules n_import_libraries n_export_libraries].
    split_and!; [|eauto 6..]. intros _. apply map_result_Forall2 in Hv.
    eapply Forall2_impl; [exact Hv|]. intros o s Hs. by apply string_at_in.
Qed.

Lemma parse_symbols_spec image sce es table n b ss b' :
  parse_symbols image sce es table n b = Ok (ss, b') ->
  length ss = Z.to_nat n /\
  forall s, s ∈ ss -> ds_name_offset s <> 0 -> string_in table (ds_name_offset s) (ds_name s).
Proof.
  unfold parse_symbols. destruct (Z.eqb_spec n 0) as [->|Hn]; cbn [negb]; intros H.
  - inv_result. split; [done|]. by intros s ?%elem_of_nil.
  - apply bind_Ok in H as ([bytes from] & _ & H). apply bind_Ok in H as (l & Hl & H).
    apply Ok_inj in H. injection H as -> _. apply map_result_Forall2 in Hl.
    split; [by rewrite <- (Forall2_length _ _ _ Hl), length_seq|].
    intros s Hs Hoff. apply list_elem_of_lookup in Hs as [i Hi].
    destruct (Forall2_lookup_r _ _ _ _ _ Hl Hi) as (j & _ & Hj).
    unfold parse_symbol in Hj. apply bind_Ok in Hj as (o & _ & Hj).
    destruct (negb _) eqn:Hz.
    + apply bind_Ok in Hj as (u & _ & Hj). apply bind_Ok in Hj as (name & Hname & Hj).
      apply Ok_inj in Hj. subst s. cbn. by apply string_at_in.
    + apply Ok_inj in Hj. subst s. exfalso. apply Hoff. bools. done.
Qed.

(** ** Properties *)

(** C34: the parser never reads outside the image it is given.  On an image
    that [from_bytes] accepted, [parse_dynamic_info] either returns or throws
    one of the exceptions of the source: every span it forms lies inside the
    file or the segment it is cut from, and its loops end. *)
Theorem parse_dynamic_info_stays_inside bytes image :
  zlen bytes < u64_mod -> from_bytes bytes = Ok image -> ~ is_ub (parse_dynamic_info image).
Proof.
  intros Hlen Hf. apply from_bytes_wf in Hf as [<- Hw]. by apply parse_dynamic_info_no_ub.
Qed.

(** what a parsed section holds.  Its entries are exactly the entries of
    the dynamic segment before the first [DT_NULL]; every named symbol has the
    NUL-terminated string its offset designates in the string table; the needed
    names are those of the [DT_NEEDED] entries, in order; every module and
    library reference carries the encoding of its identifier. *)
Theorem parse_dynamic_info_contents image info :
  parse_dynamic_info image = Ok (Some info) ->
  (exists header v tail, find_header image kProgramDynamic = Some header /\
     zslice (bytes_ image) (ph_offset header) (ph_file_size header) =
       (entries info ≫= encode_entry) ++ encode_entry (mkDynamicEntry kDynamicNull v) ++ tail /\
     Forall (fun e => de_tag e <> kDynamicNull) (entries info)) /\
  (forall s, s ∈ symbols info -> ds_name_offset s <> 0 ->
     string_in (string_table info) (ds_name_offset s) (ds_name s)) /\
  (string_table info <> [] ->
     Forall2 (string_in (string_table info)) (all_values (entries info) kDynamicNeeded)
       (needed info)) /\
  (forall m, m ∈ import_modules info \/ m ∈ export_modules info ->
     mr_encoded_id m = encode_sce_id (mr_id m)) /\
  (forall l, l ∈ import_libraries info \/ l ∈ export_libraries info ->
     lr_encoded_id l = encode_sce_id (lr_id l)).
Proof.
  unfold parse_dynamic_info. destruct (find_header image kProgramDynamic) as [h|] eqn:Hh; [|done].
  destruct (ph_file_size h =? 0); [done|]. intros H.
  apply bind_Ok in H as (bytes & Hseg & H). apply bind_Ok in H as (u & _ & H).
  apply bind_Ok in H as (es & Hes & H). apply bind_Ok in H as ([table s0] & _ & H).
  apply bind_Ok in H as ([rs s1] & _ & H). apply bind_Ok in H as ([ps s2] & _ & H).
  apply bind_Ok in H as (n & _ & H). apply bind_Ok in H as ([ss s3] & Hss & H).
  apply bind_Ok in H as (names & Hnames & H). apply Ok_inj in H. injection H as <-.
  cbn [entries symbols string_table needed import_modules export_modules import_libraries
    export_libraries].
  apply parse_entries_sound in Hes as (new & v & tail & -> & Hd & Hnn); [|lia].
  rewrite app_nil_l, drop_0 in *.
  apply parse_symbols_spec in Hss as [_ Hss]. apply parse_names_spec in Hnames as (Hn & Him & Hem & Hil & Hel).
  rewrite Forall_forall in Him, Hem. rewrite Forall_forall in Hil, Hel.
  split; [|split; [done|split; [done|split]]].
  - exists h, v, tail. split; [done|]. split; [|done]. rewrite <- Hd.
    unfold file_segment, subspan in Hseg. by inv_result.
  - intros m [Hm|Hm]; [by apply Him|by apply Hem].
  - intros l [Hl|Hl]; [by apply Hil|by apply Hel].
Qed.

(** relocation tables are read and written without loss: a table of
    24-byte entries parses to a list of relocations exactly when it is their
    concatenated encoding. *)
Theorem parse_relocations_roundtrip bytes rs :
  parse_relocations bytes 24 = Ok rs <->
  bytes = rs ≫= encode_relocation /\ Forall relocation_wf rs.
Proof.
  unfold parse_relocations. split.
  - destruct bytes as [|b bs] eqn:E; [intros H; by inv_result|]. rewrite <- E. clear E.
    intros H. apply bind_Ok in H as (u & _ & H).
    apply parse_relocation_loop_sound in H as (new & -> & Hd & Hwf); [|lia].
    by rewrite drop_0 in Hd.
  - intros [-> Hwf]. destruct (rs ≫= encode_relocation) as [|b bs] eqn:E.
    { pose proof (relocations_length rs) as Hl. rewrite E in Hl. cbn in Hl.
      destruct rs; [done|cbn in Hl; lia]. }
    rewrite <- E. clear E. rewrite relocations_length. cbn [Z.eqb Pos.eqb negb orb].
    replace (Z.of_nat (24 * length rs) mod 24) with 0
      by (symmetry; rewrite Nat2Z.inj_mul, Z.mul_comm; by apply Z.mod_mul).
    cbn [Z.eqb negb throw_if mbind result_bind].
    apply (parse_relocation_loop_complete rs _ [] []); [done|lia].
Qed.

(** [encode_sce_id] is injective on 16-bit identifiers, so that the
    encoded identifier in a symbol name designates one module or library. *)
Theorem encode_sce_id_injective i j :
  0 <= i < 65536 -> 0 <= j < 65536 -> encode_sce_id i = encode_sce_id j -> i = j.
Proof.
  intros Hi Hj. unfold encode_sce_id. rewrite !digits6, !digit0 by lia.
  change (2 ^ 6) with 64. change (2 ^ 12) with 4096.
  destruct (Z.ltb_spec i 0x40), (Z.ltb_spec j 0x40); [|by case_match|by case_match|].
  - intros [= He]. apply alphabet_injective; lia || done.
  - destruct (Z.ltb_spec i 0x1000), (Z.ltb_spec j 0x1000); [|done|done|].
    + intros [= E1%alphabet_injective E2%alphabet_injective];
        try (apply Z.mod_pos_bound; lia). Z.div_mod_to_equations. lia.
    + intros [= E1%alphabet_injective E2%alphabet_injective E3%alphabet_injective];
        try (apply Z.mod_pos_bound; lia). Z.div_mod_to_equations. lia.
Qed.

(** ** Witnesses *)

(** An image whose dynamic section names one needed file. *)
Definition sample_strings : list byte :=
  zero_byte :: list_byte_of_string "lib.so" ++ [zero_byte].
Definition sample_entries : list DynamicEntry :=
  [mkDynamicEntry kDynamicStringTable 0x1000; mkDynamicEntry kDynamicStringTableSize 8;
   mkDynamicEntry kDynamicNeeded 1].
Definition sample_dynamic_bytes : list byte :=
  encode_elf kTypeSceDynamic 0x1000
    [mkProgramHeader kProgramLoad 4 176 0x1000 0 72 72 4096;
     mkProgramHeader kProgramDynamic 4 184 0x1008 0 64 64 8]
    (sample_strings ++ (sample_entries ≫= encode_entry) ++ encode_entry (mkDynamicEntry 0 0)).
Definition sample_image : Elf64Image :=
  match from_bytes sample_dynamic_bytes with
  | Ok image => image
  | Throw _ => mkElf64Image [] [] 0 0 None
  end.

Lemma parse_dynamic_info_stays_inside_witness :
  from_bytes sample_dynamic_bytes = Ok sample_image /\ ~ is_ub (parse_dynamic_info sample_image).
Proof.
  assert (from_bytes sample_dynamic_bytes = Ok sample_image) as H by (by vm_compute).
  split; [exact H|].
  apply (parse_dynamic_info_stays_inside sample_dynamic_bytes sample_image); [by vm_compute|exact H].
Defined.

Lemma parse_dynamic_info_contents_witness :
  exists info, parse_dynamic_info sample_image = Ok (Some info) /\ needed info = ["lib.so"%string] /\
    Forall2 (string_in (string_table info)) (all_values (entries info) kDynamicNeeded) (needed info).
Proof.
  destruct (parse_dynamic_info sample_image) as [[info|]|e] eqn:E;
    [|vm_compute in E; discriminate E..].
  exists info. split; [reflexivity|].
  destruct (parse_dynamic_info_contents sample_image info E) as (_ & _ & H & _).
  vm_compute in E. injection E as <-. split; [reflexivity|]. apply H. discriminate.
Defined.

Lemma encode_sce_id_injective_witness : encode_sce_id 65 = "BB"%string /\ 65 = 65.
Proof. split; [by vm_compute|]. apply (encode_sce_id_injective 65 65); [lia|lia|reflexivity]. Defined.
