(* ===== verification/Symbols.v ===== *)
(** * The symbol registry

    [src/include/nyxora/runtime/symbol_registry.hpp] and
    [src/src/runtime/symbol_registry.cpp]: bindings by symbol key, where a
    binding of a guest module replaces one of the high-level emulation and
    nothing replaces a guest binding.  The hash function only chooses buckets;
    the unordered map is a [gmap]. *)

From S2P Require Import Prelude.

Local Open Scope Z_scope.

Inductive SymbolKind : Type := sym_unknown | sym_function | sym_object | sym_tls | sym_no_type.

#[export] Instance SymbolKind_eq_dec : EqDecision SymbolKind.
Proof. solve_decision. Defined.

Definition kind_code (k : SymbolKind) : nat :=
  match k with
  | sym_unknown => 0 | sym_function => 1 | sym_object => 2 | sym_tls => 3 | sym_no_type => 4
  end.
Definition kind_of_code (n : nat) : SymbolKind :=
  match n with
  | 0 => sym_unknown | 1 => sym_function | 2 => sym_object | 3 => sym_tls | _ => sym_no_type
  end%nat.

#[export] Instance SymbolKind_countable : Countable SymbolKind.
Proof. by refine (inj_countable' kind_code kind_of_code _); intros []. Defined.

Record SymbolKey : Type := mkSymbolKey {
  nid : string;
  library : string;
  module : string;
  library_version : Z;
  module_major : Z;
  module_minor : Z;
  kind : SymbolKind;
}.

#[export] Instance SymbolKey_eq_dec : EqDecision SymbolKey.
Proof. solve_decision. Defined.

#[export] Instance SymbolKey_countable : Countable SymbolKey.
Proof.
  refine (inj_countable'
    (fun k => (nid k, library k, module k, (library_version k, module_major k, module_minor k, kind k)))
    (fun '(n, l, m, (v, ma, mi, k)) => mkSymbolKey n l m v ma mi k) _).
  by intros [].
Defined.

Record SymbolBinding : Type := mkSymbolBinding { address : Z; debug_name : string; hle : bool }.

Abbreviation SymbolRegistry := (gmap SymbolKey SymbolBinding).

(** [SymbolRegistry::register_symbol]: [emplace], then the replacement of an
    emulated binding by a guest one. *)
Definition register_symbol (symbols : SymbolRegistry) (key : SymbolKey) (binding : SymbolBinding)
  : bool * SymbolRegistry :=
  match symbols !! key with
  | None => (true, <[key := binding]> symbols)
  | Some existing =>
      if hle existing && negb (hle binding) then (true, <[key := binding]> symbols)
      else (false, symbols)
  end.

Definition resolve (symbols : SymbolRegistry) (key : SymbolKey) : option SymbolBinding :=
  symbols !! key.

(** A sequence of registrations. *)
Definition register_all (symbols : SymbolRegistry) (l : list (SymbolKey * SymbolBinding))
  : SymbolRegistry := foldl (fun s kb => (register_symbol s kb.1 kb.2).2) symbols l.

(** ** What a key is bound to *)

(** The registrations of a key, in order. *)
Definition of_key (key : SymbolKey) (l : list (SymbolKey * SymbolBinding)) : list SymbolBinding :=
  (filter (fun kb => kb.1 = key) l).*2.

(** The first guest binding, else the first binding. *)
Definition winner (bs : list SymbolBinding) : option SymbolBinding :=
  match head (filter (fun b => hle b = false) bs) with
  | Some b => Some b
  | None => head bs
  end.

Lemma winner_snoc bs b :
  winner (bs ++ [b]) =
    match winner bs with
    | None => Some b
    | Some w => if hle w && negb (hle b) then Some b else Some w
    end.
Proof.
  unfold winner. rewrite filter_app, filter_cons, filter_nil.
  destruct (filter (fun b => hle b = false) bs) as [|g gs] eqn:Hg; cbn.
  - destruct bs as [|c cs]; cbn; [by case_decide|].
    assert (hle c = true) as Hc.
    { rewrite filter_cons in Hg. case_decide as Hd; [done|]. by apply not_false_is_true in Hd. }
    rewrite Hc. case_decide as Hb; [by rewrite Hb|]. apply not_false_is_true in Hb. by rewrite Hb.
  - assert (hle g = false) as ->; [|done].
    assert (g ∈ filter (fun b => hle b = false) bs) as Hin by (rewrite Hg; by left).
    by apply list_elem_of_filter in Hin as [? _].
Qed.

Lemma of_key_snoc key l kb :
  of_key key (l ++ [kb]) = of_key key l ++ if decide (kb.1 = key) then [kb.2] else [].
Proof.
  unfold of_key. rewrite filter_app, fmap_app, filter_cons, filter_nil. by case_decide.
Qed.

Lemma register_symbol_lookup s key b k :
  (register_symbol s key b).2 !! k =
    if decide (key = k) then
      match s !! k with
      | None => Some b
      | Some w => if hle w && negb (hle b) then Some b else Some w
      end
    else s !! k.
Proof.
  unfold register_symbol. destruct (decide (key = k)) as [->|Hk].
  - destruct (s !! k) as [w|] eqn:Hw; [case_match|]; cbn;
      by rewrite ?lookup_insert_eq, ?Hw.
  - destruct (s !! key) as [w|]; [case_match|]; cbn; by rewrite ?lookup_insert_ne.
Qed.

Lemma register_all_snoc s l kb :
  register_all s (l ++ [kb]) = (register_symbol (register_all s l) kb.1 kb.2).2.
Proof. unfold register_all. by rewrite foldl_app. Qed.

(** what a key resolves to, whatever the order in which modules and the
    emulation register: the first guest binding of the key, and the first
    emulated one when there is no guest binding.  In particular a guest
    export is never displaced, and a key resolves exactly when something
    registered it. *)
Theorem resolve_prefers_guest_bindings l key :
  resolve (register_all ∅ l) key = winner (of_key key l).
Proof.
  unfold resolve. induction l as [|kb l IH] using rev_ind; [done|].
  rewrite register_all_snoc, register_symbol_lookup, of_key_snoc, IH.
  case_decide; [by rewrite winner_snoc|by rewrite app_nil_r].
Qed.
