(* ===== verification/LateImports.v ===== *)
(** * The late-import table

    [src/include/nyxora/runtime/late_imports.hpp] and
    [src/src/runtime/late_imports.cpp]: an unresolved import gets a thunk, a
    few instructions in an arena of their own, which jumps to the address its
    data slot holds once the import is bound, and counts its calls until then.

    The table's arena lives in the host memory, which every operation that
    stores takes and returns. *)

From S2P Require Import Prelude NativeArena Symbols.

Local Open Scope Z_scope.

Record LateImportRecord : Type := mkLateImportRecord {
  lir_index : Z;
  lir_patch_address : Z;
  lir_thunk_address : Z;
  lir_key : SymbolKey;
  lir_symbol_name : string;
}.

Record LateImportTable : Type := mkLateImportTable {
  arena_ : NativeArena;
  capacity_ : Z;
  data_offset_ : Z;
  records_ : list LateImportRecord;
}.

Definition kThunkSize := 32.
Definition kDataSlotSize := 16.

(** The subtraction of two addresses as [std::int64_t]s. *)
Definition displacement (target next : Z) : result Z :=
  let d := to_i64 target - to_i64 next in
  throw_if ((d <? -9223372036854775808) || (i64_max <? d))
    (undefined_behaviour "signed overflow in a thunk displacement") ;;
  Ok d.

Definition write_i32 (code : list byte) (offset displacement : Z) : result (list byte) :=
  throw_if ((displacement <? -2147483648) || (2147483647 <? displacement))
    (runtime_error "late-import thunk displacement exceeds rel32 range") ;;
  Ok (zsplice code offset (le_encode 4 displacement)).

Definition thunk_template : list byte := map byte_of_Z
  [ 0x4c; 0x8b; 0x1d; 0; 0; 0; 0;   (* mov r11,[rip+target] *)
    0x4d; 0x85; 0xdb;               (* test r11,r11 *)
    0x75; 0x11;                     (* jnz resolved *)
    0x4c; 0x8d; 0x15; 0; 0; 0; 0;   (* lea r10,[rip+counter] *)
    0xf0; 0x49; 0xff; 0x02;         (* lock inc qword [r10] *)
    0x31; 0xc0;                     (* xor eax,eax *)
    0x0f; 0x57; 0xc0;               (* xorps xmm0,xmm0 *)
    0xc3;                           (* ret *)
    0x41; 0xff; 0xe3 ].             (* resolved: jmp r11 *)

Definition make_thunk (code_address data_address : Z) : result (list byte) :=
  d ← displacement data_address (wrap64 (code_address + 7));
  code ← write_i32 thunk_template 3 d;
  d ← displacement (wrap64 (data_address + 8)) (wrap64 (code_address + 19));
  write_i32 code 15 d.

(** [LateImportTable::thunk_address], [target_slot] and [counter_slot]. *)
Definition thunk_address (t : LateImportTable) (index : Z) : Z :=
  if index <? capacity_ t then wrap64 (arena_base (arena_ t) + index * kThunkSize) else 0.

Definition target_slot (t : LateImportTable) (index : Z) : option Z :=
  if capacity_ t <=? index then None
  else Some (wrap64 (arena_base (arena_ t) + data_offset_ t + index * kDataSlotSize)).

Definition counter_slot (t : LateImportTable) (index : Z) : option Z :=
  (fun target => wrap64 (target + 8)) <$> target_slot t index.

Section Operations.
Context `{HostOs}.

(** The loop of [create]: the thunks [index] to [index + count - 1]. *)
Fixpoint write_thunks (count : nat) (arena : NativeArena) (h : HostMem)
    (code_size index : Z) : result (bool * HostMem) :=
  match count with
  | O => Ok (true, h)
  | S count =>
      let code_address := wrap64 (arena_base arena + index * kThunkSize) in
      let data_address := wrap64 (arena_base arena + code_size + index * kDataSlotSize) in
      thunk ← make_thunk code_address data_address;
      '(copied, h) ← arena_copy arena h (index * kThunkSize) thunk;
      if negb copied then Ok (false, h)
      else write_thunks count arena h code_size (index + 1)
  end.

(** [LateImportTable::create] on an x86-64 host. *)
Definition create (h : HostMem) (capacity : Z) : result (option LateImportTable * HostMem) :=
  if (capacity =? 0) || (u64_max / kThunkSize <? capacity) || (u64_max / kDataSlotSize <? capacity)
  then Ok (None, h)
  else
    match checked_align_up (capacity * kThunkSize) page_size,
          checked_align_up (capacity * kDataSlotSize) page_size with
    | Some code_size, Some data_size =>
        if u64_max - data_size <? code_size then Ok (None, h)
        else
          match reserve h (code_size + data_size) 0 with
          | None => Ok (None, h)
          | Some (arena, h) =>
              let rw := prot_or prot_read prot_write in
              let '(ok, h) := arena_protect arena h 0 code_size rw in
              if negb ok then Ok (None, release arena h)
              else
                let '(ok, h) := arena_protect arena h code_size data_size rw in
                if negb ok then Ok (None, release arena h)
                else
                  '(ok, h) ← write_thunks (Z.to_nat capacity) arena h code_size 0;
                  if negb ok || negb (arena_flush arena 0 (capacity * kThunkSize))
                  then Ok (None, release arena h)
                  else
                    let rx := prot_or prot_read prot_execute in
                    let '(ok, h) := arena_protect arena h 0 code_size rx in
                    if negb ok then Ok (None, release arena h)
                    else Ok (Some (mkLateImportTable arena capacity code_size []), h)
          end
    | _, _ => Ok (None, h)
    end.

End Operations.

(** [LateImportTable::find_by_patch]. *)
Definition find_by_patch (t : LateImportTable) (patch_address : Z) : option LateImportRecord :=
  head (filter (fun r => lir_patch_address r = patch_address) (records_ t)).

(** [LateImportTable::get_or_create]. *)
Definition get_or_create (t : LateImportTable) (patch_address : Z) (key : SymbolKey)
    (symbol_name : string) : option Z * LateImportTable :=
  match find_by_patch t patch_address with
  | Some existing =>
      if bool_decide (lir_key existing = key) then (Some (lir_thunk_address existing), t)
      else (None, t)
  | None =>
      if capacity_ t <=? zlen (records_ t) then (None, t)
      else
        let index := zlen (records_ t) in
        let record := mkLateImportRecord index patch_address (thunk_address t index) key symbol_name in
        (Some (lir_thunk_address record),
         mkLateImportTable (arena_ t) (capacity_ t) (data_offset_ t) (records_ t ++ [record]))
  end.

(** [LateImportTable::bind_patch]: the store into the slot of the thunk. *)
Definition bind_patch (t : LateImportTable) (h : HostMem) (patch_address target : Z)
  : result (bool * HostMem) :=
  match find_by_patch t patch_address with
  | None => Ok (false, h)
  | Some record =>
      if target =? 0 then Ok (false, h)
      else
        match target_slot t (lir_index record) with
        | None => Throw (undefined_behaviour "store through a null target slot")
        | Some slot => (fun h => (true, h)) <$> host_memcpy h slot (le_encode 8 target)
        end
  end.

(** [LateImportTable::call_count]. *)
Definition call_count (t : LateImportTable) (h : HostMem) (index : Z) : Z :=
  match counter_slot t index with
  | None => 0
  | Some counter => host_word h counter
  end.

(** ** The thunks [create] writes *)

(** The [rel32] field of an instruction. *)
Definition rel32 (code : list byte) (offset : Z) : Z := to_i32 (le_decode (zslice code offset 4)).

(** The instructions of a thunk at [code_address], with the addresses its two
    memory operands designate: [next instruction + rel32]. *)
Record is_thunk (code : list byte) (code_address target counter : Z) : Prop := {
  thunk_length : length code = 32%nat;
  thunk_load : zslice code 0 3 = zslice thunk_template 0 3;
  thunk_load_target : wrap64 (code_address + 7 + rel32 code 3) = target;
  thunk_test : zslice code 7 8 = zslice thunk_template 7 8;
  thunk_count : wrap64 (code_address + 19 + rel32 code 15) = counter;
  thunk_tail : zslice code 19 13 = zslice thunk_template 19 13;
}.

#[local] Arguments le_encode : simpl never.
#[local] Arguments zsplice : simpl never.
#[local] Arguments zslice : simpl never.
#[local] Arguments thunk_template : simpl never.

(** The template with both displacement fields written. *)
Lemma thunk_fields x y :
  let code := zsplice (zsplice thunk_template 3 (le_encode 4 x)) 15 (le_encode 4 y) in
  length code = 32%nat /\ zslice code 0 3 = zslice thunk_template 0 3 /\
  zslice code 3 4 = le_encode 4 x /\ zslice code 7 8 = zslice thunk_template 7 8 /\
  zslice code 15 4 = le_encode 4 y /\ zslice code 19 13 = zslice thunk_template 19 13.
Proof.
  destruct (le_encode_4 x) as (? & ? & ? & ? & ->), (le_encode_4 y) as (? & ? & ? & ? & ->).
  cbv zeta. split_and!; reflexivity.
Qed.

Lemma make_thunk_spec c d code :
  in_u64 c -> in_u64 d -> make_thunk c d = Ok code -> is_thunk code c d (wrap64 (d + 8)).
Proof.
  intros Hc Hd. unfold make_thunk, displacement, write_i32. intros Hm. inv_result. bools.
  set (x := to_i64 d - _) in *. set (y := to_i64 (wrap64 (d + 8)) - _) in *.
  destruct (thunk_fields x y) as (? & ? & Hx & ? & Hy & ?).
  pose proof (to_i32_le_encode x ltac:(lia)) as Ex. rewrite <- Hx in Ex.
  pose proof (to_i32_le_encode y ltac:(lia)) as Ey. rewrite <- Hy in Ey.
  split; try done; unfold rel32.
  - rewrite Ex. etransitivity; [apply (displacement_lands c 7 d)|by apply wrap64_small].
  - rewrite Ey. etransitivity; [apply (displacement_lands c 19)|].
    apply wrap64_small, wrap64_range.
Qed.

Section Create.
Context `{HostOs, !HostOsLaws H}.

(** The loop writes the thunks of its indices and touches nothing else. *)
Lemma write_thunks_spec count arena h code_size i ok h' :
  0 <= arena_base arena -> 0 <= i -> 0 <= code_size ->
  arena_base arena + arena_size arena <= u64_max ->
  arena_base arena + code_size + (i + Z.of_nat count) * kDataSlotSize <= u64_max ->
  write_thunks count arena h code_size i = Ok (ok, h') ->
  hm_prot h' = hm_prot h /\
  (forall a, ~ arena_base arena + i * kThunkSize <= a
               < arena_base arena + (i + Z.of_nat count) * kThunkSize ->
    hm_byte h' a = hm_byte h a) /\
  (ok = true -> forall j, i <= j < i + Z.of_nat count ->
    exists data, data = arena_base arena + code_size + j * kDataSlotSize /\
    is_thunk (host_bytes h' (arena_base arena + j * kThunkSize) kThunkSize)
      (arena_base arena + j * kThunkSize) data (wrap64 (data + 8))).
Proof.
  unfold kThunkSize, kDataSlotSize.
  revert h i. induction count as [|count IH]; intros h i Hb Hi Hcs Hend Hdata; cbn [write_thunks].
  { intros [= <- <-]. split_and!; [done..|]. intros _ j Hj. lia. }
  unfold kThunkSize, kDataSlotSize. intros Hw. inv_result. destruct r0 as [copied h1]. cbn in Hw.
  pose proof Hr0 as [[-> ->]|(-> & -> & Hle)]%arena_copy_spec;
    cbn [negb] in Hw; [inv_result; split_and!; done|].
  rename r into thunk.
  assert (in_u64 (wrap64 (arena_base arena + i * 32)) /\
    in_u64 (wrap64 (arena_base arena + code_size + i * 16))) as [Hc Hd] by (split; apply wrap64_range).
  pose proof (make_thunk_spec _ _ _ Hc Hd Hr) as Ht. pose proof (thunk_length _ _ _ _ Ht) as Hlen.
  rewrite (wrap64_small (arena_base arena + i * 32)), (wrap64_small (arena_base arena + code_size + i * 16)) in Ht
    by (unfold in_u64; lia).
  destruct (IH (host_put h (arena_base arena + i * 32) thunk) (i + 1)) as (Hp & Hby & Hth);
    [lia..|done|]. clear IH.
  split; [by rewrite Hp|]. split.
  - intros a Ha. rewrite Hby by lia. rewrite host_put_get.
    by rewrite (proj2 (in_range_false _ _ _)) by lia.
  - intros Hok j Hj. destruct (decide (j = i)) as [->|Hji].
    + eexists; split; [done|]. rewrite (host_bytes_ext (host_put h (arena_base arena + i * 32) thunk) h').
      * pose proof (host_bytes_put h (arena_base arena + i * 32) thunk) as Hput.
        rewrite Hlen in Hput. change (Z.of_nat 32) with 32 in Hput. by rewrite Hput.
      * intros a Ha. apply Hby. lia.
    + apply Hth; [done|lia].
Qed.

(** The words of the data slot of a thunk. *)
Definition slot_target (t : LateImportTable) (h : HostMem) (index : Z) : Z :=
  match target_slot t index with Some slot => host_word h slot | None => 0 end.

(** The layout of a table: the thunks, then, on pages of their own, the data
    slots. *)
Record layout (t : LateImportTable) : Prop := {
  layout_base : 0 < arena_base (arena_ t);
  layout_capacity : 0 < capacity_ t;
  layout_code : capacity_ t * kThunkSize <= data_offset_ t;
  layout_data : data_offset_ t + capacity_ t * kDataSlotSize <= arena_size (arena_ t);
  layout_end : arena_base (arena_ t) + arena_size (arena_ t) <= u64_max;
}.

Lemma layout_thunk t i : layout t -> 0 <= i < capacity_ t ->
  thunk_address t i = arena_base (arena_ t) + i * kThunkSize.
Proof.
  intros [] Hi. unfold thunk_address, kThunkSize, kDataSlotSize in *.
  destruct (Z.ltb_spec i (capacity_ t)); [|lia]. apply wrap64_small. unfold in_u64. lia.
Qed.

Lemma layout_target t i : layout t -> 0 <= i < capacity_ t ->
  target_slot t i = Some (arena_base (arena_ t) + data_offset_ t + i * kDataSlotSize).
Proof.
  intros [] Hi. unfold target_slot, kThunkSize, kDataSlotSize in *.
  destruct (Z.leb_spec (capacity_ t) i); [lia|]. f_equal. apply wrap64_small. unfold in_u64. lia.
Qed.

Lemma layout_counter t i : layout t -> 0 <= i < capacity_ t ->
  counter_slot t i = Some (arena_base (arena_ t) + data_offset_ t + i * kDataSlotSize + 8).
Proof.
  intros Hl Hi. unfold counter_slot. rewrite layout_target by done. cbn. f_equal.
  destruct Hl. unfold kThunkSize, kDataSlotSize in *. apply wrap64_small. unfold in_u64. lia.
Qed.

(** A table fresh from [create]: the state of the host and the thunks. *)
Definition built (t : LateImportTable) (h : HostMem) : Prop :=
  forall i, 0 <= i < capacity_ t ->
    exists target counter, target_slot t i = Some target /\ counter_slot t i = Some counter /\
    is_thunk (host_bytes h (thunk_address t i) kThunkSize) (thunk_address t i) target counter /\
    (forall a, thunk_address t i <= a < thunk_address t i + kThunkSize ->
      hm_prot h a = Z.lor PROT_READ PROT_EXEC) /\
    (forall a, target <= a < target + kDataSlotSize ->
      hm_prot h a = Z.lor PROT_READ PROT_WRITE /\ hm_byte h a = zero_byte).

Lemma create_built h capacity t h' :
  in_u64 capacity -> create h capacity = Ok (Some t, h') ->
  records_ t = [] /\ capacity_ t = capacity /\ layout t /\ built t h'.
Proof.
  unfold create. intros Hc Hcr. pose proof page_size_pos as Hpage.
  unfold kThunkSize, kDataSlotSize in *. destruct (_ || _) eqn:Hcap in Hcr; [done|]. bools.
  change (u64_max / 32) with 576460752303423487 in *.
  destruct (checked_align_up (capacity * 32) page_size) as [code_size|] eqn:Ecs; [|done].
  destruct (checked_align_up (capacity * 16) page_size) as [data_size|] eqn:Eds; [|done].
  apply checked_align_up_Some in Ecs as (Hcs & Hcsm & Hcsr & _), Eds as (Hds & Hdsm & Hdsr & _);
    [|unfold in_u64 in *; lia..].
  destruct (Z.ltb_spec (u64_max - data_size) code_size); [done|].
  unfold reserve in Hcr.
  destruct (checked_align_up (code_size + data_size) page_size) as [total|] eqn:Ets; [|done].
  apply checked_align_up_Some in Ets as (Hts & _ & Htr & _); [|unfold in_u64 in *; lia..].
  cbn [Z.eqb negb andb] in Hcr. destruct (os_mmap _ _ _) as [base|] eqn:Hmm; [|done].
  apply os_mmap_range in Hmm as (Hb & Hbe & _).
  set (arena := mkNativeArena base total) in *. set (h0 := mkHostMem _ _ _) in Hcr.
  destruct (arena_protect arena h0 0 code_size _) as [[] h1] eqn:Hp1; [|done].
  destruct (arena_protect arena h1 code_size data_size _) as [[] h2] eqn:Hp2; [|done].
  cbn [negb] in Hcr. inv_result. destruct r as [ok h3].
  destruct (negb ok || _) eqn:Hok; [done|]. apply orb_false_iff in Hok as [Hok%negb_false_iff _].
  destruct (arena_protect arena h3 0 code_size _) as [[] h4] eqn:Hp4; [|done].
  cbn [negb] in Hcr. inv_result.
  apply arena_protect_exact in Hp1 as [Hb1 Hq1], Hp2 as [Hb2 Hq2], Hp4 as [Hb4 Hq4]; [|done..].
  apply write_thunks_spec in Hr as (Hq3 & Hb3 & Hth);
    [|cbn; unfold in_u64, kDataSlotSize in *; lia..].
  specialize (Hth eq_refl). cbn [arena_base arena] in *. unfold in_u64, kThunkSize, kDataSlotSize in *.
  assert (layout (mkLateImportTable arena capacity code_size [])) as Hl.
  { split; cbn; unfold kThunkSize, kDataSlotSize; lia. }
  split_and!; [done..|]. intros i Hi. cbn [capacity_] in Hi.
  rewrite layout_target, layout_counter, layout_thunk by done. cbn [arena_ arena_base arena data_offset_].
  unfold kThunkSize, kDataSlotSize. do 2 eexists. split; [done|]. split; [done|].
  destruct (Hth i) as (? & -> & Ht); [lia|]. split_and!.
  - rewrite (host_bytes_ext h3 h') by (intros; apply Hb4).
    rewrite wrap64_small in Ht by (unfold in_u64; lia). done.
  - intros a Ha. rewrite Hq4. by rewrite (proj2 (in_range_true _ _ _)) by lia.
  - intros a Ha. rewrite Hq4, (proj2 (in_range_false _ _ _)), Hq3, Hq2, (proj2 (in_range_true _ _ _)) by lia.
    split; [done|]. rewrite Hb4, Hb3, Hb2, Hb1 by lia. cbn.
    by rewrite (proj2 (in_range_true _ _ _)) by lia.
Qed.

End Create.

(** ** The table as a list of bindings

    What the linker relies on: a bounded list of imports in order of creation,
    each with its patch address, its key and the address it is bound to. *)

Record import : Type := mkImport { im_patch : Z; im_key : SymbolKey; im_target : Z }.

Definition spec_find (s : list import) (patch : Z) : option (nat * import) :=
  list_find (fun e => im_patch e = patch) s.

(** The position of the import whose thunk is answered. *)
Definition spec_get (capacity : Z) (s : list import) (patch : Z) (key : SymbolKey)
  : option nat * list import :=
  match spec_find s patch with
  | Some (i, e) => (if bool_decide (im_key e = key) then Some i else None, s)
  | None =>
      if capacity <=? zlen s then (None, s)
      else (Some (length s), s ++ [mkImport patch key 0])
  end.

Definition spec_bind (s : list import) (patch target : Z) : bool * list import :=
  match spec_find s patch with
  | None => (false, s)
  | Some (i, e) =>
      if target =? 0 then (false, s)
      else (true, <[i := mkImport (im_patch e) (im_key e) target]> s)
  end.

Inductive late_op : Type :=
| op_get (patch_address : Z) (key : SymbolKey) (symbol_name : string)
| op_bind (patch_address target : Z).

Inductive answer (A : Type) : Type := got (a : option A) | bound (b : bool).
Arguments got {A} a.
Arguments bound {A} b.

Definition answer_map {A B} (f : A -> B) (a : answer A) : answer B :=
  match a with got a => got (f <$> a) | bound b => bound b end.

Definition do_late (t : LateImportTable) (h : HostMem) (o : late_op)
  : result (answer Z * (LateImportTable * HostMem)) :=
  match o with
  | op_get patch key name => let '(a, t) := get_or_create t patch key name in Ok (got a, (t, h))
  | op_bind patch target => '(b, h) ← bind_patch t h patch target; Ok (bound b, (t, h))
  end.

Definition do_spec (capacity : Z) (s : list import) (o : late_op) : answer nat * list import :=
  match o with
  | op_get patch key name => let '(a, s) := spec_get capacity s patch key in (got a, s)
  | op_bind patch target => let '(b, s) := spec_bind s patch target in (bound b, s)
  end.

Fixpoint run_late (t : LateImportTable) (h : HostMem) (ops : list late_op)
  : result (list (answer Z) * (LateImportTable * HostMem)) :=
  match ops with
  | [] => Ok ([], (t, h))
  | o :: ops =>
      '(a, (t, h)) ← do_late t h o;
      '(l, th) ← run_late t h ops;
      Ok (a :: l, th)
  end.

Fixpoint run_spec (capacity : Z) (s : list import) (ops : list late_op)
  : list (answer nat) * list import :=
  match ops with
  | [] => ([], s)
  | o :: ops =>
      let '(a, s) := do_spec capacity s o in
      let '(l, s) := run_spec capacity s ops in (a :: l, s)
  end.

Definition op_in_range (o : late_op) : Prop :=
  match o with op_get _ _ _ => True | op_bind _ target => in_u64 target end.

(** The list a table and the host memory stand for. *)
Definition import_of (t : LateImportTable) (h : HostMem) (r : LateImportRecord) : import :=
  mkImport (lir_patch_address r) (lir_key r) (slot_target t h (lir_index r)).
Definition imports (t : LateImportTable) (h : HostMem) : list import :=
  import_of t h <$> records_ t.

(** The invariant of a table in use. *)
Record late_inv (t : LateImportTable) (h : HostMem) : Prop := {
  li_layout : layout t;
  li_count : zlen (records_ t) <= capacity_ t;
  li_record i r : records_ t !! i = Some r ->
    lir_index r = Z.of_nat i /\ lir_thunk_address r = thunk_address t (Z.of_nat i);
  li_thunk i : 0 <= i < capacity_ t -> exists target counter,
    target_slot t i = Some target /\ counter_slot t i = Some counter /\
    is_thunk (host_bytes h (thunk_address t i) kThunkSize) (thunk_address t i) target counter;
  li_writable i slot a : 0 <= i < capacity_ t -> target_slot t i = Some slot ->
    slot <= a < slot + kDataSlotSize -> has (hm_prot h a) PROT_WRITE = true;
  li_fresh i : zlen (records_ t) <= i < capacity_ t -> slot_target t h i = 0;
}.

Lemma head_filter_list_find {A} (P : A -> Prop) `{forall x, Decision (P x)} (l : list A) :
  head (filter P l) = snd <$> list_find P l.
Proof.
  induction l as [|x l IH]; [done|]. rewrite filter_cons. cbn. case_decide; [done|].
  rewrite IH. by destruct (list_find P l) as [[]|].
Qed.

(** The two searches find the same import. *)
Lemma spec_find_imports t h patch :
  match list_find (fun r => lir_patch_address r = patch) (records_ t) with
  | Some (i, r) => find_by_patch t patch = Some r /\ records_ t !! i = Some r /\
      lir_patch_address r = patch /\ spec_find (imports t h) patch = Some (i, import_of t h r)
  | None => find_by_patch t patch = None /\ spec_find (imports t h) patch = None
  end.
Proof.
  unfold find_by_patch, spec_find, imports. rewrite head_filter_list_find, list_find_fmap.
  unfold compose. cbn.
  destruct (list_find _ (records_ t)) as [[i r]|] eqn:Hf; cbn; [|done].
  apply list_find_Some in Hf as (? & ? & _). done.
Qed.

Lemma zero_word h a : (forall x, a <= x < a + 8 -> hm_byte h x = zero_byte) -> host_word h a = 0.
Proof.
  intros Hz. unfold host_word.
  assert (host_bytes h a 8 = replicate 8 zero_byte) as ->; [|done].
  apply zget_ext; [done|]. intros i Hi. rewrite host_bytes_length in Hi by lia.
  rewrite host_bytes_get, (zget_replicate 8) by done. by rewrite Hz by lia.
Qed.

Lemma built_inv t h : records_ t = [] -> layout t -> built t h -> late_inv t h /\ imports t h = [].
Proof.
  intros Hr Hl Hb. split; [|unfold imports; by rewrite Hr]. split; try done.
  - rewrite Hr. destruct Hl. cbn. lia.
  - intros i r. by rewrite Hr.
  - intros i Hi. destruct (Hb i Hi) as (target & counter & ? & ? & ? & _). by exists target, counter.
  - intros i slot a Hi Hs Ha. destruct (Hb i Hi) as (target & counter & Ht & _ & _ & _ & Hd).
    assert (target = slot) as -> by congruence. apply Hd in Ha as [-> _]. done.
  - rewrite Hr. intros i Hi. destruct (Hb i ltac:(cbn in Hi; lia)) as (target & _ & Ht & _ & _ & _ & Hd).
    unfold slot_target. rewrite Ht. apply zero_word. intros x Hx. apply Hd. unfold kDataSlotSize. lia.
Qed.

(** What [get_or_create] never changes. *)
Definition same_frame (t t' : LateImportTable) : Prop :=
  arena_ t' = arena_ t /\ capacity_ t' = capacity_ t /\ data_offset_ t' = data_offset_ t.

#[export] Instance same_frame_preorder : PreOrder same_frame.
Proof. split; unfold same_frame; [by intros ?|]. intros ? ? ? (-> & -> & ->) (-> & -> & ->). done. Qed.

Lemma same_frame_thunk t t' i : same_frame t t' -> thunk_address t' i = thunk_address t i.
Proof. intros (Ha & Hc & _). unfold thunk_address. by rewrite Ha, Hc. Qed.

Lemma get_or_create_refines t h patch key name :
  late_inv t h ->
  exists a t', get_or_create t patch key name = ((fun i => thunk_address t (Z.of_nat i)) <$> a, t') /\
    spec_get (capacity_ t) (imports t h) patch key = (a, imports t' h) /\
    late_inv t' h /\ same_frame t t'.
Proof.
  intros Hi. pose proof Hi as [Hl Hc Hr Ht Hw Hf]. unfold get_or_create, spec_get.
  pose proof (spec_find_imports t h patch) as Hs.
  destruct (list_find _ (records_ t)) as [[i r]|].
  - destruct Hs as (-> & Hri & Hp & ->). destruct (Hr i r Hri) as [Hri1 Hri2]. cbn [im_key import_of].
    case_bool_decide; [exists (Some i), t|exists None, t]; (split_and!; [|done..]); [|done].
    by rewrite Hri2.
  - destruct Hs as [-> ->]. unfold imports. rewrite length_fmap.
    destruct (Z.leb_spec (capacity_ t) (zlen (records_ t))); [by exists None, t|].
    eexists (Some (length (records_ t))), _. split; [done|]. cbn [records_].
    split; [|split; [|done]].
    + rewrite fmap_app. cbn. do 3 f_equal. unfold import_of. cbn. f_equal. symmetry. apply (Hf (zlen (records_ t))). lia.
    + split; cbn [records_ capacity_]; [by destruct Hl| | |exact Ht|exact Hw|].
      * rewrite length_app. cbn. lia.
      * intros i r. rewrite lookup_app. destruct (records_ t !! i) as [x|] eqn:Hx.
        { intros [= <-]. by apply Hr. }
        intros Hi1. apply list_lookup_singleton_Some in Hi1 as [Hi1 <-].
        apply lookup_ge_None in Hx. cbn. assert (i = length (records_ t)) as -> by lia. done.
      * rewrite length_app. cbn. intros i Hi1. apply Hf. lia.
Qed.

(** A store into one slot. *)
Lemma slot_put t h i slot v j :
  layout t -> 0 <= i < capacity_ t -> 0 <= j < capacity_ t -> in_u64 v ->
  target_slot t i = Some slot ->
  slot_target t (host_put h slot (le_encode 8 v)) j = if decide (i = j) then v else slot_target t h j.
Proof.
  intros Hl Hi Hj Hv. unfold slot_target. rewrite !layout_target by done. intros [= <-].
  case_decide as Hij; [subst; by apply host_word_put|].
  unfold host_word. rewrite host_bytes_put_ne; [done|]. rewrite le_encode_length.
  unfold kDataSlotSize. lia.
Qed.

Lemma bind_patch_refines t h patch target :
  late_inv t h -> in_u64 target ->
  exists b h', bind_patch t h patch target = Ok (b, h') /\
    spec_bind (imports t h) patch target = (b, imports t h') /\ late_inv t h' /\
    hm_prot h' = hm_prot h /\
    forall a, ~ arena_base (arena_ t) <= a < arena_base (arena_ t) + arena_size (arena_ t) ->
      hm_byte h' a = hm_byte h a.
Proof.
  intros Hi Hv. pose proof Hi as [Hl Hc Hr Ht Hw Hf]. unfold bind_patch, spec_bind.
  pose proof (spec_find_imports t h patch) as Hs.
  destruct (list_find _ (records_ t)) as [[i r]|].
  2: { destruct Hs as [-> ->]. by exists false, h. }
  destruct Hs as (-> & Hri & Hp & ->). destruct (Hr i r Hri) as [Hix _]. rewrite Hix.
  destruct (target =? 0); [by exists false, h|].
  pose proof (lookup_lt_Some _ _ _ Hri) as Hlt.
  assert (0 <= Z.of_nat i < capacity_ t) as Hin by lia.
  rewrite layout_target by done. pose proof (layout_target t (Z.of_nat i) Hl Hin) as Hslot.
  set (slot := arena_base (arena_ t) + _ + _) in *.
  assert (host_writable h slot (zlen (le_encode 8 target)) = true) as Hwr.
  { apply host_writable_true; [lia|]. rewrite le_encode_length. intros a Ha.
    apply (Hw (Z.of_nat i) slot); [done|done|]. unfold kDataSlotSize. lia. }
  unfold host_memcpy. rewrite Hwr. cbn [negb throw_if].
  exists true, (host_put h slot (le_encode 8 target)). split; [done|].
  pose proof Hl as [_ _ Hlc Hld _]. unfold kThunkSize, kDataSlotSize in *.
  split; [|split; [|split; [done|]]].
  - f_equal. apply list_eq. intros j. unfold imports. rewrite list_lookup_fmap.
    destruct (decide (i = j)) as [<-|Hij].
    + rewrite list_lookup_insert_eq by (rewrite length_fmap; done). rewrite Hri. cbn. unfold import_of.
      cbn. rewrite Hix, (slot_put t h (Z.of_nat i)) by done. by rewrite decide_True.
    + rewrite list_lookup_insert_ne, list_lookup_fmap by done.
      destruct (records_ t !! j) as [x|] eqn:Hx; [|done]. cbn. f_equal. unfold import_of. f_equal.
      destruct (Hr j x Hx) as [-> _]. apply lookup_lt_Some in Hx.
      rewrite (slot_put t h (Z.of_nat i)) by (done || lia). by rewrite decide_False by lia.
  - split; try done.
    + intros j Hj. destruct (Ht j Hj) as (tg & ct & Htg & Hct & Hth). exists tg, ct. split_and!; [done..|].
      rewrite host_bytes_put_ne; [done|]. left. rewrite layout_thunk by done.
      unfold kThunkSize, slot. lia.
    + intros j Hj. rewrite (slot_put t h (Z.of_nat i)) by (done || lia).
      rewrite decide_False by lia. by apply Hf.
  - intros a Ha. rewrite host_put_get. rewrite (proj2 (in_range_false _ _ _)); [done|].
    rewrite le_encode_length. unfold slot. lia.
Qed.

Lemma do_late_refines t h o :
  late_inv t h -> op_in_range o ->
  exists a t' h', do_late t h o = Ok (answer_map (fun i => thunk_address t (Z.of_nat i)) a, (t', h')) /\
    do_spec (capacity_ t) (imports t h) o = (a, imports t' h') /\
    late_inv t' h' /\ same_frame t t'.
Proof.
  intros Hi Ho. destruct o as [patch key name|patch target]; cbn.
  - destruct (get_or_create_refines t h patch key name Hi) as (a & t' & -> & -> & ? & ?).
    by exists (got a), t', h.
  - destruct (bind_patch_refines t h patch target Hi Ho) as (b & h' & -> & -> & ? & _).
    by exists (bound b), t, h'.
Qed.

Lemma run_late_refines ops t h :
  late_inv t h -> Forall op_in_range ops ->
  exists l t' h',
    run_late t h ops = Ok (answer_map (fun i => thunk_address t (Z.of_nat i)) <$> l, (t', h')) /\
    run_spec (capacity_ t) (imports t h) ops = (l, imports t' h') /\
    late_inv t' h' /\ same_frame t t'.
Proof.
  revert t h. induction ops as [|o ops IH]; intros t h Hi Ho.
  { by exists [], t, h. }
  apply Forall_cons in Ho as [Ho Hops].
  destruct (do_late_refines t h o Hi Ho) as (a & t1 & h1 & E1 & E2 & Hi1 & Hf1).
  destruct (IH t1 h1 Hi1 Hops) as (l & t2 & h2 & E3 & E4 & Hi2 & Hf2).
  exists (a :: l), t2, h2. cbn [run_late run_spec fmap list_fmap]. rewrite E1. cbn. rewrite E3. cbn.
  split; [|split; [|split; [done|by etransitivity]]].
  - do 3 f_equal. apply list_fmap_ext. intros _ [[i|]|b] _; cbn; try done.
    by rewrite (same_frame_thunk t t1).
  - rewrite E2. pose proof Hf1 as (_ & Hcap & _). rewrite Hcap in E4. by rewrite E4.
Qed.

(** The table only depends on its own arena. *)
Lemma late_inv_same t h h' :
  late_inv t h ->
  (forall a, arena_base (arena_ t) <= a < arena_base (arena_ t) + arena_size (arena_ t) ->
    hm_byte h' a = hm_byte h a /\ hm_prot h' a = hm_prot h a) ->
  late_inv t h' /\ imports t h' = imports t h.
Proof.
  intros [Hl Hc Hr Ht Hw Hf] Hs. pose proof Hl as [_ _ Hlc Hld _].
  unfold kThunkSize, kDataSlotSize in *.
  assert (forall i, 0 <= i < capacity_ t -> slot_target t h' i = slot_target t h i) as Hst.
  { intros i Hi. unfold slot_target. rewrite layout_target by done. unfold host_word, kDataSlotSize.
    rewrite (host_bytes_ext h h'); [done|]. intros a Ha. apply Hs. lia. }
  split.
  - split; try done.
    + intros i Hi. destruct (Ht i Hi) as (tg & ct & ? & ? & Hth). exists tg, ct. split_and!; [done..|].
      rewrite (host_bytes_ext h h'); [done|]. rewrite layout_thunk by done. unfold kThunkSize.
      intros a Ha. apply Hs. lia.
    + intros i slot a Hi Hslot Ha. destruct (Hs a) as [_ ->]; [|by eapply Hw].
      rewrite layout_target in Hslot by done. unfold kDataSlotSize in *. simplify_eq. lia.
    + intros i Hi. rewrite Hst by lia. by apply Hf.
  - unfold imports. apply list_fmap_ext. intros i r Hi. unfold import_of. f_equal.
    destruct (Hr i r Hi) as [-> _]. apply lookup_lt_Some in Hi. apply Hst. lia.
Qed.

(** the table [create] returns.  Every thunk of the arena is the
    instruction sequence of the source; its first memory operand is the target
    word of the thunk's data slot and its second the counter word, both 0; the
    code is executable and not writable, the slots are writable. *)
Theorem create_builds_thunks `{HostOs, !HostOsLaws H} h capacity t h' :
  in_u64 capacity -> create h capacity = Ok (Some t, h') ->
  records_ t = [] /\ capacity_ t = capacity /\ built t h' /\
  (forall i, 0 <= i < capacity -> call_count t h' i = 0) /\
  (forall i j ti tj, 0 <= i < j -> target_slot t i = Some ti -> target_slot t j = Some tj ->
    thunk_address t i + kThunkSize <= thunk_address t j /\ thunk_address t j + kThunkSize <= ti /\
    ti + kDataSlotSize <= tj).
Proof.
  intros Hc Hcr. destruct (create_built _ _ _ _ Hc Hcr) as (Hr & <- & Hl & Hb).
  split_and!; [done..| |].
  - intros i Hi. destruct (Hb i Hi) as (target & counter & Ht & Hct & _ & _ & Hd).
    unfold call_count. rewrite Hct. rewrite layout_counter in Hct by done.
    rewrite layout_target in Ht by done. simplify_eq. apply zero_word.
    intros x Hx. apply Hd. unfold kDataSlotSize in *. lia.
  - intros i j ti tj Hij Hti Htj. assert (j < capacity_ t).
    { unfold target_slot in Htj. destruct (Z.leb_spec (capacity_ t) j); [done|lia]. }
    rewrite !layout_thunk, !layout_target in * by (done || lia). simplify_eq.
    destruct Hl. unfold kThunkSize, kDataSlotSize in *. nia.
Qed.

(** the table implements a bounded list of imports.  Whatever sequence of
    [get_or_create] and [bind_patch] calls follows [create], no call reaches
    undefined behaviour, and the answers and the imports (patch address, key,
    bound target of each) are those of [run_spec] on a list: an import is
    created once per patch address while there is room, keeps its key, its
    thunk (thunk [i] for the [i]-th import) and, once bound, the last target
    bound at its patch address. *)
Theorem late_imports_refine_list `{HostOs, !HostOsLaws H} h capacity t h0 ops :
  in_u64 capacity -> create h capacity = Ok (Some t, h0) -> Forall op_in_range ops ->
  exists l t' h',
    run_late t h0 ops = Ok (answer_map (fun i => thunk_address t (Z.of_nat i)) <$> l, (t', h')) /\
    run_spec capacity [] ops = (l, imports t' h') /\ zlen (imports t' h') <= capacity.
Proof.
  intros Hc Hcr Ho. destruct (create_built _ _ _ _ Hc Hcr) as (Hr & <- & Hl & Hb).
  destruct (built_inv t h0 Hr Hl Hb) as [Hi Hn].
  destruct (run_late_refines ops t h0 Hi Ho) as (l & t' & h' & E1 & E2 & Hi' & Hf).
  rewrite Hn in E2. exists l, t', h'. split_and!; [done..|].
  unfold imports. rewrite length_fmap. pose proof (li_count _ _ Hi') as Hcnt.
  by destruct Hf as (_ & <- & _).
Qed.

(** ** Witnesses *)

Definition small_host : HostOs := {|
  page_size := 64;
  os_mmap _ size _ := if 4096 + size <=? u64_max then Some 4096 else None;
  os_mprotect _ _ _ _ := true;
|}.

Lemma small_host_laws : HostOsLaws small_host.
Proof.
  split; cbn; [lia|]. intros _ size _ p. destruct (Z.leb_spec (4096 + size) u64_max); [|done].
  intros [= <-]. split_and!; done.
Qed.

Definition small_mem : HostMem := mkHostMem (fun _ => zero_byte) (fun _ => PROT_NONE) 0.
Definition small_created := @create small_host small_mem 2.
Definition small_table : LateImportTable := mkLateImportTable (mkNativeArena 4096 128) 2 64 [].
Definition small_host_mem : HostMem :=
  match small_created with Ok (_, h) => h | Throw _ => small_mem end.

Lemma small_created_Ok : small_created = Ok (Some small_table, small_host_mem).
Proof. reflexivity. Qed.

Definition small_key : SymbolKey := mkSymbolKey "n" "l" "m" 1 1 1 sym_function.
Definition small_ops : list late_op :=
  [op_get 100 small_key "f"; op_bind 100 7; op_get 200 small_key "f"; op_bind 300 9;
   op_get 300 small_key "f"; op_bind 100 8].

Lemma create_builds_thunks_witness :
  exists t h, small_created = Ok (Some t, h) /\ capacity_ t = 2 /\ built t h.
Proof.
  exists small_table, small_host_mem. split; [reflexivity|].
  destruct (@create_builds_thunks small_host small_host_laws small_mem 2 small_table small_host_mem)
    as (_ & Hc & Hb & _); [by unfold in_u64|exact small_created_Ok|].
  split; [exact Hc|exact Hb].
Defined.

Lemma late_imports_refine_list_witness :
  exists l t' h',
    run_late small_table small_host_mem small_ops = Ok (l, (t', h')) /\
    l = [got (Some 4096); bound true; got (Some 4128); bound false; got None; bound true] /\
    imports t' h' = [mkImport 100 small_key 8; mkImport 200 small_key 0].
Proof.
  destruct (@late_imports_refine_list small_host small_host_laws small_mem 2 small_table
    small_host_mem small_ops) as (l & t' & h' & E & E' & _);
    [by unfold in_u64|exact small_created_Ok|repeat constructor; done|].
  assert (run_spec 2 [] small_ops =
    ([got (Some 0%nat); bound true; got (Some 1%nat); bound false; got None; bound true],
     [mkImport 100 small_key 8; mkImport 200 small_key 0])) as Es by reflexivity.
  rewrite Es in E'. injection E' as <- Ei. eexists _, t', h'. split; [exact E|].
  split; [reflexivity|by symmetry].
Defined.
