(* ===== verification/LateThunks.v ===== *)
(** * The thunks of late imports, run

    The machine code that [make_thunk] of [src/src/runtime/late_imports.cpp]
    writes, on the processor of X86.v: a call of a thunk goes on to the bound
    target with every argument register in place, or, while the import is not
    bound, is counted and answers zero. *)

From S2P Require Import Prelude NativeArena Symbols LateImports X86.

Local Open Scope Z_scope.

(** ** The listing of a thunk *)

Section Listing.
(** The bytes of the distances to the target slot and to the counter. *)
Variables x0 x1 x2 x3 y0 y1 y2 y3 : byte.

Definition load_bytes : list byte := map byte_of_Z [0x4c; 0x8b; 0x1d] ++ [x0; x1; x2; x3].
Definition lea_bytes : list byte := map byte_of_Z [0x4c; 0x8d; 0x15] ++ [y0; y1; y2; y3].
Definition test_bytes : list byte := map byte_of_Z [0x4d; 0x85; 0xdb].
Definition jnz_bytes : list byte := map byte_of_Z [0x75; 0x11].
Definition inc_bytes : list byte := map byte_of_Z [0xf0; 0x49; 0xff; 0x02].
Definition xor_bytes : list byte := map byte_of_Z [0x31; 0xc0].
Definition xorps_bytes : list byte := map byte_of_Z [0x0f; 0x57; 0xc0].
Definition ret_bytes : list byte := map byte_of_Z [0xc3].
Definition jmp_bytes : list byte := map byte_of_Z [0x41; 0xff; 0xe3].

Definition count_listing : listing :=
  [ (LEA r10 (mkMem seg_none base_rip (to_i32 (le_decode [y0; y1; y2; y3]))), lea_bytes);
    (INC (op_mem (mkMem seg_none (base_reg r10) 0)), inc_bytes);
    (XOR32 rax rax, xor_bytes); (XORPS 0 0, xorps_bytes) ].

Definition thunk_bytes : list byte :=
  load_bytes ++ test_bytes ++ jnz_bytes ++ listing_bytes count_listing ++ ret_bytes ++ jmp_bytes.

Lemma late_load_ok : encodes (MOV (op_reg r11) (op_mem (mkMem seg_none base_rip (to_i32 (le_decode [x0; x1; x2; x3]))))) load_bytes.
Proof. split; [cbn; unfold max_instruction; lia|]. intros rest. reflexivity. Qed.
Lemma late_test_ok : encodes (TEST (op_reg r11) (op_reg r11)) test_bytes.
Proof. split; [cbn; unfold max_instruction; lia|]. intros rest. reflexivity. Qed.
Lemma late_jnz_ok : encodes (JCC false 17) jnz_bytes.
Proof. split; [cbn; unfold max_instruction; lia|]. intros rest. reflexivity. Qed.
Lemma late_count_ok : listing_ok count_listing.
Proof.
  unfold listing_ok, count_listing.
  repeat (apply Forall_cons; split; [split; [cbn; unfold max_instruction; lia|]; intros rest; reflexivity|]).
  constructor.
Qed.
Lemma late_ret_ok : encodes RET ret_bytes.
Proof. split; [cbn; unfold max_instruction; lia|]. intros rest. reflexivity. Qed.
Lemma late_jmp_ok : encodes (JMPR (op_reg r11)) jmp_bytes.
Proof. split; [cbn; unfold max_instruction; lia|]. intros rest. reflexivity. Qed.

End Listing.

(** The bytes of a thunk are a listing, with the distances [create] chose. *)
Lemma is_thunk_listing bs address target counter :
  is_thunk bs address target counter ->
  exists x0 x1 x2 x3 y0 y1 y2 y3, bs = thunk_bytes x0 x1 x2 x3 y0 y1 y2 y3 /\
    wrap64 (address + 7 + to_i32 (le_decode [x0; x1; x2; x3])) = target /\
    wrap64 (address + 19 + to_i32 (le_decode [y0; y1; y2; y3])) = counter.
Proof.
  intros [Hlen H1 H2 H3 H4 H5].
  do 32 (destruct bs as [|? bs]; [discriminate Hlen|]). destruct bs; [|discriminate Hlen].
  vm_compute in H1. injection H1 as -> -> ->.
  vm_compute in H3. injection H3 as -> -> -> -> -> -> -> ->.
  vm_compute in H5. injection H5 as -> -> -> -> -> -> -> -> -> -> -> -> ->.
  do 8 eexists. split; [reflexivity|]. by split.
Qed.

(** ** The thunks of a table in memory *)

(** Every thunk of the table is in memory with its slot, as [create] leaves
    them. *)
Definition thunks_in (t : LateImportTable) (h : HostMem) : Prop :=
  forall i, 0 <= i < capacity_ t ->
    exists target, target_slot t i = Some target /\ target + kDataSlotSize <= u64_max /\ 0 <= target /\
      (exists bs, is_thunk bs (thunk_address t i) target (target + 8) /\
        code_at h (thunk_address t i) bs) /\
      (forall a, target <= a < target + kDataSlotSize -> hm_prot h a = Z.lor PROT_READ PROT_WRITE).

Lemma built_thunks_in t h : layout t -> built t h -> thunks_in t h.
Proof.
  intros Hl Hb i Hi. destruct (Hb i Hi) as (target & counter & Ht & Hc & Hth & Hx & Hd).
  pose proof (layout_thunk t i Hl Hi) as Hta. pose proof (layout_target t i Hl Hi) as Ht'.
  rewrite Ht in Ht'. injection Ht' as Ht'.
  rewrite (layout_counter t i Hl Hi), <- Ht' in Hc. injection Hc as <-.
  destruct Hl. unfold kThunkSize, kDataSlotSize in *. exists target.
  split_and!; [done|lia|lia| |intros a Ha; by apply Hd].
  eexists. split; [exact Hth|].
  pose proof (host_bytes_length h (thunk_address t i) 32 ltac:(lia)) as Hlen.
  split; rewrite ?Hlen.
  - lia.
  - done.
  - intros a Ha. by rewrite Hx.
  - intros a Ha. by rewrite Hx.
Qed.

(** Storing words outside the code keeps the thunks. *)
Lemma thunks_in_mem_step t h h' : mem_step h h' -> thunks_in t h -> thunks_in t h'.
Proof.
  intros Hm Ht i Hi. destruct (Ht i Hi) as (target & H1 & H2 & H3 & (bs & H4 & H5) & H6).
  exists target. split_and!; try done.
  - exists bs. split; [done|]. by eapply mem_step_code.
  - intros a Ha. rewrite (mem_step_prot _ _ Hm). by apply H6.
Qed.

Lemma slot_allows h target flag :
  flag = PROT_READ \/ flag = PROT_WRITE ->
  (forall a, target <= a < target + kDataSlotSize -> hm_prot h a = Z.lor PROT_READ PROT_WRITE) ->
  host_allows flag h target 8 = true /\ host_allows flag h (target + 8) 8 = true.
Proof.
  unfold kDataSlotSize. intros Hf Hp. rewrite !host_allows_true by lia.
  split; intros a Ha; rewrite Hp by lia; by destruct Hf as [-> | ->].
Qed.

(** [bind_patch] keeps the thunks. *)
Lemma bind_patch_thunks_in t h patch target ok h' :
  thunks_in t h -> Forall (fun r => 0 <= lir_index r < capacity_ t) (records_ t) ->
  bind_patch t h patch target = Ok (ok, h') -> thunks_in t h'.
Proof.
  intros Ht Hrec. unfold bind_patch. destruct (find_by_patch t patch) as [r|] eqn:Hf; [|by intros [= _ <-]].
  destruct (target =? 0); [by intros [= _ <-]|].
  assert (0 <= lir_index r < capacity_ t) as Hi.
  { unfold find_by_patch in Hf. apply head_Some_elem_of, list_elem_of_filter in Hf as [_ Hin].
    by eapply Forall_forall in Hrec. }
  destruct (Ht _ Hi) as (slot & Hs & _ & _ & _ & Hp). rewrite Hs. intros Hb.
  apply fmap_Ok in Hb as (h1 & Hc & [= _ ->]). unfold host_memcpy in Hc. inv_result. bools.
  eapply thunks_in_mem_step; [|exact Ht]. right. exists slot, (le_encode 8 target). split; [|done].
  rewrite le_encode_length. change (Z.of_nat 8) with 8.
  by apply (slot_allows h slot PROT_WRITE); [right|].
Qed.

(** ** Running a thunk *)

Section Run.
Context (x0 x1 x2 x3 y0 y1 y2 y3 : byte) (base target : Z).
Let code : list byte := thunk_bytes x0 x1 x2 x3 y0 y1 y2 y3.
Hypothesis Htarget : wrap64 (base + 7 + to_i32 (le_decode [x0; x1; x2; x3])) = target.
Hypothesis Hcounter : wrap64 (base + 19 + to_i32 (le_decode [y0; y1; y2; y3])) = target + 8.

Local Ltac at_offset := split; [reflexivity|apply Nat.leb_le; reflexivity].

(** Up to the jump: R11 is the word of the target slot. *)
Lemma run_load c :
  code_at (cpu_mem c) base code -> cpu_rip c = base -> in_u64 target ->
  host_allows PROT_READ (cpu_mem c) target 8 = true ->
  let T := host_word (cpu_mem c) target in
  exists c1, steps c c1 /\ cpu_rip c1 = base + (if T =? 0 then 12 else 29) /\
    cpu_reg c1 = upd (cpu_reg c) r11 T /\ cpu_xmm c1 = cpu_xmm c /\ cpu_fs c1 = cpu_fs c /\
    cpu_gs c1 = cpu_gs c /\ cpu_mem c1 = cpu_mem c.
Proof.
  intros Hc Hip Hu Hr T. pose proof (ca_range _ _ _ Hc) as Hrange. change (zlen code) with 32 in Hrange.
  set (c1 := set_reg (set_rip c (base + 7)) r11 T).
  set (c2 := set_flags (set_rip c1 (base + 7 + 3)) (snd (alu alu_and T T))).
  set (c3 := set_rip c2 (base + 10 + 2)).
  assert (fl_zero (cpu_flags c2) = (T =? 0)) as Hz by (cbn [cpu_flags c2 set_flags]; cbn; by rewrite Z.land_diag).
  assert (exec (MOV (op_reg r11) (op_mem (mkMem seg_none base_rip (to_i32 (le_decode [x0; x1; x2; x3])))))
            (set_rip c (base + Z.of_nat 0 + zlen (load_bytes x0 x1 x2 x3))) = Some c1) as Hload.
  { replace (base + Z.of_nat 0 + zlen (load_bytes x0 x1 x2 x3)) with (base + 7) by (cbn; lia).
    cbn [exec read_operand]. unfold effective. cbn [mo_segment mo_base mo_disp].
    change (cpu_rip (set_rip c (base + 7))) with (base + 7). rewrite (Z.add_0_l (base + 7)), Htarget.
    rewrite load64_ok by done. reflexivity. }
  exists (if T =? 0 then c3 else set_rip c3 (wrap64 (base + 10 + 2 + 17))). split_and!.
  - eapply (steps_code_at code base 0); [exact Hc|apply late_load_ok|at_offset|cbn; lia|exact Hload|].
    + intros Hc1.
      eapply (steps_code_at code base 7 _ _ c1); [exact Hc1|apply late_test_ok|at_offset|reflexivity| |].
      * cbn [exec read_operand mbind option_bind]. cbn [cpu_reg set_rip c1 set_reg]. rewrite upd_eq. reflexivity.
      * intros Hc2. eapply (steps_code_at code base 10 _ _ c2); [exact Hc2|apply late_jnz_ok|at_offset|cbn; lia| |].
        -- cbn [exec]. change (cpu_flags (set_rip c2 _)) with (cpu_flags c2). rewrite Hz. reflexivity.
        -- intros _. destruct (T =? 0); apply rtc_refl.
  - destruct (T =? 0); cbn; [lia|]. rewrite wrap64_small; unfold in_u64; lia.
  - by destruct (T =? 0).
  - by destruct (T =? 0).
  - by destruct (T =? 0).
  - by destruct (T =? 0).
  - by destruct (T =? 0).
Qed.

(** A bound thunk jumps. *)
Lemma run_jump c :
  code_at (cpu_mem c) base code -> cpu_rip c = base + 29 -> steps c (set_rip c (cpu_reg c r11)).
Proof.
  intros Hc Hip. eapply (steps_code_at code base 29); [exact Hc|apply late_jmp_ok|at_offset|exact Hip|reflexivity|].
  intros _. apply rtc_refl.
Qed.

(** An unbound one counts the call and returns zero. *)
Lemma run_count c :
  code_at (cpu_mem c) base code -> cpu_rip c = base + 12 -> 0 <= target -> target + 16 <= u64_max ->
  host_allows PROT_READ (cpu_mem c) (target + 8) 8 = true ->
  host_allows PROT_WRITE (cpu_mem c) (target + 8) 8 = true ->
  host_allows PROT_READ (cpu_mem c) (cpu_reg c rsp) 8 = true ->
  let h := host_put (cpu_mem c) (target + 8) (le_encode 8 (wrap64 (host_word (cpu_mem c) (target + 8) + 1))) in
  exists c1, steps c c1 /\ cpu_rip c1 = host_word h (cpu_reg c rsp) /\
    cpu_reg c1 = upd (upd (upd (cpu_reg c) r10 (target + 8)) rax 0) rsp (wrap64 (cpu_reg c rsp + 8)) /\
    cpu_xmm c1 = upd (cpu_xmm c) 0 0 /\ cpu_fs c1 = cpu_fs c /\ cpu_gs c1 = cpu_gs c /\ cpu_mem c1 = h.
Proof.
  intros Hc Hip H0 H1 Hr Hw Hs h. pose proof (ca_range _ _ _ Hc) as Hrange. change (zlen code) with 32 in Hrange.
  destruct c as [f x fl fs gs ip m]. cbn [cpu_rip cpu_mem cpu_reg cpu_xmm cpu_fs cpu_gs] in *. subst ip.
  eexists. split; [eapply (steps_listing_at code base 12);
    [exact Hc|apply (late_count_ok y0 y1 y2 y3)|at_offset|reflexivity|reflexivity| |]|].
  - unfold count_listing. exec_one.
    replace (base + 12 + zlen (lea_bytes y0 y1 y2 y3)) with (base + 19) by (cbn; lia).
    rewrite (Z.add_0_l (base + 19)), Hcounter. exec_one.
    rewrite (Z.add_0_l (target + 8)), Z.add_0_r, (wrap64_small (target + 8)) by (unfold in_u64; lia).
    rewrite load64_ok by done. cbn [mbind option_bind]. rewrite store64_ok by done.
    exec_one. rewrite Z.lxor_nilpotent. exec_one. rewrite Z.lxor_nilpotent. reflexivity.
  - cbn [cpu_mem set_mem set_rip cpu_rip]. intros Hc1 Hip1.
    eapply (steps_code_at code base 28); [exact Hc1|apply late_ret_ok|at_offset| | |intros _; apply rtc_refl].
    + etransitivity; [exact Hip1|]. cbn. lia.
    + cbn [exec]. unfold pop. cbn [cpu_mem cpu_reg set_rip]. read_regs. rewrite load64_ok; [reflexivity|]. exact Hs.
  - cbn [cpu_mem cpu_reg cpu_xmm cpu_fs cpu_gs set_rip set_reg cpu_rip]. read_regs. by split_and!.
Qed.

End Run.

(** C15: A call of the thunk of an import, on the processor.  When the import
    is bound the thunk continues at the target of its slot, with the stack,
    the memory and every register but R11 as the caller left them, so that the
    arguments arrive; while it is not bound the call returns to the caller with
    zero in RAX and XMM0, and all it has changed in memory is the counter of
    this thunk, which [call_count] then answers one more than before.  The
    thunks are ready for the next call in both cases. *)
Theorem late_thunks_forward_or_count t c i :
  layout t -> thunks_in t (cpu_mem c) -> 0 <= i < capacity_ t ->
  cpu_rip c = thunk_address t i -> in_u64 (cpu_reg c rsp + 8) ->
  host_allows PROT_READ (cpu_mem c) (cpu_reg c rsp) 8 = true ->
  (forall counter, counter_slot t i = Some counter ->
     cpu_reg c rsp + 8 <= counter \/ counter + 8 <= cpu_reg c rsp) ->
  exists c', steps c c' /\ thunks_in t (cpu_mem c') /\
    cpu_fs c' = cpu_fs c /\ cpu_gs c' = cpu_gs c /\
    if slot_target t (cpu_mem c) i =? 0 then
      cpu_rip c' = host_word (cpu_mem c) (cpu_reg c rsp) /\ cpu_reg c' rsp = cpu_reg c rsp + 8 /\
      cpu_reg c' rax = 0 /\ cpu_xmm c' 0 = 0 /\
      (forall r, r <> rax -> r <> r10 -> r <> r11 -> r <> rsp -> cpu_reg c' r = cpu_reg c r) /\
      call_count t (cpu_mem c') i = wrap64 (call_count t (cpu_mem c) i + 1) /\
      (forall a, (forall counter, counter_slot t i = Some counter -> ~ counter <= a < counter + 8) ->
         hm_byte (cpu_mem c') a = hm_byte (cpu_mem c) a)
    else
      cpu_rip c' = slot_target t (cpu_mem c) i /\ cpu_mem c' = cpu_mem c /\
      cpu_xmm c' = cpu_xmm c /\ (forall r, r <> r11 -> cpu_reg c' r = cpu_reg c r).
Proof.
  intros Hl Ht Hi Hip Hsp Hstack Hapart.
  destruct (Ht i Hi) as (target & Hts & Hend & Hpos & (bs & Hth & Hcode) & Hp).
  unfold kDataSlotSize in *. assert (counter_slot t i = Some (target + 8)) as Hcs.
  { unfold counter_slot. rewrite Hts. cbn. rewrite wrap64_small by (unfold in_u64; lia). done. }
  destruct (is_thunk_listing _ _ _ _ Hth) as (x0 & x1 & x2 & x3 & y0 & y1 & y2 & y3 & -> & Htarget & Hcounter).
  destruct (slot_allows (cpu_mem c) target PROT_READ (or_introl eq_refl) Hp) as [Hr1 Hr2].
  destruct (slot_allows (cpu_mem c) target PROT_WRITE (or_intror eq_refl) Hp) as [_ Hw2].
  destruct (run_load x0 x1 x2 x3 y0 y1 y2 y3 _ target Htarget c Hcode Hip
              ltac:(unfold in_u64; lia) Hr1) as (c1 & Hs1 & Hip1 & Hreg1 & Hx1 & Hfs1 & Hgs1 & Hm1).
  assert (slot_target t (cpu_mem c) i = host_word (cpu_mem c) target) as ->
    by (unfold slot_target; by rewrite Hts).
  rewrite <- Hm1 in Hcode. destruct (host_word (cpu_mem c) target =? 0) eqn:HT.
  - assert (cpu_reg c1 rsp = cpu_reg c rsp) as Hsp1 by (rewrite Hreg1; by rewrite upd_ne).
    destruct (run_count x0 x1 x2 x3 y0 y1 y2 y3 _ target Hcounter c1 Hcode Hip1 Hpos Hend)
      as (c2 & Hs2 & Hip2 & Hreg2 & Hx2 & Hfs2 & Hgs2 & Hm2); rewrite ?Hm1, ?Hsp1; [done..|].
    rewrite Hm1, Hsp1 in *. specialize (Hapart _ Hcs).
    exists c2. split_and!; [by etrans| |congruence|congruence| | | | | | |].
    + rewrite Hm2. eapply thunks_in_mem_step; [|exact Ht]. right.
      eexists _, (le_encode 8 _). split; [|reflexivity]. rewrite le_encode_length. assumption.
    + rewrite Hip2. apply host_word_put_ne. lia.
    + rewrite Hreg2, upd_eq. by apply wrap64_small.
    + rewrite Hreg2. by rewrite upd_ne, upd_eq.
    + rewrite Hx2. by rewrite upd_eq.
    + intros r Hr0 Hr10 Hr11 Hrsp. rewrite Hreg2, !upd_ne, Hreg1, upd_ne; done.
    + unfold call_count. rewrite Hcs, Hm2. apply host_word_put, wrap64_range.
    + intros a Ha. rewrite Hm2.
      destruct (host_put_word_byte (cpu_mem c) (target + 8)
                  (wrap64 (host_word (cpu_mem c) (target + 8) + 1)) a) as [Hb|Hb]; [exact Hb|].
      by destruct (Ha _ Hcs).
  - pose proof (run_jump x0 x1 x2 x3 y0 y1 y2 y3 _ c1 Hcode Hip1) as Hs2.
    eexists. split_and!; [etrans; [exact Hs1|exact Hs2]|cbn [cpu_mem set_rip]; by rewrite Hm1|done|done| | | |].
    + cbn [cpu_rip set_rip]. rewrite Hreg1, upd_eq. done.
    + done.
    + done.
    + intros r Hr11. cbn [cpu_reg set_rip]. rewrite Hreg1. by rewrite upd_ne.
Qed.

(** ** Witnesses

    A table with two thunks, the stack at 65536 and the return address 0 in
    it. *)

Definition open_mem : HostMem :=
  mkHostMem (fun _ => zero_byte) (fun _ => Z.lor PROT_READ PROT_WRITE) 0.
Definition open_created := @create small_host open_mem 2.
Definition open_host_mem : HostMem :=
  match open_created with Ok (_, h) => h | Throw _ => open_mem end.

Lemma open_created_Ok : open_created = Ok (Some small_table, open_host_mem).
Proof. reflexivity. Qed.

Definition thunk_cpu : Cpu :=
  mkCpu (upd (fun r => 100 + r) rsp 65536) (fun _ => 1) (mkFlags false false false false false) 0 0 4096
    open_host_mem.

(** The nine instructions of an unbound thunk; the three and the jump of one
    that is bound to 7. *)
Example an_unbound_thunk_counts :
  (fun c => (cpu_rip c, cpu_reg c rax, cpu_reg c rsp, cpu_reg c rdi, cpu_xmm c 0,
             call_count small_table (cpu_mem c) 0)) <$> run 8 thunk_cpu =
  Some (0, 0, 65544, 107, 0, 1).
Proof. vm_compute. reflexivity. Qed.

Example a_bound_thunk_jumps :
  (fun c => (cpu_rip c, cpu_reg c rax, cpu_reg c rsp, cpu_reg c rdi, cpu_xmm c 0,
             call_count small_table (cpu_mem c) 0)) <$>
    run 4 (set_mem thunk_cpu (host_put open_host_mem 4160 (le_encode 8 7))) =
  Some (7, 100, 65536, 107, 1, 0).
Proof. vm_compute. reflexivity. Qed.

Lemma late_thunks_forward_or_count_witness :
  exists c, steps thunk_cpu c /\ cpu_rip c = 0 /\ cpu_reg c rax = 0 /\
    call_count small_table (cpu_mem c) 0 = 1.
Proof.
  destruct (@create_built small_host small_host_laws open_mem 2 small_table open_host_mem
              ltac:(by unfold in_u64) open_created_Ok) as (_ & _ & Hl & Hb).
  destruct (late_thunks_forward_or_count small_table thunk_cpu 0 Hl (built_thunks_in _ _ Hl Hb))
    as (c & Hs & _ & _ & _ & Hc).
  - split; [lia|reflexivity].
  - reflexivity.
  - split; [discriminate|reflexivity].
  - vm_compute. reflexivity.
  - intros counter Hcounter. right. vm_compute in Hcounter. injection Hcounter as <-. vm_compute. discriminate.
  - exists c. split; [exact Hs|].
    assert (slot_target small_table (cpu_mem thunk_cpu) 0 =? 0 = true) as Hz by (vm_compute; reflexivity).
    rewrite Hz in Hc. destruct Hc as (Hip & _ & Hax & _ & _ & Hcount & _).
    split; [rewrite Hip; vm_compute; reflexivity|]. split; [exact Hax|].
    rewrite Hcount. vm_compute. reflexivity.
Defined.
