(* ===== verification/PatchMemory.v ===== *)
(** * The memory the linker patches

    The linker uses of the address space that [patch] stores bytes and of the
    late-import table that its slots live in other host memory.  [PatchMemory]
    states this, and the address space of [GuestMemory] is an instance. *)

From S2P Require Import Prelude OrdMap NativeArena GuestMemory.

Local Open Scope Z_scope.

Class PatchMemory (M : Type) : Type := {
  pm_wf : M -> Prop;
  (** the byte a guest sees at an address *)
  pm_byte : M -> Z -> option byte;
  pm_patch : M -> Z -> list byte -> result (bool * M);
  (** the host memory the object lives in, and the part that is its own *)
  pm_host : M -> HostMem;
  pm_with_host : M -> HostMem -> M;
  pm_private : M -> Z -> Prop;
}.

(** The bytes [bs] stored at [a]. *)
Definition overwrite (f : Z -> option byte) (a : Z) (bs : list byte) : Z -> option byte :=
  fun x => if in_range a (zlen bs) x then zget bs (x - a) else f x.

(** Nothing outside the private part changes. *)
Definition outside_same (P : Z -> Prop) (h h' : HostMem) : Prop :=
  forall a, ~ P a -> hm_byte h' a = hm_byte h a /\ hm_prot h' a = hm_prot h a.

Class PatchMemoryLaws (M : Type) `{PatchMemory M} : Prop := {
  pm_patch_ok m a bs m' :
    pm_wf m -> bs <> [] -> pm_patch m a bs = Ok (true, m') ->
    pm_wf m' /\ (forall x, pm_byte m' x = overwrite (pm_byte m) a bs x) /\
    (forall x, pm_private m' x <-> pm_private m x) /\
    outside_same (pm_private m) (pm_host m) (pm_host m');
  pm_with_host_ok m h :
    pm_wf m -> (forall a, pm_private m a -> hm_byte h a = hm_byte (pm_host m) a) ->
    pm_wf (pm_with_host m h) /\ (forall x, pm_byte (pm_with_host m h) x = pm_byte m x) /\
    (forall x, pm_private (pm_with_host m h) x <-> pm_private m x);
  pm_host_with_host m h : pm_host (pm_with_host m h) = h;
}.

(** ** The guest address space *)

Section Space.
Context `{HostOs, !HostOsLaws H}.

Definition space_private (s : space) (a : Z) : Prop :=
  match native_ s with
  | Some arena => arena_base arena <= a < arena_base arena + arena_size arena
  | None => False
  end.

#[export] Instance space_patch_memory : PatchMemory space := {
  pm_wf := space_wf;
  pm_byte := byte_at;
  pm_patch := patch;
  pm_host := host_;
  pm_with_host := with_host;
  pm_private := space_private;
}.

Definition arena_private (arena : NativeArena) (a : Z) : Prop :=
  arena_base arena <= a < arena_base arena + arena_size arena.

#[local] Instance outside_same_preorder P : PreOrder (outside_same P).
Proof.
  split; [by intros ? ? ?|]. intros h1 h2 h3 H12 H23 a Ha.
  destruct (H12 a Ha) as [<- <-]. by apply H23.
Qed.

Lemma arena_protect_outside arena h offset size prot :
  in_u64 size -> 0 <= offset ->
  outside_same (arena_private arena) h (arena_protect arena h offset size prot).2.
Proof.
  intros Hs Ho a Ha. destruct (arena_protect _ _ _ _ _) as [[] h'] eqn:Hp; cbn;
    apply arena_protect_spec in Hp as (Hb & Ht & Hf); try done; [|by auto].
  split; [done|]. destruct (Ht eq_refl) as (_ & _ & _ & rounded & _ & _ & Hle & ->).
  rewrite (proj2 (in_range_false _ _ _)); [done|]. unfold arena_private in Ha. lia.
Qed.

Lemma arena_copy_outside arena h offset bytes ok h' :
  0 <= offset -> arena_copy arena h offset bytes = Ok (ok, h') ->
  outside_same (arena_private arena) h h'.
Proof.
  intros Ho [[_ ->]|(_ & -> & Hle)]%arena_copy_spec; [done|]. intros a Ha.
  rewrite host_put_get, (proj2 (in_range_false _ _ _)); [done|]. unfold arena_private in Ha. lia.
Qed.

Lemma patch_native_outside s arena r ro po bytes ok s' :
  in_u64 (ri_size (info r)) -> 0 <= ro -> 0 <= po ->
  patch_native s arena r ro po bytes = Ok (ok, s') ->
  native_ s' = native_ s /\ outside_same (arena_private arena) (host_ s) (host_ s').
Proof.
  unfold patch_native. intros Hsz Hro Hpo.
  set (p1 := if has _ _ then _ else _).
  assert (outside_same (arena_private arena) (host_ s) p1.2) as Hp1.
  { unfold p1. case_match; [done|]. by apply arena_protect_outside. }
  destruct p1 as [ok1 h1]. destruct ok1; cbn [negb]; [|by intros [= <- <-]].
  intros Hc. inv_result. destruct r0 as [copied h2]. apply arena_copy_outside in Hr; [|done].
  cbn in Hp1. destruct (has _ _); [inv_result; split; [done|by etransitivity]|].
  pose proof (arena_protect_outside arena h2 ro (ri_size (info r)) (ri_protection (info r)) Hsz Hro) as Hp3.
  destruct (arena_protect _ _ _ _ _) as [ok3 h3]. inv_result.
  split; [done|]. etransitivity; [exact Hp1|by etransitivity].
Qed.

Lemma arena_offset_nonneg arena a o : arena_offset arena a = Some o -> 0 <= o.
Proof. unfold arena_offset. intros. split_guards. simplify_eq. lia. Qed.

Lemma patch_outside s a bs ok s' :
  space_wf s -> patch s a bs = Ok (ok, s') ->
  native_ s' = native_ s /\ outside_same (space_private s) (host_ s) (host_ s').
Proof.
  unfold patch, space_private. intros Hs. destruct bs as [|b bs]; [by intros [= <- <-]|].
  destruct (find_region (regions_ s) a) as [r|] eqn:Hf; [|by intros [= <- <-]].
  destruct (_ <? _); [by intros [= <- <-]|].
  destruct (native_ s) as [arena|] eqn:Hn; [|by intros [= <- <-]].
  destruct (arena_offset arena (ri_base (info r))) as [ro|] eqn:Ero; [|by intros [= <- <-]].
  destruct (arena_offset arena a) as [po|] eqn:Epo; [|by intros [= <- <-]].
  rewrite <- Hn. apply patch_native_outside; [|by eapply arena_offset_nonneg..].
  apply (find_region_owner (native_ s)) in Hf as [Hf _]; [|apply Hs].
  destruct (wf_region _ _ (wf_map _ Hs) _ _ Hf). unfold in_u64. lia.
Qed.

#[export] Instance space_patch_memory_laws : PatchMemoryLaws space.
Proof.
  split; [| |done].
  - intros s a bs s' Hs Hne Hp. pose proof (patch_outside _ _ _ _ _ Hs Hp) as [Hn Ho].
    destruct (patch_spec s a bs true s' Hs Hne Hp) as (_ & Ht & _).
    destruct (Ht eq_refl) as (_ & Hw & _ & Hb).
    split_and!; [done|intros x; apply Hb| |done].
    intros x. cbn. unfold space_private. by rewrite Hn.
  - intros s h Hs Hh. split_and!; [by destruct Hs| |done].
    intros x. cbn. unfold byte_at. cbn. destruct (find_region (regions_ s) x) as [r|] eqn:Hf; [|done].
    cbn. unfold byte_in. cbn. destruct (native_ s) as [arena|] eqn:Hn; [|done]. f_equal. apply Hh.
    apply (find_region_owner (native_ s)) in Hf as [Hf Hc]; [|apply Hs].
    pose proof (wf_backed _ _ _ (wf_region _ _ (wf_map _ Hs) _ _ Hf)) as Hbk. rewrite Hn in Hbk.
    cbn. unfold space_private. rewrite Hn. destruct Hbk as (_ & ? & ? & _). unfold covers in Hc. lia.
Qed.

End Space.
