(* ===== verification/Linker.v ===== *)
(** * The runtime linker

    [src/include/nyxora/runtime/linker.hpp] and
    [src/src/runtime/linker.cpp]: symbol keys from encoded names, the
    registration of a module's exports, and relocation, over any
    [PatchMemory].

    [linker M] holds what the C++ object refers to: the memory it patches, the
    symbol registry and, when there is one, the late-import table, whose slots
    live in the host memory of [lk_memory]. *)

From Stdlib Require Import Strings.String Strings.Ascii.
From S2P Require Import Prelude NativeArena GuestMemory GuestMemoryProps Dynamic Symbols LateImports PatchMemory.

Local Open Scope Z_scope.

Definition kRelocationX86_64_64 := 1.
Definition kRelocationX86_64GlobDat := 6.
Definition kRelocationX86_64JumpSlot := 7.
Definition kRelocationX86_64Relative := 8.
Definition kRelocationX86_64DtpMod64 := 16.

Definition kSymbolBindLocal := 0.
Definition kSymbolBindGlobal := 1.
Definition kSymbolBindWeak := 2.
Definition kSymbolTypeNoType := 0.
Definition kSymbolTypeObject := 1.
Definition kSymbolTypeFunction := 2.
Definition kSymbolTypeTls := 6.

Record UnresolvedRelocation : Type := mkUnresolvedRelocation {
  ur_patch_address : Z;
  ur_type : Z;
  ur_symbol_index : Z;
  ur_symbol_name : string;
  ur_weak : bool;
  ur_plt : bool;
  ur_thunk_address : Z;
}.

Record RelocationReport : Type := mkRelocationReport {
  applied : Z;
  late_thunks : Z;
  unresolved : list UnresolvedRelocation;
}.

(** ** Symbol keys *)

Definition hash_char : ascii := "#"%char.

(** [value.find('#', pos)]. *)
Definition find_hash (value : list ascii) (pos : nat) : option nat :=
  (fun found => pos + found.1)%nat <$> list_find (fun c => c = hash_char) (drop pos value).

(** [value.substr(pos, count)] inside the string. *)
Definition substr (value : list ascii) (pos count : nat) : string :=
  string_of_list_ascii (take count (drop pos value)).

Definition split_symbol_name (name : string) : option (string * string * string) :=
  let value := list_ascii_of_string name in
  match find_hash value 0 with
  | None => None
  | Some first =>
      match find_hash value (S first) with
      | None => None
      | Some second =>
          match find_hash value (S second) with
          | Some _ => None
          | None =>
              Some (substr value 0 first, substr value (S first) (second - first - 1),
                    substr value (S second) (length value))
          end
      end
  end.

Definition symbol_kind (type : Z) : SymbolKind :=
  if type =? kSymbolTypeFunction then sym_function
  else if type =? kSymbolTypeObject then sym_object
  else if type =? kSymbolTypeTls then sym_tls
  else if type =? kSymbolTypeNoType then sym_no_type
  else sym_unknown.

Definition find_library (dynamic : DynamicInfo) (encoded_id : string) : option LibraryReference :=
  match head (filter (fun l => lr_encoded_id l = encoded_id) (import_libraries dynamic)) with
  | Some library => Some library
  | None => head (filter (fun l => lr_encoded_id l = encoded_id) (export_libraries dynamic))
  end.

Definition find_module (dynamic : DynamicInfo) (encoded_id : string) : option ModuleReference :=
  match head (filter (fun m => mr_encoded_id m = encoded_id) (import_modules dynamic)) with
  | Some module => Some module
  | None => head (filter (fun m => mr_encoded_id m = encoded_id) (export_modules dynamic))
  end.

Definition add_unsigned (lhs rhs : Z) : option Z :=
  if u64_max - rhs <? lhs then None else Some (wrap64 (lhs + rhs)).

Definition add_signed (lhs rhs : Z) : option Z :=
  if 0 <=? rhs then add_unsigned lhs rhs
  else
    let magnitude := - (rhs + 1) + 1 in
    if lhs <? magnitude then None else Some (lhs - magnitude).

Definition make_symbol_key (dynamic : DynamicInfo) (symbol : DynamicSymbol) : option SymbolKey :=
  match split_symbol_name (ds_name symbol) with
  | None => None
  | Some (first, second, third) =>
      if bool_decide (first = "") || bool_decide (second = "") || bool_decide (third = "") then None
      else
        match find_library dynamic second, find_module dynamic third with
        | Some library, Some module =>
            let kind := symbol_kind (symbol_type symbol) in
            if bool_decide (kind = sym_unknown) then None
            else Some (mkSymbolKey first (lr_name library) (mr_name module) (lr_version library)
                         (mr_version_major module) (mr_version_minor module) kind)
        | _, _ => None
        end
  end.

(** ** Exports *)

(** One turn of the loop of [register_exports]. *)
Definition register_export (module_base : Z) (dynamic : DynamicInfo)
    (acc : Z * SymbolRegistry) (symbol : DynamicSymbol) : result (Z * SymbolRegistry) :=
  if (ds_value symbol =? 0)
     || (negb (binding symbol =? kSymbolBindGlobal) && negb (binding symbol =? kSymbolBindWeak))
  then Ok acc
  else
    match make_symbol_key dynamic symbol with
    | None => Ok acc
    | Some key =>
        match add_unsigned module_base (ds_value symbol) with
        | None => Throw (runtime_error "export symbol address overflows guest address space")
        | Some address =>
            let '(ok, symbols) :=
              register_symbol acc.2 key (mkSymbolBinding address (ds_name symbol) false) in
            Ok ((if ok then acc.1 + 1 else acc.1), symbols)
        end
    end.

Fixpoint fold_result {A B} (f : A -> B -> result A) (a : A) (l : list B) : result A :=
  match l with
  | [] => Ok a
  | x :: l => a ← f a x; fold_result f a l
  end.

Definition register_exports (symbols : SymbolRegistry) (module_base : Z) (dynamic : DynamicInfo)
  : result (Z * SymbolRegistry) :=
  fold_result (register_export module_base dynamic) (0, symbols) (Dynamic.symbols dynamic).

Definition resolve_symbol (symbols : SymbolRegistry) (module_base : Z) (dynamic : DynamicInfo)
    (symbol : DynamicSymbol) : option Z :=
  if (binding symbol =? kSymbolBindLocal) || negb (ds_value symbol =? 0)
  then add_unsigned module_base (ds_value symbol)
  else if negb (binding symbol =? kSymbolBindGlobal) && negb (binding symbol =? kSymbolBindWeak)
  then None
  else
    match make_symbol_key dynamic symbol with
    | None => None
    | Some key => Symbols.address <$> resolve symbols key
    end.

(** ** Relocation *)

Section Relocate.
Context {M : Type} `{PatchMemory M}.

Record linker : Type := mkLinker {
  lk_memory : M;
  lk_symbols : SymbolRegistry;
  lk_late : option LateImportTable;
}.

Definition patch_u64 (memory : M) (address value : Z) : result (bool * M) :=
  pm_patch memory address (le_encode 8 value).

(** [(void)late_imports_->bind_patch(patch_address, value)]. *)
Definition bind_late (st : linker) (patch_address value : Z) : result linker :=
  match lk_late st with
  | None => Ok st
  | Some table =>
      '(_, h) ← bind_patch table (pm_host (lk_memory st)) patch_address value;
      Ok (mkLinker (pm_with_host (lk_memory st) h) (lk_symbols st) (lk_late st))
  end.

(** What the [switch] of [relocate] leaves in its local variables. *)
Record choice : Type := mkChoice {
  ch_value : option Z;
  ch_weak : bool;
  ch_unresolved : bool;
  ch_thunk_address : Z;
  ch_symbol_name : string;
  ch_late : Z;
}.

(** The thunk of an unresolved import. *)
Definition late_thunk (st : linker) (callable : bool) (patch_address : Z)
    (key : option SymbolKey) (name : string) : option Z * linker :=
  match callable, key, lk_late st with
  | true, Some key, Some table =>
      let '(thunk, table) := get_or_create table patch_address key name in
      (thunk, mkLinker (lk_memory st) (lk_symbols st) (Some table))
  | _, _, _ => (None, st)
  end.

Definition is_symbolic (type : Z) : bool :=
  (type =? kRelocationX86_64_64) || (type =? kRelocationX86_64GlobDat)
  || (type =? kRelocationX86_64JumpSlot).

Definition choose (st : linker) (module_base tls_module_id : Z) (dynamic : DynamicInfo)
    (relocation : Relocation) (patch_address : Z) : result (choice * linker) :=
  let type := relocation_type relocation in
  if type =? kRelocationX86_64Relative then
    Ok (mkChoice (add_signed module_base (r_addend relocation)) false false 0 "" 0, st)
  else if type =? kRelocationX86_64DtpMod64 then
    Ok (if negb (tls_module_id =? 0) then mkChoice (Some tls_module_id) false false 0 "" 0
        else mkChoice None false true 0 "" 0, st)
  else if is_symbolic type then
    match zget (symbols dynamic) (symbol_index relocation) with
    | None => Throw (runtime_error "relocation symbol index is outside the dynamic symbol table")
    | Some symbol =>
        let name := ds_name symbol in
        let weak := binding symbol =? kSymbolBindWeak in
        let key := make_symbol_key dynamic symbol in
        match resolve_symbol (lk_symbols st) module_base dynamic symbol with
        | Some resolved =>
            let addend := if type =? kRelocationX86_64_64 then r_addend relocation else 0 in
            let value := add_signed resolved addend in
            st ← (match value with
                  | Some v => bind_late st patch_address v
                  | None => Ok st
                  end);
            Ok (mkChoice value weak false 0 name 0, st)
        | None =>
            let callable := (symbol_type symbol =? kSymbolTypeFunction)
                            || (symbol_type symbol =? kSymbolTypeNoType) in
            let '(thunk, st) := late_thunk st callable patch_address key name in
            Ok (match thunk with
                | Some t => mkChoice (Some t) weak true t name 1
                | None => mkChoice None weak true 0 name 0
                end, st)
        end
    end
  else Throw (runtime_error "unsupported x86-64 relocation type").

(** One turn of the loop of [relocate_table]. *)
Definition relocate_one (module_base tls_module_id : Z) (dynamic : DynamicInfo) (plt : bool)
    (acc : RelocationReport * linker) (relocation : Relocation)
  : result (RelocationReport * linker) :=
  let '(report, st) := acc in
  match add_unsigned module_base (r_offset relocation) with
  | None => Throw (runtime_error "relocation patch address overflows guest address space")
  | Some patch_address =>
      '(ch, st) ← choose st module_base tls_module_id dynamic relocation patch_address;
      let entry := mkUnresolvedRelocation patch_address (relocation_type relocation)
        (symbol_index relocation) (ch_symbol_name ch) (ch_weak ch) plt (ch_thunk_address ch) in
      let report := mkRelocationReport (applied report) (late_thunks report + ch_late ch)
        (unresolved report ++ if ch_unresolved ch then [entry] else []) in
      match ch_value ch with
      | None => Ok (report, st)
      | Some value =>
          '(ok, memory) ← patch_u64 (lk_memory st) patch_address value;
          throw_if (negb ok) (runtime_error "relocation target is outside mapped guest memory") ;;
          Ok (mkRelocationReport (applied report + 1) (late_thunks report) (unresolved report),
              mkLinker memory (lk_symbols st) (lk_late st))
      end
  end.

Definition relocate (st : linker) (module_base tls_module_id : Z) (dynamic : DynamicInfo)
  : result (RelocationReport * linker) :=
  acc ← fold_result (relocate_one module_base tls_module_id dynamic false)
          (mkRelocationReport 0 0 [], st) (relocations dynamic);
  fold_result (relocate_one module_base tls_module_id dynamic true) acc (plt_relocations dynamic).

End Relocate.
Arguments linker M : clear implicits.

(** ** Names *)

Definition no_hash (s : string) : Prop := hash_char ∉ list_ascii_of_string s.

Lemma list_find_hash_app (a b : list ascii) :
  hash_char ∉ a -> list_find (fun c => c = hash_char) (a ++ hash_char :: b) = Some (length a, hash_char).
Proof.
  intros Ha. apply list_find_Some. rewrite lookup_app_r, Nat.sub_diag by done. split_and!; [done..|].
  intros j y Hj Hlt ->. rewrite lookup_app_l in Hj by done. by apply Ha, list_elem_of_lookup_2 with j.
Qed.

Lemma find_hash_Some value pos i :
  find_hash value pos = Some i <->
  exists a b, drop pos value = a ++ (hash_char :: b) /\ hash_char ∉ a /\ i = (pos + length a)%nat.
Proof.
  unfold find_hash. split.
  - destruct (list_find _ _) as [[j c]|] eqn:Hf; [|done]. intros [= <-].
    apply list_find_Some in Hf as (Hj & -> & Hlt).
    exists (take j (drop pos value)), (drop (S j) (drop pos value)).
    pose proof (lookup_lt_Some _ _ _ Hj). rewrite length_take. split_and!.
    + symmetry. by apply take_drop_middle.
    + intros [k Hk]%list_elem_of_lookup_1. apply lookup_take_Some in Hk as [Hk Hlt'].
      by apply (Hlt k hash_char).
    + cbn. lia.
  - intros (a & b & -> & Ha & ->). by rewrite list_find_hash_app.
Qed.

Lemma find_hash_None value pos : find_hash value pos = None <-> hash_char ∉ drop pos value.
Proof.
  unfold find_hash. split.
  - destruct (list_find _ _) as [|] eqn:Hf; [done|]. intros _ Hin. apply list_find_None in Hf.
    rewrite Forall_forall in Hf. by apply (Hf hash_char).
  - intros Hn. assert (list_find (fun c => c = hash_char) (drop pos value) = None) as ->; [|done].
    apply list_find_None, Forall_forall. by intros x Hx ->.
Qed.

Lemma list_ascii_app a b :
  list_ascii_of_string (a ++ b)%string = list_ascii_of_string a ++ list_ascii_of_string b.
Proof.
  induction a as [|c a IH]; [done|].
  change (c :: list_ascii_of_string (a ++ b)%string =
          c :: (list_ascii_of_string a ++ list_ascii_of_string b)). by rewrite IH.
Qed.

Lemma list_ascii_inj a b : list_ascii_of_string a = list_ascii_of_string b -> a = b.
Proof.
  intros H. by rewrite <- (string_of_list_ascii_of_string a), H, string_of_list_ascii_of_string.
Qed.

Lemma drop_middle {A} (x : list A) c r : drop (S (length x)) (x ++ c :: r) = r.
Proof. rewrite drop_app_ge by lia. by replace (S (length x) - length x)%nat with 1%nat by lia. Qed.

Lemma drop_middle2 {A} (x y z : list A) c :
  drop (S (S (length x + length y))) (x ++ c :: y ++ c :: z) = z.
Proof.
  replace (S (S (length x + length y))) with (S (length x) + S (length y))%nat by lia.
  by rewrite <- drop_drop, drop_middle, drop_middle.
Qed.

(** symbol names.  [split_symbol_name] answers three parts exactly when
    the name is the three parts joined by two [#] and none of them contains
    one. *)
Theorem split_symbol_name_iff name a b c :
  split_symbol_name name = Some (a, b, c) <->
  name = (a ++ "#" ++ b ++ "#" ++ c)%string /\ no_hash a /\ no_hash b /\ no_hash c.
Proof.
  unfold split_symbol_name, no_hash. split.
  - remember (list_ascii_of_string name) as value eqn:Hname. intros Hsp.
    destruct (find_hash value 0) as [first|] eqn:H1; [|done].
    destruct (find_hash value (S first)) as [second|] eqn:H2; [|done].
    destruct (find_hash value (S second)) as [|] eqn:H3; [done|]. injection Hsp as <- <- <-.
    apply find_hash_Some in H1 as (x & r & E1 & Hx & ->). rewrite drop_0 in E1.
    apply find_hash_Some in H2 as (y & z & E2 & Hy & ->).
    apply find_hash_None in H3. unfold substr. cbn [Nat.add] in *. rewrite E1 in E2, H3, Hname |- *.
    rewrite (drop_middle x hash_char r) in E2. subst r.
    rewrite (drop_middle2 x y z) in H3 |- *. rewrite drop_0, take_app_length, drop_middle.
    replace (S (length x + length y) - length x - 1)%nat with (length y) by lia.
    rewrite take_app_length, take_ge by (rewrite !length_app; cbn; rewrite length_app; cbn; lia).
    rewrite !list_ascii_of_string_of_list_ascii. split_and!; [|done..].
    apply list_ascii_inj. rewrite !list_ascii_app, !list_ascii_of_string_of_list_ascii. by rewrite <- Hname.
  - intros (-> & Ha & Hb & Hc). rewrite !list_ascii_app.
    set (x := list_ascii_of_string a) in *. set (y := list_ascii_of_string b) in *.
    set (z := list_ascii_of_string c) in *. change (list_ascii_of_string "#") with [hash_char]. cbn [app].
    assert (find_hash (x ++ hash_char :: y ++ hash_char :: z) 0 = Some (length x)) as ->.
    { apply find_hash_Some. by exists x, (y ++ hash_char :: z). }
    assert (find_hash (x ++ hash_char :: y ++ hash_char :: z) (S (length x))
            = Some (S (length x + length y))) as ->.
    { apply find_hash_Some. exists y, z. by rewrite drop_middle. }
    assert (find_hash (x ++ hash_char :: y ++ hash_char :: z) (S (S (length x + length y))) = None) as ->.
    { apply find_hash_None. by rewrite drop_middle2. }
    unfold substr. rewrite drop_0, take_app_length, drop_middle, drop_middle2.
    replace (S (length x + length y) - length x - 1)%nat with (length y) by lia.
    rewrite take_app_length, take_ge by (rewrite !length_app; cbn; rewrite length_app; cbn; lia).
    unfold x, y, z. by rewrite !string_of_list_ascii_of_string.
Qed.

(** ** What a module exports *)

(** The binding a symbol of the module exports. *)
Definition exported (module_base : Z) (dynamic : DynamicInfo) (key : SymbolKey)
    (symbol : DynamicSymbol) : Prop :=
  ds_value symbol <> 0 /\ (binding symbol = kSymbolBindGlobal \/ binding symbol = kSymbolBindWeak) /\
  make_symbol_key dynamic symbol = Some key.

#[export] Instance exported_dec base dynamic key symbol : Decision (exported base dynamic key symbol).
Proof. apply _. Defined.

Definition export_binding (module_base : Z) (symbol : DynamicSymbol) : SymbolBinding :=
  mkSymbolBinding (module_base + ds_value symbol) (ds_name symbol) false.

Lemma add_unsigned_Some lhs rhs r :
  add_unsigned lhs rhs = Some r <-> lhs + rhs <= u64_max /\ r = wrap64 (lhs + rhs).
Proof.
  unfold add_unsigned. destruct (Z.ltb_spec (u64_max - rhs) lhs); split;
    [done|intros [? _]; lia|intros [= <-]; split; [lia|done]|by intros [_ ->]].
Qed.

Lemma register_export_spec base dynamic n s symbol n' s' key :
  0 <= base -> 0 <= ds_value symbol ->
  register_export base dynamic (n, s) symbol = Ok (n', s') ->
  s' !! key = (if decide (exported base dynamic key symbol) then
                 match s !! key with
                 | Some w => if hle w then Some (export_binding base symbol) else Some w
                 | None => Some (export_binding base symbol)
                 end
               else s !! key) /\ n <= n'.
Proof.
  intros Hb Hv. unfold register_export.
  destruct (Z.eqb_spec (ds_value symbol) 0); cbn [orb].
  { intros [= <- <-]. rewrite decide_False by (unfold exported; tauto). split; [done|lia]. }
  destruct (Z.eqb_spec (binding symbol) kSymbolBindGlobal) as [Hg|Hg],
    (Z.eqb_spec (binding symbol) kSymbolBindWeak) as [Hw|Hw]; cbn [negb andb].
  4: { intros [= <- <-]. rewrite decide_False by (unfold exported; tauto). split; [done|lia]. }
  all: destruct (make_symbol_key dynamic symbol) as [k|] eqn:Hkey;
    [|intros [= <- <-]; rewrite decide_False by (unfold exported; naive_solver); split; [done|lia]].
  all: destruct (add_unsigned base (ds_value symbol)) as [a|] eqn:Ha; [|done];
    apply add_unsigned_Some in Ha as [? ->];
    rewrite wrap64_small by (unfold in_u64; lia); cbn [fst snd];
    pose proof (register_symbol_lookup s k (export_binding base symbol) key) as Hl;
    fold (export_binding base symbol);
    destruct (register_symbol s k (export_binding base symbol)) as [ok s1];
    intros [= <- <-]; cbn [snd] in Hl; rewrite Hl; (split; [|destruct ok; lia]).
  all: destruct (decide (k = key)) as [->|Hk];
    [rewrite decide_True by (unfold exported; tauto)
    |rewrite decide_False by (unfold exported; naive_solver); done];
    destruct (s !! key) as [w|]; [|done]; cbn; by rewrite andb_true_r.
Qed.

(** the exports of a module.  When [register_exports] returns, every key
    already bound by a guest module keeps its binding; every other key that
    some global or weak symbol of the module defines is bound to the base plus
    the value of the first such symbol; every other key is untouched. *)
Theorem register_exports_binds symbols module_base dynamic n symbols' key :
  0 <= module_base -> Forall (fun s => 0 <= ds_value s) (Dynamic.symbols dynamic) ->
  register_exports symbols module_base dynamic = Ok (n, symbols') ->
  resolve symbols' key =
    match resolve symbols key,
          head (filter (exported module_base dynamic key) (Dynamic.symbols dynamic)) with
    | Some b, Some s => if hle b then Some (export_binding module_base s) else Some b
    | None, Some s => Some (export_binding module_base s)
    | b, None => b
    end.
Proof.
  unfold register_exports, resolve. intros Hb. generalize 0 at 2. generalize (Dynamic.symbols dynamic).
  intros l. revert symbols. induction l as [|s l IH]; intros symbols k Hv Hr; cbn [fold_result] in Hr.
  { inv_result. by destruct (symbols' !! key). }
  apply Forall_cons in Hv as [Hs Hv]. inv_result. destruct r as [k1 s1].
  apply (register_export_spec _ _ _ _ _ _ _ key) in Hr0 as [Hl _]; [|done..].
  rewrite (IH s1 k1 Hv Hr), Hl, filter_cons. destruct (decide (exported _ _ _ s)); [|done].
  cbn [head]. destruct (symbols !! key) as [w|]; [destruct (hle w) eqn:Hw|];
    destruct (filter _ l); cbn; by rewrite ?Hw.
Qed.

(** ** What relocation does

    The specification reads the final late-import table: an import keeps the
    thunk it got. *)

Definition late_lookup (late : option LateImportTable) (patch_address : Z) (key : SymbolKey)
  : option Z :=
  table ← late; record ← find_by_patch table patch_address;
  if bool_decide (lir_key record = key) then Some (lir_thunk_address record) else None.

Definition is_callable (symbol : DynamicSymbol) : bool :=
  (symbol_type symbol =? kSymbolTypeFunction) || (symbol_type symbol =? kSymbolTypeNoType).

(** The value a relocation stores, whether it is unresolved, and its symbol. *)
Definition spec_choice (registry : SymbolRegistry) (late : option LateImportTable)
    (module_base tls_module_id : Z) (dynamic : DynamicInfo) (r : Relocation) : choice :=
  let type := relocation_type r in
  if type =? kRelocationX86_64Relative then
    mkChoice (add_signed module_base (r_addend r)) false false 0 "" 0
  else if type =? kRelocationX86_64DtpMod64 then
    if tls_module_id =? 0 then mkChoice None false true 0 "" 0
    else mkChoice (Some tls_module_id) false false 0 "" 0
  else
    match zget (symbols dynamic) (symbol_index r) with
    | None => mkChoice None false false 0 "" 0
    | Some symbol =>
        let weak := binding symbol =? kSymbolBindWeak in
        match resolve_symbol registry module_base dynamic symbol with
        | Some address =>
            mkChoice (add_signed address (if type =? kRelocationX86_64_64 then r_addend r else 0))
              weak false 0 (ds_name symbol) 0
        | None =>
            match (if is_callable symbol then make_symbol_key dynamic symbol else None)
                  ≫= late_lookup late (module_base + r_offset r) with
            | Some thunk => mkChoice (Some thunk) weak true thunk (ds_name symbol) 1
            | None => mkChoice None weak true 0 (ds_name symbol) 0
            end
        end
    end.

(** The calls to the late-import table of a relocation. *)
Definition late_calls (registry : SymbolRegistry) (module_base : Z) (dynamic : DynamicInfo)
    (r : Relocation) : list late_op :=
  if is_symbolic (relocation_type r) then
    match zget (symbols dynamic) (symbol_index r) with
    | None => []
    | Some symbol =>
        let patch := module_base + r_offset r in
        match resolve_symbol registry module_base dynamic symbol with
        | Some address =>
            match add_signed address
                    (if relocation_type r =? kRelocationX86_64_64 then r_addend r else 0) with
            | Some value => [op_bind patch value]
            | None => []
            end
        | None =>
            match (if is_callable symbol then make_symbol_key dynamic symbol else None) with
            | Some key => [op_get patch key (ds_name symbol)]
            | None => []
            end
        end
    end
  else [].

(** A table that only got longer, within its capacity. *)
Definition late_extends (l l' : option LateImportTable) : Prop :=
  match l, l' with
  | None, None => True
  | Some t, Some t' =>
      same_frame t t' /\ records_ t `prefix_of` records_ t' /\
      zlen (records_ t) <= capacity_ t /\ zlen (records_ t') <= capacity_ t'
  | _, _ => False
  end.

Lemma late_extends_trans l1 l2 l3 : late_extends l1 l2 -> late_extends l2 l3 -> late_extends l1 l3.
Proof.
  destruct l1, l2, l3; cbn; try done. intros (? & ? & ? & ?) (? & ? & ? & ?).
  split_and!; [by etransitivity..|done|done].
Qed.

Lemma find_by_patch_prefix t t' p r :
  records_ t `prefix_of` records_ t' -> find_by_patch t p = Some r -> find_by_patch t' p = Some r.
Proof.
  unfold find_by_patch. intros [l ->]. rewrite filter_app.
  by destruct (filter _ (records_ t)).
Qed.

(** A thunk is found again in every later table. *)
Lemma get_or_create_stable t p key name a t' late :
  get_or_create t p key name = (a, t') -> late_extends (Some t') late ->
  late_lookup late p key = a.
Proof.
  destruct late as [t''|]; [|done]. cbn [late_extends late_lookup mbind option_bind].
  unfold get_or_create. intros Hg (Hf & Hp & Hc & Hc').
  destruct (find_by_patch t p) as [r|] eqn:Hr.
  { destruct (bool_decide (lir_key r = key)) eqn:Hk; injection Hg as <- <-;
      rewrite (find_by_patch_prefix _ _ _ _ Hp Hr); cbn; by rewrite Hk. }
  destruct (Z.leb_spec (capacity_ t) (zlen (records_ t))).
  - injection Hg as <- <-. assert (records_ t'' = records_ t) as Heq.
    { destruct Hf as (_ & Hcap & _), Hp as [l Hl]. rewrite Hl, length_app in Hc'.
      destruct l as [|x l]; [by rewrite app_nil_r in Hl|]. cbn in Hc'. lia. }
    assert (find_by_patch t'' p = None) as ->; [|done]. revert Hr. unfold find_by_patch. by rewrite Heq.
  - injection Hg as <- <-. set (record := mkLateImportRecord _ _ _ _ _) in *.
    rewrite (find_by_patch_prefix _ t'' p record Hp); [by cbn; rewrite bool_decide_true by done|].
    revert Hr. unfold find_by_patch. cbn [records_]. rewrite filter_app, filter_cons, filter_nil.
    rewrite decide_True by done. by destruct (filter _ (records_ t)).
Qed.

Lemma add_signed_range lhs rhs r : in_u64 lhs -> add_signed lhs rhs = Some r -> in_u64 r.
Proof.
  unfold add_signed, add_unsigned. intros Hl Ha. destruct (Z.leb_spec 0 rhs).
  - case_match; [done|]. injection Ha as <-. apply wrap64_range.
  - destruct (Z.ltb_spec lhs (- (rhs + 1) + 1)); [done|]. injection Ha as <-. unfold in_u64 in *. lia.
Qed.

Section RelocateProofs.
Context {M : Type} `{PatchMemory M, !PatchMemoryLaws M}.
Implicit Types (st : linker M).

Record linker_inv st : Prop := {
  ki_wf : pm_wf (lk_memory st);
  ki_symbols key b : lk_symbols st !! key = Some b -> in_u64 (Symbols.address b);
  ki_late t : lk_late st = Some t -> late_inv t (pm_host (lk_memory st));
  ki_apart t a : lk_late st = Some t ->
    arena_base (arena_ t) <= a < arena_base (arena_ t) + arena_size (arena_ t) ->
    ~ pm_private (lk_memory st) a;
}.

Definition linker_imports st : list import :=
  match lk_late st with Some t => imports t (pm_host (lk_memory st)) | None => [] end.

(** The imports after some calls to the table, when there is one. *)
Definition imports_after st (calls : list late_op) : list import :=
  match lk_late st with
  | Some t => (run_spec (capacity_ t) (linker_imports st) calls).2
  | None => []
  end.

(** What a step of relocation does to everything but the guest's bytes. *)
Record late_step st st' (calls : list late_op) : Prop := {
  ls_inv : linker_inv st';
  ls_symbols : lk_symbols st' = lk_symbols st;
  ls_late : late_extends (lk_late st) (lk_late st');
  ls_imports : linker_imports st' = imports_after st calls;
}.

Lemma late_extends_refl st : linker_inv st -> late_extends (lk_late st) (lk_late st).
Proof.
  intros Hi. destruct (lk_late st) as [t|] eqn:Ht; [|done].
  pose proof (li_count _ _ (ki_late _ Hi t Ht)). by split_and!.
Qed.

Lemma late_step_nil st : linker_inv st -> late_step st st [].
Proof.
  intros Hi. split; [done|done|by apply late_extends_refl|].
  unfold imports_after, linker_imports. by destruct (lk_late st).
Qed.

Lemma run_spec_app capacity s l1 l2 :
  (run_spec capacity s (l1 ++ l2)).2 = (run_spec capacity (run_spec capacity s l1).2 l2).2.
Proof.
  revert s. induction l1 as [|o l1 IH]; intros s; [done|]. cbn [run_spec app].
  destruct (do_spec capacity s o) as [a s1]. specialize (IH s1).
  destruct (run_spec capacity s1 (l1 ++ l2)), (run_spec capacity s1 l1). exact IH.
Qed.

Lemma late_step_trans st1 st2 st3 c1 c2 :
  late_step st1 st2 c1 -> late_step st2 st3 c2 -> late_step st1 st3 (c1 ++ c2).
Proof.
  intros [_ Hs1 Hl1 Hi1] [Hv Hs2 Hl2 Hi2]. split; [done|congruence|by eapply late_extends_trans|].
  rewrite Hi2. unfold imports_after in *. rewrite Hi1.
  destruct (lk_late st1) as [t|], (lk_late st2) as [t'|]; cbn in Hl1; try done.
  destruct Hl1 as ((_ & -> & _) & _). by rewrite run_spec_app.
Qed.

(** A change of the host memory outside the table and the patched memory's
    own part. *)
Lemma bind_late_step st patch value st' :
  linker_inv st -> in_u64 value -> bind_late st patch value = Ok st' ->
  late_step st st' [op_bind patch value] /\
  (forall x, pm_byte (lk_memory st') x = pm_byte (lk_memory st) x) /\ lk_late st' = lk_late st.
Proof.
  unfold bind_late. intros Hi Hv. destruct (lk_late st) as [t|] eqn:Ht.
  2: { intros [= <-]. split; [|done]. split; [done|done|by rewrite Ht|].
       unfold linker_imports, imports_after. by rewrite Ht. }
  pose proof (ki_late _ Hi t Ht) as Hli.
  destruct (bind_patch_refines t (pm_host (lk_memory st)) patch value Hli Hv)
    as (b & h & Hb & Hsp & Hli' & Hprot & Hsame).
  rewrite Hb. cbn. intros [= <-].
  destruct (pm_with_host_ok (lk_memory st) h) as (Hw & Hby & Hpr); [apply Hi| |].
  { intros a Ha. apply Hsame. intros Hin. by apply (ki_apart _ Hi t a Ht Hin). }
  split; [|done]. split; cbn [lk_symbols lk_late].
  - split; cbn [lk_memory lk_symbols lk_late]; [done|apply Hi| |].
    + intros t' [= <-]. by rewrite pm_host_with_host.
    + intros t' a [= <-] Ha. rewrite Hpr. by apply (ki_apart _ Hi t a Ht).
  - done.
  - rewrite Ht. cbn. split_and!; [done..| |]; apply Hli.
  - unfold linker_imports, imports_after. cbn [lk_late lk_memory]. rewrite Ht, pm_host_with_host. cbn.
    unfold linker_imports. rewrite Ht, Hsp. done.
Qed.

Lemma late_thunk_step st callable patch key name a st' :
  linker_inv st -> late_thunk st callable patch key name = (a, st') ->
  late_step st st' match (if callable then key else None) with
                   | Some key => [op_get patch key name] | None => [] end /\
  lk_memory st' = lk_memory st /\
  forall late, late_extends (lk_late st') late ->
    a = (if callable then key else None) ≫= late_lookup late patch.
Proof.
  unfold late_thunk. intros Hi. destruct callable; [|intros [= <- <-]; split; [by apply late_step_nil|done]].
  destruct key as [key|]; [|intros [= <- <-]; split; [by apply late_step_nil|done]].
  destruct (lk_late st) as [t|] eqn:Ht.
  2: { intros [= <- <-]. rewrite Ht. split; [|split; [done|by intros []]].
       split; [done|done|by rewrite Ht|]. unfold linker_imports, imports_after. by rewrite Ht. }
  pose proof (ki_late _ Hi t Ht) as Hli.
  destruct (get_or_create_refines t (pm_host (lk_memory st)) patch key name Hli)
    as (pos & t' & Hg & Hsp & Hli' & Hf).
  assert (records_ t `prefix_of` records_ t') as Hpre.
  { revert Hg. unfold get_or_create. repeat case_match; intros; simplify_eq; try done.
    cbn. by eexists. }
  rewrite Hg. intros [= <- <-]. cbn [lk_late lk_memory]. split; [|split; [done|]].
  - split; cbn [lk_late lk_symbols]; [|done| |].
    + split; cbn [lk_late lk_symbols lk_memory]; [apply Hi|apply Hi|by intros ? [= <-]|].
      intros t'' b [= <-] Hb. pose proof Hf as (Ha & _). rewrite Ha in Hb. by apply (ki_apart _ Hi t b Ht).
    + rewrite Ht. cbn. split_and!; [apply Hf..|done|apply Hli|apply Hli'].
    + unfold linker_imports, imports_after. cbn [lk_late lk_memory]. rewrite Ht. cbn.
      unfold linker_imports. by rewrite Ht, Hsp.
  - intros late Hl. cbn. symmetry. by eapply get_or_create_stable.
Qed.

Lemma resolve_symbol_range st base dynamic symbol a :
  linker_inv st -> resolve_symbol (lk_symbols st) base dynamic symbol = Some a -> in_u64 a.
Proof.
  intros Hi. unfold resolve_symbol.
  case_match; [intros [_ ->]%add_unsigned_Some; apply wrap64_range|].
  case_match; [done|]. destruct (make_symbol_key _ _) as [key|]; [|done].
  unfold resolve. destruct (lk_symbols st !! key) eqn:Hk; [|done]. intros [= <-].
  by apply (ki_symbols _ Hi key).
Qed.

Lemma choose_spec st base tls dynamic r ch st' :
  linker_inv st ->
  choose st base tls dynamic r (base + r_offset r) = Ok (ch, st') ->
  late_step st st' (late_calls (lk_symbols st) base dynamic r) /\
  (forall x, pm_byte (lk_memory st') x = pm_byte (lk_memory st) x) /\
  forall late, late_extends (lk_late st') late ->
    ch = spec_choice (lk_symbols st) late base tls dynamic r.
Proof.
  intros Hi. unfold choose, spec_choice, late_calls.
  destruct (relocation_type r =? kRelocationX86_64Relative) eqn:T1.
  { intros [= <- <-]. split; [|done]. replace (is_symbolic _) with false; [by apply late_step_nil|].
    apply Z.eqb_eq in T1. by rewrite T1. }
  destruct (relocation_type r =? kRelocationX86_64DtpMod64) eqn:T2.
  { intros [= <- <-]. replace (is_symbolic _) with false by (apply Z.eqb_eq in T2; by rewrite T2).
    split; [by apply late_step_nil|]. split; [done|]. intros late _. by destruct (tls =? 0). }
  destruct (is_symbolic _); [|done].
  destruct (zget (symbols dynamic) (symbol_index r)) as [symbol|]; [|done].
  destruct (resolve_symbol (lk_symbols st) base dynamic symbol) as [address|] eqn:Hres.
  - apply resolve_symbol_range in Hres; [|done].
    destruct (add_signed address _) as [v|] eqn:Hv; intros Hc; inv_result.
    + apply add_signed_range in Hv; [|done]. by apply bind_late_step in Hr as (? & ? & _).
    + split; [by apply late_step_nil|done].
  - destruct (late_thunk st _ _ _ _) as [a st1] eqn:Hlt. intros [= <- <-].
    apply late_thunk_step in Hlt as (Hst & Hm & Ha); [|done]. split; [exact Hst|].
    split; [by rewrite Hm|]. intros late Hl. rewrite (Ha late Hl). unfold is_callable. by case_match.
Qed.

Lemma patch_step st address bytes memory :
  linker_inv st -> bytes <> [] -> pm_patch (lk_memory st) address bytes = Ok (true, memory) ->
  late_step st (mkLinker memory (lk_symbols st) (lk_late st)) [] /\
  forall x, pm_byte memory x = overwrite (pm_byte (lk_memory st)) address bytes x.
Proof.
  intros Hi Hne Hp. apply pm_patch_ok in Hp as (Hw & Hb & Hpr & Ho); [|apply Hi|done].
  split; [|done].
  assert (forall t, lk_late st = Some t ->
    late_inv t (pm_host memory) /\ imports t (pm_host memory) = imports t (pm_host (lk_memory st)))
    as Hsame.
  { intros t Ht. apply late_inv_same; [by apply Hi|]. intros a Ha. apply Ho.
    by apply (ki_apart _ Hi t a Ht). }
  split; cbn [lk_late lk_symbols]; [|done|by apply late_extends_refl|].
  - split; cbn [lk_late lk_symbols lk_memory]; [done|apply Hi|intros t Ht; by apply Hsame|].
    intros t a Ht Ha. rewrite Hpr. by apply (ki_apart _ Hi t a Ht).
  - unfold linker_imports, imports_after, linker_imports. cbn [lk_late lk_memory].
    destruct (lk_late st) as [t|]; [|done]. cbn. by apply Hsame.
Qed.

(** The report and the guest's bytes after one relocation. *)
Definition spec_entry registry late base tls dynamic (plt : bool) (r : Relocation)
  : list UnresolvedRelocation :=
  let ch := spec_choice registry late base tls dynamic r in
  if ch_unresolved ch
  then [mkUnresolvedRelocation (base + r_offset r) (relocation_type r) (symbol_index r)
          (ch_symbol_name ch) (ch_weak ch) plt (ch_thunk_address ch)]
  else [].

Definition spec_store registry late base tls dynamic (f : Z -> option byte) (r : Relocation)
  : Z -> option byte :=
  match ch_value (spec_choice registry late base tls dynamic r) with
  | Some v => overwrite f (base + r_offset r) (le_encode 8 v)
  | None => f
  end.

Definition spec_report registry late base tls dynamic (plt : bool) (rep : RelocationReport)
    (r : Relocation) : RelocationReport :=
  let ch := spec_choice registry late base tls dynamic r in
  mkRelocationReport (applied rep + match ch_value ch with Some _ => 1 | None => 0 end)
    (late_thunks rep + ch_late ch)
    (unresolved rep ++ spec_entry registry late base tls dynamic plt r).

Lemma le_encode_8_cons v : le_encode 8 v <> [].
Proof. done. Qed.

Lemma relocate_one_spec st base tls dynamic plt rep r rep' st' :
  linker_inv st -> 0 <= base -> 0 <= r_offset r ->
  relocate_one base tls dynamic plt (rep, st) r = Ok (rep', st') ->
  late_step st st' (late_calls (lk_symbols st) base dynamic r) /\
  forall late, late_extends (lk_late st') late ->
    (forall x, pm_byte (lk_memory st') x =
      spec_store (lk_symbols st) late base tls dynamic (pm_byte (lk_memory st)) r x) /\
    rep' = spec_report (lk_symbols st) late base tls dynamic plt rep r.
Proof.
  intros Hi Hb Hr. unfold relocate_one.
  destruct (add_unsigned base (r_offset r)) as [patch|] eqn:Hp; [|done].
  apply add_unsigned_Some in Hp as [Hle ->]. rewrite wrap64_small by (unfold in_u64; lia).
  intros Ho. apply bind_Ok in Ho as ([ch st1] & Hc & Ho).
  apply choose_spec in Hc as (Hst & Hby & Hch); [|done].
  unfold spec_store, spec_report, spec_entry. destruct (ch_value ch) as [v|] eqn:Hv.
  - apply bind_Ok in Ho as ([ok memory] & Hpt & Ho). apply bind_Ok in Ho as (u & Hok & Ho).
    apply throw_if_Ok, negb_false_iff in Hok. subst ok. injection Ho as <- <-.
    apply patch_step in Hpt as [Hst2 Hby2]; [|apply Hst|apply le_encode_8_cons].
    split; [rewrite <- (app_nil_r (late_calls _ _ _ _)); by eapply late_step_trans|].
    cbn [lk_late lk_memory]. intros late Hl. rewrite <- (Hch late Hl), Hv. split; [|done].
    intros x. rewrite Hby2. unfold overwrite. case_match; [done|apply Hby].
  - injection Ho as <- <-. split; [done|]. intros late Hl. rewrite <- (Hch late Hl), Hv.
    split; [done|]. by rewrite Z.add_0_r.
Qed.

Lemma foldl_store_ext registry late base tls dynamic rs f g :
  (forall x, f x = g x) -> forall x,
  foldl (spec_store registry late base tls dynamic) f rs x =
  foldl (spec_store registry late base tls dynamic) g rs x.
Proof.
  revert f g. induction rs as [|r rs IH]; intros f g Hfg x; cbn; [done|].
  apply IH. intros y. unfold spec_store, overwrite. repeat case_match; done.
Qed.

Lemma relocate_table_spec rs st base tls dynamic plt rep rep' st' :
  linker_inv st -> 0 <= base -> Forall (fun r => 0 <= r_offset r) rs ->
  fold_result (relocate_one base tls dynamic plt) (rep, st) rs = Ok (rep', st') ->
  late_step st st' (rs ≫= late_calls (lk_symbols st) base dynamic) /\
  forall late, late_extends (lk_late st') late ->
    (forall x, pm_byte (lk_memory st') x =
      foldl (spec_store (lk_symbols st) late base tls dynamic) (pm_byte (lk_memory st)) rs x) /\
    rep' = foldl (spec_report (lk_symbols st) late base tls dynamic plt) rep rs.
Proof.
  revert st rep. induction rs as [|r rs IH]; intros st rep Hi Hb Hrs; cbn [fold_result].
  { intros [= <- <-]. split; [by apply late_step_nil|done]. }
  apply Forall_cons in Hrs as [Hr Hrs]. intros Hf. apply bind_Ok in Hf as ([rep1 st1] & H1 & Hf).
  apply relocate_one_spec in H1 as [Hst1 Hsp1]; [|done..].
  apply IH in Hf as [Hst2 Hsp2]; [|apply Hst1|done..].
  pose proof (ls_symbols _ _ _ Hst1) as Hsy. rewrite Hsy in Hst2, Hsp2. split.
  - cbn. by eapply late_step_trans.
  - intros late Hl. destruct (Hsp2 late Hl) as [Hb2 Hr2].
    destruct (Hsp1 late) as [Hb1 Hr1]; [by eapply late_extends_trans; [apply Hst2|]|].
    cbn. split; [|by rewrite Hr2, Hr1]. intros x. rewrite Hb2. by apply foldl_store_ext.
Qed.

Lemma foldl_report registry late base tls dynamic plt rs rep :
  let choices := spec_choice registry late base tls dynamic <$> rs in
  foldl (spec_report registry late base tls dynamic plt) rep rs =
  mkRelocationReport (applied rep + zlen (omap ch_value choices))
    (late_thunks rep + foldr Z.add 0 (ch_late <$> choices))
    (unresolved rep ++ (rs ≫= spec_entry registry late base tls dynamic plt)).
Proof.
  cbv zeta. revert rep. induction rs as [|r rs IH]; intros rep; cbn [foldl].
  { cbn. rewrite !Z.add_0_r, app_nil_r. by destruct rep. }
  rewrite IH. unfold spec_report. cbn. f_equal.
  - destruct (ch_value _); cbn; lia.
  - lia.
  - by rewrite app_assoc.
Qed.


(** relocation and the late imports.  After [relocate], the imports of the
    table are those before, updated by exactly one call per relocation that
    reaches the table, in order: an unresolved callable import is requested
    at its patch address, and a resolved symbol is bound there, so that a thunk
    handed out by an earlier load forwards to the symbol once a later
    relocation of the same address resolves it. *)
Theorem relocate_updates_late_imports st base tls dynamic report st' :
  linker_inv st -> 0 <= base ->
  Forall (fun r => 0 <= r_offset r) (relocations dynamic ++ plt_relocations dynamic) ->
  relocate st base tls dynamic = Ok (report, st') ->
  linker_inv st' /\ late_extends (lk_late st) (lk_late st') /\
  linker_imports st' =
    imports_after st ((relocations dynamic ++ plt_relocations dynamic)
                        ≫= late_calls (lk_symbols st) base dynamic).
Proof.
  intros Hi Hb Hall Hr. apply Forall_app in Hall as [Hrel Hplt]. unfold relocate in Hr.
  apply bind_Ok in Hr as ([rep1 st1] & H1 & H2).
  apply relocate_table_spec in H1 as [Hst1 _]; [|done..].
  apply relocate_table_spec in H2 as [Hst2 _]; [|apply Hst1|done..].
  rewrite (ls_symbols _ _ _ Hst1) in Hst2.
  destruct (late_step_trans _ _ _ _ _ Hst1 Hst2) as [? _ ? Him].
  split; [done|]. split; [done|]. rewrite Him. by rewrite bind_app.
Qed.

End RelocateProofs.

(** ** Witnesses

    A buffered space with one region, a table of two thunks, and a module with
    an unresolved function at one slot and a relative relocation at another. *)

#[local] Existing Instance tiny_host.
#[local] Existing Instance tiny_host_laws.

Definition sample_late : LateImportTable := mkLateImportTable (mkNativeArena 64 96) 2 64 [].
Definition sample_host : HostMem :=
  match create tiny_mem 2 with Ok (_, h) => h | Throw _ => tiny_mem end.
Definition sample_linker : linker space :=
  mkLinker (with_host tiny_buffered sample_host) ∅ (Some sample_late).

Definition sample_symbol : DynamicSymbol := mkDynamicSymbol 0 0x12 0 0 0 0 "f#A#B".
Definition sample_export : DynamicSymbol := mkDynamicSymbol 0 0x12 0 0 0x20 0 "g#A#B".
Definition sample_dynamic : DynamicInfo :=
  mkDynamicInfo true [] [] [sample_symbol; sample_export] [mkRelocation 0 8 5]
    [mkRelocation 8 7 0] [] "" "" "" "" [mkModuleReference 1 1 1 "B" "mod"] []
    [mkLibraryReference 0 1 "A" "lib"] [] 0 0 0 0 0 0 0 0 0 0.

Lemma sample_linker_inv : linker_inv sample_linker.
Proof.
  assert (late_inv sample_late sample_host) as Hl.
  { destruct (create_built tiny_mem 2 sample_late sample_host) as (Hr & _ & Hlay & Hb);
      [by unfold in_u64|reflexivity|]. by apply built_inv. }
  split; cbn [lk_late lk_memory lk_symbols sample_linker].
  - refine (proj1 (pm_with_host_ok tiny_buffered sample_host _ _)); [|done].
    apply reachable_wf, tiny_buffered_reachable.
  - by intros key b Hk.
  - by intros t [= <-].
  - intros t a [= <-] _ [].
Qed.

Lemma register_exports_binds_witness :
  exists n s key, register_exports ∅ 80 sample_dynamic = Ok (n, s) /\
    resolve s key = Some (mkSymbolBinding 112 "g#A#B" false).
Proof.
  set (key := mkSymbolKey "g" "lib" "mod" 1 1 1 sym_function).
  assert (match register_exports ∅ 80 sample_dynamic with Ok (n, _) => n | Throw _ => 0 end = 1) as Hn
    by (vm_compute; reflexivity).
  destruct (register_exports ∅ 80 sample_dynamic) as [[n s]|] eqn:He; [|discriminate Hn].
  exists n, s, key. split; [done|].
  rewrite (register_exports_binds ∅ 80 sample_dynamic n s key); [vm_compute; reflexivity|lia| |done].
  repeat constructor; cbn; lia.
Defined.

Definition sample_relocated := relocate sample_linker 80 0 sample_dynamic.
Definition sample_report : RelocationReport :=
  match sample_relocated with Ok (report, _) => report | Throw _ => mkRelocationReport 0 0 [] end.
Definition sample_linked : linker space :=
  match sample_relocated with Ok (_, st) => st | Throw _ => sample_linker end.


Lemma relocate_updates_late_imports_witness :
  exists key, linker_imports sample_linked = [mkImport 88 key 0].
Proof.
  destruct (relocate_updates_late_imports sample_linker 80 0 sample_dynamic sample_report sample_linked)
    as (_ & _ & ->); [apply sample_linker_inv|lia|repeat constructor; cbn; lia|reflexivity|].
  eexists. vm_compute. reflexivity.
Defined.
