(* ===== verification/CpuPatches.v ===== *)
(** * Rewriting of thread-control-block accesses

    [src/src/runtime/cpu_patches.cpp]: the guest reaches its thread control
    block through [fs], which the host keeps for itself; [patch_tcb_accesses]
    sweeps the code of a segment and rewrites those accesses, by changing the
    segment prefix (Linux) or by a jump to a thunk (Windows).

    The instruction decoder is Zydis: the class [Decoder], with the fields of
    its result that the source reads; [DecoderLaws] is what the sweep relies
    on.  The sweep decodes through a view of the memory it patches, so that the
    bytes it decodes are those of the moment. *)

From S2P Require Import Prelude OrdMap NativeArena GuestMemory GuestMemoryProps PatchMemory.

Local Open Scope Z_scope.

(** ** The decoder *)

Inductive ZydisMnemonic : Type := mnemonic_mov | mnemonic_cmp | mnemonic_xor | mnemonic_other.

Inductive ZydisRegister : Type :=
| RAX | RCX | RDX | RBX | RSP | RBP | RSI | RDI
| R8 | R9 | R10 | R11 | R12 | R13 | R14 | R15
| reg_fs | reg_none | reg_other.

Inductive ZydisOperandType : Type := operand_register | operand_memory | operand_other.

#[export] Instance mnemonic_eq_dec : EqDecision ZydisMnemonic.
Proof. solve_decision. Defined.
#[export] Instance register_eq_dec : EqDecision ZydisRegister.
Proof. solve_decision. Defined.
#[export] Instance operand_type_eq_dec : EqDecision ZydisOperandType.
Proof. solve_decision. Defined.

Record DecodedOperand : Type := mkOperand {
  zo_type : ZydisOperandType;
  zo_size : Z;
  zo_register : ZydisRegister;
  zo_segment : ZydisRegister;
  zo_base : ZydisRegister;
  zo_index : ZydisRegister;
  zo_has_displacement : bool;
  zo_displacement : Z;
}.

Record DecodedInstruction : Type := mkInstruction {
  zi_length : Z;
  zi_mnemonic : ZydisMnemonic;
  zi_operand_count_visible : Z;
  zi_prefixes : list Z;
  zi_disp_size : Z;
  zi_disp_offset : Z;
}.

(** An instruction with its first two operands. *)
Definition decoded : Type := DecodedInstruction * (DecodedOperand * DecodedOperand).

Class Decoder : Type := {
  zydis_init : bool;
  zydis_decode : list byte -> option decoded;
}.

Definition kMaxInstructionLength := 15.

(** The instruction lies in the bytes given, and its prefixes are its first
    bytes. *)
Class DecoderLaws (D : Decoder) : Prop := {
  zydis_length bs i ops : zydis_decode bs = Some (i, ops) ->
    0 <= zi_length i <= zlen bs /\ zi_length i <= kMaxInstructionLength;
  zydis_prefixes bs i ops : zydis_decode bs = Some (i, ops) ->
    zlen (zi_prefixes i) <= zi_length i /\
    forall p v, zi_prefixes i !! p = Some v -> byte_val <$> bs !! p = Some v;
}.

(** ** Recognising an access *)

Definition kNearJumpSize := 5.
Definition kGuestTcbSize := 0x40.

Definition is_tcb_mnemonic (mnemonic : ZydisMnemonic) : bool :=
  bool_decide (mnemonic = mnemonic_mov) || bool_decide (mnemonic = mnemonic_cmp)
  || bool_decide (mnemonic = mnemonic_xor).

Definition is_tcb_access (d : decoded) : bool :=
  let '(instruction, (destination, source)) := d in
  if negb (is_tcb_mnemonic (zi_mnemonic instruction)) || (zi_operand_count_visible instruction <? 2)
  then false
  else
    bool_decide (zo_type destination = operand_register) && (zo_size destination =? 64)
    && bool_decide (zo_type source = operand_memory) && (zo_size source =? 64)
    && bool_decide (zo_segment source = reg_fs) && bool_decide (zo_base source = reg_none)
    && bool_decide (zo_index source = reg_none) && zo_has_displacement source
    && (0 <=? zo_displacement source) && (zo_displacement source <? kGuestTcbSize).

(** The place of the only [fs] prefix. *)
Fixpoint fs_prefix_loop (prefixes : list Z) (i : Z) (found : option Z) : option Z :=
  match prefixes with
  | [] => found
  | value :: prefixes =>
      if negb (value =? 0x64) then fs_prefix_loop prefixes (i + 1) found
      else match found with Some _ => None | None => fs_prefix_loop prefixes (i + 1) (Some i) end
  end.

Definition fs_prefix_offset (instruction : DecodedInstruction) : option Z :=
  fs_prefix_loop (zi_prefixes instruction) 0 None.

Definition gpr_index (reg : ZydisRegister) : option Z :=
  match reg with
  | RAX => Some 0 | RCX => Some 1 | RDX => Some 2 | RBX => Some 3
  | RSP => Some 4 | RBP => Some 5 | RSI => Some 6 | RDI => Some 7
  | R8 => Some 8 | R9 => Some 9 | R10 => Some 10 | R11 => Some 11
  | R12 => Some 12 | R13 => Some 13 | R14 => Some 14 | R15 => Some 15
  | _ => None
  end.

(** ** Emitting code: each function appends to [code] *)

Definition hex (z : Z) : byte := byte_of_Z z.

Definition append_u32 (code : list byte) (value : Z) : list byte := code ++ le_encode 4 value.

Definition emit_rex (code : list byte) (r b : bool) : list byte :=
  code ++ [hex (Z.lor (Z.lor 0x48 (if r then 0x04 else 0)) (if b then 0x01 else 0))].

Definition emit_mov_gs_absolute (code : list byte) (destination displacement : Z) : list byte :=
  let code := code ++ [hex 0x65] in
  let code := emit_rex code (8 <=? destination) false in
  let code := code ++ [hex 0x8b] in
  let code := code ++ [hex (Z.lor 0x04 (Z.shiftl (Z.land destination 7) 3))] in
  let code := code ++ [hex 0x25] in
  append_u32 code displacement.

Definition emit_mov_from_base (code : list byte) (destination base displacement : Z) : list byte :=
  let code := emit_rex code (8 <=? destination) (8 <=? base) in
  let code := code ++ [hex 0x8b] in
  let low_base := Z.land base 7 in
  let code := code ++ [hex (Z.lor (Z.lor 0x80 (Z.shiftl (Z.land destination 7) 3))
                              (if low_base =? 4 then 4 else low_base))] in
  let code := if low_base =? 4 then code ++ [hex 0x24] else code in
  append_u32 code displacement.

Definition emit_register_op (code : list byte) (opcode destination source : Z) : list byte :=
  let code := emit_rex code (8 <=? destination) (8 <=? source) in
  let code := code ++ [hex opcode] in
  code ++ [hex (Z.lor (Z.lor 0xc0 (Z.shiftl (Z.land destination 7) 3)) (Z.land source 7))].

Definition emit_push (code : list byte) (reg : Z) : list byte :=
  let code := if 8 <=? reg then code ++ [hex 0x41] else code in
  code ++ [hex (0x50 + Z.land reg 7)].

Definition emit_pop (code : list byte) (reg : Z) : list byte :=
  let code := if 8 <=? reg then code ++ [hex 0x41] else code in
  code ++ [hex (0x58 + Z.land reg 7)].

(** [lea rsp,[rsp-128]] and [lea rsp,[rsp+128]]. *)
Definition emit_enter_scratch (code : list byte) (scratch : Z) : list byte :=
  emit_push (code ++ map hex [0x48; 0x8d; 0x64; 0x24; 0x80]) scratch.

Definition emit_leave_scratch (code : list byte) (scratch : Z) : list byte :=
  emit_pop code scratch ++ map hex [0x48; 0x8d; 0xa4; 0x24; 0x80; 0x00; 0x00; 0x00].

Definition int32_max := 2147483647.

Definition relative_displacement (next_instruction target : Z) : option Z :=
  if next_instruction <=? target then
    let delta := target - next_instruction in
    if int32_max <? delta then None else Some delta
  else
    let delta := next_instruction - target in
    let min_magnitude := int32_max + 1 in
    if min_magnitude <? delta then None
    else if delta =? min_magnitude then Some (- int32_max - 1)
    else Some (- delta).

Definition append_near_jump (code : list byte) (instruction_address target : Z) : option (list byte) :=
  match relative_displacement (wrap64 (instruction_address + kNearJumpSize)) target with
  | None => None
  | Some displacement => Some (append_u32 (code ++ [hex 0xe9]) (wrap32 displacement))
  end.

Definition build_windows_tcb_thunk (d : decoded) (teb_offset thunk_address return_address : Z)
  : option (list byte) :=
  let '(instruction, (operand0, operand1)) := d in
  destination ← gpr_index (zo_register operand0);
  let tcb_offset := wrap32 (zo_displacement operand1) in
  code ← match zi_mnemonic instruction with
         | mnemonic_mov =>
             let code := emit_mov_gs_absolute [] destination teb_offset in
             Some (if negb (tcb_offset =? 0)
                   then emit_mov_from_base code destination destination tcb_offset else code)
         | mnemonic_cmp | mnemonic_xor =>
             if destination =? 4 then None
             else
               let scratch := if destination =? 0 then 3 else 0 in
               let code := emit_enter_scratch [] scratch in
               let code := emit_mov_gs_absolute code scratch teb_offset in
               let code := if negb (tcb_offset =? 0)
                           then emit_mov_from_base code scratch scratch tcb_offset else code in
               let code := emit_register_op code
                             (if bool_decide (zi_mnemonic instruction = mnemonic_cmp) then 0x3b else 0x33)
                             destination scratch in
               Some (emit_leave_scratch code scratch)
         | mnemonic_other => None
         end;
  append_near_jump code (wrap64 (thunk_address + zlen code)) return_address.

(** ** Patching *)

Inductive TcbPatchMode : Type := mode_none | fs_to_gs | fs_to_windows_teb.

Record TcbPatchPolicy : Type := mkPolicy { tp_mode : TcbPatchMode; windows_teb_offset : Z }.

Record TcbPatchArena : Type := mkPatchArena { pa_base : Z; pa_size : Z; pa_used : Z }.

Record TcbPatchReport : Type := mkPatchReport {
  decoded_instructions : Z;
  decode_failures : Z;
  rewritten : Z;
  unsupported : Z;
  trampoline_bytes : Z;
}.

Section Patches.
Context `{HostOs, !Decoder}.

Definition patch_linux (s : space) (address : Z) (d : decoded) : result (bool * space) :=
  match fs_prefix_offset d.1 with
  | None => Ok (false, s)
  | Some prefix => patch s (wrap64 (address + prefix)) [hex 0x65]
  end.

Definition patch_windows_inline (s : space) (address : Z) (d : decoded) (teb_offset : Z)
  : result (bool * space) :=
  let '(instruction, (_, source)) := d in
  if negb (zo_displacement source =? 0) || negb (zi_disp_size instruction =? 32) then Ok (false, s)
  else
    match fs_prefix_offset instruction with
    | None => Ok (false, s)
    | Some prefix =>
        if wrap64 (zi_length instruction - 4) <? zi_disp_offset instruction then Ok (false, s)
        else
          '(ok, s) ← patch s (wrap64 (address + prefix)) [hex 0x65];
          if negb (ok : bool) then Ok (false, s)
          else patch s (wrap64 (address + zi_disp_offset instruction)) (le_encode 4 teb_offset)
    end.

(** The result, the memory, the arena and the count of emitted bytes. *)
Definition patched : Type := bool * space * option TcbPatchArena * Z.

Definition patch_windows_trampoline (s : space) (address : Z) (d : decoded) (teb_offset : Z)
    (arena : option TcbPatchArena) (emitted_bytes : Z) : result patched :=
  let refuse s := Ok (false, s, arena, emitted_bytes) in
  match arena with
  | None => refuse s
  | Some a =>
      let length := zi_length d.1 in
      if (length <? kNearJumpSize) || (pa_size a <? pa_used a) then refuse s
      else
        let thunk_address := wrap64 (pa_base a + pa_used a) in
        match build_windows_tcb_thunk d teb_offset thunk_address (wrap64 (address + length)) with
        | None => refuse s
        | Some thunk =>
            if pa_size a - pa_used a <? zlen thunk then refuse s
            else
              match append_near_jump [] address thunk_address with
              | None => refuse s
              | Some jump =>
                  if negb (zlen jump =? kNearJumpSize) then refuse s
                  else
                    let site := jump ++ replicate (Z.to_nat kMaxInstructionLength - List.length jump) (hex 0x90) in
                    '(ok, s) ← write s thunk_address thunk;
                    if negb (ok : bool) then refuse s
                    else
                      '(ok, s) ← patch s address (take (Z.to_nat length) site);
                      if negb (ok : bool) then refuse s
                      else if negb (flush_instruction_cache s thunk_address (zlen thunk)) then refuse s
                      else
                        Ok (true, s, Some (mkPatchArena (pa_base a) (pa_size a) (pa_used a + zlen thunk)),
                            emitted_bytes + zlen thunk)
              end
        end
  end.

Definition patch_windows (s : space) (address : Z) (d : decoded) (teb_offset : Z)
    (arena : option TcbPatchArena) (emitted_bytes : Z) : result patched :=
  if zo_displacement d.2.2 =? 0 then
    '(ok, s) ← patch_windows_inline s address d teb_offset; Ok (ok, s, arena, emitted_bytes)
  else patch_windows_trampoline s address d teb_offset arena emitted_bytes.

Definition patch_access (policy : TcbPatchPolicy) (s : space) (address : Z) (d : decoded)
    (arena : option TcbPatchArena) (emitted_bytes : Z) : result patched :=
  match tp_mode policy with
  | fs_to_gs => '(ok, s) ← patch_linux s address d; Ok (ok, s, arena, emitted_bytes)
  | fs_to_windows_teb => patch_windows s address d (windows_teb_offset policy) arena emitted_bytes
  | mode_none => Ok (false, s, arena, emitted_bytes)
  end.

(** The sweep.  Each turn advances, so that [size] turns are enough. *)
Fixpoint patch_loop (fuel : nat) (policy : TcbPatchPolicy) (base size : Z) (s : space)
    (arena : option TcbPatchArena) (report : TcbPatchReport) (offset : Z)
  : result (TcbPatchReport * space * option TcbPatchArena) :=
  if size <=? offset then Ok (report, s, arena)
  else
    match fuel with
    | O => Throw (undefined_behaviour "the sweep does not end")
    | S fuel =>
        let '(mkPatchReport decoded failures rewritten unsupported emitted) := report in
        let bytes := view s base size in
        let fail :=
          patch_loop fuel policy base size s arena
            (mkPatchReport decoded (failures + 1) rewritten unsupported emitted) (offset + 1) in
        match zydis_decode (zslice bytes offset (size - offset)) with
        | None => fail
        | Some d =>
            if zi_length d.1 =? 0 then fail
            else if is_tcb_access d then
              '(ok, s, arena, emitted) ←
                patch_access policy s (wrap64 (base + offset)) d arena emitted;
              patch_loop fuel policy base size s arena
                (mkPatchReport (decoded + 1) failures
                   (if ok : bool then rewritten + 1 else rewritten)
                   (if ok : bool then unsupported else unsupported + 1) emitted)
                (offset + zi_length d.1)
            else
              patch_loop fuel policy base size s arena
                (mkPatchReport (decoded + 1) failures rewritten unsupported emitted)
                (offset + zi_length d.1)
        end
    end.

Definition patch_tcb_accesses (s : space) (base size : Z) (policy : TcbPatchPolicy)
    (arena : option TcbPatchArena) : result (option TcbPatchReport * space * option TcbPatchArena) :=
  if size =? 0 then Ok (None, s, arena)
  else if negb (zlen (view s base size) =? size) then Ok (None, s, arena)
  else if negb zydis_init then Ok (None, s, arena)
  else
    '(report, s, arena) ←
      patch_loop (Z.to_nat size) policy base size s arena (mkPatchReport 0 0 0 0 0) 0;
    if negb (rewritten report =? 0) && negb (flush_instruction_cache s base size)
    then Ok (None, s, arena)
    else Ok (Some report, s, arena).

End Patches.
