(* ===== verification/CpuPatchesProps.v ===== *)
(** * Properties of the rewriting of thread-control-block accesses

    The sweep of [patch_tcb_accesses] is compared with a sweep of the bytes the
    segment had before: the patches stay behind the place the sweep has
    reached, so that both decode the same instructions. *)

From S2P Require Import Prelude NativeArena GuestMemory GuestMemoryProps PatchMemory CpuPatches.

Local Open Scope Z_scope.

Section Bytes.
Context `{HostOs, !HostOsLaws H}.

Lemma patch_native_bytes s arena r ro po bytes ok s' :
  in_u64 (ri_size (info r)) ->
  patch_native s arena r ro po bytes = Ok (ok, s') ->
  regions_ s' = regions_ s /\ native_ s' = native_ s /\
  (same_bytes (host_ s) (host_ s') \/
   same_bytes (host_put (host_ s) (arena_base arena + po) bytes) (host_ s')).
Proof.
  unfold patch_native. intros Hsz. set (p1 := if has _ _ then _ else _).
  assert (same_bytes (host_ s) p1.2) as Hp1 by (unfold p1; case_match; [done|by apply arena_protect_bytes]).
  destruct p1 as [ok1 h1]. cbn in Hp1. destruct ok1; cbn [negb]; [|by intros [= <- <-]; auto].
  intros ([copied h2] & Hc & Hk)%bind_Ok.
  assert (same_bytes (host_ s) h2 \/
          same_bytes (host_put (host_ s) (arena_base arena + po) bytes) h2) as Hp2.
  { apply arena_copy_spec in Hc as [[_ ->]|(_ & -> & _)]; [by left|]. right. intros a.
    rewrite !host_put_get. by rewrite (Hp1 a). }
  destruct (has _ _); [inv_result; done|].
  pose proof (arena_protect_bytes arena h2 ro (ri_size (info r)) (ri_protection (info r))) as Hp3.
  destruct (arena_protect _ _ _ _ _) as [ok3 h3]. inv_result. split_and!; [done..|]. cbn in *.
  destruct Hp2 as [Hp2|Hp2]; [left|right]; intros a; by rewrite (Hp3 a), (Hp2 a).
Qed.

(** The memory after a patch of one byte, whatever it answers. *)
Record patched_byte (s s' : space) (a : Z) (b : byte) (ok : bool) : Prop := {
  pb_wf : space_wf s';
  pb_agrees : host_agrees s';
  pb_cells x : cell_at s' x = cell_at s x;
  pb_infos : same_infos s s';
  pb_byte x : byte_at s' x = byte_at s x \/ x = a /\ byte_at s' x = Some b;
  pb_done : ok = true -> byte_at s' a = Some b;
}.

Lemma patch_byte s a b ok s' :
  space_wf s -> host_agrees s -> patch s a [b] = Ok (ok, s') -> patched_byte s s' a b ok.
Proof.
  intros Hs Hag Hp. destruct (patch_total s a [b] Hs Hag) as (ok' & s'' & Hp' & Hag').
  rewrite Hp in Hp'. injection Hp' as <- <-.
  destruct (patch_spec s a [b] ok s' Hs ltac:(done) Hp) as (_ & Ht & Hf).
  destruct ok.
  { destruct (Ht eq_refl) as (_ & Hw & Hi & Hb). split; try done; [apply Hb| |].
    - intros x. destruct (Hb x) as [_ ->]. change (zlen [b]) with 1. destruct (in_range a 1 x) eqn:E; [|by left].
      apply in_range_true in E. right. assert (x = a) as -> by lia. by rewrite Z.sub_diag.
    - intros _. destruct (Hb a) as [_ ->]. rewrite (proj2 (in_range_true _ _ _)) by (cbn; lia).
      by rewrite Z.sub_diag. }
  destruct (Hf eq_refl) as [Hr Hn].
  assert (forall x, cell_at s' x = cell_at s x) as Hcell by (intros x; unfold cell_at; by rewrite Hr).
  split; [|done|done| | |done].
  - destruct s, s'; cbn in *; subst. by destruct Hs; split.
  - intros k. by rewrite Hr.
  - intros x. clear Ht Hf. unfold patch in Hp.
    destruct (find_region (regions_ s) a) as [r|] eqn:Hfr; [|left; congruence].
    destruct (ri_size (info r) - _ <? _); [left; congruence|].
    destruct (native_ s) as [arena|] eqn:Hna; [|congruence].
    destruct (arena_offset arena (ri_base (info r))) as [ro|]; [|left; congruence].
    destruct (arena_offset arena a) as [po|] eqn:Epo; [|left; congruence].
    apply patch_native_bytes in Hp as (_ & _ & Hb).
    2: { apply (find_region_owner (native_ s)) in Hfr as [Hfr _]; [|apply Hs].
         destruct (wf_region _ _ (wf_map _ Hs) _ _ Hfr). unfold in_u64. lia. }
    assert (po = a - arena_base arena) as ->.
    { unfold arena_offset in Epo. split_guards; by simplify_eq. }
    unfold byte_at. rewrite Hr. destruct (find_region (regions_ s) x) as [rx|]; [|by left]. cbn.
    unfold byte_in. rewrite Hn, ?Hna.
    destruct Hb as [Hb|Hb]; [left; by rewrite (Hb x)|]. rewrite (Hb x), host_put_get.
    replace (arena_base arena + (a - arena_base arena)) with a by lia. change (zlen [b]) with 1.
    destruct (in_range a 1 x) eqn:E; [|by left]. apply in_range_true in E. right.
    assert (x = a) as -> by lia. by rewrite Z.sub_diag.
Qed.

Lemma same_infos_store s s' base size :
  space_wf s -> space_wf s' -> same_infos s s' -> store_ok false s base size -> store_ok false s' base size.
Proof.
  intros Hs Hs' Hi (r & Hin & _). destruct (same_infos_in_region s s' r base size) as [r' Hin']; [done..|].
  by exists r'.
Qed.

End Bytes.

(** ** The sweep of the original bytes *)

Section Sweep.
Context `{HostOs, !HostOsLaws H} {D : Decoder} {DL : DecoderLaws D}.

(** The instructions from an offset on, [None] where a byte is skipped. *)
Fixpoint sweep (fuel : nat) (bytes : list byte) (offset : Z) : list (option (Z * decoded)) :=
  if zlen bytes <=? offset then []
  else
    match fuel with
    | O => []
    | S fuel =>
        match zydis_decode (zslice bytes offset (zlen bytes - offset)) with
        | None => None :: sweep fuel bytes (offset + 1)
        | Some d =>
            if zi_length d.1 =? 0 then None :: sweep fuel bytes (offset + 1)
            else Some (offset, d) :: sweep fuel bytes (offset + zi_length d.1)
        end
    end.

Definition disassemble (bytes : list byte) : list (option (Z * decoded)) := sweep (length bytes) bytes 0.

Definition instructions (items : list (option (Z * decoded))) : list (Z * decoded) := omap id items.
Definition accesses (items : list (option (Z * decoded))) : list (Z * decoded) :=
  filter (fun od => is_tcb_access od.2 = true) (instructions items).

(** The address of the [fs] prefix of an access. *)
Definition is_site (base : Z) (items : list (option (Z * decoded))) (x : Z) : Prop :=
  exists o d p, (o, d) ∈ accesses items /\ fs_prefix_offset d.1 = Some p /\ x = base + o + p.

Lemma fs_prefix_loop_Some prefixes i found p :
  fs_prefix_loop prefixes i found = Some p ->
  found = Some p \/ exists k, p = i + Z.of_nat k /\ prefixes !! k = Some 0x64.
Proof.
  revert i found. induction prefixes as [|v prefixes IH]; intros i found; cbn; [by left|].
  destruct (Z.eqb_spec v 0x64) as [->|]; cbn [negb].
  - destruct found; [done|]. intros [[= <-]|(k & -> & Hk)]%IH; right.
    + exists 0%nat. split; [lia|done].
    + exists (S k). split; [lia|exact Hk].
  - intros [->|(k & -> & Hk)]%IH; [by left|]. right. exists (S k). split; [lia|done].
Qed.

Lemma fs_prefix_site bs d p :
  zydis_decode bs = Some d -> fs_prefix_offset d.1 = Some p ->
  0 <= p < zi_length d.1 /\ zget bs p = Some (hex 0x64).
Proof.
  destruct d as [i ops]. intros Hd [?|(k & -> & Hk)]%fs_prefix_loop_Some; [done|].
  destruct (zydis_prefixes _ _ _ Hd) as [Hl Hp]. cbn [fst] in *. pose proof (lookup_lt_Some _ _ _ Hk). split; [lia|].
  apply Hp in Hk. unfold zget. destruct (Z.ltb_spec (0 + Z.of_nat k) 0); [lia|].
  replace (Z.to_nat (0 + Z.of_nat k)) with k by lia. destruct (bs !! k) as [b|]; [|done].
  cbn in Hk. injection Hk as Hk. by rewrite <- (byte_of_val b), Hk.
Qed.

(** What a sweep from [s], with this report, has done when it ends. *)
Record swept (base : Z) (items : list (option (Z * decoded))) (s s' : space)
    (report report' : TcbPatchReport) : Prop := {
  sw_wf : space_wf s';
  sw_agrees : host_agrees s';
  sw_cells x : cell_at s' x = cell_at s x;
  sw_infos : same_infos s s';
  sw_decoded : decoded_instructions report' = decoded_instructions report + zlen (instructions items);
  sw_failures : decode_failures report' = decode_failures report + (zlen items - zlen (instructions items));
  sw_accesses : rewritten report' + unsupported report' =
    rewritten report + unsupported report + zlen (accesses items);
  sw_grows : rewritten report <= rewritten report' /\ unsupported report <= unsupported report';
  sw_trampolines : trampoline_bytes report' = trampoline_bytes report;
  sw_byte x : byte_at s' x = byte_at s x \/
    byte_at s' x = Some (hex 0x65) /\ byte_at s x = Some (hex 0x64) /\ is_site base items x;
  sw_done : unsupported report' = unsupported report ->
    forall o d, (o, d) ∈ accesses items ->
      exists p, fs_prefix_offset d.1 = Some p /\ byte_at s' (base + o + p) = Some (hex 0x65);
}.

Lemma accesses_cons item items :
  accesses (item :: items) =
    match item with
    | Some od => if is_tcb_access od.2 then od :: accesses items else accesses items
    | None => accesses items
    end.
Proof.
  unfold accesses, instructions. destruct item as [od|]; [|done]. cbn [omap list_omap id].
  rewrite filter_cons. by destruct (is_tcb_access od.2).
Qed.

Lemma instructions_cons item items :
  zlen (instructions (item :: items)) = zlen (instructions items) + Z.b2z (isSome item).
Proof. unfold instructions. destruct item; cbn [omap list_omap id length isSome Z.b2z]; lia. Qed.

Lemma is_site_cons base item items x : is_site base items x -> is_site base (item :: items) x.
Proof.
  intros (o & d & p & Ho & ?). exists o, d, p. split; [|done]. rewrite accesses_cons.
  destruct item as [od|]; [|done]. destruct (is_tcb_access od.2); [by right|done].
Qed.

(** A turn that changes no byte. *)
Lemma swept_skip base item items s s' report1 report report' :
  swept base items s s' report1 report' ->
  match item with
  | None => decoded_instructions report1 = decoded_instructions report /\
            decode_failures report1 = decode_failures report + 1
  | Some od => decoded_instructions report1 = decoded_instructions report + 1 /\
               decode_failures report1 = decode_failures report /\ is_tcb_access od.2 = false
  end ->
  rewritten report1 = rewritten report -> unsupported report1 = unsupported report ->
  trampoline_bytes report1 = trampoline_bytes report ->
  swept base (item :: items) s s' report report'.
Proof.
  intros [] Hitem Hr Hu Ht.
  assert (accesses (item :: items) = accesses items) as Hacc.
  { rewrite accesses_cons. destruct item as [od|]; [|done]. by destruct Hitem as (_ & _ & ->). }
  split; try done; rewrite ?Hacc; try congruence; try lia.
  - rewrite instructions_cons. destruct item; cbn [isSome Z.b2z]; lia.
  - rewrite instructions_cons. destruct item; cbn [length isSome Z.b2z]; lia.
  - intros x. destruct (sw_byte0 x) as [?|(? & ? & ?)]; [by left|]. right. split_and!; try done.
    by apply is_site_cons.
  - intros He o d Ho. by apply sw_done0; [congruence|].
Qed.

(** A turn that rewrites an access, or fails to. *)
Lemma swept_access base items o d (s s1 s' : space) ok b report report' :
  is_tcb_access d = true ->
  (forall p, fs_prefix_offset d.1 = Some p ->
     patched_byte s s1 (base + o + p) (hex 0x65) ok /\ byte_at s (base + o + p) = Some (hex 0x64)) ->
  (fs_prefix_offset d.1 = None -> s1 = s /\ ok = false) ->
  b = (if ok : bool then 1 else 0) ->
  swept base items s1 s'
    (mkPatchReport (decoded_instructions report + 1) (decode_failures report) (rewritten report + b)
       (unsupported report + 1 - b) (trampoline_bytes report)) report' ->
  swept base (Some (o, d) :: items) s s' report report'.
Proof.
  intros Ha Hp Hn -> [W A C I Hd Hf Hacc Hg Ht Hb Hdone]. cbn [decoded_instructions decode_failures rewritten
    unsupported trampoline_bytes] in *.
  assert (accesses (Some (o, d) :: items) = (o, d) :: accesses items) as Hcons.
  { rewrite accesses_cons. cbn [snd]. by rewrite Ha. }
  assert ((forall x, cell_at s1 x = cell_at s x) /\ same_infos s s1) as [HC HI].
  { destruct (fs_prefix_offset d.1) as [p|]; [by destruct (Hp p eq_refl) as [[] _]|].
    by destruct (Hn eq_refl) as [-> _]. }
  split; try done; rewrite ?instructions_cons, ?Hcons; cbn [length isSome Z.b2z]; try (destruct ok; lia).
  - intros x. by rewrite C.
  - intros k. by rewrite I.
  - intros x. destruct (fs_prefix_offset d.1) as [p|] eqn:Efs.
    + destruct (Hp p eq_refl) as [[_ _ _ _ Hpb _] H64].
      destruct (Hpb x) as [Hx|[Ex Hx]], (Hb x) as [Hx'|(Hx' & Hx0 & Hs)].
      * left. congruence.
      * right. split_and!; [done|congruence|by apply is_site_cons].
      * right. split_and!; [congruence|by rewrite Ex|]. exists o, d, p. rewrite Hcons. split_and!; [left|done|done].
      * rewrite Hx in Hx0. by vm_compute in Hx0.
    + destruct (Hn eq_refl) as [-> _]. destruct (Hb x) as [?|(? & ? & ?)]; [by left|]. right.
      split_and!; [done..|by apply is_site_cons].
  - intros He o' d' [[= -> ->]|Hin]%elem_of_cons.
    + destruct ok; [|lia]. destruct (fs_prefix_offset d.1) as [p|] eqn:Efs; [|by destruct (Hn eq_refl)].
      exists p. split; [done|]. destruct (Hp p eq_refl) as [[_ _ _ _ _ Hpd] _].
      destruct (Hb (base + o + p)) as [->|(-> & _)]; [by apply Hpd|done].
    + apply Hdone; [destruct ok; lia|done].
Qed.

Definition gs_policy : TcbPatchPolicy := mkPolicy fs_to_gs 0.

Lemma patch_loop_swept fuel base size s arena report offset bytes :
  space_wf s -> host_agrees s -> store_ok false s base size -> 0 <= base -> base + size <= u64_max ->
  zlen bytes = size -> 0 <= offset -> size - offset <= Z.of_nat fuel ->
  (forall i, offset <= i < size -> byte_at s (base + i) = zget bytes i) ->
  exists report' s', patch_loop fuel gs_policy base size s arena report offset = Ok (report', s', arena) /\
    swept base (sweep fuel bytes offset) s s' report report'.
Proof.
  intros Hs Hag Hst Hb Hu Hl Ho Hfuel Hbytes.
  revert s report offset Hs Hag Hst Ho Hfuel Hbytes. induction fuel as [|fuel IH];
    intros s report offset Hs Hag Hst Ho Hfuel Hbytes; cbn [patch_loop sweep]; rewrite ?Hl.
  all: destruct (Z.leb_spec size offset) as [Hend|Hlt];
    [exists report, s; split; [done|]; split; try done; cbn; try lia; auto; set_solver|].
  { lia. }
  destruct report as [dec fails rew uns tramp].
  destruct (proj1 (view_spec s base size Hs ltac:(lia)) Hst) as [Hvl Hv].
  assert (zslice (view s base size) offset (size - offset) = zslice bytes offset (size - offset)) as ->.
  { apply zget_ext; [apply Nat2Z.inj; rewrite !zslice_length by lia; lia|].
    intros i. rewrite zslice_length by lia. intros Hi. rewrite !zget_zslice, Hv by lia.
    rewrite <- Hbytes by lia. f_equal. }
  set (rest := zslice bytes offset (size - offset)).
  assert (zlen rest = size - offset) as Hrest by (unfold rest; rewrite zslice_length; lia).
  assert (forall item report1 next, offset < next ->
    match item with
    | None => decoded_instructions report1 = dec /\ decode_failures report1 = fails + 1
    | Some od => decoded_instructions report1 = dec + 1 /\ decode_failures report1 = fails /\
        is_tcb_access od.2 = false
    end -> rewritten report1 = rew -> unsupported report1 = uns -> trampoline_bytes report1 = tramp ->
    exists report' s', patch_loop fuel gs_policy base size s arena report1 next = Ok (report', s', arena) /\
      swept base (item :: sweep fuel bytes next) s s' (mkPatchReport dec fails rew uns tramp) report') as Hskip.
  { intros item report1 next Hn Hitem H1 H2 H3.
    destruct (IH s report1 next) as (report' & s' & Hloop & Hsw); try done; [lia..| |].
    { intros i Hi. apply Hbytes. lia. }
    exists report', s'. split; [done|]. by eapply swept_skip. }
  destruct (zydis_decode rest) as [d|] eqn:Hd; [|apply Hskip; [lia|done..]].
  destruct (Z.eqb_spec (zi_length d.1) 0) as [|Hlen]; [apply Hskip; [lia|done..]|].
  destruct d as [i ops]. destruct (zydis_length _ _ _ Hd) as [Hlen' _]. cbn [fst] in *.
  destruct (is_tcb_access (i, ops)) eqn:Hacc; [|apply Hskip; [lia|done..]].
  cbn [patch_access gs_policy tp_mode]. unfold patch_linux. cbn [fst].
  assert (forall p, fs_prefix_offset i = Some p -> 0 <= p < zi_length i /\
    byte_at s (base + offset + p) = Some (hex 0x64)) as Hsite.
  { intros p Hp. destruct (fs_prefix_site rest (i, ops) p Hd Hp) as [Hpr Hb64]. split; [done|].
    cbn [fst] in Hpr. unfold rest in Hb64. rewrite zget_zslice in Hb64 by lia.
    rewrite <- Hb64, <- Hbytes by lia. f_equal. lia. }
  destruct (fs_prefix_offset i) as [p|] eqn:Hp.
  - destruct (Hsite p eq_refl) as [Hpr Hb64].
    rewrite (wrap64_small (base + offset)), wrap64_small by (unfold in_u64; lia).
    destruct (patch_total s (base + offset + p) [hex 0x65] Hs Hag) as (ok & s1 & Hpatch & _).
    rewrite Hpatch. cbn [mbind result_bind].
    pose proof (patch_byte _ _ _ _ _ Hs Hag Hpatch) as Hpb. pose proof Hpb as [Hw1 Hag1 _ Hi1 Hx1 _].
    edestruct (IH s1) as (report' & s' & Hloop & Hsw); [done|done|by apply (same_infos_store s)| |..|].
    4: { exists report', s'. split; [exact Hloop|].
         apply (swept_access base _ offset (i, ops) s s1 s' ok (if ok then 1 else 0)); cbn [fst]; try done.
         - intros p' Hp'. assert (p' = p) as -> by congruence. done.
         - congruence.
         - cbn [decoded_instructions decode_failures rewritten unsupported trampoline_bytes].
           destruct ok; [replace (uns + 1 - 1) with uns by lia; exact Hsw|].
           replace (rew + 0) with rew by lia. replace (uns + 1 - 0) with (uns + 1) by lia. exact Hsw. }
    + lia.
    + lia.
    + intros k Hk. destruct (Hx1 (base + k)) as [->|[Hne _]]; [apply Hbytes; lia|lia].
  - cbn [mbind result_bind]. edestruct (IH s) as (report' & s' & Hloop & Hsw); [done|done|done| |..|].
    4: { exists report', s'. split; [exact Hloop|].
         apply (swept_access base _ offset (i, ops) s s s' false 0); cbn [fst]; try done; [congruence|].
         cbn [decoded_instructions decode_failures rewritten unsupported trampoline_bytes].
         replace (rew + 0) with rew by lia. replace (uns + 1 - 0) with (uns + 1) by lia. exact Hsw. }
    + lia.
    + lia.
    + intros k Hk. apply Hbytes. lia.
Qed.

Lemma flush_in_region s base size :
  space_wf s -> 0 <= size -> store_ok false s base size -> flush_instruction_cache s base size = true.
Proof.
  intros Hs Hsz (r & Hin & _). unfold flush_instruction_cache. destruct (size =? 0); [done|].
  pose proof Hin as Hf%(in_region_find s); [|done]. rewrite Hf.
  destruct (Z.ltb_spec (ri_size (info r) - (base - ri_base (info r))) size); [destruct Hin; lia|].
  destruct (native_ s) as [arena|] eqn:Hn; [|done].
  destruct (region_arena_offset s arena r base size) as (-> & Hb & Hle); [done..|].
  unfold arena_flush. destruct Hin as [[Hof Hc] He]. unfold covers in Hc.
  pose proof (wf_backed _ _ _ (wf_region _ _ (wf_map _ Hs) _ _ Hof)) as Hbk. rewrite Hn in Hbk.
  destruct Hbk as (_ & ? & ? & _).
  destruct (Z.eqb_spec (arena_base arena) 0); [done|].
  destruct (Z.ltb_spec (arena_size arena) (base - arena_base arena)); [lia|].
  destruct (Z.ltb_spec (arena_size arena - (base - arena_base arena)) size); [lia|done].
Qed.

Lemma store_ok_bounds s base size :
  space_wf s -> store_ok false s base size -> 0 <= base /\ base + size <= u64_max.
Proof.
  intros Hs (r & [[Hf Hc] He] & _). destruct (wf_region _ _ (wf_map _ Hs) _ _ Hf). unfold covers in Hc. lia.
Qed.

Lemma patch_loop_report s base size arena :
  space_wf s -> host_agrees s -> 0 < size -> store_ok false s base size -> zydis_init = true ->
  exists report s', patch_tcb_accesses s base size gs_policy arena = Ok (Some report, s', arena) /\
    swept base (disassemble (view s base size)) s s' (mkPatchReport 0 0 0 0 0) report.
Proof.
  intros Hs Hag Hsz Hst Hinit. destruct (store_ok_bounds s base size Hs Hst) as [Hb Hu].
  destruct (proj1 (view_spec s base size Hs ltac:(lia)) Hst) as [Hvl Hv].
  unfold patch_tcb_accesses. destruct (Z.eqb_spec size 0); [lia|]. rewrite Hvl, Z.eqb_refl, Hinit. cbn [negb].
  destruct (patch_loop_swept (Z.to_nat size) base size s arena (mkPatchReport 0 0 0 0 0) 0 (view s base size))
    as (report & s' & -> & Hsw); try done; [lia..| |].
  { intros i Hi. by rewrite Hv by lia. }
  cbn [mbind result_bind]. rewrite flush_in_region, andb_false_r; [|apply Hsw|lia|
    by apply (same_infos_store s); [|apply Hsw..|]].
  exists report, s'. split; [done|]. unfold disassemble. by replace (length (view s base size)) with (Z.to_nat size) by lia.
Qed.

(** C36: On a Linux host, [patch_tcb_accesses] of a range that lies in one region
    always ends with a report, and does what a sweep of the original bytes
    says: it counts the instructions and the bytes it skips, and counts every
    access to the thread control block as rewritten or unsupported.  It changes
    no attribute of the memory and no byte but [fs] prefixes of such accesses,
    which become [gs]; when nothing was unsupported, all of them have. *)
Theorem patch_tcb_accesses_rewrites_the_accesses s base size arena :
  space_wf s -> host_agrees s -> 0 < size -> store_ok false s base size -> zydis_init = true ->
  exists report s',
    patch_tcb_accesses s base size gs_policy arena = Ok (Some report, s', arena) /\
    let items := disassemble (view s base size) in
    decoded_instructions report = zlen (instructions items) /\
    decode_failures report = zlen items - zlen (instructions items) /\
    rewritten report + unsupported report = zlen (accesses items) /\
    (forall x, cell_at s' x = cell_at s x) /\ same_infos s s' /\
    (forall x, byte_at s' x = byte_at s x \/
       byte_at s x = Some (hex 0x64) /\ byte_at s' x = Some (hex 0x65) /\ is_site base items x) /\
    (unsupported report = 0 -> forall o d, (o, d) ∈ accesses items ->
       exists p, fs_prefix_offset d.1 = Some p /\ byte_at s' (base + o + p) = Some (hex 0x65)).
Proof.
  intros Hs Hag Hsz Hst Hinit.
  destruct (patch_loop_report s base size arena Hs Hag Hsz Hst Hinit) as (report & s' & Hp & [_ _ C I Hd Hf Hacc _ _ Hby Hdone]).
  cbn [decoded_instructions decode_failures rewritten unsupported] in *.
  exists report, s'. split; [done|]. cbv zeta. split_and!; try done; try lia.
  intros x. destruct (Hby x) as [?|(? & ? & ?)]; [by left|by right].
Qed.

(** ** Displacements *)

(** [relative_displacement] answers the distance from the end of an
    instruction to its target exactly when a signed 32-bit displacement can
    hold it, the two extremes included; the near jump [append_near_jump]
    emits is the opcode and that displacement, which leads from the end of the
    jump to the target. *)
Theorem near_jumps_reach_their_targets code address target :
  in_u64 address -> in_u64 target -> address + kNearJumpSize <= u64_max ->
  (forall d, relative_displacement (address + kNearJumpSize) target = Some d <->
     - 2 ^ 31 <= d < 2 ^ 31 /\ target = address + kNearJumpSize + d) /\
  (append_near_jump code address target = None <->
     ~ (- 2 ^ 31 <= target - (address + kNearJumpSize) < 2 ^ 31)) /\
  (forall jump, append_near_jump code address target = Some jump ->
     exists displacement, jump = code ++ hex 0xe9 :: displacement /\ length displacement = 4%nat /\
       address + kNearJumpSize + to_i32 (le_decode displacement) = target).
Proof.
  intros Ha Ht Hle. assert (forall d, relative_displacement (address + kNearJumpSize) target = Some d <->
     - 2 ^ 31 <= d < 2 ^ 31 /\ target = address + kNearJumpSize + d) as Hrel.
  { intros d. unfold relative_displacement, int32_max, kNearJumpSize in *. change (2 ^ 31) with 2147483648.
    repeat case_match; bools; (split; [intros [= <-]|intros [? ?]; f_equal]); try done; try lia.
    all: exfalso; lia. }
  split; [exact Hrel|]. unfold append_near_jump.
  rewrite wrap64_small by (unfold in_u64, kNearJumpSize in *; lia).
  destruct (relative_displacement _ target) as [d|].
  - destruct (proj1 (Hrel d) eq_refl) as [Hr He]. split; [split; [done|intros Hn; exfalso; apply Hn; rewrite He; lia]|].
    intros jump [= <-]. exists (le_encode 4 (wrap32 d)). unfold append_u32. rewrite <- app_assoc.
    split_and!; [done|done|]. change (wrap32 d) with (d mod 256 ^ Z.of_nat 4). rewrite le_encode_mod.
    rewrite to_i32_le_encode; [lia|]. change (2 ^ 31) with 2147483648 in Hr. lia.
  - split; [|done]. split; [|done]. intros _ Hr.
    assert (target = address + kNearJumpSize + (target - (address + kNearJumpSize))) as He by ring.
    discriminate (proj2 (Hrel _) (conj Hr He)).
Qed.

End Sweep.

(** ** Witnesses

    A decoder that knows one access, [64 xx], and one-byte instructions. *)

Definition tiny_operands (access : bool) : DecodedOperand * DecodedOperand :=
  (mkOperand (if access then operand_register else operand_other) 64 RAX reg_none reg_none reg_none false 0,
   mkOperand operand_memory 64 reg_none reg_fs reg_none reg_none true 0).

Definition tiny_decode (bs : list byte) : option decoded :=
  match bs with
  | [] => None
  | b :: _ =>
      if (byte_val b =? 0x64) && (2 <=? zlen bs)
      then Some (mkInstruction 2 mnemonic_mov 2 [0x64] 0 0, tiny_operands true)
      else Some (mkInstruction 1 mnemonic_other 0 [] 0 0, tiny_operands false)
  end.

Definition tiny_decoder : Decoder := {| zydis_init := true; zydis_decode := tiny_decode |}.

Lemma tiny_decoder_laws : DecoderLaws tiny_decoder.
Proof.
  assert (forall bs i ops, tiny_decode bs = Some (i, ops) ->
    exists b bs', bs = b :: bs' /\
      (byte_val b = 0x64 /\ 2 <= zlen bs /\ zi_length i = 2 /\ zi_prefixes i = [0x64] \/
       zi_length i = 1 /\ zi_prefixes i = [])) as Hinv.
  { intros [|b bs] i ops; [done|]. cbn [tiny_decode].
    destruct (Z.eqb_spec (byte_val b) 0x64), (Z.leb_spec 2 (zlen (b :: bs))); intros [= <- <-];
      exists b, bs; (split; [done|]); auto. }
  split; intros bs i ops (b & bs' & -> & [(Hb & Hl & Hi & Hp)|[Hi Hp]])%Hinv; rewrite Hi, ?Hp; unfold kMaxInstructionLength; cbn [length];
    (split; [cbn [length] in *; lia|]); try lia; intros [|p] v Hv; cbn in Hv; simplify_eq.
  cbn. by rewrite Hb.
Qed.

(** The region of [tiny_native] with an access at its fifth byte. *)
Definition tiny_code : space :=
  match write tiny_native 84 [Byte.x64; Byte.x00] with Ok (_, s) => s | Throw _ => tiny_native end.

Lemma tiny_code_ok : @space_wf tiny_host tiny_code /\ host_agrees tiny_code /\ store_ok false tiny_code 80 8.
Proof.
  assert (@reachable tiny_host tiny_code) as Hr.
  { eapply (@reach_op tiny_host _ (OpWrite 84 [Byte.x64; Byte.x00]) true); [apply tiny_native_reachable|done|].
    by vm_compute. }
  split; [by apply (@reachable_wf tiny_host tiny_host_laws)|].
  split; [apply (@reachable_agrees tiny_host tiny_host_laws); [done|exact Hr]|].
  exists (mkRegion (tiny_info 80 48 3 kind_direct) []). split; [|done].
  split; [split; [by vm_compute|by vm_compute]|by vm_compute].
Qed.

Lemma patch_tcb_accesses_rewrites_the_accesses_witness :
  exists report s',
    @patch_tcb_accesses tiny_host tiny_decoder tiny_code 80 8 gs_policy None = Ok (Some report, s', None) /\
    rewritten report + unsupported report = 1.
Proof.
  destruct tiny_code_ok as (Hw & Hag & Hst).
  destruct (@patch_tcb_accesses_rewrites_the_accesses tiny_host tiny_host_laws tiny_decoder tiny_decoder_laws
    tiny_code 80 8 None Hw Hag ltac:(lia) Hst eq_refl) as (report & s' & Hp & _ & _ & Ha & _).
  exists report, s'. split; [exact Hp|]. rewrite Ha. vm_compute. reflexivity.
Defined.

Lemma near_jumps_reach_their_targets_witness :
  append_near_jump [] 4096 4096 = Some (map hex [0xe9; 0xfb; 0xff; 0xff; 0xff]) /\
  relative_displacement (4096 + kNearJumpSize) 4096 = Some (-5).
Proof.
  destruct (near_jumps_reach_their_targets [] 4096 4096) as [H _]; [done..|].
  split; [reflexivity|]. apply H. split; [split; [discriminate|reflexivity]|reflexivity].
Defined.
