(* ===== verification/TcbThunks.v ===== *)
(** * The thunks of thread-control-block accesses, run

    The machine code that [build_windows_tcb_thunk] of
    [src/src/runtime/cpu_patches.cpp] writes, on the processor of X86.v: a
    thunk does what the access it replaces does with the guest's [fs] at the
    thread control block whose address the host keeps in its TEB. *)

From S2P Require Import Prelude OrdMap NativeArena GuestMemory GuestMemoryProps PatchMemory CpuPatches X86.

Local Open Scope Z_scope.

(** ** The emitted instructions *)

Definition is_gpr (r : Z) : Prop := 0 <= r < 16.

Lemma gpr_cases (P : Z -> Prop) :
  P 0 -> P 1 -> P 2 -> P 3 -> P 4 -> P 5 -> P 6 -> P 7 -> P 8 -> P 9 -> P 10 -> P 11 -> P 12 -> P 13 ->
  P 14 -> P 15 -> forall r, is_gpr r -> P r.
Proof.
  unfold is_gpr. intros. 
  assert (r = 0 \/ r = 1 \/ r = 2 \/ r = 3 \/ r = 4 \/ r = 5 \/ r = 6 \/ r = 7 \/ r = 8 \/ r = 9 \/
          r = 10 \/ r = 11 \/ r = 12 \/ r = 13 \/ r = 14 \/ r = 15) as Hr by lia.
  by repeat (destruct Hr as [->|Hr]; [done|]); subst r.
Qed.

Lemma gpr_index_range reg r : gpr_index reg = Some r -> is_gpr r.
Proof. by destruct reg; intros [= <-]. Qed.

Lemma le_encode_4_bytes v : exists b0 b1 b2 b3, le_encode 4 v = [b0; b1; b2; b3].
Proof. cbn [le_encode]. by do 4 eexists. Qed.

Lemma emit_mov_gs_app code dst v :
  emit_mov_gs_absolute code dst v = code ++ emit_mov_gs_absolute [] dst v.
Proof. unfold emit_mov_gs_absolute, emit_rex, append_u32. cbn [app]. by rewrite <- !app_assoc. Qed.

Lemma emit_mov_from_base_app code dst base v :
  emit_mov_from_base code dst base v = code ++ emit_mov_from_base [] dst base v.
Proof.
  unfold emit_mov_from_base, emit_rex, append_u32. cbn [app].
  case_match; by rewrite <- !app_assoc.
Qed.

Lemma emit_register_op_app code op dst src :
  emit_register_op code op dst src = code ++ emit_register_op [] op dst src.
Proof. unfold emit_register_op, emit_rex. cbn [app]. by rewrite <- !app_assoc. Qed.

Lemma emit_push_app code r : emit_push code r = code ++ emit_push [] r.
Proof. unfold emit_push. case_match; cbn [app]; by rewrite <- ?app_assoc. Qed.

Lemma emit_pop_app code r : emit_pop code r = code ++ emit_pop [] r.
Proof. unfold emit_pop. case_match; cbn [app]; by rewrite <- ?app_assoc. Qed.

Ltac encode_one :=
  split; [vm_compute; split; [reflexivity|discriminate]|intros rest; reflexivity].

(** A 32-bit displacement, in four unknown bytes. *)
Ltac displacement_bytes v Hd :=
  let H := fresh in let E := fresh in
  pose proof (to_i32_le_encode v Hd) as H;
  destruct (le_encode_4_bytes v) as (? & ? & ? & ? & E);
  rewrite E in H |- *; rewrite <- H; clear H E.

Lemma mov_gs_encodes dst v :
  is_gpr dst -> -2147483648 <= v < 2147483648 ->
  encodes (MOV (op_reg dst) (op_mem (mkMem seg_gs base_none v))) (emit_mov_gs_absolute [] dst v).
Proof.
  intros Hr Hv. unfold emit_mov_gs_absolute, append_u32. displacement_bytes v Hv.
  revert dst Hr. apply gpr_cases; encode_one.
Qed.

Lemma mov_from_base_encodes dst base v :
  is_gpr dst -> is_gpr base -> -2147483648 <= v < 2147483648 ->
  encodes (MOV (op_reg dst) (op_mem (mkMem seg_none (base_reg base) v))) (emit_mov_from_base [] dst base v).
Proof.
  intros Hr Hb Hv. unfold emit_mov_from_base, append_u32. displacement_bytes v Hv.
  revert dst Hr. apply gpr_cases; revert base Hb;
    apply gpr_cases; encode_one.
Qed.

Lemma register_op_encodes op dst src :
  is_gpr dst -> is_gpr src -> op = alu_cmp \/ op = alu_xor ->
  encodes (ALU op (op_reg dst) (op_reg src))
    (emit_register_op [] (match op with alu_cmp => 0x3b | _ => 0x33 end) dst src).
Proof.
  intros Hr Hb Hop. unfold emit_register_op.
  revert dst Hr. apply gpr_cases; revert src Hb;
    apply gpr_cases; destruct Hop as [-> | ->];
    encode_one.
Qed.

Lemma push_encodes r : is_gpr r -> encodes (PUSH r) (emit_push [] r).
Proof. revert r. apply gpr_cases; encode_one. Qed.
Lemma pop_encodes r : is_gpr r -> encodes (POP r) (emit_pop [] r).
Proof. revert r. apply gpr_cases; encode_one. Qed.

Definition lower_bytes : list byte := map hex [0x48; 0x8d; 0x64; 0x24; 0x80].
Definition raise_bytes : list byte := map hex [0x48; 0x8d; 0xa4; 0x24; 0x80; 0x00; 0x00; 0x00].

Lemma lower_encodes : encodes (LEA rsp (mkMem seg_none (base_reg rsp) (-128))) lower_bytes.
Proof. encode_one. Qed.
Lemma raise_encodes : encodes (LEA rsp (mkMem seg_none (base_reg rsp) 128)) raise_bytes.
Proof. encode_one. Qed.

(** The jump at the end of a thunk. *)
Lemma near_jump_encodes code address target bytes :
  in_u64 target -> 0 <= address -> address + 5 <= u64_max ->
  append_near_jump code address target = Some bytes ->
  exists d jump, bytes = code ++ jump /\ encodes (JMP d) jump /\ length jump = 5%nat /\
    address + 5 + d = target.
Proof.
  unfold append_near_jump, kNearJumpSize. intros Ht Ha Hle.
  rewrite wrap64_small by (unfold in_u64; lia).
  destruct (relative_displacement (address + 5) target) as [d|] eqn:Hd; [|done]. intros [= <-].
  assert (-2147483648 <= d < 2147483648 /\ address + 5 + d = target) as [Hrange Hsum].
  { unfold relative_displacement, int32_max in Hd. repeat case_match; bools; try done; simplify_eq; lia. }
  exists d, (hex 0xe9 :: le_encode 4 d).
  unfold append_u32. change (wrap32 d) with (d mod 256 ^ Z.of_nat 4). rewrite le_encode_mod, <- app_assoc.
  split_and!; [done| |done|done]. displacement_bytes d Hrange. encode_one.
Qed.

(** ** The thunks as listings *)

(** Reading the word at [tcb] of the control block into a register. *)
Definition tcb_listing (r teb tcb : Z) : listing :=
  (MOV (op_reg r) (op_mem (mkMem seg_gs base_none teb)), emit_mov_gs_absolute [] r teb) ::
  if tcb =? 0 then []
  else [(MOV (op_reg r) (op_mem (mkMem seg_none (base_reg r) tcb)), emit_mov_from_base [] r r tcb)].

Definition op_byte (op : alu_op) : Z := match op with alu_cmp => 0x3b | _ => 0x33 end.

(** Comparing or combining through a scratch register, below the red zone. *)
Definition scratch_listing (op : alu_op) (dst scratch teb tcb : Z) : listing :=
  [ (LEA rsp (mkMem seg_none (base_reg rsp) (-128)), lower_bytes);
    (PUSH scratch, emit_push [] scratch) ] ++
  tcb_listing scratch teb tcb ++
  [ (ALU op (op_reg dst) (op_reg scratch), emit_register_op [] (op_byte op) dst scratch);
    (POP scratch, emit_pop [] scratch);
    (LEA rsp (mkMem seg_none (base_reg rsp) 128), raise_bytes) ].

Definition scratch_of (dst : Z) : Z := if dst =? 0 then 3 else 0.

Definition access_op (m : ZydisMnemonic) : alu_op :=
  match m with mnemonic_cmp => alu_cmp | _ => alu_xor end.

(** The instruction that a thunk replaces. *)
Definition access_instr (m : ZydisMnemonic) (dst disp : Z) : instr :=
  let o := op_mem (mkMem seg_fs base_none disp) in
  match m with mnemonic_mov => MOV (op_reg dst) o | _ => ALU (access_op m) (op_reg dst) o end.

Definition access_listing (m : ZydisMnemonic) (dst teb tcb : Z) : listing :=
  match m with
  | mnemonic_mov => tcb_listing dst teb tcb
  | _ => scratch_listing (access_op m) dst (scratch_of dst) teb tcb
  end.

Lemma tcb_listing_bytes r teb tcb code :
  code ++ listing_bytes (tcb_listing r teb tcb) =
  (if negb (tcb =? 0) then emit_mov_from_base (emit_mov_gs_absolute code r teb) r r tcb
   else emit_mov_gs_absolute code r teb).
Proof.
  unfold tcb_listing. destruct (tcb =? 0); cbn [negb listing_bytes map snd concat]; rewrite app_nil_r.
  - by rewrite <- emit_mov_gs_app.
  - by rewrite app_assoc, <- emit_mov_gs_app, <- emit_mov_from_base_app.
Qed.

Lemma tcb_listing_ok r teb tcb :
  is_gpr r -> 0 <= teb < 2147483648 -> 0 <= tcb < 2147483648 -> listing_ok (tcb_listing r teb tcb).
Proof.
  intros Hr Ht Hc. unfold tcb_listing. apply listing_ok_cons; [apply mov_gs_encodes; [done|lia]|].
  case_match; [apply listing_ok_nil|]. apply listing_ok_cons; [|apply listing_ok_nil].
  apply mov_from_base_encodes; [done|done|lia].
Qed.

(** What [build_windows_tcb_thunk] emits. *)
Lemma build_thunk_listing d teb address return_address bytes dst tcb m :
  build_windows_tcb_thunk d teb address return_address = Some bytes ->
  gpr_index (zo_register (fst (snd d))) = Some dst -> tcb = wrap32 (zo_displacement (snd (snd d))) ->
  m = zi_mnemonic (fst d) -> 0 <= teb < 2147483648 -> tcb < 2147483648 ->
  m <> mnemonic_other /\ (m <> mnemonic_mov -> dst <> rsp) /\
  listing_ok (access_listing m dst teb tcb) /\
  forallb (fun e => straight (fst e)) (access_listing m dst teb tcb) = true /\
  append_near_jump (listing_bytes (access_listing m dst teb tcb))
    (wrap64 (address + zlen (listing_bytes (access_listing m dst teb tcb)))) return_address = Some bytes.
Proof.
  destruct d as [ins [o0 o1]]. unfold build_windows_tcb_thunk. cbn [fst snd].
  intros Hb Hdst -> -> Hteb Htcb. rewrite Hdst in Hb. cbn [mbind option_bind] in Hb.
  pose proof (gpr_index_range _ _ Hdst) as Hg. pose proof (wrap32_range (zo_displacement o1)) as Hw.
  set (tcb := wrap32 (zo_displacement o1)) in *. unfold in_u32 in Hw.
  assert (is_gpr (scratch_of dst)) as Hsg by (unfold scratch_of, is_gpr; destruct (dst =? 0); lia).
  assert (forall op, op = alu_cmp \/ op = alu_xor ->
    listing_ok (scratch_listing op dst (scratch_of dst) teb tcb) /\
    forallb (fun e => straight (fst e)) (scratch_listing op dst (scratch_of dst) teb tcb) = true /\
    emit_leave_scratch (emit_register_op (if negb (tcb =? 0)
        then emit_mov_from_base (emit_mov_gs_absolute (emit_enter_scratch [] (scratch_of dst)) (scratch_of dst) teb)
               (scratch_of dst) (scratch_of dst) tcb
        else emit_mov_gs_absolute (emit_enter_scratch [] (scratch_of dst)) (scratch_of dst) teb)
        (op_byte op) dst (scratch_of dst)) (scratch_of dst) =
    listing_bytes (scratch_listing op dst (scratch_of dst) teb tcb)) as Hscr.
  { intros op Hop. split_and!.
    - pose proof (tcb_listing_ok (scratch_of dst) teb tcb Hsg Hteb ltac:(lia)).
      pose proof (register_op_encodes op dst (scratch_of dst) Hg Hsg Hop). unfold scratch_listing.
      auto 10 using lower_encodes, push_encodes, pop_encodes, raise_encodes with listings.
    - unfold scratch_listing, tcb_listing. by destruct (tcb =? 0).
    - rewrite <- tcb_listing_bytes. unfold emit_leave_scratch. rewrite emit_pop_app, emit_register_op_app.
      unfold scratch_listing. rewrite !listing_bytes_app.
      change (emit_enter_scratch [] (scratch_of dst)) with (emit_push lower_bytes (scratch_of dst)).
      rewrite emit_push_app.
      cbn [listing_bytes map snd concat]. rewrite !app_nil_r, <- !app_assoc. done. }
  destruct (zi_mnemonic ins) eqn:Hm; [| | |done].
  - rewrite <- (tcb_listing_bytes dst teb tcb []) in Hb. cbn [app mbind option_bind] in Hb.
    split_and!; [done|done|apply tcb_listing_ok; [done|done|lia]| |exact Hb].
    cbn [access_listing]. unfold tcb_listing. by destruct (tcb =? 0).
  - destruct (Z.eqb_spec dst 4); [done|]. change (if dst =? 0 then 3 else 0) with (scratch_of dst) in Hb.
    rewrite bool_decide_eq_true_2 in Hb by done. cbn [mbind option_bind] in Hb.
    destruct (Hscr alu_cmp (or_introl eq_refl)) as (H1 & H2 & H3). cbn [op_byte] in H3. rewrite H3 in Hb.
    by split_and!.
  - destruct (Z.eqb_spec dst 4); [done|]. change (if dst =? 0 then 3 else 0) with (scratch_of dst) in Hb.
    rewrite bool_decide_eq_false_2 in Hb by done. cbn [mbind option_bind] in Hb.
    destruct (Hscr alu_xor (or_intror eq_refl)) as (H1 & H2 & H3). cbn [op_byte] in H3. rewrite H3 in Hb.
    by split_and!.
Qed.

(** ** Running a thunk *)

(** Where the host keeps the control block: its address in the TEB slot, a
    pointer to itself in its first word, and FS on it. *)
Record tcb_at (teb disp : Z) (c : Cpu) : Prop := {
  ta_slot_range : 0 <= cpu_gs c /\ cpu_gs c + teb + 8 <= u64_max;
  ta_slot : host_word (cpu_mem c) (cpu_gs c + teb) = cpu_fs c;
  ta_slot_read : host_allows PROT_READ (cpu_mem c) (cpu_gs c + teb) 8 = true;
  ta_block_range : 0 <= cpu_fs c /\ cpu_fs c + disp + 8 <= u64_max;
  ta_self : host_word (cpu_mem c) (cpu_fs c) = cpu_fs c;
  ta_read : host_allows PROT_READ (cpu_mem c) (cpu_fs c + disp) 8 = true;
}.

(** The word that the access reads. *)
Definition tcb_word (disp : Z) (c : Cpu) : Z := host_word (cpu_mem c) (cpu_fs c + disp).

(** [c'] is [c] with another value in one register. *)
Record one_reg (r v : Z) (c c' : Cpu) : Prop := {
  or_reg : cpu_reg c' r = v;
  or_regs x : x <> r -> cpu_reg c' x = cpu_reg c x;
  or_context : same_context c c';
  or_mem : cpu_mem c' = cpu_mem c;
}.

Lemma exec_tcb_listing r teb disp c :
  tcb_at teb disp c -> 0 <= teb -> 0 <= disp ->
  exists c', exec_listing (tcb_listing r teb disp) c = Some c' /\ one_reg r (tcb_word disp c) c c'.
Proof.
  intros [[Hg1 Hg2] Hslot Hsr [Hf1 Hf2] Hself Hr] Hteb Hdisp. destruct c as [f x fl fs gs ip h].
  unfold tcb_word. cbn [cpu_gs cpu_fs cpu_mem] in *. unfold tcb_listing.
  destruct (Z.eqb_spec disp 0) as [->|Hne]; eexists; (split; [exec_one|]).
  - rewrite Z.add_0_r, wrap64_small by (unfold in_u64; lia). rewrite load64_ok by done. reflexivity.
  - rewrite Hslot, Z.add_0_r, Hself. split; cbn [cpu_reg cpu_mem set_rip].
    + apply upd_eq.
    + intros y Hy. by apply upd_ne.
    + done.
    + done.
  - rewrite Z.add_0_r, wrap64_small by (unfold in_u64; lia). rewrite load64_ok by done.
    exec_one. rewrite Hslot, Z.add_0_l, wrap64_small by (unfold in_u64; lia).
    rewrite load64_ok by done. reflexivity.
  - split; cbn [cpu_reg cpu_mem set_rip].
    + apply upd_eq.
    + intros y Hy. by rewrite !upd_ne.
    + done.
    + done.
Qed.

(** Room for the scratch register below the red zone, away from the slot and
    from the words of the control block that are read. *)
Record scratch_room (teb disp : Z) (c : Cpu) : Prop := {
  sr_range : 136 <= cpu_reg c rsp <= u64_max;
  sr_read : host_allows PROT_READ (cpu_mem c) (cpu_reg c rsp - 136) 8 = true;
  sr_write : host_allows PROT_WRITE (cpu_mem c) (cpu_reg c rsp - 136) 8 = true;
  sr_apart a : cpu_reg c rsp - 136 <= a < cpu_reg c rsp - 128 ->
    ~ cpu_gs c + teb <= a < cpu_gs c + teb + 8 /\ ~ cpu_fs c <= a < cpu_fs c + 8 /\
    ~ cpu_fs c + disp <= a < cpu_fs c + disp + 8;
}.

(** The state after the scratch register has been pushed. *)
Lemma scratch_room_push teb disp c v h' :
  tcb_at teb disp c -> scratch_room teb disp c ->
  h' = host_put (cpu_mem c) (cpu_reg c rsp - 136) (le_encode 8 v) ->
  host_word h' (cpu_gs c + teb) = cpu_fs c /\ host_word h' (cpu_fs c) = cpu_fs c /\
  host_word h' (cpu_fs c + disp) = host_word (cpu_mem c) (cpu_fs c + disp) /\
  host_word h' (cpu_reg c rsp - 136) = wrap64 v.
Proof.
  intros Ht Hs ->. pose proof (sr_apart _ _ _ Hs) as Hap.
  assert (forall a, (forall x, cpu_reg c rsp - 136 <= x < cpu_reg c rsp - 128 -> ~ a <= x < a + 8) ->
    host_word (host_put (cpu_mem c) (cpu_reg c rsp - 136) (le_encode 8 v)) a = host_word (cpu_mem c) a) as Hw.
  { intros a Ha. apply host_word_ext. intros x Hx.
    destruct (host_put_word_byte (cpu_mem c) (cpu_reg c rsp - 136) v x) as [Hb|Hb]; [exact Hb|].
    destruct (Ha x); [lia|done]. }
  split_and!; [rewrite Hw; [apply Ht|]|rewrite Hw; [apply Ht|]|rewrite Hw; [done|]|apply host_word_put_wrap];
    intros x Hx; by apply Hap.
Qed.

(** The state that [op] on a register and a word leaves, but for [rip] and
    the memory. *)
Record op_done (op : alu_op) (dst v : Z) (c c' : Cpu) : Prop := {
  od_flags : cpu_flags c' = snd (alu op (cpu_reg c dst) v);
  od_dst : op <> alu_cmp -> cpu_reg c' dst = fst (alu op (cpu_reg c dst) v);
  od_regs x : x <> dst \/ op = alu_cmp -> cpu_reg c' x = cpu_reg c x;
  od_xmm : cpu_xmm c' = cpu_xmm c;
  od_segments : cpu_fs c' = cpu_fs c /\ cpu_gs c' = cpu_gs c;
}.

Lemma exec_alu_done c op dst v c0 :
  exec_alu c op (op_reg dst) (cpu_reg c dst) v = Some c0 ->
  op_done op dst v c c0 /\ cpu_mem c0 = cpu_mem c /\ cpu_rip c0 = cpu_rip c.
Proof.
  unfold exec_alu. destruct (alu op (cpu_reg c dst) v) as [r f] eqn:E. intros H.
  apply bind_Some in H as (c1 & H1 & [= <-]).
  assert ((op = alu_cmp /\ c1 = c) \/ (op <> alu_cmp /\ c1 = set_reg c dst r)) as Hc.
  { destruct op; cbn in H1; simplify_eq; naive_solver. }
  destruct Hc as [[-> ->]|[Hop ->]]; (split; [|done]); split; try done.
  - by rewrite E.
  - by rewrite E.
  - intros _. cbn. rewrite upd_eq, E. done.
  - intros x [Hx|Hx]; [|done]. cbn. by rewrite upd_ne.
Qed.

(** The first two instructions: below the red zone, the scratch register
    saved. *)
Lemma exec_enter teb disp scratch c :
  scratch_room teb disp c -> scratch <> rsp ->
  exists c2, exec_listing [ (LEA rsp (mkMem seg_none (base_reg rsp) (-128)), lower_bytes);
                            (PUSH scratch, emit_push [] scratch) ] c = Some c2 /\
    cpu_reg c2 rsp = cpu_reg c rsp - 136 /\ (forall x, x <> rsp -> cpu_reg c2 x = cpu_reg c x) /\
    same_context c c2 /\
    cpu_mem c2 = host_put (cpu_mem c) (cpu_reg c rsp - 136) (le_encode 8 (cpu_reg c scratch)).
Proof.
  intros [Hr _ Hw _] Hsc. destruct c as [f x fl fs gs ip h]. cbn [cpu_reg cpu_mem] in *.
  eexists. split; [|split_and!].
  - exec_one. rewrite Z.add_0_l, wrap64_small by (unfold in_u64; lia).
    exec_one. rewrite (upd_ne f rsp _ scratch Hsc), wrap64_small by (unfold in_u64; lia).
    replace (f rsp + -128 - 8) with (f rsp - 136) by ring. rewrite store64_ok by done. reflexivity.
  - cbn [cpu_reg set_mem]. by rewrite upd_eq.
  - intros y Hy. cbn [cpu_reg set_mem]. by rewrite !upd_ne.
  - done.
  - done.
Qed.

(** The last three: the operation, and everything put back. *)
Lemma exec_leave op dst scratch v c :
  (op = alu_cmp \/ op = alu_xor) -> dst <> rsp -> scratch <> rsp -> dst <> scratch ->
  cpu_reg c scratch = v -> 0 <= cpu_reg c rsp -> cpu_reg c rsp + 136 <= u64_max ->
  host_allows PROT_READ (cpu_mem c) (cpu_reg c rsp) 8 = true ->
  exists c', exec_listing
      [ (ALU op (op_reg dst) (op_reg scratch), emit_register_op [] (op_byte op) dst scratch);
        (POP scratch, emit_pop [] scratch);
        (LEA rsp (mkMem seg_none (base_reg rsp) 128), raise_bytes) ] c = Some c' /\
    cpu_flags c' = snd (alu op (cpu_reg c dst) v) /\
    (op <> alu_cmp -> cpu_reg c' dst = fst (alu op (cpu_reg c dst) v)) /\
    (op = alu_cmp -> cpu_reg c' dst = cpu_reg c dst) /\
    cpu_reg c' scratch = host_word (cpu_mem c) (cpu_reg c rsp) /\
    cpu_reg c' rsp = cpu_reg c rsp + 136 /\
    (forall x, x <> dst -> x <> scratch -> x <> rsp -> cpu_reg c' x = cpu_reg c x) /\
    cpu_xmm c' = cpu_xmm c /\ cpu_fs c' = cpu_fs c /\ cpu_gs c' = cpu_gs c /\ cpu_mem c' = cpu_mem c.
Proof.
  intros Hop Hd Hs Hds Hv H0 Hle Hr. rewrite exec_listing_cons. cbn [exec read_operand mbind option_bind].
  set (c0 := set_rip c _). change (cpu_reg c0) with (cpu_reg c). rewrite Hv.
  assert (exists c1, exec_alu c0 op (op_reg dst) (cpu_reg c dst) v = Some c1) as [c1 H1].
  { unfold exec_alu. destruct (alu op _ v). destruct Hop as [-> | ->]; by eexists. }
  rewrite H1. cbn [mbind option_bind]. apply (exec_alu_done c0) in H1 as ([Hfl Hdst Hregs Hx [Hfs Hgs]] & Hm & _).
  change (cpu_reg c0) with (cpu_reg c) in *. change (cpu_mem c0) with (cpu_mem c) in *.
  change (cpu_xmm c0) with (cpu_xmm c) in *. change (cpu_fs c0) with (cpu_fs c) in *.
  change (cpu_gs c0) with (cpu_gs c) in *.
  assert (cpu_reg c1 rsp = cpu_reg c rsp) as Hsp by (apply Hregs; by left).
  destruct c1 as [f x fl fs gs ip h]. cbn [cpu_reg cpu_mem cpu_xmm cpu_fs cpu_gs cpu_flags] in *. subst h.
  set (sp := cpu_reg c rsp) in *. set (m := cpu_mem c) in *.
  eexists. split; [|split_and!].
  - exec_one. rewrite Hsp, load64_ok by done. cbn [mbind option_bind].
    rewrite wrap64_small by (unfold in_u64; lia).
    exec_one. rewrite (upd_ne _ scratch _ rsp (not_eq_sym Hs)), upd_eq, Z.add_0_l, wrap64_small by (unfold in_u64; lia).
    reflexivity.
  - done.
  - intros Hn. cbn. rewrite !upd_ne by done. by apply Hdst.
  - intros He. cbn. rewrite !upd_ne by done. apply Hregs. by right.
  - cbn. by rewrite upd_ne, upd_eq.
  - cbn [cpu_reg set_rip]. rewrite upd_eq. ring.
  - intros y H1 H2 H3. cbn. rewrite !upd_ne by done. apply Hregs. by left.
  - done.
  - done.
  - done.
  - done.
Qed.

(** Two states agree but for the bytes of memory in [P]. *)
Record agree_but (P : Z -> Prop) (c c' : Cpu) : Prop := {
  ab_rip : cpu_rip c' = cpu_rip c;
  ab_regs r : cpu_reg c' r = cpu_reg c r;
  ab_context : same_context c c';
  ab_prot : hm_prot (cpu_mem c') = hm_prot (cpu_mem c);
  ab_mem a : ~ P a -> hm_byte (cpu_mem c') a = hm_byte (cpu_mem c) a;
}.

(** The bytes a thunk may change: those of the scratch register's slot, below
    the red zone. *)
Definition scratch_slot (m : ZydisMnemonic) (c : Cpu) (a : Z) : Prop :=
  m <> mnemonic_mov /\ cpu_reg c rsp - 136 <= a < cpu_reg c rsp - 128.

Lemma tcb_at_mem teb disp c c' :
  tcb_at teb disp c -> same_context c c' -> hm_prot (cpu_mem c') = hm_prot (cpu_mem c) ->
  host_word (cpu_mem c') (cpu_gs c + teb) = cpu_fs c ->
  host_word (cpu_mem c') (cpu_fs c) = cpu_fs c -> tcb_at teb disp c'.
Proof.
  intros [H1 H2 H3 H4 H5 H6] [_ _ Hf Hg] Hp Hs Hb.
  split; rewrite ?Hf, ?Hg; try done; unfold host_allows; by rewrite Hp.
Qed.

#[export] Instance alu_op_eq_dec : EqDecision alu_op.
Proof. solve_decision. Defined.

(** The access through the scratch register does what the operation on memory
    does. *)
Lemma exec_scratch_listing op dst teb disp c :
  (op = alu_cmp \/ op = alu_xor) -> dst <> rsp -> 0 <= teb -> 0 <= disp ->
  (forall r, in_u64 (cpu_reg c r)) -> tcb_at teb disp c -> scratch_room teb disp c ->
  exists c1, exec_listing (scratch_listing op dst (scratch_of dst) teb disp) c = Some c1 /\
    op_done op dst (tcb_word disp c) c c1 /\
    cpu_mem c1 = host_put (cpu_mem c) (cpu_reg c rsp - 136) (le_encode 8 (cpu_reg c (scratch_of dst))).
Proof.
  intros Hop Hdst Hteb Hdisp Hu Ht Hsr.
  assert (scratch_of dst <> rsp /\ dst <> scratch_of dst) as [Hsc Hds]
    by (unfold scratch_of; destruct (Z.eqb_spec dst 0); lia).
  destruct (exec_enter teb disp (scratch_of dst) c Hsr Hsc) as (c2 & He & Hsp2 & Hr2 & Hc2 & Hm2).
  destruct (scratch_room_push teb disp c (cpu_reg c (scratch_of dst)) _ Ht Hsr Hm2) as (Hw1 & Hw2 & Hw3 & Hw4).
  pose proof (sc_fs _ _ Hc2) as Hfs2. pose proof (sc_gs _ _ Hc2) as Hgs2.
  assert (hm_prot (cpu_mem c2) = hm_prot (cpu_mem c)) as Hp2 by (by rewrite Hm2).
  destruct (exec_tcb_listing (scratch_of dst) teb disp c2) as (c3 & Hx3 & [Hr3 Hrs3 Hc3 Hm3]);
    [by apply (tcb_at_mem teb disp c)|done|done|].
  unfold tcb_word in Hr3. rewrite Hfs2, Hw3 in Hr3. pose proof (sr_range _ _ _ Hsr) as Hrange.
  assert (cpu_reg c3 rsp = cpu_reg c rsp - 136) as Hsp3 by (by rewrite Hrs3).
  destruct (exec_leave op dst (scratch_of dst) (tcb_word disp c) c3)
    as (c1 & Hx1 & Hfl & Hd1 & Hd2 & Hscr & Hsp & Hoth & Hxmm & Hfs & Hgs & Hmem); [done..|lia|lia| |].
  { rewrite Hsp3, Hm3. unfold host_allows. rewrite Hp2. apply Hsr. }
  assert (cpu_reg c3 dst = cpu_reg c dst) as Hd3 by (rewrite Hrs3, Hr2; done).
  exists c1. split_and!; [|split|by rewrite Hmem, Hm3].
  - unfold scratch_listing. rewrite exec_listing_app, He. cbn [mbind option_bind].
    rewrite exec_listing_app, Hx3. exact Hx1.
  - by rewrite Hfl, Hd3.
  - intros Hn. by rewrite Hd1, Hd3.
  - intros x Hx. destruct (decide (x = dst)) as [->|Hxd].
    { destruct Hx as [Hx|Hx]; [done|]. by rewrite Hd2, Hd3. }
    destruct (decide (x = scratch_of dst)) as [->|Hxs].
    { rewrite Hscr, Hsp3, Hm3, Hw4. by apply wrap64_small. }
    destruct (decide (x = rsp)) as [->|Hxp]; [rewrite Hsp, Hsp3; ring|].
    rewrite Hoth, Hrs3, Hr2 by done. done.
  - rewrite Hxmm. etransitivity; [apply Hc3|apply Hc2].
  - split; [rewrite Hfs|rewrite Hgs]; (etransitivity; [apply Hc3|apply Hc2]).
Qed.

(** The access itself and the stretch of the thunk before its jump. *)
Lemma exec_access_listing m dst teb disp next c :
  m <> mnemonic_other -> (m <> mnemonic_mov -> dst <> rsp) -> is_gpr dst ->
  0 <= teb -> 0 <= disp -> (forall r, in_u64 (cpu_reg c r)) -> tcb_at teb disp c ->
  (m <> mnemonic_mov -> scratch_room teb disp c) ->
  exists c0 c1, exec (access_instr m dst disp) (set_rip c next) = Some c0 /\
    exec_listing (access_listing m dst teb disp) c = Some c1 /\ cpu_rip c0 = next /\
    agree_but (scratch_slot m c) c0 (set_rip c1 next).
Proof.
  intros Hm Hdst Hg Hteb Hdisp Hu Ht Hsr. pose proof (ta_block_range _ _ _ Ht) as [Hf1 Hf2].
  assert (read_operand (set_rip c next) (op_mem (mkMem seg_fs base_none disp)) = Some (tcb_word disp c)) as Hread.
  { cbn [read_operand]. unfold effective. cbn [mo_segment mo_base mo_disp cpu_fs cpu_mem set_rip].
    rewrite Z.add_0_r, wrap64_small by (unfold in_u64; lia). apply load64_ok, Ht. }
  destruct (decide (m = mnemonic_mov)) as [->|Hmov].
  - destruct (exec_tcb_listing dst teb disp c Ht Hteb Hdisp) as (c1 & Hx & [Hr Hrs Hc Hmem]).
    exists (set_reg (set_rip c next) dst (tcb_word disp c)), c1. split_and!; [|exact Hx|done|].
    + cbn [access_instr exec]. by rewrite Hread.
    + split; cbn [cpu_rip cpu_reg cpu_mem set_rip set_reg]; [done| | |by rewrite Hmem|by rewrite Hmem].
      * intros r. destruct (decide (r = dst)) as [->|Hn]; [by rewrite Hr, upd_eq|].
        by rewrite Hrs, upd_ne.
      * destruct Hc. by split.
  - set (op := access_op m). specialize (Hdst Hmov). specialize (Hsr Hmov).
    assert (op = alu_cmp \/ op = alu_xor) as Hop by (unfold op; destruct m; cbn; naive_solver).
    assert (exists c0, exec_alu (set_rip c next) op (op_reg dst) (cpu_reg c dst) (tcb_word disp c) = Some c0)
      as [c0 H0] by (unfold exec_alu; destruct (alu op _ _); destruct Hop as [-> | ->]; by eexists).
    assert (exec (access_instr m dst disp) (set_rip c next) = Some c0) as Hacc.
    { transitivity (exec (ALU op (op_reg dst) (op_mem (mkMem seg_fs base_none disp))) (set_rip c next)).
      - unfold op. by destruct m.
      - cbn [exec]. rewrite Hread. exact H0. }
    apply (exec_alu_done (set_rip c next)) in H0 as ([Hfl0 Hdst0 Hregs0 Hx0 [Hfs0 Hgs0]] & Hm0 & Hip0).
    change (cpu_reg (set_rip c next)) with (cpu_reg c) in *.
    change (cpu_mem (set_rip c next)) with (cpu_mem c) in *.
    change (cpu_xmm (set_rip c next)) with (cpu_xmm c) in *.
    change (cpu_fs (set_rip c next)) with (cpu_fs c) in *.
    change (cpu_gs (set_rip c next)) with (cpu_gs c) in *.
    destruct (exec_scratch_listing op dst teb disp c) as (c1 & Hx & [Hfl Hd Hregs Hxmm [Hfs Hgs]] & Hmem);
      [done..|].
    exists c0, c1. split_and!; [exact Hacc| |exact Hip0|].
    + transitivity (exec_listing (scratch_listing op dst (scratch_of dst) teb disp) c);
        [unfold op; by destruct m|exact Hx].
    + split; cbn [cpu_rip cpu_reg cpu_mem set_rip].
      * by rewrite Hip0.
      * intros r. destruct (decide (r <> dst \/ op = alu_cmp)) as [Hr|Hr].
        { by rewrite (Hregs0 r Hr), (Hregs r Hr). }
        assert (r = dst /\ op <> alu_cmp) as [-> Hn]
          by (split; [destruct (decide (r = dst)); [done|destruct Hr; by left]|intros E; destruct Hr; by right]).
        by rewrite Hdst0, Hd.
      * split; cbn [cpu_xmm cpu_flags cpu_fs cpu_gs set_rip]; congruence.
      * by rewrite Hmem, Hm0.
      * intros a Ha. rewrite Hmem, Hm0. cbn [cpu_mem set_rip].
        destruct (host_put_word_byte (cpu_mem c) (cpu_reg c rsp - 136) (cpu_reg c (scratch_of dst)) a)
          as [Hb|Hb]; [exact Hb|]. destruct Ha. split; [done|]. lia.
Qed.

(** C14: A thunk of the Windows build does what the access it replaces does.
    Take an access [mov], [cmp] or [xor] of a 64-bit register with the word at
    [fs:disp], the thunk that [build_windows_tcb_thunk] emits for it, and a
    processor about to run the thunk, with FS on the guest's control block and
    the block's address in the TEB slot.  Executing the access itself (with the
    next instruction at [return_address]) succeeds, and the thunk runs to the
    same state: the same [rip], the same general registers (the scratch
    register and the stack pointer included), the same flags, XMM registers,
    segments and protections, and the same memory but for the eight bytes
    between 136 and 128 below the stack pointer, under the red zone. *)
Theorem tcb_thunks_emulate_the_access d teb address return_address bytes dst c :
  is_tcb_access d = true ->
  build_windows_tcb_thunk d teb address return_address = Some bytes ->
  gpr_index (zo_register (fst (snd d))) = Some dst ->
  let m := zi_mnemonic (fst d) in
  let disp := zo_displacement (snd (snd d)) in
  in_u64 return_address -> 0 <= teb < 2 ^ 31 ->
  code_at (cpu_mem c) address bytes -> cpu_rip c = address ->
  (forall r, in_u64 (cpu_reg c r)) -> tcb_at teb disp c ->
  (m <> mnemonic_mov -> scratch_room teb disp c) ->
  exists c0 c1, exec (access_instr m dst disp) (set_rip c return_address) = Some c0 /\
    steps c c1 /\ agree_but (scratch_slot m c) c0 c1.
Proof.
  intros Hacc Hb Hdst m disp Hret Hteb Hc Hip Hu Ht Hsr. change (2 ^ 31) with 2147483648 in Hteb.
  assert (0 <= disp < kGuestTcbSize) as Hdisp.
  { unfold disp. destruct d as [ins [o0 o1]]. unfold is_tcb_access in Hacc. cbn [fst snd].
    destruct (_ || _); [done|]. bools. lia. }
  unfold kGuestTcbSize in Hdisp.
  destruct (build_thunk_listing d teb address return_address bytes dst disp m Hb Hdst)
    as (Hm & Hdm & Hok & Hst & Hjump); [|done|done|lia|].
  { unfold disp. symmetry. apply wrap32_small. unfold in_u32. lia. }
  set (p := access_listing m dst teb disp) in *.
  pose proof (ca_range _ _ _ Hc) as Hrange.
  assert (zlen (listing_bytes p) + 5 <= zlen bytes /\ in_u64 (address + zlen (listing_bytes p))) as [Hlen Hin].
  { unfold append_near_jump in Hjump. destruct (relative_displacement _ _); [|done]. injection Hjump as <-.
    unfold append_u32 in *. rewrite !length_app, le_encode_length in *. cbn [length] in *. unfold in_u64. lia. }
  rewrite (wrap64_small _ Hin) in Hjump. unfold in_u64 in Hin.
  destruct (near_jump_encodes (listing_bytes p) (address + zlen (listing_bytes p)) return_address bytes Hret
              ltac:(lia) ltac:(lia) Hjump) as (rel & jump & -> & Henc & Hjl & Hsum).
  destruct (exec_access_listing m dst teb disp return_address c Hm Hdm (gpr_index_range _ _ Hdst)
              ltac:(lia) ltac:(lia) Hu Ht Hsr) as (c0 & c1 & H0 & Hx & Hip0 & Hagree).
  exists c0, (set_rip c1 return_address). split_and!; [exact H0| |exact Hagree].
  eapply (steps_listing address [] p jump); [exact Hc|exact Hok|exact Hst|cbn; lia|exact Hx|].
  intros Hc1 Hip1. cbn [app length] in *. eapply (steps_code address (listing_bytes p) (JMP rel) jump []);
    [by rewrite app_nil_r|exact Henc|rewrite Hip1; lia| |intros _; apply rtc_refl].
  cbn [exec]. unfold set_rip. cbn [cpu_rip cpu_reg cpu_xmm cpu_flags cpu_fs cpu_gs cpu_mem].
  rewrite Hjl, wrap64_small; [do 2 f_equal; lia|]. unfold in_u64 in *. lia.
Qed.

(** ** Witnesses

    [xor rbx, fs:[8]] with the control block at 24576, its address in the TEB
    slot at 28672 + 16, the thunk at 4096 and the next instruction at 8192. *)

Definition xor_access : decoded :=
  (mkInstruction 9 mnemonic_xor 2 [0x64] 32 5,
   (mkOperand operand_register 64 RBX reg_none reg_none reg_none false 0,
    mkOperand operand_memory 64 reg_none reg_fs reg_none reg_none true 8)).

Definition xor_thunk : list byte := default [] (build_windows_tcb_thunk xor_access 16 4096 8192).

Definition tcb_memory : HostMem :=
  host_put (host_put (host_put (host_put (mkHostMem (fun _ => zero_byte)
    (fun a => if in_range 4096 4096 a then Z.lor PROT_READ PROT_EXEC else Z.lor PROT_READ PROT_WRITE) 0)
    4096 xor_thunk) 24576 (le_encode 8 24576)) 24584 (le_encode 8 77)) 28688 (le_encode 8 24576).

Definition tcb_cpu : Cpu :=
  mkCpu (upd (fun _ => 5) rsp 32768) (fun _ => 0) (mkFlags true false true false false) 24576 28672 4096
    tcb_memory.

(** The eight instructions of the thunk, the jump included. *)
Example the_xor_thunk_runs :
  (fun c => (cpu_rip c, cpu_reg c rbx, cpu_reg c rax, cpu_reg c rsp, fl_carry (cpu_flags c))) <$> run 8 tcb_cpu =
  Some (8192, Z.lxor 5 77, 5, 32768, false).
Proof. vm_compute. reflexivity. Qed.

Lemma xor_thunk_at : code_at tcb_memory 4096 xor_thunk.
Proof.
  assert (zlen xor_thunk = 39) as Hl by (vm_compute; reflexivity). split; rewrite ?Hl.
  - lia.
  - vm_compute. reflexivity.
  - intros a Ha. cbn. by rewrite (proj2 (in_range_true _ _ _)) by lia.
  - intros a Ha. cbn. by rewrite (proj2 (in_range_true _ _ _)) by lia.
Qed.

Lemma tcb_thunks_emulate_the_access_witness :
  exists c0 c1, exec (access_instr mnemonic_xor rbx 8) (set_rip tcb_cpu 8192) = Some c0 /\
    steps tcb_cpu c1 /\ cpu_rip c1 = cpu_rip c0 /\ cpu_reg c1 rbx = cpu_reg c0 rbx.
Proof.
  destruct (tcb_thunks_emulate_the_access xor_access 16 4096 8192 xor_thunk rbx tcb_cpu)
    as (c0 & c1 & H0 & Hs & Ha).
  - reflexivity.
  - vm_compute. reflexivity.
  - reflexivity.
  - split; [discriminate|reflexivity].
  - split; [discriminate|reflexivity].
  - exact xor_thunk_at.
  - reflexivity.
  - intros r. change (cpu_reg tcb_cpu r) with (upd (fun _ => 5) rsp 32768 r). unfold upd.
    destruct (r =? rsp); split; try discriminate; reflexivity.
  - split; try (vm_compute; reflexivity); vm_compute; split; discriminate.
  - intros _. split; try (vm_compute; reflexivity); [vm_compute; split; discriminate|].
    intros a Ha. cbn in *. lia.
  - exists c0, c1. split; [exact H0|]. split; [exact Hs|]. split; [apply Ha|apply Ha].
Defined.

(** ** The rewritten prefix of the Linux build *)

Definition mem_to_gs (m : mem_operand) : mem_operand :=
  mkMem (match mo_segment m with seg_fs => seg_gs | s => s end) (mo_base m) (mo_disp m).
Definition operand_to_gs (o : operand) : operand :=
  match o with op_mem m => op_mem (mem_to_gs m) | op_reg r => op_reg r end.
Definition instr_to_gs (i : instr) : instr :=
  match i with
  | MOV d s => MOV (operand_to_gs d) (operand_to_gs s)
  | MOVI d v => MOVI (operand_to_gs d) v
  | LEA r m => LEA r (mem_to_gs m)
  | ALU op d s => ALU op (operand_to_gs d) (operand_to_gs s)
  | ALUI op d v => ALUI op (operand_to_gs d) v
  | TEST d s => TEST (operand_to_gs d) (operand_to_gs s)
  | INC d => INC (operand_to_gs d)
  | JMPR o => JMPR (operand_to_gs o)
  | CALLR o => CALLR (operand_to_gs o)
  | i => i
  end.

Lemma modrm_to_gs xr xb bs :
  decode_modrm seg_gs xr xb bs =
  (fun '(r, o, n) => (r, operand_to_gs o, n)) <$> decode_modrm seg_fs xr xb bs.
Proof.
  unfold decode_modrm. destruct (byte_at bs 0) as [b|]; [|done]. cbn [mbind option_bind fmap option_fmap option_map].
  destruct (b / 64 =? 3); [done|].
  match goal with |- (?x ≫= _) = _ => destruct x as [[base n]|] end; [|done].
  cbn [mbind option_bind]. destruct (b / 64 =? 1); [by destruct (imm8 _)|].
  destruct (_ || _); [by destruct (imm32 _)|done].
Qed.

Lemma opcode_to_gs w xr xb bs :
  decode_opcode seg_gs w xr xb bs =
  (fun '(i, n) => (instr_to_gs i, n)) <$> decode_opcode seg_fs w xr xb bs.
Proof.
  unfold decode_opcode. destruct (byte_at bs 0) as [op|]; [|done]. cbn [mbind option_bind].
  do 3 (case_match; [done|]). case_match; [by destruct (imm8 _)|]. case_match; [by destruct (imm8 _)|].
  case_match; [by destruct (imm32 _)|]. rewrite !modrm_to_gs. case_match.
  { destruct (byte_at bs 1); [|done]. cbn [mbind option_bind].
    destruct (decode_modrm _ _ _ _) as [[[r [o|m]] n]|]; [|done..]. cbn. by case_match. }
  destruct (decode_modrm _ _ _ _) as [[[r o] n]|]; [|done]. cbn [mbind option_bind fmap option_fmap option_map].
  destruct (_ && w); [by destruct (alu_group r); [cbn; destruct (imm8 _)|]|].
  destruct (_ && w); [by destruct (alu_group r); [cbn; destruct (imm32 _)|]|].
  destruct (_ && w && _); [by destruct (imm32 _)|].
  assert (rm_instr op w r (operand_to_gs o) = instr_to_gs <$> rm_instr op w r o) as ->;
    [|by destruct (rm_instr op w r o)].
  unfold rm_instr, ff_group. destruct o; cbn [operand_to_gs]; by repeat case_match.
Qed.

(** Rewriting the [fs] prefix of an instruction to [gs] changes nothing when
    both segments have the same base, as [patch_linux] relies on. *)
Theorem gs_prefix_keeps_the_access rest i n c :
  decode (byte_of_Z 0x64 :: rest) = Some (i, n) -> cpu_gs c = cpu_fs c ->
  exists i', decode (byte_of_Z 0x65 :: rest) = Some (i', n) /\ exec i' c = exec i c.
Proof.
  intros Hd Hgs. exists (instr_to_gs i). split.
  - change (decode (byte_of_Z 0x65 :: rest)) with ('(i, n) ← decode_rex seg_gs rest; Some (i, S n)).
    change (decode (byte_of_Z 0x64 :: rest)) with ('(i, n) ← decode_rex seg_fs rest; Some (i, S n)) in Hd.
    assert (decode_rex seg_gs rest = (fun '(i, n) => (instr_to_gs i, n)) <$> decode_rex seg_fs rest) as ->.
    { unfold decode_rex. destruct (byte_at rest 0); [|done]. cbn [mbind option_bind].
      case_match; rewrite opcode_to_gs; [|done]. by destruct (decode_opcode seg_fs _ _ _ _) as [[]|]. }
    destruct (decode_rex seg_fs rest) as [[j k]|]; [|done]. cbn in *. by simplify_eq.
  - assert (forall m, effective c (mem_to_gs m) = effective c m) as He.
    { intros [[] b d]; unfold effective; cbn [mem_to_gs mo_segment mo_base mo_disp]; by rewrite ?Hgs. }
    assert (forall o, read_operand c (operand_to_gs o) = read_operand c o) as Hr
      by (intros [r|m]; cbn [operand_to_gs read_operand]; rewrite ?He; done).
    assert (forall o v, write_operand c (operand_to_gs o) v = write_operand c o v) as Hw
      by (intros [r|m] v; cbn [operand_to_gs write_operand]; rewrite ?He; done).
    destruct i; cbn [instr_to_gs exec]; unfold exec_alu; rewrite ?Hr; try done.
    + destruct (read_operand c src); cbn; [apply Hw|done].
    + destruct (read_operand c dst); cbn; [|done]. destruct (read_operand c src); cbn; [|done].
      destruct (alu op _ _). destruct op; by rewrite ?Hw.
    + destruct (read_operand c dst); cbn; [|done]. destruct (alu op _ _). destruct op; by rewrite ?Hw.
    + destruct (read_operand c dst); cbn; [|done]. by rewrite Hw.
Qed.
