(* ===== verification/Tls.v ===== *)
(** * Thread-local storage

    [src/include/nyxora/runtime/tls.hpp] and [src/src/runtime/tls.cpp]: the
    registry of thread-local images and the per-thread blocks, with the dynamic
    thread vector a guest reads them through.

    The addresses of the buffers are those the C++ allocator chooses: the
    typeclass [Allocator] answers an address for a size, given the live
    allocations [heap], or refuses ([std::bad_alloc]), and [AllocatorLaws]
    states that a fresh allocation is disjoint from the live ones.  A [GuestThreadContext] records the address of every
    buffer together with its bytes. *)

From S2P Require Import Prelude.

Local Open Scope Z_scope.

(** ** The allocator *)

Abbreviation heap := (list (Z * Z)).

Class Allocator : Type := alloc : heap -> Z -> option Z.

(** [operator new]. *)
Definition allocate `{Allocator} (h : heap) (n : Z) : result Z :=
  match alloc h n with Some a => Ok a | None => Throw (runtime_error "std::bad_alloc") end.

(** Two address ranges without a common address. *)
Definition apart (r1 r2 : Z * Z) : Prop := r1.1 + r1.2 <= r2.1 \/ r2.1 + r2.2 <= r1.1.

Class AllocatorLaws `{Allocator} : Prop := {
  alloc_range h n a : 0 <= n -> alloc h n = Some a -> 0 < a /\ a + n <= u64_max;
  alloc_fresh h n a r : 0 <= n -> alloc h n = Some a -> r ∈ h -> apart (a, n) r;
}.

(** ** Data *)

Record GuestTcb : Type := mkGuestTcb { tcb_self : Z; tcb_dtv : Z; tcb_canary : Z }.

Record TlsModuleImage : Type := mkTlsModuleImage {
  tm_module_id : Z;
  tm_alignment : Z;
  tm_memory_size : Z;
  tm_initial_image : list byte;
}.

Record TlsRegistry : Type := mkTlsRegistry {
  modules_ : list TlsModuleImage;
  max_module_id_ : Z;
  generation_ : Z;
}.

Definition TlsRegistry_init : TlsRegistry := mkTlsRegistry [] 0 0.

(** A block, with the address of its buffer. *)
Record Block : Type := mkBlock {
  b_module_id : Z;
  b_memory_size : Z;
  b_aligned_offset : Z;
  b_data : Z;
  b_storage : list byte;
}.

(** [dtv_data] is [dtv_.data()]; an entry is the 8-byte union, a counter or a
    pointer. *)
Record GuestThreadContext : Type := mkGuestThreadContext {
  blocks_ : list Block;
  dtv_ : list Z;
  dtv_data : Z;
  tcb_ : GuestTcb;
}.

Definition GuestThreadContext_init : GuestThreadContext :=
  mkGuestThreadContext [] [] 0 (mkGuestTcb 0 0 0).

(** ** The registry *)

Definition valid_alignment (alignment : Z) : bool :=
  negb (alignment =? 0) && (Z.land alignment (wrap64 (alignment - 1)) =? 0).

Definition aligned_offset (base alignment : Z) : option Z :=
  if u64_max - (alignment - 1) <? base then None
  else
    let aligned := Z.land (wrap64 (base + alignment - 1)) (wrap64 (Z.lnot (alignment - 1))) in
    Some (wrap64 (aligned - base)).

Definition tls_find (registry : TlsRegistry) (module_id : Z) : option TlsModuleImage :=
  snd <$> list_find (fun m => tm_module_id m = module_id) (modules_ registry).

Definition register_module (registry : TlsRegistry) (module_id alignment memory_size : Z)
    (initial_image : list byte) : bool * TlsRegistry :=
  if (module_id =? 0) || (memory_size =? 0) || (memory_size <? zlen initial_image)
  then (false, registry)
  else
    let alignment := if alignment =? 0 then 1 else alignment in
    if negb (valid_alignment alignment)
       || match tls_find registry module_id with Some _ => true | None => false end
    then (false, registry)
    else
      (true,
       mkTlsRegistry
         (modules_ registry ++ [mkTlsModuleImage module_id alignment memory_size initial_image])
         (Z.max (max_module_id_ registry) module_id) (wrap64 (generation_ registry + 1))).

(** ** The blocks of a thread *)

Definition find_block (context : GuestThreadContext) (module_id : Z) : option Block :=
  snd <$> list_find (fun b => b_module_id b = module_id) (blocks_ context).

(** [GuestThreadContext::tls_address]; [0] is the null pointer. *)
Definition tls_address (context : GuestThreadContext) (module_id offset : Z) : Z :=
  match find_block context module_id with
  | None => 0
  | Some block =>
      if b_memory_size block <=? offset then 0
      else b_data block + b_aligned_offset block + offset
  end.

Section Context.
Context `{Allocator}.

Definition add_module (h : heap) (context : GuestThreadContext) (module : TlsModuleImage)
  : result (bool * GuestThreadContext * heap) :=
  if u64_max - (tm_alignment module - 1) <? tm_memory_size module then Ok (false, context, h)
  else
    let size := tm_memory_size module + tm_alignment module - 1 in
    data ← allocate h size;
    let storage := replicate (Z.to_nat size) zero_byte in
    match aligned_offset data (tm_alignment module) with
    | None => Ok (false, context, h)
    | Some offset =>
        if (size <? offset) || (size - offset <? tm_memory_size module) then Ok (false, context, h)
        else
          let storage :=
            match tm_initial_image module with
            | [] => storage
            | image => zsplice storage offset image
            end in
          let block := mkBlock (tm_module_id module) (tm_memory_size module) offset data storage in
          Ok (true,
            mkGuestThreadContext (blocks_ context ++ [block]) (dtv_ context) (dtv_data context)
              (tcb_ context),
            (data, size) :: h)
    end.

(** [rebind_tcb]: [self] is the address of the context's control block. *)
Definition rebind_tcb (self : Z) (context : GuestThreadContext) : GuestThreadContext :=
  mkGuestThreadContext (blocks_ context) (dtv_ context) (dtv_data context)
    (mkGuestTcb self
       (match dtv_ context with [] => 0 | _ => dtv_data context end)
       (Z.lxor 0x9e3779b97f4a7c15 self)).

(** The move constructor: the new context, with its control block at [self],
    and what is left of the other, whose buffers are gone. *)
Definition move_context (self : Z) (other : GuestThreadContext)
  : GuestThreadContext * GuestThreadContext :=
  (rebind_tcb self
     (mkGuestThreadContext (blocks_ other) (dtv_ other) (dtv_data other) (tcb_ other)),
   mkGuestThreadContext [] [] 0 (tcb_ other)).

(** The buffers of a context, which its destructor gives back. *)
Definition buffers (context : GuestThreadContext) : list (Z * Z) :=
  map (fun b => (b_data b, zlen (b_storage b))) (blocks_ context) ++
  match dtv_ context with [] => [] | _ => [(dtv_data context, zlen (dtv_ context) * 8)] end.

Definition free_context (h : heap) (context : GuestThreadContext) : heap :=
  filter (fun r => r ∉ buffers context) h.

(** The move assignment; [same] is [this == &other]. *)
Definition move_assign (self : Z) (same : bool) (h : heap) (context other : GuestThreadContext)
  : GuestThreadContext * GuestThreadContext * heap :=
  if same then (context, other, h) else (move_context self other, free_context h context).

(** One turn of the loop of [rebuild_dtv]. *)
Definition dtv_entry (dtv : list Z) (block : Block) : list Z :=
  if b_module_id block <? zlen dtv - 1
  then <[Z.to_nat (b_module_id block + 1) := b_data block + b_aligned_offset block]> dtv
  else dtv.

Definition rebuild_dtv (self : Z) (h : heap) (context : GuestThreadContext) (registry : TlsRegistry)
  : result (GuestThreadContext * heap) :=
  let size := max_module_id_ registry + 2 in
  let dtv := replicate (Z.to_nat size) 0 in
  let dtv := <[0%nat := generation_ registry]> dtv in
  let dtv := <[1%nat := max_module_id_ registry]> dtv in
  (* [assign] may reuse the old buffer: it is no longer live here. *)
  let h := filter (fun r => r <> (dtv_data context, zlen (dtv_ context) * 8)) h in
  data ← allocate h (size * 8);
  Ok (rebind_tcb self
        (mkGuestThreadContext (blocks_ context) (foldl dtv_entry dtv (blocks_ context)) data
           (tcb_ context)),
      (data, size * 8) :: h).

(** The loop of [synchronize] over the modules. *)
Fixpoint add_modules (h : heap) (context : GuestThreadContext) (modules : list TlsModuleImage)
  : result (bool * GuestThreadContext * heap) :=
  match modules with
  | [] => Ok (true, context, h)
  | module :: modules =>
      match find_block context (tm_module_id module) with
      | Some _ => add_modules h context modules
      | None =>
          '(ok, context, h) ← add_module h context module;
          if negb ok then Ok (false, context, h) else add_modules h context modules
      end
  end.

Definition synchronize (self : Z) (h : heap) (context : GuestThreadContext) (registry : TlsRegistry)
  : result (bool * GuestThreadContext * heap) :=
  '(ok, context, h) ← add_modules h context (modules_ registry);
  if negb ok then Ok (false, context, h)
  else
    '(context, h) ← rebuild_dtv self h context registry;
    Ok (true, context, h).

Definition create (self : Z) (h : heap) (registry : TlsRegistry)
  : result (option (GuestThreadContext * heap)) :=
  '(ok, context, h) ← synchronize self h GuestThreadContext_init registry;
  Ok (if negb ok then None else Some (context, h)).

End Context.

(** ** Alignments *)

(** [a & (a - 1)] is zero exactly on the powers of two. *)
Lemma valid_alignment_pow2 a :
  in_u64 a -> valid_alignment a = true <-> exists k, 0 <= k /\ a = 2 ^ k.
Proof.
  unfold valid_alignment, in_u64. intros Ha. rewrite andb_true_iff, negb_true_iff, Z.eqb_neq, Z.eqb_eq.
  split.
  - intros [Hz Hl]. rewrite wrap64_small in Hl by (unfold in_u64; lia).
    exists (Z.log2 a). split; [apply Z.log2_nonneg|].
    destruct (Z.log2_spec a) as [Hlo Hhi]; [lia|]. set (k := Z.log2 a) in *.
    assert (0 <= k) by apply Z.log2_nonneg. rewrite Z.pow_succ_r in Hhi by done.
    destruct (decide (a = 2 ^ k)) as [|Hne]; [done|]. exfalso.
    assert (Z.testbit (Z.land a (a - 1)) k = true) as Hb; [|by rewrite Hl, Z.bits_0 in Hb].
    rewrite Z.land_spec. assert (Z.log2 (a - 1) = k) as Hk1 by (apply Z.log2_unique; [done|rewrite Z.pow_succ_r by done; lia]).
    assert (0 < 2 ^ k) by (apply Z.pow_pos_nonneg; lia).
    apply andb_true_iff. split; [apply Z.bit_log2; lia|]. rewrite <- Hk1. apply Z.bit_log2. lia.
  - intros (k & Hk & ->). assert (0 < 2 ^ k) by (apply Z.pow_pos_nonneg; lia). split; [lia|].
    rewrite wrap64_small by (unfold in_u64; lia). rewrite Z.sub_1_r, <- Z.ones_equiv, Z.land_ones by done.
    by rewrite Z.mod_same by lia.
Qed.

(** Clearing the low bits of an address. *)
Lemma land_lnot_low x k :
  in_u64 x -> 0 <= k < 64 -> Z.land x (wrap64 (Z.lnot (2 ^ k - 1))) = x - x mod 2 ^ k.
Proof.
  intros Hx Hk. assert (wrap64 (Z.lnot (2 ^ k - 1)) = Z.ldiff (Z.ones 64) (Z.ones k)) as ->.
  { unfold wrap64. change u64_mod with (2 ^ 64). rewrite <- Z.land_ones by lia.
    rewrite Z.sub_1_r, <- Z.ones_equiv, Z.land_comm. by rewrite Z.ldiff_land. }
  rewrite Z.ldiff_land, Z.land_assoc, Z.land_ones, <- Z.ldiff_land by lia.
  rewrite Z.mod_small by exact Hx. rewrite Z.ldiff_ones_r, Z.shiftl_mul_pow2, Z.shiftr_div_pow2 by lia.
  assert (2 ^ k <> 0) by (apply Z.pow_nonzero; lia). pose proof (Z.div_mod x (2 ^ k)). lia.
Qed.

Lemma aligned_offset_spec base a :
  in_u64 a -> valid_alignment a = true -> 0 <= base -> base + (a - 1) <= u64_max ->
  exists o, aligned_offset base a = Some o /\ 0 <= o < a /\ (base + o) mod a = 0.
Proof.
  intros Ha Hv Hb Hle. apply valid_alignment_pow2 in Hv as (k & Hk & ->); [|done].
  assert (k < 64) as Hk64.
  { destruct (Z.lt_ge_cases k 64); [done|]. unfold in_u64 in Ha.
    assert (2 ^ 64 <= 2 ^ k) by (apply Z.pow_le_mono_r; lia). lia. }
  unfold aligned_offset. destruct (Z.ltb_spec (u64_max - (2 ^ k - 1)) base); [lia|].
  rewrite (wrap64_small (base + _ - 1)) by (unfold in_u64; lia).
  rewrite land_lnot_low by (unfold in_u64 in *; lia).
  set (x := base + 2 ^ k - 1). assert (0 < 2 ^ k) by (apply Z.pow_pos_nonneg; lia).
  pose proof (Z.mod_pos_bound x (2 ^ k)). eexists. split; [done|].
  rewrite wrap64_small by (unfold in_u64 in *; lia). split; [lia|].
  replace (base + (x - x mod 2 ^ k - base)) with (x - x mod 2 ^ k) by lia.
  by rewrite Zminus_mod_idemp_r, Z.sub_diag, Z.mod_0_l by lia.
Qed.

(** ** Invariants *)

Record registry_wf (registry : TlsRegistry) : Prop := {
  rw_ids : NoDup (tm_module_id <$> modules_ registry);
  rw_module m : m ∈ modules_ registry ->
    0 < tm_module_id m <= max_module_id_ registry /\
    in_u64 (tm_alignment m) /\ valid_alignment (tm_alignment m) = true /\
    0 < tm_memory_size m < u64_mod /\ zlen (tm_initial_image m) <= tm_memory_size m;
  rw_max : 0 <= max_module_id_ registry < u32_mod;
  rw_generation : generation_ registry = wrap64 (zlen (modules_ registry));
}.

(** The size computation of a block does not overflow. *)
Definition fits (m : TlsModuleImage) : Prop := tm_memory_size m + (tm_alignment m - 1) <= u64_max.

(** A block of a module: its storage holds the aligned area. *)
Record block_for (m : TlsModuleImage) (b : Block) : Prop := {
  bf_id : b_module_id b = tm_module_id m;
  bf_size : b_memory_size b = tm_memory_size m;
  bf_storage : zlen (b_storage b) = tm_memory_size m + tm_alignment m - 1;
  bf_offset : 0 <= b_aligned_offset b < tm_alignment m;
  bf_data : 0 < b_data b;
  bf_end : b_data b + zlen (b_storage b) <= u64_max;
  bf_aligned : (b_data b + b_aligned_offset b) mod tm_alignment m = 0;
}.

Definition storage_range (b : Block) : Z * Z := (b_data b, zlen (b_storage b)).
Definition dtv_range (context : GuestThreadContext) : Z * Z :=
  (dtv_data context, zlen (dtv_ context) * 8).

Record context_wf (registry : TlsRegistry) (h : heap) (context : GuestThreadContext) : Prop := {
  cw_ids : NoDup (b_module_id <$> blocks_ context);
  cw_block b : b ∈ blocks_ context -> exists m, m ∈ modules_ registry /\ block_for m b;
  cw_heap b : b ∈ blocks_ context -> storage_range b ∈ h;
  cw_apart b1 b2 : b1 ∈ blocks_ context -> b2 ∈ blocks_ context ->
    b_module_id b1 <> b_module_id b2 -> apart (storage_range b1) (storage_range b2);
  cw_dtv : dtv_data context = 0 \/
    (dtv_range context ∈ h /\ forall b, b ∈ blocks_ context -> apart (dtv_range context) (storage_range b));
}.

Lemma registry_init_wf : registry_wf TlsRegistry_init.
Proof. split; cbn; [constructor|by intros m ?%elem_of_nil|lia|done]. Qed.

Lemma tls_find_elem registry m :
  registry_wf registry -> m ∈ modules_ registry -> tls_find registry (tm_module_id m) = Some m.
Proof.
  intros Hw Hm. unfold tls_find.
  destruct (list_find_elem_of (fun x => tm_module_id x = tm_module_id m) (modules_ registry) m Hm eq_refl)
    as [[i x] Hx].
  rewrite Hx. cbn. f_equal. apply list_find_Some in Hx as (Hi & He & _).
  apply list_elem_of_lookup_1 in Hm as [j Hj]. assert (i = j) as ->; [|congruence].
  eapply (NoDup_lookup _ i j (tm_module_id m) (rw_ids _ Hw)); rewrite list_lookup_fmap, ?Hi, ?Hj; cbn; congruence.
Qed.

Lemma module_unique registry m m' :
  registry_wf registry -> m ∈ modules_ registry -> m' ∈ modules_ registry ->
  tm_module_id m = tm_module_id m' -> m = m'.
Proof.
  intros Hw Hm Hm' He. apply tls_find_elem in Hm, Hm'; [|done..]. rewrite He in Hm. congruence.
Qed.

Lemma find_block_None context id :
  find_block context id = None <-> id ∉ b_module_id <$> blocks_ context.
Proof.
  unfold find_block. rewrite fmap_None, list_find_None, Forall_forall, list_elem_of_fmap.
  split; [intros Hn (b & -> & Hb); by apply (Hn b)|intros Hn b Hb <-; apply Hn; by exists b].
Qed.

Lemma find_block_elem context b :
  NoDup (b_module_id <$> blocks_ context) -> b ∈ blocks_ context ->
  find_block context (b_module_id b) = Some b.
Proof.
  intros Hn Hb. unfold find_block.
  destruct (list_find_elem_of (fun x => b_module_id x = b_module_id b) (blocks_ context) b Hb eq_refl)
    as [[i x] Hx].
  rewrite Hx. cbn. f_equal. apply list_find_Some in Hx as (Hi & He & _).
  apply list_elem_of_lookup_1 in Hb as [j Hj]. assert (i = j) as ->; [|congruence].
  eapply (NoDup_lookup _ i j (b_module_id b) Hn); rewrite list_lookup_fmap, ?Hi, ?Hj; cbn; congruence.
Qed.

Lemma find_block_Some context id b :
  find_block context id = Some b -> b ∈ blocks_ context /\ b_module_id b = id.
Proof.
  unfold find_block. intros ([i x] & Hf & ->)%fmap_Some. cbn. apply list_find_Some in Hf as (Hi & He & _).
  split; [by eapply list_elem_of_lookup_2|done].
Qed.

Lemma register_module_wf registry id alignment size image ok registry' :
  registry_wf registry -> 0 <= id < u32_mod -> in_u64 alignment -> in_u64 size ->
  register_module registry id alignment size image = (ok, registry') ->
  registry_wf registry' /\ modules_ registry `prefix_of` modules_ registry'.
Proof.
  intros Hw Hid Ha Hs. unfold register_module.
  destruct (_ || _) eqn:E1; [by intros [= <- <-]|]. bools.
  set (a := if alignment =? 0 then 1 else alignment).
  assert (in_u64 a) as Ha' by (unfold a, in_u64 in *; case_match; lia).
  destruct (negb (valid_alignment a) || _) eqn:E2; [by intros [= <- <-]|].
  apply orb_false_iff in E2 as [Hv%negb_false_iff Hn]. intros [= <- <-].
  destruct (tls_find registry id) eqn:Hf; [done|]. clear Hn.
  split; [|by eexists]. unfold in_u64 in Hs. split; cbn.
  - rewrite fmap_app. apply NoDup_app. split; [apply Hw|]. split; [|by apply NoDup_singleton].
    intros x Hx Hx'. apply list_elem_of_singleton in Hx'. cbn in Hx'. subst x.
    apply list_elem_of_fmap in Hx as (m & -> & Hm). by rewrite (tls_find_elem _ _ Hw Hm) in Hf.
  - intros m [Hm|Hm%list_elem_of_singleton]%elem_of_app.
    + destruct (rw_module _ Hw m Hm) as (? & ? & ? & ? & ?). split_and!; done || lia.
    + subst m. cbn. split_and!; done || lia.
  - pose proof (rw_max _ Hw). lia.
  - rewrite (rw_generation _ Hw), length_app. cbn.
    change (eq64 (wrap64 (zlen (modules_ registry)) + 1) (Z.of_nat (length (modules_ registry) + 1))).
    rewrite (wrap64_eq64 (zlen (modules_ registry))).
    by replace (Z.of_nat (length (modules_ registry) + 1)) with (zlen (modules_ registry) + 1) by lia.
Qed.

(** ** Adding blocks *)

Section ContextProofs.
Context `{Allocator, !AllocatorLaws}.

(** The aligned area of a fresh block: the image, then zeros. *)
Definition fresh_area (m : TlsModuleImage) (b : Block) : Prop :=
  zslice (b_storage b) (b_aligned_offset b) (tm_memory_size m) =
  tm_initial_image m ++ replicate (Z.to_nat (tm_memory_size m - zlen (tm_initial_image m))) zero_byte.

Lemma fresh_area_spec size o n image :
  0 <= o -> zlen image <= n -> o + n <= size ->
  zslice (zsplice (replicate (Z.to_nat size) zero_byte) o image) o n =
  image ++ replicate (Z.to_nat (n - zlen image)) zero_byte.
Proof.
  intros Ho Hi Hn.
  assert (zlen (replicate (Z.to_nat size) zero_byte) = size) as Hl by (rewrite length_replicate; lia).
  assert (length (zsplice (replicate (Z.to_nat size) zero_byte) o image) = Z.to_nat size) as Hl'
    by (rewrite zsplice_length; lia).
  apply zget_ext.
  - pose proof (zslice_length (zsplice (replicate (Z.to_nat size) zero_byte) o image) o n) as Hz.
    rewrite length_app, length_replicate. lia.
  - intros i Hin. rewrite zslice_length in Hin by lia.
    rewrite zget_zslice, zget_zsplice, zget_app by lia.
    destruct (Z.leb_spec o (o + i)), (Z.ltb_spec (o + i) (o + zlen image)),
      (Z.ltb_spec i (zlen image)); try lia; cbn [andb].
    + f_equal. lia.
    + by rewrite !zget_replicate by lia.
Qed.

Lemma zsplice_nil {A} (l : list A) o : zsplice l o [] = l.
Proof. unfold zsplice. cbn. by rewrite Nat.add_0_r, take_drop. Qed.

Lemma add_module_spec registry h context m ok context' h' :
  registry_wf registry -> m ∈ modules_ registry ->
  add_module h context m = Ok (ok, context', h') ->
  if ok then
    fits m /\ exists b, block_for m b /\ fresh_area m b /\
      context' = mkGuestThreadContext (blocks_ context ++ [b]) (dtv_ context) (dtv_data context)
                   (tcb_ context) /\
      h' = storage_range b :: h /\ alloc h (zlen (b_storage b)) = Some (b_data b)
  else ~ fits m /\ context' = context /\ h' = h.
Proof.
  intros Hw Hm. destruct (rw_module _ Hw m Hm) as (Hid & Ha & Hv & Hs & Hi).
  unfold add_module, fits. destruct (Z.ltb_spec (u64_max - (tm_alignment m - 1)) (tm_memory_size m)).
  { intros [= <- <- <-]. split; [lia|done]. }
  set (size := tm_memory_size m + tm_alignment m - 1).
  assert (0 < tm_alignment m) as Hapos.
  { unfold valid_alignment in Hv. bools. unfold in_u64 in Ha. lia. }
  unfold allocate. destruct (alloc h size) as [data|] eqn:Hal; [|done]. cbn [mbind result_bind].
  destruct (alloc_range h size data) as [Hd He]; [lia|done|].
  destruct (aligned_offset_spec data (tm_alignment m)) as (o & -> & Ho & Hmod); [done|done|lia..|].
  destruct ((size <? o) || _) eqn:Eo; [|].
  { exfalso. apply orb_true_iff in Eo as [Eo|Eo]; apply Z.ltb_lt in Eo; lia. }
  assert (match tm_initial_image m with
          | [] => replicate (Z.to_nat size) zero_byte
          | image => zsplice (replicate (Z.to_nat size) zero_byte) o image end =
          zsplice (replicate (Z.to_nat size) zero_byte) o (tm_initial_image m)) as ->
    by (case_match; [by rewrite zsplice_nil|done]).
  set (st := zsplice _ o _).
  assert (zlen st = size) as Hst by (unfold st; rewrite zsplice_length, length_replicate by (rewrite ?length_replicate; lia); lia).
  intros [= <- <- <-]. split; [lia|]. eexists. split; [|split; [|split; [done|]]].
  - split; cbn; try done; lia.
  - unfold fresh_area. cbn. apply fresh_area_spec; lia.
  - unfold storage_range. cbn. by rewrite Hst, Hal.
Qed.

Lemma apart_sym r1 r2 : apart r1 r2 -> apart r2 r1.
Proof. unfold apart. tauto. Qed.

Lemma snoc_block_wf registry h context m b :
  context_wf registry h context -> m ∈ modules_ registry -> block_for m b ->
  find_block context (tm_module_id m) = None -> alloc h (zlen (b_storage b)) = Some (b_data b) ->
  context_wf registry (storage_range b :: h)
    (mkGuestThreadContext (blocks_ context ++ [b]) (dtv_ context) (dtv_data context) (tcb_ context)).
Proof.
  intros [Hn Hb Hh Ha Hd] Hm Hf Hnone Hal.
  assert (forall r, r ∈ h -> apart (storage_range b) r) as Hfresh.
  { intros r Hr. unfold storage_range. apply (alloc_fresh h); [lia|done|done]. }
  split; cbn [blocks_ dtv_ dtv_data tcb_].
  - rewrite fmap_app. apply NoDup_app. split; [done|]. split; [|by apply NoDup_singleton].
    intros x Hx Hx'. apply list_elem_of_singleton in Hx'. cbn in Hx'. subst x.
    rewrite (bf_id _ _ Hf) in Hx. by apply find_block_None in Hnone.
  - intros b' [Hb'|Hb'%list_elem_of_singleton]%elem_of_app; [by apply Hb|]. subst b'. by exists m.
  - intros b' [Hb'|Hb'%list_elem_of_singleton]%elem_of_app; [right; by apply Hh|]. subst b'. by left.
  - intros b1 b2 [H1|H1%list_elem_of_singleton]%elem_of_app [H2|H2%list_elem_of_singleton]%elem_of_app Hne;
      subst; [by apply Ha|by apply apart_sym, Hfresh, Hh|by apply Hfresh, Hh|done].
  - destruct Hd as [Hd|[Hd1 Hd2]]; [by left|]. right. split; [by right|].
    intros b' [Hb'|Hb'%list_elem_of_singleton]%elem_of_app; [by apply Hd2|]. subst b'.
    by apply apart_sym, Hfresh.
Qed.

(** The blocks of [context'] are those of [context] and fresh ones. *)
Definition grows (registry : TlsRegistry) (context context' : GuestThreadContext) : Prop :=
  (dtv_ context', dtv_data context', tcb_ context') = (dtv_ context, dtv_data context, tcb_ context) /\
  exists new, blocks_ context' = blocks_ context ++ new /\
    Forall (fun b => exists m, m ∈ modules_ registry /\ b_module_id b = tm_module_id m /\ fresh_area m b) new.

Lemma grows_refl registry context : grows registry context context.
Proof. split; [done|]. exists []. by rewrite app_nil_r. Qed.

Lemma grows_trans registry c1 c2 c3 : grows registry c1 c2 -> grows registry c2 c3 -> grows registry c1 c3.
Proof.
  intros [E1 (n1 & B1 & F1)] [E2 (n2 & B2 & F2)]. split; [congruence|]. exists (n1 ++ n2).
  rewrite B2, B1, app_assoc. split; [done|]. by apply Forall_app.
Qed.

Lemma find_block_grows registry c c' id b :
  grows registry c c' -> find_block c id = Some b -> find_block c' id = Some b.
Proof.
  intros [_ (new & Hb & _)].
  unfold find_block. rewrite Hb. intros ([i x] & Hf & ->)%fmap_Some.
  by rewrite (list_find_app_l _ _ _ i x Hf).
Qed.

Lemma add_modules_spec registry ms h context ok context' h' :
  registry_wf registry -> context_wf registry h context ->
  (forall m, m ∈ ms -> m ∈ modules_ registry) ->
  add_modules h context ms = Ok (ok, context', h') ->
  context_wf registry h' context' /\ grows registry context context' /\
  (ok = true <-> Forall fits ms) /\
  (ok = true -> forall m, m ∈ ms -> is_Some (find_block context' (tm_module_id m))).
Proof.
  intros Hw. revert h context. induction ms as [|m ms IH]; intros h context Hc Hms; cbn [add_modules].
  { intros [= <- <- <-]. split_and!; [done|apply grows_refl|by rewrite Forall_nil|by intros _ m ?%elem_of_nil]. }
  assert (m ∈ modules_ registry) as Hm by (apply Hms; by left).
  destruct (find_block context (tm_module_id m)) as [b|] eqn:Hf.
  - intros (Hc' & Hg & Hok & Hall)%IH; [|done|intros x Hx; apply Hms; by right].
    split_and!; [done|done| |].
    + rewrite Forall_cons, Hok. split; [|tauto]. intros HF. split; [|done].
      apply find_block_Some in Hf as [Hb Hid]. destruct (cw_block _ _ _ Hc b Hb) as (m' & Hm' & Hbf).
      assert (m' = m) as -> by (apply (module_unique registry); try done; by rewrite <- (bf_id _ _ Hbf)).
      unfold fits. pose proof (bf_storage _ _ Hbf). pose proof (bf_end _ _ Hbf). pose proof (bf_data _ _ Hbf). lia.
    + intros Ht x [->|Hx]%elem_of_cons; [|by apply Hall].
      exists b. by eapply find_block_grows.
  - intros Hrun. apply bind_Ok in Hrun as ([[ok1 c1] h1] & Ha & Hrun). revert Hrun.
    pose proof (add_module_spec _ _ _ _ _ _ _ Hw Hm Ha) as Hsp. destruct ok1; cbn [negb].
    + destruct Hsp as (Hfits & b & Hbf & Hfr & -> & -> & Hal).
      set (c1 := mkGuestThreadContext _ _ _ _) in *.
      assert (context_wf registry (storage_range b :: h) c1) as Hc1 by (by apply (snoc_block_wf _ _ _ m)).
      assert (grows registry context c1) as Hg1.
      { split; [done|]. exists [b]. split; [done|]. apply Forall_singleton. exists m.
        by rewrite (bf_id _ _ Hbf). }
      intros (Hc' & Hg & Hok & Hall)%IH; [|done|intros x Hx; apply Hms; by right].
      split_and!; [done|by eapply grows_trans| |].
      * rewrite Forall_cons, Hok. tauto.
      * intros Ht x [->|Hx]%elem_of_cons; [|by apply Hall]. exists b. eapply find_block_grows; [done|].
        rewrite <- (bf_id _ _ Hbf). apply find_block_elem; [apply Hc1|]. apply elem_of_app. right. by left.
    + destruct Hsp as (Hfits & -> & ->). intros [= <- <- <-]. split_and!; [done|apply grows_refl| |done].
      rewrite Forall_cons. split; [done|tauto].
Qed.

(** ** The dynamic thread vector *)

Lemma dtv_entry_length dtv bs : length (foldl dtv_entry dtv bs) = length dtv.
Proof.
  revert dtv. induction bs as [|b bs IH]; intros dtv; cbn; [done|]. rewrite IH.
  unfold dtv_entry. case_match; [apply length_insert|done].
Qed.

Lemma dtv_entry_other dtv bs k :
  (forall b, b ∈ bs -> Z.to_nat (b_module_id b + 1) <> k) -> foldl dtv_entry dtv bs !! k = dtv !! k.
Proof.
  revert dtv. induction bs as [|b bs IH]; intros dtv Hk; cbn; [done|].
  rewrite IH by (intros x Hx; apply Hk; by right). unfold dtv_entry. case_match; [|done].
  apply list_lookup_insert_ne. apply Hk. by left.
Qed.

Lemma dtv_entry_block dtv bs b :
  NoDup (b_module_id <$> bs) -> (forall x, x ∈ bs -> 0 < b_module_id x < zlen dtv - 1) -> b ∈ bs ->
  foldl dtv_entry dtv bs !! Z.to_nat (b_module_id b + 1) = Some (b_data b + b_aligned_offset b).
Proof.
  revert dtv. induction bs as [|x bs IH]; intros dtv Hn Hr Hb; [by apply elem_of_nil in Hb|]. cbn.
  rewrite fmap_cons in Hn. apply NoDup_cons in Hn as [Hx Hn].
  apply elem_of_cons in Hb as [->|Hb].
  - rewrite dtv_entry_other.
    + pose proof (Hr x ltac:(by left)). unfold dtv_entry.
      destruct (Z.ltb_spec (b_module_id x) (zlen dtv - 1)); [|lia].
      apply list_lookup_insert_eq. lia.
    + intros y Hy He. apply Hx, list_elem_of_fmap. exists y. split; [|done].
      pose proof (Hr x ltac:(by left)). pose proof (Hr y ltac:(by right)). lia.
  - apply IH; [done| |done]. intros y Hy. unfold dtv_entry. case_match; rewrite ?length_insert; apply Hr; by right.
Qed.

(** What [rebuild_dtv] leaves. *)
Record dtv_synced (self : Z) (registry : TlsRegistry) (context : GuestThreadContext) : Prop := {
  sy_length : zlen (dtv_ context) = max_module_id_ registry + 2;
  sy_generation : dtv_ context !! 0%nat = Some (generation_ registry);
  sy_max : dtv_ context !! 1%nat = Some (max_module_id_ registry);
  sy_block b : b ∈ blocks_ context ->
    dtv_ context !! Z.to_nat (b_module_id b + 1) = Some (b_data b + b_aligned_offset b);
  sy_tcb : tcb_self (tcb_ context) = self /\ tcb_dtv (tcb_ context) = dtv_data context;
}.

Lemma block_range registry h context b :
  registry_wf registry -> context_wf registry h context -> b ∈ blocks_ context ->
  0 < b_module_id b <= max_module_id_ registry /\ 0 < b_data b /\ 0 < zlen (b_storage b).
Proof.
  intros Hw Hc Hb. destruct (cw_block _ _ _ Hc b Hb) as (m & Hm & Hf).
  destruct (rw_module _ Hw m Hm) as (Hid & Ha & _ & Hs & _).
  rewrite (bf_id _ _ Hf), (bf_storage _ _ Hf). pose proof (bf_data _ _ Hf).
  pose proof (bf_offset _ _ Hf). lia.
Qed.

Lemma rebuild_dtv_spec self registry h context context' h' :
  registry_wf registry -> context_wf registry h context ->
  rebuild_dtv self h context registry = Ok (context', h') ->
  context_wf registry h' context' /\ blocks_ context' = blocks_ context /\
  dtv_synced self registry context'.
Proof.
  intros Hw Hc. unfold rebuild_dtv. pose proof (rw_max _ Hw) as Hmax.
  set (dtv := <[1%nat := _]> _). set (h1 := filter _ h).
  assert (length dtv = Z.to_nat (max_module_id_ registry + 2)) as Hlen
    by (unfold dtv; by rewrite !length_insert, length_replicate).
  assert (forall b, b ∈ blocks_ context -> storage_range b ∈ h1) as Hh1.
  { intros b Hb. apply list_elem_of_filter. split; [|by apply Hc].
    destruct (block_range _ _ _ b Hw Hc Hb) as (_ & Hd & Hl). intros [= E1 E2].
    destruct (cw_dtv _ _ _ Hc) as [Hz|[_ Hap]]; [lia|].
    specialize (Hap b Hb). unfold apart, dtv_range, storage_range in Hap. cbn in Hap. lia. }
  unfold allocate. set (size := (max_module_id_ registry + 2) * 8) in *.
  destruct (alloc h1 size) as [data|] eqn:Hal; [|done]. cbn [mbind result_bind].
  intros [= <- <-]. split; [|split; [done|]].
  - split; cbn [blocks_ rebind_tcb].
    + apply Hc.
    + apply Hc.
    + intros b Hb. right. by apply Hh1.
    + apply Hc.
    + right. unfold dtv_range. cbn. rewrite dtv_entry_length, Hlen.
      replace (Z.of_nat (Z.to_nat (max_module_id_ registry + 2)) * 8)
        with size by lia.
      split; [by left|]. intros b Hb. apply (alloc_fresh h1); [lia|done|by apply Hh1].
  - split; cbn.
    + rewrite dtv_entry_length. lia.
    + rewrite dtv_entry_other; [unfold dtv|].
      * rewrite list_lookup_insert_ne by done. apply list_lookup_insert_eq. rewrite length_replicate. lia.
      * intros b Hb. destruct (block_range _ _ _ b Hw Hc Hb). lia.
    + rewrite dtv_entry_other; [unfold dtv|].
      * apply list_lookup_insert_eq. rewrite length_insert, length_replicate. lia.
      * intros b Hb. destruct (block_range _ _ _ b Hw Hc Hb). lia.
    + intros b Hb. apply dtv_entry_block; [apply Hc| |done].
      intros x Hx. destruct (block_range _ _ _ x Hw Hc Hx). lia.
    + split; [done|]. destruct (foldl dtv_entry dtv (blocks_ context)) eqn:E; [|done].
      pose proof (dtv_entry_length dtv (blocks_ context)) as Hl. rewrite E in Hl. cbn in Hl. lia.
Qed.

Lemma synchronize_spec self registry h context ok context' h' :
  registry_wf registry -> context_wf registry h context ->
  synchronize self h context registry = Ok (ok, context', h') ->
  context_wf registry h' context' /\
  (exists new, blocks_ context' = blocks_ context ++ new /\
    Forall (fun b => exists m, m ∈ modules_ registry /\ b_module_id b = tm_module_id m /\ fresh_area m b) new) /\
  (ok = true <-> Forall fits (modules_ registry)) /\
  (ok = true -> dtv_synced self registry context' /\
    forall m, m ∈ modules_ registry -> is_Some (find_block context' (tm_module_id m))).
Proof.
  intros Hw Hc. unfold synchronize.
  intros Hrun. apply bind_Ok in Hrun as ([[ok1 c1] h1] & Ha & Hrun). revert Hrun.
  apply (add_modules_spec registry) in Ha as (Hc1 & [_ Hg] & Hok & Hall); [|done..].
  destruct ok1; cbn [negb]; [|by intros [= <- <- <-]].
  intros Hrun. apply bind_Ok in Hrun as ([c2 h2] & Hr & Hrun). injection Hrun as <- <- <-.
  apply rebuild_dtv_spec in Hr as (Hc2 & Hb & Hsy); [|done..].
  split; [done|]. rewrite Hb. split; [done|]. split; [done|]. intros _. split; [done|].
  intros m Hm. unfold find_block. rewrite Hb. by apply Hall.
Qed.

(** ** Reachable states

    A thread's context in use: modules are registered, the context is
    synchronized, the guest stores to its variables and the rest of the program
    allocates and frees buffers of its own. *)

Definition store_block (id offset : Z) (bytes : list byte) (b : Block) : Block :=
  if (b_module_id b =? id) && (0 <=? offset) && (offset + zlen bytes <=? b_memory_size b)
  then mkBlock (b_module_id b) (b_memory_size b) (b_aligned_offset b) (b_data b)
         (zsplice (b_storage b) (b_aligned_offset b + offset) bytes)
  else b.

Definition store_tls (context : GuestThreadContext) (id offset : Z) (bytes : list byte)
  : GuestThreadContext :=
  mkGuestThreadContext (store_block id offset bytes <$> blocks_ context) (dtv_ context)
    (dtv_data context) (tcb_ context).

Inductive reachable (self : Z) : TlsRegistry -> heap -> GuestThreadContext -> Prop :=
| reach_init h : reachable self TlsRegistry_init h GuestThreadContext_init
| reach_register registry h context id alignment size image ok registry' :
    reachable self registry h context ->
    0 <= id < u32_mod -> in_u64 alignment -> in_u64 size ->
    register_module registry id alignment size image = (ok, registry') ->
    reachable self registry' h context
| reach_synchronize registry h context ok context' h' :
    reachable self registry h context ->
    synchronize self h context registry = Ok (ok, context', h') ->
    reachable self registry h' context'
| reach_store registry h context id offset bytes :
    reachable self registry h context ->
    reachable self registry h (store_tls context id offset bytes)
| reach_heap registry h context h' :
    reachable self registry h context ->
    (forall r, r ∈ h -> r = dtv_range context \/ r ∈ storage_range <$> blocks_ context -> r ∈ h') ->
    reachable self registry h' context.

Lemma store_block_same id offset bytes b :
  b_module_id (store_block id offset bytes b) = b_module_id b /\
  b_memory_size (store_block id offset bytes b) = b_memory_size b /\
  b_aligned_offset (store_block id offset bytes b) = b_aligned_offset b /\
  b_data (store_block id offset bytes b) = b_data b.
Proof. unfold store_block. by case_match. Qed.

Lemma store_block_length m id offset bytes b :
  block_for m b -> length (b_storage (store_block id offset bytes b)) = length (b_storage b).
Proof.
  intros Hf. unfold store_block. destruct (_ && _) eqn:E; [|done]. bools. cbn.
  apply zsplice_length; pose proof (bf_offset _ _ Hf); pose proof (bf_storage _ _ Hf);
    pose proof (bf_size _ _ Hf); lia.
Qed.

Lemma store_tls_wf registry h context id offset bytes :
  context_wf registry h context -> context_wf registry h (store_tls context id offset bytes).
Proof.
  intros [Hn Hb Hh Ha Hd].
  assert (forall b, b ∈ blocks_ context ->
    storage_range (store_block id offset bytes b) = storage_range b) as Hsr.
  { intros b Hin. destruct (Hb b Hin) as (m & _ & Hf). unfold storage_range.
    rewrite (store_block_length m) by done. by destruct (store_block_same id offset bytes b) as (_ & _ & _ & ->). }
  assert (forall b, b ∈ blocks_ (store_tls context id offset bytes) ->
    exists b0, b0 ∈ blocks_ context /\ b = store_block id offset bytes b0) as Hin.
  { intros b (b0 & -> & Hb0)%list_elem_of_fmap. by exists b0. }
  split.
  - cbn. rewrite <- list_fmap_compose.
    assert (b_module_id ∘ store_block id offset bytes <$> blocks_ context = b_module_id <$> blocks_ context) as ->; [|done].
    apply list_fmap_ext. intros i b _. apply store_block_same.
  - intros b (b0 & Hb0 & ->)%Hin. destruct (Hb b0 Hb0) as (m & Hm & Hf). exists m. split; [done|].
    destruct (store_block_same id offset bytes b0) as (E1 & E2 & E3 & E4).
    destruct Hf. split; rewrite ?E1, ?E2, ?E3, ?E4, ?(store_block_length m) by done; done.
  - intros b (b0 & Hb0 & ->)%Hin. rewrite Hsr by done. by apply Hh.
  - intros b1 b2 (x1 & H1 & ->)%Hin (x2 & H2 & ->)%Hin. rewrite !Hsr by done.
    destruct (store_block_same id offset bytes x1) as (-> & _).
    destruct (store_block_same id offset bytes x2) as (-> & _). by apply Ha.
  - destruct Hd as [Hd|[Hd1 Hd2]]; [by left|right]. split; [done|].
    intros b (b0 & Hb0 & ->)%Hin. rewrite Hsr by done. by apply Hd2.
Qed.

Lemma tls_reachable_wf self registry h context :
  reachable self registry h context -> registry_wf registry /\ context_wf registry h context.
Proof.
  induction 1 as [h|registry h context id al size image ok registry' _ [Hw Hc] Hid Ha Hs Hr
    |registry h context ok context' h' _ [Hw Hc] Hs|registry h context id offset bytes _ [Hw Hc]
    |registry h context h' _ [Hw Hc] Hh].
  - split; [apply registry_init_wf|]. split; cbn; [constructor| | | |by left];
      by intros ? ?%elem_of_nil || intros ? ? ?%elem_of_nil.
  - destruct (register_module_wf _ _ _ _ _ _ _ Hw Hid Ha Hs Hr) as [Hw' [l Hl]]. split; [done|].
    destruct Hc as [? Hb ? ? ?]. split; try done. intros b (m & Hm & Hf)%Hb. exists m.
    split; [|done]. rewrite Hl. apply elem_of_app. by left.
  - split; [done|]. by eapply synchronize_spec.
  - split; [done|]. by apply store_tls_wf.
  - split; [done|]. destruct Hc as [? ? Hhp ? Hd]. split; try done.
    + intros b Hb. apply Hh; [by apply Hhp|]. right. by apply list_elem_of_fmap_2.
    + destruct Hd as [Hd|[Hd1 Hd2]]; [by left|right]. split; [|done]. apply Hh; [done|by left].
Qed.

(** The area of a module in a context: aligned, inside the address space, what
    [tls_address] and the dynamic thread vector designate. *)
Definition provides (context : GuestThreadContext) (m : TlsModuleImage) (base : Z) : Prop :=
  0 < base /\ base + tm_memory_size m <= u64_max /\ base mod tm_alignment m = 0 /\
  (forall offset, tls_address context (tm_module_id m) offset =
    if tm_memory_size m <=? offset then 0 else base + offset) /\
  dtv_ context !! Z.to_nat (tm_module_id m + 1) = Some base.

Lemma block_provides registry h context m :
  registry_wf registry -> context_wf registry h context -> m ∈ modules_ registry ->
  (forall b, b ∈ blocks_ context ->
    dtv_ context !! Z.to_nat (b_module_id b + 1) = Some (b_data b + b_aligned_offset b)) ->
  is_Some (find_block context (tm_module_id m)) ->
  exists b, find_block context (tm_module_id m) = Some b /\ block_for m b /\
    provides context m (b_data b + b_aligned_offset b).
Proof.
  intros Hw Hc Hm Hd [b Hf]. exists b. split; [done|].
  pose proof (find_block_Some _ _ _ Hf) as [Hb Hid].
  destruct (cw_block _ _ _ Hc b Hb) as (m' & Hm' & Hbf).
  assert (m' = m) as -> by (apply (module_unique registry); try done; by rewrite <- (bf_id _ _ Hbf)).
  split; [done|]. pose proof Hbf as [? Hsz ? ? ? ? ?]. split_and!; [lia|lia|done| |].
  - intros o. unfold tls_address. rewrite Hf, Hsz. done.
  - rewrite <- Hid. by apply Hd.
Qed.

(** C40: what [synchronize] provides, in any reachable state.  It succeeds
    exactly when no block size overflows; blocks a thread has keep their place
    and contents; and on success every registered module has its area: aligned
    as the module asks, found by [tls_address] at every offset inside the
    module and nowhere else, pointed to by the module's entry of the dynamic
    thread vector, holding the initial image and zeros when the block is new.
    The areas of different modules are disjoint, an unregistered module has no
    address, and the vector starts with the generation and the largest
    module. *)
Theorem synchronize_provides_tls self registry h context ok context' h' :
  reachable self registry h context ->
  synchronize self h context registry = Ok (ok, context', h') ->
  (ok = true <-> Forall fits (modules_ registry)) /\
  (forall id b, find_block context id = Some b -> find_block context' id = Some b) /\
  (ok = true ->
    (forall m, m ∈ modules_ registry -> exists base, provides context' m base /\
      (find_block context (tm_module_id m) = None ->
        exists b, find_block context' (tm_module_id m) = Some b /\ fresh_area m b)) /\
    (forall m1 m2 base1 base2, m1 ∈ modules_ registry -> m2 ∈ modules_ registry -> m1 <> m2 ->
      provides context' m1 base1 -> provides context' m2 base2 ->
      apart (base1, tm_memory_size m1) (base2, tm_memory_size m2)) /\
    (forall id offset, tls_find registry id = None -> tls_address context' id offset = 0) /\
    zlen (dtv_ context') = max_module_id_ registry + 2 /\
    take 2 (dtv_ context') = [generation_ registry; max_module_id_ registry] /\
    tcb_self (tcb_ context') = self /\ tcb_dtv (tcb_ context') = dtv_data context').
Proof.
  intros [Hw Hc]%tls_reachable_wf Hs. apply (synchronize_spec self registry) in Hs as (Hc' & (new & Hbl & Hnew) & Hok & Hsy);
    [|done..].
  split; [done|]. split.
  { intros id b. unfold find_block. rewrite Hbl. intros ([i x] & Hf & ->)%fmap_Some.
    by rewrite (list_find_app_l _ _ _ i x Hf). }
  intros Ht. destruct (Hsy Ht) as [[Hlen Hg Hmx Hbk [Hself Htcb]] Hall]. clear Hsy.
  pose proof (fun m Hm => block_provides registry h' context' m Hw Hc' Hm Hbk (Hall m Hm)) as Hprov.
  split; [|split; [|split; [|split; [done|split; [|done]]]]].
  - intros m Hm. destruct (Hprov m Hm) as (b & Hf & Hbf & Hp). eexists. split; [done|].
    intros Hnone. exists b. split; [done|]. pose proof (find_block_Some _ _ _ Hf) as [Hb Hid].
    rewrite Hbl in Hb. apply elem_of_app in Hb as [Hb|Hb].
    { apply find_block_None in Hnone. exfalso. apply Hnone. rewrite <- Hid. by apply list_elem_of_fmap_2. }
    rewrite Forall_forall in Hnew. destruct (Hnew b Hb) as (m' & Hm' & Hid' & Hfr).
    assert (m' = m) as -> by (apply (module_unique registry); try done; congruence). done.
  - intros m1 m2 base1 base2 Hm1 Hm2 Hne (_ & _ & _ & _ & E1) (_ & _ & _ & _ & E2).
    destruct (Hprov m1 Hm1) as (b1 & Hf1 & Hb1 & (_ & _ & _ & _ & E1')).
    destruct (Hprov m2 Hm2) as (b2 & Hf2 & Hb2 & (_ & _ & _ & _ & E2')).
    apply find_block_Some in Hf1 as [Hi1 Hid1], Hf2 as [Hi2 Hid2].
    assert (apart (storage_range b1) (storage_range b2)) as Hap.
    { apply Hc'; [done..|]. rewrite Hid1, Hid2. intros He. by apply Hne, (module_unique registry). }
    assert (base1 = b_data b1 + b_aligned_offset b1) as -> by congruence.
    assert (base2 = b_data b2 + b_aligned_offset b2) as -> by congruence.
    destruct Hb1, Hb2. unfold apart, storage_range in *. cbn in *. lia.
  - intros id o Hn. unfold tls_address. destruct (find_block context' id) as [b|] eqn:Hf; [|done].
    apply find_block_Some in Hf as [Hb Hid]. destruct (cw_block _ _ _ Hc' b Hb) as (m & Hm & Hbf).
    apply (tls_find_elem _ _ Hw) in Hm. rewrite <- (bf_id _ _ Hbf), Hid in Hm. congruence.
  - destruct (dtv_ context') as [|x [|y l]]; by simplify_eq/=.
Qed.

End ContextProofs.

(** A moved context serves the same addresses, through a control block at its
    new place; only the canary and the control block's own address change. *)
Lemma moved_context_serves self other :
  let context := fst (move_context self other) in
  (forall id offset, tls_address context id offset = tls_address other id offset) /\
  dtv_ context = dtv_ other /\ dtv_data context = dtv_data other /\ buffers context = buffers other /\
  tcb_self (tcb_ context) = self /\
  tcb_dtv (tcb_ context) = (match dtv_ other with [] => 0 | _ => dtv_data other end) /\
  buffers (snd (move_context self other)) = [].
Proof. done. Qed.

(** the registry.  [register_module] accepts exactly a module with a
    nonzero identifier not yet registered, a nonzero size, an image that fits
    and an alignment that is zero or a power of two; an accepted module is then
    found, with alignment 1 for 0, the others are found as before, and the
    generation counts the registrations. *)
Theorem register_module_registers registry id alignment size image ok registry' :
  registry_wf registry -> 0 <= id < u32_mod -> in_u64 alignment -> in_u64 size ->
  register_module registry id alignment size image = (ok, registry') ->
  (ok = true <-> id <> 0 /\ size <> 0 /\ zlen image <= size /\ tls_find registry id = None /\
    (alignment = 0 \/ exists k, 0 <= k /\ alignment = 2 ^ k)) /\
  registry_wf registry' /\
  (ok = true -> tls_find registry' id =
    Some (mkTlsModuleImage id (if alignment =? 0 then 1 else alignment) size image)) /\
  (ok = false -> registry' = registry) /\
  forall id', id' <> id -> tls_find registry' id' = tls_find registry id'.
Proof.
  intros Hw Hid Ha Hs Hr. pose proof (register_module_wf _ _ _ _ _ _ _ Hw Hid Ha Hs Hr) as [Hw' _].
  revert Hr. unfold register_module.
  set (a := if alignment =? 0 then 1 else alignment).
  assert (valid_alignment a = true <-> alignment = 0 \/ exists k, 0 <= k /\ alignment = 2 ^ k) as Hva.
  { unfold a. destruct (Z.eqb_spec alignment 0) as [->|Hz]; [by split; [left|]|].
    rewrite valid_alignment_pow2 by done. tauto. }
  destruct (_ || _) eqn:E1.
  { intros [= <- <-]. split_and!; try done. split; [done|]. intros (? & ? & ? & _).
    rewrite !orb_true_iff, !Z.eqb_eq, Z.ltb_lt in E1. lia. }
  bools. destruct (negb (valid_alignment a) || _) eqn:E2.
  { intros [= <- <-]. split_and!; try done. split; [done|]. intros (_ & _ & _ & Hn & Hal%Hva).
    by rewrite Hn, Hal in E2. }
  apply orb_false_iff in E2 as [Hv%negb_false_iff Hn]. destruct (tls_find registry id) eqn:Hf; [done|].
  intros [= <- <-]. split; [|split; [done|split; [|split; [done|]]]].
  - apply Hva in Hv. split; [done|done].
  - intros _. set (m := mkTlsModuleImage _ _ _ _) in *.
    apply (tls_find_elem _ m Hw'). cbn. apply elem_of_app. right. by left.
  - intros id' Hne. unfold tls_find. cbn.
    destruct (list_find (fun m => tm_module_id m = id') (modules_ registry)) as [[i x]|] eqn:Hl.
    { by rewrite (list_find_app_l _ _ _ i x Hl). }
    rewrite (list_find_app_r _ _ _ Hl). cbn. by rewrite decide_False by done.
Qed.

(** ** Witnesses

    An allocator that answers the first address above every live buffer. *)

Definition bump_alloc : Allocator := fun h n =>
  let top := foldr (fun r a => Z.max a (r.1 + r.2)) 1001 h in
  if top + n <=? u64_max then Some top else None.

Lemma bump_alloc_laws : @AllocatorLaws bump_alloc.
Proof.
  set (top := fun h : heap => foldr (fun r a => Z.max a (r.1 + r.2)) 1001 h).
  assert (forall h, 1001 <= top h) as Ht by (intros h; unfold top; induction h; cbn in *; lia).
  assert (forall h n a, @alloc bump_alloc h n = Some a -> a = top h /\ a + n <= u64_max) as Ha.
  { intros h n a. unfold alloc, bump_alloc. fold (top h).
    destruct (Z.leb_spec (top h + n) u64_max); [|done]. by intros [= <-]. }
  split.
  - intros h n a Hn [-> ?]%Ha. specialize (Ht h). lia.
  - intros h n a r Hn [-> _]%Ha Hr. right. cbn. clear Ha.
    induction h as [|x h IH]; [by apply elem_of_nil in Hr|]. cbn.
    apply elem_of_cons in Hr as [->|Hr]; [lia|]. specialize (IH Hr). fold (top h).
    unfold top in *. cbn in *. lia.
Qed.

Definition one_module : TlsRegistry :=
  (register_module TlsRegistry_init 1 16 8 [zero_byte; Byte.x07]).2.
Definition two_modules : TlsRegistry := (register_module one_module 2 0 3 []).2.

Lemma two_modules_reachable h :
  @reachable bump_alloc 5000 two_modules h GuestThreadContext_init.
Proof.
  apply (@reach_register bump_alloc 5000 one_module h _ 2 0 3 [] true);
    [|lia|by unfold in_u64..|reflexivity].
  apply (@reach_register bump_alloc 5000 TlsRegistry_init h _ 1 16 8 [zero_byte; Byte.x07] true);
    [apply (@reach_init bump_alloc)|lia|by unfold in_u64..|reflexivity].
Qed.

Lemma register_module_registers_witness :
  (register_module two_modules 5 8 4 []).1 = true.
Proof.
  destruct (register_module two_modules 5 8 4 []) as [ok r] eqn:Hr.
  destruct (@tls_reachable_wf bump_alloc bump_alloc_laws _ _ _ _ (two_modules_reachable [])) as [Hw _].
  apply (register_module_registers two_modules 5 8 4 [] ok r Hw); [lia|by unfold in_u64..|done|].
  split_and!; [done|done|done|reflexivity|]. right. by exists 3.
Defined.

Lemma synchronize_provides_tls_witness :
  exists context h, @synchronize bump_alloc 5000 [] GuestThreadContext_init two_modules
    = Ok (true, context, h) /\ tls_address context 1 1 = 1009 /\ tls_address context 3 0 = 0.
Proof.
  destruct (@synchronize bump_alloc 5000 [] GuestThreadContext_init two_modules)
    as [[[ok context] h]|] eqn:Hs; [|discriminate Hs].
  pose proof (@synchronize_provides_tls bump_alloc bump_alloc_laws 5000 two_modules []
    GuestThreadContext_init ok context h (two_modules_reachable []) Hs) as (Hok & _ & Ht).
  assert (ok = true) as ->.
  { apply Hok. repeat constructor; unfold fits; cbn; lia. }
  exists context, h. split; [done|]. destruct (Ht eq_refl) as (_ & _ & Hno & _).
  split; [|by apply Hno]. by injection Hs as <- _.
Defined.
