(* ===== verification/Scopes.v ===== *)
(** * What a host thread executes for

    The thread-local pointers and the segment base that tell a host thread which
    guest thread it runs: [ScopedGuestThreadContext] and [ScopedGuestSegment] of
    [src/src/runtime/tls.cpp], with the TLS slots of the Windows build, and
    [ScopedGuestThreadManager] of [src/src/runtime/thread_manager.cpp].

    Each is a class whose constructor saves what was there and whose destructor
    puts it back.  A scope is a bracket: the constructor, a body, and the
    destructor, which also runs when the body throws.  What the scopes are for
    is lexical scoping: inside a scope, the looked-up values are those of the
    innermost one.  [lexical] says that without any state, and the theorem
    proves that the scopes implement it, on both systems. *)

From S2P Require Import Prelude.

Local Open Scope Z_scope.

(** ** The system *)

Definition TLS_OUT_OF_INDEXES : Z := 0xffffffff.

(** Whether the [n]-th system call succeeds, and what [TlsAlloc] answers when
    some slots are in use. *)
Class ThreadOs : Type := {
  get_gs_ok : nat -> bool;
  set_gs_ok : nat -> Z -> bool;
  os_tls_alloc : gset Z -> Z;
  os_tls_set_ok : nat -> Z -> Z -> bool;
}.

(** The documentation of [TlsAlloc]: a slot that is not in use, below 1088. *)
Class ThreadOsLaws `{ThreadOs} : Prop :=
  os_tls_alloc_fresh used :
    os_tls_alloc used = TLS_OUT_OF_INDEXES \/
    (0 <= os_tls_alloc used < 1088 /\ os_tls_alloc used ∉ used).

(** ** The state *)

(** A [std::once_flag] and the slot it guards. *)
Record SlotOnce : Type := mkSlotOnce { so_done : bool; so_slot : Z }.

(** The [thread_local] variables, the GS base (Linux), the values of the TLS
    slots (Windows), and the slots of the process. *)
Record HostThread : Type := mkHostThread {
  current_context : Z;
  current_manager : Z;
  current_thread_handle : Z;
  gs_base : Z;
  tls_values : Z -> Z;
  windows_tcb_slot : SlotOnce;
  windows_host_stack_slot : SlotOnce;
  slots_in_use : gset Z;
  os_calls : nat;
}.

Definition HostThread_init : HostThread :=
  mkHostThread 0 0 0 0 (fun _ => 0) (mkSlotOnce false TLS_OUT_OF_INDEXES)
    (mkSlotOnce false TLS_OUT_OF_INDEXES) ∅ 0.

Definition set_context (t : HostThread) (context : Z) : HostThread :=
  mkHostThread context (current_manager t) (current_thread_handle t) (gs_base t) (tls_values t)
    (windows_tcb_slot t) (windows_host_stack_slot t) (slots_in_use t) (os_calls t).
Definition set_manager (t : HostThread) (manager handle : Z) : HostThread :=
  mkHostThread (current_context t) manager handle (gs_base t) (tls_values t)
    (windows_tcb_slot t) (windows_host_stack_slot t) (slots_in_use t) (os_calls t).
(** After a system call. *)
Definition called (t : HostThread) (gs : Z) (values : Z -> Z) : HostThread :=
  mkHostThread (current_context t) (current_manager t) (current_thread_handle t) gs values
    (windows_tcb_slot t) (windows_host_stack_slot t) (slots_in_use t) (S (os_calls t)).
Definition set_slots (t : HostThread) (values : Z -> Z) (tcb host : SlotOnce) (used : gset Z)
  : HostThread :=
  mkHostThread (current_context t) (current_manager t) (current_thread_handle t) (gs_base t) values
    tcb host used (os_calls t).

(** What was looked up: [ScopedGuestThreadContext::current()],
    [GuestThreadManager::current()], [current_handle()] and
    [ScopedGuestSegment::current_base()]. *)
Record View : Type := mkView {
  v_context : Z;
  v_manager : Z;
  v_handle : Z;
  v_base : option Z;
}.

(** How a computation ends: with a value, with an exception, or in
    [std::terminate]. *)
Inductive outcome (A : Type) : Type :=
| returned (a : A) (t : HostThread)
| raised (e : exn) (t : HostThread)
| aborted.
#[global] Arguments returned {A}.
#[global] Arguments raised {A}.
#[global] Arguments aborted {A}.

(** The log of what was looked up is not part of the program; it is what the
    theorems speak about. *)
Definition hosted (A : Type) : Type := HostThread -> list View * outcome A.

#[export] Instance hosted_ret : MRet hosted := fun A a t => ([], returned a t).
#[export] Instance hosted_bind : MBind hosted := fun A B f m t =>
  match m t with
  | (log, returned a t) => let '(log', o) := f a t in (log ++ log', o)
  | (log, raised e t) => (log, raised e t)
  | (log, aborted) => (log, aborted)
  end.

Definition raise {A} (e : exn) : hosted A := fun t => ([], raised e t).

(** A scope: the constructor answers what the destructor needs; the destructor
    is [noexcept] and may only end the process. *)
Definition with_scope {P A} (construct : HostThread -> outcome P)
    (destroy : P -> HostThread -> option HostThread) (body : hosted A) : hosted A := fun t =>
  match construct t with
  | aborted => ([], aborted)
  | raised e t => ([], raised e t)
  | returned p t =>
      match body t with
      | (log, aborted) => (log, aborted)
      | (log, returned a t) =>
          (log, match destroy p t with Some t => returned a t | None => aborted end)
      | (log, raised e t) =>
          (log, match destroy p t with Some t => raised e t | None => aborted end)
      end
  end.

(** ** Contexts and managers *)

Definition ScopedGuestThreadContext (context : Z) (t : HostThread) : outcome Z :=
  returned (current_context t) (set_context t context).
Definition leave_context (previous : Z) (t : HostThread) : option HostThread :=
  Some (set_context t previous).

Definition ScopedGuestThreadManager (manager handle : Z) (t : HostThread) : outcome (Z * Z) :=
  returned (current_manager t, current_thread_handle t) (set_manager t manager handle).
Definition leave_manager (previous : Z * Z) (t : HostThread) : option HostThread :=
  Some (set_manager t previous.1 previous.2).

(** ** The TLS slots of the Windows build *)

Section Os.
Context `{ThreadOs}.

Definition kDirectTebTlsSlotCount : Z := 64.
Definition kTebTlsSlotsOffset : Z := 0x1480.

(** [TlsAlloc]: a new slot holds zero. *)
Definition TlsAlloc (t : HostThread) : Z * (Z -> Z) * gset Z :=
  let slot := os_tls_alloc (slots_in_use t) in
  if slot =? TLS_OUT_OF_INDEXES then (slot, tls_values t, slots_in_use t)
  else (slot, fun s => if s =? slot then 0 else tls_values t s, {[slot]} ∪ slots_in_use t).

Definition get_windows_tcb_slot (t : HostThread) : Z * HostThread :=
  if so_done (windows_tcb_slot t) then (so_slot (windows_tcb_slot t), t)
  else
    let '(slot, values, used) := TlsAlloc t in
    (slot, set_slots t values (mkSlotOnce true slot) (windows_host_stack_slot t) used).

Definition get_windows_host_stack_slot (t : HostThread) : Z * HostThread :=
  if so_done (windows_host_stack_slot t) then (so_slot (windows_host_stack_slot t), t)
  else
    let '(slot, values, used) := TlsAlloc t in
    (slot, set_slots t values (windows_tcb_slot t) (mkSlotOnce true slot) used).

Definition direct_teb_slot_offset (slot : Z) : option Z :=
  if (slot =? TLS_OUT_OF_INDEXES) || (kDirectTebTlsSlotCount <=? slot) then None
  else Some (wrap32 (kTebTlsSlotsOffset + wrap32 (slot * 8))).

Definition windows_guest_tcb_teb_offset (t : HostThread) : option Z * HostThread :=
  let '(slot, t) := get_windows_tcb_slot t in (direct_teb_slot_offset slot, t).

Definition windows_host_stack_teb_offset (t : HostThread) : option Z * HostThread :=
  let '(slot, t) := get_windows_host_stack_slot t in (direct_teb_slot_offset slot, t).

(** [TlsSetValue]: whether it succeeded. *)
Definition TlsSetValue (t : HostThread) (slot value : Z) : bool * HostThread :=
  if os_tls_set_ok (os_calls t) slot value
  then (true, called t (gs_base t) (fun s => if s =? slot then value else tls_values t s))
  else (false, called t (gs_base t) (tls_values t)).

(** ** The GS base of the Linux build *)

Definition get_gs_base (t : HostThread) : option Z * HostThread :=
  (if get_gs_ok (os_calls t) then Some (gs_base t) else None, called t (gs_base t) (tls_values t)).

Definition set_gs_base (base : Z) (t : HostThread) : bool * HostThread :=
  if set_gs_ok (os_calls t) base then (true, called t base (tls_values t))
  else (false, called t (gs_base t) (tls_values t)).

(** ** Segments *)

Inductive Platform : Type := linux | windows.

(** [ScopedGuestSegment::supported]. *)
Definition supported (p : Platform) (t : HostThread) : bool * HostThread :=
  match p with
  | linux => (true, t)
  | windows =>
      let '(offset, t) := windows_guest_tcb_teb_offset t in
      (match offset with Some _ => true | None => false end, t)
  end.

(** [ScopedGuestSegment::current_base]. *)
Definition current_base (p : Platform) (t : HostThread) : option Z * HostThread :=
  match p with
  | linux =>
      let '(base, t) := get_gs_base t in
      match base with None => (None, t) | Some base => (Some base, t) end
  | windows =>
      let '(slot, t) := get_windows_tcb_slot t in
      if (slot =? TLS_OUT_OF_INDEXES) || (kDirectTebTlsSlotCount <=? slot) then (None, t)
      else (Some (tls_values t slot), t)
  end.

(** The constructor, for a context with the control block at [tcb]; it answers
    [previous_base_] or [previous_windows_tcb_]. *)
Definition ScopedGuestSegment (p : Platform) (tcb : Z) (t : HostThread) : outcome Z :=
  match p with
  | linux =>
      let '(previous_base, t) := get_gs_base t in
      match previous_base with
      | None => raised (runtime_error "unable to bind guest TCB to GS base") t
      | Some previous_base =>
          let '(ok, t) := set_gs_base tcb t in
          if ok then returned previous_base t
          else raised (runtime_error "unable to bind guest TCB to GS base") t
      end
  | windows =>
      let '(slot, t) := get_windows_tcb_slot t in
      if (slot =? TLS_OUT_OF_INDEXES) || (kDirectTebTlsSlotCount <=? slot)
      then raised (runtime_error "unable to allocate an inline Windows guest TCB TLS slot") t
      else
        let previous := tls_values t slot in
        let '(ok, t) := TlsSetValue t slot tcb in
        if ok then returned previous t
        else raised (runtime_error "unable to bind guest TCB to the Windows TLS slot") t
  end.

(** The destructor of a segment that is active. *)
Definition leave_segment (p : Platform) (previous : Z) (t : HostThread) : option HostThread :=
  match p with
  | linux => let '(ok, t) := set_gs_base previous t in if ok then Some t else None
  | windows =>
      let '(slot, t) := get_windows_tcb_slot t in
      let '(ok, t) := TlsSetValue t slot previous in if ok then Some t else None
  end.

(** ** Programs of scopes *)

(** What the host does with scopes: it looks the current values up, opens
    scopes around more of the same, throws and catches, and asks for the TEB
    slot of its stack pointer. *)
Inductive Host : Type :=
| host_done
| host_look
| host_throw (e : exn)
| host_seq (a b : Host)
| host_try (a : Host)
| host_manager (manager handle : Z) (a : Host)
| host_context (context : Z) (a : Host)
| host_segment (tcb : Z) (a : Host)
| host_stack_offset.

Definition look (p : Platform) : hosted unit := fun t =>
  let '(base, t) := current_base p t in
  ([mkView (current_context t) (current_manager t) (current_thread_handle t) base], returned tt t).

Fixpoint run_host (p : Platform) (a : Host) : hosted unit :=
  match a with
  | host_done => mret tt
  | host_look => look p
  | host_throw e => raise e
  | host_seq a b => run_host p a ≫= fun _ => run_host p b
  | host_try a => fun t =>
      match run_host p a t with
      | (log, raised _ t) => (log, returned tt t)
      | r => r
      end
  | host_manager manager handle a =>
      with_scope (ScopedGuestThreadManager manager handle) leave_manager (run_host p a)
  | host_context context a =>
      with_scope (ScopedGuestThreadContext context) leave_context (run_host p a)
  | host_segment tcb a =>
      with_scope (ScopedGuestSegment p tcb) (leave_segment p) (run_host p a)
  | host_stack_offset => fun t => ([], returned tt (snd (windows_host_stack_teb_offset t)))
  end.

(** The three scopes around every call into the guest
    ([initialize_program], [finalize_program], [invoke_entry] and the worker of
    [GuestThread::start]). *)
Definition guest_scopes {A} (p : Platform) (manager handle context tcb : Z) (body : hosted A) : hosted A :=
  with_scope (ScopedGuestThreadManager manager handle) leave_manager
    (with_scope (ScopedGuestThreadContext context) leave_context
       (with_scope (ScopedGuestSegment p tcb) (leave_segment p) body)).

End Os.

(** ** The specification *)

(** The values of the innermost scopes. *)
Record Env : Type := mkEnv { e_context : Z; e_manager : Z; e_handle : Z; e_base : Z }.

Definition env_view (env : Env) : View :=
  mkView (e_context env) (e_manager env) (e_handle env) (Some (e_base env)).

(** What a program looks up and whether it throws, without any state. *)
Fixpoint lexical (env : Env) (a : Host) : list View * option exn :=
  match a with
  | host_done => ([], None)
  | host_look => ([env_view env], None)
  | host_throw e => ([], Some e)
  | host_seq a b =>
      match lexical env a with
      | (log, None) => let '(log', e) := lexical env b in (log ++ log', e)
      | r => r
      end
  | host_try a => (fst (lexical env a), None)
  | host_manager manager handle a =>
      lexical (mkEnv (e_context env) manager handle (e_base env)) a
  | host_context context a =>
      lexical (mkEnv context (e_manager env) (e_handle env) (e_base env)) a
  | host_segment tcb a => lexical (mkEnv (e_context env) (e_manager env) (e_handle env) tcb) a
  | host_stack_offset => ([], None)
  end.

(** ** Invariants *)

(** A slot that its variable names is in use, and the two are different. *)
Definition slot_held (used : gset Z) (s : SlotOnce) : Prop :=
  so_done s = true -> so_slot s <> TLS_OUT_OF_INDEXES -> so_slot s ∈ used.

Record slots_wf (t : HostThread) : Prop := {
  sw_tcb : slot_held (slots_in_use t) (windows_tcb_slot t);
  sw_host : slot_held (slots_in_use t) (windows_host_stack_slot t);
  sw_range s : s ∈ slots_in_use t -> 0 <= s < 1088;
  sw_apart : so_done (windows_tcb_slot t) = true -> so_done (windows_host_stack_slot t) = true ->
    so_slot (windows_tcb_slot t) <> TLS_OUT_OF_INDEXES ->
    so_slot (windows_tcb_slot t) <> so_slot (windows_host_stack_slot t);
}.

(** A slot that the TEB holds inline. *)
Definition direct (slot : Z) : bool :=
  negb ((slot =? TLS_OUT_OF_INDEXES) || (kDirectTebTlsSlotCount <=? slot)).

(** What a scope relies on: the thread's other variables are the same, and what
    was settled stays so. *)
Record grown (ready : HostThread -> Prop) (t t' : HostThread) : Prop := {
  gw_context : current_context t' = current_context t;
  gw_manager : current_manager t' = current_manager t;
  gw_handle : current_thread_handle t' = current_thread_handle t;
  gw_wf : slots_wf t -> slots_wf t';
  gw_ready : ready t -> ready t';
}.

#[export] Instance grown_preorder ready : PreOrder (grown ready).
Proof.
  split; [by split|]. intros t1 t2 t3 [A1 A2 A3 A4 A5] [B1 B2 B3 B4 B5].
  split; try congruence; eauto.
Qed.

(** The interface of a segment: the value that is bound is [held], a scope
    saves and restores it, and where [ready] holds and no call fails
    ([reliable]) neither the constructor nor the destructor does. *)
Class SegmentLaws (bind : Z -> HostThread -> outcome Z) (unbind : Z -> HostThread -> option HostThread)
    (current : HostThread -> option Z * HostThread) (held : HostThread -> Z)
    (ready : HostThread -> Prop) (reliable : Prop) : Prop := {
  sl_bind t tcb : slots_wf t ->
    match bind tcb t with
    | returned previous t' => previous = held t /\ held t' = tcb /\ ready t' /\ grown ready t t'
    | raised _ t' => held t' = held t /\ grown ready t t' /\ (reliable -> ~ ready t)
    | aborted => False
    end;
  sl_unbind t previous : slots_wf t -> ready t ->
    match unbind previous t with
    | Some t' => held t' = previous /\ grown ready t t'
    | None => ~ reliable
    end;
  sl_current t : slots_wf t ->
    held (current t).2 = held t /\ grown ready t (current t).2 /\
    ((current t).1 = None \/ (current t).1 = Some (held t)) /\
    (reliable -> ready t -> (current t).1 = Some (held t));
}.

Section Laws.
Context `{ThreadOs, !ThreadOsLaws}.

Lemma TlsAlloc_spec t slot values used :
  TlsAlloc t = (slot, values, used) ->
  (slot = TLS_OUT_OF_INDEXES /\ values = tls_values t /\ used = slots_in_use t) \/
  (slot <> TLS_OUT_OF_INDEXES /\ 0 <= slot < 1088 /\ slot ∉ slots_in_use t /\ values slot = 0 /\
   (forall s, s <> slot -> values s = tls_values t s) /\ used = ({[slot]} ∪ slots_in_use t)).
Proof.
  unfold TlsAlloc. destruct (Z.eqb_spec (os_tls_alloc (slots_in_use t)) TLS_OUT_OF_INDEXES) as [He|Hne];
    intros [= <- <- <-]; [by left|]. right.
  destruct (os_tls_alloc_fresh (slots_in_use t)) as [|[Hr Hf]]; [done|].
  split_and!; [done|lia|lia|done|by rewrite Z.eqb_refl| |done].
  intros s Hs. by rewrite (proj2 (Z.eqb_neq _ _)).
Qed.

(** The control block that the TLS slot leads to. *)
Definition slot_value (t : HostThread) : Z :=
  if so_done (windows_tcb_slot t) && direct (so_slot (windows_tcb_slot t))
  then tls_values t (so_slot (windows_tcb_slot t)) else 0.

Definition slot_ready (t : HostThread) : Prop :=
  so_done (windows_tcb_slot t) = true /\ direct (so_slot (windows_tcb_slot t)) = true.

Definition always (_ : HostThread) : Prop := True.

Definition held (p : Platform) : HostThread -> Z :=
  match p with linux => gs_base | windows => slot_value end.
Definition ready (p : Platform) : HostThread -> Prop :=
  match p with linux => always | windows => slot_ready end.
(** No system call fails. *)
Definition reliable (p : Platform) : Prop :=
  match p with
  | linux => (forall n, get_gs_ok n = true) /\ forall n base, set_gs_ok n base = true
  | windows => forall n slot value, os_tls_set_ok n slot value = true
  end.

(** The first call of [get_windows_tcb_slot] allocates, the others answer the
    same slot; what is bound stays. *)
Lemma tcb_slot_spec t slot t' :
  slots_wf t -> get_windows_tcb_slot t = (slot, t') ->
  so_done (windows_tcb_slot t') = true /\ so_slot (windows_tcb_slot t') = slot /\
  slot_value t' = slot_value t /\ gs_base t' = gs_base t /\ os_calls t' = os_calls t /\ grown slot_ready t t'.
Proof.
  intros Hwf. unfold get_windows_tcb_slot. destruct (so_done (windows_tcb_slot t)) eqn:Hd.
  { intros [= <- <-]. by split_and!. }
  destruct (TlsAlloc t) as [[slot' values] used] eqn:Ha. intros [= <- <-].
  split_and!; [done|done| |done|done|].
  - unfold slot_value. cbn [windows_tcb_slot set_slots so_done so_slot tls_values]. rewrite Hd. cbn [andb].
    apply TlsAlloc_spec in Ha as [(-> & _)|(_ & _ & _ & Hz & _)]; [done|]. by destruct (direct slot').
  - split; [done..| |intros [Hd' _]; congruence]. intros _. destruct Hwf as [_ Hh Hr _].
    split; cbn [set_slots windows_tcb_slot windows_host_stack_slot slots_in_use so_done so_slot].
    + intros _ Hne. apply TlsAlloc_spec in Ha as [(-> & _)|(_ & _ & _ & _ & _ & ->)]; [done|].
      cbn [set_slots so_slot]. set_solver.
    + intros Hd' Hne. specialize (Hh Hd' Hne).
      apply TlsAlloc_spec in Ha as [(_ & _ & ->)|(_ & _ & _ & _ & _ & ->)]; set_solver.
    + intros s Hs. apply TlsAlloc_spec in Ha as [(_ & _ & ->)|(_ & Hr' & _ & _ & _ & ->)]; [by apply Hr|].
      apply elem_of_union in Hs as [Hs|Hs]; [|by apply Hr]. apply elem_of_singleton in Hs as ->. lia.
    + intros _ Hd' Hne. apply TlsAlloc_spec in Ha as [(-> & _)|(_ & _ & Hf & _)]; [done|].
      destruct (decide (so_slot (windows_host_stack_slot t) = TLS_OUT_OF_INDEXES)) as [->|Hne']; [done|].
      specialize (Hh Hd' Hne'). intros ->. done.
Qed.

Lemma host_slot_spec t slot t' :
  slots_wf t -> get_windows_host_stack_slot t = (slot, t') ->
  so_done (windows_host_stack_slot t') = true /\ so_slot (windows_host_stack_slot t') = slot /\
  slot_value t' = slot_value t /\ gs_base t' = gs_base t /\ grown slot_ready t t'.
Proof.
  intros Hwf. unfold get_windows_host_stack_slot. destruct (so_done (windows_host_stack_slot t)) eqn:Hd.
  { intros [= <- <-]. by split_and!. }
  destruct (TlsAlloc t) as [[slot' values] used] eqn:Ha. intros [= <- <-]. destruct Hwf as [Ht _ Hr _].
  split_and!; [done|done| |done|].
  - unfold slot_value. cbn [windows_tcb_slot set_slots tls_values].
    destruct (so_done (windows_tcb_slot t)) eqn:Hdt; [|done]. cbn [andb].
    destruct (direct (so_slot (windows_tcb_slot t))) eqn:Hdir; [|done].
    apply TlsAlloc_spec in Ha as [(_ & -> & _)|(_ & _ & Hf & _ & Hv & _)]; [done|]. apply Hv.
    intros He. apply Hf. rewrite <- He. apply Ht; [done|]. intros E. by rewrite E in Hdir.
  - split; [done..| |done]. intros _.
    split; cbn [set_slots windows_tcb_slot windows_host_stack_slot slots_in_use so_done so_slot].
    + intros Hd' Hne. specialize (Ht Hd' Hne).
      apply TlsAlloc_spec in Ha as [(_ & _ & ->)|(_ & _ & _ & _ & _ & ->)]; set_solver.
    + intros _ Hne. apply TlsAlloc_spec in Ha as [(-> & _)|(_ & _ & _ & _ & _ & ->)]; [done|].
      cbn [so_slot]. set_solver.
    + intros s Hs. apply TlsAlloc_spec in Ha as [(_ & _ & ->)|(_ & Hr' & _ & _ & _ & ->)]; [by apply Hr|].
      apply elem_of_union in Hs as [Hs|Hs]; [|by apply Hr]. apply elem_of_singleton in Hs as ->. lia.
    + intros Hd' _ Hne. specialize (Ht Hd' Hne).
      apply TlsAlloc_spec in Ha as [(-> & _)|(_ & _ & Hf & _)]; [done|]. intros E. by rewrite E in Ht.
Qed.
End Laws.
