(* ===== verification/ScopesProps.v ===== *)
(** * Properties of the scopes

    The Linux and the Windows segment implement the interface [SegmentLaws],
    every scope restores what it found, and the look-ups inside are lexical. *)

From S2P Require Import Prelude Scopes.

Local Open Scope Z_scope.

(** ** The two implementations of the interface *)

Section Segments.
Context `{ThreadOs, !ThreadOsLaws}.

Lemma called_grown ready t gs values : (ready t -> ready (called t gs values)) -> grown ready t (called t gs values).
Proof. by split; [..|intros []; split|]. Qed.

#[export] Instance linux_segment :
  SegmentLaws (ScopedGuestSegment linux) (leave_segment linux) (current_base linux)
    (held linux) (ready linux) (reliable linux).
Proof.
  split.
  - intros t tcb _. unfold ScopedGuestSegment, get_gs_base, set_gs_base. cbn [os_calls called].
    destruct (get_gs_ok (os_calls t)) eqn:Hg.
    + destruct (set_gs_ok _ tcb) eqn:Hs.
      * split_and!; [done..|]. etrans; by apply called_grown.
      * split_and!; [done| |]; [etrans; by apply called_grown|]. intros [_ Hr]. by rewrite Hr in Hs.
    + split_and!; [done|by apply called_grown|]. intros [Hr _]. by rewrite Hr in Hg.
  - intros t previous _ _. unfold leave_segment, set_gs_base.
    destruct (set_gs_ok _ previous) eqn:Hs; [split; [done|by apply called_grown]|].
    intros [_ Hr]. by rewrite Hr in Hs.
  - intros t _. unfold current_base, get_gs_base.
    destruct (get_gs_ok (os_calls t)) eqn:Hg; cbn [fst snd];
      (split_and!; [done|by apply called_grown| |intros [Hr _] _]); auto.
    by rewrite Hr in Hg.
Qed.

Lemma TlsSetValue_spec t slot value ok t' :
  so_done (windows_tcb_slot t) = true -> so_slot (windows_tcb_slot t) = slot -> direct slot = true ->
  TlsSetValue t slot value = (ok, t') ->
  slot_value t' = (if ok then value else slot_value t) /\ grown slot_ready t t' /\ slot_ready t' /\
  (reliable windows -> ok = true).
Proof.
  intros Hd Hs Hdir. unfold TlsSetValue. destruct (os_tls_set_ok _ _ _) eqn:Hok; intros [= <- <-].
  - split_and!; [|by apply called_grown|by subst slot|done].
    unfold slot_value. cbn [called windows_tcb_slot tls_values]. rewrite Hd, Hs, Hdir. cbn [andb].
    by rewrite Z.eqb_refl.
  - split_and!; [done|by apply called_grown|by subst slot|]. intros Hr. by rewrite Hr in Hok.
Qed.

#[export] Instance windows_segment :
  SegmentLaws (ScopedGuestSegment windows) (leave_segment windows) (current_base windows)
    (held windows) (ready windows) (reliable windows).
Proof.
  split.
  - intros t tcb Hwf. unfold ScopedGuestSegment. destruct (get_windows_tcb_slot t) as [slot t1] eqn:Hg.
    apply tcb_slot_spec in Hg as (Hd & Hs & Hv & _ & _ & Hgr); [|done]. change (held windows) with slot_value.
    destruct (direct slot) eqn:Hdir; pose proof Hdir as Hdir'; unfold direct in Hdir';
      [apply negb_true_iff in Hdir' as ->|apply negb_false_iff in Hdir' as ->].
    + destruct (TlsSetValue t1 slot tcb) as [ok t2] eqn:Hset.
      apply TlsSetValue_spec in Hset as (Hv2 & Hg2 & Hr2 & Hok); [|done..]. destruct ok.
      * split_and!; [|done|done|by etrans]. rewrite <- Hv. unfold slot_value. by rewrite Hd, Hs, Hdir.
      * split_and!; [congruence|by etrans|]. intros Hr. by specialize (Hok Hr).
    + split_and!; [done..|]. intros _ Hr. apply (gw_ready _ _ _ Hgr) in Hr as [_ Hr]. congruence.
  - intros t previous Hwf [Hd Hdir]. unfold leave_segment, get_windows_tcb_slot. rewrite Hd.
    destruct (TlsSetValue t _ previous) as [ok t2] eqn:Hset.
    apply TlsSetValue_spec in Hset as (Hv2 & Hg2 & _ & Hok); [|done..]. destruct ok; [done|].
    intros Hr. by specialize (Hok Hr).
  - intros t Hwf. unfold current_base. destruct (get_windows_tcb_slot t) as [slot t1] eqn:Hg.
    apply tcb_slot_spec in Hg as (Hd & Hs & Hv & _ & _ & Hgr); [|done]. change (held windows) with slot_value.
    destruct (direct slot) eqn:Hdir; pose proof Hdir as Hdir'; unfold direct in Hdir';
      [apply negb_true_iff in Hdir' as ->|apply negb_false_iff in Hdir' as ->]; cbn [fst snd].
    + assert (tls_values t1 slot = slot_value t) as -> by (rewrite <- Hv; unfold slot_value; by rewrite Hd, Hs, Hdir).
      split_and!; auto.
    + split_and!; auto. intros _ Hr. apply (gw_ready _ _ _ Hgr) in Hr as [_ Hr]. congruence.
Qed.

#[export] Instance platform_segment p :
  SegmentLaws (ScopedGuestSegment p) (leave_segment p) (current_base p) (held p) (ready p) (reliable p).
Proof. destruct p; apply _. Qed.

(** ** Scopes *)

(** The innermost values of a thread. *)
Definition env_of (p : Platform) (t : HostThread) : Env :=
  mkEnv (current_context t) (current_manager t) (current_thread_handle t) (held p t).

(** A computation that leaves the thread as it found it. *)
Definition restores {A} (p : Platform) (t : HostThread) (o : outcome A) : Prop :=
  match o with
  | returned _ t' | raised _ t' => env_of p t' = env_of p t /\ grown (ready p) t t'
  | aborted => ~ reliable p
  end.

Lemma restores_trans {A} p t t' (o : outcome A) :
  env_of p t' = env_of p t -> grown (ready p) t t' -> restores p t' o -> restores p t o.
Proof.
  intros He Hg. destruct o; cbn; [|..|done]; (intros [He' Hg']; split; [congruence|by etrans]).
Qed.

Lemma bind_restores {A B} p (m : hosted A) (f : A -> hosted B) t :
  slots_wf t -> restores p t (m t).2 ->
  (forall a t', slots_wf t' -> restores p t' (f a t').2) -> restores p t ((m ≫= f) t).2.
Proof.
  intros Hwf Hm Hf. unfold mbind, hosted_bind. destruct (m t) as [log [a t'|e t'|]]; cbn in *; [|done..].
  destruct Hm as [He Hg]. specialize (Hf a t' (gw_wf _ _ _ Hg Hwf)). destruct (f a t') as [log' o].
  by eapply restores_trans.
Qed.

Lemma env_set_manager p t manager handle :
  env_of p (set_manager t manager handle) = mkEnv (current_context t) manager handle (held p t).
Proof. by destruct p. Qed.

Lemma env_set_context p t context :
  env_of p (set_context t context) = mkEnv context (current_manager t) (current_thread_handle t) (held p t).
Proof. by destruct p. Qed.

Lemma manager_restores {A} p manager handle (body : hosted A) t :
  slots_wf t -> (forall t, slots_wf t -> restores p t (body t).2) ->
  restores p t (with_scope (ScopedGuestThreadManager manager handle) leave_manager body t).2.
Proof.
  intros Hwf Hb. unfold with_scope, ScopedGuestThreadManager.
  assert (slots_wf (set_manager t manager handle)) as Hwf' by (destruct Hwf; by split).
  specialize (Hb _ Hwf'). destruct (body _) as [log [a t'|e t'|]]; cbn in *; [..|done];
    (destruct Hb as [He [G1 G2 G3 G4 G5]]; split;
     [rewrite env_set_manager in He |- *; injection He as ? _ _ ?; unfold env_of; congruence|
      split; [done..| |]; [intros _; by destruct (G4 Hwf')|destruct p; [done|intros [? ?]; by apply G5]]]).
Qed.

Lemma context_restores {A} p context (body : hosted A) t :
  slots_wf t -> (forall t, slots_wf t -> restores p t (body t).2) ->
  restores p t (with_scope (ScopedGuestThreadContext context) leave_context body t).2.
Proof.
  intros Hwf Hb. unfold with_scope, ScopedGuestThreadContext.
  assert (slots_wf (set_context t context)) as Hwf' by (destruct Hwf; by split).
  specialize (Hb _ Hwf'). destruct (body _) as [log [a t'|e t'|]]; cbn in *; [..|done];
    (destruct Hb as [He [G1 G2 G3 G4 G5]]; split;
     [rewrite env_set_context in He |- *; injection He as _ ? ? ?; unfold env_of; congruence|
      split; [done..| |]; [intros _; by destruct (G4 Hwf')|destruct p; [done|intros [? ?]; by apply G5]]]).
Qed.

Lemma segment_restores {A} p tcb (body : hosted A) t :
  slots_wf t -> (forall t, slots_wf t -> restores p t (body t).2) ->
  restores p t (with_scope (ScopedGuestSegment p tcb) (leave_segment p) body t).2.
Proof.
  intros Hwf Hb. unfold with_scope. pose proof (sl_bind (SegmentLaws := platform_segment p) t tcb Hwf) as Hbind.
  destruct (ScopedGuestSegment p tcb t) as [previous t1|e t1|]; cbn [snd]; [| |done].
  2: { destruct Hbind as (Hh & Hg & _). split; [|done]. destruct Hg. unfold env_of. congruence. }
  destruct Hbind as (-> & Hh & Hr & Hg). pose proof (gw_wf _ _ _ Hg Hwf) as Hwf1. specialize (Hb _ Hwf1).
  destruct (body t1) as [log [a t2|e t2|]]; cbn in *; [..|done];
    (destruct Hb as [He Hg2]; pose proof (sl_unbind (SegmentLaws := platform_segment p) t2 (held p t) (gw_wf _ _ _ Hg2 Hwf1) (gw_ready _ _ _ Hg2 Hr)) as Hu;
     destruct (leave_segment p (held p t) t2) as [t3|]; cbn; [|done];
     destruct Hu as [Hh3 Hg3]; split; [|etrans; [exact Hg|by etrans]];
     unfold env_of in *; rewrite Hh3; destruct Hg, Hg2, Hg3; congruence).
Qed.

Lemma host_restores p a t : slots_wf t -> restores p t (run_host p a t).2.
Proof.
  revert t. induction a as [| |e|a IHa b IHb|a IHa|m h a IHa|c a IHa|tcb a IHa|]; intros t Hwf; cbn [run_host].
  - done.
  - unfold look. pose proof (sl_current (SegmentLaws := platform_segment p) t Hwf) as (Hh & Hg & _). destruct (current_base p t) as [o t'].
    cbn in *. split; [|done]. unfold env_of. destruct Hg. congruence.
  - done.
  - apply bind_restores; auto.
  - specialize (IHa t Hwf). by destruct (run_host p a t) as [log [u t'|e t'|]].
  - by apply manager_restores.
  - by apply context_restores.
  - by apply segment_restores.
  - unfold windows_host_stack_teb_offset. destruct (get_windows_host_stack_slot t) as [slot t'] eqn:Hg.
    apply host_slot_spec in Hg as (_ & _ & Hv & Hgs & Hg); [|done]. cbn.
    destruct p; (split; [unfold env_of; destruct Hg; cbn; congruence|]); [|done].
    by destruct Hg; split.
Qed.
End Segments.

(** ** The theorem *)

Section Lexical.
Context `{ThreadOs, !ThreadOsLaws}.

(** [supported()] settles the slot. *)
Lemma supported_ready p t t' :
  slots_wf t -> supported p t = (true, t') -> slots_wf t' /\ env_of p t' = env_of p t /\ ready p t'.
Proof.
  intros Hwf. destruct p; cbn [supported]; [by intros [= <-]|].
  unfold windows_guest_tcb_teb_offset. destruct (get_windows_tcb_slot t) as [slot t1] eqn:Hg.
  apply tcb_slot_spec in Hg as (Hd & Hs & Hv & _ & _ & Hg); [|done].
  unfold direct_teb_slot_offset. destruct (_ || _) eqn:Hdir; [done|]. intros [= <-].
  split; [by apply (gw_wf _ _ _ Hg)|]. split; [unfold env_of; cbn; destruct Hg; congruence|].
  split; [done|]. unfold direct. by rewrite Hs, Hdir.
Qed.

(** The same ending, but for the thread. *)
Definition ends_like (o : outcome unit) (e : option exn) : Prop :=
  match o, e with
  | returned _ _, None => True
  | raised e _, Some e' => e = e'
  | _, _ => False
  end.

(** A scope whose constructor and destructor do their work shows what its body
    does. *)
Lemma scope_lexical {P} p construct destroy (body : hosted unit) t (x : P) t1 log e :
  construct t = returned x t1 -> body t1 = (log, e) ->
  (forall t2, grown (ready p) t1 t2 -> is_Some (destroy x t2)) ->
  restores p t1 e -> reliable p ->
  exists o, with_scope construct destroy body t = (log, o) /\ forall e', ends_like e e' -> ends_like o e'.
Proof.
  intros Hc Hb Hd Hr Hrel. unfold with_scope. rewrite Hc, Hb. destruct e as [a t2|e t2|]; cbn in Hr; [..|done];
    (destruct Hr as [_ Hg]; destruct (Hd t2 Hg) as [t3 ->]; eexists; split; [done|]; by intros [e'|]).
Qed.

Lemma host_lexical p a t :
  slots_wf t -> reliable p -> ready p t ->
  (run_host p a t).1 = (lexical (env_of p t) a).1 /\
  ends_like (run_host p a t).2 (lexical (env_of p t) a).2.
Proof.
  intros Hwf Hrel. revert t Hwf.
  induction a as [| |e|a IHa b IHb|a IHa|m h a IHa|c a IHa|tcb a IHa|]; intros t Hwf Hr; cbn [run_host lexical].
  - done.
  - unfold look. pose proof (sl_current (SegmentLaws := platform_segment p) t Hwf) as (Hh & Hg & _ & Hb).
    specialize (Hb Hrel Hr). destruct (current_base p t) as [o t']. cbn in *. subst o. split; [|done].
    unfold env_view, env_of. cbn. destruct Hg. congruence.
  - done.
  - specialize (IHa t Hwf Hr) as [IHl IHe]. pose proof (host_restores p a t Hwf) as Hres.
    unfold mbind, hosted_bind. destruct (run_host p a t) as [log o], (lexical (env_of p t) a) as [log' e]. cbn in *.
    subst log'. destruct o as [u t'|e' t'|], e as [e''|]; try done. destruct Hres as [He Hg].
    specialize (IHb t' (gw_wf _ _ _ Hg Hwf) (gw_ready _ _ _ Hg Hr)) as [IHl' IHe']. rewrite He in IHl', IHe'.
    destruct (run_host p b t') as [log2 o2], (lexical (env_of p t) b) as [log3 e3]. cbn in *. by subst.
  - specialize (IHa t Hwf Hr) as [IHl IHe].
    destruct (run_host p a t) as [log [u t'|e' t'|]], (lexical (env_of p t) a) as [log' [e|]]; done.
  - assert (slots_wf (set_manager t m h)) as Hwf' by (destruct Hwf; by split).
    assert (ready p (set_manager t m h)) as Hr' by (destruct p; [done|by destruct Hr]).
    destruct (IHa _ Hwf' Hr') as [IHl IHe]. pose proof (host_restores p a _ Hwf') as Hres.
    destruct (run_host p a (set_manager t m h)) as [log o] eqn:Ha. rewrite env_set_manager in IHl, IHe.
    destruct (scope_lexical p (ScopedGuestThreadManager m h) leave_manager (run_host p a) t _ _ log o eq_refl Ha)
      as (o' & -> & Ho); [by eexists|done|done|]. split; [exact IHl|]. apply Ho, IHe.
  - assert (slots_wf (set_context t c)) as Hwf' by (destruct Hwf; by split).
    assert (ready p (set_context t c)) as Hr' by (destruct p; [done|by destruct Hr]).
    destruct (IHa _ Hwf' Hr') as [IHl IHe]. pose proof (host_restores p a _ Hwf') as Hres.
    destruct (run_host p a (set_context t c)) as [log o] eqn:Ha. rewrite env_set_context in IHl, IHe.
    destruct (scope_lexical p (ScopedGuestThreadContext c) leave_context (run_host p a) t _ _ log o eq_refl Ha)
      as (o' & -> & Ho); [by eexists|done|done|]. split; [exact IHl|]. apply Ho, IHe.
  - pose proof (sl_bind (SegmentLaws := platform_segment p) t tcb Hwf) as Hbind.
    destruct (ScopedGuestSegment p tcb t) as [previous t1|e t1|] eqn:Hc; [| |done].
    2: { destruct Hbind as (_ & _ & Hn). by destruct (Hn Hrel). }
    destruct Hbind as (-> & Hh & Hr1 & Hg). pose proof (gw_wf _ _ _ Hg Hwf) as Hwf1.
    destruct (IHa _ Hwf1 Hr1) as [IHl IHe]. pose proof (host_restores p a _ Hwf1) as Hres.
    assert (env_of p t1 = mkEnv (current_context t) (current_manager t) (current_thread_handle t) tcb) as He
      by (unfold env_of; destruct Hg; congruence).
    rewrite He in IHl, IHe. destruct (run_host p a t1) as [log o] eqn:Ha.
    destruct (scope_lexical p (ScopedGuestSegment p tcb) (leave_segment p) (run_host p a) t _ _ log o Hc Ha)
      as (o' & -> & Ho); [|done|done|split; [exact IHl|apply Ho, IHe]].
    intros t2 Hg2.
    pose proof (sl_unbind (SegmentLaws := platform_segment p) t2 (held p t) (gw_wf _ _ _ Hg2 Hwf1)
      (gw_ready _ _ _ Hg2 Hr1)) as Hu.
    by destruct (leave_segment p (held p t) t2).
  - done.
Qed.

(** C22: The scopes of a host thread are lexical.  Whatever a program of nested
    scopes, look-ups, exceptions and handlers does and whichever system calls
    fail, afterwards the thread's context, manager, handle and segment base are
    those it started with; only a failing system call can end the process in a
    destructor.  When [supported()] has answered true and no call fails, every
    look-up sees the values of the innermost scopes around it and the exceptions
    are those the program throws: a semantics that passes an environment and has
    no state says the same.  On Linux the base is in GS, on Windows in a TLS
    slot, which the slot of the host's stack pointer never shares. *)
Theorem scopes_are_lexical p a t log o :
  slots_wf t -> run_host p a t = (log, o) ->
  (match o with
   | returned _ t' | raised _ t' => env_of p t' = env_of p t
   | aborted => ~ reliable p
   end) /\
  (reliable p -> (exists t0, slots_wf t0 /\ supported p t0 = (true, t)) ->
   log = (lexical (env_of p t) a).1 /\ ends_like o (lexical (env_of p t) a).2).
Proof.
  intros Hwf Hrun. split.
  - pose proof (host_restores p a t Hwf) as Hr. rewrite Hrun in Hr. destruct o; [by destruct Hr..|done].
  - intros Hrel (t0 & Hwf0 & Hs). apply supported_ready in Hs as (_ & _ & Hready); [|done].
    pose proof (host_lexical p a t Hwf Hrel Hready) as Hl. by rewrite Hrun in Hl.
Qed.

Lemma direct_offset_Some slot a :
  direct_teb_slot_offset slot = Some a ->
  slot <> TLS_OUT_OF_INDEXES /\ slot < 64 /\ (0 <= slot -> a = 0x1480 + 8 * slot).
Proof.
  unfold direct_teb_slot_offset. destruct (_ || _) eqn:E; [done|]. apply orb_false_iff in E as [E1 E2].
  rewrite Z.eqb_neq in E1. rewrite Z.leb_gt in E2. unfold kDirectTebTlsSlotCount, kTebTlsSlotsOffset in *.
  intros [= <-]. split; [done|]. split; [done|]. intros Hs.
  rewrite (wrap32_small (slot * 8)), wrap32_small by (unfold in_u32; lia). lia.
Qed.

(** The slots of the two purposes have places in the TEB that do not meet, and
    asking again gives the same answers. *)
Theorem teb_offsets_are_settled t tcb_offset t1 host_offset t2 :
  slots_wf t -> windows_guest_tcb_teb_offset t = (tcb_offset, t1) ->
  windows_host_stack_teb_offset t1 = (host_offset, t2) ->
  windows_guest_tcb_teb_offset t2 = (tcb_offset, t2) /\ windows_host_stack_teb_offset t2 = (host_offset, t2) /\
  (forall a b, tcb_offset = Some a -> host_offset = Some b ->
     0x1480 <= a <= 0x1678 /\ 0x1480 <= b <= 0x1678 /\ (a + 8 <= b \/ b + 8 <= a)).
Proof.
  intros Hwf. unfold windows_guest_tcb_teb_offset, windows_host_stack_teb_offset.
  destruct (get_windows_tcb_slot t) as [s1 u1] eqn:H1. intros [= <- <-].
  apply tcb_slot_spec in H1 as (Hd1 & Hs1 & _ & _ & _ & Hg1); [|done].
  destruct (get_windows_host_stack_slot u1) as [s2 u2] eqn:H2. intros [= <- <-].
  pose proof (gw_wf _ _ _ Hg1 Hwf) as Hwf1.
  assert (windows_tcb_slot u2 = windows_tcb_slot u1) as Hsame.
  { revert H2. unfold get_windows_host_stack_slot. destruct (so_done (windows_host_stack_slot u1)); [intros E; by injection E as _ <-|].
    destruct (TlsAlloc u1) as [[? ?] ?]. intros E. by injection E as _ <-. }
  apply host_slot_spec in H2 as (Hd2 & Hs2 & _ & _ & Hg2); [|done].
  pose proof (gw_wf _ _ _ Hg2 Hwf1) as [Ht Hh Hr Ha]. rewrite Hsame in *.
  unfold get_windows_tcb_slot, get_windows_host_stack_slot. rewrite Hsame, Hd1, Hd2, Hs1, Hs2.
  split; [done|]. split; [done|]. intros a b E1 E2.
  apply direct_offset_Some in E1 as (E1 & Hlt1 & E1'), E2 as (E2 & Hlt2 & E2').
  rewrite Hs1, Hs2 in Ha. specialize (Ha Hd1 Hd2 E1).
  assert (0 <= s1) by (apply Hr; rewrite <- Hs1; apply Ht; congruence).
  assert (0 <= s2) by (apply Hr; rewrite <- Hs2; apply Hh; congruence).
  specialize (E1' ltac:(lia)). specialize (E2' ltac:(lia)). lia.
Qed.
End Lexical.

(** ** The witness *)

(** A system that never fails; its slots are handed out from 3 on. *)
Definition small_os : ThreadOs := {|
  get_gs_ok := fun _ => true;
  set_gs_ok := fun _ _ => true;
  os_tls_alloc := fun used => if bool_decide (3 ∉ used) then 3 else if bool_decide (4 ∉ used) then 4 else TLS_OUT_OF_INDEXES;
  os_tls_set_ok := fun _ _ _ => true |}.

Lemma small_os_laws : @ThreadOsLaws small_os.
Proof.
  intros used. cbn. case_bool_decide; [right; split; [lia|done]|].
  case_bool_decide; [right; split; [lia|done]|by left].
Qed.

Lemma HostThread_init_wf : slots_wf HostThread_init.
Proof. by split. Qed.

(** Two nested segments; the inner one is left by an exception. *)
Definition scoped_host : Host :=
  host_context 16 (host_segment 24 (host_seq host_stack_offset
    (host_seq (host_try (host_context 48 (host_segment 56 (host_seq host_look (host_throw (runtime_error "guest"))))))
       host_look))).

Definition small_thread : HostThread := (@supported small_os windows HostThread_init).2.

Lemma scopes_are_lexical_witness :
  (@run_host small_os windows scoped_host small_thread).1 =
    [mkView 48 0 0 (Some 56); mkView 16 0 0 (Some 24)].
Proof.
  destruct (@scopes_are_lexical small_os small_os_laws windows scoped_host small_thread _ _
    ltac:(apply (@supported_ready small_os small_os_laws windows HostThread_init); [exact HostThread_init_wf|reflexivity])
    (surjective_pairing _)) as [_ Hl].
  destruct (Hl ltac:(intros n slot value; reflexivity)
    ltac:(exists HostThread_init; split; [exact HostThread_init_wf|reflexivity])) as [-> _].
  reflexivity.
Defined.
