(* ===== verification/Execution.v ===== *)
(** * Execution states

    What [Runtime::initialize_program], [finalize_program], [invoke_entry]
    ([src/src/runtime/runtime.cpp]) and [GuestThread::start]
    ([src/src/runtime/guest_thread.cpp]) set up before they call the guest: a
    stack, a trampoline and a thread context; the worker of a guest thread, with
    its scopes; and [GuestThread::join].

    The memory of the arenas is the [HostMem] of NativeArena.v, the buffers of
    the context are on the heap of Tls.v.  [invoke] in the worker stands for
    [invoke_guest_captured], which Fault.v models on the processor. *)

From S2P Require Import Prelude NativeArena X86 NativeThread NativeThreadProps Fault Tls Scopes ScopesProps.

Local Open Scope Z_scope.

(** ** Preparing *)

Record Execution : Type := mkExecution {
  ex_stack : GuestStack;
  ex_trampoline : EntryTrampoline;
  ex_context : GuestThreadContext;
}.

Definition release_if (arena : option NativeArena) (h : HostMem) : HostMem :=
  match arena with Some arena => release arena h | None => h end.

Section Prepare.
Context `{HostOs, Allocator}.

(** The three locals; when one is missing the others are destroyed.  [self] is
    the place of the context's control block. *)
Definition prepare_execution (self : Z) (h : HostMem) (hp : heap) (registry : TlsRegistry)
    (stack_size : Z) : result (option Execution * (HostMem * heap)) :=
  let '(stack, h) := create_stack h stack_size 1 in
  '(trampoline, h) ← create_trampoline h;
  context ← create self hp registry;
  match stack, trampoline, context with
  | Some stack, Some trampoline, Some (context, hp) =>
      Ok (Some (mkExecution stack trampoline context), (h, hp))
  | _, _, _ =>
      Ok (None, (release_if (gst_arena <$> stack) (release_if (et_code <$> trampoline) h), hp))
  end.

(** ** Guest threads *)

(** [GuestThread::State]; [gt_self] is the address of the context. *)
Record GuestThreadState : Type := mkGuestThreadState {
  gt_execution : Execution;
  gt_result : GuestInvocationResult;
  gt_host_exception : option exn;
  gt_finished : bool;
}.

(** [GuestThread::start], up to the creation of the worker: the locals are moved
    into the state, whose context has its control block at [state_self]. *)
Definition start_guest_thread (self state_self : Z) (h : HostMem) (hp : heap) (registry : TlsRegistry)
    (entry stack_size : Z) : result (option GuestThreadState * (HostMem * heap)) :=
  if entry =? 0 then Ok (None, (h, hp))
  else
    '(execution, after) ← prepare_execution self h hp registry stack_size;
    match execution with
    | None => Ok (None, after)
    | Some e =>
        Ok (Some (mkGuestThreadState
                    (mkExecution (ex_stack e) (ex_trampoline e) (fst (move_context state_self (ex_context e))))
                    (mkInvocation 0 None) None false), after)
    end.

End Prepare.

(** The worker: the scopes around the call of the guest; whatever is thrown
    becomes the state's exception. *)
Definition worker `{ThreadOs} (p : Platform) (manager handle context : Z) (s : GuestThreadState)
    (invoke : hosted GuestInvocationResult) : hosted GuestThreadState := fun t =>
  match guest_scopes p manager handle context (tcb_self (tcb_ (ex_context (gt_execution s)))) invoke t with
  | (log, returned r t) =>
      (log, returned (mkGuestThreadState (gt_execution s) r (gt_host_exception s) true) t)
  | (log, raised e t) =>
      (log, returned (mkGuestThreadState (gt_execution s) (gt_result s) (Some e) true) t)
  | (log, aborted) => (log, aborted)
  end.

(** [GuestThread::join], after the worker has ended. *)
Definition join_guest_thread (state : option GuestThreadState) : result GuestInvocationResult :=
  match state with
  | None => Throw (runtime_error "guest thread has no execution state")
  | Some s => match gt_host_exception s with Some e => Throw e | None => Ok (gt_result s) end
  end.

(** ** A prepared execution can be entered *)

(** The host's side of a call: its registers, room for the trampoline's frame on
    its stack and a recovery record, all apart from the guest's stack. *)
Record host_ready (s : GuestStack) (recovery : Z) (c : Cpu) : Prop := {
  hd_regs r : in_u64 (cpu_reg c r);
  hd_rip : in_u64 (cpu_rip c);
  hd_stack : 56 <= cpu_reg c rsp;
  hd_write : host_allows PROT_WRITE (cpu_mem c) (cpu_reg c rsp - 56) 56 = true;
  hd_read : host_allows PROT_READ (cpu_mem c) (cpu_reg c rsp - 56) 56 = true;
  hd_apart : cpu_reg c rsp <= gst_base s \/ stack_top s <= cpu_reg c rsp - 56;
  hd_record : recovery <> 0 ->
    host_allows PROT_WRITE (cpu_mem c) recovery 8 = true /\
    (recovery + 8 <= cpu_reg c rsp - 56 \/ cpu_reg c rsp <= recovery) /\
    (recovery + 8 <= gst_base s \/ stack_top s <= recovery);
}.

Section Entering.
Context `{HostOs, !HostOsLaws H, Hal : Allocator}.

Lemma create_stack_arena h usable_size guard_pages s h' :
  in_u64 usable_size -> 0 <= guard_pages -> create_stack h usable_size guard_pages = (Some s, h') ->
  arena_base (gst_arena s) <= gst_base s /\
  gst_base s + gst_size s <= arena_base (gst_arena s) + arena_size (gst_arena s) /\
  arena_base (gst_arena s) + arena_size (gst_arena s) <= u64_max.
Proof.
  intros Hu Hg. unfold create_stack. pose proof page_size_pos as Hpage.
  destruct (checked_align_up usable_size page_size) as [rounded|] eqn:Hr; [|done].
  apply checked_align_up_Some in Hr as (Hr & _ & Hru & _); [|done|unfold in_u64; lia].
  destruct (Z.ltb_spec (u64_max / page_size) guard_pages); [done|].
  destruct (Z.ltb_spec (u64_max - rounded) (guard_pages * page_size)); [done|].
  destruct (reserve _ _ _) as [[arena h1]|] eqn:Hres; [|done].
  assert (0 <= guard_pages * page_size) as Hnn by (apply Z.mul_nonneg_nonneg; lia).
  apply reserve_spec in Hres as (Hsz & _ & _ & Htop & _); [|unfold in_u64 in *; lia].
  destruct (arena_protect _ _ _ _ _) as [[] h2]; [|done]. intros [= <- <-]. cbn [gst_arena gst_base gst_size]. lia.
Qed.

Lemma create_stack_low h usable_size guard_pages s h' :
  in_u64 usable_size -> 0 <= guard_pages -> create_stack h usable_size guard_pages = (Some s, h') ->
  gst_base s = arena_base (gst_arena s) + guard_pages * page_size.
Proof.
  intros Hu Hg. unfold create_stack. destruct (checked_align_up _ _) as [rounded|]; [|done].
  destruct (_ <? _); [done|]. destruct (_ <? _); [done|]. destruct (reserve _ _ _) as [[arena h1]|]; [|done].
  destruct (arena_protect _ _ _ _ _) as [[] h2]; [|done]. by intros [= <- <-].
Qed.

(** Creating the trampoline leaves alone what its own page does not meet. *)
Lemma create_trampoline_inside h o h' :
  create_trampoline h = Ok (o, h') ->
  (o = None /\ h' = h) \/ exists arena h1, reserve h page_size 0 = Some (arena, h1) /\ inside arena h h'.
Proof.
  pose proof page_size_pos as Hpage. assert (in_u64 page_size) as Hps by (unfold in_u64; lia).
  unfold create_trampoline. destruct build_entry_trampoline as [code offset].
  destruct (_ || _); [intros [= <- <-]; by left|].
  destruct (reserve h page_size 0) as [[arena h1]|] eqn:Hres; [|intros [= <- <-]; by left].
  intros Hc. right. exists arena, h1. split; [done|]. apply reserve_inside in Hres; [|done].
  destruct (arena_protect arena h1 0 page_size _) as [ok1 h2] eqn:Hp1. apply protect_inside in Hp1; [|done..].
  assert (inside arena h h2) as Hin2 by (etrans; [exact Hres|exact Hp1]).
  destruct ok1; cbn [negb] in Hc.
  2: { injection Hc as <- <-. etrans; [exact Hin2|apply release_inside]. }
  apply bind_Ok in Hc as ([ok2 h3] & Hcp & Hc). apply copy_inside in Hcp; [|done].
  assert (inside arena h h3) as Hin3 by (etrans; [exact Hin2|exact Hcp]).
  destruct (negb ok2).
  { injection Hc as <- <-. etrans; [exact Hin3|apply release_inside]. }
  destruct (negb (arena_flush _ _ _)).
  { injection Hc as <- <-. etrans; [exact Hin3|apply release_inside]. }
  destruct (arena_protect arena h3 0 page_size _) as [ok4 h4] eqn:Hp4. apply protect_inside in Hp4; [|done..].
  assert (inside arena h h4) as Hin4 by (etrans; [exact Hin3|exact Hp4]).
  destruct (negb ok4); injection Hc as <- <-; [etrans; [exact Hin4|apply release_inside]|exact Hin4].
Qed.
End Entering.

Section Entered.
Context `{HostOs, !HostOsLaws H, Hal : Allocator, !AllocatorLaws}.

(** [mmap] answers a range that the stack is not in. *)
Definition trampoline_apart (h : HostMem) (stack_size : Z) : Prop :=
  forall s h1 size arena h2, create_stack h stack_size 1 = (Some s, h1) ->
    reserve h1 size 0 = Some (arena, h2) ->
    arena_base (gst_arena s) + arena_size (gst_arena s) <= arena_base arena \/
    arena_base arena + arena_size arena <= arena_base (gst_arena s).

(** A stack and a trampoline that are both in place. *)
Record prepared (s : GuestStack) (t : EntryTrampoline) (h : HostMem) : Prop := {
  pr_top : stack_top s = gst_base s + gst_size s;
  pr_range : 0 < gst_base s /\ stack_top s <= u64_max;
  pr_stack a : gst_base s <= a < stack_top s -> hm_prot h a = Z.lor PROT_READ PROT_WRITE;
  pr_guard a : gst_base s - page_size <= a < gst_base s -> hm_prot h a = PROT_NONE;
  pr_trampoline : trampoline_in t h;
}.

Lemma prepare_execution_spec self h hp registry stack_size e h' hp' :
  in_u64 stack_size -> trampoline_apart h stack_size ->
  prepare_execution self h hp registry stack_size = Ok (Some e, (h', hp')) ->
  prepared (ex_stack e) (ex_trampoline e) h' /\ stack_size <= gst_size (ex_stack e) /\
  create self hp registry = Ok (Some (ex_context e, hp')).
Proof.
  intros Hs Hap. unfold prepare_execution. destruct (create_stack h stack_size 1) as [stack h1] eqn:Hst.
  intros Hp. apply bind_Ok in Hp as ([trampoline h2] & Htr & Hp). apply bind_Ok in Hp as (context & Hc & Hp).
  destruct stack as [stack|]; [|done]. destruct trampoline as [t|]; [|done].
  destruct context as [[context hp1]|]; [|done]. injection Hp as <- <- <-.
  cbn [ex_stack ex_trampoline ex_context].
  assert (0 <= 1) as H01 by done. assert (0 <= stack_size) as Hnn by (unfold in_u64 in *; lia).
  pose proof (create_stack_guards _ _ _ _ _ Hs H01 Hst) as (Hsz & Hb & Htop & _ & _ & Hrw & Hguard).
  pose proof (create_stack_arena _ _ _ _ _ Hs H01 Hst) as (Ha1 & Ha2 & Ha3).
  pose proof (create_trampoline_code _ _ _ Htr) as (Hcode & Hbase & Hrec).
  assert (forall a, arena_base (gst_arena stack) <= a < arena_base (gst_arena stack) + arena_size (gst_arena stack) ->
    hm_prot h2 a = hm_prot h1 a) as Hprot.
  { apply create_trampoline_inside in Htr as [[? _]|(arena & h3 & Hres & Hin)]; [done|].
    intros a Ha. apply Hin. specialize (Hap _ _ _ _ _ Hst Hres). lia. }
  pose proof (create_stack_low _ _ _ _ _ Hs H01 Hst) as Hlow.
  split; [|split; [lia|done]]. split.
  - exact Htop.
  - rewrite Htop. pose proof page_size_pos. lia.
  - intros a Ha. rewrite Htop in Ha. rewrite Hprot by lia. apply Hrw. lia.
  - intros a Ha. rewrite Hprot by lia. apply Hguard. lia.
  - split; [exact Hbase|exact Hcode|exact Hrec].
Qed.

(** The call of a prepared execution starts in a state that is ready. *)
Lemma prepared_ready s t h c entry a0 a1 a2 recovery :
  prepared s t h -> 48 <= gst_size s -> cpu_mem c = h -> host_ready s recovery c ->
  entry <> 0 -> in_u64 entry -> in_u64 a0 -> in_u64 a1 -> in_u64 a2 -> in_u64 recovery ->
  exists c1, invoke t c entry (stack_top s) a0 a1 a2 recovery = Ok (Some c1) /\ NativeThreadProps.ready c1 /\
    cpu_reg c1 rsi = stack_top s /\ cpu_gs c1 = cpu_gs c.
Proof.
  intros [Htop [Hb Hmax] Hrw _ Ht] Hsz <- [Hu Hip H56 Hw Hr Hap Hrec] He He' Hu0 Hu1 Hu2 Hurec.
  rewrite host_allows_true in Hw, Hr by lia. pose proof (Hu rsp) as Hrsp.
  assert (wrap64 (cpu_reg c rsp - 8) = cpu_reg c rsp - 8) as Hsp by (apply wrap64_small; unfold in_u64 in *; lia).
  unfold invoke. rewrite (proj2 (Z.eqb_neq (arena_base (et_code t)) 0)) by (pose proof (ti_base _ _ Ht); lia).
  rewrite (proj2 (Z.eqb_neq entry 0)), (proj2 (Z.eqb_neq (stack_top s) 0)) by lia. cbn [orb throw_if mbind result_bind].
  unfold host_call, push. cbn [cpu_reg set_reg cpu_rip]. read_regs. rewrite Hsp.
  rewrite store64_ok; cbn [cpu_mem set_reg].
  2: { apply host_allows_true; [lia|]. intros a Ha. apply Hw. lia. }
  eexists. split; [reflexivity|]. split; [|split; [reflexivity|done]].
  set (top := stack_top s) in *.
  assert (in_u64 top) as Hut by (unfold in_u64; lia).
  assert (0 <= top mod 16 < 16) as Hmod by (apply Z.mod_pos_bound; lia).
  split; cbn [cpu_reg cpu_mem set_rip set_mem set_reg]; unfold aligned_top, in_frame; cbn [cpu_reg set_rip set_mem set_reg];
    read_regs; rewrite ?Hsp.
  - intros r. unfold upd, in_u64 in *. repeat (case_match; [lia|]). apply Hu.
  - unfold in_u64 in *. lia.
  - apply host_allows_true; [lia|]. intros a Ha. apply Hw. lia.
  - apply host_allows_true; [lia|]. intros a Ha. apply Hr. lia.
  - lia.
  - apply host_allows_true; [lia|]. intros a Ha. cbn [hm_prot host_put]. rewrite Hrw by lia. done.
  - intros Hn. destruct (Hrec Hn) as (Hrw' & _). rewrite host_allows_true in Hrw' |- * by lia. exact Hrw'.
  - intros a Ha. lia.
  - intros a Hn Ha. destruct (Hrec Hn) as (_ & ? & ?). lia.
Qed.
End Entered.

Section EnteredTheorems.
Context `{HostOs, !HostOsLaws H, Hal : Allocator, !AllocatorLaws}.

Lemma GuestThreadContext_init_wf registry hp : context_wf registry hp GuestThreadContext_init.
Proof. split; cbn; [apply NoDup_nil_2|set_solver|set_solver|set_solver|by left]. Qed.

Lemma create_spec self hp registry context hp' :
  registry_wf registry -> create self hp registry = Ok (Some (context, hp')) ->
  context_wf registry hp' context /\ tcb_self (tcb_ context) = self /\
  forall m, m ∈ modules_ registry ->
    exists b, find_block context (tm_module_id m) = Some b /\ fresh_area m b.
Proof.
  intros Hw Hc. unfold create in Hc. apply bind_Ok in Hc as ([[ok c1] h1] & Hs & Hc).
  destruct ok; [|done]. injection Hc as <- <-.
  apply (synchronize_spec self registry) in Hs as (Hwf & (new & Hbl & Hnew) & _ & Hsy);
    [|done|apply GuestThreadContext_init_wf].
  destruct (Hsy eq_refl) as [[_ _ _ _ [Hself _]] Hall]. split; [done|]. split; [done|].
  intros m Hm. destruct (Hall m Hm) as [b Hb]. exists b. split; [done|].
  pose proof (find_block_Some _ _ _ Hb) as [Hin Hid]. rewrite Hbl in Hin. cbn in Hin.
  rewrite Forall_forall in Hnew. destruct (Hnew b Hin) as (m' & Hm' & Hid' & Hfr).
  assert (m' = m) as -> by (apply (module_unique registry); try done; congruence). done.
Qed.

(** C23: A prepared execution can be entered.  When the stack, the trampoline and
    the thread context have been created one after the other, the page below the
    stack has no access, the context's control block is where it says and every
    registered module has a fresh area; and a host whose own stack has room and
    is apart from the guest's can call [EntryTrampoline::invoke] at once: it
    does not throw, and the processor gets to the guest's entry point with the
    three arguments, a stack pointer inside the new stack and the segment base
    it had. *)
Theorem prepared_executions_can_be_entered self h hp registry stack_size e h' hp' :
  in_u64 stack_size -> 48 <= stack_size -> registry_wf registry -> trampoline_apart h stack_size ->
  prepare_execution self h hp registry stack_size = Ok (Some e, (h', hp')) ->
  (forall a, gst_base (ex_stack e) - page_size <= a < gst_base (ex_stack e) -> hm_prot h' a = PROT_NONE) /\
  tcb_self (tcb_ (ex_context e)) = self /\
  (forall m, m ∈ modules_ registry ->
     exists b, find_block (ex_context e) (tm_module_id m) = Some b /\ fresh_area m b) /\
  forall c entry a0 a1 a2 recovery,
    cpu_mem c = h' -> host_ready (ex_stack e) recovery c -> entry <> 0 ->
    Forall in_u64 [entry; a0; a1; a2; recovery] ->
    exists c1 ce,
      invoke (ex_trampoline e) c entry (stack_top (ex_stack e)) a0 a1 a2 recovery = Ok (Some c1) /\
      steps c1 ce /\ cpu_rip ce = entry /\
      cpu_reg ce rdi = a0 /\ cpu_reg ce rsi = a1 /\ cpu_reg ce rdx = a2 /\
      stack_contains (ex_stack e) (cpu_reg ce rsp) = true /\ cpu_gs ce = cpu_gs c.
Proof.
  intros Hs H48 Hw Hap Hp. apply prepare_execution_spec in Hp as (Hpr & Hsz & Hc); [|done..].
  apply create_spec in Hc as (_ & Hself & Hareas); [|done].
  split; [apply Hpr|]. split; [done|]. split; [done|].
  intros c entry a0 a1 a2 recovery Hm Hr He Hu.
  assert (in_u64 entry /\ in_u64 a0 /\ in_u64 a1 /\ in_u64 a2 /\ in_u64 recovery) as (U1 & U2 & U3 & U4 & U5)
    by (rewrite !Forall_cons in Hu; tauto).
  destruct (prepared_ready _ _ _ c entry a0 a1 a2 recovery Hpr ltac:(lia) Hm Hr He U1 U2 U3 U4 U5)
    as (c1 & Hi & Hrd & Hsi & Hgs).
  assert (trampoline_in (ex_trampoline e) (cpu_mem c)) as Ht by (rewrite Hm; apply Hpr).
  destruct (invoke_state _ _ _ _ _ _ _ _ _ Ht (hd_regs _ _ _ Hr rsp) (hd_rip _ _ _ Hr) Hi Hrd)
    as (Hc1 & Hip1 & (Hdi & _ & Hdx & Hcx & H8 & _) & _).
  destruct (run_entry _ c1 Hc1 Hip1 Hrd) as (ce & Hst & Hcl).
  pose proof (cl_args _ _ _ Hcl) as (Ha0 & Ha1 & Ha2). pose proof (cl_rsp _ _ _ Hcl) as Hspe.
  pose proof (cl_context _ _ _ Hcl) as (_ & _ & Hgse).
  exists c1, ce. split; [exact Hi|]. split; [exact Hst|]. split; [by rewrite (cl_rip _ _ _ Hcl)|].
  split; [by rewrite Ha0|]. split; [by rewrite Ha1|]. split; [by rewrite Ha2|].
  split; [|by rewrite Hgse].
  unfold stack_contains. unfold aligned_top in Hspe. rewrite Hsi in Hspe.
  pose proof (pr_top _ _ _ Hpr) as Htop.
  assert (0 <= stack_top (ex_stack e) mod 16 < 16) by (apply Z.mod_pos_bound; lia).
  apply andb_true_iff. split; [apply Z.leb_le|apply Z.ltb_lt]; lia.
Qed.
End EnteredTheorems.

(** ** The worker *)

Section WorkerTheorem.
Context `{ThreadOs, !ThreadOsLaws}.

(** What the worker's body finds. *)
Definition inside_scopes (p : Platform) (manager handle context tcb : Z) (t : HostThread) : Prop :=
  slots_wf t /\ Scopes.ready p t /\ env_of p t = mkEnv context manager handle tcb.

(** C24: A guest thread runs in its own context and ends with a result or an
    exception.  Whatever the invocation of the guest does, as long as it leaves
    the host thread's variables as it found them, and whichever system calls
    fail: unless the process ends because a call fails in a destructor, the
    worker marks the state finished, leaves no binding behind, and [join]
    answers the result of the invocation or rethrows what was thrown.  The
    invocation starts only with the thread's manager, handle, context and
    control block in place; it starts when no call fails and segments are
    supported. *)
Theorem guest_threads_run_in_their_context p manager handle context s (call : hosted GuestInvocationResult) t log o :
  slots_wf t -> gt_host_exception s = None ->
  (forall t, slots_wf t -> restores p t (call t).2) ->
  worker p manager handle context s call t = (log, o) ->
  match o with
  | aborted => ~ reliable p
  | raised _ _ => False
  | returned s' t' =>
      gt_finished s' = true /\ gt_execution s' = gt_execution s /\ env_of p t' = env_of p t /\
      ((exists tb, inside_scopes p manager handle context (tcb_self (tcb_ (ex_context (gt_execution s)))) tb /\
          match (call tb).2 with
          | returned r _ => join_guest_thread (Some s') = Ok r
          | raised e _ => join_guest_thread (Some s') = Throw e
          | aborted => False
          end) \/
       (exists e, join_guest_thread (Some s') = Throw e /\ (reliable p -> ~ Scopes.ready p t)))
  end.
Proof.
  intros Hwf Hex Hcall. unfold worker, guest_scopes.
  set (tcb := tcb_self _). set (t1 := set_manager t manager handle). set (t2 := set_context t1 context).
  assert (slots_wf t2) as Hwf2 by (destruct Hwf; by split).
  assert (Scopes.ready p t -> Scopes.ready p t2) as Hr2 by (by destruct p).
  assert (forall t, slots_wf t ->
    restores p t (with_scope (ScopedGuestSegment p tcb) (leave_segment p) call t).2) as Hseg
    by (intros; by apply segment_restores).
  assert (restores p t (guest_scopes p manager handle context tcb call t).2) as Hres
    by (apply manager_restores; [done|]; intros; by apply context_restores).
  pose proof (sl_bind (SegmentLaws := platform_segment p) t2 tcb Hwf2) as Hb. revert Hres.
  unfold guest_scopes, with_scope, ScopedGuestThreadManager, ScopedGuestThreadContext, leave_context, leave_manager.
  fold t1. fold t2.
  destruct (ScopedGuestSegment p tcb t2) as [previous t3|e t3|] eqn:Hbind; [| |done].
  - destruct Hb as (_ & Hh & Hr3 & Hg). pose proof (gw_wf _ _ _ Hg Hwf2) as Hwf3.
    assert (inside_scopes p manager handle context tcb t3) as Hin
      by (split; [done|split; [done|unfold env_of; rewrite Hh; by destruct Hg as [-> -> -> _ _]]]).
    destruct (call t3) as [log' [r t4|e t4|]] eqn:Hc.
    + destruct (leave_segment p previous t4) as [t5|]; intros Hres [= <- <-]; [|exact Hres].
      destruct Hres as [He _]. split_and!; [done|done|done|]. left. exists t3. split; [done|]. rewrite Hc. cbn.
      by rewrite Hex.
    + destruct (leave_segment p previous t4) as [t5|]; intros Hres [= <- <-]; [|exact Hres].
      destruct Hres as [He _]. split_and!; [done|done|done|]. left. exists t3. split; [done|]. by rewrite Hc.
    + by intros Hres [= <- <-].
  - destruct Hb as (_ & _ & Hn). intros [He _] [= <- <-]. split_and!; [done|done|done|]. right.
    exists e. split; [done|]. intros Hrel Hr. by apply (Hn Hrel), Hr2.
Qed.
End WorkerTheorem.

(** ** Witnesses *)

(** The host's stack ends at 65536. *)
Definition ready_memory : HostMem :=
  mkHostMem (fun _ => zero_byte) (fun _ => Z.lor PROT_READ PROT_WRITE) 0.

Definition small_prepared :=
  @prepare_execution step_host bump_alloc 5000 ready_memory [] two_modules 4096.
Definition small_execution : Execution :=
  match small_prepared with
  | Ok (Some e, _) => e
  | _ => mkExecution (mkGuestStack (mkNativeArena 0 0) 0 0) (mkEntryTrampoline (mkNativeArena 0 0) 0)
           GuestThreadContext_init
  end.
Definition small_ready : HostMem := match small_prepared with Ok (_, (h, _)) => h | _ => ready_memory end.
Definition small_heap : heap := match small_prepared with Ok (_, (_, hp)) => hp | _ => [] end.

Lemma small_prepares : small_prepared = Ok (Some small_execution, (small_ready, small_heap)).
Proof.
  assert (match small_prepared with Ok (Some _, _) => true | _ => false end = true) as Hb by (vm_compute; reflexivity).
  unfold small_execution, small_ready, small_heap. by destruct small_prepared as [[[e|] [h hp]]|e].
Qed.

Lemma small_apart : @trampoline_apart step_host ready_memory 4096.
Proof.
  intros s h1 size arena h2 Hs Hr.
  assert (match (@create_stack step_host ready_memory 4096 1).1 with
          | Some s => (arena_base (gst_arena s) =? 1048576) && (arena_size (gst_arena s) =? 8192)
          | None => false end = true) as Hb by (vm_compute; reflexivity).
  assert (hm_calls (@create_stack step_host ready_memory 4096 1).2 = 2%nat) as Hn by (vm_compute; reflexivity).
  rewrite Hs in Hb, Hn. cbn [fst snd] in Hb, Hn. apply andb_true_iff in Hb as [Hb1 Hb2].
  apply Z.eqb_eq in Hb1, Hb2. left. rewrite Hb1, Hb2. revert Hr. unfold reserve. rewrite Hn.
  destruct (checked_align_up size _) as [rounded|]; [|discriminate].
  cbn [os_mmap step_host negb Z.eqb andb]. destruct (_ && _); [|discriminate].
  intros [= <- <-]. cbn. lia.
Qed.

Definition small_cpu : Cpu :=
  mkCpu (upd (fun _ => 7) rsp 65536) (fun _ => 0) (mkFlags false false false false false) 0 5000 4096 small_ready.

Lemma small_host_ready : host_ready (ex_stack small_execution) 0 small_cpu.
Proof.
  assert (cpu_reg small_cpu rsp = 65536) as Hr by reflexivity.
  assert (gst_base (ex_stack small_execution) = 1052672) as Hg by (vm_compute; reflexivity).
  split; rewrite ?Hr, ?Hg.
  - intros r. cbn [small_cpu cpu_reg]. unfold upd, in_u64. destruct (r =? rsp); split; discriminate || reflexivity.
  - split; [discriminate|reflexivity].
  - discriminate.
  - vm_compute. reflexivity.
  - vm_compute. reflexivity.
  - left. discriminate.
  - intros Hn. by destruct Hn.
Qed.

Lemma prepared_executions_can_be_entered_witness :
  exists c1 ce, invoke (ex_trampoline small_execution) small_cpu 8192 (stack_top (ex_stack small_execution)) 1 2 3 0
                = Ok (Some c1) /\
    steps c1 ce /\ cpu_rip ce = 8192 /\ cpu_reg ce rdi = 1 /\ cpu_gs ce = 5000.
Proof.
  destruct (@prepared_executions_can_be_entered step_host step_host_laws bump_alloc bump_alloc_laws
    5000 ready_memory [] two_modules 4096 small_execution small_ready small_heap
    ltac:(vm_compute; split; [discriminate|reflexivity]) ltac:(vm_compute; discriminate)
    (proj1 (@tls_reachable_wf bump_alloc bump_alloc_laws _ _ _ _ (two_modules_reachable []))) small_apart small_prepares) as (_ & _ & _ & Hc).
  destruct (Hc small_cpu 8192 1 2 3 0 eq_refl small_host_ready ltac:(discriminate)
    ltac:(repeat constructor; vm_compute; discriminate)) as (c1 & ce & Hi & Hs & Hip & Hdi & _ & _ & _ & Hgs).
  exists c1, ce. split; [exact Hi|]. split; [exact Hs|]. split; [exact Hip|]. split; [exact Hdi|exact Hgs].
Defined.

(** A guest that answers 42 on a system whose calls succeed. *)
Definition small_state : GuestThreadState :=
  mkGuestThreadState small_execution (mkInvocation 0 None) None false.
Definition small_call : hosted GuestInvocationResult := fun t => ([], returned (mkInvocation 42 None) t).

Lemma guest_threads_run_in_their_context_witness :
  exists s' t', @worker small_os windows 16 32 48 small_state small_call small_thread = ([], returned s' t') /\
    gt_finished s' = true /\ join_guest_thread (Some s') = Ok (mkInvocation 42 None).
Proof.
  destruct (@worker small_os windows 16 32 48 small_state small_call small_thread) as [log [s' t'|e t'|]] eqn:Hw;
    [|discriminate Hw..].
  assert (slots_wf small_thread) as Hwf
    by (apply (@supported_ready small_os small_os_laws windows HostThread_init); [exact HostThread_init_wf|reflexivity]).
  destruct (@guest_threads_run_in_their_context small_os small_os_laws windows 16 32 48 small_state small_call
    small_thread log (returned s' t') Hwf eq_refl ltac:(intros; split; reflexivity) Hw) as (Hf & _ & _ & Hj).
  exists s', t'. assert (log = []) as -> by (by injection Hw as <- _ _). split; [reflexivity|]. split; [exact Hf|].
  destruct Hj as [(tb & _ & Hj)|(e & _ & Hn)]; [exact Hj|]. exfalso. apply Hn; [intros ? ? ?; reflexivity|by split].
Defined.
