(* ===== verification/KernelMem.v ===== *)
(** * The kernel services and guest memory

    The accessors of [src/src/runtime/kernel_services.cpp] (lines 1374 to
    1466) through which every service reads its arguments from guest memory and
    stores its results there, and the typeclass [GuestWords] that states what
    the handle tables and the synchronisation services rely on. *)

From Stdlib Require Import Strings.String Strings.Byte.
From S2P Require Import Prelude OrdMap NativeArena GuestMemory GuestMemoryProps.

Local Open Scope Z_scope.

Definition kMaxGuestPath := 1024.

(** [KernelServices::error]. *)
Definition error (value : Z) : Z := to_i32 value.

Definition kErrorEnoent := 0x80020002.
Definition kErrorEbadf := 0x80020009.
Definition kErrorEnomem := 0x8002000c.
Definition kErrorEacces := 0x8002000d.
Definition kErrorEfault := 0x8002000e.
Definition kErrorEinval := 0x80020016.
Definition kErrorEnotty := 0x80020019.
Definition kErrorEagain := 0x80020023.
Definition kErrorEnotsup := 0x8002002d.
Definition kErrorEnametoolong := 0x8002003f.

Definition kPosixEperm := 1.
Definition kPosixEbadf := 9.
Definition kPosixEdeadlk := 11.
Definition kPosixEnomem := 12.
Definition kPosixEbusy := 16.
Definition kPosixEinval := 22.
Definition kPosixEnotty := 25.
Definition kPosixEnotsup := 45.
Definition kPosixEtimedout := 60.
Definition kPosixEagain := 35.
Definition kPosixEoverflow := 84.

Record GuestTimespec : Type := mkGuestTimespec { ts_seconds : Z; ts_nanoseconds : Z }.

Definition guest_writable (s : space) (address size : Z) : bool :=
  if size =? 0 then true
  else
    match find s address with
    | None => false
    | Some region =>
        if negb (has (ri_protection region) prot_write) || (u64_max - size <? address) then false
        else wrap64 (address + size) <=? region_end region
    end.

(** The test the readers share: a readable region that holds the object. *)
Definition guest_readable (region : RegionInfo) : bool :=
  has (ri_protection region) prot_read || has (ri_protection region) prot_write.

Definition read_guest_u64 (s : space) (address : Z) : option Z :=
  match find s address with
  | None => None
  | Some region =>
      if negb (guest_readable region) || (u64_max - 8 <? address)
         || (region_end region <? wrap64 (address + 8))
      then None
      else
        let bytes := view s address 8 in
        if negb (zlen bytes =? 8) then None else Some (le_decode bytes)
  end.

Definition write_guest_u64 (s : space) (address value : Z) : result (bool * space) :=
  if negb (guest_writable s address 8) then Ok (false, s)
  else write s address (le_encode 8 value).

Definition write_guest_u32 (s : space) (address value : Z) : result (bool * space) :=
  if negb (guest_writable s address 4) then Ok (false, s)
  else write s address (le_encode 4 value).

Definition read_guest_timespec (s : space) (address : Z) : option GuestTimespec :=
  if (address =? 0) || (u64_max - 16 <? address) then None
  else
    match find s address with
    | None => None
    | Some region =>
        if negb (guest_readable region) || (region_end region <? wrap64 (address + 16)) then None
        else
          let bytes := view s address 16 in
          if negb (zlen bytes =? 16) then None
          else Some (mkGuestTimespec (to_i64 (le_decode (zslice bytes 0 8)))
                       (to_i64 (le_decode (zslice bytes 8 8))))
    end.

Definition write_guest_timespec (s : space) (address : Z) (value : GuestTimespec)
  : result (bool * space) :=
  if (address =? 0) || negb (guest_writable s address 16) then Ok (false, s)
  else write s address (le_encode 8 (ts_seconds value) ++ le_encode 8 (ts_nanoseconds value)).

Definition read_guest_c_string (s : space) (address : Z) : option string :=
  match find s address with
  | None => None
  | Some region =>
      if negb (guest_readable region) || (address <? ri_base region)
         || (region_end region <=? address)
      then None
      else
        let available := Z.min (wrap64 (region_end region - address)) kMaxGuestPath in
        let bytes := view s address available in
        match list_find (fun b => b = zero_byte) bytes with
        | None => None
        | Some (length, _) => Some (string_of_list_byte (take length bytes))
        end
  end.

(** ** The words of guest memory *)

(** Eight-byte words that do not overlap. *)
Definition words_apart (a b : Z) : Prop := a + 8 <= b \/ b + 8 <= a.

Class GuestWords (M : Type) : Type := {
  gw_wf : M -> Prop;
  gw_writable : M -> Z -> Z -> bool;
  gw_read64 : M -> Z -> option Z;
  gw_write64 : M -> Z -> Z -> result (bool * M);
  gw_write32 : M -> Z -> Z -> result (bool * M);
  gw_read_timespec : M -> Z -> option GuestTimespec;
}.

(** A store succeeds exactly where the memory is writable, is read back, and
    disturbs no word apart from it. *)
Record store_effect {M} `{GuestWords M} (m m' : M) (size a : Z) (ok : bool) : Prop := {
  se_ok : ok = gw_writable m a size;
  se_wf : gw_wf m';
  se_writable b n : gw_writable m' b n = gw_writable m b n;
  se_fail : ok = false -> m' = m;
  se_other b : words_apart a b -> gw_read64 m' b = gw_read64 m b;
}.

Class GuestWordsLaws (M : Type) `{GuestWords M} : Prop := {
  gw_write64_ok m a v :
    gw_wf m -> in_u64 v -> exists ok m', gw_write64 m a v = Ok (ok, m') /\
      store_effect m m' 8 a ok /\ (ok = true -> gw_read64 m' a = Some v);
  gw_write32_ok m a v :
    gw_wf m -> exists ok m', gw_write32 m a v = Ok (ok, m') /\ store_effect m m' 4 a ok;
  gw_read64_range m a v : gw_wf m -> gw_read64 m a = Some v -> in_u64 v;
  gw_timespec_range m a ts :
    gw_wf m -> gw_read_timespec m a = Some ts ->
    - 2 ^ 63 <= ts_seconds ts < 2 ^ 63 /\ - 2 ^ 63 <= ts_nanoseconds ts < 2 ^ 63;
}.

Section Space.
Context `{HostOs, !HostOsLaws H}.

Definition space_ok (s : space) : Prop := space_wf s /\ host_agrees s.

#[export] Instance space_guest_words : GuestWords space := {
  gw_wf := space_ok;
  gw_writable := guest_writable;
  gw_read64 := read_guest_u64;
  gw_write64 := write_guest_u64;
  gw_write32 := write_guest_u32;
  gw_read_timespec := read_guest_timespec;
}.

Lemma find_owner s a i :
  space_wf s -> find s a = Some i -> exists r, info r = i /\ owner (regions_ s) a r.
Proof.
  unfold find. intros Hs ([r Hr] & Hf & ->)%fmap_Some. exists (mkRegion r Hr). split; [done|].
  by apply (find_region_owner (native_ s)) in Hf; [|apply Hs].
Qed.

Lemma owner_bounds s a r :
  space_wf s -> owner (regions_ s) a r ->
  region_end (info r) = ri_base (info r) + ri_size (info r) /\
  0 <= ri_base (info r) <= a /\ a < ri_base (info r) + ri_size (info r) <= u64_max.
Proof.
  intros Hs [Hf Hc]. pose proof (wf_region _ _ (wf_map _ Hs) _ _ Hf) as Hw.
  rewrite (wf_region_end _ _ _ Hw). destruct Hw. unfold covers in Hc. lia.
Qed.

Lemma guest_writable_iff s a n :
  space_wf s -> 0 < n -> guest_writable s a n = true <-> store_ok true s a n.
Proof.
  intros Hs Hn. unfold guest_writable. destruct (Z.eqb_spec n 0); [lia|].
  destruct (find s a) as [i|] eqn:Hf.
  - apply find_owner in Hf as (r & <- & Ho); [|done].
    destruct (owner_bounds s a r Hs Ho) as (-> & Hb & He).
    destruct (has (ri_protection (info r)) prot_write) eqn:Hw; cbn [negb orb].
    + destruct (Z.ltb_spec (u64_max - n) a); [|rewrite wrap64_small by (unfold in_u64; lia)].
      * split; [done|]. intros (x & [Hx Hxe] & _).
        assert (x = r) as -> by (by eapply (owner_unique (native_ s)); [apply Hs|..]). lia.
      * rewrite Z.leb_le. split; [intros ?; exists r; by split|]. intros (x & [Hx Hxe] & _).
        assert (x = r) as -> by (by eapply (owner_unique (native_ s)); [apply Hs|..]). lia.
    + split; [done|]. intros (x & [Hx Hxe] & Hxw).
      assert (x = r) as -> by (by eapply (owner_unique (native_ s)); [apply Hs|..]).
      specialize (Hxw eq_refl). congruence.
  - split; [done|]. intros (r & [Hr _] & _). unfold find in Hf.
    apply (find_region_owner (native_ s)) in Hr; [|apply Hs]. by rewrite Hr in Hf.
Qed.

(** A readable word is the bytes of its addresses. *)
Definition word_bytes (s : space) (a n : Z) (bs : list byte) : Prop :=
  zlen bs = n /\ forall i, 0 <= i < n -> zget bs i = byte_at s (a + i).

Definition readable (s : space) (a n : Z) : Prop :=
  exists r, in_region s r a n /\ guest_readable (info r) = true.

Lemma read_guest_u64_spec s a v :
  space_wf s -> read_guest_u64 s a = Some v <->
  readable s a 8 /\ exists bs, word_bytes s a 8 bs /\ v = le_decode bs.
Proof.
  intros Hs. unfold read_guest_u64.
  assert (forall r, in_region s r a 8 -> owner (regions_ s) a r) as Hin by (by intros r []).
  destruct (find s a) as [i|] eqn:Hf.
  2: { split; [done|]. intros ((r & Hr%Hin & _) & _). unfold find in Hf.
       apply (find_region_owner (native_ s)) in Hr; [|apply Hs]. by rewrite Hr in Hf. }
  apply find_owner in Hf as (r & <- & Ho); [|done].
  destruct (owner_bounds s a r Hs Ho) as (-> & Hb & He).
  assert (forall x, in_region s x a 8 -> x = r) as Hx.
  { intros x Hx%Hin. by eapply (owner_unique (native_ s)); [apply Hs|..]. }
  destruct (guest_readable (info r)) eqn:Hrd; cbn [negb orb].
  2: { split; [done|]. intros ((x & ->%Hx & Hc) & _). congruence. }
  destruct (Z.ltb_spec (u64_max - 8) a); cbn [orb].
  { split; [done|]. intros ((x & Hxi & _) & _). pose proof (Hx x Hxi) as ->. destruct Hxi. lia. }
  rewrite wrap64_small by (unfold in_u64; lia).
  destruct (Z.ltb_spec (ri_base (info r) + ri_size (info r)) (a + 8)).
  { split; [done|]. intros ((x & Hxi & _) & _). pose proof (Hx x Hxi) as ->. destruct Hxi. lia. }
  assert (in_region s r a 8) as Hir by (by split).
  destruct (view_spec s a 8 Hs) as [Hv _]; [lia|]. destruct Hv as [Hl Hby]; [by exists r|].
  rewrite Hl. cbn. split.
  - intros [= <-]. split; [by exists r|]. by exists (view s a 8).
  - intros (_ & bs & [Hbl Hbb] & ->). do 2 f_equal. apply zget_ext; [lia|].
    intros j Hj. rewrite Hby, Hbb by lia. done.
Qed.

Lemma same_infos_owner s s' a r :
  space_wf s -> same_infos s s' -> owner (regions_ s) a r ->
  exists r', owner (regions_ s') a r' /\ info r' = info r.
Proof.
  intros Hs Hi [Hf Hc]. specialize (Hi (ri_base (info r))). rewrite Hf in Hi. cbn in Hi.
  destruct (ofind (ri_base (info r)) (regions_ s')) as [r'|] eqn:Hf'; [|done]. injection Hi as Hi.
  exists r'. split; [|done]. split; [by rewrite Hi|]. unfold covers in *. by rewrite Hi.
Qed.

Lemma same_infos_find s s' a :
  space_wf s -> space_wf s' -> same_infos s s' -> find s' a = find s a.
Proof.
  intros Hs Hs' Hi. destruct (find s a) as [i|] eqn:Hf.
  - apply find_owner in Hf as (r & <- & Ho); [|done].
    destruct (same_infos_owner s s' a r Hs Hi Ho) as (r' & Ho' & <-). unfold find.
    apply (find_region_owner (native_ s')) in Ho' as ->; [done|apply Hs'].
  - destruct (find s' a) as [i|] eqn:Hf'; [|done].
    apply find_owner in Hf' as (r & <- & Ho); [|done].
    destruct (same_infos_owner s' s a r Hs') as (r' & Ho' & _); [intros k; symmetry; apply Hi|done|].
    apply (find_region_owner (native_ s)) in Ho'; [|apply Hs]. unfold find in Hf. by rewrite Ho' in Hf.
Qed.

Lemma readable_same s s' a n :
  space_wf s -> space_wf s' -> same_infos s s' -> readable s a n -> readable s' a n.
Proof.
  intros Hs Hs' Hi (r & [Ho He] & Hr).
  destruct (same_infos_owner s s' a r Hs Hi Ho) as (r' & Ho' & E). exists r'. unfold in_region.
  by rewrite E.
Qed.

Lemma store_bytes_effect s a bytes s' :
  space_wf s -> bytes <> [] -> stored s s' a bytes ->
  (forall b n, guest_writable s' b n = guest_writable s b n) /\
  (forall b, b + 8 <= a \/ a + zlen bytes <= b -> read_guest_u64 s' b = read_guest_u64 s b) /\
  (zlen bytes = 8 -> store_ok true s a 8 -> read_guest_u64 s' a = Some (le_decode bytes)).
Proof.
  intros Hs Hne (Hs' & Hi & Hb). split; [|split].
  - intros b n. unfold guest_writable. by rewrite (same_infos_find s s').
  - intros b Hap. apply option_eq. intros v. rewrite !read_guest_u64_spec by done.
    assert (readable s' b 8 <-> readable s b 8) as Hrd.
    { split; intros Hr; [|by apply (readable_same s s')].
      eapply (readable_same s' s); [done|done| |done]. intros k. symmetry. apply Hi. }
    assert (forall bs, word_bytes s' b 8 bs <-> word_bytes s b 8 bs) as Hwb.
    { intros bs. unfold word_bytes. apply and_iff_compat_l.
      split; intros Hbs i Hin; rewrite Hbs by done; destruct (Hb (b + i)) as [_ ->];
        by rewrite (proj2 (in_range_false _ _ _)) by lia. }
    rewrite Hrd. by setoid_rewrite Hwb.
  - intros Hl (r & Hr & Hw). apply read_guest_u64_spec; [done|]. split.
    + apply (readable_same s); [done..|]. exists r. split; [done|]. unfold guest_readable.
      by rewrite Hw, orb_true_r.
    + exists bytes. split; [|done]. split; [done|]. intros i Hin. destruct (Hb (a + i)) as [_ ->].
      rewrite (proj2 (in_range_true _ _ _)) by lia. f_equal. lia.
Qed.

Lemma guest_store s a bytes n :
  space_ok s -> bytes <> [] -> zlen bytes = n -> n <= 8 ->
  exists ok s', (if negb (guest_writable s a n) then Ok (false, s) else write s a bytes) = Ok (ok, s') /\
    store_effect s s' n a ok /\ (ok = true -> n = 8 -> read_guest_u64 s' a = Some (le_decode bytes)).
Proof.
  intros [Hs Hag] Hne Hl Hn8.
  assert (0 < n) as Hn by (destruct bytes; [done|cbn in Hl; lia]).
  destruct (guest_writable s a n) eqn:Hw; cbn [negb].
  - destruct (write_total s a bytes Hs Hag) as (ok & s' & Hwr & Hag').
    destruct (write_spec s a bytes ok s' Hs Hne Hwr) as (Hok & Hst & Hf). exists ok, s'.
    pose proof Hw as Hw'%guest_writable_iff; [|done..].
    rewrite Hl in Hok. pose proof (proj2 Hok Hw') as ->. specialize (Hst eq_refl).
    destruct (store_bytes_effect s a bytes s' Hs Hne Hst) as (H1 & H2 & H3).
    split; [done|]. split.
    + split; [done|by split; [apply Hst|]|apply H1|done|]. intros b Hb. apply H2. unfold words_apart in Hb. lia.
    + intros _ ->. by apply H3.
  - exists false, s. split; [done|]. split; [|done]. by split.
Qed.

#[export] Instance space_guest_words_laws : GuestWordsLaws space.
Proof.
  split.
  - intros s a v Hs Hv. destruct (guest_store s a (le_encode 8 v) 8) as (ok & s' & ? & ? & Hr);
      [done|done|done|done|]. exists ok, s'. split; [done|]. split; [done|].
    intros Hok. cbn -[le_encode]. rewrite Hr by done. f_equal. by apply le_decode_encode_u64.
  - intros s a v Hs. destruct (guest_store s a (le_encode 4 v) 4) as (ok & s' & ? & ? & _);
      [done|done|done|done|]. by exists ok, s'.
  - intros s a v [Hs _] (_ & bs & [Hl _] & ->)%read_guest_u64_spec; [|done].
    pose proof (le_decode_bound bs) as Hb. replace (length bs) with 8%nat in Hb by lia. exact Hb.
  - intros s a ts [Hs _] Hr. unfold gw_read_timespec, space_guest_words, read_guest_timespec in Hr.
    destruct (_ || _); [done|]. destruct (find s a); [|done]. destruct (_ || _); [done|].
    destruct (negb _); [done|]. injection Hr as <-. split; apply to_i64_range.
Qed.

End Space.
