(* ===== verification/HleRegistry.v ===== *)
(** * The registry of emulated functions

    [src/include/nyxora/runtime/hle_registry.hpp] and
    [src/src/runtime/hle_registry.cpp] (POSIX, x86-64): an emulated function is
    a binding of the symbol registry whose address is that of the host
    function itself; the bridges of the Windows build are in HleBridge.v.  The
    registry refers to the symbols it fills; here it carries them. *)

From S2P Require Import Prelude Symbols.

Local Open Scope Z_scope.

Record HleRegistry : Type := mkHleRegistry {
  hr_symbols : SymbolRegistry;
  hr_registered : Z;
}.

(** [HleRegistry::register_function]. *)
Definition register_function (r : HleRegistry) (key : SymbolKey) (function : Z) (debug_name : string)
  : bool * HleRegistry :=
  if (function =? 0) || negb (bool_decide (kind key = sym_function)) then (false, r)
  else
    let address := function in
    let '(registered, symbols) :=
      register_symbol (hr_symbols r) key (mkSymbolBinding address debug_name true) in
    if negb registered then (false, mkHleRegistry symbols (hr_registered r))
    else (true, mkHleRegistry symbols (wrap64 (hr_registered r + 1))).

(** [HleRegistry::register_no_arg]. *)
Definition register_no_arg (r : HleRegistry) (key : SymbolKey) (function : Z) (debug_name : string)
  : bool * HleRegistry :=
  if function =? 0 then (false, r) else register_function r key function debug_name.

(** [HleRegistry::size]. *)
Definition size (r : HleRegistry) : Z := hr_registered r.

(** ** Lemmas *)

(** A function is registered under a free key. *)
Lemma register_function_free r key function name :
  function <> 0 -> kind key = sym_function -> hr_symbols r !! key = None ->
  register_function r key function name =
    (true, mkHleRegistry (<[key := mkSymbolBinding function name true]> (hr_symbols r))
             (wrap64 (hr_registered r + 1))).
Proof.
  intros Hf Hk Hn. unfold register_function, register_symbol.
  destruct (Z.eqb_spec function 0); [done|]. by rewrite bool_decide_eq_true_2, Hn.
Qed.

(** A key that is bound stays bound to the same function: emulation never
    replaces anything. *)
Lemma register_function_bound r key function name b :
  hr_symbols r !! key = Some b ->
  hr_symbols (register_function r key function name).2 !! key = Some b /\
  (register_function r key function name).1 = false.
Proof.
  intros Hb. unfold register_function, register_symbol. destruct (_ || _); [done|].
  rewrite Hb. cbn [hle negb andb]. rewrite andb_false_r. done.
Qed.

Lemma register_function_other r key function name k :
  k <> key -> hr_symbols (register_function r key function name).2 !! k = hr_symbols r !! k.
Proof.
  intros Hk. unfold register_function. destruct (_ || _); [done|].
  pose proof (register_symbol_lookup (hr_symbols r) key (mkSymbolBinding function name true) k) as Hl.
  destruct (register_symbol _ _ _) as [b s]. cbn [snd] in Hl. rewrite decide_False in Hl by done.
  by destruct b.
Qed.
