(* ===== verification/HleBridge.v ===== *)
(** * The bridges of the registry on Windows

    The Windows x64 build of [src/src/runtime/hle_registry.cpp]: guest code
    calls in the System V convention, the host's functions have Microsoft's.
    A [BridgeTable] is an arena with a piece of code per function, which
    changes the stack and the registers, and a data slot with the function's
    address; [register_function] binds a symbol to the bridge of the function.

    The arena is the one of NativeArena.v, whose methods promise the same on
    both systems; the offset of the TEB slot with the host's stack pointer,
    [windows_host_stack_teb_offset()], is an argument. *)

From S2P Require Import Prelude NativeArena Symbols HleRegistry.

Local Open Scope Z_scope.

Module Bridge.

Definition kThunkSize : Z := 128.
Definition kBridgeChunkCapacity : Z := 128.
Definition data_size : Z := 8.

(** ** The code of a bridge *)

Definition save_guest_stack : list byte := map byte_of_Z
  [ 0x41; 0x54;                     (* push r12 *)
    0x41; 0x55;                     (* push r13 *)
    0x41; 0x56;                     (* push r14 *)
    0x4c; 0x8d; 0x64; 0x24; 0x18;   (* lea r12,[rsp+0x18] *)
    0x4d; 0x89; 0xc5;               (* mov r13,r8 *)
    0x4d; 0x89; 0xce;               (* mov r14,r9 *)
    0x49; 0x89; 0xd2;               (* mov r10,rdx *)
    0x49; 0x89; 0xcb;               (* mov r11,rcx *)
    0x48; 0x89; 0xf9;               (* mov rcx,rdi *)
    0x48; 0x89; 0xf2;               (* mov rdx,rsi *)
    0x4d; 0x89; 0xd0;               (* mov r8,r10 *)
    0x4d; 0x89; 0xd9;               (* mov r9,r11 *)
    0x4d; 0x8b; 0x54; 0x24; 0x08;   (* mov r10,[r12+8] *)
    0x65; 0x4c; 0x8b; 0x1c; 0x25 ]. (* mov r11,gs:[disp32] *)

Definition switch_host_stack : list byte := map byte_of_Z
  [ 0x4c; 0x89; 0xdc;               (* mov rsp,r11 *)
    0x48; 0x83; 0xec; 0x38;         (* shadow + args 4-6 *)
    0x4c; 0x89; 0x6c; 0x24; 0x20;   (* mov [rsp+0x20],r13 *)
    0x4c; 0x89; 0x74; 0x24; 0x28;   (* mov [rsp+0x28],r14 *)
    0x4c; 0x89; 0x54; 0x24; 0x30;   (* mov [rsp+0x30],r10 *)
    0x48; 0x8b; 0x05 ].             (* mov rax,[rip+rel32] *)

Definition finish : list byte := map byte_of_Z
  [ 0xff; 0xd0;                     (* call rax *)
    0x4c; 0x89; 0xe4;               (* mov rsp,r12 *)
    0x48; 0x83; 0xec; 0x18;         (* reach saved regs *)
    0x41; 0x5e;                     (* pop r14 *)
    0x41; 0x5d;                     (* pop r13 *)
    0x41; 0x5c;                     (* pop r12 *)
    0xc3 ].                         (* ret *)

(** The lambda [append]: the buffer and the offset. *)
Definition append (buffer : list byte * Z) (bytes : list byte) : option (list byte * Z) :=
  let '(code, offset) := buffer in
  if zlen code - offset <? zlen bytes then None
  else Some (zsplice code offset bytes, offset + zlen bytes).

(** One round of the loop of [emit_all], up to the copy; [None] where it
    returns false. *)
Definition emit_bridge (code_address slot_address teb_offset : Z) : result (option (list byte)) :=
  let code := replicate (Z.to_nat kThunkSize) (byte_of_Z 0x90) in
  match append (code, 0) save_guest_stack with
  | None => Ok None
  | Some buffer =>
      match append buffer (le_encode 4 teb_offset) with
      | None => Ok None
      | Some buffer =>
          match append buffer switch_host_stack with
          | None => Ok None
          | Some (code, offset) =>
              let rip_after_target_load := wrap64 (code_address + offset + 4) in
              let displacement := to_i64 slot_address - to_i64 rip_after_target_load in
              throw_if ((displacement <? -9223372036854775808) || (i64_max <? displacement))
                (undefined_behaviour "signed overflow in a bridge displacement") ;;
              if (displacement <? -2147483648) || (2147483647 <? displacement) then Ok None
              else
                match append (code, offset) (le_encode 4 (wrap32 displacement)) with
                | None => Ok None
                | Some buffer => Ok (fst <$> append buffer finish)
                end
          end
      end
  end.

(** ** Tables *)

Record BridgeTable : Type := mkBridgeTable {
  bt_arena : NativeArena;
  bt_capacity : Z;
  bt_used : Z;
  bt_data_offset : Z;
}.

Section Tables.
Context `{HostOs}.

(** The loop of [emit_all]: the bridges [index] to [index + count - 1]. *)
Fixpoint emit_loop (count : nat) (arena : NativeArena) (h : HostMem) (data_offset teb_offset index : Z)
  : result (bool * HostMem) :=
  match count with
  | O => Ok (true, h)
  | S count =>
      let code_address := wrap64 (arena_base arena + index * kThunkSize) in
      let slot_address := wrap64 (arena_base arena + data_offset + index * data_size) in
      code ← emit_bridge code_address slot_address teb_offset;
      match code with
      | None => Ok (false, h)
      | Some code =>
          '(copied, h) ← arena_copy arena h (index * kThunkSize) code;
          if negb copied then Ok (false, h)
          else emit_loop count arena h data_offset teb_offset (index + 1)
      end
  end.

(** [BridgeTable::emit_all]. *)
Definition emit_all (t : BridgeTable) (h : HostMem) (teb_offset : option Z) : result (bool * HostMem) :=
  match teb_offset with
  | None => Ok (false, h)
  | Some teb_offset =>
      '(ok, h) ← emit_loop (Z.to_nat (bt_capacity t)) (bt_arena t) h (bt_data_offset t) teb_offset 0;
      if negb ok then Ok (false, h)
      else
        let code_bytes := bt_capacity t * kThunkSize in
        if negb (arena_flush (bt_arena t) 0 code_bytes) then Ok (false, h)
        else Ok (arena_protect (bt_arena t) h 0 (bt_data_offset t) (prot_or prot_read prot_execute))
  end.

(** [BridgeTable::create]. *)
Definition create_bridges (h : HostMem) (capacity : Z) (teb_offset : option Z)
  : result (option BridgeTable * HostMem) :=
  if (capacity =? 0) || (u64_max / kThunkSize <? capacity) || (u64_max / data_size <? capacity)
  then Ok (None, h)
  else
    match checked_align_up (capacity * kThunkSize) page_size,
          checked_align_up (capacity * data_size) page_size with
    | Some code_size, Some slot_region_size =>
        if u64_max - slot_region_size <? code_size then Ok (None, h)
        else
          match reserve h (code_size + slot_region_size) 0 with
          | None => Ok (None, h)
          | Some (arena, h) =>
              let rw := prot_or prot_read prot_write in
              let '(ok, h) := arena_protect arena h 0 code_size rw in
              if negb ok then Ok (None, release arena h)
              else
                let '(ok, h) := arena_protect arena h code_size slot_region_size rw in
                if negb ok then Ok (None, release arena h)
                else
                  let result := mkBridgeTable arena capacity 0 code_size in
                  '(ok, h) ← emit_all result h teb_offset;
                  if negb ok then Ok (None, release arena h) else Ok (Some result, h)
          end
    | _, _ => Ok (None, h)
    end.

(** [BridgeTable::add]: the store into the slot, and the bridge's address. *)
Definition add (t : BridgeTable) (h : HostMem) (function : Z)
  : result (option Z * (BridgeTable * HostMem)) :=
  if (function =? 0) || (bt_capacity t <=? bt_used t) then Ok (None, (t, h))
  else
    let slot := wrap64 (arena_base (bt_arena t) + bt_data_offset t + bt_used t * data_size) in
    h ← host_memcpy h slot (le_encode 8 function);
    let address := wrap64 (arena_base (bt_arena t) + bt_used t * kThunkSize) in
    Ok (Some address,
        (mkBridgeTable (bt_arena t) (bt_capacity t) (bt_used t + 1) (bt_data_offset t), h)).

End Tables.

(** ** The registry *)

(** [HleRegistry], with [bridges_]. *)
Record WindowsRegistry : Type := mkWindowsRegistry {
  wr_registry : HleRegistry;
  wr_bridges : list BridgeTable;
}.

Section Registry.
Context `{HostOs} (teb_offset : option Z).

(** The constructor. *)
Definition create_registry (symbols : SymbolRegistry) (h : HostMem)
  : result (WindowsRegistry * HostMem) :=
  '(bridge, h) ← create_bridges h kBridgeChunkCapacity teb_offset;
  Ok (mkWindowsRegistry (mkHleRegistry symbols 0) (option_list bridge), h).

(** The bridge for a function: of the last table, or of a new one. *)
Definition find_bridge (bridges : list BridgeTable) (h : HostMem) (function : Z)
  : result (option Z * (list BridgeTable * HostMem)) :=
  match last bridges with
  | None => Ok (None, (bridges, h))
  | Some back =>
      '(bridge, (back, h)) ← add back h function;
      let bridges := removelast bridges ++ [back] in
      match bridge with
      | Some bridge => Ok (Some bridge, (bridges, h))
      | None =>
          '(next, h) ← create_bridges h kBridgeChunkCapacity teb_offset;
          match next with
          | None => Ok (None, (bridges, h))
          | Some next =>
              '(bridge, (next, h)) ← add next h function;
              match bridge with
              | None => Ok (None, (bridges, release (bt_arena next) h))
              | Some bridge => Ok (Some bridge, (bridges ++ [next], h))
              end
          end
      end
  end.

(** [HleRegistry::register_function]. *)
Definition register_function (r : WindowsRegistry) (h : HostMem) (key : SymbolKey) (function : Z)
    (debug_name : string) : result (bool * (WindowsRegistry * HostMem)) :=
  if (function =? 0) || negb (bool_decide (kind key = sym_function)) then Ok (false, (r, h))
  else
    '(bridge, (bridges, h)) ← find_bridge (wr_bridges r) h function;
    match bridge with
    | None => Ok (false, (mkWindowsRegistry (wr_registry r) bridges, h))
    | Some address =>
        let '(registered, symbols) :=
          register_symbol (hr_symbols (wr_registry r)) key (mkSymbolBinding address debug_name true) in
        let count := hr_registered (wr_registry r) in
        let count := if registered then wrap64 (count + 1) else count in
        Ok (registered, (mkWindowsRegistry (mkHleRegistry symbols count) bridges, h))
    end.

End Registry.

End Bridge.
