(* ===== verification/HleBridgeCode.v ===== *)
(** * The code of the bridges on Windows

    The bytes that [emit_bridge] writes, as a listing of instructions, and what
    they do on the processor of X86.v: the call of the host's function with the
    guest's arguments, on the host's stack ([run_bridge]), and the way back
    ([run_bridge_back]). *)

From S2P Require Import Prelude NativeArena X86 Symbols HleRegistry HleBridge.
Import Bridge.

Local Open Scope Z_scope.

(** ** The bytes of a bridge *)

Definition bridge_bytes (teb rel : list byte) : list byte :=
  save_guest_stack ++ teb ++ switch_host_stack ++ rel ++ finish ++ replicate 34 (byte_of_Z 0x90).

(** The code of a bridge at an address, with its slot and the TEB slot it
    reads. *)
Definition is_bridge (code : list byte) (address slot teb_offset : Z) : Prop :=
  exists t0 t1 t2 t3 x0 x1 x2 x3,
    code = bridge_bytes [t0; t1; t2; t3] [x0; x1; x2; x3] /\
    le_decode [t0; t1; t2; t3] = wrap32 teb_offset /\
    wrap64 (address + 78 + to_i32 (le_decode [x0; x1; x2; x3])) = slot.


Lemma append_spec x pre n bytes :
  (length bytes <= n)%nat ->
  append (pre ++ replicate n x, zlen pre) bytes =
  Some ((pre ++ bytes) ++ replicate (n - length bytes) x, zlen (pre ++ bytes)).
Proof.
  intros Hn. unfold append. rewrite length_app, length_replicate.
  destruct (Z.ltb_spec (Z.of_nat (length pre + n) - zlen pre) (zlen bytes)); [lia|]. f_equal. f_equal.
  - unfold zsplice. rewrite Nat2Z.id, take_app_length, <- !app_assoc. do 2 f_equal.
    by rewrite drop_app_add, drop_replicate.
  - rewrite length_app. lia.
Qed.

Lemma emit_bridge_is_bridge address slot teb_offset code :
  in_u64 slot -> emit_bridge address slot teb_offset = Ok (Some code) ->
  is_bridge code address slot teb_offset.
Proof.
  intros Hs. unfold emit_bridge.
  change (replicate (Z.to_nat kThunkSize) (byte_of_Z 0x90), 0)
    with ([] ++ replicate 128 (byte_of_Z 0x90), zlen (@nil byte)).
  rewrite append_spec by (apply Nat.leb_le; reflexivity).
  destruct (le_encode_4 teb_offset) as (t0 & t1 & t2 & t3 & Ht). rewrite Ht.
  rewrite append_spec by (apply Nat.leb_le; reflexivity).
  rewrite append_spec by (apply Nat.leb_le; reflexivity). cbv beta iota.
  set (pre := (([] ++ save_guest_stack) ++ _) ++ switch_host_stack).
  change (zlen pre) with 74. intros He. inv_result. bools. destruct (_ || _) eqn:Hr in He; [done|]. bools.
  set (d := to_i64 slot - _) in *.
  destruct (le_encode_4 (wrap32 d)) as (x0 & x1 & x2 & x3 & Hx). rewrite Hx in He.
  change 74 with (zlen pre) in He.
  rewrite append_spec in He by (apply Nat.leb_le; reflexivity).
  rewrite append_spec in He by (apply Nat.leb_le; reflexivity).
  cbn [fmap option_fmap option_map fst] in He. injection He as <-.
  exists t0, t1, t2, t3, x0, x1, x2, x3. split; [reflexivity|]. split.
  - rewrite <- Ht, le_decode_encode. reflexivity.
  - rewrite <- Hx. assert (to_i32 (le_decode (le_encode 4 (wrap32 d))) = d) as ->.
    { rewrite le_decode_encode. change (256 ^ Z.of_nat 4) with u32_mod.
      unfold to_i32, wrap32. case_match; bools; Z.div_mod_to_equations; lia. }
    unfold d. replace (address + 74 + 4) with (address + 78) by ring.
    etransitivity; [apply (displacement_lands address 78)|]. by apply wrap64_small.
Qed.

(** ** The listing *)

Abbreviation bytes l := (map byte_of_Z l).
Abbreviation at_ r d := (op_mem (mkMem seg_none (base_reg r) d)).

Definition push_listing : listing :=
  [ (PUSH r12, bytes [0x41; 0x54]); (PUSH r13, bytes [0x41; 0x55]); (PUSH r14, bytes [0x41; 0x56]) ].

Section Listing.
Variables t0 t1 t2 t3 x0 x1 x2 x3 : byte.

Definition teb_disp : Z := to_i32 (le_decode [t0; t1; t2; t3]).
Definition slot_disp : Z := to_i32 (le_decode [x0; x1; x2; x3]).

Definition args_listing : listing :=
  [ (LEA r12 (mkMem seg_none (base_reg rsp) 24), bytes [0x4c; 0x8d; 0x64; 0x24; 0x18]);
    (MOV (op_reg r13) (op_reg r8), bytes [0x4d; 0x89; 0xc5]);
    (MOV (op_reg r14) (op_reg r9), bytes [0x4d; 0x89; 0xce]);
    (MOV (op_reg r10) (op_reg rdx), bytes [0x49; 0x89; 0xd2]);
    (MOV (op_reg r11) (op_reg rcx), bytes [0x49; 0x89; 0xcb]);
    (MOV (op_reg rcx) (op_reg rdi), bytes [0x48; 0x89; 0xf9]);
    (MOV (op_reg rdx) (op_reg rsi), bytes [0x48; 0x89; 0xf2]);
    (MOV (op_reg r8) (op_reg r10), bytes [0x4d; 0x89; 0xd0]);
    (MOV (op_reg r9) (op_reg r11), bytes [0x4d; 0x89; 0xd9]);
    (MOV (op_reg r10) (at_ r12 8), bytes [0x4d; 0x8b; 0x54; 0x24; 0x08]);
    (MOV (op_reg r11) (op_mem (mkMem seg_gs base_none teb_disp)),
     bytes [0x65; 0x4c; 0x8b; 0x1c; 0x25] ++ [t0; t1; t2; t3]) ].

Definition host_listing : listing :=
  [ (MOV (op_reg rsp) (op_reg r11), bytes [0x4c; 0x89; 0xdc]);
    (ALUI alu_sub (op_reg rsp) 56, bytes [0x48; 0x83; 0xec; 0x38]);
    (MOV (at_ rsp 32) (op_reg r13), bytes [0x4c; 0x89; 0x6c; 0x24; 0x20]);
    (MOV (at_ rsp 40) (op_reg r14), bytes [0x4c; 0x89; 0x74; 0x24; 0x28]);
    (MOV (at_ rsp 48) (op_reg r10), bytes [0x4c; 0x89; 0x54; 0x24; 0x30]);
    (MOV (op_reg rax) (op_mem (mkMem seg_none base_rip slot_disp)),
     bytes [0x48; 0x8b; 0x05] ++ [x0; x1; x2; x3]) ].

Definition call_bytes : list byte := bytes [0xff; 0xd0].

Definition back_listing : listing :=
  [ (MOV (op_reg rsp) (op_reg r12), bytes [0x4c; 0x89; 0xe4]);
    (ALUI alu_sub (op_reg rsp) 24, bytes [0x48; 0x83; 0xec; 0x18]) ].
Definition pop_listing : listing :=
  [ (POP r14, bytes [0x41; 0x5e]); (POP r13, bytes [0x41; 0x5d]); (POP r12, bytes [0x41; 0x5c]) ].
Definition bridge_ret : list byte := bytes [0xc3].

Definition bridge_code : list byte := bridge_bytes [t0; t1; t2; t3] [x0; x1; x2; x3].

Ltac encodes := split; [cbn; unfold max_instruction; lia|intros rest; reflexivity].
Ltac listed := unfold listing_ok; repeat (apply Forall_cons; split; [encodes|]); constructor.

Lemma bridge_push_ok : listing_ok push_listing.
Proof. listed. Qed.
Lemma bridge_args_ok : listing_ok args_listing.
Proof. listed. Qed.
Lemma bridge_host_ok : listing_ok host_listing.
Proof. listed. Qed.
Lemma bridge_call_ok : encodes (CALLR (op_reg rax)) call_bytes.
Proof. encodes. Qed.
Lemma bridge_back_ok : listing_ok back_listing.
Proof. listed. Qed.
Lemma bridge_pop_ok : listing_ok pop_listing.
Proof. listed. Qed.
Lemma bridge_ret_ok : encodes RET bridge_ret.
Proof. encodes. Qed.

End Listing.

(** ** The contract of a bridge *)

Section Contract.
Context (code : list byte) (base slot teb_offset : Z).

(** The TEB slot with the host's stack pointer. *)
Definition teb_slot (c : Cpu) : Z := wrap64 (cpu_gs c + 0 + to_i32 teb_offset).

(** What a caller of the bridge provides: room on the guest's stack, the
    seventh argument, and a host stack that the TEB slot leads to, apart from
    the guest's stack and from the two slots. *)
Record bridge_ready (c : Cpu) : Prop := {
  br_guest : 24 <= cpu_reg c rsp /\ cpu_reg c rsp + 16 <= u64_max;
  br_guest_write : host_allows PROT_WRITE (cpu_mem c) (cpu_reg c rsp - 24) 24 = true;
  br_guest_read : host_allows PROT_READ (cpu_mem c) (cpu_reg c rsp - 24) 40 = true;
  br_teb_read : host_allows PROT_READ (cpu_mem c) (teb_slot c) 8 = true;
  br_teb_apart : teb_slot c + 8 <= cpu_reg c rsp - 24 \/ cpu_reg c rsp <= teb_slot c;
  br_host : 64 <= host_word (cpu_mem c) (teb_slot c) <= u64_max;
  br_host_write : host_allows PROT_WRITE (cpu_mem c) (host_word (cpu_mem c) (teb_slot c) - 64) 64 = true;
  br_stacks : host_word (cpu_mem c) (teb_slot c) <= cpu_reg c rsp - 24 \/
              cpu_reg c rsp + 16 <= host_word (cpu_mem c) (teb_slot c) - 64;
  br_slot_read : host_allows PROT_READ (cpu_mem c) slot 8 = true;
  br_slot_guest : slot + 8 <= cpu_reg c rsp - 24 \/ cpu_reg c rsp <= slot;
  br_slot_host : slot + 8 <= host_word (cpu_mem c) (teb_slot c) - 64 \/
                 host_word (cpu_mem c) (teb_slot c) <= slot;
}.

(** The function has been called, in Microsoft's convention: four arguments in
    registers and three above the 32 bytes of shadow space. *)
Record host_called (c cm : Cpu) : Prop := {
  hc_code : code_at (cpu_mem cm) base code;
  hc_rip : cpu_rip cm = host_word (cpu_mem c) slot;
  hc_args : cpu_reg cm rcx = cpu_reg c rdi /\ cpu_reg cm rdx = cpu_reg c rsi /\
            cpu_reg cm r8 = cpu_reg c rdx /\ cpu_reg cm r9 = cpu_reg c rcx;
  hc_stack_args :
    host_word (cpu_mem cm) (cpu_reg cm rsp + 40) = wrap64 (cpu_reg c r8) /\
    host_word (cpu_mem cm) (cpu_reg cm rsp + 48) = wrap64 (cpu_reg c r9) /\
    host_word (cpu_mem cm) (cpu_reg cm rsp + 56) = host_word (cpu_mem c) (cpu_reg c rsp + 8);
  hc_rsp : cpu_reg cm rsp = host_word (cpu_mem c) (teb_slot c) - 64;
  hc_return : host_word (cpu_mem cm) (cpu_reg cm rsp) = base + 80;
  hc_r12 : cpu_reg cm r12 = cpu_reg c rsp;
  hc_regs r : r ∈ [rbx; rbp; rdi; rsi; r15] -> cpu_reg cm r = cpu_reg c r;
  hc_saved : host_word (cpu_mem cm) (cpu_reg c rsp - 24) = wrap64 (cpu_reg c r14) /\
             host_word (cpu_mem cm) (cpu_reg c rsp - 16) = wrap64 (cpu_reg c r13) /\
             host_word (cpu_mem cm) (cpu_reg c rsp - 8) = wrap64 (cpu_reg c r12);
  hc_mem a : ~ cpu_reg c rsp - 24 <= a < cpu_reg c rsp ->
    ~ cpu_reg cm rsp <= a < cpu_reg cm rsp + 64 -> hm_byte (cpu_mem cm) a = hm_byte (cpu_mem c) a;
  hc_prot : hm_prot (cpu_mem cm) = hm_prot (cpu_mem c);
}.

(** The registers that Microsoft's convention lets a function keep. *)
Definition ms_nonvolatile : list Z := [rbx; rbp; rdi; rsi; r12; r13; r14; r15].

(** The host's function comes back: to its return address, with the stack
    pointer behind it and its nonvolatile registers as they were, the bridge's
    code in place and the guest's stack as the call left it. *)
Record host_returned (c cm cr : Cpu) : Prop := {
  hr_code : code_at (cpu_mem cr) base code;
  hr_rip : cpu_rip cr = host_word (cpu_mem cm) (cpu_reg cm rsp);
  hr_regs r : r ∈ ms_nonvolatile -> cpu_reg cr r = cpu_reg cm r;
  hr_read : host_allows PROT_READ (cpu_mem cr) (cpu_reg c rsp - 24) 32 = true;
  hr_stack a : cpu_reg c rsp - 24 <= a < cpu_reg c rsp + 8 -> hm_byte (cpu_mem cr) a = hm_byte (cpu_mem cm) a;
}.

(** The guest goes on behind its call, with its registers. *)
Record guest_returned (c cr cf : Cpu) : Prop := {
  gr_rip : cpu_rip cf = host_word (cpu_mem c) (cpu_reg c rsp);
  gr_rsp : cpu_reg cf rsp = cpu_reg c rsp + 8;
  gr_rax : cpu_reg cf rax = cpu_reg cr rax;
  gr_saved r : r ∈ [rbx; rbp; r12; r13; r14; r15] -> cpu_reg cf r = cpu_reg c r;
  gr_mem : cpu_mem cf = cpu_mem cr;
}.

End Contract.

Arguments br_guest {slot teb_offset} c _.
Arguments br_guest_write {slot teb_offset} c _.
Arguments br_guest_read {slot teb_offset} c _.
Arguments br_teb_read {slot teb_offset} c _.
Arguments br_teb_apart {slot teb_offset} c _.
Arguments br_host {slot teb_offset} c _.
Arguments br_host_write {slot teb_offset} c _.
Arguments br_stacks {slot teb_offset} c _.
Arguments br_slot_read {slot teb_offset} c _.
Arguments br_slot_guest {slot teb_offset} c _.
Arguments br_slot_host {slot teb_offset} c _.
Arguments hc_code {code base slot teb_offset} c cm _.
Arguments hc_rip {code base slot teb_offset} c cm _.
Arguments hc_args {code base slot teb_offset} c cm _.
Arguments hc_stack_args {code base slot teb_offset} c cm _.
Arguments hc_rsp {code base slot teb_offset} c cm _.
Arguments hc_return {code base slot teb_offset} c cm _.
Arguments hc_r12 {code base slot teb_offset} c cm _.
Arguments hc_regs {code base slot teb_offset} c cm _.
Arguments hc_saved {code base slot teb_offset} c cm _.
Arguments hc_mem {code base slot teb_offset} c cm _.
Arguments hc_prot {code base slot teb_offset} c cm _.
Arguments hr_code {code base} c cm cr _.
Arguments hr_rip {code base} c cm cr _.
Arguments hr_regs {code base} c cm cr _.
Arguments hr_read {code base} c cm cr _.
Arguments hr_stack {code base} c cm cr _.


(** ** The stretches of the code *)

Section Run.
Context (t0 t1 t2 t3 x0 x1 x2 x3 : byte) (base slot teb_offset : Z).
Let code : list byte := bridge_code t0 t1 t2 t3 x0 x1 x2 x3.
Hypothesis Hslot : wrap64 (base + 78 + to_i32 (le_decode [x0; x1; x2; x3])) = slot.
Hypothesis Hteb : teb_disp t0 t1 t2 t3 = to_i32 teb_offset.

Local Ltac at_offset := split; [reflexivity|apply Nat.leb_le; reflexivity].

(** The registers after the arguments have been moved. *)
Lemma exec_args c :
  in_u64 (cpu_reg c rsp + 32) -> in_u64 (cpu_reg c rsp) ->
  host_allows PROT_READ (cpu_mem c) (cpu_reg c rsp + 32) 8 = true ->
  host_allows PROT_READ (cpu_mem c) (teb_slot teb_offset c) 8 = true ->
  exists c', exec_listing (args_listing t0 t1 t2 t3) c = Some c' /\
    cpu_reg c' rcx = cpu_reg c rdi /\ cpu_reg c' rdx = cpu_reg c rsi /\
    cpu_reg c' r8 = cpu_reg c rdx /\ cpu_reg c' r9 = cpu_reg c rcx /\
    cpu_reg c' r13 = cpu_reg c r8 /\ cpu_reg c' r14 = cpu_reg c r9 /\
    cpu_reg c' r10 = host_word (cpu_mem c) (cpu_reg c rsp + 32) /\
    cpu_reg c' r11 = host_word (cpu_mem c) (teb_slot teb_offset c) /\
    cpu_reg c' r12 = cpu_reg c rsp + 24 /\
    (forall r, r ∈ [rbx; rbp; rdi; rsi; r15] -> cpu_reg c' r = cpu_reg c r) /\
    cpu_mem c' = cpu_mem c /\ cpu_gs c' = cpu_gs c.
Proof.
  intros Hu Hu0 Hr Ht. unfold teb_slot in *. rewrite <- Hteb in *. destruct c as [f x fl fs gs ip h].
  cbn [cpu_reg cpu_mem cpu_gs] in *.
  assert (wrap64 (0 + f rsp + 24) = f rsp + 24) as H1 by (apply wrap64_small; unfold in_u64 in *; lia).
  assert (wrap64 (0 + (f rsp + 24) + 8) = f rsp + 32) as H2
    by (replace (0 + (f rsp + 24) + 8) with (f rsp + 32) by ring; by apply wrap64_small).
  eexists. split.
  - unfold args_listing. exec_one. rewrite H1. do 8 exec_one. exec_one. rewrite H2, load64_ok by done.
    exec_one. rewrite load64_ok by done. reflexivity.
  - cbn [cpu_reg cpu_mem cpu_gs]. read_regs. split_and!; try done.
    intros r Hin. rewrite !elem_of_cons, elem_of_nil in Hin.
    repeat (destruct Hin as [->|Hin]; [by read_regs|]). done.
Qed.

(** The switch to the host's stack, with the arguments on it, and the
    function's address. *)
Lemma exec_host c :
  in_u64 (cpu_reg c r11) -> 64 <= cpu_reg c r11 -> cpu_rip c + 29 = base + 78 ->
  host_allows PROT_WRITE (cpu_mem c) (cpu_reg c r11 - 24) 24 = true ->
  host_allows PROT_READ (cpu_mem c) slot 8 = true ->
  slot + 8 <= cpu_reg c r11 - 24 \/ cpu_reg c r11 <= slot ->
  exists c', exec_listing (host_listing x0 x1 x2 x3) c = Some c' /\
    cpu_reg c' rsp = cpu_reg c r11 - 56 /\ cpu_reg c' rax = host_word (cpu_mem c) slot /\
    (forall r, r <> rsp -> r <> rax -> cpu_reg c' r = cpu_reg c r) /\
    cpu_gs c' = cpu_gs c /\
    cpu_mem c' = host_put (host_put (host_put (cpu_mem c)
        (cpu_reg c r11 - 24) (le_encode 8 (cpu_reg c r13)))
        (cpu_reg c r11 - 16) (le_encode 8 (cpu_reg c r14)))
        (cpu_reg c r11 - 8) (le_encode 8 (cpu_reg c r10)).
Proof.
  intros Hu H64 Hip Hw Hr Hap. destruct c as [f x fl fs gs ip h].
  cbn [cpu_reg cpu_mem cpu_gs cpu_rip] in *. rewrite host_allows_true in Hw by lia.
  assert (wrap64 (f r11 - wrap64 56) = f r11 - 56) as H1 by (apply wrap64_small; unfold in_u64 in *; cbn; lia).
  assert (forall d, 0 <= d <= 56 -> wrap64 (0 + (f r11 - 56) + d) = f r11 - (56 - d)) as H2.
  { intros d Hd. replace (0 + (f r11 - 56) + d) with (f r11 - (56 - d)) by ring.
    apply wrap64_small. unfold in_u64 in *. lia. }
  assert (forall h0 a, hm_prot h0 = hm_prot h -> f r11 - 24 <= a -> a + 8 <= f r11 ->
    host_allows PROT_WRITE h0 a 8 = true) as H3.
  { intros h0 a Hp Ha Ha'. rewrite host_allows_true by lia. intros y Hy. rewrite Hp. apply Hw. lia. }
  eexists. split.
  - unfold host_listing. do 2 exec_one. rewrite H1.
    exec_one. rewrite (H2 32) by lia. rewrite store64_ok by (apply H3; [done|lia..]).
    exec_one. rewrite (H2 40) by lia. rewrite store64_ok by (apply H3; [done|lia..]).
    exec_one. rewrite (H2 48) by lia. rewrite store64_ok by (apply H3; [done|lia..]).
    exec_one.
    match goal with |- context [load64 ?m ?a] => replace a with slot by (rewrite <- Hslot; unfold slot_disp; cbn; f_equal; lia) end.
    rewrite load64_ok; [reflexivity|]. exact Hr.
  - cbn [cpu_reg cpu_mem cpu_gs]. read_regs. split_and!; try done.
    + rewrite !host_word_put_ne by lia. done.
    + intros r Hn1 Hn2. by rewrite !upd_ne by done.
Qed.

Lemma kept_not_moved r : r ∈ [rbx; rbp; rdi; rsi; r15] -> r <> rsp /\ r <> rax /\ r ∉ [r12; r13; r14].
Proof.
  intros Hin. rewrite !elem_of_cons, elem_of_nil in Hin. rewrite !not_elem_of_cons.
  destruct Hin as [->|[->|[->|[->|[->|[]]]]]]; split_and!; try discriminate; apply not_elem_of_nil.
Qed.

(** The guest's side is saved and the arguments are in place: the state before
    the switch of stacks. *)
Record bridge_moved (c c2 : Cpu) : Prop := {
  bm_rip : cpu_rip c2 = cpu_rip c + 49;
  bm_args : cpu_reg c2 rcx = cpu_reg c rdi /\ cpu_reg c2 rdx = cpu_reg c rsi /\
            cpu_reg c2 r8 = cpu_reg c rdx /\ cpu_reg c2 r9 = cpu_reg c rcx;
  bm_stack_args : cpu_reg c2 r13 = cpu_reg c r8 /\ cpu_reg c2 r14 = cpu_reg c r9 /\
                  cpu_reg c2 r10 = host_word (cpu_mem c) (cpu_reg c rsp + 8);
  bm_r11 : cpu_reg c2 r11 = host_word (cpu_mem c) (teb_slot teb_offset c);
  bm_r12 : cpu_reg c2 r12 = cpu_reg c rsp;
  bm_regs r : r ∈ [rbx; rbp; rdi; rsi; r15] -> cpu_reg c2 r = cpu_reg c r;
  bm_slots (i : nat) r : [r12; r13; r14] !! i = Some r ->
    host_word (cpu_mem c2) (cpu_reg c rsp - 8 * (Z.of_nat i + 1)) = wrap64 (cpu_reg c r);
  bm_mem a : ~ cpu_reg c rsp - 24 <= a < cpu_reg c rsp -> hm_byte (cpu_mem c2) a = hm_byte (cpu_mem c) a;
  bm_prot : hm_prot (cpu_mem c2) = hm_prot (cpu_mem c);
}.

Lemma exec_guest_side c :
  bridge_ready slot teb_offset c ->
  exists c2, exec_listing (push_listing ++ args_listing t0 t1 t2 t3) c = Some c2 /\ bridge_moved c c2.
Proof.
  intros Hr. destruct (br_guest _ Hr) as [Hg1 Hg2].
  pose proof (br_guest_read _ Hr) as Hgr. rewrite host_allows_true in Hgr by lia.
  set (g := cpu_reg c rsp) in *.
  destruct (exec_pushes [r12; r13; r14] push_listing c) as (c1 & Hx1 & Hip1 & Hp); [reflexivity| |cbn; lia| |].
  { reg_notin. }
  { apply (br_guest_write _ Hr). }
  pose proof (pu_regs _ _ _ Hp) as Hrs. pose proof (pu_rsp _ _ _ Hp) as Hsp1. cbn [length] in Hsp1.
  change (8 * Z.of_nat 3) with 24 in Hsp1. fold g in Hsp1. destruct (pu_context _ _ _ Hp) as [_ _ _ Hgs1].
  assert (teb_slot teb_offset c1 = teb_slot teb_offset c) as Hteb1 by (unfold teb_slot; by rewrite Hgs1).
  assert (forall a, ~ g - 24 <= a < g -> hm_byte (cpu_mem c1) a = hm_byte (cpu_mem c) a) as Hb1
    by (apply (pu_mem _ _ _ Hp)).
  assert (forall a, a + 8 <= g - 24 \/ g <= a -> host_word (cpu_mem c1) a = host_word (cpu_mem c) a) as Hw1
    by (intros a Ha; apply host_word_ext; intros y Hy; apply Hb1; lia).
  destruct (exec_args c1) as (c2 & Hx2 & H2cx & H2dx & H28 & H29 & H213 & H214 & H210 & H211 & H212 & H2r & H2m & H2g).
  { unfold in_u64. lia. }
  { unfold in_u64. lia. }
  { apply host_allows_true; [lia|]. intros a Ha. rewrite (pu_prot _ _ _ Hp). apply Hgr. lia. }
  { rewrite Hteb1, (host_allows_prot _ (cpu_mem c)); [apply (br_teb_read _ Hr)|lia|].
    intros a _. by rewrite (pu_prot _ _ _ Hp). }
  rewrite Hteb1, (Hw1 (teb_slot teb_offset c)) in H211 by (apply (br_teb_apart _ Hr)).
  rewrite Hsp1 in H210, H212. replace (g - 24 + 32) with (g + 8) in H210 by ring.
  replace (g - 24 + 24) with g in H212 by ring. rewrite (Hw1 (g + 8)) in H210 by lia.
  rewrite !Hrs in H2cx, H2dx, H28, H29, H213, H214 by done.
  pose proof (exec_listing_rip (args_listing t0 t1 t2 t3) _ _ eq_refl Hx2) as Hip2.
  change (zlen (listing_bytes push_listing)) with 6 in Hip1.
  change (zlen (listing_bytes (args_listing t0 t1 t2 t3))) with 43 in Hip2.
  exists c2. split; [rewrite exec_listing_app, Hx1; exact Hx2|]. split; try assumption; try (split_and!; assumption); rewrite ?H2m.
  - lia.
  - intros r Hin. destruct (kept_not_moved r Hin) as (? & _ & _). by rewrite H2r, Hrs.
  - apply (pu_slot _ _ _ Hp).
  - exact Hb1.
  - apply (pu_prot _ _ _ Hp).
Qed.

(** What the stores to the host's stack make of that state. *)
Lemma switched_is_called c c2 cm hs :
  bridge_ready slot teb_offset c -> bridge_moved c c2 -> hs = host_word (cpu_mem c) (teb_slot teb_offset c) ->
  code_at (cpu_mem cm) base code -> cpu_rip cm = host_word (cpu_mem c) slot -> cpu_reg cm rsp = hs - 64 ->
  (forall r, r <> rsp -> r <> rax -> cpu_reg cm r = cpu_reg c2 r) ->
  cpu_mem cm = host_put (host_put (host_put (host_put (cpu_mem c2)
      (hs - 24) (le_encode 8 (cpu_reg c r8))) (hs - 16) (le_encode 8 (cpu_reg c r9)))
      (hs - 8) (le_encode 8 (host_word (cpu_mem c) (cpu_reg c rsp + 8)))) (hs - 64) (le_encode 8 (base + 80)) ->
  host_called code base slot teb_offset c cm.
Proof.
  intros Hr Hmv Hhs Hc Hip Hsp Hrm Hm. pose proof (ca_range _ _ _ Hc) as Hrange.
  change (zlen code) with 128 in Hrange. destruct (br_guest _ Hr) as [Hg1 Hg2].
  pose proof (br_stacks _ Hr) as Hst. rewrite <- Hhs in Hst.
  assert (forall a, ~ hs - 64 <= a < hs -> hm_byte (cpu_mem cm) a = hm_byte (cpu_mem c2) a) as Hmem.
  { intros a Ha. rewrite Hm, !host_put_get, !le_encode_length. change (Z.of_nat 8) with 8.
    by rewrite !(proj2 (in_range_false _ _ _)) by lia. }
  destruct (bm_args _ _ Hmv) as (? & ? & ? & ?).
  split; rewrite ?Hsp; try assumption.
  - by rewrite !Hrm by discriminate; split_and!.
  - rewrite Hm. replace (hs - 64 + 40) with (hs - 24) by ring. replace (hs - 64 + 48) with (hs - 16) by ring.
    replace (hs - 64 + 56) with (hs - 8) by ring. split_and!.
    + rewrite !host_word_put_ne by lia. apply host_word_put_wrap.
    + rewrite !host_word_put_ne by lia. apply host_word_put_wrap.
    + rewrite host_word_put_ne by lia. apply host_word_put, host_word_u64.
  - by rewrite Hhs.
  - rewrite Hm. apply host_word_put. unfold in_u64. lia.
  - rewrite Hrm by discriminate. apply Hmv.
  - intros r Hin. destruct (kept_not_moved r Hin) as (? & ? & _). rewrite Hrm by assumption. by apply (bm_regs _ _ Hmv).
  - assert (forall (i : nat) r, [r12; r13; r14] !! i = Some r ->
      host_word (cpu_mem cm) (cpu_reg c rsp - 8 * (Z.of_nat i + 1)) = wrap64 (cpu_reg c r)) as Hsl.
    { intros i r Hi. rewrite <- (bm_slots _ _ Hmv i r Hi). apply lookup_lt_Some in Hi. cbn [length] in Hi.
      apply host_word_ext. intros a Ha. apply Hmem. lia. }
    split_and!; [apply (Hsl 2%nat)|apply (Hsl 1%nat)|apply (Hsl 0%nat)]; done.
  - intros a Ha1 Ha2. rewrite Hmem by lia. by apply (bm_mem _ _ Hmv).
  - rewrite Hm. apply (bm_prot _ _ Hmv).
Qed.

(** The switch to the host's stack and the call. *)
Lemma exec_host_side c c2 :
  bridge_ready slot teb_offset c -> bridge_moved c c2 -> cpu_rip c = base ->
  code_at (cpu_mem c2) base code ->
  exists c3 cm, exec_listing (host_listing x0 x1 x2 x3) c2 = Some c3 /\ cpu_rip c3 = base + 78 /\
    exec (CALLR (op_reg rax)) (set_rip c3 (base + 80)) = Some cm /\
    host_called code base slot teb_offset c cm.
Proof.
  intros Hr Hmv Hip Hc2. pose proof (ca_range _ _ _ Hc2) as Hrange. change (zlen code) with 128 in Hrange.
  destruct (br_guest _ Hr) as [Hg1 Hg2]. destruct (br_host _ Hr) as [Hh1 Hh2].
  pose proof (br_host_write _ Hr) as Hhw. rewrite host_allows_true in Hhw by lia.
  pose proof Hmv as [Hrip2 _ (H213 & H214 & H210) H211 _ _ _ H2m H2p].
  set (hs := host_word (cpu_mem c) (teb_slot teb_offset c)) in *. set (g := cpu_reg c rsp) in *.
  destruct (exec_host c2) as (c3 & Hx3 & H3sp & H3ax & H3r & _ & H3m); rewrite ?H211, ?H2p.
  { unfold in_u64. lia. }
  { lia. }
  { lia. }
  { apply host_allows_true; [lia|]. intros a Ha. rewrite H2p. apply Hhw. lia. }
  { rewrite (host_allows_prot _ (cpu_mem c)); [apply (br_slot_read _ Hr)|lia|]. intros a _. by rewrite H2p. }
  { pose proof (br_slot_host _ Hr) as Hsh. fold hs in Hsh. lia. }
  rewrite H211 in H3sp, H3m. rewrite (host_word_ext (cpu_mem c) (cpu_mem c2) slot) in H3ax
    by (intros a Ha; apply H2m; pose proof (br_slot_guest _ Hr) as Hsg; fold g in Hsg; lia).
  pose proof (exec_listing_rip (host_listing x0 x1 x2 x3) _ _ eq_refl Hx3) as Hip3.
  change (zlen (listing_bytes (host_listing x0 x1 x2 x3))) with 29 in Hip3.
  assert (hm_prot (cpu_mem c3) = hm_prot (cpu_mem c)) as Hpr3 by (rewrite H3m; exact H2p).
  set (cm := set_rip (set_mem (set_reg (set_rip c3 (base + 80)) rsp (hs - 64))
     (host_put (cpu_mem c3) (hs - 64) (le_encode 8 (base + 80)))) (host_word (cpu_mem c) slot)).
  assert (exec (CALLR (op_reg rax)) (set_rip c3 (base + 80)) = Some cm) as Hcall.
  { cbn [exec read_operand mbind option_bind]. unfold push. cbn [cpu_reg set_rip].
    rewrite H3sp, wrap64_small by (unfold in_u64; lia). replace (hs - 56 - 8) with (hs - 64) by ring.
    rewrite store64_ok; cbn [mbind option_bind cpu_mem set_reg set_rip cpu_rip]; [by rewrite H3ax|].
    apply host_allows_true; [lia|]. intros a Ha. rewrite Hpr3. apply Hhw. lia. }
  exists c3, cm. split; [exact Hx3|]. split; [lia|]. split; [exact Hcall|].
  apply (switched_is_called c c2 cm hs); try done.
  - eapply exec_code; [exact Hcall|]. cbn [cpu_mem set_rip]. by eapply exec_listing_code.
  - intros r Hn1 Hn2. rewrite <- H3r by done. cbn. by rewrite upd_ne.
  - cbn [cm cpu_mem set_rip set_mem]. by rewrite H3m, H213, H214, H210.
Qed.

Lemma run_bridge c :
  code_at (cpu_mem c) base code -> cpu_rip c = base -> bridge_ready slot teb_offset c ->
  exists cm, steps c cm /\ host_called code base slot teb_offset c cm.
Proof.
  intros Hc Hip Hr. destruct (exec_guest_side c Hr) as (c2 & Hx2 & Hmv).
  destruct (exec_host_side c c2 Hr Hmv Hip) as (c3 & cm & Hx3 & Hip3 & Hcall & Hcm);
    [by eapply exec_listing_code|]. exists cm. split; [|exact Hcm].
  eapply (steps_listing_at code base 0 (push_listing ++ args_listing t0 t1 t2 t3));
    [exact Hc|eauto using listing_ok_app, bridge_push_ok, bridge_args_ok|at_offset|reflexivity|cbn; lia|exact Hx2|].
  intros Hc2 _. eapply (steps_listing_at code base 49);
    [exact Hc2|apply (bridge_host_ok x0 x1 x2 x3)|at_offset|reflexivity|rewrite (bm_rip _ _ Hmv); cbn; lia|exact Hx3|].
  intros Hc3 _. eapply (steps_code_at code base 78); [exact Hc3|exact bridge_call_ok|at_offset|cbn; lia| |].
  { change (base + Z.of_nat 78 + zlen call_bytes) with (base + 78 + 2).
    replace (base + 78 + 2) with (base + 80) by ring. exact Hcall. }
  intros _. apply rtc_refl.
Qed.

(** The way back up to the return: the guest's stack, and the registers that
    the bridge had saved. *)
Lemma exec_back c cm cr :
  bridge_ready slot teb_offset c -> host_called code base slot teb_offset c cm -> host_returned code base c cm cr ->
  exists c2, exec_listing (back_listing ++ pop_listing) cr = Some c2 /\ cpu_rip c2 = cpu_rip cr + 13 /\
    cpu_reg c2 rsp = cpu_reg c rsp /\ cpu_mem c2 = cpu_mem cr /\
    (forall (i : nat) r, [r14; r13; r12] !! i = Some r ->
       cpu_reg c2 r = host_word (cpu_mem cm) (cpu_reg c rsp - 24 + 8 * Z.of_nat i)) /\
    (forall r, r <> rsp -> r ∉ [r14; r13; r12] -> cpu_reg c2 r = cpu_reg cr r).
Proof.
  intros Hr Hcm Hcr. destruct (br_guest _ Hr) as [Hg1 Hg2].
  pose proof (hr_read _ _ _ Hcr) as Hread. rewrite host_allows_true in Hread by lia.
  assert (cpu_reg cr r12 = cpu_reg c rsp) as H12.
  { rewrite (hr_regs _ _ _ Hcr r12); [apply (hc_r12 _ _ Hcm)|]. unfold ms_nonvolatile. rewrite !elem_of_cons. tauto. }
  set (g := cpu_reg c rsp) in *.
  assert (exists c1, exec_listing back_listing cr = Some c1 /\ cpu_reg c1 rsp = g - 24 /\
    (forall r, r <> rsp -> cpu_reg c1 r = cpu_reg cr r) /\ cpu_mem c1 = cpu_mem cr) as (c1 & Hx1 & Hsp1 & Hr1 & Hm1).
  { destruct cr as [f x fl fs gs ip h]. cbn [cpu_reg] in H12. eexists. split.
    - unfold back_listing. do 2 exec_one. rewrite H12. reflexivity.
    - cbn [cpu_reg cpu_mem]. read_regs. split_and!; [|intros r Hn; by rewrite !upd_ne|done].
      apply wrap64_small. unfold in_u64. cbn. lia. }
  pose proof (exec_listing_rip back_listing _ _ eq_refl Hx1) as Hip1.
  change (zlen (listing_bytes back_listing)) with 7 in Hip1.
  destruct (exec_pops [r14; r13; r12] pop_listing c1) as (c2 & Hx2 & Hip2 & Hp); [reflexivity| | |lia|cbn; lia| |].
  { reg_notin. }
  { apply (bool_decide_unpack _). vm_compute. done. }
  { rewrite Hsp1, Hm1. apply host_allows_true; [cbn; lia|]. intros a Ha. apply Hread. cbn in Ha. lia. }
  change (zlen (listing_bytes pop_listing)) with 6 in Hip2.
  pose proof (po_rsp _ _ _ Hp) as Hsp2. rewrite Hsp1 in Hsp2. change (8 * zlen [r14; r13; r12]) with 24 in Hsp2.
  exists c2. split_and!; [by rewrite exec_listing_app, Hx1|lia|lia|by rewrite (po_mem _ _ _ Hp)| |].
  - intros i r Hi. rewrite (po_slot _ _ _ Hp i r Hi), Hsp1, Hm1. apply lookup_lt_Some in Hi. cbn [length] in Hi.
    apply host_word_ext. intros y Hy. apply (hr_stack _ _ _ Hcr). fold g. lia.
  - intros r Hn Hni. by rewrite (po_regs _ _ _ Hp), Hr1.
Qed.

(** Those registers are the guest's. *)
Lemma back_restores c cm cr c2 :
  (forall r, in_u64 (cpu_reg c r)) -> host_called code base slot teb_offset c cm -> host_returned code base c cm cr ->
  (forall (i : nat) r, [r14; r13; r12] !! i = Some r ->
     cpu_reg c2 r = host_word (cpu_mem cm) (cpu_reg c rsp - 24 + 8 * Z.of_nat i)) ->
  (forall r, r <> rsp -> r ∉ [r14; r13; r12] -> cpu_reg c2 r = cpu_reg cr r) ->
  forall r, r ∈ [rbx; rbp; r12; r13; r14; r15] -> cpu_reg c2 r = cpu_reg c r.
Proof.
  intros Hu Hcm Hcr Hsl Hkeep r Hin. destruct (hc_saved _ _ Hcm) as (Hs14 & Hs13 & Hs12).
  assert (r ∈ [rbx; rbp; rdi; rsi; r15] \/ r = r12 \/ r = r13 \/ r = r14) as [Hk|Hk].
  { rewrite !elem_of_cons in *. tauto. }
  - destruct (kept_not_moved r Hk) as (Hn1 & _ & Hn2).
    assert (r ∉ [r14; r13; r12]) as Hn3 by (rewrite !not_elem_of_cons in Hn2 |- *; tauto).
    rewrite Hkeep by assumption. rewrite (hr_regs _ _ _ Hcr); [by apply (hc_regs _ _ Hcm)|].
    unfold ms_nonvolatile. rewrite !elem_of_cons in *. tauto.
  - destruct Hk as [->|[->| ->]].
    + rewrite (Hsl 2%nat) by reflexivity. replace (_ - 24 + 8 * Z.of_nat 2) with (cpu_reg c rsp - 8) by (cbn; ring).
      rewrite Hs12. apply wrap64_small, Hu.
    + rewrite (Hsl 1%nat) by reflexivity. replace (_ - 24 + 8 * Z.of_nat 1) with (cpu_reg c rsp - 16) by (cbn; ring).
      rewrite Hs13. apply wrap64_small, Hu.
    + rewrite (Hsl 0%nat) by reflexivity. replace (_ - 24 + 8 * Z.of_nat 0) with (cpu_reg c rsp - 24) by (cbn; ring).
      rewrite Hs14. apply wrap64_small, Hu.
Qed.

Lemma run_bridge_back c cm cr :
  bridge_ready slot teb_offset c -> (forall r, in_u64 (cpu_reg c r)) -> host_called code base slot teb_offset c cm -> host_returned code base c cm cr ->
  exists cf, steps cr cf /\ guest_returned c cr cf.
Proof.
  intros Hr Hu Hcm Hcr. destruct (br_guest _ Hr) as [Hg1 Hg2].
  pose proof (hr_read _ _ _ Hcr) as Hread. rewrite host_allows_true in Hread by lia.
  assert (cpu_rip cr = base + 80) as Hip by (by rewrite (hr_rip _ _ _ Hcr), (hc_return _ _ Hcm)).
  destruct (exec_back c cm cr Hr Hcm Hcr) as (c2 & Hx2 & Hip2 & Hsp2 & Hm2 & Hsl & Hkeep).
  assert (host_word (cpu_mem cr) (cpu_reg c rsp) = host_word (cpu_mem c) (cpu_reg c rsp)) as Hret.
  { apply host_word_ext. intros a Ha. rewrite (hr_stack _ _ _ Hcr) by lia. pose proof (br_stacks _ Hr).
    apply (hc_mem _ _ Hcm); rewrite ?(hc_rsp _ _ Hcm); lia. }
  set (cf := set_rip (set_reg (set_rip c2 (base + 93 + 1)) rsp (wrap64 (cpu_reg c rsp + 8)))
               (host_word (cpu_mem c) (cpu_reg c rsp))).
  assert (exec RET (set_rip c2 (base + Z.of_nat 93 + zlen bridge_ret)) = Some cf) as Hx3.
  { cbn [exec]. unfold pop. cbn [cpu_mem cpu_reg set_rip]. rewrite Hsp2, Hm2, load64_ok.
    - cbn [mbind option_bind]. by rewrite Hret.
    - apply host_allows_true; [lia|]. intros a Ha. apply Hread. lia. }
  exists cf. split.
  - eapply (steps_listing_at code base 80 (back_listing ++ pop_listing));
      [apply Hcr|eauto using listing_ok_app, bridge_back_ok, bridge_pop_ok|at_offset|reflexivity|exact Hip|exact Hx2|].
    intros Hc2 _. eapply (steps_code_at code base 93); [exact Hc2|exact bridge_ret_ok|at_offset| |exact Hx3|].
    { change (Z.of_nat 93) with 93. lia. }
    intros _. apply rtc_refl.
  - assert (forall r, r <> rsp -> cpu_reg cf r = cpu_reg c2 r) as Hcf by (intros r Hn; cbn; by rewrite upd_ne).
    split; [reflexivity| | | |exact Hm2].
    + cbn [cf cpu_reg set_rip set_reg]. rewrite upd_eq. apply wrap64_small. unfold in_u64. lia.
    + rewrite Hcf, Hkeep; [done|discriminate| |discriminate].
      reg_notin.
    + intros r Hin. rewrite Hcf; [by eapply back_restores|]. intros ->. reg_absurd Hin.
Qed.
End Run.
