(* ===== verification/HleBridgeProps.v ===== *)
(** * Properties of the bridges on Windows

    What [create_bridges] and [add] leave in memory, that a registry with
    several tables keeps every bridge it has given out, and the two properties
    of the component: a registered function is served, and a call of its bridge
    reaches it. *)

From S2P Require Import Prelude NativeArena X86 Symbols HleRegistry HleBridge HleBridgeCode.
Import Bridge.

Local Open Scope Z_scope.

(** ** Tables in memory *)

Definition bridge_address (t : BridgeTable) (i : Z) : Z := arena_base (bt_arena t) + i * kThunkSize.
Definition bridge_slot (t : BridgeTable) (i : Z) : Z :=
  arena_base (bt_arena t) + bt_data_offset t + i * data_size.

(** A table as [create_bridges] leaves it and [add] keeps it: the code of every
    bridge with its own slot, on pages that can be executed and not written,
    and the slots on pages of their own. *)
Record table_in (t : BridgeTable) (h : HostMem) (teb_offset : Z) : Prop := {
  ti_layout : 0 < arena_base (bt_arena t) /\ 0 < bt_capacity t /\
    bt_capacity t * kThunkSize <= bt_data_offset t /\
    bt_data_offset t + bt_capacity t * data_size <= arena_size (bt_arena t) /\
    arena_base (bt_arena t) + arena_size (bt_arena t) <= u64_max;
  ti_used : 0 <= bt_used t <= bt_capacity t;
  ti_bridge i : 0 <= i < bt_capacity t -> exists code,
    is_bridge code (bridge_address t i) (bridge_slot t i) teb_offset /\ code_at h (bridge_address t i) code;
  ti_slots a : bridge_slot t 0 <= a < bridge_slot t (bt_capacity t) ->
    hm_prot h a = Z.lor PROT_READ PROT_WRITE;
}.

Lemma is_bridge_length code address slot teb_offset :
  is_bridge code address slot teb_offset -> zlen code = kThunkSize.
Proof. by intros (t0 & t1 & t2 & t3 & x0 & x1 & x2 & x3 & -> & _). Qed.

Section Tables.
Context `{HostOs, !HostOsLaws H}.

(** The loop writes the bridges of its indices and touches nothing else. *)
Lemma emit_loop_spec count arena h data_offset teb_offset i ok h' :
  0 <= arena_base arena -> 0 <= i -> 0 <= data_offset ->
  arena_base arena + arena_size arena <= u64_max ->
  arena_base arena + data_offset + (i + Z.of_nat count) * data_size <= u64_max ->
  emit_loop count arena h data_offset teb_offset i = Ok (ok, h') ->
  hm_prot h' = hm_prot h /\
  (forall a, ~ arena_base arena + i * kThunkSize <= a
               < arena_base arena + (i + Z.of_nat count) * kThunkSize -> hm_byte h' a = hm_byte h a) /\
  (ok = true -> forall j, i <= j < i + Z.of_nat count -> exists code,
     is_bridge code (arena_base arena + j * kThunkSize) (arena_base arena + data_offset + j * data_size) teb_offset /\
     host_bytes h' (arena_base arena + j * kThunkSize) kThunkSize = code).
Proof.
  unfold kThunkSize, data_size.
  revert h i. induction count as [|count IH]; intros h i Hb Hi Hd Hend Hdata; cbn [emit_loop].
  { intros [= <- <-]. split_and!; [done..|]. intros _ j Hj. lia. }
  unfold kThunkSize, data_size. intros Hw. apply bind_Ok in Hw as ([code|] & He & Hw);
    [|by injection Hw as <- <-].
  apply bind_Ok in Hw as ([copied h1] & Hcp & Hw).
  apply arena_copy_spec in Hcp as [[-> ->]|(-> & -> & Hle)]; cbn [negb] in Hw; [by injection Hw as <- <-|].
  apply emit_bridge_is_bridge in He; [|apply wrap64_range]. pose proof (is_bridge_length _ _ _ _ He) as Hlen.
  change kThunkSize with 128 in Hlen.
  rewrite (wrap64_small (arena_base arena + i * 128)), (wrap64_small (arena_base arena + data_offset + i * 8)) in He
    by (unfold in_u64; lia).
  destruct (IH (host_put h (arena_base arena + i * 128) code) (i + 1)) as (Hp & Hby & Hth); [lia..|done|].
  split; [by rewrite Hp|]. split.
  - intros a Ha. rewrite Hby by lia. rewrite host_put_get.
    by rewrite (proj2 (in_range_false _ _ _)) by lia.
  - intros Hok j Hj. destruct (decide (j = i)) as [->|Hji]; [|apply Hth; [done|lia]].
    exists code. split; [done|].
    rewrite (host_bytes_ext (host_put h (arena_base arena + i * 128) code) h') by (intros a Ha; apply Hby; lia).
    rewrite <- Hlen. apply host_bytes_put.
Qed.

(** A new table is ready. *)
Lemma create_bridges_spec h capacity teb t h' :
  in_u64 capacity -> create_bridges h capacity teb = Ok (Some t, h') ->
  exists teb_offset, teb = Some teb_offset /\ bt_capacity t = capacity /\ bt_used t = 0 /\
    table_in t h' teb_offset.
Proof.
  unfold create_bridges. intros Hc Hcr. pose proof page_size_pos as Hpage.
  change (u64_max / kThunkSize) with 144115188075855871 in Hcr.
  change (u64_max / data_size) with 2305843009213693951 in Hcr. unfold kThunkSize, data_size in Hcr.
  destruct (_ || _) eqn:Hcap in Hcr; [done|]. bools.
  destruct (checked_align_up (capacity * 128) page_size) as [code_size|] eqn:Ecs; [|done].
  destruct (checked_align_up (capacity * 8) page_size) as [slot_size|] eqn:Eds; [|done].
  apply checked_align_up_Some in Ecs as (Hcs & Hcsm & Hcsr & _), Eds as (Hds & Hdsm & Hdsr & _);
    [|unfold in_u64 in *; lia..].
  destruct (Z.ltb_spec (u64_max - slot_size) code_size); [done|].
  destruct (reserve h (code_size + slot_size) 0) as [[arena h0]|] eqn:Hres; [|done].
  apply reserve_spec in Hres as (Hsz & _ & Hb & Hend & _ & _ & _); [|unfold in_u64 in *; lia].
  destruct (arena_protect arena h0 0 code_size _) as [[] h1] eqn:Hp1; [|done].
  destruct (arena_protect arena h1 code_size slot_size _) as [[] h2] eqn:Hp2; [|done]. cbn [negb] in Hcr.
  apply bind_Ok in Hcr as ([ok h3] & Hemit & Hcr). destruct ok; [|done]. cbn [negb] in Hcr. injection Hcr as <- <-.
  unfold emit_all in Hemit. destruct teb as [teb_offset|]; [|done]. exists teb_offset.
  cbn [bt_arena bt_capacity bt_data_offset] in Hemit.
  apply bind_Ok in Hemit as ([ok h4] & Hloop & Hemit). destruct ok; [|done]. cbn [negb] in Hemit.
  destruct (negb (arena_flush _ _ _)); [done|]. apply Ok_inj in Hemit as Hp3.
  apply arena_protect_exact in Hp1 as [Hb1 Hq1], Hp2 as [Hb2 Hq2], Hp3 as [Hb3 Hq3]; [|done..].
  apply emit_loop_spec in Hloop as (Hq4 & Hb4 & Hth); [|unfold in_u64, data_size in *; lia..].
  specialize (Hth eq_refl). unfold in_u64, kThunkSize, data_size in *. rewrite Z.add_0_r in *.
  split_and!; [done|done|done|].
  - split; unfold bridge_address, bridge_slot, kThunkSize, data_size; cbn [bt_arena bt_capacity bt_data_offset bt_used].
    + lia.
    + lia.
    + intros i Hi. destruct (Hth i) as (code & Hbr & Hcode); [lia|]. exists code. split; [done|].
      pose proof (is_bridge_length _ _ _ _ Hbr) as Hlen. change kThunkSize with 128 in Hlen.
      split; rewrite ?Hlen.
      * lia.
      * rewrite <- Hcode. apply host_bytes_ext. intros a _. apply Hb3.
      * intros a Ha. rewrite Hq3, (proj2 (in_range_true _ _ _)) by lia. done.
      * intros a Ha. rewrite Hq3, (proj2 (in_range_true _ _ _)) by lia. done.
    + intros a Ha. rewrite Hq3, (proj2 (in_range_false _ _ _)), Hq4, Hq2, (proj2 (in_range_true _ _ _)) by lia.
      done.
Qed.
End Tables.

Section Frame.
Context `{HostOs, !HostOsLaws H}.

Lemma emit_loop_inside count arena h data_offset teb_offset i ok h' :
  0 <= i -> emit_loop count arena h data_offset teb_offset i = Ok (ok, h') -> inside arena h h'.
Proof.
  revert h i. induction count as [|count IH]; cbn [emit_loop]; intros h i Hi Hw; [by injection Hw as _ <-|].
  apply bind_Ok in Hw as ([code|] & _ & Hw); [|by injection Hw as _ <-].
  apply bind_Ok in Hw as ([copied h1] & Hc & Hw).
  apply copy_inside in Hc; [|unfold kThunkSize; lia].
  destruct (negb copied); [by injection Hw as _ <-|]. etrans; [exact Hc|]. eapply IH; [|exact Hw]. lia.
Qed.

Lemma emit_all_inside t h teb ok h' :
  in_u64 (bt_data_offset t) -> emit_all t h teb = Ok (ok, h') -> inside (bt_arena t) h h'.
Proof.
  intros Hd. unfold emit_all. destruct teb as [teb|]; [|by intros [= _ <-]]. intros He.
  apply bind_Ok in He as ([ok1 h1] & Hl & He). apply emit_loop_inside in Hl; [|done].
  destruct (negb ok1); [by injection He as _ <-|]. destruct (negb _); [by injection He as _ <-|].
  apply Ok_inj in He. etrans; [exact Hl|]. by eapply protect_inside.
Qed.

(** Whatever it answers, [create_bridges] changes nothing but the arena it
    reserves. *)
Lemma create_bridges_inside h capacity teb o h' :
  in_u64 capacity -> create_bridges h capacity teb = Ok (o, h') ->
  (o = None /\ h' = h) \/ exists size arena h1, in_u64 size /\ reserve h size 0 = Some (arena, h1) /\ inside arena h h' /\
    forall t, o = Some t -> bt_arena t = arena.
Proof.
  unfold create_bridges. intros Hc Hcr. pose proof page_size_pos as Hpage.
  destruct (_ || _) eqn:Hcap in Hcr; [left; by injection Hcr as <- <-|]. bools.
  change (u64_max / kThunkSize) with 144115188075855871 in *.
  change (u64_max / data_size) with 2305843009213693951 in *. unfold kThunkSize, data_size in Hcr.
  destruct (checked_align_up (capacity * 128) page_size) as [code_size|] eqn:Ecs;
    [|left; by injection Hcr as <- <-].
  destruct (checked_align_up (capacity * 8) page_size) as [slot_size|] eqn:Eds;
    [|left; by injection Hcr as <- <-].
  apply checked_align_up_Some in Ecs as (Hcs & _ & Hcsr & _), Eds as (Hds & _ & Hdsr & _);
    [|unfold in_u64 in *; lia..].
  destruct (Z.ltb_spec (u64_max - slot_size) code_size); [left; by injection Hcr as <- <-|].
  destruct (reserve h (code_size + slot_size) 0) as [[arena h0]|] eqn:Hres; [|left; by injection Hcr as <- <-].
  right. exists (code_size + slot_size), arena, h0.
  assert (in_u64 (code_size + slot_size)) as Hsz by (unfold in_u64 in *; lia).
  split; [done|]. split; [done|]. apply reserve_inside in Hres; [|done].
  destruct (arena_protect arena h0 0 code_size _) as [ok1 h1] eqn:Hp1. apply protect_inside in Hp1; [|done..].
  destruct ok1; cbn [negb] in Hcr.
  2: { injection Hcr as <- <-. split; [|done]. etrans; [|apply release_inside]. by etrans. }
  destruct (arena_protect arena h1 code_size slot_size _) as [ok2 h2] eqn:Hp2.
  apply protect_inside in Hp2; [|unfold in_u64 in *; lia..]. destruct ok2; cbn [negb] in Hcr.
  2: { injection Hcr as <- <-. split; [|done]. etrans; [|apply release_inside]. etrans; [by etrans|done]. }
  apply bind_Ok in Hcr as ([ok3 h3] & He & Hcr). apply emit_all_inside in He; [|done]. cbn [bt_arena] in He.
  assert (inside arena h h3) as Hin3 by (etrans; [exact Hres|]; etrans; [exact Hp1|]; etrans; [exact Hp2|exact He]).
  destruct ok3; cbn [negb] in Hcr; injection Hcr as <- <-.
  - split; [done|]. by intros t [= <-].
  - split; [|done]. etrans; [exact Hin3|apply release_inside].
Qed.
End Frame.

(** ** The registry *)

(** The arenas of two tables do not meet. *)
Definition apart (t t' : BridgeTable) : Prop :=
  arena_base (bt_arena t) + arena_size (bt_arena t) <= arena_base (bt_arena t') \/
  arena_base (bt_arena t') + arena_size (bt_arena t') <= arena_base (bt_arena t).

Record bridges_in (ts : list BridgeTable) (h : HostMem) (teb_offset : Z) : Prop := {
  bi_tables : Forall (fun t => table_in t h teb_offset) ts;
  bi_apart : ForallOrdPairs apart ts;
}.

(** An address is a bridge of the tables, in use for a function. *)
Definition serves (ts : list BridgeTable) (h : HostMem) (address function : Z) : Prop :=
  exists t i, t ∈ ts /\ 0 <= i < bt_used t /\ address = bridge_address t i /\
    host_word h (bridge_slot t i) = function.

Lemma table_in_ext t h h' teb_offset :
  (forall a, arena_base (bt_arena t) <= a < arena_base (bt_arena t) + arena_size (bt_arena t) ->
     hm_byte h' a = hm_byte h a /\ hm_prot h' a = hm_prot h a) ->
  table_in t h teb_offset -> table_in t h' teb_offset.
Proof.
  intros He [Hl Hu Hb Hs]. unfold bridge_address, bridge_slot, kThunkSize, data_size in *. split; try done.
  - intros i Hi. destruct (Hb i Hi) as (code & Hbr & [Hr Hby Hx Hw]). exists code. split; [done|].
    pose proof (is_bridge_length _ _ _ _ Hbr) as Hlen. change kThunkSize with 128 in Hlen.
    split; [done| | |].
    + rewrite <- Hby at 2. apply host_bytes_ext. intros a Ha. apply He. unfold bridge_address, kThunkSize in *. lia.
    + intros a Ha. rewrite (proj2 (He a ltac:(unfold bridge_address, kThunkSize in *; lia))). by apply Hx.
    + intros a Ha. rewrite (proj2 (He a ltac:(unfold bridge_address, kThunkSize in *; lia))). by apply Hw.
  - intros a Ha. unfold bridge_slot, data_size in *. rewrite (proj2 (He a ltac:(lia))). by apply Hs.
Qed.

(** [add] takes the next bridge of a table that has one left. *)
Lemma add_spec t h teb_offset function :
  table_in t h teb_offset -> in_u64 function ->
  add t h function =
    if (function =? 0) || (bt_capacity t <=? bt_used t) then Ok (None, (t, h))
    else Ok (Some (bridge_address t (bt_used t)),
             (mkBridgeTable (bt_arena t) (bt_capacity t) (bt_used t + 1) (bt_data_offset t),
              host_put h (bridge_slot t (bt_used t)) (le_encode 8 function))).
Proof.
  intros [Hl Hu Hb Hs] Hf. unfold add. destruct (_ || _) eqn:Hg; [done|]. bools.
  unfold bridge_address, bridge_slot, kThunkSize, data_size in *.
  rewrite !wrap64_small by (unfold in_u64; lia). unfold host_memcpy. rewrite le_encode_length.
  change (Z.of_nat 8) with 8. rewrite (proj2 (host_writable_true _ _ _ eight_nonneg)); [done|].
  intros a Ha. rewrite Hs by lia. done.
Qed.

(** The store leaves every table as it is, but for the slot. *)
Lemma add_table_in t h teb_offset function :
  table_in t h teb_offset -> bt_used t < bt_capacity t ->
  table_in (mkBridgeTable (bt_arena t) (bt_capacity t) (bt_used t + 1) (bt_data_offset t))
    (host_put h (bridge_slot t (bt_used t)) (le_encode 8 function)) teb_offset.
Proof.
  intros [Hl Hu Hb Hs] Hc. split; [done|cbn; lia| |done].
  intros i Hi. destruct (Hb i Hi) as (code & Hbr & Hcode). exists code. split; [done|].
  eapply mem_step_code; [|exact Hcode]. right. exists (bridge_slot t (bt_used t)), (le_encode 8 function). split; [|done].
  rewrite le_encode_length. change (Z.of_nat 8) with 8. apply host_allows_true; [lia|]. unfold bridge_slot, data_size in *. cbn [bt_arena bt_data_offset] in *.
  intros a Ha. rewrite Hs by lia. done.
Qed.

Lemma slot_inside t h teb_offset i : table_in t h teb_offset -> 0 <= i < bt_capacity t ->
  arena_base (bt_arena t) <= bridge_slot t i /\
  bridge_slot t i + 8 <= arena_base (bt_arena t) + arena_size (bt_arena t).
Proof. intros [Hl _ _ _] Hi. unfold bridge_slot, kThunkSize, data_size in *. lia. Qed.

(** A store into a slot of a table keeps another one. *)
Lemma put_table_in t t' h teb_offset i v :
  table_in t h teb_offset -> table_in t' h teb_offset -> apart t t' -> 0 <= i < bt_capacity t ->
  table_in t' (host_put h (bridge_slot t i) (le_encode 8 v)) teb_offset.
Proof.
  intros Ht Ht' Ha Hi. apply (table_in_ext t' h); [|done]. intros a Hin. split; [|done].
  destruct (host_put_word_byte h (bridge_slot t i) v a) as [|Hr]; [done|].
  pose proof (slot_inside _ _ _ _ Ht Hi). unfold apart in Ha. lia.
Qed.

Lemma serves_mono ts ts' h h' address function :
  (forall t i, t ∈ ts -> 0 <= i < bt_used t -> exists t', t' ∈ ts' /\ bt_arena t' = bt_arena t /\
     bt_data_offset t' = bt_data_offset t /\ bt_used t <= bt_used t' /\
     host_word h' (bridge_slot t i) = host_word h (bridge_slot t i)) ->
  serves ts h address function -> serves ts' h' address function.
Proof.
  intros Hm (t & i & Hin & Hi & -> & Hw). destruct (Hm t i Hin Hi) as (t' & Hin' & Ha & Hd & Hu & Hw').
  exists t', i. unfold bridge_address, bridge_slot in *. rewrite Ha, Hd. split_and!; [done|lia..|done|congruence].
Qed.

Lemma fop_app ts t : ForallOrdPairs apart ts ->
  Forall (fun t' => apart t' t) ts -> ForallOrdPairs apart (ts ++ [t]).
Proof.
  induction ts as [|x ts IH]; cbn; intros Hap Ha; [by repeat constructor|].
  inversion Hap as [|? ? Hx Hap']; subst. apply Forall_cons in Ha as [Hx' Ha]. constructor; [|by apply IH].
  apply Forall_app. split; [done|]. by apply Forall_singleton.
Qed.

Section Registration.
Context `{HostOs, !HostOsLaws H} (teb_offset : Z).

(** A reservation is apart from the tables there are: [mmap] answers a range
    that nothing is mapped to. *)
Definition mmap_fresh (ts : list BridgeTable) (h : HostMem) : Prop :=
  forall h1 size arena h2, hm_calls h1 = hm_calls h -> reserve h1 size 0 = Some (arena, h2) ->
    Forall (fun t => arena_base (bt_arena t) + arena_size (bt_arena t) <= arena_base arena \/
                     arena_base arena + arena_size arena <= arena_base (bt_arena t)) ts.

(** A change inside a new arena keeps the tables. *)
Lemma bridges_in_inside ts h h' arena :
  inside arena h h' ->
  Forall (fun t => arena_base (bt_arena t) + arena_size (bt_arena t) <= arena_base arena \/
                   arena_base arena + arena_size arena <= arena_base (bt_arena t)) ts ->
  bridges_in ts h teb_offset ->
  bridges_in ts h' teb_offset /\ forall a f, serves ts h a f -> serves ts h' a f.
Proof.
  intros Hi Ha [Ht Hap]. rewrite Forall_forall in Ha, Ht. split.
  - split; [|done]. apply Forall_forall. intros t Hin. eapply table_in_ext; [|by apply Ht].
    intros a Hin'. apply Hi. specialize (Ha t Hin). lia.
  - intros a f. apply serves_mono. intros t i Hin Hi'. exists t. split_and!; [done..|lia|].
    destruct (ti_used _ _ _ (Ht t Hin)) as [_ Hu].
    destruct (slot_inside t h teb_offset i (Ht t Hin) ltac:(lia)).
    apply host_word_ext. intros y Hy. apply Hi. specialize (Ha t Hin). lia.
Qed.

(** A bridge of the last table is taken into use. *)
Lemma add_bridges_in ts back h function :
  bridges_in (ts ++ [back]) h teb_offset -> in_u64 function -> bt_used back < bt_capacity back ->
  let back' := mkBridgeTable (bt_arena back) (bt_capacity back) (bt_used back + 1) (bt_data_offset back) in
  let h' := host_put h (bridge_slot back (bt_used back)) (le_encode 8 function) in
  bridges_in (ts ++ [back']) h' teb_offset /\
  (forall a f, serves (ts ++ [back]) h a f -> serves (ts ++ [back']) h' a f) /\
  serves (ts ++ [back']) h' (bridge_address back (bt_used back)) function.
Proof.
  intros [Ht Hap] Hf Hc back' h'. apply Forall_app in Ht as [Ht Hb]. apply Forall_cons in Hb as [Hb _].
  assert (forall t, t ∈ ts -> apart back t) as Hba.
  { intros t Hin. apply list_elem_of_In in Hin. apply In_nth_error in Hin as [n Hn].
    induction ts as [|x ts IH] in n, Hn, Hap |- *; [by destruct n|].
    inversion Hap as [|? ? Hx Hap']; subst. destruct n as [|n]; cbn in Hn; [|by eapply IH].
    injection Hn as ->. rewrite Forall_forall in Hx. specialize (Hx back). unfold apart in *.
    destruct Hx; [apply elem_of_app; right; by left|lia|lia]. }
  pose proof (ti_used _ _ _ Hb) as Hu. split; [|split].
  - split.
    + apply Forall_app. split; [|by apply Forall_singleton, add_table_in].
      rewrite Forall_forall in Ht |- *. intros t Hin. apply put_table_in; [done|by apply Ht|by apply Hba|lia].
    + clear -Hap. induction ts as [|x ts IH]; cbn in *; [by repeat constructor|].
      inversion Hap as [|? ? Hx Hap']; subst. constructor; [|by apply IH].
      apply Forall_app in Hx as [Hx1 Hx2]. apply Forall_app. split; [done|].
      apply Forall_cons in Hx2 as [Hx2 _]. by apply Forall_singleton.
  - intros a f. apply serves_mono. intros t i Hin Hi. apply elem_of_app in Hin as [Hin|Hin].
    + exists t. split_and!; [apply elem_of_app; by left|done..|].
      rewrite Forall_forall in Ht. destruct (ti_used _ _ _ (Ht t Hin)) as [_ Hu'].
      destruct (slot_inside t h teb_offset i (Ht t Hin) ltac:(lia)).
      destruct (slot_inside back h teb_offset (bt_used back) Hb ltac:(lia)).
      specialize (Hba t Hin). apply host_word_put_ne. unfold apart in Hba. lia.
    + apply list_elem_of_singleton in Hin as ->. exists back'.
      split_and!; [apply elem_of_app; right; by left|done|done|cbn; lia|].
      apply host_word_put_ne. unfold bridge_slot, data_size. lia.
  - exists back', (bt_used back). split_and!; [apply elem_of_app; right; by left|lia|cbn; lia|done|].
    by apply host_word_put.
Qed.

Lemma find_bridge_spec ts h function bridge ts' h' :
  bridges_in ts h teb_offset -> in_u64 function -> function <> 0 -> mmap_fresh ts h ->
  find_bridge (Some teb_offset) ts h function = Ok (bridge, (ts', h')) ->
  bridges_in ts' h' teb_offset /\ (forall a f, serves ts h a f -> serves ts' h' a f) /\
  (forall address, bridge = Some address -> serves ts' h' address function).
Proof.
  intros Hb Hf Hf0 Hfresh. unfold find_bridge.
  destruct (last ts) as [back|] eqn:Hl; [|by intros [= <- <- <-]].
  apply last_Some in Hl as [ts0 ->]. rewrite removelast_last.
  assert (table_in back h teb_offset) as Htb.
  { pose proof (bi_tables _ _ _ Hb) as Ht. apply Forall_app in Ht as [_ Ht]. by apply Forall_cons in Ht as [Ht _]. }
  rewrite (add_spec back h teb_offset) by done. rewrite (proj2 (Z.eqb_neq function 0)) by done. cbn [orb].
  destruct (Z.leb_spec (bt_capacity back) (bt_used back)) as [Hfull|Hfree]; cbn [mbind result_bind].
  2: { intros [= <- <- <-]. destruct (add_bridges_in ts0 back h function Hb Hf Hfree) as (H1 & H2 & H3).
       split_and!; [done|done|by intros ? [= <-]]. }
  intros Hc. apply bind_Ok in Hc as ([next h1] & Hcr & Hc).
  assert (bridges_in (ts0 ++ [back]) h1 teb_offset /\
    (forall a f, serves (ts0 ++ [back]) h a f -> serves (ts0 ++ [back]) h1 a f)) as [Hb1 Hs1].
  { apply create_bridges_inside in Hcr as [[_ ->]|(size & arena & h2 & _ & Hres & Hin & _)]; [done| |done].
    eapply bridges_in_inside; [exact Hin|by eapply Hfresh|done]. }
  destruct next as [next|]; [|by injection Hc as <- <- <-].
  assert (bridges_in ((ts0 ++ [back]) ++ [next]) h1 teb_offset) as Hb2.
  { pose proof Hcr as Hcr'. apply create_bridges_spec in Hcr' as (off & [= <-] & _ & _ & Ht); [|done].
    split; [apply Forall_app; split; [apply Hb1|by apply Forall_singleton]|].
    apply create_bridges_inside in Hcr as [[? _]|(size & arena & h2 & _ & Hres & _ & Ha)]; [done| |done].
    specialize (Hfresh _ _ _ _ eq_refl Hres). rewrite <- (Ha next eq_refl) in Hfresh.
    apply fop_app; [apply Hb1|]. exact Hfresh. }
  rewrite (add_spec next h1 teb_offset) in Hc.
  2: { apply bi_tables in Hb2. apply Forall_app in Hb2 as [_ Hn]. by apply Forall_cons in Hn as [Hn _]. }
  2: done.
  rewrite (proj2 (Z.eqb_neq function 0)) in Hc by done. cbn [orb] in Hc.
  destruct (Z.leb_spec (bt_capacity next) (bt_used next)) as [Hfull'|Hfree']; cbn [mbind result_bind] in Hc.
  - injection Hc as <- <- <-.
    apply create_bridges_spec in Hcr as (_ & _ & Hcap & Hused & _); [|done]. rewrite Hcap, Hused in Hfull'. done.
  - injection Hc as <- <- <-. destruct (add_bridges_in _ next h1 function Hb2 Hf Hfree') as (H1 & H2 & H3).
    split_and!; [done| |by intros ? [= <-]]. intros a f Hs. apply H2. apply Hs1 in Hs.
    destruct Hs as (t & i & Hin & Hs). exists t, i. split; [|done]. apply elem_of_app. by left.
Qed.
End Registration.

(** ** The theorems *)

Section Theorems.
Context `{HostOs, !HostOsLaws H}.

(** C25: A function that is registered on Windows gets a bridge of its own.
    When [register_function] succeeds, the key resolves to the address of a
    bridge whose slot holds the function, and the count goes up by one; when it
    fails, the symbols and the count are as before.  In both cases every bridge
    that served a function still does, with its code and its slot, also when a
    full table makes the registry create the next one. *)
Theorem registered_functions_are_served teb_offset r h key function name ok r' h' :
  bridges_in (wr_bridges r) h teb_offset -> in_u64 function -> mmap_fresh (wr_bridges r) h ->
  0 <= hr_registered (wr_registry r) < u64_max ->
  register_function (Some teb_offset) r h key function name = Ok (ok, (r', h')) ->
  bridges_in (wr_bridges r') h' teb_offset /\
  (forall a f, serves (wr_bridges r) h a f -> serves (wr_bridges r') h' a f) /\
  (if ok then
     hr_registered (wr_registry r') = hr_registered (wr_registry r) + 1 /\
     exists address, resolve (hr_symbols (wr_registry r')) key = Some (mkSymbolBinding address name true) /\
       serves (wr_bridges r') h' address function /\
       forall k, k <> key -> resolve (hr_symbols (wr_registry r')) k = resolve (hr_symbols (wr_registry r)) k
   else wr_registry r' = wr_registry r).
Proof.
  intros Hb Hf Hfresh Hcount. unfold register_function.
  destruct (Z.eqb_spec function 0) as [|Hf0]; cbn [orb]; [by intros [= <- <- <-]|].
  destruct (negb _); [by intros [= <- <- <-]|]. intros Hr.
  apply bind_Ok in Hr as ([bridge [ts h1]] & Hfb & Hr).
  apply (find_bridge_spec teb_offset) in Hfb as (H1 & H2 & H3); [|done..].
  destruct bridge as [address|]; [|by injection Hr as <- <- <-]. specialize (H3 address eq_refl).
  revert Hr. unfold register_symbol. destruct (hr_symbols (wr_registry r) !! key) as [b|] eqn:Hk.
  - cbn [hle negb]. rewrite andb_false_r. intros [= <- <- <-]. split_and!; [done..|].
    cbn [wr_registry]. by destruct (wr_registry r).
  - intros [= <- <- <-]. split_and!; [done|done| |].
    + cbn. apply wrap64_small. unfold in_u64. lia.
    + exists address. cbn [wr_registry hr_symbols wr_bridges]. split_and!.
      * apply lookup_insert_eq.
      * done.
      * intros k Hne. by apply lookup_insert_ne.
Qed.

(** C26: A call of a bridge reaches its function.  The guest calls with the
    System V convention; the function of the bridge's slot is entered in
    Microsoft's: the first four arguments in RCX, RDX, R8 and R9, the other
    three above 32 bytes of shadow space, the stack pointer on the host's stack
    and, when the stack pointer that the entry trampoline has published is 8
    modulo 16, aligned as a called function expects.  Only the 24 bytes below
    the guest's stack pointer and the 64 below the host's have been written.
    When the function returns, with its nonvolatile registers and the guest's
    stack as it found them, the guest goes on behind its call with the
    function's RAX, its own stack pointer and its callee-saved registers. *)
Theorem bridged_calls_reach_the_function t i teb_offset c :
  table_in t (cpu_mem c) teb_offset -> 0 <= i < bt_used t -> cpu_rip c = bridge_address t i ->
  (forall r, in_u64 (cpu_reg c r)) -> bridge_ready (bridge_slot t i) teb_offset c ->
  let hs := host_word (cpu_mem c) (teb_slot teb_offset c) in
  exists cm, steps c cm /\
    cpu_rip cm = host_word (cpu_mem c) (bridge_slot t i) /\
    (cpu_reg cm rcx = cpu_reg c rdi /\ cpu_reg cm rdx = cpu_reg c rsi /\
     cpu_reg cm r8 = cpu_reg c rdx /\ cpu_reg cm r9 = cpu_reg c rcx) /\
    (host_word (cpu_mem cm) (cpu_reg cm rsp + 40) = cpu_reg c r8 /\
     host_word (cpu_mem cm) (cpu_reg cm rsp + 48) = cpu_reg c r9 /\
     host_word (cpu_mem cm) (cpu_reg cm rsp + 56) = host_word (cpu_mem c) (cpu_reg c rsp + 8)) /\
    cpu_reg cm rsp = hs - 64 /\ (hs mod 16 = 8 -> (cpu_reg cm rsp + 8) mod 16 = 0) /\
    (forall a, ~ cpu_reg c rsp - 24 <= a < cpu_reg c rsp -> ~ hs - 64 <= a < hs ->
       hm_byte (cpu_mem cm) a = hm_byte (cpu_mem c) a) /\
    hm_prot (cpu_mem cm) = hm_prot (cpu_mem c) /\
    forall cr, host_returned (host_bytes (cpu_mem c) (cpu_rip c) kThunkSize) (cpu_rip c) c cm cr ->
      exists cf, steps cr cf /\ guest_returned c cr cf.
Proof.
  intros Ht Hi Hip Hu Hr hs. destruct (ti_used _ _ _ Ht) as [_ Hcap].
  destruct (ti_bridge _ _ _ Ht i ltac:(lia)) as (code & Hbr & Hcode).
  pose proof (is_bridge_length _ _ _ _ Hbr) as Hlen.
  destruct Hbr as (t0 & t1 & t2 & t3 & x0 & x1 & x2 & x3 & -> & Hteb & Hslot).
  assert (teb_disp t0 t1 t2 t3 = to_i32 teb_offset) as Hd.
  { unfold teb_disp. rewrite Hteb. unfold to_i32, wrap32. by rewrite Z.mod_mod. }
  destruct (run_bridge t0 t1 t2 t3 x0 x1 x2 x3 _ _ teb_offset Hslot Hd c Hcode Hip Hr) as (cm & Hs & Hcm).
  destruct (hc_args c cm Hcm) as (? & ? & ? & ?). destruct (hc_stack_args c cm Hcm) as (Ha1 & Ha2 & Ha3).
  pose proof (hc_rsp c cm Hcm) as Hsp. fold hs in Hsp. rewrite !wrap64_small in Ha1, Ha2 by apply Hu.
  exists cm. split_and!; try done.
  - apply (hc_rip c cm Hcm).
  - rewrite Hsp. intros Hm. Z.div_mod_to_equations. lia.
  - intros a Hx1 Hx2. apply (hc_mem c cm Hcm); [done|]. rewrite Hsp. lia.
  - apply (hc_prot c cm Hcm).
  - intros cr Hcr. rewrite Hip in Hcr.
    assert (host_bytes (cpu_mem c) (bridge_address t i) kThunkSize =
            bridge_bytes [t0; t1; t2; t3] [x0; x1; x2; x3]) as E.
    { rewrite <- Hlen. apply (ca_bytes _ _ _ Hcode). }
    rewrite E in Hcr. by eapply (run_bridge_back t0 t1 t2 t3 x0 x1 x2 x3); [| |exact Hcm|exact Hcr].
Qed.
End Theorems.

(** ** The witnesses *)

(** The TEB is at 4096, its slot 40 leads to a host stack that ends at 32776;
    the guest's stack pointer is 65528. *)
Definition step_memory : HostMem :=
  host_put (mkHostMem (fun _ => zero_byte) (fun _ => Z.lor PROT_READ PROT_WRITE) 0) 4136 (le_encode 8 32776).

Definition step_created : result (option BridgeTable * HostMem) :=
  @create_bridges step_host step_memory kBridgeChunkCapacity (Some 40).
Definition step_registry : WindowsRegistry :=
  mkWindowsRegistry (mkHleRegistry ∅ 0)
    match step_created with Ok (Some t, _) => [t] | _ => [] end.
Definition step_ready : HostMem :=
  match step_created with Ok (_, h) => h | _ => step_memory end.

Definition step_key : SymbolKey := mkSymbolKey "nid" "lib" "mod" 1 1 1 sym_function.
Definition step_registration :=
  @register_function step_host (Some 40) step_registry step_ready step_key 12288 "f".
Definition step_served : WindowsRegistry :=
  match step_registration with Ok (_, (r, _)) => r | _ => step_registry end.
Definition step_bound : HostMem :=
  match step_registration with Ok (_, (_, h)) => h | _ => step_ready end.

Lemma step_created_eq :
  @create_bridges step_host step_memory kBridgeChunkCapacity (Some 40) = step_created.
Proof. exact (@eq_refl _ (@create_bridges step_host step_memory kBridgeChunkCapacity (Some 40))). Qed.

Lemma step_registration_eq :
  @register_function step_host (Some 40) step_registry step_ready step_key 12288 "f" = step_registration.
Proof.
  exact (@eq_refl _ (@register_function step_host (Some 40) step_registry step_ready step_key 12288 "f")).
Qed.

Lemma step_creates : exists t, wr_bridges step_registry = [t] /\ arena_base (bt_arena t) = 1048576 /\
  arena_size (bt_arena t) = 20480 /\ step_created = Ok (Some t, step_ready).
Proof.
  assert (match step_created with
          | Ok (Some t, _) => (arena_base (bt_arena t) =? 1048576) && (arena_size (bt_arena t) =? 20480)
          | _ => false end = true) as Hb by (vm_compute; reflexivity).
  unfold step_registry, step_ready. cbn [wr_bridges].
  destruct step_created as [[[t|] h]|e]; [|discriminate Hb..].
  apply andb_true_iff in Hb as [Hb1 Hb2]. apply Z.eqb_eq in Hb1, Hb2.
  exists t. split; [reflexivity|]. split; [exact Hb1|]. split; [exact Hb2|reflexivity].
Qed.

Lemma step_registers : step_registration = Ok (true, (step_served, step_bound)).
Proof.
  assert (match step_registration with Ok (true, _) => true | _ => false end = true) as Hb
    by (vm_compute; reflexivity).
  unfold step_served, step_bound. by destruct step_registration as [[[] [r h]]|e].
Qed.

Lemma chunk_in_u64 : in_u64 kBridgeChunkCapacity.
Proof. vm_compute. split; [discriminate|reflexivity]. Qed.

Lemma step_bridges_in : bridges_in (wr_bridges step_registry) step_ready 40.
Proof.
  destruct step_creates as (t & -> & _ & _ & Hc).
  destruct (@create_bridges_spec step_host step_host_laws step_memory kBridgeChunkCapacity (Some 40) t step_ready
    chunk_in_u64 (eq_trans step_created_eq Hc)) as (off & Hoff & _ & _ & Ht). injection Hoff as <-.
  split; [apply Forall_singleton; exact Ht|repeat constructor].
Qed.

Lemma step_fresh : @mmap_fresh step_host (wr_bridges step_registry) step_ready.
Proof.
  destruct step_creates as (t & -> & Hb & Hs & _). intros h1 size arena h2 Hn Hr.
  assert (hm_calls step_ready = 4%nat) as Hn' by (vm_compute; reflexivity).
  apply Forall_singleton. left. rewrite Hb, Hs. revert Hr. unfold reserve. rewrite Hn, Hn'.
  destruct (checked_align_up size _) as [rounded|]; [|discriminate].
  cbn [os_mmap step_host negb Z.eqb andb]. destruct (_ && _); [|discriminate].
  intros [= <- <-]. cbn. lia.
Qed.

Lemma registered_functions_are_served_witness :
  exists address, resolve (hr_symbols (wr_registry step_served)) step_key =
      Some (mkSymbolBinding address "f" true) /\
    serves (wr_bridges step_served) step_bound address 12288.
Proof.
  destruct (@registered_functions_are_served step_host step_host_laws 40 step_registry step_ready step_key
    12288 "f" true step_served step_bound step_bridges_in ltac:(vm_compute; split; [discriminate|reflexivity])
    step_fresh ltac:(vm_compute; split; [discriminate|reflexivity])
    (eq_trans step_registration_eq step_registers))
    as (_ & _ & _ & address & Hr & Hs & _).
  exists address. split; [exact Hr|exact Hs].
Defined.

(** A guest that calls the first bridge. *)
Definition step_fresh_table : BridgeTable :=
  match step_created with Ok (Some t, _) => t | _ => mkBridgeTable (mkNativeArena 0 0) 0 0 0 end.
Definition step_table : BridgeTable :=
  mkBridgeTable (bt_arena step_fresh_table) (bt_capacity step_fresh_table)
    (bt_used step_fresh_table + 1) (bt_data_offset step_fresh_table).
Definition step_cpu : Cpu :=
  mkCpu (upd (fun r => r mod 16) rsp 65528) (fun _ => 0) (mkFlags false false false false false)
    0 4096 1048576 (host_put step_ready (bridge_slot step_fresh_table (bt_used step_fresh_table)) (le_encode 8 12288)).

Lemma step_table_in : table_in step_table (cpu_mem step_cpu) 40.
Proof.
  destruct step_bridges_in as [Ht _]. destruct step_creates as (t & Hts & _ & _ & Hc).
  rewrite Hts in Ht. apply Forall_cons in Ht as [Ht _].
  assert (step_fresh_table = t) as E by (unfold step_fresh_table; rewrite Hc; reflexivity).
  apply add_table_in; [rewrite E; exact Ht|]. vm_compute. reflexivity.
Qed.

Lemma step_regs r : in_u64 (cpu_reg step_cpu r).
Proof. cbn [step_cpu cpu_reg]. unfold upd, in_u64. case_match; Z.div_mod_to_equations; lia. Qed.

Lemma step_bridge_ready : bridge_ready (bridge_slot step_table 0) 40 step_cpu.
Proof.
  assert (host_word (cpu_mem step_cpu) 4136 = 32776) as Hw by (vm_compute; reflexivity).
  assert (bridge_slot step_table 0 = 1064960) as Hs by (vm_compute; reflexivity).
  assert (teb_slot 40 step_cpu = 4136) as Ht by reflexivity.
  assert (cpu_reg step_cpu rsp = 65528) as Hr by reflexivity.
  split; rewrite ?Ht, ?Hs, ?Hw, ?Hr; try (vm_compute; reflexivity); lia.
Qed.

(** The guest calls the bridge with 7, 6, 2, 1, 8 and 9 in its registers. *)
Lemma bridged_calls_reach_the_function_witness :
  exists cm, steps step_cpu cm /\ cpu_rip cm = 12288 /\
    (cpu_reg cm rcx = 7 /\ cpu_reg cm rdx = 6 /\ cpu_reg cm r8 = 2 /\ cpu_reg cm r9 = 1) /\
    cpu_reg cm rsp = 32712.
Proof.
  destruct (bridged_calls_reach_the_function step_table 0 40 step_cpu step_table_in
    ltac:(vm_compute; split; [discriminate|reflexivity]) ltac:(vm_compute; reflexivity) step_regs step_bridge_ready)
    as (cm & Hs & Hip & Hargs & _ & Hsp & _).
  exists cm. split; [exact Hs|]. split; [rewrite Hip; vm_compute; reflexivity|]. split; [exact Hargs|].
  rewrite Hsp. vm_compute. reflexivity.
Defined.
