(* ===== verification/EntryWindows.v ===== *)
(** * The entry trampoline on Windows

    The Windows x64 build of [src/src/runtime/native_thread.cpp]: the host calls
    the trampoline in Microsoft's convention, the guest is called in the System V
    one.  The code saves the nonvolatile registers, XMM6 to XMM15 among them, and
    publishes the host's stack pointer in a TEB slot, where the bridges of
    HleBridge.v find it; the slot's previous value is kept in the frame, so that
    entries nest.

    The offset of the slot, [windows_host_stack_teb_offset()], is an argument. *)

From S2P Require Import Prelude NativeArena X86 NativeThread.

Local Open Scope Z_scope.

Module EntryWindows.

(** ** Emitting *)

Definition emit_u32 (code : list byte) (value : Z) : list byte := code ++ le_encode 4 value.

Definition emit_save_host_stack_slot (code : list byte) (teb_offset : Z) : list byte :=
  (* mov r13,gs:[disp32] *)
  let code := code ++ map byte_of_Z [ 0x65; 0x4c; 0x8b; 0x2c; 0x25 ] in
  let code := emit_u32 code teb_offset in
  (* mov [rsp+0xa0],r13; mov gs:[disp32],rsp *)
  let code := code ++ map byte_of_Z
    [ 0x4c; 0x89; 0xac; 0x24; 0xa0; 0x00; 0x00; 0x00; 0x65; 0x48; 0x89; 0x24; 0x25 ] in
  emit_u32 code teb_offset.

Definition emit_restore_host_stack_slot (code : list byte) (teb_offset : Z) : list byte :=
  (* mov r13,[rsp+0xa0]; mov gs:[disp32],r13 *)
  let code := code ++ map byte_of_Z
    [ 0x4c; 0x8b; 0xac; 0x24; 0xa0; 0x00; 0x00; 0x00; 0x65; 0x4c; 0x89; 0x2c; 0x25 ] in
  emit_u32 code teb_offset.

Definition emit_movdqu_rsp (code : list byte) (load : bool) (xmm offset : Z) : list byte :=
  let code := code ++ [byte_of_Z 0xf3] in
  let code := if 8 <=? xmm then code ++ [byte_of_Z 0x44] else code in
  let code := code ++ [byte_of_Z 0x0f] in
  let code := code ++ [byte_of_Z (if load then 0x6f else 0x7f)] in
  let reg := Z.land xmm 7 in
  let code := code ++ [byte_of_Z (Z.lor 0x84 (Z.shiftl reg 3))] in
  let code := code ++ [byte_of_Z 0x24] in
  emit_u32 code offset.

(** The loops over XMM6 to XMM15. *)
Definition emit_xmms (code : list byte) (load : bool) : list byte :=
  foldl (fun code xmm => emit_movdqu_rsp code load xmm ((xmm - 6) * 16)) code
    [6; 7; 8; 9; 10; 11; 12; 13; 14; 15].

Definition prefix : list byte := map byte_of_Z
  [ 0x4c; 0x8b; 0x54; 0x24; 0x28;                      (* mov r10,[rsp+0x28] *)
    0x48; 0x8b; 0x44; 0x24; 0x30;                      (* mov rax,[rsp+0x30] *)
    0x55;                                              (* push rbp *)
    0x53;                                              (* push rbx *)
    0x57;                                              (* push rdi *)
    0x56;                                              (* push rsi *)
    0x41; 0x54;                                        (* push r12 *)
    0x41; 0x55;                                        (* push r13 *)
    0x41; 0x56;                                        (* push r14 *)
    0x41; 0x57;                                        (* push r15 *)
    0x48; 0x81; 0xec; 0xb0; 0x00; 0x00; 0x00 ].        (* sub rsp,0xb0 *)

Definition save_recovery : list byte := map byte_of_Z
  [ 0x48; 0x85; 0xc0;                                  (* test rax,rax *)
    0x74; 0x03;                                        (* jz +3 *)
    0x48; 0x89; 0x20 ].                                (* mov [rax],rsp *)

Definition switch_stack : list byte := map byte_of_Z
  [ 0x49; 0x89; 0xe4;                                  (* mov r12,rsp *)
    0x49; 0x89; 0xcb;                                  (* mov r11,rcx *)
    0x49; 0x89; 0xd6;                                  (* mov r14,rdx *)
    0x4c; 0x89; 0xc7;                                  (* mov rdi,r8 *)
    0x4c; 0x89; 0xce;                                  (* mov rsi,r9 *)
    0x4c; 0x89; 0xd2;                                  (* mov rdx,r10 *)
    0x4c; 0x89; 0xf4;                                  (* mov rsp,r14 *)
    0x48; 0x83; 0xe4; 0xf0;                            (* and rsp,-16 *)
    0x48; 0x83; 0xec; 0x10;                            (* sub rsp,16 *)
    0x48; 0xc7; 0x04; 0x24; 0x00; 0x00; 0x00; 0x00;    (* mov qword [rsp],0 *)
    0x48; 0xc7; 0x44; 0x24; 0x08; 0x00; 0x00; 0x00; 0x00; (* mov qword [rsp+8],0 *)
    0x48; 0x89; 0xe5;                                  (* mov rbp,rsp *)
    0x41; 0xff; 0xd3;                                  (* call r11 *)
    0x4c; 0x89; 0xe4 ].                                (* mov rsp,r12 *)

Definition restore : list byte := map byte_of_Z
  [ 0x48; 0x81; 0xc4; 0xb0; 0x00; 0x00; 0x00;          (* add rsp,0xb0 *)
    0x41; 0x5f;                                        (* pop r15 *)
    0x41; 0x5e;                                        (* pop r14 *)
    0x41; 0x5d;                                        (* pop r13 *)
    0x41; 0x5c;                                        (* pop r12 *)
    0x5e;                                              (* pop rsi *)
    0x5f;                                              (* pop rdi *)
    0x5b;                                              (* pop rbx *)
    0x5d ].                                            (* pop rbp *)

(** The lambda [append_windows_restore]. *)
Definition append_windows_restore (code : list byte) (teb_offset : Z) (clear_return : bool) : list byte :=
  let code := emit_restore_host_stack_slot code teb_offset in
  let code := emit_xmms code true in
  let code := code ++ restore in
  let code := if clear_return then code ++ map byte_of_Z [0x31; 0xc0] else code in
  code ++ [byte_of_Z 0xc3].

(** [build_entry_trampoline]: the code and the offset of the recovery. *)
Definition build_entry_trampoline (host_stack_teb_offset : option Z) : list byte * Z :=
  match host_stack_teb_offset with
  | None => ([], 0)
  | Some teb_offset =>
      let code := [] ++ prefix in
      let code := emit_xmms code false in
      let code := emit_save_host_stack_slot code teb_offset in
      let code := code ++ save_recovery in
      let code := code ++ switch_stack in
      let code := append_windows_restore code teb_offset false in
      let recovery_offset := zlen code in
      (append_windows_restore code teb_offset true, recovery_offset)
  end.

(** ** Calling *)

(** A call of a host function pointer with six integer arguments, in
    Microsoft's convention: four in registers, two above the 32 bytes of shadow
    space that the caller has reserved. *)
Definition host_call (c : Cpu) (function a0 a1 a2 a3 a4 a5 : Z) : option Cpu :=
  let c := set_reg (set_reg (set_reg (set_reg c rcx a0) rdx a1) r8 a2) r9 a3 in
  c ← store64 c (wrap64 (cpu_reg c rsp + 0x20)) a4;
  c ← store64 c (wrap64 (cpu_reg c rsp + 0x28)) a5;
  c ← push c (cpu_rip c);
  Some (set_rip c function).

(** [EntryTrampoline::invoke], up to the first instruction of the code. *)
Definition invoke (t : EntryTrampoline) (c : Cpu) (entry stack_top arg0 arg1 arg2 recovery : Z)
  : result (option Cpu) :=
  throw_if ((arena_base (et_code t) =? 0) || (entry =? 0) || (stack_top =? 0))
    (runtime_error "entry trampoline is not initialized") ;;
  Ok (host_call c (arena_base (et_code t)) entry stack_top arg0 arg1 arg2 recovery).

End EntryWindows.
