(* ===== verification/EntryWindowsCode.v ===== *)
(** * The code of the entry trampoline on Windows

    The bytes that EntryWindows.v emits, as a listing of instructions, and the
    way into the guest on the processor of X86.v ([run_win_entry]). *)

From S2P Require Import Prelude NativeArena X86 HleBridge HleBridgeCode NativeThread EntryWindows.
Import EntryWindows.

Local Open Scope Z_scope.

Abbreviation bytes l := (map byte_of_Z l).
Abbreviation at_ r d := (op_mem (mkMem seg_none (base_reg r) d)).

(** ** The listing *)

Section Listing.
Variables t0 t1 t2 t3 : byte.
Definition slot_disp : Z := to_i32 (le_decode [t0; t1; t2; t3]).

(** Microsoft's nonvolatile registers, in the order in which they are pushed. *)
Definition win_saved : list Z := [rbp; rbx; rdi; rsi; r12; r13; r14; r15].
Definition xmm_saved : list Z := [6; 7; 8; 9; 10; 11; 12; 13; 14; 15].

Definition args_listing : listing :=
  [ (MOV (op_reg r10) (at_ rsp 40), bytes [0x4c; 0x8b; 0x54; 0x24; 0x28]);
    (MOV (op_reg rax) (at_ rsp 48), bytes [0x48; 0x8b; 0x44; 0x24; 0x30]) ].
Definition win_save_listing : listing :=
  [ (PUSH rbp, bytes [0x55]); (PUSH rbx, bytes [0x53]); (PUSH rdi, bytes [0x57]); (PUSH rsi, bytes [0x56]);
    (PUSH r12, bytes [0x41; 0x54]); (PUSH r13, bytes [0x41; 0x55]); (PUSH r14, bytes [0x41; 0x56]);
    (PUSH r15, bytes [0x41; 0x57]) ].
Definition frame_listing : listing :=
  [ (ALUI alu_sub (op_reg rsp) 176, bytes [0x48; 0x81; 0xec; 0xb0; 0; 0; 0]) ].

Definition movdqu_bytes (op x d : Z) : list byte :=
  bytes [0xf3] ++ (if 8 <=? x then bytes [0x44] else []) ++
  bytes [0x0f; op; Z.lor 0x84 (Z.shiftl (Z.land x 7) 3); 0x24; d; 0; 0; 0].
Definition xmm_save_listing : listing :=
  imap (fun i x => (MOVDQU_ST (mkMem seg_none (base_reg rsp) (16 * Z.of_nat i)) x,
                    movdqu_bytes 0x7f x (16 * Z.of_nat i))) xmm_saved.
Definition xmm_load_listing : listing :=
  imap (fun i x => (MOVDQU_LD x (mkMem seg_none (base_reg rsp) (16 * Z.of_nat i)),
                    movdqu_bytes 0x6f x (16 * Z.of_nat i))) xmm_saved.

Abbreviation slot := (op_mem (mkMem seg_gs base_none slot_disp)).
Definition publish_listing : listing :=
  [ (MOV (op_reg r13) slot, bytes [0x65; 0x4c; 0x8b; 0x2c; 0x25] ++ [t0; t1; t2; t3]);
    (MOV (at_ rsp 160) (op_reg r13), bytes [0x4c; 0x89; 0xac; 0x24; 0xa0; 0; 0; 0]);
    (MOV slot (op_reg rsp), bytes [0x65; 0x48; 0x89; 0x24; 0x25] ++ [t0; t1; t2; t3]) ].

Definition win_test_code : list byte := bytes [0x48; 0x85; 0xc0].
Definition win_jz_code : list byte := bytes [0x74; 0x03].
Definition win_record_code : list byte := bytes [0x48; 0x89; 0x20].

Definition win_switch_listing : listing :=
  [ (MOV (op_reg r12) (op_reg rsp), bytes [0x49; 0x89; 0xe4]);
    (MOV (op_reg r11) (op_reg rcx), bytes [0x49; 0x89; 0xcb]);
    (MOV (op_reg r14) (op_reg rdx), bytes [0x49; 0x89; 0xd6]);
    (MOV (op_reg rdi) (op_reg r8), bytes [0x4c; 0x89; 0xc7]);
    (MOV (op_reg rsi) (op_reg r9), bytes [0x4c; 0x89; 0xce]);
    (MOV (op_reg rdx) (op_reg r10), bytes [0x4c; 0x89; 0xd2]);
    (MOV (op_reg rsp) (op_reg r14), bytes [0x4c; 0x89; 0xf4]);
    (ALUI alu_and (op_reg rsp) (-16), bytes [0x48; 0x83; 0xe4; 0xf0]);
    (ALUI alu_sub (op_reg rsp) 16, bytes [0x48; 0x83; 0xec; 0x10]);
    (MOVI (at_ rsp 0) 0, bytes [0x48; 0xc7; 0x04; 0x24; 0; 0; 0; 0]);
    (MOVI (at_ rsp 8) 0, bytes [0x48; 0xc7; 0x44; 0x24; 0x08; 0; 0; 0; 0]);
    (MOV (op_reg rbp) (op_reg rsp), bytes [0x48; 0x89; 0xe5]) ].
Definition win_call_code : list byte := bytes [0x41; 0xff; 0xd3].
Definition win_back_code : list byte := bytes [0x4c; 0x89; 0xe4].

Definition unpublish_listing : listing :=
  [ (MOV (op_reg r13) (at_ rsp 160), bytes [0x4c; 0x8b; 0xac; 0x24; 0xa0; 0; 0; 0]);
    (MOV slot (op_reg r13), bytes [0x65; 0x4c; 0x89; 0x2c; 0x25] ++ [t0; t1; t2; t3]) ].
Definition unframe_listing : listing :=
  [ (ALUI alu_add (op_reg rsp) 176, bytes [0x48; 0x81; 0xc4; 0xb0; 0; 0; 0]) ].
Definition win_restore_listing : listing :=
  [ (POP r15, bytes [0x41; 0x5f]); (POP r14, bytes [0x41; 0x5e]); (POP r13, bytes [0x41; 0x5d]);
    (POP r12, bytes [0x41; 0x5c]); (POP rsi, bytes [0x5e]); (POP rdi, bytes [0x5f]); (POP rbx, bytes [0x5b]);
    (POP rbp, bytes [0x5d]) ].
Definition win_xor_code : list byte := bytes [0x31; 0xc0].
Definition win_ret_code : list byte := bytes [0xc3].

(** The whole of it; the restoring half comes twice. *)
Definition entry_listing : listing :=
  args_listing ++ win_save_listing ++ frame_listing ++ xmm_save_listing ++ publish_listing.
Definition exit_listing : listing :=
  unpublish_listing ++ xmm_load_listing ++ unframe_listing ++ win_restore_listing.

Definition win_code : list byte :=
  listing_bytes entry_listing ++ win_test_code ++ win_jz_code ++ win_record_code ++
  listing_bytes win_switch_listing ++ win_call_code ++ win_back_code ++
  listing_bytes exit_listing ++ win_ret_code ++
  listing_bytes exit_listing ++ win_xor_code ++ win_ret_code.

Ltac encodes := split; [cbn; unfold max_instruction; lia|intros rest; reflexivity].
Ltac listed := unfold listing_ok; repeat (apply Forall_cons; split; [encodes|]); apply Forall_nil_2.

Lemma args_ok : listing_ok args_listing.
Proof. listed. Qed.
Lemma win_save_ok : listing_ok win_save_listing.
Proof. listed. Qed.
Lemma frame_ok : listing_ok frame_listing.
Proof. listed. Qed.
Lemma xmm_save_ok : listing_ok xmm_save_listing.
Proof. cbn [xmm_save_listing imap xmm_saved Nat.add Z.of_nat Z.mul]. listed. Qed.
Lemma xmm_load_ok : listing_ok xmm_load_listing.
Proof. listed. Qed.
Lemma publish_ok : listing_ok publish_listing.
Proof. listed. Qed.
Lemma win_switch_ok : listing_ok win_switch_listing.
Proof. listed. Qed.
Lemma unpublish_ok : listing_ok unpublish_listing.
Proof. listed. Qed.
Lemma unframe_ok : listing_ok unframe_listing.
Proof. listed. Qed.
Lemma win_restore_ok : listing_ok win_restore_listing.
Proof. listed. Qed.
Lemma win_test_ok : encodes (TEST (op_reg rax) (op_reg rax)) win_test_code.
Proof. encodes. Qed.
Lemma win_jz_ok : encodes (JCC true 3) win_jz_code.
Proof. encodes. Qed.
Lemma win_record_ok : encodes (MOV (at_ rax 0) (op_reg rsp)) win_record_code.
Proof. encodes. Qed.
Lemma win_call_ok : encodes (CALLR (op_reg r11)) win_call_code.
Proof. encodes. Qed.
Lemma win_back_ok : encodes (MOV (op_reg rsp) (op_reg r12)) win_back_code.
Proof. encodes. Qed.
Lemma win_xor_ok : encodes (XOR32 rax rax) win_xor_code.
Proof. encodes. Qed.
Lemma win_ret_ok : encodes RET win_ret_code.
Proof. encodes. Qed.

Lemma build_is_the_listing teb_offset :
  le_encode 4 teb_offset = [t0; t1; t2; t3] -> build_entry_trampoline (Some teb_offset) = (win_code, 351).
Proof.
  intros Ht. unfold build_entry_trampoline, append_windows_restore, emit_restore_host_stack_slot,
    emit_save_host_stack_slot, emit_u32. rewrite Ht. reflexivity.
Qed.
End Listing.

(** ** XMM registers in the frame *)

Fixpoint xmm_stores (d : Z) (xs : list Z) : list instr :=
  match xs with [] => [] | x :: xs => MOVDQU_ST (mkMem seg_none (base_reg rsp) d) x :: xmm_stores (d + 16) xs end.
Fixpoint xmm_loads (d : Z) (xs : list Z) : list instr :=
  match xs with [] => [] | x :: xs => MOVDQU_LD x (mkMem seg_none (base_reg rsp) d) :: xmm_loads (d + 16) xs end.

(** [c'] is [c] but for its memory and its [rip]. *)
Record same_registers (c c' : Cpu) : Prop := {
  sr_reg : cpu_reg c' = cpu_reg c;
  sr_xmm : cpu_xmm c' = cpu_xmm c;
  sr_fs : cpu_fs c' = cpu_fs c;
  sr_gs : cpu_gs c' = cpu_gs c;
}.

Lemma exec_xmm_stores xs d p c :
  map fst p = xmm_stores d xs -> 0 <= d -> 0 <= cpu_reg c rsp ->
  cpu_reg c rsp + d + 16 * zlen xs <= u64_max ->
  host_allows PROT_WRITE (cpu_mem c) (cpu_reg c rsp + d) (16 * zlen xs) = true ->
  exists c', exec_listing p c = Some c' /\ same_registers c c' /\
    (forall (i : nat) x, xs !! i = Some x -> 0 <= cpu_xmm c x < 2 ^ 128 ->
       host_xmm (cpu_mem c') (cpu_reg c rsp + d + 16 * Z.of_nat i) = cpu_xmm c x) /\
    (forall a, ~ cpu_reg c rsp + d <= a < cpu_reg c rsp + d + 16 * zlen xs ->
       hm_byte (cpu_mem c') a = hm_byte (cpu_mem c) a) /\
    hm_prot (cpu_mem c') = hm_prot (cpu_mem c).
Proof.
  revert d p c. induction xs as [|x xs IH]; intros d [|[i l] p] c Hp Hd Hsp Hend Hw; try discriminate Hp.
  { exists c. split; [done|]. split; [done|]. split; [done|]. split; [intros a _; reflexivity|reflexivity]. }
  cbn [map fst xmm_stores] in Hp. injection Hp as -> Hp. cbn [length] in *. rewrite Nat2Z.inj_succ in *.
  rewrite host_allows_true in Hw by lia.
  set (c1 := set_mem (set_rip c (cpu_rip c + zlen l))
               (host_put (cpu_mem c) (cpu_reg c rsp + d) (le_encode 16 (cpu_xmm c x)))).
  assert (exec (MOVDQU_ST (mkMem seg_none (base_reg rsp) d) x) (set_rip c (cpu_rip c + zlen l)) = Some c1) as He.
  { cbn [exec]. unfold effective. cbn [mo_segment mo_base mo_disp cpu_reg set_rip cpu_xmm].
    rewrite wrap64_small by (unfold in_u64; lia). rewrite Z.add_0_l. apply store128_ok.
    apply host_allows_true; [lia|]. intros a Ha. apply Hw. lia. }
  destruct (IH (d + 16) p c1) as (c' & Hx & [Hr Hxm Hf Hg] & Hsl & Hm & Hpr).
  - exact Hp.
  - lia.
  - exact Hsp.
  - change (cpu_reg c1 rsp) with (cpu_reg c rsp). lia.
  - change (cpu_reg c1 rsp) with (cpu_reg c rsp). apply host_allows_true; [lia|]. intros a Ha. apply Hw. lia.
  - change (cpu_reg c1) with (cpu_reg c) in *. change (cpu_xmm c1) with (cpu_xmm c) in *.
    exists c'. split; [cbn [exec_listing]; by rewrite He|]. split; [by split|]. split; [|split].
    + intros [|j] y Hj Hy; cbn in Hj.
      * injection Hj as <-. rewrite (host_xmm_ext (cpu_mem c1)).
        -- cbn [cpu_mem c1 set_mem]. replace (cpu_reg c rsp + d + 16 * Z.of_nat 0) with (cpu_reg c rsp + d) by lia.
           by apply host_xmm_put.
        -- intros a Ha. apply Hm. lia.
      * rewrite <- (Hsl j y Hj Hy). f_equal. lia.
    + intros a Ha. rewrite Hm by lia. cbn [cpu_mem c1 set_mem]. rewrite host_put_get, le_encode_length.
      change (Z.of_nat 16) with 16. by rewrite (proj2 (in_range_false _ _ _)) by lia.
    + rewrite Hpr. reflexivity.
Qed.

Lemma exec_xmm_loads xs d p c :
  map fst p = xmm_loads d xs -> NoDup xs -> 0 <= d -> 0 <= cpu_reg c rsp ->
  cpu_reg c rsp + d + 16 * zlen xs <= u64_max ->
  host_allows PROT_READ (cpu_mem c) (cpu_reg c rsp + d) (16 * zlen xs) = true ->
  exists c', exec_listing p c = Some c' /\ cpu_reg c' = cpu_reg c /\ cpu_mem c' = cpu_mem c /\
    cpu_fs c' = cpu_fs c /\ cpu_gs c' = cpu_gs c /\
    (forall (i : nat) x, xs !! i = Some x ->
       cpu_xmm c' x = host_xmm (cpu_mem c) (cpu_reg c rsp + d + 16 * Z.of_nat i)) /\
    (forall x, x ∉ xs -> cpu_xmm c' x = cpu_xmm c x).
Proof.
  revert d p c. induction xs as [|x xs IH]; intros d [|[i l] p] c Hp Hnd Hd Hsp Hend Hw; try discriminate Hp.
  { exists c. by split_and!. }
  cbn [map fst xmm_loads] in Hp. injection Hp as -> Hp. cbn [length] in *. rewrite Nat2Z.inj_succ in *.
  apply NoDup_cons in Hnd as [Hni Hnd]. rewrite host_allows_true in Hw by lia.
  set (c1 := set_xmm (set_rip c (cpu_rip c + zlen l)) x (host_xmm (cpu_mem c) (cpu_reg c rsp + d))).
  assert (exec (MOVDQU_LD x (mkMem seg_none (base_reg rsp) d)) (set_rip c (cpu_rip c + zlen l)) = Some c1) as He.
  { cbn [exec]. unfold effective. cbn [mo_segment mo_base mo_disp cpu_reg set_rip cpu_mem].
    rewrite wrap64_small by (unfold in_u64; lia). rewrite Z.add_0_l, load128_ok; [reflexivity|].
    apply host_allows_true; [lia|]. intros a Ha. apply Hw. lia. }
  destruct (IH (d + 16) p c1) as (c' & Hx & Hr & Hm & Hf & Hg & Hsl & Hns).
  - exact Hp.
  - exact Hnd.
  - lia.
  - exact Hsp.
  - change (cpu_reg c1 rsp) with (cpu_reg c rsp). lia.
  - change (cpu_reg c1 rsp) with (cpu_reg c rsp). apply host_allows_true; [lia|]. intros a Ha. apply Hw. lia.
  - change (cpu_reg c1) with (cpu_reg c) in *. change (cpu_mem c1) with (cpu_mem c) in *.
    exists c'. split; [cbn [exec_listing]; by rewrite He|]. split; [exact Hr|]. split; [exact Hm|].
    split; [exact Hf|]. split; [exact Hg|]. split.
    + intros [|j] y Hj; cbn in Hj.
      * injection Hj as <-. rewrite Hns by exact Hni. cbn [cpu_xmm c1 set_xmm]. rewrite upd_eq. f_equal. lia.
      * rewrite (Hsl j y Hj). f_equal. lia.
    + intros y Hy. apply not_elem_of_cons in Hy as [Hyx Hy]. rewrite Hns by exact Hy.
      cbn [cpu_xmm c1 set_xmm]. by rewrite upd_ne.
Qed.

(** ** The whole call *)

(** The two stack pointers: the bottom of the host's frame, and the guest's top
    aligned down to 16 bytes. *)
Definition frame_base (c : Cpu) : Z := cpu_reg c rsp - 240.
Definition guest_top (c : Cpu) : Z := cpu_reg c rdx - cpu_reg c rdx mod 16.
(** The stack arguments: the guest's third argument and the recovery record. *)
Definition third_argument (c : Cpu) : Z := host_word (cpu_mem c) (cpu_reg c rsp + 40).
Definition record_address (c : Cpu) : Z := host_word (cpu_mem c) (cpu_reg c rsp + 48).

(** Ranges without a common address. *)
Definition disjoint (a n b m : Z) : Prop := a + n <= b \/ b + m <= a.

(** What the caller of the trampoline provides: room on the host's stack, a
    guest stack, the TEB slot, and a recovery record when there is one, all
    apart. *)
Record win_ready (teb_offset : Z) (c : Cpu) : Prop := {
  wr_regs r : in_u64 (cpu_reg c r);
  wr_xmm x : 0 <= cpu_xmm c x < 2 ^ 128;
  wr_stack : 240 <= cpu_reg c rsp /\ cpu_reg c rsp + 56 <= u64_max;
  wr_write : host_allows PROT_WRITE (cpu_mem c) (frame_base c) 240 = true;
  wr_read : host_allows PROT_READ (cpu_mem c) (frame_base c) 296 = true;
  wr_guest : 24 <= guest_top c;
  wr_guest_write : host_allows PROT_WRITE (cpu_mem c) (guest_top c - 24) 24 = true;
  wr_slot : host_allows PROT_READ (cpu_mem c) (teb_slot teb_offset c) 8 = true /\
            host_allows PROT_WRITE (cpu_mem c) (teb_slot teb_offset c) 8 = true;
  wr_record : record_address c <> 0 -> host_allows PROT_WRITE (cpu_mem c) (record_address c) 8 = true;
  wr_frame_guest : disjoint (frame_base c) 296 (guest_top c - 24) 24;
  wr_frame_slot : disjoint (frame_base c) 296 (teb_slot teb_offset c) 8;
  wr_guest_slot : disjoint (guest_top c - 24) 24 (teb_slot teb_offset c) 8;
  wr_record_apart : record_address c <> 0 ->
    disjoint (record_address c) 8 (frame_base c) 296 /\
    disjoint (record_address c) 8 (guest_top c - 24) 24 /\
    disjoint (record_address c) 8 (teb_slot teb_offset c) 8;
}.
Arguments wr_regs {teb_offset} c _ r.
Arguments wr_xmm {teb_offset} c _ x.
Arguments wr_stack {teb_offset} c _.
Arguments wr_write {teb_offset} c _.
Arguments wr_read {teb_offset} c _.
Arguments wr_guest {teb_offset} c _.
Arguments wr_guest_write {teb_offset} c _.
Arguments wr_slot {teb_offset} c _.
Arguments wr_record {teb_offset} c _ _.
Arguments wr_frame_guest {teb_offset} c _.
Arguments wr_frame_slot {teb_offset} c _.
Arguments wr_guest_slot {teb_offset} c _.
Arguments wr_record_apart {teb_offset} c _ _.

(** The host's frame with what it saves, and the slot with the frame's address. *)
Record framed (teb_offset : Z) (c : Cpu) (h : HostMem) : Prop := {
  fr_saved (i : nat) r : win_saved !! i = Some r ->
    host_word h (cpu_reg c rsp - 8 * (Z.of_nat i + 1)) = cpu_reg c r;
  fr_xmm (i : nat) x : xmm_saved !! i = Some x -> host_xmm h (frame_base c + 16 * Z.of_nat i) = cpu_xmm c x;
  fr_previous : host_word h (frame_base c + 160) = host_word (cpu_mem c) (teb_slot teb_offset c);
}.

(** After the first half. *)
Record entered (teb_offset : Z) (c c1 : Cpu) : Prop := {
  en_regs r : r ∈ [rbx; rcx; rdx; rbp; rsi; rdi; r8; r9; r12; r14; r15] -> cpu_reg c1 r = cpu_reg c r;
  en_rax : cpu_reg c1 rax = record_address c;
  en_r10 : cpu_reg c1 r10 = third_argument c;
  en_rsp : cpu_reg c1 rsp = frame_base c;
  en_context : cpu_xmm c1 = cpu_xmm c /\ cpu_fs c1 = cpu_fs c /\ cpu_gs c1 = cpu_gs c;
  en_framed : framed teb_offset c (cpu_mem c1);
  en_published : host_word (cpu_mem c1) (teb_slot teb_offset c) = frame_base c;
  en_mem a : ~ frame_base c <= a < cpu_reg c rsp ->
    ~ teb_slot teb_offset c <= a < teb_slot teb_offset c + 8 -> hm_byte (cpu_mem c1) a = hm_byte (cpu_mem c) a;
  en_prot : hm_prot (cpu_mem c1) = hm_prot (cpu_mem c);
}.

Section Run.
Context (t0 t1 t2 t3 : byte) (base teb_offset : Z).
Let code : list byte := win_code t0 t1 t2 t3.
Hypothesis Hteb : slot_disp t0 t1 t2 t3 = to_i32 teb_offset.

Local Ltac at_offset := split; [reflexivity|apply Nat.leb_le; reflexivity].

Lemma saved_not_moved r :
  r ∈ [rbx; rcx; rdx; rbp; rsi; rdi; r8; r9; r12; r14; r15] -> r <> rax /\ r <> r10 /\ r <> rsp /\ r <> r13.
Proof.
  intros Hin. rewrite !elem_of_cons, elem_of_nil in Hin.
  repeat (destruct Hin as [->|Hin]; [split_and!; discriminate|]). destruct Hin.
Qed.

Lemma exec_publish c1 :
  0 <= cpu_reg c1 rsp -> cpu_reg c1 rsp + 168 <= u64_max ->
  host_allows PROT_READ (cpu_mem c1) (teb_slot teb_offset c1) 8 = true ->
  host_allows PROT_WRITE (cpu_mem c1) (teb_slot teb_offset c1) 8 = true ->
  host_allows PROT_WRITE (cpu_mem c1) (cpu_reg c1 rsp + 160) 8 = true ->
  exists c2, exec_listing (publish_listing t0 t1 t2 t3) c1 = Some c2 /\
    (forall r, r <> r13 -> cpu_reg c2 r = cpu_reg c1 r) /\
    cpu_xmm c2 = cpu_xmm c1 /\ cpu_fs c2 = cpu_fs c1 /\ cpu_gs c2 = cpu_gs c1 /\
    cpu_mem c2 = host_put (host_put (cpu_mem c1) (cpu_reg c1 rsp + 160)
        (le_encode 8 (host_word (cpu_mem c1) (teb_slot teb_offset c1))))
      (teb_slot teb_offset c1) (le_encode 8 (cpu_reg c1 rsp)).
Proof.
  intros Hsp0 Hsp Hr Hw Hf. unfold teb_slot in *. rewrite <- Hteb in *. destruct c1 as [f x fl fs gs ip h].
  cbn [cpu_reg cpu_mem cpu_gs cpu_xmm cpu_fs] in *.
  assert (wrap64 (0 + f rsp + 160) = f rsp + 160) as H1 by (apply wrap64_small; unfold in_u64; lia).
  eexists. split.
  - unfold publish_listing. exec_one. rewrite load64_ok by exact Hr.
    exec_one. rewrite H1. rewrite store64_ok by exact Hf.
    exec_one. rewrite store64_ok by exact Hw. reflexivity.
  - cbn [cpu_reg cpu_mem cpu_gs cpu_xmm cpu_fs set_mem set_rip set_reg].
    split; [intros r Hn; by rewrite upd_ne|]. read_regs. split_and!; reflexivity.
Qed.

Lemma exec_entry_args c :
  0 <= cpu_reg c rsp -> cpu_reg c rsp + 56 <= u64_max ->
  host_allows PROT_READ (cpu_mem c) (cpu_reg c rsp + 40) 16 = true ->
  exists c1, exec_listing args_listing c = Some c1 /\
    cpu_reg c1 rax = record_address c /\ cpu_reg c1 r10 = third_argument c /\
    (forall r, r <> rax -> r <> r10 -> cpu_reg c1 r = cpu_reg c r) /\
    same_registers (set_reg (set_reg c r10 (third_argument c)) rax (record_address c)) c1 /\
    cpu_mem c1 = cpu_mem c.
Proof.
  intros Hsp0 Hsp Hr. unfold record_address, third_argument. destruct c as [f x fl fs gs ip h].
  cbn [cpu_reg cpu_mem] in *. rewrite host_allows_true in Hr by lia.
  assert (forall d, 40 <= d <= 48 -> wrap64 (0 + f rsp + d) = f rsp + d) as H1
    by (intros d Hd; apply wrap64_small; unfold in_u64; lia).
  assert (forall d, 40 <= d <= 48 -> host_allows PROT_READ h (f rsp + d) 8 = true) as H2
    by (intros d Hd; apply host_allows_true; [lia|]; intros a Ha; apply Hr; lia).
  eexists. split.
  - unfold args_listing. exec_one. rewrite (H1 40), load64_ok by (first [lia|apply H2; lia]).
    exec_one. rewrite (H1 48), load64_ok by (first [lia|apply H2; lia]). reflexivity.
  - cbn [cpu_reg cpu_mem set_rip set_reg]. read_regs. split; [reflexivity|]. split; [reflexivity|].
    split; [intros r Hn1 Hn2; by rewrite !upd_ne|]. split; [by split|reflexivity].
Qed.

Lemma exec_frame c :
  176 <= cpu_reg c rsp <= u64_max ->
  exists c1, exec_listing frame_listing c = Some c1 /\ cpu_reg c1 rsp = cpu_reg c rsp - 176 /\
    (forall r, r <> rsp -> cpu_reg c1 r = cpu_reg c r) /\
    cpu_xmm c1 = cpu_xmm c /\ cpu_fs c1 = cpu_fs c /\ cpu_gs c1 = cpu_gs c /\ cpu_mem c1 = cpu_mem c.
Proof.
  intros Hsp. destruct c as [f x fl fs gs ip h]. cbn [cpu_reg] in *. eexists. split.
  - unfold frame_listing. exec_one. reflexivity.
  - cbn [cpu_reg cpu_mem cpu_xmm cpu_fs cpu_gs]. rewrite upd_eq.
    split; [apply wrap64_small; unfold in_u64; cbn; lia|].
    split; [intros r Hn; by rewrite upd_ne|]. split_and!; reflexivity.
Qed.

(** The arguments are fetched, the registers pushed, and the frame opened. *)
Record win_saved_at (c c3 : Cpu) : Prop := {
  sa_regs r : r <> rax -> r <> r10 -> r <> rsp -> cpu_reg c3 r = cpu_reg c r;
  sa_rax : cpu_reg c3 rax = record_address c;
  sa_r10 : cpu_reg c3 r10 = third_argument c;
  sa_rsp : cpu_reg c3 rsp = frame_base c;
  sa_context : cpu_xmm c3 = cpu_xmm c /\ cpu_fs c3 = cpu_fs c /\ cpu_gs c3 = cpu_gs c;
  sa_slots (i : nat) r : win_saved !! i = Some r ->
    host_word (cpu_mem c3) (cpu_reg c rsp - 8 * (Z.of_nat i + 1)) = cpu_reg c r;
  sa_mem a : ~ cpu_reg c rsp - 64 <= a < cpu_reg c rsp -> hm_byte (cpu_mem c3) a = hm_byte (cpu_mem c) a;
  sa_prot : hm_prot (cpu_mem c3) = hm_prot (cpu_mem c);
}.

Lemma exec_saving c :
  win_ready teb_offset c ->
  exists c3, exec_listing (args_listing ++ win_save_listing ++ frame_listing) c = Some c3 /\ win_saved_at c c3.
Proof.
  intros Hr. destruct (wr_stack _ Hr) as [Hst1 Hst2].
  pose proof (wr_write _ Hr) as Hw. pose proof (wr_read _ Hr) as Hrd. unfold frame_base in *.
  rewrite host_allows_true in Hw, Hrd by lia.
  destruct (exec_entry_args c) as (c1 & Hx1 & Hrax & Hr10 & Hr1 & [_ Hxm1 Hf1 Hg1] & Hm1); [lia|lia| |].
  { apply host_allows_true; [lia|]. intros a Ha. apply Hrd. lia. }
  assert (cpu_reg c1 rsp = cpu_reg c rsp) as Hsp1 by (apply Hr1; discriminate).
  destruct (exec_pushes win_saved win_save_listing c1) as (c2 & Hx2 & _ & Hp2); [reflexivity| | | |].
  { unfold win_saved. reg_notin. }
  { rewrite Hsp1. cbn [length win_saved]. lia. }
  { rewrite Hsp1, Hm1. apply host_allows_true; [cbn [length win_saved]; lia|]. intros a Ha. apply Hw.
    cbn [length win_saved] in Ha. lia. }
  pose proof (pu_rsp _ _ _ Hp2) as Hsp2. rewrite Hsp1 in Hsp2. change (8 * zlen win_saved) with 64 in Hsp2.
  destruct (pu_context _ _ _ Hp2) as [Hxm2 _ Hf2 Hg2].
  destruct (exec_frame c2) as (c3 & Hx3 & Hsp3 & Hr3 & Hxm3 & Hf3 & Hg3 & Hm3); [lia|].
  rewrite Hsp2 in Hsp3. replace (cpu_reg c rsp - 64 - 176) with (cpu_reg c rsp - 240) in Hsp3 by ring.
  exists c3. split.
  { rewrite exec_listing_app, Hx1. cbn [mbind option_bind]. rewrite exec_listing_app, Hx2. exact Hx3. }
  split; rewrite ?Hm3.
  - intros r H1 H2 H3. by rewrite Hr3, (pu_regs _ _ _ Hp2), Hr1.
  - by rewrite Hr3, (pu_regs _ _ _ Hp2) by discriminate.
  - by rewrite Hr3, (pu_regs _ _ _ Hp2) by discriminate.
  - exact Hsp3.
  - cbn in Hxm1, Hf1, Hg1. split_and!; congruence.
  - intros i r Hi. rewrite <- Hsp1, (pu_slot _ _ _ Hp2 i r Hi), Hr1.
    + apply wrap64_small, (wr_regs _ Hr).
    + intros ->. apply list_elem_of_lookup_2 in Hi. unfold win_saved in Hi. reg_absurd Hi.
    + intros ->. apply list_elem_of_lookup_2 in Hi. unfold win_saved in Hi. reg_absurd Hi.
  - intros a Ha. rewrite (pu_mem _ _ _ Hp2) by (rewrite ?Hsp1; cbn [length win_saved]; lia). by rewrite Hm1.
  - by rewrite (pu_prot _ _ _ Hp2), Hm1.
Qed.

(** The first half of the code. *)
Lemma exec_entry c :
  win_ready teb_offset c -> exists c1, exec_listing (entry_listing t0 t1 t2 t3) c = Some c1 /\ entered teb_offset c c1.
Proof.
  intros Hr. destruct (wr_stack _ Hr) as [Hst1 Hst2]. pose proof (wr_write _ Hr) as Hw.
  pose proof (wr_slot _ Hr) as [Hs1 Hs2]. pose proof (wr_frame_slot _ Hr) as Hfs.
  destruct (exec_saving c Hr) as (c3 & Hx3 & [Hr3 Hrax Hr10 Hsp3 (Hxm3 & Hf3 & Hg3) Hsl3 Hb3 Hpr3]).
  unfold disjoint, frame_base in *. rewrite host_allows_true in Hw by lia.
  destruct (exec_xmm_stores xmm_saved 0 xmm_save_listing c3) as (c4 & Hx4 & [Hr4 Hxm4 Hf4 Hg4] & Hsl4 & Hb4 & Hpr4);
    [reflexivity|lia|lia|rewrite Hsp3; cbn [length xmm_saved]; lia| |].
  { rewrite Hsp3. apply host_allows_true; [cbn [length xmm_saved]; lia|]. intros a Ha. rewrite Hpr3. apply Hw.
    cbn [length xmm_saved] in Ha. lia. }
  rewrite Hsp3 in Hsl4, Hb4. change (16 * zlen xmm_saved) with 160 in Hb4.
  assert (teb_slot teb_offset c4 = teb_slot teb_offset c) as Hslot by (unfold teb_slot; cbn [cpu_gs set_reg] in *; congruence).
  assert (forall flag a n, host_allows flag (cpu_mem c4) a n = host_allows flag (cpu_mem c) a n) as Hall4
    by (intros; unfold host_allows; by rewrite Hpr4, Hpr3).
  destruct (exec_publish c4) as (c5 & Hx5 & Hr5 & Hxm5 & Hf5 & Hg5 & Hm5);
    rewrite ?Hslot, ?Hall4, ?Hr4, ?Hsp3; [lia|lia|exact Hs1|exact Hs2| |].
  { apply host_allows_true; [lia|]. intros a Ha. apply Hw. lia. }
  rewrite Hslot, Hr4, Hsp3 in Hm5. exists c5. split.
  { unfold entry_listing. rewrite !app_assoc, <- (app_assoc args_listing), exec_listing_app, exec_listing_app, Hx3.
    cbn [mbind option_bind]. by rewrite Hx4. }
  set (F := cpu_reg c rsp - 240) in *. set (S := teb_slot teb_offset c) in *.
  assert (forall a, ~ F + 160 <= a < F + 168 -> ~ S <= a < S + 8 ->
    hm_byte (cpu_mem c5) a = hm_byte (cpu_mem c4) a) as Hb5.
  { intros a H1 H2. rewrite Hm5, !host_put_get, !le_encode_length. change (Z.of_nat 8) with 8.
    by rewrite !(proj2 (in_range_false _ _ _)) by lia. }
  split; unfold frame_base; fold F; fold S.
  - intros r Hin. destruct (saved_not_moved r Hin) as (? & ? & ? & ?). by rewrite Hr5, Hr4, Hr3.
  - by rewrite Hr5, Hr4 by discriminate.
  - by rewrite Hr5, Hr4 by discriminate.
  - by rewrite Hr5, Hr4 by discriminate.
  - split_and!; congruence.
  - split; unfold frame_base; fold F; fold S.
    + intros i r Hi. rewrite <- (Hsl3 i r Hi). apply lookup_lt_Some in Hi. cbn [length win_saved] in Hi.
      apply host_word_ext. intros a Ha. by rewrite Hb5, Hb4 by lia.
    + intros i x Hi. pose proof (Hsl4 i x Hi) as Hs. rewrite Z.add_0_r, Hxm3 in Hs.
      rewrite <- (Hs (wr_xmm _ Hr x)). apply lookup_lt_Some in Hi. cbn [length xmm_saved] in Hi.
      apply host_xmm_ext. intros a Ha. apply Hb5; lia.
    + rewrite Hm5, host_word_put_ne by lia. rewrite host_word_put by apply host_word_u64.
      apply host_word_ext. intros a Ha. by rewrite Hb4, Hb3 by lia.
  - rewrite Hm5. apply host_word_put. unfold in_u64. lia.
  - intros a H1 H2. by rewrite Hb5, Hb4, Hb3 by lia.
  - rewrite Hm5. cbn [hm_prot host_put]. by rewrite Hpr4.
Qed.
End Run.

(** ** Into the guest *)

(** The guest has been called. *)
Record win_called (base teb_offset : Z) (c ce : Cpu) : Prop := {
  wc_rip : cpu_rip ce = cpu_reg c rcx;
  wc_args : cpu_reg ce rdi = cpu_reg c r8 /\ cpu_reg ce rsi = cpu_reg c r9 /\ cpu_reg ce rdx = third_argument c;
  wc_rsp : cpu_reg ce rsp = guest_top c - 24;
  wc_rbp : cpu_reg ce rbp = guest_top c - 16;
  wc_r12 : cpu_reg ce r12 = frame_base c;
  wc_return : host_word (cpu_mem ce) (guest_top c - 24) = base + 213;
  wc_chain : host_word (cpu_mem ce) (guest_top c - 16) = 0 /\ host_word (cpu_mem ce) (guest_top c - 8) = 0;
  wc_framed : framed teb_offset c (cpu_mem ce);
  wc_published : host_word (cpu_mem ce) (teb_slot teb_offset c) = frame_base c;
  wc_recorded : record_address c <> 0 -> host_word (cpu_mem ce) (record_address c) = frame_base c;
  wc_mem a : ~ frame_base c <= a < cpu_reg c rsp -> ~ guest_top c - 24 <= a < guest_top c ->
    ~ teb_slot teb_offset c <= a < teb_slot teb_offset c + 8 ->
    ~ (record_address c <> 0 /\ record_address c <= a < record_address c + 8) ->
    hm_byte (cpu_mem ce) a = hm_byte (cpu_mem c) a;
  wc_prot : hm_prot (cpu_mem ce) = hm_prot (cpu_mem c);
  wc_context : cpu_xmm ce = cpu_xmm c /\ cpu_fs ce = cpu_fs c /\ cpu_gs ce = cpu_gs c;
}.

(** Stores elsewhere keep the frame. *)
Lemma framed_ext teb_offset c h h' :
  (forall a, frame_base c <= a < frame_base c + 240 -> hm_byte h' a = hm_byte h a) ->
  framed teb_offset c h -> framed teb_offset c h'.
Proof.
  intros He [Hs Hx Hp]. unfold frame_base in *. split; unfold frame_base.
  - intros i r Hi. rewrite <- (Hs i r Hi). apply lookup_lt_Some in Hi. cbn [length win_saved] in Hi.
    apply host_word_ext. intros a Ha. apply He. lia.
  - intros i x Hi. rewrite <- (Hx i x Hi). apply lookup_lt_Some in Hi. cbn [length xmm_saved] in Hi.
    apply host_xmm_ext. intros a Ha. apply He. lia.
  - rewrite <- Hp. apply host_word_ext. intros a Ha. apply He. lia.
Qed.

Section Enter.
Context (t0 t1 t2 t3 : byte) (base teb_offset : Z).
Let code : list byte := win_code t0 t1 t2 t3.
Hypothesis Hteb : slot_disp t0 t1 t2 t3 = to_i32 teb_offset.

Local Ltac at_offset := split; [reflexivity|apply Nat.leb_le; reflexivity].

Lemma run_win_record c :
  code_at (cpu_mem c) base code -> cpu_rip c = base + 153 -> in_u64 (cpu_reg c rax) ->
  (cpu_reg c rax <> 0 -> host_allows PROT_WRITE (cpu_mem c) (cpu_reg c rax) 8 = true) ->
  exists c1, steps c c1 /\ code_at (cpu_mem c1) base code /\ cpu_rip c1 = base + 161 /\ same_registers c c1 /\
    cpu_mem c1 = (if cpu_reg c rax =? 0 then cpu_mem c
                  else host_put (cpu_mem c) (cpu_reg c rax) (le_encode 8 (cpu_reg c rsp))).
Proof.
  intros Hc Hip Ha Hw. pose proof (ca_range _ _ _ Hc) as Hrange. change (zlen code) with 488 in Hrange.
  set (c1 := set_flags (set_rip c (base + 153 + 3)) (snd (alu alu_and (cpu_reg c rax) (cpu_reg c rax)))).
  assert (fl_zero (cpu_flags c1) = (cpu_reg c rax =? 0)) as Hz by (cbn; by rewrite Z.land_diag).
  set (c2 := set_rip c1 (base + 156 + 2)).
  assert (forall c3, (if cpu_reg c rax =? 0 then c3 = set_rip c2 (wrap64 (base + 156 + 2 + 3))
                      else exec (MOV (at_ rax 0) (op_reg rsp)) (set_rip c2 (base + 158 + 3)) = Some c3) ->
          code_at (cpu_mem c3) base code /\ steps c c3) as Hsteps.
  { intros c3 H3. assert (code_at (cpu_mem c3) base code) as Hc3.
    { destruct (cpu_reg c rax =? 0); [by subst c3|]. eapply exec_code; [exact H3|exact Hc]. }
    split; [exact Hc3|].
    eapply (steps_code_at code base 153); [exact Hc|exact win_test_ok|at_offset|exact Hip|reflexivity|]. intros Hc1.
    eapply (steps_code_at code base 156 _ _ c1); [exact Hc1|exact win_jz_ok|at_offset|cbn; lia|reflexivity|].
    change (cpu_flags (set_rip c1 _)) with (cpu_flags c1). rewrite Hz. fold c2.
    destruct (cpu_reg c rax =? 0); cbn [Bool.eqb]; intros Hc2; [subst c3; apply rtc_refl|].
    eapply (steps_code_at code base 158); [exact Hc2|exact win_record_ok|at_offset|cbn; lia|exact H3|].
    intros _. apply rtc_refl. }
  destruct (Z.eqb_spec (cpu_reg c rax) 0) as [H0|H0].
  - eexists. destruct (Hsteps _ eq_refl) as [Hc3 Hs]. split; [exact Hs|]. split; [exact Hc3|].
    split; [cbn; rewrite wrap64_small; unfold in_u64; lia|]. split; [by split|reflexivity].
  - assert (exec (MOV (at_ rax 0) (op_reg rsp)) (set_rip c2 (base + 158 + 3)) =
      Some (set_mem (set_rip c2 (base + 158 + 3))
              (host_put (cpu_mem c) (cpu_reg c rax) (le_encode 8 (cpu_reg c rsp))))) as He.
    { cbn [exec read_operand write_operand mbind option_bind]. unfold effective.
      cbn [mo_segment mo_base mo_disp cpu_reg set_rip set_flags c1 c2].
      rewrite Z.add_0_r, Z.add_0_l, wrap64_small by exact Ha.
      rewrite store64_ok by (by apply Hw). reflexivity. }
    eexists. destruct (Hsteps _ He) as [Hc3 Hs]. split; [exact Hs|]. split; [exact Hc3|].
    split; [cbn; lia|]. split; [by split|reflexivity].
Qed.

Lemma exec_win_switch c :
  in_u64 (cpu_reg c rdx) -> 16 <= guest_top c -> host_allows PROT_WRITE (cpu_mem c) (guest_top c - 16) 16 = true ->
  exists c', exec_listing win_switch_listing c = Some c' /\
    cpu_reg c' rdi = cpu_reg c r8 /\ cpu_reg c' rsi = cpu_reg c r9 /\ cpu_reg c' rdx = cpu_reg c r10 /\
    cpu_reg c' r11 = cpu_reg c rcx /\ cpu_reg c' r12 = cpu_reg c rsp /\
    cpu_reg c' rsp = guest_top c - 16 /\ cpu_reg c' rbp = guest_top c - 16 /\
    cpu_xmm c' = cpu_xmm c /\ cpu_fs c' = cpu_fs c /\ cpu_gs c' = cpu_gs c /\
    cpu_mem c' = host_put (host_put (cpu_mem c) (guest_top c - 16) (le_encode 8 0))
                   (guest_top c - 8) (le_encode 8 0).
Proof.
  intros Hu Ht Hw. pose proof (land_high_mask 64 4 (cpu_reg c rdx) ltac:(lia) Hu) as Hland.
  change (wrap64 (-16)) with (2 ^ 64 - 2 ^ 4) in *.
  assert (wrap64 (Z.land (cpu_reg c rdx) (wrap64 (-16)) - wrap64 16) = guest_top c - 16) as Hsp.
  { replace (Z.land (cpu_reg c rdx) (wrap64 (-16))) with (guest_top c) by (unfold guest_top; symmetry; exact Hland).
    apply wrap64_small. unfold guest_top, in_u64, wrap64 in *. Z.div_mod_to_equations. lia. }
  assert (in_u64 (guest_top c)) as Hut by (unfold guest_top, in_u64 in *; Z.div_mod_to_equations; lia).
  set (top := guest_top c) in *. clearbody top. rewrite host_allows_true in Hw by lia.
  destruct c as [f x fl fs gs ip h]. cbn [cpu_reg cpu_mem cpu_xmm cpu_fs cpu_gs] in *.
  assert (wrap64 (0 + (top - 16) + 0) = top - 16) as Ha0 by (rewrite wrap64_small; unfold in_u64 in *; lia).
  assert (wrap64 (0 + (top - 16) + 8) = top - 8) as Ha8.
  { rewrite wrap64_small by (unfold in_u64 in *; lia). ring. }
  eexists. split.
  - unfold win_switch_listing. do 9 exec_one. rewrite Hsp.
    exec_one. rewrite Ha0. rewrite store64_ok by (apply host_allows_true; [lia|intros a Ha; apply Hw; lia]).
    exec_one. rewrite Ha8. rewrite store64_ok by (apply host_allows_true; [lia|intros a Ha; apply Hw; lia]).
    exec_one. reflexivity.
  - cbn [cpu_reg cpu_mem cpu_xmm cpu_fs cpu_gs set_mem]. read_regs. split_and!; reflexivity.
Qed.

Lemma run_win_switch c :
  code_at (cpu_mem c) base code -> cpu_rip c = base + 161 -> in_u64 (cpu_reg c rdx) ->
  24 <= guest_top c -> host_allows PROT_WRITE (cpu_mem c) (guest_top c - 24) 24 = true ->
  exists ce, steps c ce /\ code_at (cpu_mem ce) base code /\ cpu_rip ce = cpu_reg c rcx /\
    cpu_reg ce rdi = cpu_reg c r8 /\ cpu_reg ce rsi = cpu_reg c r9 /\ cpu_reg ce rdx = cpu_reg c r10 /\
    cpu_reg ce rsp = guest_top c - 24 /\ cpu_reg ce rbp = guest_top c - 16 /\ cpu_reg ce r12 = cpu_reg c rsp /\
    cpu_xmm ce = cpu_xmm c /\ cpu_fs ce = cpu_fs c /\ cpu_gs ce = cpu_gs c /\
    cpu_mem ce = host_put (host_put (host_put (cpu_mem c) (guest_top c - 16) (le_encode 8 0))
         (guest_top c - 8) (le_encode 8 0)) (guest_top c - 24) (le_encode 8 (base + 213)).
Proof.
  intros Hc Hip Hu Ht Hw. assert (guest_top c <= cpu_reg c rdx) as Hle.
  { unfold guest_top, in_u64 in *. Z.div_mod_to_equations. lia. }
  rewrite host_allows_true in Hw by lia.
  destruct (exec_win_switch c) as (c1 & Hx & Hdi & Hsi & Hdx & H11 & H12 & Hsp & Hbp & Hxm & Hfs & Hgs & Hm);
    [exact Hu|lia|apply host_allows_true; [lia|]; intros a Ha; apply Hw; lia|].
  set (top := guest_top c) in *.
  set (ce := set_rip (set_mem (set_reg (set_rip c1 (base + 210 + 3)) rsp (top - 24))
      (host_put (cpu_mem c1) (top - 24) (le_encode 8 (base + 213)))) (cpu_reg c rcx)).
  assert (exec (CALLR (op_reg r11)) (set_rip c1 (base + 210 + 3)) = Some ce) as He.
  { cbn [exec read_operand mbind option_bind]. unfold push. cbn [cpu_reg set_rip].
    rewrite Hsp, wrap64_small by (unfold in_u64 in *; lia). replace (top - 16 - 8) with (top - 24) by ring.
    rewrite store64_ok; cbn [cpu_mem set_reg set_rip cpu_rip].
    - cbn [mbind option_bind]. rewrite H11. unfold ce. do 4 f_equal. f_equal. lia.
    - apply host_allows_true; [lia|]. intros a Ha. rewrite Hm. apply Hw. lia. }
  exists ce. split.
  - eapply (steps_listing_at code base 161); [exact Hc|exact win_switch_ok|at_offset|reflexivity|exact Hip|exact Hx|].
    intros Hc1 Hip1. eapply (steps_code_at code base 210); [exact Hc1|exact win_call_ok|at_offset| |exact He|].
    + rewrite Hip1. change (zlen (listing_bytes win_switch_listing)) with 49. lia.
    + intros _. apply rtc_refl.
  - split; [eapply exec_code; [exact He|]; cbn [cpu_mem set_rip]; eapply exec_listing_code; [exact Hx|exact Hc]|].
    unfold ce. cbn [cpu_rip cpu_reg cpu_mem cpu_xmm cpu_fs cpu_gs set_rip set_mem set_reg]. read_regs.
    rewrite Hm. split_and!; first [reflexivity|assumption].
Qed.

(** What the stores of the record and of the guest's first frame leave. *)
Lemma entered_is_called c c1 c2 ce :
  win_ready teb_offset c -> entered teb_offset c c1 -> 0 <= base -> base + 488 <= u64_max ->
  cpu_mem c2 = (if record_address c =? 0 then cpu_mem c1
                else host_put (cpu_mem c1) (record_address c) (le_encode 8 (frame_base c))) ->
  cpu_mem ce = host_put (host_put (host_put (cpu_mem c2) (guest_top c - 16) (le_encode 8 0))
       (guest_top c - 8) (le_encode 8 0)) (guest_top c - 24) (le_encode 8 (base + 213)) ->
  cpu_rip ce = cpu_reg c rcx ->
  cpu_reg ce rdi = cpu_reg c r8 /\ cpu_reg ce rsi = cpu_reg c r9 /\ cpu_reg ce rdx = third_argument c ->
  cpu_reg ce rsp = guest_top c - 24 -> cpu_reg ce rbp = guest_top c - 16 -> cpu_reg ce r12 = frame_base c ->
  cpu_xmm ce = cpu_xmm c /\ cpu_fs ce = cpu_fs c /\ cpu_gs ce = cpu_gs c ->
  win_called base teb_offset c ce.
Proof.
  intros Hr [_ _ _ _ _ Hfr1 Hpub1 Hm1 Hpr1] Hb0 Hb1 Hm2 Hm3 A1 A2 A3 A4 A5 A6.
  pose proof (wr_stack _ Hr) as [Hst1 Hst2]. pose proof (wr_guest _ Hr) as Hg24.
  pose proof (wr_frame_guest _ Hr) as Hfg. pose proof (wr_frame_slot _ Hr) as Hfs.
  pose proof (wr_guest_slot _ Hr) as Hgs. pose proof (wr_record_apart _ Hr) as Hra. unfold disjoint in *.
  set (F := frame_base c) in *. set (G := guest_top c) in *. set (S := teb_slot teb_offset c) in *.
  set (R := record_address c) in *.
  assert (forall a, ~ G - 24 <= a < G -> hm_byte (cpu_mem ce) a = hm_byte (cpu_mem c2) a) as Hb3.
  { intros a Ha. rewrite Hm3, !host_put_get, !le_encode_length. change (Z.of_nat 8) with 8.
    by rewrite !(proj2 (in_range_false _ _ _)) by lia. }
  assert (forall a, ~ (R <> 0 /\ R <= a < R + 8) -> hm_byte (cpu_mem c2) a = hm_byte (cpu_mem c1) a) as Hb2.
  { intros a Ha. rewrite Hm2. destruct (Z.eqb_spec R 0); [reflexivity|].
    rewrite host_put_get, le_encode_length. change (Z.of_nat 8) with 8. by rewrite (proj2 (in_range_false _ _ _)) by lia. }
  split; fold F G S R; try assumption.
  - rewrite Hm3. apply host_word_put. unfold in_u64. lia.
  - rewrite Hm3. split.
    + rewrite !host_word_put_ne by lia. by apply host_word_put.
    + rewrite host_word_put_ne by lia. by apply host_word_put.
  - apply (framed_ext _ _ (cpu_mem c1)); [|exact Hfr1]. fold F. intros a Ha. rewrite Hb3, Hb2; [reflexivity| |lia].
    intros [Hn Hin]. destruct (Hra Hn). lia.
  - rewrite <- Hpub1. apply host_word_ext. intros a Ha. rewrite Hb3, Hb2; [reflexivity| |lia].
    intros [Hn Hin]. destruct (Hra Hn) as (_ & _ & ?). lia.
  - intros Hn. destruct (Hra Hn) as (H1 & H2 & H3).
    rewrite (host_word_ext (cpu_mem c2)) by (intros a Ha; apply Hb3; lia).
    rewrite Hm2. destruct (Z.eqb_spec R 0); [done|]. apply host_word_put. unfold F, frame_base, in_u64. lia.
  - intros a H1 H2 H3 H4. rewrite Hb3, Hb2 by assumption. by apply Hm1.
  - rewrite <- Hpr1. transitivity (hm_prot (cpu_mem c2)); [by rewrite Hm3|]. rewrite Hm2. by destruct (_ =? 0).
Qed.

Lemma entry_ok : listing_ok (entry_listing t0 t1 t2 t3).
Proof. unfold entry_listing. eauto using listing_ok_app, args_ok, win_save_ok, frame_ok, xmm_save_ok, publish_ok. Qed.

(** From the first instruction to the first instruction of the guest. *)
Lemma run_win_entry c :
  code_at (cpu_mem c) base code -> cpu_rip c = base -> win_ready teb_offset c ->
  exists ce, steps c ce /\ win_called base teb_offset c ce /\ code_at (cpu_mem ce) base code.
Proof.
  intros Hc Hip Hr. pose proof (ca_range _ _ _ Hc) as Hrange. change (zlen code) with 488 in Hrange.
  destruct (exec_entry t0 t1 t2 t3 teb_offset Hteb c Hr) as (c1 & Hx1 & Hen).
  pose proof Hen as [Hreg1 Hrax1 Hr10 Hsp1 (Hxm1 & Hf1 & Hg1) _ _ _ Hpr1].
  pose proof (exec_listing_rip (entry_listing t0 t1 t2 t3) _ _ eq_refl Hx1) as Hip1.
  change (zlen (listing_bytes (entry_listing t0 t1 t2 t3))) with 153 in Hip1. rewrite Hip in Hip1.
  assert (forall flag a n, host_allows flag (cpu_mem c1) a n = host_allows flag (cpu_mem c) a n) as Hall1
    by (intros; unfold host_allows; by rewrite Hpr1).
  destruct (run_win_record c1) as (c2 & Hs2 & Hc2 & Hip2 & [Hreg2 Hxm2 Hf2 Hg2] & Hm2);
    [by eapply exec_listing_code|exact Hip1|rewrite Hrax1; apply host_word_u64
    |rewrite Hrax1, Hall1; apply (wr_record _ Hr)|].
  rewrite Hrax1, Hsp1 in Hm2.
  assert (forall r, r ∈ [rcx; rdx; r8; r9] -> cpu_reg c2 r = cpu_reg c r) as Hk
    by (intros r Hin; rewrite Hreg2; apply Hreg1; rewrite !elem_of_cons in *; tauto).
  assert (guest_top c2 = guest_top c) as Htop by (unfold guest_top; rewrite Hk; [done|rewrite !elem_of_cons; tauto]).
  destruct (run_win_switch c2) as (ce & Hs3 & Hce & Hip3 & Hdi & Hsi & Hdx & Hsp3 & Hbp & H12 & Hxm3 & Hf3 & Hg3 & Hm3);
    rewrite ?Htop.
  { exact Hc2. }
  { exact Hip2. }
  { rewrite Hk by (rewrite !elem_of_cons; tauto). apply (wr_regs _ Hr). }
  { apply (wr_guest _ Hr). }
  { transitivity (host_allows PROT_WRITE (cpu_mem c1) (guest_top c - 24) 24).
    - rewrite Hm2. by destruct (_ =? 0).
    - rewrite Hall1. apply (wr_guest_write _ Hr). }
  rewrite Htop in *. exists ce. split; [|split; [|exact Hce]].
  - eapply (steps_listing_at code base 0 (entry_listing t0 t1 t2 t3));
      [exact Hc|exact entry_ok|at_offset|reflexivity|cbn; lia|exact Hx1|].
    intros _ _. etrans; [exact Hs2|exact Hs3].
  - rewrite Hk in Hip3, Hdi, Hsi by (rewrite !elem_of_cons; tauto).
    rewrite Hreg2 in Hdx, H12. rewrite Hr10 in Hdx. rewrite Hsp1 in H12.
    apply (entered_is_called c c1 c2 ce Hr Hen); try assumption; [lia|lia|by split_and!|split_and!; congruence].
Qed.
End Enter.
