(* ===== verification/EntryWindowsProps.v ===== *)
(** * Properties of the entry trampoline on Windows

    The way back, by the guest's return or by the recovery, and the whole call:
    what [EntryTrampoline::invoke] does in Microsoft's convention. *)

From S2P Require Import Prelude NativeArena X86 HleBridge HleBridgeCode NativeThread EntryWindows EntryWindowsCode.
Import EntryWindows.

Local Open Scope Z_scope.

(** ** Coming back *)

(** What the guest and the host's functions leave in place: the trampoline's
    code, the host's frame, and a slot that can be written. *)
Record win_kept (base teb_offset : Z) (code : list byte) (c ce cr : Cpu) : Prop := {
  wk_code : code_at (cpu_mem cr) base code;
  wk_read : host_allows PROT_READ (cpu_mem cr) (frame_base c) 248 = true;
  wk_frame a : frame_base c <= a < cpu_reg c rsp + 8 -> hm_byte (cpu_mem cr) a = hm_byte (cpu_mem ce) a;
  wk_slot : host_allows PROT_WRITE (cpu_mem cr) (teb_slot teb_offset c) 8 = true;
  wk_gs : cpu_gs cr = cpu_gs c;
}.

(** The host continues after its call, with its registers and the slot's
    previous value. *)
Record win_returned (teb_offset : Z) (c cr cf : Cpu) : Prop := {
  wt_rip : cpu_rip cf = host_word (cpu_mem c) (cpu_reg c rsp);
  wt_rsp : cpu_reg cf rsp = cpu_reg c rsp + 8;
  wt_saved r : r ∈ win_saved -> cpu_reg cf r = cpu_reg c r;
  wt_xmm x : x ∈ xmm_saved -> cpu_xmm cf x = cpu_xmm c x;
  wt_slot : host_word (cpu_mem cf) (teb_slot teb_offset c) = host_word (cpu_mem c) (teb_slot teb_offset c);
  wt_mem a : ~ teb_slot teb_offset c <= a < teb_slot teb_offset c + 8 ->
    hm_byte (cpu_mem cf) a = hm_byte (cpu_mem cr) a;
}.

Section Back.
Context (t0 t1 t2 t3 : byte) (base teb_offset : Z).
Let code : list byte := win_code t0 t1 t2 t3.
Hypothesis Hteb : slot_disp t0 t1 t2 t3 = to_i32 teb_offset.

Local Ltac at_offset := split; [reflexivity|apply Nat.leb_le; reflexivity].

Lemma exec_unpublish c :
  0 <= cpu_reg c rsp -> cpu_reg c rsp + 168 <= u64_max ->
  host_allows PROT_READ (cpu_mem c) (cpu_reg c rsp + 160) 8 = true ->
  host_allows PROT_WRITE (cpu_mem c) (teb_slot teb_offset c) 8 = true ->
  exists c1, exec_listing (unpublish_listing t0 t1 t2 t3) c = Some c1 /\
    (forall r, r <> r13 -> cpu_reg c1 r = cpu_reg c r) /\ cpu_xmm c1 = cpu_xmm c /\
    cpu_mem c1 = host_put (cpu_mem c) (teb_slot teb_offset c)
                   (le_encode 8 (host_word (cpu_mem c) (cpu_reg c rsp + 160))).
Proof.
  intros Hsp0 Hsp Hr Hw. unfold teb_slot in *. rewrite <- Hteb in *. destruct c as [f x fl fs gs ip h].
  cbn [cpu_reg cpu_mem cpu_gs cpu_xmm cpu_fs] in *.
  assert (wrap64 (0 + f rsp + 160) = f rsp + 160) as H1 by (apply wrap64_small; unfold in_u64; lia).
  eexists. split.
  - unfold unpublish_listing. exec_one. rewrite H1, load64_ok by exact Hr.
    exec_one. rewrite store64_ok by exact Hw. reflexivity.
  - cbn [cpu_reg cpu_mem cpu_xmm set_mem set_rip set_reg].
    split; [intros r Hn; by rewrite upd_ne|]. split; reflexivity.
Qed.

Lemma exec_unframe c :
  0 <= cpu_reg c rsp -> cpu_reg c rsp + 176 <= u64_max ->
  exists c1, exec_listing unframe_listing c = Some c1 /\ cpu_reg c1 rsp = cpu_reg c rsp + 176 /\
    (forall r, r <> rsp -> cpu_reg c1 r = cpu_reg c r) /\ cpu_xmm c1 = cpu_xmm c /\ cpu_mem c1 = cpu_mem c.
Proof.
  intros Hsp0 Hsp. destruct c as [f x fl fs gs ip h]. cbn [cpu_reg] in *. eexists. split.
  - unfold unframe_listing. exec_one. reflexivity.
  - cbn [cpu_reg cpu_mem cpu_xmm]. rewrite upd_eq.
    split; [apply wrap64_small; unfold in_u64; cbn; lia|].
    split; [intros r Hn; by rewrite upd_ne|]. split; reflexivity.
Qed.

(** The second half, up to the return. *)
Lemma exec_exit c ce cr :
  win_ready teb_offset c -> framed teb_offset c (cpu_mem ce) -> win_kept base teb_offset code c ce cr ->
  cpu_reg cr rsp = frame_base c ->
  exists c1, exec_listing (exit_listing t0 t1 t2 t3) cr = Some c1 /\
    cpu_reg c1 rax = cpu_reg cr rax /\ cpu_reg c1 rsp = cpu_reg c rsp /\
    (forall r, r ∈ win_saved -> cpu_reg c1 r = cpu_reg c r) /\
    (forall x, x ∈ xmm_saved -> cpu_xmm c1 x = cpu_xmm c x) /\
    cpu_mem c1 = host_put (cpu_mem cr) (teb_slot teb_offset c)
                   (le_encode 8 (host_word (cpu_mem c) (teb_slot teb_offset c))).
Proof.
  intros Hr Hfr [_ Hrd Hfm Hsl Hgs] Hsp. pose proof (wr_stack _ Hr) as [Hst1 Hst2].
  apply (framed_ext _ _ _ (cpu_mem cr)) in Hfr; [|intros a Ha; apply Hfm; unfold frame_base in *; lia].
  pose proof (wr_frame_slot _ Hr) as Hfs. unfold disjoint in Hfs.
  assert (teb_slot teb_offset cr = teb_slot teb_offset c) as Hslot by (unfold teb_slot; by rewrite Hgs).
  set (F := frame_base c) in *. assert (F = cpu_reg c rsp - 240) as HF by reflexivity.
  rewrite host_allows_true in Hrd by lia.
  destruct (exec_unpublish cr) as (c1 & Hx1 & Hr1 & Hxm1 & Hm1); rewrite ?Hsp, ?Hslot; [lia|lia| |exact Hsl|].
  { apply host_allows_true; [lia|]. intros a Ha. apply Hrd. lia. }
  rewrite Hslot, Hsp in Hm1. pose proof (fr_previous _ _ _ Hfr) as Hprev. fold F in Hprev. rewrite Hprev in Hm1.
  assert (cpu_reg c1 rsp = F) as Hsp1 by (rewrite Hr1 by discriminate; exact Hsp).
  assert (forall a, F <= a < F + 248 -> has (hm_prot (cpu_mem c1) a) PROT_READ = true) as Hrd1.
  { intros a Ha. rewrite Hm1. apply Hrd. lia. }
  assert (framed teb_offset c (cpu_mem c1)) as Hfr1.
  { eapply framed_ext; [|exact Hfr]. intros a Ha. fold F in Ha. rewrite Hm1, host_put_get, le_encode_length.
    change (Z.of_nat 8) with 8. by rewrite (proj2 (in_range_false _ _ _)) by lia. }
  destruct (exec_xmm_loads xmm_saved 0 xmm_load_listing c1) as (c2 & Hx2 & Hr2 & Hm2 & _ & _ & Hsl2 & _);
    [reflexivity|apply (bool_decide_unpack _); vm_compute; reflexivity|lia|lia
    |rewrite Hsp1; cbn [length xmm_saved]; lia| |].
  { rewrite Hsp1. apply host_allows_true; [cbn [length xmm_saved]; lia|]. intros a Ha. apply Hrd1.
    cbn [length xmm_saved] in Ha. lia. }
  destruct (exec_unframe c2) as (c3 & Hx3 & Hsp3 & Hr3 & Hxm3 & Hm3); rewrite ?Hr2, ?Hsp1; [lia|lia|].
  rewrite Hr2, Hsp1 in Hsp3.
  destruct (exec_pops (rev win_saved) win_restore_listing c3) as (c4 & Hx4 & _ & Hp4); [reflexivity| | |lia| | |].
  { reg_notin. }
  { apply (bool_decide_unpack _). vm_compute. reflexivity. }
  { cbn [length rev app win_saved]. lia. }
  { rewrite Hsp3, Hm3, Hm2. apply host_allows_true; [cbn [length rev app win_saved]; lia|]. intros a Ha. apply Hrd1.
    cbn [length rev app win_saved] in Ha. lia. }
  destruct (po_context _ _ _ Hp4) as [Hxm4 _ _ _].
  exists c4. split.
  { unfold exit_listing. rewrite exec_listing_app, Hx1. cbn [mbind option_bind].
    rewrite exec_listing_app, Hx2. cbn [mbind option_bind].
    rewrite exec_listing_app, Hx3. exact Hx4. }
  split; [|split; [|split; [|split]]].
  - rewrite (po_regs _ _ _ Hp4), Hr3, Hr2, Hr1; try discriminate; [reflexivity|].
    reg_notin.
  - rewrite (po_rsp _ _ _ Hp4), Hsp3. cbn [length rev app win_saved]. lia.
  - intros r Hin. apply list_elem_of_lookup in Hin as [i Hi].
    assert (rev win_saved !! (7 - i)%nat = Some r) as Hi'.
    { do 8 (destruct i as [|i]; [exact Hi|]). discriminate Hi. }
    pose proof (lookup_lt_Some _ _ _ Hi) as Hlt. cbn [length win_saved] in Hlt.
    rewrite (po_slot _ _ _ Hp4 _ _ Hi'), Hsp3, Hm3, Hm2, <- (fr_saved _ _ _ Hfr1 i r Hi). f_equal. lia.
  - intros x Hin. apply list_elem_of_lookup in Hin as [i Hi]. rewrite Hxm4, Hxm3, (Hsl2 i x Hi), Hsp1, Z.add_0_r.
    apply (fr_xmm _ _ _ Hfr1 i x Hi).
  - rewrite (po_mem _ _ _ Hp4), Hm3, Hm2. exact Hm1.
Qed.

(** The return instruction. *)
Lemma exec_win_ret c ce cr c1 next :
  win_ready teb_offset c -> win_called base teb_offset c ce -> win_kept base teb_offset code c ce cr ->
  cpu_mem c1 = host_put (cpu_mem cr) (teb_slot teb_offset c)
                 (le_encode 8 (host_word (cpu_mem c) (teb_slot teb_offset c))) ->
  cpu_reg c1 rsp = cpu_reg c rsp -> (forall r, r ∈ win_saved -> cpu_reg c1 r = cpu_reg c r) ->
  (forall x, x ∈ xmm_saved -> cpu_xmm c1 x = cpu_xmm c x) ->
  exists cf, exec RET (set_rip c1 next) = Some cf /\ win_returned teb_offset c cr cf /\ cpu_reg cf rax = cpu_reg c1 rax.
Proof.
  intros Hr Hcl [_ Hrd Hfm _ _] Hm Hsp Hs Hx. pose proof (wr_stack _ Hr) as [Hst1 Hst2].
  pose proof (wr_frame_slot _ Hr) as Hfs. pose proof (wr_frame_guest _ Hr) as Hfg.
  pose proof (wr_record_apart _ Hr) as Hra. unfold disjoint, frame_base in *.
  rewrite host_allows_true in Hrd by lia. eexists. split.
  - cbn [exec]. unfold pop. cbn [cpu_mem cpu_reg set_rip]. rewrite Hm, Hsp, load64_ok.
    + reflexivity.
    + apply host_allows_true; [lia|]. intros a Ha. cbn [hm_prot host_put]. apply Hrd. lia.
  - split; [|reflexivity].
    split; cbn [cpu_rip cpu_reg cpu_xmm cpu_mem set_rip set_reg].
    + rewrite host_word_put_ne by lia. apply host_word_ext. intros a Ha. rewrite Hfm by lia.
      apply (wc_mem _ _ _ _ Hcl); unfold frame_base; lia.
    + rewrite upd_eq. apply wrap64_small. unfold in_u64. lia.
    + intros r Hin. rewrite upd_ne; [by apply Hs|]. intros ->. unfold win_saved in Hin. reg_absurd Hin.
    + exact Hx.
    + rewrite Hm. apply host_word_put, host_word_u64.
    + intros a Ha. rewrite Hm, host_put_get, le_encode_length. change (Z.of_nat 8) with 8.
      by rewrite (proj2 (in_range_false _ _ _)) by lia.
Qed.

Lemma exit_ok : listing_ok (exit_listing t0 t1 t2 t3).
Proof. unfold exit_listing. eauto using listing_ok_app, unpublish_ok, xmm_load_ok, unframe_ok, win_restore_ok. Qed.

Lemma run_win_back c ce cr :
  win_ready teb_offset c -> win_called base teb_offset c ce -> win_kept base teb_offset code c ce cr ->
  cpu_rip cr = base + 213 -> cpu_reg cr r12 = cpu_reg ce r12 ->
  exists cf, steps cr cf /\ win_returned teb_offset c cr cf /\ cpu_reg cf rax = cpu_reg cr rax.
Proof.
  intros Hr Hcl Hk Hip H12. set (c0 := set_reg (set_rip cr (base + 213 + 3)) rsp (cpu_reg cr r12)).
  assert (win_kept base teb_offset code c ce c0) as Hk0 by (destruct Hk; by split).
  destruct (exec_exit c ce c0) as (c1 & Hx & Ha & Hsp & Hs & Hxm & Hm);
    [exact Hr|apply (wc_framed _ _ _ _ Hcl)|exact Hk0| |].
  { cbn [cpu_reg set_reg c0]. rewrite upd_eq, H12. apply Hcl. }
  destruct (exec_win_ret c ce cr c1 (base + 350 + 1)) as (cf & Hret & Hback & Hax);
    [exact Hr|exact Hcl|exact Hk|exact Hm|exact Hsp|exact Hs|exact Hxm|].
  exists cf. split; [|split; [exact Hback|rewrite Hax, Ha; reflexivity]].
  eapply (steps_code_at code base 213 _ _ cr c0); [apply Hk|exact win_back_ok|at_offset|exact Hip|reflexivity|]. intros Hc0.
  eapply (steps_listing_at code base 216 (exit_listing t0 t1 t2 t3));
    [exact Hc0|exact exit_ok|at_offset|reflexivity|cbn; lia|exact Hx|].
  intros Hc1 Hip1. change (zlen (listing_bytes (exit_listing t0 t1 t2 t3))) with 134 in Hip1.
  eapply (steps_code_at code base 350); [exact Hc1|exact win_ret_ok|at_offset|lia|exact Hret|].
  intros _. apply rtc_refl.
Qed.

Lemma run_win_recovery c ce cr :
  win_ready teb_offset c -> win_called base teb_offset c ce -> win_kept base teb_offset code c ce cr ->
  cpu_rip cr = base + 351 -> cpu_reg cr rsp = frame_base c ->
  exists cf, steps cr cf /\ win_returned teb_offset c cr cf /\ cpu_reg cf rax = 0.
Proof.
  intros Hr Hcl Hk Hip Hsp0.
  destruct (exec_exit c ce cr) as (c1 & Hx & Ha & Hsp & Hs & Hxm & Hm);
    [exact Hr|apply (wc_framed _ _ _ _ Hcl)|exact Hk|exact Hsp0|].
  set (c2 := set_flags (set_reg (set_rip c1 (base + 485 + 2)) rax 0) (mkFlags true false false false true)).
  assert (exec (XOR32 rax rax) (set_rip c1 (base + 485 + 2)) = Some c2) as Hxor.
  { cbn [exec]. cbn [cpu_reg set_rip]. rewrite Z.lxor_nilpotent. reflexivity. }
  assert (forall r, r <> rax -> cpu_reg c2 r = cpu_reg c1 r) as Hr2 by (intros; cbn; by rewrite upd_ne).
  destruct (exec_win_ret c ce cr c2 (base + 487 + 1)) as (cf & Hret & Hback & Hax);
    [exact Hr|exact Hcl|exact Hk|exact Hm|rewrite Hr2 by discriminate; exact Hsp| |exact Hxm|].
  { intros r Hin. rewrite Hr2; [by apply Hs|]. intros ->. unfold win_saved in Hin. reg_absurd Hin. }
  exists cf. split; [|split; [exact Hback|by rewrite Hax]].
  eapply (steps_listing_at code base 351 (exit_listing t0 t1 t2 t3));
    [apply Hk|exact exit_ok|at_offset|reflexivity|exact Hip|exact Hx|].
  intros Hc1 Hip1. change (zlen (listing_bytes (exit_listing t0 t1 t2 t3))) with 134 in Hip1.
  eapply (steps_code_at code base 485); [exact Hc1|exact win_xor_ok|at_offset|lia|exact Hxor|]. intros Hc2.
  eapply (steps_code_at code base 487); [exact Hc2|exact win_ret_ok|at_offset|cbn; lia|exact Hret|].
  intros _. apply rtc_refl.
Qed.
End Back.

(** ** The invocation *)

(** The trampoline is in memory. *)
Record win_trampoline_in (t : EntryTrampoline) (teb_offset : Z) (h : HostMem) : Prop := {
  wi_base : 0 < arena_base (et_code t);
  wi_code : code_at h (arena_base (et_code t)) (fst (build_entry_trampoline (Some teb_offset)));
  wi_recovery : recovery_address t = arena_base (et_code t) + snd (build_entry_trampoline (Some teb_offset));
}.

(** The state in which the code starts. *)
Lemma win_invoke_state t teb_offset c entry top a0 a1 a2 recovery c1 :
  win_trampoline_in t teb_offset (cpu_mem c) -> in_u64 (cpu_reg c rsp) -> in_u64 (cpu_rip c) ->
  in_u64 a2 -> in_u64 recovery ->
  invoke t c entry top a0 a1 a2 recovery = Ok (Some c1) -> win_ready teb_offset c1 ->
  code_at (cpu_mem c1) (arena_base (et_code t)) (fst (build_entry_trampoline (Some teb_offset))) /\
  cpu_rip c1 = arena_base (et_code t) /\
  (cpu_reg c1 rcx = entry /\ cpu_reg c1 rdx = top /\ cpu_reg c1 r8 = a0 /\ cpu_reg c1 r9 = a1 /\
   third_argument c1 = a2 /\ record_address c1 = recovery) /\
  cpu_reg c1 rsp + 8 = cpu_reg c rsp /\ host_word (cpu_mem c1) (cpu_reg c1 rsp) = cpu_rip c /\
  (forall r, r ∈ win_saved -> cpu_reg c1 r = cpu_reg c r) /\ cpu_xmm c1 = cpu_xmm c.
Proof.
  intros [Hb Hc _] Hsp Hip Ha2 Hrec Hi Hr. pose proof (wr_stack _ Hr) as [Hst1 Hst2].
  unfold invoke in Hi. apply bind_Ok in Hi as (u & _ & Hi). apply Ok_inj in Hi. unfold host_call in Hi.
  apply bind_Some in Hi as (c2 & H2 & Hi). apply bind_Some in Hi as (c3 & H3 & Hi).
  apply bind_Some in Hi as (c4 & H4 & [= <-]).
  pose proof (store64_mem _ _ _ _ H2) as Hm2. pose proof (store64_mem _ _ _ _ H3) as Hm3.
  pose proof (push_mem _ _ _ H4) as Hm4. cbn [cpu_mem set_reg] in Hm2.
  assert (code_at (cpu_mem c4) (arena_base (et_code t)) (fst (build_entry_trampoline (Some teb_offset)))) as Hc4.
  { eapply mem_step_code; [exact Hm4|]. eapply mem_step_code; [exact Hm3|]. by eapply mem_step_code. }
  unfold push in H4. unfold store64 in H2, H3, H4.
  destruct (host_allows _ (cpu_mem (set_reg _ _ _)) _ _) in H2; [|discriminate H2]. apply (inj Some) in H2; subst c2.
  destruct (host_allows _ _ _ _) in H3; [|discriminate H3]. apply (inj Some) in H3; subst c3.
  destruct (host_allows _ _ _ _) in H4; [|discriminate H4]. apply (inj Some) in H4; subst c4.
  unfold third_argument, record_address. cbn [cpu_reg cpu_mem cpu_rip cpu_xmm set_rip set_mem set_reg] in *.
  rewrite upd_eq in *. repeat rewrite upd_ne in * by discriminate.
  assert (wrap64 (cpu_reg c rsp - 8) = cpu_reg c rsp - 8) as Hw
    by (unfold in_u64, wrap64 in *; Z.div_mod_to_equations; lia).
  rewrite Hw in *.
  assert (wrap64 (cpu_reg c rsp + 32) = cpu_reg c rsp + 32) as Hw1 by (apply wrap64_small; unfold in_u64; lia).
  assert (wrap64 (cpu_reg c rsp + 40) = cpu_reg c rsp + 40) as Hw2 by (apply wrap64_small; unfold in_u64; lia).
  rewrite Hw1, Hw2 in *.
  split; [exact Hc4|]. split; [reflexivity|]. split; [|split; [lia|split; [|split]]].
  - split_and!; try reflexivity.
    + replace (cpu_reg c rsp - 8 + 40) with (cpu_reg c rsp + 32) by ring.
      rewrite !host_word_put_ne by lia. by apply host_word_put.
    + replace (cpu_reg c rsp - 8 + 48) with (cpu_reg c rsp + 40) by ring.
      rewrite host_word_put_ne by lia. by apply host_word_put.
  - by apply host_word_put.
  - intros r Hin. unfold win_saved in Hin. rewrite !elem_of_cons, elem_of_nil in Hin.
    repeat (destruct Hin as [->|Hin]; [reflexivity|]). destruct Hin.
  - reflexivity.
Qed.

(** The displacement of the slot, byte by byte, and the code with it. *)
Lemma win_code_of teb_offset :
  exists t0 t1 t2 t3, slot_disp t0 t1 t2 t3 = to_i32 teb_offset /\
    build_entry_trampoline (Some teb_offset) = (win_code t0 t1 t2 t3, 351).
Proof.
  destruct (le_encode_4 teb_offset) as (t0 & t1 & t2 & t3 & Hteb4). exists t0, t1, t2, t3.
  split; [|by apply build_is_the_listing]. unfold slot_disp. rewrite <- Hteb4, le_decode_encode.
  change (256 ^ Z.of_nat 4) with u32_mod. unfold to_i32, wrap32. by rewrite Z.mod_mod.
Qed.

(** The way in. *)
Lemma win_entry_runs t teb_offset c entry top a0 a1 a2 recovery c1 :
  win_trampoline_in t teb_offset (cpu_mem c) -> in_u64 (cpu_reg c rsp) -> in_u64 (cpu_rip c) ->
  in_u64 a2 -> in_u64 recovery ->
  invoke t c entry top a0 a1 a2 recovery = Ok (Some c1) -> win_ready teb_offset c1 ->
  exists ce, steps c1 ce /\ win_called (arena_base (et_code t)) teb_offset c1 ce /\
    (cpu_rip ce = entry /\ cpu_reg ce rdi = a0 /\ cpu_reg ce rsi = a1 /\ cpu_reg ce rdx = a2) /\
    frame_base c1 = cpu_reg c rsp - 248 /\ guest_top c1 = top - top mod 16 /\ record_address c1 = recovery.
Proof.
  intros Ht Hsp Hip Ha2 Hrec Hi Hr.
  destruct (win_invoke_state _ _ _ _ _ _ _ _ _ _ Ht Hsp Hip Ha2 Hrec Hi Hr)
    as (Hc1 & Hip1 & (Hcx & Hdx & H8 & H9 & H3 & Hra) & Hsp1 & _).
  destruct (win_code_of teb_offset) as (t0 & t1 & t2 & t3 & Hteb & Hbuild). rewrite Hbuild in Hc1.
  destruct (run_win_entry t0 t1 t2 t3 _ teb_offset Hteb c1 Hc1 Hip1 Hr) as (ce & Hs & Hcl & _).
  pose proof (wc_args _ _ _ _ Hcl) as (Ha0 & Ha1 & Ha2'). exists ce.
  split_and!; [exact Hs|exact Hcl|rewrite (wc_rip _ _ _ _ Hcl); exact Hcx|congruence..| | |exact Hra].
  - unfold frame_base. lia.
  - unfold guest_top. by rewrite Hdx.
Qed.

(** The host continues behind its call. *)
Record win_continued (teb_offset : Z) (c c1 cr cf : Cpu) : Prop := {
  wn_rip : cpu_rip cf = cpu_rip c;
  wn_rsp : cpu_reg cf rsp = cpu_reg c rsp;
  wn_saved r : r ∈ win_saved -> cpu_reg cf r = cpu_reg c r;
  wn_xmm x : x ∈ xmm_saved -> cpu_xmm cf x = cpu_xmm c x;
  wn_slot : host_word (cpu_mem cf) (teb_slot teb_offset c1) = host_word (cpu_mem c1) (teb_slot teb_offset c1);
  wn_mem a : ~ teb_slot teb_offset c1 <= a < teb_slot teb_offset c1 + 8 ->
    hm_byte (cpu_mem cf) a = hm_byte (cpu_mem cr) a;
}.

(** The way back, from the guest's return or from the recovery. *)
Lemma win_way_back t teb_offset c entry top a0 a1 a2 recovery c1 ce cr :
  win_trampoline_in t teb_offset (cpu_mem c) -> in_u64 (cpu_reg c rsp) -> in_u64 (cpu_rip c) ->
  in_u64 a2 -> in_u64 recovery ->
  invoke t c entry top a0 a1 a2 recovery = Ok (Some c1) -> win_ready teb_offset c1 ->
  win_called (arena_base (et_code t)) teb_offset c1 ce ->
  win_kept (arena_base (et_code t)) teb_offset (fst (build_entry_trampoline (Some teb_offset))) c1 ce cr ->
  (cpu_rip cr = host_word (cpu_mem ce) (cpu_reg ce rsp) /\ cpu_reg cr r12 = cpu_reg ce r12) \/
  (cpu_rip cr = recovery_address t /\ cpu_reg cr rsp = frame_base c1) ->
  exists cf, steps cr cf /\ win_continued teb_offset c c1 cr cf /\
    cpu_reg cf rax = (if cpu_rip cr =? recovery_address t then 0 else cpu_reg cr rax).
Proof.
  intros Ht Hsp Hip Ha2 Hrec Hi Hr Hcl Hk Hcase.
  destruct (win_invoke_state _ _ _ _ _ _ _ _ _ _ Ht Hsp Hip Ha2 Hrec Hi Hr) as (_ & _ & _ & Hsp1 & Hret & Hsv & Hxm).
  destruct (win_code_of teb_offset) as (t0 & t1 & t2 & t3 & Hteb & Hbuild).
  pose proof (wi_recovery _ _ _ Ht) as Hrv. rewrite Hbuild in Hrv, Hk. cbn [fst snd] in *.
  assert (forall cf, win_returned teb_offset c1 cr cf -> win_continued teb_offset c c1 cr cf) as Hback.
  { intros cf [B1 B2 B3 B4 B5 B6]. split; [by rewrite B1|by rewrite B2| | |exact B5|exact B6].
    - intros r Hin. by rewrite B3, Hsv.
    - intros x Hin. by rewrite B4, Hxm. }
  destruct Hcase as [[Hipr H12]|[Hipr Hspr]].
  - rewrite (wc_rsp _ _ _ _ Hcl), (wc_return _ _ _ _ Hcl) in Hipr.
    destruct (run_win_back t0 t1 t2 t3 _ teb_offset Hteb c1 ce cr Hr Hcl Hk Hipr H12) as (cf & Hsf & Hrt & Hax).
    exists cf. rewrite (proj2 (Z.eqb_neq (cpu_rip cr) (recovery_address t))) by (rewrite Hipr, Hrv; lia). auto.
  - rewrite Hipr, Z.eqb_refl. rewrite Hrv in Hipr.
    destruct (run_win_recovery t0 t1 t2 t3 _ teb_offset Hteb c1 ce cr Hr Hcl Hk Hipr Hspr) as (cf & Hsf & Hrt & Hax).
    exists cf. auto.
Qed.

(** The guest's return is not the recovery. *)
Lemma win_return_is_no_recovery t teb_offset h c ce :
  win_trampoline_in t teb_offset h -> win_called (arena_base (et_code t)) teb_offset c ce ->
  forall a, a = host_word (cpu_mem ce) (cpu_reg ce rsp) -> (a =? recovery_address t) = false.
Proof.
  intros Ht Hcl a ->. destruct (win_code_of teb_offset) as (t0 & t1 & t2 & t3 & _ & Hbuild).
  rewrite (wi_recovery _ _ _ Ht), Hbuild, (wc_rsp _ _ _ _ Hcl), (wc_return _ _ _ _ Hcl). apply Z.eqb_neq. cbn [snd]. lia.
Qed.

Lemma win_recovery_nonzero t teb_offset h : win_trampoline_in t teb_offset h -> recovery_address t <> 0.
Proof.
  intros Ht. destruct (win_code_of teb_offset) as (t0 & t1 & t2 & t3 & _ & Hbuild).
  rewrite (wi_recovery _ _ _ Ht), Hbuild. pose proof (wi_base _ _ _ Ht). cbn [snd]. lia.
Qed.

(** C9: An entry on Windows and the way back.  The host calls the trampoline in
    Microsoft's convention; the guest's entry point is reached with the three
    arguments in the System V registers, on the guest's stack, aligned as its
    convention wants it.  The TEB slot then leads to the bottom of the host's
    frame, which is 8 modulo 16, as the bridges of HleBridge.v need it, and so
    does the recovery record.  However the guest comes back, as long as code and
    frame are left alone: when it returns (with R12 as it was) the host
    continues behind its call with the guest's RAX, and when a fault handler
    continues at [recovery_address] on the recorded stack pointer, with 0.
    Either way the stack pointer, the eight nonvolatile registers and XMM6 to
    XMM15 are the host's again and the slot has its previous value, so that
    entries nest. *)
Theorem windows_entries_call_the_guest t teb_offset c entry top a0 a1 a2 recovery c1 :
  win_trampoline_in t teb_offset (cpu_mem c) -> in_u64 (cpu_reg c rsp) -> in_u64 (cpu_rip c) ->
  in_u64 a2 -> in_u64 recovery ->
  invoke t c entry top a0 a1 a2 recovery = Ok (Some c1) -> win_ready teb_offset c1 ->
  let slot := teb_slot teb_offset c1 in
  let code := fst (build_entry_trampoline (Some teb_offset)) in
  exists ce, steps c1 ce /\
    cpu_rip ce = entry /\ cpu_reg ce rdi = a0 /\ cpu_reg ce rsi = a1 /\ cpu_reg ce rdx = a2 /\
    (cpu_reg ce rsp + 24 <= top < cpu_reg ce rsp + 40 /\ (cpu_reg ce rsp + 8) mod 16 = 0) /\
    host_word (cpu_mem ce) slot = cpu_reg c rsp - 248 /\
    (cpu_reg c rsp mod 16 = 0 -> host_word (cpu_mem ce) slot mod 16 = 8) /\
    (recovery <> 0 -> host_word (cpu_mem ce) recovery = cpu_reg c rsp - 248) /\
    cpu_gs ce = cpu_gs c1 /\
    forall cr, win_kept (arena_base (et_code t)) teb_offset code c1 ce cr ->
      (cpu_rip cr = host_word (cpu_mem ce) (cpu_reg ce rsp) /\ cpu_reg cr r12 = cpu_reg ce r12) \/
      (recovery <> 0 /\ cpu_rip cr = recovery_address t /\ cpu_reg cr rsp = host_word (cpu_mem ce) recovery) ->
      exists cf, steps cr cf /\ cpu_rip cf = cpu_rip c /\ cpu_reg cf rsp = cpu_reg c rsp /\
        (forall r, r ∈ win_saved -> cpu_reg cf r = cpu_reg c r) /\
        (forall x, x ∈ xmm_saved -> cpu_xmm cf x = cpu_xmm c x) /\
        host_word (cpu_mem cf) slot = host_word (cpu_mem c1) slot /\
        (forall a, ~ slot <= a < slot + 8 -> hm_byte (cpu_mem cf) a = hm_byte (cpu_mem cr) a) /\
        cpu_reg cf rax =
          (if cpu_rip cr =? recovery_address t then 0 else cpu_reg cr rax).
Proof.
  intros Ht Hsp Hip Ha2 Hrec Hi Hr slot code.
  destruct (win_entry_runs _ _ _ _ _ _ _ _ _ _ Ht Hsp Hip Ha2 Hrec Hi Hr)
    as (ce & Hs & Hcl & (Hipe & Hdi & Hsi & Hdx) & HF & Htop & Hra).
  pose proof (wc_context _ _ _ _ Hcl) as (_ & _ & Hgs). pose proof (wc_published _ _ _ _ Hcl) as Hpub.
  pose proof (wc_rsp _ _ _ _ Hcl) as Hspe. fold slot in Hpub. rewrite HF in Hpub. rewrite Htop in Hspe.
  exists ce. rewrite Hpub. split_and!; try assumption; try (rewrite ?Hspe; Z.div_mod_to_equations; lia).
  - intros Hn. rewrite <- Hra, (wc_recorded _ _ _ _ Hcl), HF by (by rewrite Hra). reflexivity.
  - intros cr Hk Hcase.
    destruct (win_way_back _ _ _ _ _ _ _ _ _ _ ce cr Ht Hsp Hip Ha2 Hrec Hi Hr Hcl Hk) as (cf & Hsf & [] & Hax).
    { destruct Hcase as [Hc|(Hn & Hipr & Hspr)]; [by left|right]. split; [exact Hipr|].
      rewrite Hspr, <- Hra. apply (wc_recorded _ _ _ _ Hcl). by rewrite Hra. }
    exists cf. split_and!; assumption.
Qed.

(** ** The witness

    The trampoline at 4096, a guest at 8192 that returns the sum of its last two
    arguments, the TEB at 20480 with the slot at offset 40; the host's stack
    pointer is 65536. *)

Definition adding_guest : list byte := map byte_of_Z
  [ 0x48; 0x89; 0x27;          (* mov [rdi],rsp *)
    0x48; 0x89; 0xf0;          (* mov rax,rsi *)
    0x48; 0x01; 0xd0;          (* add rax,rdx *)
    0xc3 ].                    (* ret *)

Definition win_memory : HostMem :=
  host_put (host_put (mkHostMem (fun _ => zero_byte)
    (fun a => if in_range 4096 8192 a then Z.lor PROT_READ PROT_EXEC else Z.lor PROT_READ PROT_WRITE) 0)
    4096 (fst (build_entry_trampoline (Some 40)))) 8192 adding_guest.
Definition win_trampoline : EntryTrampoline :=
  mkEntryTrampoline (mkNativeArena 4096 4096) (snd (build_entry_trampoline (Some 40))).
Definition win_cpu : Cpu :=
  mkCpu (upd (fun _ => 7) rsp 65536) (fun x => x mod 16) (mkFlags false false false false false)
    0 20480 1048576 win_memory.
Definition win_call : Cpu :=
  match invoke win_trampoline win_cpu 8192 32776 49152 20 22 57344 with Ok (Some c) => c | _ => win_cpu end.

(** 40 instructions on the way in, the guest's four, and 23 on the way back. *)
Example the_guest_adds_on_windows :
  (fun c => (cpu_reg c rax, cpu_rip c, cpu_reg c rsp, cpu_xmm c 15, host_word (cpu_mem c) 49152,
             host_word (cpu_mem c) 57344, host_word (cpu_mem c) 20520)) <$> run 67 win_call =
  Some (42, 1048576, 65536, 15, 32744, 65288, 0).
Proof. vm_compute. reflexivity. Qed.

Lemma win_in : win_trampoline_in win_trampoline 40 win_memory.
Proof.
  split; [reflexivity| |vm_compute; reflexivity]. split.
  - vm_compute. split; discriminate.
  - vm_compute. reflexivity.
  - intros a Ha. change (zlen (fst (build_entry_trampoline (Some 40)))) with 488 in Ha. cbn in *.
    rewrite (proj2 (in_range_true _ _ _)) by lia. done.
  - intros a Ha. change (zlen (fst (build_entry_trampoline (Some 40)))) with 488 in Ha. cbn in *.
    rewrite (proj2 (in_range_true _ _ _)) by lia. done.
Qed.

Lemma win_call_ready : win_ready 40 win_call.
Proof.
  assert (frame_base win_call = 65288) as HF by reflexivity.
  assert (guest_top win_call = 32768) as HG by reflexivity.
  assert (teb_slot 40 win_call = 20520) as HS by reflexivity.
  assert (record_address win_call = 57344) as HR by (vm_compute; reflexivity).
  split; rewrite ?HF, ?HG, ?HS, ?HR; unfold disjoint.
  - intros r. change (cpu_reg win_call r) with
      (upd (upd (upd (upd (upd (upd (fun _ => 7) rsp 65536) rcx 8192) rdx 32776) r8 49152) r9 20) rsp 65528 r).
    unfold upd, in_u64. repeat (case_match; [split; [discriminate|reflexivity]|]). split; [discriminate|reflexivity].
  - intros x. change (cpu_xmm win_call x) with (x mod 16).
    pose proof (Z.mod_pos_bound x 16 eq_refl). split; [lia|]. apply Z.lt_trans with 16; [lia|reflexivity].
  - change (cpu_reg win_call rsp) with 65528. lia.
  - vm_compute. reflexivity.
  - vm_compute. reflexivity.
  - lia.
  - vm_compute. reflexivity.
  - split; vm_compute; reflexivity.
  - intros _. vm_compute. reflexivity.
  - lia.
  - lia.
  - lia.
  - intros _. lia.
Qed.

Lemma windows_entries_call_the_guest_witness :
  exists ce, steps win_call ce /\ cpu_rip ce = 8192 /\ cpu_reg ce rdi = 49152 /\
    host_word (cpu_mem ce) 20520 = 65288.
Proof.
  destruct (windows_entries_call_the_guest win_trampoline 40 win_cpu 8192 32776 49152 20 22 57344 win_call win_in
    ltac:(vm_compute; split; [discriminate|reflexivity]) ltac:(vm_compute; split; [discriminate|reflexivity])
    ltac:(vm_compute; split; [discriminate|reflexivity]) ltac:(vm_compute; split; [discriminate|reflexivity])
    eq_refl win_call_ready) as (ce & Hs & Hip & Hdi & _ & _ & _ & Hpub & _).
  exists ce. split; [exact Hs|]. split; [exact Hip|]. split; [exact Hdi|exact Hpub].
Defined.
