(* ===== verification/FaultWindows.v ===== *)
(** * Capturing guest faults on Windows

    The Windows half of [src/src/runtime/fault.cpp]: the vectored exception
    handler, its registration, and [invoke_guest_captured] over the trampoline of
    EntryWindows.v.  The captures, the faults and [terminate_guest_execution] are
    the code of Fault.v, which both platforms compile; of its [FaultState] the
    signal actions are not used here, and the process's list of vectored handlers
    stands beside it.

    [deliver] is what the system does with an exception that an instruction of
    the thread raises: it writes the exception record and the context to the
    thread's stack and asks the vectored handlers in their order.  Whether
    [AddVectoredExceptionHandler] succeeds, our handler's address and the size of
    that frame are parameters. *)

From S2P Require Import Prelude NativeArena X86 NativeThread EntryWindows Fault.

Local Open Scope Z_scope.

Module FaultWindows.

(** The codes of the exceptions, and the answers of a handler. *)
Definition EXCEPTION_ACCESS_VIOLATION : Z := 0xC0000005.
Definition EXCEPTION_IN_PAGE_ERROR : Z := 0xC0000006.
Definition EXCEPTION_ILLEGAL_INSTRUCTION : Z := 0xC000001D.
Definition EXCEPTION_CONTINUE_SEARCH : Z := 0.
Definition EXCEPTION_CONTINUE_EXECUTION : Z := -1.

(** [EXCEPTION_RECORD]: the code and the parameters, and [EXCEPTION_POINTERS]. *)
Record ExceptionRecord : Type := mkExceptionRecord {
  ExceptionCode : Z;
  ExceptionInformation : list Z;
}.
Record ExceptionPointers : Type := mkExceptionPointers {
  ep_record : option ExceptionRecord;
  ep_context : option Cpu;
}.
Definition NumberParameters (r : ExceptionRecord) : Z := zlen (ExceptionInformation r).

Class VectoredOs : Type := {
  (** the address of [guest_vectored_handler] *)
  vectored_address : Z;
  (** whether a handler can be put before those of the list *)
  add_vectored_ok : list Z -> bool;
  (** what the system writes below the stack pointer to dispatch an exception *)
  exception_frame : Z;
}.

(** The process's vectored handlers, the first to be asked first. *)
Record WinState : Type := mkWinState { vectored : list Z; shared : FaultState }.

Definition set_shared (w : WinState) (s : FaultState) : WinState := mkWinState (vectored w) s.

(** ** The handler *)

Definition windows_fault_kind (code : Z) : GuestFaultKind :=
  if (code =? EXCEPTION_ACCESS_VIOLATION) || (code =? EXCEPTION_IN_PAGE_ERROR) then access_violation
  else if code =? EXCEPTION_ILLEGAL_INSTRUCTION then illegal_instruction
  else unknown_fault.

(** [kind == GuestFaultKind::unknown]. *)
Definition is_unknown (k : GuestFaultKind) : bool :=
  match k with unknown_fault => true | _ => false end.

(** The [address] of the fault: the second parameter of an access violation. *)
Definition fault_address (r : ExceptionRecord) : Z :=
  let code := ExceptionCode r in
  if ((code =? EXCEPTION_ACCESS_VIOLATION) || (code =? EXCEPTION_IN_PAGE_ERROR)) && (2 <=? NumberParameters r)
  then default 0 (ExceptionInformation r !! 1%nat) else 0.

(** [guest_vectored_handler]: its answer, the state and the context it leaves;
    [h] is the memory, where the [host_stack] of the recovery state is. *)
Definition guest_vectored_handler (s : FaultState) (h : HostMem) (pointers : option ExceptionPointers)
  : Z * FaultState * option ExceptionPointers :=
  let search := (EXCEPTION_CONTINUE_SEARCH, s, pointers) in
  match active_capture s ≫= fun p => captures s !! p, pointers with
  | Some capture, Some (mkExceptionPointers (Some record) (Some context)) =>
      match cap_fault capture with
      | None => search
      | Some fault_slot =>
          if (cap_recovery capture =? 0) || (host_word h (cap_recovery capture) =? 0) ||
             (cap_recovery_address capture =? 0) then search
          else
            let code := ExceptionCode record in
            let recovered := set_rip (set_reg context rsp (host_word h (cap_recovery capture)))
                               (cap_recovery_address capture) in
            let pointers' := Some (mkExceptionPointers (Some record) (Some recovered)) in
            if exit_requested capture && (code =? EXCEPTION_ILLEGAL_INSTRUCTION) then
              (EXCEPTION_CONTINUE_EXECUTION, s, pointers')
            else
              let kind := windows_fault_kind code in
              if is_unknown kind then search
              else
                let fault := mkGuestFault kind (to_i32 code) (fault_address record) (cpu_rip context) in
                (EXCEPTION_CONTINUE_EXECUTION, put_fault s fault_slot fault, pointers')
      end
  | _, _ => search
  end.

Section Handler.
Context `{VectoredOs}.

(** How the dispatch ends: the thread resumes in a context, the search goes on
    with other handlers, or the process is gone because the frame of the
    exception does not fit. *)
Inductive dispatched : Type :=
| resumes (w : WinState) (c : Cpu)
| passes (w : WinState) (handlers : list Z)
| dies.

Definition dispatch_room (c : Cpu) : bool :=
  host_allows PROT_WRITE (cpu_mem c) (cpu_reg c rsp - exception_frame) exception_frame.

(** The frame is below the stack pointer; the memory of [c] is the one that the
    handler finds.  Our handler is followed as far as it is the first. *)
Definition deliver (w : WinState) (record : ExceptionRecord) (c : Cpu) : dispatched :=
  if negb (dispatch_room c) then dies
  else
    match vectored w with
    | handler :: handlers =>
        if handler =? vectored_address then
          match guest_vectored_handler (shared w) (cpu_mem c)
                  (Some (mkExceptionPointers (Some record) (Some c))) with
          | (answer, s, Some (mkExceptionPointers _ (Some c'))) =>
              if answer =? EXCEPTION_CONTINUE_EXECUTION then resumes (set_shared w s) c'
              else passes (set_shared w s) handlers
          | (_, s, _) => passes (set_shared w s) handlers
          end
        else passes w (vectored w)
    | [] => passes w []
    end.

(** ** Registration *)

(** How a call ends: normally or with an exception. *)
Inductive ending (A : Type) : Type :=
| finished (a : A) (w : WinState)
| threw (e : exn) (w : WinState).
#[global] Arguments finished {A}.
#[global] Arguments threw {A}.

Definition install_handlers (w : WinState) : ending unit :=
  if add_vectored_ok (vectored w) then finished tt (mkWinState (vectored_address :: vectored w) (shared w))
  else threw (runtime_error "unable to install guest vectored exception handler") w.

(** [std::call_once]: the flag is set when the call returns. *)
Definition call_once_install (w : WinState) : ending unit :=
  if install_once (shared w) then finished tt w
  else
    match install_handlers w with
    | finished _ w =>
        let s := shared w in
        finished tt (set_shared w (mkFaultState (actions s) (signal_states s) true (faults s) (captures s)
                                     (active_capture s)))
    | threw e w => threw e w
    end.

(** ** Invocations *)

(** [invoke_guest_captured] up to the call of the trampoline, as
    [Fault.begin_capture]. *)
Definition begin_capture (w : WinState) (t : EntryTrampoline) (c : Cpu)
    (entry stack_top arg0 arg1 arg2 recovery : Z) : ending (Frame * option Cpu) :=
  match call_once_install w with
  | threw e w => threw e w
  | finished _ w =>
      let s := shared w in
      let fault_slot := fresh (dom (faults s)) in
      let s := put_fault s fault_slot (mkGuestFault unknown_fault 0 0 0) in
      let capture := fresh (dom (captures s)) in
      let s := put_capture s capture
                 (mkActiveCapture (Some fault_slot) recovery (recovery_address t) false 0) in
      let previous_capture := active_capture s in
      let s := set_active s (Some capture) in
      let frame := mkFrame fault_slot capture previous_capture in
      match store64 c recovery 0 with
      | None => finished (frame, None) (set_shared w s)
      | Some c =>
          match EntryWindows.invoke t c entry stack_top arg0 arg1 arg2 recovery with
          | Throw e => threw e (set_shared w (set_active s previous_capture))
          | Ok c => finished (frame, c) (set_shared w s)
          end
      end
  end.

End Handler.
End FaultWindows.
