(* ===== verification/FaultWindowsProps.v ===== *)
(** * Properties of the capture of guest faults on Windows

    The registration of the vectored handler, what it takes and what it leaves
    to others, and how a captured call ends on the processor of X86.v. *)

From S2P Require Import Prelude NativeArena X86 HleBridge HleBridgeCode NativeThread EntryWindows EntryWindowsCode.
From S2P Require Import EntryWindowsProps Fault FaultProps FaultWindows.
Import FaultWindows.

Local Open Scope Z_scope.

Definition captured_exceptions : list Z :=
  [EXCEPTION_ACCESS_VIOLATION; EXCEPTION_IN_PAGE_ERROR; EXCEPTION_ILLEGAL_INSTRUCTION].

Lemma windows_fault_kind_known code : is_unknown (windows_fault_kind code) = false <-> code ∈ captured_exceptions.
Proof.
  unfold captured_exceptions, windows_fault_kind. rewrite !elem_of_cons, elem_of_nil.
  destruct (Z.eqb_spec code EXCEPTION_ACCESS_VIOLATION), (Z.eqb_spec code EXCEPTION_IN_PAGE_ERROR),
    (Z.eqb_spec code EXCEPTION_ILLEGAL_INSTRUCTION); cbn; split; try done; tauto.
Qed.

Lemma captured_code_nonzero code : code ∈ captured_exceptions -> to_i32 code <> 0.
Proof.
  unfold captured_exceptions. rewrite !elem_of_cons, elem_of_nil. intros [->|[->|[->|[]]]]; discriminate.
Qed.

(** ** What the handler does *)

(** Outside a capture nothing happens. *)
Lemma handler_idle s h pointers :
  active_capture s = None -> guest_vectored_handler s h pointers = (EXCEPTION_CONTINUE_SEARCH, s, pointers).
Proof. intros Ha. unfold guest_vectored_handler. by rewrite Ha. Qed.

(** An exception of another kind goes on to the other handlers, captured call or
    not, and so does one without a record or a context. *)
Lemma handler_leaves_others s h record context :
  ExceptionCode record ∉ captured_exceptions ->
  guest_vectored_handler s h (Some (mkExceptionPointers (Some record) context)) =
    (EXCEPTION_CONTINUE_SEARCH, s, Some (mkExceptionPointers (Some record) context)).
Proof.
  intros Hn. unfold guest_vectored_handler. destruct (_ ≫= _) as [a|]; [|done]. destruct context as [c|]; [|done].
  destruct (cap_fault a); [|done]. destruct (_ || _); [done|].
  rewrite (proj2 (Z.eqb_neq (ExceptionCode record) EXCEPTION_ILLEGAL_INSTRUCTION)), andb_false_r.
  - destruct (is_unknown _) eqn:Hu; [done|]. by apply windows_fault_kind_known in Hu.
  - intros E. apply Hn. rewrite E. unfold captured_exceptions. rewrite !elem_of_cons. tauto.
Qed.

(** Inside a call whose stack pointer is recorded the handler continues at the
    recovery address. *)
Lemma handler_captures s h record c p a f :
  active_capture s = Some p -> captures s !! p = Some a -> cap_fault a = Some f ->
  cap_recovery a <> 0 -> host_word h (cap_recovery a) <> 0 -> cap_recovery_address a <> 0 ->
  ExceptionCode record ∈ captured_exceptions ->
  guest_vectored_handler s h (Some (mkExceptionPointers (Some record) (Some c))) =
    (EXCEPTION_CONTINUE_EXECUTION,
     if exit_requested a && (ExceptionCode record =? EXCEPTION_ILLEGAL_INSTRUCTION) then s
     else put_fault s f (mkGuestFault (windows_fault_kind (ExceptionCode record)) (to_i32 (ExceptionCode record))
                           (fault_address record) (cpu_rip c)),
     Some (mkExceptionPointers (Some record)
       (Some (set_rip (set_reg c rsp (host_word h (cap_recovery a))) (cap_recovery_address a))))).
Proof.
  intros Ha Hc Hf H1 H2 H3 Hk. apply Z.eqb_neq in H1, H2, H3. apply windows_fault_kind_known in Hk.
  unfold guest_vectored_handler. rewrite Ha. cbn [mbind option_bind]. rewrite Hc, Hf, H1, H2, H3, Hk. cbn [orb].
  by destruct (exit_requested a && _).
Qed.

(** ** Captured calls *)

(** How the guest is left: by its return, by an exception that it raises, or by
    [terminate_guest_execution], whose trap is an illegal instruction. *)
Inductive win_departure : Type :=
| win_return
| win_exception (record : ExceptionRecord)
| win_exit (value : Z) (parameters : list Z).

Section Captures.
Context `{VectoredOs}.

(** An exception that our handler, asked first, resumes. *)
Definition resumed (w : WinState) (record : ExceptionRecord) (c : Cpu) : option (WinState * Cpu) :=
  match deliver w record c with resumes w c => Some (w, c) | _ => None end.

(** The state and the processor after the departure. *)
Definition win_depart (d : win_departure) (w : WinState) (c : Cpu) : option (WinState * Cpu) :=
  match d with
  | win_return => Some (w, c)
  | win_exception record => resumed w record c
  | win_exit value parameters =>
      s ← terminate_guest_execution (shared w) (cpu_mem c) value;
      resumed (set_shared w s) (mkExceptionRecord EXCEPTION_ILLEGAL_INSTRUCTION parameters) c
  end.

(** What the host is told. *)
Definition win_departure_result (d : win_departure) (c : Cpu) : GuestInvocationResult :=
  match d with
  | win_return => mkInvocation (cpu_reg c rax) None
  | win_exception record =>
      mkInvocation 0 (Some (mkGuestFault (windows_fault_kind (ExceptionCode record))
                              (to_i32 (ExceptionCode record)) (fault_address record) (cpu_rip c)))
  | win_exit value _ => mkInvocation value None
  end.

Definition win_departs_at (d : win_departure) (ce c : Cpu) : Prop :=
  match d with
  | win_return => cpu_rip c = host_word (cpu_mem ce) (cpu_reg ce rsp) /\ cpu_reg c r12 = cpu_reg ce r12
  | win_exception record => ExceptionCode record ∈ captured_exceptions /\ dispatch_room c = true
  | win_exit _ _ => dispatch_room c = true
  end.

(** Inner captured calls are over, and no handler has been put before ours. *)
Record win_undisturbed (frame : Frame) (w1 w2 : WinState) : Prop := {
  wu_active : active_capture (shared w2) = active_capture (shared w1);
  wu_capture : captures (shared w2) !! fr_capture frame = captures (shared w1) !! fr_capture frame;
  wu_fault : faults (shared w2) !! fr_fault frame = faults (shared w1) !! fr_fault frame;
  wu_first : head (vectored w2) = Some vectored_address;
}.

Lemma call_once_install_shared w w0 :
  call_once_install w = finished tt w0 ->
  active_capture (shared w0) = active_capture (shared w) /\ captures (shared w0) = captures (shared w) /\
  faults (shared w0) = faults (shared w).
Proof.
  unfold call_once_install, install_handlers. destruct (install_once (shared w)); [by intros [= <-]|].
  destruct (add_vectored_ok _); [|done]. by intros [= <-].
Qed.

(** The call begins with a new frame, and the trampoline starts. *)
Lemma win_begin_spec w t c entry top a0 a1 a2 recovery frame c1 w1 :
  begin_capture w t c entry top a0 a1 a2 recovery = finished (frame, Some c1) w1 ->
  exists c0, store64 c recovery 0 = Some c0 /\
    EntryWindows.invoke t c0 entry top a0 a1 a2 recovery = Ok (Some c1) /\
    fr_previous_capture frame = active_capture (shared w) /\
    captures (shared w1) !! fr_capture frame =
      Some (mkActiveCapture (Some (fr_fault frame)) recovery (recovery_address t) false 0) /\
    faults (shared w1) !! fr_fault frame = Some (mkGuestFault unknown_fault 0 0 0) /\
    active_capture (shared w1) = Some (fr_capture frame) /\ outside frame (shared w) (shared w1).
Proof.
  unfold begin_capture. destruct (call_once_install w) as [[] w0|e w0] eqn:H0; [|done].
  apply call_once_install_shared in H0 as (Ha & Hc & Hf).
  destruct (store64 c recovery 0) as [c0|] eqn:Hs; [|intros E; congruence].
  destruct (EntryWindows.invoke _ _ _ _ _ _ _ _) as [oc|e] eqn:Hi; [|done]. intros E.
  injection E as <- -> <-. exists c0. cbn -[fresh]. unfold outside. cbn -[fresh]. rewrite Ha, Hc, Hf.
  split_and!; try done; try apply lookup_insert_eq; intros p Hp; by rewrite lookup_insert_ne.
Qed.

Lemma resumed_captured w record c p a f :
  head (vectored w) = Some vectored_address -> dispatch_room c = true ->
  active_capture (shared w) = Some p -> captures (shared w) !! p = Some a -> cap_fault a = Some f ->
  cap_recovery a <> 0 -> host_word (cpu_mem c) (cap_recovery a) <> 0 -> cap_recovery_address a <> 0 ->
  ExceptionCode record ∈ captured_exceptions ->
  resumed w record c =
    Some (set_shared w
      (if exit_requested a && (ExceptionCode record =? EXCEPTION_ILLEGAL_INSTRUCTION) then shared w
       else put_fault (shared w) f
              (mkGuestFault (windows_fault_kind (ExceptionCode record)) (to_i32 (ExceptionCode record))
                 (fault_address record) (cpu_rip c))),
      set_rip (set_reg c rsp (host_word (cpu_mem c) (cap_recovery a))) (cap_recovery_address a)).
Proof.
  intros Hv Hroom Ha Hc Hf H1 H2 H3 Hk. unfold resumed, deliver. rewrite Hroom. cbn [negb].
  destruct (vectored w) as [|handler handlers]; [done|]. injection Hv as ->. rewrite Z.eqb_refl.
  rewrite (handler_captures _ _ _ _ p a f) by done. reflexivity.
Qed.

(** The departure of an undisturbed call. *)
Lemma win_depart_spec t ce cr frame recovery w1 w2 d :
  captures (shared w1) !! fr_capture frame =
    Some (mkActiveCapture (Some (fr_fault frame)) recovery (recovery_address t) false 0) ->
  faults (shared w1) !! fr_fault frame = Some (mkGuestFault unknown_fault 0 0 0) ->
  active_capture (shared w1) = Some (fr_capture frame) -> win_undisturbed frame w1 w2 ->
  recovery <> 0 -> recovery_address t <> 0 -> host_word (cpu_mem cr) recovery <> 0 -> win_departs_at d ce cr ->
  exists w3 c3, win_depart d w2 cr = Some (w3, c3) /\ outside frame (shared w2) (shared w3) /\
    (if d is win_return then c3 = cr
     else c3 = set_rip (set_reg cr rsp (host_word (cpu_mem cr) recovery)) (recovery_address t)) /\
    forall rax_value, (if d is win_return then rax_value = cpu_reg cr rax else rax_value = 0) ->
      finish_capture (shared w3) frame rax_value =
        Some (win_departure_result d cr, set_active (shared w3) (fr_previous_capture frame)).
Proof.
  intros Hc1 Hf1 Ha1 [Ha Hc Hf Hv] Hr Ht Hw Hd. rewrite Hc1 in Hc. rewrite Hf1 in Hf. rewrite Ha1 in Ha.
  destruct d as [|record|value parameters]; cbn [win_depart win_departs_at win_departure_result] in *.
  - exists w2, cr. split_and!; [done|done|done|]. intros v ->. unfold finish_capture. cbn. by rewrite Hc, Hf.
  - destruct Hd as [Hd Hroom]. rewrite (resumed_captured w2 record cr _ _ _ Hv Hroom Ha Hc eq_refl) by done.
    cbn [exit_requested andb cap_recovery cap_recovery_address]. do 2 eexists. split_and!; [done| |done|].
    + split; intros p Hp; cbn; [done|]. by rewrite lookup_insert_ne.
    + intros v ->. unfold finish_capture. cbn. rewrite Hc, lookup_insert_eq. cbn [mbind option_bind exit_requested].
      cbn [gf_native_code]. pose proof (captured_code_nonzero _ Hd) as Hn. apply Z.eqb_neq in Hn. by rewrite Hn.
  - unfold terminate_guest_execution. rewrite Ha. cbn [mbind option_bind]. rewrite Hc.
    cbn [mbind option_bind cap_recovery cap_recovery_address cap_fault].
    rewrite !(proj2 (Z.eqb_neq _ _)) by done. cbn [orb mbind option_bind].
    rewrite (resumed_captured _ _ cr (fr_capture frame)
      (mkActiveCapture (Some (fr_fault frame)) recovery (recovery_address t) true value) (fr_fault frame));
      try done; cbn [set_shared shared put_capture captures ExceptionCode]; [|apply lookup_insert_eq|].
    + cbn [exit_requested cap_recovery cap_recovery_address]. do 2 eexists. split_and!; [done| |done|].
      * split; intros p Hp; cbn; [|done]. by rewrite lookup_insert_ne.
      * intros v ->. unfold finish_capture. cbn. by rewrite lookup_insert_eq, Hf.
    + unfold captured_exceptions. rewrite !elem_of_cons. tauto.
Qed.

End Captures.

Lemma store64_context c a v c0 :
  store64 c a v = Some c0 -> cpu_reg c0 = cpu_reg c /\ cpu_xmm c0 = cpu_xmm c /\ cpu_rip c0 = cpu_rip c.
Proof. unfold store64. destruct (host_allows _ _ _ _); [|done]. by intros [= <-]. Qed.

Section CapturedCalls.
Context `{VectoredOs}.

(** C11: A captured call of the guest ends in a result on Windows too.  The
    Windows trampoline reaches the guest's entry point with the three arguments;
    and however the guest is left after that, as long as the trampoline's code,
    the host's frame and the recovery record are in place, the stack has room for
    the dispatch and no handler was put before ours - by its return, by an access
    violation, an in-page error or an illegal instruction anywhere below the
    call, or by [terminate_guest_execution] - the processor comes back behind the
    host's call with the host's stack pointer, its nonvolatile registers and
    XMM6 to XMM15, and the TEB slot has its previous value.  The call gives the
    guest's value, the fault (its kind, code, address and instruction), or the
    exit value; the enclosing capture is active again and untouched. *)
Theorem windows_captured_calls_end_in_results w t teb_offset c entry top a0 a1 a2 recovery frame c1 w1 :
  win_trampoline_in t teb_offset (cpu_mem c) -> in_u64 (cpu_reg c rsp) -> in_u64 (cpu_rip c) ->
  in_u64 a2 -> in_u64 recovery -> recovery <> 0 ->
  begin_capture w t c entry top a0 a1 a2 recovery = finished (frame, Some c1) w1 ->
  win_ready teb_offset c1 -> cpu_reg c rsp <> 248 ->
  let slot := teb_slot teb_offset c1 in
  let code := fst (EntryWindows.build_entry_trampoline (Some teb_offset)) in
  outside frame (shared w) (shared w1) /\
  exists ce, steps c1 ce /\
    cpu_rip ce = entry /\ cpu_reg ce rdi = a0 /\ cpu_reg ce rsi = a1 /\ cpu_reg ce rdx = a2 /\
    forall w2 cr d,
      win_undisturbed frame w1 w2 -> win_kept (arena_base (et_code t)) teb_offset code c1 ce cr ->
      host_word (cpu_mem cr) recovery = host_word (cpu_mem ce) recovery -> win_departs_at d ce cr ->
      exists w3 c3 cf s4, win_depart d w2 cr = Some (w3, c3) /\ steps c3 cf /\
        cpu_rip cf = cpu_rip c /\ cpu_reg cf rsp = cpu_reg c rsp /\
        (forall r, r ∈ win_saved -> cpu_reg cf r = cpu_reg c r) /\
        (forall x, x ∈ xmm_saved -> cpu_xmm cf x = cpu_xmm c x) /\
        host_word (cpu_mem cf) slot = host_word (cpu_mem c1) slot /\
        finish_capture (shared w3) frame (cpu_reg cf rax) = Some (win_departure_result d cr, s4) /\
        active_capture s4 = active_capture (shared w) /\ outside frame (shared w2) s4.
Proof.
  intros Ht Hsp Hip Ha2 Hrec Hrn Hb Hr H248 slot code.
  destruct (win_begin_spec _ _ _ _ _ _ _ _ _ _ _ _ Hb) as (c0 & Hst & Hi & Hprev & Hcap & Hf & Hact & Hout1).
  assert (win_trampoline_in t teb_offset (cpu_mem c0)) as Ht0.
  { destruct Ht as [? Hcode ?]. split; [done| |done]. eapply mem_step_code; [by eapply store64_mem|done]. }
  destruct (store64_context _ _ _ _ Hst) as (Hreg0 & Hxmm0 & Hrip0).
  rewrite <- Hreg0, <- Hrip0, <- Hxmm0 in *.
  destruct (win_entry_runs _ _ _ _ _ _ _ _ _ _ Ht0 Hsp Hip Ha2 Hrec Hi Hr)
    as (ce & Hs & Hcl & (Hipe & Hdi & Hsi & Hdx) & HF & _ & Hra).
  split; [exact Hout1|]. exists ce. split_and!; try assumption. intros w2 cr d Hu Hk Hw Hd.
  assert (host_word (cpu_mem ce) recovery = frame_base c1) as Hrecd
    by (rewrite <- Hra; apply (wc_recorded _ _ _ _ Hcl); by rewrite Hra).
  rewrite Hrecd in Hw. assert (recovery_address t <> 0) as Hrt by (eapply win_recovery_nonzero; exact Ht0).
  destruct (win_depart_spec t ce cr frame recovery w1 w2 d Hcap Hf Hact Hu Hrn Hrt ltac:(lia) Hd)
    as (w3 & c3 & Hdep & Hout & Hc3 & Hfin). rewrite Hw in Hc3.
  destruct (win_way_back _ _ _ _ _ _ _ _ _ _ ce c3 Ht0 Hsp Hip Ha2 Hrec Hi Hr Hcl) as (cf & Hsf & [] & Hax).
  { destruct d; subst c3; [exact Hk|destruct Hk; by split..]. }
  { destruct d; subst c3; [by left|right; split; reflexivity..]. }
  exists w3, c3, cf, (set_active (shared w3) (fr_previous_capture frame)).
  split_and!; try assumption; try exact Hout. apply Hfin. rewrite Hax. destruct d; subst c3.
  - destruct Hd as [Hipr _]. by rewrite (win_return_is_no_recovery _ _ _ _ _ Ht0 Hcl _ Hipr).
  - cbn [cpu_rip set_rip]. by rewrite Z.eqb_refl.
  - cbn [cpu_rip set_rip]. by rewrite Z.eqb_refl.
Qed.
End CapturedCalls.

(** ** Registration *)

Section Registration.
Context `{VectoredOs}.

(** The handler is put before those of the process, or the invocation throws and
    everything is as it was, so that the next one tries again.  Once registered
    it takes nothing that is not a guest's: an exception of another kind, and any
    exception while nothing is captured, goes on to the handlers that were there
    before, with the state unchanged. *)
Theorem the_vectored_handler_is_registered w :
  install_once (shared w) = false ->
  match call_once_install w with
  | finished _ w' =>
      install_once (shared w') = true /\ vectored w' = vectored_address :: vectored w /\
      forall w'' record c, vectored w'' = vectored w' -> dispatch_room c = true ->
        active_capture (shared w'') = None \/ ExceptionCode record ∉ captured_exceptions ->
        deliver w'' record c = passes w'' (vectored w)
  | threw e w' =>
      e = runtime_error "unable to install guest vectored exception handler" /\ w' = w
  end.
Proof.
  intros Hf. unfold call_once_install, install_handlers. rewrite Hf. destruct (add_vectored_ok _); [|done].
  split_and!; [done|done|]. cbn [vectored set_shared]. intros w'' record c Hv Hroom Hc.
  unfold deliver. rewrite Hroom, Hv, Z.eqb_refl. cbn [negb].
  destruct Hc as [Hn|Hk]; [rewrite handler_idle by done|rewrite handler_leaves_others by done]; by destruct w''.
Qed.
End Registration.

(** ** The witness

    The call of EntryWindowsProps.v, captured, with a handler of the host
    already there. *)

Definition tiny_vectored : VectoredOs := {|
  vectored_address := 0x700000; add_vectored_ok _ := true; exception_frame := 2048 |}.

Definition win_faults : WinState :=
  mkWinState [0x600000] (mkFaultState (fun _ => mkSigaction 0 0) [] false ∅ ∅ None).

Definition win_begin :=
  @begin_capture tiny_vectored win_faults win_trampoline win_cpu 8192 32776 49152 20 22 57344.
Definition win_captured : Cpu := match win_begin with finished (_, Some c) _ => c | _ => win_cpu end.
Definition win_capturing : WinState := match win_begin with finished _ w => w | _ => win_faults end.
Definition win_frame : Frame := match win_begin with finished (frame, _) _ => frame | _ => mkFrame 0 0 None end.

Lemma win_begins : win_begin = finished (win_frame, Some win_captured) win_capturing.
Proof.
  assert (match win_begin with finished (_, Some _) _ => true | _ => false end = true) as Hb
    by (vm_compute; reflexivity).
  unfold win_frame, win_captured, win_capturing. by destruct win_begin as [[frame [c|]] w|e w].
Qed.

(** Readiness looks at registers and protections only. *)
Lemma win_ready_ext teb_offset c c' :
  (forall r, cpu_reg c' r = cpu_reg c r) -> (forall x, cpu_xmm c' x = cpu_xmm c x) -> cpu_gs c' = cpu_gs c ->
  (forall a, hm_prot (cpu_mem c') a = hm_prot (cpu_mem c) a) -> record_address c' = record_address c ->
  win_ready teb_offset c -> win_ready teb_offset c'.
Proof.
  intros Hr Hx Hg Hp Hrec [].
  assert (forall f a n, host_allows f (cpu_mem c') a n = host_allows f (cpu_mem c) a n) as Ha.
  { intros f a n. unfold host_allows. induction (seq 0 _); cbn [forallb]; congruence. }
  assert (frame_base c' = frame_base c) as HF by (unfold frame_base; by rewrite Hr).
  assert (guest_top c' = guest_top c) as HG by (unfold guest_top; by rewrite Hr).
  assert (teb_slot teb_offset c' = teb_slot teb_offset c) as HS by (unfold teb_slot; by rewrite Hg).
  split; rewrite ?HF, ?HG, ?HS, ?Hrec, ?Ha, ?Hr; try assumption; intros; rewrite ?Hr, ?Hx; auto.
Qed.

Lemma win_captured_ready : win_ready 40 win_captured.
Proof.
  apply (win_ready_ext 40 win_call); [reflexivity..| |exact win_call_ready]. vm_compute. reflexivity.
Qed.

(** The guest faults at its first instruction, or returns from there: the result
    says so. *)
Lemma windows_captured_calls_end_in_results_witness :
  exists ce, steps win_captured ce /\ cpu_rip ce = 8192 /\
    forall d, win_kept 4096 40 (fst (EntryWindows.build_entry_trampoline (Some 40))) win_captured ce ce ->
      @win_departs_at tiny_vectored d ce ce ->
      exists w3 c3 cf s4, @win_depart tiny_vectored d win_capturing ce = Some (w3, c3) /\ steps c3 cf /\
        cpu_rip cf = 1048576 /\
        finish_capture (shared w3) win_frame (cpu_reg cf rax) = Some (win_departure_result d ce, s4).
Proof.
  destruct (@windows_captured_calls_end_in_results tiny_vectored win_faults win_trampoline 40 win_cpu
    8192 32776 49152 20 22 57344 win_frame win_captured win_capturing win_in
    ltac:(vm_compute; split; [discriminate|reflexivity]) ltac:(vm_compute; split; [discriminate|reflexivity])
    ltac:(vm_compute; split; [discriminate|reflexivity]) ltac:(vm_compute; split; [discriminate|reflexivity])
    ltac:(discriminate) win_begins win_captured_ready ltac:(vm_compute; discriminate))
    as (_ & ce & Hs & Hip & _ & _ & _ & Hd).
  exists ce. split; [exact Hs|]. split; [exact Hip|]. intros d Hk Hdep.
  destruct (Hd win_capturing ce d) as (w3 & c3 & cf & s4 & H1 & H2 & H3 & _ & _ & _ & _ & H4 & _).
  - split; reflexivity.
  - exact Hk.
  - reflexivity.
  - exact Hdep.
  - exists w3, c3, cf, s4. split; [exact H1|]. split; [exact H2|]. split; [exact H3|exact H4].
Defined.
