(* ===== verification/Arenas.v ===== *)
(** * The owners of host memory

    [src/src/memory/native_arena.cpp] and
    [src/include/nyxora/memory/native_arena.hpp] once more, with what
    NativeArena.v leaves out: the Windows calls beside the POSIX ones, the page
    size of the host, reservations at an exact address, the moves, and the
    destructor, whose [munmap] or [VirtualFree] must meet each reservation once.

    The operating system's side is the list of live reservations, the protection
    of every page and a count of the calls; what it answers is the typeclass
    [OsMemory].  Giving back what is not a live reservation is an
    [undefined_behaviour]: [munmap] would unmap whatever is there by then. *)

From S2P Require Import Prelude NativeArena.

Local Open Scope Z_scope.

Module Arenas.

(** The builds that the source distinguishes; a Linux build knows
    [MAP_FIXED_NOREPLACE] or does not. *)
Inductive build : Type :=
| windows
| linux (map_fixed_noreplace : bool)
| other_posix.

Definition exact_reservation_supported (b : build) : bool :=
  match b with windows => true | linux noreplace => noreplace | other_posix => false end.

(** ** Protections *)

Definition PAGE_NOACCESS : Z := 0x01.
Definition PAGE_READONLY : Z := 0x02.
Definition PAGE_READWRITE : Z := 0x04.
Definition PAGE_EXECUTE : Z := 0x10.
Definition PAGE_EXECUTE_READ : Z := 0x20.
Definition PAGE_EXECUTE_READWRITE : Z := 0x40.

Definition windows_protection (protection : Z) : Z :=
  let read := has protection prot_read in
  let write := has protection prot_write in
  let execute := has protection prot_execute in
  if execute then
    if write then PAGE_EXECUTE_READWRITE
    else if read then PAGE_EXECUTE_READ else PAGE_EXECUTE
  else if write then PAGE_READWRITE
  else if read then PAGE_READONLY else PAGE_NOACCESS.

Definition native_protection (b : build) (protection : Z) : Z :=
  match b with windows => windows_protection protection | _ => posix_protection protection end.

Definition no_access (b : build) : Z := match b with windows => PAGE_NOACCESS | _ => PROT_NONE end.

(** ** The operating system *)

Class OsMemory : Type := {
  (** [sysconf(_SC_PAGESIZE)], or [dwPageSize] of [GetSystemInfo] *)
  os_page : Z;
  (** [mmap] or [VirtualAlloc]: a size at a wished address, among the live
      reservations *)
  os_alloc : gmap Z Z -> nat -> Z -> Z -> option Z;
  (** [mprotect] or [VirtualProtect] *)
  os_protect : nat -> Z -> Z -> Z -> bool;
}.

Record Os : Type := mkOs {
  os_live : gmap Z Z;
  os_prot : Z -> Z;
  os_calls : nat;
}.

Section Operations.
Context `{OsMemory}.

Definition page_size (b : build) : Z :=
  match b with
  | windows => os_page
  | _ => let value := os_page in if 0 <? value then value else 4096
  end.

(** A new reservation, and the return of one. *)
Definition os_add (os : Os) (pointer size prot : Z) : Os :=
  mkOs (<[pointer := size]> (os_live os))
    (fun a => if in_range pointer size a then prot else os_prot os a) (S (os_calls os)).
Definition os_called (os : Os) : Os := mkOs (os_live os) (os_prot os) (S (os_calls os)).

Definition os_free (os : Os) (pointer size : Z) : result Os :=
  match os_live os !! pointer with
  | Some size' =>
      if size' =? size then Ok (mkOs (delete pointer (os_live os)) (os_prot os) (S (os_calls os)))
      else Throw (undefined_behaviour "part of a reservation is unmapped")
  | None => Throw (undefined_behaviour "what is not a reservation is unmapped")
  end.

(** [NativeArena::reserve]. *)
Definition reserve (b : build) (os : Os) (size preferred_base : Z) : result (option NativeArena * Os) :=
  let page := page_size b in
  match checked_align_up size page with
  | None => Ok (None, os)
  | Some rounded_size =>
      if negb (preferred_base =? 0) && negb (preferred_base mod page =? 0) then Ok (None, os)
      else
        let requested := preferred_base in
        if negb (requested =? 0) && negb (exact_reservation_supported b) then Ok (None, os)
        else
          match os_alloc (os_live os) (os_calls os) rounded_size requested with
          | None => Ok (None, os_called os)
          | Some pointer =>
              let os := os_add os pointer rounded_size (no_access b) in
              if negb (requested =? 0) && negb (pointer =? requested) then
                os ← os_free os pointer rounded_size; Ok (None, os)
              else Ok (Some (mkNativeArena pointer rounded_size), os)
          end
  end.

(** [NativeArena::protect]. *)
Definition protect (b : build) (arena : NativeArena) (os : Os) (offset size protection : Z) : bool * Os :=
  if (arena_base arena =? 0) || (size =? 0) then (false, os)
  else
    let page := page_size b in
    if negb (offset mod page =? 0) || (arena_size arena <? offset) then (false, os)
    else
      match checked_align_up size page with
      | None => (false, os)
      | Some rounded_size =>
          if arena_size arena - offset <? rounded_size then (false, os)
          else
            let pointer := arena_base arena + offset in
            let prot := native_protection b protection in
            if os_protect (os_calls os) pointer rounded_size prot then
              (true, mkOs (os_live os) (fun a => if in_range pointer rounded_size a then prot else os_prot os a)
                       (S (os_calls os)))
            else (false, os_called os)
      end.

(** [NativeArena::release], with the fields it leaves. *)
Definition release (arena : NativeArena) (os : Os) : result (NativeArena * Os) :=
  if arena_base arena =? 0 then Ok (arena, os)
  else os ← os_free os (arena_base arena) (arena_size arena); Ok (mkNativeArena 0 0, os).

(** The moves: the object, the one that is moved from, and the system. *)
Definition move_construct (other : NativeArena) : NativeArena * NativeArena := (other, mkNativeArena 0 0).

Definition move_assign (arena other : NativeArena) (os : Os) : result (NativeArena * NativeArena * Os) :=
  '(_, os) ← release arena os;
  let '(arena, other) := move_construct other in
  Ok (arena, other, os).

(** ** Programs

    What C++ code does with arenas: objects under names, each made, moved,
    protected and destroyed.  [valid] says when an operation is one of such a
    program: it uses objects that exist, and a new one has a new name. *)

Record World : Type := mkWorld { objects : gmap nat NativeArena; system : Os }.

Inductive op : Type :=
| Reserve (id : nat) (size preferred_base : Z)
| Default (id : nat)
| MoveConstruct (id other : nat)
| MoveAssign (id other : nat)
| Protect (id : nat) (offset size protection : Z)
| Destroy (id : nat).

Definition valid (w : World) (o : op) : Prop :=
  match o with
  | Reserve id size _ => objects w !! id = None /\ in_u64 size
  | Default id => objects w !! id = None
  | MoveConstruct id other => objects w !! id = None /\ is_Some (objects w !! other)
  | MoveAssign id other => is_Some (objects w !! id) /\ is_Some (objects w !! other)
  | Protect id offset size _ => is_Some (objects w !! id) /\ in_u64 offset /\ in_u64 size
  | Destroy id => is_Some (objects w !! id)
  end.

(** An object that is not there has no fields; [valid] excludes it. *)
Definition object (w : World) (id : nat) : NativeArena := default (mkNativeArena 0 0) (objects w !! id).

Definition perform (b : build) (w : World) (o : op) : result World :=
  match o with
  | Reserve id size want =>
      '(arena, os) ← reserve b (system w) size want;
      Ok (mkWorld (match arena with Some arena => <[id := arena]> (objects w) | None => objects w end) os)
  | Default id => Ok (mkWorld (<[id := mkNativeArena 0 0]> (objects w)) (system w))
  | MoveConstruct id other =>
      let '(arena, rest) := move_construct (object w other) in
      Ok (mkWorld (<[id := arena]> (<[other := rest]> (objects w))) (system w))
  | MoveAssign id other =>
      if decide (id = other) then Ok w   (* this == &other *)
      else
        '(arena, rest, os) ← move_assign (object w id) (object w other) (system w);
        Ok (mkWorld (<[id := arena]> (<[other := rest]> (objects w))) os)
  | Protect id offset size protection =>
      Ok (mkWorld (objects w) (snd (protect b (object w id) (system w) offset size protection)))
  | Destroy id =>
      '(_, os) ← release (object w id) (system w);
      Ok (mkWorld (delete id (objects w)) os)
  end.

End Operations.
End Arenas.
