(* ===== verification/ArenasProps.v ===== *)
(** * Properties of the owners of host memory

    Every reservation has one owner and is given back once, whatever is moved
    where; reservations at an exact address; the two tables of protections; and
    the agreement with the arena of NativeArena.v, which the other files use. *)

From S2P Require Import Prelude NativeArena Arenas.
Import Arenas.

Local Open Scope Z_scope.

(** What the documentation of the calls promises: the page size, and that a new
    reservation is a range that is not in use. *)
Class OsMemoryLaws (O : OsMemory) : Prop := {
  os_page_ok : os_page < 2 ^ 32;
  windows_page_ok : 0 < os_page;
  os_alloc_ok live n size want p : os_alloc live n size want = Some p ->
    0 < p /\ p + size <= u64_max /\
    forall b s, live !! b = Some s -> p + size <= b \/ b + s <= p;
}.

Abbreviation empty_arena := (mkNativeArena 0 0).

(** ** Ownership *)

(** Objects and live reservations belong together one by one; an object without
    a reservation has a null base. *)
Record owns (objs : gmap nat NativeArena) (live : gmap Z Z) : Prop := {
  ow_object id a : objs !! id = Some a -> a = empty_arena \/ live !! arena_base a = Some (arena_size a);
  ow_one id id' a : objs !! id = Some a -> objs !! id' = Some a -> arena_base a <> 0 -> id = id';
  ow_live base size : live !! base = Some size ->
    0 < base /\ 0 < size /\ base + size <= u64_max /\ exists id, objs !! id = Some (mkNativeArena base size);
  ow_apart b s b' s' : live !! b = Some s -> live !! b' = Some s' -> b <> b' -> b + s <= b' \/ b' + s' <= b;
}.

Lemma owns_empty : owns ∅ ∅.
Proof. by split. Qed.

Lemma owns_nonnull objs live id a :
  owns objs live -> objs !! id = Some a -> arena_base a <> 0 -> live !! arena_base a = Some (arena_size a).
Proof. intros Ho Ha Hb. by destruct (ow_object _ _ Ho id a Ha) as [->|Hl]. Qed.

(** An object without a reservation comes and goes. *)
Lemma owns_new objs live id :
  owns objs live -> objs !! id = None -> owns (<[id := empty_arena]> objs) live.
Proof.
  intros Ho Hn. split.
  - intros i a. rewrite lookup_insert_Some. intros [[_ <-]|[_ Ha]]; [by left|by eapply ow_object].
  - intros i j a. rewrite !lookup_insert_Some. intros [[_ <-]|[_ Hi]] [[_ E]|[_ Hj]] Hb; try (subst; done).
    by eapply ow_one.
  - intros base size Hl. destruct (ow_live _ _ Ho _ _ Hl) as (? & ? & ? & i & Hi). split_and!; try done.
    exists i. rewrite lookup_insert_ne; [done|congruence].
  - apply Ho.
Qed.

Lemma owns_delete objs live id :
  owns objs live -> objs !! id = Some empty_arena -> owns (delete id objs) live.
Proof.
  intros Ho He. split.
  - intros i a [_ Ha]%lookup_delete_Some. by eapply ow_object.
  - intros i j a [_ Hi]%lookup_delete_Some [_ Hj]%lookup_delete_Some Hb. by eapply ow_one.
  - intros base size Hl. destruct (ow_live _ _ Ho _ _ Hl) as (? & ? & ? & i & Hi). split_and!; try done.
    exists i. rewrite lookup_delete_ne; [done|]. intros <-. rewrite He in Hi. injection Hi as E1 E2. lia.
  - apply Ho.
Qed.

(** A reservation changes hands. *)
Lemma owns_move objs live id other a :
  owns objs live -> id <> other -> objs !! id = Some empty_arena -> objs !! other = Some a ->
  owns (<[id := a]> (<[other := empty_arena]> objs)) live.
Proof.
  intros Ho Hne He Ha. split.
  - intros i x. rewrite !lookup_insert_Some.
    intros [[_ <-]|[_ [[_ <-]|[_ Hx]]]]; [by eapply ow_object|by left|by eapply ow_object].
  - intros i j x. rewrite !lookup_insert_Some.
    intros [[Hi <-]|[Hi [[Hi' <-]|[Hi' Hx]]]] [[Hj E]|[Hj [[Hj' E]|[Hj' Hy]]]] Hb; subst; try done.
    + by destruct Hj'; eapply ow_one.
    + by destruct Hi'; eapply ow_one.
    + by eapply ow_one.
  - intros base size Hl. destruct (ow_live _ _ Ho _ _ Hl) as (? & ? & ? & i & Hi). split_and!; try done.
    destruct (decide (i = other)) as [->|Hio].
    + exists id. rewrite lookup_insert_eq. congruence.
    + exists i. rewrite !lookup_insert_ne; [done|congruence|]. intros <-. rewrite He in Hi. injection Hi as E1 E2. lia.
  - apply Ho.
Qed.

(** A new reservation among the live ones. *)
Lemma owns_reserved objs live id p size :
  owns objs live -> objs !! id = None -> 0 < p -> 0 < size -> p + size <= u64_max ->
  (forall b s, live !! b = Some s -> p + size <= b \/ b + s <= p) ->
  owns (<[id := mkNativeArena p size]> objs) (<[p := size]> live).
Proof.
  intros Ho Hn Hp Hs Hu Hd.
  assert (live !! p = None) as Hfresh.
  { destruct (live !! p) as [s|] eqn:E; [|done]. pose proof (Hd _ _ E). pose proof (ow_live _ _ Ho _ _ E). lia. }
  split.
  - intros i a. rewrite lookup_insert_Some. intros [[_ <-]|[_ Ha]]; [right; cbn; apply lookup_insert_eq|].
    destruct (ow_object _ _ Ho _ _ Ha) as [?|Hl]; [by left|right]. rewrite lookup_insert_ne; [done|congruence].
  - intros i j a. rewrite !lookup_insert_Some. intros [[Hi <-]|[Hi Hx]] [[Hj E]|[Hj Hy]] Hb; try congruence.
    + pose proof (owns_nonnull _ _ _ _ Ho Hy Hb) as E. cbn in E. congruence.
    + subst a. pose proof (owns_nonnull _ _ _ _ Ho Hx Hb) as E. cbn in E. congruence.
    + by eapply ow_one.
  - intros b s. rewrite lookup_insert_Some. intros [[<- <-]|[Hb Hl]].
    + split_and!; try done. exists id. apply lookup_insert_eq.
    + destruct (ow_live _ _ Ho _ _ Hl) as (? & ? & ? & i & Hi). split_and!; try done. exists i.
      rewrite lookup_insert_ne; [done|congruence].
  - intros b s b' s'. rewrite !lookup_insert_Some. intros [[<- <-]|[Hb Hl]] [[<- <-]|[Hb' Hl']] Hne.
    + done.
    + by apply Hd.
    + destruct (Hd _ _ Hl); tauto.
    + by eapply ow_apart.
Qed.

(** The owner gives its reservation back, and is empty. *)
Lemma owns_release objs os id a :
  owns objs (os_live os) -> objs !! id = Some a ->
  exists a' os', release a os = Ok (a', os') /\ owns (<[id := empty_arena]> objs) (os_live os').
Proof.
  intros Ho Ha. unfold release. destruct (Z.eqb_spec (arena_base a) 0) as [Hz|Hz].
  { exists a, os. split; [done|]. destruct (ow_object _ _ Ho _ _ Ha) as [->|Hl].
    - by rewrite insert_id.
    - pose proof (ow_live _ _ Ho _ _ Hl). lia. }
  pose proof (owns_nonnull _ _ _ _ Ho Ha Hz) as Hl. unfold os_free. rewrite Hl, Z.eqb_refl. cbn [mbind result_bind].
  do 2 eexists. split; [done|]. cbn [os_live]. split.
  - intros i x. rewrite lookup_insert_Some. intros [[_ <-]|[Hi Hx]]; [by left|].
    destruct (ow_object _ _ Ho _ _ Hx) as [?|Hlx]; [by left|]. right. rewrite lookup_delete_ne; [done|]. intros E.
    apply Hi. eapply (ow_one _ _ Ho id i a); [exact Ha| |exact Hz]. rewrite Hx. f_equal.
    destruct a as [ba sa], x as [bx sx]. cbn in *. subst bx. rewrite Hl in Hlx. congruence.
  - intros i j x. rewrite !lookup_insert_Some. intros [[_ <-]|[_ Hi]] [[_ E]|[_ Hj]] Hb; try (subst; done).
    by eapply (ow_one _ _ Ho).
  - intros b s [Hb Hs]%lookup_delete_Some. destruct (ow_live _ _ Ho _ _ Hs) as (? & ? & ? & i & Hi).
    split_and!; try done. exists i. rewrite lookup_insert_ne; [done|]. intros <-. apply Hb. rewrite Ha in Hi.
    apply (inj Some) in Hi. by subst a.
  - intros b s b' s' [_ Hb]%lookup_delete_Some [_ Hb']%lookup_delete_Some. by eapply (ow_apart _ _ Ho).
Qed.

(** ** The operations *)

Section Laws.
Context `{O : OsMemory, !OsMemoryLaws O}.

Lemma page_size_ok b : 0 < page_size b < 2 ^ 32.
Proof. pose proof os_page_ok. pose proof windows_page_ok. unfold page_size. by destruct b; repeat case_match; bools. Qed.

(** What [reserve] does with the system: a fresh range without access, exactly
    where it was wished for, on a build that can promise that; or nothing that a
    live reservation notices. *)
Definition reserved (b : build) (os os' : Os) (size want : Z) (arena : NativeArena) : Prop :=
  let '(mkNativeArena base rounded) := arena in
  size <= rounded < size + page_size b /\ rounded mod page_size b = 0 /\ 0 < rounded /\
  0 < base /\ base + rounded <= u64_max /\
  (want <> 0 -> base = want /\ want mod page_size b = 0 /\ exact_reservation_supported b = true) /\
  (forall p s, os_live os !! p = Some s -> base + rounded <= p \/ p + s <= base) /\
  os_live os' = <[base := rounded]> (os_live os) /\
  forall a, os_prot os' a = if in_range base rounded a then no_access b else os_prot os a.

(** Every live page is as it was. *)
Definition unnoticed (os os' : Os) : Prop :=
  os_live os' = os_live os /\
  forall p s a, os_live os !! p = Some s -> p <= a < p + s -> os_prot os' a = os_prot os a.

Lemma reserve_reserves b os size want :
  in_u64 size -> (forall p s, os_live os !! p = Some s -> 0 < s) ->
  exists oa os', reserve b os size want = Ok (oa, os') /\
    match oa with Some arena => reserved b os os' size want arena | None => unnoticed os os' end.
Proof.
  intros Hsz Hpos. unfold reserve. pose proof (page_size_ok b) as Hpg.
  destruct (checked_align_up size (page_size b)) as [rounded|] eqn:Hal; [|by do 2 eexists].
  apply checked_align_up_Some in Hal as (Hr1 & Hr2 & _ & H2); [|done|unfold in_u64; lia].
  destruct (_ && _) eqn:E1; [by do 2 eexists|]. destruct (_ && _) eqn:E2 in |- *; [by do 2 eexists|].
  destruct (os_alloc _ _ _ _) as [p|] eqn:Hp; [|by do 2 eexists].
  apply os_alloc_ok in Hp as (H1 & H3 & H4).
  assert (os_live os !! p = None) as Hfresh.
  { destruct (os_live os !! p) as [s|] eqn:E; [|done]. destruct (H4 _ _ E); pose proof (Hpos _ _ E); lia. }
  destruct (_ && _) eqn:E3 in |- *.
  - unfold os_free, os_add. cbn [os_live]. rewrite lookup_insert_eq, Z.eqb_refl. cbn [mbind result_bind].
    do 2 eexists. split; [done|]. cbn [os_live os_prot]. split; cbn [os_live os_prot].
    + by rewrite delete_insert_id.
    + intros b' s a Hb' Ha. rewrite (proj2 (in_range_false _ _ _)); [done|]. destruct (H4 _ _ Hb'); lia.
  - do 2 eexists. split; [done|]. unfold reserved. split_and!; try done; try lia.
    intros Hw. apply Z.eqb_neq in Hw. rewrite Hw in *. cbn [negb andb] in *.
    apply negb_false_iff in E1, E2, E3. apply Z.eqb_eq in E1, E3. done.
Qed.

(** [protect] keeps the reservations, and changes nothing outside its object. *)
Lemma arenas_protect_keeps b arena os offset size prot :
  in_u64 offset -> in_u64 size ->
  os_live (snd (protect b arena os offset size prot)) = os_live os /\
  forall a, ~ arena_base arena <= a < arena_base arena + arena_size arena ->
    os_prot (snd (protect b arena os offset size prot)) a = os_prot os a.
Proof.
  intros Ho Hs. unfold protect. pose proof (page_size_ok b). repeat (case_match; try done). split; [done|].
  intros a Ha. cbn [snd os_prot]. bools. rewrite (proj2 (in_range_false _ _ _)); [done|].
  unfold in_u64 in Ho. lia.
Qed.

(** ** Programs *)

Lemma object_Some w id a : objects w !! id = Some a -> object w id = a.
Proof. unfold object. by intros ->. Qed.

Lemma perform_owns b w o :
  owns (objects w) (os_live (system w)) -> valid w o ->
  exists w', perform b w o = Ok w' /\ owns (objects w') (os_live (system w')).
Proof.
  destruct w as [objs os]. cbn [objects system]. intros Ho. unfold perform. cbn [objects system].
  destruct o as [id size want|id|id other|id other|id offset size prot|id]; cbn [valid objects].
  - intros [Hn Hs]. destruct (reserve_reserves b os size want Hs) as (oa & os' & -> & Hr).
    { intros p s Hl. apply (ow_live _ _ Ho _ _ Hl). }
    cbn [mbind result_bind]. eexists. split; [done|]. cbn [objects system]. destruct oa as [[base rounded]|].
    + destruct Hr as (_ & _ & H1 & H2 & H3 & _ & H4 & -> & _). by apply owns_reserved.
    + destruct Hr as [-> _]. done.
  - intros Hn. eexists. split; [done|]. by apply owns_new.
  - intros [Hn [a Ha]]. assert (id <> other) as Hne by congruence. rewrite (object_Some (mkWorld objs os) other a Ha). cbn.
    eexists. split; [done|]. cbn [objects system].
    pose proof (owns_move _ _ id other a (owns_new _ _ _ Ho Hn) Hne (lookup_insert_eq _ _ _)
                  ltac:(by rewrite lookup_insert_ne)) as Hm.
    rewrite (insert_insert_ne _ _ id) in Hm by done. by rewrite insert_insert_eq in Hm.
  - intros [[a Ha] [x Hx]]. destruct (decide (id = other)) as [->|Hne]; [by eexists|].
    rewrite (object_Some (mkWorld objs os) id a Ha), (object_Some (mkWorld objs os) other x Hx). unfold move_assign.
    destruct (owns_release _ _ _ _ Ho Ha) as (a' & os' & -> & Ho'). cbn.
    eexists. split; [done|]. cbn [objects system].
    pose proof (owns_move _ _ id other x Ho' Hne (lookup_insert_eq _ _ _)
                  ltac:(by rewrite lookup_insert_ne)) as Hm.
    rewrite (insert_insert_ne _ _ id) in Hm by done. by rewrite insert_insert_eq in Hm.
  - intros ([a Ha] & Hof & Hs). eexists. split; [done|]. cbn [objects system].
    by rewrite (proj1 (arenas_protect_keeps b _ os offset size prot Hof Hs)).
  - intros [a Ha]. rewrite (object_Some (mkWorld objs os) id a Ha).
    destruct (owns_release _ _ _ _ Ho Ha) as (a' & os' & -> & Ho'). cbn.
    eexists. split; [done|]. cbn [objects system].
    pose proof (owns_delete _ _ id Ho' (lookup_insert_eq _ _ _)) as Hd. by rewrite delete_insert_eq in Hd.
Qed.

(** The worlds that a program reaches, from one without objects. *)
Inductive reachable (b : build) : World -> Prop :=
| reach_start prot calls : reachable b (mkWorld ∅ (mkOs ∅ prot calls))
| reach_step w o w' : reachable b w -> valid w o -> perform b w o = Ok w' -> reachable b w'.

Lemma reachable_owns b w : reachable b w -> owns (objects w) (os_live (system w)).
Proof.
  induction 1 as [prot calls|w o w' _ IH Hv Hp]; [apply owns_empty|].
  destruct (perform_owns b w o IH Hv) as (w1 & Hp1 & Ho). congruence.
Qed.

(** C12: Host memory has owners.  In every state that a program of reservations,
    moves, protections and destructions reaches, on POSIX or Windows, each live
    reservation is the range of exactly one object and each object's range is a
    live reservation, the ranges of two objects do not meet, and changing the
    protection of one leaves the pages of the others alone.  No step gives back
    what is not a live reservation, so that nothing is unmapped twice; and when
    the last object is gone, nothing is left reserved. *)
Theorem arenas_own_their_reservations b w :
  reachable b w ->
  (forall base size, os_live (system w) !! base = Some size <->
     base <> 0 /\ exists id, objects w !! id = Some (mkNativeArena base size)) /\
  (forall id id' a a', objects w !! id = Some a -> objects w !! id' = Some a' -> id <> id' ->
     arena_base a <> 0 -> arena_base a' <> 0 ->
     (arena_base a + arena_size a <= arena_base a' \/ arena_base a' + arena_size a' <= arena_base a) /\
     forall offset size prot x, in_u64 offset -> in_u64 size ->
       arena_base a' <= x < arena_base a' + arena_size a' ->
       os_prot (snd (protect b a (system w) offset size prot)) x = os_prot (system w) x) /\
  (forall o, valid w o -> exists w', perform b w o = Ok w' /\ reachable b w') /\
  (objects w = ∅ -> os_live (system w) = ∅).
Proof.
  intros Hr. pose proof (reachable_owns b w Hr) as Ho. split_and!.
  - intros base size. split.
    + intros Hl. destruct (ow_live _ _ Ho _ _ Hl) as (Hb & _ & _ & Hid). split; [lia|done].
    + intros [Hb [id Hid]]. by apply (owns_nonnull _ _ _ _ Ho Hid).
  - intros id id' a a' Ha Ha' Hne Hb Hb'.
    assert (arena_base a + arena_size a <= arena_base a' \/ arena_base a' + arena_size a' <= arena_base a) as Hd.
    { pose proof (owns_nonnull _ _ _ _ Ho Ha Hb) as Hl. pose proof (owns_nonnull _ _ _ _ Ho Ha' Hb') as Hl'.
      eapply (ow_apart _ _ Ho); [exact Hl|exact Hl'|]. intros E. apply Hne.
      eapply (ow_one _ _ Ho id id' a); [exact Ha| |exact Hb]. rewrite Ha'. f_equal. rewrite E in Hl.
      destruct a, a'. cbn in *. congruence. }
    split; [exact Hd|]. intros offset size prot x Hof Hs Hx.
    apply (proj2 (arenas_protect_keeps b a (system w) offset size prot Hof Hs)). lia.
  - intros o Hv. destruct (perform_owns b w o Ho Hv) as (w' & Hp & _). exists w'. split; [exact Hp|].
    by eapply reach_step.
  - intros He. apply map_empty. intros base. destruct (os_live (system w) !! base) as [size|] eqn:Hl; [|done].
    destruct (ow_live _ _ Ho _ _ Hl) as (_ & _ & _ & id & Hid). rewrite He in Hid. done.
Qed.
End Laws.

(** ** The two tables of protections *)

(** What a Windows protection lets code do with a page. *)
Definition windows_reads (p : Z) : bool :=
  (p =? PAGE_READONLY) || (p =? PAGE_READWRITE) || (p =? PAGE_EXECUTE_READ) || (p =? PAGE_EXECUTE_READWRITE).
Definition windows_writes (p : Z) : bool := (p =? PAGE_READWRITE) || (p =? PAGE_EXECUTE_READWRITE).
Definition windows_executes (p : Z) : bool :=
  (p =? PAGE_EXECUTE) || (p =? PAGE_EXECUTE_READ) || (p =? PAGE_EXECUTE_READWRITE).

(** Windows grants what POSIX does, save that a page that can be written can be
    read: there is no protection without. *)
Theorem windows_grants_what_posix_grants p :
  windows_writes (windows_protection p) = has (posix_protection p) PROT_WRITE /\
  windows_executes (windows_protection p) = has (posix_protection p) PROT_EXEC /\
  windows_reads (windows_protection p) =
    has (posix_protection p) PROT_READ || has (posix_protection p) PROT_WRITE.
Proof.
  change PROT_WRITE with prot_write. change PROT_EXEC with prot_execute. change PROT_READ with prot_read.
  rewrite !has_posix by tauto. unfold windows_protection.
  by destruct (has p prot_execute), (has p prot_write), (has p prot_read).
Qed.

(** ** The arena of the other files

    On Linux [protect] is [arena_protect] of NativeArena.v, and [reserve] its
    [reserve] as long as the system honours the wish. *)

Section Agreement.
Context `{O : OsMemory}.

Definition host_of (b : build) (live : gmap Z Z) : HostOs := {|
  NativeArena.page_size := page_size b;
  os_mmap := fun n size want => os_alloc live n size want;
  os_mprotect := os_protect |}.

Lemma arenas_protect_agrees b bytes arena os offset size prot :
  b <> windows ->
  let h := mkHostMem bytes (os_prot os) (os_calls os) in
  let '(ok, os') := protect b arena os offset size prot in
  @arena_protect (host_of b (os_live os)) arena h offset size prot =
    (ok, mkHostMem bytes (os_prot os') (os_calls os')).
Proof.
  intros Hb. destruct b; [done|..]; cbn [native_protection];
    unfold protect, arena_protect; cbn [NativeArena.page_size host_of os_mprotect native_protection hm_calls];
    (destruct (_ || _); [done|]); (destruct (_ || _); [done|]);
    (destruct (checked_align_up _ _) as [rounded|]; [|done]); (destruct (_ <? rounded); [done|]);
    by destruct (os_protect _ _ _ _).
Qed.

Lemma arenas_reserve_agrees bytes os size want arena os' :
  reserve (linux true) os size want = Ok (Some arena, os') ->
  exists h', @NativeArena.reserve (host_of (linux true) (os_live os))
      (mkHostMem bytes (os_prot os) (os_calls os)) size want = Some (arena, h') /\
    hm_prot h' = os_prot os' /\ hm_calls h' = os_calls os'.
Proof.
  unfold reserve, NativeArena.reserve. cbn [NativeArena.page_size host_of os_mmap hm_calls].
  destruct (checked_align_up _ _) as [rounded|]; [|done]. destruct (_ && _); [done|].
  cbn [exact_reservation_supported negb]. rewrite andb_false_r.
  destruct (os_alloc _ _ _ _) as [p|]; [|done]. destruct (_ && _).
  - unfold os_free. case_match; [|done]. by case_match.
  - intros [= <- <-]. by eexists.
Qed.
End Agreement.

(** ** The witness

    Two reservations; the second object is moved over the first, and both go. *)

Definition room_at (live : gmap Z Z) (p size : Z) : bool :=
  bool_decide (map_Forall (fun b s => p + size <= b \/ b + s <= p) live).

Definition tiny_memory : OsMemory := {|
  os_page := 4096;
  os_alloc live n size want :=
    let p := if want =? 0 then 1048576 * (Z.of_nat n + 1) else want in
    if (0 <? p) && (p + size <=? u64_max) && room_at live p size then Some p else None;
  os_protect _ _ _ _ := true |}.

Lemma tiny_memory_laws : OsMemoryLaws tiny_memory.
Proof.
  split; [reflexivity..|]. intros live n size want p. cbn [os_alloc tiny_memory].
  destruct (_ && _) eqn:E; [|done]. intros [= <-]. bools. split_and!; try lia.
  intros b s Hl. match goal with Hroom : room_at _ _ _ = true |- _ => apply bool_decide_eq_true in Hroom; by apply (Hroom b s) end.
Qed.

(** The operations in a row, as long as they are valid. *)
Fixpoint perform_all `{OsMemory} (b : build) (w : World) (os : list op) : result World :=
  match os with [] => Ok w | o :: os => w ← perform b w o; perform_all b w os end.

#[export] Instance in_u64_decision x : Decision (in_u64 x) := and_dec _ _.
#[export] Instance valid_decision w o : Decision (valid w o).
Proof. destruct o; apply _. Defined.

Fixpoint runs `{OsMemory} (b : build) (w : World) (os : list op) : bool :=
  match os with
  | [] => true
  | o :: os => bool_decide (valid w o) && (if perform b w o is Ok w then runs b w os else false)
  end.

Lemma reachable_all `{OsMemory} b os : forall w,
  reachable b w -> runs b w os = true -> exists w', perform_all b w os = Ok w' /\ reachable b w'.
Proof.
  induction os as [|o os IH]; cbn [perform_all runs]; intros w Hr Hok; [by eexists|].
  apply andb_true_iff in Hok as [Hv Hok]. apply bool_decide_eq_true in Hv.
  destruct (perform b w o) as [w1|e] eqn:H1; [|done]. apply IH; [|exact Hok]. by eapply reach_step.
Qed.

Definition moving : list op := [Reserve 1 4096 0; Reserve 2 5000 8388608; MoveAssign 1 2; Destroy 2; Destroy 1].
Definition first_world : World := mkWorld ∅ (mkOs ∅ (fun _ => 0) 0).
Definition moved_world (k : nat) : World :=
  match @perform_all tiny_memory windows first_world (take k moving) with Ok w => w | _ => first_world end.

(** The assignment has given the first reservation back; the second is the
    first object's. *)
Example the_assignment_releases :
  (fun w => map_to_list (os_live (system w))) <$> @perform_all tiny_memory windows first_world (take 3 moving) =
  Ok [(8388608, 8192)].
Proof. vm_compute. reflexivity. Qed.

Lemma arenas_own_their_reservations_witness :
  @reachable tiny_memory windows (moved_world 3) /\
  (exists id, objects (moved_world 3) !! id = Some (mkNativeArena 8388608 8192)) /\
  @reachable tiny_memory windows (moved_world 5) /\ os_live (system (moved_world 5)) = ∅.
Proof.
  assert (forall k, (k <= 5)%nat -> @reachable tiny_memory windows (moved_world k)) as Hr.
  { intros k Hk.
    destruct (reachable_all (H := tiny_memory) windows (take k moving) first_world) as (w & Hw & Hr); [constructor| |].
    - do 6 (destruct k as [|k]; [vm_compute; reflexivity|]). lia.
    - unfold moved_world. by rewrite Hw. }
  split; [apply Hr; lia|]. split; [|split; [apply Hr; lia|]].
  - destruct (@arenas_own_their_reservations tiny_memory tiny_memory_laws windows (moved_world 3) (Hr 3%nat ltac:(lia)))
      as (Hl & _). apply Hl. vm_compute. reflexivity.
  - destruct (@arenas_own_their_reservations tiny_memory tiny_memory_laws windows (moved_world 5) (Hr 5%nat ltac:(lia)))
      as (_ & _ & _ & He). apply He. vm_compute. reflexivity.
Defined.
