(* ===== verification/Libkernel.v ===== *)
(** * The emulated kernel library: the wrappers

    [src/src/hle/libkernel.cpp], its first part: the functions a guest calls,
    each of which turns the words of the calling convention into the typed
    arguments of a member function of [KernelServices] or of
    [GuestThreadManager], and its result into the answer of the library it is
    exported from: a signed kernel result, minus one and [errno] (POSIX), or a
    positive error number (pthread).

    The services are the interface [HleHost]: the calls of [Service] and
    [Manager], with the state they change, and what the wrappers use of the
    standard library (the clock, sleeping and yielding).  A call that blocks
    returns when it is over.  The state of a wrapper adds what it reads and
    writes itself: whether there is a current thread manager, whether it has
    services, and the thread's [errno]. *)

From S2P Require Import Prelude Symbols KernelMem.

Local Open Scope Z_scope.

Definition in_i64 (z : Z) : Prop := -9223372036854775808 <= z < 9223372036854775808.
Definition in_i32 (z : Z) : Prop := -2147483648 <= z < 2147483648.
Definition in_u16 (z : Z) : Prop := 0 <= z < 65536.

(** [static_cast<std::uint16_t>]. *)
Definition wrap16 (z : Z) : Z := z mod 65536.

(** ** The calls of the kernel services *)

Module Service.

(** The member functions of [KernelServices] that the wrappers call. *)
Inductive call : Type :=
| direct_memory_size
| configured_flexible_memory_size_to (size_out : Z)
| available_flexible_memory_size_to (size_out : Z)
| direct_memory_query (physical_address : Z) (flags : Z) (info_address : Z) (info_size : Z)
| virtual_query (address : Z) (flags : Z) (info_address : Z) (info_size : Z)
| query_memory_protection (address : Z) (start_address : Z) (end_address : Z) (protection_address : Z)
| available_direct_memory (search_start : Z) (search_end : Z) (alignment : Z) (physical_address_out : Z)
    (size_out : Z)
| allocate_direct_memory (search_start : Z) (search_end : Z) (size : Z) (alignment : Z) (memory_type : Z)
    (physical_address_out : Z)
| release_direct_memory (physical_address : Z) (size : Z) (checked : bool)
| map_direct_memory (address_slot : Z) (size : Z) (protection : Z) (flags : Z) (physical_address : Z)
    (alignment : Z) (name_address : Z)
| map_flexible_memory (address_slot : Z) (size : Z) (protection : Z) (flags : Z) (name_address : Z)
| mprotect (address : Z) (size : Z) (protection : Z)
| map_memory (address : Z) (size : Z) (protection : Z) (flags : Z) (fd : Z) (offset : Z)
| map_memory_to (address : Z) (size : Z) (protection : Z) (flags : Z) (fd : Z) (offset : Z) (output_address
    : Z)
| unmap_memory (address : Z) (size : Z)
| open_readonly (path_address : Z) (flags : Z) (mode : Z)
| read (fd : Z) (buffer : Z) (size : Z)
| seek (fd : Z) (offset : Z) (whence : Z)
| stat_path (path_address : Z) (stat_address : Z)
| fstat (fd : Z) (stat_address : Z)
| close (fd : Z)
| thread_attr_init (slot_address : Z)
| thread_attr_destroy (slot_address : Z)
| thread_attr_get_stack_size (slot_address : Z) (output_address : Z)
| thread_attr_set_stack_size (slot_address : Z) (stack_size : Z)
| thread_attr_get_detach_state (slot_address : Z) (output_address : Z)
| thread_attr_set_detach_state (slot_address : Z) (detach_state : Z)
| mutex_attr_init (slot_address : Z)
| mutex_attr_destroy (slot_address : Z)
| mutex_attr_get_type (slot_address : Z) (output_address : Z)
| mutex_attr_set_type (slot_address : Z) (type : Z)
| mutex_attr_get_pshared (slot_address : Z) (output_address : Z)
| mutex_attr_set_pshared (slot_address : Z) (pshared : Z)
| mutex_init (slot_address : Z) (attributes : Z) (name_address : Z)
| mutex_lock (slot_address : Z)
| mutex_unlock (slot_address : Z)
| mutex_destroy (slot_address : Z)
| cond_attr_init (slot_address : Z)
| cond_attr_destroy (slot_address : Z)
| cond_attr_get_clock (slot_address : Z) (output_address : Z)
| cond_attr_set_clock (slot_address : Z) (clock_id : Z)
| cond_attr_get_pshared (slot_address : Z) (output_address : Z)
| cond_attr_set_pshared (slot_address : Z) (pshared : Z)
| cond_init (slot_address : Z) (attributes : Z) (name_address : Z)
| cond_destroy (slot_address : Z)
| cond_wait (slot_address : Z) (mutex_slot_address : Z)
| cond_timed_wait (slot_address : Z) (mutex_slot_address : Z) (absolute_timeout_address : Z)
| cond_reltimed_wait (slot_address : Z) (mutex_slot_address : Z) (microseconds : Z)
| cond_signal (slot_address : Z)
| cond_broadcast (slot_address : Z)
| sem_init (slot_address : Z) (pshared : Z) (value : Z)
| sem_destroy (slot_address : Z)
| sem_wait (slot_address : Z)
| sem_try_wait (slot_address : Z)
| sem_timed_wait (slot_address : Z) (absolute_timeout_address : Z)
| sem_reltimed_wait (slot_address : Z) (microseconds : Z)
| sem_post (slot_address : Z)
| sem_get_value (slot_address : Z) (output_address : Z)
| nanosleep (request_address : Z) (remaining_address : Z).

(** The types of their parameters. *)
Definition well_typed (c : call) : Prop :=
  match c with
  | direct_memory_size => True
  | configured_flexible_memory_size_to size_out => in_u64 size_out
  | available_flexible_memory_size_to size_out => in_u64 size_out
  | direct_memory_query physical_address flags info_address info_size => in_i64 physical_address /\ in_i32
      flags /\ in_u64 info_address /\ in_u64 info_size
  | virtual_query address flags info_address info_size => in_u64 address /\ in_i32 flags /\ in_u64
      info_address /\ in_u64 info_size
  | query_memory_protection address start_address end_address protection_address => in_u64 address /\
      in_u64 start_address /\ in_u64 end_address /\ in_u64 protection_address
  | available_direct_memory search_start search_end alignment physical_address_out size_out => in_i64
      search_start /\ in_i64 search_end /\ in_u64 alignment /\ in_u64 physical_address_out /\ in_u64 size_out
  | allocate_direct_memory search_start search_end size alignment memory_type physical_address_out =>
      in_i64 search_start /\ in_i64 search_end /\ in_u64 size /\ in_u64 alignment /\ in_i32 memory_type /\
          in_u64 physical_address_out
  | release_direct_memory physical_address size _ => in_u64 physical_address /\ in_u64 size
  | map_direct_memory address_slot size protection flags physical_address alignment name_address => in_u64
      address_slot /\ in_u64 size /\ in_u32 protection /\ in_u32 flags /\ in_i64 physical_address /\ in_u64
          alignment /\ in_u64 name_address
  | map_flexible_memory address_slot size protection flags name_address => in_u64 address_slot /\ in_u64
      size /\ in_u32 protection /\ in_u32 flags /\ in_u64 name_address
  | mprotect address size protection => in_u64 address /\ in_u64 size /\ in_u32 protection
  | map_memory address size protection flags fd offset => in_u64 address /\ in_u64 size /\ in_u32
      protection /\ in_u32 flags /\ in_i32 fd /\ in_i64 offset
  | map_memory_to address size protection flags fd offset output_address => in_u64 address /\ in_u64 size
      /\ in_u32 protection /\ in_u32 flags /\ in_i32 fd /\ in_i64 offset /\ in_u64 output_address
  | unmap_memory address size => in_u64 address /\ in_u64 size
  | open_readonly path_address flags mode => in_u64 path_address /\ in_u32 flags /\ in_u16 mode
  | read fd buffer size => in_i32 fd /\ in_u64 buffer /\ in_u64 size
  | seek fd offset whence => in_i32 fd /\ in_i64 offset /\ in_i32 whence
  | stat_path path_address stat_address => in_u64 path_address /\ in_u64 stat_address
  | fstat fd stat_address => in_i32 fd /\ in_u64 stat_address
  | close fd => in_i32 fd
  | thread_attr_init slot_address => in_u64 slot_address
  | thread_attr_destroy slot_address => in_u64 slot_address
  | thread_attr_get_stack_size slot_address output_address => in_u64 slot_address /\ in_u64 output_address
  | thread_attr_set_stack_size slot_address stack_size => in_u64 slot_address /\ in_u64 stack_size
  | thread_attr_get_detach_state slot_address output_address => in_u64 slot_address /\ in_u64 output_address
  | thread_attr_set_detach_state slot_address detach_state => in_u64 slot_address /\ in_i32 detach_state
  | mutex_attr_init slot_address => in_u64 slot_address
  | mutex_attr_destroy slot_address => in_u64 slot_address
  | mutex_attr_get_type slot_address output_address => in_u64 slot_address /\ in_u64 output_address
  | mutex_attr_set_type slot_address type => in_u64 slot_address /\ in_u32 type
  | mutex_attr_get_pshared slot_address output_address => in_u64 slot_address /\ in_u64 output_address
  | mutex_attr_set_pshared slot_address pshared => in_u64 slot_address /\ in_i32 pshared
  | mutex_init slot_address attributes name_address => in_u64 slot_address /\ in_u64 attributes /\ in_u64
      name_address
  | mutex_lock slot_address => in_u64 slot_address
  | mutex_unlock slot_address => in_u64 slot_address
  | mutex_destroy slot_address => in_u64 slot_address
  | cond_attr_init slot_address => in_u64 slot_address
  | cond_attr_destroy slot_address => in_u64 slot_address
  | cond_attr_get_clock slot_address output_address => in_u64 slot_address /\ in_u64 output_address
  | cond_attr_set_clock slot_address clock_id => in_u64 slot_address /\ in_u32 clock_id
  | cond_attr_get_pshared slot_address output_address => in_u64 slot_address /\ in_u64 output_address
  | cond_attr_set_pshared slot_address pshared => in_u64 slot_address /\ in_i32 pshared
  | cond_init slot_address attributes name_address => in_u64 slot_address /\ in_u64 attributes /\ in_u64
      name_address
  | cond_destroy slot_address => in_u64 slot_address
  | cond_wait slot_address mutex_slot_address => in_u64 slot_address /\ in_u64 mutex_slot_address
  | cond_timed_wait slot_address mutex_slot_address absolute_timeout_address => in_u64 slot_address /\
      in_u64 mutex_slot_address /\ in_u64 absolute_timeout_address
  | cond_reltimed_wait slot_address mutex_slot_address microseconds => in_u64 slot_address /\ in_u64
      mutex_slot_address /\ in_u64 microseconds
  | cond_signal slot_address => in_u64 slot_address
  | cond_broadcast slot_address => in_u64 slot_address
  | sem_init slot_address pshared value => in_u64 slot_address /\ in_i32 pshared /\ in_u32 value
  | sem_destroy slot_address => in_u64 slot_address
  | sem_wait slot_address => in_u64 slot_address
  | sem_try_wait slot_address => in_u64 slot_address
  | sem_timed_wait slot_address absolute_timeout_address => in_u64 slot_address /\ in_u64
      absolute_timeout_address
  | sem_reltimed_wait slot_address microseconds => in_u64 slot_address /\ in_u64 microseconds
  | sem_post slot_address => in_u64 slot_address
  | sem_get_value slot_address output_address => in_u64 slot_address /\ in_u64 output_address
  | nanosleep request_address remaining_address => in_u64 request_address /\ in_u64 remaining_address
  end.

(** The type of their results. *)
Definition returns_i64 (c : call) : bool :=
  match c with
  | configured_flexible_memory_size_to _
  | available_flexible_memory_size_to _
  | direct_memory_query _ _ _ _
  | virtual_query _ _ _ _
  | query_memory_protection _ _ _ _
  | available_direct_memory _ _ _ _ _
  | allocate_direct_memory _ _ _ _ _ _
  | release_direct_memory _ _ _
  | map_direct_memory _ _ _ _ _ _ _
  | map_flexible_memory _ _ _ _ _
  | mprotect _ _ _
  | map_memory _ _ _ _ _ _
  | map_memory_to _ _ _ _ _ _ _
  | unmap_memory _ _
  | open_readonly _ _ _
  | read _ _ _
  | seek _ _ _
  | stat_path _ _
  | fstat _ _
  | close _ => true
  | _ => false
  end.

End Service.

Module Manager.

(** The member functions of [GuestThreadManager]; a pointer is an address, 0
    for null. *)
Inductive call : Type :=
| create (thread_out attributes start_routine argument : Z)
| join (thread return_value : Z)
| timed_join (thread return_value absolute_timeout : Z)
| detach (thread : Z).

Definition well_typed (c : call) : Prop :=
  match c with
  | create o a s x => in_u64 o /\ in_u64 a /\ in_u64 s /\ in_u64 x
  | join t r => in_u64 t /\ in_u64 r
  | timed_join t r a => in_u64 t /\ in_u64 r /\ in_u64 a
  | detach t => in_u64 t
  end.

End Manager.

(** ** The interface to the host *)

Class HleHost : Type := {
  (** what the calls share and change *)
  world : Type;
  service_call : Service.call -> world -> result (Z * world);
  manager_call : Manager.call -> world -> result (Z * world);
  (** [GuestThreadManager::current_handle] *)
  current_handle : world -> Z;
  (** [std::chrono::steady_clock::now], in nanoseconds *)
  steady_now : world -> Z;
  (** [std::this_thread::sleep_for], in nanoseconds, and [yield] *)
  sleep_for : Z -> world -> world;
  yield_thread : world -> world;
  (** the address of the thread's [guest_posix_errno] *)
  errno_location : Z;
  (** [process_start] *)
  process_start : Z;
}.

(** The state of the calling thread. *)
Record HleState (W : Type) : Type := mkHleState {
  hs_manager : bool;
  hs_services : bool;
  guest_posix_errno : Z;
  hs_world : W;
}.
Arguments mkHleState {W}.
Arguments hs_manager {W}.
Arguments hs_services {W}.
Arguments guest_posix_errno {W}.
Arguments hs_world {W}.

(** How a wrapper ends: with an answer, or, for [pthread_exit], by leaving the
    guest with a status. *)
Definition M `{HleHost} (A : Type) : Type := HleState world -> result ((A + Z) * HleState world).

#[export] Instance M_ret `{HleHost} : MRet M := fun A a s => Ok (inl a, s).
#[export] Instance M_bind `{HleHost} : MBind M := fun A B f m s =>
  match m s with
  | Ok (inl a, s) => f a s
  | Ok (inr status, s) => Ok (inr status, s)
  | Throw e => Throw e
  end.
#[export] Instance M_fmap `{HleHost} : FMap M := fun A B f m s =>
  match m s with
  | Ok (inl a, s) => Ok (inl (f a), s)
  | Ok (inr status, s) => Ok (inr status, s)
  | Throw e => Throw e
  end.

Section Wrappers.
Context `{HleHost}.

Definition with_world (s : HleState world) (w : world) : HleState world :=
  mkHleState (hs_manager s) (hs_services s) (guest_posix_errno s) w.

Definition service (c : Service.call) : M Z := fun s =>
  match service_call c (hs_world s) with
  | Ok (r, w) => Ok (inl r, with_world s w)
  | Throw e => Throw e
  end.

Definition manager (c : Manager.call) : M Z := fun s =>
  match manager_call c (hs_world s) with
  | Ok (r, w) => Ok (inl r, with_world s w)
  | Throw e => Throw e
  end.

Definition set_errno (error : Z) : M unit := fun s =>
  Ok (inl tt, mkHleState (hs_manager s) (hs_services s) error (hs_world s)).

Definition change_world (f : world -> world) : M unit := fun s =>
  Ok (inl tt, with_world s (f (hs_world s))).

Definition read_world {A} (f : world -> A) : M A := fun s => Ok (inl (f (hs_world s)), s).

(** Whether [GuestThreadManager::current()] is not null. *)
Definition current_manager : M bool := fun s => Ok (inl (hs_manager s), s).

(** Whether [kernel_services()] is not null. *)
Definition kernel_services : M bool := fun s => Ok (inl (hs_manager s && hs_services s), s).

(** ** Answers *)

Definition posix_error_address : M Z := mret errno_location.

Definition posix_failure (error : Z) : M Z :=
  set_errno error ≫= fun _ => mret u64_max.

Definition posix_result (error : Z) : M Z :=
  if error =? 0 then mret 0 else posix_failure error.

Definition posix_kernel_result (result : Z) : M Z :=
  if 0 <=? result then mret result
  else
    let encoded := wrap32 result in
    if negb (Z.land encoded 0xffff0000 =? 0x80020000) then posix_failure kPosixEinval
    else posix_failure (to_i32 (wrap32 (encoded - 0x80020000))).

Definition signed_result (value : Z) : Z := wrap64 value.

Definition kernel_error_result (value : Z) : Z := signed_result (to_i32 value).

Definition orbis_errno_result (result : Z) : Z :=
  if result =? 0 then 0
  else
    let value := wrap32 (0x80020000 + wrap32 result) in
    signed_result (to_i32 value).

(** ** Time *)

Definition process_time_us : M Z :=
  now ← read_world steady_now;
  let elapsed := now - process_start in
  mret (wrap64 (Z.quot elapsed 1000)).

Definition process_time_counter : M Z :=
  now ← read_world steady_now;
  let elapsed := now - process_start in
  mret (wrap64 elapsed).

Definition process_time_counter_frequency : M Z := mret 1000000000.

Definition current_cpu : M Z := mret 0.

Definition posix_usleep (microseconds : Z) : M Z :=
  change_world (sleep_for (wrap32 microseconds * 1000)) ≫= fun _ => mret 0.

Definition sce_kernel_usleep (microseconds : Z) : M Z :=
  change_world (sleep_for (wrap32 microseconds * 1000)) ≫= fun _ => mret 0.

Definition posix_sleep (seconds : Z) : M Z :=
  change_world (sleep_for (wrap32 seconds * 1000000000)) ≫= fun _ => mret 0.

Definition sce_kernel_sleep (seconds : Z) : M Z :=
  change_world (sleep_for (wrap32 seconds * 1000000000)) ≫= fun _ => mret 0.

Definition guest_yield : M Z := change_world yield_thread ≫= fun _ => mret 0.

(** ** Threads *)

Definition pthread_create (thread_out attributes start_routine argument : Z) : M Z :=
  current ← current_manager;
  if negb current || (thread_out =? 0) then mret kPosixEinval
  else wrap64 <$> manager (Manager.create thread_out attributes start_routine argument).

Definition pthread_join (thread return_value : Z) : M Z :=
  current ← current_manager;
  if negb current then mret kPosixEinval
  else wrap64 <$> manager (Manager.join thread return_value).

Definition pthread_timed_join (thread return_value absolute_timeout : Z) : M Z :=
  current ← current_manager;
  if negb current then mret kPosixEinval
  else wrap64 <$> manager (Manager.timed_join thread return_value absolute_timeout).

Definition pthread_self : M Z := read_world current_handle.

Definition pthread_detach (thread : Z) : M Z :=
  current ← current_manager;
  if negb current then mret kPosixEinval
  else wrap64 <$> manager (Manager.detach thread).

(** [runtime::terminate_guest_execution] does not return. *)
Definition pthread_exit (status : Z) : M Z := fun s => Ok (inr status, s).

(** ** Memory, files, attributes, mutexes, condition variables, semaphores *)

Definition direct_memory_size : M Z :=
  services ← kernel_services;
  if negb services then mret 0
  else service Service.direct_memory_size.

Definition kernel_virtual_query (address flags info info_size : Z) : M Z :=
  services ← kernel_services;
  if negb services then mret (kernel_error_result kErrorEinval)
  else signed_result <$> service (Service.virtual_query address (to_i32 flags) info info_size).

Definition kernel_query_memory_protection (address start end_ protection : Z) : M Z :=
  services ← kernel_services;
  if negb services then mret (kernel_error_result kErrorEinval)
  else signed_result <$> service (Service.query_memory_protection address start end_ protection).

Definition kernel_available_direct_memory (search_start search_end alignment physical_out size_out : Z) : M
    Z :=
  services ← kernel_services;
  if negb services then mret (kernel_error_result kErrorEinval)
  else signed_result <$> service (Service.available_direct_memory (to_i64 search_start) (to_i64 search_end)
      alignment physical_out size_out).

Definition kernel_allocate_direct_memory (search_start search_end size alignment memory_type physical_out :
    Z) : M Z :=
  services ← kernel_services;
  if negb services then mret (kernel_error_result kErrorEinval)
  else signed_result <$> service (Service.allocate_direct_memory (to_i64 search_start) (to_i64 search_end)
      size alignment (to_i32 memory_type) physical_out).

Definition kernel_allocate_main_direct_memory (size alignment memory_type physical_out : Z) : M Z :=
  services ← kernel_services;
  if negb services then mret (kernel_error_result kErrorEinval)
  else (total ← service Service.direct_memory_size;
    signed_result <$> service (Service.allocate_direct_memory 0 (to_i64 total) size alignment (to_i32
        memory_type) physical_out)).

Definition kernel_release_direct_memory (physical_address size : Z) : M Z :=
  services ← kernel_services;
  if negb services then mret (kernel_error_result kErrorEinval)
  else signed_result <$> service (Service.release_direct_memory physical_address size false).

Definition kernel_checked_release_direct_memory (physical_address size : Z) : M Z :=
  services ← kernel_services;
  if negb services then mret (kernel_error_result kErrorEinval)
  else signed_result <$> service (Service.release_direct_memory physical_address size true).

Definition kernel_map_direct_memory (address_slot size protection flags physical_address alignment : Z) : M
    Z :=
  services ← kernel_services;
  if negb services then mret (kernel_error_result kErrorEinval)
  else signed_result <$> service (Service.map_direct_memory address_slot size (wrap32 protection) (wrap32
      flags) (to_i64 physical_address) alignment 0).

Definition kernel_map_named_direct_memory (address_slot size protection flags physical_address alignment
    name : Z) : M Z :=
  if name =? 0 then mret (kernel_error_result kErrorEfault) else
  services ← kernel_services;
  if negb services then mret (kernel_error_result kErrorEinval)
  else signed_result <$> service (Service.map_direct_memory address_slot size (wrap32 protection) (wrap32
      flags) (to_i64 physical_address) alignment name).

Definition kernel_direct_memory_query (physical_address flags info info_size : Z) : M Z :=
  services ← kernel_services;
  if negb services then mret (kernel_error_result kErrorEinval)
  else signed_result <$> service (Service.direct_memory_query (to_i64 physical_address) (to_i32 flags) info
      info_size).

Definition kernel_map_flexible_memory (address_slot size protection flags : Z) : M Z :=
  services ← kernel_services;
  if negb services then mret (kernel_error_result kErrorEinval)
  else signed_result <$> service (Service.map_flexible_memory address_slot size (wrap32 protection) (wrap32
      flags) 0).

Definition kernel_map_named_flexible_memory (address_slot size protection flags name : Z) : M Z :=
  if name =? 0 then mret (kernel_error_result kErrorEfault) else
  services ← kernel_services;
  if negb services then mret (kernel_error_result kErrorEinval)
  else signed_result <$> service (Service.map_flexible_memory address_slot size (wrap32 protection) (wrap32
      flags) name).

Definition kernel_available_flexible_memory (size_out : Z) : M Z :=
  services ← kernel_services;
  if negb services then mret (kernel_error_result kErrorEinval)
  else signed_result <$> service (Service.available_flexible_memory_size_to size_out).

Definition kernel_configured_flexible_memory (size_out : Z) : M Z :=
  services ← kernel_services;
  if negb services then mret (kernel_error_result kErrorEinval)
  else signed_result <$> service (Service.configured_flexible_memory_size_to size_out).

Definition kernel_mprotect (address size protection : Z) : M Z :=
  services ← kernel_services;
  if negb services then mret (kernel_error_result kErrorEinval)
  else signed_result <$> service (Service.mprotect address size (wrap32 protection)).

Definition posix_mprotect (address size protection : Z) : M Z :=
  services ← kernel_services;
  if negb services then posix_failure kPosixEinval
  else result ← service (Service.mprotect address size (wrap32 protection));
    posix_kernel_result result.

Definition posix_mmap (address size protection flags fd offset : Z) : M Z :=
  services ← kernel_services;
  if negb services then posix_failure kPosixEinval
  else result ← service (Service.map_memory address size (wrap32 protection) (wrap32 flags) (to_i32 fd)
      (to_i64 offset));
    posix_kernel_result result.

Definition kernel_mmap (address size protection flags fd offset result_address : Z) : M Z :=
  services ← kernel_services;
  if negb services then mret (kernel_error_result kErrorEinval)
  else signed_result <$> service (Service.map_memory_to address size (wrap32 protection) (wrap32 flags)
      (to_i32 fd) (to_i64 offset) result_address).

Definition posix_munmap (address size : Z) : M Z :=
  services ← kernel_services;
  if negb services then posix_failure kPosixEinval
  else result ← service (Service.unmap_memory address size);
    posix_kernel_result result.

Definition kernel_munmap (address size : Z) : M Z :=
  services ← kernel_services;
  if negb services then mret (kernel_error_result kErrorEinval)
  else signed_result <$> service (Service.unmap_memory address size).

Definition kernel_open (path flags mode : Z) : M Z :=
  services ← kernel_services;
  if negb services then mret (kernel_error_result kErrorEinval)
  else signed_result <$> service (Service.open_readonly path (wrap32 flags) (wrap16 mode)).

Definition kernel_read (fd buffer size : Z) : M Z :=
  services ← kernel_services;
  if negb services then mret (kernel_error_result kErrorEbadf)
  else signed_result <$> service (Service.read (to_i32 fd) buffer size).

Definition kernel_close (fd : Z) : M Z :=
  services ← kernel_services;
  if negb services then mret (kernel_error_result kErrorEbadf)
  else signed_result <$> service (Service.close (to_i32 fd)).

Definition posix_open (path flags mode : Z) : M Z :=
  services ← kernel_services;
  if negb services then posix_failure kPosixEinval
  else result ← service (Service.open_readonly path (wrap32 flags) (wrap16 mode));
    posix_kernel_result result.

Definition posix_read (fd buffer size : Z) : M Z :=
  services ← kernel_services;
  if negb services then posix_failure kPosixEbadf
  else result ← service (Service.read (to_i32 fd) buffer size);
    posix_kernel_result result.

Definition posix_close (fd : Z) : M Z :=
  services ← kernel_services;
  if negb services then posix_failure kPosixEbadf
  else result ← service (Service.close (to_i32 fd));
    posix_kernel_result result.

Definition posix_lseek (fd offset whence : Z) : M Z :=
  services ← kernel_services;
  if negb services then posix_failure kPosixEbadf
  else result ← service (Service.seek (to_i32 fd) (to_i64 offset) (to_i32 whence));
    posix_kernel_result result.

Definition kernel_lseek (fd offset whence : Z) : M Z :=
  services ← kernel_services;
  if negb services then mret (kernel_error_result kErrorEbadf)
  else signed_result <$> service (Service.seek (to_i32 fd) (to_i64 offset) (to_i32 whence)).

Definition posix_stat (path stat : Z) : M Z :=
  services ← kernel_services;
  if negb services then posix_failure kPosixEinval
  else result ← service (Service.stat_path path stat);
    posix_kernel_result result.

Definition kernel_stat (path stat : Z) : M Z :=
  services ← kernel_services;
  if negb services then mret (kernel_error_result kErrorEinval)
  else signed_result <$> service (Service.stat_path path stat).

Definition posix_fstat (fd stat : Z) : M Z :=
  services ← kernel_services;
  if negb services then posix_failure kPosixEbadf
  else result ← service (Service.fstat (to_i32 fd) stat);
    posix_kernel_result result.

Definition kernel_fstat (fd stat : Z) : M Z :=
  services ← kernel_services;
  if negb services then mret (kernel_error_result kErrorEbadf)
  else signed_result <$> service (Service.fstat (to_i32 fd) stat).

Definition mutex_attr_init (attribute : Z) : M Z :=
  services ← kernel_services;
  if negb services then mret kPosixEinval
  else wrap64 <$> service (Service.mutex_attr_init attribute).

Definition mutex_attr_destroy (attribute : Z) : M Z :=
  services ← kernel_services;
  if negb services then mret kPosixEinval
  else wrap64 <$> service (Service.mutex_attr_destroy attribute).

Definition mutex_attr_get_type (attribute output : Z) : M Z :=
  services ← kernel_services;
  if negb services then mret kPosixEinval
  else wrap64 <$> service (Service.mutex_attr_get_type attribute output).

Definition mutex_attr_set_type (attribute type : Z) : M Z :=
  services ← kernel_services;
  if negb services then mret kPosixEinval
  else wrap64 <$> service (Service.mutex_attr_set_type attribute (wrap32 type)).

Definition mutex_attr_get_pshared (attribute output : Z) : M Z :=
  services ← kernel_services;
  if negb services then mret kPosixEinval
  else wrap64 <$> service (Service.mutex_attr_get_pshared attribute output).

Definition mutex_attr_set_pshared (attribute pshared : Z) : M Z :=
  services ← kernel_services;
  if negb services then mret kPosixEinval
  else wrap64 <$> service (Service.mutex_attr_set_pshared attribute (to_i32 pshared)).

Definition orbis_mutex_attr_init (attribute : Z) : M Z :=
  result ← mutex_attr_init attribute;
  mret (orbis_errno_result (to_i32 result)).

Definition orbis_mutex_attr_destroy (attribute : Z) : M Z :=
  result ← mutex_attr_destroy attribute;
  mret (orbis_errno_result (to_i32 result)).

Definition orbis_mutex_attr_get_type (attribute output : Z) : M Z :=
  result ← mutex_attr_get_type attribute output;
  mret (orbis_errno_result (to_i32 result)).

Definition orbis_mutex_attr_set_type (attribute type : Z) : M Z :=
  result ← mutex_attr_set_type attribute type;
  mret (orbis_errno_result (to_i32 result)).

Definition orbis_mutex_attr_get_pshared (attribute output : Z) : M Z :=
  result ← mutex_attr_get_pshared attribute output;
  mret (orbis_errno_result (to_i32 result)).

Definition orbis_mutex_attr_set_pshared (attribute pshared : Z) : M Z :=
  result ← mutex_attr_set_pshared attribute pshared;
  mret (orbis_errno_result (to_i32 result)).

Definition posix_mutex_init (mutex attributes : Z) : M Z :=
  services ← kernel_services;
  if negb services then mret kPosixEinval
  else wrap64 <$> service (Service.mutex_init mutex attributes 0).

Definition sce_mutex_init (mutex attributes name : Z) : M Z :=
  services ← kernel_services;
  result ← (if negb services then mret kPosixEinval
            else service (Service.mutex_init mutex attributes name));
  mret (orbis_errno_result result).

Definition posix_mutex_lock (mutex : Z) : M Z :=
  services ← kernel_services;
  if negb services then mret kPosixEinval
  else wrap64 <$> service (Service.mutex_lock mutex).

Definition posix_mutex_unlock (mutex : Z) : M Z :=
  services ← kernel_services;
  if negb services then mret kPosixEinval
  else wrap64 <$> service (Service.mutex_unlock mutex).

Definition posix_mutex_destroy (mutex : Z) : M Z :=
  services ← kernel_services;
  if negb services then mret kPosixEinval
  else wrap64 <$> service (Service.mutex_destroy mutex).

Definition orbis_mutex_lock (mutex : Z) : M Z :=
  services ← kernel_services;
  result ← (if negb services then mret kPosixEinval
            else service (Service.mutex_lock mutex));
  mret (orbis_errno_result result).

Definition orbis_mutex_unlock (mutex : Z) : M Z :=
  services ← kernel_services;
  result ← (if negb services then mret kPosixEinval
            else service (Service.mutex_unlock mutex));
  mret (orbis_errno_result result).

Definition orbis_mutex_destroy (mutex : Z) : M Z :=
  services ← kernel_services;
  result ← (if negb services then mret kPosixEinval
            else service (Service.mutex_destroy mutex));
  mret (orbis_errno_result result).

Definition cond_attr_init (attribute : Z) : M Z :=
  services ← kernel_services;
  if negb services then mret kPosixEinval
  else wrap64 <$> service (Service.cond_attr_init attribute).

Definition cond_attr_destroy (attribute : Z) : M Z :=
  services ← kernel_services;
  if negb services then mret kPosixEinval
  else wrap64 <$> service (Service.cond_attr_destroy attribute).

Definition cond_attr_get_clock (attribute output : Z) : M Z :=
  services ← kernel_services;
  if negb services then mret kPosixEinval
  else wrap64 <$> service (Service.cond_attr_get_clock attribute output).

Definition cond_attr_set_clock (attribute clock_id : Z) : M Z :=
  services ← kernel_services;
  if negb services then mret kPosixEinval
  else wrap64 <$> service (Service.cond_attr_set_clock attribute (wrap32 clock_id)).

Definition cond_attr_get_pshared (attribute output : Z) : M Z :=
  services ← kernel_services;
  if negb services then mret kPosixEinval
  else wrap64 <$> service (Service.cond_attr_get_pshared attribute output).

Definition cond_attr_set_pshared (attribute pshared : Z) : M Z :=
  services ← kernel_services;
  if negb services then mret kPosixEinval
  else wrap64 <$> service (Service.cond_attr_set_pshared attribute (to_i32 pshared)).

Definition orbis_cond_attr_init (attribute : Z) : M Z :=
  result ← cond_attr_init attribute;
  mret (orbis_errno_result (to_i32 result)).

Definition orbis_cond_attr_destroy (attribute : Z) : M Z :=
  result ← cond_attr_destroy attribute;
  mret (orbis_errno_result (to_i32 result)).

Definition orbis_cond_attr_get_clock (attribute output : Z) : M Z :=
  result ← cond_attr_get_clock attribute output;
  mret (orbis_errno_result (to_i32 result)).

Definition orbis_cond_attr_set_clock (attribute clock_id : Z) : M Z :=
  result ← cond_attr_set_clock attribute clock_id;
  mret (orbis_errno_result (to_i32 result)).

Definition orbis_cond_attr_get_pshared (attribute output : Z) : M Z :=
  result ← cond_attr_get_pshared attribute output;
  mret (orbis_errno_result (to_i32 result)).

Definition orbis_cond_attr_set_pshared (attribute pshared : Z) : M Z :=
  result ← cond_attr_set_pshared attribute pshared;
  mret (orbis_errno_result (to_i32 result)).

Definition posix_cond_init (cond attributes : Z) : M Z :=
  services ← kernel_services;
  if negb services then mret kPosixEinval
  else wrap64 <$> service (Service.cond_init cond attributes 0).

Definition sce_cond_init (cond attributes name : Z) : M Z :=
  services ← kernel_services;
  result ← (if negb services then mret kPosixEinval
            else service (Service.cond_init cond attributes name));
  mret (orbis_errno_result result).

Definition posix_cond_destroy (cond : Z) : M Z :=
  services ← kernel_services;
  if negb services then mret kPosixEinval
  else wrap64 <$> service (Service.cond_destroy cond).

Definition posix_cond_wait (cond mutex : Z) : M Z :=
  services ← kernel_services;
  if negb services then mret kPosixEinval
  else wrap64 <$> service (Service.cond_wait cond mutex).

Definition posix_cond_timed_wait (cond mutex absolute_timeout : Z) : M Z :=
  services ← kernel_services;
  if negb services then mret kPosixEinval
  else wrap64 <$> service (Service.cond_timed_wait cond mutex absolute_timeout).

Definition posix_cond_reltimed_wait (cond mutex microseconds : Z) : M Z :=
  services ← kernel_services;
  if negb services then mret kPosixEinval
  else wrap64 <$> service (Service.cond_reltimed_wait cond mutex microseconds).

Definition orbis_cond_reltimed_wait (cond mutex microseconds : Z) : M Z :=
  result ← posix_cond_reltimed_wait cond mutex microseconds;
  mret (orbis_errno_result (to_i32 result)).

Definition posix_cond_signal (cond : Z) : M Z :=
  services ← kernel_services;
  if negb services then mret kPosixEinval
  else wrap64 <$> service (Service.cond_signal cond).

Definition posix_cond_broadcast (cond : Z) : M Z :=
  services ← kernel_services;
  if negb services then mret kPosixEinval
  else wrap64 <$> service (Service.cond_broadcast cond).

Definition orbis_cond_destroy (cond : Z) : M Z :=
  result ← posix_cond_destroy cond;
  mret (orbis_errno_result (to_i32 result)).

Definition orbis_cond_wait (cond mutex : Z) : M Z :=
  result ← posix_cond_wait cond mutex;
  mret (orbis_errno_result (to_i32 result)).

Definition orbis_cond_signal (cond : Z) : M Z :=
  result ← posix_cond_signal cond;
  mret (orbis_errno_result (to_i32 result)).

Definition orbis_cond_broadcast (cond : Z) : M Z :=
  result ← posix_cond_broadcast cond;
  mret (orbis_errno_result (to_i32 result)).

Definition posix_nanosleep (request remaining : Z) : M Z :=
  services ← kernel_services;
  if negb services then posix_failure kPosixEinval
  else result ← service (Service.nanosleep request remaining);
    posix_result result.

Definition sce_kernel_nanosleep (request remaining : Z) : M Z :=
  services ← kernel_services;
  result ← (if negb services then mret kPosixEinval
            else service (Service.nanosleep request remaining));
  mret (orbis_errno_result result).

Definition posix_sem_init (semaphore pshared value : Z) : M Z :=
  services ← kernel_services;
  if negb services then posix_failure kPosixEinval
  else result ← service (Service.sem_init semaphore (to_i32 pshared) (wrap32 value));
    posix_result result.

Definition posix_sem_destroy (semaphore : Z) : M Z :=
  services ← kernel_services;
  if negb services then posix_failure kPosixEinval
  else result ← service (Service.sem_destroy semaphore);
    posix_result result.

Definition posix_sem_wait (semaphore : Z) : M Z :=
  services ← kernel_services;
  if negb services then posix_failure kPosixEinval
  else result ← service (Service.sem_wait semaphore);
    posix_result result.

Definition posix_sem_try_wait (semaphore : Z) : M Z :=
  services ← kernel_services;
  if negb services then posix_failure kPosixEinval
  else result ← service (Service.sem_try_wait semaphore);
    posix_result result.

Definition posix_sem_timed_wait (semaphore absolute_timeout : Z) : M Z :=
  services ← kernel_services;
  if negb services then posix_failure kPosixEinval
  else result ← service (Service.sem_timed_wait semaphore absolute_timeout);
    posix_result result.

Definition posix_sem_reltimed_wait (semaphore microseconds : Z) : M Z :=
  services ← kernel_services;
  if negb services then posix_failure kPosixEinval
  else result ← service (Service.sem_reltimed_wait semaphore microseconds);
    posix_result result.

Definition posix_sem_post (semaphore : Z) : M Z :=
  services ← kernel_services;
  if negb services then posix_failure kPosixEinval
  else result ← service (Service.sem_post semaphore);
    posix_result result.

Definition posix_sem_get_value (semaphore output : Z) : M Z :=
  services ← kernel_services;
  if negb services then posix_failure kPosixEinval
  else result ← service (Service.sem_get_value semaphore output);
    posix_result result.

Definition sce_pthread_sem_init (semaphore flag value name : Z) : M Z :=
  if negb (flag =? 0) then mret (orbis_errno_result kPosixEinval) else
  services ← kernel_services;
  result ← (if negb services then mret kPosixEinval
            else service (Service.sem_init semaphore 0 (wrap32 value)));
  mret (orbis_errno_result result).

Definition sce_pthread_sem_destroy (semaphore : Z) : M Z :=
  services ← kernel_services;
  result ← (if negb services then mret kPosixEinval
            else service (Service.sem_destroy semaphore));
  mret (orbis_errno_result result).

Definition sce_pthread_sem_wait (semaphore : Z) : M Z :=
  services ← kernel_services;
  result ← (if negb services then mret kPosixEinval
            else service (Service.sem_wait semaphore));
  mret (orbis_errno_result result).

Definition sce_pthread_sem_try_wait (semaphore : Z) : M Z :=
  services ← kernel_services;
  result ← (if negb services then mret kPosixEinval
            else service (Service.sem_try_wait semaphore));
  mret (orbis_errno_result result).

Definition sce_pthread_sem_timed_wait (semaphore microseconds : Z) : M Z :=
  services ← kernel_services;
  result ← (if negb services then mret kPosixEinval
            else service (Service.sem_reltimed_wait semaphore microseconds));
  mret (orbis_errno_result result).

Definition sce_pthread_sem_post (semaphore : Z) : M Z :=
  services ← kernel_services;
  result ← (if negb services then mret kPosixEinval
            else service (Service.sem_post semaphore));
  mret (orbis_errno_result result).

Definition sce_pthread_sem_get_value (semaphore output : Z) : M Z :=
  services ← kernel_services;
  result ← (if negb services then mret kPosixEinval
            else service (Service.sem_get_value semaphore output));
  mret (orbis_errno_result result).

Definition pthread_attr_init (attribute : Z) : M Z :=
  services ← kernel_services;
  if negb services then mret kPosixEinval
  else wrap64 <$> service (Service.thread_attr_init attribute).

Definition pthread_attr_destroy (attribute : Z) : M Z :=
  services ← kernel_services;
  if negb services then mret kPosixEinval
  else wrap64 <$> service (Service.thread_attr_destroy attribute).

Definition pthread_attr_get_stack_size (attribute output : Z) : M Z :=
  services ← kernel_services;
  if negb services then mret kPosixEinval
  else wrap64 <$> service (Service.thread_attr_get_stack_size attribute output).

Definition pthread_attr_set_stack_size (attribute stack_size : Z) : M Z :=
  services ← kernel_services;
  if negb services then mret kPosixEinval
  else wrap64 <$> service (Service.thread_attr_set_stack_size attribute stack_size).

Definition pthread_attr_get_detach_state (attribute output : Z) : M Z :=
  services ← kernel_services;
  if negb services then mret kPosixEinval
  else wrap64 <$> service (Service.thread_attr_get_detach_state attribute output).

Definition pthread_attr_set_detach_state (attribute detach_state : Z) : M Z :=
  services ← kernel_services;
  if negb services then mret kPosixEinval
  else wrap64 <$> service (Service.thread_attr_set_detach_state attribute (to_i32 detach_state)).

Definition orbis_attr_init (attribute : Z) : M Z :=
  result ← pthread_attr_init attribute;
  mret (orbis_errno_result (to_i32 result)).

Definition orbis_attr_destroy (attribute : Z) : M Z :=
  result ← pthread_attr_destroy attribute;
  mret (orbis_errno_result (to_i32 result)).

Definition orbis_attr_get_stack_size (attribute output : Z) : M Z :=
  result ← pthread_attr_get_stack_size attribute output;
  mret (orbis_errno_result (to_i32 result)).

Definition orbis_attr_set_stack_size (attribute stack_size : Z) : M Z :=
  result ← pthread_attr_set_stack_size attribute stack_size;
  mret (orbis_errno_result (to_i32 result)).

Definition orbis_attr_get_detach_state (attribute output : Z) : M Z :=
  result ← pthread_attr_get_detach_state attribute output;
  mret (orbis_errno_result (to_i32 result)).

Definition orbis_attr_set_detach_state (attribute detach_state : Z) : M Z :=
  result ← pthread_attr_set_detach_state attribute detach_state;
  mret (orbis_errno_result (to_i32 result)).

End Wrappers.
