(* ===== verification/LibkernelExports.v ===== *)
(** * The emulated kernel library: its exports

    [src/src/hle/libkernel.cpp], its second part: [register_core], which binds
    the functions of Libkernel.v under their names' identifiers.  The addresses
    of the host functions are a parameter. *)

From S2P Require Import Prelude Symbols HleRegistry Libkernel.

Local Open Scope Z_scope.
Local Open Scope string_scope.

(** The integer arguments of a call, in order: registers, then the stack. *)
Definition arguments : Type := nat -> Z.

(** The functions whose addresses are registered. *)
Inductive hle_function : Type :=
| f_posix_error_address
| f_process_time_us
| f_process_time_counter
| f_process_time_counter_frequency
| f_current_cpu
| f_direct_memory_size
| f_kernel_virtual_query
| f_kernel_query_memory_protection
| f_kernel_available_direct_memory
| f_kernel_allocate_direct_memory
| f_kernel_allocate_main_direct_memory
| f_kernel_release_direct_memory
| f_kernel_checked_release_direct_memory
| f_kernel_map_direct_memory
| f_kernel_map_named_direct_memory
| f_kernel_direct_memory_query
| f_kernel_map_flexible_memory
| f_kernel_map_named_flexible_memory
| f_kernel_available_flexible_memory
| f_kernel_configured_flexible_memory
| f_kernel_mprotect
| f_posix_mprotect
| f_posix_mmap
| f_kernel_mmap
| f_posix_munmap
| f_kernel_munmap
| f_kernel_open
| f_kernel_read
| f_kernel_close
| f_posix_open
| f_posix_read
| f_posix_close
| f_posix_lseek
| f_kernel_lseek
| f_posix_stat
| f_kernel_stat
| f_posix_fstat
| f_kernel_fstat
| f_mutex_attr_init
| f_mutex_attr_destroy
| f_mutex_attr_get_type
| f_mutex_attr_set_type
| f_mutex_attr_get_pshared
| f_mutex_attr_set_pshared
| f_orbis_mutex_attr_init
| f_orbis_mutex_attr_destroy
| f_orbis_mutex_attr_get_type
| f_orbis_mutex_attr_set_type
| f_orbis_mutex_attr_get_pshared
| f_orbis_mutex_attr_set_pshared
| f_posix_mutex_init
| f_sce_mutex_init
| f_posix_mutex_lock
| f_posix_mutex_unlock
| f_posix_mutex_destroy
| f_orbis_mutex_lock
| f_orbis_mutex_unlock
| f_orbis_mutex_destroy
| f_cond_attr_init
| f_cond_attr_destroy
| f_cond_attr_get_clock
| f_cond_attr_set_clock
| f_cond_attr_get_pshared
| f_cond_attr_set_pshared
| f_orbis_cond_attr_init
| f_orbis_cond_attr_destroy
| f_orbis_cond_attr_get_clock
| f_orbis_cond_attr_set_clock
| f_orbis_cond_attr_get_pshared
| f_orbis_cond_attr_set_pshared
| f_posix_cond_init
| f_sce_cond_init
| f_posix_cond_destroy
| f_posix_cond_wait
| f_posix_cond_timed_wait
| f_posix_cond_reltimed_wait
| f_orbis_cond_reltimed_wait
| f_posix_cond_signal
| f_posix_cond_broadcast
| f_orbis_cond_destroy
| f_orbis_cond_wait
| f_orbis_cond_signal
| f_orbis_cond_broadcast
| f_posix_nanosleep
| f_sce_kernel_nanosleep
| f_posix_usleep
| f_sce_kernel_usleep
| f_posix_sleep
| f_sce_kernel_sleep
| f_guest_yield
| f_posix_sem_init
| f_posix_sem_destroy
| f_posix_sem_wait
| f_posix_sem_try_wait
| f_posix_sem_timed_wait
| f_posix_sem_reltimed_wait
| f_posix_sem_post
| f_posix_sem_get_value
| f_sce_pthread_sem_init
| f_sce_pthread_sem_destroy
| f_sce_pthread_sem_wait
| f_sce_pthread_sem_try_wait
| f_sce_pthread_sem_timed_wait
| f_sce_pthread_sem_post
| f_sce_pthread_sem_get_value
| f_pthread_create
| f_pthread_join
| f_pthread_timed_join
| f_pthread_self
| f_pthread_detach
| f_pthread_exit
| f_pthread_attr_init
| f_pthread_attr_destroy
| f_pthread_attr_get_stack_size
| f_pthread_attr_set_stack_size
| f_pthread_attr_get_detach_state
| f_pthread_attr_set_detach_state
| f_orbis_attr_init
| f_orbis_attr_destroy
| f_orbis_attr_get_stack_size
| f_orbis_attr_set_stack_size
| f_orbis_attr_get_detach_state
| f_orbis_attr_set_detach_state.

#[export] Instance hle_function_eq_dec : EqDecision hle_function.
Proof. solve_decision. Defined.

Section Exports.
Context `{HleHost}.

(** What a call of each does with its arguments. *)
Definition hle_code (f : hle_function) (a : arguments) : M Z :=
  match f with
  | f_posix_error_address => posix_error_address
  | f_process_time_us => process_time_us
  | f_process_time_counter => process_time_counter
  | f_process_time_counter_frequency => process_time_counter_frequency
  | f_current_cpu => current_cpu
  | f_direct_memory_size => direct_memory_size
  | f_kernel_virtual_query => kernel_virtual_query (a 0%nat) (a 1%nat) (a 2%nat) (a 3%nat)
  | f_kernel_query_memory_protection => kernel_query_memory_protection (a 0%nat) (a 1%nat) (a 2%nat) (a 3%nat)
  | f_kernel_available_direct_memory => kernel_available_direct_memory (a 0%nat) (a 1%nat) (a 2%nat) (a
      3%nat) (a 4%nat)
  | f_kernel_allocate_direct_memory => kernel_allocate_direct_memory (a 0%nat) (a 1%nat) (a 2%nat) (a
      3%nat) (a 4%nat) (a 5%nat)
  | f_kernel_allocate_main_direct_memory => kernel_allocate_main_direct_memory (a 0%nat) (a 1%nat) (a
      2%nat) (a 3%nat)
  | f_kernel_release_direct_memory => kernel_release_direct_memory (a 0%nat) (a 1%nat)
  | f_kernel_checked_release_direct_memory => kernel_checked_release_direct_memory (a 0%nat) (a 1%nat)
  | f_kernel_map_direct_memory => kernel_map_direct_memory (a 0%nat) (a 1%nat) (a 2%nat) (a 3%nat) (a
      4%nat) (a 5%nat)
  | f_kernel_map_named_direct_memory => kernel_map_named_direct_memory (a 0%nat) (a 1%nat) (a 2%nat) (a
      3%nat) (a 4%nat) (a 5%nat) (a 6%nat)
  | f_kernel_direct_memory_query => kernel_direct_memory_query (a 0%nat) (a 1%nat) (a 2%nat) (a 3%nat)
  | f_kernel_map_flexible_memory => kernel_map_flexible_memory (a 0%nat) (a 1%nat) (a 2%nat) (a 3%nat)
  | f_kernel_map_named_flexible_memory => kernel_map_named_flexible_memory (a 0%nat) (a 1%nat) (a 2%nat) (a
      3%nat) (a 4%nat)
  | f_kernel_available_flexible_memory => kernel_available_flexible_memory (a 0%nat)
  | f_kernel_configured_flexible_memory => kernel_configured_flexible_memory (a 0%nat)
  | f_kernel_mprotect => kernel_mprotect (a 0%nat) (a 1%nat) (a 2%nat)
  | f_posix_mprotect => posix_mprotect (a 0%nat) (a 1%nat) (a 2%nat)
  | f_posix_mmap => posix_mmap (a 0%nat) (a 1%nat) (a 2%nat) (a 3%nat) (a 4%nat) (a 5%nat)
  | f_kernel_mmap => kernel_mmap (a 0%nat) (a 1%nat) (a 2%nat) (a 3%nat) (a 4%nat) (a 5%nat) (a 6%nat)
  | f_posix_munmap => posix_munmap (a 0%nat) (a 1%nat)
  | f_kernel_munmap => kernel_munmap (a 0%nat) (a 1%nat)
  | f_kernel_open => kernel_open (a 0%nat) (a 1%nat) (a 2%nat)
  | f_kernel_read => kernel_read (a 0%nat) (a 1%nat) (a 2%nat)
  | f_kernel_close => kernel_close (a 0%nat)
  | f_posix_open => posix_open (a 0%nat) (a 1%nat) (a 2%nat)
  | f_posix_read => posix_read (a 0%nat) (a 1%nat) (a 2%nat)
  | f_posix_close => posix_close (a 0%nat)
  | f_posix_lseek => posix_lseek (a 0%nat) (a 1%nat) (a 2%nat)
  | f_kernel_lseek => kernel_lseek (a 0%nat) (a 1%nat) (a 2%nat)
  | f_posix_stat => posix_stat (a 0%nat) (a 1%nat)
  | f_kernel_stat => kernel_stat (a 0%nat) (a 1%nat)
  | f_posix_fstat => posix_fstat (a 0%nat) (a 1%nat)
  | f_kernel_fstat => kernel_fstat (a 0%nat) (a 1%nat)
  | f_mutex_attr_init => mutex_attr_init (a 0%nat)
  | f_mutex_attr_destroy => mutex_attr_destroy (a 0%nat)
  | f_mutex_attr_get_type => mutex_attr_get_type (a 0%nat) (a 1%nat)
  | f_mutex_attr_set_type => mutex_attr_set_type (a 0%nat) (a 1%nat)
  | f_mutex_attr_get_pshared => mutex_attr_get_pshared (a 0%nat) (a 1%nat)
  | f_mutex_attr_set_pshared => mutex_attr_set_pshared (a 0%nat) (a 1%nat)
  | f_orbis_mutex_attr_init => orbis_mutex_attr_init (a 0%nat)
  | f_orbis_mutex_attr_destroy => orbis_mutex_attr_destroy (a 0%nat)
  | f_orbis_mutex_attr_get_type => orbis_mutex_attr_get_type (a 0%nat) (a 1%nat)
  | f_orbis_mutex_attr_set_type => orbis_mutex_attr_set_type (a 0%nat) (a 1%nat)
  | f_orbis_mutex_attr_get_pshared => orbis_mutex_attr_get_pshared (a 0%nat) (a 1%nat)
  | f_orbis_mutex_attr_set_pshared => orbis_mutex_attr_set_pshared (a 0%nat) (a 1%nat)
  | f_posix_mutex_init => posix_mutex_init (a 0%nat) (a 1%nat)
  | f_sce_mutex_init => sce_mutex_init (a 0%nat) (a 1%nat) (a 2%nat)
  | f_posix_mutex_lock => posix_mutex_lock (a 0%nat)
  | f_posix_mutex_unlock => posix_mutex_unlock (a 0%nat)
  | f_posix_mutex_destroy => posix_mutex_destroy (a 0%nat)
  | f_orbis_mutex_lock => orbis_mutex_lock (a 0%nat)
  | f_orbis_mutex_unlock => orbis_mutex_unlock (a 0%nat)
  | f_orbis_mutex_destroy => orbis_mutex_destroy (a 0%nat)
  | f_cond_attr_init => cond_attr_init (a 0%nat)
  | f_cond_attr_destroy => cond_attr_destroy (a 0%nat)
  | f_cond_attr_get_clock => cond_attr_get_clock (a 0%nat) (a 1%nat)
  | f_cond_attr_set_clock => cond_attr_set_clock (a 0%nat) (a 1%nat)
  | f_cond_attr_get_pshared => cond_attr_get_pshared (a 0%nat) (a 1%nat)
  | f_cond_attr_set_pshared => cond_attr_set_pshared (a 0%nat) (a 1%nat)
  | f_orbis_cond_attr_init => orbis_cond_attr_init (a 0%nat)
  | f_orbis_cond_attr_destroy => orbis_cond_attr_destroy (a 0%nat)
  | f_orbis_cond_attr_get_clock => orbis_cond_attr_get_clock (a 0%nat) (a 1%nat)
  | f_orbis_cond_attr_set_clock => orbis_cond_attr_set_clock (a 0%nat) (a 1%nat)
  | f_orbis_cond_attr_get_pshared => orbis_cond_attr_get_pshared (a 0%nat) (a 1%nat)
  | f_orbis_cond_attr_set_pshared => orbis_cond_attr_set_pshared (a 0%nat) (a 1%nat)
  | f_posix_cond_init => posix_cond_init (a 0%nat) (a 1%nat)
  | f_sce_cond_init => sce_cond_init (a 0%nat) (a 1%nat) (a 2%nat)
  | f_posix_cond_destroy => posix_cond_destroy (a 0%nat)
  | f_posix_cond_wait => posix_cond_wait (a 0%nat) (a 1%nat)
  | f_posix_cond_timed_wait => posix_cond_timed_wait (a 0%nat) (a 1%nat) (a 2%nat)
  | f_posix_cond_reltimed_wait => posix_cond_reltimed_wait (a 0%nat) (a 1%nat) (a 2%nat)
  | f_orbis_cond_reltimed_wait => orbis_cond_reltimed_wait (a 0%nat) (a 1%nat) (a 2%nat)
  | f_posix_cond_signal => posix_cond_signal (a 0%nat)
  | f_posix_cond_broadcast => posix_cond_broadcast (a 0%nat)
  | f_orbis_cond_destroy => orbis_cond_destroy (a 0%nat)
  | f_orbis_cond_wait => orbis_cond_wait (a 0%nat) (a 1%nat)
  | f_orbis_cond_signal => orbis_cond_signal (a 0%nat)
  | f_orbis_cond_broadcast => orbis_cond_broadcast (a 0%nat)
  | f_posix_nanosleep => posix_nanosleep (a 0%nat) (a 1%nat)
  | f_sce_kernel_nanosleep => sce_kernel_nanosleep (a 0%nat) (a 1%nat)
  | f_posix_usleep => posix_usleep (a 0%nat)
  | f_sce_kernel_usleep => sce_kernel_usleep (a 0%nat)
  | f_posix_sleep => posix_sleep (a 0%nat)
  | f_sce_kernel_sleep => sce_kernel_sleep (a 0%nat)
  | f_guest_yield => guest_yield
  | f_posix_sem_init => posix_sem_init (a 0%nat) (a 1%nat) (a 2%nat)
  | f_posix_sem_destroy => posix_sem_destroy (a 0%nat)
  | f_posix_sem_wait => posix_sem_wait (a 0%nat)
  | f_posix_sem_try_wait => posix_sem_try_wait (a 0%nat)
  | f_posix_sem_timed_wait => posix_sem_timed_wait (a 0%nat) (a 1%nat)
  | f_posix_sem_reltimed_wait => posix_sem_reltimed_wait (a 0%nat) (a 1%nat)
  | f_posix_sem_post => posix_sem_post (a 0%nat)
  | f_posix_sem_get_value => posix_sem_get_value (a 0%nat) (a 1%nat)
  | f_sce_pthread_sem_init => sce_pthread_sem_init (a 0%nat) (a 1%nat) (a 2%nat) (a 3%nat)
  | f_sce_pthread_sem_destroy => sce_pthread_sem_destroy (a 0%nat)
  | f_sce_pthread_sem_wait => sce_pthread_sem_wait (a 0%nat)
  | f_sce_pthread_sem_try_wait => sce_pthread_sem_try_wait (a 0%nat)
  | f_sce_pthread_sem_timed_wait => sce_pthread_sem_timed_wait (a 0%nat) (a 1%nat)
  | f_sce_pthread_sem_post => sce_pthread_sem_post (a 0%nat)
  | f_sce_pthread_sem_get_value => sce_pthread_sem_get_value (a 0%nat) (a 1%nat)
  | f_pthread_create => pthread_create (a 0%nat) (a 1%nat) (a 2%nat) (a 3%nat)
  | f_pthread_join => pthread_join (a 0%nat) (a 1%nat)
  | f_pthread_timed_join => pthread_timed_join (a 0%nat) (a 1%nat) (a 2%nat)
  | f_pthread_self => pthread_self
  | f_pthread_detach => pthread_detach (a 0%nat)
  | f_pthread_exit => pthread_exit (a 0%nat)
  | f_pthread_attr_init => pthread_attr_init (a 0%nat)
  | f_pthread_attr_destroy => pthread_attr_destroy (a 0%nat)
  | f_pthread_attr_get_stack_size => pthread_attr_get_stack_size (a 0%nat) (a 1%nat)
  | f_pthread_attr_set_stack_size => pthread_attr_set_stack_size (a 0%nat) (a 1%nat)
  | f_pthread_attr_get_detach_state => pthread_attr_get_detach_state (a 0%nat) (a 1%nat)
  | f_pthread_attr_set_detach_state => pthread_attr_set_detach_state (a 0%nat) (a 1%nat)
  | f_orbis_attr_init => orbis_attr_init (a 0%nat)
  | f_orbis_attr_destroy => orbis_attr_destroy (a 0%nat)
  | f_orbis_attr_get_stack_size => orbis_attr_get_stack_size (a 0%nat) (a 1%nat)
  | f_orbis_attr_set_stack_size => orbis_attr_set_stack_size (a 0%nat) (a 1%nat)
  | f_orbis_attr_get_detach_state => orbis_attr_get_detach_state (a 0%nat) (a 1%nat)
  | f_orbis_attr_set_detach_state => orbis_attr_set_detach_state (a 0%nat) (a 1%nat)
  end.

End Exports.

(** ** The table *)

(** [key]. *)
Definition key (nid library : string) : SymbolKey := mkSymbolKey nid library "libkernel" 1 1 1 sym_function.
Definition kernel_key (nid : string) : SymbolKey := key nid "libkernel".

(** One call of [register_function], or of [register_no_arg]. *)
Record core_export : Type := mkExport {
  ce_no_arg : bool;
  ce_key : SymbolKey;
  ce_function : hle_function;
  ce_name : string;
}.

(** The loops over the two libraries. *)
Definition for_libraries (body : string -> list core_export) : list core_export :=
  body "libkernel" ++ body "libScePosix".

Definition clock_exports : list core_export :=
  [ mkExport true (kernel_key "4J2sUJmuHZQ") f_process_time_us "sceKernelGetProcessTime";
    mkExport true (kernel_key "fgxnMeTNUtY") f_process_time_counter "sceKernelGetProcessTimeCounter";
    mkExport true (kernel_key "BNowx2l588E") f_process_time_counter_frequency
        "sceKernelGetProcessTimeCounterFrequency";
    mkExport true (kernel_key "g0VTBxfJyu0") f_current_cpu "sceKernelGetCurrentCpu";
    mkExport true (kernel_key "9BcDykPmo1I") f_posix_error_address "__Error" ] ++
  for_libraries (fun library =>
  [ mkExport false (key "NhpspxdjEKU" library) f_posix_nanosleep "nanosleep";
    mkExport false (key "yS8U2TGCe1A" library) f_posix_nanosleep "nanosleep";
    mkExport false (key "QcteRwbsnV0" library) f_posix_usleep "usleep";
    mkExport false (key "0wu33hunNdE" library) f_posix_sleep "sleep";
    mkExport false (key "6XG4B33N09g" library) f_guest_yield "sched_yield" ]) ++
  [ mkExport false (key "B5GmVDKwpn0" "libScePosix") f_guest_yield "pthread_yield";
    mkExport false (kernel_key "T72hz6ffq08") f_guest_yield "scePthreadYield";
    mkExport false (kernel_key "QvsZxomvUHs") f_sce_kernel_nanosleep "sceKernelNanosleep";
    mkExport false (kernel_key "1jfXLRVzisc") f_sce_kernel_usleep "sceKernelUsleep";
    mkExport false (kernel_key "-ZR+hG7aDHw") f_sce_kernel_sleep "sceKernelSleep" ].

Definition memory_exports : list core_export :=
  [ mkExport true (kernel_key "pO96TwzOm5E") f_direct_memory_size "sceKernelGetDirectMemorySize";
    mkExport false (kernel_key "rVjRvHJ0X6c") f_kernel_virtual_query "sceKernelVirtualQuery";
    mkExport false (kernel_key "WFcfL2lzido") f_kernel_query_memory_protection
        "sceKernelQueryMemoryProtection";
    mkExport false (kernel_key "C0f7TJcbfac") f_kernel_available_direct_memory
        "sceKernelAvailableDirectMemorySize";
    mkExport false (kernel_key "rTXw65xmLIA") f_kernel_allocate_direct_memory "sceKernelAllocateDirectMemory";
    mkExport false (kernel_key "B+vc2AO2Zrc") f_kernel_allocate_main_direct_memory
        "sceKernelAllocateMainDirectMemory";
    mkExport false (kernel_key "MBuItvba6z8") f_kernel_release_direct_memory "sceKernelReleaseDirectMemory";
    mkExport false (kernel_key "hwVSPCmp5tM") f_kernel_checked_release_direct_memory
        "sceKernelCheckedReleaseDirectMemory";
    mkExport false (kernel_key "L-Q3LEjIbgA") f_kernel_map_direct_memory "sceKernelMapDirectMemory";
    mkExport false (kernel_key "NcaWUxfMNIQ") f_kernel_map_named_direct_memory
        "sceKernelMapNamedDirectMemory";
    mkExport false (kernel_key "BHouLQzh0X0") f_kernel_direct_memory_query "sceKernelDirectMemoryQuery";
    mkExport false (kernel_key "mL8NDH86iQI") f_kernel_map_named_flexible_memory
        "sceKernelMapNamedFlexibleMemory";
    mkExport false (kernel_key "IWIBBdTHit4") f_kernel_map_flexible_memory "sceKernelMapFlexibleMemory";
    mkExport false (kernel_key "4h6F1LLbTiw") f_kernel_map_flexible_memory "sceKernelMapFlexibleMemory";
    mkExport false (kernel_key "aNz11fnnzi4") f_kernel_available_flexible_memory
        "sceKernelAvailableFlexibleMemorySize";
    mkExport false (kernel_key "n1-v6FgU7MQ") f_kernel_configured_flexible_memory
        "sceKernelConfiguredFlexibleMemorySize";
    mkExport false (kernel_key "vSMAm3cxYTY") f_kernel_mprotect "sceKernelMprotect" ] ++
  for_libraries (fun library =>
  [ mkExport false (key "YQOfxL4QfeU" library) f_posix_mprotect "mprotect";
    mkExport false (key "BPE9s9vQQXo" library) f_posix_mmap "mmap";
    mkExport false (key "UqDGjXA5yUM" library) f_posix_munmap "munmap" ]) ++
  [ mkExport false (kernel_key "PGhQHd-dzv8") f_kernel_mmap "sceKernelMmap";
    mkExport false (kernel_key "cQke9UuBQOk") f_kernel_munmap "sceKernelMunmap" ].

Definition file_exports : list core_export :=
  [ mkExport false (kernel_key "1G3lF1Gg1k8") f_kernel_open "sceKernelOpen";
    mkExport false (kernel_key "Cg4srZ6TKbU") f_kernel_read "sceKernelRead";
    mkExport false (kernel_key "UK2Tl2DWUns") f_kernel_close "sceKernelClose" ] ++
  for_libraries (fun library =>
  [ mkExport false (key "wuCroIGjt2g" library) f_posix_open "open";
    mkExport false (key "AqBioC2vF3I" library) f_posix_read "read";
    mkExport false (key "bY-PO6JhzhQ" library) f_posix_close "close";
    mkExport false (key "Oy6IpwgtYOk" library) f_posix_lseek "lseek";
    mkExport false (key "E6ao34wPw+U" library) f_posix_stat "stat";
    mkExport false (key "mqQMh1zPPT8" library) f_posix_fstat "fstat" ]) ++
  [ mkExport false (kernel_key "6c3rCVE-fTU") f_posix_open "open";
    mkExport false (kernel_key "DRuBt2pvICk") f_posix_read "read";
    mkExport false (kernel_key "NNtFaKJbPt0") f_posix_close "close";
    mkExport false (kernel_key "oib76F-12fk") f_kernel_lseek "sceKernelLseek";
    mkExport false (kernel_key "eV9wAD2riIA") f_kernel_stat "sceKernelStat";
    mkExport false (kernel_key "kBwCPsYX-m4") f_kernel_fstat "sceKernelFstat" ].

Definition semaphore_exports : list core_export :=
  for_libraries (fun library =>
  [ mkExport false (key "pDuPEf3m4fI" library) f_posix_sem_init "sem_init";
    mkExport false (key "cDW233RAwWo" library) f_posix_sem_destroy "sem_destroy";
    mkExport false (key "YCV5dGGBcCo" library) f_posix_sem_wait "sem_wait";
    mkExport false (key "WBWzsRifCEA" library) f_posix_sem_try_wait "sem_trywait";
    mkExport false (key "w5IHyvahg-o" library) f_posix_sem_timed_wait "sem_timedwait";
    mkExport false (key "4SbrhCozqQU" library) f_posix_sem_reltimed_wait "sem_reltimedwait_np";
    mkExport false (key "IKP8typ0QUk" library) f_posix_sem_post "sem_post";
    mkExport false (key "Bq+LRV-N6Hk" library) f_posix_sem_get_value "sem_getvalue" ]) ++
  [ mkExport false (kernel_key "GEnUkDZoUwY") f_sce_pthread_sem_init "scePthreadSemInit";
    mkExport false (kernel_key "Vwc+L05e6oE") f_sce_pthread_sem_destroy "scePthreadSemDestroy";
    mkExport false (kernel_key "C36iRE0F5sE") f_sce_pthread_sem_wait "scePthreadSemWait";
    mkExport false (kernel_key "H2a+IN9TP0E") f_sce_pthread_sem_try_wait "scePthreadSemTrywait";
    mkExport false (kernel_key "fjN6NQHhK8k") f_sce_pthread_sem_timed_wait "scePthreadSemTimedwait";
    mkExport false (kernel_key "aishVAiFaYM") f_sce_pthread_sem_post "scePthreadSemPost";
    mkExport false (kernel_key "DjpBvGlaWbQ") f_sce_pthread_sem_get_value "scePthreadSemGetvalue" ].

Definition thread_exports : list core_export :=
  for_libraries (fun library =>
  [ mkExport false (key "OxhIB8LB-PQ" library) f_pthread_create "pthread_create";
    mkExport false (key "h9CcP3J0oVM" library) f_pthread_join "pthread_join";
    mkExport false (key "PkS44IGrDkM" library) f_pthread_timed_join "pthread_timedjoin_np";
    mkExport false (key "EotR8a3ASf4" library) f_pthread_self "pthread_self";
    mkExport false (key "+U1R4WtXvoc" library) f_pthread_detach "pthread_detach";
    mkExport false (key "FJrT5LuUBAU" library) f_pthread_exit "pthread_exit" ]) ++
  [ mkExport false (kernel_key "3kg7rT0NQIs") f_pthread_exit "scePthreadExit" ] ++
  for_libraries (fun library =>
  [ mkExport false (key "wtkt-teR1so" library) f_pthread_attr_init "pthread_attr_init";
    mkExport false (key "zHchY8ft5pk" library) f_pthread_attr_destroy "pthread_attr_destroy";
    mkExport false (key "0qOtCR-ZHck" library) f_pthread_attr_get_stack_size "pthread_attr_getstacksize";
    mkExport false (key "2Q0z6rnBrTE" library) f_pthread_attr_set_stack_size "pthread_attr_setstacksize";
    mkExport false (key "VUT1ZSrHT0I" library) f_pthread_attr_get_detach_state "pthread_attr_getdetachstate";
    mkExport false (key "E+tyo3lp5Lw" library) f_pthread_attr_set_detach_state
        "pthread_attr_setdetachstate" ]) ++
  [ mkExport false (kernel_key "nsYoNRywwNg") f_orbis_attr_init "scePthreadAttrInit";
    mkExport false (kernel_key "62KCwEMmzcM") f_orbis_attr_destroy "scePthreadAttrDestroy";
    mkExport false (kernel_key "-fA+7ZlGDQs") f_orbis_attr_get_stack_size "scePthreadAttrGetstacksize";
    mkExport false (kernel_key "UTXzJbWhhTE") f_orbis_attr_set_stack_size "scePthreadAttrSetstacksize";
    mkExport false (kernel_key "JaRMy+QcpeU") f_orbis_attr_get_detach_state "scePthreadAttrGetdetachstate";
    mkExport false (kernel_key "-Wreprtu0Qs") f_orbis_attr_set_detach_state "scePthreadAttrSetdetachstate" ].

Definition mutex_exports : list core_export :=
  for_libraries (fun library =>
  [ mkExport false (key "dQHWEsJtoE4" library) f_mutex_attr_init "pthread_mutexattr_init";
    mkExport false (key "HF7lK46xzjY" library) f_mutex_attr_destroy "pthread_mutexattr_destroy";
    mkExport false (key "GZFlI7RhuQo" library) f_mutex_attr_get_type "pthread_mutexattr_gettype";
    mkExport false (key "mDmgMOGVUqg" library) f_mutex_attr_set_type "pthread_mutexattr_settype";
    mkExport false (key "PmL-TwKUzXI" library) f_mutex_attr_get_pshared "pthread_mutexattr_getpshared";
    mkExport false (key "EXv3ztGqtDM" library) f_mutex_attr_set_pshared "pthread_mutexattr_setpshared" ]) ++
  [ mkExport false (kernel_key "n2MMpvU8igI") f_orbis_mutex_attr_init "scePthreadMutexattrInit";
    mkExport false (kernel_key "F8bUHwAG284") f_orbis_mutex_attr_init "scePthreadMutexattrInit";
    mkExport false (kernel_key "smWEktiyyG0") f_orbis_mutex_attr_destroy "scePthreadMutexattrDestroy";
    mkExport false (kernel_key "gquEhBrS2iw") f_orbis_mutex_attr_get_type "scePthreadMutexattrGettype";
    mkExport false (kernel_key "iMp8QpE+XO4") f_orbis_mutex_attr_set_type "scePthreadMutexattrSettype";
    mkExport false (kernel_key "losEubHc64c") f_orbis_mutex_attr_get_pshared "scePthreadMutexattrGetpshared";
    mkExport false (kernel_key "mxKx9bxXF2I") f_orbis_mutex_attr_set_pshared "scePthreadMutexattrSetpshared";
    mkExport false (kernel_key "cmo1RIYva9o") f_sce_mutex_init "scePthreadMutexInit";
    mkExport false (kernel_key "9UK1vLZQft4") f_orbis_mutex_lock "scePthreadMutexLock";
    mkExport false (kernel_key "tn3VlD0hG60") f_orbis_mutex_unlock "scePthreadMutexUnlock";
    mkExport false (kernel_key "2Of0f+3mhhE") f_orbis_mutex_destroy "scePthreadMutexDestroy" ] ++
  for_libraries (fun library =>
  [ mkExport false (key "ttHNfU+qDBU" library) f_posix_mutex_init "pthread_mutex_init";
    mkExport false (key "7H0iTOciTLo" library) f_posix_mutex_lock "pthread_mutex_lock";
    mkExport false (key "2Z+PpY6CaJg" library) f_posix_mutex_unlock "pthread_mutex_unlock";
    mkExport false (key "ltCfaGr2JGE" library) f_posix_mutex_destroy "pthread_mutex_destroy" ]).

Definition condition_exports : list core_export :=
  for_libraries (fun library =>
  [ mkExport false (key "mKoTx03HRWA" library) f_cond_attr_init "pthread_condattr_init";
    mkExport false (key "dJcuQVn6-Iw" library) f_cond_attr_destroy "pthread_condattr_destroy";
    mkExport false (key "cTDYxTUNPhM" library) f_cond_attr_get_clock "pthread_condattr_getclock";
    mkExport false (key "EjllaAqAPZo" library) f_cond_attr_set_clock "pthread_condattr_setclock";
    mkExport false (key "h0qUqSuOmC8" library) f_cond_attr_get_pshared "pthread_condattr_getpshared";
    mkExport false (key "3BpP850hBT4" library) f_cond_attr_set_pshared "pthread_condattr_setpshared" ]) ++
  [ mkExport false (kernel_key "m5-2bsNfv7s") f_orbis_cond_attr_init "scePthreadCondattrInit";
    mkExport false (kernel_key "waPcxYiR3WA") f_orbis_cond_attr_destroy "scePthreadCondattrDestroy";
    mkExport false (kernel_key "6qM3kO5S3Oo") f_orbis_cond_attr_get_clock "scePthreadCondattrGetclock";
    mkExport false (kernel_key "c-bxj027czs") f_orbis_cond_attr_set_clock "scePthreadCondattrSetclock";
    mkExport false (kernel_key "Dn-DRWi9t54") f_orbis_cond_attr_get_pshared "scePthreadCondattrGetpshared";
    mkExport false (kernel_key "6xMew9+rZwI") f_orbis_cond_attr_set_pshared "scePthreadCondattrSetpshared"
        ] ++
  for_libraries (fun library =>
  [ mkExport false (key "0TyVk4MSLt0" library) f_posix_cond_init "pthread_cond_init";
    mkExport false (key "RXXqi4CtF8w" library) f_posix_cond_destroy "pthread_cond_destroy";
    mkExport false (key "Op8TBGY5KHg" library) f_posix_cond_wait "pthread_cond_wait";
    mkExport false (key "27bAgiJmOh0" library) f_posix_cond_timed_wait "pthread_cond_timedwait";
    mkExport false (key "K953PF5u6Pc" library) f_posix_cond_reltimed_wait "pthread_cond_reltimedwait_np";
    mkExport false (key "2MOy+rUfuhQ" library) f_posix_cond_signal "pthread_cond_signal";
    mkExport false (key "mkx2fVhNMsg" library) f_posix_cond_broadcast "pthread_cond_broadcast" ]) ++
  [ mkExport false (kernel_key "2Tb92quprl0") f_sce_cond_init "scePthreadCondInit";
    mkExport false (kernel_key "g+PZd2hiacg") f_orbis_cond_destroy "scePthreadCondDestroy";
    mkExport false (kernel_key "WKAXJ4XBPQ4") f_orbis_cond_wait "scePthreadCondWait";
    mkExport false (kernel_key "BmMjYxmew1w") f_orbis_cond_reltimed_wait "scePthreadCondTimedwait";
    mkExport false (kernel_key "kDh-NfxgMtE") f_orbis_cond_signal "scePthreadCondSignal";
    mkExport false (kernel_key "JGgj7Uvrl+A") f_orbis_cond_broadcast "scePthreadCondBroadcast" ].

Definition core_exports : list core_export :=
  clock_exports ++ memory_exports ++ file_exports ++ semaphore_exports ++ thread_exports ++ mutex_exports
      ++ condition_exports.

(** [register_core]: the registrations in order, each one's result ignored. *)
Definition register_export (function_address : hle_function -> Z) (r : HleRegistry) (e : core_export)
  : HleRegistry :=
  ((if ce_no_arg e then register_no_arg else register_function)
     r (ce_key e) (function_address (ce_function e)) (ce_name e)).2.

Definition register_core (function_address : hle_function -> Z) (r : HleRegistry) : HleRegistry :=
  foldl (register_export function_address) r core_exports.
