(* ===== verification/LibkernelProps.v ===== *)
(** * Properties of the emulated kernel library

    Every wrapper passes arguments of the parameters' types; the wrappers that
    the libraries export in two conventions report the same errors; and
    [register_core] binds every export. *)

From S2P Require Import Prelude Symbols KernelMem HleRegistry Libkernel LibkernelExports.

Local Open Scope Z_scope.


Lemma wrap64_wrap64 z : wrap64 (wrap64 z) = wrap64 z.
Proof. apply wrap64_small, wrap64_range. Qed.

Lemma wrap32_wrap64 z : wrap32 (wrap64 z) = wrap32 z.
Proof. int_lia. Qed.

(** ** Types of the arguments *)

#[export] Instance in_u64_dec z : Decision (in_u64 z).
Proof. unfold in_u64. apply _. Defined.
#[export] Instance in_u32_dec z : Decision (in_u32 z).
Proof. unfold in_u32. apply _. Defined.
#[export] Instance in_u16_dec z : Decision (in_u16 z).
Proof. unfold in_u16. apply _. Defined.
#[export] Instance in_i64_dec z : Decision (in_i64 z).
Proof. unfold in_i64. apply _. Defined.
#[export] Instance in_i32_dec z : Decision (in_i32 z).
Proof. unfold in_i32. apply _. Defined.
#[export] Instance service_well_typed_dec c : Decision (Service.well_typed c).
Proof. destruct c; cbn [Service.well_typed]; apply _. Defined.
#[export] Instance manager_well_typed_dec c : Decision (Manager.well_typed c).
Proof. destruct c; cbn [Manager.well_typed]; apply _. Defined.

(** A host that refuses an argument outside its parameter's type. *)
Definition strict (H : HleHost) : HleHost := {|
  world := world;
  service_call c w := if decide (Service.well_typed c) then service_call c w
                      else Throw (undefined_behaviour "an argument outside its type");
  manager_call c w := if decide (Manager.well_typed c) then manager_call c w
                      else Throw (undefined_behaviour "an argument outside its type");
  current_handle := current_handle;
  steady_now := steady_now;
  sleep_for := sleep_for;
  yield_thread := yield_thread;
  errno_location := errno_location;
  process_start := process_start;
|}.

Lemma to_i32_range z : in_i32 (to_i32 z).
Proof. unfold in_i32, to_i32, wrap32. case_match; bools; Z.div_mod_to_equations; lia. Qed.
Lemma to_i64_in z : in_i64 (to_i64 z).
Proof. apply to_i64_range. Qed.
Lemma wrap16_range z : in_u16 (wrap16 z).
Proof. unfold in_u16, wrap16. Z.div_mod_to_equations. lia. Qed.
Lemma zero_u64 : in_u64 0.
Proof. done. Qed.
Lemma zero_i64 : in_i64 0.
Proof. done. Qed.
Lemma zero_i32 : in_i32 0.
Proof. done. Qed.
#[export] Hint Resolve to_i32_range to_i64_in wrap16_range wrap32_range zero_u64 zero_i64 zero_i32 : ints.

Section Strict.
Context (H : HleHost).

Lemma service_strict c s : Service.well_typed c -> @service (strict H) c s = @service H c s.
Proof. intros Hc. unfold service. cbn [service_call strict]. by rewrite decide_True. Qed.
Lemma manager_strict c s : Manager.well_typed c -> @manager (strict H) c s = @manager H c s.
Proof. intros Hc. unfold manager. cbn [manager_call strict]. by rewrite decide_True. Qed.

Lemma bind_same {A B} (m1 : @M (strict H) A) (m2 : @M H A) k1 k2 s :
  m1 s = m2 s -> (forall x s, k1 x s = k2 x s) ->
  (@mbind (@M (strict H)) M_bind A B k1 m1) s = (@mbind (@M H) M_bind A B k2 m2) s.
Proof.
  intros Hm Hk. unfold mbind, M_bind. rewrite Hm. destruct (m2 s) as [[[x|st] s']|e]; [apply Hk|done|done].
Qed.
Lemma fmap_same {A B} (f : A -> B) (m1 : @M (strict H) A) (m2 : @M H A) s :
  m1 s = m2 s -> (@fmap (@M (strict H)) M_fmap A B f m1) s = (@fmap (@M H) M_fmap A B f m2) s.
Proof. intros Hm. unfold fmap, M_fmap. by rewrite Hm. Qed.
Lemma if_same {A} (b : bool) (x1 y1 : @M (strict H) A) (x2 y2 : @M H A) s :
  x1 s = x2 s -> y1 s = y2 s -> (if b then x1 else y1) s = (if b then x2 else y2) s.
Proof. by destruct b. Qed.

(** Both sides make the same calls, with arguments of their types. *)
Ltac same :=
  repeat first
    [ reflexivity
    | apply if_same
    | apply bind_same; [|intros ? ?]
    | apply fmap_same
    | apply service_strict; cbn [Service.well_typed]; split_and?; auto with ints
    | apply manager_strict; cbn [Manager.well_typed]; split_and?; auto with ints
    | match goal with |- ?x ?s = _ => let h := get_head x in unfold h end ].

(** The wrappers are well typed.  Whatever words a guest passes to an
    exported function, every call it makes of the kernel services or of the
    thread manager has arguments in the ranges of the parameters' C++ types
    (32-bit and 16-bit integers, signed ones included): a host that refuses
    anything else behaves the same. *)
Theorem wrappers_pass_well_typed_arguments f a s :
  (forall i, in_u64 (a i)) -> @hle_code (strict H) f a s = @hle_code H f a s.
Proof. intros Ha. destruct f; cbn [hle_code]; same. Qed.
End Strict.

(** ** The exports *)

#[export] Instance core_export_eq_dec : EqDecision core_export.
Proof. solve_decision. Defined.

Lemma core_keys_distinct : NoDup (ce_key <$> core_exports).
Proof. apply (bool_decide_unpack _). vm_compute. reflexivity. Qed.

Lemma filter_iff_in {A} (P Q : A -> Prop) `{forall x, Decision (P x)} `{forall x, Decision (Q x)} (l : list A) :
  (forall x, x ∈ l -> P x <-> Q x) -> filter P l = filter Q l.
Proof.
  induction l as [|x l IH]; intros Hpq; [done|].
  assert (filter P l = filter Q l) as E by (apply IH; intros; apply Hpq; by right).
  pose proof (Hpq x ltac:(by left)) as Hx. rewrite !filter_cons, E.
  destruct (decide (P x)), (decide (Q x)); tauto.
Qed.

Lemma register_export_free address r e :
  address (ce_function e) <> 0 -> kind (ce_key e) = sym_function -> hr_symbols r !! ce_key e = None ->
  register_export address r e =
    mkHleRegistry (<[ce_key e := mkSymbolBinding (address (ce_function e)) (ce_name e) true]> (hr_symbols r))
      (wrap64 (hr_registered r + 1)).
Proof.
  intros Ha Hk Hn. unfold register_export, register_no_arg.
  destruct (ce_no_arg e); [rewrite (proj2 (Z.eqb_neq _ 0)) by done|]; by rewrite register_function_free.
Qed.

Lemma register_export_bound address r e b :
  hr_symbols r !! ce_key e = Some b -> register_export address r e = r.
Proof.
  intros Hb. unfold register_export, register_no_arg.
  assert ((register_function r (ce_key e) (address (ce_function e)) (ce_name e)).2 = r) as Hr.
  { unfold register_function, register_symbol. destruct (_ || _); [done|]. rewrite Hb.
    cbn [hle negb]. rewrite andb_false_r. by destruct r. }
  destruct (ce_no_arg e); [|exact Hr]. by destruct (_ =? 0).
Qed.

(** The entries whose keys are free. *)
Definition free_exports (r : HleRegistry) (es : list core_export) : list core_export :=
  filter (fun e => hr_symbols r !! ce_key e = None) es.

(** A list of registrations on any registry: the keys that are free are bound
    to the functions of the table, the bound ones keep their binding. *)
Lemma register_exports_spec address es : forall r,
  (forall f, address f <> 0) -> NoDup (ce_key <$> es) -> Forall (fun e => kind (ce_key e) = sym_function) es ->
  0 <= hr_registered r -> hr_registered r + zlen es <= u64_max ->
  let r' := foldl (register_export address) r es in
  hr_registered r' = hr_registered r + zlen (free_exports r es) /\
  (forall k, k ∉ (ce_key <$> es) -> hr_symbols r' !! k = hr_symbols r !! k) /\
  (forall e, e ∈ es -> hr_symbols r' !! ce_key e =
     Some (default (mkSymbolBinding (address (ce_function e)) (ce_name e) true) (hr_symbols r !! ce_key e))).
Proof.
  induction es as [|e es IH]; intros r Ha Hnd Hk H0 Hle; cbn [foldl].
  { split_and!; [unfold free_exports; rewrite filter_nil; cbn; lia|done|]. intros e He. by apply elem_of_nil in He. }
  rewrite fmap_cons in *. apply NoDup_cons in Hnd as [Hni Hnd]. apply Forall_cons in Hk as [Hke Hk].
  cbn [length] in Hle. rewrite Nat2Z.inj_succ in Hle. unfold free_exports. rewrite filter_cons.
  destruct (hr_symbols r !! ce_key e) as [b|] eqn:Hb.
  - rewrite (register_export_bound _ _ _ _ Hb), decide_False by done.
    destruct (IH r Ha Hnd Hk H0 ltac:(lia)) as (Hn & Ho & Hes). split_and!; [exact Hn| |].
    + intros k Hki. apply not_elem_of_cons in Hki as [_ Hki]. by apply Ho.
    + intros e' [->|He']%elem_of_cons; [|by apply Hes]. rewrite Ho, Hb by done. done.
  - rewrite register_export_free, decide_True by done.
    set (r1 := mkHleRegistry _ _). assert (hr_registered r1 = hr_registered r + 1) as Hr1.
    { apply wrap64_small. unfold in_u64. lia. }
    assert (forall e', e' ∈ es -> hr_symbols r1 !! ce_key e' = hr_symbols r !! ce_key e') as Hsame.
    { intros e' He'. cbn. apply lookup_insert_ne. intros E. apply Hni. rewrite E.
      by apply list_elem_of_fmap_2. }
    destruct (IH r1 Ha Hnd Hk ltac:(lia) ltac:(lia)) as (Hn & Ho & Hes). split_and!.
    + rewrite Hn, Hr1. unfold free_exports. cbn [length]. rewrite Nat2Z.inj_succ.
      assert (filter (fun e => hr_symbols r1 !! ce_key e = None) es =
              filter (fun e => hr_symbols r !! ce_key e = None) es) as ->; [|lia].
      apply filter_iff_in. intros e' He'. by rewrite Hsame.
    + intros k Hki. apply not_elem_of_cons in Hki as [Hne Hki]. rewrite Ho by done. cbn.
      by apply lookup_insert_ne.
    + intros e' [->|He']%elem_of_cons.
      * rewrite Ho by done. cbn. rewrite lookup_insert_eq, Hb. done.
      * rewrite Hes, Hsame by done. done.
Qed.

Lemma core_kinds : Forall (fun e => kind (ce_key e) = sym_function) core_exports.
Proof. apply (bool_decide_unpack _). vm_compute. reflexivity. Qed.

(** [register_core] binds its whole table.  On any registry, every one of
    the 189 keys resolves afterwards: to what it was bound to before, when it
    was (a guest's or an earlier function is not replaced), and else to the
    function of the table under its debug name, marked as emulated; no other
    key changes, and [size] counts exactly the bindings added.  No two entries
    of the table share a key, so none of them hides another. *)
Theorem register_core_binds_every_export address r :
  (forall f, address f <> 0) -> 0 <= hr_registered r -> hr_registered r + 189 <= u64_max ->
  let r' := register_core address r in
  zlen core_exports = 189 /\ NoDup (ce_key <$> core_exports) /\
  size r' = size r + zlen (free_exports r core_exports) /\
  (forall k, k ∉ (ce_key <$> core_exports) -> resolve (hr_symbols r') k = resolve (hr_symbols r) k) /\
  (forall e, e ∈ core_exports -> resolve (hr_symbols r') (ce_key e) =
     Some (default (mkSymbolBinding (address (ce_function e)) (ce_name e) true)
             (resolve (hr_symbols r) (ce_key e)))).
Proof.
  intros Ha H0 Hle. assert (zlen core_exports = 189) as Hl by (vm_compute; reflexivity).
  destruct (register_exports_spec address core_exports r Ha core_keys_distinct core_kinds H0 ltac:(lia))
    as (Hn & Ho & Hes).
  split_and!; [exact Hl|exact core_keys_distinct|exact Hn|exact Ho|exact Hes].
Qed.

(** ** The two conventions *)

(** How a library reports an error: a negative kernel code, minus one with
    [errno], or a positive number. *)
Inductive convention : Type := kernel_convention | posix_convention | pthread_convention.

(** The error number of a kernel code [0x8002xxxx]; the POSIX wrappers take
    any other negative result for an invalid argument. *)
Definition kernel_errno (k : Z) : Z :=
  let encoded := wrap32 k in
  if Z.land encoded 0xffff0000 =? 0x80020000 then encoded - 0x80020000 else kPosixEinval.

(** The error a caller sees, from the answer and from [errno]. *)
Definition reported (conv : convention) (answer errno : Z) : option Z :=
  match conv with
  | kernel_convention => if 0 <=? to_i64 answer then None else Some (kernel_errno answer)
  | posix_convention => if answer =? u64_max then Some errno else None
  | pthread_convention => if answer =? 0 then None else Some answer
  end.

(** Results of the services: 64-bit signed codes, or error numbers. *)
Class HleHostLaws (H : HleHost) : Prop := {
  service_i64 c w r w' : service_call c w = Ok (r, w') -> Service.returns_i64 c = true -> in_i64 r;
  service_errno c w r w' : service_call c w = Ok (r, w') -> Service.returns_i64 c = false ->
    c <> Service.direct_memory_size -> 0 <= r < 65536;
}.

Section Twins.
Context `{HleHost, !HleHostLaws H}.

(** Two calls leave the same world and report the same error; when there is
    none they give the same answer. *)
Definition same_report (conv : convention) (kernel twin : result ((Z + Z) * HleState world)) : Prop :=
  match kernel, twin with
  | Ok (inl k, s1), Ok (inl p, s2) =>
      hs_world s1 = hs_world s2 /\
      reported conv p (guest_posix_errno s2) = reported kernel_convention k (guest_posix_errno s1) /\
      (reported kernel_convention k (guest_posix_errno s1) = None -> p = k)
  | Throw e, Throw e' => e = e'
  | _, _ => False
  end.

Definition twins (conv : convention) (f g : M Z) : Prop := forall s, same_report conv (f s) (g s).

(** [0x80020000 + e] and back. *)
Lemma kernel_code e : 0 <= e < 65536 -> kernel_errno (wrap64 (to_i32 (0x80020000 + e))) = e /\
  to_i64 (wrap64 (to_i32 (0x80020000 + e))) < 0.
Proof.
  intros He. assert (to_i32 (0x80020000 + e) = 0x80020000 + e - 4294967296) as Hi.
  { unfold to_i32, wrap32. rewrite Z.mod_small by lia. case_match; bools; lia. }
  rewrite Hi. unfold kernel_errno.
  assert (wrap32 (wrap64 (0x80020000 + e - 4294967296)) = 0x80020000 + e) as Hw.
  { unfold wrap32, wrap64. Z.div_mod_to_equations. lia. }
  rewrite Hw. change 0xffff0000 with (2 ^ 32 - 2 ^ 16). rewrite land_high_mask by (change (2 ^ 32) with 4294967296; lia).
  change (2 ^ 16) with 65536. split.
  - destruct (Z.eqb_spec (0x80020000 + e - (0x80020000 + e) mod 65536) 0x80020000) as [|Hn]; [lia|].
    exfalso. apply Hn. Z.div_mod_to_equations. lia.
  - rewrite (to_i64_eq _ (0x80020000 + e - 4294967296)) by apply wrap64_wrap64. rewrite to_i64_id by lia. lia.
Qed.

(** The value decoded by [posix_kernel_result]. *)
Lemma posix_errno_decode r :
  Z.land (wrap32 r) 0xffff0000 = 0x80020000 ->
  to_i32 (wrap32 (wrap32 r - 0x80020000)) = wrap32 r - 0x80020000.
Proof.
  pose proof (wrap32_range r) as Hr. change 0xffff0000 with (2 ^ 32 - 2 ^ 16).
  rewrite land_high_mask by (unfold in_u32 in Hr; change (2 ^ 32) with 4294967296; lia).
  change (2 ^ 16) with 65536. intros El. assert (0 <= wrap32 r - 0x80020000 < 65536) as Hd.
  { Z.div_mod_to_equations. lia. }
  unfold to_i32. rewrite (wrap32_small (wrap32 (_ - _))) by (apply wrap32_range).
  rewrite wrap32_small by (unfold in_u32; lia). case_match; bools; lia.
Qed.

(** The answer of [posix_kernel_result], as its caller reads it. *)
Lemma posix_kernel_result_reports r s : in_i64 r ->
  same_report posix_convention (Ok (inl (signed_result r), s)) (posix_kernel_result r s).
Proof.
  intros Hr. unfold in_i64 in Hr. unfold posix_kernel_result, signed_result.
  assert (to_i64 (wrap64 r) = r) as Hi by (rewrite (to_i64_eq _ r) by apply wrap64_wrap64; by apply to_i64_id).
  destruct (Z.leb_spec 0 r) as [H0|H0].
  - rewrite (wrap64_small r) by (unfold in_u64; lia). cbn. rewrite to_i64_id by lia.
    destruct (Z.leb_spec 0 r); [|lia]. destruct (Z.eqb_spec r u64_max); [lia|done].
  - destruct (Z.eqb_spec (Z.land (wrap32 r) 0xffff0000) 0x80020000) as [El|El]; cbn -[Z.land Z.leb];
      rewrite Hi; (destruct (Z.leb_spec 0 r); [lia|]); unfold kernel_errno; rewrite wrap32_wrap64.
    + rewrite El, posix_errno_decode by done. done.
    + apply Z.eqb_neq in El. by rewrite El.
Qed.

(** A code [0x8002xxxx], as its caller reads it. *)
Lemma kernel_error_reports e errno : 0 < e < 65536 ->
  reported kernel_convention (wrap64 (to_i32 (0x80020000 + e))) errno = Some e.
Proof.
  intros He. destruct (kernel_code e ltac:(lia)) as [Hk Hn]. cbn [reported]. rewrite Hk.
  by destruct (Z.leb_spec 0 (to_i64 (wrap64 (to_i32 (0x80020000 + e))))); [lia|].
Qed.

Lemma orbis_errno_reports e errno : 0 <= e < 65536 ->
  reported kernel_convention (orbis_errno_result e) errno = if e =? 0 then None else Some e.
Proof.
  intros He. unfold orbis_errno_result. destruct (Z.eqb_spec e 0); [done|].
  rewrite (wrap32_small e), wrap32_small by (unfold in_u32; lia). apply kernel_error_reports. lia.
Qed.

(** A wrapper that answers [absent] without services, and else makes the call
    [c] and answers [k] of its result. *)
Definition answers (f absent : M Z) (c : Service.call) (k : Z -> M Z) : Prop := forall s,
  f s = if hs_manager s && hs_services s then
          match service_call c (hs_world s) with
          | Ok (r, w) => k r (with_world s w)
          | Throw e => Throw e
          end
        else absent s.

Lemma twins_call conv f g m1 m2 c k1 k2 :
  answers f m1 c k1 -> answers g m2 c k2 ->
  (forall s, same_report conv (m1 s) (m2 s)) ->
  (forall r s w w', service_call c w = Ok (r, w') -> same_report conv (k1 r s) (k2 r s)) ->
  twins conv f g.
Proof.
  intros Hf Hg Hm Hk s. rewrite Hf, Hg. destruct (hs_manager s && hs_services s); [|done].
  destruct (service_call c (hs_world s)) as [[r w]|e] eqn:Hs; [|done]. by eapply Hk.
Qed.

(** A kernel function and its POSIX twin. *)
Lemma kernel_posix_twins error posix_error f g c :
  answers f (mret (kernel_error_result error)) c (fun r => mret (signed_result r)) ->
  answers g (posix_failure posix_error) c posix_kernel_result ->
  error = 0x80020000 + posix_error -> 0 < posix_error < 65536 -> Service.returns_i64 c = true ->
  twins posix_convention f g.
Proof.
  intros Hf Hg -> He Hc. eapply twins_call; [done|done| |].
  - intros s. cbn -[reported kernel_error_result]. unfold kernel_error_result, signed_result.
    by rewrite kernel_error_reports.
  - intros r s w w' Hs. apply posix_kernel_result_reports. by eapply service_i64.
Qed.

(** A kernel function and the pthread function it is made of. *)
Lemma kernel_pthread_twins h f g c :
  answers f (mret (orbis_errno_result kPosixEinval)) c (fun r => mret (orbis_errno_result (h r))) ->
  answers g (mret kPosixEinval) c (fun r => mret (wrap64 r)) ->
  (forall r, 0 <= r < 65536 -> h r = r) ->
  Service.returns_i64 c = false -> c <> Service.direct_memory_size ->
  twins pthread_convention f g.
Proof.
  intros Hf Hg Hh Hc Hd. eapply twins_call; [done|done|done|]. intros r s w w' Hs.
  pose proof (service_errno _ _ _ _ Hs Hc Hd) as Hr. cbn -[orbis_errno_result].
  rewrite Hh, (wrap64_small r) by (unfold in_u64; lia). pose proof (orbis_errno_reports r) as Ho.
  cbn [reported] in Ho. rewrite Ho by done. destruct (Z.eqb_spec r 0) as [->|]; done.
Qed.

(** A kernel function and the POSIX function of the same error numbers. *)
Lemma kernel_errno_twins f g c :
  answers f (mret (orbis_errno_result kPosixEinval)) c (fun r => mret (orbis_errno_result r)) ->
  answers g (posix_failure kPosixEinval) c posix_result ->
  Service.returns_i64 c = false -> c <> Service.direct_memory_size ->
  twins posix_convention f g.
Proof.
  intros Hf Hg Hc Hd. eapply twins_call; [done|done|done|]. intros r s w w' Hs.
  pose proof (service_errno _ _ _ _ Hs Hc Hd) as Hr. pose proof (orbis_errno_reports r) as Ho.
  cbn [reported] in Ho. unfold posix_result. destruct (Z.eqb_spec r 0) as [->|]; [done|].
  cbn -[orbis_errno_result]. by rewrite Ho.
Qed.

Lemma to_i32_wrap64_id r : 0 <= r < 65536 -> to_i32 (wrap64 r) = r.
Proof.
  intros Hr. rewrite wrap64_small by (unfold in_u64; lia). unfold to_i32.
  rewrite wrap32_small by (unfold in_u32; lia). case_match; bools; lia.
Qed.
End Twins.

(** Unfolds a wrapper into the form of [answers]. *)
Ltac answers_tac :=
  let s := fresh in intros s;
  repeat match goal with |- ?x s = _ => let h := get_head x in
    lazymatch h with @mbind => fail | @fmap => fail | _ => unfold h end end;
  cbv [mbind M_bind fmap M_fmap kernel_services mret M_ret];
  try match goal with |- context [match ?x s with _ => _ end] =>
    let h := get_head x in progress unfold h; cbv [mbind M_bind fmap M_fmap kernel_services mret M_ret] end;
  destruct (hs_manager s && hs_services s); [|reflexivity];
  cbn [negb]; unfold service;
  match goal with |- ?l = ?r => match l with context [service_call ?c _] =>
    match r with context [service_call ?d _] => unify c d end end end;
  destruct (service_call _ _) as [[? ?]|?]; reflexivity.

(** The functions that the libraries export twice: as a kernel function, and
    as a POSIX or a pthread function of the same arguments. *)
Definition twin_functions : list (hle_function * convention * hle_function) :=
  [ (f_kernel_mprotect, posix_convention, f_posix_mprotect);
    (f_kernel_munmap, posix_convention, f_posix_munmap);
    (f_kernel_open, posix_convention, f_posix_open);
    (f_kernel_read, posix_convention, f_posix_read);
    (f_kernel_close, posix_convention, f_posix_close);
    (f_kernel_lseek, posix_convention, f_posix_lseek);
    (f_kernel_stat, posix_convention, f_posix_stat);
    (f_kernel_fstat, posix_convention, f_posix_fstat);
    (f_orbis_mutex_attr_init, pthread_convention, f_mutex_attr_init);
    (f_orbis_mutex_attr_destroy, pthread_convention, f_mutex_attr_destroy);
    (f_orbis_mutex_attr_get_type, pthread_convention, f_mutex_attr_get_type);
    (f_orbis_mutex_attr_set_type, pthread_convention, f_mutex_attr_set_type);
    (f_orbis_mutex_attr_get_pshared, pthread_convention, f_mutex_attr_get_pshared);
    (f_orbis_mutex_attr_set_pshared, pthread_convention, f_mutex_attr_set_pshared);
    (f_orbis_cond_attr_init, pthread_convention, f_cond_attr_init);
    (f_orbis_cond_attr_destroy, pthread_convention, f_cond_attr_destroy);
    (f_orbis_cond_attr_get_clock, pthread_convention, f_cond_attr_get_clock);
    (f_orbis_cond_attr_set_clock, pthread_convention, f_cond_attr_set_clock);
    (f_orbis_cond_attr_get_pshared, pthread_convention, f_cond_attr_get_pshared);
    (f_orbis_cond_attr_set_pshared, pthread_convention, f_cond_attr_set_pshared);
    (f_orbis_mutex_lock, pthread_convention, f_posix_mutex_lock);
    (f_orbis_mutex_unlock, pthread_convention, f_posix_mutex_unlock);
    (f_orbis_mutex_destroy, pthread_convention, f_posix_mutex_destroy);
    (f_orbis_cond_destroy, pthread_convention, f_posix_cond_destroy);
    (f_orbis_cond_wait, pthread_convention, f_posix_cond_wait);
    (f_orbis_cond_reltimed_wait, pthread_convention, f_posix_cond_reltimed_wait);
    (f_orbis_cond_signal, pthread_convention, f_posix_cond_signal);
    (f_orbis_cond_broadcast, pthread_convention, f_posix_cond_broadcast);
    (f_orbis_attr_init, pthread_convention, f_pthread_attr_init);
    (f_orbis_attr_destroy, pthread_convention, f_pthread_attr_destroy);
    (f_orbis_attr_get_stack_size, pthread_convention, f_pthread_attr_get_stack_size);
    (f_orbis_attr_set_stack_size, pthread_convention, f_pthread_attr_set_stack_size);
    (f_orbis_attr_get_detach_state, pthread_convention, f_pthread_attr_get_detach_state);
    (f_orbis_attr_set_detach_state, pthread_convention, f_pthread_attr_set_detach_state);
    (f_sce_kernel_nanosleep, posix_convention, f_posix_nanosleep);
    (f_sce_pthread_sem_destroy, posix_convention, f_posix_sem_destroy);
    (f_sce_pthread_sem_wait, posix_convention, f_posix_sem_wait);
    (f_sce_pthread_sem_try_wait, posix_convention, f_posix_sem_try_wait);
    (f_sce_pthread_sem_timed_wait, posix_convention, f_posix_sem_reltimed_wait);
    (f_sce_pthread_sem_post, posix_convention, f_posix_sem_post);
    (f_sce_pthread_sem_get_value, posix_convention, f_posix_sem_get_value) ].

(** C21: The two conventions agree.  Each of the 41 functions that the
    libraries export both as a kernel function and as a POSIX or a pthread
    function leaves the world in the same state under both names, and reports
    the same error: the kernel's negative code [0x8002xxxx] of an error
    number is, as the other caller sees it, minus one with that [errno], or
    that number; with no error, the two answers are equal.  The absence of
    the services is one of these errors. *)
Theorem twins_report_the_same_error `{HleHostLaws} a :
  length twin_functions = 41%nat /\
  Forall (fun '(f, conv, g) => twins conv (hle_code f a) (hle_code g a)) twin_functions.
Proof.
  split; [reflexivity|]. unfold twin_functions. repeat (apply Forall_cons; split); [..|apply Forall_nil; done];
    cbn [hle_code].
  all: first
    [ eapply (kernel_posix_twins kErrorEinval kPosixEinval); [answers_tac|answers_tac|reflexivity|done|reflexivity]
    | eapply (kernel_posix_twins kErrorEbadf kPosixEbadf); [answers_tac|answers_tac|reflexivity|done|reflexivity]
    | eapply (kernel_pthread_twins (fun r => to_i32 (wrap64 r))); [answers_tac|answers_tac|apply to_i32_wrap64_id|reflexivity|done]
    | eapply (kernel_pthread_twins (fun r => r)); [answers_tac|answers_tac|done|reflexivity|done]
    | eapply kernel_errno_twins; [answers_tac|answers_tac|reflexivity|done] ].
Qed.

(** ** Witnesses *)

(** A host that notes the calls and refuses them all, with EINVAL. *)
Definition refusing : HleHost := {|
  world := list (Service.call + Manager.call);
  service_call c w := Ok (if Service.returns_i64 c then -2147352554 else 22, inl c :: w);
  manager_call c w := Ok (22, inr c :: w);
  current_handle _ := 0x1000;
  steady_now _ := 5000;
  sleep_for _ w := w;
  yield_thread w := w;
  errno_location := 0x2000;
  process_start := 1000;
|}.

Lemma refusing_laws : HleHostLaws refusing.
Proof.
  split; intros c w r w' Hs; cbn in Hs; injection Hs as <- _; intros Hc; rewrite Hc; [done|lia].
Qed.

Definition refusing_state : HleState (@world refusing) := mkHleState true true 0 [].

(** The arguments of a call of [mprotect] whose size has 64 bits and whose
    protection has more than 32. *)
Definition some_arguments : arguments := fun i =>
  match i with 0%nat => 0x400000 | 1%nat => 0xffffffffffff0000 | _ => 0x100000003 end.

Lemma some_arguments_ok i : in_u64 (some_arguments i).
Proof. destruct i as [|[|i]]; done. Qed.

Lemma wrappers_pass_well_typed_arguments_witness :
  @hle_code refusing f_kernel_mprotect some_arguments refusing_state =
    Ok (inl 18446744071562199062, mkHleState true true 0 [inl (Service.mprotect 0x400000 0xffffffffffff0000 3)]) /\
  @hle_code (strict refusing) f_kernel_mprotect some_arguments refusing_state =
    @hle_code refusing f_kernel_mprotect some_arguments refusing_state.
Proof.
  split; [reflexivity|]. apply (wrappers_pass_well_typed_arguments refusing), some_arguments_ok.
Defined.

Lemma register_core_binds_every_export_witness :
  let r := register_core (fun _ => 0x5000) (mkHleRegistry ∅ 0) in
  (forall f : hle_function, (fun _ => 0x5000) f <> 0) /\
  resolve (hr_symbols r) (kernel_key "vSMAm3cxYTY") =
    Some (mkSymbolBinding 0x5000 "sceKernelMprotect" true).
Proof.
  split; [done|].
  destruct (register_core_binds_every_export (fun _ => 0x5000) (mkHleRegistry ∅ 0) ltac:(done) ltac:(cbn; lia)
              ltac:(cbn; lia)) as (_ & _ & _ & _ & Hb).
  apply (Hb (mkExport false (kernel_key "vSMAm3cxYTY") f_kernel_mprotect "sceKernelMprotect")).
  apply (bool_decide_unpack _). vm_compute. reflexivity.
Defined.

Lemma twins_report_the_same_error_witness :
  HleHostLaws refusing /\
  @hle_code refusing f_posix_mprotect some_arguments refusing_state =
    Ok (inl u64_max, mkHleState true true 22 [inl (Service.mprotect 0x400000 0xffffffffffff0000 3)]) /\
  length twin_functions = 41%nat /\
  Forall (fun '(f, conv, g) => @twins refusing conv (hle_code f some_arguments) (hle_code g some_arguments))
    twin_functions.
Proof.
  split; [exact refusing_laws|]. split; [reflexivity|].
  exact (@twins_report_the_same_error refusing refusing_laws some_arguments).
Defined.
