(* ===== verification/HandleTable.v ===== *)
(** * Tables of handles

    The kernel services name every object they make for the guest by a 64-bit
    handle, kept in an [std::unordered_map] next to a counter.  The functions
    [allocate_*_handle_locked] of [src/src/runtime/kernel_services.cpp] are the
    same loop with different constants: skip the reserved numbers and the
    handles in use, eight at a time, from [first] again after the end. *)

From S2P Require Import Prelude.

Local Open Scope Z_scope.

Record table (A : Type) : Type := mkTable { tb_next : Z; tb_entries : gmap Z A }.
Arguments mkTable {A} _ _.
Arguments tb_next {A} _.
Arguments tb_entries {A} _.

Section Allocate.
Context {A : Type}.
Variables (first reserved : Z).

(** The loop, as long as [fuel] lasts. *)
Fixpoint allocate_loop (fuel : nat) (entries : gmap Z A) (next : Z) : option Z :=
  if (next <=? reserved) || bool_decide (is_Some (entries !! next)) then
    match fuel with
    | O => None
    | S fuel =>
        let next := wrap64 (next + 8) in
        allocate_loop fuel entries (if next <? first then first else next)
    end
  else Some next.

(** The loop looks at one handle more than the table holds, after the reserved
    one it may start at. *)
Definition allocate_handle (t : table A) : result (Z * table A) :=
  match allocate_loop (S (size (tb_entries t))) (tb_entries t) (tb_next t) with
  | None => Throw (undefined_behaviour "the handle loop does not end")
  | Some handle => Ok (handle, mkTable (wrap64 (handle + 8)) (tb_entries t))
  end.

Definition emplace (handle : Z) (a : A) (t : table A) : table A :=
  mkTable (tb_next t) (<[handle := a]> (tb_entries t)).

Definition erase (handle : Z) (t : table A) : table A :=
  mkTable (tb_next t) (delete handle (tb_entries t)).

(** ** The loop ends *)

(** The handles are [first], [first + 8], ... below [2^64]. *)
Definition is_handle (h : Z) : Prop := first <= h < u64_mod /\ (h - first) mod 8 = 0.

Record table_wf (t : table A) : Prop := {
  tw_next : tb_next t = 0 \/ is_handle (tb_next t);
  tw_entries h a : tb_entries t !! h = Some a -> is_handle h;
}.

Hypothesis first_ok : 0 <= reserved < first /\ first < 4294967296 /\ first mod 8 = 0.

Definition slots_count : Z := (u64_mod - first) / 8.

(** The [k]-th handle after handle number [i]. *)
Definition nth_handle (i : Z) (k : nat) : Z := first + 8 * ((i + Z.of_nat k) mod slots_count).

Lemma slots_count_eq : first + 8 * slots_count = u64_mod.
Proof. unfold slots_count. destruct first_ok as (? & ? & ?). Z.div_mod_to_equations. lia. Qed.

Lemma nth_handle_ok i k : is_handle (nth_handle i k).
Proof.
  pose proof slots_count_eq. destruct first_ok as (? & ? & ?). unfold nth_handle, is_handle.
  assert (0 <= (i + Z.of_nat k) mod slots_count < slots_count) as Hm by (apply Z.mod_pos_bound; lia).
  split; [lia|]. replace (first + _ - first) with ((i + Z.of_nat k) mod slots_count * 8) by lia.
  by apply Z.mod_mul.
Qed.

Lemma nth_handle_next i k :
  (if wrap64 (nth_handle i k + 8) <? first then first else wrap64 (nth_handle i k + 8))
  = nth_handle (i + 1) k.
Proof.
  pose proof slots_count_eq. destruct first_ok as (? & ? & ?). unfold nth_handle.
  set (n := slots_count) in *. assert (0 < n) by lia.
  replace (i + 1 + Z.of_nat k) with (i + Z.of_nat k + 1) by lia. set (j := i + Z.of_nat k).
  pose proof (Z.mod_pos_bound j n ltac:(lia)).
  destruct (decide (j mod n + 1 = n)) as [He|He].
  - assert ((j + 1) mod n = 0) as ->.
    { rewrite <- Z.add_mod_idemp_l by lia. rewrite He. apply Z.mod_same. lia. }
    replace (first + 8 * (j mod n) + 8) with u64_mod by lia.
    change (wrap64 u64_mod) with 0. destruct (Z.ltb_spec 0 first); lia.
  - assert ((j + 1) mod n = j mod n + 1) as ->.
    { rewrite <- Z.add_mod_idemp_l by lia. apply Z.mod_small. lia. }
    rewrite wrap64_small by (unfold in_u64; lia).
    destruct (Z.ltb_spec (first + 8 * (j mod n) + 8) first); lia.
Qed.

Lemma handle_index h : is_handle h -> exists i, h = nth_handle i 0.
Proof.
  pose proof slots_count_eq. destruct first_ok as (? & ? & ?). intros [Hr Hm].
  exists ((h - first) / 8). unfold nth_handle. rewrite Z.mod_small; Z.div_mod_to_equations; lia.
Qed.

(** The loop answers the first free handle it meets. *)
Lemma allocate_loop_spec fuel entries i :
  (exists k, (k <= fuel)%nat /\ entries !! nth_handle i k = None) ->
  exists h, allocate_loop fuel entries (nth_handle i 0) = Some h /\ is_handle h /\ entries !! h = None.
Proof.
  destruct first_ok as (? & ? & ?).
  revert i. induction fuel as [|fuel IH]; intros i (k & Hk & Hn); cbn [allocate_loop];
    destruct (Z.leb_spec (nth_handle i 0) reserved) as [Hle|_];
    try (pose proof (nth_handle_ok i 0) as [? _]; lia); cbn [orb];
    destruct (entries !! nth_handle i 0) as [x|] eqn:Hx.
  - assert (k = 0%nat) as -> by lia. congruence.
  - rewrite bool_decide_false by (by intros []). eexists. split; [done|]. split; [apply nth_handle_ok|done].
  - rewrite bool_decide_true by done. rewrite nth_handle_next. apply IH.
    destruct k as [|k]; [congruence|]. exists k. split; [lia|]. rewrite <- Hn. unfold nth_handle.
    do 4 f_equal. lia.
  - rewrite bool_decide_false by (by intros []). eexists. split; [done|]. split; [apply nth_handle_ok|done].
Qed.

(** Among one more handle than the table has entries, one is free. *)
Lemma free_handle entries i :
  Z.of_nat (size entries) < slots_count ->
  exists k, (k <= size entries)%nat /\ (entries : gmap Z A) !! nth_handle i k = None.
Proof.
  intros Hs. pose proof slots_count_eq. destruct first_ok as (? & ? & ?).
  set (ks := seq 0 (S (size entries))).
  destruct (decide (Forall (fun k => nth_handle i k ∈ dom entries) ks)) as [Hall|Hex].
  - exfalso. assert (NoDup (nth_handle i <$> ks)) as Hnd.
    { apply NoDup_fmap_2_strong; [|apply NoDup_seq]. intros x y Hx Hy Hxy.
      apply elem_of_seq in Hx, Hy. unfold nth_handle in Hxy.
      assert ((i + Z.of_nat x) mod slots_count = (i + Z.of_nat y) mod slots_count) as Hm by lia.
      assert ((Z.of_nat x - Z.of_nat y) mod slots_count = 0) as Hz.
      { replace (Z.of_nat x - Z.of_nat y) with ((i + Z.of_nat x) - (i + Z.of_nat y)) by lia.
        by rewrite Zminus_mod, Hm, Z.sub_diag, Z.mod_0_l by lia. }
      apply Z.mod_divide in Hz as [q Hq]; [|lia]. assert (q = 0) as -> by nia. lia. }
    assert ((nth_handle i <$> ks) ⊆+ elements (dom entries)) as Hsub.
    { apply NoDup_submseteq; [done|]. intros h (k & -> & Hk)%list_elem_of_fmap.
      rewrite Forall_forall in Hall. apply elem_of_elements. by apply Hall. }
    apply submseteq_length in Hsub. rewrite length_fmap in Hsub. unfold ks in Hsub.
    rewrite length_seq in Hsub. change (length (elements (dom entries))) with (size (dom entries)) in Hsub.
    rewrite size_dom in Hsub. lia.
  - apply not_Forall_Exists in Hex; [|apply _]. apply Exists_exists in Hex as (k & Hk & Hn).
    exists k. split; [apply elem_of_seq in Hk; lia|]. by apply not_elem_of_dom.
Qed.

Lemma after_zero : (if wrap64 (0 + 8) <? first then first else wrap64 (0 + 8)) = nth_handle 0 0.
Proof.
  pose proof slots_count_eq. destruct first_ok as (? & ? & ?). change (wrap64 (0 + 8)) with 8.
  unfold nth_handle. rewrite Z.mod_0_l by lia. destruct (Z.ltb_spec 8 first); [lia|].
  Z.div_mod_to_equations. lia.
Qed.

(** Whatever the table holds, an answer is a free handle. *)
Lemma allocate_loop_sound fuel entries next h :
  next = 0 \/ is_handle next -> allocate_loop fuel entries next = Some h ->
  is_handle h /\ (entries : gmap Z A) !! h = None.
Proof.
  destruct first_ok as (? & ? & ?).
  revert next. induction fuel as [|fuel IH]; intros next Hn; cbn [allocate_loop];
    destruct (Z.leb_spec next reserved) as [Hle|Hlt]; cbn [orb];
    try (destruct (entries !! next) as [x|] eqn:Hx;
      [rewrite bool_decide_true by done|rewrite bool_decide_false by (by intros [])]);
    try done; try (intros [= <-]; split; [destruct Hn; [lia|done]|done]).
  all: apply IH; right; destruct Hn as [->|[i ->]%handle_index];
    [rewrite after_zero|rewrite nth_handle_next]; apply nth_handle_ok.
Qed.

Lemma allocate_handle_Ok t h t' :
  table_wf t -> allocate_handle t = Ok (h, t') ->
  is_handle h /\ tb_entries t !! h = None /\ tb_entries t' = tb_entries t /\ table_wf t'.
Proof.
  intros [Hn He]. unfold allocate_handle. destruct (allocate_loop _ _ _) as [x|] eqn:El; [|done].
  intros [= <- <-]. destruct (allocate_loop_sound _ _ _ _ Hn El) as [Hh Hf]. split_and!; try done.
  split; cbn; [|done]. destruct Hh as [Hr Hm], first_ok as (? & ? & ?). destruct (decide (x + 8 < u64_mod)).
  - right. rewrite wrap64_small by (unfold in_u64; lia). split; [lia|].
    replace (x + 8 - first) with (x - first + 1 * 8) by lia. by rewrite Z.mod_add.
  - left. assert (x + 8 = u64_mod) as -> by (Z.div_mod_to_equations; lia). done.
Qed.

(** [allocate_handle] ends and answers a fresh handle while the table has room. *)
Lemma allocate_handle_fresh t :
  table_wf t -> Z.of_nat (size (tb_entries t)) < slots_count ->
  exists h t', allocate_handle t = Ok (h, t') /\ is_handle h /\ tb_entries t !! h = None /\
    tb_entries t' = tb_entries t /\ table_wf t'.
Proof.
  intros Ht Hs. assert (exists h, allocate_loop (S (size (tb_entries t))) (tb_entries t) (tb_next t) = Some h)
    as [h Hl].
  { destruct Ht as [Hn _]. destruct Hn as [->|[i ->]%handle_index].
    - cbn [allocate_loop]. destruct first_ok as (? & _). destruct (Z.leb_spec 0 reserved); [|lia].
      cbn [orb]. rewrite after_zero. edestruct allocate_loop_spec as (h & -> & _); [|by exists h].
      by apply free_handle.
    - destruct (free_handle (tb_entries t) i Hs) as (k & Hk & Hk').
      edestruct allocate_loop_spec as (h & -> & _); [|by exists h]. exists k. split; [lia|done]. }
  assert (allocate_handle t = Ok (h, mkTable (wrap64 (h + 8)) (tb_entries t))) as E
    by (unfold allocate_handle; by rewrite Hl).
  exists h. eexists. split; [exact E|]. by apply allocate_handle_Ok.
Qed.

Lemma emplace_wf t h a : table_wf t -> is_handle h -> table_wf (emplace h a t).
Proof.
  intros [Hn He] Hh. split; cbn; [done|]. intros k b. destruct (decide (h = k)) as [<-|].
  - by rewrite lookup_insert_eq.
  - rewrite lookup_insert_ne by done. apply He.
Qed.

Lemma erase_wf t h : table_wf t -> table_wf (erase h t).
Proof.
  intros [Hn He]. split; cbn; [done|]. intros k b [_ Hk]%lookup_delete_Some. by eapply He.
Qed.

End Allocate.
