(* ===== verification/KernelAttrs.v ===== *)
(** * Thread, mutex and condition attributes

    The attribute objects of [src/src/runtime/kernel_services.cpp] (lines
    1723 to 1975 and 2181 to 2305).  The guest holds an attribute object as a
    handle in a word of its own memory; the services keep the attributes in a
    table.  The three families are the same handlers over different attributes,
    written once in [Family] over any [GuestWords] memory; every handler takes
    and returns the memory and the table and answers the POSIX error. *)

From S2P Require Import Prelude NativeArena GuestMemory GuestMemoryProps KernelMem HandleTable.

Local Open Scope Z_scope.

Record ThreadAttributes : Type := mkThreadAttributes { stack_size : Z; detached : bool }.
Record MutexAttributes : Type := mkMutexAttributes { ma_type : Z; ma_pshared : Z }.
Record CondAttributes : Type := mkCondAttributes { ca_clock_id : Z; ca_pshared : Z }.

Definition kDefaultThreadStackSize := 1024 * 1024.
Definition kMinimumThreadStackSize := 16 * 1024.

Definition kMutexTypeErrorCheck := 1.
Definition kMutexTypeRecursive := 2.
Definition kMutexTypeNormal := 3.
Definition kMutexTypeAdaptive := 4.

Definition kClockRealtime := 0.
Definition kClockVirtual := 1.
Definition kClockProf := 2.
Definition kClockMonotonic := 4.

Definition supported_mutex_type (type : Z) : bool :=
  (kMutexTypeErrorCheck <=? type) && (type <=? kMutexTypeAdaptive).

Definition supported_cond_clock (clock_id : Z) : bool :=
  (clock_id =? kClockRealtime) || (clock_id =? kClockVirtual) || (clock_id =? kClockProf)
  || (clock_id =? kClockMonotonic).

Section Attributes.
Context {M : Type} `{GuestWords M}.

(** What a handler of a family works on and answers. *)
Abbreviation answer A := (result (Z * (M * table A))).

Section Family.
Context {A : Type}.
Variables (first : Z) (default : A).

Definition attr_init (m : M) (t : table A) (slot_address : Z) : answer A :=
  if (slot_address =? 0) || negb (gw_writable m slot_address 8) then Ok (kPosixEinval, (m, t))
  else
    '(handle, t) ← allocate_handle first 0 t;
    let t := emplace handle default t in
    '(ok, m) ← gw_write64 m slot_address handle;
    if negb ok then Ok (kPosixEinval, (m, erase handle t)) else Ok (0, (m, t)).

Definition attr_destroy (m : M) (t : table A) (slot_address : Z) : answer A :=
  if (slot_address =? 0) || negb (gw_writable m slot_address 8) then Ok (kPosixEinval, (m, t))
  else
    match gw_read64 m slot_address with
    | None => Ok (kPosixEinval, (m, t))
    | Some handle =>
        match tb_entries t !! handle with
        | None => Ok (kPosixEinval, (m, t))
        | Some _ =>
            '(ok, m) ← gw_write64 m slot_address 0;
            if negb ok then Ok (kPosixEinval, (m, t)) else Ok (0, (m, erase handle t))
        end
    end.

(** The attributes a slot designates; [inl] is the error. *)
Definition attr_snapshot (m : M) (t : table A) (slot_address : Z) : Z + A :=
  if slot_address =? 0 then inl kPosixEinval
  else
    match gw_read64 m slot_address with
    | None => inl kPosixEinval
    | Some handle =>
        match tb_entries t !! handle with
        | None => inl kPosixEinval
        | Some attributes => inr attributes
        end
    end.

(** The getters: a value of the attributes, stored as a 32-bit word. *)
Definition attr_get32 (value : A -> Z) (m : M) (t : table A) (slot_address output_address : Z)
  : answer A :=
  if negb (gw_writable m output_address 4) then Ok (kPosixEinval, (m, t))
  else
    match attr_snapshot m t slot_address with
    | inl error => Ok (error, (m, t))
    | inr attributes =>
        '(ok, m) ← gw_write32 m output_address (value attributes);
        Ok (if ok : bool then 0 else kPosixEinval, (m, t))
    end.

Definition attr_get64 (value : A -> Z) (m : M) (t : table A) (slot_address output_address : Z)
  : answer A :=
  if negb (gw_writable m output_address 8) then Ok (kPosixEinval, (m, t))
  else
    match attr_snapshot m t slot_address with
    | inl error => Ok (error, (m, t))
    | inr attributes =>
        '(ok, m) ← gw_write64 m output_address (value attributes);
        Ok (if ok : bool then 0 else kPosixEinval, (m, t))
    end.

(** The setters, after the validation of the value. *)
Definition attr_set (valid : bool) (update : A -> A) (m : M) (t : table A) (slot_address : Z)
  : answer A :=
  if negb valid then Ok (kPosixEinval, (m, t))
  else
    match gw_read64 m slot_address with
    | None => Ok (kPosixEinval, (m, t))
    | Some handle =>
        match tb_entries t !! handle with
        | None => Ok (kPosixEinval, (m, t))
        | Some attributes => Ok (0, (m, emplace handle (update attributes) t))
        end
    end.

End Family.

(** ** Threads *)

Definition thread_attr_first := 0x20000.

Definition thread_attr_init (m : M) (t : table ThreadAttributes) (slot_address : Z) :=
  attr_init thread_attr_first (mkThreadAttributes kDefaultThreadStackSize false) m t slot_address.
Definition thread_attr_destroy (m : M) (t : table ThreadAttributes) (slot_address : Z) :=
  attr_destroy m t slot_address.
Definition thread_attr_snapshot (m : M) (t : table ThreadAttributes) (slot_address : Z) :=
  attr_snapshot m t slot_address.
Definition thread_attr_get_stack_size (m : M) (t : table ThreadAttributes)
    (slot_address output_address : Z) := attr_get64 stack_size m t slot_address output_address.
Definition thread_attr_set_stack_size (m : M) (t : table ThreadAttributes)
    (slot_address size : Z) :=
  attr_set (negb (size <? kMinimumThreadStackSize))
    (fun a => mkThreadAttributes size (detached a)) m t slot_address.
Definition thread_attr_get_detach_state (m : M) (t : table ThreadAttributes)
    (slot_address output_address : Z) :=
  attr_get32 (fun a => if detached a then 1 else 0) m t slot_address output_address.
Definition thread_attr_set_detach_state (m : M) (t : table ThreadAttributes)
    (slot_address detach_state : Z) :=
  attr_set (negb (negb (detach_state =? 0) && negb (detach_state =? 1)))
    (fun a => mkThreadAttributes (stack_size a) (negb (detach_state =? 0))) m t slot_address.

(** ** Mutexes *)

Definition mutex_attr_first := 0x60000.

Definition mutex_attr_init (m : M) (t : table MutexAttributes) (slot_address : Z) :=
  attr_init mutex_attr_first (mkMutexAttributes kMutexTypeErrorCheck 0) m t slot_address.
Definition mutex_attr_destroy (m : M) (t : table MutexAttributes) (slot_address : Z) :=
  attr_destroy m t slot_address.
Definition mutex_attr_snapshot (m : M) (t : table MutexAttributes) (slot_address : Z) :=
  attr_snapshot m t slot_address.
Definition mutex_attr_get_type (m : M) (t : table MutexAttributes)
    (slot_address output_address : Z) := attr_get32 ma_type m t slot_address output_address.
Definition mutex_attr_set_type (m : M) (t : table MutexAttributes) (slot_address type : Z) :=
  attr_set (supported_mutex_type type) (fun a => mkMutexAttributes type (ma_pshared a))
    m t slot_address.
Definition mutex_attr_get_pshared (m : M) (t : table MutexAttributes)
    (slot_address output_address : Z) :=
  attr_get32 (fun a => wrap32 (ma_pshared a)) m t slot_address output_address.
Definition mutex_attr_set_pshared (m : M) (t : table MutexAttributes) (slot_address pshared : Z) :=
  attr_set (pshared =? 0) (fun a => mkMutexAttributes (ma_type a) 0) m t slot_address.

(** ** Condition variables *)

Definition cond_attr_first := 0x30000.

Definition cond_attr_init (m : M) (t : table CondAttributes) (slot_address : Z) :=
  attr_init cond_attr_first (mkCondAttributes 0 0) m t slot_address.
Definition cond_attr_destroy (m : M) (t : table CondAttributes) (slot_address : Z) :=
  attr_destroy m t slot_address.
Definition cond_attr_snapshot (m : M) (t : table CondAttributes) (slot_address : Z) :=
  attr_snapshot m t slot_address.
Definition cond_attr_get_clock (m : M) (t : table CondAttributes)
    (slot_address output_address : Z) := attr_get32 ca_clock_id m t slot_address output_address.
Definition cond_attr_set_clock (m : M) (t : table CondAttributes) (slot_address clock_id : Z) :=
  attr_set (supported_cond_clock clock_id) (fun a => mkCondAttributes clock_id (ca_pshared a))
    m t slot_address.
Definition cond_attr_get_pshared (m : M) (t : table CondAttributes)
    (slot_address output_address : Z) :=
  attr_get32 (fun a => wrap32 (ca_pshared a)) m t slot_address output_address.
Definition cond_attr_set_pshared (m : M) (t : table CondAttributes) (slot_address pshared : Z) :=
  attr_set (pshared =? 0) (fun a => mkCondAttributes (ca_clock_id a) 0) m t slot_address.

(** ** What a slot designates *)

Section Family.
Context `{!GuestWordsLaws M} {A : Type}.
Implicit Types (m : M) (t : table A).

Definition designated m t (slot : Z) : option A := handle ← gw_read64 m slot; tb_entries t !! handle.

Lemma attr_snapshot_designated m t slot :
  attr_snapshot m t slot =
    if slot =? 0 then inl kPosixEinval
    else match designated m t slot with Some a => inr a | None => inl kPosixEinval end.
Proof.
  unfold attr_snapshot, designated. destruct (slot =? 0); [done|].
  destruct (gw_read64 m slot) as [h|]; [|done]. cbn. by destruct (tb_entries t !! h).
Qed.

(** A slot where a handler creates or destroys an object. *)
Definition usable m (slot : Z) : bool := negb ((slot =? 0) || negb (gw_writable m slot 8)).

Lemma attr_init_spec first (default : A) m t slot :
  0 < first < 4294967296 -> first mod 8 = 0 -> gw_wf m -> table_wf first t ->
  Z.of_nat (size (tb_entries t)) < slots_count first ->
  exists code m' t', attr_init first default m t slot = Ok (code, (m', t')) /\
    gw_wf m' /\ table_wf first t' /\
    if usable m slot then
      code = 0 /\ designated m' t' slot = Some default /\
      forall s a, words_apart slot s -> designated m t s = Some a -> designated m' t' s = Some a
    else code = kPosixEinval /\ m' = m /\ t' = t.
Proof.
  intros Hf1 Hf2 Hm Ht Hs. unfold attr_init, usable.
  destruct ((slot =? 0) || negb (gw_writable m slot 8)) eqn:Eu; cbn [negb].
  { by exists kPosixEinval, m, t. }
  apply orb_false_iff in Eu as [_ Hw%negb_false_iff].
  destruct (allocate_handle_fresh first 0 ltac:(split; [lia|split; [lia|done]]) t Ht Hs)
    as (h & t1 & -> & Hh & Hfree & He & Ht1). cbn.
  assert (in_u64 h) as Hu by (destruct Hh; unfold in_u64; lia).
  destruct (gw_write64_ok m slot h Hm Hu) as (ok & m' & -> & Hse & Hrd). cbn.
  destruct Hse as [Hok Hwf Hwb Hfl Hoth]. rewrite Hw in Hok. subst ok. cbn.
  do 3 eexists. split; [done|]. split; [done|]. split; [by apply emplace_wf|].
  split; [done|]. unfold designated. rewrite (Hrd eq_refl). cbn. split.
  { apply lookup_insert_eq. }
  intros s a Hap. rewrite (Hoth s Hap). destruct (gw_read64 m s) as [k|]; [|done]. cbn. intros Hk.
  rewrite He, lookup_insert_ne; [done|]. intros ->. congruence.
Qed.

Lemma attr_destroy_spec first m t slot :
  0 < first < 4294967296 -> gw_wf m -> table_wf first t ->
  exists code m' t', attr_destroy m t slot = Ok (code, (m', t')) /\
    gw_wf m' /\ table_wf first t' /\
    if usable m slot && isSome (designated m t slot) then
      code = 0 /\ designated m' t' slot = None /\
      forall s, words_apart slot s ->
        designated m' t' s =
          if decide (gw_read64 m s = gw_read64 m slot) then None else designated m t s
    else code = kPosixEinval /\ m' = m /\ t' = t.
Proof.
  intros Hf Hm Ht. unfold attr_destroy, usable.
  destruct ((slot =? 0) || negb (gw_writable m slot 8)) eqn:Eu; cbn [negb andb].
  { by exists kPosixEinval, m, t. }
  apply orb_false_iff in Eu as [_ Hw%negb_false_iff]. unfold designated at 1.
  destruct (gw_read64 m slot) as [h|] eqn:Hr; cbn; [|by exists kPosixEinval, m, t].
  destruct (tb_entries t !! h) as [a|] eqn:Ha; cbn; [|by exists kPosixEinval, m, t].
  destruct (gw_write64_ok m slot 0 Hm ltac:(done)) as (ok & m' & -> & Hse & Hrd). cbn.
  destruct Hse as [Hok Hwf Hwb Hfl Hoth]. rewrite Hw in Hok. subst ok. cbn.
  do 3 eexists. split; [done|]. split; [done|]. split; [by apply erase_wf|].
  split; [done|]. unfold designated. rewrite (Hrd eq_refl). cbn. split.
  { destruct (delete h (tb_entries t) !! 0) as [b|] eqn:H0; [|done].
    apply lookup_delete_Some in H0 as [_ H0]. apply (tw_entries _ _ Ht) in H0. destruct H0. lia. }
  intros s Hap. rewrite (Hoth s Hap). destruct (gw_read64 m s) as [k|]; cbn; [|by case_decide].
  case_decide as Hd; [injection Hd as ->; apply lookup_delete_eq|].
  apply lookup_delete_ne. congruence.
Qed.

(** The setters: a valid value on a live object changes that object alone. *)
Lemma attr_set_spec first valid (update : A -> A) m t slot :
  table_wf first t ->
  exists code t', attr_set valid update m t slot = Ok (code, (m, t')) /\ table_wf first t' /\
    match designated m t slot with
    | Some a =>
        if valid : bool then
          code = 0 /\ forall s, designated m t' s =
            if decide (gw_read64 m s = gw_read64 m slot) then Some (update a) else designated m t s
        else code = kPosixEinval /\ t' = t
    | None => code = kPosixEinval /\ t' = t
    end.
Proof.
  intros Ht. unfold attr_set, designated. destruct valid; cbn [negb].
  2: { exists kPosixEinval, t. split; [done|]. split; [done|]. by destruct (gw_read64 m slot ≫= _). }
  destruct (gw_read64 m slot) as [h|]; cbn; [|by exists kPosixEinval, t].
  destruct (tb_entries t !! h) as [a|] eqn:Ha; [|by exists kPosixEinval, t].
  exists 0, (emplace h (update a) t). split; [done|]. split.
  { apply emplace_wf; [done|]. by apply (tw_entries _ _ Ht) in Ha. }
  split; [done|]. intros s. destruct (gw_read64 m s) as [k|]; cbn; [|by rewrite decide_False].
  case_decide as Hd; [injection Hd as ->; apply lookup_insert_eq|].
  apply lookup_insert_ne. congruence.
Qed.

Lemma attr_get_spec (wide : bool) (value : A -> Z) m t slot output :
  gw_wf m -> (forall a, in_u64 (value a)) ->
  exists code m',
    (if wide then attr_get64 value m t slot output else attr_get32 value m t slot output)
      = Ok (code, (m', t)) /\ gw_wf m' /\
    match (if gw_writable m output (if wide then 8 else 4) then attr_snapshot m t slot
           else inl kPosixEinval) with
    | inl error => code = error /\ m' = m
    | inr a => code = 0 /\ (wide = true -> gw_read64 m' output = Some (value a)) /\
        forall s, words_apart output s -> gw_read64 m' s = gw_read64 m s
    end.
Proof.
  intros Hm Hv. destruct wide; [unfold attr_get64|unfold attr_get32].
  - destruct (gw_writable m output 8) eqn:Hw; cbn [negb]; [|by exists kPosixEinval, m].
    destruct (attr_snapshot m t slot) as [e|a]; [by exists e, m|].
    destruct (gw_write64_ok m output (value a) Hm (Hv a)) as (ok & m' & -> & Hse & Hrd). cbn.
    destruct Hse as [Hok Hwf Hwb Hfl Hoth]. rewrite Hw in Hok. subst ok. exists 0, m'.
    split_and!; auto.
  - destruct (gw_writable m output 4) eqn:Hw; cbn [negb]; [|by exists kPosixEinval, m].
    destruct (attr_snapshot m t slot) as [e|a]; [by exists e, m|].
    destruct (gw_write32_ok m output (value a) Hm) as (ok & m' & -> & Hse). cbn.
    destruct Hse as [Hok Hwf Hwb Hfl Hoth]. rewrite Hw in Hok. subst ok. exists 0, m'.
    split_and!; auto; done.
Qed.

End Family.

(** the life of an attribute object.  Creating one always ends; it
    succeeds exactly on a writable nonzero slot, which then designates the
    defaults, and no live object of another slot changes.  Destroying one
    succeeds exactly on a writable nonzero slot that designates an object; the
    slot then designates nothing, other objects stay.  Every failure is
    [EINVAL] and changes nothing.  (Stated for the three families.) *)
Theorem attribute_objects_live_and_die `{!GuestWordsLaws M} (m : M) slot :
  gw_wf m ->
  let family {A} (first : Z) (default : A) (init destroy : M -> table A -> Z -> answer A) :=
    forall t, table_wf first t -> Z.of_nat (size (tb_entries t)) < 2 ^ 60 ->
    (exists code m' t', init m t slot = Ok (code, (m', t')) /\ gw_wf m' /\ table_wf first t' /\
      if usable m slot then
        code = 0 /\ designated m' t' slot = Some default /\
        forall s a, words_apart slot s -> designated m t s = Some a -> designated m' t' s = Some a
      else code = kPosixEinval /\ m' = m /\ t' = t) /\
    (exists code m' t', destroy m t slot = Ok (code, (m', t')) /\ gw_wf m' /\ table_wf first t' /\
      if usable m slot && isSome (designated m t slot) then
        code = 0 /\ designated m' t' slot = None /\
        forall s, words_apart slot s -> designated m' t' s =
          if decide (gw_read64 m s = gw_read64 m slot) then None else designated m t s
      else code = kPosixEinval /\ m' = m /\ t' = t) in
  family thread_attr_first (mkThreadAttributes 1048576 false) thread_attr_init thread_attr_destroy /\
  family mutex_attr_first (mkMutexAttributes kMutexTypeErrorCheck 0) mutex_attr_init mutex_attr_destroy /\
  family cond_attr_first (mkCondAttributes kClockRealtime 0) cond_attr_init cond_attr_destroy.
Proof.
  intros Hm. cbv zeta. split_and!; intros t Ht Hs; (split;
    [apply attr_init_spec; [done|done|done|done|]|by eapply attr_destroy_spec]);
    eapply Z.lt_trans; [exact Hs|reflexivity|exact Hs|reflexivity|exact Hs|reflexivity].
Qed.

(** the setters and what is read back.  A setter answers 0 exactly for a
    value it accepts on a slot that designates an object, and then exactly the
    objects with that handle change, in exactly the field that was set; otherwise
    it answers [EINVAL] and changes nothing.  The stack size is at least 16 KiB,
    the detach state 0 or 1, the mutex type one of the four types, the clock one
    of the four clocks, and sharing between processes is refused. *)
Theorem attribute_setters_update_one_object `{!GuestWordsLaws M} (m : M) slot value :
  let sets {A} (first : Z) (set : M -> table A -> Z -> Z -> answer A) (valid : Prop)
      (update : A -> A) :=
    forall t, table_wf first t ->
    exists code t', set m t slot value = Ok (code, (m, t')) /\ table_wf first t' /\
      ((code = 0 /\ valid /\ exists a, designated m t slot = Some a /\
         forall s, designated m t' s =
           if decide (gw_read64 m s = gw_read64 m slot) then Some (update a) else designated m t s) \/
       (code = kPosixEinval /\ t' = t /\ (~ valid \/ designated m t slot = None))) in
  sets thread_attr_first thread_attr_set_stack_size (16384 <= value)
    (fun a => mkThreadAttributes value (detached a)) /\
  sets thread_attr_first thread_attr_set_detach_state (value = 0 \/ value = 1)
    (fun a => mkThreadAttributes (stack_size a) (bool_decide (value = 1))) /\
  sets mutex_attr_first mutex_attr_set_type (1 <= value <= 4)
    (fun a => mkMutexAttributes value (ma_pshared a)) /\
  sets mutex_attr_first mutex_attr_set_pshared (value = 0) (fun a => mkMutexAttributes (ma_type a) 0) /\
  sets cond_attr_first cond_attr_set_clock (value = 0 \/ value = 1 \/ value = 2 \/ value = 4)
    (fun a => mkCondAttributes value (ca_pshared a)) /\
  sets cond_attr_first cond_attr_set_pshared (value = 0) (fun a => mkCondAttributes (ca_clock_id a) 0).
Proof.
  assert (forall {A} first (b : bool) (valid : Prop) (update update' : A -> A) t,
    (b = true <-> valid) -> (valid -> forall a, update a = update' a) -> table_wf first t ->
    exists code t', attr_set b update m t slot = Ok (code, (m, t')) /\ table_wf first t' /\
      ((code = 0 /\ valid /\ exists a, designated m t slot = Some a /\
         forall s, designated m t' s =
           if decide (gw_read64 m s = gw_read64 m slot) then Some (update' a) else designated m t s) \/
       (code = kPosixEinval /\ t' = t /\ (~ valid \/ designated m t slot = None)))) as Hset.
  { intros A first b valid update update' t Hb Hu Ht.
    destruct (attr_set_spec first b update m t slot Ht) as (code & t' & -> & Ht' & Hm).
    exists code, t'. split; [done|]. split; [done|].
    destruct (designated m t slot) as [a|]; [destruct b|].
    - destruct Hm as [-> Hd]. left. apply Hb in Hb as Hv || pose proof (proj1 Hb eq_refl) as Hv.
      split; [done|]. split; [done|]. exists a. split; [done|]. intros s. rewrite Hd. by rewrite Hu.
    - destruct Hm as [-> ->]. right. split_and!; [done..|]. left. intros Hv%Hb. done.
    - destruct Hm as [-> ->]. right. split_and!; auto. }
  cbv zeta. split_and!; intros t Ht; apply Hset; try done; clear.
  - rewrite negb_true_iff, Z.ltb_ge. done.
  - rewrite negb_true_iff, andb_false_iff, !negb_false_iff, !Z.eqb_eq. done.
  - intros [-> | ->]; done.
  - unfold supported_mutex_type. rewrite andb_true_iff, !Z.leb_le. done.
  - apply Z.eqb_eq.
  - unfold supported_cond_clock. rewrite !orb_true_iff, !Z.eqb_eq.
    unfold kClockRealtime, kClockVirtual, kClockProf, kClockMonotonic. tauto.
  - apply Z.eqb_eq.
Qed.

End Attributes.

(** ** Witnesses *)

#[local] Existing Instance tiny_host.
#[local] Existing Instance tiny_host_laws.

Definition thread_table_init : table ThreadAttributes := mkTable thread_attr_first ∅.

Lemma table_init_wf {A} first : 0 < first < 4294967296 -> table_wf first (@mkTable A first ∅).
Proof.
  intros Hf. split; cbn; [|intros h a; by rewrite lookup_empty].
  right. split; [lia|]. by rewrite Z.sub_diag.
Qed.

Lemma tiny_buffered_ok : space_ok tiny_buffered.
Proof. split; [apply reachable_wf, tiny_buffered_reachable|]. intros a c Hn. done. Qed.

Lemma attribute_objects_live_and_die_witness :
  exists m t, thread_attr_init tiny_buffered thread_table_init 96 = Ok (0, (m, t)) /\
    designated m t 96 = Some (mkThreadAttributes 1048576 false).
Proof.
  destruct (attribute_objects_live_and_die tiny_buffered 96) as (Ht & _ & _);
    [exact tiny_buffered_ok|].
  destruct (Ht thread_table_init) as ((code & m & t & E & _ & _ & Hu) & _);
    [by apply table_init_wf|done|].
  assert (usable tiny_buffered 96 = true) as Hus by reflexivity. rewrite Hus in Hu.
  destruct Hu as (-> & Hd & _). exists m, t. split; [exact E|exact Hd].
Defined.

Lemma attribute_setters_update_one_object_witness :
  exists m t code t', thread_attr_init tiny_buffered thread_table_init 96 = Ok (0, (m, t)) /\
    thread_attr_set_stack_size m t 96 65536 = Ok (code, (m, t')).
Proof.
  destruct (attribute_objects_live_and_die_witness) as (m & t & E & _). exists m, t.
  assert (table_wf thread_attr_first t) as Ht.
  { destruct (attr_init_spec thread_attr_first (mkThreadAttributes kDefaultThreadStackSize false)
      tiny_buffered thread_table_init 96) as (? & ? & ? & E' & _ & Ht & _);
      [done|done|exact tiny_buffered_ok|by apply table_init_wf|done|].
    unfold thread_attr_init in E. rewrite E' in E. injection E as _ _ <-. exact Ht. }
  destruct (attribute_setters_update_one_object m 96 65536) as (Hs & _).
  destruct (Hs t Ht) as (code & t' & E' & _). by exists code, t'.
Defined.
