(* ===== verification/KernelTime.v ===== *)
(** * Clocks, timeouts and sleeping

    The time arithmetic of [src/src/runtime/kernel_services.cpp] (lines 165
    to 248 and 2642 to 2699).  [std::chrono] counts are 64-bit signed; [i64]
    marks every operation whose overflow would be undefined.  What the host's
    clocks answer is a [ClockReading]. *)

From S2P Require Import Prelude OrdMap NativeArena GuestMemory GuestMemoryProps KernelMem KernelAttrs.

Local Open Scope Z_scope.

Definition i64 (z : Z) : result Z :=
  throw_if ((z <? -9223372036854775808) || (i64_max <? z)) (undefined_behaviour "signed overflow") ;;
  Ok z.

Definition max_ns := i64_max.
Definition max_seconds := max_ns / 1000000000.

(** The clocks of the host at some moment: nanoseconds since the epoch, and
    user and system times (seconds, microseconds) when [getrusage] answers. *)
Record ClockReading : Type := mkClockReading {
  system_now : Z;
  steady_now : Z;
  rusage : option ((Z * Z) * (Z * Z));
}.

(** [split_duration]: [duration_cast] truncates towards zero. *)
Definition split_duration (duration : Z) : Z * Z :=
  (Z.quot duration 1000000000, Z.rem duration 1000000000).

Definition clock_now (now : ClockReading) (clock_id : Z) : result (option (Z * Z)) :=
  if clock_id =? kClockRealtime then Ok (Some (split_duration (system_now now)))
  else if clock_id =? kClockMonotonic then Ok (Some (split_duration (steady_now now)))
  else if negb (clock_id =? kClockVirtual) && negb (clock_id =? kClockProf) then Ok None
  else
    match rusage now with
    | None => Ok None
    | Some (utime, stime) =>
        let selected := if clock_id =? kClockVirtual then utime else stime in
        nanoseconds ← i64 (selected.2 * 1000);
        Ok (Some (selected.1, nanoseconds))
    end.

Definition remaining_until (deadline_seconds deadline_nanoseconds now_seconds now_nanoseconds : Z)
  : result Z :=
  if (deadline_seconds <? now_seconds)
     || ((deadline_seconds =? now_seconds) && (deadline_nanoseconds <=? now_nanoseconds))
  then Ok 0
  else
    seconds ← i64 (deadline_seconds - now_seconds);
    nanoseconds ← i64 (deadline_nanoseconds - now_nanoseconds);
    '(seconds, nanoseconds) ←
      (if nanoseconds <? 0 then
         seconds ← i64 (seconds - 1); nanoseconds ← i64 (nanoseconds + 1000000000);
         Ok (seconds, nanoseconds)
       else Ok (seconds, nanoseconds));
    if max_seconds <? seconds then Ok max_ns
    else
      base ← i64 (seconds * 1000000000);
      room ← i64 (max_ns - base);
      if room <? nanoseconds then Ok max_ns else i64 (base + nanoseconds).

Definition relative_timeout (microseconds : Z) : result Z :=
  let max_us := max_ns / 1000 in
  if max_us <? microseconds then Ok max_ns else i64 (microseconds * 1000).

(** The checks the handlers make of a timespec. *)
Definition valid_timespec (value : GuestTimespec) : bool :=
  negb ((ts_seconds value <? 0) || (ts_nanoseconds value <? 0)
        || (1000000000 <=? ts_nanoseconds value)).

(** The deadline of a valid timespec, in nanoseconds since the epoch. *)
Definition deadline_of (value : GuestTimespec) : result Z :=
  if max_seconds <? ts_seconds value then Ok max_ns
  else
    seconds_part ← i64 (ts_seconds value * 1000000000);
    room ← i64 (max_ns - seconds_part);
    if room <? ts_nanoseconds value then Ok max_ns else i64 (seconds_part + ts_nanoseconds value).

(** [realtime_deadline]: the error, and the deadline when it is 0. *)
Definition realtime_deadline {M} `{GuestWords M} (m : M) (timespec_address : Z) : result (Z * option Z) :=
  match gw_read_timespec m timespec_address with
  | None => Ok (kPosixEinval, None)
  | Some value =>
      if negb (valid_timespec value) then Ok (kPosixEinval, None)
      else deadline ← deadline_of value; Ok (0, Some deadline)
  end.

(** How long [nanosleep] sleeps. *)
Definition sleep_duration (request : GuestTimespec) : result Z :=
  if max_seconds <? ts_seconds request then Ok max_ns
  else
    base ← i64 (ts_seconds request * 1000000000);
    room ← i64 (max_ns - base);
    if room <? ts_nanoseconds request then Ok max_ns else i64 (base + ts_nanoseconds request).

(** [nanosleep]: the error, the time slept (if it sleeps) and the memory. *)
Definition nanosleep (s : space) (request_address remaining_address : Z)
  : result (Z * option Z * space) :=
  match read_guest_timespec s request_address with
  | None => Ok (kPosixEinval, None, s)
  | Some request =>
      if negb (valid_timespec request) then Ok (kPosixEinval, None, s)
      else
        duration ← sleep_duration request;
        if negb (remaining_address =? 0) then
          '(ok, s) ← write_guest_timespec s remaining_address (mkGuestTimespec 0 0);
          Ok ((if ok : bool then 0 else kPosixEinval), Some duration, s)
        else Ok (0, Some duration, s)
  end.

(** ** Timeouts saturate *)

Definition in_i64 (z : Z) : Prop := -9223372036854775808 <= z <= i64_max.

Lemma i64_ok z : in_i64 z -> i64 z = Ok z.
Proof.
  unfold i64, in_i64. intros Hz. destruct (Z.ltb_spec z (-9223372036854775808)); [lia|].
  destruct (Z.ltb_spec i64_max z); [lia|done].
Qed.

(** A count of nanoseconds, at most what [std::chrono] can hold. *)
Definition saturate (ns : Z) : Z := Z.min max_ns ns.

Lemma saturating_sum seconds nanoseconds :
  0 <= seconds <= max_seconds -> 0 <= nanoseconds <= max_ns ->
  (base ← i64 (seconds * 1000000000); room ← i64 (max_ns - base);
   if room <? nanoseconds then Ok max_ns else i64 (base + nanoseconds)) =
  Ok (saturate (seconds * 1000000000 + nanoseconds)).
Proof.
  unfold saturate, max_ns. change max_seconds with 9223372036. intros Hs Hn.
  rewrite i64_ok by (unfold in_i64; lia). cbn [mbind result_bind].
  rewrite (i64_ok (_ - _)) by (unfold in_i64; lia). cbn [mbind result_bind].
  destruct (Z.ltb_spec (9223372036854775807 - seconds * 1000000000) nanoseconds).
  - f_equal. lia.
  - rewrite i64_ok by (unfold in_i64; lia). f_equal. lia.
Qed.

(** The sum or the maximum, as the handlers with a valid timespec compute it. *)
Lemma saturating_timespec seconds nanoseconds :
  0 <= seconds -> 0 <= nanoseconds < 1000000000 ->
  (if max_seconds <? seconds then Ok max_ns
   else base ← i64 (seconds * 1000000000); room ← i64 (max_ns - base);
        if room <? nanoseconds then Ok max_ns else i64 (base + nanoseconds)) =
  Ok (saturate (seconds * 1000000000 + nanoseconds)).
Proof.
  intros Hs Hn. destruct (Z.ltb_spec max_seconds seconds) as [Hlt|Hle].
  - f_equal. unfold saturate. change max_seconds with 9223372036 in Hlt. unfold max_ns. lia.
  - apply saturating_sum; [lia|]. unfold max_ns. lia.
Qed.

Lemma remaining_until_value s ns now_s now_ns :
  in_i64 s -> 0 <= ns < 1000000000 -> 0 <= now_s <= i64_max -> 0 <= now_ns < 1000000000 ->
  remaining_until s ns now_s now_ns =
    Ok (saturate (Z.max 0 ((s * 1000000000 + ns) - (now_s * 1000000000 + now_ns)))).
Proof.
  intros Hs Hns Hnow Hnn. unfold remaining_until.
  destruct (Z.ltb_spec s now_s); cbn [orb]; [f_equal; unfold saturate, max_ns; lia|].
  destruct (Z.eqb_spec s now_s), (Z.leb_spec ns now_ns); cbn [andb];
    [f_equal; unfold saturate, max_ns; lia| | |].
  all: unfold in_i64 in Hs; rewrite (i64_ok (s - now_s)), (i64_ok (ns - now_ns)) by (unfold in_i64; lia);
    cbn [mbind result_bind].
  all: destruct (Z.ltb_spec (ns - now_ns) 0);
    [rewrite (i64_ok (s - now_s - 1)), (i64_ok (ns - now_ns + 1000000000)) by (unfold in_i64; lia)|];
    cbn [mbind result_bind]; rewrite saturating_timespec by lia; f_equal; f_equal; lia.
Qed.

Lemma relative_timeout_value us : in_u64 us -> relative_timeout us = Ok (saturate (us * 1000)).
Proof.
  intros Hus. unfold relative_timeout, saturate. change (max_ns / 1000) with 9223372036854775.
  unfold max_ns. destruct (Z.ltb_spec 9223372036854775 us); [f_equal; lia|].
  unfold in_u64 in Hus. rewrite i64_ok by (unfold in_i64; lia). f_equal. lia.
Qed.

(** timeouts.  With clocks that do not answer times before their epoch,
    none of the time computations overflows, and each answers the mathematical
    value limited to what [std::chrono::nanoseconds] holds: the time left until
    a deadline (0 when it has passed), a relative timeout, the deadline of a
    timespec and the duration of a sleep. *)
Theorem timeouts_saturate s ns now_s now_ns us :
  in_i64 s -> 0 <= ns < 1000000000 -> 0 <= now_s <= i64_max -> 0 <= now_ns < 1000000000 -> in_u64 us ->
  remaining_until s ns now_s now_ns =
    Ok (saturate (Z.max 0 ((s * 1000000000 + ns) - (now_s * 1000000000 + now_ns)))) /\
  relative_timeout us = Ok (saturate (us * 1000)) /\
  (0 <= s -> deadline_of (mkGuestTimespec s ns) = Ok (saturate (s * 1000000000 + ns)) /\
             sleep_duration (mkGuestTimespec s ns) = Ok (saturate (s * 1000000000 + ns))).
Proof.
  intros Hs Hns Hnow Hnn Hus. split; [by apply remaining_until_value|].
  split; [by apply relative_timeout_value|].
  intros H0. split; unfold deadline_of, sleep_duration; cbn [ts_seconds ts_nanoseconds];
    by apply saturating_timespec.
Qed.

Lemma timeouts_saturate_witness :
  remaining_until 20 5 10 7 = Ok 9999999998 /\ relative_timeout u64_max = Ok max_ns /\
  deadline_of (mkGuestTimespec 20 5) = Ok 20000000005.
Proof.
  destruct (timeouts_saturate 20 5 10 7 u64_max) as (H1 & H2 & H3);
    [unfold in_i64; lia|lia|lia|lia|unfold in_u64; lia|].
  rewrite H1, H2. destruct (H3 ltac:(lia)) as [H4 _]. rewrite H4. split_and!; reflexivity.
Defined.

(** ** The clocks of the Windows build *)

(** [FILETIME]: a count of 100 nanoseconds in two halves. *)
Record FILETIME : Type := mkFILETIME { dwLowDateTime : Z; dwHighDateTime : Z }.
Definition file_ticks (f : FILETIME) : Z := Z.lor (Z.shiftl (dwHighDateTime f) 32) (dwLowDateTime f).

(** [clock_now] with [GetProcessTimes], whose kernel and user times are
    [times]. *)
Definition clock_now_windows (now : ClockReading) (times : option (FILETIME * FILETIME)) (clock_id : Z)
  : option (Z * Z) :=
  if clock_id =? kClockRealtime then Some (split_duration (system_now now))
  else if clock_id =? kClockMonotonic then Some (split_duration (steady_now now))
  else
    match times with
    | None => None
    | Some (kernel, user) =>
        let selected := if clock_id =? kClockVirtual then user else kernel in
        if negb (clock_id =? kClockVirtual) && negb (clock_id =? kClockProf) then None
        else
          let total_100ns := file_ticks selected in
          Some (to_i64 (total_100ns / 10000000), to_i64 (total_100ns mod 10000000 * 100))
    end.

Lemma file_ticks_sum f :
  0 <= dwLowDateTime f < u32_mod -> 0 <= dwHighDateTime f < u32_mod ->
  file_ticks f = dwHighDateTime f * u32_mod + dwLowDateTime f /\ in_u64 (file_ticks f).
Proof.
  intros Hl Hh. unfold file_ticks.
  assert (Z.lor (Z.shiftl (dwHighDateTime f) 32) (dwLowDateTime f) =
          dwHighDateTime f * u32_mod + dwLowDateTime f) as ->.
  { rewrite <- Z.add_lor_land, Z.shiftl_mul_pow2 by lia. change (2 ^ 32) with u32_mod.
    replace (Z.land (dwHighDateTime f * u32_mod) (dwLowDateTime f)) with 0; [lia|].
    symmetry. apply Z.bits_inj'. intros n Hn. rewrite Z.land_spec, Z.bits_0. change u32_mod with (2 ^ 32).
    destruct (Z.ltb_spec n 32); [by rewrite Z.mul_pow2_bits_low by lia|].
    assert (Z.testbit (dwLowDateTime f) n = false) as ->; [|apply andb_false_r].
    rewrite <- (Z.mod_small (dwLowDateTime f) (2 ^ 32)) by exact Hl. apply Z.mod_pow2_bits_high. lia. }
  unfold in_u64. lia.
Qed.

(** The processor clocks agree on both builds: when the two systems report the
    same time, Windows in ticks and POSIX in microseconds, the guest reads the
    same seconds and nanoseconds, and a Windows reading is the exact time. *)
Theorem process_clocks_agree now clock_id kernel user seconds microseconds :
  clock_id = kClockVirtual \/ clock_id = kClockProf ->
  let selected := if clock_id =? kClockVirtual then user else kernel in
  0 <= dwLowDateTime selected < u32_mod -> 0 <= dwHighDateTime selected < u32_mod ->
  0 <= microseconds < 1000000 ->
  file_ticks selected = (seconds * 1000000 + microseconds) * 10 ->
  clock_now_windows now (Some (kernel, user)) clock_id = Some (seconds, microseconds * 1000) /\
  seconds * 1000000000 + microseconds * 1000 = file_ticks selected * 100 /\
  clock_now (mkClockReading (system_now now) (steady_now now)
               (Some ((seconds, microseconds), (seconds, microseconds)))) clock_id =
    Ok (clock_now_windows now (Some (kernel, user)) clock_id).
Proof.
  intros Hid selected Hl Hh Hus Ht. pose proof (file_ticks_sum selected Hl Hh) as [_ Hr]. unfold in_u64 in Hr.
  assert (clock_now_windows now (Some (kernel, user)) clock_id = Some (seconds, microseconds * 1000)) as Hw.
  { unfold clock_now_windows. fold selected. rewrite Ht.
    replace ((seconds * 1000000 + microseconds) * 10) with (microseconds * 10 + seconds * 10000000) by ring.
    rewrite Z.div_add, Z.mod_add, (Z.div_small (microseconds * 10)), (Z.mod_small (microseconds * 10)) by lia.
    assert (0 <= seconds < 1844674407371) as Hsec by lia. rewrite Z.add_0_l.
    replace (microseconds * 10 * 100) with (microseconds * 1000) by ring.
    rewrite !to_i64_small by lia. by destruct Hid as [->| ->]. }
  split; [exact Hw|]. split; [lia|]. rewrite Hw. unfold clock_now. cbn [rusage fst snd].
  destruct Hid as [->| ->]; cbn -[i64]; rewrite i64_ok by (unfold in_i64; lia); reflexivity.
Qed.
