(* ===== verification/KernelFiles.v ===== *)
(** * Guest files

    The read-only file services of [src/src/runtime/kernel_services.cpp]
    (lines 372 to 410 and 1468 to 1722), and the snapshot of a file that
    [map_memory] takes (lines 1163 to 1234).

    The host's file system is the class [HostFs]: what [std::filesystem] answers
    for a path, and the content of a regular file when it is opened.  A path is
    its string; [path_append] and [path_elements] are [operator/] and the
    iteration of [std::filesystem::path] (POSIX).  A [stream] is an
    [std::ifstream]: content, position and state bits, with the [clear], [seekg],
    [tellg] and [read] of the standard; the host may refuse a read
    ([hf_refuses]) and limits how far a stream can seek ([hf_limit]). *)

From Stdlib Require Import Strings.String Strings.Ascii.
From S2P Require Import Prelude OrdMap NativeArena GuestMemory GuestMemoryProps KernelMem KernelAttrs KernelTime.

Local Open Scope Z_scope.

(** ** Paths *)

Definition separator : ascii := "/"%char.

Definition starts_with_separator (p : string) : bool :=
  match p with String c _ => bool_decide (c = separator) | EmptyString => false end.

Fixpoint ends_with_separator (p : string) : bool :=
  match p with
  | EmptyString => false
  | String c EmptyString => bool_decide (c = separator)
  | String _ p => ends_with_separator p
  end.

(** [lhs / rhs]: an absolute right-hand side replaces the left one. *)
Definition path_append (lhs rhs : string) : string :=
  if starts_with_separator rhs || bool_decide (lhs = ""%string) then rhs
  else if ends_with_separator lhs then (lhs ++ rhs)%string
  else (lhs ++ "/" ++ rhs)%string.

(** The text between separators. *)
Fixpoint segments (p : string) : list string :=
  match p with
  | EmptyString => [""%string]
  | String c p =>
      if decide (c = separator) then ""%string :: segments p
      else match segments p with
           | [] => [String c ""]
           | segment :: rest => String c segment :: rest
           end
  end.

(** The elements a path is iterated over: the root directory, the file names,
    and an empty one after a trailing separator. *)
Definition path_elements (p : string) : list string :=
  let names := filter (fun n => n <> ""%string) (segments p) in
  (if starts_with_separator p then ["/"%string] else []) ++ names ++
  (if ends_with_separator p && negb (bool_decide (names = [])) then [""%string] else []).

Fixpoint elements_within (root path : list string) : bool :=
  match root, path with
  | [], _ => true
  | _ :: _, [] => false
  | r :: root, p :: path => if decide (p = r) then elements_within root path else false
  end.

Definition path_is_within (root path : string) : bool :=
  elements_within (path_elements root) (path_elements path).

(** ** The host's files *)

Inductive file_type : Type := ft_not_found | ft_regular | ft_directory | ft_other.

#[export] Instance file_type_eq_dec : EqDecision file_type.
Proof. solve_decision. Defined.

Record HostFile : Type := mkHostFile {
  hf_bytes : list byte;
  hf_refuses : Z -> Z -> bool;  (* a read of so many bytes at this position *)
  hf_limit : Z;
}.

Class HostFs : Type := {
  fs_canonical : string -> option string;
  fs_status : string -> option file_type;
  fs_file_size : string -> option Z;
  fs_last_write_time : string -> option Z;
  fs_open : string -> option HostFile;
}.

(** A path without dots: what [std::filesystem::canonical] documents. *)
Definition canonical_path (p : string) : Prop :=
  starts_with_separator p = true /\
  "."%string ∉ path_elements p /\ ".."%string ∉ path_elements p.

Class HostFsLaws (F : HostFs) : Prop := {
  fs_canonical_ok p q : fs_canonical p = Some q -> canonical_path q;
  fs_open_ok p f : fs_open p = Some f -> zlen (hf_bytes f) <= hf_limit f <= i64_max;
}.

(** ** Streams *)

Record stream : Type := mkStream {
  st_file : HostFile;
  st_position : Z;
  st_eof : bool;
  st_fail : bool;
  st_bad : bool;
}.

Definition st_good (s : stream) : bool := negb (st_eof s || st_fail s || st_bad s).
(** [operator!]. *)
Definition st_failed (s : stream) : bool := st_fail s || st_bad s.

Definition with_state (s : stream) (eof fail bad : bool) : stream :=
  mkStream (st_file s) (st_position s) eof fail bad.
Definition st_clear (s : stream) : stream := with_state s false false false.
Definition set_failbit (s : stream) : stream := with_state s (st_eof s) true (st_bad s).

(** [read]: the bytes and [gcount] (their number). *)
Definition st_read (s : stream) (n : Z) : list byte * stream :=
  if negb (st_good s) then ([], set_failbit s)
  else if hf_refuses (st_file s) (st_position s) n then ([], with_state s false false true)
  else
    let bytes := zslice (hf_bytes (st_file s)) (st_position s) n in
    let short := zlen bytes <? n in
    (bytes, mkStream (st_file s) (st_position s + zlen bytes) short short false).

Inductive seekdir : Type := seek_beg | seek_cur | seek_end.

(** [seekg]: clears [eofbit], then moves when the stream is good and the
    target is a file position. *)
Definition st_seekg (s : stream) (offset : Z) (origin : seekdir) : stream :=
  let s := with_state s false (st_fail s) (st_bad s) in
  if negb (st_good s) then set_failbit s
  else
    let target := offset + match origin with
                           | seek_beg => 0
                           | seek_cur => st_position s
                           | seek_end => zlen (hf_bytes (st_file s))
                           end in
    if (0 <=? target) && (target <=? hf_limit (st_file s))
    then mkStream (st_file s) target false false false
    else set_failbit s.

(** [tellg]: -1 when the stream has failed; a stream at its end fails. *)
Definition st_tellg (s : stream) : Z * stream :=
  if negb (st_good s) then (-1, set_failbit s) else (st_position s, s).

(** ** The service *)

Record FileRecord : Type := mkFileRecord { fr_file : stream; fr_path : string; fr_position : Z }.

Record FileState : Type := mkFileState {
  guest_root_ : string;
  next_fd_ : Z;
  files_ : gmap Z FileRecord;
}.

Definition initial_files : FileState := mkFileState "" 3 ∅.

Definition with_files (f : FileState) (files : gmap Z FileRecord) : FileState :=
  mkFileState (guest_root_ f) (next_fd_ f) files.

Definition INT_MAX := 2147483647.
Definition chunk_size := 65536.

Definition kOpenWriteOnly := 0x0001.
Definition kOpenReadWrite := 0x0002.
Definition kOpenAppend := 0x0008.
Definition kOpenCreate := 0x0200.
Definition kOpenTruncate := 0x0400.
Definition kOpenExclusive := 0x0800.
Definition kMutatingOpenFlags :=
  Z.lor kOpenWriteOnly (Z.lor kOpenReadWrite (Z.lor kOpenAppend
    (Z.lor kOpenCreate (Z.lor kOpenTruncate kOpenExclusive)))).

Section Services.
Context `{HostFs}.

Definition fs_is_directory (p : string) : bool := bool_decide (fs_status p = Some ft_directory).
Definition fs_is_regular_file (p : string) : bool := bool_decide (fs_status p = Some ft_regular).

Definition set_guest_root (f : FileState) (root : string) : bool * FileState :=
  match fs_canonical root with
  | None => (false, f)
  | Some canonical =>
      if negb (fs_is_directory canonical) then (false, f)
      else (true, mkFileState canonical (next_fd_ f) (files_ f))
  end.

(** The path below the root that a guest path names. *)
Definition guest_relative (guest_path : string) : option string :=
  if bool_decide (guest_path = "/app0"%string) then Some "."%string
  else if String.prefix "/app0/" guest_path
       then Some (String.substring 6 (String.length guest_path - 6) guest_path)
  else if negb (bool_decide (guest_path = ""%string)) && negb (starts_with_separator guest_path)
       then Some guest_path
  else None.

(** [resolve_guest_path]: [None] when the path is not allowed. *)
Definition resolve_guest_path (f : FileState) (guest_path : string) : option string :=
  relative ← guest_relative guest_path;
  candidate ← fs_canonical (path_append (guest_root_ f) relative);
  if path_is_within (guest_root_ f) candidate then Some candidate else None.

(** The loop of [open_readonly] that looks for a descriptor: the number of
    attempts is a [positive], halved at each level. *)
Fixpoint attempt {S R} (attempts : positive) (step : S -> S + R) (s : S) : S + R :=
  match attempts with
  | xH => step s
  | xO n => match attempt n step s with inl s => attempt n step s | inr r => inr r end
  | xI n =>
      match step s with
      | inl s => match attempt n step s with inl s => attempt n step s | inr r => inr r end
      | inr r => inr r
      end
  end.

Definition try_descriptor (files : gmap Z FileRecord) (next_fd : Z) : Z + Z :=
  let fd := if (next_fd <? 3) || (next_fd =? INT_MAX) then 3 else next_fd in
  if bool_decide (is_Some (files !! fd)) then inl (fd + 1) else inr fd.

Definition insert_file (f : FileState) (record : FileRecord) : Z * FileState :=
  match attempt 2147483647 (try_descriptor (files_ f)) (next_fd_ f) with
  | inr fd => (fd, mkFileState (guest_root_ f) (fd + 1) (<[fd := record]> (files_ f)))
  | inl next_fd => (error kErrorEnomem, mkFileState (guest_root_ f) next_fd (files_ f))
  end.

Definition open_readonly (s : space) (f : FileState) (path_address flags mode : Z)
  : Z * FileState :=
  if bool_decide (guest_root_ f = ""%string) || negb (Z.land flags kMutatingOpenFlags =? 0)
  then (error kErrorEacces, f)
  else
    match read_guest_c_string s path_address with
    | None => (error kErrorEfault, f)
    | Some guest_path =>
        match resolve_guest_path f guest_path with
        | None => (error kErrorEnoent, f)
        | Some host_path =>
            if negb (fs_is_regular_file host_path) then (error kErrorEnoent, f)
            else
              match fs_open host_path with
              | None => (error kErrorEacces, f)
              | Some file =>
                  insert_file f (mkFileRecord (mkStream file 0 false false false) host_path 0)
              end
        end
    end.

(** *** [read] *)

(** The answer of [read] when it stops early. *)
Definition read_stops (total code : Z) : Z := if total =? 0 then error code else to_i64 total.

(** The loop over chunks. [fuel] bounds the chunks; a full chunk is as long as
    asked, so that [size] divided by the chunk size, and one, are enough. *)
Fixpoint read_loop (fuel : nat) (s : space) (r : FileRecord) (buffer size total : Z)
  : result (Z * space * FileRecord) :=
  if size <=? total then Ok (to_i64 total, s, r)
  else
    match fuel with
    | O => Throw (undefined_behaviour "the read loop does not end")
    | S fuel =>
        let request := Z.min (size - total) chunk_size in
        let '(bytes, file) := st_read (fr_file r) request in
        let bytes_read := zlen bytes in
        let r := mkFileRecord file (fr_path r) (fr_position r) in
        '(ok, s) ← (if negb (bytes_read =? 0) then write s (wrap64 (buffer + total)) bytes
                     else Ok (true, s));
        if negb (ok : bool) then Ok (read_stops total kErrorEfault, s, r)
        else
          let total := total + bytes_read in
          if i64_max - fr_position r <? bytes_read
          then Ok (read_stops total kErrorEbadf, s, r)
          else
            let r := mkFileRecord file (fr_path r) (fr_position r + bytes_read) in
            if st_bad file then Ok (read_stops total kErrorEbadf, s, r)
            else if bytes_read <? request then Ok (to_i64 total, s, r)
            else read_loop fuel s r buffer size total
    end.

Definition read (s : space) (f : FileState) (fd buffer size : Z)
  : result (Z * space * FileState) :=
  if negb (guest_writable s buffer size) then Ok (error kErrorEfault, s, f)
  else
    match files_ f !! fd with
    | None => Ok (error kErrorEbadf, s, f)
    | Some record =>
        if size =? 0 then Ok (0, s, f)
        else
          '(value, s, record) ←
            read_loop (S (Z.to_nat (size / chunk_size))) s record buffer size 0;
          Ok (value, s, with_files f (<[fd := record]> (files_ f)))
    end.

(** *** [seek] *)

Definition seek_origin (whence : Z) : Z + seekdir :=
  if whence =? 0 then inr seek_beg
  else if whence =? 1 then inr seek_cur
  else if whence =? 2 then inr seek_end
  else if (whence =? 3) || (whence =? 4) then inl (error kErrorEnotty)
  else inl (error kErrorEinval).

Definition seek_record (record : FileRecord) (offset : Z) (origin : seekdir) : Z * FileRecord :=
  let file := st_seekg (st_clear (fr_file record)) offset origin in
  let refuse file := (error kErrorEinval, mkFileRecord file (fr_path record) (fr_position record)) in
  if st_failed file then refuse (st_clear file)
  else
    let '(position, file) := st_tellg file in
    if position =? -1 then refuse (st_clear file)
    else if position <? 0 then refuse file
    else (position, mkFileRecord file (fr_path record) position).

(** [std::streamoff] has 64 bits: the offset always fits. *)
Definition seek (f : FileState) (fd offset whence : Z) : Z * FileState :=
  match files_ f !! fd with
  | None => (error kErrorEbadf, f)
  | Some record =>
      match seek_origin whence with
      | inl code => (code, f)
      | inr origin =>
          if (offset <? -9223372036854775808) || (i64_max <? offset) then (error kErrorEinval, f)
          else
            let '(value, record) := seek_record record offset origin in
            (value, with_files f (<[fd := record]> (files_ f)))
      end
  end.

Definition close (f : FileState) (fd : Z) : Z * FileState :=
  if bool_decide (is_Some (files_ f !! fd)) then (0, with_files f (delete fd (files_ f)))
  else (error kErrorEbadf, f).

(** *** [stat] *)

Definition kModeDirectory := 0x4000.
Definition kModeRegular := 0x8000.
Definition kModePermissions := 0x1ff.

Record GuestFileStat : Type := mkGuestFileStat {
  gs_mode : Z;
  gs_modification_time : GuestTimespec;
  gs_size : Z;
  gs_blocks : Z;
  gs_block_size : Z;
}.

(** The 120 bytes of the structure; the fields no handler sets are 0 and the
    link count is 1. *)
Definition encode_stat (st : GuestFileStat) : list byte :=
  le_encode 4 0 ++ le_encode 4 0 ++ le_encode 2 (gs_mode st) ++ le_encode 2 1 ++
  le_encode 4 0 ++ le_encode 4 0 ++ le_encode 4 0 ++
  le_encode 8 0 ++ le_encode 8 0 ++
  le_encode 8 (ts_seconds (gs_modification_time st)) ++
  le_encode 8 (ts_nanoseconds (gs_modification_time st)) ++
  le_encode 8 0 ++ le_encode 8 0 ++
  le_encode 8 (gs_size st) ++ le_encode 8 (gs_blocks st) ++ le_encode 4 (gs_block_size st) ++
  le_encode 4 0 ++ le_encode 4 0 ++ le_encode 4 0 ++ le_encode 8 0 ++ le_encode 8 0.

Definition file_modification_time (path : string) : GuestTimespec :=
  match fs_last_write_time path with
  | None => mkGuestTimespec 0 0
  | Some time => let '(seconds, nanoseconds) := split_duration time in
                 mkGuestTimespec seconds nanoseconds
  end.

(** What [stat] says of a host path, or the error. *)
Definition file_stat (path : string) : result (Z + GuestFileStat) :=
  match fs_status path with
  | None | Some ft_not_found | Some ft_other => Ok (inl (error kErrorEnoent))
  | Some ft_regular =>
      match fs_file_size path with
      | None => Ok (inl (error kErrorEinval))
      | Some file_size =>
          if i64_max <? file_size then Ok (inl (error kErrorEinval))
          else
            rounded ← i64 (file_size + 511);
            Ok (inr (mkGuestFileStat (Z.lor kModeRegular kModePermissions)
                       (file_modification_time path) file_size (Z.quot rounded 512) 512))
      end
  | Some ft_directory =>
      Ok (inr (mkGuestFileStat (Z.lor kModeDirectory kModePermissions)
                 (file_modification_time path) 65536 128 65536))
  end.

Definition write_file_stat (s : space) (path : string) (stat_address : Z) : result (Z * space) :=
  if negb (guest_writable s stat_address 120) then Ok (error kErrorEfault, s)
  else
    answer ← file_stat path;
    match answer with
    | inl code => Ok (code, s)
    | inr st =>
        '(ok, s) ← write s stat_address (encode_stat st);
        Ok ((if ok : bool then 0 else error kErrorEfault), s)
    end.

Definition stat_path (s : space) (f : FileState) (path_address stat_address : Z)
  : result (Z * space) :=
  if bool_decide (guest_root_ f = ""%string) then Ok (error kErrorEacces, s)
  else
    match read_guest_c_string s path_address with
    | None => Ok (error kErrorEfault, s)
    | Some guest_path =>
        match resolve_guest_path f guest_path with
        | None => Ok (error kErrorEnoent, s)
        | Some host_path => write_file_stat s host_path stat_address
        end
    end.

Definition fstat (s : space) (f : FileState) (fd stat_address : Z) : result (Z * space) :=
  match files_ f !! fd with
  | None => Ok (error kErrorEbadf, s)
  | Some record => write_file_stat s (fr_path record) stat_address
  end.

(** *** The snapshot of [map_memory] *)

(** [restore_file_position]. *)
Definition restore_file_position (saved : stream) (r : FileRecord) : bool * FileRecord :=
  let file := st_seekg (st_clear (fr_file r)) (fr_position r) seek_beg in
  (negb (st_failed file),
   mkFileRecord (with_state file (st_eof saved) (st_fail saved) (st_bad saved))
     (fr_path r) (fr_position r)).

(** The copy of [size] bytes in chunks; [None] when a read is short. *)
Fixpoint snapshot_loop (fuel : nat) (file : stream) (size : Z) (copied : list byte)
  : result (option (list byte) * stream) :=
  if size <=? zlen copied then Ok (Some copied, file)
  else
    match fuel with
    | O => Throw (undefined_behaviour "the snapshot loop does not end")
    | S fuel =>
        let request := Z.min chunk_size (size - zlen copied) in
        let '(bytes, file) := st_read file request in
        if negb (zlen bytes =? request) then Ok (None, file)
        else snapshot_loop fuel file size (copied ++ bytes)
    end.

(** The answer is an error or the bytes. *)
Definition file_snapshot (r : FileRecord) (size offset : Z)
  : result ((Z + list byte) * FileRecord) :=
  let saved := fr_file r in
  let fail_with file refused :=
    let '(restored, r) := restore_file_position saved (mkFileRecord file (fr_path r) (fr_position r)) in
    Ok (inl (error (if restored then refused else kErrorEbadf)), r) in
  let file := st_seekg (st_clear saved) 0 seek_end in
  let '(end_position, file) := st_tellg file in
  if (end_position =? -1) || (end_position <? 0) || (end_position <? offset)
     || (end_position - offset <? size)
  then fail_with file kErrorEnotsup
  else if u64_max <? size then fail_with file kErrorEnomem
  else
    let file := st_seekg file offset seek_beg in
    '(copied, file) ←
      (if st_failed file then Ok (None, file)
       else snapshot_loop (S (Z.to_nat (size / chunk_size))) file size []);
    let '(restored, r) := restore_file_position saved (mkFileRecord file (fr_path r) (fr_position r)) in
    if negb restored then Ok (inl (error kErrorEbadf), r)
    else match copied with
         | None => Ok (inl (error kErrorEnotsup), r)
         | Some bytes => Ok (inr bytes, r)
         end.

End Services.

Example path_app0 : path_elements "/games/app//data/" = ["/"; "games"; "app"; "data"; ""]%string.
Proof. reflexivity. Qed.
Example path_root : path_elements "/" = ["/"]%string.
Proof. reflexivity. Qed.
