(* ===== verification/KernelFilesProps.v ===== *)
(** * Properties of the guest files

    The theorems of [KernelFiles]: opened files lie under the guest root, reads
    hand over the bytes of the file, and descriptors are independent of each
    other. *)

From Stdlib Require Import Strings.String Strings.Ascii.
From S2P Require Import Prelude OrdMap NativeArena GuestMemory GuestMemoryProps KernelMem KernelAttrs KernelTime KernelFiles.

Local Open Scope Z_scope.

(** ** Slices and consecutive stores *)

Lemma zslice_append {A} (l : list A) off a b :
  0 <= off -> 0 <= a -> 0 <= b -> zslice l off (a + b) = zslice l off a ++ zslice l (off + a) b.
Proof.
  intros Ho Ha Hb. unfold zslice.
  replace (Z.to_nat (a + b)) with (Z.to_nat a + Z.to_nat b)%nat by lia.
  replace (Z.to_nat (off + a)) with (Z.to_nat off + Z.to_nat a)%nat by lia.
  rewrite <- drop_drop. by rewrite take_take_drop.
Qed.

Lemma zslice_empty {A} (l : list A) off n : n <= 0 -> zslice l off n = [].
Proof. intros Hn. unfold zslice. by replace (Z.to_nat n) with 0%nat by lia. Qed.

Section Stores.
Context `{HostOs, !HostOsLaws H}.

Lemma stored_nil s address : space_wf s -> stored s s address [].
Proof.
  intros Hs. split; [done|]. split; [done|]. intros a. split; [done|].
  by rewrite (proj2 (in_range_false _ _ _)) by (cbn; lia).
Qed.

Lemma stored_app s1 s2 s3 address b1 b2 :
  stored s1 s2 address b1 -> stored s2 s3 (address + zlen b1) b2 ->
  stored s1 s3 address (b1 ++ b2).
Proof.
  intros (H2 & Hi12 & Hc12) (H3 & Hi23 & Hc23). split; [done|]. split.
  { intros k. by rewrite Hi23, Hi12. }
  intros a. destruct (Hc12 a) as [Hp12 Hb12], (Hc23 a) as [Hp23 Hb23].
  split; [congruence|]. rewrite Hb23, Hb12, length_app, Nat2Z.inj_add.
  destruct (in_range (address + zlen b1) (zlen b2) a) eqn:E2;
    [apply in_range_true in E2|apply in_range_false in E2].
  - rewrite (proj2 (in_range_true _ _ _)), zget_app by lia.
    destruct (Z.ltb_spec (a - address) (zlen b1)); [lia|]. f_equal. lia.
  - destruct (in_range address (zlen b1) a) eqn:E1;
      [apply in_range_true in E1|apply in_range_false in E1].
    + rewrite (proj2 (in_range_true _ _ _)), zget_app by lia.
      by destruct (Z.ltb_spec (a - address) (zlen b1)); [|lia].
    + by rewrite (proj2 (in_range_false _ _ _)) by lia.
Qed.

(** A range stays storable through stores, and so do its parts. *)
Lemma store_ok_part w s s' address size offset n :
  space_wf s -> space_wf s' -> same_infos s s' ->
  store_ok w s address size -> 0 <= offset -> 0 < n -> offset + n <= size ->
  store_ok w s' (address + offset) n.
Proof.
  intros Hs Hs' Hi (r & [Ho He] & Hw) H0 Hn Hle.
  assert (owner (regions_ s) (address + offset) r) as Ho2.
  { destruct Ho as [Hf Hc]. split; [done|]. unfold covers in *. lia. }
  destruct (same_infos_owner s s' _ r Hs Hi Ho2) as (r' & Ho' & E). exists r'.
  unfold in_region. rewrite E. split; [|done]. split; [done|lia].
Qed.

End Stores.

(** ** Streams and records *)

(** The stream stands where the record says, inside what the host can seek to,
    and only the end of the file or a refused read stops it. *)
Record record_wf (r : FileRecord) : Prop := {
  rw_position : st_position (fr_file r) = fr_position r;
  rw_limit : zlen (hf_bytes (st_file (fr_file r))) <= hf_limit (st_file (fr_file r)) <= i64_max;
  rw_range : 0 <= fr_position r <= hf_limit (st_file (fr_file r));
  rw_eof : st_eof (fr_file r) = true ->
    zlen (hf_bytes (st_file (fr_file r))) <= fr_position r;
  rw_fail : st_fail (fr_file r) = true ->
    st_eof (fr_file r) = true \/ st_bad (fr_file r) = true;
}.

Definition file_bytes (r : FileRecord) : list byte := hf_bytes (st_file (fr_file r)).

(** The record [n] bytes further. *)
Definition advanced (r r' : FileRecord) (n : Z) : Prop :=
  record_wf r' /\ st_file (fr_file r') = st_file (fr_file r) /\ fr_path r' = fr_path r /\
  fr_position r' = fr_position r + n.

(** What is left of the file behind the position. *)
Definition rest_of_file (r : FileRecord) : Z := Z.max 0 (zlen (file_bytes r) - fr_position r).

(** The host reads the file without device errors. *)
Definition readable_file (r : FileRecord) : Prop :=
  st_bad (fr_file r) = false /\ forall p n, hf_refuses (st_file (fr_file r)) p n = false.

Lemma zslice_length_min {A} (l : list A) off n :
  0 <= off -> 0 <= n -> zlen (zslice l off n) = Z.min n (Z.max 0 (zlen l - off)).
Proof. intros. unfold zslice. rewrite length_take, length_drop. lia. Qed.

Lemma zslice_zlen {A} (l : list A) off n :
  0 <= off -> 0 <= n -> zslice l off (zlen (zslice l off n)) = zslice l off n.
Proof.
  intros Ho Hn. rewrite zslice_length_min by done. unfold zslice.
  destruct (Z.le_gt_cases n (Z.max 0 (zlen l - off))); [f_equal; lia|].
  rewrite !take_ge; [done|rewrite length_drop; lia|rewrite length_drop; lia].
Qed.

(** One [read]: so many bytes of the file, and where it stops. *)
Lemma st_read_spec r n bytes file :
  record_wf r -> 0 < n -> st_read (fr_file r) n = (bytes, file) ->
  let k := zlen bytes in
  bytes = zslice (file_bytes r) (fr_position r) k /\ k <= n /\ k <= rest_of_file r /\
  advanced r (mkFileRecord file (fr_path r) (fr_position r + k)) k /\
  (readable_file r -> st_bad file = false /\ k = Z.min n (rest_of_file r)).
Proof.
  intros [Hp Hl Hr He Hf] Hn. unfold st_read, rest_of_file, readable_file, advanced, file_bytes.
  destruct (st_good (fr_file r)) eqn:Hg; cbn [negb]; unfold st_good in Hg.
  2: { intros [= <- <-]. cbn -[zslice]. rewrite zslice_empty by lia.
       assert (st_eof (fr_file r) = true \/ st_bad (fr_file r) = true) as Hstop.
       { destruct (st_eof (fr_file r)); [by left|]. destruct (st_bad (fr_file r)); [by right|].
         destruct (st_fail (fr_file r)); [|done]. by apply Hf. }
       split_and!; [done|lia|lia| |done|done|done|].
       - split; cbn; [lia|done|lia|intros E; specialize (He E); lia|done].
       - intros [Hb _]. rewrite Hb in *. split; [done|]. destruct Hstop as [E|]; [|done].
         specialize (He E). lia. }
  bools. destruct (hf_refuses (st_file (fr_file r)) (st_position (fr_file r)) n) eqn:Hrf.
  { intros [= <- <-]. cbn -[zslice]. rewrite zslice_empty by lia.
    split_and!; [done|lia|lia| |done|done|done|].
    { split; cbn; [lia|done|lia|done|done]. }
    intros [_ Hrd]. by rewrite Hrd in Hrf. }
  rewrite Hp. set (bs := zslice _ _ _). intros [= <- <-]. cbn -[zslice].
  assert (zlen bs = Z.min n (Z.max 0 (zlen (hf_bytes (st_file (fr_file r))) - fr_position r))) as Hlen
    by (apply zslice_length_min; lia).
  split_and!; [symmetry; apply zslice_zlen; lia|lia|lia| |done..].
  split; cbn -[zslice]; [done|done|lia| |by left].
  intros Hlt%Z.ltb_lt. lia.
Qed.

Lemma advanced_trans r1 r2 r3 n m :
  advanced r1 r2 n -> advanced r2 r3 m -> advanced r1 r3 (n + m).
Proof. intros (_ & Hf & Hp & He) (Hw & Hf' & Hp' & He'). split; [done|]. split_and!; congruence || lia. Qed.

(** ** Reading *)

Section Read.
Context `{HostOs, !HostOsLaws H}.

(** What the loop of [read] has done when it returns: [n] more bytes of the
    file are in the buffer, and the record stands behind them. *)
Record read_effect (s s' : space) (r r' : FileRecord) (buffer size total value n : Z) : Prop := {
  re_space : space_ok s';
  re_stored : stored s s' (buffer + total) (zslice (file_bytes r) (fr_position r) n);
  re_record : advanced r r' n;
  re_count : 0 <= n <= Z.min (size - total) (rest_of_file r);
  re_value : value = total + n \/
    total + n = 0 /\ value = error kErrorEbadf /\ st_bad (fr_file r') = true;
  re_all : readable_file r -> n = Z.min (size - total) (rest_of_file r) /\ value = total + n;
}.

(** The store of one chunk succeeds. *)
Lemma read_store s address bytes :
  space_ok s -> 0 <= address <= u64_max ->
  (0 < zlen bytes -> store_ok true s address (zlen bytes)) ->
  exists s', (if negb (zlen bytes =? 0) then write s (wrap64 address) bytes else Ok (true, s))
               = Ok (true, s') /\ space_ok s' /\ stored s s' address bytes.
Proof.
  intros [Hs Hag] Ha Hok. rewrite wrap64_small by (unfold in_u64; lia).
  destruct bytes as [|b bs]; [exists s; split; [done|]; split; [done|by apply stored_nil]|].
  cbn [length]. change (negb (zlen (b :: bs) =? 0)) with true. cbn iota.
  destruct (write_total s address (b :: bs) Hs Hag) as (ok & s' & Hw & Hag').
  destruct (write_spec s address (b :: bs) ok s' Hs ltac:(done) Hw) as (Hiff & Hst & _).
  pose proof (proj2 Hiff (Hok ltac:(cbn; lia))) as ->. specialize (Hst eq_refl).
  exists s'. split; [done|]. split; [split; [apply Hst|done]|done].
Qed.

Lemma read_loop_spec fuel s r buffer size total :
  space_ok s -> record_wf r -> 0 <= total <= size -> 0 <= buffer -> buffer + size <= u64_max ->
  total <= fr_position r ->
  (total < size -> store_ok true s (buffer + total) (size - total)) ->
  size - total <= chunk_size * Z.of_nat fuel ->
  exists value s' r' n, read_loop fuel s r buffer size total = Ok (value, s', r') /\
    read_effect s s' r r' buffer size total value n.
Proof.
  revert s r total. induction fuel as [|fuel IH]; intros s r total Hs Hr Ht Hb0 Hb Htp Hok Hfuel;
    cbn [read_loop].
  all: assert (forall v, v <= i64_max -> 0 <= v -> to_i64 v = v) as Hi64
    by (intros; apply to_i64_small; lia).
  all: pose proof Hr as [Hpos Hlim Hrange _ _].
  all: destruct (Z.leb_spec size total) as [Hle|Hlt].
  2: lia.
  1, 2: assert (size = total) as -> by lia; exists total, s, r, 0; rewrite Hi64 by lia;
    split; [done|]; pose proof (proj1 Hs) as Hsw;
    split; [done|rewrite zslice_empty by lia; by apply stored_nil|split_and!; done || lia
           |unfold rest_of_file; lia|left; lia|unfold rest_of_file; lia].
  set (request := Z.min (size - total) chunk_size).
  assert (0 < request <= size - total) as Hreq by (unfold request, chunk_size; lia).
  destruct (st_read (fr_file r) request) as [bytes file] eqn:Hread.
  apply st_read_spec in Hread as (Hbs & Hk & Hkr & Hadv & Hall); [|done|lia].
  set (k := zlen bytes) in *. set (r1 := mkFileRecord file (fr_path r) (fr_position r + k)) in *.
  specialize (Hok Hlt).
  destruct (read_store s (buffer + total) bytes) as (s1 & Hw & Hs1 & Hst); [done|lia| |].
  { fold k. intros Hk0. rewrite <- (Z.add_0_r (buffer + total)).
    eapply (store_ok_part true s s); [apply Hs|apply Hs|done|exact Hok|..]. all: lia. }
  fold k in Hw. rewrite Hw. cbn [mbind result_bind negb fr_position fr_path].
  unfold rest_of_file in *. assert (zlen (file_bytes r) <= i64_max) as Hfl by (unfold file_bytes; lia).
  destruct (Z.ltb_spec (i64_max - fr_position r) k); [lia|]. fold r1.
  assert (forall v, v = total + k \/ total + k = 0 /\ v = error kErrorEbadf /\ st_bad file = true ->
    (readable_file r -> k = Z.min (size - total) (rest_of_file r) /\ v = total + k) ->
    read_effect s s1 r r1 buffer size total v k) as Hstop.
  { intros v Hv Ha. split; [done|by rewrite <- Hbs|done|unfold rest_of_file; lia|exact Hv|done]. }
  destruct (st_bad file) eqn:Hbad.
  { do 4 eexists. split; [done|]. unfold read_stops. apply Hstop.
    - destruct (Z.eqb_spec (total + k) 0); [right; done|left]. apply Hi64; lia.
    - intros Hrd. by destruct (Hall Hrd). }
  destruct (Z.ltb_spec k request) as [Hshort|Hfull].
  { do 4 eexists. split; [done|]. rewrite Hi64 by lia. apply Hstop; [by left|].
    intros Hrd. destruct (Hall Hrd) as [_ Hkm]. split; [|done]. unfold rest_of_file. lia. }
  assert (k = request) as Hkeq by lia.
  assert (file_bytes r1 = file_bytes r) as Hfb
    by (destruct Hadv as (_ & Hf & _); unfold file_bytes; cbn; by cbn in Hf; rewrite Hf).
  destruct (IH s1 r1 (total + k)) as (v & s' & r' & n & -> & Heff).
  { done. } { apply Hadv. } { lia. } { done. } { done. } { cbn. lia. }
  { intros Hlt2. replace (buffer + (total + k)) with (buffer + total + k) by lia.
    apply (store_ok_part true s s1 _ (size - total)); [apply Hs|apply Hs1|apply Hst|done|lia..]. }
  { unfold request, chunk_size in *. lia. }
  destruct Heff as [E1 E2 E3 E4 E5 E6]. unfold rest_of_file in *. rewrite Hfb in *. cbn [fr_position r1] in *.
  exists v, s', r', (k + n). split; [done|]. split.
  - done.
  - rewrite zslice_append by lia. rewrite <- Hbs. apply (stored_app s s1 s'); [done|]. fold k.
    by replace (buffer + total + k) with (buffer + (total + k)) by lia.
  - by eapply advanced_trans.
  - unfold rest_of_file. lia.
  - destruct E5 as [->|(? & ? & ?)]; [left; lia|lia].
  - intros Hrd. destruct (Hall Hrd) as [Hb1 Hk1].
    destruct E6 as [-> ->].
    + split; [done|]. destruct Hadv as (_ & Hf & _). rewrite Hf. apply Hrd.
    + unfold rest_of_file. lia.
Qed.

End Read.

(** ** The snapshot of a mapped file *)

Section Snapshot.

Lemma st_good_clear st : st_good (st_clear st) = true.
Proof. done. Qed.

(** Seeking a good stream inside its limits. *)
Lemma st_seekg_good st offset origin :
  st_good st = true ->
  let target := offset + match origin with
                         | seek_beg => 0
                         | seek_cur => st_position st
                         | seek_end => zlen (hf_bytes (st_file st))
                         end in
  st_seekg st offset origin =
    if (0 <=? target) && (target <=? hf_limit (st_file st))
    then mkStream (st_file st) target false false false
    else mkStream (st_file st) (st_position st) false true false.
Proof.
  unfold st_good. by destruct st as [file p [] [] []].
Qed.

Lemma restore_gives_back r file :
  record_wf r -> st_file file = st_file (fr_file r) ->
  restore_file_position (fr_file r) (mkFileRecord file (fr_path r) (fr_position r)) = (true, r).
Proof.
  intros [Hp Hl Hr _ _] Hf. unfold restore_file_position. cbn [fr_file fr_path fr_position].
  rewrite st_seekg_good by done. cbn -[hf_limit]. rewrite Z.add_0_r, Hf.
  destruct (Z.leb_spec 0 (fr_position r)); [|lia].
  destruct (Z.leb_spec (fr_position r) (hf_limit (st_file (fr_file r)))); [|lia]. cbn.
  destruct r as [[] ? ?]. cbn in *. by subst.
Qed.

(** The copy loop hands over the bytes, or stops at a refused read. *)
Lemma snapshot_loop_spec fuel r file offset size :
  record_wf r -> 0 <= offset -> offset + size <= zlen (file_bytes r) ->
  st_file file = st_file (fr_file r) ->
  forall k, 0 <= k <= size -> st_good file = true -> st_position file = offset + k ->
  size - k <= chunk_size * Z.of_nat fuel ->
  exists copied file',
    snapshot_loop fuel file size (zslice (file_bytes r) offset k) = Ok (copied, file') /\
    st_file file' = st_file (fr_file r) /\
    (copied = None \/ copied = Some (zslice (file_bytes r) offset size)) /\
    ((forall p n, hf_refuses (st_file (fr_file r)) p n = false) -> copied <> None).
Proof.
  intros Hr Ho He. revert file. induction fuel as [|fuel IH]; intros file Hf k Hk Hg Hp Hfuel;
    cbn [snapshot_loop]; rewrite zslice_length by lia.
  all: destruct (Z.leb_spec size k) as [Hle|Hlt].
  2: lia.
  1, 2: assert (k = size) as -> by lia; eauto 10.
  set (request := Z.min chunk_size (size - k)). unfold st_read. rewrite Hg, Hf. cbn [negb].
  destruct (hf_refuses _ _ _) eqn:Hrf.
  { assert (negb (zlen (@nil byte) =? request) = true) as ->
      by (apply negb_true_iff, Z.eqb_neq; unfold request, chunk_size; cbn; lia).
    exists None. eexists. split; [done|]. split; [done|]. split; [by left|].
    intros Hn. by rewrite Hn in Hrf. }
  fold (file_bytes r). rewrite Hp.
  assert (zlen (zslice (file_bytes r) (offset + k) request) = request) as Hlen
    by (apply zslice_length; unfold request, chunk_size in *; lia).
  rewrite Hlen, Z.eqb_refl, Z.ltb_irrefl. cbn [negb].
  rewrite <- zslice_append by (unfold request, chunk_size in *; lia).
  apply IH; [done|unfold request, chunk_size in *; lia|done|cbn; lia
            |unfold request, chunk_size in *; lia].
Qed.

(** The snapshot leaves the record as it was: position and state bits. *)
Lemma file_snapshot_spec r size offset :
  record_wf r -> in_u64 size -> 0 <= offset ->
  exists answer, file_snapshot r size offset = Ok (answer, r) /\
    (if offset + size <=? zlen (file_bytes r)
     then answer = inr (zslice (file_bytes r) offset size) \/
          answer = inl (error kErrorEnotsup) /\
          ~ (forall p n, hf_refuses (st_file (fr_file r)) p n = false)
     else answer = inl (error kErrorEnotsup)).
Proof.
  intros Hr Hz Ho. pose proof Hr as [Hp Hl Hrg _ _]. unfold file_snapshot, in_u64 in *.
  rewrite st_seekg_good by done. cbn [st_file st_clear with_state]. fold (file_bytes r) in *.
  destruct (Z.leb_spec 0 (0 + zlen (file_bytes r))); [|lia].
  destruct (Z.leb_spec (0 + zlen (file_bytes r)) (hf_limit (st_file (fr_file r)))); [|lia].
  cbn [andb]. unfold st_tellg. cbn [st_good st_eof st_fail st_bad orb negb st_position].
  rewrite Z.add_0_l. change (negb (st_good _)) with false. cbn iota.
  destruct (Z.eqb_spec (zlen (file_bytes r)) (-1)); [lia|].
  destruct (Z.ltb_spec (zlen (file_bytes r)) 0); [lia|]. cbn [orb].
  destruct (Z.leb_spec (offset + size) (zlen (file_bytes r))) as [Hle|Hgt].
  2: { assert ((zlen (file_bytes r) <? offset) || (zlen (file_bytes r) - offset <? size) = true) as ->
         by (apply orb_true_iff; rewrite !Z.ltb_lt; lia).
       rewrite restore_gives_back by done. by eexists. }
  destruct (Z.ltb_spec (zlen (file_bytes r)) offset); [lia|].
  destruct (Z.ltb_spec (zlen (file_bytes r) - offset) size); [lia|]. cbn [orb].
  destruct (Z.ltb_spec u64_max size); [lia|].
  rewrite st_seekg_good by done. cbn [st_file st_position]. rewrite Z.add_0_r.
  destruct (Z.leb_spec 0 offset); [|lia].
  destruct (Z.leb_spec offset (hf_limit (st_file (fr_file r)))); [|lia]. cbn [andb st_failed st_fail st_bad orb].
  destruct (snapshot_loop_spec (S (Z.to_nat (size / chunk_size))) r
    (mkStream (st_file (fr_file r)) offset false false false) offset size) with (k := 0)
    as (copied & file' & Hloop & Hf' & Hcopied & Hnn); [done|done|done|done|lia|done|cbn; lia| |].
  { unfold chunk_size. Z.div_mod_to_equations. lia. }
  rewrite zslice_empty in Hloop by lia. cbn [mbind result_bind]. rewrite Hloop. cbn [mbind result_bind].
  rewrite restore_gives_back by done. cbn [negb].
  destruct Hcopied as [->| ->]; eexists; (split; [done|]); [right|by left].
  split; [done|]. intros Hn. by apply Hnn in Hn.
Qed.

End Snapshot.

(** ** Descriptors *)

Section Descriptors.

(** The loop, counted one by one. *)
Fixpoint attempts {S R} (n : nat) (step : S -> S + R) (s : S) : S + R :=
  match n with
  | O => inl s
  | Datatypes.S n => match step s with inl s => attempts n step s | inr r => inr r end
  end.

Lemma attempts_add {S R} n m (step : S -> S + R) s :
  attempts (n + m) step s =
    match attempts n step s with inl s => attempts m step s | inr r => inr r end.
Proof. revert s. induction n as [|n IH]; intros s; cbn; [done|]. destruct (step s); auto. Qed.

Lemma attempt_attempts {S R} p (step : S -> S + R) s :
  attempt p step s = attempts (Pos.to_nat p) step s.
Proof.
  revert s. induction p as [p IH|p IH|]; intros s.
  - replace (Pos.to_nat p~1) with (1 + (Pos.to_nat p + Pos.to_nat p))%nat by lia.
    cbn [attempt attempts Nat.add]. destruct (step s); [|done]. rewrite attempts_add, <- IH.
    destruct (attempt p step s0); auto.
  - replace (Pos.to_nat p~0) with (Pos.to_nat p + Pos.to_nat p)%nat by lia.
    cbn [attempt]. rewrite attempts_add, <- IH. destruct (attempt p step s); auto.
  - change (step s = match step s with inl s => inl s | inr r => inr r end). by destruct (step s).
Qed.

Definition descriptors : Z := INT_MAX - 3.

Definition normal_fd (next_fd : Z) : Z :=
  if (next_fd <? 3) || (next_fd =? INT_MAX) then 3 else next_fd.

Lemma normal_fd_range next_fd : next_fd <= INT_MAX -> 3 <= normal_fd next_fd < INT_MAX.
Proof.
  intros Hn. unfold normal_fd, INT_MAX in *. destruct (Z.ltb_spec next_fd 3); cbn [orb]; [lia|].
  destruct (Z.eqb_spec next_fd 2147483647); lia.
Qed.

(** The [j]-th descriptor the loop looks at. *)
Definition nth_fd (next_fd : Z) (j : nat) : Z :=
  3 + (normal_fd next_fd - 3 + Z.of_nat j) mod descriptors.

Lemma nth_fd_0 next_fd : next_fd <= INT_MAX -> nth_fd next_fd 0 = normal_fd next_fd.
Proof.
  intros Hn%normal_fd_range. unfold nth_fd, descriptors, INT_MAX in *. rewrite Z.mod_small; lia.
Qed.

Lemma nth_fd_S next_fd j :
  next_fd <= INT_MAX -> nth_fd (normal_fd next_fd + 1) j = nth_fd next_fd (S j).
Proof.
  intros Hn%normal_fd_range. unfold nth_fd. f_equal.
  assert (normal_fd (normal_fd next_fd + 1) - 3 = (normal_fd next_fd - 3 + 1) mod descriptors) as ->.
  { unfold normal_fd at 1. destruct (Z.ltb_spec (normal_fd next_fd + 1) 3); [lia|]. cbn [orb].
    unfold descriptors, INT_MAX in *. destruct (Z.eqb_spec (normal_fd next_fd + 1) 2147483647) as [E|].
    - replace (normal_fd next_fd - 3 + 1) with 2147483644 by lia. done.
    - rewrite Z.mod_small; lia. }
  rewrite Zplus_mod_idemp_l. f_equal. lia.
Qed.

Lemma attempts_spec files n next_fd :
  next_fd <= INT_MAX ->
  match attempts n (try_descriptor files) next_fd with
  | inr fd => files !! fd = None /\ 3 <= fd < INT_MAX
  | inl next_fd' => next_fd' <= INT_MAX /\
      forall j, (j < n)%nat -> is_Some (files !! nth_fd next_fd j)
  end.
Proof.
  revert next_fd. induction n as [|n IH]; intros next_fd Hn; cbn; [split; [done|lia]|].
  unfold try_descriptor at 1. fold (normal_fd next_fd).
  pose proof (normal_fd_range next_fd Hn) as Hr.
  case_bool_decide as Hin.
  - specialize (IH (normal_fd next_fd + 1) ltac:(lia)).
    destruct (attempts n _ _) as [next_fd'|fd]; [|done]. destruct IH as [Hle IH]. split; [done|].
    intros [|j] Hj; [by rewrite nth_fd_0|]. rewrite <- nth_fd_S by done. apply IH. lia.
  - split; [|done]. by apply eq_None_not_Some.
Qed.

(** The loop meets every descriptor. *)
Lemma attempts_find (files : gmap Z FileRecord) n next_fd :
  next_fd <= INT_MAX -> descriptors <= Z.of_nat n -> Z.of_nat (size files) < descriptors ->
  exists fd, attempts n (try_descriptor files) next_fd = inr fd.
Proof.
  intros Hn Hd Hs. pose proof (attempts_spec files n next_fd Hn) as Ha.
  destruct (attempts n _ _) as [next_fd'|fd]; [exfalso|by exists fd]. destruct Ha as [_ Ha].
  assert (0 < descriptors) as Hd0 by done.
  set (all := list_to_set (C := gset Z) (seqZ 3 descriptors)).
  assert (all ⊆ dom files) as Hsub.
  { intros fd (Hge & Hlt)%elem_of_list_to_set%elem_of_seqZ. apply elem_of_dom.
    set (j := (fd - 3 - (normal_fd next_fd - 3)) mod descriptors).
    assert (0 <= j < descriptors) as Hj by (by apply Z.mod_pos_bound).
    replace fd with (nth_fd next_fd (Z.to_nat j)); [apply Ha; lia|]. unfold nth_fd.
    rewrite Z2Nat.id by lia. unfold j. rewrite Zplus_mod_idemp_r, Z.mod_small; lia. }
  apply subseteq_size in Hsub. unfold all in Hsub.
  rewrite size_list_to_set, length_seqZ, size_dom in Hsub by apply NoDup_seqZ. lia.
Qed.

Lemma insert_file_spec f record :
  next_fd_ f <= INT_MAX ->
  exists v f', insert_file f record = (v, f') /\ guest_root_ f' = guest_root_ f /\
    next_fd_ f' <= INT_MAX /\
    (3 <= v < INT_MAX /\ files_ f !! v = None /\ files_ f' = <[v := record]> (files_ f) \/
     v = error kErrorEnomem /\ files_ f' = files_ f /\ descriptors <= Z.of_nat (size (files_ f))).
Proof.
  intros Hn. unfold insert_file. rewrite attempt_attempts.
  pose proof (attempts_spec (files_ f) (Pos.to_nat 2147483647) (next_fd_ f) Hn) as Ha.
  destruct (attempts _ _ _) as [next_fd'|fd] eqn:E; do 2 eexists; (split; [done|]); cbn.
  - split; [done|]. split; [apply Ha|]. right. split; [done|]. split; [done|].
    destruct (Z.lt_ge_cases (Z.of_nat (size (files_ f))) descriptors) as [Hlt|]; [|done].
    apply (attempts_find _ (Pos.to_nat 2147483647) (next_fd_ f)) in Hlt as [fd Hfd]; [|done|].
    { congruence. }
    rewrite positive_nat_Z. done.
  - split; [done|]. split; [lia|]. left. split; [apply Ha|]. split; [apply Ha|done].
Qed.

End Descriptors.

(** ** Properties *)

(** The state of the service: open records are well formed and their
    descriptors are the ones the loop hands out. *)
Record files_wf (f : FileState) : Prop := {
  fw_next : next_fd_ f <= INT_MAX;
  fw_files fd r : files_ f !! fd = Some r -> record_wf r /\ 3 <= fd < INT_MAX;
}.

Lemma elements_within_prefix root path :
  elements_within root path = true -> exists rest, path = root ++ rest.
Proof.
  revert path. induction root as [|r root IH]; intros path Hw; [by exists path|].
  destruct path as [|p path]; cbn in Hw; [done|]. case_decide; [|done]. subst.
  destruct (IH path Hw) as [rest ->]. by exists rest.
Qed.

(** The answers of the kernel's error codes are negative, those of successful
    calls are not. *)
Lemma error_codes_negative :
  error kErrorEacces < 0 /\ error kErrorEfault < 0 /\ error kErrorEnoent < 0 /\
  error kErrorEnomem < 0 /\ error kErrorEbadf < 0 /\ error kErrorEinval < 0 /\
  error kErrorEnotsup < 0 /\ error kErrorEagain < 0.
Proof. by vm_compute. Qed.

Lemma update_record_wf f fd r r' :
  files_wf f -> files_ f !! fd = Some r -> record_wf r' ->
  files_wf (with_files f (<[fd := r']> (files_ f))).
Proof.
  intros [Hn Hf] Hr Hw. split; [done|]. intros fd' x. cbn.
  destruct (decide (fd' = fd)) as [->|].
  - rewrite lookup_insert_eq. intros [= <-]. split; [done|]. by apply (Hf fd r).
  - rewrite lookup_insert_ne by done. apply Hf.
Qed.

Section ReadProperty.
Context `{HostOs}.

(** [read].  Reading from an open file into a writable buffer always
    returns, and does what one copy would do, though the code copies by chunks
    of 64 KiB: the next bytes of the file, as many as the buffer and the file
    allow, are in the buffer, every other byte and attribute of guest memory is
    as before, and the record stands behind them.  When the host refuses a
    read, the bytes before it are kept, and the answer is [EBADF] only when
    there are none.  Without a buffer or a descriptor nothing changes. *)
Theorem read_copies_the_file s f fd buffer size :
  space_ok s -> files_wf f -> in_u64 buffer -> in_u64 size ->
  (forall r, files_ f !! fd = Some r -> guest_writable s buffer size = true -> 0 < size ->
     exists value s' r' n,
       read s f fd buffer size = Ok (value, s', with_files f (<[fd := r']> (files_ f))) /\
       read_effect s s' r r' buffer size 0 value n) /\
  (guest_writable s buffer size = false -> read s f fd buffer size = Ok (error kErrorEfault, s, f)) /\
  (guest_writable s buffer size = true -> files_ f !! fd = None ->
     read s f fd buffer size = Ok (error kErrorEbadf, s, f)).
Proof.
  intros Hs Hf Hb Hz. unfold read, in_u64 in *. split; [|split].
  - intros r Hr Hw Hsz. rewrite Hw, Hr. cbn [negb]. destruct (Z.eqb_spec size 0) as [|_]; [lia|].
    pose proof Hs as [Hwf _]. apply guest_writable_iff in Hw; [|done|lia].
    pose proof Hw as (x & [Hx Hxe] & _). destruct (owner_bounds s buffer x Hwf Hx) as (_ & Hb1 & Hb2).
    destruct (read_loop_spec (S (Z.to_nat (size / chunk_size))) s r buffer size 0)
      as (value & s' & r' & n & -> & Heff); [done|by apply (fw_files f Hf fd)|lia|lia|lia| | | |].
    + pose proof (proj1 (fw_files f Hf fd r Hr)) as [_ _ Hrange _ _]. lia.
    + intros _. by rewrite Z.add_0_r, Z.sub_0_r.
    + unfold chunk_size. Z.div_mod_to_equations. lia.
    + by exists value, s', r', n.
  - by intros ->.
  - by intros -> ->.
Qed.

End ReadProperty.

Section Properties.
Context `{F : HostFs, !HostFsLaws F}.

(** The path a successful [resolve_guest_path] answers. *)
Lemma resolve_guest_path_within f guest_path host_path :
  resolve_guest_path f guest_path = Some host_path ->
  exists rest, path_elements host_path = path_elements (guest_root_ f) ++ rest /\
    ".."%string ∉ rest.
Proof.
  unfold resolve_guest_path. intros (relative & _ & Hc)%bind_Some.
  apply bind_Some in Hc as (candidate & Hcan & Hw).
  destruct (path_is_within (guest_root_ f) candidate) eqn:Hin; [|done]. injection Hw as ->.
  apply elements_within_prefix in Hin as [rest Hrest]. exists rest. split; [done|].
  apply fs_canonical_ok in Hcan as (_ & _ & Hdots). rewrite Hrest in Hdots. set_solver.
Qed.

(** Whether [open_readonly] gets as far as the descriptor table, and with
    which host path and file. *)
Definition openable (s : space) (f : FileState) (path_address flags : Z)
    (host_path : string) (file : HostFile) : Prop :=
  guest_root_ f <> ""%string /\ Z.land flags kMutatingOpenFlags = 0 /\
  fs_status host_path = Some ft_regular /\ fs_open host_path = Some file /\
  exists guest_path, read_guest_c_string s path_address = Some guest_path /\
    resolve_guest_path f guest_path = Some host_path.

Lemma open_readonly_cases s f path_address flags mode :
  (exists host_path file, openable s f path_address flags host_path file /\
     open_readonly s f path_address flags mode =
       insert_file f (mkFileRecord (mkStream file 0 false false false) host_path 0)) \/
  (forall host_path file, ~ openable s f path_address flags host_path file) /\
  exists code, code < 0 /\ open_readonly s f path_address flags mode = (code, f).
Proof.
  pose proof error_codes_negative as (E1 & E2 & E3 & _). unfold open_readonly, openable.
  case_bool_decide as Hroot; cbn [orb]; [right; split; [by intros ?? []|eauto]|].
  destruct (Z.eqb_spec (Z.land flags kMutatingOpenFlags) 0) as [Hfl|]; cbn [negb];
    [|right; split; [by intros ?? (_ & ? & _)|eauto]].
  destruct (read_guest_c_string s path_address) as [guest_path|];
    [|right; split; [by intros ?? (_ & _ & _ & _ & ? & ? & _)|eauto]].
  destruct (resolve_guest_path f guest_path) as [host_path|] eqn:Hres.
  2: { right. split; [|eauto]. intros ?? (_ & _ & _ & _ & ? & ? & ?). congruence. }
  unfold fs_is_regular_file. case_bool_decide as Hreg; cbn [negb].
  2: { right. split; [|eauto]. intros ?? (_ & _ & Hst & _ & ? & ? & ?). congruence. }
  destruct (fs_open host_path) as [file|] eqn:Hop.
  2: { right. split; [|eauto]. intros ?? (_ & _ & _ & Hop' & ? & ? & ?). congruence. }
  left. exists host_path, file. split; [|done]. split_and!; eauto.
Qed.


(** [seek] and [close] against a table of descriptors.  A seek to a
    position the host can reach answers it and moves the record there, in a good
    state; any other is [EINVAL] and leaves the position. Both change no
    other descriptor; a closed descriptor is refused by every service until it
    is opened again. *)
Theorem descriptors_are_independent f fd offset whence :
  files_wf f -> in_i64 offset ->
  (forall r, files_ f !! fd = Some r ->
     (forall code, seek_origin whence = inl code -> seek f fd offset whence = (code, f)) /\
     (forall origin, seek_origin whence = inr origin ->
        let target := offset + match origin with
                               | seek_beg => 0
                               | seek_cur => fr_position r
                               | seek_end => zlen (file_bytes r)
                               end in
        exists v r', seek f fd offset whence = (v, with_files f (<[fd := r']> (files_ f))) /\
          record_wf r' /\ file_bytes r' = file_bytes r /\ fr_path r' = fr_path r /\
          st_good (fr_file r') = true /\
          (v, fr_position r') =
            (if (0 <=? target) && (target <=? hf_limit (st_file (fr_file r)))
             then (target, target) else (error kErrorEinval, fr_position r))) /\
     close f fd = (0, with_files f (delete fd (files_ f)))) /\
  (files_ f !! fd = None -> forall s stat_address,
     seek f fd offset whence = (error kErrorEbadf, f) /\ close f fd = (error kErrorEbadf, f) /\
     fstat s f fd stat_address = Ok (error kErrorEbadf, s)).
Proof.
  intros Hf Ho. split.
  - intros r Hr. unfold seek, close. rewrite Hr. split; [by intros code ->|]. split; [|done].
    intros origin ->. unfold in_i64 in Ho.
    destruct (Z.ltb_spec offset (-9223372036854775808)); [lia|].
    destruct (Z.ltb_spec i64_max offset); [lia|]. cbn [orb].
    pose proof (proj1 (fw_files f Hf fd r Hr)) as [Hp Hl Hrg _ _].
    unfold seek_record. rewrite st_seekg_good by done. cbn [st_file st_position st_clear with_state].
    rewrite Hp. fold (file_bytes r) in *.
    set (target := offset + _) in *.
    destruct ((0 <=? target) && (target <=? hf_limit (st_file (fr_file r)))) eqn:Hin.
    + apply andb_true_iff in Hin as [Hlo%Z.leb_le Hhi%Z.leb_le]. cbn.
      destruct (Z.eqb_spec target (-1)); [lia|]. destruct (Z.ltb_spec target 0); [lia|].
      do 2 eexists. split; [done|]. split_and!; [split; cbn; done || lia|done..].
    + cbn. do 2 eexists. split; [done|]. split_and!; [split; cbn; done || lia|done..].
  - intros Hn s stat_address. unfold seek, close, fstat. by rewrite Hn.
Qed.

End Properties.

(** ** Witnesses

    A host with one directory and one file of five bytes. *)

Definition tiny_file : HostFile :=
  mkHostFile [Byte.x10; Byte.x11; Byte.x12; Byte.x13; Byte.x14] (fun _ _ => false) 1000.

Definition tiny_fs : HostFs := {|
  fs_canonical p :=
    if bool_decide (p = "/games"%string) then Some "/games"%string
    else if bool_decide (p = "/games/a.bin"%string) then Some "/games/a.bin"%string else None;
  fs_status p :=
    if bool_decide (p = "/games"%string) then Some ft_directory
    else if bool_decide (p = "/games/a.bin"%string) then Some ft_regular else None;
  fs_file_size p := if bool_decide (p = "/games/a.bin"%string) then Some 5 else None;
  fs_last_write_time _ := None;
  fs_open p := if bool_decide (p = "/games/a.bin"%string) then Some tiny_file else None |}.

Lemma tiny_fs_laws : HostFsLaws tiny_fs.
Proof.
  split.
  - intros p q. cbn. repeat case_bool_decide; intros [= <-]; (split; [done|]); split; cbn;
      repeat (apply not_elem_of_cons; split; [done|]); apply not_elem_of_nil.
  - intros p f. cbn. case_bool_decide; [|done]. intros [= <-]. cbn. lia.
Qed.

(** The text [/app0/a.bin], with its terminator, at address 80. *)
Definition tiny_path_space : space :=
  match write tiny_buffered 80 (list_byte_of_string "/app0/a.bin" ++ [zero_byte]) with
  | Ok (_, s) => s
  | Throw _ => tiny_buffered
  end.

Definition tiny_files : FileState := (@set_guest_root tiny_fs initial_files "/games").2.
Definition tiny_open : FileState :=
  (@open_readonly tiny_fs tiny_path_space tiny_files 80 0 0).2.

Lemma tiny_files_wf : files_wf tiny_files.
Proof. split; [by vm_compute|]. intros fd r Hr. vm_compute in Hr. discriminate Hr. Qed.

Lemma tiny_open_wf : files_wf tiny_open.
Proof.
  split; [by vm_compute|]. intros fd r.
  assert (files_ tiny_open = {[ 3 := mkFileRecord (mkStream tiny_file 0 false false false)
                                       "/games/a.bin" 0 ]}) as -> by reflexivity.
  intros [<- <-]%lookup_singleton_Some. split; [|done]. by split; cbn; try lia.
Qed.


Lemma files_space_ok : @space_ok tiny_host tiny_buffered.
Proof.
  split; [exact (@reachable_wf tiny_host tiny_host_laws _ tiny_buffered_reachable)|].
  intros a c Hn. by destruct Hn.
Qed.

(** Four bytes of the file, at 100. *)
Definition tiny_record : FileRecord :=
  mkFileRecord (mkStream tiny_file 0 false false false) "/games/a.bin" 0.

Lemma read_copies_the_file_witness :
  exists s' f', read tiny_buffered tiny_open 3 100 4 = Ok (4, s', f') /\
    @stored tiny_host tiny_buffered s' 100 [Byte.x10; Byte.x11; Byte.x12; Byte.x13].
Proof.
  destruct (@read_copies_the_file tiny_host tiny_buffered tiny_open 3 100 4)
    as (Hread & _); [exact files_space_ok|exact tiny_open_wf|split; lia|split; lia|].
  destruct (Hread tiny_record) as (value & s' & r' & n & E & Heff); [reflexivity|reflexivity|lia|].
  destruct (re_all _ _ _ _ _ _ _ _ _ Heff) as [Hn ->]; [by split|].
  change (Z.min (4 - 0) (rest_of_file tiny_record)) with 4 in Hn. subst n.
  do 2 eexists. split; [exact E|]. exact (re_stored _ _ _ _ _ _ _ _ _ Heff).
Defined.

Lemma descriptors_are_independent_witness :
  (seek tiny_open 3 (-2) 2).1 = 3 /\ (close tiny_open 3).1 = 0.
Proof.
  destruct (@descriptors_are_independent tiny_fs tiny_open 3 (-2) 2) as (H1 & _);
    [exact tiny_open_wf|unfold in_i64; lia|].
  destruct (files_ tiny_open !! 3) as [r|] eqn:Hr; [|vm_compute in Hr; discriminate Hr].
  destruct (H1 r eq_refl) as (_ & Hs & ->).
  destruct (Hs seek_end eq_refl) as (v & r' & -> & _ & _ & _ & _ & E). revert E Hr.
  vm_compute. intros E Hr. injection Hr as <-. injection E as -> _. split; reflexivity.
Defined.
