(* ===== verification/RegionList.v ===== *)
(** * Regions as a list, and counting addresses

    What the kernel services see of the address space: [regions], in
    address order and disjoint, and the cells it covers; and [zcount], the
    number of addresses of an interval with a property. *)

From Stdlib Require Import Sorting.Sorted.
From S2P Require Import Prelude OrdMap NativeArena GuestMemory GuestMemoryProps KernelMem.

Local Open Scope Z_scope.

(** ** Counting in an interval *)

Fixpoint count_from (P : Z -> bool) (lo : Z) (n : nat) : Z :=
  match n with
  | O => 0
  | S n => count_from P lo n + (if P (lo + Z.of_nat n) then 1 else 0)
  end.

(** The addresses of [lo, lo + n) with the property. *)
Definition zcount (P : Z -> bool) (lo n : Z) : Z := count_from P lo (Z.to_nat n).

Lemma zcount_ext P Q lo n :
  (forall a, lo <= a < lo + n -> P a = Q a) -> zcount P lo n = zcount Q lo n.
Proof.
  unfold zcount. intros He.
  assert (Z.of_nat (Z.to_nat n) <= Z.max 0 n) as Hn by lia. revert Hn.
  induction (Z.to_nat n) as [|k IH]; intros Hn; cbn; [done|].
  rewrite IH, (He (lo + Z.of_nat k)) by lia. done.
Qed.

Lemma zcount_range P lo n : 0 <= zcount P lo n <= Z.max 0 n.
Proof.
  unfold zcount. assert (Z.of_nat (Z.to_nat n) <= Z.max 0 n) as Hn by lia. revert Hn.
  induction (Z.to_nat n) as [|k IH]; intros Hn; cbn; [lia|].
  specialize (IH ltac:(lia)).
  assert (count_from P lo k <= Z.of_nat k) as Hk.
  { clear. induction k as [|k IH]; cbn; [lia|]. destruct (P _); lia. }
  destruct (P _); lia.
Qed.

Lemma count_from_add P lo n m :
  count_from P lo (n + m) = count_from P lo n + count_from P (lo + Z.of_nat n) m.
Proof.
  induction m as [|m IH]; [rewrite Nat.add_0_r; cbn; lia|]. rewrite Nat.add_succ_r. cbn.
  rewrite IH. replace (lo + Z.of_nat (n + m)) with (lo + Z.of_nat n + Z.of_nat m) by lia. lia.
Qed.

Lemma zcount_split P lo n m :
  0 <= n -> 0 <= m -> zcount P lo (n + m) = zcount P lo n + zcount P (lo + n) m.
Proof.
  intros Hn Hm. unfold zcount. rewrite Z2Nat.inj_add, count_from_add by lia.
  by rewrite Z2Nat.id by lia.
Qed.

(** Changing a property inside an interval changes the count as much as the
    count of the interval. *)
Lemma zcount_replace P Q lo n b size :
  lo <= b -> 0 <= size -> b + size <= lo + n ->
  (forall a, in_range b size a = false -> P a = Q a) ->
  zcount P lo n - zcount P b size = zcount Q lo n - zcount Q b size.
Proof.
  intros Hlo Hs Hhi He.
  assert (n = (b - lo) + (size + (lo + n - (b + size)))) as -> by lia.
  rewrite !zcount_split by lia. replace (lo + (b - lo)) with b by lia.
  rewrite (zcount_ext P Q lo), (zcount_ext P Q (b + size)); [lia| |];
    intros a Ha; apply He, in_range_false; lia.
Qed.

Lemma zcount_all P lo n : 0 <= n -> (forall a, lo <= a < lo + n -> P a = true) -> zcount P lo n = n.
Proof.
  intros Hn Ha. rewrite (zcount_ext P (fun _ => true)) by done. unfold zcount.
  rewrite <- (Z2Nat.id n) at 2 by done. induction (Z.to_nat n) as [|k IH]; cbn; lia.
Qed.

Lemma zcount_none P lo n : (forall a, lo <= a < lo + n -> P a = false) -> zcount P lo n = 0.
Proof.
  intros Ha. rewrite (zcount_ext P (fun _ => false)) by done. unfold zcount.
  induction (Z.to_nat n) as [|k IH]; cbn; lia.
Qed.

Lemma zcount_or P Q lo n :
  (forall a, lo <= a < lo + n -> P a = true -> Q a = false) ->
  zcount (fun a => P a || Q a) lo n = zcount P lo n + zcount Q lo n.
Proof.
  intros Hd. unfold zcount. assert (Z.of_nat (Z.to_nat n) <= Z.max 0 n) as Hn by lia. revert Hn.
  induction (Z.to_nat n) as [|k IH]; intros Hn; cbn; [done|]. rewrite IH by lia.
  specialize (Hd (lo + Z.of_nat k) ltac:(lia)). destruct (P _); cbn; [rewrite Hd by done|]; lia.
Qed.

(** The addresses two intervals share. *)
Lemma zcount_interval b size lo n :
  0 <= size -> 0 <= n ->
  zcount (in_range b size) lo n = Z.max 0 (Z.min (b + size) (lo + n) - Z.max b lo).
Proof.
  intros Hs Hn. unfold zcount. rewrite <- (Z2Nat.id n) at 2 by done.
  induction (Z.to_nat n) as [|k IH]; cbn [count_from]; [lia|]. rewrite IH.
  destruct (in_range b size (lo + Z.of_nat k)) eqn:E;
    [apply in_range_true in E|apply in_range_false in E]; lia.
Qed.

(** A property that holds only inside an interval is counted there. *)
Lemma zcount_support P lo n top :
  0 <= lo -> 0 <= n -> lo + n <= top -> (forall a, P a = true -> lo <= a < lo + n) ->
  zcount P 0 top = zcount P lo n.
Proof.
  intros Hlo Hn Ht Hs.
  assert (forall a, a < lo \/ lo + n <= a -> P a = false) as Hout.
  { intros a Ha. destruct (P a) eqn:E; [|done]. apply Hs in E. lia. }
  replace top with (lo + (n + (top - (lo + n)))) by lia. rewrite !zcount_split by lia.
  rewrite (zcount_none P 0 lo), (zcount_none P (0 + lo + n) (top - (lo + n)))
    by (intros a ?; apply Hout; lia).
  rewrite !Z.add_0_l. lia.
Qed.

(** Emptying an interval takes its count away, filling it adds its length. *)
Lemma zcount_remove P Q lo n b size :
  0 <= lo -> 0 <= n -> 0 <= b -> 0 <= size -> (forall a, P a = true -> lo <= a < lo + n) ->
  (forall a, Q a = if in_range b size a then false else P a) ->
  zcount Q lo n = zcount P lo n - zcount P b size.
Proof.
  intros Hlo Hn Hb Hz Hs HQ. set (top := Z.max (lo + n) (b + size)).
  rewrite <- (zcount_support P lo n top), <- (zcount_support Q lo n top); try lia; try done.
  2: { intros a. rewrite HQ. destruct (in_range b size a); [done|apply Hs]. }
  assert (zcount P 0 top - zcount P b size = zcount Q 0 top - zcount Q b size) as E
    by (apply zcount_replace; [done|done|lia|]; intros a Ha; by rewrite HQ, Ha).
  rewrite (zcount_none Q b size) in E by (intros a Ha; by rewrite HQ, (proj2 (in_range_true _ _ _))).
  lia.
Qed.

Lemma zcount_add P Q lo n b size :
  lo <= b -> 0 <= size -> b + size <= lo + n ->
  (forall a, in_range b size a = true -> P a = false) ->
  (forall a, Q a = if in_range b size a then true else P a) ->
  zcount Q lo n = zcount P lo n + size.
Proof.
  intros Hlo Hz Hhi Hf HQ.
  assert (zcount P lo n - zcount P b size = zcount Q lo n - zcount Q b size) as E
    by (apply zcount_replace; [done..|]; intros a Ha; by rewrite HQ, Ha).
  rewrite (zcount_all Q b size) in E by (done || (intros a Ha; by rewrite HQ, (proj2 (in_range_true _ _ _)))).
  rewrite (zcount_none P b size) in E by (intros a Ha; by apply Hf, in_range_true).
  lia.
Qed.

(** ** The list of regions *)

(** One region ends before the next begins. *)
Definition region_before (i j : RegionInfo) : Prop := ri_base i + ri_size i <= ri_base j.

Definition region_bounded (i : RegionInfo) : Prop :=
  0 <= ri_base i /\ 0 < ri_size i /\ ri_base i + ri_size i <= u64_max.

(** The addresses of a region. *)
Definition region_covers (i : RegionInfo) (a : Z) : bool := in_range (ri_base i) (ri_size i) a.

(** The first region that covers the address. *)
Fixpoint covering (regions : list RegionInfo) (a : Z) : option RegionInfo :=
  match regions with
  | [] => None
  | i :: regions => if region_covers i a then Some i else covering regions a
  end.

Record region_list_wf (regions : list RegionInfo) : Prop := {
  rl_sorted : StronglySorted region_before regions;
  rl_bounded : Forall region_bounded regions;
}.

Lemma covering_elem regions a i :
  region_list_wf regions -> covering regions a = Some i <-> i ∈ regions /\ region_covers i a = true.
Proof.
  intros [Hs Hb]. induction regions as [|j regions IH]; cbn.
  { split; [done|]. by intros [?%elem_of_nil _]. }
  apply StronglySorted_inv in Hs as [Hs Hj]. apply Forall_cons in Hb as [Hbj Hb].
  rewrite elem_of_cons. destruct (region_covers j a) eqn:Hc.
  - split; [intros [= <-]; by split; [left|]|]. intros [[->|Hin] Hc']; [done|].
    rewrite Forall_forall in Hj. specialize (Hj i Hin). unfold region_before in Hj.
    unfold region_covers in *. apply in_range_true in Hc, Hc'. lia.
  - rewrite IH by done. split; [by intros [? ?]; split; [right|]|].
    intros [[->|?] ?]; [congruence|done].
Qed.

Lemma covering_None regions a :
  covering regions a = None <-> forall i, i ∈ regions -> region_covers i a = false.
Proof.
  induction regions as [|j regions IH]; cbn.
  { split; [|done]. by intros _ i ?%elem_of_nil. }
  setoid_rewrite elem_of_cons. destruct (region_covers j a) eqn:Hc.
  - split; [done|]. intros Ha. rewrite Ha in Hc; [done|by left].
  - rewrite IH. split; [|naive_solver]. intros Ha i [->|?]; [done|by apply Ha].
Qed.

Section Space.
Context `{HostOs, !HostOsLaws H}.

Lemma regions_elem s i :
  space_wf s -> i ∈ regions s <->
  exists r, ofind (ri_base i) (regions_ s) = Some r /\ info r = i.
Proof.
  intros [Hm _]. unfold regions. rewrite list_elem_of_In, in_map_iff. split.
  - intros ([k r] & <- & Hin%list_elem_of_In). cbn. apply elem_ofind in Hin; [|apply Hm].
    exists r. split; [|done]. by rewrite (wf_key _ _ _ (wf_region _ _ Hm _ _ Hin)).
  - intros (r & Hf & <-). exists (ri_base (info r), r). split; [done|]. apply list_elem_of_In.
    apply ofind_elem; [apply Hm|done].
Qed.

Lemma regions_sorted native m m' :
  map_wf native m -> sorted m' -> (forall k r, (k, r) ∈ m' -> ofind k m = Some r) ->
  StronglySorted region_before (map (fun kr => info kr.2) m').
Proof.
  intros Hm. induction m' as [|[k r] m' IH]; cbn; intros Hs Hin; [constructor|].
  apply sorted_cons in Hs as [Hs Hlt]. constructor.
  - apply IH; [done|]. intros k' r' Hk. apply Hin. by right.
  - apply Forall_forall. intros i Hi. apply list_elem_of_In, in_map_iff in Hi as ([k' r'] & <- & Hi).
    apply list_elem_of_In in Hi. unfold region_before. cbn.
    assert (ofind k m = Some r) as Hf by (apply Hin; by left).
    assert (ofind k' m = Some r') as Hf' by (apply Hin; by right).
    rewrite (wf_key _ _ _ (wf_region _ _ Hm _ _ Hf)), (wf_key _ _ _ (wf_region _ _ Hm _ _ Hf')).
    eapply wf_disjoint; [done..|]. by eapply Hlt.
Qed.

Lemma regions_wf s : space_wf s -> region_list_wf (regions s).
Proof.
  intros Hs. pose proof (wf_map _ Hs) as Hm. split.
  - eapply regions_sorted; [done|apply Hm|]. intros k r Hin. by apply elem_ofind; [apply Hm|].
  - apply Forall_forall. intros i (r & Hf & <-)%regions_elem; [|done].
    destruct (wf_region _ _ Hm _ _ Hf). unfold region_bounded. lia.
Qed.

Lemma owner_regions s a r :
  space_wf s -> owner (regions_ s) a r -> info r ∈ regions s /\ region_covers (info r) a = true.
Proof.
  intros Hs [Hf Hc]. split; [apply regions_elem; [done|by exists r]|]. by apply in_range_true.
Qed.

(** A cell is the cell of the region that covers its address. *)
Lemma cell_at_covering s a :
  space_wf s -> cell_at s a = (fun i => cell_of i a) <$> covering (regions s) a.
Proof.
  intros Hs. destruct (owner_dec s a Hs) as [[r Ho]|Hn].
  - rewrite (proj1 (at_owner s a r Hs Ho)).
    by rewrite (proj2 (covering_elem _ a (info r) (regions_wf s Hs)) (owner_regions s a r Hs Ho)).
  - rewrite (proj1 (at_no_owner s a Hs Hn)). destruct (covering (regions s) a) as [i|] eqn:Hc; [|done].
    apply covering_elem in Hc as [(r & Hf & <-)%regions_elem Hc]; [|done|by apply regions_wf].
    exfalso. apply (Hn r). split; [done|]. by apply in_range_true in Hc.
Qed.

End Space.
