(* ===== verification/Loader.v ===== *)
(** * Loading modules

    [Runtime::map_image], [find_module_base] and [link_module] of
    [src/src/runtime/runtime.cpp], and [Elf64Image::from_file]: the composition
    of the ELF image, the dynamic-section parser, the guest address space, the
    thread-local storage registry, the rewriting of thread-control-block
    accesses and the linker.

    [policy] is what [host_tcb_patch_policy] answers on the host.  An exception
    leaves the runtime as far as it came; only the exception is modelled. *)

From Stdlib Require Import Strings.String Strings.Ascii.
From S2P Require Import Prelude OrdMap NativeArena GuestMemory GuestMemoryProps KernelMem KernelAttrs KernelTime KernelFiles Elf64 Dynamic Symbols LateImports PatchMemory Linker Tls CpuPatches.

Local Open Scope Z_scope.

Record LoadedModule : Type := mkLoadedModule {
  lm_path : string;
  lm_base : Z;
  lm_entry : Z;
  lm_segments : list RegionInfo;
  lm_dynamic : option DynamicInfo;
  lm_tls : option TlsSegment;
  lm_tls_module_id : Z;
  lm_process_param : Z;
  lm_process_param_size : Z;
  lm_relocations : RelocationReport;
}.

(** The part of [Runtime] that loading changes. *)
Record Runtime : Type := mkRuntime {
  memory_ : space;
  symbols_ : SymbolRegistry;
  tls_registry_ : TlsRegistry;
  late_imports_ : option LateImportTable;
  next_tls_module_id_ : Z;
}.

Definition with_memory (rt : Runtime) (s : space) : Runtime :=
  mkRuntime s (symbols_ rt) (tls_registry_ rt) (late_imports_ rt) (next_tls_module_id_ rt).

(** [std::filesystem::path::filename]. *)
Definition filename (p : string) : string := List.last (segments p) ""%string.

(** ** Helpers *)

Definition segment_protection (flags : Z) : Z :=
  let protection := prot_none in
  let protection := if negb (Z.land flags 0x4 =? 0) then prot_or protection prot_read else protection in
  let protection := if negb (Z.land flags 0x2 =? 0) then prot_or protection prot_write else protection in
  if negb (Z.land flags 0x1 =? 0) then prot_or protection prot_execute else protection.

Definition checked_address (base offset : Z) : result Z :=
  if u64_max - offset <? base then Throw (runtime_error "guest module address overflows")
  else Ok (base + offset).

Definition is_loadable_segment (type : Z) : bool :=
  (type =? kProgramLoad) || (type =? kProgramSceRelro).

(** The segments that [map_image], [module_footprint] and [image_fits_at] do
    not skip. *)
Definition is_mapped (segment : ProgramHeader) : bool :=
  is_loadable_segment (ph_type segment) && negb (ph_memory_size segment =? 0).

Definition has_dynamic_segment (image : Elf64Image) : bool :=
  existsb (fun header => (ph_type header =? kProgramDynamic) && negb (ph_file_size header =? 0))
    (program_headers_ image).

Definition overlaps (base size : Z) (region : RegionInfo) : bool :=
  if (size =? 0) || (ri_size region =? 0) || (u64_max - size <? base)
     || (u64_max - ri_size region <? ri_base region)
  then false
  else (base <? ri_base region + ri_size region) && (ri_base region <? base + size).

(** ** Where a module fits *)

Record ModuleFootprint : Type := mkFootprint { fp_first : Z; fp_end : Z }.

Definition footprint_step (acc : option ModuleFootprint) (segment : ProgramHeader)
  : result (option ModuleFootprint) :=
  if negb (is_mapped segment) then Ok acc
  else if u64_max - ph_memory_size segment <? ph_virtual_address segment
  then Throw (runtime_error "ELF loadable segment range overflows")
  else
    let '(mkFootprint first end_) := default (mkFootprint u64_max 0) acc in
    Ok (Some (mkFootprint (Z.min first (ph_virtual_address segment))
                (Z.max end_ (ph_virtual_address segment + ph_memory_size segment)))).

Definition module_footprint (image : Elf64Image) : result (option ModuleFootprint) :=
  fold_result footprint_step None (program_headers_ image).

Section Space.
Context `{HostOs}.

Definition segment_fits_at (memory : space) (base : Z) (segment : ProgramHeader) : bool :=
  if negb (is_mapped segment) then true
  else if u64_max - ph_virtual_address segment <? base then false
  else
    let address := base + ph_virtual_address segment in
    if u64_max - ph_memory_size segment <? address then false
    else
      let end_ := address + ph_memory_size segment in
      if native_backed memory
         && ((address <? native_base memory) || (native_base memory + native_size memory <? end_))
      then false
      else negb (existsb (overlaps address (ph_memory_size segment)) (regions memory)).

Definition image_fits_at (memory : space) (image : Elf64Image) (base : Z) : bool :=
  if native_backed memory && (u64_max - native_size memory <? native_base memory) then false
  else forallb (segment_fits_at memory base) (program_headers_ image).

(** The first candidate and the limit of the search. *)
Definition base_search_range (memory : space) : result (Z * Z) :=
  if native_backed memory then
    match checked_align_up (native_base memory) page_size with
    | None => Throw (runtime_error "native guest arena cannot place another module")
    | Some aligned =>
        if u64_max - native_size memory <? native_base memory
        then Throw (runtime_error "native guest arena cannot place another module")
        else Ok (aligned, native_base memory + native_size memory)
    end
  else
    let candidate :=
      foldl (fun candidate region =>
               if ri_base region <=? u64_max - ri_size region
               then Z.max candidate (ri_base region + ri_size region) else candidate)
        0x100000000 (regions memory) in
    match checked_align_up candidate page_size with
    | None => Throw (runtime_error "guest address space cannot place another module")
    | Some aligned => Ok (aligned, u64_max)
    end.

(** One turn of the search: the next candidate, or its end with the base. *)
Definition base_step (memory : space) (image : Elf64Image) (footprint : ModuleFootprint)
    (limit candidate : Z) : Z + option Z :=
  let span := fp_end footprint - fp_first footprint in
  if candidate <? fp_first footprint then inr None
  else if (u64_max - span <? candidate) || (limit <? candidate + span) then inr None
  else
    let base := candidate - fp_first footprint in
    if image_fits_at memory image base then inr (Some base)
    else if u64_max - page_size <? candidate then inr None
    else inl (candidate + page_size).

(** Every turn adds a page, so that [2^64] turns are enough. *)
Definition find_module_base (memory : space) (image : Elf64Image) : result Z :=
  footprint ← module_footprint image;
  match footprint with
  | None => Throw (runtime_error "ELF image has no loadable segments")
  | Some footprint =>
      '(candidate, limit) ← base_search_range memory;
      match attempt 18446744073709551616 (base_step memory image footprint limit) candidate with
      | inr (Some base) => Ok base
      | inr None =>
          Throw (runtime_error "guest address space has no free range for dependency module")
      | inl _ => Throw (undefined_behaviour "the search does not end")
      end
  end.

(** ** Mapping *)

Record PendingSegment : Type := mkPending {
  pd_base : Z;
  pd_size : Z;
  pd_file_size : Z;
  pd_final_protection : Z;
}.

Definition load_protection (final_protection : Z) : Z :=
  if has final_protection prot_execute then prot_or prot_read prot_write
  else prot_or final_protection prot_write.

(** One turn of the loop that maps the segments. *)
Definition map_segment (image : Elf64Image) (name : string) (base : Z)
    (acc : space * list PendingSegment) (segment : ProgramHeader)
  : result (space * list PendingSegment) :=
  let '(memory, pending_segments) := acc in
  if negb (is_mapped segment) then Ok acc
  else
    guest_base ← checked_address base (ph_virtual_address segment);
    let final_protection := segment_protection (ph_flags segment) in
    let '(ok, memory) :=
      map_named memory guest_base (ph_memory_size segment) (load_protection final_protection) name in
    if negb ok then Throw (runtime_error "unable to map loadable ELF segment")
    else
      memory ←
        (if negb (ph_file_size segment =? 0) then
           bytes ← subspan (bytes_ image) (ph_offset segment) (ph_file_size segment);
           '(ok, memory) ← write memory guest_base bytes;
           if negb (ok : bool) then Throw (runtime_error "unable to copy ELF segment into guest memory")
           else Ok memory
         else Ok memory);
      memory ←
        (if ph_file_size segment <? ph_memory_size segment then
           bss ← checked_address guest_base (ph_file_size segment);
           '(ok, memory) ← zero memory bss (ph_memory_size segment - ph_file_size segment);
           if negb (ok : bool) then Throw (runtime_error "unable to initialize ELF BSS range")
           else Ok memory
         else Ok memory);
      Ok (memory, pending_segments ++
                  [mkPending guest_base (ph_memory_size segment) (ph_file_size segment) final_protection]).

(** The rewriting of one executable segment. *)
Definition patch_segment `{Decoder} (policy : TcbPatchPolicy)
    (acc : space * option TcbPatchArena) (segment : PendingSegment)
  : result (space * option TcbPatchArena) :=
  let '(memory, patch_arena) := acc in
  if has (pd_final_protection segment) prot_execute && negb (pd_file_size segment =? 0) then
    '(patches, memory, patch_arena) ←
      patch_tcb_accesses memory (pd_base segment) (pd_file_size segment) policy patch_arena;
    match patches with
    | None => Throw (runtime_error "unable to inspect executable segment for CPU patches")
    | Some patches =>
        if negb (unsupported patches =? 0)
        then Throw (runtime_error "executable segment contains unsupported guest TCB accesses")
        else Ok (memory, patch_arena)
    end
  else Ok acc.

(** *** The page for thunks *)

(** [None] stops the search, [inr] is a page that [map] was asked for. *)
Definition page_blocking (memory : space) (candidate page : Z) : option RegionInfo :=
  head (filter (fun region => overlaps candidate page region = true) (regions memory)).

Definition map_patch_page (memory : space) (candidate page distance : Z) (name : string)
  : option TcbPatchArena * space :=
  if distance <=? int32_max then
    let '(ok, memory) := map_named memory candidate page (prot_or prot_read prot_write) name in
    (if ok : bool then Some (mkPatchArena candidate page 0) else None, memory)
  else (None, memory).

(** The two searches; a turn passes at least one region, so that one turn more
    than there are regions is enough. *)
Fixpoint upward_page (fuel : nat) (memory : space) (module_begin page : Z) (name : string)
    (candidate : Z) : result (option TcbPatchArena * space) :=
  match fuel with
  | O => Throw (undefined_behaviour "the search for a patch page does not end")
  | S fuel =>
      if native_backed memory
         && ((u64_max - native_size memory <? native_base memory)
             || (candidate <? native_base memory)
             || (native_base memory + native_size memory <? candidate)
             || (native_base memory + native_size memory - candidate <? page))
      then Ok (None, memory)
      else
        match page_blocking memory candidate page with
        | None =>
            Ok (map_patch_page memory candidate page
                  (if module_begin <=? candidate then candidate - module_begin
                   else module_begin - candidate) name)
        | Some blocking =>
            if u64_max - ri_size blocking <? ri_base blocking then Ok (None, memory)
            else
              match checked_align_up (ri_base blocking + ri_size blocking) page with
              | None => Ok (None, memory)
              | Some candidate => upward_page fuel memory module_begin page name candidate
              end
        end
  end.

Fixpoint downward_page (fuel : nat) (memory : space) (module_end page : Z) (name : string)
    (downward : Z) : result (option TcbPatchArena * space) :=
  match fuel with
  | O => Throw (undefined_behaviour "the search for a patch page does not end")
  | S fuel =>
      if native_backed memory && (downward <? native_base memory) then Ok (None, memory)
      else
        match page_blocking memory downward page with
        | None =>
            Ok (map_patch_page memory downward page
                  (if downward <=? module_end then module_end - downward
                   else downward - module_end) name)
        | Some blocking =>
            if ri_base blocking <? page then Ok (None, memory)
            else downward_page fuel memory module_end page name (ri_base blocking / page * page - page)
        end
  end.

(** The range of the segments, [None] when one of them wraps. *)
Definition module_range (segments : list PendingSegment) : option (Z * Z) :=
  foldl (fun acc segment =>
           '(module_begin, module_end) ← acc;
           if u64_max - pd_size segment <? pd_base segment then None
           else Some (Z.min module_begin (pd_base segment),
                      Z.max module_end (pd_base segment + pd_size segment)))
    (Some (u64_max, 0)) segments.

Definition try_map_cpu_patch_page (memory : space) (segments : list PendingSegment) (name : string)
  : result (option TcbPatchArena * space) :=
  match segments with
  | [] => Ok (None, memory)
  | _ =>
      let page := page_size in
      if negb (existsb (fun segment => has (pd_final_protection segment) prot_execute) segments)
      then Ok (None, memory)
      else
        match module_range segments with
        | None => Ok (None, memory)
        | Some (module_begin, module_end) =>
            match checked_align_up module_end page with
            | None => Ok (None, memory)
            | Some candidate =>
                let fuel := S (List.length (regions memory)) in
                '(found, memory) ← upward_page fuel memory module_begin page name candidate;
                match found with
                | Some arena => Ok (Some arena, memory)
                | None =>
                    if module_begin <? page then Ok (None, memory)
                    else downward_page fuel memory module_end page name
                           (module_begin / page * page - page)
                end
            end
        end
  end.

(** What becomes of the page when the segments are rewritten. *)
Definition settle_patch_page (memory : space) (patch_arena : option TcbPatchArena) : result space :=
  match patch_arena with
  | None => Ok memory
  | Some arena =>
      if pa_used arena =? 0 then
        let '(ok, memory) := unmap memory (pa_base arena) (pa_size arena) in
        if negb ok then Throw (runtime_error "unable to release unused CPU patch arena") else Ok memory
      else
        let '(ok, memory) := protect memory (pa_base arena) (pa_size arena) (prot_or prot_read prot_execute) in
        if negb ok then Throw (runtime_error "unable to protect CPU patch arena") else Ok memory
  end.

(** *** Protections and metadata *)

Definition protect_segment (acc : space * list RegionInfo) (segment : PendingSegment)
  : result (space * list RegionInfo) :=
  let '(memory, segments) := acc in
  let '(ok, memory) := protect memory (pd_base segment) (pd_size segment) (pd_final_protection segment) in
  if negb ok then Throw (runtime_error "unable to apply ELF segment protection")
  else
    match find memory (pd_base segment) with
    | None => Throw (undefined_behaviour "null region")
    | Some region => Ok (memory, segments ++ [region])
    end.

Definition process_param_step (memory : space) (base : Z) (acc : Z * Z) (header : ProgramHeader)
  : result (Z * Z) :=
  if negb (ph_type header =? kProgramSceProcParam) || (ph_memory_size header =? 0) then Ok acc
  else if negb (acc.1 =? 0) then Throw (runtime_error "ELF contains multiple PT_SCE_PROCPARAM segments")
  else
    address ← checked_address base (ph_virtual_address header);
    match find memory address with
    | None => Throw (runtime_error "PT_SCE_PROCPARAM is outside mapped guest memory")
    | Some region =>
        if (u64_max - ph_memory_size header <? address)
           || (wrap64 (ri_base region + ri_size region) <? address + ph_memory_size header)
        then Throw (runtime_error "PT_SCE_PROCPARAM is outside mapped guest memory")
        else Ok (address, ph_memory_size header)
    end.

(** The registration of the TLS segment: the module identifier. *)
Definition register_tls (rt : Runtime) (image : Elf64Image) : result (Z * Runtime) :=
  match tls_ image with
  | None => Ok (0, rt)
  | Some _ =>
      if next_tls_module_id_ rt =? 0 then Throw (runtime_error "TLS module identifier space exhausted")
      else
        let module_id := next_tls_module_id_ rt in
        match list_find (fun header => ph_type header = kProgramTls) (program_headers_ image) with
        | None => Throw (runtime_error "PT_TLS metadata is missing its program header")
        | Some (_, header) =>
            initial ← subspan (bytes_ image) (ph_offset header) (ph_file_size header);
            let '(ok, registry) :=
              register_module (tls_registry_ rt) module_id (ph_alignment header)
                (ph_memory_size header) initial in
            if negb ok then Throw (runtime_error "unable to register PT_TLS module image")
            else
              Ok (module_id,
                  mkRuntime (memory_ rt) (symbols_ rt) registry (late_imports_ rt)
                    (wrap32 (module_id + 1)))
        end
  end.

Definition map_image `{Decoder} (policy : TcbPatchPolicy) (rt : Runtime) (image : Elf64Image)
    (path : string) (base : Z) : result (LoadedModule * Runtime) :=
  entry ← checked_address base (entry_ image);
  '(memory, pending_segments) ←
    fold_result (map_segment image (filename path) base) (memory_ rt, []) (program_headers_ image);
  '(patch_arena, memory) ←
    match tp_mode policy with
    | fs_to_windows_teb =>
        try_map_cpu_patch_page memory pending_segments (filename path ++ ".cpu-patches")
    | _ => Ok (None, memory)
    end;
  '(memory, patch_arena) ← fold_result (patch_segment policy) (memory, patch_arena) pending_segments;
  memory ← settle_patch_page memory patch_arena;
  '(memory, segments) ← fold_result protect_segment (memory, []) pending_segments;
  '(process_param, process_param_size) ←
    fold_result (process_param_step memory base) (0, 0) (program_headers_ image);
  '(tls_module_id, rt) ← register_tls (with_memory rt memory) image;
  dynamic ← (if has_dynamic_segment image then parse_dynamic_info image else Ok None);
  Ok (mkLoadedModule path base entry segments dynamic (tls_ image) tls_module_id
        process_param process_param_size (mkRelocationReport 0 0 []), rt).

(** ** Linking *)

Definition with_relocations (module : LoadedModule) (report : RelocationReport) : LoadedModule :=
  mkLoadedModule (lm_path module) (lm_base module) (lm_entry module) (lm_segments module)
    (lm_dynamic module) (lm_tls module) (lm_tls_module_id module) (lm_process_param module)
    (lm_process_param_size module) report.

(** [register_exports] of a module, when it has dynamic information. *)
Definition export_module (rt : Runtime) (module : LoadedModule) : result Runtime :=
  match lm_dynamic module with
  | None => Ok rt
  | Some dynamic =>
      '(_, symbols) ← register_exports (symbols_ rt) (lm_base module) dynamic;
      Ok (mkRuntime (memory_ rt) symbols (tls_registry_ rt) (late_imports_ rt) (next_tls_module_id_ rt))
  end.

Definition relocate_module (rt : Runtime) (module : LoadedModule) : result (LoadedModule * Runtime) :=
  match lm_dynamic module with
  | None => Ok (module, rt)
  | Some dynamic =>
      '(report, st) ←
        relocate (mkLinker (memory_ rt) (symbols_ rt) (late_imports_ rt)) (lm_base module)
          (lm_tls_module_id module) dynamic;
      Ok (with_relocations module report,
          mkRuntime (lk_memory st) (lk_symbols st) (tls_registry_ rt) (lk_late st)
            (next_tls_module_id_ rt))
  end.

Definition link_module (rt : Runtime) (module : LoadedModule) : result (LoadedModule * Runtime) :=
  match lm_dynamic module with
  | None => Ok (with_relocations module (mkRelocationReport 0 0 []), rt)
  | Some _ => rt ← export_module rt module; relocate_module rt module
  end.

Definition load_image `{Decoder} (policy : TcbPatchPolicy) (rt : Runtime) (image : Elf64Image)
    (path : string) (base : Z) : result (LoadedModule * Runtime) :=
  '(module, rt) ← map_image policy rt image path base;
  link_module rt module.

Definition relink (rt : Runtime) (module : LoadedModule)
  : result (RelocationReport * (LoadedModule * Runtime)) :=
  '(module, rt) ← link_module rt module;
  Ok (lm_relocations module, (module, rt)).

End Space.

(** ** Reading the file *)

Definition from_file `{HostFs} (path : string) : result Elf64Image :=
  match fs_open path with
  | None => Throw (runtime_error ("unable to open ELF image: " ++ path))
  | Some file =>
      let '(end_, input) := st_tellg (mkStream file (zlen (hf_bytes file)) false false false) in
      if end_ <? 0 then Throw (runtime_error "unable to determine ELF image size")
      else
        let input := st_seekg input 0 seek_beg in
        let '(bytes, input) := if end_ =? 0 then ([], input) else st_read input end_ in
        if negb (end_ =? 0) && st_failed input then Throw (runtime_error "unable to read ELF image")
        else from_bytes bytes
  end.
