(* ===== verification/LoaderProps.v ===== *)
(** * Properties of loading

    Where a module without a fixed address is placed, and what the memory holds
    after a module is mapped. *)

From S2P Require Import Prelude NativeArena GuestMemory GuestMemoryProps KernelFiles KernelFilesProps RegionList Elf64 Dynamic Linker Tls CpuPatches CpuPatchesProps Loader.

Local Open Scope Z_scope.

(** ** Images that fit *)

Section Fits.
Context `{HostOs, !HostOsLaws H}.

(** The addresses a segment is mapped at. *)
Definition segment_range (base : Z) (segment : ProgramHeader) (a : Z) : bool :=
  in_range (base + ph_virtual_address segment) (ph_memory_size segment) a.

(** Every segment of the image at [base] ends below [2^64], inside a native
    arena, and all its addresses are free. *)
Definition image_free (memory : space) (image : Elf64Image) (base : Z) : Prop :=
  forall segment, segment ∈ program_headers_ image -> is_mapped segment = true ->
    let first := base + ph_virtual_address segment in
    let end_ := first + ph_memory_size segment in
    end_ <= u64_max /\
    (forall arena, native_ memory = Some arena ->
       arena_base arena <= first /\ end_ <= arena_base arena + arena_size arena) /\
    forall a, segment_range base segment a = true -> cell_at memory a = None.

Lemma overlaps_spec memory address size region :
  space_wf memory -> region ∈ regions memory -> 0 < size -> 0 <= address -> address + size <= u64_max ->
  overlaps address size region = false <->
  forall a, in_range address size a = true -> region_covers region a = false.
Proof.
  intros Hs Hin Hsz Ha He. pose proof (regions_wf memory Hs) as [_ Hb].
  rewrite Forall_forall in Hb. specialize (Hb region Hin). unfold region_bounded in Hb.
  unfold overlaps. destruct (Z.eqb_spec size 0); [lia|]. destruct (Z.eqb_spec (ri_size region) 0); [lia|].
  destruct (Z.ltb_spec (u64_max - size) address); [lia|].
  destruct (Z.ltb_spec (u64_max - ri_size region) (ri_base region)); [lia|]. cbn [orb].
  unfold region_covers. split.
  - intros Ho a Hr. apply in_range_true in Hr. apply andb_false_iff in Ho. apply in_range_false.
    destruct Ho as [Ho|Ho]; bools; lia.
  - intros Hf. apply andb_false_iff.
    destruct (Z.ltb_spec address (ri_base region + ri_size region)); [|by left]. right.
    apply Z.ltb_ge. destruct (Z.le_gt_cases (address + size) (ri_base region)); [done|exfalso].
    specialize (Hf (Z.max address (ri_base region))). rewrite in_range_true, in_range_false in Hf. lia.
Qed.

Lemma image_fits_at_free memory image base :
  space_wf memory -> Forall (header_wf (bytes_ image)) (program_headers_ image) -> 0 <= base ->
  image_fits_at memory image base = true <-> image_free memory image base.
Proof.
  intros Hs Hh Hb. unfold image_fits_at.
  assert (native_backed memory && (u64_max - native_size memory <? native_base memory) = false) as ->.
  { unfold native_backed, native_size, native_base. destruct (native_ memory) as [arena|] eqn:Hn; [|done].
    destruct (wf_arena _ Hs arena Hn) as (_ & _ & ? & _). cbn. apply Z.ltb_ge. lia. }
  rewrite forallb_forall. unfold image_free. setoid_rewrite <- list_elem_of_In.
  split; intros Hall segment Hin; specialize (Hall segment Hin);
    (destruct (is_mapped segment) eqn:Hm; [|try (unfold segment_fits_at; rewrite Hm); done]).
  all: assert (0 < ph_memory_size segment /\ 0 <= ph_virtual_address segment) as [Hsz Hva].
  1,3: rewrite Forall_forall in Hh; destruct (Hh segment Hin) as [_ _ _ ? _ _ ? _]; unfold in_u64 in *;
    unfold is_mapped in Hm; bools; lia.
  - intros _. revert Hall. unfold segment_fits_at. rewrite Hm. cbn [negb].
    destruct (Z.ltb_spec (u64_max - ph_virtual_address segment) base); [done|].
    destruct (Z.ltb_spec (u64_max - ph_memory_size segment) (base + ph_virtual_address segment)); [done|].
    destruct (_ && _) eqn:Hnat; [done|]. intros Hex%negb_true_iff. split_and!; [lia| |].
    + intros arena Hn. unfold native_backed, native_size, native_base in Hnat. rewrite Hn in Hnat.
      cbn in Hnat. bools. lia.
    + intros a Ha. rewrite cell_at_covering by done. destruct (covering (regions memory) a) as [i|] eqn:Hc; [|done].
      apply covering_elem in Hc as [Hi Hc]; [|by apply regions_wf].
      assert (overlaps (base + ph_virtual_address segment) (ph_memory_size segment) i = false) as Ho.
      { destruct (overlaps _ _ i) eqn:Ho; [|done]. exfalso. apply not_true_iff_false in Hex. apply Hex.
        apply existsb_exists. exists i. split; [by apply list_elem_of_In|done]. }
      rewrite (overlaps_spec memory) in Ho by (done || lia). rewrite Ho in Hc; done.
  - intros. specialize (Hall eq_refl) as (He & Hnat & Hfree). unfold segment_fits_at. rewrite Hm. cbn [negb].
    destruct (Z.ltb_spec (u64_max - ph_virtual_address segment) base); [lia|].
    destruct (Z.ltb_spec (u64_max - ph_memory_size segment) (base + ph_virtual_address segment)); [lia|].
    destruct (_ && _) eqn:Hn.
    { unfold native_backed, native_size, native_base in Hn. destruct (native_ memory) as [arena|] eqn:E; [|done].
      destruct (Hnat arena eq_refl). cbn in Hn. apply orb_true_iff in Hn as [?%Z.ltb_lt|?%Z.ltb_lt]; lia. }
    apply negb_true_iff, not_true_iff_false. intros (i & Hi%list_elem_of_In & Ho)%existsb_exists.
    apply not_false_iff_true in Ho. apply Ho. apply (overlaps_spec memory); try done; [lia|].
    intros a Ha. specialize (Hfree a Ha). rewrite cell_at_covering in Hfree by done.
    destruct (region_covers i a) eqn:Hc; [|done].
    rewrite (proj2 (covering_elem _ a i (regions_wf memory Hs))) in Hfree; done.
Qed.

End Fits.

Section Base.
Context `{HostOs, !HostOsLaws H}.
Variables (memory : space) (image : Elf64Image) (fp : ModuleFootprint) (limit : Z).

(** The [k]-th candidate is above the image's first address, ends below the
    limit, and the image fits there. *)
Definition candidate_fits (candidate : Z) : Prop :=
  fp_first fp <= candidate /\ candidate + (fp_end fp - fp_first fp) <= limit /\
  image_fits_at memory image (candidate - fp_first fp) = true.

Lemma base_steps n candidate :
  0 <= candidate -> limit <= u64_max -> fp_first fp <= candidate -> fp_first fp <= fp_end fp ->
  match attempts n (base_step memory image fp limit) candidate with
  | inr (Some base) => exists k, 0 <= k /\ base + fp_first fp = candidate + k * page_size /\
      candidate_fits (candidate + k * page_size) /\
      forall j, 0 <= j < k -> ~ candidate_fits (candidate + j * page_size)
  | inr None => forall j, 0 <= j -> ~ candidate_fits (candidate + j * page_size)
  | inl next => next = candidate + Z.of_nat n * page_size /\ (n <> 0%nat -> next <= u64_max) /\
      forall j, 0 <= j < Z.of_nat n -> ~ candidate_fits (candidate + j * page_size)
  end.
Proof.
  intros H0 Hlim Hfirst Hfp. pose proof page_size_pos as Hpp. revert candidate H0 Hfirst.
  induction n as [|n IH]; intros candidate H0 Hfirst; cbn [attempts]; [split_and!; [lia|done|lia]|].
  unfold base_step at 1. set (span := fp_end fp - fp_first fp) in *.
  destruct (Z.ltb_spec candidate (fp_first fp)) as [|_]; [lia|].
  assert (forall j, 0 <= j -> candidate <= candidate + j * page_size) as Hmono by (intros; nia).
  destruct (_ || _) eqn:Hover.
  { intros j Hj (_ & Hl & _). specialize (Hmono j Hj). fold span in Hl.
    apply orb_true_iff in Hover as [?%Z.ltb_lt|?%Z.ltb_lt]; lia. }
  apply orb_false_iff in Hover as [?%Z.ltb_ge ?%Z.ltb_ge].
  destruct (image_fits_at memory image (candidate - fp_first fp)) eqn:Hfit.
  { exists 0. split_and!; [lia|lia| |lia]. rewrite Z.mul_0_l, Z.add_0_r. split_and!; [done|done|done]. }
  assert (~ candidate_fits candidate) as Hno by (intros (_ & _ & Hf); congruence).
  destruct (Z.ltb_spec (u64_max - page_size) candidate) as [Hend|Hgo].
  { intros j Hj (Hf & Hl & Hi). destruct (decide (j = 0)) as [->|].
    - rewrite Z.mul_0_l, Z.add_0_r in *. congruence.
    - assert (candidate + page_size <= candidate + j * page_size) by nia. fold span in Hl. lia. }
  specialize (IH (candidate + page_size)).
  specialize (IH ltac:(lia) ltac:(lia)).
  assert (forall j, candidate + page_size + (j - 1) * page_size = candidate + j * page_size) as Hj by (intros; ring).
  assert (forall k, (forall j, 0 <= j < k -> ~ candidate_fits (candidate + page_size + j * page_size)) ->
    forall j, 0 <= j < k + 1 -> ~ candidate_fits (candidate + j * page_size)) as Hext.
  { intros k Hk j Hjk. destruct (decide (j = 0)) as [->|]; [by rewrite Z.mul_0_l, Z.add_0_r|].
    rewrite <- Hj. apply Hk. lia. }
  destruct (attempts n _ _) as [next|[base|]].
  - destruct IH as (-> & Hn & Hnone). split_and!; [lia| |].
    + intros _. destruct n; [cbn [Z.of_nat]; lia|]. by apply Hn.
    + intros j Hjn. apply (Hext (Z.of_nat n)); [done|lia].
  - destruct IH as (k & Hk & He & Hf & Hnone). exists (k + 1).
    replace (candidate + (k + 1) * page_size) with (candidate + page_size + k * page_size) by ring.
    split_and!; [lia|done|done|]. by apply Hext.
  - intros j Hj0. apply (Hext (j + 1)); [|lia]. intros i Hi. apply IH. lia.
Qed.

End Base.

(** ** The search for a base *)

Definition footprint_ok (segments : list ProgramHeader) (acc : option ModuleFootprint) : Prop :=
  match acc with
  | None => forall segment, segment ∈ segments -> is_mapped segment = false
  | Some fp =>
      0 <= fp_first fp < fp_end fp /\ fp_end fp <= u64_max /\
      (forall segment, segment ∈ segments -> is_mapped segment = true ->
         fp_first fp <= ph_virtual_address segment /\
         ph_virtual_address segment + ph_memory_size segment <= fp_end fp) /\
      exists lowest, lowest ∈ segments /\ is_mapped lowest = true /\ ph_virtual_address lowest = fp_first fp
  end.

Lemma footprint_step_ok bytes segments acc segment acc' :
  header_wf bytes segment -> footprint_ok segments acc -> footprint_step acc segment = Ok acc' ->
  footprint_ok (segments ++ [segment]) acc'.
Proof.
  intros Hw Hacc. unfold footprint_step. destruct (is_mapped segment) eqn:Hm; cbn [negb].
  2: { intros [= <-]. destruct acc as [fp|]; cbn in *.
       - destruct Hacc as (? & ? & Hall & low & ? & ? & ?). split_and!; try done; try lia.
         + intros x [Hx| ->%list_elem_of_singleton]%elem_of_app; [by apply Hall|congruence].
         + exists low. split_and!; try done. apply elem_of_app. by left.
       - intros x [Hx| ->%list_elem_of_singleton]%elem_of_app; [by apply Hacc|done]. }
  destruct (Z.ltb_spec (u64_max - ph_memory_size segment) (ph_virtual_address segment)); [done|].
  assert (0 < ph_memory_size segment /\ 0 <= ph_virtual_address segment) as [Hsz Hva].
  { destruct Hw as [_ _ _ ? _ _ ? _]. unfold in_u64 in *. unfold is_mapped in Hm. bools. lia. }
  destruct acc as [[f e]|]; cbn in *; intros [= <-]; cbn.
  - destruct Hacc as (? & ? & Hall & low & ? & ? & ?). split_and!; [lia..| |].
    + intros x [Hx| ->%list_elem_of_singleton]%elem_of_app Hxm; [specialize (Hall x Hx Hxm); lia|lia].
    + destruct (Z.le_gt_cases f (ph_virtual_address segment)).
      * exists low. split_and!; [apply elem_of_app; by left|done|lia].
      * exists segment. split_and!; [apply elem_of_app; right; left|done|lia].
  - split_and!; [lia..| |].
    + intros x [Hx| ->%list_elem_of_singleton]%elem_of_app Hxm; [|lia]. rewrite Hacc in Hxm; done.
    + exists segment. split_and!; [apply elem_of_app; right; left|done|lia].
Qed.

Lemma footprint_fold bytes done_ todo acc acc' :
  Forall (header_wf bytes) todo -> footprint_ok done_ acc ->
  fold_result footprint_step acc todo = Ok acc' -> footprint_ok (done_ ++ todo) acc'.
Proof.
  revert done_ acc. induction todo as [|segment todo IH]; intros done_ acc Hw Hacc; cbn.
  - intros [= <-]. by rewrite app_nil_r.
  - apply Forall_cons in Hw as [Hw Hws]. intros (acc1 & Hs & Hf)%bind_Ok.
    rewrite cons_middle, app_assoc. eapply IH; [done| |exact Hf]. by eapply footprint_step_ok.
Qed.

Lemma module_footprint_ok image acc :
  Forall (header_wf (bytes_ image)) (program_headers_ image) -> module_footprint image = Ok acc ->
  footprint_ok (program_headers_ image) acc.
Proof. intros Hw Hf. apply (footprint_fold (bytes_ image) [] _ None); [done|by intros ? ?%elem_of_nil|done]. Qed.

Section Search.
Context `{HostOs, !HostOsLaws H}.

Lemma base_search_range_ok memory first limit :
  space_wf memory -> base_search_range memory = Ok (first, limit) -> 0 <= first /\ limit <= u64_max.
Proof.
  intros Hs. unfold base_search_range. destruct (native_backed memory).
  - destruct (checked_align_up _ _) as [aligned|] eqn:Ha; [|done].
    destruct (Z.ltb_spec (u64_max - native_size memory) (native_base memory)); [done|]. intros [= <- <-].
    unfold checked_align_up in Ha. destruct (_ || _) in Ha; [done|]. injection Ha as <-.
    pose proof (wrap64_range (wrap64 (native_base memory + page_size - 1) / page_size * page_size)) as Hr.
    unfold in_u64 in Hr. lia.
  - destruct (checked_align_up _ _) as [aligned|] eqn:Ha; [|done]. intros [= <- <-].
    unfold checked_align_up in Ha. destruct (_ || _) in Ha; [done|]. injection Ha as <-.
    match goal with |- 0 <= wrap64 ?x /\ _ => pose proof (wrap64_range x) as Hr end. unfold in_u64 in Hr. lia.
Qed.


(** When the first candidate is below the image's lowest address the search
    ends at once, although a higher candidate may fit. *)
Lemma find_module_base_stops_early memory image fp first limit :
  module_footprint image = Ok (Some fp) -> base_search_range memory = Ok (first, limit) ->
  first < fp_first fp ->
  find_module_base memory image =
    Throw (runtime_error "guest address space has no free range for dependency module").
Proof.
  intros Hf Hr Hlt. unfold find_module_base. rewrite Hf. cbn [mbind result_bind]. rewrite Hr. cbn [mbind result_bind].
  rewrite attempt_attempts. destruct (Pos.to_nat _) as [|n] eqn:Hn; [lia|]. cbn [attempts].
  unfold base_step at 1. by destruct (Z.ltb_spec first (fp_first fp)); [|lia].
Qed.

End Search.

(** ** Witnesses

    A segment of twenty bytes at 16 whose file has an access and a return. *)

Definition tiny_segment : ProgramHeader := mkProgramHeader kProgramLoad 5 0 16 0 3 20 16.
Definition tiny_image : Elf64Image :=
  mkElf64Image [Byte.x64; Byte.x00; Byte.xc3] [tiny_segment] kTypeSceDynamic 16 None.

Lemma tiny_image_wf : Forall (header_wf (bytes_ tiny_image)) (program_headers_ tiny_image).
Proof.
  constructor; [|done]. split; [by vm_compute..|split; [by split|by vm_compute]|by vm_compute].
Qed.

Lemma tiny_buffered_wf : @space_wf tiny_host tiny_buffered /\ host_agrees tiny_buffered.
Proof.
  split; [by apply (@reachable_wf tiny_host tiny_host_laws), tiny_buffered_reachable|].
  apply (@reachable_agrees tiny_host tiny_host_laws); [done|apply tiny_buffered_reachable].
Qed.

