(* ===== verification/MapImageProps.v ===== *)
(** * What the memory holds after a module is mapped

    [map_image] in four phases: the segments are mapped and filled, the
    executable ones rewritten, the protections applied, the metadata read.
    Each phase is a fold with an invariant over the segments it has done. *)

From S2P Require Import Prelude NativeArena GuestMemory GuestMemoryProps PatchMemory KernelFiles Elf64 Dynamic Symbols LateImports Linker Tls CpuPatches CpuPatchesProps Loader LoaderProps.

Local Open Scope Z_scope.

Section Image.
Context `{HostOs, !HostOsLaws H} {D : Decoder} {DL : DecoderLaws D}.
Variables (image : Elf64Image) (name : string) (base : Z).
Hypothesis headers_ok : Forall (header_wf (bytes_ image)) (program_headers_ image).
Hypothesis base_ok : 0 <= base.

Implicit Types (h : ProgramHeader) (hs : list ProgramHeader) (s : space).

(** ** The segments *)

Definition segment_base h : Z := base + ph_virtual_address h.
Definition segment_data h : list byte := zslice (bytes_ image) (ph_offset h) (ph_file_size h).
Definition segment_prot h : Z := segment_protection (ph_flags h).
Definition executable h : bool := has (segment_prot h) prot_execute.

(** The byte the file puts at an offset of a segment. *)
Definition segment_byte h (i : Z) : option byte :=
  if i <? ph_file_size h then zget (segment_data h) i else Some zero_byte.

Definition segment_cell (protection : Z) : cell := mkCell protection name 0 0 kind_generic true 0.

Definition pending_of h : PendingSegment :=
  mkPending (segment_base h) (ph_memory_size h) (ph_file_size h) (segment_prot h).

Record segment_ok h : Prop := {
  so_mapped : 0 < ph_memory_size h;
  so_file : 0 <= ph_file_size h <= ph_memory_size h;
  so_base : 0 <= segment_base h;
  so_end : segment_base h + ph_memory_size h <= u64_max;
  so_data : zlen (segment_data h) = ph_file_size h;
}.

Definition apart (h1 h2 : ProgramHeader) : Prop :=
  forall a, segment_range base h1 a = true -> segment_range base h2 a = false.

Lemma segment_range_iff h a :
  segment_range base h a = true <-> segment_base h <= a < segment_base h + ph_memory_size h.
Proof. apply in_range_true. Qed.

Lemma segment_range_not h a :
  segment_range base h a = false <-> ~ segment_base h <= a < segment_base h + ph_memory_size h.
Proof. rewrite <- segment_range_iff. by destruct (segment_range base h a). Qed.

Lemma segments_apart_sym h1 h2 : apart h1 h2 -> apart h2 h1.
Proof. intros Ha a H2. destruct (segment_range base h1 a) eqn:E; [|done]. apply Ha in E. congruence. Qed.

(** ** Mapping and filling *)

(** The memory after the segments [hs] were mapped. *)
Record filled s0 s hs : Prop := {
  fl_wf : space_wf s;
  fl_agrees : host_agrees s;
  fl_ok h : h ∈ hs -> segment_ok h;
  fl_apart i j h1 h2 : hs !! i = Some h1 -> hs !! j = Some h2 -> i <> j -> apart h1 h2;
  fl_segment h a : h ∈ hs -> segment_range base h a = true ->
    cell_at s0 a = None /\ cell_at s a = Some (segment_cell (load_protection (segment_prot h))) /\
    byte_at s a = segment_byte h (a - segment_base h);
  fl_other a : (forall h, h ∈ hs -> segment_range base h a = false) -> same_at s0 s a;
}.

Lemma range_dec hs a :
  (exists h, h ∈ hs /\ segment_range base h a = true) \/ (forall h, h ∈ hs -> segment_range base h a = false).
Proof.
  induction hs as [|h hs [(x & Hx & Hr)|IH]]; [right; by intros ? ?%elem_of_nil| |].
  - left. exists x. split; [by right|done].
  - destruct (segment_range base h a) eqn:E; [left; exists h; split; [by left|done]|].
    right. intros x [->|Hx]%elem_of_cons; [done|by apply IH].
Qed.

(** What filling one freshly mapped segment does. *)
Lemma fill_segment s1 s h :
  space_wf s1 -> host_agrees s1 -> segment_ok h ->
  (forall a, segment_range base h a = true ->
     cell_at s1 a = Some (segment_cell (load_protection (segment_prot h)))) ->
  (s2 ← (if negb (ph_file_size h =? 0) then
           bytes ← subspan (bytes_ image) (ph_offset h) (ph_file_size h);
           '(ok, m) ← write s1 (segment_base h) bytes;
           if negb (ok : bool) then Throw (runtime_error "unable to copy ELF segment into guest memory")
           else Ok m
         else Ok s1);
   if ph_file_size h <? ph_memory_size h then
     bss ← checked_address (segment_base h) (ph_file_size h);
     '(ok, m) ← zero s2 bss (ph_memory_size h - ph_file_size h);
     if negb (ok : bool) then Throw (runtime_error "unable to initialize ELF BSS range") else Ok m
   else Ok s2) = Ok s ->
  space_wf s /\ host_agrees s /\ (forall a, cell_at s a = cell_at s1 a) /\
  forall a, byte_at s a = if segment_range base h a then segment_byte h (a - segment_base h) else byte_at s1 a.
Proof.
  intros Hs Hag [Hm Hf Hb He Hd] Hcell (s2 & H1 & H2)%bind_Ok.
  assert (space_wf s2 /\ host_agrees s2 /\ (forall a, cell_at s2 a = cell_at s1 a) /\
    forall a, byte_at s2 a = if in_range (segment_base h) (ph_file_size h) a
                             then zget (segment_data h) (a - segment_base h) else byte_at s1 a)
    as (Hs2 & Hag2 & Hc2 & Hb2).
  { destruct (Z.eqb_spec (ph_file_size h) 0) as [Hz|Hz]; cbn [negb] in H1.
    - injection H1 as <-. split_and!; [done..|]. intros a. rewrite (proj2 (in_range_false _ _ _)); [done|lia].
    - apply bind_Ok in H1 as (bytes & Hsub & H1). unfold subspan in Hsub.
      apply bind_Ok in Hsub as (u & Hu & Hsub). injection Hsub as <-.
      apply bind_Ok in H1 as ([ok m] & Hw & H1). destruct ok; [|done]. injection H1 as ->.
      fold (segment_data h) in Hw. destruct (write_total s1 (segment_base h) (segment_data h) Hs Hag) as (ok' & m' & Hw' & Hag').
      rewrite Hw in Hw'. injection Hw' as <- <-.
      assert (segment_data h <> []) as Hne by (intros E; rewrite E in Hd; cbn in Hd; lia).
      destruct (write_spec s1 _ _ true s2 Hs Hne Hw) as (_ & Ht & _).
      destruct (Ht eq_refl) as (Hs2 & _ & Hst). rewrite Hd in Hst. split_and!; [done|done| |]; intros a; apply Hst. }
  destruct (Z.ltb_spec (ph_file_size h) (ph_memory_size h)) as [Hlt|Hge].
  - apply bind_Ok in H2 as (bss & Hbss & H2). unfold checked_address in Hbss.
    destruct (_ <? segment_base h); [done|]. injection Hbss as <-.
    apply bind_Ok in H2 as ([ok m] & Hz & H2). destruct ok; [|done]. injection H2 as ->.
    destruct (zero_total s2 (segment_base h + ph_file_size h) (ph_memory_size h - ph_file_size h) Hs2 Hag2 ltac:(lia))
      as (ok' & m' & Hz' & Hag'). rewrite Hz in Hz'. injection Hz' as <- <-.
    destruct (zero_spec s2 (segment_base h + ph_file_size h) (ph_memory_size h - ph_file_size h) true s Hs2 ltac:(lia) Hz) as (_ & Ht & _).
    destruct (Ht eq_refl) as (Hsw & _ & Hst). rewrite length_replicate in Hst. split_and!; [done|done| |].
    + intros a. rewrite <- Hc2. apply Hst.
    + intros a. destruct (Hst a) as [_ ->]. rewrite Hb2. unfold segment_byte.
      destruct (segment_range base h a) eqn:Er.
      * apply segment_range_iff in Er. destruct (Z.ltb_spec (a - segment_base h) (ph_file_size h)).
        -- rewrite (proj2 (in_range_false _ _ _)), (proj2 (in_range_true _ _ _)) by lia. done.
        -- rewrite (proj2 (in_range_true _ _ _)) by lia. unfold zget.
           destruct (Z.ltb_spec (a - (segment_base h + ph_file_size h)) 0); [lia|].
           rewrite lookup_replicate_2; [done|lia].
      * apply segment_range_not in Er.
        rewrite !(proj2 (in_range_false _ _ _)) by lia. done.
  - injection H2 as <-. split_and!; [done..|]. intros a. rewrite Hb2. unfold segment_byte.
    destruct (segment_range base h a) eqn:Er.
    + apply segment_range_iff in Er. rewrite (proj2 (in_range_true _ _ _)) by lia.
      by destruct (Z.ltb_spec (a - segment_base h) (ph_file_size h)); [|lia].
    + apply segment_range_not in Er. rewrite (proj2 (in_range_false _ _ _)) by lia. done.
Qed.

Lemma filled_start s : space_wf s -> host_agrees s -> filled s s [].
Proof.
  intros. split; try done.
  - by intros h Hh%elem_of_nil.
  - by intros h a Hh%elem_of_nil.
Qed.

Lemma apart_before s0 s hs done_ h todo h' :
  filled s0 s hs -> hs = done_ ++ h :: todo -> h' ∈ done_ -> apart h' h.
Proof.
  intros Hfl -> [i Hi]%list_elem_of_lookup. pose proof (lookup_lt_Some _ _ _ Hi).
  apply (fl_apart _ _ _ Hfl i (length done_)); [by apply lookup_app_l_Some| |lia].
  by rewrite list_lookup_middle.
Qed.

Lemma lookup_snoc_cases {A} (l : list A) x i y :
  (l ++ [x]) !! i = Some y -> (i < length l)%nat /\ l !! i = Some y \/ i = length l /\ y = x.
Proof.
  intros [Hi|[Hl Hi]]%lookup_app_Some; [left; split; [by eapply lookup_lt_Some|done]|].
  apply list_lookup_singleton_Some in Hi as [Hi ->]. right. split; [lia|done].
Qed.

Lemma filled_step s0 s hs h s1 s' :
  filled s0 s hs -> segment_ok h ->
  map_named s (segment_base h) (ph_memory_size h) (load_protection (segment_prot h)) name = (true, s1) ->
  space_wf s' -> host_agrees s' -> (forall a, cell_at s' a = cell_at s1 a) ->
  (forall a, byte_at s' a = if segment_range base h a then segment_byte h (a - segment_base h) else byte_at s1 a) ->
  filled s0 s' (hs ++ [h]).
Proof.
  intros [Fw Fa Fo Fap Fs Fot] Hok Hmap Hw Hag Hc Hb. pose proof Hok as [Hm Hf Hb0 He Hd].
  apply map_region_cells in Hmap as [_ Hcells]; [|done|cbn; lia|cbn; lia]. cbn [ri_base ri_size] in Hcells.
  fold (segment_range base h) in Hcells. change (in_range (segment_base h) (ph_memory_size h)) with (segment_range base h) in Hcells.
  assert (forall x a, x ∈ hs -> segment_range base x a = true -> segment_range base h a = false) as Hap.
  { intros x a Hx Hr. destruct (Fs x a Hx Hr) as (_ & Hcx & _). specialize (Hcells a).
    destruct (segment_range base h a); [|done]. destruct Hcells as [Hn _]. congruence. }
  split; [done|done| | | |].
  - intros x [Hx| ->%list_elem_of_singleton]%elem_of_app; [by apply Fo|done].
  - intros i j h1 h2 [[Hi Hl1]|[-> ->]]%lookup_snoc_cases [[Hj Hl2]|[-> ->]]%lookup_snoc_cases Hij.
    + by apply (Fap i j).
    + intros a. apply Hap. by eapply list_elem_of_lookup_2.
    + apply segments_apart_sym. intros a. apply Hap. by eapply list_elem_of_lookup_2.
    + done.
  - intros x a [Hx| ->%list_elem_of_singleton]%elem_of_app Hr.
    + pose proof (Hap x a Hx Hr) as Hn. specialize (Hcells a). rewrite Hn in Hcells.
      destruct (Fs x a Hx Hr) as (? & ? & ?). destruct Hcells as [Hcc Hbb].
      rewrite Hc, Hcc, Hb, Hn, Hbb. done.
    + specialize (Hcells a). rewrite Hr in Hcells. destruct Hcells as (Hn & Hcc & _).
      destruct (range_dec hs a) as [(x & Hx & Hrx)|Hno]; [rewrite (Hap x a Hx Hrx) in Hr; done|].
      destruct (Fot a Hno) as [Hs0 _]. rewrite Hc, Hcc, Hb, Hr. split_and!; [congruence| |done].
      unfold cell_of, cell_offset, segment_cell. done.
  - intros a Hno. assert (segment_range base h a = false) as Hn by (apply Hno, elem_of_app; right; by left).
    specialize (Hcells a). rewrite Hn in Hcells. destruct Hcells as [Hcc Hbb].
    destruct (Fot a) as [? ?]; [intros x Hx; apply Hno, elem_of_app; by left|].
    split; [rewrite Hc; congruence|rewrite Hb, Hn; congruence].
Qed.

Lemma map_segment_filled s0 s hs h s' pending' :
  header_wf (bytes_ image) h -> filled s0 s hs ->
  map_segment image name base (s, map pending_of hs) h = Ok (s', pending') ->
  if is_mapped h then filled s0 s' (hs ++ [h]) /\ pending' = map pending_of (hs ++ [h])
  else s' = s /\ pending' = map pending_of hs.
Proof.
  intros Hw Hfl. unfold map_segment. destruct (is_mapped h) eqn:Hm; cbn [negb]; [|by intros [= <- <-]].
  intros (gb & Hgb & Hk)%bind_Ok. unfold checked_address in Hgb.
  destruct (Z.ltb_spec (u64_max - ph_virtual_address h) base); [done|]. injection Hgb as <-.
  fold (segment_base h) in Hk. fold (segment_prot h) in Hk.
  destruct (map_named s _ _ _ _) as [ok s1] eqn:Hmap. destruct ok; cbn [negb] in Hk; [|done].
  apply bind_Ok in Hk as (s2 & H1 & (s3 & H2 & H3)%bind_Ok). injection H3 as <- <-.
  destruct Hw as [_ _ Hoff Hva _ _ Hsz Hdata]. unfold in_u64 in Hva.
  pose proof (map_region_result _ _ _ _ Hmap) as (_ & _ & _ & Hres). destruct (Hres eq_refl) as (Hnz & Hend & _).
  cbn [ri_size ri_base] in Hnz, Hend.
  assert (segment_ok h) as Hok.
  { unfold segment_base in *. split; unfold segment_base; try lia. unfold segment_data.
    destruct (Z.eq_dec (ph_file_size h) 0) as [->|Hz]; [done|]. apply zslice_length; [|lia|by apply Hdata].
    apply Hoff. }
  assert (space_wf s1 /\ host_agrees s1) as [Hs1 Hag1].
  { pose proof Hfl as [Fw Fa _ _ _ _]. destruct Hok. split.
    - apply map_region_cells in Hmap as [? _]; [done|done|cbn; lia|cbn; lia].
    - eapply (map_region_agrees s); [done| | |done|exact Hmap]; unfold in_u64; cbn; lia. }
  pose proof (fill_segment s1 s3 h Hs1 Hag1 Hok) as Hfill. destruct Hfill as (Hs3 & Hag3 & Hc3 & Hb3).
  { intros a Hr. pose proof Hmap as [_ Hcells]%map_region_cells; [|apply Hfl|destruct Hok; cbn; lia|cbn; lia].
    specialize (Hcells a). cbn [ri_base ri_size] in Hcells.
    change (in_range (segment_base h) (ph_memory_size h) a) with (segment_range base h a) in Hcells.
    rewrite Hr in Hcells. by destruct Hcells as (_ & -> & _). }
  { apply bind_Ok. exists s2. split; [exact H1|exact H2]. }
  split; [by eapply filled_step|]. by rewrite map_app.
Qed.

Lemma map_segments_filled s0 s hs todo s' pending' :
  Forall (header_wf (bytes_ image)) todo -> filled s0 s hs ->
  fold_result (map_segment image name base) (s, map pending_of hs) todo = Ok (s', pending') ->
  let hs' := hs ++ filter (fun h => is_mapped h = true) todo in
  filled s0 s' hs' /\ pending' = map pending_of hs'.
Proof.
  revert s hs. induction todo as [|h todo IH]; intros s hs Hw Hfl; cbn [fold_result].
  - intros [= <- <-]. rewrite filter_nil, app_nil_r. done.
  - apply Forall_cons in Hw as [Hw Hws]. intros ([s1 p1] & Hs & Hf)%bind_Ok.
    apply map_segment_filled with (s0 := s0) in Hs; [|done|done]. destruct (is_mapped h) eqn:Hm.
    + destruct Hs as [Hfl1 ->]. rewrite filter_cons_True by done. rewrite cons_middle, app_assoc.
      by apply (IH s1).
    + destruct Hs as [-> ->]. rewrite filter_cons_False by congruence. by apply (IH s).
Qed.

(** ** Rewriting *)

Lemma sweep_elem fuel bytes offset o d :
  0 <= offset -> Some (o, d) ∈ sweep fuel bytes offset ->
  offset <= o /\ zydis_decode (zslice bytes o (zlen bytes - o)) = Some d /\ o + zi_length d.1 <= zlen bytes.
Proof.
  revert offset. induction fuel as [|fuel IH]; intros offset Ho; cbn [sweep];
    (destruct (Z.leb_spec (zlen bytes) offset) as [Hge|Hlt]; [by intros Hx%elem_of_nil|]); [by intros Hx%elem_of_nil|].
  assert (Some (o, d) ∈ None :: sweep fuel bytes (offset + 1) -> offset <= o /\
    zydis_decode (zslice bytes o (zlen bytes - o)) = Some d /\ o + zi_length d.1 <= zlen bytes) as Hskip.
  { intros [?|Hin]%elem_of_cons; [done|]. apply IH in Hin; [|lia]. split; [lia|apply Hin]. }
  destruct (zydis_decode (zslice bytes offset (zlen bytes - offset))) as [d'|] eqn:Hd; [|exact Hskip].
  destruct (Z.eqb_spec (zi_length d'.1) 0); [exact Hskip|]. destruct d' as [i ops].
  destruct (zydis_length _ _ _ Hd) as [Hl _]. cbn [fst] in *. rewrite zslice_length in Hl by lia.
  intros [[= -> ->]|Hin]%elem_of_cons; [split_and!; [lia|done|cbn; lia]|].
  apply IH in Hin; [|lia]. split; [lia|apply Hin].
Qed.

Lemma accesses_elem items o d : (o, d) ∈ accesses items -> Some (o, d) ∈ items.
Proof.
  unfold accesses, instructions. intros [_ (x & Hx & Hid)%list_elem_of_omap]%list_elem_of_filter.
  unfold id in Hid. by subst x.
Qed.

Lemma site_range b bytes x : is_site b (disassemble bytes) x -> b <= x < b + zlen bytes.
Proof.
  intros (o & d & p & Hin%accesses_elem & Hp & ->). apply sweep_elem in Hin as (Ho & Hd & Hl); [|done].
  destruct (fs_prefix_site _ _ _ Hd Hp) as [Hpr _]. lia.
Qed.

Lemma view_store_ok s b n : space_wf s -> 0 < n -> zlen (view s b n) = n -> store_ok false s b n.
Proof.
  intros Hs Hn Hl. unfold view in Hl. destruct (find_region (regions_ s) b) as [r|] eqn:Hf; [|cbn in Hl; lia].
  exists r. split; [|done]. apply (find_in_region s b n r Hs Hf).
  destruct (_ <? n); [cbn in Hl; lia|done].
Qed.

(** The memory [s] after the segments [done_] of [s1] were rewritten. *)
Record retargeted s1 s (done_ : list ProgramHeader) : Prop := {
  rt_wf : space_wf s;
  rt_agrees : host_agrees s;
  rt_cells a : cell_at s a = cell_at s1 a;
  rt_infos : same_infos s1 s;
  rt_byte x : byte_at s x = byte_at s1 x \/
    byte_at s1 x = Some (hex 0x64) /\ byte_at s x = Some (hex 0x65) /\
    exists h, h ∈ done_ /\ executable h = true /\ is_site (segment_base h) (disassemble (segment_data h)) x;
  rt_done h o d : h ∈ done_ -> executable h = true -> (o, d) ∈ accesses (disassemble (segment_data h)) ->
    exists p, fs_prefix_offset d.1 = Some p /\ byte_at s (segment_base h + o + p) = Some (hex 0x65);
}.

Lemma retargeted_start s : space_wf s -> host_agrees s -> retargeted s s [].
Proof. intros. split; try done; [by left|]. by intros h o d Hh%elem_of_nil. Qed.

Lemma patch_tcb_accesses_Some s b n arena report s' arena' :
  space_wf s -> 0 < n -> patch_tcb_accesses s b n gs_policy arena = Ok (Some report, s', arena') ->
  store_ok false s b n /\ zydis_init = true.
Proof.
  intros Hs Hn. unfold patch_tcb_accesses. destruct (n =? 0); [done|].
  destruct (Z.eqb_spec (zlen (view s b n)) n) as [Hv|]; cbn [negb]; [|done].
  destruct zydis_init; cbn [negb]; [|done]. intros _. split; [by apply view_store_ok|done].
Qed.

Lemma retargeted_step s0 s1 s hs done_ h todo s' arena :
  filled s0 s1 hs -> hs = done_ ++ h :: todo -> retargeted s1 s done_ ->
  patch_segment gs_policy (s, None) (pending_of h) = Ok (s', arena) ->
  arena = None /\ retargeted s1 s' (done_ ++ [h]).
Proof.
  intros Hfl Hhs [Rw Ra Rc Ri Rb Rd]. assert (h ∈ hs) as Hin by (subst; apply elem_of_app; right; by left).
  destruct (fl_ok _ _ _ Hfl h Hin) as [Hm Hf Hb He Hd]. unfold patch_segment. cbn [pending_of pd_final_protection pd_file_size pd_base].
  fold (executable h).
  assert (forall h', h' ∈ done_ -> apart h' h) as Hap by (intros; by eapply apart_before).
  destruct (executable h) eqn:Hex; cbn [andb].
  2: { intros [= <- <-]. split; [done|]. split; try done.
       - intros x. destruct (Rb x) as [?|(? & ? & h' & ? & ?)]; [by left|]. right. split_and!; [done..|].
         exists h'. split; [apply elem_of_app; by left|done].
       - intros h' o d [Hh'| ->%list_elem_of_singleton]%elem_of_app Hx; [by apply Rd|congruence]. }
  destruct (Z.eqb_spec (ph_file_size h) 0) as [Hz|Hz]; cbn [negb].
  { intros [= <- <-]. split; [done|]. split; try done.
    - intros x. destruct (Rb x) as [?|(? & ? & h' & ? & ?)]; [by left|]. right. split_and!; [done..|].
      exists h'. split; [apply elem_of_app; by left|done].
    - intros h' o d [Hh'| ->%list_elem_of_singleton]%elem_of_app Hx; [by apply Rd|].
      intros Hod%accesses_elem. rewrite Hz in Hd. destruct (segment_data h); [by apply elem_of_nil in Hod|cbn in Hd; lia]. }
  intros ([[patches s2] arena2] & Hp & Hk)%bind_Ok. destruct patches as [report|]; [|done].
  destruct (Z.eqb_spec (unsupported report) 0) as [Hu|]; cbn [negb] in Hk; [|done]. injection Hk as -> ->.
  assert (0 < ph_file_size h) as Hpos by lia.
  destruct (patch_tcb_accesses_Some _ _ _ _ _ _ _ Rw Hpos Hp) as [Hst Hinit].
  destruct (patch_loop_report s (segment_base h) (ph_file_size h) None Rw Ra Hpos Hst Hinit)
    as (report' & s'' & Hp' & Hsw). rewrite Hp in Hp'. injection Hp' as <- <- ->. split; [done|].
  destruct (proj1 (view_spec s (segment_base h) (ph_file_size h) Rw ltac:(lia)) Hst) as [Hvl Hv].
  assert (view s (segment_base h) (ph_file_size h) = segment_data h) as Hdata.
  { apply zget_ext; [lia|]. intros i Hi. rewrite Hv by lia.
    assert (segment_range base h (segment_base h + i) = true) as Hr by (apply segment_range_iff; lia).
    destruct (Rb (segment_base h + i)) as [->|(_ & _ & h' & Hh' & _ & Hs%site_range)].
    - destruct (fl_segment _ _ _ Hfl h _ Hin Hr) as (_ & _ & ->). unfold segment_byte.
      replace (segment_base h + i - segment_base h) with i by lia. by destruct (Z.ltb_spec i (ph_file_size h)); [|lia].
    - exfalso. assert (h' ∈ hs) as Hh'' by (subst; apply elem_of_app; by left).
      destruct (fl_ok _ _ _ Hfl h' Hh'') as [? ? ? ? Hd']. rewrite Hd' in Hs.
      specialize (Hap h' Hh' (segment_base h + i)). rewrite Hr in Hap. discriminate Hap.
      apply segment_range_iff. lia. }
  rewrite Hdata in Hsw. destruct Hsw as [Sw Sa Sc Si _ _ _ _ _ Sb Sdone]. split.
  - done.
  - done.
  - intros a. by rewrite Sc.
  - intros k. by rewrite Si.
  - intros x. destruct (Sb x) as [->|(Hx & Hx0 & Hs)].
    + destruct (Rb x) as [?|(? & ? & h' & ? & ?)]; [by left|]. right. split_and!; [done..|].
      exists h'. split; [apply elem_of_app; by left|done].
    + right. destruct (Rb x) as [E|(_ & E & _)]; [|rewrite E in Hx0; by vm_compute in Hx0].
      split_and!; [congruence|done|]. exists h. split_and!; [apply elem_of_app; right; by left|done|done].
  - intros h' o d [Hh'| ->%list_elem_of_singleton]%elem_of_app Hx Hod; [|apply Sdone; [cbn; lia|done]].
    destruct (Rd h' o d Hh' Hx Hod) as (p & Hpp & Hpb). exists p. split; [done|].
    destruct (Sb (segment_base h' + o + p)) as [->|(-> & _)]; done.
Qed.

Lemma retargeted_fold s0 s1 hs done_ todo s s' arena :
  filled s0 s1 hs -> hs = done_ ++ todo -> retargeted s1 s done_ ->
  fold_result (patch_segment gs_policy) (s, None) (map pending_of todo) = Ok (s', arena) ->
  arena = None /\ retargeted s1 s' hs.
Proof.
  intros Hfl. revert done_ s. induction todo as [|h todo IH]; intros done_ s Hhs Hr; cbn [map fold_result].
  - intros [= <- <-]. split; [done|]. by rewrite Hhs, app_nil_r.
  - intros ([s2 a2] & Hp & Hf)%bind_Ok. eapply retargeted_step in Hp as [-> Hr2]; [|done..].
    eapply (IH (done_ ++ [h])); [|done|done]. by rewrite <- app_assoc.
Qed.

(** ** Protecting *)

(** The region that describes a segment. *)
Definition describes h (r : RegionInfo) : Prop :=
  ri_base r = segment_base h /\ ri_size r = ph_memory_size h /\ ri_protection r = segment_prot h.

(** The memory [s] after the segments [done_] of [s2] were protected. *)
Record protected s2 s (done_ : list ProgramHeader) (infos : list RegionInfo) : Prop := {
  pr_wf : space_wf s;
  pr_agrees : host_agrees s;
  pr_bytes a : byte_at s a = byte_at s2 a;
  pr_done h a : h ∈ done_ -> segment_range base h a = true ->
    cell_at s a = cell_set_protection (segment_prot h) <$> cell_at s2 a;
  pr_other a : (forall h, h ∈ done_ -> segment_range base h a = false) -> cell_at s a = cell_at s2 a;
  pr_infos : Forall2 describes done_ infos;
}.

Lemma protect_found s b size prot s' :
  space_wf s -> protect s b size prot = (true, s') ->
  exists r, find s' b = Some r /\ ri_base r = b /\ ri_size r = size /\ ri_protection r = prot.
Proof.
  intros Hs Hp. pose proof Hp as (Hn & _ & _ & Ht)%protect_result. apply protect_cells in Hp as [Hs' _]; [|done].
  destruct (Ht eq_refl) as (r & Hf & <- & Hr). pose proof (wf_region _ _ (wf_map _ Hs) _ _ Hf) as Hw.
  pose proof (wf_key _ _ _ Hw) as <-. exists (set_protection (info r) prot). split_and!; [|done..].
  set (r' := mkRegion (set_protection (info r) prot) (storage r)) in *.
  unfold find. rewrite (proj2 (find_region_owner (native_ s') (regions_ s') (ri_base (info r)) r' (wf_map _ Hs'))); [done|].
  rewrite Hr. apply (owner_update (native_ s)); [apply Hs|done..|]. left. split; [done|].
  unfold covers. destruct Hw. lia.
Qed.

Lemma protected_step s2 s done_ infos h s' infos' :
  (forall h', h' ∈ done_ -> apart h' h) -> segment_ok h -> protected s2 s done_ infos ->
  protect_segment (s, infos) (pending_of h) = Ok (s', infos') ->
  protected s2 s' (done_ ++ [h]) infos'.
Proof.
  intros Hap Hok [Pw Pa Pb Pd Po Pi]. unfold protect_segment. cbn [pending_of pd_base pd_size pd_final_protection].
  destruct (protect _ _ _ _) as [ok s1] eqn:Hp. destruct ok; cbn [negb]; [|done].
  destruct (protect_found _ _ _ _ _ Pw Hp) as (r & Hfind & Hrb & Hrs & Hrp). rewrite Hfind. intros [= <- <-].
  pose proof Hp as [Hw Hc]%protect_cells; [|done]. split.
  - done.
  - eapply protect_agrees; [exact Pw| |exact Pa|exact Hp]. destruct Hok. unfold in_u64. lia.
  - intros a. destruct (Hc a) as [-> _]. done.
  - intros x a Hx Hr. destruct (Hc a) as [_ ->]. fold (segment_range base h a).
    apply elem_of_app in Hx as [Hx| ->%list_elem_of_singleton].
    + change (in_range (segment_base h) (ph_memory_size h) a) with (segment_range base h a).
      rewrite (Hap x Hx a Hr), option_fmap_id. by apply Pd.
    + change (in_range (segment_base h) (ph_memory_size h) a) with (segment_range base h a). rewrite Hr.
      rewrite Po; [done|]. intros x Hx. apply (segments_apart_sym _ _ (Hap x Hx)), Hr.
  - intros a Hno. destruct (Hc a) as [_ ->].
    change (in_range (segment_base h) (ph_memory_size h) a) with (segment_range base h a).
    rewrite Hno by (apply elem_of_app; right; by left). rewrite option_fmap_id.
    apply Po. intros x Hx. apply Hno, elem_of_app. by left.
  - apply Forall2_app; [done|]. by repeat constructor.
Qed.

Lemma protected_fold s0 s1 s2 hs done_ todo s infos s' infos' :
  filled s0 s1 hs -> hs = done_ ++ todo -> protected s2 s done_ infos ->
  fold_result protect_segment (s, infos) (map pending_of todo) = Ok (s', infos') ->
  protected s2 s' hs infos'.
Proof.
  intros Hfl. revert done_ s infos. induction todo as [|h todo IH]; intros done_ s infos Hhs Hpr; cbn [map fold_result].
  - intros [= <- <-]. by rewrite Hhs, app_nil_r.
  - intros ([s3 i3] & Hp & Hf)%bind_Ok.
    apply (protected_step s2 s done_ infos h) in Hp; [| | |done].
    + eapply (IH (done_ ++ [h])); [|exact Hp|exact Hf]. by rewrite <- app_assoc.
    + intros h' Hh'. by eapply apart_before.
    + apply (fl_ok _ _ _ Hfl). subst. apply elem_of_app. right. by left.
Qed.

(** What [map_image] promises about the memory. *)
Record image_loaded s s' (hs : list ProgramHeader) : Prop := {
  il_free h a : h ∈ hs -> segment_range base h a = true -> cell_at s a = None;
  il_end h : h ∈ hs -> segment_base h + ph_memory_size h <= u64_max;
  il_cell h a : h ∈ hs -> segment_range base h a = true ->
    cell_at s' a = Some (segment_cell (segment_prot h));
  il_byte h a : h ∈ hs -> segment_range base h a = true ->
    byte_at s' a = segment_byte h (a - segment_base h) \/
    segment_byte h (a - segment_base h) = Some (hex 0x64) /\ byte_at s' a = Some (hex 0x65) /\
    executable h = true /\ is_site (segment_base h) (disassemble (segment_data h)) a;
  il_rewritten h o d : h ∈ hs -> executable h = true -> (o, d) ∈ accesses (disassemble (segment_data h)) ->
    exists p, fs_prefix_offset d.1 = Some p /\ byte_at s' (segment_base h + o + p) = Some (hex 0x65);
  il_other a : (forall h, h ∈ hs -> segment_range base h a = false) -> same_at s s' a;
}.

Lemma filled_same_segment s0 s hs h h' a :
  filled s0 s hs -> h ∈ hs -> h' ∈ hs -> segment_range base h a = true -> segment_range base h' a = true ->
  h' = h.
Proof.
  intros Hfl [i Hi]%list_elem_of_lookup [j Hj]%list_elem_of_lookup Hr Hr'.
  destruct (decide (i = j)) as [->|Hij]; [congruence|].
  rewrite (fl_apart _ _ _ Hfl i j h h' Hi Hj Hij a Hr) in Hr'. done.
Qed.

Lemma site_in_segment s0 s hs h a :
  filled s0 s hs -> h ∈ hs -> is_site (segment_base h) (disassemble (segment_data h)) a ->
  segment_range base h a = true.
Proof.
  intros Hfl Hh Hs%site_range. destruct (fl_ok _ _ _ Hfl h Hh). apply segment_range_iff. lia.
Qed.

Lemma phases_load s0 s1 s2 s3 hs infos :
  filled s0 s1 hs -> retargeted s1 s2 hs -> protected s2 s3 hs infos -> image_loaded s0 s3 hs.
Proof.
  intros Hfl [Rw Ra Rc _ Rb Rd] [_ _ Pb Pd Po _]. split.
  - intros h a Hh Hr. by apply (fl_segment _ _ _ Hfl h a).
  - intros h Hh. by apply (fl_ok _ _ _ Hfl).
  - intros h a Hh Hr. rewrite (Pd h a Hh Hr), Rc.
    destruct (fl_segment _ _ _ Hfl h a Hh Hr) as (_ & -> & _). done.
  - intros h a Hh Hr. rewrite Pb. destruct (fl_segment _ _ _ Hfl h a Hh Hr) as (_ & _ & <-).
    destruct (Rb a) as [?|(? & ? & h' & Hh' & ? & Hs)]; [by left|]. right.
    pose proof (site_in_segment _ _ _ _ _ Hfl Hh' Hs) as Hr'.
    rewrite <- (filled_same_segment _ _ _ _ _ _ Hfl Hh Hh' Hr Hr'). done.
  - intros h o d Hh Hx Hod. destruct (Rd h o d Hh Hx Hod) as (p & ? & ?). exists p. by rewrite Pb.
  - intros a Hno. destruct (fl_other _ _ _ Hfl a Hno) as [Hc Hb]. split.
    + rewrite Po, Rc; done.
    + rewrite Pb. destruct (Rb a) as [->|(_ & _ & h' & Hh' & _ & Hs)]; [done|].
      pose proof (site_in_segment _ _ _ _ _ Hfl Hh' Hs) as Hr'. rewrite Hno in Hr'; done.
Qed.

End Image.

(** ** The whole operation *)

Section MapImage.
Context `{HostOs, !HostOsLaws H} {D : Decoder} {DL : DecoderLaws D}.

Lemma register_tls_memory rt image id rt' :
  register_tls rt image = Ok (id, rt') ->
  memory_ rt' = memory_ rt /\ symbols_ rt' = symbols_ rt /\ late_imports_ rt' = late_imports_ rt.
Proof.
  unfold register_tls. destruct (tls_ image) as [t|]; [|by intros [= <- <-]].
  destruct (_ =? 0); [done|]. destruct (list_find _ _) as [[i h]|]; [|done].
  intros (initial & _ & Hk)%bind_Ok. destruct (register_module _ _ _ _ _) as [ok registry].
  destruct ok; cbn [negb] in Hk; [|done]. by injection Hk as <- <-.
Qed.


End MapImage.

(** ** Witnesses *)

Definition tiny_runtime : Runtime := mkRuntime tiny_buffered ∅ TlsRegistry_init None 1.

