(* ===== verification/Lifecycle.v ===== *)
(** * Initialising and finalising programs

    [Runtime::initialize_program], [finalize_program] and [invoke_entry] of
    [src/src/runtime/runtime.cpp], with the flags of [LoadedProgram].

    Guest code is a parameter: what a call into the guest answers, and the
    state it leaves, is a function of a [world] that holds the guest memory, so
    that an initialiser may change what the next one sees.  A computation
    changes the world also when it ends with an exception.  The log of the
    functions that were entered is not part of the program; it is what the
    theorems speak about. *)

From S2P Require Import Prelude NativeArena GuestMemory Fault Elf64 Dynamic LateImports Linker Loader.

Local Open Scope Z_scope.

(** [prepare_execution] stands for [GuestStack::create],
    [EntryTrampoline::create] and [create_thread_context]: the top of the stack
    when all three succeed.  [invoke_guest_captured] runs the code at an address
    on a stack, with three arguments. *)
Class GuestCode : Type := {
  world : Type;
  world_memory : world -> space;
  prepare_execution : world -> Z -> option Z * world;
  invoke_guest_captured : world -> Z -> Z -> Z -> Z -> Z -> GuestInvocationResult * world;
}.

(** What a computation may throw. *)
Inductive failure : Type :=
| thrown (e : exn)
| GuestFaultException (fault : GuestFault).

Inductive phase : Type := phase_preinit | phase_init | phase_fini.

(** A function was entered on behalf of a module. *)
Record event : Type := mkEvent { ev_phase : phase; ev_module : nat; ev_function : Z }.

#[export] Instance phase_eq_dec : EqDecision phase.
Proof. solve_decision. Defined.
#[export] Instance event_eq_dec : EqDecision event.
Proof. solve_decision. Defined.

Record LoadedProgram : Type := mkProgram {
  modules : list LoadedModule;
  dependencies : list (list nat);
  main_module : nat;
  initialized_modules : list nat;
  preinitialized : bool;
  initialization_failed : bool;
  finalized : bool;
  finalization_failed : bool;
}.

(** ** The order of initialisation *)

(** [visit], with the state of every module (0, 1 or 2) and the order so far.
    A call nested in another has marked one more module, so that one level
    more than there are modules is enough. *)
Fixpoint visit (fuel : nat) (program : LoadedProgram) (acc : list Z * list nat) (index : nat)
  : result (list Z * list nat) :=
  match fuel with
  | O => Throw (undefined_behaviour "the visit does not end")
  | S fuel =>
      let '(state, order) := acc in
      match modules program !! index with
      | None => Throw (runtime_error "loaded program dependency index is out of range")
      | Some _ =>
          if default 0 (state !! index) =? 2 then Ok acc
          else if default 0 (state !! index) =? 1 then Ok acc
          else
            '(state, order) ←
              fold_result (visit fuel program) (<[index := 1]> state, order)
                (default [] (dependencies program !! index));
            Ok (<[index := 2]> state, order ++ [index])
      end
  end.

Definition initialization_order (program : LoadedProgram) : result (list nat) :=
  '(_, order) ← visit (S (length (modules program))) program
                  (replicate (length (modules program)) 0, []) (main_module program);
  Ok order.

(** ** Lifecycle functions *)

(** The loop of [function_array], [count] entries from an offset. *)
Fixpoint array_functions (memory : space) (array_address : Z) (count : nat) (offset : Z)
  : result (list Z) :=
  match count with
  | O => Ok []
  | S count =>
      address ← checked_address array_address offset;
      let bytes := view memory address 8 in
      if negb (zlen bytes =? 8)
      then Throw (runtime_error "ELF lifecycle function array is outside mapped guest memory")
      else
        let function := le_decode bytes in
        functions ← array_functions memory array_address count (offset + 8);
        Ok (if negb (function =? 0) && negb (function =? u64_max) then function :: functions
            else functions)
  end.

Definition function_array (memory : space) (module : LoadedModule) (address byte_size : Z)
    (reverse : bool) : result (list Z) :=
  if byte_size =? 0 then Ok []
  else if (address =? 0) || negb (byte_size mod 8 =? 0)
  then Throw (runtime_error "ELF lifecycle function array has an invalid size or address")
  else
    array_address ← checked_address (lm_base module) address;
    functions ← array_functions memory array_address (Z.to_nat (byte_size / 8)) 0;
    Ok (if reverse then rev functions else functions).

Section Exec.
Context `{GuestCode}.

Record state : Type := mkState { st_world : world; st_log : list event }.

(** A computation that may throw and leaves a state either way. *)
Definition exec (A : Type) : Type := state -> (failure + A) * state.

#[export] Instance exec_ret : MRet exec := fun A a st => (inr a, st).
#[export] Instance exec_bind : MBind exec := fun A B f m st =>
  match m st with
  | (inl e, st) => (inl e, st)
  | (inr a, st) => f a st
  end.

Definition throw {A} (e : failure) : exec A := fun st => (inl e, st).

(** A computation that reads the memory and changes nothing. *)
Definition lift {A} (f : space -> result A) : exec A := fun st =>
  match f (world_memory (st_world st)) with
  | Ok a => (inr a, st)
  | Throw e => (inl (thrown e), st)
  end.

Fixpoint for_each {A} (f : A -> exec unit) (l : list A) : exec unit :=
  match l with
  | [] => mret tt
  | x :: l => f x ≫= fun _ => for_each f l
  end.

Definition executable_at (memory : space) (address : Z) : bool :=
  match find memory address with
  | None => false
  | Some region => has (ri_protection region) prot_execute
  end.

Definition invoke_lifecycle_function (ph : phase) (index : nat) (stack_top function : Z)
  : exec unit := fun st =>
  if negb (executable_at (world_memory (st_world st)) function)
  then (inl (thrown (runtime_error "module lifecycle function is not mapped executable guest memory")), st)
  else
    let '(result, w) := invoke_guest_captured (st_world st) function stack_top 0 0 0 in
    let st := mkState w (st_log st ++ [mkEvent ph index function]) in
    match gi_fault result with
    | Some fault => (inl (GuestFaultException fault), st)
    | None => (inr tt, st)
    end.

(** The functions of an array, entered one after the other. *)
Definition invoke_array (ph : phase) (index : nat) (stack_top : Z) (module : LoadedModule)
    (address byte_size : Z) (reverse : bool) : exec unit :=
  functions ← lift (fun memory => function_array memory module address byte_size reverse);
  for_each (invoke_lifecycle_function ph index stack_top) functions.

(** One function, when the module has it. *)
Definition invoke_optional (ph : phase) (index : nat) (stack_top : Z) (module : LoadedModule)
    (function : Z) : exec unit :=
  if negb (function =? 0) then
    address ← lift (fun _ => checked_address (lm_base module) function);
    invoke_lifecycle_function ph index stack_top address
  else mret tt.

Definition preinitialize_module (stack_top : Z) (index : nat) (module : LoadedModule) : exec unit :=
  match lm_dynamic module with
  | None => mret tt
  | Some dynamic =>
      invoke_array phase_preinit index stack_top module (preinit_array dynamic)
        (preinit_array_size dynamic) false
  end.

Definition initialize_module (stack_top : Z) (index : nat) (module : LoadedModule) : exec unit :=
  match lm_dynamic module with
  | None => mret tt
  | Some dynamic =>
      invoke_optional phase_init index stack_top module (init dynamic) ≫= fun _ =>
      invoke_array phase_init index stack_top module (init_array dynamic)
        (init_array_size dynamic) false
  end.

Definition finalize_module (stack_top : Z) (index : nat) (module : LoadedModule) : exec unit :=
  match lm_dynamic module with
  | None => mret tt
  | Some dynamic =>
      invoke_array phase_fini index stack_top module (fini_array dynamic)
        (fini_array_size dynamic) true ≫= fun _ =>
      invoke_optional phase_fini index stack_top module (fini dynamic)
  end.

(** ** Programs

    The outcome, the program and the state after a call. *)

Definition set_initialized (program : LoadedProgram) (initialized : list nat) : LoadedProgram :=
  mkProgram (modules program) (dependencies program) (main_module program) initialized
    (preinitialized program) (initialization_failed program) (finalized program)
    (finalization_failed program).
Definition set_preinitialized (program : LoadedProgram) : LoadedProgram :=
  mkProgram (modules program) (dependencies program) (main_module program)
    (initialized_modules program) true (initialization_failed program) (finalized program)
    (finalization_failed program).
Definition set_initialization_failed (program : LoadedProgram) : LoadedProgram :=
  mkProgram (modules program) (dependencies program) (main_module program)
    (initialized_modules program) (preinitialized program) true (finalized program)
    (finalization_failed program).
Definition set_finalized (program : LoadedProgram) : LoadedProgram :=
  mkProgram (modules program) (dependencies program) (main_module program)
    (initialized_modules program) (preinitialized program) (initialization_failed program) true
    (finalization_failed program).
Definition set_finalization_failed (program : LoadedProgram) : LoadedProgram :=
  mkProgram (modules program) (dependencies program) (main_module program)
    (initialized_modules program) (preinitialized program) (initialization_failed program)
    (finalized program) true.

Definition outcome : Type := (failure + unit) * (LoadedProgram * state).

(** The preinitialisers of the main module. *)
Definition preinitialize (stack_top : Z) (program : LoadedProgram) (st : state) : outcome :=
  if preinitialized program then (inr tt, (program, st))
  else
    match modules program !! main_module program with
    | None => (inl (thrown (undefined_behaviour "main module out of range")), (program, st))
    | Some main =>
        match preinitialize_module stack_top (main_module program) main st with
        | (inl e, st) => (inl e, (program, st))
        | (inr _, st) => (inr tt, (set_preinitialized program, st))
        end
    end.

(** The loop over the order, with the set of the modules that are done. *)
Fixpoint initialize_loop (stack_top : Z) (order : list nat) (initialized : gset nat)
    (program : LoadedProgram) (st : state) : outcome :=
  match order with
  | [] => (inr tt, (program, st))
  | index :: order =>
      if bool_decide (index ∈ initialized)
      then initialize_loop stack_top order initialized program st
      else
        match modules program !! index with
        | None => (inl (thrown (undefined_behaviour "module index out of range")), (program, st))
        | Some module =>
            match initialize_module stack_top index module st with
            | (inl e, st) => (inl e, (program, st))
            | (inr _, st) =>
                initialize_loop stack_top order ({[index]} ∪ initialized)
                  (set_initialized program (initialized_modules program ++ [index])) st
            end
        end
  end.

Definition initialize_program (program : LoadedProgram) (stack_size : Z) (st : state) : outcome :=
  if finalized program
  then (inl (thrown (runtime_error "cannot initialize a finalized program")), (program, st))
  else if initialization_failed program
  then (inl (thrown (runtime_error "cannot retry a partially failed program initialization")), (program, st))
  else if bool_decide (modules program = []) || (length (modules program) <=? main_module program)%nat
          || negb (length (dependencies program) =? length (modules program))%nat
  then (inl (thrown (runtime_error "loaded program has invalid module graph metadata")), (program, st))
  else
    match initialization_order program with
    | Throw e => (inl (thrown e), (program, st))
    | Ok order =>
        match prepare_execution (st_world st) stack_size with
        | (None, w) =>
            (inl (thrown (runtime_error "unable to initialize module lifecycle execution state")),
             (program, mkState w (st_log st)))
        | (Some stack_top, w) =>
            let '(r, (program, st)) :=
              match preinitialize stack_top program (mkState w (st_log st)) with
              | (inl e, after) => (inl e, after)
              | (inr _, (program, st)) =>
                  initialize_loop stack_top order (list_to_set (initialized_modules program)) program st
              end in
            (r, (if r is inl _ then set_initialization_failed program else program, st))
        end
    end.

(** The loop of [finalize_program]; a turn takes the last module away, so that
    as many turns as there are initialised modules are enough. *)
Fixpoint finalize_loop (turns : nat) (stack_top : Z) (program : LoadedProgram) (st : state) : outcome :=
  match last (initialized_modules program) with
  | None => (inr tt, (set_finalized program, st))
  | Some index =>
      match turns with
      | O => (inl (thrown (undefined_behaviour "the finalisation does not end")), (program, st))
      | S turns =>
          match modules program !! index with
          | None =>
              (inl (thrown (runtime_error "loaded program initialization state is invalid")), (program, st))
          | Some module =>
              match finalize_module stack_top index module st with
              | (inl e, st) => (inl e, (program, st))
              | (inr _, st) =>
                  finalize_loop turns stack_top
                    (set_initialized program (take (length (initialized_modules program) - 1)
                                                (initialized_modules program))) st
              end
          end
      end
  end.

Definition finalize_program (program : LoadedProgram) (stack_size : Z) (st : state) : outcome :=
  if finalized program then (inr tt, (program, st))
  else if finalization_failed program
  then (inl (thrown (runtime_error "cannot retry a partially failed program finalization")), (program, st))
  else if bool_decide (modules program = []) || negb (length (dependencies program) =? length (modules program))%nat
  then (inl (thrown (runtime_error "loaded program has invalid module graph metadata")), (program, st))
  else if bool_decide (initialized_modules program = []) then (inr tt, (set_finalized program, st))
  else
    match prepare_execution (st_world st) stack_size with
    | (None, w) =>
        (inl (thrown (runtime_error "unable to initialize module lifecycle execution state")),
         (program, mkState w (st_log st)))
    | (Some stack_top, w) =>
        let '(r, (program, st)) :=
          finalize_loop (length (initialized_modules program)) stack_top program
            (mkState w (st_log st)) in
        (r, (if r is inl _ then set_finalization_failed program else program, st))
    end.

(** ** Entering a module *)

Definition validate_native_entry (memory : space) (module : LoadedModule) : result unit :=
  if negb (native_backed memory)
  then Throw (runtime_error "native entry invocation requires a native-backed guest address space")
  else if negb (executable_at memory (lm_entry module))
  then Throw (runtime_error "module entry is not mapped executable guest memory")
  else Ok tt.

Definition invoke_entry (module : LoadedModule) (stack_size arg0 arg1 arg2 : Z) (w : world)
  : (failure + Z) * world :=
  match validate_native_entry (world_memory w) module with
  | Throw e => (inl (thrown e), w)
  | Ok _ =>
      match prepare_execution w stack_size with
      | (None, w) =>
          (inl (thrown (runtime_error "unable to initialize native guest thread execution state")), w)
      | (Some stack_top, w) =>
          let '(result, w) := invoke_guest_captured w (lm_entry module) stack_top arg0 arg1 arg2 in
          match gi_fault result with
          | Some fault => (inl (GuestFaultException fault), w)
          | None => (inr (gi_value result), w)
          end
      end
  end.

End Exec.
