(* ===== verification/LifecycleProps.v ===== *)
(** * Properties of initialisation and finalisation

    The order in which modules are initialised, and what any sequence of calls
    runs. *)

From S2P Require Import Prelude NativeArena GuestMemory GuestMemoryProps Fault Elf64 Dynamic LateImports Linker Loader Lifecycle.

Local Open Scope Z_scope.

(** ** The order of initialisation *)

Section Order.
Variable program : LoadedProgram.

Abbreviation size := (length (modules program)).

Definition depends (i j : nat) : Prop :=
  exists ds, dependencies program !! i = Some ds /\ j ∈ ds.

(** What [load_program] makes. *)
Definition graph_ok : Prop :=
  length (dependencies program) = size /\ (main_module program < size)%nat /\
  forall i j, depends i j -> (j < size)%nat.

(** [j] stands earlier than [i] in the list. *)
Definition before (order : list nat) (j i : nat) : Prop :=
  exists a b, order !! a = Some j /\ order !! b = Some i /\ (a < b)%nat.

Lemma before_app order ext j i : before order j i -> before (order ++ ext) j i.
Proof. intros (a & b & Ha & Hb & Hl). exists a, b. split_and!; [by apply lookup_app_l_Some..|done]. Qed.

Lemma before_snoc order j i : j ∈ order -> before (order ++ [i]) j i.
Proof.
  intros [a Ha]%list_elem_of_lookup. exists a, (length order). pose proof (lookup_lt_Some _ _ _ Ha).
  split_and!; [by apply lookup_app_l_Some|by rewrite list_lookup_middle|done].
Qed.

(** The modules the visit has not reached. *)
Definition whites (state : list Z) : nat := length (filter (fun c => c = 0) state).

Lemma whites_insert state i v :
  state !! i = Some 0 -> v <> 0 -> (S (whites (<[i := v]> state)) = whites state)%nat.
Proof.
  intros Hi Hv. unfold whites. rewrite <- (take_drop_middle state i 0) at 2 by done.
  rewrite insert_take_drop by (by eapply lookup_lt_Some).
  rewrite !filter_app, !filter_cons, !length_app.
  destruct (decide (v = 0)), (decide (0 = 0)); cbn; lia.
Qed.

Definition grows (state state' : list Z) : Prop := Forall2 (fun c c' => c' = 0 -> c = 0) state state'.

Lemma grows_whites state state' : grows state state' -> (whites state' <= whites state)%nat.
Proof.
  unfold whites. induction 1 as [|c c' l l' Hc Hl IH]; [done|]. rewrite !filter_cons.
  destruct (decide (c' = 0)), (decide (c = 0)); cbn; try lia; exfalso; auto.
Qed.

#[local] Instance grows_preorder : PreOrder grows.
Proof.
  split.
  - intros l. by apply Forall_Forall2_diag, Forall_forall.
  - intros l1 l2 l3 H12. revert l3. induction H12; intros l3 H23; inversion_clear H23; constructor; auto.
    by apply IHForall2.
Qed.

Lemma grows_insert state i v : v <> 0 -> grows state (<[i := v]> state).
Proof.
  intros Hv. apply Forall2_same_length_lookup. rewrite length_insert. split; [done|].
  intros k x y Hx Hy. destruct (decide (k = i)) as [->|].
  - rewrite list_lookup_insert_eq in Hy by (by eapply lookup_lt_Some). by intros; simplify_eq.
  - rewrite list_lookup_insert_ne in Hy by done. by intros; simplify_eq.
Qed.

(** The state of a visit: black modules are those of the order, and a
    dependency of a black module is earlier in the order, or on a cycle with
    it. *)
Record visited (state : list Z) (order : list nat) : Prop := {
  vi_length : length state = size;
  vi_colors i c : state !! i = Some c -> c = 0 \/ c = 1 \/ c = 2;
  vi_black i : i ∈ order <-> state !! i = Some 2;
  vi_nodup : NoDup order;
  vi_reachable i : i ∈ order -> rtc depends (main_module program) i;
  vi_closed i j : i ∈ order -> depends i j -> state !! j <> Some 0 /\ (before order j i \/ rtc depends j i);
}.

Definition gray (state : list Z) (i : nat) : Prop := state !! i = Some 1.

(** What one visit leaves. *)
Record visit_result (state : list Z) (order : list nat) (state' : list Z) (order' : list nat) : Prop := {
  vr_visited : visited state' order';
  vr_grows : grows state state';
  vr_gray i : gray state' i <-> gray state i;
}.

Lemma visit_result_trans s1 o1 s2 o2 s3 o3 :
  visit_result s1 o1 s2 o2 -> visit_result s2 o2 s3 o3 -> visit_result s1 o1 s3 o3.
Proof.
  intros [V1 G1 Y1] [V2 G2 Y2]. split; [done|by etrans|]. intros i. by rewrite Y2.
Qed.

Definition visit_ok (fuel : nat) : Prop := forall state order index,
  visited state order -> (index < size)%nat -> (whites state < fuel)%nat ->
  rtc depends (main_module program) index -> (forall g, gray state g -> rtc depends g index) ->
  exists state' order', visit fuel program (state, order) index = Ok (state', order') /\
    visit_result state order state' order' /\ state' !! index <> Some 0.

Lemma grows_nonzero state state' i : grows state state' -> state !! i <> Some 0 -> state' !! i <> Some 0.
Proof.
  intros Hg Hi Hi'. apply Hi. eapply Forall2_lookup_r in Hg as (c & Hc & Hz); [|exact Hi'].
  by rewrite Hc, Hz.
Qed.

Lemma visit_dependencies fuel index ds :
  visit_ok fuel -> forall state order,
  visited state order -> (whites state < fuel)%nat -> (forall j, j ∈ ds -> depends index j) ->
  (forall j, j ∈ ds -> (j < size)%nat) -> rtc depends (main_module program) index ->
  (forall g, gray state g -> rtc depends g index) ->
  exists state' order', fold_result (visit fuel program) (state, order) ds = Ok (state', order') /\
    visit_result state order state' order' /\ forall j, j ∈ ds -> state' !! j <> Some 0.
Proof.
  intros Hok. induction ds as [|d ds IH]; intros state order Hv Hw Hd Hlt Hr Hg; cbn [fold_result].
  - exists state, order. split_and!; [done|by split|by intros j Hj%elem_of_nil].
  - destruct (Hok state order d) as (s1 & o1 & -> & H1 & Hd1).
    + done.
    + apply Hlt. by left.
    + done.
    + eapply rtc_r; [exact Hr|]. apply Hd. by left.
    + intros g Hgg. eapply rtc_r; [by apply Hg|]. apply Hd. by left.
    + cbn [mbind result_bind]. pose proof H1 as [V1 G1 Y1]. pose proof (grows_whites _ _ G1).
      destruct (IH s1 o1) as (s2 & o2 & -> & H2 & Hd2); try done.
      * lia.
      * intros j Hj. apply Hd. by right.
      * intros j Hj. apply Hlt. by right.
      * intros g Hgg. apply Hg. by apply Y1.
      * exists s2, o2. split_and!; [done|by eapply visit_result_trans|].
        intros j [->|Hj]%elem_of_cons; [|by apply Hd2]. eapply grows_nonzero; [apply H2|done].
Qed.

Hypothesis graph : graph_ok.

Lemma visited_enter state order index :
  visited state order -> state !! index = Some 0 -> visited (<[index := 1]> state) order.
Proof.
  intros [Vl Vc Vb Vn Vr Vd] Hi. pose proof (lookup_lt_Some _ _ _ Hi) as Hlt.
  assert (index ∉ order) as Hno by (rewrite Vb; congruence). split; try done.
  - by rewrite length_insert.
  - intros i c. destruct (decide (i = index)) as [->|]; [|rewrite list_lookup_insert_ne by done; apply Vc].
    rewrite list_lookup_insert_eq by done. intros [= <-]. auto.
  - intros i. rewrite Vb. destruct (decide (i = index)) as [->|]; [|by rewrite list_lookup_insert_ne].
    rewrite list_lookup_insert_eq, Hi by done. done.
  - intros i j Hin Hd. destruct (Vd i j Hin Hd) as [Hj ?]. split; [|done].
    eapply grows_nonzero; [by apply (grows_insert state index 1)|done].
Qed.

Lemma visited_leave state order index :
  visited state order -> gray state index -> rtc depends (main_module program) index ->
  (forall j, depends index j -> state !! j <> Some 0) -> (forall g, gray state g -> rtc depends g index) ->
  visited (<[index := 2]> state) (order ++ [index]).
Proof.
  intros [Vl Vc Vb Vn Vr Vd] Hi Hr Hdeps Hg. pose proof (lookup_lt_Some _ _ _ Hi) as Hlt. unfold gray in *.
  assert (index ∉ order) as Hno by (rewrite Vb; congruence). split.
  - by rewrite length_insert.
  - intros i c. destruct (decide (i = index)) as [->|]; [|rewrite list_lookup_insert_ne by done; apply Vc].
    rewrite list_lookup_insert_eq by done. intros [= <-]. auto.
  - intros i. rewrite elem_of_app, list_elem_of_singleton, Vb.
    destruct (decide (i = index)) as [->|].
    + rewrite list_lookup_insert_eq by done. split; [done|by right].
    + rewrite list_lookup_insert_ne by done. split; [intros [?|?]; [done|congruence]|by left].
  - apply NoDup_app. split_and!; [done| |apply NoDup_singleton]. intros x Hx Hxi%list_elem_of_singleton. by subst x.
  - intros i [Hin| ->%list_elem_of_singleton]%elem_of_app; [by apply Vr|done].
  - intros i j [Hin| ->%list_elem_of_singleton]%elem_of_app Hd.
    + destruct (Vd i j Hin Hd) as [Hj Hb]. split; [eapply grows_nonzero; [by apply (grows_insert state index 2)|done]|].
      destruct Hb; [left; by apply before_app|by right].
    + pose proof (Hdeps j Hd) as Hj. split; [eapply grows_nonzero; [by apply (grows_insert state index 2)|done]|].
      assert (is_Some (state !! j)) as [c Hc] by (apply lookup_lt_is_Some; rewrite Vl; by eapply graph).
      destruct (Vc j c Hc) as [->|[->| ->]]; [done|right; by apply Hg|left; apply before_snoc; by apply Vb].
Qed.

Lemma visit_spec fuel : visit_ok fuel.
Proof.
  induction fuel as [|fuel IH]; intros state order index Hv Hlt Hw Hr Hg; [lia|]. cbn [visit].
  destruct (lookup_lt_is_Some_2 (modules program) index Hlt) as [m ->].
  pose proof Hv as [Vl Vc _ _ _ _].
  destruct (lookup_lt_is_Some_2 state index) as [c Hc]; [by rewrite Vl|]. rewrite Hc. cbn [default].
  destruct (Vc index c Hc) as [->|[->| ->]].
  2, 3: exists state, order; split_and!; [done|by split|congruence].
  change (0 =? 2) with false. change (0 =? 1) with false. cbn match.
  pose proof (whites_insert state index 1 Hc ltac:(done)) as Hw1.
  destruct (visit_dependencies fuel index (default [] (dependencies program !! index)) IH
    (<[index := 1]> state) order) as (s2 & o2 & -> & [V2 G2 Y2] & Hd2).
  - by apply visited_enter.
  - lia.
  - intros j Hj. destruct (dependencies program !! index) as [ds|] eqn:E; [by exists ds|by apply elem_of_nil in Hj].
  - intros j Hj. destruct (dependencies program !! index) as [ds|] eqn:E; [|by apply elem_of_nil in Hj].
    apply (proj2 (proj2 graph) index). by exists ds.
  - done.
  - intros g. unfold gray. destruct (decide (g = index)) as [->|]; [done|].
    rewrite list_lookup_insert_ne by done. apply Hg.
  - cbn [mbind result_bind]. exists (<[index := 2]> s2), (o2 ++ [index]).
    assert (gray s2 index) as Hgi by (apply Y2; unfold gray; rewrite list_lookup_insert_eq; [done|lia]).
    split_and!; [done| |].
    + split.
      * apply visited_leave; try done.
        -- intros j (ds & Hds & Hj). apply Hd2. by rewrite Hds.
        -- intros g Hgg%Y2. unfold gray in Hgg. destruct (decide (g = index)) as [->|]; [done|].
           rewrite list_lookup_insert_ne in Hgg by done. by apply Hg.
      * etrans; [by apply (grows_insert state index 1)|]. etrans; [exact G2|by apply grows_insert].
      * intros i. unfold gray in *. destruct (decide (i = index)) as [->|].
        -- rewrite list_lookup_insert_eq, Hc by (by eapply lookup_lt_Some). done.
        -- rewrite list_lookup_insert_ne by done. rewrite Y2. by rewrite list_lookup_insert_ne.
    + rewrite list_lookup_insert_eq by (by eapply lookup_lt_Some). done.
Qed.

(** The order exists, has every module the main module needs once, and each
    behind its dependencies. *)
Lemma initialization_order_spec :
  exists order, initialization_order program = Ok order /\ NoDup order /\
    (forall i, i ∈ order <-> rtc depends (main_module program) i) /\
    (forall i j, i ∈ order -> depends i j -> before order j i \/ rtc depends j i).
Proof.
  destruct (visit_spec (S size) (replicate size 0) [] (main_module program)) as (state & order & Hv & [V _ Y] & Hm).
  - split.
    + by rewrite length_replicate.
    + intros i c [-> _]%lookup_replicate. auto.
    + intros i. split; [by intros Hi%elem_of_nil|]. by intros [? _]%lookup_replicate.
    + constructor.
    + by intros i Hi%elem_of_nil.
    + by intros i j Hi%elem_of_nil.
  - apply graph.
  - unfold whites. pose proof (length_filter (fun c : Z => c = 0) (replicate size 0)) as Hl.
    rewrite length_replicate in Hl. lia.
  - done.
  - by intros g [? _]%lookup_replicate.
  - exists order. unfold initialization_order. rewrite Hv. pose proof V as [Vl Vc Vb Vn Vr Vd].
    assert (forall i, (i < size)%nat -> state !! i <> Some 0 -> i ∈ order) as Hblack.
    { intros i Hi Hz. destruct (lookup_lt_is_Some_2 state i) as [c Hc]; [by rewrite Vl|].
      destruct (Vc i c Hc) as [->|[->| ->]]; [done| |by apply Vb].
      apply Y in Hc. by apply lookup_replicate in Hc as [? _]. }
    split_and!; [done|done| |].
    + intros i. split; [apply Vr|]. intros Hreach.
      assert (main_module program ∈ order) as Hin by (apply Hblack; [apply graph|done]).
      assert (forall x, rtc depends x i -> x ∈ order -> i ∈ order) as Hcl; [clear Hreach|by eapply Hcl].
      induction 1 as [|x y z Hxy _ IH]; intros Hx; [done|]. apply IH, Hblack; [by eapply graph|].
      by apply (Vd x y).
    + intros i j Hi Hd. by apply (Vd i j).
Qed.

End Order.

(** ** What is run

    The functions a module's initialisation and finalisation enter, when they
    return. *)

Definition optional_function (module : LoadedModule) (function : Z) : list Z :=
  if function =? 0 then [] else [lm_base module + function].

Definition init_functions (module : LoadedModule) (functions : list Z) : Prop :=
  match lm_dynamic module with
  | None => functions = []
  | Some dynamic =>
      exists memory entries,
        function_array memory module (init_array dynamic) (init_array_size dynamic) false = Ok entries /\
        functions = optional_function module (init dynamic) ++ entries
  end.

Definition fini_functions (module : LoadedModule) (functions : list Z) : Prop :=
  match lm_dynamic module with
  | None => functions = []
  | Some dynamic =>
      exists memory entries,
        function_array memory module (fini_array dynamic) (fini_array_size dynamic) true = Ok entries /\
        functions = entries ++ optional_function module (fini dynamic)
  end.

Section Runs.
Context `{GuestCode}.

Definition tagged (ph : phase) (index : nat) (e : event) : Prop := ev_phase e = ph /\ ev_module e = index.

(** A computation adds events of one module and phase to the log; when it
    returns, they are functions with the property. *)
Definition runs (ph : phase) (index : nat) (m : exec unit) (P : list Z -> Prop) : Prop :=
  forall st r st', m st = (r, st') ->
  exists evs, st_log st' = st_log st ++ evs /\ Forall (tagged ph index) evs /\
    (r = inr tt -> P (map ev_function evs)).

Lemma runs_ret ph index (P : list Z -> Prop) : P [] -> runs ph index (mret tt) P.
Proof. intros HP st r st' [= <- <-]. exists []. split_and!; [by rewrite app_nil_r|done|done]. Qed.

Lemma runs_bind ph index m k (P Q R : list Z -> Prop) :
  runs ph index m P -> runs ph index (k tt) Q -> (forall l1 l2, P l1 -> Q l2 -> R (l1 ++ l2)) ->
  runs ph index (m ≫= k) R.
Proof.
  intros Hm Hk HR st r st'. unfold mbind, exec_bind. destruct (m st) as [[e|[]] st1] eqn:E.
  - intros [= <- <-]. destruct (Hm _ _ _ E) as (evs & ? & ? & _). by exists evs.
  - intros Hk'. destruct (Hm _ _ _ E) as (evs1 & Hl1 & Ht1 & HP). destruct (Hk _ _ _ Hk') as (evs2 & Hl2 & Ht2 & HQ).
    exists (evs1 ++ evs2). rewrite Hl2, Hl1, app_assoc, map_app. split_and!; [done|by apply Forall_app|auto].
Qed.

Lemma runs_lift {A} ph index (f : space -> result A) k (P : list Z -> Prop) :
  (forall memory a, f memory = Ok a -> runs ph index (k a) P) -> runs ph index (lift f ≫= k) P.
Proof.
  intros Hk st r st'. unfold mbind, exec_bind, lift. destruct (f _) as [a|e] eqn:E.
  - by apply (Hk _ _ E).
  - intros [= <- <-]. exists []. split_and!; [by rewrite app_nil_r|done|done].
Qed.

Lemma runs_weaken ph index m (P Q : list Z -> Prop) :
  runs ph index m P -> (forall l, P l -> Q l) -> runs ph index m Q.
Proof. intros Hm HQ st r st' E. destruct (Hm _ _ _ E) as (evs & ? & ? & ?). exists evs. auto. Qed.

Lemma invoke_runs ph index stack_top function :
  runs ph index (invoke_lifecycle_function ph index stack_top function) (fun l => l = [function]).
Proof.
  intros st r st'. unfold invoke_lifecycle_function. destruct (negb _).
  { intros [= <- <-]. exists []. split_and!; [by rewrite app_nil_r|done|done]. }
  destruct (invoke_guest_captured _ _ _ _ _ _) as [result w].
  destruct (gi_fault result); intros [= <- <-]; exists [mkEvent ph index function];
    (split_and!; [done|by repeat constructor|done]).
Qed.

Lemma for_each_runs ph index stack_top functions :
  runs ph index (for_each (invoke_lifecycle_function ph index stack_top) functions) (fun l => l = functions).
Proof.
  induction functions as [|f fs IH]; cbn [for_each]; [by apply runs_ret|].
  eapply runs_bind; [apply invoke_runs|exact IH|]. by intros l1 l2 -> ->.
Qed.

Lemma invoke_array_runs ph index stack_top module address byte_size reverse :
  runs ph index (invoke_array ph index stack_top module address byte_size reverse)
    (fun l => exists memory, function_array memory module address byte_size reverse = Ok l).
Proof.
  apply runs_lift. intros memory fs Hfs. eapply runs_weaken; [apply for_each_runs|].
  intros l ->. by exists memory.
Qed.

Lemma invoke_optional_runs ph index stack_top module function :
  runs ph index (invoke_optional ph index stack_top module function)
    (fun l => l = optional_function module function).
Proof.
  unfold invoke_optional, optional_function. destruct (Z.eqb_spec function 0); cbn [negb]; [by apply runs_ret|].
  apply runs_lift. intros memory address. unfold checked_address. destruct (_ <? _); [done|].
  intros [= <-]. apply invoke_runs.
Qed.

Lemma preinitialize_module_runs stack_top index module :
  runs phase_preinit index (preinitialize_module stack_top index module) (fun _ => True).
Proof.
  unfold preinitialize_module. destruct (lm_dynamic module); [|by apply runs_ret].
  eapply runs_weaken; [apply invoke_array_runs|done].
Qed.

Lemma initialize_module_runs stack_top index module :
  runs phase_init index (initialize_module stack_top index module) (init_functions module).
Proof.
  unfold initialize_module, init_functions. destruct (lm_dynamic module) as [d|]; [|by apply runs_ret].
  eapply runs_bind; [apply invoke_optional_runs|apply invoke_array_runs|].
  intros l1 l2 -> [memory Hl2]. by exists memory, l2.
Qed.

Lemma finalize_module_runs stack_top index module :
  runs phase_fini index (finalize_module stack_top index module) (fini_functions module).
Proof.
  unfold finalize_module, fini_functions. destruct (lm_dynamic module) as [d|]; [|by apply runs_ret].
  eapply runs_bind; [apply invoke_array_runs|apply invoke_optional_runs|].
  intros l1 l2 [memory Hl1] ->. by exists memory, l1.
Qed.

End Runs.

(** ** Sequences of calls *)

Section Sequences.
Context `{GuestCode}.

Abbreviation block := (nat * list event)%type.
Abbreviation events bs := (concat (map snd bs)).

Definition blocks_tagged (ph : phase) (bs : list block) : Prop := Forall (fun b => Forall (tagged ph b.1) b.2) bs.

(** Every module of the list that has a block entered the right functions. *)
Definition blocks_complete (program : LoadedProgram) (P : LoadedModule -> list Z -> Prop)
    (done_ : nat -> Prop) (bs : list block) : Prop :=
  forall i evs module, (i, evs) ∈ bs -> done_ i -> modules program !! i = Some module ->
    P module (map ev_function evs).

Lemma initialize_loop_spec stack_top done_ todo program st r program' st' :
  NoDup (done_ ++ todo) -> (forall i, i ∈ todo -> (i < length (modules program))%nat) ->
  initialized_modules program = done_ ->
  initialize_loop stack_top todo (list_to_set done_) program st = (r, (program', st')) ->
  exists c bs, program' = set_initialized program (done_ ++ c) /\
    st_log st' = st_log st ++ events bs /\ blocks_tagged phase_init bs /\
    c `prefix_of` map fst bs /\ map fst bs `prefix_of` todo /\ (length bs <= S (length c))%nat /\
    blocks_complete program init_functions (fun i => i ∈ c) bs /\ (r = inr tt -> c = todo).
Proof.
  revert done_ program st. induction todo as [|index todo IH]; intros done_ program st Hnd Hlt Hi; cbn [initialize_loop].
  - intros [= <- <- <-]. exists [], []. split_and!.
    + rewrite app_nil_r, <- Hi. by destruct program.
    + by rewrite app_nil_r.
    + by constructor.
    + done.
    + done.
    + cbn. lia.
    + by intros i evs module Hx%elem_of_nil.
    + done.
  - assert (index ∉ done_) as Hno by (apply NoDup_app in Hnd as (_ & Hn & _); intros Hin; by apply (Hn index Hin); left).
    rewrite bool_decide_eq_false_2 by (by rewrite elem_of_list_to_set).
    destruct (lookup_lt_is_Some_2 (modules program) index) as [module Hm]; [apply Hlt; by left|]. rewrite Hm.
    destruct (initialize_module stack_top index module st) as [[e|[]] st1] eqn:E;
      apply (initialize_module_runs stack_top index module) in E as (evs & Hl & Ht & Hf).
    + intros [= <- <- <-]. exists [], [(index, evs)]. split_and!.
      * rewrite app_nil_r, <- Hi. by destruct program.
      * cbn. by rewrite app_nil_r.
      * by repeat constructor.
      * by apply prefix_nil.
      * by apply prefix_cons, prefix_nil.
      * cbn. lia.
      * by intros i evs' m' _ Hx%elem_of_nil.
      * done.
    + rewrite Hi. intros Hk. assert ({[index]} ∪ list_to_set done_ = (list_to_set (done_ ++ [index]) : gset nat)) as Hset
        by (rewrite list_to_set_app_L; cbn; by rewrite union_empty_r_L, (comm_L (∪))). rewrite Hset in Hk.
      apply IH in Hk as (c & bs & -> & Hl2 & Ht2 & Hc & Hbs & Hlen & Hfun & Hr); [|by rewrite <- app_assoc|
        intros i Hx; apply Hlt; by right|done].
      exists (index :: c), ((index, evs) :: bs). split_and!.
      * cbn. unfold set_initialized. cbn. by rewrite <- app_assoc.
      * cbn. by rewrite Hl2, Hl, <- app_assoc.
      * by constructor.
      * by apply prefix_cons.
      * by apply prefix_cons.
      * cbn. lia.
      * intros i evs' m' [[= -> ->]|Hx]%elem_of_cons.
        -- intros _ Hm'. rewrite Hm in Hm'. injection Hm' as <-. by apply Hf.
        -- intros [->|Hic]%elem_of_cons Hm'; [|by apply (Hfun i evs' m')].
           assert (index ∈ map fst bs) as Hx' by (apply list_elem_of_fmap; by exists (index, evs')).
           exfalso. apply NoDup_app in Hnd as (_ & _ & [Hn _]%NoDup_cons). apply Hn.
           eapply elem_of_prefix; [exact Hx'|exact Hbs].
      * intros ->. by rewrite Hr.
Qed.

Lemma finalize_loop_spec stack_top l program st r program' st' :
  NoDup l -> (forall i, i ∈ l -> (i < length (modules program))%nat) -> initialized_modules program = l ->
  finalize_loop (length l) stack_top program st = (r, (program', st')) ->
  exists rest bs, st_log st' = st_log st ++ events bs /\ blocks_tagged phase_fini bs /\
    rest `prefix_of` l /\ map fst bs `prefix_of` rev l /\
    blocks_complete program fini_functions (fun i => i ∉ rest) bs /\
    program' = (if r is inr _ then set_finalized (set_initialized program rest)
                else set_initialized program rest) /\
    (r = inr tt -> rest = [] /\ map fst bs = rev l).
Proof.
  revert program st. induction l as [|x l IH] using rev_ind; intros program st Hnd Hlt Hi.
  - cbn. rewrite Hi. cbn. intros [= <- <- <-]. exists [], []. split_and!.
    + by rewrite app_nil_r.
    + by constructor.
    + done.
    + done.
    + by intros i evs module Hx%elem_of_nil.
    + rewrite <- Hi. by destruct program.
    + done.
  - rewrite length_app, Nat.add_comm. cbn [length Nat.add finalize_loop]. rewrite Hi, last_snoc.
    destruct (lookup_lt_is_Some_2 (modules program) x) as [module Hm];
      [apply Hlt, elem_of_app; right; by left|]. rewrite Hm.
    assert (x ∉ l) as Hx by (apply NoDup_app in Hnd as (_ & Hn & _); intros Hin; apply (Hn x Hin); by left).
    rewrite rev_app_distr. cbn [rev app].
    destruct (finalize_module stack_top x module st) as [[e|[]] st1] eqn:E;
      apply (finalize_module_runs stack_top x module) in E as (evs & Hl & Ht & Hf).
    + intros [= <- <- <-]. exists (l ++ [x]), [(x, evs)]. split_and!.
      * cbn. by rewrite app_nil_r.
      * by repeat constructor.
      * done.
      * by apply prefix_cons, prefix_nil.
      * intros i evs' m' [[= -> ->]|Hin%elem_of_nil]%elem_of_cons Hn; [|done].
        exfalso. apply Hn, elem_of_app. right. by left.
      * rewrite <- Hi. by destruct program.
      * done.
    + rewrite length_app, Nat.add_sub, take_app_length. intros Hk.
      apply IH in Hk as (rest & bs & Hl2 & Ht2 & Hrest & Hbs & Hfun & -> & Hr);
        [|by apply NoDup_app in Hnd as [? _]|intros i Hin; apply Hlt, elem_of_app; by left|done].
      exists rest, ((x, evs) :: bs). split_and!.
      * cbn. by rewrite Hl2, Hl, <- app_assoc.
      * by constructor.
      * by apply prefix_app_r.
      * by apply prefix_cons.
      * intros i evs' m' [[= -> ->]|Hin]%elem_of_cons Hn Hm'; [|by apply (Hfun i evs' m')].
        rewrite Hm in Hm'. injection Hm' as <-. by apply Hf.
      * by destruct r.
      * intros ->. destruct (Hr eq_refl) as [-> Hb]. cbn. by rewrite Hb.
Qed.

(** A program as [load_program] leaves it. *)
Definition loaded (program : LoadedProgram) : Prop :=
  graph_ok program /\ initialized_modules program = [] /\ preinitialized program = false /\
  initialization_failed program = false /\ finalized program = false /\
  finalization_failed program = false.

(** The programs and states that calls can lead to; between the calls the
    guest may change the world.  After a failed finalisation the program is not
    initialised again. *)
Inductive lifecycle (p0 : LoadedProgram) : LoadedProgram -> state -> Prop :=
| lifecycle_start w : lifecycle p0 p0 (mkState w [])
| lifecycle_world p st w : lifecycle p0 p st -> lifecycle p0 p (mkState w (st_log st))
| lifecycle_initialize p st stack_size r p' st' :
    lifecycle p0 p st -> finalization_failed p = false ->
    initialize_program p stack_size st = (r, (p', st')) -> lifecycle p0 p' st'
| lifecycle_finalize p st stack_size r p' st' :
    lifecycle p0 p st -> finalize_program p stack_size st = (r, (p', st')) -> lifecycle p0 p' st'.

(** The log is made of the preinitialisers of the main module, one block per
    module in the order of initialisation, and one per module in the reverse
    order.  Only the last block of either kind can be one that did not
    return. *)
Record history (p0 : LoadedProgram) (order completed : list nat) (pre : list event)
    (ib fb : list block) (p : LoadedProgram) (log : list event) : Prop := {
  h_modules : modules p = modules p0;
  h_dependencies : dependencies p = dependencies p0;
  h_main : main_module p = main_module p0;
  h_log : log = pre ++ events ib ++ events fb;
  h_pre : Forall (tagged phase_preinit (main_module p0)) pre;
  h_init : blocks_tagged phase_init ib;
  h_fini : blocks_tagged phase_fini fb;
  h_completed : completed `prefix_of` map fst ib;
  h_order : map fst ib `prefix_of` order;
  h_last : (length ib <= S (length completed))%nat;
  h_functions : blocks_complete p0 init_functions (fun i => i ∈ completed) ib;
  h_reverse : map fst fb `prefix_of` rev completed;
  h_rest : initialized_modules p `prefix_of` completed;
  h_fini_functions : blocks_complete p0 fini_functions (fun i => i ∉ initialized_modules p) fb;
  h_finalized : finalized p = true -> initialized_modules p = [] /\ map fst fb = rev completed;
}.

Definition stage (order completed : list nat) (pre : list event) (ib fb : list block)
    (p : LoadedProgram) : Prop :=
  finalized p = false -> finalization_failed p = false ->
  initialized_modules p = completed /\ fb = [] /\
  (initialization_failed p = false ->
   completed = order /\ preinitialized p = true \/
   completed = [] /\ ib = [] /\ pre = [] /\ preinitialized p = false).

(** The obligations about lists that are empty. *)
Ltac empty_blocks :=
  try solve [done | by constructor | apply prefix_nil | by intros i evs m Hx%elem_of_nil].

Lemma history_start p0 order :
  loaded p0 -> history p0 order [] [] [] [] p0 [] /\ stage order [] [] [] [] p0.
Proof.
  intros (_ & Hi & Hp & Hf & Hn & Hff). split; [split; rewrite ?Hi; empty_blocks; by rewrite Hn|].
  intros _ _. split_and!; [done|done|]. intros _. by right.
Qed.

Lemma preinitialize_spec stack_top p st r p' st' module :
  modules p !! main_module p = Some module -> preinitialize stack_top p st = (r, (p', st')) ->
  exists pre, st_log st' = st_log st ++ pre /\ Forall (tagged phase_preinit (main_module p)) pre /\
    (preinitialized p = true -> pre = []) /\
    (if r is inr _ then p' = (if preinitialized p then p else set_preinitialized p) else p' = p).
Proof.
  intros Hm. unfold preinitialize. destruct (preinitialized p).
  { intros [= <- <- <-]. exists []. split_and!; [by rewrite app_nil_r|done..]. }
  rewrite Hm. destruct (preinitialize_module _ _ _ _) as [[e|[]] st1] eqn:E;
    apply preinitialize_module_runs in E as (pre & Hl & Ht & _); intros [= <- <- <-]; exists pre; done.
Qed.

Lemma visit_same_graph p p0 fuel acc index :
  modules p = modules p0 -> dependencies p = dependencies p0 ->
  visit fuel p acc index = visit fuel p0 acc index.
Proof.
  intros Hm Hd. revert acc index. induction fuel as [|fuel IH]; intros [state order] index; cbn [visit]; [done|].
  rewrite Hm, Hd. assert (forall ds acc, fold_result (visit fuel p) acc ds = fold_result (visit fuel p0) acc ds) as ->; [|done].
  induction ds as [|d ds IHd]; intros acc; cbn [fold_result]; [done|]. rewrite IH.
  destruct (visit fuel p0 acc d); cbn; [apply IHd|done].
Qed.

Lemma initialize_loop_skip stack_top todo initialized p st :
  (forall i, i ∈ todo -> i ∈ initialized) ->
  initialize_loop stack_top todo initialized p st = (inr tt, (p, st)).
Proof.
  induction todo as [|i todo IH]; intros Hin; cbn [initialize_loop]; [done|].
  rewrite bool_decide_eq_true_2 by (apply Hin; by left). apply IH. intros j Hj. apply Hin. by right.
Qed.

Section Steps.
Variables (p0 : LoadedProgram) (order : list nat).
Hypothesis graph : graph_ok p0.
Hypothesis ordered : initialization_order p0 = Ok order.
Hypothesis order_nodup : NoDup order.
Hypothesis order_lt : forall i, i ∈ order -> (i < length (modules p0))%nat.

Lemma history_log completed pre ib fb p log log' :
  history p0 order completed pre ib fb p log -> log' = log -> history p0 order completed pre ib fb p log'.
Proof. by intros ? ->. Qed.

(** The body of [initialize_program] from a program that is not initialised. *)
Lemma initialize_first stack_top p st r p1 st' main :
  modules p = modules p0 -> dependencies p = dependencies p0 -> main_module p = main_module p0 ->
  modules p !! main_module p = Some main -> initialized_modules p = [] -> preinitialized p = false ->
  finalized p = false -> st_log st = [] ->
  match preinitialize stack_top p st with
  | (inl e, after) => (inl e, after)
  | (inr _, (program, st)) =>
      initialize_loop stack_top order (list_to_set (initialized_modules program)) program st
  end = (r, (p1, st')) ->
  let p' := if r is inl _ then set_initialization_failed p1 else p1 in
  exists completed pre ib, history p0 order completed pre ib [] p' (st_log st') /\
    initialized_modules p' = completed /\ finalized p' = false /\
    finalization_failed p' = finalization_failed p /\
    (r = inr tt -> completed = order /\ preinitialized p' = true).
Proof.
  intros Em Ed Emm Hmain Hi Hp Hf Hl. destruct (preinitialize stack_top p st) as [o [p2 st2]] eqn:E.
  apply (preinitialize_spec _ _ _ _ _ _ main) in E as (pre & Hl2 & Ht & _ & Hp2); [|done]. rewrite Hp in Hp2.
  destruct o as [e|[]].
  - subst p2. intros [= <- <- <-] p'. exists [], pre, []. split_and!; try done. split; empty_blocks.
    + by rewrite Hl2, Hl, !app_nil_r.
    + by rewrite Emm in Ht.
    + cbn. by rewrite Hi.
  - subst p2. change (initialized_modules (set_preinitialized p)) with (initialized_modules p). rewrite Hi. intros Hk.
    apply (initialize_loop_spec stack_top []) in Hk
      as (c & bs & -> & Hl3 & Hts & Hc & Hbs & Hlen & Hfun & Hr); [|done|by cbn; rewrite Em|done].
    intros p'. exists c, pre, bs. split_and!.
    + assert (modules p' = modules p0 /\ dependencies p' = dependencies p0 /\ main_module p' = main_module p0 /\
        initialized_modules p' = c /\ finalized p' = false) as (? & ? & ? & Hpi & Hpf)
        by (unfold p'; destruct r; done).
      split; empty_blocks.
      * by rewrite Hl3, Hl2, Hl, app_nil_r.
      * by rewrite Emm in Ht.
      * intros i evs m Hx Hic Hm. apply (Hfun i evs m Hx Hic). cbn. by rewrite Em.
      * by rewrite Hpi.
      * by rewrite Hpf.
    + unfold p'. by destruct r.
    + unfold p'. by destruct r.
    + unfold p'. by destruct r.
    + intros ->. split; [by apply Hr|done].
Qed.

Lemma initialize_history completed pre ib fb p st stack_size r p' st' :
  history p0 order completed pre ib fb p (st_log st) -> stage order completed pre ib fb p ->
  finalization_failed p = false -> initialize_program p stack_size st = (r, (p', st')) ->
  exists completed' pre' ib' fb', history p0 order completed' pre' ib' fb' p' (st_log st') /\
    stage order completed' pre' ib' fb' p' /\ (r = inr tt -> initialized_modules p' = order).
Proof.
  intros Hh Hs Hff. pose proof Hh as [Em Ed Emm Hlog _ _ _ _ _ _ _ _ _ _ _]. unfold initialize_program.
  destruct (finalized p) eqn:Hf; [intros [= <- <- <-]; by exists completed, pre, ib, fb|].
  destruct (initialization_failed p) eqn:Hfail; [intros [= <- <- <-]; by exists completed, pre, ib, fb|].
  destruct (_ || _); [intros [= <- <- <-]; by exists completed, pre, ib, fb|].
  assert (initialization_order p = Ok order) as ->.
  { unfold initialization_order in *. by rewrite Em, Emm, (visit_same_graph p p0). }
  destruct (prepare_execution (st_world st) stack_size) as [[stack_top|] w];
    [|intros [= <- <- <-]; by exists completed, pre, ib, fb].
  destruct (Hs Hf Hff) as (Hi & -> & Hcases). specialize (Hcases Hfail).
  destruct (lookup_lt_is_Some_2 (modules p) (main_module p)) as [main Hmain]; [rewrite Em, Emm; apply graph|].
  destruct Hcases as [[-> Hpre]|(-> & -> & -> & Hpre)].
  - unfold preinitialize. rewrite Hpre, initialize_loop_skip by (intros i Hx; by rewrite Hi, elem_of_list_to_set).
    intros [= <- <- <-]. by exists order, pre, ib, [].
  - destruct (match preinitialize _ _ _ with (inl e, after) => _ | (inr _, (program, st1)) => _ end)
      as [r1 [p1 st1]] eqn:E. intros [= <- <- <-].
    apply (initialize_first _ _ _ _ _ _ main) in E as (c & pre & ib & Hh' & Hi' & Hf' & Hff' & Hr); try done.
    exists c, pre, ib, []. split_and!; [done| |].
    + intros _ _. split_and!; [done|done|]. intros Hnf. left. apply Hr. destruct r1 as [e|[]]; [|done].
      by destruct p1.
    + intros ->. rewrite Hi'. by apply Hr.
Qed.

Lemma finalize_history completed pre ib fb p st stack_size r p' st' :
  history p0 order completed pre ib fb p (st_log st) -> stage order completed pre ib fb p ->
  finalize_program p stack_size st = (r, (p', st')) ->
  exists fb', history p0 order completed pre ib fb' p' (st_log st') /\
    stage order completed pre ib fb' p' /\
    (r = inr tt -> finalized p' = true) /\ (fb' <> fb -> finalized p' = true \/ finalization_failed p' = true).
Proof.
  intros Hh Hs. pose proof Hh as [Em Ed Emm Hlog Hpre Hib Hfb Hc Ho Hlast Hfun Hrev Hrest Hff Hfd]. unfold finalize_program.
  destruct (finalized p) eqn:Hf; [intros [= <- <- <-]; by exists fb|].
  destruct (finalization_failed p) eqn:Hfail; [intros [= <- <- <-]; by exists fb|].
  destruct (_ || _); [intros [= <- <- <-]; by exists fb|].
  destruct (Hs Hf Hfail) as (Hi & -> & _).
  destruct (bool_decide_reflect (initialized_modules p = [])) as [Hnil|_].
  { intros [= <- <- <-]. rewrite Hnil in Hi. subst completed. exists []. split_and!; [split; try done|done|auto|done]. }
  destruct (prepare_execution (st_world st) stack_size) as [[stack_top|] w]; [|intros [= <- <- <-]; by exists []].
  destruct (finalize_loop _ _ _ _) as [r1 [p1 st1]] eqn:E. intros [= <- <- <-].
  assert (completed `prefix_of` order) as Hco by (by etrans).
  apply (finalize_loop_spec stack_top (initialized_modules p)) in E
    as (rest & bs & Hl & Ht & Hpr & Hbs & Hfun' & -> & Hr); [| | |done].
  - exists bs. split_and!.
    + assert (initialized_modules (match r1 with
          | inl _ => set_finalization_failed (match r1 with
              | inl _ => set_initialized p rest | inr _ => set_finalized (set_initialized p rest) end)
          | inr _ => match r1 with
              | inl _ => set_initialized p rest | inr _ => set_finalized (set_initialized p rest) end end) = rest)
        as Hrst by (by destruct r1).
      split; rewrite ?Hrst; try done; try (by destruct r1).
      * rewrite Hl. cbn [st_log]. rewrite Hlog. cbn. by rewrite app_nil_r, app_assoc.
      * by rewrite Hi in Hbs.
      * by rewrite Hi in Hpr.
      * intros i evs m Hx Hn Hm. apply (Hfun' i evs m Hx Hn). by rewrite Em.
      * destruct r1 as [e|[]]; cbn; [by rewrite Hf|]. intros _. rewrite <- Hi. by apply Hr.
    + intros Hnf Hnff. by destruct r1.
    + intros ->. done.
    + intros _. destruct r1; cbn; [by right|by left].
  - rewrite Hi. destruct Hco as [k ->]. by apply NoDup_app in order_nodup as [? _].
  - intros i Hx. rewrite Em. apply order_lt. rewrite Hi in Hx. by eapply elem_of_prefix.
Qed.

Lemma lifecycle_history p st :
  loaded p0 -> lifecycle p0 p st ->
  exists completed pre ib fb, history p0 order completed pre ib fb p (st_log st) /\
    stage order completed pre ib fb p.
Proof.
  intros Hld. induction 1 as [w|p st w Hlc IH|p st size r p' st' Hlc IH Hff Hi|p st size r p' st' Hlc IH Hf].
  - exists [], [], [], []. by apply history_start.
  - done.
  - destruct IH as (c & pre & ib & fb & Hh & Hs).
    destruct (initialize_history _ _ _ _ _ _ _ _ _ _ Hh Hs Hff Hi) as (c' & pre' & ib' & fb' & ? & ? & _).
    by exists c', pre', ib', fb'.
  - destruct IH as (c & pre & ib & fb & Hh & Hs).
    destruct (finalize_history _ _ _ _ _ _ _ _ _ _ Hh Hs Hf) as (fb' & ? & ? & _). by exists c, pre, ib, fb'.
Qed.

End Steps.

Lemma loaded_order p0 :
  loaded p0 -> exists order, initialization_order p0 = Ok order /\ NoDup order /\
    forall i, i ∈ order -> (i < length (modules p0))%nat.
Proof.
  intros (Hg & _). destruct (initialization_order_spec p0 Hg) as (order & Ho & Hn & Hr & _).
  exists order. split_and!; [done|done|]. intros i Hi%Hr. apply rtc_inv_r in Hi as [<-|(j & _ & Hj)]; [apply Hg|by eapply Hg].
Qed.

End Sequences.

(** ** Theorems *)

Lemma surjective_pairing_3 {A B C} (o : A * (B * C)) : o = (o.1, (o.2.1, o.2.2)).
Proof. by destruct o as [? [? ?]]. Qed.


(** C17: On a module graph whose indices are in range, the order of
    initialisation exists, also when the graph has cycles: it holds every module
    the main module needs, directly or not, exactly once, and a dependency
    stands before the module that needs it unless the two are on a cycle. *)
Theorem initialization_order_respects_dependencies program :
  graph_ok program ->
  exists order, initialization_order program = Ok order /\ NoDup order /\
    (forall i, i ∈ order <-> rtc (depends program) (main_module program) i) /\
    (forall i j, i ∈ order -> depends program i j -> before order j i \/ rtc (depends program) j i).
Proof. apply initialization_order_spec. Qed.

Section Theorems.
Context `{GuestCode}.



End Theorems.

(** ** Witnesses

    Two modules in one executable region; the main module needs the other one.
    The guest only faults at 101, the finaliser of the second. *)

Definition tiny_space : space := (@map_region tiny_host (mkSpace [] None tiny_mem) (tiny_info 80 48 5 kind_generic)).2.

Definition tiny_guest : GuestCode := {|
  world := space;
  world_memory := fun w => w;
  prepare_execution := fun w _ => (Some 4096, w);
  invoke_guest_captured := fun w function _ _ _ _ =>
    (mkInvocation 0 (if function =? 101 then Some (mkGuestFault access_violation 11 0 101) else None), w);
|}.

Definition tiny_dynamic (i f : Z) : DynamicInfo :=
  mkDynamicInfo false [] [] [] [] [] [] "" "" "" "" [] [] [] [] i f 0 0 0 0 0 0 0 0.
Definition tiny_module (i f : Z) : LoadedModule :=
  mkLoadedModule "m" 80 80 [] (Some (tiny_dynamic i f)) None 0 0 0 (mkRelocationReport 0 0 []).
Definition tiny_program : LoadedProgram :=
  mkProgram [tiny_module 10 11; tiny_module 20 21] [[1%nat]; []] 0 [] false false false false.
Definition tiny_start : @state tiny_guest := @mkState tiny_guest tiny_space [].

Lemma tiny_program_loaded : loaded tiny_program.
Proof.
  split; [split; [done|split; [cbn; lia|]]|done]. intros [|[|i]] j (ds & Hds & Hj); cbn in *; simplify_eq.
  - apply list_elem_of_singleton in Hj as ->. lia.
  - by apply elem_of_nil in Hj.
Qed.

Definition tiny_initialized : outcome := @initialize_program tiny_guest tiny_program 0 tiny_start.
Definition tiny_finalized : outcome :=
  @finalize_program tiny_guest tiny_initialized.2.1 0 tiny_initialized.2.2.

Lemma tiny_lifecycle : @lifecycle tiny_guest tiny_program tiny_finalized.2.1 tiny_finalized.2.2.
Proof.
  apply (@lifecycle_finalize tiny_guest tiny_program tiny_initialized.2.1 tiny_initialized.2.2 0
    tiny_finalized.1); [|exact (surjective_pairing_3 tiny_finalized)].
  apply (@lifecycle_initialize tiny_guest tiny_program tiny_program tiny_start 0 tiny_initialized.1);
    [apply lifecycle_start|reflexivity|exact (surjective_pairing_3 tiny_initialized)].
Qed.

Lemma initialization_order_respects_dependencies_witness :
  before [1%nat; 0%nat] 1 0 /\ initialization_order tiny_program = Ok [1%nat; 0%nat].
Proof.
  destruct (initialization_order_respects_dependencies tiny_program (proj1 tiny_program_loaded))
    as (order & Ho & _). split; [exists 0%nat, 1%nat; split; [reflexivity|split; [reflexivity|lia]]|].
  rewrite Ho. vm_compute in Ho. injection Ho as <-. reflexivity.
Defined.



(** After the failed finalisation [initialize_program] starts the main module,
    which was finalised, a second time. *)
Example finalized_modules_are_initialized_again :
  st_log (@initialize_program tiny_guest tiny_finalized.2.1 0 tiny_finalized.2.2).2.2 =
    [mkEvent phase_init 1 100; mkEvent phase_init 0 90; mkEvent phase_fini 0 91;
     mkEvent phase_fini 1 101; mkEvent phase_init 0 90].
Proof. reflexivity. Qed.
