(* ===== verification/Startup.v ===== *)
(** * Creating the runtime and starting threads

    [Runtime::Runtime] and [Runtime::start_thread] of
    [src/src/runtime/runtime.cpp]: the composition of the guest memory, the late
    imports, the emulated libkernel and the execution states.  The kernel
    services and the thread manager, which the constructor also creates, are the
    states of their own files. *)

From S2P Require Import Prelude OrdMap Execution Tls NativeArena GuestMemory GuestMemoryProps Elf64 Dynamic Symbols LateImports Linker HleRegistry Libkernel LibkernelExports LibkernelProps Loader Lifecycle.

Local Open Scope Z_scope.

(** The default argument of [LateImportTable::create]. *)
Definition default_capacity : Z := 128.

Section Startup.
Context `{HostOs, Tls.Allocator}.

(** The constructor; [gpu_backend] says whether the caller passed one, and
    [function_address] where the host's functions are. *)
Definition create_runtime (function_address : hle_function -> Z) (gpu_backend : bool) (memory : space)
  : result Runtime :=
  '(late_imports, h) ← LateImports.create (host_ memory) default_capacity;
  throw_if (negb gpu_backend) (invalid_argument "Runtime requires a GPU backend") ;;
  let hle := register_core function_address (mkHleRegistry ∅ 0) in
  Ok (mkRuntime (with_host memory h) (hr_symbols hle) TlsRegistry_init late_imports 1).

(** [start_thread]; [self] and [state_self] are the places of the context's
    control block, before and after the move into the thread's state. *)
Definition start_thread (rt : Runtime) (self state_self : Z) (hp : list (Z * Z)) (module : LoadedModule)
    (stack_size : Z) : result (GuestThreadState * (Runtime * list (Z * Z))) :=
  validate_native_entry (memory_ rt) module ;;
  '(thread, (h, hp)) ← start_guest_thread self state_self (host_ (memory_ rt)) hp (tls_registry_ rt)
                         (lm_entry module) stack_size;
  match thread with
  | None => Throw (runtime_error "unable to initialize guest thread execution state")
  | Some s => Ok (s, (with_memory rt (with_host (memory_ rt) h), hp))
  end.

End Startup.

(** ** Properties *)

Section Theorems.
Context `{HostOs, !HostOsLaws H, Hal : Tls.Allocator, !Tls.AllocatorLaws}.

(** A new runtime resolves the libkernel's exports to the host's functions and
    nothing else; the guest's regions are the caller's. *)
Theorem new_runtimes_resolve_the_core address gpu_backend memory rt :
  (forall f, address f <> 0) -> create_runtime address gpu_backend memory = Ok rt ->
  gpu_backend = true /\ regions_ (memory_ rt) = regions_ memory /\ native_ (memory_ rt) = native_ memory /\
  (forall e, e ∈ core_exports ->
     resolve (symbols_ rt) (ce_key e) = Some (mkSymbolBinding (address (ce_function e)) (ce_name e) true)) /\
  (forall k, k ∉ (ce_key <$> core_exports) -> resolve (symbols_ rt) k = None).
Proof.
  intros Ha Hc. unfold create_runtime in Hc. apply bind_Ok in Hc as ([late h] & _ & Hc).
  apply bind_Ok in Hc as ([] & Hg & Hc). apply throw_if_Ok in Hg. apply Ok_inj in Hc as <-.
  assert (zlen core_exports = 189) as Hl by (vm_compute; reflexivity).
  destruct (register_exports_spec address core_exports (mkHleRegistry ∅ 0) Ha core_keys_distinct core_kinds
    ltac:(done) ltac:(cbn; lia)) as (_ & Ho & Hes).
  split; [by destruct gpu_backend|]. split; [done|]. split; [done|]. split.
  - intros e He. etransitivity; [apply (Hes e He)|]. cbn. by rewrite lookup_empty.
  - intros k Hk. etransitivity; [apply (Ho k Hk)|]. apply lookup_empty.
Qed.

(** A started thread: its module can be entered, its stack and trampoline are in
    place, its context is at the state's address and has every module's area;
    neither a result nor an exception is there yet. *)
Theorem started_threads_are_prepared rt self state_self hp module stack_size s rt' hp' :
  in_u64 stack_size -> Tls.registry_wf (tls_registry_ rt) -> trampoline_apart (host_ (memory_ rt)) stack_size ->
  start_thread rt self state_self hp module stack_size = Ok (s, (rt', hp')) ->
  native_backed (memory_ rt) = true /\ executable_at (memory_ rt) (lm_entry module) = true /\ lm_entry module <> 0 /\
  prepared (ex_stack (gt_execution s)) (ex_trampoline (gt_execution s)) (host_ (memory_ rt')) /\
  Tls.tcb_self (Tls.tcb_ (ex_context (gt_execution s))) = state_self /\
  (forall m, m ∈ Tls.modules_ (tls_registry_ rt) ->
     exists b, Tls.find_block (ex_context (gt_execution s)) (Tls.tm_module_id m) = Some b /\ Tls.fresh_area m b) /\
  gt_host_exception s = None /\ gt_finished s = false /\
  symbols_ rt' = symbols_ rt /\ regions_ (memory_ rt') = regions_ (memory_ rt).
Proof.
  intros Hs Hw Hap Hst. unfold start_thread in Hst. apply bind_Ok in Hst as ([] & Hv & Hst).
  apply bind_Ok in Hst as ([thread [h hp1]] & Hg & Hst). destruct thread as [s'|]; [|done].
  injection Hst as <- <- <-. unfold validate_native_entry in Hv.
  destruct (native_backed (memory_ rt)) eqn:Hn; [|done]. cbn [negb] in Hv.
  destruct (executable_at _ _) eqn:He; [|done]. unfold start_guest_thread in Hg.
  destruct (Z.eqb_spec (lm_entry module) 0) as [|Hne]; [done|].
  apply bind_Ok in Hg as ([e after] & Hp & Hg). destruct e as [e|]; [|done]. injection Hg as <- ->.
  apply prepare_execution_spec in Hp as (Hpr & _ & Hc); [|done..].
  apply create_spec in Hc as (_ & _ & Hareas); [|done].
  cbn [gt_execution ex_stack ex_trampoline ex_context with_memory with_host memory_ host_ gt_host_exception gt_finished
       symbols_ regions_].
  repeat (split; [first [assumption|reflexivity]|]). reflexivity.
Qed.
End Theorems.
