(* ===== verification/Paths.v ===== *)
(** * Lexical paths

    The members of [std::filesystem::path] that [src/src/runtime/runtime.cpp]
    uses on POSIX: [parent_path], [lexically_normal], [lexically_relative], and
    the [path_is_within] built on them, compared with the one of
    [src/src/runtime/kernel_services.cpp].  A path is its string, as in
    [KernelFiles]. *)

From Stdlib Require Import Strings.String Strings.Ascii.
From S2P Require Import Prelude OrdMap NativeArena GuestMemory KernelMem KernelAttrs KernelTime KernelFiles.

Local Open Scope Z_scope.

(** ** Strings *)

Fixpoint join (names : list string) : string :=
  match names with
  | [] => ""
  | [n] => n
  | n :: names => n ++ "/" ++ join names
  end%string.

(** The string without the separators at its end. *)
Fixpoint strip_separators (p : string) : string :=
  match p with
  | EmptyString => EmptyString
  | String c p =>
      match strip_separators p with
      | EmptyString => if decide (c = separator) then EmptyString else String c EmptyString
      | rest => String c rest
      end
  end.

(** [filename]: what follows the last separator. *)
Definition path_filename (p : string) : string := List.last (segments p) ""%string.

(** [parent_path]: without the file name and the separators before it; the
    root directory is its own parent. *)
Definition parent_path (p : string) : string :=
  let directory := String.substring 0 (String.length p - String.length (path_filename p)) p in
  let stripped := strip_separators directory in
  if bool_decide (stripped = ""%string)
  then (if starts_with_separator p then "/"%string else ""%string)
  else stripped.

Definition has_parent_path (p : string) : bool := negb (bool_decide (parent_path p = ""%string)).

(** [is_absolute]: on POSIX, whether there is a root directory. *)
Definition is_absolute (p : string) : bool := starts_with_separator p.

(** ** Normal form *)

(** One element of the iteration: the names so far, last first, and whether the
    path ends with a separator. *)
Definition normal_step (absolute : bool) (acc : list string * bool) (element : string)
  : list string * bool :=
  let '(names, trailing) := acc in
  if bool_decide (element = ""%string) || bool_decide (element = "."%string) then (names, true)
  else if bool_decide (element = ".."%string) then
    match names with
    | [] => if absolute then ([], false) else ([".."%string], false)
    | name :: names' =>
        if bool_decide (name = ".."%string) then (".."%string :: names, false) else (names', true)
    end
  else (element :: names, false).

(** The elements without the root directory. *)
Definition relative_elements (p : string) : list string :=
  if is_absolute p then tail (path_elements p) else path_elements p.

Definition normal_names (p : string) : list string * bool :=
  foldl (normal_step (is_absolute p)) ([], false) (relative_elements p).

(** [lexically_normal]. *)
Definition lexically_normal (p : string) : string :=
  if bool_decide (p = ""%string) then ""%string
  else
    let '(names, trailing) := normal_names p in
    let root := if is_absolute p then "/"%string else ""%string in
    match names with
    | [] => if is_absolute p then "/"%string else "."%string
    | last :: _ =>
        let body := (root ++ join (rev names))%string in
        if trailing && negb (bool_decide (last = ".."%string)) then (body ++ "/")%string else body
    end.

(** ** Relative paths *)

(** The two rests behind the common elements. *)
Fixpoint mismatch (path base : list string) : list string * list string :=
  match path, base with
  | p :: path', b :: base' => if decide (p = b) then mismatch path' base' else (path, base)
  | _, _ => (path, base)
  end.

(** The names of the base that are left, those that go up against them. *)
Definition depth (base : list string) : Z :=
  foldl (fun n element =>
           if bool_decide (element = ".."%string) then n - 1
           else if bool_decide (element = ""%string) || bool_decide (element = "."%string) then n
           else n + 1) 0 base.

(** [path.lexically_relative(base)], as its elements; [[]] is the empty path. *)
Definition lexically_relative (path base : string) : list string :=
  if negb (Bool.eqb (is_absolute path) (is_absolute base)) then []
  else
    let '(a, b) := mismatch (path_elements path) (path_elements base) in
    match a, b with
    | [], [] => ["."%string]
    | _, _ =>
        let n := depth b in
        if n <? 0 then []
        else if (n =? 0) && match a with [] => true | e :: _ => bool_decide (e = ""%string) end
        then ["."%string]
        else replicate (Z.to_nat n) ".."%string ++ a
    end.

(** [path_is_within] of [runtime.cpp]. *)
Definition lexically_within (root path : string) : bool :=
  match lexically_relative path root with
  | [] => bool_decide (path_elements path = path_elements root)
  | first :: _ => negb (bool_decide (first = ".."%string))
  end.

(** ** Names and their rendering *)

(** A file name: not empty, without separators. *)
Fixpoint has_separator (n : string) : bool :=
  match n with
  | EmptyString => false
  | String c n => bool_decide (c = separator) || has_separator n
  end.

Definition is_name (n : string) : Prop := n <> ""%string /\ has_separator n = false.

Lemma append_cons c p q : (String c p ++ q)%string = String c (p ++ q)%string.
Proof. done. Qed.
Lemma append_nil q : ("" ++ q)%string = q.
Proof. done. Qed.

Lemma segments_not_nil p : segments p <> [].
Proof.
  destruct p as [|c p]; [done|]. cbn. destruct (decide (c = separator)); [done|]. by destruct (segments p).
Qed.

Lemma segments_names p n : n ∈ segments p -> has_separator n = false.
Proof.
  revert n. induction p as [|c p IH]; intros n; cbn [segments]; [by intros ->%list_elem_of_singleton|].
  destruct (decide (c = separator)) as [->|Hc]; [intros [->|Hn]%elem_of_cons; [done|by apply IH]|].
  destruct (segments p) as [|s rest] eqn:E; [by intros ->%list_elem_of_singleton; cbn; rewrite bool_decide_eq_false_2|].
  intros [->|Hn]%elem_of_cons; [|apply IH; by right]. cbn. rewrite bool_decide_eq_false_2 by done.
  apply IH. by left.
Qed.

Lemma segments_name n : has_separator n = false -> segments n = [n].
Proof.
  induction n as [|c n IH]; cbn [has_separator segments]; [done|]. intros [Hc Hn]%orb_false_iff.
  apply bool_decide_eq_false in Hc. rewrite decide_False by done. by rewrite IH.
Qed.

Lemma segments_append n p : has_separator n = false -> segments (n ++ "/" ++ p)%string = n :: segments p.
Proof.
  induction n as [|c n IH]; [done|]. cbn [has_separator]. intros [Hc Hn]%orb_false_iff.
  apply bool_decide_eq_false in Hc. rewrite (append_cons c n). cbn [segments].
  rewrite decide_False by done. by rewrite IH.
Qed.

Lemma segments_join names :
  names <> [] -> Forall (fun n => has_separator n = false) names -> segments (join names) = names.
Proof.
  intros Hne Hn. induction Hn as [|n names Hn Hns IH]; [done|]. cbn [join].
  destruct names as [|n' names]; [by apply segments_name|]. rewrite segments_append by done. by rewrite IH.
Qed.

Lemma segments_trailing p : segments (p ++ "/")%string = segments p ++ [""%string].
Proof.
  induction p as [|c p IH]; [done|]. rewrite append_cons. cbn [segments]. rewrite IH.
  destruct (decide (c = separator)); [done|]. destruct (segments p) as [|s rest] eqn:E; [|done].
  by apply segments_not_nil in E.
Qed.

Lemma ends_append p q : q <> ""%string -> ends_with_separator (p ++ q)%string = ends_with_separator q.
Proof.
  intros Hq. induction p as [|c p IH]; [done|]. rewrite append_cons. cbn [ends_with_separator].
  destruct (p ++ q)%string eqn:E; [|done]. destruct p; [|done]. by rewrite append_nil in E.
Qed.

Lemma ends_name n : has_separator n = false -> ends_with_separator n = false.
Proof.
  induction n as [|c n IH]; [done|]. cbn [has_separator ends_with_separator].
  intros [Hc Hn]%orb_false_iff. destruct n; [done|]. by apply IH.
Qed.

Lemma join_props names :
  names <> [] -> Forall is_name names ->
  join names <> ""%string /\ starts_with_separator (join names) = false /\
  ends_with_separator (join names) = false.
Proof.
  intros Hne Hn. induction Hn as [|n names [Hn1 Hn2] Hns IH]; [done|]. cbn [join].
  assert (starts_with_separator n = false) as Hst.
  { destruct n as [|c n]; [done|]. cbn in *. by apply orb_false_iff in Hn2 as [? _]. }
  destruct names as [|n' names]; [split_and!; [done..|by apply ends_name]|].
  destruct IH as (Hj & _ & He); [done|]. split_and!.
  - by destruct n.
  - destruct n as [|c n]; [done|exact Hst].
  - rewrite ends_append by done. by rewrite ends_append.
Qed.

Lemma path_elements_names p n : n ∈ relative_elements p -> n = ""%string \/ is_name n.
Proof.
  assert (forall x, x ∈ filter (fun n => n <> ""%string) (segments p) ++
    (if ends_with_separator p && negb (bool_decide (filter (fun n => n <> ""%string) (segments p) = []))
     then [""%string] else []) -> x = ""%string \/ is_name x) as Hall.
  { intros x [[Hne Hx]%list_elem_of_filter|Hx]%elem_of_app.
    - right. split; [done|]. by eapply segments_names.
    - destruct (_ && _); [apply list_elem_of_singleton in Hx; by left|by apply elem_of_nil in Hx]. }
  unfold relative_elements, path_elements, is_absolute. destruct (starts_with_separator p); cbn [app tail]; apply Hall.
Qed.

(** A path rendered from its names. *)
Definition render (absolute : bool) (names : list string) (trailing : bool) : string :=
  ((if absolute then "/" else "") ++ join names ++ (if trailing then "/" else ""))%string.

Lemma append_empty_r p : (p ++ "")%string = p.
Proof. induction p as [|c p IH]; [done|]. rewrite append_cons. by rewrite IH. Qed.

Lemma append_assoc p q r : ((p ++ q) ++ r)%string = (p ++ q ++ r)%string.
Proof. induction p as [|c p IH]; [done|]. rewrite !append_cons. by rewrite IH. Qed.

Lemma filter_names names : Forall is_name names -> filter (fun n => n <> ""%string) names = names.
Proof. induction 1 as [|n names [Hn _] _ IH]; [done|]. by rewrite filter_cons_True, IH. Qed.

Lemma segments_render absolute names trailing :
  names <> [] -> Forall is_name names ->
  filter (fun n => n <> ""%string) (segments (render absolute names trailing)) = names.
Proof.
  intros Hne Hn. unfold render.
  assert (filter (fun n => n <> ""%string) (segments (join names ++ (if trailing then "/" else ""))%string) = names) as Hj.
  { assert (Forall (fun n => has_separator n = false) names) as Hp by (eapply Forall_impl; [exact Hn|by intros ? []]).
    destruct trailing.
    - rewrite segments_trailing, segments_join, filter_app, filter_names by done.
      rewrite filter_cons_False by auto. by rewrite filter_nil, app_nil_r.
    - by rewrite append_empty_r, segments_join, filter_names. }
  destruct absolute; [|done]. change ("/" ++ ?q)%string with (String separator q). cbn [segments].
  rewrite decide_True by done. by rewrite filter_cons_False by auto.
Qed.

Lemma elements_render absolute names trailing :
  names <> [] -> Forall is_name names ->
  path_elements (render absolute names trailing) =
    (if absolute then ["/"%string] else []) ++ names ++ (if trailing then [""%string] else []) /\
  is_absolute (render absolute names trailing) = absolute /\ render absolute names trailing <> ""%string.
Proof.
  intros Hne Hn. destruct (join_props names Hne Hn) as (Hj & Hs & He).
  assert (starts_with_separator (render absolute names trailing) = absolute) as Hst.
  { unfold render. destruct absolute; [done|]. rewrite append_nil.
    destruct (join names) as [|c q]; [done|]. exact Hs. }
  assert (ends_with_separator (render absolute names trailing) = trailing) as Hen.
  { unfold render. destruct trailing.
    - rewrite <- append_assoc. by rewrite ends_append.
    - rewrite append_empty_r. by rewrite ends_append. }
  unfold path_elements. rewrite segments_render, Hst, Hen by done. rewrite bool_decide_eq_false_2 by done.
  split_and!; [by rewrite andb_true_r|exact Hst|]. intros E. rewrite E in Hst. cbn in Hst. subst absolute.
  unfold render in E. rewrite append_nil in E. by destruct (join names).
Qed.

(** ** Normal forms *)

(** A name other than the dots. *)
Definition plain (n : string) : Prop := is_name n /\ n <> "."%string /\ n <> ".."%string.

(** The names of a normal form, last first: the elements that go up stand at the
    start of a relative path. *)
Definition normal (absolute : bool) (names : list string) : Prop :=
  exists down k, names = down ++ replicate k ".."%string /\ Forall plain down /\
    (absolute = true -> k = 0%nat).

Lemma dots_name : is_name ".."%string.
Proof. done. Qed.

Lemma normal_is_names absolute names : normal absolute names -> Forall is_name names.
Proof.
  intros (down & k & -> & Hd & _). apply Forall_app. split.
  - eapply Forall_impl; [exact Hd|]. by intros ? [].
  - apply Forall_replicate, dots_name.
Qed.

Lemma normal_step_normal absolute names trailing e :
  normal absolute names -> e = ""%string \/ is_name e -> normal absolute (normal_step absolute (names, trailing) e).1.
Proof.
  intros (down & k & -> & Hd & Hk) He. unfold normal_step.
  destruct (bool_decide_reflect (e = ""%string)) as [|Hne]; [by exists down, k|].
  destruct (bool_decide_reflect (e = "."%string)) as [|Hnd]; [by exists down, k|]. cbn [orb].
  destruct (bool_decide_reflect (e = ".."%string)) as [->|Hndd].
  - destruct down as [|d down]; cbn [app].
    + destruct k as [|k]; cbn [replicate].
      * destruct absolute; [by exists [], 0%nat|by exists [], 1%nat].
      * rewrite bool_decide_eq_true_2 by done. exists [], (S (S k)). split_and!; [done..|].
        intros Ha. by specialize (Hk Ha).
    + apply Forall_cons in Hd as [Hdd Hd]. rewrite bool_decide_eq_false_2 by apply Hdd. by exists down, k.
  - exists (e :: down), k. split_and!; [done| |done]. apply Forall_cons. split; [|done].
    destruct He as [?|?]; [done|]. by split_and!.
Qed.

Lemma normal_names_normal p : normal (is_absolute p) (normal_names p).1.
Proof.
  unfold normal_names.
  assert (Forall (fun n => n = ""%string \/ is_name n) (relative_elements p)) as Hn
    by (apply Forall_forall; intros n; apply path_elements_names).
  assert (forall l acc, Forall (fun n => n = ""%string \/ is_name n) l -> normal (is_absolute p) acc.1 ->
    normal (is_absolute p) (foldl (normal_step (is_absolute p)) acc l).1) as Hfold.
  { induction l as [|e l IH]; intros [names t] Hl Ha; cbn [foldl]; [done|].
    apply Forall_cons in Hl as [He Hl]. apply IH; [done|]. by apply normal_step_normal. }
  apply Hfold; [done|]. by exists [], 0%nat.
Qed.

(** What [lexically_normal] renders. *)
Lemma lexically_normal_render p :
  p <> ""%string ->
  let names := (normal_names p).1 in
  let trailing := (normal_names p).2 && negb (bool_decide (head names = Some ".."%string)) in
  lexically_normal p =
    if decide (names = []) then (if is_absolute p then "/"%string else "."%string)
    else render (is_absolute p) (rev names) trailing.
Proof.
  intros Hp. unfold lexically_normal. rewrite bool_decide_eq_false_2 by done.
  destruct (normal_names p) as [names t]. cbn [fst snd]. destruct names as [|l names]; [done|].
  rewrite decide_False by done. cbn [head]. unfold render.
  rewrite (bool_decide_ext (Some l = Some ".."%string) (l = ".."%string)) by (split; congruence).
  destruct (t && _); [by rewrite append_assoc|by rewrite append_empty_r].
Qed.

Lemma step_plain absolute acc l t :
  Forall plain l ->
  foldl (normal_step absolute) (acc, t) l = (rev l ++ acc, if decide (l = []) then t else false).
Proof.
  revert acc t. induction l as [|e l IH]; intros acc t; cbn [foldl]; [done|].
  intros [([He _] & Hd & Hdd) Hl]%Forall_cons. unfold normal_step at 2.
  rewrite !bool_decide_eq_false_2 by done. cbn [orb]. rewrite IH by done. cbn [rev].
  rewrite <- app_assoc. rewrite (decide_False (P := e :: l = [])) by done. by destruct (decide (l = [])).
Qed.

Lemma step_dots acc k t :
  foldl (normal_step false) (replicate acc ".."%string, t) (replicate k ".."%string) =
    (replicate (acc + k) ".."%string, if decide (k = 0%nat) then t else false).
Proof.
  revert acc t. induction k as [|k IH]; intros acc t; cbn [replicate foldl]; [by rewrite Nat.add_0_r|].
  assert (normal_step false (replicate acc ".."%string, t) ".."%string = (replicate (S acc) ".."%string, false)) as ->.
  { unfold normal_step. cbn. by destruct acc. }
  rewrite IH. rewrite Nat.add_succ_r. cbn. by destruct (decide (k = 0%nat)).
Qed.

Lemma rev_replicate {A} k (x : A) : rev (replicate k x) = replicate k x.
Proof. induction k as [|k IH]; [done|]. cbn [replicate rev]. by rewrite IH, <- replicate_S_end. Qed.

(** The names of a rendered normal form are those it was rendered from. *)
Lemma normal_names_render absolute names trailing :
  normal absolute names -> names <> [] -> (trailing = true -> head names <> Some ".."%string) ->
  normal_names (render absolute (rev names) trailing) = (names, trailing).
Proof.
  intros Hn Hne Ht. pose proof (normal_is_names _ _ Hn) as Hnames.
  destruct (elements_render absolute (rev names) trailing) as (He & Ha & _).
  { intros E. apply Hne. rewrite <- (rev_involutive names), E. done. }
  { by apply Forall_rev. }
  unfold normal_names, relative_elements. rewrite He, Ha.
  assert ((if absolute then tail ((if absolute then ["/"%string] else []) ++ rev names ++ (if trailing then [""%string] else []))
           else (if absolute then ["/"%string] else []) ++ rev names ++ (if trailing then [""%string] else []))
          = rev names ++ (if trailing then [""%string] else [])) as -> by (by destruct absolute).
  destruct Hn as (down & k & -> & Hd & Hk).
  assert (foldl (normal_step absolute) ([], false) (rev (down ++ replicate k ".."%string)) =
    (down ++ replicate k ".."%string, false)) as Hfold.
  { rewrite rev_app_distr, rev_replicate, foldl_app.
    assert (foldl (normal_step absolute) ([], false) (replicate k ".."%string) = (replicate k ".."%string, false)) as ->.
    { destruct absolute; [by rewrite Hk|]. rewrite (step_dots 0). cbn. by destruct (decide (k = 0%nat)). }
    rewrite step_plain by (by apply Forall_rev). rewrite rev_involutive. by destruct (decide _). }
  rewrite foldl_app, Hfold. by destruct trailing.
Qed.

(** The elements of a normal form. *)
Lemma lexically_normal_elements p :
  p <> ""%string ->
  let q := lexically_normal p in
  q <> ""%string /\ is_absolute q = is_absolute p /\ lexically_normal q = q /\
  (if is_absolute p
   then exists down trailing, Forall plain down /\ path_elements q = "/"%string :: down ++ trailing /\
          (trailing = [] \/ trailing = [""%string])
   else path_elements q = ["."%string] \/
        exists k down trailing, Forall plain down /\ path_elements q = replicate k ".."%string ++ down ++ trailing /\
          (trailing = [] \/ trailing = [""%string])).
Proof.
  intros Hp q. subst q. pose proof (normal_names_normal p) as Hn. rewrite lexically_normal_render by done.
  destruct (normal_names p) as [names t] eqn:E. cbn [fst snd] in *.
  destruct (decide (names = [])) as [->|Hne].
  { destruct (is_absolute p); [|split_and!; [done..|by left]].
    split_and!; [done..|]. exists [], []. split_and!; [done..|by left]. }
  set (trailing := t && negb _).
  assert (trailing = true -> head names <> Some ".."%string) as Ht.
  { unfold trailing. intros [_ Hh]%andb_true_iff. apply negb_true_iff in Hh.
    by apply bool_decide_eq_false in Hh. }
  destruct (elements_render (is_absolute p) (rev names) trailing) as (He & Ha & Hr).
  { intros E2. apply Hne. by rewrite <- (rev_involutive names), E2. }
  { apply Forall_rev. by eapply normal_is_names. }
  split_and!; [done|done| |].
  - rewrite lexically_normal_render by done. rewrite Ha, normal_names_render by done. cbn [fst snd].
    rewrite decide_False by done. destruct trailing; cbn [andb]; [|done].
    by rewrite bool_decide_eq_false_2 by auto.
  - rewrite He. destruct Hn as (down & k & -> & Hd & Hk). rewrite rev_app_distr, rev_replicate.
    apply Forall_rev in Hd. destruct (is_absolute p).
    + rewrite Hk by done. exists (rev down), (if trailing then [""%string] else []).
      split_and!; [done|done|]. destruct trailing; auto.
    + right. exists k, (rev down), (if trailing then [""%string] else []). rewrite <- app_assoc.
      split_and!; [done|done|]. destruct trailing; auto.
Qed.

(** [lexically_normal] is idempotent and keeps absolute paths absolute; the
    elements of a normal absolute path are the root directory and names other
    than the dots, those of a relative one go up only at the start (a trailing
    separator is kept). *)
Theorem lexically_normal_is_normal p :
  let q := lexically_normal p in
  lexically_normal q = q /\ is_absolute q = is_absolute p /\
  (is_absolute p = true -> canonical_path q) /\
  (is_absolute p = false -> p <> ""%string ->
   path_elements q = ["."%string] \/
   exists k down trailing, Forall plain down /\
     path_elements q = replicate k ".."%string ++ down ++ trailing /\
     (trailing = [] \/ trailing = [""%string])).
Proof.
  intros q. destruct (decide (p = ""%string)) as [->|Hp]; [by split_and!|].
  destruct (lexically_normal_elements p Hp) as (_ & Ha & Hi & Hel). fold q in Ha, Hi, Hel.
  split_and!; [done|done| |].
  - intros Habs. rewrite Habs in Hel, Ha. destruct Hel as (down & trailing & Hd & He & Ht).
    unfold canonical_path. rewrite He.
    assert (forall x, x = "."%string \/ x = ".."%string -> x ∉ "/"%string :: down ++ trailing) as Hno.
    { intros x Hx [Hin|[Hin|Hin]%elem_of_app]%elem_of_cons; [subst x; by destruct Hx| |].
      - rewrite Forall_forall in Hd. destruct (Hd x Hin) as (_ & ? & ?). by destruct Hx.
      - destruct Ht as [->| ->]; [by apply elem_of_nil in Hin|].
        apply list_elem_of_singleton in Hin as ->. by destruct Hx. }
    split_and!; [exact Ha|apply Hno; by left|apply Hno; by right].
  - intros Hrel _. by rewrite Hrel in Hel.
Qed.

(** ** Paths below a root *)

Lemma depth_plain base : Forall plain base -> depth base = zlen base.
Proof.
  intros Hb. unfold depth.
  assert (forall n, foldl (fun n element =>
    if bool_decide (element = ".."%string) then n - 1
    else if bool_decide (element = ""%string) || bool_decide (element = "."%string) then n else n + 1) n base
    = n + zlen base) as Hf; [|by rewrite Hf].
  induction Hb as [|e base ([He _] & Hd & Hdd) Hb IH]; intros n; cbn [foldl length]; [lia|].
  rewrite !bool_decide_eq_false_2 by done. cbn [orb]. rewrite IH. lia.
Qed.

Lemma mismatch_spec path base a b :
  mismatch path base = (a, b) ->
  exists common, path = common ++ a /\ base = common ++ b /\
    (a = [] \/ b = [] \/ head a <> head b).
Proof.
  revert base a b. induction path as [|p path IH]; intros [|b0 base] a b; cbn [mismatch];
    try (intros [= <- <-]; exists []; split_and!; [done|done|auto]).
  destruct (decide (p = b0)) as [->|Hne].
  - intros (common & -> & -> & ?)%IH. by exists (b0 :: common).
  - intros [= <- <-]. exists []. split_and!; [done|done|]. right. right. cbn. congruence.
Qed.

Lemma elements_within_iff root path : elements_within root path = true <-> root `prefix_of` path.
Proof.
  revert path. induction root as [|r root IH]; intros path; cbn [elements_within].
  - split; [intros _; apply prefix_nil|done].
  - destruct path as [|p path].
    + split; [done|]. intros [k Hk]. done.
    + destruct (decide (p = r)) as [->|Hne].
      * rewrite IH. split; [by apply prefix_cons|by apply prefix_cons_inv_2].
      * split; [done|]. intros Hpre. by apply prefix_cons_inv_1 in Hpre.
Qed.

(** A path as [std::filesystem::canonical] makes it: the root directory and
    names, with one separator between two and none behind. *)
Definition absolute_path (names : list string) : string := ("/" ++ join names)%string.
Definition clean_path (p : string) : Prop := exists names, p = absolute_path names /\ Forall plain names.

Lemma plain_names names : Forall plain names -> Forall is_name names.
Proof. intros Hn. eapply Forall_impl; [exact Hn|]. by intros ? []. Qed.

Lemma absolute_path_elements names :
  Forall plain names ->
  path_elements (absolute_path names) = "/"%string :: names /\ is_absolute (absolute_path names) = true.
Proof.
  intros Hn. destruct (decide (names = [])) as [->|Hne]; [done|].
  destruct (elements_render true names false Hne (plain_names _ Hn)) as (He & Ha & _).
  unfold render in He, Ha. rewrite append_empty_r in He, Ha. rewrite app_nil_r in He. done.
Qed.

Lemma clean_canonical p : clean_path p -> canonical_path p.
Proof.
  intros (names & -> & Hn). destruct (absolute_path_elements names Hn) as [He Ha].
  unfold canonical_path. rewrite He. rewrite Forall_forall in Hn.
  split_and!; [exact Ha|intros [E|Hin]%elem_of_cons; [done|by destruct (Hn _ Hin) as (_ & ? & ?)]..].
Qed.

(** The two [path_is_within] of the sources agree: below a canonical root,
    for a path without dots, the one built on [lexically_relative] and the one
    that compares the elements answer the same, namely whether the elements of
    the root are a prefix of those of the path. *)
Theorem path_is_within_agree root path :
  clean_path root -> canonical_path path ->
  lexically_within root path = path_is_within root path /\
  (path_is_within root path = true <-> path_elements root `prefix_of` path_elements path).
Proof.
  intros (names & -> & Hrn) (Hpa & _ & Hpdd). split; [|apply elements_within_iff].
  destruct (absolute_path_elements names Hrn) as [Hre Hra]. unfold is_absolute in Hra. set (root := absolute_path names) in *.
  unfold lexically_within, lexically_relative, path_is_within, is_absolute. rewrite Hra, Hpa. cbn [Bool.eqb negb].
  destruct (mismatch (path_elements path) (path_elements root)) as [a b] eqn:Hm.
  apply mismatch_spec in Hm as (common & Hp & Hr & Hor).
  assert (b = [] -> elements_within (path_elements root) (path_elements path) = true) as Hin.
  { intros ->. apply elements_within_iff. rewrite Hp, Hr, app_nil_r. by apply prefix_app_r. }
  assert (b <> [] -> Forall plain b) as Hbp.
  { intros Hb. destruct common as [|c common].
    - exfalso. unfold path_elements in Hp, Hr. rewrite Hpa in Hp. rewrite Hra in Hr.
      cbn in Hp, Hr. subst a b. destruct Hor as [?|[?|Hh]]; [done|done|by apply Hh].
    - rewrite Hre in Hr. cbn in Hr. injection Hr as _ Hr. rewrite Hr in Hrn. by apply Forall_app in Hrn as [_ ?]. }
  assert (b <> [] -> elements_within (path_elements root) (path_elements path) = false) as Hout.
  { intros Hb. apply not_true_iff_false. rewrite elements_within_iff. rewrite Hp, Hr.
    intros Hpre%prefix_app_inv. destruct Hpre as [k ->]. destruct b; [done|]. destruct Hor as [?|[?|?]]; done. }
  destruct b as [|b0 b].
  - rewrite Hin by done. destruct a as [|a0 a]; [done|]. cbn [depth foldl]. cbn [Z.ltb Z.eqb andb].
    destruct (bool_decide_reflect (a0 = ""%string)); [done|].
    change (0 =? 0) with true. change (0 <? 0) with false. change (Z.to_nat 0) with 0%nat.
    cbn [replicate app]. rewrite bool_decide_eq_false_2; [done|]. intros ->. apply Hpdd. rewrite Hp. apply elem_of_app. right. by left.
  - rewrite Hout by done. specialize (Hbp ltac:(done)). pose proof (depth_plain _ Hbp) as Hdp.
    cbn [length] in Hdp.
    assert (forall rest, (match replicate (Z.to_nat (depth (b0 :: b))) ".."%string ++ rest with
      | [] => bool_decide (path_elements path = path_elements root)
      | first :: _ => negb (bool_decide (first = ".."%string)) end) = false) as Hrep.
    { intros rest. rewrite Hdp. replace (Z.to_nat (Z.of_nat (S (length b)))) with (S (length b)) by lia. done. }
    destruct (Z.ltb_spec (depth (b0 :: b)) 0); [lia|]. destruct (Z.eqb_spec (depth (b0 :: b)) 0); [lia|]. cbn [andb].
    destruct a; apply Hrep.
Qed.

(** ** Parents *)

Lemma join_snoc names n :
  join (names ++ [n]) = (if decide (names = []) then n else join names ++ "/" ++ n)%string.
Proof.
  induction names as [|m names IH]; [done|]. cbn [app join].
  destruct (names ++ [n]) as [|x l] eqn:E; [by destruct names|]. rewrite IH. clear IH.
  destruct names as [|m' names]; [done|]. rewrite !decide_False by done. by rewrite !append_assoc.
Qed.

Lemma length_append p q : String.length (p ++ q)%string = (String.length p + String.length q)%nat.
Proof. induction p as [|c p IH]; [done|]. rewrite append_cons. cbn [String.length]. by rewrite IH. Qed.

Lemma substring_append p q : String.substring 0 (String.length p) (p ++ q)%string = p.
Proof.
  induction p as [|c p IH]; [by destruct q|]. rewrite append_cons. cbn [String.length String.substring]. by rewrite IH.
Qed.

Lemma strip_plain p : ends_with_separator p = false -> strip_separators p = p.
Proof.
  induction p as [|c p IH]; [done|]. cbn [ends_with_separator strip_separators]. destruct p as [|c' p].
  - intros Hc%bool_decide_eq_false. by rewrite decide_False.
  - intros He. by rewrite IH.
Qed.

Lemma strip_trailing p : p <> ""%string -> ends_with_separator p = false -> strip_separators (p ++ "/")%string = p.
Proof.
  induction p as [|c p IH]; [done|]. intros _. rewrite append_cons. cbn [ends_with_separator strip_separators].
  destruct p as [|c' p].
  - intros Hc%bool_decide_eq_false. change (strip_separators ("" ++ "/")%string) with ""%string.
    cbn match. by rewrite decide_False.
  - intros He. by rewrite IH.
Qed.

Lemma absolute_filename names n :
  Forall plain (names ++ [n]) -> path_filename (absolute_path (names ++ [n])) = n.
Proof.
  intros Hn%plain_names. unfold path_filename, absolute_path.
  change ("/" ++ ?q)%string with (String separator q). cbn [segments]. rewrite decide_True by done.
  rewrite segments_join.
  - rewrite app_comm_cons. by rewrite last_last.
  - by destruct names.
  - eapply Forall_impl; [exact Hn|]. by intros ? [].
Qed.

(** The parent of a clean path. *)
Lemma parent_path_absolute names n :
  Forall plain (names ++ [n]) -> parent_path (absolute_path (names ++ [n])) = absolute_path names.
Proof.
  intros Hn. unfold parent_path. rewrite (absolute_filename names n Hn).
  pose proof Hn as [Hnames _]%Forall_app. pose proof (plain_names _ Hnames) as Hnn.
  assert (absolute_path (names ++ [n]) =
    ((if decide (names = []) then "/" else absolute_path names ++ "/") ++ n)%string) as ->.
  { unfold absolute_path. rewrite join_snoc. destruct (decide (names = [])); [done|]. by rewrite !append_assoc. }
  rewrite length_append, Nat.add_sub, substring_append.
  destruct (decide (names = [])) as [->|Hne]; [done|].
  destruct (join_props names Hne Hnn) as (Hj & _ & He).
  rewrite strip_trailing.
  - by rewrite bool_decide_eq_false_2 by done.
  - done.
  - unfold absolute_path. by rewrite ends_append.
Qed.

Lemma parent_path_clean p : clean_path p -> clean_path (parent_path p).
Proof.
  intros (names & -> & Hn). destruct names as [|n names _] using rev_ind; [by exists []|].
  rewrite parent_path_absolute by done. exists names. split; [done|]. by apply Forall_app in Hn as [? _].
Qed.

(** ** Witnesses *)

Lemma lexically_normal_is_normal_witness :
  lexically_normal "/a/./b/../c" = "/a/c"%string /\ canonical_path (lexically_normal "/a/./b/../c").
Proof.
  split; [reflexivity|].
  exact (proj1 (proj2 (proj2 (lexically_normal_is_normal "/a/./b/../c"))) eq_refl).
Defined.

Lemma sample_canonical : canonical_path "/app/data" /\ canonical_path "/app/data/lib/a.prx" /\
  canonical_path "/app/database".
Proof. unfold canonical_path. split_and!; (reflexivity || (apply (bool_decide_unpack _); vm_compute; exact I)). Qed.

Lemma sample_clean : clean_path "/app/data".
Proof.
  exists ["app"; "data"]%string. split; [reflexivity|]. repeat constructor; by vm_compute.
Qed.

Lemma path_is_within_agree_witness :
  lexically_within "/app/data" "/app/data/lib/a.prx" = true /\
  lexically_within "/app/data" "/app/database" = path_is_within "/app/data" "/app/database".
Proof.
  destruct sample_canonical as (_ & H1 & H2). split.
  - rewrite (proj1 (path_is_within_agree "/app/data" "/app/data/lib/a.prx" sample_clean H1)). reflexivity.
  - exact (proj1 (path_is_within_agree "/app/data" "/app/database" sample_clean H2)).
Defined.
