(* ===== verification/Dependencies.v ===== *)
(** * Discovering and loading programs

    [Runtime::load_program] and [load_elf] of [src/src/runtime/runtime.cpp]: the
    dependencies of an image are looked up along the run path, every file below
    the program's directory is read once, and the modules are mapped and linked.

    The recursion of [discover] is bounded by a fuel: a nested call has read one
    more file, so that one level more than there are files below the root is
    enough ([DependenciesProps.discover_fuel]). *)

From Stdlib Require Import Strings.String Strings.Ascii.
From S2P Require Import Prelude OrdMap NativeArena GuestMemory KernelMem KernelAttrs KernelTime KernelFiles Elf64 Dynamic Symbols LateImports PatchMemory Linker Tls CpuPatches Loader Lifecycle Paths.

Local Open Scope Z_scope.

(** ** Strings *)

(** The text between the occurrences of a character. *)
Fixpoint split_on (c : ascii) (value : string) : list string :=
  match value with
  | EmptyString => [""%string]
  | String x value =>
      if decide (x = c) then ""%string :: split_on c value
      else match split_on c value with
           | [] => [String x ""]
           | s :: rest => String x s :: rest
           end
  end.

Definition split_search_path (value : string) : list string :=
  filter (fun component => component <> ""%string) (split_on ":" value).

(** The occurrences of the token from the left, [skip] characters behind. *)
Fixpoint replace_from (skip : nat) (value token replacement : string) : string :=
  match value with
  | EmptyString => ""
  | String c rest =>
      match skip with
      | S skip => replace_from skip rest token replacement
      | O =>
          if String.prefix token value
          then (replacement ++ replace_from (String.length token - 1) rest token replacement)%string
          else String c (replace_from 0 rest token replacement)
      end
  end.

Definition replace_all (value token replacement : string) : string :=
  replace_from 0 value token replacement.

Definition contains (value token : string) : bool := isSome (String.index 0 token value).

(** ** Search paths *)

(** The text of an exception that names what it is about. *)
Definition about (what name : string) : exn := runtime_error (what ++ name).

Definition search_directory (root module_path component : string) : result string :=
  let uses_origin := contains component "$ORIGIN" || contains component "${ORIGIN}" in
  let origin := parent_path module_path in
  let expanded := replace_all (replace_all component "${ORIGIN}" origin) "$ORIGIN" origin in
  if contains expanded "$" then Throw (about "unsupported dynamic search-path token: " component)
  else
    directory ←
      (if bool_decide (expanded = "/app0"%string) || String.prefix "/app0/" expanded then
         let relative := if (String.length expanded =? 5)%nat then ""%string
                         else String.substring 6 (String.length expanded - 6) expanded in
         Ok (path_append root relative)
       else if is_absolute expanded then
         if negb uses_origin || negb (lexically_within root (lexically_normal expanded))
         then Throw (about "absolute dynamic search path is outside guest /app0: " component)
         else Ok expanded
       else Ok (path_append root expanded));
    let directory := lexically_normal directory in
    if negb (lexically_within root directory)
    then Throw (about "dynamic search path escapes the program root: " component)
    else Ok directory.

Section Discovery.
Context `{HostFs}.

(** The loop over the candidates, with those it has seen. *)
Fixpoint try_candidates (root dependency_name : string) (seen : gset string) (candidates : list string)
  : result (option string) :=
  match candidates with
  | [] => Ok None
  | candidate :: candidates =>
      let candidate := lexically_normal candidate in
      if negb (lexically_within root candidate)
      then Throw (about "DT_NEEDED dependency escapes the program root: " dependency_name)
      else if bool_decide (candidate ∈ seen)
      then try_candidates root dependency_name seen candidates
      else
        let seen := {[candidate]} ∪ seen in
        match fs_canonical candidate with
        | None => try_candidates root dependency_name seen candidates
        | Some canonical =>
            if negb (lexically_within root canonical)
            then Throw (about "DT_NEEDED dependency escapes the program root: " dependency_name)
            else if fs_is_regular_file canonical then Ok (Some canonical)
            else try_candidates root dependency_name seen candidates
        end
  end.

(** The directories of the run path, in order. *)
Fixpoint search_candidates (root module_path dependency_name : string) (components : list string)
  : result (list string) :=
  match components with
  | [] => Ok []
  | component :: components =>
      directory ← search_directory root module_path component;
      rest ← search_candidates root module_path dependency_name components;
      Ok (path_append directory dependency_name :: rest)
  end.

Definition resolve_dependency_path (root module_path : string) (dynamic : DynamicInfo)
    (dependency_name : string) : result (option string) :=
  searched ←
    (if has_parent_path dependency_name then Ok []
     else
       search_candidates root module_path dependency_name
         (split_search_path (if negb (bool_decide (runpath dynamic = ""%string)) then runpath dynamic
                             else rpath dynamic)));
  try_candidates root dependency_name ∅
    (path_append (parent_path module_path) dependency_name :: searched).

(** [hle::libkernel::provides_module]. *)
Definition provides_module (filename : string) : bool :=
  bool_decide (filename = "libkernel.prx"%string) || bool_decide (filename = "libScePosix.prx"%string).

(** ** Discovery *)

Record PendingModule : Type := mkPendingModule {
  pm_path : string;
  pm_image : Elf64Image;
  pm_dynamic : option DynamicInfo;
  pm_dependencies : list nat;
}.

Record discovery : Type := mkDiscovery {
  pending : list PendingModule;
  indices : gmap string nat;
}.

Definition add_dependency (index dependency : nat) (st : discovery) : discovery :=
  mkDiscovery
    (alter (fun m => mkPendingModule (pm_path m) (pm_image m) (pm_dynamic m)
                       (pm_dependencies m ++ [dependency])) index (pending st))
    (indices st).

(** One needed name of a module; [recurse] is the call of [discover]. *)
Definition discover_needed (recurse : discovery -> string -> result (nat * discovery))
    (root canonical : string) (dynamic : DynamicInfo) (index : nat) (st : discovery) (needed : string)
  : result discovery :=
  if bool_decide (needed = ""%string) || is_absolute needed
  then Throw (about "unsupported absolute or empty DT_NEEDED dependency: " needed)
  else
    dependency_path ← resolve_dependency_path root canonical dynamic needed;
    match dependency_path with
    | None =>
        if provides_module (path_filename needed) then Ok st
        else Throw (about "missing DT_NEEDED dependency: " needed)
    | Some path =>
        '(dependency, st) ← recurse st path;
        Ok (add_dependency index dependency st)
    end.

(** The image of a file with its dynamic information. *)
Definition read_module (path : string) : result (Elf64Image * option DynamicInfo) :=
  image ← from_file path;
  dynamic ← (if has_dynamic_segment image then parse_dynamic_info image else Ok None);
  Ok (image, dynamic).

Fixpoint discover (fuel : nat) (root : string) (st : discovery) (requested : string)
  : result (nat * discovery) :=
  match fuel with
  | O => Throw (undefined_behaviour "the discovery does not end")
  | S fuel =>
      match fs_canonical requested with
      | None => Throw (about "program dependency escapes or is missing from the program root: " requested)
      | Some canonical =>
          if negb (lexically_within root canonical)
          then Throw (about "program dependency escapes or is missing from the program root: " requested)
          else
            match indices st !! canonical with
            | Some index => Ok (index, st)
            | None =>
                '(image, dynamic) ← read_module canonical;
                let index := length (pending st) in
                let st := mkDiscovery (pending st ++ [mkPendingModule canonical image dynamic []])
                            (<[canonical := index]> (indices st)) in
                match dynamic with
                | None => Ok (index, st)
                | Some info =>
                    st ← fold_result (discover_needed (discover fuel root) root canonical info index)
                           st (needed info);
                    Ok (index, st)
                end
            end
      end
  end.

Context `{HostOs}.

(** ** Loading *)

(** The mapping of one discovered module. *)
Definition map_module `{Decoder} (policy : TcbPatchPolicy) (main_index : nat) (base : Z)
    (acc : Runtime * list LoadedModule) (module : PendingModule) : result (Runtime * list LoadedModule) :=
  let '(rt, loaded) := acc in
  module_base ←
    (if (length loaded =? main_index)%nat && negb (base =? 0) then Ok base
     else find_module_base (memory_ rt) (pm_image module));
  '(mapped, rt) ← map_image policy rt (pm_image module) (pm_path module) module_base;
  Ok (rt, loaded ++ [mapped]).

(** The second loop over the modules, which replaces their reports. *)
Definition relocate_step (acc : Runtime * list LoadedModule) (module : LoadedModule)
  : result (Runtime * list LoadedModule) :=
  let '(rt, loaded) := acc in
  '(module, rt) ← relocate_module rt module;
  Ok (rt, loaded ++ [module]).

Definition load_program `{Decoder} (fuel : nat) (policy : TcbPatchPolicy) (rt : Runtime)
    (files : FileState) (path : string) (base : Z)
  : result (LoadedProgram * (Runtime * FileState)) :=
  match fs_canonical path with
  | None => Throw (about "unable to open program ELF image: " path)
  | Some main_path =>
      if negb (fs_is_regular_file main_path)
      then Throw (about "unable to open program ELF image: " path)
      else
        let root := parent_path main_path in
        let '(configured, files) :=
          if bool_decide (guest_root_ files = ""%string) then set_guest_root files root else (true, files) in
        if negb configured then Throw (runtime_error "unable to configure guest /app0 root")
        else
          '(main_index, st) ← discover fuel root (mkDiscovery [] ∅) main_path;
          '(rt, modules) ← fold_result (map_module policy main_index base) (rt, []) (pending st);
          rt ← fold_result export_module rt modules;
          '(rt, modules) ← fold_result relocate_step (rt, []) modules;
          Ok (mkProgram modules (map pm_dependencies (pending st)) main_index [] false false false false,
              (rt, files))
  end.

(** [load_elf]; [absolute] is [std::filesystem::absolute]. *)
Definition load_elf `{Decoder} (absolute : string -> option string) (policy : TcbPatchPolicy)
    (rt : Runtime) (files : FileState) (path : string) (base : Z)
  : result (LoadedModule * (Runtime * FileState)) :=
  image ← from_file path;
  let '(configured, files) :=
    if bool_decide (guest_root_ files = ""%string) then
      match absolute path with
      | None => (false, files)
      | Some p => set_guest_root files (parent_path p)
      end
    else (true, files) in
  if negb configured then Throw (runtime_error "unable to configure guest /app0 root")
  else
    '(module, rt) ← load_image policy rt image path base;
    Ok (module, (rt, files)).

End Discovery.
