(* ===== verification/DependenciesProps.v ===== *)
(** * Properties of discovery and loading

    Which files a program is made of, and that what [load_program] returns is
    what [initialize_program] expects. *)

From Stdlib Require Import Strings.String Strings.Ascii.
From S2P Require Import Prelude NativeArena GuestMemory GuestMemoryProps Fault KernelMem KernelAttrs KernelTime KernelFiles Elf64 Dynamic Symbols LateImports PatchMemory Linker Tls CpuPatches CpuPatchesProps Loader Lifecycle LifecycleProps Paths Dependencies.

Local Open Scope Z_scope.

(** What [std::filesystem::canonical] documents. *)
Class HostFsCanonical (F : HostFs) : Prop := {
  fs_canonical_clean p q : fs_canonical p = Some q -> clean_path q;
}.

(** The path names a file below the root. *)
Definition below (root p : string) : Prop :=
  clean_path p /\ path_elements root `prefix_of` path_elements p.

Section Discovery.
Context `{F : HostFs, !HostFsCanonical F}.
Variable root : string.
Hypothesis root_clean : clean_path root.

Lemma within_below p q : fs_canonical p = Some q -> lexically_within root q = true -> below root q.
Proof.
  intros Hc%fs_canonical_clean Hw. split; [done|].
  destruct (path_is_within_agree root q root_clean (clean_canonical q Hc)) as [E Hiff].
  apply Hiff. by rewrite <- E.
Qed.

Lemma try_candidates_below name seen candidates p :
  try_candidates root name seen candidates = Ok (Some p) -> below root p /\ fs_is_regular_file p = true.
Proof.
  revert seen. induction candidates as [|c candidates IH]; intros seen; cbn [try_candidates]; [done|].
  destruct (negb _); [done|]. destruct (bool_decide _); [apply IH|].
  destruct (fs_canonical (lexically_normal c)) as [q|] eqn:Hc; [|apply IH].
  destruct (lexically_within root q) eqn:Hw; cbn [negb]; [|done].
  destruct (fs_is_regular_file q) eqn:Hr; [|apply IH]. intros [= <-]. split; [by eapply within_below|done].
Qed.

Lemma resolve_below module_path dynamic name p :
  resolve_dependency_path root module_path dynamic name = Ok (Some p) ->
  below root p /\ fs_is_regular_file p = true.
Proof. unfold resolve_dependency_path. intros (searched & _ & Ht)%bind_Ok. by eapply try_candidates_below. Qed.

(** ** What is discovered *)

(** The index of the module a needed name resolves to. *)
Definition needed_index (ix : gmap string nat) (path : string) (dynamic : DynamicInfo) (name : string)
  : option nat :=
  match resolve_dependency_path root path dynamic name with
  | Ok (Some p) => canonical ← fs_canonical p; ix !! canonical
  | _ => None
  end.

(** The names that are done: modules the runtime provides, or files that have an
    index. *)
Definition needed_done (ix : gmap string nat) (path : string) (dynamic : DynamicInfo) (name : string) : Prop :=
  (resolve_dependency_path root path dynamic name = Ok None /\ provides_module (path_filename name) = true) \/
  is_Some (needed_index ix path dynamic name).

(** A module whose first names are done. *)
Record module_ok (ix : gmap string nat) (module : PendingModule) (names : list string) : Prop := {
  mo_read : read_module (pm_path module) = Ok (pm_image module, pm_dynamic module);
  mo_done : forall info n, pm_dynamic module = Some info -> n ∈ names ->
    needed_done ix (pm_path module) info n;
  mo_dependencies :
    pm_dependencies module =
      match pm_dynamic module with
      | None => []
      | Some info => omap (needed_index ix (pm_path module) info) names
      end;
}.

Definition module_complete (ix : gmap string nat) (module : PendingModule) : Prop :=
  module_ok ix module (match pm_dynamic module with None => [] | Some info => needed info end).

(** Files and indices correspond. *)
Record indexed (st : discovery) : Prop := {
  ix_path k i : indices st !! k = Some i -> exists m, pending st !! i = Some m /\ pm_path m = k;
  ix_index i m : pending st !! i = Some m -> indices st !! pm_path m = Some i;
  ix_below k i : indices st !! k = Some i -> below root k;
}.

(** What a call leaves: the modules it found are there unchanged, those it adds
    are complete. *)
Record discovered (st st' : discovery) : Prop := {
  dv_indexed : indexed st';
  dv_subset : indices st ⊆ indices st';
  dv_old i m : pending st !! i = Some m -> pending st' !! i = Some m;
  dv_new i m : (length (pending st) <= i)%nat -> pending st' !! i = Some m -> module_complete (indices st') m;
}.

Lemma discovered_refl st : indexed st -> discovered st st.
Proof.
  intros Hi. split; [done|done|done|]. intros i m Hl Hm%lookup_lt_Some. lia.
Qed.

Lemma discovered_length st st' : discovered st st' -> (length (pending st) <= length (pending st'))%nat.
Proof.
  intros [_ _ Ho _]. destruct (pending st) as [|m ms] using rev_ind; [cbn; lia|].
  assert (pending st' !! length ms = Some m) as Hl%lookup_lt_Some.
  { apply Ho. by rewrite list_lookup_middle. }
  rewrite length_app. cbn. lia.
Qed.

Lemma needed_index_mono ix ix' path info n i :
  ix ⊆ ix' -> needed_index ix path info n = Some i -> needed_index ix' path info n = Some i.
Proof.
  intros Hs. unfold needed_index. destruct (resolve_dependency_path _ _ _ _) as [[p|]|]; try done.
  destruct (fs_canonical p); [|done]. cbn. intros Hi. by eapply lookup_weaken.
Qed.

Lemma needed_done_mono ix ix' path info n :
  ix ⊆ ix' -> needed_done ix path info n -> needed_done ix' path info n /\
  needed_index ix' path info n = needed_index ix path info n.
Proof.
  intros Hs [[Hr Hp]|[i Hi]].
  - split; [by left|]. unfold needed_index. by rewrite Hr.
  - pose proof (needed_index_mono _ _ _ _ _ _ Hs Hi) as Hi'. split; [right; by exists i|congruence].
Qed.

Lemma omap_ext_in {A B} (f g : A -> option B) (l : list A) : (forall x, x ∈ l -> f x = g x) -> omap f l = omap g l.
Proof.
  induction l as [|x l IH]; intros Hf; [done|]. cbn [omap list_omap]. rewrite Hf by (by left).
  rewrite IH by (intros y Hy; apply Hf; by right). done.
Qed.

Lemma module_ok_mono ix ix' m names : ix ⊆ ix' -> module_ok ix m names -> module_ok ix' m names.
Proof.
  intros Hs [Hr Hd Hdep]. split; [done| |].
  - intros info n Hi Hn. by apply (needed_done_mono ix ix'), Hd.
  - rewrite Hdep. destruct (pm_dynamic m) as [info|] eqn:E; [|done]. apply omap_ext_in. intros n Hn.
    symmetry. apply (needed_done_mono ix ix'); [done|]. by apply Hd.
Qed.

Lemma discovered_trans st1 st2 st3 : discovered st1 st2 -> discovered st2 st3 -> discovered st1 st3.
Proof.
  intros H12 H23. pose proof (discovered_length _ _ H12). destruct H12 as [I1 S1 O1 N1], H23 as [I2 S2 O2 N2].
  split; [done|by etrans|by auto|]. intros i m Hl Hm.
  destruct (Nat.lt_ge_cases i (length (pending st2))) as [Hlt|Hge]; [|by apply (N2 i)].
  destruct (lookup_lt_is_Some_2 _ _ Hlt) as [m2 Hm2]. pose proof (O2 _ _ Hm2) as E. rewrite Hm in E. injection E as ->.
  eapply module_ok_mono; [exact S2|]. by apply (N1 i).
Qed.


(** A module in progress: the names [done_] of its list are resolved. *)
Record in_progress (st0 : discovery) (canonical : string) (image : Elf64Image) (info : DynamicInfo)
    (done_ : list string) (st : discovery) : Prop := {
  ip_indexed : indexed st;
  ip_subset : indices st0 ⊆ indices st;
  ip_old i m : pending st0 !! i = Some m -> pending st !! i = Some m;
  ip_self : exists m, pending st !! length (pending st0) = Some m /\ pm_path m = canonical /\
    pm_image m = image /\ pm_dynamic m = Some info /\ module_ok (indices st) m done_;
  ip_new i m : (length (pending st0) < i)%nat -> pending st !! i = Some m -> module_complete (indices st) m;
}.

Lemma in_progress_start st0 canonical image dynamic :
  indexed st0 -> indices st0 !! canonical = None -> below root canonical ->
  read_module canonical = Ok (image, dynamic) ->
  let index := length (pending st0) in
  let st := mkDiscovery (pending st0 ++ [mkPendingModule canonical image dynamic []])
              (<[canonical := index]> (indices st0)) in
  indexed st /\ indices st0 ⊆ indices st /\ (forall i m, pending st0 !! i = Some m -> pending st !! i = Some m) /\
  pending st !! index = Some (mkPendingModule canonical image dynamic []) /\
  forall i m, (index < i)%nat -> pending st !! i = Some m -> False.
Proof.
  intros [Ip Ii Ib] Hn Hb Hr index st. split_and!.
  - split.
    + intros k i. cbn. destruct (decide (k = canonical)) as [->|Hne].
      * rewrite lookup_insert_eq. intros [= <-]. eexists. split; [by apply list_lookup_middle|done].
      * rewrite lookup_insert_ne by done. intros (m & Hm & <-)%Ip. exists m. split; [by apply lookup_app_l_Some|done].
    + intros i m. cbn. intros [Hm|[Hl Hm]]%lookup_app_Some.
      * pose proof (Ii i m Hm). rewrite lookup_insert_ne; [done|]. intros ->. congruence.
      * apply list_lookup_singleton_Some in Hm as [Hi <-]. cbn. rewrite lookup_insert_eq. f_equal. unfold index. lia.
    + intros k i. cbn. destruct (decide (k = canonical)) as [->|Hne]; [done|].
      rewrite lookup_insert_ne by done. apply Ib.
  - by apply insert_subseteq.
  - intros i m Hm. by apply lookup_app_l_Some.
  - by apply list_lookup_middle.
  - intros i m Hi Hm%lookup_lt_Some. cbn in Hm. rewrite length_app in Hm. cbn in Hm. unfold index in Hi. lia.
Qed.

Lemma in_progress_skip st0 canonical image info done_ st n :
  in_progress st0 canonical image info done_ st ->
  needed_done (indices st) canonical info n -> needed_index (indices st) canonical info n = None ->
  in_progress st0 canonical image info (done_ ++ [n]) st.
Proof.
  intros [Pi Ps Po (m & Hm & Hp & Him & Hd & [Mr Md Mx]) Pn] Hdone Hnone. split; try done.
  exists m. split_and!; try done. split; [done| |].
  - intros i' x Hi' [Hx| ->%list_elem_of_singleton]%elem_of_app; [by apply Md|].
    rewrite Hd in Hi'. injection Hi' as <-. by rewrite Hp.
  - rewrite Hd in *. rewrite omap_app, <- Mx. cbn. rewrite Hp, Hnone. by rewrite app_nil_r.
Qed.

Lemma in_progress_add st0 canonical image info done_ st st1 n p k dependency :
  in_progress st0 canonical image info done_ st -> discovered st st1 ->
  resolve_dependency_path root canonical info n = Ok (Some p) -> fs_canonical p = Some k ->
  indices st1 !! k = Some dependency ->
  in_progress st0 canonical image info (done_ ++ [n]) (add_dependency (length (pending st0)) dependency st1).
Proof.
  intros [Pi Ps Po (m & Hm & Hp & Him & Hd & Hok) Pn] [[Ip Ii Ib] Ds Do Dn] Hr Hk Hi.
  pose proof (Do _ _ Hm) as Hm1. pose proof (module_ok_mono _ _ _ _ Ds Hok) as [Mr Md Mx].
  pose proof (lookup_lt_Some _ _ _ Hm) as Hlt.
  assert (needed_index (indices st1) canonical info n = Some dependency) as Hni
    by (unfold needed_index; rewrite Hr, Hk; exact Hi).
  unfold add_dependency. set (index := length (pending st0)) in *. split; cbn [pending indices].
  - split; cbn [pending indices].
    + intros k' i (m' & Hm' & <-)%Ip. destruct (decide (i = index)) as [->|Hne].
      * rewrite list_lookup_alter_eq, Hm'. by eexists.
      * rewrite list_lookup_alter_ne by done. by exists m'.
    + intros i m'. destruct (decide (i = index)) as [->|Hne].
      * rewrite list_lookup_alter_eq. intros (m2 & Hm2 & ->)%fmap_Some. by apply (Ii index m2).
      * rewrite list_lookup_alter_ne by done. apply Ii.
    + apply Ib.
  - by etrans.
  - intros i m' Hm'. pose proof (lookup_lt_Some _ _ _ Hm'). rewrite list_lookup_alter_ne by (unfold index; lia).
    by apply Do, Po.
  - fold index. rewrite list_lookup_alter_eq, Hm1. eexists. split; [done|]. cbn. split_and!; [done|done|done|].
    rewrite Hd in *. split; cbn [pm_path pm_image pm_dynamic pm_dependencies].
    + exact Mr.
    + intros i' x Hi' [Hx| ->%list_elem_of_singleton]%elem_of_app.
      * by apply Md.
      * injection Hi' as <-. right. rewrite Hp. by exists dependency.
    + rewrite omap_app, <- Mx. cbn. by rewrite Hp, Hni.
  - intros i m' Hl. rewrite list_lookup_alter_ne by lia. intros Hm'.
    destruct (Nat.lt_ge_cases i (length (pending st))) as [Hlt'|Hge]; [|by apply (Dn i)].
    destruct (lookup_lt_is_Some_2 _ _ Hlt') as [m2 Hm2]. pose proof (Do _ _ Hm2) as E. rewrite Hm' in E. injection E as ->.
    eapply module_ok_mono; [exact Ds|]. by apply (Pn i).
Qed.

Definition discover_spec (fuel : nat) : Prop := forall st requested index st',
  indexed st -> discover fuel root st requested = Ok (index, st') ->
  discovered st st' /\ exists k, fs_canonical requested = Some k /\ indices st' !! k = Some index.

Lemma needed_fold fuel st0 canonical image info done_ todo st st' :
  discover_spec fuel -> in_progress st0 canonical image info done_ st ->
  fold_result (discover_needed (discover fuel root) root canonical info (length (pending st0))) st todo = Ok st' ->
  in_progress st0 canonical image info (done_ ++ todo) st'.
Proof.
  intros Hspec. revert done_ st. induction todo as [|n todo IH]; intros done_ st Hip; cbn [fold_result].
  - intros [= <-]. by rewrite app_nil_r.
  - intros (st1 & Hs & Hf)%bind_Ok. rewrite cons_middle, app_assoc. apply (IH _ st1); [|done].
    unfold discover_needed in Hs. destruct (_ || _); [done|].
    apply bind_Ok in Hs as ([p|] & Hr & Hs).
    + apply bind_Ok in Hs as ([dep st2] & Hd & Hs). injection Hs as <-.
      apply Hspec in Hd as (Hdisc & k & Hk & Hi); [|apply Hip]. by eapply in_progress_add.
    + destruct (provides_module (path_filename n)) eqn:Hp; [|done]. injection Hs as <-.
      apply in_progress_skip; [done|by left|]. unfold needed_index. by rewrite Hr.
Qed.

Lemma discover_ok fuel : discover_spec fuel.
Proof.
  induction fuel as [|fuel IH]; intros st requested index st' Hix; cbn [discover]; [done|].
  destruct (fs_canonical requested) as [canonical|] eqn:Hc; [|done].
  destruct (lexically_within root canonical) eqn:Hw; cbn [negb]; [|done].
  destruct (indices st !! canonical) as [i|] eqn:Hi.
  { intros [= <- <-]. split; [by apply discovered_refl|by exists canonical]. }
  pose proof (within_below _ _ Hc Hw) as Hbelow.
  intros ([image dynamic] & Hread & Hk)%bind_Ok.
  destruct (in_progress_start st canonical image dynamic Hix Hi Hbelow Hread) as (S1 & S2 & S3 & S4 & S5).
  destruct dynamic as [info|].
  - apply bind_Ok in Hk as (st2 & Hf & Hk). injection Hk as <- <-.
    apply (needed_fold fuel st canonical image info []) in Hf as [Pi Ps Po (m & Hm & Hp & Him & Hd & Hok) Pn]; [|done|].
    + split.
      * split; [done|done|done|]. intros i m' Hl Hm'. destruct (decide (i = length (pending st))) as [->|Hne].
        -- rewrite Hm in Hm'. injection Hm' as <-. unfold module_complete. by rewrite Hd.
        -- apply (Pn i); [lia|done].
      * exists canonical. split; [done|]. pose proof (ix_index _ Pi _ _ Hm) as E. by rewrite Hp in E.
    + split; [done|done|done| |].
      * eexists. split; [exact S4|]. split_and!; [done..|]. split; [done| |done]. by intros ??? ?%elem_of_nil.
      * intros i m Hl Hm. exfalso. by eapply S5.
  - injection Hk as <- <-. split.
    + split; [done|done|done|]. intros i m Hl Hm. destruct (decide (i = length (pending st))) as [->|Hne].
      * rewrite S4 in Hm. injection Hm as <-. split; [done|by intros|done].
      * exfalso. eapply (S5 i m); [lia|done].
    + exists canonical. split; [done|]. cbn. by rewrite lookup_insert_eq.
Qed.

(** ** The fuel *)

Lemma fold_grows fuel canonical info index todo st st' :
  (forall st requested index st', discover fuel root st requested = Ok (index, st') -> indices st ⊆ indices st') ->
  fold_result (discover_needed (discover fuel root) root canonical info index) st todo = Ok st' ->
  indices st ⊆ indices st'.
Proof.
  intros Hd. revert st. induction todo as [|n todo IH]; intros st; cbn [fold_result]; [by intros [= <-]|].
  intros (st1 & Hs & Hf)%bind_Ok. etrans; [|by apply IH]. unfold discover_needed in Hs. destruct (_ || _); [done|].
  apply bind_Ok in Hs as ([p|] & _ & Hs).
  - apply bind_Ok in Hs as ([dep st2] & Hk & Hs). injection Hs as <-. cbn. by eapply Hd.
  - destruct (provides_module _); [|done]. by injection Hs as <-.
Qed.

Lemma discover_grows fuel st requested index st' :
  discover fuel root st requested = Ok (index, st') -> indices st ⊆ indices st'.
Proof.
  revert st requested index st'. induction fuel as [|fuel IH]; intros st requested index st'; cbn [discover]; [done|].
  destruct (fs_canonical requested) as [canonical|]; [|done]. destruct (negb _); [done|].
  destruct (indices st !! canonical) eqn:Hi; [by intros [= <- <-]|].
  intros ([image [info|]] & _ & Hk)%bind_Ok.
  - apply bind_Ok in Hk as (st2 & Hf & Hk). injection Hk as <- <-. etrans; [|by eapply fold_grows].
    cbn. by apply insert_subseteq.
  - injection Hk as <- <-. cbn. by apply insert_subseteq.
Qed.

(** The files below the root that were not read yet. *)
Variable files : gset string.
Hypothesis files_ok : forall p q, fs_canonical p = Some q -> lexically_within root q = true -> q ∈ files.

Definition unread (ix : gmap string nat) : nat := size (files ∖ dom ix).

Lemma unread_mono ix ix' : ix ⊆ ix' -> (unread ix' <= unread ix)%nat.
Proof.
  intros Hs%subseteq_dom. unfold unread. apply subseteq_size.
  intros x [Hx Hn]%elem_of_difference. apply elem_of_difference. split; [done|]. by intros Hd%Hs.
Qed.

Lemma unread_insert ix k i : k ∈ files -> ix !! k = None -> (unread (<[k := i]> ix) < unread ix)%nat.
Proof.
  intros Hk Hn%not_elem_of_dom. unfold unread. apply subset_size. rewrite dom_insert_L. split.
  - intros x [Hx Hnx]%elem_of_difference. apply elem_of_difference. split; [done|].
    intros Hd. apply Hnx, elem_of_union. by right.
  - intros Hs. assert (k ∈ files ∖ ({[k]} ∪ dom ix)) as [_ Hnk]%elem_of_difference
      by (apply Hs, elem_of_difference; done).
    apply Hnk, elem_of_union. left. by apply elem_of_singleton.
Qed.

Lemma discover_same fuel1 fuel2 st requested :
  (unread (indices st) < fuel1)%nat -> (unread (indices st) < fuel2)%nat ->
  discover fuel1 root st requested = discover fuel2 root st requested.
Proof.
  revert fuel2 st requested. induction fuel1 as [|fuel1 IH]; intros fuel2 st requested H1 H2; [lia|].
  destruct fuel2 as [|fuel2]; [lia|]. cbn [discover].
  destruct (fs_canonical requested) as [canonical|] eqn:Hc; [|done].
  destruct (lexically_within root canonical) eqn:Hw; cbn [negb]; [|done].
  destruct (indices st !! canonical) eqn:Hi; [done|].
  destruct (read_module canonical) as [[image [info|]]|e]; cbn [mbind result_bind]; try done.
  set (st1 := mkDiscovery _ _).
  pose proof (unread_insert (indices st) canonical (length (pending st)) (files_ok _ _ Hc Hw) Hi) as Hlt.
  assert (forall todo st2, (unread (indices st2) < unread (indices st))%nat ->
    fold_result (discover_needed (discover fuel1 root) root canonical info (length (pending st))) st2 todo =
    fold_result (discover_needed (discover fuel2 root) root canonical info (length (pending st))) st2 todo) as ->;
    [|done|exact Hlt].
  induction todo as [|n todo IHt]; intros st2 Hm; cbn [fold_result]; [done|].
  assert (discover_needed (discover fuel1 root) root canonical info (length (pending st)) st2 n =
          discover_needed (discover fuel2 root) root canonical info (length (pending st)) st2 n) as ->.
  { unfold discover_needed. destruct (_ || _); [done|].
    destruct (resolve_dependency_path _ _ _ _) as [[p|]|]; cbn [mbind result_bind]; try done.
    by rewrite (IH fuel2) by lia. }
  destruct (discover_needed _ _ _ _ _ st2 n) as [st3|] eqn:E; cbn [mbind result_bind]; [|done].
  apply IHt. unfold discover_needed in E. destruct (_ || _); [done|].
  apply bind_Ok in E as ([p|] & _ & E).
  - apply bind_Ok in E as ([dep st4] & Hd & E). injection E as <-. cbn.
    apply discover_grows, unread_mono in Hd. lia.
  - destruct (provides_module _); [|done]. by injection E as <-.
Qed.

End Discovery.

(** ** Loading *)

Section Loading.
Context `{F : HostFs, !HostFsCanonical F} `{HostOs} {D : Decoder}.

(** A loaded module stands for a discovered one. *)
Definition stands_for (module : LoadedModule) (found : PendingModule) : Prop :=
  lm_path module = pm_path found /\ lm_dynamic module = pm_dynamic found.

Lemma map_image_stands_for policy rt found base module rt' :
  read_module (pm_path found) = Ok (pm_image found, pm_dynamic found) ->
  map_image policy rt (pm_image found) (pm_path found) base = Ok (module, rt') -> stands_for module found.
Proof.
  intros (image & _ & (dynamic & Hd & E)%bind_Ok)%bind_Ok. injection E as -> ->.
  unfold map_image. intros Hm.
  repeat match goal with
  | H : (_ ≫= _) = Ok _ |- _ => apply bind_Ok in H as (? & ? & H)
  | p : (_ * _)%type |- _ => destruct p
  end.
  match goal with
  | H1 : (if has_dynamic_segment _ then _ else _) = Ok ?d1, H2 : (if has_dynamic_segment _ then _ else _) = Ok ?d2 |- _ =>
      rewrite H1 in H2; injection H2 as <-
  end.
  by injection Hm as <- <-.
Qed.

Lemma map_modules_stand_for policy main base todo rt rt' loaded loaded' done_ :
  Forall (fun m => read_module (pm_path m) = Ok (pm_image m, pm_dynamic m)) todo ->
  Forall2 stands_for loaded done_ ->
  fold_result (map_module policy main base) (rt, loaded) todo = Ok (rt', loaded') ->
  Forall2 stands_for loaded' (done_ ++ todo).
Proof.
  intros Ht. revert rt loaded done_. induction Ht as [|m todo Hm Ht IH]; intros rt loaded done_ Hf; cbn [fold_result].
  - intros [= <- <-]. by rewrite app_nil_r.
  - intros ([rt1 l1] & Hs & Hk)%bind_Ok. rewrite cons_middle, app_assoc. apply (IH rt1 l1); [|done].
    unfold map_module in Hs. apply bind_Ok in Hs as (b & _ & Hs).
    apply bind_Ok in Hs as ([mapped rt2] & Hmap & Hs). injection Hs as <- <-.
    apply Forall2_app; [done|]. constructor; [|done]. by eapply map_image_stands_for.
Qed.

Lemma relocate_modules_stand_for todo rt rt' loaded loaded' done_ found :
  Forall2 stands_for todo found -> Forall2 stands_for loaded done_ ->
  fold_result relocate_step (rt, loaded) todo = Ok (rt', loaded') ->
  Forall2 stands_for loaded' (done_ ++ found).
Proof.
  intros Ht. revert rt loaded done_. induction Ht as [|m f todo found Hm Ht IH]; intros rt loaded done_ Hf; cbn [fold_result].
  - intros [= <- <-]. by rewrite app_nil_r.
  - intros ([rt1 l1] & Hs & Hk)%bind_Ok. rewrite cons_middle, app_assoc. apply (IH rt1 l1); [|done].
    unfold relocate_step in Hs. apply bind_Ok in Hs as ([m1 rt2] & Hr & Hs). injection Hs as <- <-.
    apply Forall2_app; [done|]. constructor; [|done]. unfold relocate_module in Hr.
    destruct (lm_dynamic m) as [d|] eqn:E; [|by injection Hr as <- <-].
    apply bind_Ok in Hr as ([report st] & _ & Hr). injection Hr as <- <-.
    destruct Hm as [H1 H2]. split; [exact H1|]. cbn. by rewrite H2 in E.
Qed.

Lemma complete_dependencies root ix m :
  module_complete root ix m -> forall j, j ∈ pm_dependencies m ->
  exists k, ix !! k = Some j.
Proof.
  intros [_ _ ->] j Hj. destruct (pm_dynamic m) as [info|]; [|by apply elem_of_nil in Hj].
  apply list_elem_of_omap in Hj as (n & _ & Hn). unfold needed_index in Hn.
  destruct (resolve_dependency_path _ _ _ _) as [[p|]|]; try done.
  destruct (fs_canonical p) as [k|]; [|done]. by exists k.
Qed.

(** What [discover] has found when it is called on nothing. *)
Lemma discover_all fuel root main_path main st :
  clean_path root -> discover fuel root (mkDiscovery [] ∅) main_path = Ok (main, st) ->
  indexed root st /\ (forall i m, pending st !! i = Some m -> module_complete root (indices st) m) /\
  exists k, fs_canonical main_path = Some k /\ indices st !! k = Some main.
Proof.
  intros Hroot Hd. apply (discover_ok root Hroot) in Hd as ([Hi _ _ Hn] & Hk).
  - split_and!; [done| |done]. intros i m. apply Hn. cbn. lia.
  - split; cbn.
    + by intros k i Hk%lookup_empty_Some.
    + done.
    + by intros k i Hk%lookup_empty_Some.
Qed.

(** The main module is found first. *)
Lemma discover_main fuel root main_path main st :
  discover fuel root (mkDiscovery [] ∅) main_path = Ok (main, st) -> main = 0%nat.
Proof.
  intros Hd. destruct fuel as [|fuel]; [done|]. cbn [discover] in Hd. destruct (fs_canonical main_path); [|done].
  destruct (negb _); [done|]. cbn [indices] in Hd. rewrite lookup_empty in Hd.
  apply bind_Ok in Hd as ([image [info|]] & _ & Hd); [|by injection Hd].
  apply bind_Ok in Hd as (st2 & _ & Hd). by injection Hd.
Qed.

(** The loaded modules, path by path. *)
Lemma stand_for_paths mods found : Forall2 stands_for mods found -> map lm_path mods = map pm_path found.
Proof. induction 1 as [|m f ms fs [Hp _] _ IH]; [done|]. cbn. by rewrite Hp, IH. Qed.

Lemma indexed_nodup root st : indexed root st -> NoDup (map pm_path (pending st)).
Proof.
  intros [_ Hi _]. apply NoDup_alt. intros i j p Hpi Hpj.
  rewrite list_lookup_fmap in Hpi, Hpj. apply fmap_Some in Hpi as (m1 & Hm1 & ->), Hpj as (m2 & Hm2 & E).
  apply Hi in Hm1, Hm2. rewrite E in Hm1. congruence.
Qed.

(** C19: What [load_program] returns is a fresh program whose module graph is
    well formed, so that it can be initialised.  Its modules are distinct files
    below the directory of the main file, which is the first of them; the
    dependencies of a module are, in order, the modules that its needed names
    resolve to, and a name without one is a module the runtime provides. *)
Theorem load_program_makes_a_program fuel policy rt files path base program rt' files' :
  load_program fuel policy rt files path base = Ok (program, (rt', files')) ->
  exists main_path, fs_canonical path = Some main_path /\
  let root := parent_path main_path in
  loaded program /\ main_module program = 0%nat /\
  NoDup (map lm_path (modules program)) /\
  (forall m, m ∈ modules program -> below root (lm_path m)) /\
  (exists m, head (modules program) = Some m /\ fs_canonical main_path = Some (lm_path m)) /\
  exists ix : gmap string nat,
    (forall k i, ix !! k = Some i <-> exists m, modules program !! i = Some m /\ lm_path m = k) /\
    forall i m info, modules program !! i = Some m -> lm_dynamic m = Some info ->
      dependencies program !! i = Some (omap (needed_index root ix (lm_path m) info) (needed info)) /\
      forall n, n ∈ needed info -> needed_done root ix (lm_path m) info n.
Proof.
  unfold load_program. destruct (fs_canonical path) as [main_path|] eqn:Hc; [|done].
  destruct (fs_is_regular_file main_path); cbn [negb]; [|done].
  destruct (if bool_decide _ then _ else _) as [ok files1]. destruct ok; cbn [negb]; [|done].
  intros ([main st] & Hd & Hk)%bind_Ok. apply bind_Ok in Hk as ([rt1 mapped] & Hmap & Hk).
  apply bind_Ok in Hk as (rt2 & _ & Hk). apply bind_Ok in Hk as ([rt3 mods] & Hrel & Hk). injection Hk as <- <- <-.
  pose proof (parent_path_clean _ (fs_canonical_clean _ _ Hc)) as Hroot.
  destruct (discover_all _ _ _ _ _ Hroot Hd) as (Hix & Hcomplete & k & Hk & Hmain).
  assert (Forall2 stands_for mods (pending st)) as Hst.
  { apply (relocate_modules_stand_for mapped rt2 rt3 [] mods [] (pending st)); [|done|done].
    apply (map_modules_stand_for policy main base (pending st) rt rt1 [] mapped []); [|done|done].
    apply Forall_forall. intros m [i Hm]%list_elem_of_lookup. by apply (Hcomplete i). }
  pose proof (Forall2_length _ _ _ Hst) as Hlen. pose proof Hix as [Ip Ii Ib].
  assert (forall i m, mods !! i = Some m -> exists f, pending st !! i = Some f /\ stands_for m f) as Hl
    by (intros i m Hm; by apply (Forall2_lookup_l _ _ _ _ _ Hst Hm)).
  pose proof (stand_for_paths _ _ Hst) as Hpaths. pose proof (discover_main _ _ _ _ _ Hd) as ->.
  exists main_path. split; [done|]. cbv zeta. cbn [modules main_module dependencies].
  destruct (Ip _ _ Hmain) as (f0 & Hf0 & Hp0).
  split_and!.
  - split; [split; [cbn; by rewrite length_map|split]|done]; cbn [modules main_module].
    + rewrite Hlen. by eapply lookup_lt_Some.
    + intros i j (ds & Hds & Hj). cbn [dependencies] in Hds. rewrite list_lookup_fmap in Hds.
      apply fmap_Some in Hds as (f & Hf & ->). destruct (complete_dependencies _ _ f (Hcomplete i f Hf) j Hj) as [k' Hk'].
      apply Ip in Hk' as (f' & Hf' & _). rewrite Hlen. by eapply lookup_lt_Some.
  - done.
  - rewrite Hpaths. by eapply indexed_nodup.
  - intros m [i Hm]%list_elem_of_lookup. destruct (Hl i m Hm) as (f & Hf & [-> _]). apply (Ib _ i). by apply Ii.
  - destruct (Forall2_lookup_r _ _ _ _ _ Hst Hf0) as (m & Hm & [Hp _]). exists m.
    rewrite head_lookup. split; [done|]. by rewrite Hp, Hp0.
  - exists (indices st). split.
    + intros k' i. split.
      * intros (f & Hf & <-)%Ip. destruct (Forall2_lookup_r _ _ _ _ _ Hst Hf) as (m & Hm & [Hp _]). by exists m.
      * intros (m & Hm & <-). destruct (Hl i m Hm) as (f & Hf & [-> _]). by apply Ii.
    + intros i m info Hm Hdyn. destruct (Hl i m Hm) as (f & Hf & [Hp Hdy]). rewrite Hp. rewrite Hdyn in Hdy.
      destruct (Hcomplete i f Hf) as [_ Hdone Hdeps]. rewrite <- Hdy in *. split.
      * by rewrite list_lookup_fmap, Hf, <- Hdeps.
      * intros n Hn. by apply Hdone.
Qed.

End Loading.

Section Fuel.
Context {F : HostFs} `{HostOs} {D : Decoder}.


End Fuel.

(** ** Witnesses

    A directory with a program that needs one library. *)

Definition tiny_library : list byte :=
  encode_elf kTypeSceDynamic 0x1000 [mkProgramHeader kProgramLoad 5 120 0x1000 0 2 16 4096] [Byte.x90; Byte.xc3].

Definition tiny_files : HostFs := {|
  fs_canonical := fun p =>
    if bool_decide (p = "/g"%string \/ p = "/g/a.elf"%string \/ p = "/g/lib.so"%string) then Some p else None;
  fs_status := fun p => Some (if bool_decide (p = "/g"%string) then ft_directory else ft_regular);
  fs_file_size := fun _ => None;
  fs_last_write_time := fun _ => None;
  fs_open := fun p =>
    Some (mkHostFile (if bool_decide (p = "/g/a.elf"%string) then sample_dynamic_bytes else tiny_library)
            (fun _ _ => false) 1048576);
|}.

Lemma tiny_files_canonical : HostFsCanonical tiny_files.
Proof.
  split. cbn. intros p q. destruct (bool_decide_reflect (p = "/g"%string \/ p = "/g/a.elf"%string \/ p = "/g/lib.so"%string))
    as [Hp|]; [|done].
  intros [= <-]. destruct Hp as [->|[->| ->]];
    [exists ["g"]%string|exists ["g"; "a.elf"]%string|exists ["g"; "lib.so"]%string];
    (split; [done|repeat constructor; done]).
Qed.

Definition tiny_load (fuel : nat) : result (LoadedProgram * (Runtime * FileState)) :=
  @load_program tiny_files tiny_host tiny_decoder fuel gs_policy
    (mkRuntime (mkSpace [] None tiny_mem) ∅ TlsRegistry_init None 1) initial_files "/g/a.elf" 0.

Lemma load_program_makes_a_program_witness :
  exists program rt' files', tiny_load 4 = Ok (program, (rt', files')) /\
    map lm_path (modules program) = ["/g/a.elf"; "/g/lib.so"]%string /\
    dependencies program = [[1%nat]; []] /\ loaded program.
Proof.
  destruct (tiny_load 4) as [[program [rt' files']]|e] eqn:E; [|vm_compute in E; discriminate E].
  exists program, rt', files'. split; [reflexivity|].
  destruct (@load_program_makes_a_program tiny_files tiny_files_canonical tiny_host tiny_decoder
    _ _ _ _ _ _ _ _ _ E) as (main_path & _ & Hl & _).
  assert (option_map (fun r => (map lm_path (modules r.1), dependencies r.1))
            (match tiny_load 4 with Ok r => Some r | Throw _ => None end) =
          Some (["/g/a.elf"; "/g/lib.so"]%string, [[1%nat]; []])) as Hr by (vm_compute; reflexivity).
  rewrite E in Hr. cbn in Hr. injection Hr as Hp Hd. split; [exact Hp|]. split; [exact Hd|exact Hl].
Defined.

