(* ===== verification/KernelVm.v ===== *)
(** * Virtual memory services

    The memory calls of [src/src/runtime/kernel_services.cpp] (lines 124 to
    153, 292 to 370, 385 to 400 and 412 to 1372): direct, flexible and ordinary
    mappings of the guest address space.

    [Vm] is the part of [KernelServices] that [vm_mutex_] protects, with the
    guest memory.  The managed range of a native arena has two partitions: the
    physical addresses of direct memory, whose canonical mapping is at
    [managed_base_], and the flexible memory behind them.  A call is a function
    to its answer and the state after it; calls run one after the other, and
    allocations of the host ([std::bad_alloc]) succeed. *)

From Stdlib Require Import Strings.String Strings.Ascii.
From stdpp Require Import sorting.
From S2P Require Import Prelude OrdMap NativeArena GuestMemory GuestMemoryProps KernelMem KernelAttrs KernelTime KernelFiles.

Local Open Scope Z_scope.

Definition kGuestPageSize := 16384.
Definition kDefaultMappingBase := 0x200000000.
Definition kMapShared := 0x0001.
Definition kMapPrivate := 0x0002.
Definition kMapFixed := 0x0010.
Definition kMapNoOverwrite := 0x0080.
Definition kMapVoid := 0x0100.
Definition kMapStack := 0x0400.
Definition kMapNoSync := 0x0800.
Definition kMapAnon := 0x1000.
Definition kMapSystem := 0x2000.
Definition kMapNoCore := 0x20000.
Definition kMapNoCoalesce := 0x400000.

Definition all_flags (flags : list Z) : Z := foldr Z.lor 0 flags.

Definition kKnownMapFlags :=
  all_flags [kMapShared; kMapPrivate; kMapFixed; kMapNoOverwrite; kMapVoid; kMapStack;
             kMapNoSync; kMapAnon; kMapSystem; kMapNoCore; kMapNoCoalesce].
Definition kKnownProtectionBits := 0x37.

Definition kVirtualFlexible := 1.
Definition kVirtualDirect := 2.
Definition kVirtualStack := 4.
Definition kVirtualCommitted := 16.
Definition kDirectMapIgnoredFlag := 0x0008.
Definition kDirectMapFlags :=
  all_flags [kDirectMapIgnoredFlag; kMapFixed; kMapNoOverwrite; kMapNoCoalesce].
Definition kFlexibleMapFlags := all_flags [kMapFixed; kMapNoOverwrite; kMapNoCoalesce].

(** [(flags & flag) != 0]. *)
Definition flag_set (flags flag : Z) : bool := negb (Z.land flags flag =? 0).
(** [(flags & ~known) != 0]. *)
Definition unknown_bits (flags known : Z) : bool := negb (Z.land flags (Z.lnot known) =? 0).

(** ** Helpers of the anonymous namespace *)

Definition align_up_multiple (value alignment : Z) : option Z :=
  if alignment =? 0 then Some value
  else
    let remainder := value mod alignment in
    if remainder =? 0 then Some value
    else
      let increment := alignment - remainder in
      if u64_max - increment <? value then None else Some (value + increment).

Definition guest_protection (region : RegionInfo) : Z :=
  if negb (ri_committed region) || bool_decide (ri_kind region = kind_reserved) then 0
  else
    let result := ri_auxiliary_protection region in
    let result := if has (ri_protection region) prot_write then Z.lor result 0x02
                  else if has (ri_protection region) prot_read then Z.lor result 0x01
                  else result in
    if has (ri_protection region) prot_execute then Z.lor result 0x04 else result.

Definition cpu_protection (protection : Z) : option Z :=
  if unknown_bits protection kKnownProtectionBits then None
  else
    let host := prot_none in
    let host := if flag_set protection 0x01 then prot_or host prot_read else host in
    let host := if flag_set protection 0x02
                then prot_or (prot_or host prot_read) prot_write else host in
    Some (if flag_set protection 0x04 then prot_or host prot_execute else host).

Definition ranges_overlap (left_base left_size : Z) (right : RegionInfo) : bool :=
  if (left_size =? 0) || (ri_size right =? 0) || (u64_max - left_size <? left_base)
     || (u64_max - ri_size right <? ri_base right) then false
  else (left_base <? ri_base right + ri_size right) && (ri_base right <? left_base + left_size).

Definition range_inside_native (s : space) (base size : Z) : bool :=
  if negb (native_backed s) then base <=? u64_max - size
  else if u64_max - native_size s <? native_base s then false
  else
    let native_end := native_base s + native_size s in
    (native_base s <=? base) && (base <=? native_end) && (size <=? native_end - base).

(** The loop of [find_free_mapping] over the regions. *)
Fixpoint free_mapping_loop (s : space) (size candidate : Z) (regions : list RegionInfo)
  : option Z :=
  match regions with
  | [] => if range_inside_native s candidate size then Some candidate else None
  | region :: rest =>
      if u64_max - ri_size region <? ri_base region then None
      else
        let region_end := ri_base region + ri_size region in
        if region_end <=? candidate then free_mapping_loop s size candidate rest
        else if (candidate <=? ri_base region) && (size <=? ri_base region - candidate)
        then if range_inside_native s candidate size then Some candidate else None
        else
          aligned ← checked_align_up region_end kGuestPageSize;
          free_mapping_loop s size aligned rest
  end.

Definition find_free_mapping (s : space) (requested size : Z) : option Z :=
  candidate ←
    (if native_backed s then
       aligned_native ← checked_align_up (native_base s) kGuestPageSize;
       Some (Z.max requested aligned_native)
     else Some requested);
  let candidate := if candidate =? 0 then kDefaultMappingBase else candidate in
  candidate ←
    (if negb (candidate mod kGuestPageSize =? 0) then checked_align_up candidate kGuestPageSize
     else Some candidate);
  free_mapping_loop s size candidate (regions s).

(** ** The state *)

Record DirectAllocation : Type := mkDirectAllocation { da_size : Z; da_memory_type : Z }.

Record Vm : Type := mkVm {
  memory_ : space;
  managed_base_ : Z;
  managed_size_ : Z;
  flexible_capacity_ : Z;
  flexible_used_ : Z;
  direct_allocations_ : omap DirectAllocation;
}.

Definition with_memory (vm : Vm) (s : space) : Vm :=
  mkVm s (managed_base_ vm) (managed_size_ vm) (flexible_capacity_ vm) (flexible_used_ vm)
    (direct_allocations_ vm).
Definition with_flexible_used (vm : Vm) (used : Z) : Vm :=
  mkVm (memory_ vm) (managed_base_ vm) (managed_size_ vm) (flexible_capacity_ vm) used
    (direct_allocations_ vm).
Definition with_allocations (vm : Vm) (allocations : omap DirectAllocation) : Vm :=
  mkVm (memory_ vm) (managed_base_ vm) (managed_size_ vm) (flexible_capacity_ vm)
    (flexible_used_ vm) allocations.

(** The constructor. *)
Definition KernelServices_init (s : space) : Vm :=
  let unmanaged := mkVm s 0 0 0 0 [] in
  if negb (native_backed s) then unmanaged
  else
    match checked_align_up (native_base s) kGuestPageSize with
    | None => unmanaged
    | Some aligned =>
        if u64_max - native_size s <? native_base s then unmanaged
        else
          let native_end := native_base s + native_size s in
          if native_end <=? aligned then unmanaged
          else mkVm s aligned ((native_end - aligned) / kGuestPageSize * kGuestPageSize) 0 0 []
    end.

Definition set_flexible_memory_size (vm : Vm) (size : Z) : bool * Vm :=
  if negb (size mod kGuestPageSize =? 0) || (managed_size_ vm <? size) then (false, vm)
  else if negb (bool_decide (direct_allocations_ vm = [])) || negb (flexible_used_ vm =? 0)
          || negb (bool_decide (regions (memory_ vm) = []))
  then (false, vm)
  else (true, mkVm (memory_ vm) (managed_base_ vm) (managed_size_ vm) size (flexible_used_ vm)
                (direct_allocations_ vm)).

Definition direct_capacity (vm : Vm) : Z :=
  if flexible_capacity_ vm <=? managed_size_ vm
  then managed_size_ vm - flexible_capacity_ vm else 0.

Definition direct_virtual_address (vm : Vm) (physical_address : Z) : Z :=
  wrap64 (managed_base_ vm + physical_address).

Definition flexible_base (vm : Vm) : Z := wrap64 (managed_base_ vm + direct_capacity vm).

Definition available_flexible (vm : Vm) : Z :=
  if flexible_used_ vm <=? flexible_capacity_ vm
  then flexible_capacity_ vm - flexible_used_ vm else 0.

(** A word stored for the guest, or [EFAULT]. *)
Definition word_to (vm : Vm) (address value : Z) : result (Z * Vm) :=
  if negb (guest_writable (memory_ vm) address 8) then Ok (error kErrorEfault, vm)
  else
    '(ok, s) ← write_guest_u64 (memory_ vm) address value;
    Ok ((if ok : bool then 0 else error kErrorEfault), with_memory vm s).

Definition configured_flexible_memory_size_to (vm : Vm) (size_out : Z) : result (Z * Vm) :=
  word_to vm size_out (flexible_capacity_ vm).

Definition available_flexible_memory_size_to (vm : Vm) (size_out : Z) : result (Z * Vm) :=
  word_to vm size_out (available_flexible vm).

(** *** Blocked physical ranges *)

Definition PhysicalRange : Type := Z * Z.

(** The order of [std::pair]. *)
Definition range_le (a b : PhysicalRange) : Prop := a.1 < b.1 \/ (a.1 = b.1 /\ a.2 <= b.2).

#[export] Instance range_le_dec : RelDecision range_le.
Proof. unfold range_le, RelDecision, Decision. intros a b. solve_decision. Defined.

(** The part of a region inside the canonical window of direct memory. *)
Definition canonical_overlap (vm : Vm) (region : RegionInfo) : list PhysicalRange :=
  let canonical_end := wrap64 (managed_base_ vm + direct_capacity vm) in
  if (canonical_end <=? ri_base region) || (u64_max - ri_size region <? ri_base region)
     || (ri_base region + ri_size region <=? managed_base_ vm) then []
  else
    let overlap_base := Z.max (ri_base region) (managed_base_ vm) in
    let overlap_end := Z.min (ri_base region + ri_size region) canonical_end in
    [(wrap64 (overlap_base - managed_base_ vm), wrap64 (overlap_end - managed_base_ vm))].

Definition direct_blocked_ranges (vm : Vm) : list PhysicalRange :=
  merge_sort range_le
    (map (fun entry => (entry.1, wrap64 (entry.1 + da_size entry.2))) (direct_allocations_ vm)
     ++ (regions (memory_ vm) ≫= canonical_overlap vm)).

(** *** Queries *)

(** The allocation a query selects, with the ones behind it. *)
Fixpoint query_select (offset flags : Z) (allocations : omap DirectAllocation)
  : option (Z * DirectAllocation * omap DirectAllocation) :=
  match allocations with
  | [] => None
  | (base, allocation) :: rest =>
      let end_ := wrap64 (base + da_size allocation) in
      if (base <=? offset) && (offset <? end_) then Some (base, allocation, rest)
      else if (flags =? 1) && (offset <? base) then Some (base, allocation, rest)
      else query_select offset flags rest
  end.

(** The end of the run of allocations of one type. *)
Fixpoint query_extend (end_ memory_type : Z) (allocations : omap DirectAllocation) : Z :=
  match allocations with
  | [] => end_
  | (base, allocation) :: rest =>
      if (base =? end_) && (da_memory_type allocation =? memory_type)
      then query_extend (wrap64 (end_ + da_size allocation)) memory_type rest
      else end_
  end.

Definition direct_memory_query (vm : Vm) (physical_address flags info_address info_size : Z)
  : result (Z * Vm) :=
  if (physical_address <? 0) || (negb (flags =? 0) && negb (flags =? 1)) || negb (info_size =? 24)
     || negb (guest_writable (memory_ vm) info_address 24)
  then Ok (error kErrorEinval, vm)
  else
    match query_select physical_address flags (direct_allocations_ vm) with
    | None => Ok (error kErrorEacces, vm)
    | Some (base, allocation, rest) =>
        let memory_type := da_memory_type allocation in
        let end_ := query_extend (wrap64 (base + da_size allocation)) memory_type rest in
        '(ok, s) ← write (memory_ vm) info_address
                     (le_encode 8 base ++ le_encode 8 end_ ++ le_encode 4 memory_type ++ le_encode 4 0);
        Ok ((if ok : bool then 0 else error kErrorEfault), with_memory vm s)
    end.

(** The loop of [direct_range_has_allocation_locked]. *)
Fixpoint allocation_reaches (cursor end_ : Z) (allocations : omap DirectAllocation) : bool :=
  match allocations with
  | [] => false
  | (base, allocation) :: rest =>
      if cursor <? base then false
      else if u64_max - da_size allocation <? base then false
      else
        let allocation_end := base + da_size allocation in
        if allocation_end <=? cursor then allocation_reaches cursor end_ rest
        else
          let cursor := Z.min end_ allocation_end in
          if cursor =? end_ then true else allocation_reaches cursor end_ rest
  end.

Definition direct_range_has_allocation (vm : Vm) (base size : Z) : bool :=
  if (size =? 0) || (direct_capacity vm <? base) || (direct_capacity vm - base <? size) then false
  else allocation_reaches base (wrap64 (base + size)) (direct_allocations_ vm).

(** The common memory type of the allocations in a range. *)
Fixpoint common_type (base end_ : Z) (found : option Z) (allocations : omap DirectAllocation)
  : option Z :=
  match allocations with
  | [] => found
  | (allocation_base, allocation) :: rest =>
      let allocation_end := wrap64 (allocation_base + da_size allocation) in
      if (allocation_end <=? base) || (end_ <=? allocation_base)
      then common_type base end_ found rest
      else
        match found with
        | None => common_type base end_ (Some (da_memory_type allocation)) rest
        | Some memory_type =>
            if negb (memory_type =? da_memory_type allocation) then None
            else common_type base end_ found rest
        end
  end.

Definition direct_range_covered (vm : Vm) (base size : Z) : option Z :=
  if negb (direct_range_has_allocation vm base size) then None
  else common_type base (wrap64 (base + size)) None (direct_allocations_ vm).

(** The region a query selects. *)
Fixpoint region_select (address flags : Z) (regions : list RegionInfo) : option RegionInfo :=
  match regions with
  | [] => None
  | region :: rest =>
      if u64_max - ri_size region <? ri_base region then region_select address flags rest
      else
        let end_ := ri_base region + ri_size region in
        if (ri_base region <=? address) && (address <? end_) then Some region
        else if (flags =? 1) && (address <? ri_base region) then Some region
        else region_select address flags rest
  end.

Definition virtual_flags (region : RegionInfo) : Z :=
  all_flags
    [if bool_decide (ri_kind region = kind_flexible) then kVirtualFlexible else 0;
     if bool_decide (ri_kind region = kind_direct) then kVirtualDirect else 0;
     if bool_decide (ri_kind region = kind_stack) then kVirtualStack else 0;
     if ri_committed region then kVirtualCommitted else 0].

(** A name in a field of 32 characters that ends in a NUL. *)
Definition name_field (name : string) : list byte :=
  let bytes := take 31 (list_byte_of_string name) in
  bytes ++ replicate (32 - length bytes) zero_byte.

(** [GuestVirtualQueryInfo]. *)
Definition encode_virtual_info (region : RegionInfo) : list byte :=
  let direct := bool_decide (ri_kind region = kind_direct) in
  le_encode 8 (ri_base region) ++ le_encode 8 (wrap64 (ri_base region + ri_size region)) ++
  le_encode 8 (if direct then ri_offset region else 0) ++
  le_encode 4 (guest_protection region) ++
  le_encode 4 (if direct then ri_memory_type region else 0) ++
  le_encode 4 (virtual_flags region) ++ name_field (ri_name region) ++ replicate 4 zero_byte.

Definition virtual_query (vm : Vm) (address flags info_address info_size : Z) : result (Z * Vm) :=
  if (negb (flags =? 0) && negb (flags =? 1)) || negb (info_size =? 72)
     || negb (guest_writable (memory_ vm) info_address 72)
  then Ok (error kErrorEinval, vm)
  else
    match region_select address flags (regions (memory_ vm)) with
    | None => Ok (error kErrorEacces, vm)
    | Some selected =>
        '(ok, s) ← write (memory_ vm) info_address (encode_virtual_info selected);
        Ok ((if ok : bool then 0 else error kErrorEfault), with_memory vm s)
    end.

Definition query_memory_protection (vm : Vm)
    (address start_address end_address protection_address : Z) : result (Z * Vm) :=
  let s := memory_ vm in
  if negb (guest_writable s start_address 8) || negb (guest_writable s end_address 8)
     || negb (guest_writable s protection_address 4)
  then Ok (error kErrorEfault, vm)
  else
    match find s address with
    | None => Ok (error kErrorEacces, vm)
    | Some region =>
        if u64_max - ri_size region <? ri_base region then Ok (error kErrorEacces, vm)
        else
          let end_ := ri_base region + ri_size region in
          let protection := guest_protection region in
          '(ok, s) ← write_guest_u64 s start_address (ri_base region);
          if negb (ok : bool) then Ok (error kErrorEfault, with_memory vm s)
          else
            '(ok, s) ← write_guest_u64 s end_address end_;
            if negb (ok : bool) then Ok (error kErrorEfault, with_memory vm s)
            else
              '(ok, s) ← write_guest_u32 s protection_address protection;
              Ok ((if ok : bool then 0 else error kErrorEfault), with_memory vm s)
    end.

(** *** Direct memory *)

(** The checks of alignment the direct calls share, and the default. *)
Definition bad_alignment (alignment : Z) : bool :=
  negb (alignment =? 0)
  && ((alignment <? kGuestPageSize) || negb (alignment mod kGuestPageSize =? 0)).
Definition default_alignment (alignment : Z) : Z :=
  if alignment =? 0 then kGuestPageSize else alignment.

(** The best gap so far: its base and size. *)
Definition consider_gap (alignment : Z) (best : Z * Z) (gap_begin gap_end : Z) : Z * Z :=
  match align_up_multiple gap_begin alignment with
  | None => best
  | Some aligned =>
      if gap_end <=? aligned then best
      else
        let available := gap_end - aligned in
        if best.2 <? available then (aligned, available) else best
  end.

(** The loop over the blocked ranges; the answer is the cursor behind it and the
    best gap. *)
Fixpoint gap_loop (start end_ alignment cursor : Z) (best : Z * Z) (blocked : list PhysicalRange)
  : Z * (Z * Z) :=
  match blocked with
  | [] => (cursor, best)
  | (blocked_begin_raw, blocked_end_raw) :: rest =>
      if (blocked_end_raw <=? start) || (end_ <=? blocked_begin_raw)
      then gap_loop start end_ alignment cursor best rest
      else
        let blocked_begin := Z.max blocked_begin_raw start in
        let blocked_end := Z.min blocked_end_raw end_ in
        let best := if cursor <? blocked_begin
                    then consider_gap alignment best cursor blocked_begin else best in
        let cursor := Z.max cursor blocked_end in
        if end_ <=? cursor then (cursor, best)
        else gap_loop start end_ alignment cursor best rest
  end.

Definition largest_gap (start end_ alignment : Z) (blocked : list PhysicalRange) : Z * Z :=
  let '(cursor, best) := gap_loop start end_ alignment start (0, 0) blocked in
  if cursor <? end_ then consider_gap alignment best cursor end_ else best.

Definition available_direct_memory (vm : Vm)
    (search_start search_end alignment physical_address_out size_out : Z) : result (Z * Vm) :=
  if negb (guest_writable (memory_ vm) physical_address_out 8)
     || negb (guest_writable (memory_ vm) size_out 8) || (search_start <? 0) || (search_end <? 0)
     || (search_end <=? search_start) || bad_alignment alignment
  then Ok (error kErrorEinval, vm)
  else
    let alignment := default_alignment alignment in
    let capacity := direct_capacity vm in
    let start := Z.min search_start capacity in
    let end_ := Z.min search_end capacity in
    if end_ <=? start then Ok (error kErrorEnomem, vm)
    else
      let '(best_base, best_size) := largest_gap start end_ alignment (direct_blocked_ranges vm) in
      if best_size =? 0 then Ok (error kErrorEnomem, vm)
      else
        '(ok, s) ← write_guest_u64 (memory_ vm) physical_address_out best_base;
        if negb (ok : bool) then Ok (error kErrorEfault, with_memory vm s)
        else
          '(ok, s) ← write_guest_u64 s size_out best_size;
          Ok ((if ok : bool then 0 else error kErrorEfault), with_memory vm s).

(** The first fit: a base found before a blocked range, or the candidate
    behind all of them; [None] when aligning the candidate overflows. *)
Fixpoint fit_loop (start end_ size alignment candidate : Z) (blocked : list PhysicalRange)
  : option (Z + Z) :=
  match blocked with
  | [] => Some (inr candidate)
  | (blocked_begin, blocked_end) :: rest =>
      if (blocked_end <=? start) || (end_ <=? blocked_begin)
      then fit_loop start end_ size alignment candidate rest
      else
        aligned ← align_up_multiple candidate alignment;
        if (aligned <=? end_) && (size <=? end_ - aligned) && (aligned <=? blocked_begin)
           && (size <=? blocked_begin - aligned)
        then Some (inl aligned)
        else fit_loop start end_ size alignment (Z.max candidate blocked_end) rest
  end.

(** The base of a fit, or the error code. *)
Definition first_fit (start end_ size alignment : Z) (blocked : list PhysicalRange) : Z + Z :=
  match fit_loop start end_ size alignment start blocked with
  | None => inl kErrorEnomem
  | Some (inl base) => inr base
  | Some (inr candidate) =>
      match align_up_multiple candidate alignment with
      | None => inl kErrorEagain
      | Some aligned =>
          if (aligned <=? end_) && (size <=? end_ - aligned) then inr aligned
          else inl kErrorEagain
      end
  end.

Section Handlers.
Context `{HostOs}.

Definition staging : Z := prot_or prot_read prot_write.

(** Direct memory is zeroed through a mapping of its own. *)
Definition initialise_direct (s : space) (canonical size : Z) : result (bool * space) :=
  let '(ok, s) := map_named s canonical size staging "direct-init" in
  if negb ok then Ok (false, s)
  else
    '(ok, s) ← zero s canonical size;
    if negb (ok : bool) then Ok (false, s) else Ok (unmap s canonical size).

(** The cleanup after a failed mapping. *)
Definition drop_mapping (s : space) (base size : Z) : space :=
  if isSome (find s base) then (unmap_range s base size).2 else s.

Definition allocate_direct_memory (vm : Vm)
    (search_start search_end size alignment memory_type physical_address_out : Z)
  : result (Z * Vm) :=
  if negb (guest_writable (memory_ vm) physical_address_out 8) || (search_start <? 0)
     || (search_end <? 0) || (search_end <=? search_start) || (size =? 0)
     || negb (size mod kGuestPageSize =? 0) || bad_alignment alignment || (memory_type <? 0)
  then Ok (error kErrorEinval, vm)
  else
    let alignment := default_alignment alignment in
    let capacity := direct_capacity vm in
    let start := Z.min search_start capacity in
    let end_ := Z.min search_end capacity in
    if (end_ <=? start) || (end_ - start <? size) then Ok (error kErrorEagain, vm)
    else
      match first_fit start end_ size alignment (direct_blocked_ranges vm) with
      | inl code => Ok (error code, vm)
      | inr candidate =>
          let canonical := direct_virtual_address vm candidate in
          '(ok, s) ← initialise_direct (memory_ vm) canonical size;
          if negb (ok : bool)
          then Ok (error kErrorEnomem, with_memory vm (drop_mapping s canonical size))
          else
            let allocations := oemplace candidate (mkDirectAllocation size (to_i32 memory_type))
                                 (direct_allocations_ vm) in
            '(ok, s) ← write_guest_u64 s physical_address_out candidate;
            if negb (ok : bool)
            then Ok (error kErrorEfault,
                     with_allocations (with_memory vm s) (oerase candidate allocations))
            else Ok (0, with_allocations (with_memory vm s) allocations)
      end.

(** *** Release *)

(** One allocation: what remains of it, and the segments released so far. *)
Definition release_allocation (physical_address release_end : Z)
    (acc : omap DirectAllocation * list (Z * Z)) (entry : Z * DirectAllocation)
  : omap DirectAllocation * list (Z * Z) :=
  let '(next, segments) := acc in
  let '(base, allocation) := entry in
  let end_ := wrap64 (base + da_size allocation) in
  if (end_ <=? physical_address) || (release_end <=? base)
  then (oemplace base allocation next, segments)
  else
    let overlap_begin := Z.max base physical_address in
    let overlap_end := Z.min end_ release_end in
    let segments :=
      match last segments with
      | Some (first, second) =>
          if second =? overlap_begin
          then take (length segments - 1) segments ++ [(first, overlap_end)]
          else segments ++ [(overlap_begin, overlap_end)]
      | None => [(overlap_begin, overlap_end)]
      end in
    let next :=
      if base <? physical_address
      then oemplace base (mkDirectAllocation (physical_address - base) (da_memory_type allocation)) next
      else next in
    let next :=
      if release_end <? end_
      then oemplace release_end
             (mkDirectAllocation (end_ - release_end) (da_memory_type allocation)) next
      else next in
    (next, segments).

(** A region that is not the canonical mapping of its direct memory. *)
Definition foreign_region (vm : Vm) (region : RegionInfo) : bool :=
  negb (bool_decide (ri_kind region = kind_direct)) || (ri_base region <? managed_base_ vm)
  || negb (ri_offset region =? ri_base region - managed_base_ vm).

Definition segment_foreign (vm : Vm) (segment : Z * Z) : bool :=
  existsb (fun region =>
    ranges_overlap (direct_virtual_address vm segment.1) (segment.2 - segment.1) region
    && foreign_region vm region) (regions (memory_ vm)).

Fixpoint unmap_segments (vm : Vm) (s : space) (segments : list (Z * Z)) : bool * space :=
  match segments with
  | [] => (true, s)
  | (segment_begin, segment_end) :: rest =>
      let '(ok, s) := unmap_range s (direct_virtual_address vm segment_begin)
                        (segment_end - segment_begin) in
      if ok then unmap_segments vm s rest else (false, s)
  end.

Definition release_direct_memory (vm : Vm) (physical_address size : Z) (checked : bool) : Z * Vm :=
  if size =? 0 then (0, vm)
  else
    let capacity := direct_capacity vm in
    if negb (physical_address mod kGuestPageSize =? 0) || negb (size mod kGuestPageSize =? 0)
       || (capacity <? physical_address) || (capacity - physical_address <? size)
    then (error kErrorEinval, vm)
    else if checked && negb (direct_range_has_allocation vm physical_address size)
    then (error kErrorEnoent, vm)
    else
      let release_end := wrap64 (physical_address + size) in
      let '(next, segments) :=
        foldl (release_allocation physical_address release_end) ([], []) (direct_allocations_ vm) in
      if bool_decide (segments = []) then (0, vm)
      else if existsb (segment_foreign vm) segments then (error kErrorEnotsup, vm)
      else
        let '(ok, s) := unmap_segments vm (memory_ vm) segments in
        if negb ok then (error kErrorEnomem, with_memory vm s)
        else (0, with_allocations (with_memory vm s) next).

(** *** Mapping direct memory *)

(** The name of a mapping, or the error code. *)
Definition mapping_name (s : space) (name_address : Z) (default : string) : Z + string :=
  if name_address =? 0 then inr default
  else
    match read_guest_c_string s name_address with
    | None => inl kErrorEfault
    | Some name => if Nat.leb 32 (String.length name) then inl kErrorEnametoolong else inr name
    end.

(** What the regions in the way of a direct mapping say: an error code, or
    whether there are any. *)
Fixpoint direct_obstacles (vm : Vm) (canonical size flags : Z) (has_overlap : bool)
    (regions : list RegionInfo) : Z + bool :=
  match regions with
  | [] => inr has_overlap
  | region :: rest =>
      if negb (ranges_overlap canonical size region)
      then direct_obstacles vm canonical size flags has_overlap rest
      else if flag_set flags kMapNoOverwrite then inl kErrorEnomem
      else if foreign_region vm region then inl kErrorEnotsup
      else direct_obstacles vm canonical size flags true rest
  end.

Definition direct_region (canonical size protection : Z) (name : string)
    (physical memory_type auxiliary : Z) : RegionInfo :=
  mkRegionInfo canonical size protection name physical memory_type kind_direct true auxiliary.

Definition map_direct_memory (vm : Vm)
    (address_slot size protection flags physical_address alignment name_address : Z)
  : result (Z * Vm) :=
  let s := memory_ vm in
  if negb (guest_writable s address_slot 8) || (physical_address <? 0) || (size =? 0)
     || negb (size mod kGuestPageSize =? 0) || bad_alignment alignment
     || unknown_bits flags kDirectMapFlags || flag_set protection 0x04
  then Ok (error kErrorEinval, vm)
  else
    let alignment := default_alignment alignment in
    match cpu_protection protection with
    | None => Ok (error kErrorEinval, vm)
    | Some host_protection =>
        match read_guest_u64 s address_slot with
        | None => Ok (error kErrorEfault, vm)
        | Some requested =>
            match mapping_name s name_address "direct" with
            | inl code => Ok (error code, vm)
            | inr name =>
                match direct_range_covered vm physical_address size with
                | None => Ok (error kErrorEacces, vm)
                | Some memory_type =>
                    let canonical := direct_virtual_address vm physical_address in
                    if negb (canonical mod alignment =? 0) then Ok (error kErrorEnotsup, vm)
                    else if negb (requested =? 0) && negb (requested =? canonical)
                    then Ok (error kErrorEnotsup, vm)
                    else
                      match direct_obstacles vm canonical size flags false (regions s) with
                      | inl code => Ok (error code, vm)
                      | inr has_overlap =>
                          let '(ok, s) := if has_overlap then unmap_range s canonical size
                                          else (true, s) in
                          if negb ok then Ok (error kErrorEnomem, with_memory vm s)
                          else
                            let '(ok, s) := map_region s
                              (direct_region canonical size host_protection name physical_address
                                 memory_type (Z.land protection 0x30)) in
                            if negb ok then Ok (error kErrorEnomem, with_memory vm s)
                            else
                              '(ok, s) ← write_guest_u64 s address_slot canonical;
                              if negb (ok : bool)
                              then Ok (error kErrorEfault,
                                       with_memory vm (unmap_range s canonical size).2)
                              else Ok (0, with_memory vm s)
                      end
                end
            end
        end
    end.

(** *** Mapping flexible memory *)

(** The flexible bytes a fixed mapping replaces, or an error code. *)
Fixpoint flexible_obstacles (target size flags replaced : Z) (regions : list RegionInfo) : Z + Z :=
  match regions with
  | [] => inr replaced
  | region :: rest =>
      if negb (ranges_overlap target size region)
      then flexible_obstacles target size flags replaced rest
      else if flag_set flags kMapNoOverwrite then inl kErrorEnomem
      else if negb (bool_decide (ri_kind region = kind_flexible))
              && negb (bool_decide (ri_kind region = kind_reserved))
      then inl kErrorEnotsup
      else if bool_decide (ri_kind region = kind_flexible) then
        let overlap_begin := Z.max target (ri_base region) in
        let overlap_end := Z.min (wrap64 (target + size)) (wrap64 (ri_base region + ri_size region)) in
        flexible_obstacles target size flags
          (wrap64 (replaced + wrap64 (overlap_end - overlap_begin))) rest
      else flexible_obstacles target size flags replaced rest
  end.

(** The first gap of the flexible partition. *)
Fixpoint flexible_gap (flex_begin flex_end size cursor : Z) (regions : list RegionInfo) : Z + Z :=
  match regions with
  | [] => inl cursor
  | region :: rest =>
      if (u64_max - ri_size region <? ri_base region)
         || (ri_base region + ri_size region <=? flex_begin) || (flex_end <=? ri_base region)
      then flexible_gap flex_begin flex_end size cursor rest
      else if (cursor <=? ri_base region) && (size <=? ri_base region - cursor) then inr cursor
      else flexible_gap flex_begin flex_end size
             (Z.max cursor (ri_base region + ri_size region)) rest
  end.

(** Where a flexible mapping goes: an error code, or the target in the state
    with what the fixed mapping replaced removed. *)
Definition flexible_target (vm : Vm) (requested size flags : Z) : (Z + Z) * Vm :=
  let s := memory_ vm in
  let flex_begin := flexible_base vm in
  let flex_end := wrap64 (flex_begin + flexible_capacity_ vm) in
  let available := flexible_capacity_ vm - Z.min (flexible_used_ vm) (flexible_capacity_ vm) in
  if flag_set flags kMapFixed then
    if negb (requested mod kGuestPageSize =? 0) || (requested <? flex_begin)
       || (flex_end <? requested) || (flex_end - requested <? size)
    then (inl kErrorEinval, vm)
    else
      match flexible_obstacles requested size flags 0 (regions s) with
      | inl code => (inl code, vm)
      | inr replaced_flexible =>
          if wrap64 (available + replaced_flexible) <? size then (inl kErrorEnomem, vm)
          else
            let '(ok, s) := unmap_range s requested size in
            if negb ok then (inl kErrorEnomem, with_memory vm s)
            else (inr requested,
                  with_flexible_used (with_memory vm s)
                    (flexible_used_ vm - Z.min (flexible_used_ vm) replaced_flexible))
      end
  else if available <? size then (inl kErrorEnomem, vm)
  else
    match flexible_gap flex_begin flex_end size flex_begin (regions s) with
    | inr target => (inr target, vm)
    | inl cursor =>
        if (cursor <=? flex_end) && (size <=? flex_end - cursor) then (inr cursor, vm)
        else (inl kErrorEnomem, vm)
    end.

Definition flexible_region (target size : Z) (name : string) (auxiliary : Z) : RegionInfo :=
  mkRegionInfo target size staging name 0 0 kind_flexible true auxiliary.

(** Mapping, clearing and protecting the target; on failure it is unmapped
    again. *)
Definition install_flexible (s : space) (region : RegionInfo) (host_protection : Z)
  : result (bool * space) :=
  let target := ri_base region in
  let size := ri_size region in
  '(ok, s) ← (let '(ok, s) := map_region s region in
              if ok then zero s target size else Ok (false, s));
  if negb (ok : bool) then Ok (false, drop_mapping s target size)
  else if host_protection =? staging then Ok (true, s)
  else
    let '(ok, s) := protect s target size host_protection in
    if ok then Ok (true, s) else Ok (false, (unmap_range s target size).2).

Definition map_flexible_memory (vm : Vm) (address_slot size protection flags name_address : Z)
  : result (Z * Vm) :=
  let s := memory_ vm in
  if negb (guest_writable s address_slot 8) || (size =? 0) || negb (size mod kGuestPageSize =? 0)
     || unknown_bits flags kFlexibleMapFlags || flag_set protection 0x04
  then Ok (error kErrorEinval, vm)
  else
    match cpu_protection protection with
    | None => Ok (error kErrorEinval, vm)
    | Some host_protection =>
        match read_guest_u64 s address_slot with
        | None => Ok (error kErrorEfault, vm)
        | Some requested =>
            match mapping_name s name_address "flexible" with
            | inl code => Ok (error code, vm)
            | inr name =>
                if flexible_capacity_ vm =? 0 then Ok (error kErrorEnomem, vm)
                else
                  let '(answer, vm) := flexible_target vm requested size flags in
                  match answer with
                  | inl code => Ok (error code, vm)
                  | inr target =>
                      '(ok, s) ← install_flexible (memory_ vm)
                        (flexible_region target size name (Z.land protection 0x30)) host_protection;
                      let vm := with_memory vm s in
                      if negb (ok : bool) then Ok (error kErrorEnomem, vm)
                      else
                        '(ok, s) ← write_guest_u64 s address_slot target;
                        if negb (ok : bool)
                        then Ok (error kErrorEfault,
                                 with_memory vm (unmap_range s target size).2)
                        else Ok (0, with_flexible_used (with_memory vm s)
                                      (wrap64 (flexible_used_ vm + size)))
                  end
            end
        end
    end.

Definition mprotect (vm : Vm) (address size protection : Z) : Z * Vm :=
  match cpu_protection protection with
  | None => (error kErrorEinval, vm)
  | Some host_protection =>
      if size =? 0 then (0, vm)
      else
        let aligned_address := address / kGuestPageSize * kGuestPageSize in
        let prefix := address - aligned_address in
        if u64_max - prefix <? size then (error kErrorEinval, vm)
        else
          match checked_align_up (size + prefix) kGuestPageSize with
          | None => (error kErrorEinval, vm)
          | Some aligned_size =>
              let '(ok, s) := protect_range (memory_ vm) aligned_address aligned_size
                                host_protection in
              ((if ok then 0 else error kErrorEnomem), with_memory vm s)
          end
  end.

(** The flexible bytes an unmapping releases. *)
Definition released_flexible (address size : Z) (regions : list RegionInfo) : Z :=
  foldl (fun released region =>
    if negb (bool_decide (ri_kind region = kind_flexible)) || negb (ranges_overlap address size region)
    then released
    else
      let overlap_begin := Z.max address (ri_base region) in
      let overlap_end := Z.min (wrap64 (address + size)) (wrap64 (ri_base region + ri_size region)) in
      wrap64 (released + wrap64 (overlap_end - overlap_begin))) 0 regions.

Definition unmap_memory (vm : Vm) (address size : Z) : Z * Vm :=
  if size =? 0 then (error kErrorEinval, vm)
  else
    let aligned_address := address / kGuestPageSize * kGuestPageSize in
    match checked_align_up size kGuestPageSize with
    | None => (error kErrorEinval, vm)
    | Some aligned_size =>
        if negb (range_inside_native (memory_ vm) aligned_address aligned_size)
        then (error kErrorEinval, vm)
        else
          let released := released_flexible aligned_address aligned_size (regions (memory_ vm)) in
          let '(ok, s) := unmap_range (memory_ vm) aligned_address aligned_size in
          if negb ok then (error kErrorEinval, with_memory vm s)
          else (0, with_flexible_used (with_memory vm s)
                     (flexible_used_ vm - Z.min (flexible_used_ vm) released))
    end.

(** *** Ordinary mappings *)

(** What a mapping maps: the flags choose, in this order. *)
Definition mapping_kind (flags : Z) : RegionKind :=
  if flag_set flags kMapAnon then kind_anonymous
  else if flag_set flags kMapStack then kind_stack
  else if flag_set flags kMapVoid then kind_reserved
  else kind_file.

Definition mapping_default_name (kind : RegionKind) : string :=
  if decide (kind = kind_reserved) then "mmap-reserved"
  else if decide (kind = kind_stack) then "mmap-stack"
  else if decide (kind = kind_file) then "mmap-file"
  else "mmap-anon".

(** The checked arguments of a mapping. *)
Record MapRequest : Type := mkMapRequest {
  mr_protection : Z;
  mr_size : Z;
  mr_address : Z;
  mr_kind : RegionKind;
}.

Definition check_map (address size protection flags offset : Z) : Z + MapRequest :=
  if (size =? 0) || unknown_bits flags kKnownMapFlags then inl kErrorEinval
  else
    match cpu_protection protection with
    | None => inl kErrorEinval
    | Some host_protection =>
        if flag_set protection 0x30 then inl kErrorEnotsup
        else
          match checked_align_up size kGuestPageSize,
                (if address =? 0 then Some address else checked_align_up address kGuestPageSize) with
          | Some aligned_size, Some aligned_address =>
              let kind := mapping_kind flags in
              let file_mapping := bool_decide (kind = kind_file) in
              if flag_set flags kMapFixed && negb (address =? aligned_address) then inl kErrorEinval
              else if bool_decide (kind = kind_anonymous) && flag_set flags kMapSystem
              then inl kErrorEnotsup
              else if file_mapping && (flag_set flags kMapShared || negb (flag_set flags kMapPrivate))
              then inl kErrorEnotsup
              else if file_mapping && ((offset <? 0) || negb (offset mod kGuestPageSize =? 0))
              then inl kErrorEinval
              else inr (mkMapRequest host_protection aligned_size aligned_address kind)
          | _, _ => inl kErrorEinval
          end
    end.

(** The bytes of a file mapping, and the record after they were read. *)
Definition map_snapshot (f : FileState) (request : MapRequest) (size fd offset : Z)
  : result ((Z + list byte) * FileState) :=
  if negb (bool_decide (mr_kind request = kind_file)) then Ok (inr [], f)
  else
    match files_ f !! fd with
    | None => Ok (inl (error kErrorEbadf), f)
    | Some record =>
        '(answer, record) ← file_snapshot record size offset;
        Ok (answer, with_files f (<[fd := record]> (files_ f)))
    end.

(** The address of the mapping, with what a fixed one replaces removed. *)
Definition place_mapping (s : space) (request : MapRequest) (flags : Z) : (Z + Z) * space :=
  let address := mr_address request in
  let size := mr_size request in
  if flag_set flags kMapFixed then
    if negb (range_inside_native s address size) then (inl kErrorEnomem, s)
    else if flag_set flags kMapNoOverwrite then
      if existsb (ranges_overlap address size) (regions s) then (inl kErrorEnomem, s)
      else (inr address, s)
    else if existsb (fun region =>
              ranges_overlap address size region
              && (bool_decide (ri_kind region = kind_direct)
                  || bool_decide (ri_kind region = kind_flexible))) (regions s)
    then (inl kErrorEnotsup, s)
    else
      let '(ok, s) := unmap_range s address size in
      if ok then (inr address, s) else (inl kErrorEnomem, s)
  else
    match find_free_mapping s address size with
    | None => (inl kErrorEnomem, s)
    | Some free => (inr free, s)
    end.

(** The protection in the end: a file mapping is never writable. *)
Definition final_protection (request : MapRequest) (protection : Z) : Z :=
  if bool_decide (mr_kind request = kind_file)
  then if flag_set protection 0x03 then prot_read else prot_none
  else mr_protection request.

Definition mapping_region (request : MapRequest) (mapped_address offset : Z) : RegionInfo :=
  let reserved := bool_decide (mr_kind request = kind_reserved) in
  mkRegionInfo mapped_address (mr_size request) (if reserved then prot_none else staging)
    (mapping_default_name (mr_kind request))
    (if bool_decide (mr_kind request = kind_file) then offset else 0) 0 (mr_kind request)
    (negb reserved) 0.

(** The steps after the region is mapped: clear it, copy the file, protect it;
    the first that fails unmaps it again. *)
Definition fill_mapping (s : space) (request : MapRequest) (mapped_address protection : Z)
    (snapshot : list byte) : result (bool * space) :=
  let size := mr_size request in
  let undo s := Ok (false, (unmap_range s mapped_address size).2) in
  '(ok, s) ← zero s mapped_address size;
  if negb (ok : bool) then undo s
  else
    '(ok, s) ←
      (if bool_decide (mr_kind request = kind_file) && negb (bool_decide (snapshot = []))
       then write s mapped_address snapshot else Ok (true, s));
    if negb (ok : bool) then undo s
    else if protection =? staging then Ok (true, s)
    else
      let '(ok, s) := protect s mapped_address size protection in
      if ok then Ok (true, s) else undo s.

Definition map_memory (vm : Vm) (f : FileState) (address size protection flags fd offset : Z)
  : result (Z * Vm * FileState) :=
  match check_map address size protection flags offset with
  | inl code => Ok (error code, vm, f)
  | inr request =>
      '(snapshot, f) ← map_snapshot f request size fd offset;
      match snapshot with
      | inl code => Ok (code, vm, f)
      | inr bytes =>
          let '(place, s) := place_mapping (memory_ vm) request flags in
          match place with
          | inl code => Ok (error code, with_memory vm s, f)
          | inr mapped_address =>
              let '(ok, s) := map_region s (mapping_region request mapped_address offset) in
              if negb ok then Ok (error kErrorEnomem, with_memory vm s, f)
              else if bool_decide (mr_kind request = kind_reserved)
              then Ok (to_i64 mapped_address, with_memory vm s, f)
              else
                '(ok, s) ← fill_mapping s request mapped_address
                             (final_protection request protection) bytes;
                Ok ((if ok : bool then to_i64 mapped_address else error kErrorEnomem),
                    with_memory vm s, f)
          end
      end
  end.

Definition map_memory_to (vm : Vm) (f : FileState)
    (address size protection flags fd offset output_address : Z) : result (Z * Vm * FileState) :=
  if negb (guest_writable (memory_ vm) output_address 8) then Ok (error kErrorEfault, vm, f)
  else
    '(mapped, vm, f) ← map_memory vm f address size protection flags fd offset;
    if mapped <? 0 then Ok (mapped, vm, f)
    else
      '(ok, s) ← write_guest_u64 (memory_ vm) output_address mapped;
      let vm := with_memory vm s in
      if (ok : bool) then Ok (0, vm, f)
      else Ok (error kErrorEfault, (unmap_memory vm mapped size).2, f).

End Handlers.
