(* ===== verification/KernelVmInv.v ===== *)
(** * The invariant of the virtual memory services

    Flexible memory is accounted for: [flexible_used_] is the number of mapped
    flexible addresses, which all lie in the flexible partition; the direct
    allocations are disjoint page ranges of the direct partition.  Every call
    returns and keeps the invariant.

    The host is assumed to grant [mprotect] on pages the process owns, and to
    have a page size that divides the 16 KiB of the guest. *)

From Stdlib Require Import Sorting.Sorted.
From S2P Require Import Prelude OrdMap NativeArena GuestMemory GuestMemoryProps KernelMem KernelAttrs KernelTime KernelFiles KernelFilesProps RegionList KernelVm.

Local Open Scope Z_scope.

(** ** Kinds of addresses *)

Definition kind_at (s : space) (a : Z) : option RegionKind := c_kind <$> cell_at s a.

Definition flexible_at (s : space) (a : Z) : bool :=
  bool_decide (kind_at s a = Some kind_flexible).

(** The flexible addresses of a list of regions. *)
Definition flex_in (regions : list RegionInfo) (a : Z) : bool :=
  bool_decide (ri_kind <$> covering regions a = Some kind_flexible).

Lemma ranges_overlap_spec base size i :
  region_bounded i -> 0 < size -> base + size <= u64_max ->
  ranges_overlap base size i = true <->
  base < ri_base i + ri_size i /\ ri_base i < base + size.
Proof.
  intros (H0 & H1 & H2) Hs He. unfold ranges_overlap.
  destruct (Z.eqb_spec size 0); [lia|]. destruct (Z.eqb_spec (ri_size i) 0); [lia|].
  destruct (Z.ltb_spec (u64_max - size) base); [lia|].
  destruct (Z.ltb_spec (u64_max - ri_size i) (ri_base i)); [lia|]. cbn [orb].
  by rewrite andb_true_iff, !Z.ltb_lt.
Qed.

(** What one region adds to the count of a range. *)
Lemma zcount_region base size i :
  region_bounded i -> 0 < size -> 0 <= base -> base + size <= u64_max ->
  zcount (region_covers i) base size =
    if ranges_overlap base size i
    then wrap64 (Z.min (wrap64 (base + size)) (wrap64 (ri_base i + ri_size i)) - Z.max base (ri_base i))
    else 0.
Proof.
  intros Hb Hs Hb0 He. pose proof (ranges_overlap_spec base size i Hb Hs He) as Ho.
  destruct Hb as (H0 & H1 & H2). unfold region_covers. rewrite zcount_interval by lia.
  rewrite (wrap64_small (base + size)), (wrap64_small (ri_base i + ri_size i)) by (unfold in_u64; lia).
  destruct (ranges_overlap base size i).
  - destruct Ho as [Ho _]. destruct (Ho eq_refl). rewrite wrap64_small by (unfold in_u64; lia). lia.
  - destruct (Z.le_gt_cases (Z.min (base + size) (ri_base i + ri_size i)) (Z.max base (ri_base i)));
      [lia|]. assert (false = true) by (apply Ho; lia). done.
Qed.

Lemma covering_tail i l a :
  region_list_wf (i :: l) -> region_covers i a = true -> covering l a = None.
Proof.
  intros [Hs _] Hc. apply covering_None. intros j Hj. apply StronglySorted_inv in Hs as [_ Hs].
  rewrite Forall_forall in Hs. specialize (Hs j Hj). unfold region_before, region_covers in *.
  apply in_range_true in Hc. apply in_range_false. lia.
Qed.

Lemma flex_in_cons i l a :
  region_list_wf (i :: l) ->
  flex_in (i :: l) a = (region_covers i a && bool_decide (ri_kind i = kind_flexible)) || flex_in l a.
Proof.
  intros Hl. unfold flex_in. cbn. destruct (region_covers i a) eqn:Hc; cbn [andb orb]; [|done].
  rewrite (covering_tail i l a) by done.
  replace (bool_decide (ri_kind <$> None = Some kind_flexible)) with false by done.
  rewrite orb_false_r. apply bool_decide_ext. cbn. split; [by intros [= ->]|by intros ->].
Qed.

Lemma region_list_tail i l : region_list_wf (i :: l) -> region_bounded i /\ region_list_wf l.
Proof.
  intros [Hs Hb]. apply StronglySorted_inv in Hs as [Hs _]. apply Forall_cons in Hb as [Hi Hb].
  by split.
Qed.

Lemma zcount_flex_cons i l base size :
  region_list_wf (i :: l) -> 0 < size -> 0 <= base -> base + size <= u64_max ->
  zcount (flex_in (i :: l)) base size =
    (if bool_decide (ri_kind i = kind_flexible) && ranges_overlap base size i
     then wrap64 (Z.min (wrap64 (base + size)) (wrap64 (ri_base i + ri_size i)) - Z.max base (ri_base i))
     else 0) + zcount (flex_in l) base size.
Proof.
  intros Hl Hs Hb He. pose proof (region_list_tail i l Hl) as [Hi _].
  rewrite (zcount_ext _ (fun a => (region_covers i a && bool_decide (ri_kind i = kind_flexible))
                                  || flex_in l a)) by (intros; by apply flex_in_cons).
  case_bool_decide as Hk; cbn [andb].
  - rewrite (zcount_ext _ (fun a => region_covers i a || flex_in l a))
      by (intros; by rewrite andb_true_r).
    rewrite zcount_or; [by rewrite zcount_region|]. intros a _ Hc. unfold flex_in.
    by rewrite (covering_tail i l a).
  - rewrite Z.add_0_l. apply zcount_ext. intros a _. by rewrite andb_false_r.
Qed.

(** ** The sums over regions *)

Lemma released_flexible_spec l base size acc :
  region_list_wf l -> 0 < size -> 0 <= base -> base + size <= u64_max ->
  0 <= acc -> acc + zcount (flex_in l) base size <= u64_max ->
  foldl (fun released region =>
    if negb (bool_decide (ri_kind region = kind_flexible)) || negb (ranges_overlap base size region)
    then released
    else
      let overlap_begin := Z.max base (ri_base region) in
      let overlap_end := Z.min (wrap64 (base + size)) (wrap64 (ri_base region + ri_size region)) in
      wrap64 (released + wrap64 (overlap_end - overlap_begin))) acc l =
  acc + zcount (flex_in l) base size.
Proof.
  intros Hl Hs Hb He. revert acc. induction l as [|i l IH]; intros acc Ha Hmax; cbn [foldl].
  { rewrite zcount_none; [lia|]. done. }
  pose proof (region_list_tail i l Hl) as [Hi Hl'].
  pose proof (zcount_flex_cons i l base size Hl Hs Hb He) as E.
  pose proof (zcount_range (flex_in l) base size).
  rewrite E in *. destruct (bool_decide (ri_kind i = kind_flexible)), (ranges_overlap base size i);
    cbn [negb orb andb] in *.
  2-4: rewrite IH by done || lia; lia.
  set (w := wrap64 (_ - _)) in *. pose proof (wrap64_range (Z.min (wrap64 (base + size))
    (wrap64 (ri_base i + ri_size i)) - Z.max base (ri_base i))) as Hw. fold w in Hw.
  unfold in_u64 in Hw. rewrite (wrap64_small (acc + w)) by (unfold in_u64; lia).
  rewrite IH by done || lia. lia.
Qed.

Lemma flexible_obstacles_spec l target size flags acc :
  region_list_wf l -> 0 < size -> 0 <= target -> target + size <= u64_max ->
  0 <= acc -> acc + zcount (flex_in l) target size <= u64_max ->
  match flexible_obstacles target size flags acc l with
  | inl code => code = kErrorEnomem \/ code = kErrorEnotsup
  | inr replaced =>
      replaced = acc + zcount (flex_in l) target size /\
      forall i, i ∈ l -> ranges_overlap target size i = true ->
        flag_set flags kMapNoOverwrite = false /\
        (ri_kind i = kind_flexible \/ ri_kind i = kind_reserved)
  end.
Proof.
  intros Hl Hs Hb He. revert acc. induction l as [|i l IH]; intros acc Ha Hmax; cbn [flexible_obstacles].
  { rewrite zcount_none by done. split; [lia|]. by intros i ?%elem_of_nil. }
  pose proof (region_list_tail i l Hl) as [Hi Hl'].
  pose proof (zcount_flex_cons i l target size Hl Hs Hb He) as E.
  pose proof (zcount_range (flex_in l) target size).
  rewrite E in *.
  destruct (ranges_overlap target size i) eqn:Ho; cbn [negb andb] in *.
  2: { rewrite andb_false_r in *. specialize (IH Hl' acc Ha ltac:(lia)).
       destruct (flexible_obstacles target size flags acc l); [done|]. destruct IH as [-> IH].
       split; [lia|]. intros j [->|Hj]%elem_of_cons Hoj; [congruence|by apply (IH j)]. }
  rewrite andb_true_r in *. destruct (flag_set flags kMapNoOverwrite); [by left|].
  destruct (bool_decide (ri_kind i = kind_flexible)) eqn:Ek; cbn [negb andb] in *.
  - apply bool_decide_eq_true in Ek.
    set (w := wrap64 (_ - _)) in *. pose proof (wrap64_range (Z.min (wrap64 (target + size))
      (wrap64 (ri_base i + ri_size i)) - Z.max target (ri_base i))) as Hw. fold w in Hw.
    unfold in_u64 in Hw. rewrite (wrap64_small (acc + w)) by (unfold in_u64; lia).
    specialize (IH Hl' (acc + w) ltac:(lia) ltac:(lia)).
    destruct (flexible_obstacles target size flags (acc + w) l); [done|]. destruct IH as [-> IH].
    split; [lia|]. intros j [->|Hj]%elem_of_cons Hoj; [by split; [|left]|by apply (IH j)].
  - clear Ek. case_bool_decide as Hr; cbn [negb]; [|by right].
    specialize (IH Hl' acc Ha ltac:(lia)).
    destruct (flexible_obstacles target size flags acc l); [done|]. destruct IH as [-> IH].
    split; [lia|]. intros j [->|Hj]%elem_of_cons Hoj; [by split; [|right]|by apply (IH j)].
Qed.

(** ** The operations of the address space, by their kinds *)

Section Space.
Context `{HostOs, !HostOsLaws H}.

(** A range whose overlaps with the regions are whole pages can always be
    unmapped. *)
Lemma unmap_range_succeeds s base size :
  mprotect_granted -> space_wf s -> 0 < size -> base + size <= u64_max ->
  (forall i, native_ s <> None -> i ∈ regions s -> base < ri_base i + ri_size i -> ri_base i < base + size ->
     Z.max base (ri_base i) mod page_size = 0 /\
     (Z.min (base + size) (ri_base i + ri_size i) - Z.max base (ri_base i)) mod page_size = 0) ->
  exists s', unmap_range s base size = (true, s').
Proof.
  intros Hg Hs Hsz Hend Hcut. pose proof Hs as [Hm Ha]. unfold unmap_range.
  rewrite (proj2 (end_address_Some base size _)) by (split_and!; [lia|lia|reflexivity]).
  rewrite prepare_overlaps. cbn [app]. destruct (native_ s) as [arena|] eqn:Hn; [|by eexists].
  match goal with |- context [protect_removals arena _ [] ?l] =>
    assert (Forall (fun r => removal_aligned arena r = true /\ removal_ok arena r) l) as Hl end.
  { apply Forall_forall. intros r ([[x ob] oe] & -> & Hin)%list_elem_of_fmap.
    apply (overlaps_of_spec (Some arena)) in Hin as (Hf & Hob & Hoe & Hlt); [|done|lia].
    destruct (Hcut (info x)) as [Hc1 Hc2]; [done|apply regions_elem; [done|by exists x]|lia|lia|].
    pose proof (wf_backed _ _ _ (wf_region _ _ Hm _ _ Hf)) as Hbk.     destruct Hbk as (_ & Hlo & Hhi & _). unfold removal_ok, removal_aligned. cbn.
    rewrite <- Hob, <- Hoe in *. unfold arena_offset.
    destruct (Z.ltb_spec ob (arena_base arena)); [lia|].
    destruct (Z.leb_spec (ob - arena_base arena) (arena_size arena)); [|lia].
    rewrite Hc1, Hc2. split; [done|]. split_and!; done || lia. }
  destruct (protect_removals_granted arena (host_ s) []
    (map (fun ov => overlap_removal ov.1.1 ov.1.2 ov.2) (overlaps_of (regions_ s) base (base + size))))
    as (h' & Hp & _); [done|by apply Ha|eapply Forall_impl; [exact Hl|by intros r [_ ?]]|].
  rewrite Hp. replace (forallb _ _) with true; [by eexists|]. symmetry. apply forallb_forall.
  intros r Hin%list_elem_of_In. rewrite Forall_forall in Hl. by apply Hl.
Qed.

(** The space stays safe, and no address changes its kind. *)
Record kinds_kept (s s' : space) : Prop := {
  kk_ok : space_ok s';
  kk_native : native_ s' = native_ s;
  kk_kind a : kind_at s' a = kind_at s a;
}.

Lemma kinds_kept_refl s : space_ok s -> kinds_kept s s.
Proof. by split. Qed.

Lemma kinds_kept_trans s1 s2 s3 : kinds_kept s1 s2 -> kinds_kept s2 s3 -> kinds_kept s1 s3.
Proof. intros [_ Hn H12] [H3 Hn' H23]. split; [done|congruence|]. intros a. by rewrite H23. Qed.

Lemma kinds_of_cells s s' :
  space_ok s' -> native_ s' = native_ s -> (forall a, cell_at s' a = cell_at s a) -> kinds_kept s s'.
Proof. intros Hs Hn Hc. split; [done|done|]. intros a. unfold kind_at. by rewrite Hc. Qed.

Lemma write_native s address bytes ok s' :
  write s address bytes = Ok (ok, s') -> native_ s' = native_ s.
Proof.
  unfold write. intros Hw. repeat case_match; simplify_eq/=; try done.
  apply bind_Ok in Hw as ([ok' h] & _ & Hw). by simplify_eq/=.
Qed.

Lemma zero_native s address size ok s' :
  zero s address size = Ok (ok, s') -> native_ s' = native_ s.
Proof.
  unfold zero. intros Hw. repeat case_match; simplify_eq/=; try done.
  apply bind_Ok in Hw as (h & _ & Hw). by simplify_eq/=.
Qed.

Lemma same_regions_cells s s' : regions_ s' = regions_ s -> forall a, cell_at s' a = cell_at s a.
Proof. intros Hr a. unfold cell_at. by rewrite Hr. Qed.

Lemma write_keeps s address bytes :
  space_ok s -> exists ok s', write s address bytes = Ok (ok, s') /\ kinds_kept s s'.
Proof.
  intros [Hs Hag]. destruct bytes as [|b bs].
  { exists true, s. split; [done|]. by apply kinds_kept_refl. }
  destruct (write_total s address (b :: bs) Hs Hag) as (ok & s' & Hw & Hag'). exists ok, s'.
  split; [done|]. destruct (write_spec s address (b :: bs) ok s' Hs ltac:(done) Hw) as (_ & Ht & Hf).
  destruct ok; [|rewrite Hf by done; by apply kinds_kept_refl].
  destruct (Ht eq_refl) as (Hs' & _ & Hc). apply kinds_of_cells;
    [by split|by eapply write_native|]. intros a. apply Hc.
Qed.

Lemma write_u64_keeps s address value :
  space_ok s -> exists ok s', write_guest_u64 s address value = Ok (ok, s') /\ kinds_kept s s'.
Proof.
  intros Hs. unfold write_guest_u64. destruct (guest_writable s address 8); cbn [negb].
  - by apply write_keeps.
  - exists false, s. split; [done|]. by apply kinds_kept_refl.
Qed.

Lemma write_u32_keeps s address value :
  space_ok s -> exists ok s', write_guest_u32 s address value = Ok (ok, s') /\ kinds_kept s s'.
Proof.
  intros Hs. unfold write_guest_u32. destruct (guest_writable s address 4); cbn [negb].
  - by apply write_keeps.
  - exists false, s. split; [done|]. by apply kinds_kept_refl.
Qed.

Lemma zero_keeps s address size :
  space_ok s -> 0 <= size -> exists ok s', zero s address size = Ok (ok, s') /\ kinds_kept s s' /\
    (ok = true <-> store_ok true s address size) /\
    (ok = true -> stored s s' address (replicate (Z.to_nat size) zero_byte)).
Proof.
  intros [Hs Hag] Hsz. destruct (zero_total s address size Hs Hag Hsz) as (ok & s' & Hw & Hag').
  exists ok, s'. split; [done|].
  destruct (zero_spec s address size ok s' Hs Hsz Hw) as (Hiff & Ht & Hf). split; [|done].
  destruct ok; [|rewrite Hf by done; by apply kinds_kept_refl].
  destruct (Ht eq_refl) as (Hs' & _ & Hc). apply kinds_of_cells;
    [by split|by eapply zero_native|]. intros a. apply Hc.
Qed.

(** Any call of the address space is safe. *)
Lemma op_ok s o ok s' :
  mprotect_granted -> space_ok s -> op_args o -> do_op s o = Ok (ok, s') -> space_ok s'.
Proof.
  intros Hg [Hs Hag] Ho Hop. split; [by eapply do_op_wf|].
  destruct (do_op_total s o Hg Hs Hag Ho) as (ok' & s'' & Hop' & Hag').
  rewrite Hop in Hop'. by simplify_eq.
Qed.

Lemma protect_keeps s base size prot ok s' :
  mprotect_granted -> space_ok s -> in_u64 base -> in_u64 size ->
  protect s base size prot = (ok, s') -> kinds_kept s s'.
Proof.
  intros Hg Hs Hb Hz Hp. assert (space_ok s') as Hs'.
  { eapply (op_ok s (OpProtect base size prot)); [done|done|done|]. cbn. by rewrite Hp. }
  split; [done|by apply protect_result in Hp as (Hn & _)|]. intros a. unfold kind_at. destruct ok.
  - apply protect_cells in Hp as [_ Hc]; [|apply Hs]. destruct (Hc a) as [_ ->].
    rewrite <- option_fmap_compose. by destruct (in_range base size a).
  - apply protect_result in Hp as (_ & _ & Hr & _). by rewrite (same_regions_cells s s') by auto.
Qed.

Lemma protect_range_keeps s base size prot ok s' :
  mprotect_granted -> space_ok s -> in_u64 base -> in_u64 size ->
  protect_range s base size prot = (ok, s') -> kinds_kept s s'.
Proof.
  intros Hg Hs Hb Hz Hp. assert (space_ok s') as Hs'.
  { eapply (op_ok s (OpProtectRange base size prot)); [done|done|done|]. cbn. by rewrite Hp. }
  split; [done|apply protect_range_result in Hp as (Hn & _); [done|apply Hs]|].
  intros a. unfold kind_at. destruct ok.
  - apply protect_range_cells in Hp as [_ Hc]; [|apply Hs|apply Hz]. destruct (Hc a) as [_ ->].
    rewrite <- option_fmap_compose. by destruct (in_range base size a).
  - apply protect_range_result in Hp as (_ & _ & Hr & _); [|apply Hs].
    by rewrite (same_regions_cells s s') by auto.
Qed.

(** A mapped region, exactly. *)
Record mapped (s s' : space) (i : RegionInfo) : Prop := {
  mp_ok : space_ok s';
  mp_native : native_ s' = native_ s;
  mp_bounded : region_bounded i;
  mp_in : i ∈ regions s';
  mp_free a : region_covers i a = true -> kind_at s a = None;
  mp_cell a : cell_at s' a = if region_covers i a then Some (cell_of i a) else cell_at s a;
}.

Lemma map_region_mapped s i ok s' :
  mprotect_granted -> space_ok s -> in_u64 (ri_base i) -> in_u64 (ri_size i) ->
  map_region s i = (ok, s') -> if ok then mapped s s' i else kinds_kept s s'.
Proof.
  intros Hg Hs Hb Hz Hm. assert (space_ok s') as Hs'.
  { eapply (op_ok s (OpMap i)); [done|done|done|]. cbn. by rewrite Hm. }
  pose proof (map_region_result _ _ _ _ Hm) as (Hn & _ & Hf & Ht). destruct ok.
  2: { apply kinds_of_cells; [done|done|]. apply same_regions_cells. auto. }
  destruct (Ht eq_refl) as (Hnz & Hend & _ & Hregs & _). unfold in_u64 in *.
  apply map_region_cells in Hm as [_ Hc]; [|apply Hs|lia..].
  assert (forall a, region_covers i a = true -> cell_at s a = None) as Hfree.
  { intros a Ha. specialize (Hc a). unfold region_covers in Ha. rewrite Ha in Hc. apply Hc. }
  split; [done|done|split; lia| | |].
  - apply regions_elem; [apply Hs'|]. exists (fresh_region (native_backed s) i). split; [|done].
    rewrite Hregs, ofind_emplace by apply Hs. rewrite decide_True by done.
    destruct (ofind (ri_base i) (regions_ s)) as [w|] eqn:Hw; [exfalso|done].
    pose proof (wf_region _ _ (wf_map _ (proj1 Hs)) _ _ Hw) as [Hk _ Hp _ _].
    assert (cell_at s (ri_base i) = None) as Hnone by (apply Hfree, in_range_true; lia).
    destruct (at_owner s (ri_base i) w (proj1 Hs)) as [Hcw _]; [|congruence].
    unfold owner, covers. rewrite Hk. split; [done|lia].
  - intros a Ha. unfold kind_at. by rewrite Hfree.
  - intros a. specialize (Hc a). unfold region_covers.
    destruct (in_range _ _ a); [apply Hc|apply Hc].
Qed.

(** An emptied range, exactly. *)
Definition emptied (s s' : space) (base size : Z) : Prop :=
  space_ok s' /\ native_ s' = native_ s /\
  forall a, cell_at s' a = if in_range base size a then None else cell_at s a.

Lemma unmap_range_emptied s base size ok s' :
  mprotect_granted -> space_ok s -> in_u64 base -> in_u64 size ->
  unmap_range s base size = (ok, s') ->
  if ok then emptied s s' base size else kinds_kept s s' /\ regions_ s' = regions_ s.
Proof.
  intros Hg Hs Hb Hz Hu. assert (space_ok s') as Hs'.
  { eapply (op_ok s (OpUnmapRange base size)); [done|done|done|]. cbn. by rewrite Hu. }
  pose proof (unmap_range_result _ _ _ _ _ Hu) as (Hn & _ & Hr & _). destruct ok.
  - split; [done|]. split; [done|]. intros a.
    apply unmap_range_cells in Hu as [_ Hc]; [|apply Hs|apply Hz].
    specialize (Hc a). destruct (in_range base size a); apply Hc.
  - split; [|auto]. apply kinds_of_cells; [done|done|]. apply same_regions_cells. auto.
Qed.

(** *** A region installed step by step *)

Lemma regions_unique s i j a :
  space_wf s -> i ∈ regions s -> j ∈ regions s ->
  region_covers i a = true -> region_covers j a = true -> i = j.
Proof.
  intros Hs Hi Hj Hci Hcj. pose proof (regions_wf s Hs) as Hl.
  pose proof (proj2 (covering_elem _ a i Hl) (conj Hi Hci)).
  pose proof (proj2 (covering_elem _ a j Hl) (conj Hj Hcj)). congruence.
Qed.

Definition has_region (s : space) (base size : Z) : Prop :=
  exists i, i ∈ regions s /\ ri_base i = base /\ ri_size i = size.

Lemma same_infos_regions s s' i :
  space_wf s -> space_wf s' -> same_infos s s' -> i ∈ regions s -> i ∈ regions s'.
Proof.
  intros Hs Hs' Hi (r & Hf & <-)%regions_elem; [|done]. apply regions_elem; [done|].
  specialize (Hi (ri_base (info r))). rewrite Hf in Hi. cbn in Hi.
  destruct (ofind _ (regions_ s')) as [r'|]; [|done]. injection Hi as Hi. by exists r'.
Qed.

(** The region [i] was put on free addresses of [s], whatever was then stored
    in it or done to its protection. *)
Record installed (s s' : space) (i : RegionInfo) : Prop := {
  it_ok : space_ok s';
  it_native : native_ s' = native_ s;
  it_region : has_region s' (ri_base i) (ri_size i);
  it_free a : region_covers i a = true -> kind_at s a = None;
  it_kind a : kind_at s' a = if region_covers i a then Some (ri_kind i) else kind_at s a;
}.

Lemma mapped_installed s s' i : mapped s s' i -> installed s s' i.
Proof.
  intros [Hok Hn Hb Hin Hfree Hc]. split; [done|done|by exists i|done|]. intros a. unfold kind_at.
  rewrite Hc. by destruct (region_covers i a).
Qed.

Lemma installed_keeps s s1 s2 i :
  installed s s1 i -> kinds_kept s1 s2 ->
  (has_region s1 (ri_base i) (ri_size i) -> has_region s2 (ri_base i) (ri_size i)) ->
  installed s s2 i.
Proof.
  intros [Hok Hn Hr Hf Hk] [Hok2 Hn2 Hk2] Hr2. split; [done|congruence|auto|done|]. intros a. by rewrite Hk2.
Qed.

Lemma stored_has_region s s' address bytes base size :
  space_wf s -> stored s s' address bytes -> has_region s base size -> has_region s' base size.
Proof.
  intros Hs (Hs' & Hi & _) (i & Hin & Hb & Hz). exists i. split; [|done].
  by eapply (same_infos_regions s s').
Qed.

Lemma write_installed s s1 i address bytes :
  installed s s1 i -> exists ok s2, write s1 address bytes = Ok (ok, s2) /\ installed s s2 i.
Proof.
  intros Hi. pose proof (it_ok _ _ _ Hi) as Hok.
  destruct (write_keeps s1 address bytes Hok) as (ok & s2 & Hw & Hk). exists ok, s2. split; [done|].
  eapply installed_keeps; [done|done|]. destruct bytes as [|b bs]; [cbn in Hw; by simplify_eq|].
  destruct (write_spec s1 address (b :: bs) ok s2 (proj1 Hok) ltac:(done) Hw) as (_ & Ht & Hf).
  destruct ok; [by eapply stored_has_region; [apply Hok|auto]|by rewrite Hf].
Qed.

Lemma write_u64_installed s s1 i address value :
  installed s s1 i -> exists ok s2, write_guest_u64 s1 address value = Ok (ok, s2) /\ installed s s2 i.
Proof.
  intros Hi. unfold write_guest_u64. destruct (guest_writable s1 address 8); cbn [negb].
  - by apply write_installed.
  - by exists false, s1.
Qed.

Lemma zero_installed s s1 i :
  installed s s1 i -> 0 <= ri_size i ->
  exists ok s2, zero s1 (ri_base i) (ri_size i) = Ok (ok, s2) /\ installed s s2 i.
Proof.
  intros Hi Hsz. pose proof (it_ok _ _ _ Hi) as Hok.
  destruct (zero_total s1 (ri_base i) (ri_size i) (proj1 Hok) (proj2 Hok) Hsz)
    as (ok & s2 & Hw & Hag). exists ok, s2. split; [done|].
  destruct (zero_spec s1 _ _ ok s2 (proj1 Hok) Hsz Hw) as (_ & Ht & Hf).
  destruct ok; [|by rewrite Hf]. specialize (Ht eq_refl).
  eapply installed_keeps; [done| |by eapply stored_has_region; [apply Hok|]].
  apply kinds_of_cells; [by split; [apply Ht|]|by eapply zero_native|]. intros a. apply Ht.
Qed.

Lemma protect_installed s s1 i prot ok s2 :
  mprotect_granted -> installed s s1 i -> in_u64 (ri_base i) -> in_u64 (ri_size i) ->
  protect s1 (ri_base i) (ri_size i) prot = (ok, s2) -> installed s s2 i.
Proof.
  intros Hg Hi Hb Hz Hp. pose proof (it_ok _ _ _ Hi) as Hok.
  eapply installed_keeps; [done|exact (protect_keeps s1 _ _ _ _ _ Hg Hok Hb Hz Hp)|]. intros (j & Hj & Hjb & Hjz).
  pose proof (protect_keeps s1 _ _ _ _ _ Hg Hok Hb Hz Hp) as [Hok2 _ _].
  apply protect_result in Hp as (_ & _ & Hf & Ht). destruct ok.
  - destruct (Ht eq_refl) as (r & Hr & Hrz & Hregs).
    pose proof (wf_region _ _ (wf_map _ (proj1 Hok)) _ _ Hr) as [Hk _ _ _ _].
    exists (set_protection (info r) prot). split; [|by split]. apply regions_elem; [apply Hok2|].
    rewrite Hregs. eexists. rewrite ofind_insert by apply Hok. cbn. by rewrite decide_True.
  - exists j. split; [|done]. unfold regions in *. by rewrite Hf.
Qed.

Lemma unmap_installed s s1 i :
  mprotect_granted -> installed s s1 i -> ri_size i mod page_size = 0 ->
  exists s2, unmap_range s1 (ri_base i) (ri_size i) = (true, s2) /\ kinds_kept s s2.
Proof.
  intros Hg Hi Hpg. destruct (it_region _ _ _ Hi) as (j & Hj & Hjb & Hjz).
  pose proof (it_ok _ _ _ Hi) as Hok. pose proof (regions_wf s1 (proj1 Hok)) as Hl.
  pose proof (rl_bounded _ Hl) as Hbd. rewrite Forall_forall in Hbd. destruct (Hbd j Hj) as (H0 & H1 & H2).
  destruct (unmap_range_succeeds s1 (ri_base i) (ri_size i)) as [s2 Hu];
    [done|apply Hok|lia|lia| |].
  { intros k Hn Hk Hlo Hhi. destruct (Hbd k Hk) as (Hk0 & Hk1 & Hk2).
    assert (k = j) as ->.
    { eapply (regions_unique s1 k j (Z.max (ri_base i) (ri_base k))); [apply Hok|done|done| |];
        apply in_range_true; lia. }
    rewrite Hjb, Hjz, Z.max_id, Z.min_id. rewrite Z.add_simpl_l. split; [|done].
    apply regions_elem in Hj as (r & Hf & <-); [|apply Hok].
    pose proof (wf_backed _ _ _ (wf_region _ _ (wf_map _ (proj1 Hok)) _ _ Hf)) as Hbk.
    destruct (native_ s1); [|done]. rewrite <- Hjb. apply Hbk. }
  exists s2. split; [done|].
  apply unmap_range_emptied in Hu as (Hok2 & Hn2 & Hc); [|done|done|unfold in_u64; lia|unfold in_u64; lia].
  split; [done|by rewrite Hn2, (it_native _ _ _ Hi)|]. intros a. unfold kind_at at 1. rewrite Hc.
  pose proof (it_kind _ _ _ Hi a) as Hka. pose proof (it_free _ _ _ Hi a) as Hfa.
  unfold region_covers in *. destruct (in_range _ _ a).
  - by rewrite Hfa.
  - exact Hka.
Qed.

(** The cleanup of a failed mapping does nothing, or removes the region. *)
Lemma drop_installed s s1 i :
  mprotect_granted -> installed s s1 i -> ri_size i mod page_size = 0 ->
  kinds_kept s (drop_mapping s1 (ri_base i) (ri_size i)).
Proof.
  intros Hg Hi Hpg. destruct (unmap_installed s s1 i Hg Hi Hpg) as (s2 & Hu & Hk).
  unfold drop_mapping. destruct (find s1 (ri_base i)) as [r|] eqn:Hf; cbn [isSome].
  { by rewrite Hu. }
  exfalso. destruct (it_region _ _ _ Hi) as (j & Hj & Hjb & Hjz). pose proof (it_ok _ _ _ Hi) as Hok.
  apply regions_elem in Hj as (x & Hx & <-); [|apply Hok].
  pose proof (wf_region _ _ (wf_map _ (proj1 Hok)) _ _ Hx) as [_ _ Hp _ _].
  assert (owner (regions_ s1) (ri_base i) x) as Ho by (split; [done|unfold covers; lia]).
  unfold find in Hf. apply (find_region_owner (native_ s1)) in Ho; [|apply Hok]. by rewrite Ho in Hf.
Qed.

End Space.

(** ** The invariant *)

(** The list of allocations of a direct partition of some capacity. *)
Definition allocation_before (a b : Z * DirectAllocation) : Prop := a.1 + da_size a.2 <= b.1.

Definition allocation_ok (capacity : Z) (a : Z * DirectAllocation) : Prop :=
  0 <= a.1 /\ 0 < da_size a.2 /\ a.1 + da_size a.2 <= capacity /\
  a.1 mod kGuestPageSize = 0 /\ da_size a.2 mod kGuestPageSize = 0.

Record allocations_wf (capacity : Z) (l : omap DirectAllocation) : Prop := {
  aw_sorted : StronglySorted allocation_before l;
  aw_ok : Forall (allocation_ok capacity) l;
}.

Record vm_wf `{HostOs} (vm : Vm) : Prop := {
  vw_space : space_ok (memory_ vm);
  vw_managed : 0 <= managed_base_ vm /\ 0 <= managed_size_ vm /\
    managed_base_ vm + managed_size_ vm <= u64_max /\
    managed_base_ vm mod kGuestPageSize = 0 /\ managed_size_ vm mod kGuestPageSize = 0;
  vw_native : 0 < managed_size_ vm -> exists arena, native_ (memory_ vm) = Some arena /\
    arena_base arena <= managed_base_ vm /\
    managed_base_ vm + managed_size_ vm <= arena_base arena + arena_size arena;
  vw_capacity : 0 <= flexible_capacity_ vm <= managed_size_ vm /\
    flexible_capacity_ vm mod kGuestPageSize = 0;
  vw_used : flexible_used_ vm =
    zcount (flexible_at (memory_ vm)) (flexible_base vm) (flexible_capacity_ vm);
  vw_partition a : flexible_at (memory_ vm) a = true ->
    flexible_base vm <= a < flexible_base vm + flexible_capacity_ vm;
  vw_allocations : allocations_wf (direct_capacity vm) (direct_allocations_ vm);
}.

Section Invariant.
Context `{HostOs, !HostOsLaws H}.
Hypothesis granted : mprotect_granted.
Hypothesis guest_pages : kGuestPageSize mod page_size = 0.

Lemma host_pages n : n mod kGuestPageSize = 0 -> n mod page_size = 0.
Proof.
  pose proof page_size_pos. intros [q ->]%Z.mod_divide; [|done].
  by rewrite Zmult_mod, guest_pages, Z.mul_0_r, Z.mod_0_l by lia.
Qed.

(** The partitions, without wrapping. *)
Lemma partitions vm :
  vm_wf vm ->
  direct_capacity vm = managed_size_ vm - flexible_capacity_ vm /\
  flexible_base vm = managed_base_ vm + managed_size_ vm - flexible_capacity_ vm /\
  direct_capacity vm mod kGuestPageSize = 0 /\ flexible_base vm mod kGuestPageSize = 0 /\
  flexible_base vm + flexible_capacity_ vm <= u64_max /\
  forall p, 0 <= p <= direct_capacity vm -> direct_virtual_address vm p = managed_base_ vm + p.
Proof.
  intros Hw. destruct (vw_managed vm Hw) as (H0 & H1 & H2 & H3 & H4).
  destruct (vw_capacity vm Hw) as (H5 & H6).
  assert (direct_capacity vm = managed_size_ vm - flexible_capacity_ vm) as Hc.
  { unfold direct_capacity. destruct (Z.leb_spec (flexible_capacity_ vm) (managed_size_ vm)); lia. }
  assert (flexible_base vm = managed_base_ vm + managed_size_ vm - flexible_capacity_ vm) as Hf.
  { unfold flexible_base. rewrite wrap64_small by (unfold in_u64; lia). lia. }
  apply Z.mod_divide in H3 as [b Hb], H4 as [m Hm], H6 as [c Hcap]; [|done..].
  split_and!; [done|done| | |lia|].
  - rewrite Hc, Hm, Hcap, <- Z.mul_sub_distr_r. by apply Z.mod_mul.
  - rewrite Hf, Hb, Hm, Hcap, <- Z.mul_add_distr_r, <- Z.mul_sub_distr_r. by apply Z.mod_mul.
  - intros p Hp. unfold direct_virtual_address. apply wrap64_small. unfold in_u64. lia.
Qed.

Lemma used_range vm : vm_wf vm -> 0 <= flexible_used_ vm <= flexible_capacity_ vm.
Proof.
  intros Hw. rewrite (vw_used vm Hw). destruct (vw_capacity vm Hw) as (Hc & _).
  pose proof (zcount_range (flexible_at (memory_ vm)) (flexible_base vm) (flexible_capacity_ vm)). lia.
Qed.

Lemma flexible_same s s' a : kind_at s' a = kind_at s a -> flexible_at s' a = flexible_at s a.
Proof. unfold flexible_at. by intros ->. Qed.

(** A change of guest memory that keeps the flexible addresses. *)
Lemma vm_memory vm s' :
  vm_wf vm -> space_ok s' -> native_ s' = native_ (memory_ vm) ->
  (forall a, flexible_at s' a = flexible_at (memory_ vm) a) -> vm_wf (with_memory vm s').
Proof.
  intros [Hs Hm Hn Hc Hu Hp Ha] Hs' Hn' Hf. split; try done; cbn.
  - by rewrite Hn'.
  - rewrite Hu. apply zcount_ext. auto.
  - intros a. rewrite Hf. apply Hp.
Qed.

Lemma vm_kinds vm s' : vm_wf vm -> kinds_kept (memory_ vm) s' -> vm_wf (with_memory vm s').
Proof.
  intros Hw [Hs' Hn Hk]. apply vm_memory; [done..|]. intros a. by apply flexible_same.
Qed.

Lemma flexible_at_regions s a : space_wf s -> flexible_at s a = flex_in (regions s) a.
Proof.
  intros Hs. unfold flexible_at, flex_in, kind_at. rewrite cell_at_covering by done.
  by rewrite <- option_fmap_compose.
Qed.

Lemma flexible_count s base size :
  space_wf s -> zcount (flexible_at s) base size = zcount (flex_in (regions s)) base size.
Proof. intros Hs. apply zcount_ext. intros a _. by apply flexible_at_regions. Qed.

Lemma with_memory_same vm : with_memory vm (memory_ vm) = vm.
Proof. by destruct vm. Qed.

(** ** The calls that only store an answer *)

(** A call returns, and keeps the invariant. *)
Definition vm_returns (call : result (Z * Vm)) : Prop := exists v vm', call = Ok (v, vm') /\ vm_wf vm'.

Lemma vm_stays vm code : vm_wf vm -> vm_returns (Ok (code, vm)).
Proof. intros Hw. by exists code, vm. Qed.

Lemma vm_stores vm address bytes :
  vm_wf vm -> vm_returns
    ('(ok, s) ← write (memory_ vm) address bytes;
     Ok ((if ok : bool then 0 else error kErrorEfault), with_memory vm s)).
Proof.
  intros Hw. destruct (write_keeps (memory_ vm) address bytes (vw_space vm Hw)) as (ok & s' & -> & Hk).
  do 2 eexists. split; [done|]. by apply vm_kinds.
Qed.

Lemma word_to_returns vm address value : vm_wf vm -> vm_returns (word_to vm address value).
Proof.
  intros Hw. unfold word_to. destruct (guest_writable _ _ _); cbn [negb]; [|by apply vm_stays].
  destruct (write_u64_keeps (memory_ vm) address value (vw_space vm Hw)) as (ok & s' & -> & Hk).
  do 2 eexists. split; [done|]. by apply vm_kinds.
Qed.

Lemma direct_memory_query_returns vm physical_address flags info_address info_size :
  vm_wf vm -> vm_returns (direct_memory_query vm physical_address flags info_address info_size).
Proof.
  intros Hw. unfold direct_memory_query. destruct (_ || _); [by apply vm_stays|].
  destruct (query_select _ _ _) as [[[base allocation] rest]|]; [|by apply vm_stays].
  by apply vm_stores.
Qed.

Lemma virtual_query_returns vm address flags info_address info_size :
  vm_wf vm -> vm_returns (virtual_query vm address flags info_address info_size).
Proof.
  intros Hw. unfold virtual_query. destruct (_ || _); [by apply vm_stays|].
  destruct (region_select _ _ _) as [selected|]; [|by apply vm_stays]. by apply vm_stores.
Qed.

Lemma query_memory_protection_returns vm address a1 a2 a3 :
  vm_wf vm -> vm_returns (query_memory_protection vm address a1 a2 a3).
Proof.
  intros Hw. unfold query_memory_protection. destruct (_ || _); [by apply vm_stays|].
  destruct (find _ _) as [region|]; [|by apply vm_stays]. destruct (_ <? _); [by apply vm_stays|].
  destruct (write_u64_keeps (memory_ vm) a1 (ri_base region) (vw_space vm Hw)) as (ok & s1 & -> & Hk1).
  cbn [mbind result_bind]. destruct ok; cbn [negb]; [|do 2 eexists; split; [done|by apply vm_kinds]].
  destruct (write_u64_keeps s1 a2 (ri_base region + ri_size region) (kk_ok _ _ Hk1))
    as (ok & s2 & -> & Hk2).
  pose proof (kinds_kept_trans _ _ _ Hk1 Hk2) as Hk. clear Hk2.
  cbn [mbind result_bind]. destruct ok; cbn [negb]; [|do 2 eexists; split; [done|by apply vm_kinds]].
  destruct (write_u32_keeps s2 a3 (guest_protection region) (kk_ok _ _ Hk)) as (ok & s3 & -> & Hk3).
  do 2 eexists. split; [done|]. apply vm_kinds; [done|]. by eapply kinds_kept_trans.
Qed.

Lemma available_direct_memory_returns vm search_start search_end alignment a1 a2 :
  vm_wf vm -> vm_returns (available_direct_memory vm search_start search_end alignment a1 a2).
Proof.
  intros Hw. unfold available_direct_memory. destruct (_ || _); [by apply vm_stays|].
  destruct (_ <=? _); [by apply vm_stays|]. destruct (largest_gap _ _ _ _) as [base size].
  destruct (_ =? _); [by apply vm_stays|].
  destruct (write_u64_keeps (memory_ vm) a1 base (vw_space vm Hw)) as (ok & s1 & -> & Hk1).
  cbn [mbind result_bind]. destruct ok; cbn [negb]; [|do 2 eexists; split; [done|by apply vm_kinds]].
  destruct (write_u64_keeps s1 a2 size (kk_ok _ _ Hk1)) as (ok & s2 & -> & Hk2).
  do 2 eexists. split; [done|]. apply vm_kinds; [done|]. by eapply kinds_kept_trans.
Qed.

Lemma mprotect_wf vm address size protection v vm' :
  vm_wf vm -> in_u64 address -> in_u64 size -> mprotect vm address size protection = (v, vm') ->
  vm_wf vm'.
Proof.
  intros Hw Ha Hz. unfold mprotect. destruct (cpu_protection protection) as [host|]; [|by intros [= <- <-]].
  destruct (Z.eqb_spec size 0); [by intros [= <- <-]|].
  set (aligned := address / kGuestPageSize * kGuestPageSize).
  assert (0 <= aligned <= address) as Hal.
  { unfold aligned, kGuestPageSize, in_u64 in *. Z.div_mod_to_equations. lia. }
  destruct (Z.ltb_spec (u64_max - (address - aligned)) size); [by intros [= <- <-]|].
  destruct (checked_align_up _ _) as [aligned_size|] eqn:Hc; [|by intros [= <- <-]].
  unfold in_u64 in *. apply checked_align_up_Some in Hc as (_ & _ & Hu & _); [|unfold in_u64; lia|done].
  destruct (protect_range _ _ _ _) as [ok s'] eqn:Hp. intros [= <- <-].
  apply vm_kinds; [done|]. eapply protect_range_keeps; [done|apply Hw| | |exact Hp];
    unfold in_u64 in *; lia.
Qed.

(** ** Flexible memory *)

(** Emptying a range gives its flexible bytes back. *)
Lemma vm_emptied vm s' base size :
  vm_wf vm -> emptied (memory_ vm) s' base size -> 0 <= base -> 0 <= size ->
  zcount (flexible_at (memory_ vm)) base size <= flexible_used_ vm /\
  vm_wf (with_flexible_used (with_memory vm s')
           (flexible_used_ vm - zcount (flexible_at (memory_ vm)) base size)).
Proof.
  intros Hw (Hs' & Hn' & Hc') Hb Hz. pose proof Hw as [Hs Hm Hn Hc Hu Hp Ha].
  destruct (partitions vm Hw) as (_ & Hfb & _ & _ & Hend & _).
  assert (forall a, flexible_at s' a =
    if in_range base size a then false else flexible_at (memory_ vm) a) as Hf.
  { intros a. unfold flexible_at, kind_at. rewrite Hc'. by destruct (in_range base size a). }
  pose proof (zcount_remove (flexible_at (memory_ vm)) (flexible_at s') (flexible_base vm)
    (flexible_capacity_ vm) base size ltac:(lia) ltac:(lia) Hb Hz Hp Hf) as E.
  split.
  { pose proof (zcount_range (flexible_at s') (flexible_base vm) (flexible_capacity_ vm)). lia. }
  split; try done; cbn.
  - by rewrite Hn'.
  - rewrite Hu. symmetry. exact E.
  - intros a. rewrite Hf. destruct (in_range base size a); [done|apply Hp].
Qed.

Lemma range_inside_native_spec s base size :
  0 <= native_base s -> range_inside_native s base size = true -> base + size <= u64_max.
Proof.
  unfold range_inside_native. intros H0. destruct (native_backed s); cbn [negb].
  - destruct (Z.ltb_spec (u64_max - native_size s) (native_base s)); [done|].
    rewrite !andb_true_iff, !Z.leb_le. lia.
  - rewrite Z.leb_le. lia.
Qed.

Lemma page_floor a : 0 <= a -> 0 <= a / kGuestPageSize * kGuestPageSize <= a.
Proof. unfold kGuestPageSize. intros. Z.div_mod_to_equations. lia. Qed.

Lemma native_base_nonneg s : space_wf s -> 0 <= native_base s.
Proof.
  intros [_ Ha]. unfold native_base. destruct (native_ s) as [a|]; [|lia].
  destruct (Ha a eq_refl). lia.
Qed.

Lemma released_flexible_count s base size :
  space_wf s -> 0 < size -> 0 <= base -> base + size <= u64_max ->
  released_flexible base size (regions s) = zcount (flexible_at s) base size.
Proof.
  intros Hs Hz Hb He. unfold released_flexible. rewrite flexible_count by done.
  pose proof (zcount_range (flex_in (regions s)) base size).
  rewrite released_flexible_spec; [lia|by apply regions_wf|done|done|done|lia|lia].
Qed.

Lemma unmap_memory_wf vm address size v vm' :
  vm_wf vm -> in_u64 address -> in_u64 size -> unmap_memory vm address size = (v, vm') -> vm_wf vm'.
Proof.
  intros Hw Ha Hz. unfold unmap_memory. destruct (Z.eqb_spec size 0); [by intros [= <- <-]|].
  destruct (checked_align_up size kGuestPageSize) as [aligned|] eqn:Hc; [|by intros [= <- <-]].
  destruct (range_inside_native _ _ _) eqn:Hr; cbn [negb]; [|by intros [= <- <-]].
  pose proof (proj1 (vw_space vm Hw)) as Hs.
  apply range_inside_native_spec in Hr; [|by apply native_base_nonneg].
  apply checked_align_up_Some in Hc as (Hle & _ & Hu & _); [|done|done]. unfold in_u64 in *.
  set (base := address / kGuestPageSize * kGuestPageSize) in *.
  assert (0 <= base <= address) as Hb by (apply page_floor; lia).
  destruct (unmap_range _ _ _) as [ok s'] eqn:Hun.
  apply unmap_range_emptied in Hun; [|done|apply Hw|unfold in_u64; lia|unfold in_u64; lia].
  destruct ok; cbn [negb]; intros [= <- <-].
  - rewrite released_flexible_count by (done || lia).
    destruct (vm_emptied vm s' base aligned Hw Hun) as [Hle' Hw']; [lia|lia|].
    by rewrite Z.min_r.
  - apply vm_kinds; [done|apply Hun].
Qed.

(** A call keeps the constants of the state. *)
Definition same_partitions (vm vm' : Vm) : Prop :=
  managed_base_ vm' = managed_base_ vm /\ managed_size_ vm' = managed_size_ vm /\
  flexible_capacity_ vm' = flexible_capacity_ vm /\ direct_allocations_ vm' = direct_allocations_ vm.

(** A gap lies between the cursor and the end of the partition, free of
    regions. *)
Lemma flexible_gap_spec flex_begin flex_end size cursor l :
  region_list_wf l -> 0 < size -> flex_begin <= cursor ->
  match flexible_gap flex_begin flex_end size cursor l with
  | inr target => cursor <= target /\ target + size <= flex_end /\
      forall i, i ∈ l -> ri_base i + ri_size i <= target \/ target + size <= ri_base i
  | inl cursor' => cursor <= cursor' /\
      forall i, i ∈ l -> ri_base i + ri_size i <= cursor' \/ flex_end <= ri_base i
  end.
Proof.
  intros Hl Hs. revert cursor. induction l as [|i l IH]; intros cursor Hc; cbn [flexible_gap].
  { split; [done|]. by intros i ?%elem_of_nil. }
  pose proof (region_list_tail i l Hl) as [(Hi0 & Hi1 & Hi2) Hl']. specialize (IH Hl').
  destruct (Z.ltb_spec (u64_max - ri_size i) (ri_base i)); [lia|]. cbn [orb].
  destruct (_ || _) eqn:Ho.
  - specialize (IH cursor Hc). rewrite orb_true_iff, !Z.leb_le in Ho.
    destruct (flexible_gap _ _ _ _ _) as [c|t].
    + destruct IH as [Hle IH]. split; [done|]. intros j [->|Hj]%elem_of_cons; [lia|by apply IH].
    + destruct IH as (Hle & Hend & IH). split; [done|]. split; [done|].
      intros j [->|Hj]%elem_of_cons; [lia|by apply IH].
  - rewrite orb_false_iff, !Z.leb_gt in Ho.
    destruct (Z.leb_spec cursor (ri_base i)), (Z.leb_spec size (ri_base i - cursor)); cbn [andb].
    1: { split; [lia|]. split; [lia|]. intros j [->|Hj]%elem_of_cons; [lia|right].
         destruct Hl as [Hso _]. apply StronglySorted_inv in Hso as [_ Hso].
         rewrite Forall_forall in Hso. specialize (Hso j Hj). unfold region_before in Hso. lia. }
    all: specialize (IH (Z.max cursor (ri_base i + ri_size i)) ltac:(lia));
      destruct (flexible_gap _ _ _ _ _) as [c|t];
      [destruct IH as [Hle IH]; split; [lia|]|destruct IH as (Hle & Hend & IH); split; [lia|split; [lia|]]];
      intros j [->|Hj]%elem_of_cons; solve [lia|by apply IH].
Qed.

Lemma free_range s base size a :
  space_wf s -> (forall i, i ∈ regions s -> ri_base i + ri_size i <= base \/ base + size <= ri_base i) ->
  in_range base size a = true -> kind_at s a = None.
Proof.
  intros Hs Hf Ha%in_range_true. unfold kind_at. rewrite cell_at_covering by done.
  rewrite (proj2 (covering_None (regions s) a)); [done|].
  intros i Hi. apply in_range_false. destruct (Hf i Hi); lia.
Qed.

Lemma flexible_target_wf vm requested size flags answer vm' :
  vm_wf vm -> in_u64 requested -> 0 < size -> in_u64 size ->
  flexible_target vm requested size flags = (answer, vm') ->
  vm_wf vm' /\ same_partitions vm vm' /\
  match answer with
  | inl _ => True
  | inr target =>
      flexible_base vm <= target /\ target + size <= flexible_base vm + flexible_capacity_ vm /\
      forall a, in_range target size a = true -> kind_at (memory_ vm') a = None
  end.
Proof.
  intros Hw Hr Hs0 Hs. destruct (partitions vm Hw) as (_ & _ & _ & _ & Hend & _).
  pose proof (used_range vm Hw) as Hur. destruct (vw_capacity vm Hw) as [Hcap _].
  destruct (vw_managed vm Hw) as (Hm0 & _ & Hm2 & _).
  pose proof (proj1 (vw_space vm Hw)) as Hsp. unfold in_u64 in *. unfold flexible_target.
  assert (0 <= flexible_base vm) as Hfb
    by (unfold flexible_base; apply wrap64_range).
  rewrite (wrap64_small (flexible_base vm + _)) by (unfold in_u64; lia).
  rewrite (Z.min_l (flexible_used_ vm)) by lia.
  destruct (flag_set flags kMapFixed).
  - destruct (negb (requested mod kGuestPageSize =? 0) || _ || _ || _) eqn:Hbad;
      [by intros [= <- <-]|]. bools.
    pose proof (zcount_range (flex_in (regions (memory_ vm))) requested size) as Hzr.
    pose proof (flexible_obstacles_spec (regions (memory_ vm)) requested size flags 0
      (regions_wf _ Hsp) Hs0 ltac:(lia) ltac:(lia) ltac:(lia) ltac:(lia)) as Hobs.
    destruct (flexible_obstacles _ _ _ _ _) as [code|replaced]; [by intros [= <- <-]|].
    destruct Hobs as [-> _]. rewrite Z.add_0_l, <- flexible_count in * by done.
    destruct (_ <? _); [by intros [= <- <-]|].
    destruct (unmap_range _ _ _) as [ok s'] eqn:Hun.
    apply unmap_range_emptied in Hun; [|done|apply Hw|unfold in_u64; lia|unfold in_u64; lia].
    destruct ok; cbn [negb]; intros [= <- <-].
    + destruct (vm_emptied vm s' requested size Hw Hun) as [Hle' Hw']; [lia|lia|].
      rewrite Z.min_r by done. split; [done|]. split; [done|]. split; [lia|]. split; [lia|].
      intros a Ha. destruct Hun as (_ & _ & Hc). cbn. unfold kind_at. by rewrite Hc, Ha.
    + split; [|done]. apply vm_kinds; [done|apply Hun].
  - destruct (_ <? _); [by intros [= <- <-]|].
    pose proof (flexible_gap_spec (flexible_base vm) (flexible_base vm + flexible_capacity_ vm) size
      (flexible_base vm) _ (regions_wf _ Hsp) Hs0 ltac:(lia)) as Hgap.
    destruct (flexible_gap _ _ _ _ _) as [cursor|target].
    + destruct Hgap as [Hle Hfree].
      destruct (Z.leb_spec cursor (flexible_base vm + flexible_capacity_ vm)),
        (Z.leb_spec size (flexible_base vm + flexible_capacity_ vm - cursor)); cbn [andb];
        intros [= <- <-]; (split; [done|split; [done|]]); try done.
      split; [lia|]. split; [lia|]. intros a. apply free_range; [done|].
      intros i Hi. destruct (Hfree i Hi); lia.
    + destruct Hgap as (Hle & Hte & Hfree). intros [= <- <-]. split; [done|]. split; [done|].
      split; [lia|]. split; [lia|]. intros a. by apply free_range.
Qed.

Lemma find_free s a : kind_at s a = None -> find s a = None.
Proof. unfold kind_at, cell_at, find. by destruct (find_region (regions_ s) a). Qed.

Lemma install_flexible_spec s i prot :
  space_ok s -> in_u64 (ri_base i) -> in_u64 (ri_size i) -> 0 < ri_size i ->
  ri_size i mod kGuestPageSize = 0 ->
  (forall a, in_range (ri_base i) (ri_size i) a = true -> kind_at s a = None) ->
  exists ok s', install_flexible s i prot = Ok (ok, s') /\
    if ok then installed s s' i else kinds_kept s s'.
Proof.
  intros Hs Hb Hz Hpos Hpg Hfree. apply host_pages in Hpg. unfold install_flexible.
  destruct (map_region s i) as [ok s1] eqn:Hm. apply map_region_mapped in Hm; [|done..].
  destruct ok.
  2: { cbn [mbind result_bind negb]. do 2 eexists. split; [done|]. cbn. unfold drop_mapping.
       rewrite find_free; [done|]. rewrite (kk_kind _ _ Hm). apply Hfree, in_range_true. lia. }
  apply mapped_installed in Hm.
  destruct (zero_installed s s1 i Hm) as (ok & s2 & -> & Hi2); [apply Hz|].
  cbn [mbind result_bind]. destruct ok; cbn [negb].
  2: { do 2 eexists. split; [done|]. by apply drop_installed. }
  destruct (prot =? staging); [by do 2 eexists|].
  destruct (protect s2 _ _ prot) as [ok s3] eqn:Hp.
  eapply protect_installed in Hp; [|done..].
  destruct ok; [by do 2 eexists|]. do 2 eexists. split; [done|]. cbn.
  destruct (unmap_installed s s3 i granted Hp Hpg) as (s4 & -> & Hk). done.
Qed.

(** A flexible region on free addresses of the partition is accounted for. *)
Lemma vm_flexible_installed vm s' i :
  vm_wf vm -> installed (memory_ vm) s' i -> ri_kind i = kind_flexible -> 0 <= ri_size i ->
  flexible_base vm <= ri_base i -> ri_base i + ri_size i <= flexible_base vm + flexible_capacity_ vm ->
  vm_wf (with_flexible_used (with_memory vm s') (wrap64 (flexible_used_ vm + ri_size i))).
Proof.
  intros Hw Hi Hk Hz Hlo Hhi. pose proof Hw as [Hs Hm Hn Hc Hu Hp Ha].
  destruct (partitions vm Hw) as (_ & Hfb & _ & _ & Hend & _).
  assert (forall a, flexible_at s' a =
    if in_range (ri_base i) (ri_size i) a then true else flexible_at (memory_ vm) a) as Hf.
  { intros a. unfold flexible_at. rewrite (it_kind _ _ _ Hi), Hk. unfold region_covers.
    by destruct (in_range (ri_base i) (ri_size i) a). }
  assert (zcount (flexible_at s') (flexible_base vm) (flexible_capacity_ vm) =
    flexible_used_ vm + ri_size i) as E.
  { rewrite Hu. apply (zcount_add _ _ _ _ (ri_base i)); [done|done|done| |exact Hf].
    intros a Ha'. unfold flexible_at. by rewrite (it_free _ _ _ Hi). }
  pose proof (zcount_range (flexible_at s') (flexible_base vm) (flexible_capacity_ vm)) as Hr.
  rewrite wrap64_small by (unfold in_u64; lia).
  split; try done; cbn.
  - apply (it_ok _ _ _ Hi).
  - by rewrite (it_native _ _ _ Hi).
  - intros a. rewrite Hf. destruct (in_range _ _ a) eqn:Hin; [|apply Hp].
    intros _. apply in_range_true in Hin. unfold flexible_base, direct_capacity in *. cbn. lia.
Qed.

Lemma map_flexible_memory_returns vm slot size protection flags name_address :
  vm_wf vm -> in_u64 size ->
  vm_returns (map_flexible_memory vm slot size protection flags name_address).
Proof.
  intros Hw Hz. unfold map_flexible_memory.
  destruct (_ || _) eqn:Hargs; [by apply vm_stays|].
  destruct (cpu_protection protection) as [prot|]; [|by apply vm_stays].
  destruct (read_guest_u64 _ _) as [requested|] eqn:Hrd; [|by apply vm_stays].
  destruct (mapping_name _ _ _) as [code|name]; [by apply vm_stays|].
  destruct (flexible_capacity_ vm =? 0); [by apply vm_stays|].
  assert (in_u64 requested) as Hreq
    by (eapply (gw_read64_range (memory_ vm)); [apply Hw|exact Hrd]).
  assert (0 < size /\ size mod kGuestPageSize = 0) as [Hz0 Hzp].
  { unfold in_u64 in Hz. bools. lia. }
  destruct (flexible_target vm requested size flags) as [answer vm1] eqn:Ht.
  apply flexible_target_wf in Ht as (Hw1 & (Hb1 & Hs1 & Hc1 & Ha1) & Ht); [|done..].
  destruct answer as [code|target]; [by apply vm_stays|]. destruct Ht as (Hlo & Hhi & Hfree).
  destruct (partitions vm Hw) as (_ & Hfb & _ & _ & Hend & _).
  destruct (vw_managed vm Hw) as (Hm0 & _). destruct (vw_capacity vm Hw) as ((Hcap0 & Hcap1) & _).
  assert (in_u64 target) as Htu by (unfold in_u64; lia).
  set (i := flexible_region target size name _).
  destruct (install_flexible_spec (memory_ vm1) i prot) as (ok & s2 & -> & Hi);
    [apply Hw1|done|done|done|done|exact Hfree|].
  cbn [mbind result_bind]. destruct ok; cbn [negb].
  2: { exists (error kErrorEnomem). eexists. split; [done|]. by apply vm_kinds. }
  destruct (write_u64_installed _ _ _ slot target Hi) as (ok & s3 & Hwr & Hi3).
  change (memory_ (with_memory vm1 s2)) with s2. rewrite Hwr. cbn [mbind result_bind].
  destruct ok; cbn [negb].
  - do 2 eexists. split; [done|]. apply (vm_flexible_installed vm1 s3 i); try done; cbn.
    + lia.
    + unfold flexible_base, direct_capacity in *. rewrite Hb1, Hs1, Hc1. done.
    + unfold flexible_base, direct_capacity in *. rewrite Hb1, Hs1, Hc1. done.
  - destruct (unmap_installed _ _ _ granted Hi3) as (s4 & Hu & Hk); [exact (host_pages _ Hzp)|].
    cbn in Hu. rewrite Hu. do 2 eexists. split; [done|]. exact (vm_kinds vm1 s4 Hw1 Hk).
Qed.

(** ** Ordinary mappings *)

Lemma free_mapping_loop_spec s size candidate l r :
  region_list_wf l -> 0 < size -> free_mapping_loop s size candidate l = Some r ->
  0 <= candidate -> candidate mod kGuestPageSize = 0 ->
  candidate <= r /\ r mod kGuestPageSize = 0 /\ range_inside_native s r size = true /\
  forall i, i ∈ l -> ri_base i + ri_size i <= r \/ r + size <= ri_base i.
Proof.
  intros Hl Hs. revert candidate. induction l as [|i l IH]; intros candidate; cbn [free_mapping_loop].
  { destruct (range_inside_native s candidate size) eqn:Hin; [|done]. intros [= <-] H0 Hm.
    split_and!; [lia|done|done|]. by intros i ?%elem_of_nil. }
  pose proof (region_list_tail i l Hl) as [(Hi0 & Hi1 & Hi2) Hl']. specialize (IH Hl').
  destruct (Z.ltb_spec (u64_max - ri_size i) (ri_base i)); [lia|].
  destruct (Z.leb_spec (ri_base i + ri_size i) candidate).
  { intros Hr G0 Hm. destruct (IH candidate Hr G0 Hm) as (G1 & G2 & G3 & G4).
    split_and!; [done..|]. intros j [->|Hj]%elem_of_cons; [lia|by apply G4]. }
  destruct (Z.leb_spec candidate (ri_base i)), (Z.leb_spec size (ri_base i - candidate)); cbn [andb].
  1: { destruct (range_inside_native s candidate size) eqn:Hin; [|done]. intros [= <-] G0 Hm.
       split_and!; [lia|done|done|]. intros j [->|Hj]%elem_of_cons; [lia|right].
       destruct Hl as [Hso _]. apply StronglySorted_inv in Hso as [_ Hso].
       rewrite Forall_forall in Hso. specialize (Hso j Hj). unfold region_before in Hso. lia. }
  all: intros (aligned & Ha & Hr)%bind_Some G0 Hm;
    apply checked_align_up_Some in Ha as (Hle & Hmod & Hu & _); [|unfold in_u64; lia|done];
    destruct (IH aligned Hr) as (G1 & G2 & G3 & G4); [lia|done|];
    (split_and!; [lia|done|done|]); intros j [->|Hj]%elem_of_cons; [lia|by apply G4].
Qed.

(** A range a mapping may be put on. *)
Definition mapping_fit (s : space) (size b : Z) : Prop :=
  0 <= b /\ b mod kGuestPageSize = 0 /\ range_inside_native s b size = true /\
  forall a, in_range b size a = true -> kind_at s a = None.

(** Where the search starts. *)
Definition mapping_start (s : space) (requested : Z) : Z :=
  if negb (native_backed s) && (requested =? 0) then kDefaultMappingBase else requested.

Lemma find_free_mapping_spec s requested size r :
  space_wf s -> in_u64 requested -> 0 < size -> find_free_mapping s requested size = Some r ->
  mapping_fit s size r /\ mapping_start s requested <= r.
Proof.
  intros Hs Hr Hz. unfold find_free_mapping, in_u64 in *.
  intros (c1 & Hc1 & (c2 & Hc2 & Hl)%bind_Some)%bind_Some.
  assert (0 <= c1 < u64_mod) as Hc1u.
  { destruct (native_backed s); [|injection Hc1 as <-; lia].
    apply bind_Some in Hc1 as (al & Hal & [= <-]). pose proof (native_base_nonneg s Hs) as Hnb.
    unfold native_base in *. destruct (native_ s) as [arena|] eqn:Hn; [|done].
    destruct (wf_arena _ Hs arena Hn) as (Hb0 & Hsz & He & _).
    apply checked_align_up_Some in Hal as (_ & _ & Hu & _); [|unfold in_u64; lia|done].
    unfold in_u64 in Hu. lia. }
  set (c := if c1 =? 0 then kDefaultMappingBase else c1) in *.
  assert (0 <= c < u64_mod) as Hcu.
  { unfold c. destruct (c1 =? 0); [|lia]. unfold kDefaultMappingBase. lia. }
  assert (mapping_start s requested <= c) as Hstart.
  { unfold mapping_start, c. destruct (native_backed s); cbn [negb andb].
    - apply bind_Some in Hc1 as (al & _ & [= <-]).
      destruct (Z.eqb_spec (Z.max requested al) 0); [unfold kDefaultMappingBase|]; lia.
    - injection Hc1 as <-. destruct (requested =? 0); lia. }
  assert (c <= c2 /\ c2 mod kGuestPageSize = 0) as [Hc20 Hc2m].
  { destruct (Z.eqb_spec (c mod kGuestPageSize) 0); cbn [negb] in Hc2; [injection Hc2 as <-; lia|].
    apply checked_align_up_Some in Hc2 as (? & ? & ? & _); [lia|done|done]. }
  destruct (free_mapping_loop_spec s size c2 (regions s) r (regions_wf s Hs) Hz Hl ltac:(lia) Hc2m)
    as (G1 & G2 & G3 & G4).
  split; [|lia]. split; [lia|]. split; [done|]. split; [done|]. intros a. by apply free_range.
Qed.

Lemma mapping_kind_cases flags :
  mapping_kind flags = kind_anonymous \/ mapping_kind flags = kind_stack \/
  mapping_kind flags = kind_reserved \/ mapping_kind flags = kind_file.
Proof. unfold mapping_kind. repeat case_match; auto. Qed.

Lemma check_map_spec address size protection flags offset request :
  in_u64 address -> in_u64 size -> check_map address size protection flags offset = inr request ->
  0 < size <= mr_size request /\ mr_size request < size + kGuestPageSize /\
  in_u64 (mr_size request) /\ mr_size request mod kGuestPageSize = 0 /\
  in_u64 (mr_address request) /\ mr_address request mod kGuestPageSize = 0 /\
  address <= mr_address request < address + kGuestPageSize /\
  mr_kind request = mapping_kind flags /\ cpu_protection protection = Some (mr_protection request) /\
  (flag_set flags kMapFixed = true -> address = mr_address request) /\
  (mr_kind request = kind_file -> 0 <= offset /\ offset mod kGuestPageSize = 0).
Proof.
  intros Ha Hz. unfold check_map. destruct (Z.eqb_spec size 0); [done|]. cbn [orb].
  destruct (unknown_bits _ _); [done|]. destruct (cpu_protection protection) as [prot|]; [|done].
  destruct (flag_set protection 0x30); [done|].
  destruct (checked_align_up size kGuestPageSize) as [asz|] eqn:Hs; [|done].
  apply checked_align_up_Some in Hs as (Hs1 & Hs2 & Hs3 & _); [|done|done].
  destruct (if address =? 0 then _ else _) as [aad|] eqn:Hd; [|done].
  assert (address <= aad < address + kGuestPageSize /\ aad mod kGuestPageSize = 0 /\ in_u64 aad)
    as (Hd1 & Hd2 & Hd3).
  { destruct (Z.eqb_spec address 0); [injection Hd as <-; subst; split; [unfold kGuestPageSize; lia|done]|].
    apply checked_align_up_Some in Hd as (? & ? & ? & _); [by split|done|done]. }
  destruct (flag_set flags kMapFixed && _) eqn:Hfx; [done|].
  destruct (bool_decide _ && flag_set flags kMapSystem); [done|].
  destruct (bool_decide _ && (_ || _)); [done|]. destruct (bool_decide _ && _) eqn:Hof; [done|].
  intros [= <-]. cbn. unfold in_u64 in *. split_and!; try done; try lia.
  - intros Hf. rewrite Hf in Hfx. cbn in Hfx. apply negb_false_iff, Z.eqb_eq in Hfx. done.
  - intros Hk. rewrite bool_decide_true in Hof by done. bools. lia.
Qed.

(** The flexible addresses stay as they are. *)
Record flexible_kept (s s' : space) : Prop := {
  fk_ok : space_ok s';
  fk_native : native_ s' = native_ s;
  fk_flexible a : flexible_at s' a = flexible_at s a;
}.

Lemma kinds_flexible s s' : kinds_kept s s' -> flexible_kept s s'.
Proof. intros [Hs Hn Hk]. split; [done|done|]. intros a. by apply flexible_same. Qed.

Lemma flexible_kept_trans s1 s2 s3 : flexible_kept s1 s2 -> flexible_kept s2 s3 -> flexible_kept s1 s3.
Proof. intros [_ Hn H12] [H3 Hn' H23]. split; [done|congruence|]. intros a. by rewrite H23. Qed.

Lemma vm_flexible_kept vm s' : vm_wf vm -> flexible_kept (memory_ vm) s' -> vm_wf (with_memory vm s').
Proof. intros Hw [Hs Hn Hf]. by apply vm_memory. Qed.

Lemma installed_flexible s s' i :
  installed s s' i -> ri_kind i <> kind_flexible -> flexible_kept s s'.
Proof.
  intros [Hok Hn _ Hf Hk] Hne. split; [done|done|]. intros a. unfold flexible_at. rewrite Hk.
  specialize (Hf a). destruct (region_covers i a); [|done]. rewrite Hf by done.
  apply bool_decide_ext. split; [by intros [= ?]|done].
Qed.

(** Emptying a range without flexible regions. *)
Lemma emptied_flexible s s' base size :
  space_wf s -> emptied s s' base size -> 0 <= base -> 0 < size -> base + size <= u64_max ->
  (forall i, i ∈ regions s -> ranges_overlap base size i = true -> ri_kind i <> kind_flexible) ->
  flexible_kept s s'.
Proof.
  intros Hs (Hs' & Hn' & Hc') Hb Hz He Hno. split; [done|done|]. intros a.
  unfold flexible_at at 1, kind_at. rewrite Hc'. destruct (in_range base size a) eqn:Hin; [|done].
  rewrite flexible_at_regions by done. unfold flex_in. apply bool_decide_ext. split; [done|].
  intros (i & Hi & Hk)%fmap_Some. pose proof (regions_wf s Hs) as Hl.
  apply covering_elem in Hi as [Hi Hcov]; [|done].
  pose proof (rl_bounded _ Hl) as Hbd. rewrite Forall_forall in Hbd.
  destruct (Hno i Hi); [|done]. apply ranges_overlap_spec; [by apply Hbd|done|done|].
  apply in_range_true in Hin, Hcov. lia.
Qed.

(** The range of a placed mapping is free. *)
Lemma place_mapping_spec s request flags place s' :
  space_ok s -> in_u64 (mr_address request) -> mr_address request mod kGuestPageSize = 0 ->
  in_u64 (mr_size request) -> 0 < mr_size request ->
  place_mapping s request flags = (place, s') ->
  flexible_kept s s' /\
  match place with
  | inl _ => True
  | inr base => 0 <= base /\ base mod kGuestPageSize = 0 /\ base + mr_size request <= u64_max /\
      (flag_set flags kMapFixed = true -> base = mr_address request) /\
      forall a, in_range base (mr_size request) a = true -> kind_at s' a = None
  end.
Proof.
  intros Hok Ha Ham Hz Hz0. pose proof (proj1 Hok) as Hs. pose proof (regions_wf s Hs) as Hl.
  pose proof (rl_bounded _ Hl) as Hbd. rewrite Forall_forall in Hbd. unfold in_u64 in *.
  assert (flexible_kept s s) as Hsame by by apply kinds_flexible, kinds_kept_refl.
  unfold place_mapping. destruct (flag_set flags kMapFixed).
  - destruct (range_inside_native s _ _) eqn:Hin; cbn [negb]; [|by intros [= <- <-]].
    apply range_inside_native_spec in Hin; [|by apply native_base_nonneg].
    destruct (flag_set flags kMapNoOverwrite).
    + destruct (existsb _ _) eqn:Hex; intros [= <- <-]; [done|]. split; [done|].
      split_and!; [lia|done|lia|done|]. intros a. apply free_range; [done|]. intros i Hi.
      assert (ranges_overlap (mr_address request) (mr_size request) i = false) as Hno.
      { destruct (ranges_overlap _ _ i) eqn:E; [|done].
        enough (existsb (ranges_overlap (mr_address request) (mr_size request)) (regions s) = true)
          by congruence. apply existsb_exists. exists i. by rewrite list_elem_of_In in Hi. }
      pose proof (ranges_overlap_spec (mr_address request) (mr_size request) i (Hbd i Hi) Hz0 Hin) as Ho.
      rewrite Hno in Ho. destruct (Z.le_gt_cases (ri_base i + ri_size i) (mr_address request)); [by left|].
      destruct (Z.le_gt_cases (mr_address request + mr_size request) (ri_base i)); [by right|].
      assert (false = true) by (apply Ho; lia). done.
    + destruct (existsb _ _) eqn:Hex; [by intros [= <- <-]|].
      destruct (unmap_range s _ _) as [ok s1] eqn:Hun.
      apply unmap_range_emptied in Hun; [|done|done|unfold in_u64; lia|unfold in_u64; lia].
      destruct ok; intros [= <- <-].
      * split.
        { eapply emptied_flexible; [done|exact Hun|lia|done|done|]. intros i Hi Ho Hk.
          enough (existsb (fun region =>
              ranges_overlap (mr_address request) (mr_size request) region
              && (bool_decide (ri_kind region = kind_direct)
                  || bool_decide (ri_kind region = kind_flexible))) (regions s) = true) by congruence.
          apply existsb_exists. exists i. rewrite list_elem_of_In in Hi. split; [done|].
          by rewrite Ho, Hk, orb_true_r. }
        split_and!; [lia|done|lia|done|]. intros a Hin'. destruct Hun as (_ & _ & Hc).
        unfold kind_at. by rewrite Hc, Hin'.
      * split; [|done]. apply kinds_flexible, Hun.
  - destruct (find_free_mapping _ _ _) as [free|] eqn:Hf; intros [= <- <-]; [|done].
    apply find_free_mapping_spec in Hf as [(? & ? & Hin & ?) _]; [|done|done|done].
    apply range_inside_native_spec in Hin; [|by apply native_base_nonneg].
    split; [done|]. by split_and!.
Qed.

Lemma fill_mapping_spec s s1 i request protection snapshot :
  installed s s1 i -> ri_size i = mr_size request -> ri_size i mod kGuestPageSize = 0 ->
  in_u64 (ri_base i) -> in_u64 (ri_size i) ->
  exists ok s', fill_mapping s1 request (ri_base i) protection snapshot = Ok (ok, s') /\
    if ok then installed s s' i else kinds_kept s s'.
Proof.
  intros Hi Hsz Hpg Hb Hz. apply host_pages in Hpg.
  assert (forall s2, installed s s2 i ->
    exists ok s', Ok (false, (unmap_range s2 (ri_base i) (mr_size request)).2) = Ok (ok, s') /\
      if ok : bool then installed s s' i else kinds_kept s s') as Hundo.
  { intros s2 Hi2. destruct (unmap_installed s s2 i granted Hi2 Hpg) as (s3 & Hu & Hk).
    rewrite <- Hsz, Hu. by do 2 eexists. }
  unfold fill_mapping. rewrite <- Hsz.
  destruct (zero_installed s s1 i Hi) as (ok & s2 & -> & Hi2); [apply Hz|].
  cbn [mbind result_bind]. destruct ok; cbn [negb]; [|rewrite Hsz; by apply Hundo].
  assert (exists ok s3, (if bool_decide (mr_kind request = kind_file)
      && negb (bool_decide (snapshot = [])) then write s2 (ri_base i) snapshot else Ok (true, s2))
      = Ok (ok, s3) /\ installed s s3 i) as (ok & s3 & -> & Hi3).
  { destruct (_ && _); [by apply write_installed|by exists true, s2]. }
  cbn [mbind result_bind]. destruct ok; cbn [negb]; [|rewrite Hsz; by apply Hundo].
  destruct (protection =? staging); [by do 2 eexists|].
  destruct (protect s3 _ _ protection) as [ok s4] eqn:Hp.
  eapply protect_installed in Hp; [|done..].
  destruct ok; [by do 2 eexists|]. rewrite Hsz. by apply Hundo.
Qed.

(** The file cannot give the bytes: it is not open, too short, or the host
    refuses to read it. *)
Definition file_unreadable (f : FileState) (fd size offset : Z) : Prop :=
  match files_ f !! fd with
  | None => True
  | Some r => zlen (file_bytes r) < offset + size \/
      ~ (forall p n, hf_refuses (st_file (fr_file r)) p n = false)
  end.

Lemma map_snapshot_spec f request size fd offset :
  files_wf f -> in_u64 size -> (mr_kind request = kind_file -> 0 <= offset) ->
  exists answer, map_snapshot f request size fd offset = Ok (answer, f) /\
    match answer with
    | inl code => mr_kind request = kind_file /\ file_unreadable f fd size offset /\
        code = error (if isSome (files_ f !! fd) then kErrorEnotsup else kErrorEbadf)
    | inr bytes =>
        if bool_decide (mr_kind request = kind_file)
        then exists r, files_ f !! fd = Some r /\ offset + size <= zlen (file_bytes r) /\
               bytes = zslice (file_bytes r) offset size
        else bytes = []
    end.
Proof.
  intros Hf Hz Ho. unfold map_snapshot. unfold file_unreadable. case_bool_decide as Hk; cbn [negb]; [|by eexists].
  destruct (files_ f !! fd) as [r|] eqn:Hr; [|by eexists].
  destruct (file_snapshot_spec r size offset) as (answer & -> & Hans);
    [by apply (fw_files f Hf fd)|done|auto|].
  cbn [mbind result_bind]. exists answer. split.
  - do 2 f_equal. unfold with_files. rewrite insert_id by done. by destruct f.
  - destruct (Z.leb_spec (offset + size) (zlen (file_bytes r))).
    + destruct Hans as [->|[-> Hno]]; [by exists r|]. split; [done|]. split; [by right|done].
    + subst. split; [done|]. split; [by left|done].
Qed.

Lemma mapping_region_not_flexible request flags base offset :
  mr_kind request = mapping_kind flags -> ri_kind (mapping_region request base offset) <> kind_flexible.
Proof. intros Hk. cbn. rewrite Hk. by destruct (mapping_kind_cases flags) as [->|[->|[->| ->]]]. Qed.

Lemma map_memory_returns vm f address size protection flags fd offset :
  vm_wf vm -> files_wf f -> in_u64 address -> in_u64 size ->
  exists v vm', map_memory vm f address size protection flags fd offset = Ok (v, vm', f) /\
    vm_wf vm' /\ v <= i64_max.
Proof.
  intros Hw Hf Ha Hz. unfold map_memory.
  assert (forall code, error code <= i64_max) as Hcode by (intros code; pose proof (wrap32_range code); unfold error, to_i32, in_u32 in *; case_match; lia).
  assert (forall a, to_i64 a <= i64_max) as Hvalue by (intros a; pose proof (to_i64_range a); lia).
  destruct (check_map _ _ _ _ _) as [code|request] eqn:Hc; [by do 2 eexists; split_and!|].
  apply check_map_spec in Hc as (Hs0 & Hs1 & Hsu & Hsm & Hau & Ham & _ & Hk & _ & _ & Hoff); [|done|done].
  destruct (map_snapshot_spec f request size fd offset) as (answer & -> & Hans);
    [done|done|by intros; apply Hoff|].
  cbn [mbind result_bind]. destruct answer as [code|bytes].
  { do 2 eexists. split_and!; [done|done|]. destruct Hans as (_ & _ & ->). apply Hcode. }
  destruct (place_mapping (memory_ vm) request flags) as [place s1] eqn:Hp.
  apply place_mapping_spec in Hp as [Hfk Hp]; [|apply Hw|done|done|done|lia].
  destruct place as [code|base]; [do 2 eexists; split_and!; [done|by apply vm_flexible_kept|done]|].
  destruct Hp as (Hb0 & Hbm & Hbe & _ & Hfree).
  set (i := mapping_region request base offset).
  assert (in_u64 base) as Hbu by (unfold in_u64 in *; lia).
  pose proof (mapping_region_not_flexible request flags base offset Hk) as Hnf. fold i in Hnf.
  destruct (map_region s1 i) as [ok s2] eqn:Hm.
  apply map_region_mapped in Hm; [|done|apply Hfk|done|done].
  destruct ok; cbn [negb].
  2: { do 2 eexists. split_and!; [done| |done]. apply vm_flexible_kept; [done|].
       eapply flexible_kept_trans; [done|by apply kinds_flexible]. }
  apply mapped_installed in Hm. destruct (bool_decide (mr_kind request = kind_reserved)).
  { do 2 eexists. split_and!; [done| |apply Hvalue]. apply vm_flexible_kept; [done|].
    eapply flexible_kept_trans; [done|by eapply installed_flexible]. }
  destruct (fill_mapping_spec s1 s2 i request (final_protection request protection) bytes)
    as (ok & s3 & Hfill & Hi3); [done|done|done|done|done|].
  cbn in Hfill. rewrite Hfill. cbn [mbind result_bind]. do 2 eexists. split; [done|].
  split; [|destruct ok; [apply Hvalue|apply Hcode]]. apply vm_flexible_kept; [done|]. eapply flexible_kept_trans; [done|].
  destruct ok; [by eapply installed_flexible|by apply kinds_flexible].
Qed.

Lemma map_memory_to_returns vm f address size protection flags fd offset output_address :
  vm_wf vm -> files_wf f -> in_u64 address -> in_u64 size ->
  exists v vm', map_memory_to vm f address size protection flags fd offset output_address
                = Ok (v, vm', f) /\ vm_wf vm'.
Proof.
  intros Hw Hf Ha Hz. unfold map_memory_to. destruct (guest_writable _ _ _); cbn [negb]; [|by do 2 eexists].
  destruct (map_memory_returns vm f address size protection flags fd offset) as (v & vm1 & -> & Hw1 & Hv);
    [done..|]. cbn [mbind result_bind]. destruct (Z.ltb_spec v 0); [by do 2 eexists|].
  destruct (write_u64_keeps (memory_ vm1) output_address v (vw_space vm1 Hw1)) as (ok & s & -> & Hk).
  cbn [mbind result_bind]. pose proof (vm_kinds vm1 s Hw1 Hk) as Hw2.
  destruct ok; [by do 2 eexists|].
  destruct (unmap_memory (with_memory vm1 s) v size) as [v' vm2] eqn:Hu.
  do 2 eexists. split; [done|]. eapply unmap_memory_wf; [exact Hw2| |exact Hz|exact Hu].
  unfold in_u64. lia.
Qed.

End Invariant.
