(* ===== verification/KernelVmFit.v ===== *)
(** * Free physical ranges

    The searches of the direct memory calls: [first_fit] finds the lowest
    aligned range that no blocked range meets, [largest_gap] the longest one,
    and the blocked ranges are exactly the physical addresses that are
    allocated or whose canonical address is mapped. *)

From Stdlib Require Import Sorting.Sorted.
From stdpp Require Import sorting.
From S2P Require Import Prelude OrdMap NativeArena GuestMemory GuestMemoryProps KernelMem KernelAttrs KernelTime KernelFiles KernelFilesProps RegionList KernelVm KernelVmInv.

Local Open Scope Z_scope.

(** ** Alignment *)

Lemma align_up_multiple_spec value alignment :
  0 <= value -> 0 < alignment ->
  match align_up_multiple value alignment with
  | Some r => value <= r /\ r mod alignment = 0 /\
      forall b, value <= b -> b mod alignment = 0 -> r <= b
  | None => forall b, value <= b -> b mod alignment = 0 -> u64_max < b
  end.
Proof.
  intros Hv Ha. unfold align_up_multiple. destruct (Z.eqb_spec alignment 0); [lia|].
  destruct (Z.eqb_spec (value mod alignment) 0) as [Hm|Hm]; [by split_and!|].
  assert (forall b, value <= b -> b mod alignment = 0 -> value + (alignment - value mod alignment) <= b)
    as Hleast.
  { intros b Hb [q ->]%Z.mod_divide; [|done].
    pose proof (Z.div_mod value alignment ltac:(done)).
    pose proof (Z.mod_pos_bound value alignment Ha).
    assert (value / alignment < q) by nia. nia. }
  pose proof (Z.mod_pos_bound value alignment Ha).
  destruct (Z.ltb_spec (u64_max - (alignment - value mod alignment)) value).
  - intros b Hb Hbm. specialize (Hleast b Hb Hbm). lia.
  - split; [lia|]. split; [|done]. rewrite Z.add_sub_assoc, Z.add_comm, <- Z.add_sub_assoc.
    rewrite <- Zplus_mod_idemp_l, Z.mod_same, Z.add_0_l by done.
    rewrite Zminus_mod_idemp_r, Z.sub_diag. by apply Z.mod_0_l.
Qed.

(** ** Ranges against blocked ranges *)

(** [b, b + n) meets none of the blocked ranges. *)
Definition clear_of (blocked : list PhysicalRange) (b n : Z) : Prop :=
  forall r, r ∈ blocked -> r.2 <= b \/ b + n <= r.1.

(** Sorted, non-empty ranges. *)
Record blocked_wf (blocked : list PhysicalRange) : Prop := {
  bw_sorted : StronglySorted (fun a b : PhysicalRange => a.1 <= b.1) blocked;
  bw_nonempty : Forall (fun r : PhysicalRange => r.1 < r.2) blocked;
}.

Lemma blocked_tail r blocked :
  blocked_wf (r :: blocked) -> blocked_wf blocked /\ r.1 < r.2 /\
  forall x, x ∈ blocked -> r.1 <= x.1.
Proof.
  intros [Hs Hn]. apply StronglySorted_inv in Hs as [Hs Hr]. apply Forall_cons in Hn as [Hn1 Hn].
  split; [by split|]. split; [done|]. by rewrite Forall_forall in Hr.
Qed.

Lemma clear_of_cons r blocked b n :
  clear_of (r :: blocked) b n <-> (r.2 <= b \/ b + n <= r.1) /\ clear_of blocked b n.
Proof.
  unfold clear_of. setoid_rewrite elem_of_cons. split.
  - intros Hc. split; [apply Hc; by left|]. intros x Hx. apply Hc. by right.
  - intros [Hr Hc] x [->|Hx]; [done|by apply Hc].
Qed.

(** A fit of the search: aligned, inside the window and clear. *)
Definition fits (start end_ size alignment : Z) (blocked : list PhysicalRange) (b : Z) : Prop :=
  start <= b /\ b + size <= end_ /\ b mod alignment = 0 /\ clear_of blocked b size.

Lemma fit_loop_spec start end_ size alignment candidate blocked :
  blocked_wf blocked -> 0 <= start <= candidate -> 0 < size -> 0 < alignment -> end_ <= u64_max ->
  match fit_loop start end_ size alignment candidate blocked with
  | Some (inl base) => fits candidate end_ size alignment blocked base /\
      forall b, fits candidate end_ size alignment blocked b -> base <= b
  | Some (inr candidate') => candidate <= candidate' /\
      (forall b, fits candidate end_ size alignment blocked b -> candidate' <= b) /\
      (forall b, candidate' <= b -> b + size <= end_ -> clear_of blocked b size)
  | None => forall b, ~ fits candidate end_ size alignment blocked b
  end.
Proof.
  intros Hw Hc Hs Ha He. revert candidate Hc. induction blocked as [|[bb be] blocked IH]; intros candidate Hc.
  { cbn. split; [lia|]. split; [by intros b (? & _)|]. by intros b _ _ r ?%elem_of_nil. }
  apply blocked_tail in Hw as (Hw & Hne & Hsorted). cbn [fst snd] in *. specialize (IH Hw).
  cbn [fit_loop].
  assert (forall c b, fits c end_ size alignment ((bb, be) :: blocked) b <->
    (be <= b \/ b + size <= bb) /\ fits c end_ size alignment blocked b) as Hcons.
  { intros c b. unfold fits. rewrite clear_of_cons. cbn [fst snd]. tauto. }
  destruct (_ || _) eqn:Hskip.
  - apply orb_true_iff in Hskip. rewrite !Z.leb_le in Hskip. specialize (IH candidate Hc).
    destruct (fit_loop _ _ _ _ _ _) as [[base|c]|].
    + destruct IH as [Hf Hmin]. split.
      * apply Hcons. split; [|done]. destruct Hf as (? & ? & _). lia.
      * intros b [_ Hb]%Hcons. by apply Hmin.
    + destruct IH as (Hle & Hmin & Hcl). split; [done|]. split.
      * intros b [_ Hb]%Hcons. by apply Hmin.
      * intros b Hb Hbe. apply clear_of_cons. cbn. split; [lia|by apply Hcl].
    + intros b [_ Hb]%Hcons. by apply (IH b).
  - apply orb_false_iff in Hskip. rewrite !Z.leb_gt in Hskip.
    pose proof (align_up_multiple_spec candidate alignment ltac:(lia) Ha) as Hal.
    destruct (align_up_multiple candidate alignment) as [aligned|]; cbn [mbind option_bind].
    2: { intros b [_ (Hb1 & Hb2 & Hb3 & _)]%Hcons. specialize (Hal b Hb1 Hb3). lia. }
    destruct Hal as (Hle & Hmod & Hleast).
    destruct ((aligned <=? end_) && (size <=? end_ - aligned) && (aligned <=? bb)
              && (size <=? bb - aligned)) eqn:Hfit.
    + rewrite !andb_true_iff, !Z.leb_le in Hfit. split.
      * split; [lia|]. split; [lia|]. split; [done|]. apply clear_of_cons. cbn. split; [lia|].
        intros r Hr. specialize (Hsorted r Hr). lia.
      * intros b (Hb1 & _ & Hb3 & _). by apply Hleast.
    + assert (forall b, fits candidate end_ size alignment ((bb, be) :: blocked) b -> be <= b) as Hbe.
      { intros b [[?|Hbb] (Hb1 & Hb2 & Hb3 & _)]%Hcons; [done|exfalso].
        specialize (Hleast b Hb1 Hb3).
        assert ((aligned <=? end_) && (size <=? end_ - aligned) && (aligned <=? bb)
                && (size <=? bb - aligned) = true); [|congruence].
        rewrite !andb_true_iff, !Z.leb_le. lia. }
      assert (forall b, fits candidate end_ size alignment ((bb, be) :: blocked) b ->
        fits (Z.max candidate be) end_ size alignment blocked b) as Hnext.
      { intros b Hb. pose proof (Hbe b Hb). apply Hcons in Hb as [_ (Hb1 & Hb')]. split; [lia|done]. }
      specialize (IH (Z.max candidate be) ltac:(lia)).
      destruct (fit_loop _ _ _ _ _ _) as [[base|c]|].
      * destruct IH as [Hf Hmin]. split; [|intros b Hb; by apply Hmin, Hnext].
        destruct Hf as (Hf1 & Hf2). apply Hcons. split; [lia|]. split; [lia|done].
      * destruct IH as (Hle' & Hmin & Hcl). split; [lia|]. split; [intros b Hb; by apply Hmin, Hnext|].
        intros b Hb Hb'. apply clear_of_cons. cbn. split; [lia|by apply Hcl].
      * intros b Hb. by apply (IH b), Hnext.
Qed.

(** The first fit is the lowest, and there is none when none is found. *)
Lemma first_fit_spec start end_ size alignment blocked :
  blocked_wf blocked -> 0 <= start -> 0 < size -> 0 < alignment -> end_ <= u64_max ->
  match first_fit start end_ size alignment blocked with
  | inr base => fits start end_ size alignment blocked base /\
      forall b, fits start end_ size alignment blocked b -> base <= b
  | inl code => (forall b, ~ fits start end_ size alignment blocked b) /\
      (code = kErrorEagain \/ code = kErrorEnomem)
  end.
Proof.
  intros Hw H0 Hs Ha He. unfold first_fit.
  pose proof (fit_loop_spec start end_ size alignment start blocked Hw ltac:(lia) Hs Ha He) as Hl.
  destruct (fit_loop _ _ _ _ _ _) as [[base|c]|]; [done| |by split; [|right]].
  destruct Hl as (Hc & Hmin & Hcl).
  pose proof (align_up_multiple_spec c alignment ltac:(lia) Ha) as Hal.
  destruct (align_up_multiple c alignment) as [aligned|].
  - destruct Hal as (Hle & Hmod & Hleast).
    destruct (Z.leb_spec aligned end_), (Z.leb_spec size (end_ - aligned)); cbn [andb].
    + split.
      * split; [lia|]. split; [lia|]. split; [done|]. apply Hcl; lia.
      * intros b Hb. apply Hleast; [by apply Hmin|]. apply Hb.
    + split; [|by left]. intros b Hb. pose proof (Hleast b (Hmin b Hb) ltac:(apply Hb)).
      destruct Hb as (_ & ? & _). lia.
    + split; [|by left]. intros b Hb. pose proof (Hleast b (Hmin b Hb) ltac:(apply Hb)).
      destruct Hb as (_ & ? & _). lia.
    + split; [|by left]. intros b Hb. pose proof (Hleast b (Hmin b Hb) ltac:(apply Hb)).
      destruct Hb as (_ & ? & _). lia.
  - split; [|by left]. intros b Hb. specialize (Hal b (Hmin b Hb) ltac:(apply Hb)).
    destruct Hb as (_ & ? & _). lia.
Qed.

(** ** The largest gap *)

(** An aligned clear range of the window. *)
Definition gap (start end_ alignment : Z) (blocked : list PhysicalRange) (b n : Z) : Prop :=
  start <= b /\ 0 < n /\ b + n <= end_ /\ b mod alignment = 0 /\ clear_of blocked b n.

(** The best so far is a gap, or nothing. *)
Definition best_ok (start end_ alignment : Z) (blocked : list PhysicalRange) (best : Z * Z) : Prop :=
  best = (0, 0) \/ gap start end_ alignment blocked best.1 best.2.

Lemma consider_gap_spec start end_ alignment blocked best gap_begin gap_end :
  0 <= start <= gap_begin -> gap_end <= end_ -> end_ <= u64_max -> 0 < alignment ->
  clear_of blocked gap_begin (gap_end - gap_begin) ->
  best_ok start end_ alignment blocked best -> 0 <= best.2 ->
  let best' := consider_gap alignment best gap_begin gap_end in
  best_ok start end_ alignment blocked best' /\ best.2 <= best'.2 /\
  forall b n, gap_begin <= b -> b + n <= gap_end -> b mod alignment = 0 -> n <= best'.2.
Proof.
  intros Hs He Hmax Ha Hcl Hb Hb0. unfold consider_gap.
  pose proof (align_up_multiple_spec gap_begin alignment ltac:(lia) Ha) as Hal.
  destruct (align_up_multiple gap_begin alignment) as [aligned|].
  2: { split; [done|]. split; [lia|]. intros b n Hb1 Hb2 Hb3. specialize (Hal b Hb1 Hb3). lia. }
  destruct Hal as (Hle & Hmod & Hleast).
  destruct (Z.leb_spec gap_end aligned).
  { split; [done|]. split; [lia|]. intros b n Hb1 Hb2 Hb3. specialize (Hleast b Hb1 Hb3). lia. }
  destruct (Z.ltb_spec best.2 (gap_end - aligned)); cbn [fst snd].
  - split; [right|]; [split_and!; cbn; [lia|lia|lia|done|]|split; [lia|]].
    + intros r Hr. specialize (Hcl r Hr). lia.
    + intros b n Hb1 Hb2 Hb3. specialize (Hleast b Hb1 Hb3). lia.
  - split; [done|]. split; [lia|]. intros b n Hb1 Hb2 Hb3. specialize (Hleast b Hb1 Hb3). lia.
Qed.

(** The ranges seen are behind the cursor, the others are not before it. *)
Lemma gap_loop_spec start end_ alignment all seen blocked cursor best :
  all = seen ++ blocked -> blocked_wf all -> 0 <= start <= cursor -> end_ <= u64_max ->
  0 < alignment -> start < end_ ->
  best_ok start end_ alignment all best -> 0 <= best.2 ->
  (forall r, r ∈ seen -> r.2 <= cursor \/ end_ <= r.1) ->
  (forall b n, gap start end_ alignment all b n -> b < cursor -> n <= best.2) ->
  let '(cursor', best') := gap_loop start end_ alignment cursor best blocked in
  best_ok start end_ alignment all best' /\ 0 <= best'.2 /\ start <= cursor' /\
  (forall b n, gap start end_ alignment all b n -> b < cursor' -> n <= best'.2) /\
  (cursor' < end_ -> forall r, r ∈ all -> r.2 <= cursor' \/ end_ <= r.1).
Proof.
  intros Hall Hw Hc He Ha Hse. revert seen cursor best Hall Hc.
  induction blocked as [|[bb be] blocked IH]; intros seen cursor best Hall Hc Hbest Hb0 Hseen Hcons.
  { cbn. split_and!; [done|done|lia|done|]. intros _ r Hr. apply Hseen. by rewrite Hall, app_nil_r in Hr. }
  cbn [gap_loop].
  assert (bb < be) as Hne.
  { destruct Hw as [_ Hn]. rewrite Forall_forall in Hn. apply (Hn (bb, be)). rewrite Hall.
    apply elem_of_app. right. by left. }
  assert (all = (seen ++ [(bb, be)]) ++ blocked) as Hall' by by rewrite <- app_assoc.
  assert (forall r, r ∈ blocked -> bb <= r.1) as Hafter.
  { destruct Hw as [Hso _]. rewrite Hall in Hso. clear - Hso. induction seen as [|x seen IH]; cbn in Hso.
    - apply StronglySorted_inv in Hso as [_ Hso]. rewrite Forall_forall in Hso. apply Hso.
    - apply IH. by apply StronglySorted_inv in Hso as [? _]. }
  destruct (_ || _) eqn:Hskip.
  { apply orb_true_iff in Hskip. rewrite !Z.leb_le in Hskip.
    apply (IH (seen ++ [(bb, be)])); [done|done|done|done| |done].
    intros r [Hr| ->%list_elem_of_singleton]%elem_of_app; [by apply Hseen|]. cbn. lia. }
  apply orb_false_iff in Hskip. rewrite !Z.leb_gt in Hskip.
  set (best1 := if cursor <? Z.max bb start then _ else best).
  assert (best_ok start end_ alignment all best1 /\ best.2 <= best1.2 /\
    forall b n, gap start end_ alignment all b n -> b < Z.max cursor (Z.min be end_) -> n <= best1.2)
    as (Hbest1 & Hle1 & Hcons1).
  { unfold best1. destruct (Z.ltb_spec cursor (Z.max bb start)) as [Hlt|Hge].
    - destruct (consider_gap_spec start end_ alignment all best cursor (Z.max bb start))
        as (H1 & H2 & H3); [lia|lia|done|done| |done|done|].
      { intros r. rewrite Hall. intros [Hr|[->|Hr]%elem_of_cons]%elem_of_app; cbn.
        - specialize (Hseen r Hr). lia.
        - lia.
        - specialize (Hafter r Hr). lia. }
      split; [done|]. split; [done|]. intros b n Hg Hb.
      destruct (Z.lt_ge_cases b cursor); [specialize (Hcons b n Hg ltac:(done)); lia|].
      destruct Hg as (Hg1 & Hg2 & Hg3 & Hg4 & Hg5).
      destruct (Hg5 (bb, be)) as [Hbe|Hbb]; [rewrite Hall; apply elem_of_app; right; by left| |];
        cbn in *; [lia|]. apply (H3 b); [done|lia|done].
    - split; [done|]. split; [lia|]. intros b n Hg Hb.
      destruct (Z.lt_ge_cases b cursor); [by apply (Hcons b n)|].
      destruct Hg as (Hg1 & Hg2 & Hg3 & Hg4 & Hg5).
      destruct (Hg5 (bb, be)) as [Hbe|Hbb]; [rewrite Hall; apply elem_of_app; right; by left| |];
        cbn in *; lia. }
  destruct (Z.leb_spec end_ (Z.max cursor (Z.min be end_))).
  { split_and!; [done|lia|lia|done|lia]. }
  apply (IH (seen ++ [(bb, be)])); [done|lia|done|lia| |done].
  intros r [Hr| ->%list_elem_of_singleton]%elem_of_app; [specialize (Hseen r Hr); lia|]. cbn. lia.
Qed.

(** [largest_gap] answers the longest gap, or size 0 when there is none. *)
Lemma largest_gap_spec start end_ alignment blocked :
  blocked_wf blocked -> 0 <= start -> start < end_ -> end_ <= u64_max -> 0 < alignment ->
  let '(base, size) := largest_gap start end_ alignment blocked in
  (size <> 0 -> gap start end_ alignment blocked base size) /\
  (forall b n, gap start end_ alignment blocked b n -> n <= size) /\ 0 <= size.
Proof.
  intros Hw H0 Hse He Ha. unfold largest_gap.
  pose proof (gap_loop_spec start end_ alignment blocked [] blocked start (0, 0) eq_refl Hw
    ltac:(lia) He Ha Hse) as Hl.
  destruct (gap_loop _ _ _ _ _ _) as [cursor best].
  destruct Hl as (Hbest & Hb0 & Hc & Hmax & Hend); [by left|done|by intros r ?%elem_of_nil
    |intros b n (? & _) ?; lia|].
  assert (forall best : Z * Z, best_ok start end_ alignment blocked best -> best.2 <> 0 ->
    gap start end_ alignment blocked best.1 best.2) as Hok by (by intros ? [->|?]).
  destruct (Z.ltb_spec cursor end_) as [Hlt|Hge].
  - destruct (consider_gap_spec start end_ alignment blocked best cursor end_) as (H1 & H2 & H3);
      [lia|lia|done|done| |done|done|].
    { intros r Hr. destruct (Hend Hlt r Hr); lia. }
    destruct (consider_gap _ _ _ _) as [base size] eqn:E. cbn in *.
    split; [by apply (Hok (base, size))|]. split; [|lia]. intros b n Hg.
    destruct (Z.lt_ge_cases b cursor); [specialize (Hmax b n Hg ltac:(done)); lia|].
    destruct Hg as (Hg1 & Hg2 & Hg3 & Hg4 & Hg5). by apply (H3 b).
  - destruct best as [base size]. cbn in *. split; [by apply (Hok (base, size))|]. split; [|done].
    intros b n Hg. apply (Hmax b n Hg). destruct Hg as (? & ? & ? & _). lia.
Qed.

(** ** The blocked ranges *)

Definition allocation_covers (e : Z * DirectAllocation) (p : Z) : bool :=
  in_range e.1 (da_size e.2) p.

(** The memory type of an allocated physical address. *)
Fixpoint type_at (l : omap DirectAllocation) (p : Z) : option Z :=
  match l with
  | [] => None
  | e :: l => if allocation_covers e p then Some (da_memory_type e.2) else type_at l p
  end.

Lemma type_at_None l p : type_at l p = None <-> forall e, e ∈ l -> allocation_covers e p = false.
Proof.
  induction l as [|e l IH]; cbn; [split; [by intros _ e ?%elem_of_nil|done]|].
  destruct (allocation_covers e p) eqn:Hc.
  - split; [done|]. intros Hn. rewrite Hn in Hc; [done|by left].
  - rewrite IH. split; [intros Hn x [->|Hx]%elem_of_cons; auto|intros Hn x Hx; apply Hn; by right].
Qed.

#[export] Instance range_le_trans : Transitive range_le.
Proof. intros [a1 a2] [b1 b2] [c1 c2]. unfold range_le. cbn. lia. Qed.

#[export] Instance range_le_total : Total range_le.
Proof. intros [a1 a2] [b1 b2]. unfold range_le. cbn. lia. Qed.

Section Blocked.
Context `{HostOs, !HostOsLaws H}.

(** The physical addresses [b, b + n) are neither allocated nor mapped. *)
Definition physical_free (vm : Vm) (b n : Z) : Prop :=
  forall p, b <= p < b + n ->
    type_at (direct_allocations_ vm) p = None /\
    cell_at (memory_ vm) (managed_base_ vm + p) = None.

Lemma blocked_elem vm r :
  r ∈ direct_blocked_ranges vm <->
  (exists e, e ∈ direct_allocations_ vm /\ r = (e.1, wrap64 (e.1 + da_size e.2))) \/
  (exists i, i ∈ regions (memory_ vm) /\ r ∈ canonical_overlap vm i).
Proof.
  unfold direct_blocked_ranges. rewrite merge_sort_Permutation, elem_of_app.
  rewrite list_elem_of_In, in_map_iff, list_elem_of_bind.
  split.
  - intros [(e & <- & He%list_elem_of_In)|(i & Hr & Hi)]; [left; by exists e|right; by exists i].
  - intros [(e & He%list_elem_of_In & ->)|(i & Hi & Hr)]; [left; by exists e|right; by exists i].
Qed.

Lemma canonical_overlap_spec vm i r :
  vm_wf vm -> 0 < direct_capacity vm -> region_bounded i -> r ∈ canonical_overlap vm i <->
  r = (Z.max (ri_base i - managed_base_ vm) 0,
       Z.min (ri_base i + ri_size i - managed_base_ vm) (direct_capacity vm)) /\ r.1 < r.2.
Proof.
  intros Hw Hcap (Hi0 & Hi1 & Hi2). destruct (partitions vm Hw) as (Hc & Hf & _ & _ & Hend & _).
  destruct (vw_managed vm Hw) as (H0 & H1 & H2 & _). destruct (vw_capacity vm Hw) as ((H3 & H4) & _).
  unfold canonical_overlap. rewrite (wrap64_small (managed_base_ vm + _)) by (unfold in_u64; lia).
  destruct (Z.ltb_spec (u64_max - ri_size i) (ri_base i)); [lia|]. rewrite orb_false_r.
  destruct (_ || _) eqn:Hskip.
  - apply orb_true_iff in Hskip. rewrite !Z.leb_le in Hskip.
    split; [by intros ?%elem_of_nil|]. intros [-> Hlt]. cbn [fst snd] in Hlt. lia.
  - apply orb_false_iff in Hskip. rewrite !Z.leb_gt in Hskip.
    rewrite list_elem_of_singleton, !wrap64_small by (unfold in_u64; lia).
    replace (Z.max (ri_base i) (managed_base_ vm) - managed_base_ vm)
      with (Z.max (ri_base i - managed_base_ vm) 0) by lia.
    replace (Z.min (ri_base i + ri_size i) (managed_base_ vm + direct_capacity vm) - managed_base_ vm)
      with (Z.min (ri_base i + ri_size i - managed_base_ vm) (direct_capacity vm)) by lia.
    split; [|by intros [-> _]]. intros ->. split; [done|]. cbn [fst snd]. lia.
Qed.

Lemma blocked_ranges_wf vm :
  vm_wf vm -> 0 < direct_capacity vm ->
  blocked_wf (direct_blocked_ranges vm) /\
  forall r, r ∈ direct_blocked_ranges vm -> 0 <= r.1 < r.2 /\ r.2 <= direct_capacity vm.
Proof.
  intros Hw Hcap. destruct (partitions vm Hw) as (Hc & Hf & _ & _ & Hend & _).
  destruct (vw_managed vm Hw) as (H0 & H1 & H2 & _). destruct (vw_capacity vm Hw) as ((H3 & H4) & _).
  assert (forall r, r ∈ direct_blocked_ranges vm -> 0 <= r.1 < r.2 /\ r.2 <= direct_capacity vm) as Hr.
  { intros r [(e & He & ->)|(i & Hi & Ho)]%blocked_elem.
    - pose proof (aw_ok _ _ (vw_allocations vm Hw)) as Ha. rewrite Forall_forall in Ha.
      destruct (Ha e He) as (? & ? & ? & _). cbn. rewrite wrap64_small by (unfold in_u64; lia). lia.
    - pose proof (rl_bounded _ (regions_wf _ (proj1 (vw_space vm Hw)))) as Hb.
      rewrite Forall_forall in Hb. apply canonical_overlap_spec in Ho as [-> Hlt]; [|done|done|by apply Hb].
      cbn in *. lia. }
  split; [|done]. split.
  - pose proof (StronglySorted_merge_sort range_le
      (map (fun entry => (entry.1, wrap64 (entry.1 + da_size entry.2))) (direct_allocations_ vm)
       ++ (regions (memory_ vm) ≫= canonical_overlap vm))) as Hs.
    change (merge_sort _ _) with (direct_blocked_ranges vm) in Hs. revert Hs. clear.
    induction 1 as [|r l Hs IH Hr]; constructor; [done|].
    eapply Forall_impl; [exact Hr|]. unfold range_le. intros x. lia.
  - apply Forall_forall. intros r Hin. by apply Hr.
Qed.

(** A range is clear exactly when all its addresses are free. *)
Lemma clear_of_free vm b n :
  vm_wf vm -> 0 <= b -> 0 < n -> b + n <= direct_capacity vm ->
  clear_of (direct_blocked_ranges vm) b n <-> physical_free vm b n.
Proof.
  intros Hw Hb Hn Hc. assert (0 < direct_capacity vm) as Hcap0 by lia.
  destruct (blocked_ranges_wf vm Hw Hcap0) as [_ Hr].
  pose proof (proj1 (vw_space vm Hw)) as Hs. pose proof (regions_wf _ Hs) as Hl.
  pose proof (rl_bounded _ Hl) as Hbd. rewrite Forall_forall in Hbd.
  pose proof (aw_ok _ _ (vw_allocations vm Hw)) as Ha. rewrite Forall_forall in Ha.
  destruct (partitions vm Hw) as (Hcap & Hf & _ & _ & Hend & _).
  destruct (vw_managed vm Hw) as (H0 & H1 & H2 & _). destruct (vw_capacity vm Hw) as ((H3 & H4) & _).
  assert (forall e, e ∈ direct_allocations_ vm -> wrap64 (e.1 + da_size e.2) = e.1 + da_size e.2) as Hwr.
  { intros e He. destruct (Ha e He) as (? & ? & ? & _). apply wrap64_small. unfold in_u64. lia. }
  split.
  - intros Hcl p Hp. split.
    + apply type_at_None. intros e He. apply in_range_false.
      destruct (Hcl (e.1, wrap64 (e.1 + da_size e.2))) as [Hx|Hx];
        [apply blocked_elem; left; by exists e| |]; cbn in Hx; rewrite ?Hwr in Hx by done; lia.
    + rewrite cell_at_covering by done.
      rewrite (proj2 (covering_None (regions (memory_ vm)) _)); [done|]. intros i Hi.
      apply in_range_false. destruct (Hbd i Hi) as (Hi0 & Hi1 & Hi2).
      destruct (Z.le_gt_cases (ri_base i + ri_size i) (managed_base_ vm + p)); [lia|].
      destruct (Z.lt_ge_cases (managed_base_ vm + p) (ri_base i)); [lia|exfalso].
      set (r := (Z.max (ri_base i - managed_base_ vm) 0,
                 Z.min (ri_base i + ri_size i - managed_base_ vm) (direct_capacity vm))).
      assert (r ∈ direct_blocked_ranges vm) as Hin.
      { apply blocked_elem. right. exists i. split; [done|].
        apply canonical_overlap_spec; [done|done|by apply Hbd|]. split; [done|]. cbn. lia. }
      destruct (Hcl r Hin) as [Hx|Hx]; cbn in Hx; lia.
  - intros Hfree r Hin. destruct (Hr r Hin) as [[Hr0 Hr1] Hr2].
    destruct (Z.le_gt_cases r.2 b); [by left|]. destruct (Z.le_gt_cases (b + n) r.1); [by right|].
    exfalso. destruct (Hfree (Z.max b r.1) ltac:(lia)) as [Hty Hcell].
    apply blocked_elem in Hin as [(e & He & ->)|(i & Hi & Ho)].
    + rewrite type_at_None in Hty. specialize (Hty e He). apply in_range_false in Hty.
      cbn in *. rewrite Hwr in * by done. lia.
    + apply canonical_overlap_spec in Ho as [-> _]; [|done|done|by apply Hbd].
      rewrite cell_at_covering in Hcell by done. apply fmap_None in Hcell.
      rewrite covering_None in Hcell. specialize (Hcell i Hi). apply in_range_false in Hcell.
      cbn in *. lia.
Qed.

End Blocked.
