(* ===== verification/KernelVmDirect.v ===== *)
(** * Direct memory

    [allocate_direct_memory], [release_direct_memory] and [map_direct_memory]
    keep the invariant of [KernelVmInv]; their effect on every physical address
    and on every address of the guest. *)

From Stdlib Require Import Sorting.Sorted.
From S2P Require Import Prelude OrdMap NativeArena GuestMemory GuestMemoryProps KernelMem KernelAttrs KernelTime KernelFiles KernelFilesProps RegionList KernelVm KernelVmInv KernelVmFit.

Local Open Scope Z_scope.

(** ** Lists of allocations *)

Lemma allocations_tail capacity e l :
  allocations_wf capacity (e :: l) ->
  allocation_ok capacity e /\ allocations_wf capacity l /\
  forall x, x ∈ l -> allocation_before e x.
Proof.
  intros [Hs Ho]. apply StronglySorted_inv in Hs as [Hs He]. apply Forall_cons in Ho as [Hok Ho].
  split; [done|]. split; [by split|]. by rewrite Forall_forall in He.
Qed.

Lemma filter_all {A} (P : A -> Prop) `{forall x, Decision (P x)} (l : list A) :
  (forall x, x ∈ l -> P x) -> filter P l = l.
Proof.
  induction l as [|x l IH]; intros Hp; [done|]. rewrite filter_cons_True by (apply Hp; by left).
  f_equal. apply IH. intros y Hy. apply Hp. by right.
Qed.

(** Adding an allocation that meets no other. *)
Lemma oinsert_allocation capacity l k v :
  allocations_wf capacity l -> allocation_ok capacity (k, v) ->
  (forall e, e ∈ l -> e.1 + da_size e.2 <= k \/ k + da_size v <= e.1) ->
  allocations_wf capacity (oinsert k v l) /\
  forall p, type_at (oinsert k v l) p =
    if in_range k (da_size v) p then Some (da_memory_type v) else type_at l p.
Proof.
  intros Hl Hok. pose proof Hok as (Hk0 & Hk1 & _). cbn in Hk0, Hk1.
  induction l as [|[k' v'] l IH]; intros Hd; cbn [oinsert].
  { split; [|done]. split; [apply SSorted_cons; [apply SSorted_nil|by apply Forall_nil_2]|by apply Forall_singleton]. }
  pose proof (allocations_tail capacity _ l Hl) as (Hok' & Hl' & Hbefore).
  pose proof Hok' as (Hk0' & Hk1' & _). cbn in Hk0', Hk1'.
  assert (forall e, e ∈ l -> e.1 + da_size e.2 <= k \/ k + da_size v <= e.1) as Hd'
    by (intros e He; apply Hd; by right).
  pose proof (Hd (k', v') ltac:(by left)) as Hdk. cbn in Hdk.
  destruct (Z.ltb_spec k k'); [|destruct (Z.eqb_spec k k'); [lia|]].
  - split; [|done]. destruct Hl as [Hs Ho]. split; [|by constructor]. constructor; [done|].
    apply Forall_forall. intros e He. destruct (Hd e He) as [Hx|Hx]; [exfalso|exact Hx].
    apply elem_of_cons in He as [->|He]; cbn in *; [lia|].
    specialize (Hbefore e He). unfold allocation_before in Hbefore. cbn in Hbefore.
    destruct Hl' as [_ Ho']. rewrite Forall_forall in Ho'. destruct (Ho' e He) as (_ & ? & _). lia.
  - destruct (IH Hl' Hd') as [[Hs Ho] Hty]. split.
    + split; [|by constructor]. constructor; [done|]. apply Forall_forall.
      intros [kx vx] Hx. apply oinsert_elem in Hx as [[= -> ->]|Hx]; [|by apply Hbefore].
      unfold allocation_before. cbn. lia.
    + intros p. cbn [type_at]. rewrite Hty. unfold allocation_covers. cbn [fst snd].
      destruct (in_range k' (da_size v') p) eqn:E1; [|done]. apply in_range_true in E1.
      destruct (in_range k (da_size v) p) eqn:E2; [|done]. apply in_range_true in E2. lia.
Qed.

Lemma oemplace_allocation capacity l k v :
  allocations_wf capacity l -> allocation_ok capacity (k, v) ->
  (forall e, e ∈ l -> e.1 + da_size e.2 <= k \/ k + da_size v <= e.1) ->
  oemplace k v l = oinsert k v l /\ oerase k (oemplace k v l) = l.
Proof.
  intros Hl (Hk0 & Hk1 & _) Hd. cbn in Hk0, Hk1.
  pose proof (aw_ok _ _ Hl) as Ho. rewrite Forall_forall in Ho.
  assert (forall e, e ∈ l -> e.1 <> k) as Hne.
  { intros e He. destruct (Ho e He) as (_ & ? & _). destruct (Hd e He); lia. }
  assert (ofind k l = None) as Hf.
  { destruct (ofind k l) as [w|] eqn:E; [|done]. apply ofind_elem_of in E. by apply Hne in E. }
  unfold oemplace. rewrite Hf. split; [done|]. clear - Hne. unfold oerase.
  induction l as [|[k' v'] l IH]; cbn [oinsert].
  { rewrite filter_cons_False; [done|]. cbn. lia. }
  pose proof (Hne (k', v') ltac:(by left)) as Hk. cbn in Hk.
  destruct (Z.ltb_spec k k'); [|destruct (Z.eqb_spec k k'); [lia|]].
  - rewrite filter_cons_False by (cbn; lia). apply filter_all. intros e He. by apply Hne.
  - rewrite filter_cons_True by (cbn; lia). f_equal. apply IH. intros e He. apply Hne. by right.
Qed.

(** ** Mapping free pages succeeds *)

Section Success.
Context `{HostOs, !HostOsLaws H}.
Hypothesis granted : mprotect_granted.

(** Pages inside the arena. *)
Definition inside_arena (s : space) (base size : Z) : Prop :=
  forall arena, native_ s = Some arena ->
    arena_base arena <= base /\ base + size <= arena_base arena + arena_size arena /\
    base mod page_size = 0 /\ size mod page_size = 0.

Lemma kind_free_owner s a : kind_at s a = None -> space_wf s -> forall r, ~ owner (regions_ s) a r.
Proof.
  intros Hk Hs r Ho. destruct (at_owner s a r Hs Ho) as [Hc _]. unfold kind_at in Hk.
  by rewrite Hc in Hk.
Qed.

Lemma map_region_succeeds s i :
  space_ok s -> 0 <= ri_base i -> 0 < ri_size i -> ri_base i + ri_size i <= u64_max ->
  inside_arena s (ri_base i) (ri_size i) ->
  (forall a, region_covers i a = true -> kind_at s a = None) ->
  exists s', map_region s i = (true, s') /\ mapped s s' i.
Proof.
  intros Hok Hb Hz He Hin Hfree. pose proof (proj1 Hok) as Hs.
  assert (exists s', map_region s i = (true, s')) as [s' Hm].
  { assert (neighbours_clear (regions_ s) (ri_base i) (ri_base i + ri_size i) = true) as Hcl.
    { apply (neighbours_clear_free (native_ s)); [apply Hs|lia|]. intros a r Ha.
      apply kind_free_owner; [|done]. apply Hfree, in_range_true. lia. }
    unfold map_region, neighbours_clear in *.
    rewrite (proj2 (end_address_Some (ri_base i) (ri_size i) _))
      by (split_and!; [lia|lia|reflexivity]).
    apply andb_true_iff in Hcl as [->%negb_true_iff ->%negb_true_iff].
    destruct (native_ s) as [arena|] eqn:Hn; [|by eexists].
    destruct (Hin arena Hn) as (Hlo & Hhi & Hbm & Hzm). unfold arena_offset.
    destruct (Z.ltb_spec (ri_base i) (arena_base arena)); [lia|].
    destruct (Z.leb_spec (ri_base i - arena_base arena) (arena_size arena)); [|lia].
    destruct (Z.ltb_spec (arena_size arena - (ri_base i - arena_base arena)) (ri_size i)); [lia|].
    destruct (arena_protect_granted arena (host_ s) (ri_base i) (ri_size i) (ri_protection i))
      as (h' & -> & _); [done|by apply (wf_arena _ Hs)|done|done|done|done|done|]. by eexists. }
  exists s'. split; [done|].
  exact (map_region_mapped s i true s' granted Hok ltac:(unfold in_u64; lia) ltac:(unfold in_u64; lia) Hm).
Qed.

Lemma installed_inside s s' i :
  inside_arena s (ri_base i) (ri_size i) -> installed s s' i ->
  inside_arena s' (ri_base i) (ri_size i).
Proof. intros Hin Hi arena. rewrite (it_native _ _ _ Hi). apply Hin. Qed.

(** The same regions, as the services see them. *)
Definition same_regions (s s' : space) : Prop := forall i, i ∈ regions s' <-> i ∈ regions s.

Lemma same_regions_covering s s' a :
  space_wf s -> space_wf s' -> same_regions s s' -> covering (regions s') a = covering (regions s) a.
Proof.
  intros Hs Hs' Hr. apply option_eq. intros i.
  rewrite !covering_elem by (by apply regions_wf). specialize (Hr i). tauto.
Qed.

Lemma find_covering s a : space_wf s -> find s a = covering (regions s) a.
Proof.
  intros Hs. apply option_eq. intros i. rewrite covering_elem by (by apply regions_wf). split.
  - intros Hf. apply find_owner in Hf as (r & <- & Ho); [|done]. by apply owner_regions.
  - intros [(r & Hf & <-)%regions_elem Hc]; [|done]. unfold find.
    apply in_range_true in Hc.
    by rewrite (proj2 (find_region_owner (native_ s) _ _ _ (wf_map _ Hs)) (conj Hf Hc)).
Qed.

Lemma same_regions_writable s s' a n :
  space_wf s -> space_wf s' -> same_regions s s' -> guest_writable s' a n = guest_writable s a n.
Proof.
  intros Hs Hs' Hr. unfold guest_writable.
  by rewrite !find_covering, (same_regions_covering s s') by done.
Qed.

Lemma map_region_regions s i s' j :
  space_wf s -> space_wf s' -> region_bounded i -> map_region s i = (true, s') ->
  (forall a, region_covers i a = true -> cell_at s a = None) ->
  j ∈ regions s' <-> j = i \/ j ∈ regions s.
Proof.
  intros Hs Hs' (Hi0 & Hi1 & Hi2) Hm Hfree. pose proof (map_region_result _ _ _ _ Hm) as (_ & _ & _ & Ht).
  destruct (Ht eq_refl) as (Hnz & Hend & _ & Hregs & _).
  rewrite !regions_elem by done. rewrite Hregs.
  assert (forall r, ofind (ri_base i) (regions_ s) = Some r -> False) as Hnone.
  { intros w Hw. pose proof (wf_region _ _ (wf_map _ Hs) _ _ Hw) as [Hk _ Hp _ _].
    destruct (at_owner s (ri_base i) w Hs) as [Hc _].
    { unfold owner, covers. rewrite Hk. split; [done|lia]. }
    rewrite Hfree in Hc; [done|]. apply in_range_true. lia. }
  setoid_rewrite ofind_emplace; [|apply Hs]. split.
  - intros (r & Hf & <-). destruct (ofind (ri_base (info r)) (regions_ s)) as [w|] eqn:E.
    + right. exists w. split; [done|congruence].
    + case_decide; [|done]. left. by injection Hf as <-.
  - intros [->|(r & Hf & <-)].
    + exists (fresh_region (native_backed s) i). split; [|done].
      destruct (ofind (ri_base i) (regions_ s)) as [w|] eqn:E; [by destruct (Hnone w)|].
      by rewrite decide_True.
    + exists r. by rewrite Hf.
Qed.

(** The region is removed by [unmap] and nothing else changes. *)
Lemma unmap_region_succeeds s i :
  space_ok s -> has_region s (ri_base i) (ri_size i) -> inside_arena s (ri_base i) (ri_size i) ->
  exists s', unmap s (ri_base i) (ri_size i) = (true, s') /\
    emptied s s' (ri_base i) (ri_size i) /\
    forall j, j ∈ regions s' <-> j ∈ regions s /\ ri_base j <> ri_base i.
Proof.
  intros Hok (j & Hj & Hjb & Hjz) Hin. pose proof (proj1 Hok) as Hs.
  apply regions_elem in Hj as (r & Hf & <-); [|done].
  pose proof (wf_region _ _ (wf_map _ Hs) _ _ Hf) as [Hk Hb0 Hp He _].
  assert (exists s', unmap s (ri_base i) (ri_size i) = (true, s')) as [s' Hu].
  { unfold unmap. rewrite <- Hjb, <- Hjz, Hf, Z.eqb_refl. cbn [negb].
    destruct (native_ s) as [arena|] eqn:Hn; [|by eexists].
    destruct (Hin arena Hn) as (Hlo & Hhi & Hbm & Hzm). rewrite <- Hjb, <- Hjz in *.
    unfold arena_offset. destruct (Z.ltb_spec (ri_base (info r)) (arena_base arena)); [lia|].
    destruct (Z.leb_spec (ri_base (info r) - arena_base arena) (arena_size arena)); [|lia].
    destruct (arena_protect_granted arena (host_ s) (ri_base (info r)) (ri_size (info r)) prot_none)
      as (h' & -> & _); [done|by apply (wf_arena _ Hs)|done|done|done|done|done|]. by eexists. }
  exists s'. split; [done|].
  assert (space_ok s') as Hok'.
  { eapply (op_ok s (OpUnmap (ri_base i) (ri_size i))); [done|done| |cbn; by rewrite Hu].
    cbn. unfold in_u64. lia. }
  pose proof (unmap_result _ _ _ _ _ Hu) as (Hn & _ & _ & Ht).
  destruct (Ht eq_refl) as (r' & Hf' & Hrz & Hregs). split.
  2: { intros k. rewrite !regions_elem, Hregs by (done || apply Hok').
       setoid_rewrite ofind_erase; [|apply Hs]. case_decide; naive_solver. }
  split; [done|]. split; [done|]. intros a.
  assert (r' = r) as -> by (rewrite <- Hjb in Hf'; congruence).
  assert (forall x, owner (regions_ s') a x <-> owner (regions_ s) a x /\ ri_base (info x) <> ri_base i)
    as Hown.
  { intros x. unfold owner. rewrite Hregs, ofind_erase by apply Hs. case_decide; naive_solver. }
  destruct (in_range (ri_base i) (ri_size i) a) eqn:Ha.
  - apply in_range_true in Ha. apply at_no_owner; [apply Hok'|]. intros x [Ho Hne]%Hown.
    apply Hne. rewrite <- Hjb. do 2 f_equal. eapply (owner_unique (native_ s)); [apply Hs|done|].
    split; [by rewrite Hjb|unfold covers; lia].
  - apply in_range_false in Ha. destruct (owner_dec s a Hs) as [[x Ho]|Hno].
    + rewrite (proj1 (at_owner s a x Hs Ho)). apply at_owner; [apply Hok'|]. apply Hown. split; [done|].
      intros E. destruct Ho as [Hx Hc]. rewrite E, <- Hjb, Hf in Hx. unfold covers in Hc. simplify_eq. lia.
    + rewrite (proj1 (at_no_owner s a Hs Hno)). apply at_no_owner; [apply Hok'|].
      intros x [Ho _]%Hown. by apply (Hno x).
Qed.

(** Direct memory is cleared and left as it was. *)
Lemma initialise_direct_succeeds s canonical size :
  space_ok s -> 0 <= canonical -> 0 < size -> canonical + size <= u64_max ->
  inside_arena s canonical size ->
  (forall a, in_range canonical size a = true -> kind_at s a = None) ->
  exists s', initialise_direct s canonical size = Ok (true, s') /\ space_ok s' /\
    native_ s' = native_ s /\ same_regions s s'.
Proof.
  intros Hok Hb Hz He Hin Hfree. unfold initialise_direct, map_named.
  set (i := mkRegionInfo canonical size staging "direct-init" 0 0 kind_generic true 0).
  destruct (map_region_succeeds s i Hok Hb Hz He Hin Hfree) as (s1 & Hmap & Hm).
  rewrite Hmap. cbn [negb].
  pose proof (mp_ok _ _ _ Hm) as Hok1. pose proof (mp_in _ _ _ Hm) as Hin1.
  destruct (zero_keeps s1 canonical size Hok1) as (ok & s2 & Hzero & Hk2 & Hiff & Hst); [lia|].
  assert (store_ok true s1 canonical size) as Hstore.
  { apply regions_elem in Hin1 as (r & Hf & Hr); [|apply Hok1]. exists r.
    unfold in_region, owner, covers. rewrite Hr. split; [|done]. split; [|cbn; lia].
    split; [done|cbn; lia]. }
  rewrite Hzero, (proj2 Hiff Hstore) in *. cbn [mbind result_bind negb].
  specialize (Hst eq_refl). pose proof (kk_ok _ _ Hk2) as Hok2.
  assert (has_region s2 (ri_base i) (ri_size i)) as Hr2
    by (eapply stored_has_region; [apply Hok1|exact Hst|by exists i]).
  destruct (unmap_region_succeeds s2 i Hok2 Hr2) as (s3 & Hu & (Hok3 & Hn3 & _) & Hr3).
  { intros arena Hn. apply (Hin arena). by rewrite <- (mp_native _ _ _ Hm), <- (kk_native _ _ Hk2). }
  cbn in Hu. rewrite Hu. exists s3. split; [done|]. split; [done|].
  split; [by rewrite Hn3, (kk_native _ _ Hk2), (mp_native _ _ _ Hm)|].
  assert (forall a, region_covers i a = true -> cell_at s a = None) as Hfree'.
  { intros a Ha. specialize (Hfree a Ha). unfold kind_at in Hfree. by destruct (cell_at s a). }
  destruct Hst as (_ & Hinf & _). intros j. rewrite Hr3.
  assert (j ∈ regions s2 <-> j ∈ regions s1) as ->.
  { split; apply same_infos_regions; try done; try apply Hok1; try apply Hok2. intros k. symmetry. apply Hinf. }
  rewrite (map_region_regions s i s1 j (proj1 Hok) (proj1 Hok1) (mp_bounded _ _ _ Hm) Hmap Hfree').
  split; [intros [[->|Hj] Hne]; [by destruct Hne|done]|]. intros Hj. split; [by right|]. intros E.
  apply regions_elem in Hj as (r & Hf & <-); [|apply Hok].
  pose proof (wf_region _ _ (wf_map _ (proj1 Hok)) _ _ Hf) as [_ _ Hp _ _].
  destruct (at_owner s (ri_base (info r)) r (proj1 Hok)) as [Hc _]; [split; [done|unfold covers; lia]|].
  rewrite Hfree' in Hc; [done|]. rewrite E. apply in_range_true. cbn. lia.
Qed.

End Success.

(** ** Allocation *)

Section Direct.
Context `{HostOs, !HostOsLaws H}.
Hypothesis granted : mprotect_granted.
Hypothesis guest_pages : kGuestPageSize mod page_size = 0.

Lemma good_alignment alignment :
  in_u64 alignment -> bad_alignment alignment = false ->
  0 < default_alignment alignment /\
  forall b, b mod default_alignment alignment = 0 -> b mod kGuestPageSize = 0.
Proof.
  unfold bad_alignment, default_alignment, in_u64. intros Ha.
  destruct (Z.eqb_spec alignment 0); cbn [negb andb]; [by intros _|].
  rewrite orb_false_iff, Z.ltb_ge, negb_false_iff, Z.eqb_eq. intros [Hge Hm].
  split; [unfold kGuestPageSize in Hge; lia|]. intros b [q ->]%Z.mod_divide; [|done].
  by rewrite Zmult_mod, Hm, Z.mul_0_r.
Qed.

(** A word was stored for the guest, if it could be. *)
Record word_stored (s s' : space) (a v : Z) : Prop := {
  ws_ok : space_ok s';
  ws_native : native_ s' = native_ s;
  ws_cell b : cell_at s' b = cell_at s b;
  ws_read : guest_writable s a 8 = true -> read_guest_u64 s' a = Some v;
  ws_apart b : words_apart a b -> read_guest_u64 s' b = read_guest_u64 s b;
  ws_writable b n : guest_writable s' b n = guest_writable s b n;
}.

Lemma guest_word_stored s a v :
  space_ok s -> in_u64 v -> exists s',
    write_guest_u64 s a v = Ok (guest_writable s a 8, s') /\ word_stored s s' a v.
Proof.
  intros Hs Hv. destruct (@gw_write64_ok space space_guest_words space_guest_words_laws s a v Hs Hv)
    as (ok & s' & Hw & Heff & Hrd).
  assert (ok = guest_writable s a 8) as -> by exact (se_ok _ _ _ _ _ Heff).
  assert (write_guest_u64 s a v = Ok (guest_writable s a 8, s')) as Hw' by exact Hw.
  exists s'. split; [done|].
  assert (native_ s' = native_ s /\ forall b, cell_at s' b = cell_at s b) as [Hn Hc].
  { unfold write_guest_u64 in Hw'. clear Hw.
    destruct (guest_writable s a 8) eqn:Hgw; cbn [negb] in Hw'; [|by injection Hw' as <-].
    split; [by eapply write_native|].
    destruct (write_spec s a (le_encode 8 v) true s' (proj1 Hs) ltac:(done) Hw') as (_ & Ht & _).
    intros b. by apply Ht. }
  split; [exact (se_wf _ _ _ _ _ Heff)|done|done|exact Hrd|exact (se_other _ _ _ _ _ Heff)|
    exact (se_writable _ _ _ _ _ Heff)].
Qed.

(** An aligned range of the search window that is free. *)
Definition allocation_fit (vm : Vm) (search_start search_end size alignment b : Z) : Prop :=
  search_start <= b /\ b + size <= Z.min search_end (direct_capacity vm) /\
  b mod default_alignment alignment = 0 /\ physical_free vm b size.

(** The arguments the call refuses. *)
Definition allocate_refused (vm : Vm)
    (search_start search_end size alignment memory_type physical_address_out : Z) : bool :=
  negb (guest_writable (memory_ vm) physical_address_out 8) || (search_start <? 0)
  || (search_end <? 0) || (search_end <=? search_start) || (size =? 0)
  || negb (size mod kGuestPageSize =? 0) || bad_alignment alignment || (memory_type <? 0).

(** The physical addresses a canonical mapping may use. *)
Lemma canonical_pages vm p n :
  vm_wf vm -> 0 <= p -> 0 < n -> p + n <= direct_capacity vm -> p mod kGuestPageSize = 0 ->
  n mod kGuestPageSize = 0 ->
  direct_virtual_address vm p = managed_base_ vm + p /\
  inside_arena (memory_ vm) (direct_virtual_address vm p) n /\
  0 <= direct_virtual_address vm p /\ direct_virtual_address vm p + n <= u64_max.
Proof.
  intros Hw Hp Hn Hc Hpm Hnm. destruct (partitions vm Hw) as (Hcap & _ & _ & _ & _ & Hva).
  destruct (vw_managed vm Hw) as (H0 & H1 & H2 & H3 & _). destruct (vw_capacity vm Hw) as ((H4 & H5) & _).
  rewrite Hva by lia. split; [done|]. split; [|lia]. intros arena Ha.
  destruct (vw_native vm Hw ltac:(lia)) as (arena' & Ha' & Hlo & Hhi).
  rewrite Ha in Ha'. injection Ha' as <-. split; [lia|]. split; [lia|].
  split; apply (host_pages guest_pages); [|done]. by rewrite Zplus_mod, H3, Hpm.
Qed.

Lemma with_allocations_wf vm allocations :
  vm_wf vm -> allocations_wf (direct_capacity vm) allocations ->
  vm_wf (with_allocations vm allocations).
Proof. intros [Hs Hm Hn Hc Hu Hp Ha] Ha'. by split. Qed.

Lemma allocation_fits vm search_start search_end size alignment b :
  vm_wf vm -> 0 <= search_start -> 0 < size ->
  size <= Z.min search_end (direct_capacity vm) - Z.min search_start (direct_capacity vm) ->
  fits (Z.min search_start (direct_capacity vm)) (Z.min search_end (direct_capacity vm)) size
    (default_alignment alignment) (direct_blocked_ranges vm) b
  <-> allocation_fit vm search_start search_end size alignment b.
Proof.
  intros Hw Hss Hz Hroom. unfold fits, allocation_fit. split; intros (Hb1 & Hb2 & Hb3 & Hb4);
    (split_and!; [lia|done|done|]); apply clear_of_free; done || lia.
Qed.

(** A free range meets no allocation. *)
Lemma free_disjoint vm base size e :
  vm_wf vm -> physical_free vm base size -> 0 < size -> e ∈ direct_allocations_ vm ->
  e.1 + da_size e.2 <= base \/ base + size <= e.1.
Proof.
  intros Hw Hfree Hz He. pose proof (aw_ok _ _ (vw_allocations vm Hw)) as Ho.
  rewrite Forall_forall in Ho. destruct (Ho e He) as (? & ? & _).
  destruct (Z.le_gt_cases (e.1 + da_size e.2) base); [by left|].
  destruct (Z.le_gt_cases (base + size) e.1); [by right|exfalso].
  destruct (Hfree (Z.max base e.1)) as [Hty _]; [lia|].
  rewrite type_at_None in Hty. specialize (Hty e He). apply in_range_false in Hty. lia.
Qed.

(** The call with a fit. *)
Lemma allocate_direct_memory_fit vm base size memory_type out :
  vm_wf vm -> 0 <= base -> 0 < size -> base + size <= direct_capacity vm ->
  base mod kGuestPageSize = 0 -> size mod kGuestPageSize = 0 -> physical_free vm base size ->
  guest_writable (memory_ vm) out 8 = true ->
  exists s1 s2, initialise_direct (memory_ vm) (direct_virtual_address vm base) size = Ok (true, s1) /\
    write_guest_u64 s1 out base = Ok (true, s2) /\
    let vm' := with_allocations (with_memory vm s2)
                 (oemplace base (mkDirectAllocation size memory_type) (direct_allocations_ vm)) in
    vm_wf vm' /\
    (forall p, type_at (direct_allocations_ vm') p =
       if in_range base size p then Some memory_type else type_at (direct_allocations_ vm) p) /\
    (forall a, cell_at (memory_ vm') a = cell_at (memory_ vm) a) /\
    (forall a n, guest_writable (memory_ vm') a n = guest_writable (memory_ vm) a n) /\
    read_guest_u64 (memory_ vm') out = Some base.
Proof.
  intros Hw Hb0 Hz Hbc Hbm Hzm Hfree Hwr. pose proof (vw_space vm Hw) as Hok.
  destruct (canonical_pages vm base size Hw Hb0 Hz Hbc Hbm Hzm) as (Hva & Hin & Hv0 & Hve).
  destruct (initialise_direct_succeeds granted (memory_ vm) (direct_virtual_address vm base) size)
    as (s1 & Hinit & Hok1 & Hn1 & Hr1); [done|done|done|done|done| |].
  { intros a Ha%in_range_true. unfold kind_at. rewrite Hva in Ha.
    destruct (Hfree (a - managed_base_ vm)) as [_ Hc]; [lia|].
    replace (managed_base_ vm + (a - managed_base_ vm)) with a in Hc by lia. by rewrite Hc. }
  assert (forall a, cell_at s1 a = cell_at (memory_ vm) a) as Hc1.
  { intros a. rewrite !cell_at_covering by (apply Hok1 || apply Hok).
    by rewrite (same_regions_covering (memory_ vm) s1 a (proj1 Hok) (proj1 Hok1) Hr1). }
  destruct (guest_word_stored s1 out base Hok1) as (s2 & Hwrite & [Hok2 Hn2 Hc2 Hrd _ Hwr2]);
    [destruct (partitions vm Hw) as (? & _); destruct (vw_managed vm Hw) as (? & ? & ? & _);
     destruct (vw_capacity vm Hw) as (? & _); unfold in_u64; lia|].
  rewrite (same_regions_writable (memory_ vm) s1 out 8 (proj1 Hok) (proj1 Hok1) Hr1), Hwr in *.
  exists s1, s2. split; [done|]. split; [done|].
  assert (allocation_ok (direct_capacity vm) (base, mkDirectAllocation size memory_type)) as Haok
    by (split_and!; cbn; done || lia).
  pose proof (vw_allocations vm Hw) as Haw.
  pose proof (fun e => free_disjoint vm base size e Hw Hfree Hz) as Hd.
  destruct (oemplace_allocation _ _ base _ Haw Haok Hd) as [-> _].
  destruct (oinsert_allocation _ _ base _ Haw Haok Hd) as [Haw' Hty'].
  split; [|split; [exact Hty'|split; [intros a; cbn; by rewrite Hc2|split; [|by apply Hrd]]]].
  2: { intros a n. cbn. rewrite Hwr2. by apply same_regions_writable; [apply Hok|apply Hok1|]. }
  apply (with_allocations_wf (with_memory vm s2)); [|done]. apply vm_kinds; [done|].
  apply kinds_of_cells; [done|congruence|]. intros a. by rewrite Hc2.
Qed.

Lemma allocate_direct_memory_cases vm search_start search_end size alignment memory_type out :
  vm_wf vm -> in_u64 size -> in_u64 alignment -> in_i64 search_end ->
  let call := allocate_direct_memory vm search_start search_end size alignment memory_type out in
  let fit := allocation_fit vm search_start search_end size alignment in
  if allocate_refused vm search_start search_end size alignment memory_type out
  then call = Ok (error kErrorEinval, vm)
  else
    (exists base vm', fit base /\ (forall b, fit b -> base <= b) /\ call = Ok (0, vm') /\ vm_wf vm' /\
       managed_base_ vm' = managed_base_ vm /\ direct_capacity vm' = direct_capacity vm /\
       (forall p, type_at (direct_allocations_ vm') p =
          if in_range base size p then Some (to_i32 memory_type)
          else type_at (direct_allocations_ vm) p) /\
       (forall a, cell_at (memory_ vm') a = cell_at (memory_ vm) a) /\
       (forall a n, guest_writable (memory_ vm') a n = guest_writable (memory_ vm) a n) /\
       read_guest_u64 (memory_ vm') out = Some base) \/
    ((forall b, ~ fit b) /\ exists code, (code = kErrorEagain \/ code = kErrorEnomem) /\
       call = Ok (error code, vm)).
Proof.
  intros Hw Hz Hal Hse call fit. unfold call, allocate_direct_memory, allocate_refused.
  destruct (negb _ || _ || _ || _ || _ || _ || _ || _) eqn:Hbad; [done|].
  rewrite !orb_false_iff, !negb_false_iff, !Z.ltb_ge, Z.leb_gt, Z.eqb_neq, Z.eqb_eq in Hbad.
  destruct Hbad as (((((((Hwr & Hss) & Hse0) & Hlt) & Hz0) & Hzm) & Hgood) & Hmt).
  destruct (good_alignment alignment Hal Hgood) as [Hal0 Halm].
  destruct (partitions vm Hw) as (Hcap & _ & _ & _ & Hend & _).
  destruct (vw_managed vm Hw) as (H0 & H1 & H2 & H3 & _). destruct (vw_capacity vm Hw) as ((H4 & H5) & _).
  unfold in_u64, in_i64 in *. set (start := Z.min search_start _). set (end_ := Z.min search_end _).
  destruct ((end_ <=? start) || (end_ - start <? size)) eqn:Hroom.
  { right. split; [|by exists kErrorEagain; split; [left|]]. intros b (Hb1 & Hb2 & _).
    rewrite orb_true_iff, Z.leb_le, Z.ltb_lt in Hroom. unfold start, end_ in *. lia. }
  rewrite orb_false_iff, Z.leb_gt, Z.ltb_ge in Hroom.
  assert (0 < direct_capacity vm) as Hcap0 by (unfold start, end_ in *; lia).
  destruct (blocked_ranges_wf vm Hw Hcap0) as [Hbw _].
  pose proof (first_fit_spec start end_ size (default_alignment alignment) (direct_blocked_ranges vm)
    Hbw ltac:(unfold start; lia) ltac:(lia) Hal0 ltac:(unfold end_; lia)) as Hff.
  pose proof (fun b => allocation_fits vm search_start search_end size alignment b Hw Hss
    ltac:(lia) ltac:(lia)) as Hfit.
  destruct (first_fit _ _ _ _ _) as [code|base].
  { right. destruct Hff as [Hnone Hcode]. split; [intros b Hb; by apply (Hnone b), Hfit|].
    exists code. split; [tauto|done]. }
  left. destruct Hff as [Hbase Hleast]. apply Hfit in Hbase.
  destruct Hbase as (Hb1 & Hb2 & Hb3 & Hfree).
  destruct (allocate_direct_memory_fit vm base size (to_i32 memory_type) out)
    as (s1 & s2 & -> & Hwrite & Hw' & Hty & Hc & Hwb & Hrd); [done|lia|lia|lia|by apply Halm|done|done|done|].
  cbn [mbind result_bind negb]. rewrite Hwrite. cbn [mbind result_bind negb].
  exists base. eexists. split; [by split_and!|]. split; [intros b Hb; by apply Hleast, Hfit|].
  split; [done|]. by split_and!.
Qed.

End Direct.
