(* ===== verification/KernelVmRelease.v ===== *)
(** * Releasing direct memory

    [release_direct_memory] removes from the allocations exactly the physical
    addresses of the range, cutting the allocations it meets, and unmaps exactly
    the canonical addresses of what was allocated; when it refuses, nothing
    changes. *)

From Stdlib Require Import Sorting.Sorted.
From S2P Require Import Prelude OrdMap NativeArena GuestMemory GuestMemoryProps KernelMem KernelAttrs KernelTime KernelFiles KernelFilesProps RegionList KernelVm KernelVmInv KernelVmFit KernelVmDirect.

Local Open Scope Z_scope.

(** ** What remains of the allocations *)

(** Adding an allocation behind the others. *)
Lemma append_allocation capacity l k v :
  allocations_wf capacity l -> allocation_ok capacity (k, v) ->
  (forall e, e ∈ l -> e.1 + da_size e.2 <= k) ->
  allocations_wf capacity (oemplace k v l) /\
  (forall a, type_at (oemplace k v l) a =
     if in_range k (da_size v) a then Some (da_memory_type v) else type_at l a) /\
  forall e, e ∈ oemplace k v l -> e.1 + da_size e.2 <= k + da_size v.
Proof.
  intros Hl Hok Hb. pose proof Hok as (_ & Hz & _). cbn in Hz.
  assert (forall e, e ∈ l -> e.1 + da_size e.2 <= k \/ k + da_size v <= e.1) as Hd
    by (intros e He; left; by apply Hb).
  destruct (oemplace_allocation _ _ k v Hl Hok Hd) as [-> _].
  destruct (oinsert_allocation _ _ k v Hl Hok Hd) as [Hw Ht]. split; [done|]. split; [done|].
  intros [k' v'] [[= -> ->]|He]%oinsert_elem; [cbn; lia|]. specialize (Hb _ He). cbn in *. lia.
Qed.

(** A segment of the partition: pages, not empty. *)
Definition segment_ok (capacity : Z) (segment : Z * Z) : Prop :=
  0 <= segment.1 < segment.2 /\ segment.2 <= capacity /\
  segment.1 mod kGuestPageSize = 0 /\ segment.2 mod kGuestPageSize = 0.

Definition in_segments (segments : list (Z * Z)) (a : Z) : Prop :=
  exists segment, segment ∈ segments /\ segment.1 <= a < segment.2.

Lemma in_segments_app segments segments' a :
  in_segments (segments ++ segments') a <-> in_segments segments a \/ in_segments segments' a.
Proof. unfold in_segments. setoid_rewrite elem_of_app. naive_solver. Qed.

Lemma in_segments_one segment a : in_segments [segment] a <-> segment.1 <= a < segment.2.
Proof. unfold in_segments. setoid_rewrite list_elem_of_singleton. naive_solver. Qed.

(** A piece that may be empty, behind the allocations there are. *)
Lemma append_piece capacity allocations start stop type :
  allocations_wf capacity allocations -> 0 <= start -> stop <= capacity ->
  start mod kGuestPageSize = 0 -> stop mod kGuestPageSize = 0 ->
  (forall e, e ∈ allocations -> e.1 + da_size e.2 <= start) ->
  let allocations' :=
    if start <? stop then oemplace start (mkDirectAllocation (stop - start) type) allocations else allocations in
  allocations_wf capacity allocations' /\
  (forall limit, (forall e, e ∈ allocations -> e.1 + da_size e.2 <= limit) -> (start < stop -> stop <= limit) ->
    forall e, e ∈ allocations' -> e.1 + da_size e.2 <= limit) /\
  forall a, type_at allocations' a =
    if in_range start (stop - start) a then Some type else type_at allocations a.
Proof.
  intros Hn H0 Hc Hbm Hsm Hb. cbv zeta. destruct (Z.ltb_spec start stop).
  - edestruct (append_allocation capacity allocations start (mkDirectAllocation (stop - start) type) Hn)
      as (Hx & Hy & Hz); [split_and!; cbn; auto; try lia|exact Hb|].
    + by rewrite Zminus_mod, Hbm, Hsm.
    + cbn in *. split; [done|]. split; [|done].
      intros limit _ Hl e He. specialize (Hz e He). lia.
  - split; [done|]. split; [by intros limit Hl _|]. intros a.
    by rewrite (proj2 (in_range_false _ _ a)) by lia.
Qed.

(** A segment is added, or lengthens the last one. *)
Lemma segment_added capacity segments begin_ end_ :
  Forall (segment_ok capacity) segments -> segment_ok capacity (begin_, end_) ->
  let segments' := match last segments with
    | Some (first, second) =>
        if second =? begin_ then take (length segments - 1) segments ++ [(first, end_)]
        else segments ++ [(begin_, end_)]
    | None => [(begin_, end_)]
    end in
  Forall (segment_ok capacity) segments' /\
  forall a, in_segments segments' a <-> in_segments segments a \/ begin_ <= a < end_.
Proof.
  intros Hs Hok. destruct (last segments) as [[first second]|] eqn:Hl; cbn zeta.
  2: { apply last_None in Hl as ->. split; [by apply Forall_singleton|].
       intros a. rewrite in_segments_one. cbn. split; [tauto|]. intros [(x & ?%elem_of_nil & _)|?]; done. }
  apply last_Some in Hl as (l & ->). destruct (Z.eqb_spec second begin_) as [->|_].
  - replace (length (l ++ [(first, begin_)]) - 1)%nat with (length l)
      by (rewrite length_app; cbn; lia). rewrite take_app_length.
    apply Forall_app in Hs as [Hs Hlast]. rewrite Forall_singleton in Hlast.
    destruct Hlast as (H1 & H2 & H3 & H4), Hok as (H5 & H6 & H7 & H8). cbn in *. split.
    + apply Forall_app. split; [done|]. apply Forall_singleton. split_and!; cbn; done || lia.
    + intros a. rewrite !in_segments_app, !in_segments_one. cbn.
      assert (first <= a < end_ <-> first <= a < begin_ \/ begin_ <= a < end_) by lia. tauto.
  - split; [by apply Forall_app; split; [|apply Forall_singleton]|].
    intros a. rewrite in_segments_app, in_segments_one. done.
Qed.

Section Fold.
Variables capacity address release_end : Z.
Hypothesis window : 0 <= address < release_end /\ release_end <= capacity /\ capacity <= u64_max.
Hypothesis pages : address mod kGuestPageSize = 0 /\ release_end mod kGuestPageSize = 0.

Notation inside := (in_range address (release_end - address)).

Lemma release_allocation_spec next segments base allocation :
  allocations_wf capacity next -> Forall (segment_ok capacity) segments ->
  allocation_ok capacity (base, allocation) ->
  (forall e, e ∈ next -> e.1 + da_size e.2 <= base) ->
  let '(next', segments') :=
    release_allocation address release_end (next, segments) (base, allocation) in
  allocations_wf capacity next' /\ Forall (segment_ok capacity) segments' /\
  (forall e, e ∈ next' -> e.1 + da_size e.2 <= base + da_size allocation) /\
  (forall a, type_at next' a =
     if negb (inside a) && in_range base (da_size allocation) a then Some (da_memory_type allocation)
     else type_at next a) /\
  forall a, in_segments segments' a <->
    in_segments segments a \/ inside a = true /\ in_range base (da_size allocation) a = true.
Proof.
  intros Hn Hs Hok Hb. pose proof Hok as (H0 & Hz & Hc & Hbm & Hzm). cbn in H0, Hz, Hc, Hbm, Hzm.
  destruct window as (Hw1 & Hw2 & Hw3), pages as [Hp1 Hp2].
  cbn [release_allocation]. rewrite wrap64_small by (unfold in_u64; lia).
  assert ((base + da_size allocation) mod kGuestPageSize = 0) as Hem
    by (rewrite Zplus_mod, Hbm, Hzm; done).
  destruct (_ || _) eqn:Hout.
  { rewrite orb_true_iff, !Z.leb_le in Hout.
    destruct (append_allocation _ _ base allocation Hn Hok Hb) as (Hn' & Ht & He).
    split; [done|]. split; [done|]. split; [done|]. split.
    - intros a. rewrite Ht. destruct (in_range base _ a) eqn:E1; rewrite ?andb_false_r; [|done].
      apply in_range_true in E1. by rewrite (proj2 (in_range_false _ _ a)) by lia.
    - intros a. rewrite !in_range_true. split; [by left|]. intros [?|?]; [done|lia]. }
  rewrite orb_false_iff, !Z.leb_gt in Hout.
  set (end_ := base + da_size allocation) in *.
  assert (segment_ok capacity (Z.max base address, Z.min end_ release_end)) as Hseg.
  { split_and!; cbn; [lia|lia|lia| |].
    - destruct (Z.max_spec base address) as [[_ ->]|[_ ->]]; done.
    - destruct (Z.min_spec end_ release_end) as [[_ ->]|[_ ->]]; done. }
  destruct (segment_added capacity segments _ _ Hs Hseg) as [Hs' Hin].
  destruct (append_piece capacity next base address (da_memory_type allocation) Hn) as (Hl & Hle & Hlt);
    [lia|lia|done|done|exact Hb|].
  set (left := if base <? address then _ else _) in *.
  specialize (Hle release_end ltac:(intros e He; specialize (Hb e He); lia) ltac:(lia)) as Hle1.
  specialize (Hle end_ ltac:(intros e He; specialize (Hb e He); lia) ltac:(lia)).
  destruct (append_piece capacity left release_end end_ (da_memory_type allocation) Hl) as (Hr & Hre & Hrt);
    [lia|lia|done|done|exact Hle1|].
  specialize (Hre end_ Hle ltac:(lia)).
  split; [done|]. split; [done|]. split; [done|]. split.
  - intros a. rewrite Hrt, Hlt.
    destruct (inside a) eqn:E1; [apply in_range_true in E1|apply in_range_false in E1]; cbn [negb andb].
    + by rewrite !(proj2 (in_range_false _ _ a)) by lia.
    + destruct (in_range base (da_size allocation) a) eqn:E2;
        [apply in_range_true in E2|apply in_range_false in E2].
      * destruct (in_range release_end _ a) eqn:E3; [done|]. apply in_range_false in E3.
        by rewrite (proj2 (in_range_true _ _ a)) by lia.
      * by rewrite !(proj2 (in_range_false _ _ a)) by lia.
  - intros a. rewrite Hin, !in_range_true.
    assert (Z.max base address <= a < Z.min end_ release_end <->
      address <= a < address + (release_end - address) /\ base <= a < base + da_size allocation)
      by (unfold end_; lia). tauto.
Qed.

Lemma release_fold_spec l next segments :
  allocations_wf capacity l -> allocations_wf capacity next -> Forall (segment_ok capacity) segments ->
  (forall e x, e ∈ next -> x ∈ l -> e.1 + da_size e.2 <= x.1) ->
  let '(next', segments') := foldl (release_allocation address release_end) (next, segments) l in
  allocations_wf capacity next' /\ Forall (segment_ok capacity) segments' /\
  (forall a, type_at next' a =
     match type_at l a with
     | Some t => if inside a then type_at next a else Some t
     | None => type_at next a
     end) /\
  forall a, in_segments segments' a <->
    in_segments segments a \/ inside a = true /\ type_at l a <> None.
Proof.
  revert next segments. induction l as [|[base allocation] l IH]; intros next segments Hl Hn Hs Hb.
  { cbn. split; [done|]. split; [done|]. split; [done|]. tauto. }
  pose proof (allocations_tail capacity _ l Hl) as (Hok & Hl' & Hbefore).
  pose proof (release_allocation_spec next segments base allocation Hn Hs Hok
    (fun e He => Hb e _ He ltac:(by left))) as Hstep.
  cbn [foldl]. destruct (release_allocation _ _ _ _) as [next1 segments1].
  destruct Hstep as (Hn1 & Hs1 & He1 & Ht1 & Hi1).
  specialize (IH next1 segments1 Hl' Hn1 Hs1).
  destruct (foldl _ _ l) as [next' segments']. destruct IH as (Hn' & Hs' & Ht' & Hi').
  { intros e x He Hx. specialize (He1 e He). specialize (Hbefore x Hx).
    unfold allocation_before in Hbefore. cbn in Hbefore. lia. }
  assert (forall a, in_range base (da_size allocation) a = true -> type_at l a = None) as Hnone.
  { intros a Ha%in_range_true. apply type_at_None. intros x Hx. apply in_range_false.
    specialize (Hbefore x Hx). unfold allocation_before in Hbefore. cbn in Hbefore. lia. }
  split; [done|]. split; [done|]. split.
  - intros a. rewrite Ht', Ht1. cbn [type_at]. unfold allocation_covers. cbn [fst snd].
    destruct (in_range base _ a) eqn:E; [rewrite (Hnone a E), andb_true_r|rewrite andb_false_r; done].
    by destruct (inside a).
  - intros a. rewrite Hi', Hi1. cbn [type_at]. unfold allocation_covers. cbn [fst snd].
    destruct (in_range base _ a) eqn:E; [rewrite (Hnone a E)|]; naive_solver.
Qed.

(** From nothing: the range is removed, and the segments are what it met. *)
Lemma release_all l :
  allocations_wf capacity l ->
  let '(next, segments) := foldl (release_allocation address release_end) ([], []) l in
  allocations_wf capacity next /\ Forall (segment_ok capacity) segments /\
  (forall a, type_at next a = if inside a then None else type_at l a) /\
  forall a, in_segments segments a <-> inside a = true /\ type_at l a <> None.
Proof.
  intros Hl. assert (allocations_wf capacity []) as Hnil by (split; [apply SSorted_nil|by apply Forall_nil_2]).
  pose proof (release_fold_spec l [] [] Hl Hnil (Forall_nil_2 _)) as Hf.
  destruct (foldl _ _ l) as [next segments].
  destruct Hf as (H1 & H2 & H3 & H4); [by intros e x ?%elem_of_nil|].
  split; [done|]. split; [done|]. split.
  - intros a. rewrite H3. cbn. by destruct (type_at l a), (inside a).
  - intros a. rewrite H4. split; [intros [(x & ?%elem_of_nil & _)|?]; done|tauto].
Qed.

End Fold.

(** ** Ranges that are allocated *)

Lemma allocation_reaches_spec capacity cursor end_ l :
  allocations_wf capacity l -> capacity <= u64_max -> cursor < end_ ->
  allocation_reaches cursor end_ l = true <->
  forall a, cursor <= a < end_ -> type_at l a <> None.
Proof.
  intros Hl Hcap. revert cursor. induction l as [|[base allocation] l IH]; intros cursor Hlt.
  { cbn. split; [done|]. intros Hn. by destruct (Hn cursor). }
  pose proof (allocations_tail capacity _ l Hl) as (Hok & Hl' & Hbefore). specialize (IH Hl').
  destruct Hok as (H0 & Hz & Hc & _). cbn in H0, Hz, Hc. cbn [allocation_reaches type_at].
  assert (forall a, a < base + da_size allocation -> type_at l a = None) as Hnone.
  { intros a Ha. apply type_at_None. intros x Hx. apply in_range_false.
    specialize (Hbefore x Hx). unfold allocation_before in Hbefore. cbn in Hbefore. lia. }
  destruct (Z.ltb_spec cursor base).
  { split; [done|]. intros Hn. destruct (Hn cursor); [lia|]. unfold allocation_covers. cbn [fst snd].
    rewrite (proj2 (in_range_false _ _ cursor)) by lia. apply Hnone. lia. }
  destruct (Z.ltb_spec (u64_max - da_size allocation) base); [lia|].
  unfold allocation_covers. cbn [fst snd].
  destruct (Z.leb_spec (base + da_size allocation) cursor).
  - rewrite IH by done. split; intros Hn a Ha; specialize (Hn a Ha); revert Hn;
      by rewrite (proj2 (in_range_false _ _ a)) by lia.
  - destruct (Z.eqb_spec (Z.min end_ (base + da_size allocation)) end_).
    + split; [|done]. intros _ a Ha. by rewrite (proj2 (in_range_true _ _ a)) by lia.
    + rewrite IH by lia. split; intros Hn a Ha.
      * destruct (in_range base _ a) eqn:E; [done|]. apply in_range_false in E. apply Hn. lia.
      * specialize (Hn a ltac:(lia)). revert Hn. by rewrite (proj2 (in_range_false _ _ a)) by lia.
Qed.

Section Queries.
Context `{HostOs}.

Lemma direct_range_has_allocation_spec vm base size :
  vm_wf vm -> 0 <= base -> 0 <= size -> direct_range_has_allocation vm base size = true <->
  0 < size /\ base + size <= direct_capacity vm /\
  forall p, base <= p < base + size -> type_at (direct_allocations_ vm) p <> None.
Proof.
  intros Hw Hb Hz. unfold direct_range_has_allocation.
  destruct (partitions vm Hw) as (Hcap & _). destruct (vw_managed vm Hw) as (? & ? & ? & _).
  destruct (vw_capacity vm Hw) as ((? & ?) & _).
  destruct (_ || _ || _) eqn:Hbad.
  - rewrite !orb_true_iff, !Z.ltb_lt, Z.eqb_eq in Hbad. split; [done|]. lia.
  - rewrite !orb_false_iff, !Z.ltb_ge, Z.eqb_neq in Hbad. rewrite wrap64_small by (unfold in_u64; lia).
    rewrite (allocation_reaches_spec (direct_capacity vm)) by (apply Hw || lia).
    split; [intros ?; split_and!; [lia|lia|done]|by intros (_ & _ & ?)].
Qed.

(** The allocations a range meets, and their type. *)
Lemma common_type_spec capacity base end_ found l :
  allocations_wf capacity l -> capacity <= u64_max -> base < end_ ->
  forall t, common_type base end_ found l = Some t <->
  (forall a, base <= a < end_ -> forall u, type_at l a = Some u -> u = t) /\
  match found with
  | Some t0 => t0 = t
  | None => exists a, base <= a < end_ /\ type_at l a <> None
  end.
Proof.
  intros Hl Hcap Hlt t. revert found. induction l as [|[b v] l IH]; intros found; cbn [common_type type_at].
  { destruct found; [naive_solver|]. split; [done|]. by intros [_ (a & _ & ?)]. }
  pose proof (allocations_tail capacity _ l Hl) as (Hok & Hl' & Hbefore). specialize (IH Hl').
  destruct Hok as (H0 & Hz & Hc & _). cbn in H0, Hz, Hc. rewrite wrap64_small by (unfold in_u64; lia).
  unfold allocation_covers. cbn [fst snd].
  assert (forall a, in_range b (da_size v) a = true -> type_at l a = None) as Hnone.
  { intros a Ha%in_range_true. apply type_at_None. intros x Hx. apply in_range_false.
    specialize (Hbefore x Hx). unfold allocation_before in Hbefore. cbn in Hbefore. lia. }
  destruct (_ || _) eqn:Hout.
  { rewrite orb_true_iff, !Z.leb_le in Hout. rewrite IH.
    assert (forall a, base <= a < end_ -> in_range b (da_size v) a = false) as Hno
      by (intros a Ha; apply in_range_false; lia).
    split; (intros [Hall Hf]; split; [intros a Ha; specialize (Hall a Ha); revert Hall; by rewrite Hno|];
      destruct found; [done|]; destruct Hf as (a & Ha & Hf); exists a; split; [done|]; revert Hf;
      by rewrite Hno). }
  rewrite orb_false_iff, !Z.leb_gt in Hout.
  assert (base <= Z.max b base < end_ /\ in_range b (da_size v) (Z.max b base) = true) as [Hm1 Hm2]
    by (rewrite in_range_true; lia).
  assert (forall t0, t0 = da_memory_type v ->
    common_type base end_ (Some t0) l = Some t <->
    (forall a, base <= a < end_ -> forall u,
       (if in_range b (da_size v) a then Some (da_memory_type v) else type_at l a) = Some u -> u = t) /\
    t0 = t) as Hgo.
  { intros t0 ->. rewrite IH. split; intros [Hall <-]; (split; [|done]); intros a Ha u Hu.
    - destruct (in_range b _ a); [congruence|by apply (Hall a)].
    - apply (Hall a Ha u). destruct (in_range b _ a) eqn:E; [|done]. by rewrite (Hnone a E) in Hu. }
  destruct found as [t0|].
  - destruct (Z.eqb_spec t0 (da_memory_type v)) as [->|Hne]; cbn [negb]; [by apply Hgo|].
    split; [done|]. intros [Hall <-]. specialize (Hall _ Hm1). rewrite Hm2 in Hall.
    by specialize (Hall _ eq_refl).
  - rewrite Hgo by done. split; (intros [Hall Hf]; split; [done|]).
    + exists (Z.max b base). by rewrite Hm2.
    + specialize (Hall _ Hm1). rewrite Hm2 in Hall. by apply Hall.
Qed.

Lemma direct_range_covered_spec vm base size t :
  vm_wf vm -> 0 <= base -> 0 <= size -> direct_range_covered vm base size = Some t <->
  0 < size /\ base + size <= direct_capacity vm /\
  forall p, base <= p < base + size -> type_at (direct_allocations_ vm) p = Some t.
Proof.
  intros Hw Hb Hz. unfold direct_range_covered.
  pose proof (direct_range_has_allocation_spec vm base size Hw Hb Hz) as Hhas.
  destruct (direct_range_has_allocation vm base size); cbn [negb].
  - destruct (proj1 Hhas eq_refl) as (Hp & Hc & Hall).
    destruct (partitions vm Hw) as (Hcap & _). destruct (vw_managed vm Hw) as (? & ? & ? & _).
    destruct (vw_capacity vm Hw) as ((? & ?) & _). rewrite wrap64_small by (unfold in_u64; lia).
    rewrite (common_type_spec (direct_capacity vm)) by (apply Hw || lia). split.
    + intros [Hone _]. split; [done|]. split; [done|]. intros p Hpr. specialize (Hall p Hpr).
      specialize (Hone p Hpr). destruct (type_at _ p) as [u|]; [|done]. by rewrite (Hone u).
    + intros (_ & _ & Ht). split; [|exists base; split; [lia|apply Hall; lia]].
      intros a Ha u Hu. specialize (Ht a Ha). congruence.
  - split; [done|]. intros (H1 & H2 & Ht). exfalso. apply Bool.diff_false_true, Hhas. split; [done|]. split; [done|].
    intros p Hp. by rewrite Ht.
Qed.

End Queries.

(** ** Unmapping whole pages *)

Section Pages.
Context `{HostOs, !HostOsLaws H}.
Hypothesis granted : mprotect_granted.

(** In a native space, the regions that meet a range are whole pages. *)
Definition whole_pages (s : space) (base size : Z) : Prop :=
  native_ s <> None -> forall i, i ∈ regions s ->
    base < ri_base i + ri_size i -> ri_base i < base + size -> ri_size i mod page_size = 0.

Lemma mod_sub a b n : a mod n = 0 -> b mod n = 0 -> (a - b) mod n = 0.
Proof. intros Ha Hb. rewrite Zminus_mod, Ha, Hb. apply Zmod_0_l. Qed.

Lemma mod_add a b n : a mod n = 0 -> b mod n = 0 -> (a + b) mod n = 0.
Proof. intros Ha Hb. rewrite Zplus_mod, Ha, Hb. apply Zmod_0_l. Qed.

Lemma native_region_base s r :
  space_wf s -> native_ s <> None -> ofind (ri_base (info r)) (regions_ s) = Some r ->
  ri_base (info r) mod page_size = 0.
Proof.
  intros Hs Hn Hf. pose proof (wf_backed _ _ _ (wf_region _ _ (wf_map _ Hs) _ _ Hf)) as Hb.
  destruct (native_ s); [apply Hb|done].
Qed.

Lemma unmap_range_pages s base size :
  space_wf s -> 0 < size -> base + size <= u64_max -> base mod page_size = 0 -> size mod page_size = 0 ->
  whole_pages s base size -> exists s', unmap_range s base size = (true, s').
Proof.
  intros Hs Hz He Hbm Hzm Hw. apply unmap_range_succeeds; [done..|]. intros i Hn Hi Hlo Hhi.
  pose proof (Hw Hn i Hi Hlo Hhi) as Him. apply regions_elem in Hi as (r & Hf & <-); [|done].
  pose proof (native_region_base s r Hs Hn Hf) as Hrm.
  assert (Z.max base (ri_base (info r)) mod page_size = 0) as Hmax
    by (destruct (Z.max_spec base (ri_base (info r))) as [[_ ->]|[_ ->]]; done).
  split; [done|]. apply mod_sub; [|done].
  destruct (Z.min_spec (base + size) (ri_base (info r) + ri_size (info r))) as [[_ ->]|[_ ->]];
    by apply mod_add.
Qed.

(** What is left are regions of before, and pieces cut at pages. *)
Lemma unmap_range_keeps_pages s base size s' lo n :
  space_wf s -> 0 < size -> base mod page_size = 0 -> size mod page_size = 0 ->
  unmap_range s base size = (true, s') -> whole_pages s lo n -> whole_pages s' lo n.
Proof.
  intros Hs Hz Hbm Hzm Hu Hw Hn i Hi Hlo Hhi.
  assert (space_wf s') as Hs' by (apply (unmap_range_cells s base size); [done|lia|done]).
  apply unmap_range_result in Hu as (Hna & _ & _ & Ht).
  destruct (Ht eq_refl) as (end_ & Hend & Hr & Hcut). rewrite Hna in Hn.
  apply end_address_Some in Hend as (_ & _ & ->).
  apply regions_elem in Hi as (p & Hf & <-); [|done]. rewrite Hr in Hf.
  apply (ofind_rebuild (native_ s)) in Hf; [|apply Hs|apply unmapped_ok; [done|lia|done]].
  destruct Hf as [Hp|[Hf _]].
  2: { apply (Hw Hn (info p)); [apply regions_elem; [done|by exists p]|done|done]. }
  apply unmapped_pieces in Hp as (r & Hf & _ & Hpi & _ & _ & Hc); [|apply Hs|lia].
  pose proof (native_region_base s r Hs Hn Hf) as Hrm. destruct Hpi as [_ _ Hne Hfrom Hto].
  destruct Hc as [(Hk & Hcut1 & _)|(Hk & Hcut1 & _)].
  - replace (ri_size (info p)) with (base - ri_base (info r)) by lia. by apply mod_sub.
  - assert (ri_size (info r) mod page_size = 0) as Hrz
      by (apply (Hw Hn (info r)); [apply regions_elem; [done|by exists r]|lia|lia]).
    replace (ri_size (info p)) with ((ri_base (info r) + ri_size (info r)) - (base + size)) by lia.
    by apply mod_sub; apply mod_add.
Qed.

End Pages.

(** ** The call *)

Section Release.
Context `{HostOs, !HostOsLaws H}.
Hypothesis granted : mprotect_granted.
Hypothesis guest_pages : kGuestPageSize mod page_size = 0.

(** The canonical addresses of a list of segments are emptied; after a failure,
    only some of them. *)
Definition segments_emptied (base : Z) (segments : list (Z * Z)) (ok : bool) (s s' : space) : Prop :=
  space_ok s' /\ native_ s' = native_ s /\
  forall a, cell_at s' a = cell_at s a \/
    (cell_at s' a = None /\ in_segments segments (a - base)).

Lemma unmap_segments_spec vm s segments ok s' :
  vm_wf vm -> space_ok s -> native_ s = native_ (memory_ vm) ->
  Forall (segment_ok (direct_capacity vm)) segments ->
  unmap_segments vm s segments = (ok, s') ->
  segments_emptied (managed_base_ vm) segments ok s s' /\
  (ok = true -> forall a, in_segments segments (a - managed_base_ vm) -> cell_at s' a = None) /\
  (whole_pages s (managed_base_ vm) (direct_capacity vm) -> ok = true).
Proof.
  intros Hw. revert s. induction segments as [|[b e] segments IH]; intros s Hs Hn Hsegs.
  { cbn. intros [= <- <-]. split; [split; [done|]; split; [done|by left]|]. split; [|done].
    by intros _ a (x & ?%elem_of_nil & _). }
  apply Forall_cons in Hsegs as [(Hb & He & Hbm & Hem) Hsegs]. cbn in Hb, He, Hbm, Hem.
  destruct (canonical_pages guest_pages vm b (e - b) Hw) as (Hva & Hin & Hv0 & Hve);
    [lia|lia|lia|done|by apply mod_sub|].
  rewrite Hva in *. cbn [unmap_segments]. rewrite Hva.
  pose proof (vw_managed vm Hw) as (Hm0 & _ & _ & Hmm & _).
  assert ((managed_base_ vm + b) mod page_size = 0) as Hbp
    by (apply (host_pages guest_pages), mod_add; done).
  assert ((e - b) mod page_size = 0) as Hzp by (by apply (host_pages guest_pages), mod_sub).
  destruct (unmap_range s _ _) as [ok1 s1] eqn:Hu.
  assert (forall a, in_range (managed_base_ vm + b) (e - b) a = true <->
            in_segments [(b, e)] (a - managed_base_ vm)) as Hseg.
  { intros a. rewrite in_range_true, in_segments_one. cbn. lia. }
  assert (forall a, in_segments ((b, e) :: segments) a <->
            in_segments [(b, e)] a \/ in_segments segments a) as Hcons
    by (intros a; apply (in_segments_app [(b, e)] segments a)).
  pose proof Hu as Hu'. apply unmap_range_emptied in Hu'; [|done|done|unfold in_u64; lia..].
  destruct ok1.
  - intros Hrest. destruct Hu' as (Hs1 & Hn1 & Hc1).
    destruct (IH s1 Hs1 ltac:(congruence) Hsegs Hrest) as ((Hs' & Hn' & Hc') & Ht & Hpg).
    split; [split; [done|split; [congruence|]]|split].
    + intros a. destruct (Hc' a) as [Ha|[Ha Hi]].
      * rewrite Ha, Hc1. destruct (in_range _ _ a) eqn:E; [right|by left].
        split; [done|]. apply Hcons. left. by apply Hseg.
      * right. split; [done|]. apply Hcons. by right.
    + intros -> a [Hi|Hi]%Hcons; [|by apply Ht]. destruct (Hc' a) as [Ha|[Ha _]]; [|done].
      rewrite Ha, Hc1. by apply Hseg in Hi as ->.
    + intros Hwp. apply Hpg. by apply (unmap_range_keeps_pages s (managed_base_ vm + b) (e - b) s1);
        [apply Hs|lia|..].
  - intros [= <- <-]. destruct Hu' as [Hk Hr]. split; [|split; [done|]].
    + split; [apply Hk|]. split; [apply Hk|]. intros a. left. by apply same_regions_cells.
    + intros Hwp. destruct (unmap_range_pages granted s (managed_base_ vm + b) (e - b))
        as [s2 Hu2]; [apply Hs|lia|lia|done|done| |congruence].
      intros Hnn i Hi H1 H2. apply (Hwp Hnn i Hi); lia.
Qed.

(** An allocated physical address of the range. *)
Definition released (vm : Vm) (address size p : Z) : bool :=
  in_range address size p && isSome (type_at (direct_allocations_ vm) p).

(** A region that is not direct memory's own is mapped at a released address. *)
Definition foreign_mapping (vm : Vm) (address size : Z) : Prop :=
  exists i p, i ∈ regions (memory_ vm) /\ released vm address size p = true /\
    region_covers i (managed_base_ vm + p) = true /\ foreign_region vm i = true.

Lemma segments_foreign vm address size segments :
  vm_wf vm -> Forall (segment_ok (direct_capacity vm)) segments ->
  (forall p, in_segments segments p <-> released vm address size p = true) ->
  existsb (segment_foreign vm) segments = true <-> foreign_mapping vm address size.
Proof.
  intros Hw Hsegs Hin. rewrite existsb_exists. unfold foreign_mapping, segment_foreign.
  setoid_rewrite existsb_exists. setoid_rewrite <- Hin.
  setoid_rewrite <- list_elem_of_In. setoid_rewrite andb_true_iff.
  pose proof (vw_managed vm Hw) as (Hm0 & Hm1 & Hm2 & _). destruct (partitions vm Hw) as (Hcap & _ & _ & _ & _ & Hva).
  destruct (vw_capacity vm Hw) as ((? & ?) & _).
  pose proof (rl_bounded _ (regions_wf _ (proj1 (vw_space vm Hw)))) as Hbd.
  rewrite Forall_forall in Hsegs. rewrite Forall_forall in Hbd. split.
  - intros ([b e] & Hs & i & Hi & Ho & Hf). destruct (Hsegs _ Hs) as (Hb & He & _). cbn in *.
    rewrite Hva in Ho by lia. apply ranges_overlap_spec in Ho; [|by apply Hbd|lia|lia].
    exists i, (Z.max b (ri_base i - managed_base_ vm)). split; [done|]. split; [exists (b, e)|split; [|done]].
    + split; [done|]. cbn. lia.
    + destruct (Hbd i Hi) as (? & ? & _). apply andb_true_iff, in_range_true. lia.
  - intros (i & p & Hi & ([b e] & Hs & Hp) & Hc%andb_true_iff%in_range_true & Hf).
    destruct (Hsegs _ Hs) as (Hb & He & _). cbn in *.
    exists (b, e). split; [done|]. exists i. cbn. split; [done|]. split; [|done]. rewrite Hva by lia.
    apply ranges_overlap_spec; [by apply Hbd|lia..].
Qed.

Lemma in_segments_range vm segments p :
  Forall (segment_ok (direct_capacity vm)) segments -> in_segments segments p ->
  0 <= p < direct_capacity vm.
Proof.
  rewrite Forall_forall. intros Hs ([b e] & Hx & Hp). destruct (Hs _ Hx) as (? & ? & _). cbn in *. lia.
Qed.

(** No flexible address is in the direct partition. *)
Lemma direct_not_flexible vm a :
  vm_wf vm -> 0 <= a - managed_base_ vm < direct_capacity vm -> flexible_at (memory_ vm) a = false.
Proof.
  intros Hw Ha. destruct (flexible_at (memory_ vm) a) eqn:E; [|done].
  apply (vw_partition vm Hw) in E. destruct (partitions vm Hw) as (? & ? & _). lia.
Qed.

Lemma segments_emptied_wf vm segments ok s' :
  vm_wf vm -> Forall (segment_ok (direct_capacity vm)) segments ->
  segments_emptied (managed_base_ vm) segments ok (memory_ vm) s' -> vm_wf (with_memory vm s').
Proof.
  intros Hw Hsegs (Hs' & Hn' & Hc). apply vm_memory; [done|done|done|]. intros a.
  destruct (Hc a) as [Ha|[Ha Hi]]; [unfold flexible_at, kind_at; by rewrite Ha|].
  apply (in_segments_range vm) in Hi; [|done]. rewrite (direct_not_flexible vm a Hw Hi).
  unfold flexible_at, kind_at. by rewrite Ha.
Qed.

(** The arguments the call refuses. *)
Definition release_refused (vm : Vm) (address size : Z) : bool :=
  negb (address mod kGuestPageSize =? 0) || negb (size mod kGuestPageSize =? 0)
  || (direct_capacity vm <? address) || (direct_capacity vm - address <? size).

(** What a release leaves. *)
Record release_effect (vm vm' : Vm) (address size : Z) : Prop := {
  re_type p : type_at (direct_allocations_ vm') p =
    if in_range address size p then None else type_at (direct_allocations_ vm) p;
  re_cell a : cell_at (memory_ vm') a =
    if released vm address size (a - managed_base_ vm) then None else cell_at (memory_ vm) a;
}.

(** A failure may have unmapped some of the range, never anything else. *)
Record release_failure (vm vm' : Vm) (address size : Z) : Prop := {
  rf_allocations : direct_allocations_ vm' = direct_allocations_ vm;
  rf_cell a : cell_at (memory_ vm') a = cell_at (memory_ vm) a \/
    (cell_at (memory_ vm') a = None /\ released vm address size (a - managed_base_ vm) = true);
  rf_pages : ~ whole_pages (memory_ vm) (managed_base_ vm) (direct_capacity vm);
}.

Lemma release_direct_memory_cases vm address size checked v vm' :
  vm_wf vm -> in_u64 address -> in_u64 size ->
  release_direct_memory vm address size checked = (v, vm') ->
  vm_wf vm' /\ managed_base_ vm' = managed_base_ vm /\ direct_capacity vm' = direct_capacity vm /\
  if size =? 0 then v = 0 /\ vm' = vm
  else if release_refused vm address size then v = error kErrorEinval /\ vm' = vm
  else if checked && negb (direct_range_has_allocation vm address size)
  then v = error kErrorEnoent /\ vm' = vm
  else
    ((forall p, released vm address size p = false) /\ v = 0 /\ vm' = vm) \/
    (foreign_mapping vm address size /\ v = error kErrorEnotsup /\ vm' = vm) \/
    (~ foreign_mapping vm address size /\ v = 0 /\ release_effect vm vm' address size) \/
    (~ foreign_mapping vm address size /\ v = error kErrorEnomem /\
     release_failure vm vm' address size).
Proof.
  intros Hw Ha Hz. unfold release_direct_memory.
  destruct (Z.eqb_spec size 0) as [->|Hz0]; [by intros [= <- <-]|].
  fold (release_refused vm address size).
  destruct (release_refused vm address size) eqn:Href; [by intros [= <- <-]|].
  destruct (checked && _) eqn:Hck; [by intros [= <- <-]|].
  unfold release_refused in Href. rewrite !orb_false_iff, !negb_false_iff, !Z.eqb_eq, !Z.ltb_ge in Href.
  destruct Href as (((Ham & Hzm) & Hac) & Hzc).
  pose proof (vw_managed vm Hw) as (Hm0 & Hm1 & Hm2 & _). destruct (partitions vm Hw) as (Hcap & _).
  destruct (vw_capacity vm Hw) as ((? & ?) & _). unfold in_u64 in *.
  rewrite wrap64_small by (unfold in_u64; lia).
  pose proof (release_all (direct_capacity vm) address (address + size) ltac:(lia)
    (conj Ham (mod_add _ _ _ Ham Hzm)) _ (vw_allocations vm Hw)) as Hrel.
  destruct (foldl _ _ _) as [next segments]. destruct Hrel as (Hnext & Hsegs & Hty & Hin).
  rewrite Z.add_simpl_l in *.
  assert (forall p, in_segments segments p <-> released vm address size p = true) as Hrin.
  { intros p. rewrite Hin. unfold released. rewrite andb_true_iff.
    destruct (type_at (direct_allocations_ vm) p); cbn [isSome]; naive_solver. }
  case_bool_decide as Hnil.
  { intros [= <- <-]. split_and!; [done..|]. left. split; [|done]. intros p.
    destruct (released vm address size p) eqn:E; [|done]. apply Hrin in E as (x & Hx & _).
    rewrite Hnil in Hx. by apply elem_of_nil in Hx. }
  pose proof (segments_foreign vm address size segments Hw Hsegs Hrin) as Hfor.
  destruct (existsb _ _) eqn:Hex.
  { intros [= <- <-]. split_and!; [done..|]. right. left. split; [by apply Hfor|done]. }
  assert (~ foreign_mapping vm address size) as Hnf by (intros Hx%Hfor; done).
  destruct (unmap_segments _ _ _) as [ok s'] eqn:Hu.
  apply unmap_segments_spec in Hu as (He & Ht & Hpg); [|done|apply Hw|done|done].
  pose proof (segments_emptied_wf vm segments ok s' Hw Hsegs He) as Hw'.
  destruct He as (_ & _ & Hc). destruct ok; cbn [negb]; intros [= <- <-].
  - split; [by apply (with_allocations_wf (with_memory vm s'))|]. split; [done|]. split; [done|].
    right. right. left. split; [done|]. split; [done|]. split; [exact Hty|]. intros a. cbn.
    destruct (released vm address size (a - managed_base_ vm)) eqn:E.
    + by apply Ht, Hrin.
    + destruct (Hc a) as [?|[_ Hi%Hrin]]; [done|congruence].
  - split; [done|]. split; [done|]. split; [done|]. right. right. right. split; [done|]. split; [done|].
    split; [done| |].
    + intros a. cbn. destruct (Hc a) as [?|[? Hi%Hrin]]; [by left|by right].
    + intros Hwp. by specialize (Hpg Hwp).
Qed.

End Release.
