(* ===== verification/KernelVmMap.v ===== *)
(** * Mapping memory

    The effect of [map_direct_memory], [map_flexible_memory], [map_memory] and
    [unmap_memory] on every address of the guest. *)

From Stdlib Require Import Sorting.Sorted Strings.String.
From S2P Require Import Prelude OrdMap NativeArena GuestMemory GuestMemoryProps KernelMem KernelAttrs KernelTime KernelFiles KernelFilesProps RegionList KernelVm KernelVmInv KernelVmFit KernelVmDirect KernelVmRelease.

Local Open Scope Z_scope.

Section Map.
Context `{HostOs, !HostOsLaws H}.
Hypothesis granted : mprotect_granted.
Hypothesis guest_pages : kGuestPageSize mod page_size = 0.

(** Nothing changes outside a range. *)
Definition unchanged_outside (s s' : space) (base size : Z) : Prop :=
  forall a, in_range base size a = false -> cell_at s' a = cell_at s a.

Lemma unchanged_refl s base size : unchanged_outside s s base size.
Proof. by intros a _. Qed.

Lemma unchanged_trans s1 s2 s3 base size :
  unchanged_outside s1 s2 base size -> unchanged_outside s2 s3 base size ->
  unchanged_outside s1 s3 base size.
Proof. intros H12 H23 a Ha. by rewrite H23, H12. Qed.

Lemma emptied_unchanged s s' base size : emptied s s' base size -> unchanged_outside s s' base size.
Proof. intros (_ & _ & Hc) a Ha. by rewrite Hc, Ha. Qed.

(** ** Direct memory *)

(** The canonical mapping changes no flexible address. *)
Lemma vm_direct_changed vm s' physical size :
  vm_wf vm -> space_ok s' -> native_ s' = native_ (memory_ vm) ->
  0 <= physical -> physical + size <= direct_capacity vm ->
  unchanged_outside (memory_ vm) s' (managed_base_ vm + physical) size ->
  (forall a, in_range (managed_base_ vm + physical) size a = true -> flexible_at s' a = false) ->
  vm_wf (with_memory vm s').
Proof.
  intros Hw Hs Hn Hp Hc Hout Hin. apply vm_memory; [done..|]. intros a.
  destruct (in_range (managed_base_ vm + physical) size a) eqn:E.
  - rewrite Hin by done. symmetry. apply direct_not_flexible; [done|]. apply in_range_true in E. lia.
  - unfold flexible_at, kind_at. by rewrite Hout.
Qed.

Lemma direct_obstacles_spec vm canonical size flags found l :
  match direct_obstacles vm canonical size flags found l with
  | inl code => (code = kErrorEnomem \/ code = kErrorEnotsup) /\
      exists i, i ∈ l /\ ranges_overlap canonical size i = true
  | inr found' => found = true -> found' = true
  end /\
  ((forall i, i ∈ l -> ranges_overlap canonical size i = false) ->
   direct_obstacles vm canonical size flags found l = inr found) /\
  (direct_obstacles vm canonical size flags found l = inr false ->
   forall i, i ∈ l -> ranges_overlap canonical size i = false).
Proof.
  revert found. induction l as [|i l IH]; intros found; cbn [direct_obstacles].
  { split; [done|]. split; [done|]. by intros _ i ?%elem_of_nil. }
  destruct (ranges_overlap canonical size i) eqn:Ho; cbn [negb].
  - assert ((forall j, j ∈ i :: l -> ranges_overlap canonical size j = false) -> False) as Hno.
    { intros Hall. specialize (Hall i ltac:(by left)). congruence. }
    assert (exists j, j ∈ i :: l /\ ranges_overlap canonical size j = true) as Hex
      by (exists i; split; [by left|done]).
    destruct (flag_set _ _); [|destruct (foreign_region _ _)].
    1-2: (split; [split; [tauto|done]|]; split; [intros Hall; by destruct (Hno Hall)|done]).
    destruct (IH true) as (H1 & _ & H3). split; [|split].
    + destruct (direct_obstacles _ _ _ _ _ _); [by split; [apply H1|]|]. intros _. by apply H1.
    + intros Hall. by destruct (Hno Hall).
    + intros E. rewrite E in H1. by specialize (H1 eq_refl).
  - destruct (IH found) as (H1 & H2 & H3). split; [|split].
    + destruct (direct_obstacles _ _ _ _ _ _); [|done].
      destruct H1 as (? & j & ? & ?). split; [done|]. exists j. split; [by right|done].
    + intros Hall. apply H2. intros j Hj. apply Hall. by right.
    + intros E j [->|Hj]%elem_of_cons; [done|]. by apply H3.
Qed.

(** Regions that do not overlap leave the range free. *)
Lemma no_overlap_free s base size a :
  space_wf s -> 0 < size -> base + size <= u64_max ->
  (forall i, i ∈ regions s -> ranges_overlap base size i = false) ->
  in_range base size a = true -> kind_at s a = None.
Proof.
  intros Hs Hz He Hno. pose proof (rl_bounded _ (regions_wf s Hs)) as Hbd. rewrite Forall_forall in Hbd.
  apply free_range; [done|]. intros i Hi. specialize (Hno i Hi).
  apply not_true_iff_false in Hno. rewrite (ranges_overlap_spec _ _ i (Hbd i Hi)) in Hno by done. lia.
Qed.

(** A store of a word through a region mapped before. *)
Lemma mapped_writable s i s' a n :
  space_wf s -> space_wf s' -> region_bounded i -> map_region s i = (true, s') ->
  (forall b, region_covers i b = true -> cell_at s b = None) ->
  guest_writable s a n = true -> guest_writable s' a n = true.
Proof.
  intros Hs Hs' Hi Hm Hfree. unfold guest_writable. destruct (n =? 0); [done|].
  destruct (find s a) as [r|] eqn:Hf; [|done]. rewrite find_covering in Hf by done.
  apply covering_elem in Hf as [Hr Hc]; [|by apply regions_wf].
  assert (find s' a = Some r) as ->; [|done]. rewrite find_covering by done.
  apply covering_elem; [by apply regions_wf|]. split; [|done].
  apply (map_region_regions s i s' r Hs Hs' Hi Hm Hfree). by right.
Qed.

(** The arguments the call refuses. *)
Definition map_direct_refused (vm : Vm) (slot size protection flags physical alignment : Z) : bool :=
  negb (guest_writable (memory_ vm) slot 8) || (physical <? 0) || (size =? 0)
  || negb (size mod kGuestPageSize =? 0) || bad_alignment alignment
  || unknown_bits flags kDirectMapFlags || flag_set protection 0x04.

(** The mapping the call makes. *)
Record direct_mapped (vm vm' : Vm) (slot : Z) (i : RegionInfo) : Prop := {
  dm_cell a : cell_at (memory_ vm') a =
    if region_covers i a then Some (cell_of i a) else cell_at (memory_ vm) a;
  dm_slot : read_guest_u64 (memory_ vm') slot = Some (ri_base i);
}.

(** The end of the call: the region is mapped in place of what was there. *)
Lemma direct_installed vm s slot i :
  vm_wf vm -> vm_wf (with_memory vm s) -> native_ s = native_ (memory_ vm) ->
  ri_base i = managed_base_ vm + ri_offset i -> 0 <= ri_offset i ->
  0 < ri_size i -> ri_offset i + ri_size i <= direct_capacity vm -> ri_kind i = kind_direct ->
  ri_offset i mod kGuestPageSize = 0 -> ri_size i mod kGuestPageSize = 0 ->
  unchanged_outside (memory_ vm) s (ri_base i) (ri_size i) ->
  (forall a, region_covers i a = true -> kind_at s a = None) ->
  exists s1 ok s2, map_region s i = (true, s1) /\ write_guest_u64 s1 slot (ri_base i) = Ok (ok, s2) /\
    (guest_writable s slot 8 = true -> ok = true) /\
    let s' := if ok then s2 else (unmap_range s2 (ri_base i) (ri_size i)).2 in
    vm_wf (with_memory vm s') /\
    if ok then direct_mapped vm (with_memory vm s') slot i
    else unchanged_outside (memory_ vm) s' (ri_base i) (ri_size i).
Proof.
  intros Hw Hws Hns Hbase Hp Hz Hcap Hkind Hpm Hzm Hout Hfree.
  pose proof (vw_space _ Hws) as Hok. cbn in Hok.
  destruct (canonical_pages guest_pages vm (ri_offset i) (ri_size i) Hw Hp Hz Hcap Hpm Hzm)
    as (Hva & Hin & Hv0 & Hve). rewrite Hva, <- Hbase in *.
  destruct (map_region_succeeds granted s i Hok) as (s1 & Hm & Hmp); [lia|lia|lia| |done|].
  { intros arena Ha. apply (Hin arena). congruence. }
  pose proof (mp_ok _ _ _ Hmp) as Hok1.
  destruct (guest_word_stored s1 slot (ri_base i) Hok1) as (s2 & Hwr & [Hok2 Hn2 Hc2 Hrd _ _]);
    [unfold in_u64; lia|].
  exists s1, (guest_writable s1 slot 8), s2. split; [done|]. split; [done|].
  split.
  { apply (mapped_writable s i s1); [apply Hok|apply Hok1|apply Hmp|done|].
    intros b Hb. specialize (Hfree b Hb). unfold kind_at in Hfree. by destruct (cell_at s b). }
  assert (forall a, cell_at s2 a =
    if region_covers i a then Some (cell_of i a) else cell_at (memory_ vm) a) as Hcells.
  { intros a. rewrite Hc2, (mp_cell _ _ _ Hmp). destruct (region_covers i a) eqn:E; [done|].
    by apply Hout. }
  assert (native_ s2 = native_ (memory_ vm)) as Hn by (rewrite Hn2, (mp_native _ _ _ Hmp); done).
  assert (vm_wf (with_memory vm s2)) as Hw2.
  { apply (vm_direct_changed vm s2 (ri_offset i) (ri_size i)); [done..| |]; rewrite <- Hbase.
    - intros a Ha. rewrite Hcells. unfold region_covers. by rewrite Ha.
    - intros a Ha. unfold flexible_at, kind_at. rewrite Hcells. unfold region_covers. rewrite Ha.
      apply bool_decide_false. cbn. by rewrite Hkind. }
  destruct (guest_writable s1 slot 8); cbn zeta.
  - split; [done|]. split; [done|]. by apply Hrd.
  - assert (installed s s2 i) as Hinst.
    { apply (installed_keeps s s1 s2 i); [by apply mapped_installed| |].
      - apply kinds_of_cells; [done|done|done].
      - intros (j & Hj & Hjb & Hjz). revert Hwr. unfold write_guest_u64. intros Hwr.
        assert (s2 = s1) as ->; [|by exists j].
        destruct (guest_writable s1 slot 8); cbn [negb] in Hwr; [|congruence].
        destruct (write_spec s1 slot (le_encode 8 (ri_base i)) false s2 (proj1 Hok1) ltac:(done) Hwr)
          as (_ & _ & Hf). by apply Hf. }
    destruct (unmap_installed s s2 i granted Hinst) as (s3 & Hu & Hk3);
      [by apply (host_pages guest_pages)|]. rewrite Hu. cbn [snd].
    pose proof Hu as (_ & _ & Hc3)%unmap_range_emptied; [|done|done|unfold in_u64; lia..].
    assert (unchanged_outside (memory_ vm) s3 (ri_base i) (ri_size i)) as Hout3.
    { intros a Ha. rewrite Hc3, Ha, Hcells. unfold region_covers. by rewrite Ha. }
    split; [|done]. apply (vm_direct_changed vm s3 (ri_offset i) (ri_size i));
      [done|apply Hk3|rewrite (kk_native _ _ Hk3); done|done|done|by rewrite <- Hbase|].
    intros a Ha. unfold flexible_at, kind_at. rewrite Hc3, Hbase, Ha. done.
Qed.

Definition same_allocations (vm vm' : Vm) : Prop :=
  managed_base_ vm' = managed_base_ vm /\ direct_capacity vm' = direct_capacity vm /\
  direct_allocations_ vm' = direct_allocations_ vm.

(** What the call leaves: the mapping of allocated memory of one type, or
    nothing changed outside the canonical range. *)
Definition map_direct_outcome (vm : Vm) (slot size protection physical name_address v : Z) (vm' : Vm)
  : Prop :=
  let canonical := managed_base_ vm + physical in
  vm_wf vm' /\ same_allocations vm vm' /\
  if v =? 0 then
    exists host name t, cpu_protection protection = Some host /\
      mapping_name (memory_ vm) name_address "direct" = inr name /\
      (forall p, physical <= p < physical + size -> type_at (direct_allocations_ vm) p = Some t) /\
      direct_mapped vm vm' slot
        (direct_region canonical size host name physical t (Z.land protection 0x30))
  else unchanged_outside (memory_ vm) (memory_ vm') canonical size.

(** Enough for the call to succeed: nothing is mapped in the range. *)
Record map_direct_accepted (vm : Vm)
    (slot size protection flags physical alignment name_address : Z) : Prop := {
  da_refused : map_direct_refused vm slot size protection flags physical alignment = false;
  da_protection : is_Some (cpu_protection protection);
  da_requested : exists requested, read_guest_u64 (memory_ vm) slot = Some requested /\
    (requested = 0 \/ requested = managed_base_ vm + physical);
  da_name : exists name, mapping_name (memory_ vm) name_address "direct" = inr name;
  da_allocated : physical + size <= direct_capacity vm /\ exists t, forall p,
    physical <= p < physical + size -> type_at (direct_allocations_ vm) p = Some t;
  da_aligned : (managed_base_ vm + physical) mod default_alignment alignment = 0;
  da_free a : in_range (managed_base_ vm + physical) size a = true -> kind_at (memory_ vm) a = None;
}.

Lemma map_direct_stays vm slot size protection flags physical alignment name_address code :
  vm_wf vm -> error code <> 0 ->
  (map_direct_accepted vm slot size protection flags physical alignment name_address -> False) ->
  exists v vm', Ok (error code, vm) = Ok (v, vm') /\
    map_direct_outcome vm slot size protection physical name_address v vm' /\
    (map_direct_accepted vm slot size protection flags physical alignment name_address -> v = 0).
Proof.
  intros Hw Hc Hno. do 2 eexists. split; [done|]. split; [|intros Ha; by destruct (Hno Ha)].
  split; [done|]. split; [done|]. by rewrite (proj2 (Z.eqb_neq _ _) Hc).
Qed.

(** The end of the call, as a function of the region. *)
Definition map_direct_place (vm : Vm) (slot canonical flags : Z) (i : RegionInfo)
  : result (Z * Vm) :=
  match direct_obstacles vm canonical (ri_size i) flags false (regions (memory_ vm)) with
  | inl code => Ok (error code, vm)
  | inr has_overlap =>
      let '(ok, s) := if has_overlap then unmap_range (memory_ vm) canonical (ri_size i)
                      else (true, memory_ vm) in
      if negb ok then Ok (error kErrorEnomem, with_memory vm s)
      else
        let '(ok, s) := map_region s i in
        if negb ok then Ok (error kErrorEnomem, with_memory vm s)
        else
          '(ok, s) ← write_guest_u64 s slot canonical;
          if negb (ok : bool)
          then Ok (error kErrorEfault, with_memory vm (unmap_range s canonical (ri_size i)).2)
          else Ok (0, with_memory vm s)
  end.

Lemma map_direct_place_spec vm slot flags i :
  vm_wf vm ->
  ri_base i = managed_base_ vm + ri_offset i -> 0 <= ri_offset i ->
  0 < ri_size i -> ri_offset i + ri_size i <= direct_capacity vm -> ri_kind i = kind_direct ->
  ri_offset i mod kGuestPageSize = 0 -> ri_size i mod kGuestPageSize = 0 ->
  exists v vm', map_direct_place vm slot (ri_base i) flags i = Ok (v, vm') /\
    vm_wf vm' /\ same_allocations vm vm' /\
    (if v =? 0 then direct_mapped vm vm' slot i
     else unchanged_outside (memory_ vm) (memory_ vm') (ri_base i) (ri_size i)) /\
    (guest_writable (memory_ vm) slot 8 = true ->
     (forall a, in_range (ri_base i) (ri_size i) a = true -> kind_at (memory_ vm) a = None) -> v = 0).
Proof.
  intros Hw Hbase Hp Hz Hcap Hkind Hpm Hzm. unfold map_direct_place.
  pose proof (vw_space vm Hw) as Hok. pose proof (proj1 Hok) as Hs.
  destruct (canonical_pages guest_pages vm (ri_offset i) (ri_size i) Hw Hp Hz Hcap Hpm Hzm)
    as (Hva & _ & Hv0 & Hve). rewrite Hva, <- Hbase in *.
  destruct (direct_obstacles_spec vm (ri_base i) (ri_size i) flags false (regions (memory_ vm)))
    as (Hobs & Hfree & Hclear).
  assert ((forall a, in_range (ri_base i) (ri_size i) a = true -> kind_at (memory_ vm) a = None) ->
    forall j, j ∈ regions (memory_ vm) -> ranges_overlap (ri_base i) (ri_size i) j = false) as Hnone.
  { intros Hall j Hj. pose proof (rl_bounded _ (regions_wf _ Hs)) as Hbd. rewrite Forall_forall in Hbd.
    pose proof (Hbd j Hj) as Hj'. destruct Hj' as (? & ? & ?).
    apply not_true_iff_false. rewrite (ranges_overlap_spec _ _ j (Hbd j Hj)) by done. intros Ho.
    assert (region_covers j (Z.max (ri_base i) (ri_base j)) = true) as Hcv by (apply in_range_true; lia).
    specialize (Hall (Z.max (ri_base i) (ri_base j)) ltac:(apply in_range_true; lia)).
    unfold kind_at in Hall. rewrite cell_at_covering in Hall by done.
    by rewrite (proj2 (covering_elem _ _ j (regions_wf _ Hs)) (conj Hj Hcv)) in Hall. }
  destruct (direct_obstacles _ _ _ _ _ _) as [code|has_overlap] eqn:Ho.
  { exists (error code), vm. split; [done|]. split; [done|]. split; [done|].
    destruct Hobs as [Hcode _]. split.
    - destruct Hcode as [-> | ->]; apply unchanged_refl.
    - intros _ Hall. specialize (Hfree (Hnone Hall)). done. }
  destruct (if has_overlap then _ else _) as [ok s] eqn:Hs1. destruct ok; cbn [negb].
  2: { destruct has_overlap; [|done].
       apply unmap_range_emptied in Hs1 as [Hk Hr]; [|done|done|unfold in_u64; lia..].
       exists (error kErrorEnomem), (with_memory vm s). split; [done|].
       split; [by apply vm_kinds|]. split; [done|]. cbn.
       split; [intros a _; by apply same_regions_cells|].
       intros _ Hall. specialize (Hfree (Hnone Hall)). done. }
  assert (vm_wf (with_memory vm s) /\ native_ s = native_ (memory_ vm) /\
          unchanged_outside (memory_ vm) s (ri_base i) (ri_size i) /\
          (forall a, region_covers i a = true -> kind_at s a = None) /\
          (has_overlap = false -> s = memory_ vm)) as (Hws & Hns & Hout & Hf & Hsame).
  { destruct has_overlap.
    - apply unmap_range_emptied in Hs1; [|done|done|unfold in_u64; lia..].
      pose proof (emptied_unchanged _ _ _ _ Hs1) as Hout. destruct Hs1 as (Hok1 & Hn1 & Hc1).
      split; [|split; [done|split; [done|split; [|done]]]].
      + apply (vm_direct_changed vm s (ri_offset i) (ri_size i)); rewrite <- ?Hbase; try done.
        intros a Ha. unfold flexible_at, kind_at. by rewrite Hc1, Ha.
      + intros a Ha. unfold region_covers in Ha. unfold kind_at. by rewrite Hc1, Ha.
    - injection Hs1 as <-. rewrite with_memory_same. split; [done|]. split; [done|].
      split; [apply unchanged_refl|]. split; [|done]. intros a Ha.
      eapply no_overlap_free; [done|exact Hz|exact Hve|by apply Hclear|done]. }
  destruct (direct_installed vm s slot i) as (s2 & ok & s3 & Hm & Hwr & Hsl & Hw' & Hres); [done..|].
  rewrite Hm. cbn [negb]. rewrite Hwr. cbn [mbind result_bind].
  destruct ok; cbn [negb] in *.
  - exists 0, (with_memory vm s3). by split_and!.
  - exists (error kErrorEfault), (with_memory vm (unmap_range s3 (ri_base i) (ri_size i)).2).
    split; [done|]. split; [done|]. split; [done|]. split; [done|]. intros Hgw Hall.
    specialize (Hfree (Hnone Hall)). injection Hfree as ->.
    rewrite (Hsame eq_refl) in Hsl. by specialize (Hsl Hgw).
Qed.

Lemma covered_pages vm physical :
  vm_wf vm -> (managed_base_ vm + physical) mod kGuestPageSize = 0 -> physical mod kGuestPageSize = 0.
Proof.
  intros Hw Hm. pose proof (vw_managed vm Hw) as (_ & _ & _ & Hmm & _).
  replace physical with ((managed_base_ vm + physical) - managed_base_ vm) by lia. by apply mod_sub.
Qed.

Lemma map_direct_memory_cases vm slot size protection flags physical alignment name_address :
  vm_wf vm -> in_u64 size -> in_u64 alignment ->
  exists v vm', map_direct_memory vm slot size protection flags physical alignment name_address
                = Ok (v, vm') /\
    map_direct_outcome vm slot size protection physical name_address v vm' /\
    (map_direct_accepted vm slot size protection flags physical alignment name_address -> v = 0).
Proof.
  intros Hw Hz Hal. unfold map_direct_memory.
  fold (map_direct_refused vm slot size protection flags physical alignment).
  destruct (map_direct_refused vm slot size protection flags physical alignment) eqn:Href.
  { apply map_direct_stays; [done..|]. intros [? _ _ _ _ _ _]. congruence. }
  destruct (cpu_protection protection) as [host|] eqn:Hcpu.
  2: { apply map_direct_stays; [done..|]. intros [_ [? ?] _ _ _ _ _]. congruence. }
  destruct (read_guest_u64 (memory_ vm) slot) as [requested|] eqn:Hreq.
  2: { apply map_direct_stays; [done..|]. intros [_ _ (? & ? & _) _ _ _ _]. congruence. }
  destruct (mapping_name (memory_ vm) name_address "direct") as [code|name] eqn:Hname.
  { apply map_direct_stays; [done| |intros [_ _ _ (? & ?) _ _ _]; congruence].
    revert Hname. unfold mapping_name. repeat case_match; by intros [= <-]. }
  pose proof Href as Href'. unfold map_direct_refused in Href.
  rewrite !orb_false_iff, !negb_false_iff, Z.ltb_ge, Z.eqb_neq, Z.eqb_eq in Href.
  destruct Href as ((((((Hgw & Hp) & Hz0) & Hzm) & Hgood) & _) & _). unfold in_u64 in Hz, Hal.
  pose proof (direct_range_covered_spec vm physical size) as Hcov.
  destruct (direct_range_covered vm physical size) as [t|] eqn:Hct.
  2: { apply map_direct_stays; [done..|]. intros [_ _ _ _ [Hcap [t Ht]] _ _].
       assert (None = Some t) by (apply Hcov; [done|lia|lia|split_and!; [lia|done|done]]). done. }
  destruct (proj1 (Hcov t Hw Hp ltac:(lia)) eq_refl) as (_ & Hcap & Ht).
  destruct (partitions vm Hw) as (_ & _ & _ & _ & _ & Hva). rewrite Hva by lia.
  destruct (Z.eqb_spec ((managed_base_ vm + physical) mod default_alignment alignment) 0) as [Haln|Haln];
    cbn [negb].
  2: { apply map_direct_stays; [done..|]. by intros [_ _ _ _ _ ? _]. }
  destruct (negb (requested =? 0) && _) eqn:Hrq.
  { apply map_direct_stays; [done..|]. intros [_ _ (r & Hr & Hr') _ _ _ _].
    rewrite andb_true_iff, !negb_true_iff, !Z.eqb_neq in Hrq. simplify_eq. lia. }
  destruct (good_alignment alignment) as [_ Halm]; [unfold in_u64; lia|done|].
  pose proof (covered_pages vm physical Hw (Halm _ Haln)) as Hpm.
  set (i := direct_region (managed_base_ vm + physical) size host name physical t (Z.land protection 0x30)).
  destruct (map_direct_place_spec vm slot flags i Hw) as (v & vm' & Hcall & Hw' & Hsame & Hres & Hsucc);
    [done|done|cbn; lia|done|done|done|done|].
  exists v, vm'. split; [exact Hcall|]. split; [split; [done|split; [done|]]|].
  - destruct (v =? 0); [|exact Hres]. by exists host, name, t.
  - intros Hacc. apply Hsucc; [done|]. apply (da_free _ _ _ _ _ _ _ _ Hacc).
Qed.

End Map.

(** ** Filling a mapping *)

Section Fill.
Context `{HostOs, !HostOsLaws H}.
Hypothesis granted : mprotect_granted.

(** A mapped region with its bytes: [bytes], and zeros behind them; [None] when
    nothing is said of them. *)
Record region_contents (s s' : space) (i : RegionInfo) (bytes : option (list byte)) : Prop := {
  rc_ok : space_ok s';
  rc_native : native_ s' = native_ s;
  rc_cell a : region_covers i a = true -> cell_at s' a = Some (cell_of i a);
  rc_byte bs a : bytes = Some bs -> region_covers i a = true ->
    byte_at s' a = Some (default zero_byte (zget bs (a - ri_base i)));
  rc_other a : region_covers i a = false -> same_at s s' a;
}.

Lemma whole_region_store s i n :
  space_wf s -> i ∈ regions s -> has (ri_protection i) prot_write = true -> 0 < n <= ri_size i ->
  store_ok true s (ri_base i) n.
Proof.
  intros Hs (r & Hf & <-)%regions_elem Hp Hn; [|done]. exists r. split; [|done].
  unfold in_region, owner, covers. split; [split; [done|lia]|lia].
Qed.

(** Storing at the start of a region that was staged. *)
Lemma store_in_region s i bytes :
  space_ok s -> i ∈ regions s -> has (ri_protection i) prot_write = true -> bytes <> [] ->
  zlen bytes <= ri_size i ->
  exists s', write s (ri_base i) bytes = Ok (true, s') /\ space_ok s' /\ native_ s' = native_ s /\
    i ∈ regions s' /\ stored s s' (ri_base i) bytes.
Proof.
  intros Hok Hi Hp Hne Hlen. destruct (write_keeps s (ri_base i) bytes Hok) as (ok & s' & Hw & Hk).
  pose proof (write_spec s (ri_base i) bytes ok s' (proj1 Hok) Hne Hw) as (Hiff & Hst & _).
  assert (0 < zlen bytes) by (destruct bytes; [done|cbn [length]; lia]).
  assert (ok = true) as -> by (apply Hiff, whole_region_store; [apply Hok|done|done|lia]).
  specialize (Hst eq_refl). exists s'. split; [done|]. split; [apply Hk|]. split; [apply Hk|].
  split; [|done]. eapply same_infos_regions; [apply Hok|apply Hk|apply Hst|done].
Qed.

Lemma zero_region s i :
  space_ok s -> i ∈ regions s -> has (ri_protection i) prot_write = true -> 0 < ri_size i ->
  exists s', zero s (ri_base i) (ri_size i) = Ok (true, s') /\ space_ok s' /\ native_ s' = native_ s /\
    i ∈ regions s' /\ stored s s' (ri_base i) (replicate (Z.to_nat (ri_size i)) zero_byte).
Proof.
  intros Hok Hi Hp Hz. destruct (zero_keeps s (ri_base i) (ri_size i) Hok) as (ok & s' & Hw & Hk & Hiff & Hst);
    [lia|].
  assert (ok = true) as -> by (apply Hiff, whole_region_store; [apply Hok|done|done|lia]).
  specialize (Hst eq_refl). exists s'. split; [done|]. split; [apply Hk|]. split; [apply Hk|].
  split; [|done]. eapply same_infos_regions; [apply Hok|apply Hk|apply Hst|done].
Qed.

Lemma protect_region_succeeds s i prot :
  space_ok s -> i ∈ regions s -> inside_arena s (ri_base i) (ri_size i) ->
  exists s', protect s (ri_base i) (ri_size i) prot = (true, s').
Proof.
  intros Hok (r & Hf & <-)%regions_elem Hin; [|apply Hok]. unfold protect. rewrite Hf, Z.eqb_refl.
  cbn [negb]. pose proof (wf_region _ _ (wf_map _ (proj1 Hok)) _ _ Hf) as [_ _ Hz _ _].
  destruct (native_ s) as [arena|] eqn:Hn; [|by eexists].
  destruct (Hin arena Hn) as (Hlo & Hhi & Hbm & Hzm). unfold arena_offset.
  destruct (Z.ltb_spec (ri_base (info r)) (arena_base arena)); [lia|].
  destruct (Z.leb_spec (ri_base (info r) - arena_base arena) (arena_size arena)); [|lia].
  destruct (arena_protect_granted arena (host_ s) (ri_base (info r)) (ri_size (info r)) prot)
    as (h' & -> & _); [done|by apply (wf_arena _ (proj1 Hok))|done|done|done|done|done|]. by eexists.
Qed.

Lemma protect_contents s0 s i bytes prot :
  region_contents s0 s i bytes -> i ∈ regions s -> inside_arena s (ri_base i) (ri_size i) ->
  in_u64 (ri_base i) -> in_u64 (ri_size i) ->
  exists s', protect s (ri_base i) (ri_size i) prot = (true, s') /\
    region_contents s0 s' (set_protection i prot) bytes.
Proof.
  intros [Hok Hn Hc Hb Ho] Hi Hin Hbu Hzu. destruct (protect_region_succeeds s i prot Hok Hi Hin) as [s' Hp].
  exists s'. split; [done|]. pose proof Hp as Hk%protect_keeps; [|done..].
  apply protect_cells in Hp as [_ Hcells]; [|apply Hok].
  assert (forall a, region_covers (set_protection i prot) a = region_covers i a) as Hcov by done.
  split; [apply Hk|by rewrite (kk_native _ _ Hk)| | |].
  - intros a. rewrite Hcov. intros Ha. destruct (Hcells a) as [_ ->]. rewrite (Hc a Ha).
    unfold region_covers in Ha. by rewrite Ha.
  - intros bs a Hbs. rewrite Hcov. intros Ha. destruct (Hcells a) as [-> _]. by apply Hb.
  - intros a. rewrite Hcov. intros Ha. destruct (Ho a Ha) as [Hx0 Hy0]. unfold same_at. rewrite <- Hx0, <- Hy0. destruct (Hcells a) as [Hx Hy].
    unfold region_covers in Ha. rewrite Ha in Hy. split; [by rewrite Hy, option_fmap_id|done].
Qed.

Lemma map_region_contents s i s' :
  space_ok s -> map_region s i = (true, s') -> mapped s s' i -> region_contents s s' i None.
Proof.
  intros Hok Hm Hmp. destruct (mp_bounded _ _ _ Hmp) as (? & ? & ?).
  apply map_region_cells in Hm as [_ Hc]; [|apply Hok|lia|lia].
  split; [apply Hmp|apply Hmp| |done|]; intros a Ha; specialize (Hc a); unfold region_covers in Ha;
    rewrite Ha in Hc; naive_solver.
Qed.

(** Bytes stored at the start of the region. *)
Lemma stored_contents s0 s s' i old bytes :
  region_contents s0 s i old -> stored s s' (ri_base i) bytes -> space_ok s' -> native_ s' = native_ s ->
  zlen bytes <= ri_size i ->
  (zlen bytes < ri_size i -> old = Some []) ->
  region_contents s0 s' i (Some bytes).
Proof.
  intros [Hok Hn Hc Hb Ho] (_ & _ & Hst) Hok' Hn' Hlen Hold.
  split; [done|congruence| | |].
  - intros a Ha. destruct (Hst a) as [-> _]. by apply Hc.
  - intros bs a [= <-] Ha. destruct (Hst a) as [_ ->].
    pose proof Ha as Ha'%in_range_true. destruct (in_range (ri_base i) (zlen bytes) a) eqn:E.
    + apply in_range_true in E. destruct (zget_is_Some bytes (a - ri_base i)) as [x Hx]; [lia|].
      by rewrite Hx.
    + apply in_range_false in E. rewrite (Hb [] a) by (done || apply Hold; lia).
      assert (zget (@nil byte) (a - ri_base i) = None) as -> by (unfold zget; by destruct (_ <? 0)).
      assert (zget bytes (a - ri_base i) = None) as ->; [|done].
      destruct (zget bytes (a - ri_base i)) eqn:Hx; [|done]. apply zget_Some_lt in Hx. lia.
  - intros a Ha. destruct (Ho a Ha) as [Hx0 Hy0]. unfold same_at. rewrite <- Hx0, <- Hy0. destruct (Hst a) as [Hx Hy]. split; [done|].
    rewrite Hy. apply in_range_false in Ha. by rewrite (proj2 (in_range_false _ _ a)) by lia.
Qed.

Lemma contents_zeros s0 s i :
  region_contents s0 s i (Some (replicate (Z.to_nat (ri_size i)) zero_byte)) ->
  region_contents s0 s i (Some []).
Proof.
  intros [Hok Hn Hc Hb Ho]. split; [done|done|done| |done]. intros bs a [= <-] Ha.
  rewrite (Hb _ a eq_refl Ha). apply in_range_true in Ha. rewrite zget_replicate by lia.
  unfold zget. by destruct (_ <? 0).
Qed.

(** After the region is mapped, the other steps succeed. *)
Lemma fill_mapping_succeeds s s1 i request protection snapshot :
  space_ok s -> map_region s i = (true, s1) -> mapped s s1 i ->
  ri_protection i = staging -> ri_size i = mr_size request ->
  inside_arena s (ri_base i) (ri_size i) -> zlen snapshot <= ri_size i ->
  (mr_kind request <> kind_file -> snapshot = []) ->
  exists s', fill_mapping s1 request (ri_base i) protection snapshot = Ok (true, s') /\
    region_contents s s' (set_protection i protection) (Some snapshot).
Proof.
  intros Hok Hm Hmp Hp Hz Hin Hlen Hsnap. destruct (mp_bounded _ _ _ Hmp) as (Hb0 & Hz0 & He0).
  assert (has (ri_protection i) prot_write = true) as Hpw by (by rewrite Hp).
  pose proof (map_region_contents s i s1 Hok Hm Hmp) as Hc1.
  destruct (zero_region s1 i) as (s2 & Hzero & Hok2 & Hn2 & Hi2 & Hst2); [apply Hmp|apply Hmp|done|done|].
  assert (region_contents s s2 i (Some [])) as Hc2.
  { apply contents_zeros. apply (stored_contents s s1 s2 i None); [done|done|done|done| |];
      rewrite length_replicate; lia. }
  unfold fill_mapping. rewrite <- Hz, Hzero. cbn [mbind result_bind negb].
  assert (exists s3, (if bool_decide (mr_kind request = kind_file)
      && negb (bool_decide (snapshot = [])) then write s2 (ri_base i) snapshot else Ok (true, s2))
      = Ok (true, s3) /\ region_contents s s3 i (Some snapshot) /\ i ∈ regions s3 /\
      native_ s3 = native_ s) as (s3 & -> & Hc3 & Hi3 & Hn3).
  { assert (native_ s2 = native_ s) as Hns by (rewrite Hn2; apply Hmp).
    destruct (decide (snapshot = [])) as [->|Hne].
    { rewrite (bool_decide_true ([] = [])) by done. rewrite andb_false_r. by exists s2. }
    rewrite (bool_decide_false (snapshot = [])) by done.
    assert (mr_kind request = kind_file) as Hk.
    { destruct (decide (mr_kind request = kind_file)) as [?|Hx]; [done|by destruct Hne; apply Hsnap]. }
    rewrite (bool_decide_true (mr_kind request = kind_file)) by done. cbn [andb negb].
    destruct (store_in_region s2 i snapshot Hok2 Hi2 Hpw Hne Hlen) as (s3 & Hw & Hok3 & Hn3 & Hi3 & Hst3).
    exists s3. split; [done|]. split; [|split; [done|congruence]].
    by apply (stored_contents s s2 s3 i (Some [])). }
  cbn [mbind result_bind negb].
  destruct (Z.eqb_spec protection staging) as [->|_].
  { exists s3. split; [done|]. replace (set_protection i staging) with i; [done|].
    rewrite <- Hp. by destruct i. }
  destruct (protect_contents s s3 i (Some snapshot) protection) as (s4 & -> & Hc4);
    [done|done| |unfold in_u64; lia..|by exists s4].
  intros arena Ha. apply Hin. congruence.
Qed.

End Fill.

(** ** The lowest free range *)

Lemma checked_align_up_least value alignment b :
  in_u64 value -> 0 < value -> 0 < alignment -> value <= b <= u64_max -> b mod alignment = 0 ->
  (u64_max + 1) mod alignment = 0 ->
  exists r, checked_align_up value alignment = Some r /\ value <= r <= b.
Proof.
  intros Hv Hp Ha Hb Hm Hu. assert (alignment <= b) as Hab.
  { apply Z.mod_divide in Hm; [|lia]. apply Z.divide_pos_le; [lia|done]. }
  destruct (checked_align_up value alignment) as [r|] eqn:E.
  - exists r. split; [done|].
    apply checked_align_up_Some in E as (Hr & Hrm & _); [|done|unfold in_u64; lia].
    apply Z.mod_divide in Hm as [q Hq]; [|lia]. apply Z.mod_divide in Hrm as [q' Hq']; [|lia].
    destruct (Z.le_gt_cases q' q).
    + assert (q' * alignment <= q * alignment) by (apply Z.mul_le_mono_nonneg_r; lia). lia.
    + assert (q * alignment <= (q' - 1) * alignment) by (apply Z.mul_le_mono_nonneg_r; lia). lia.
  - exfalso. revert E. unfold checked_align_up.
    destruct (Z.eqb_spec value 0); [lia|]. destruct (Z.eqb_spec alignment 0); [lia|]. cbn [orb].
    destruct (Z.ltb_spec (u64_max - (alignment - 1)) value); [intros _|done].
    apply Z.mod_divide in Hm as [q Hq]; [|lia]. apply Z.mod_divide in Hu as [q' Hq']; [|lia].
    destruct (Z.le_gt_cases q' q).
    + assert (q' * alignment <= q * alignment) by (apply Z.mul_le_mono_nonneg_r; lia). lia.
    + assert (q * alignment <= (q' - 1) * alignment) by (apply Z.mul_le_mono_nonneg_r; lia). lia.
Qed.

Section Place.
Context `{HostOs, !HostOsLaws H}.
Hypothesis granted : mprotect_granted.
Hypothesis guest_pages : kGuestPageSize mod page_size = 0.

Lemma inside_native_lower s candidate b size :
  space_wf s -> 0 <= candidate <= b -> (native_backed s = true -> native_base s <= candidate) ->
  range_inside_native s b size = true -> range_inside_native s candidate size = true.
Proof.
  intros Hs Hcb Hnb. unfold range_inside_native. destruct (native_backed s); cbn [negb].
  - destruct (_ <? _); [done|]. specialize (Hnb eq_refl).
    rewrite !andb_true_iff, !Z.leb_le. lia.
  - rewrite !Z.leb_le. lia.
Qed.

Lemma free_ranges s l b size :
  space_wf s -> l = regions s -> 0 < size ->
  (forall a, in_range b size a = true -> kind_at s a = None) ->
  forall i, i ∈ l -> ri_base i + ri_size i <= b \/ b + size <= ri_base i.
Proof.
  intros Hs -> Hz Hfree i Hi. pose proof (regions_wf s Hs) as Hl.
  pose proof (rl_bounded _ Hl) as Hbd. rewrite Forall_forall in Hbd. destruct (Hbd i Hi) as (? & ? & ?).
  destruct (Z.le_gt_cases (ri_base i + ri_size i) b); [by left|].
  destruct (Z.le_gt_cases (b + size) (ri_base i)); [by right|exfalso].
  assert (region_covers i (Z.max b (ri_base i)) = true) as Hcv by (apply in_range_true; lia).
  specialize (Hfree (Z.max b (ri_base i)) ltac:(apply in_range_true; lia)).
  unfold kind_at in Hfree. rewrite cell_at_covering in Hfree by done.
  by rewrite (proj2 (covering_elem _ _ i Hl) (conj Hi Hcv)) in Hfree.
Qed.

Lemma free_mapping_loop_first s size candidate l b :
  space_wf s -> region_list_wf l -> 0 < size -> 0 <= candidate ->
  (native_backed s = true -> native_base s <= candidate) ->
  candidate <= b -> b mod kGuestPageSize = 0 -> range_inside_native s b size = true ->
  (forall i, i ∈ l -> ri_base i + ri_size i <= b \/ b + size <= ri_base i) ->
  exists r, free_mapping_loop s size candidate l = Some r /\ r <= b.
Proof.
  intros Hs Hl Hz. revert candidate. induction l as [|i l IH]; intros candidate Hc0 Hnb Hcb Hm Hin Hfree;
    cbn [free_mapping_loop].
  { rewrite (inside_native_lower s candidate b) by (done || lia). by exists candidate. }
  pose proof (region_list_tail i l Hl) as [(Hi0 & Hi1 & Hi2) Hl']. specialize (IH Hl').
  assert (forall j, j ∈ l -> ri_base j + ri_size j <= b \/ b + size <= ri_base j) as Hfree'
    by (intros j Hj; apply Hfree; by right).
  destruct (Z.ltb_spec (u64_max - ri_size i) (ri_base i)); [lia|].
  destruct (Z.leb_spec (ri_base i + ri_size i) candidate); [by apply IH|].
  destruct (_ && _) eqn:Hgap.
  { rewrite (inside_native_lower s candidate b) by (done || lia). by exists candidate. }
  rewrite andb_false_iff, !Z.leb_gt in Hgap. pose proof (Hfree i ltac:(by left)) as Hi.
  pose proof (range_inside_native_spec s b size (native_base_nonneg s Hs) Hin) as Hbe.
  destruct (checked_align_up_least (ri_base i + ri_size i) kGuestPageSize b) as (r & -> & Hr);
    [unfold in_u64; lia|lia|done|lia|done|done|]. cbn [mbind option_bind].
  apply IH; try done; try lia. intros Hb. specialize (Hnb Hb). lia.
Qed.

(** The search answers the lowest fit, or there is none. *)
Lemma find_free_mapping_first s requested size :
  space_wf s -> in_u64 requested -> 0 < size ->
  match find_free_mapping s requested size with
  | Some r => mapping_fit s size r /\ mapping_start s requested <= r /\
      forall b, mapping_start s requested <= b -> mapping_fit s size b -> r <= b
  | None => forall b, mapping_start s requested <= b -> ~ mapping_fit s size b
  end.
Proof.
  intros Hs Hr Hz. pose proof (native_base_nonneg s Hs) as Hnb.
  assert (forall b, mapping_start s requested <= b -> mapping_fit s size b ->
    exists r, find_free_mapping s requested size = Some r /\ r <= b) as Hleast.
  { intros b Hb (Hb0 & Hbm & Hin & Hfree). unfold find_free_mapping.
    pose proof (range_inside_native_spec s b size Hnb Hin) as Hbe. unfold in_u64 in Hr.
    assert (exists c, (if native_backed s then
         aligned_native ← checked_align_up (native_base s) kGuestPageSize;
         Some (Z.max requested aligned_native) else Some requested) = Some c /\
       0 <= c /\ (native_backed s = true -> native_base s <= c /\ 0 < c) /\
       (if c =? 0 then kDefaultMappingBase else c) <= b) as (c & -> & Hc0 & Hcn & Hcb).
    { unfold mapping_start in Hb. destruct (native_backed s) eqn:Hnat; cbn [negb andb] in Hb.
      - assert (0 < native_base s) as Hpos.
        { unfold native_base, native_backed in *. destruct (native_ s) as [arena|] eqn:Hn; [|done].
          by destruct (wf_arena _ Hs arena Hn). }
        assert (native_base s <= b) as Hlow.
        { revert Hin. unfold range_inside_native. rewrite Hnat. cbn [negb].
          destruct (_ <? _); [done|]. rewrite !andb_true_iff, !Z.leb_le. lia. }
        destruct (checked_align_up_least (native_base s) kGuestPageSize b) as (al & -> & Hal);
          [unfold in_u64; lia|done|done|lia|done|done|].
        exists (Z.max requested al). split; [done|]. split; [lia|]. split; [lia|].
        destruct (Z.eqb_spec (Z.max requested al) 0); lia.
      - exists requested. split; [done|]. split; [lia|]. split; [done|exact Hb]. }
    cbn [mbind option_bind]. set (c1 := if c =? 0 then kDefaultMappingBase else c) in *.
    assert (0 < c1 /\ (native_backed s = true -> native_base s <= c1)) as [Hc1 Hn1].
    { unfold c1. destruct (Z.eqb_spec c 0) as [->|]; [|split; [lia|naive_solver]].
      split; [done|]. intros Hnat. destruct (Hcn Hnat). lia. }
    assert (exists c2, (if negb (c1 mod kGuestPageSize =? 0) then checked_align_up c1 kGuestPageSize
      else Some c1) = Some c2 /\ c1 <= c2 <= b) as (c2 & -> & Hc2).
    { destruct (Z.eqb_spec (c1 mod kGuestPageSize) 0); cbn [negb]; [by exists c1|].
      apply checked_align_up_least; try done; unfold in_u64; lia. }
    cbn [mbind option_bind]. apply free_mapping_loop_first; try done.
    - by apply regions_wf.
    - lia.
    - intros Hnat. specialize (Hn1 Hnat). lia.
    - lia.
    - by eapply free_ranges. }
  destruct (find_free_mapping s requested size) as [r|] eqn:Hf.
  2: { intros b Hb Hfit. by destruct (Hleast b Hb Hfit) as (r & ? & _). }
  destruct (find_free_mapping_spec s requested size r Hs Hr Hz Hf) as [Hfit Hst].
  split; [done|]. split; [done|]. intros b Hb Hfb. destruct (Hleast b Hb Hfb) as (r' & [= ->] & ?). done.
Qed.
End Place.

(** ** Placing a mapping *)

Section Mapping.
Context `{HostOs, !HostOsLaws H}.
Hypothesis granted : mprotect_granted.
Hypothesis guest_pages : kGuestPageSize mod page_size = 0.

Lemma same_regions_at s s' :
  regions_ s' = regions_ s -> native_ s' = native_ s -> same_bytes (host_ s) (host_ s') ->
  forall a, same_at s s' a.
Proof.
  intros Hr Hn Hb a. split; [by apply same_regions_cells|].
  unfold byte_at, byte_in. rewrite Hr, Hn. destruct (find_region _ _); cbn; [|done].
  by destruct (native_ s); rewrite ?Hb.
Qed.

(** A region that overlaps a range has an address in it. *)
Lemma overlap_address s base size i :
  space_wf s -> i ∈ regions s -> 0 < size -> base + size <= u64_max ->
  ranges_overlap base size i = true <->
  exists a, in_range base size a = true /\ region_covers i a = true.
Proof.
  intros Hs Hi Hz He. pose proof (rl_bounded _ (regions_wf s Hs)) as Hbd. rewrite Forall_forall in Hbd.
  destruct (Hbd i Hi) as (? & ? & ?). rewrite (ranges_overlap_spec _ _ i (Hbd i Hi)) by done.
  unfold region_covers. setoid_rewrite in_range_true. split; [|intros (a & ? & ?); lia].
  intros Ho. exists (Z.max base (ri_base i)). lia.
Qed.

Lemma overlap_kind s base size (P : RegionKind -> Prop) :
  space_wf s -> 0 < size -> base + size <= u64_max ->
  (exists i, i ∈ regions s /\ ranges_overlap base size i = true /\ P (ri_kind i)) <->
  exists a k, in_range base size a = true /\ kind_at s a = Some k /\ P k.
Proof.
  intros Hs Hz He. unfold kind_at. split.
  - intros (i & Hi & (a & Ha & Hc)%(overlap_address s) & Hp); [|done..].
    exists a, (ri_kind i). split; [done|]. split; [|done]. rewrite cell_at_covering by done.
    by rewrite (proj2 (covering_elem _ _ i (regions_wf s Hs)) (conj Hi Hc)).
  - intros (a & k & Ha & Hk & Hp). rewrite cell_at_covering in Hk by done.
    destruct (covering (regions s) a) as [i|] eqn:Hc; [|done]. injection Hk as <-.
    apply covering_elem in Hc as [Hi Hc]; [|by apply regions_wf]. exists i. split; [done|].
    split; [|done]. apply (overlap_address s); [done..|]. by exists a.
Qed.

(** Why a fixed mapping is refused. *)
Definition fixed_refused (s : space) (address size flags : Z) : Prop :=
  range_inside_native s address size = false \/
  (flag_set flags kMapNoOverwrite = true /\
   exists a k, in_range address size a = true /\ kind_at s a = Some k /\ True) \/
  (flag_set flags kMapNoOverwrite = false /\
   exists a k, in_range address size a = true /\ kind_at s a = Some k /\
     (k = kind_direct \/ k = kind_flexible)) \/
  ~ whole_pages s address size.

(** The range of the mapping: it is free after what a fixed mapping replaces is
    removed, and nothing else changed. *)
Record placed (s s' : space) (request : MapRequest) (flags base : Z) : Prop := {
  pl_ok : space_ok s';
  pl_native : native_ s' = native_ s;
  pl_inside : range_inside_native s base (mr_size request) = true;
  pl_base : 0 <= base /\ base mod kGuestPageSize = 0;
  pl_free a : in_range base (mr_size request) a = true -> kind_at s' a = None;
  pl_other a : in_range base (mr_size request) a = false -> same_at s s' a;
  pl_fixed : flag_set flags kMapFixed = true -> base = mr_address request /\
    forall a k, in_range base (mr_size request) a = true -> kind_at s a = Some k ->
      flag_set flags kMapNoOverwrite = false /\ k <> kind_direct /\ k <> kind_flexible;
  pl_first : flag_set flags kMapFixed = false -> s' = s /\ mapping_start s (mr_address request) <= base /\
    forall b, mapping_start s (mr_address request) <= b -> mapping_fit s (mr_size request) b -> base <= b;
}.

Lemma existsb_overlap s base size (p : RegionInfo -> bool) :
  existsb (fun region => ranges_overlap base size region && p region) (regions s) = true <->
  exists i, i ∈ regions s /\ ranges_overlap base size i = true /\ p i = true.
Proof.
  rewrite existsb_exists. setoid_rewrite andb_true_iff. by setoid_rewrite list_elem_of_In.
Qed.

Lemma place_mapping_effect s request flags place s' :
  space_ok s -> in_u64 (mr_address request) -> mr_address request mod kGuestPageSize = 0 ->
  in_u64 (mr_size request) -> 0 < mr_size request -> mr_size request mod kGuestPageSize = 0 ->
  place_mapping s request flags = (place, s') ->
  match place with
  | inl code => (code = kErrorEnomem \/ code = kErrorEnotsup) /\ (forall a, same_at s s' a) /\
      if flag_set flags kMapFixed then fixed_refused s (mr_address request) (mr_size request) flags
      else forall b, mapping_start s (mr_address request) <= b -> ~ mapping_fit s (mr_size request) b
  | inr base => placed s s' request flags base
  end.
Proof.
  intros Hok Hau Ham Hzu Hz Hzm. pose proof (proj1 Hok) as Hs. unfold in_u64 in *. unfold place_mapping.
  destruct (flag_set flags kMapFixed) eqn:Hfix.
  2: { pose proof (find_free_mapping_first s (mr_address request) (mr_size request) Hs) as Hff.
       specialize (Hff ltac:(unfold in_u64; lia) Hz).
       destruct (find_free_mapping _ _ _) as [base|]; intros [= <- <-]; [|split; [by left|done]].
       destruct Hff as ((Hb0 & Hbm & Hin & Hfree) & Hst & Hl). split; try done. intros Hx. congruence. }
  destruct (range_inside_native s _ _) eqn:Hin; cbn [negb].
  2: { intros [= <- <-]. split; [by left|]. split; [done|]. by left. }
  pose proof Hin as He%range_inside_native_spec; [|by apply native_base_nonneg].
  destruct (flag_set flags kMapNoOverwrite) eqn:Hno.
  - destruct (existsb _ _) eqn:Hex; intros [= <- <-].
    + split; [by left|]. split; [done|]. right. left. split; [done|].
      apply (overlap_kind s _ _ (fun _ => True)); [done..|].
      apply existsb_exists in Hex as (i & Hi%list_elem_of_In & Ho). by exists i.
    + assert (forall a, in_range (mr_address request) (mr_size request) a = true -> kind_at s a = None)
        as Hfree.
      { intros a. apply no_overlap_free; [done..|]. intros i Hi.
        destruct (ranges_overlap _ _ i) eqn:Ho; [|done]. apply not_true_iff_false in Hex. destruct Hex.
        apply existsb_exists. exists i. by rewrite <- list_elem_of_In. }
      split; try done; [lia| |intros Hx; congruence]. intros _. split; [done|]. intros a k Ha Hk.
      by rewrite Hfree in Hk.
  - destruct (existsb _ _) eqn:Hex.
    { intros [= <- <-]. split; [by right|]. split; [done|]. right. right. left. split; [done|].
      apply (overlap_kind s _ _ (fun k => k = kind_direct \/ k = kind_flexible)); [done..|].
      apply existsb_overlap in Hex as (i & Hi & Ho & Hk). exists i. split; [done|]. split; [done|].
      by rewrite orb_true_iff, !bool_decide_eq_true in Hk. }
    destruct (unmap_range s _ _) as [ok s1] eqn:Hun. pose proof Hun as Hcells.
    apply unmap_range_emptied in Hcells; [|done|done|unfold in_u64; lia..].
    destruct ok; intros [= <- <-].
    + destruct Hcells as (Hok1 & Hn1 & Hc). split; try done.
      * lia.
      * intros a Ha. unfold kind_at. by rewrite Hc, Ha.
      * intros a Ha. apply unmap_range_cells in Hun as [_ Hu]; [|done|lia]. specialize (Hu a).
        by rewrite Ha in Hu.
      * intros _. split; [done|]. intros a k Ha Hk. split; [done|].
        assert (~ (k = kind_direct \/ k = kind_flexible)) as Hnk; [|tauto]. intros Hp.
        apply not_true_iff_false in Hex. apply Hex, existsb_overlap.
        destruct (proj2 (overlap_kind s (mr_address request) (mr_size request)
          (fun k => k = kind_direct \/ k = kind_flexible) Hs Hz He)) as (i & Hi & Ho & Hik);
          [by exists a, k|].
        exists i. split; [done|]. split; [done|]. by rewrite orb_true_iff, !bool_decide_eq_true.
      * intros Hx. congruence.
    + split; [by left|]. pose proof Hun as (Hn1 & Hb1 & Hr1 & _)%unmap_range_result.
      split; [apply same_regions_at; auto|]. right. right. right. intros Hwp.
      destruct (unmap_range_pages granted s (mr_address request) (mr_size request)) as [s2 Hu2];
        [done|done|done|by apply (host_pages guest_pages)|by apply (host_pages guest_pages)|done|].
      congruence.
Qed.

End Mapping.

(** ** Ordinary mappings *)

Section Ordinary.
Context `{HostOs, !HostOsLaws H}.
Hypothesis granted : mprotect_granted.
Hypothesis guest_pages : kGuestPageSize mod page_size = 0.

(** The region of a mapping in the end. *)
Definition final_region (request : MapRequest) (base protection offset : Z) : RegionInfo :=
  let i := mapping_region request base offset in
  if bool_decide (mr_kind request = kind_reserved) then i
  else set_protection i (final_protection request protection).

(** The bytes a mapping shows first: those of the file, or none; nothing is said
    of reserved memory. *)
Definition mapping_bytes (f : FileState) (request : MapRequest) (fd size offset : Z)
    (bytes : option (list byte)) : Prop :=
  if bool_decide (mr_kind request = kind_reserved) then bytes = None
  else if bool_decide (mr_kind request = kind_file)
  then exists r, files_ f !! fd = Some r /\ offset + size <= zlen (file_bytes r) /\
         bytes = Some (zslice (file_bytes r) offset size)
  else bytes = Some [].

(** What [map_memory] answers and leaves, once its arguments are checked. *)
Inductive map_outcome (vm : Vm) (f : FileState) (request : MapRequest)
    (size protection flags fd offset : Z) : Z -> space -> Prop :=
| map_unreadable s :
    mr_kind request = kind_file -> file_unreadable f fd size offset -> s = memory_ vm ->
    map_outcome vm f request size protection flags fd offset
      (error (if isSome (files_ f !! fd) then kErrorEnotsup else kErrorEbadf)) s
| map_unplaced code s :
    code = kErrorEnomem \/ code = kErrorEnotsup -> (forall a, same_at (memory_ vm) s a) ->
    (if flag_set flags kMapFixed
     then fixed_refused (memory_ vm) (mr_address request) (mr_size request) flags
     else forall b, mapping_start (memory_ vm) (mr_address request) <= b ->
            ~ mapping_fit (memory_ vm) (mr_size request) b) ->
    map_outcome vm f request size protection flags fd offset (error code) s
| map_placed base bytes s1 s :
    placed (memory_ vm) s1 request flags base ->
    mapping_bytes f request fd size offset bytes ->
    region_contents s1 s (final_region request base protection offset) bytes ->
    map_outcome vm f request size protection flags fd offset (to_i64 base) s.

Lemma placed_inside s s' request flags base :
  space_wf s -> placed s s' request flags base -> in_u64 (mr_size request) ->
  mr_size request mod kGuestPageSize = 0 ->
  base + mr_size request <= u64_max /\ inside_arena s' base (mr_size request).
Proof.
  intros Hs [_ Hn Hin [Hb0 Hbm] _ _ _ _] Hz Hm.
  pose proof Hin as He%range_inside_native_spec; [|by apply native_base_nonneg].
  split; [done|]. intros arena Ha. rewrite Hn in Ha.
  revert Hin. unfold range_inside_native, native_backed, native_base, native_size. rewrite Ha. cbn [negb].
  destruct (wf_arena _ Hs arena Ha) as (? & ? & ? & _).
  destruct (Z.ltb_spec (u64_max - arena_size arena) (arena_base arena)); [lia|].
  rewrite !andb_true_iff, !Z.leb_le. intros [[? ?] ?]. split; [lia|]. split; [lia|].
  by split; apply (host_pages guest_pages).
Qed.

Lemma map_memory_outcome vm f address size protection flags fd offset :
  vm_wf vm -> files_wf f -> in_u64 address -> in_u64 size ->
  exists v vm', map_memory vm f address size protection flags fd offset = Ok (v, vm', f) /\
    vm_wf vm' /\
    match check_map address size protection flags offset with
    | inl code => v = error code /\ vm' = vm
    | inr request => vm' = with_memory vm (memory_ vm') /\
        map_outcome vm f request size protection flags fd offset v (memory_ vm')
    end.
Proof.
  intros Hw Hf Ha Hz.
  destruct (map_memory_returns granted guest_pages vm f address size protection flags fd offset)
    as (v & vm' & Hcall & Hw' & _); [done..|].
  exists v, vm'. split; [done|]. split; [done|]. revert Hcall. unfold map_memory.
  destruct (check_map _ _ _ _ _) as [code|request] eqn:Hc; [by intros [= <- <-]|].
  apply check_map_spec in Hc as (Hs0 & Hs1 & Hsu & Hsm & Hau & Ham & _ & Hk & _ & _ & Hoff); [|done|done].
  destruct (map_snapshot_spec f request size fd offset) as (answer & -> & Hans);
    [done|done|by intros; apply Hoff|].
  cbn [mbind result_bind]. destruct answer as [code|bytes].
  { intros [= <- <-]. rewrite with_memory_same. split; [done|].
    destruct Hans as (? & ? & ->). by apply map_unreadable. }
  destruct (place_mapping (memory_ vm) request flags) as [place s1] eqn:Hp.
  apply (place_mapping_effect granted guest_pages) in Hp; [|apply Hw|done|done|done|lia|done].
  destruct place as [code|base].
  { intros [= <- <-]. split; [done|]. destruct Hp as (? & ? & ?). by apply map_unplaced. }
  pose proof (proj1 (vw_space vm Hw)) as Hs.
  destruct (placed_inside _ _ _ _ _ Hs Hp Hsu Hsm) as [He Hin].
  set (i := mapping_region request base offset).
  destruct (pl_base _ _ _ _ _ Hp) as [Hb0 Hbm].
  destruct (map_region_succeeds granted s1 i) as (s2 & Hm & Hmp);
    [apply Hp|done|cbn; lia|cbn; lia|done|apply Hp|].
  rewrite Hm. cbn [negb].
  destruct (bool_decide (mr_kind request = kind_reserved)) eqn:Hres.
  { intros [= <- <-]. split; [done|]. apply (map_placed _ _ _ _ _ _ _ _ base None s1 s2).
    - done.
    - unfold mapping_bytes. by rewrite Hres.
    - unfold final_region. rewrite Hres. apply map_region_contents; [apply Hp|done|done]. }
  assert (mapping_bytes f request fd size offset (Some bytes)) as Hmb.
  { unfold mapping_bytes. rewrite Hres. destruct (bool_decide (mr_kind request = kind_file)).
    - destruct Hans as (r & ? & ? & ->). by exists r.
    - by subst. }
  assert (zlen bytes <= mr_size request) as Hlen.
  { destruct (bool_decide (mr_kind request = kind_file)) eqn:Hfk; [|subst bytes; cbn; lia].
    apply bool_decide_eq_true in Hfk. destruct (Hoff Hfk) as [? _]. unfold in_u64 in Hz.
    destruct Hans as (r & ? & ? & ->). rewrite zslice_length by lia. lia. }
  assert (mr_kind request <> kind_file -> bytes = []) as Hnf.
  { intros Hx. by rewrite bool_decide_false in Hans. }
  destruct (fill_mapping_succeeds granted s1 s2 i request (final_protection request protection) bytes)
    as (s3 & Hfill & Hc3); [apply Hp|done|done|cbn; by rewrite Hres|done|done|done|done|].
  cbn in Hfill. rewrite Hfill. cbn [mbind result_bind]. intros [= <- <-]. split; [done|].
  apply (map_placed _ _ _ _ _ _ _ _ base (Some bytes) s1 s3); [done|done|].
  unfold final_region. by rewrite Hres.
Qed.

End Ordinary.
