(* ===== verification/KernelVmProps.v ===== *)
(** * Properties of the virtual memory services

    The calls as one relation, what holds in every state they reach, and the
    effect of the direct memory calls and of [map_memory]. *)

From Stdlib Require Import Strings.String.
From S2P Require Import Prelude OrdMap NativeArena GuestMemory GuestMemoryProps KernelMem KernelAttrs KernelTime KernelFiles KernelFilesProps RegionList KernelVm KernelVmInv KernelVmFit KernelVmDirect KernelVmRelease KernelVmMap.

Local Open Scope Z_scope.

(** ** The calls *)

Inductive VmCall : Type :=
| CallConfiguredFlexible (out : Z)
| CallAvailableFlexible (out : Z)
| CallDirectQuery (physical flags info info_size : Z)
| CallVirtualQuery (address flags info info_size : Z)
| CallQueryProtection (address start end_ protection : Z)
| CallAvailableDirect (search_start search_end alignment physical_out size_out : Z)
| CallAllocateDirect (search_start search_end size alignment memory_type physical_out : Z)
| CallReleaseDirect (physical size : Z) (checked : bool)
| CallMapDirect (slot size protection flags physical alignment name : Z)
| CallMapFlexible (slot size protection flags name : Z)
| CallProtect (address size protection : Z)
| CallUnmap (address size : Z)
| CallMap (address size protection flags fd offset out : Z).

Section Calls.
Context `{HostOs}.

Definition vm_call (vm : Vm) (f : FileState) (call : VmCall) : result (Z * Vm) :=
  match call with
  | CallConfiguredFlexible out => configured_flexible_memory_size_to vm out
  | CallAvailableFlexible out => available_flexible_memory_size_to vm out
  | CallDirectQuery physical flags info info_size =>
      direct_memory_query vm physical flags info info_size
  | CallVirtualQuery address flags info info_size => virtual_query vm address flags info info_size
  | CallQueryProtection address start end_ protection =>
      query_memory_protection vm address start end_ protection
  | CallAvailableDirect search_start search_end alignment physical_out size_out =>
      available_direct_memory vm search_start search_end alignment physical_out size_out
  | CallAllocateDirect search_start search_end size alignment memory_type physical_out =>
      allocate_direct_memory vm search_start search_end size alignment memory_type physical_out
  | CallReleaseDirect physical size checked => Ok (release_direct_memory vm physical size checked)
  | CallMapDirect slot size protection flags physical alignment name =>
      map_direct_memory vm slot size protection flags physical alignment name
  | CallMapFlexible slot size protection flags name =>
      map_flexible_memory vm slot size protection flags name
  | CallProtect address size protection => Ok (mprotect vm address size protection)
  | CallUnmap address size => Ok (unmap_memory vm address size)
  | CallMap address size protection flags fd offset out =>
      '(v, vm, _) ← map_memory_to vm f address size protection flags fd offset out; Ok (v, vm)
  end.

(** The ranges of the arguments' types, where the proofs need them. *)
Definition vm_args (call : VmCall) : Prop :=
  match call with
  | CallAllocateDirect _ search_end size alignment _ _ =>
      in_i64 search_end /\ in_u64 size /\ in_u64 alignment
  | CallReleaseDirect physical size _ => in_u64 physical /\ in_u64 size
  | CallMapDirect _ size _ _ _ alignment _ => in_u64 size /\ in_u64 alignment
  | CallMapFlexible _ size _ _ _ => in_u64 size
  | CallProtect address size _ | CallUnmap address size => in_u64 address /\ in_u64 size
  | CallMap address size _ _ _ _ _ => in_u64 address /\ in_u64 size
  | _ => True
  end.

(** What the rest of the runtime does to the address space between the calls:
    map regions of other kinds, store, change protections. *)
Definition other_op (o : op) : Prop :=
  op_args o /\
  match o with
  | OpMap i => ri_kind i <> kind_flexible
  | OpWrite _ _ | OpZero _ _ | OpProtect _ _ _ | OpProtectRange _ _ _ => True
  | _ => False
  end.

Inductive vm_reachable : Vm -> Prop :=
| vr_start s : reachable s -> regions_ s = [] -> vm_reachable (KernelServices_init s)
| vr_size vm size ok vm' :
    vm_reachable vm -> in_u64 size -> set_flexible_memory_size vm size = (ok, vm') -> vm_reachable vm'
| vr_call vm f call v vm' :
    vm_reachable vm -> files_wf f -> vm_args call -> vm_call vm f call = Ok (v, vm') ->
    vm_reachable vm'
| vr_other vm o ok s :
    vm_reachable vm -> other_op o -> do_op (memory_ vm) o = Ok (ok, s) ->
    vm_reachable (with_memory vm s).

End Calls.

Section Reachable.
Context `{HostOs, !HostOsLaws H}.
Hypothesis granted : mprotect_granted.
Hypothesis guest_pages : kGuestPageSize mod page_size = 0.

Lemma allocations_nil capacity : allocations_wf capacity [].
Proof. split; [apply Sorted.SSorted_nil|by apply Forall_nil_2]. Qed.

Lemma no_regions_cells s a : regions_ s = [] -> cell_at s a = None.
Proof. intros Hr. unfold cell_at, find_region. by rewrite Hr. Qed.

Lemma no_regions_flexible s a : regions_ s = [] -> flexible_at s a = false.
Proof. intros Hr. unfold flexible_at, kind_at. by rewrite no_regions_cells. Qed.

(** A state without allocations or mappings. *)
Lemma empty_vm_wf s base size capacity :
  space_ok s -> regions_ s = [] ->
  0 <= base -> 0 <= size -> base + size <= u64_max -> base mod kGuestPageSize = 0 ->
  size mod kGuestPageSize = 0 ->
  (0 < size -> exists arena, native_ s = Some arena /\ arena_base arena <= base /\
     base + size <= arena_base arena + arena_size arena) ->
  0 <= capacity <= size -> capacity mod kGuestPageSize = 0 ->
  vm_wf (mkVm s base size capacity 0 []).
Proof.
  intros Hs Hr Hb Hz He Hbm Hzm Hn Hc Hcm. split; cbn; try done.
  - symmetry. apply zcount_none. intros a _. by apply no_regions_flexible.
  - intros a. by rewrite no_regions_flexible.
  - apply allocations_nil.
Qed.

Lemma init_wf s : space_ok s -> regions_ s = [] -> vm_wf (KernelServices_init s).
Proof.
  intros Hs Hr. assert (vm_wf (mkVm s 0 0 0 0 [])) as H0 by (by apply empty_vm_wf).
  unfold KernelServices_init, native_backed, native_base, native_size.
  destruct (native_ s) as [arena|] eqn:Hn; cbn [negb]; [|done].
  destruct (wf_arena _ (proj1 Hs) arena Hn) as (Hb0 & Hsz & He & _).
  destruct (checked_align_up _ _) as [aligned|] eqn:Ha; [|done].
  apply checked_align_up_Some in Ha as (Hle & Hm & Hu & _); [|unfold in_u64; lia|done].
  destruct (_ <? _); [done|]. destruct (Z.leb_spec (arena_base arena + arena_size arena) aligned); [done|].
  set (n := (arena_base arena + arena_size arena - aligned) / kGuestPageSize).
  assert (0 <= n * kGuestPageSize <= arena_base arena + arena_size arena - aligned) as Hn'
    by (apply page_floor; lia).
  apply empty_vm_wf; try done; try lia.
  - apply Z.mod_mul. done.
  - intros _. exists arena. split; [done|]. lia.
Qed.

Lemma set_size_wf vm size ok vm' :
  vm_wf vm -> in_u64 size -> set_flexible_memory_size vm size = (ok, vm') -> vm_wf vm'.
Proof.
  intros Hw Hu. unfold set_flexible_memory_size. destruct (_ || _) eqn:Hbad; [by intros [= _ <-]|].
  destruct (negb _ || _ || _) eqn:Hne; intros [= _ <-]; [done|].
  rewrite !orb_false_iff, !negb_false_iff, !bool_decide_eq_true in Hne. destruct Hne as ((Hal & Huse) & Hreg).
  rewrite orb_false_iff, negb_false_iff, Z.eqb_eq, Z.ltb_ge in Hbad. destruct Hbad as [Hm Hle].
  apply Z.eqb_eq in Huse. rewrite Hal, Huse. destruct (vw_managed vm Hw) as (? & ? & ? & ? & ?).
  apply empty_vm_wf; try done; try apply Hw.
  - unfold regions in Hreg. by apply map_eq_nil in Hreg.
  - unfold in_u64 in Hu. lia.
Qed.

Lemma other_op_wf vm o ok s :
  vm_wf vm -> other_op o -> do_op (memory_ vm) o = Ok (ok, s) -> vm_wf (with_memory vm s).
Proof.
  intros Hw [Ha Ho] Hop. pose proof (vw_space vm Hw) as Hs. destruct o as [i| | |b n p|b n p|a bytes| |b n]; try done; cbn in Hop, Ha.
  - injection Hop as Hop. apply map_region_mapped in Hop; [|done|done|apply Ha|apply Ha].
    destruct ok; [|by apply vm_kinds]. apply vm_flexible_kept; [done|].
    by eapply installed_flexible; [apply mapped_installed|].
  - injection Hop as Hop. apply vm_kinds; [done|]. by eapply protect_keeps; [..|exact Hop]; try apply Ha.
  - injection Hop as Hop. apply vm_kinds; [done|].
    by eapply protect_range_keeps; [..|exact Hop]; try apply Ha.
  - destruct (write_keeps (memory_ vm) a bytes Hs) as (ok' & s' & Hwr & Hk).
    rewrite Hwr in Hop. injection Hop as <- <-. by apply vm_kinds.
  - destruct (zero_keeps (memory_ vm) b n Hs) as (ok' & s' & Hwr & Hk & _);
      [unfold in_u64 in Ha; lia|].
    rewrite Hwr in Hop. injection Hop as <- <-. by apply vm_kinds.
Qed.

(** Every call returns and keeps the invariant. *)
Lemma vm_call_returns vm f call :
  vm_wf vm -> files_wf f -> vm_args call -> vm_returns (vm_call vm f call).
Proof.
  intros Hw Hf Ha. destruct call; cbn in Ha |- *.
  - by apply word_to_returns.
  - by apply word_to_returns.
  - by apply direct_memory_query_returns.
  - by apply virtual_query_returns.
  - by apply query_memory_protection_returns.
  - by apply available_direct_memory_returns.
  - destruct Ha as (? & ? & ?).
    pose proof (allocate_direct_memory_cases granted guest_pages vm search_start search_end size
      alignment memory_type physical_out) as Hc. cbn zeta in Hc. unfold vm_returns.
    destruct (allocate_refused _ _ _ _ _ _ _); [rewrite Hc by done; by do 2 eexists|].
    destruct Hc as [(b & vm' & _ & _ & -> & ? & _)|(_ & code & _ & ->)]; [done..| |]; by do 2 eexists.
  - destruct (release_direct_memory vm physical size checked) as [v vm'] eqn:Hr.
    apply (release_direct_memory_cases granted guest_pages) in Hr as [? _]; [by do 2 eexists|done|apply Ha..].
  - destruct (map_direct_memory_cases granted guest_pages vm slot size protection flags physical
      alignment name) as (v & vm' & -> & [? _] & _); [done|apply Ha..|by do 2 eexists].
  - by apply map_flexible_memory_returns.
  - destruct (mprotect vm address size protection) as [v vm'] eqn:Hp.
    do 2 eexists. split; [done|]. by eapply mprotect_wf; [..|exact Hp]; try apply Ha.
  - destruct (unmap_memory vm address size) as [v vm'] eqn:Hp.
    do 2 eexists. split; [done|]. by eapply unmap_memory_wf; [..|exact Hp]; try apply Ha.
  - destruct (map_memory_to_returns granted guest_pages vm f address size protection flags fd offset out)
      as (v & vm' & -> & ?); [done|done|apply Ha..|]. by do 2 eexists.
Qed.

Lemma vm_reachable_wf vm : vm_reachable vm -> vm_wf vm.
Proof.
  induction 1 as [s Hs Hr|vm size ok vm' _ IH Hu Hset|vm f call v vm' _ IH Hf Ha Hcall|vm o ok s _ IH Ho Hop].
  - apply init_wf; [|done]. split; [by apply reachable_wf|by apply reachable_agrees].
  - by eapply set_size_wf.
  - destruct (vm_call_returns vm f call IH Hf Ha) as (v' & vm2 & Hc & Hw). congruence.
  - by eapply other_op_wf.
Qed.

End Reachable.

(** ** The largest free range *)

Section Available.
Context `{HostOs, !HostOsLaws H}.

(** An aligned free range of the search window. *)
Definition free_gap (vm : Vm) (search_start search_end alignment b n : Z) : Prop :=
  search_start <= b /\ 0 < n /\ b + n <= Z.min search_end (direct_capacity vm) /\
  b mod default_alignment alignment = 0 /\ physical_free vm b n.

Definition available_refused (vm : Vm)
    (search_start search_end alignment physical_out size_out : Z) : bool :=
  negb (guest_writable (memory_ vm) physical_out 8) || negb (guest_writable (memory_ vm) size_out 8)
  || (search_start <? 0) || (search_end <? 0) || (search_end <=? search_start)
  || bad_alignment alignment.

Lemma free_gaps vm search_start search_end alignment b n :
  vm_wf vm -> 0 <= search_start -> 0 < n ->
  Z.min search_start (direct_capacity vm) < Z.min search_end (direct_capacity vm) ->
  gap (Z.min search_start (direct_capacity vm)) (Z.min search_end (direct_capacity vm))
    (default_alignment alignment) (direct_blocked_ranges vm) b n
  <-> free_gap vm search_start search_end alignment b n.
Proof.
  intros Hw Hss Hn Hroom. unfold gap, free_gap. split; intros (Hb1 & Hb2 & Hb3 & Hb4 & Hb5);
    (split_and!; [lia|done|done|done|]); apply clear_of_free; done || lia.
Qed.

Lemma available_direct_memory_cases vm search_start search_end alignment physical_out size_out :
  vm_wf vm -> in_u64 alignment -> words_apart size_out physical_out ->
  let call := available_direct_memory vm search_start search_end alignment physical_out size_out in
  if available_refused vm search_start search_end alignment physical_out size_out
  then call = Ok (error kErrorEinval, vm)
  else
    (exists base size s, free_gap vm search_start search_end alignment base size /\
       (forall b n, free_gap vm search_start search_end alignment b n -> n <= size) /\
       call = Ok (0, with_memory vm s) /\
       read_guest_u64 s physical_out = Some base /\ read_guest_u64 s size_out = Some size) \/
    ((forall b n, ~ free_gap vm search_start search_end alignment b n) /\
     call = Ok (error kErrorEnomem, vm)).
Proof.
  intros Hw Hal Hap call. unfold call, available_direct_memory, available_refused.
  destruct (negb _ || _ || _ || _ || _ || _) eqn:Hbad; [done|].
  rewrite !orb_false_iff, !negb_false_iff, !Z.ltb_ge, Z.leb_gt in Hbad.
  destruct Hbad as (((((Hwp & Hws) & Hss) & Hse) & Hlt) & Hgood).
  destruct (good_alignment alignment Hal Hgood) as [Hal0 _].
  destruct (partitions vm Hw) as (Hcap & _ & _ & _ & Hend & _).
  destruct (vw_managed vm Hw) as (H0 & H1 & H2 & _). destruct (vw_capacity vm Hw) as ((H4 & H5) & _).
  destruct (Z.leb_spec (Z.min search_end (direct_capacity vm)) (Z.min search_start (direct_capacity vm))).
  { right. split; [|done]. intros b n (? & ? & ? & _). lia. }
  assert (0 < direct_capacity vm) as Hcap0 by lia.
  destruct (blocked_ranges_wf vm Hw Hcap0) as [Hbw _].
  pose proof (largest_gap_spec (Z.min search_start (direct_capacity vm))
    (Z.min search_end (direct_capacity vm)) (default_alignment alignment) (direct_blocked_ranges vm)
    Hbw ltac:(lia) ltac:(lia) ltac:(lia) Hal0) as Hlg.
  destruct (largest_gap _ _ _ _) as [base size]. destruct Hlg as (Hgap & Hmax & Hs0).
  assert (forall b n, free_gap vm search_start search_end alignment b n -> n <= size) as Hmax'.
  { intros b n Hb. apply (Hmax b n), free_gaps; try done. by destruct Hb as (_ & ? & _). }
  destruct (Z.eqb_spec size 0) as [->|Hne].
  { right. split; [|done]. intros b n Hb. specialize (Hmax' b n Hb). destruct Hb as (_ & ? & _). lia. }
  left. specialize (Hgap Hne). apply free_gaps in Hgap; [|done|done|lia|done].
  destruct Hgap as (Hg1 & Hg2 & Hg3 & Hg4 & Hg5).
  destruct (guest_word_stored (memory_ vm) physical_out base) as (s1 & Hw1 & [Hok1 _ _ Hrd1 _ Hwr1]);
    [apply Hw|unfold in_u64; lia|].
  rewrite Hw1, Hwp in *. cbn [mbind result_bind negb].
  destruct (guest_word_stored s1 size_out size Hok1) as (s2 & Hw2 & [_ _ _ Hrd2 Hap2 _]);
    [unfold in_u64; lia|].
  rewrite Hwr1, Hws in *. rewrite Hw2. cbn [mbind result_bind].
  exists base, size, s2. split; [by split_and!|]. split; [done|]. split; [done|].
  split; [rewrite Hap2 by done; by apply Hrd1|by apply Hrd2].
Qed.

End Available.

(** ** The properties *)

Section Properties.
Context `{HostOs, !HostOsLaws H}.
Hypothesis granted : mprotect_granted.
Hypothesis guest_pages : kGuestPageSize mod page_size = 0.



(** [available_direct_memory] answers the largest free range: aligned,
    inside the search window, neither allocated nor mapped, and at least as long
    as any other; when no address is free it answers [ENOMEM] and stores
    nothing. *)
Theorem available_direct_memory_is_the_largest_gap vm
    search_start search_end alignment physical_out size_out :
  vm_reachable vm -> in_u64 alignment -> words_apart size_out physical_out ->
  let call := available_direct_memory vm search_start search_end alignment physical_out size_out in
  if available_refused vm search_start search_end alignment physical_out size_out
  then call = Ok (error kErrorEinval, vm)
  else
    (exists base size s, free_gap vm search_start search_end alignment base size /\
       (forall b n, free_gap vm search_start search_end alignment b n -> n <= size) /\
       call = Ok (0, with_memory vm s) /\
       read_guest_u64 s physical_out = Some base /\ read_guest_u64 s size_out = Some size) \/
    ((forall b n, ~ free_gap vm search_start search_end alignment b n) /\
     call = Ok (error kErrorEnomem, vm)).
Proof.
  intros Hr. apply available_direct_memory_cases. by apply vm_reachable_wf.
Qed.


(** [map_direct_memory] maps allocated memory at its canonical address.  A
    successful call shows that the whole physical range is allocated with one
    memory type; exactly the canonical range becomes a mapping of kind direct
    with the protection, offset, name and type asked for, every other address
    keeps what it had, and the slot holds the address.  A call that fails changes
    no address outside the canonical range.  A call with arguments in order, on
    allocated memory whose canonical range is free, succeeds. *)
Theorem map_direct_memory_maps_the_allocation vm
    slot size protection flags physical alignment name_address :
  vm_reachable vm -> in_u64 size -> in_u64 alignment ->
  exists v vm', map_direct_memory vm slot size protection flags physical alignment name_address
                = Ok (v, vm') /\
    map_direct_outcome vm slot size protection physical name_address v vm' /\
    (map_direct_accepted vm slot size protection flags physical alignment name_address -> v = 0).
Proof.
  intros Hr. apply map_direct_memory_cases; [done|done|]. by apply vm_reachable_wf.
Qed.


End Properties.

(** ** Witnesses

    A native arena of six guest pages: four of direct and two of flexible
    memory, the last of which holds a page of another component. *)

Definition page_space : space :=
  match @reserve_native tiny_host tiny_mem 98304 16384 with
  | Some s => s
  | None => mkSpace [] None tiny_mem
  end.
Definition page_start : Vm := (set_flexible_memory_size (KernelServices_init page_space) 32768).2.
Definition page_vm : Vm :=
  with_memory page_start
    (@map_region tiny_host (memory_ page_start) (tiny_info 98304 16384 3 kind_generic)).2.

Lemma page_vm_reachable : @vm_reachable tiny_host page_vm.
Proof.
  eapply (@vr_other tiny_host _ (OpMap (tiny_info 98304 16384 3 kind_generic)) true).
  - eapply (@vr_size tiny_host _ 32768 (set_flexible_memory_size (KernelServices_init page_space) 32768).1).
    + apply (@vr_start tiny_host page_space); [|reflexivity].
      apply (@reach_native tiny_host tiny_mem 98304 16384 page_space); [by vm_compute|reflexivity].
    + by vm_compute.
    + apply surjective_pairing.
  - split; [by vm_compute|done].
  - reflexivity.
Qed.

Lemma tiny_granted : @mprotect_granted tiny_host.
Proof. done. Qed.

Lemma tiny_pages : kGuestPageSize mod @page_size tiny_host = 0.
Proof. reflexivity. Qed.

Lemma page_cells a : a < 98304 -> cell_at (memory_ page_vm) a = None.
Proof.
  intros Ha. pose proof (proj1 (vw_space _ (@vm_reachable_wf tiny_host tiny_host_laws tiny_granted
    tiny_pages page_vm page_vm_reachable))) as Hs.
  rewrite (@cell_at_covering tiny_host _ a Hs).
  assert (regions (memory_ page_vm) = [tiny_info 98304 16384 3 kind_generic]) as -> by reflexivity.
  cbn [covering]. unfold region_covers. by rewrite (proj2 (in_range_false _ _ a)) by (cbn; lia).
Qed.

Lemma no_files_wf : files_wf initial_files.
Proof. split; [done|]. intros fd r. cbn. by rewrite lookup_empty. Qed.

(** What the witnesses use of a state. *)
Record page_like (vm : Vm) : Prop := {
  pg_reachable : @vm_reachable tiny_host vm;
  pg_base : managed_base_ vm = 16384;
  pg_capacity : direct_capacity vm = 65536;
  pg_cell a : a < 98304 -> cell_at (memory_ vm) a = None;
  pg_writable : guest_writable (memory_ vm) 98304 8 = true /\ guest_writable (memory_ vm) 98312 8 = true;
}.

Lemma page_vm_like : page_like page_vm.
Proof.
  split; [apply page_vm_reachable|reflexivity|reflexivity|apply page_cells|by vm_compute].
Qed.

Lemma page_space_ok vm : page_like vm -> space_wf (H:=tiny_host) (memory_ vm).
Proof.
  intros Hp. exact (proj1 (vw_space _ (@vm_reachable_wf tiny_host tiny_host_laws tiny_granted
    tiny_pages vm (pg_reachable _ Hp)))).
Qed.

Lemma page_fit vm size b :
  page_like vm -> direct_allocations_ vm = [] -> 0 <= b -> b + size <= 65536 -> b mod 16384 = 0 ->
  @allocation_fit vm 0 65536 size 0 b.
Proof.
  intros Hp Hal Hb He Hm. split; [done|]. rewrite (pg_capacity _ Hp). split; [lia|]. split; [done|].
  intros p Hpr. rewrite Hal. split; [done|]. apply (pg_cell _ Hp). rewrite (pg_base _ Hp). lia.
Qed.



Lemma available_direct_memory_is_the_largest_gap_witness :
  exists base size s,
    available_direct_memory page_vm 0 65536 0 98304 98312 = Ok (0, with_memory page_vm s) /\
    65536 <= size /\ read_guest_u64 s 98304 = Some base /\ read_guest_u64 s 98312 = Some size.
Proof.
  assert (direct_allocations_ page_vm = []) as Hal by reflexivity. revert Hal.
  generalize page_vm_like. generalize page_vm. intros vm Hp Hal.
  pose proof (@available_direct_memory_is_the_largest_gap tiny_host tiny_host_laws tiny_granted
    tiny_pages vm 0 65536 0 98304 98312 (pg_reachable _ Hp)) as Hc.
  specialize (Hc ltac:(by vm_compute) ltac:(unfold words_apart; lia)). cbn zeta in Hc.
  unfold available_refused in Hc.
  rewrite (proj1 (pg_writable _ Hp)), (proj2 (pg_writable _ Hp)) in Hc. cbn -[free_gap] in Hc.
  assert (@free_gap vm 0 65536 0 0 65536) as Hg.
  { pose proof (page_fit vm 65536 0 Hp Hal ltac:(done) ltac:(done) ltac:(done)) as (? & ? & ? & ?).
    by split_and!. }
  destruct Hc as [(base & size & s & _ & Hmax & Hcall & H1 & H2)|(Hno & _)].
  - exists base, size, s. split; [exact Hcall|]. split; [by apply (Hmax 0)|]. split; [exact H1|exact H2].
  - by destruct (Hno 0 65536).
Defined.

(** The same with an allocation of two pages. *)
Lemma page_allocated : exists vm, page_like vm /\
  (forall p, type_at (direct_allocations_ vm) p = if in_range 0 32768 p then Some 7 else None) /\
  read_guest_u64 (memory_ vm) 98304 = Some 0.
Proof.
  assert (direct_allocations_ page_vm = []) as Hal by reflexivity. revert Hal.
  generalize page_vm_like. generalize page_vm. intros vm Hp Hal.
  pose proof (@vm_reachable_wf tiny_host tiny_host_laws tiny_granted tiny_pages _ (pg_reachable _ Hp)) as Hw.
  pose proof (@allocate_direct_memory_cases tiny_host tiny_host_laws tiny_granted
    tiny_pages vm 0 65536 32768 0 7 98304 Hw) as Hc.
  specialize (Hc ltac:(by vm_compute) ltac:(by vm_compute) ltac:(by vm_compute)). cbn zeta in Hc.
  unfold allocate_refused in Hc. rewrite (proj1 (pg_writable _ Hp)) in Hc. cbn -[type_at] in Hc.
  pose proof (page_fit vm 32768 0 Hp Hal ltac:(done) ltac:(done) ltac:(done)) as Hfit.
  destruct Hc as [(base & vm' & [? _] & Hl & Hcall & _ & Hb & Hcap & Hty & Hcells & Hwr & Hrd)|(Hno & _)];
    [|by destruct (Hno 0)].
  assert (base = 0) as -> by (specialize (Hl 0 Hfit); lia).
  exists vm'. split; [split|split; [intros p; by rewrite Hty, Hal|done]].
  - eapply (@vr_call tiny_host vm initial_files (CallAllocateDirect 0 65536 32768 0 7 98304));
      [apply Hp|apply no_files_wf|by vm_compute|exact Hcall].
  - by rewrite Hb, (pg_base _ Hp).
  - by rewrite Hcap, (pg_capacity _ Hp).
  - intros a Ha. rewrite Hcells. by apply (pg_cell _ Hp).
  - rewrite !Hwr. apply Hp.
Qed.


Lemma map_direct_memory_maps_the_allocation_witness :
  exists vm vm', @map_direct_memory tiny_host vm 98304 16384 3 0 16384 0 0 = Ok (0, vm') /\
    (c_kind <$> cell_at (memory_ vm') 40000) = Some kind_direct /\
    (c_memory_type <$> cell_at (memory_ vm') 40000) = Some 7.
Proof.
  destruct page_allocated as (vm & Hpg & Hty & Hrd).
  destruct (@map_direct_memory_maps_the_allocation tiny_host tiny_host_laws tiny_granted
    tiny_pages vm 98304 16384 3 0 16384 0 0 (pg_reachable _ Hpg) ltac:(by vm_compute) ltac:(by vm_compute))
    as (v & vm' & Hcall & (_ & _ & Hout) & Hacc). pose proof (pg_base _ Hpg) as Hb.
  assert (v = 0) as ->.
  { apply Hacc. split.
    - unfold map_direct_refused. by rewrite (proj1 (pg_writable _ Hpg)).
    - by eexists.
    - exists 0. by split; [|left].
    - by eexists.
    - rewrite (pg_capacity _ Hpg). split; [done|]. exists 7. intros p Hp. rewrite Hty.
      by rewrite (proj2 (in_range_true _ _ p)) by lia.
    - by rewrite Hb.
    - intros a Ha%in_range_true. unfold kind_at. rewrite (pg_cell _ Hpg); [done|]. rewrite Hb in Ha. lia. }
  exists vm, vm'. split; [exact Hcall|]. cbn in Hout.
  destruct Hout as (host & name & t & _ & _ & Ht & [Hc _]).
  rewrite Hb in *. rewrite (Hc 40000). split; [done|].
  specialize (Ht 20000 ltac:(lia)). rewrite Hty in Ht. injection Ht as <-. done.
Defined.

