(* ===== verification/Threads.v ===== *)
(** * Handlers as atomic sections

    A handler of the kernel services that takes host locks runs as a sequence
    of sections, each atomic for what the lock protects.  A section ends with
    the handler's result or with what the calling thread goes on with, its
    program counter; the threads inside handlers are a map of program
    counters.  [pcount] counts the threads at program counters of interest. *)

From S2P Require Import Prelude NativeArena GuestMemory GuestMemoryProps KernelMem KernelAttrs KernelTime.

Local Open Scope Z_scope.

Inductive outcome (P : Type) : Type :=
| Returned (code : Z)
| Paused (pc : P).
Arguments Returned {P} code.
Arguments Paused {P} pc.

(** A pointer that the handler knows to be valid. *)
Definition deref {A} (o : option A) : result A :=
  match o with Some a => Ok a | None => Throw (undefined_behaviour "dangling pointer") end.

Lemma deref_Ok {A} (o : option A) a : deref o = Ok a <-> o = Some a.
Proof. destruct o; cbn; naive_solver. Qed.

Section Threads.
Context {P : Type}.
Implicit Types (pcs : gmap Z P) (o : outcome P).

Definition set_pc (t : Z) o pcs : gmap Z P :=
  match o with Returned _ => delete t pcs | Paused pc => <[t := pc]> pcs end.

Definition pcount (f : P -> bool) pcs : Z := Z.of_nat (size (filter (fun p => f p.2 = true) pcs)).

Definition weight (f : P -> bool) (pc : option P) : Z :=
  match pc with Some pc => Z.b2z (f pc) | None => 0 end.

Definition after o : option P := match o with Returned _ => None | Paused pc => Some pc end.

Lemma pcount_delete f t pcs : pcount f pcs = pcount f (delete t pcs) + weight f (pcs !! t).
Proof.
  unfold pcount, weight. destruct (pcs !! t) as [pc|] eqn:E; [|rewrite delete_id by done; lia].
  rewrite <- (insert_delete_id pcs t pc E) at 1. destruct (f pc) eqn:Ef; cbn.
  - rewrite map_filter_insert_True by done. rewrite map_size_insert_None; [lia|].
    apply map_lookup_filter_None. left. by rewrite lookup_delete_eq.
  - rewrite map_filter_insert_False by (cbn; congruence). rewrite delete_delete_eq. lia.
Qed.

Lemma pcount_set f t o pcs : pcount f (set_pc t o pcs) = pcount f (delete t pcs) + weight f (after o).
Proof.
  rewrite (pcount_delete f t). destruct o; cbn.
  - by rewrite delete_delete_eq, lookup_delete_eq.
  - by rewrite delete_insert_eq, lookup_insert_eq.
Qed.

Lemma pcount_nonneg f pcs : 0 <= pcount f pcs.
Proof. unfold pcount. lia. Qed.

Lemma pcount_size f pcs : pcount f pcs <= Z.of_nat (size pcs).
Proof. unfold pcount. apply inj_le, map_subseteq_size, map_filter_subseteq. Qed.

Lemma pcount_pos f t pc pcs : pcs !! t = Some pc -> f pc = true -> 0 < pcount f pcs.
Proof.
  intros E Ef. rewrite (pcount_delete f t), E. cbn. rewrite Ef.
  pose proof (pcount_nonneg f (delete t pcs)). cbn. lia.
Qed.

Lemma size_set_pc t o pcs : Z.of_nat (size (set_pc t o pcs)) <= Z.of_nat (size pcs) + 1.
Proof.
  destruct o; cbn.
  - rewrite map_size_delete. destruct (pcs !! t); unfold id; lia.
  - rewrite map_size_insert. destruct (pcs !! t); unfold id; lia.
Qed.

Lemma lookup_set_pc t o pcs t' :
  set_pc t o pcs !! t' = if decide (t = t') then after o else pcs !! t'.
Proof.
  destruct o; cbn; case_decide as E; subst;
    by rewrite ?lookup_delete_eq, ?lookup_insert_eq, ?lookup_delete_ne, ?lookup_insert_ne by done.
Qed.

End Threads.

(** ** Clocks *)

(** A clock that answers times after its epoch, with counts that fit. *)
Record clock_sane (now : ClockReading) : Prop := {
  cs_system : 0 <= system_now now <= i64_max;
  cs_steady : 0 <= steady_now now <= i64_max;
  cs_usage u s : rusage now = Some (u, s) ->
    (0 <= u.1 <= i64_max /\ 0 <= u.2 < 1000000) /\ (0 <= s.1 <= i64_max /\ 0 <= s.2 < 1000000);
}.

Lemma clock_now_ok now id :
  clock_sane now -> exists v, clock_now now id = Ok v /\
    forall s ns, v = Some (s, ns) -> 0 <= s <= i64_max /\ 0 <= ns < 1000000000.
Proof.
  intros [H1 H2 H3]. unfold clock_now, split_duration.
  assert (forall d, 0 <= d <= i64_max ->
    0 <= Z.quot d 1000000000 <= i64_max /\ 0 <= Z.rem d 1000000000 < 1000000000) as Hd.
  { intros d Hd. rewrite Z.quot_div_nonneg, Z.rem_mod_nonneg by lia. Z.div_mod_to_equations. lia. }
  destruct (id =? kClockRealtime); [eexists; split; [done|]; intros s ns [= <- <-]; by apply Hd|].
  destruct (id =? kClockMonotonic); [eexists; split; [done|]; intros s ns [= <- <-]; by apply Hd|].
  destruct (_ && _); [by eexists|]. destruct (rusage now) as [[u s]|]; [|by eexists].
  destruct (H3 u s eq_refl) as [Hu Hs].
  rewrite i64_ok by (unfold in_i64; destruct (id =? kClockVirtual); lia). cbn.
  eexists. split; [done|]. intros x y [= <- <-]. destruct (id =? kClockVirtual); lia.
Qed.
