(* ===== verification/ThreadManager.v ===== *)
(** * Guest threads

    [GuestThreadManager] ([src/src/runtime/thread_manager.cpp]) and the
    [GuestThread] it owns ([src/src/runtime/guest_thread.cpp]).  A handle is
    the address of a heap record; the manager maps handles to their records
    under one lock, and [join] works on the record outside of it, protected by
    the claim it left in it.  The handlers are written as the sections the lock
    makes atomic ([Threads]), over a state that also holds the host workers, so
    that a pointer into a record that has been destroyed shows as undefined
    behaviour.

    A worker is finished when its host thread has left the guest: the store of
    [finished], the notification and the end of the host thread are one step,
    nothing between them touches the manager.  [std::thread::join] returns when
    the worker is finished; the deadlock error that a host may answer instead,
    and a [wait_until] that throws, are not modelled.  Where the host decides
    (allocation, stack, entry trampoline, TLS context, new host thread) its
    decision is an input. *)

From S2P Require Import Prelude NativeArena GuestMemory GuestMemoryProps KernelMem HandleTable KernelAttrs KernelTime Threads.

Local Open Scope Z_scope.

Definition kEsrch := 3.
Definition kEdeadlk := 11.
Definition kEinval := 22.
Definition kEagain := 35.
Definition kEnotsup := 45.
Definition kEtimedout := 60.

(** How the worker's invocation of the guest ended: [GuestInvocationResult]
    with a value or a fault, or a host exception. *)
Inductive invocation : Type :=
| Completed (value : Z)
| Faulted
| HostException.

Inductive worker_state : Type :=
| Running
| Finished (r : invocation).

(** A host worker: the [current_thread_handle] of its thread and its state. *)
Record Worker : Type := mkWorker { wk_handle : Z; wk_state : worker_state }.

(** [GuestThreadManager::Record], with its address. *)
Record ThreadRecord : Type := mkThreadRecord {
  rec_address : Z;
  rec_thread : option Z;
  rec_detached : bool;
  rec_join_claimed : bool;
}.

Record manager : Type := mkManager {
  threads_ : gmap Z ThreadRecord;
  shutting_down_ : bool;
  workers : gmap Z Worker;
}.

(** What [create] and [timed_join] ask of the kernel services. *)
Record services (M : Type) : Type := mkServices {
  sv_memory : M;
  sv_thread_attrs : table ThreadAttributes;
}.
Arguments mkServices {M} _ _.
Arguments sv_memory {M} _.
Arguments sv_thread_attrs {M} _.

(** What the host answers to one [create]: the address of the new record, the
    resources of [GuestThread::start] and the new host thread ([None] where the
    host throws). *)
Record host_create : Type := mkHostCreate {
  hc_record : option Z;
  hc_stack : Z -> bool;
  hc_trampoline : bool;
  hc_context : bool;
  hc_worker : option Z;
}.

Inductive started : Type :=
| Started (worker : Z)
| NotStarted
| StartThrows.

(** What a join holds while it is outside the lock: the handle, the address of
    the claimed record, the worker its [thread] pointer designates and whether
    the caller wants the value. *)
Record claim : Type := mkClaim {
  cl_handle : Z;
  cl_record : Z;
  cl_thread : Z;
  cl_return : bool;
}.

Inductive tm_pc : Type :=
| JoinTimed (c : claim) (deadline : Z)
| JoinUnclaim (c : claim)
| JoinWorker (c : claim)
| JoinFinish (c : claim) (r : invocation).

Definition claim_of (pc : tm_pc) : claim :=
  match pc with JoinTimed c _ | JoinUnclaim c | JoinWorker c | JoinFinish c _ => c end.

Inductive tm_op : Type :=
| TCreate (handle_out : bool) (attributes start_routine argument stack_size : Z)
| TJoin (handle : Z) (return_value : bool)
| TTimedJoin (handle : Z) (return_value : bool) (absolute_timeout_address : Z)
| TDetach (handle : Z)
| TSize.

(** A section: its result, what it stores through the caller's pointer, and the
    manager it leaves. *)
Definition section : Type := outcome tm_pc * option Z * manager.

Definition set_threads (f : gmap Z ThreadRecord -> gmap Z ThreadRecord) (s : manager) : manager :=
  mkManager (f (threads_ s)) (shutting_down_ s) (workers s).

Definition set_claim (b : bool) (r : ThreadRecord) : ThreadRecord :=
  mkThreadRecord (rec_address r) (rec_thread r) (rec_detached r) b.
Definition set_detached (r : ThreadRecord) : ThreadRecord :=
  mkThreadRecord (rec_address r) (rec_thread r) true (rec_join_claimed r).

(** [GuestThread::finished]. *)
Definition finished (s : manager) (w : Z) : bool :=
  match workers s !! w with Some (mkWorker _ (Finished _)) => true | _ => false end.

Definition reapable (s : manager) (r : ThreadRecord) : bool :=
  rec_detached r && match rec_thread r with Some w => finished s w | None => false end.

Definition reap_finished_detached_locked (s : manager) : manager :=
  set_threads (filter (fun p => reapable s p.2 = false)) s.

(** [GuestThread::start]. *)
Definition start (h : host_create) (entry stack_size : Z) : started :=
  if entry =? 0 then NotStarted
  else if negb (hc_stack h stack_size) || negb (hc_trampoline h) || negb (hc_context h) then NotStarted
  else match hc_worker h with Some w => Started w | None => StartThrows end.

Section Manager.
Context {M : Type} `{GuestWords M}.
Variable root : Z.
Implicit Types (s : manager) (ks : option (services M)).

(** The stack size and the detach state of a new thread; [inl] is the error. *)
Definition thread_options ks (attributes stack_size : Z) : Z + (Z * bool) :=
  if attributes =? 0 then inr (stack_size, false)
  else
    match ks with
    | None => inl kEinval
    | Some sv =>
        match thread_attr_snapshot (sv_memory sv) (sv_thread_attrs sv) attributes with
        | inl error => inl error
        | inr resolved => inr (KernelAttrs.stack_size resolved, detached resolved)
        end
    end.

Definition create (h : host_create) ks s (handle_out : bool)
    (attributes start_routine argument stack_size : Z) : section :=
  if negb handle_out || (start_routine =? 0) then (Returned kEinval, None, s)
  else
    match thread_options ks attributes stack_size with
    | inl error => (Returned error, None, s)
    | inr (stack_size, detached) =>
        match hc_record h with
        | None => (Returned kEagain, None, s)
        | Some handle =>
            if shutting_down_ s then (Returned kEagain, None, s)
            else
              let s := reap_finished_detached_locked s in
              match threads_ s !! handle with
              | Some _ => (Returned kEagain, None, s)
              | None =>
                  match start h start_routine stack_size with
                  | NotStarted | StartThrows => (Returned kEagain, None, s)
                  | Started w =>
                      (Returned 0, Some handle,
                       mkManager (<[handle := mkThreadRecord handle (Some w) detached false]> (threads_ s))
                         (shutting_down_ s) (<[w := mkWorker handle Running]> (workers s)))
                  end
              end
        end
    end.

(** [join_impl] up to the end of the section that claims the record. *)
Definition join_impl (current : Z) s (handle : Z) (return_value : bool) (deadline : option Z) : section :=
  if handle =? 0 then (Returned kEinval, None, s)
  else if negb (current =? 0) && (handle =? current) then (Returned kEdeadlk, None, s)
  else if handle =? root then (Returned kEinval, None, s)
  else
    match threads_ s !! handle with
    | None => (Returned kEsrch, None, s)
    | Some r =>
        if rec_detached r then (Returned kEinval, None, s)
        else if rec_join_claimed r then (Returned kEnotsup, None, s)
        else
          match rec_thread r with
          | None => (Returned kEinval, None, s)
          | Some w =>
              let s := set_threads (alter (set_claim true) handle) s in
              let c := mkClaim handle (rec_address r) w return_value in
              (Paused (match deadline with Some d => JoinTimed c d | None => JoinWorker c end), None, s)
          end
    end.

Definition timed_join (current : Z) ks s (handle : Z) (return_value : bool)
    (absolute_timeout_address : Z) : result section :=
  match ks with
  | None => Ok (Returned kEinval, None, s)
  | Some sv =>
      '(deadline_result, deadline) ← realtime_deadline (sv_memory sv) absolute_timeout_address;
      if negb (deadline_result =? 0) then Ok (Returned deadline_result, None, s)
      else Ok (join_impl current s handle return_value deadline)
  end.

Definition detach s (handle : Z) : section :=
  if handle =? 0 then (Returned kEsrch, None, s)
  else if handle =? root then (Returned kEinval, None, s)
  else
    match threads_ s !! handle with
    | None => (Returned kEsrch, None, s)
    | Some r =>
        if rec_detached r || rec_join_claimed r then (Returned kEinval, None, s)
        else (Returned 0, None, set_threads (alter set_detached handle) s)
    end.

(** [size] answers the count as its result. *)
Definition size_ s : section :=
  let s := reap_finished_detached_locked s in
  (Returned (Z.of_nat (size (threads_ s))), None, s).

(** The pointer [thread] of a join: the record must still be alive and hold
    the thread it held when it was claimed. *)
Definition thread_at s (c : claim) : result Worker :=
  deref (r ← threads_ s !! cl_record c;
         w ← rec_thread r;
         if w =? cl_thread c then workers s !! w else None).

(** The record [find] designates, when it is the claimed one. *)
Definition claimed_record s (c : claim) : option ThreadRecord :=
  r ← threads_ s !! cl_handle c;
  if rec_address r =? cl_record c then Some r else None.

(** The last section of a join. *)
Definition finish_join s (c : claim) (r : invocation) : section :=
  let erased := set_threads (delete (cl_handle c)) s in
  match r, claimed_record s c with
  | HostException, Some _ => (Returned kEinval, None, erased)
  | HostException, None => (Returned kEinval, None, s)
  | _, None => (Returned kEsrch, None, s)
  | Faulted, Some _ => (Returned kEinval, None, erased)
  | Completed value, Some _ => (Returned 0, if cl_return c then Some value else None, erased)
  end.

(** A handler up to its first pause, called on a thread whose
    [current_handle()] is [current]. *)
Definition tm_call (h : host_create) (current : Z) ks s (op : tm_op) : result section :=
  match op with
  | TCreate handle_out attributes start_routine argument stack_size =>
      Ok (create h ks s handle_out attributes start_routine argument stack_size)
  | TJoin handle return_value => Ok (join_impl current s handle return_value None)
  | TTimedJoin handle return_value address => timed_join current ks s handle return_value address
  | TDetach handle => Ok (detach s handle)
  | TSize => Ok (size_ s)
  end.

(** The next section of a join.  [expired] tells whether the deadline of a
    timed wait has passed; a join whose worker runs stays where it is. *)
Definition tm_resume (expired : bool) s (pc : tm_pc) : result section :=
  match pc with
  | JoinTimed c deadline =>
      thread ← thread_at s c;
      match wk_state thread with
      | Finished _ => Ok (Paused (JoinWorker c), None, s)
      | Running => Ok (Paused (if expired then JoinUnclaim c else JoinTimed c deadline), None, s)
      end
  | JoinUnclaim c =>
      Ok (Returned kEtimedout, None,
          match claimed_record s c with
          | Some _ => set_threads (alter (set_claim false) (cl_handle c)) s
          | None => s
          end)
  | JoinWorker c =>
      thread ← thread_at s c;
      match wk_state thread with
      | Finished r => Ok (Paused (JoinFinish c r), None, s)
      | Running => Ok (Paused (JoinWorker c), None, s)
      end
  | JoinFinish c r => Ok (finish_join s c r)
  end.

(** The locked section of the destructor: the records it then destroys, each
    waiting for its worker, and the manager that remains. *)
Definition shut_down s : gmap Z ThreadRecord * manager :=
  (threads_ s, mkManager ∅ true (workers s)).

(** ** Runs *)

Record tm_world : Type := mkTmWorld { tw_manager : manager; tw_pcs : gmap Z tm_pc }.

Inductive tm_label : Type :=
| TmCalled (t : Z) (op : tm_op) (o : outcome tm_pc) (out : option Z)
| TmResumed (t : Z) (pc : tm_pc) (o : outcome tm_pc) (out : option Z)
| TmExited (w : Z) (r : invocation).

(** The thread [t] may call with [current]: a worker is running and its handle
    is current; any other host thread is the root or outside a guest scope. *)
Definition caller_ok s (t current : Z) : Prop :=
  match workers s !! t with
  | Some wk => wk_state wk = Running /\ current = wk_handle wk
  | None => current = 0 \/ current = root
  end.

(** What a heap and a host thread library promise: a new record is not at the
    address of a live one, nor at null or at the manager; a new host thread is
    none that there is. *)
Definition host_ok (h : host_create) s (pcs : gmap Z tm_pc) (t : Z) : Prop :=
  (forall a, hc_record h = Some a -> threads_ s !! a = None /\ a <> 0 /\ a <> root) /\
  (forall w, hc_worker h = Some w -> workers s !! w = None /\ pcs !! w = None /\ w <> t).

Inductive tm_step : tm_world -> tm_label -> tm_world -> Prop :=
| tm_step_call s pcs t h current ks op o out s' :
    pcs !! t = None -> caller_ok s t current -> host_ok h s pcs t ->
    (forall sv, ks = Some sv -> gw_wf (sv_memory sv)) ->
    tm_call h current ks s op = Ok (o, out, s') ->
    tm_step (mkTmWorld s pcs) (TmCalled t op o out) (mkTmWorld s' (set_pc t o pcs))
| tm_step_resume s pcs t expired pc o out s' :
    pcs !! t = Some pc ->
    tm_resume expired s pc = Ok (o, out, s') ->
    tm_step (mkTmWorld s pcs) (TmResumed t pc o out) (mkTmWorld s' (set_pc t o pcs))
| tm_step_exit s pcs w handle r :
    workers s !! w = Some (mkWorker handle Running) -> pcs !! w = None ->
    tm_step (mkTmWorld s pcs) (TmExited w r)
      (mkTmWorld (mkManager (threads_ s) (shutting_down_ s) (<[w := mkWorker handle (Finished r)]> (workers s))) pcs).

Definition tm_start : tm_world := mkTmWorld (mkManager ∅ false ∅) ∅.

(** A run from a new manager, latest step first. *)
Inductive tm_run : list tm_label -> tm_world -> Prop :=
| tm_run_start : tm_run [] tm_start
| tm_run_step tr w l w' : tm_run tr w -> tm_step w l w' -> tm_run (l :: tr) w'.

(** The worker that a step has joined successfully. *)
Definition joined_by (l : tm_label) : option Z :=
  match l with
  | TmResumed _ (JoinFinish c _) (Returned 0) _ => Some (cl_thread c)
  | _ => None
  end.

(** The handle a successful [detach] released. *)
Definition detached_by (l : tm_label) : option Z :=
  match l with TmCalled _ (TDetach handle) (Returned 0) _ => Some handle | _ => None end.

End Manager.
