(* ===== verification/ThreadManagerProps.v ===== *)
(** * Properties of the guest thread manager

    The invariant that the lock and the claims maintain, whatever the threads
    interleave: a claimed record is alive, claimed by exactly one thread, and
    not detached; a running worker has a record.  The theorems about joining,
    detaching and reaping follow. *)

From S2P Require Import Prelude NativeArena GuestMemory GuestMemoryProps KernelMem HandleTable KernelAttrs KernelTime Threads ThreadManager.

Local Open Scope Z_scope.

Section Manager.
Context {M : Type} `{Hwords : GuestWords M} `{!GuestWordsLaws M}.
Variable root : Z.
Implicit Types (s : manager) (pcs : gmap Z tm_pc).

(** The claim of the thread [t] holds: the record is alive and claimed. *)
Record claim_ok s (t : Z) (pc : tm_pc) (c : claim) (r : ThreadRecord) (wk : Worker) : Prop := {
  ck_record : threads_ s !! cl_handle c = Some r;
  ck_address : cl_record c = cl_handle c;
  ck_thread : rec_thread r = Some (cl_thread c);
  ck_claimed : rec_join_claimed r = true;
  ck_other : cl_thread c <> t;
  ck_worker : workers s !! cl_thread c = Some wk;
  ck_finished res : pc = JoinFinish c res -> wk_state wk = Finished res;
}.

Record record_ok s (h : Z) (r : ThreadRecord) : Prop := {
  rk_address : rec_address r = h;
  rk_handle : h <> 0 /\ h <> root;
  rk_thread : exists w wk, rec_thread r = Some w /\ workers s !! w = Some wk /\ wk_handle wk = h;
  rk_excl : rec_detached r = true -> rec_join_claimed r = false;
}.

Record tm_inv s pcs : Prop := {
  ti_record h r : threads_ s !! h = Some r -> record_ok s h r;
  ti_running w h : workers s !! w = Some (mkWorker h Running) ->
    exists r, threads_ s !! h = Some r /\ rec_thread r = Some w;
  ti_claim t pc : pcs !! t = Some pc -> exists r wk, claim_ok s t pc (claim_of pc) r wk;
  ti_unique t1 pc1 t2 pc2 : pcs !! t1 = Some pc1 -> pcs !! t2 = Some pc2 ->
    cl_handle (claim_of pc1) = cl_handle (claim_of pc2) -> t1 = t2;
  ti_claimed h r : threads_ s !! h = Some r -> rec_join_claimed r = true ->
    exists t pc, pcs !! t = Some pc /\ cl_handle (claim_of pc) = h;
}.

Lemma start_inv : tm_inv (mkManager ∅ false ∅) ∅.
Proof. by split. Qed.

Lemma returned_inv s pcs t code : pcs !! t = None -> tm_inv s pcs -> tm_inv s (set_pc t (Returned code) pcs).
Proof. intros Ht Hi. cbn. by rewrite delete_id. Qed.

(** ** Reaping *)

Lemma reap_lookup s h r :
  threads_ (reap_finished_detached_locked s) !! h = Some r <->
  threads_ s !! h = Some r /\ reapable s r = false.
Proof. cbn. rewrite map_lookup_filter_Some. done. Qed.

Lemma finished_Finished s w : finished s w = true <-> exists h res, workers s !! w = Some (mkWorker h (Finished res)).
Proof.
  unfold finished. destruct (workers s !! w) as [[h [|res]]|]; split; try done; try naive_solver.
Qed.

Lemma reap_inv s pcs : tm_inv s pcs -> tm_inv (reap_finished_detached_locked s) pcs.
Proof.
  intros [H1 H2 H3 H4 H5]. split.
  - intros h r [Hr _]%reap_lookup. destruct (H1 h r Hr) as [? ? ? ?]. by split.
  - intros w h Hw. destruct (H2 w h Hw) as (r & Hr & Ht). exists r. split; [|done].
    apply reap_lookup. split; [done|]. unfold reapable. rewrite Ht. unfold finished.
    cbn in Hw. rewrite Hw. apply andb_false_r.
  - intros t pc Hp. destruct (H3 t pc Hp) as (r & wk & [Hr ? ? Hc ? ? ?]). exists r, wk. split; try done.
    apply reap_lookup. split; [done|]. unfold reapable.
    destruct (rec_detached r) eqn:Hd; [|done]. apply (rk_excl _ _ _ (H1 _ _ Hr)) in Hd. congruence.
  - exact H4.
  - intros h r [Hr _]%reap_lookup. by apply H5.
Qed.

(** ** The sections that change a record *)

(** A record [h] changes its flags; the thread [t] moves to [o]. *)
Lemma alter_inv s pcs t o h r f :
  tm_inv s pcs -> threads_ s !! h = Some r ->
  rec_address (f r) = rec_address r -> rec_thread (f r) = rec_thread r ->
  (rec_detached (f r) = true -> rec_join_claimed (f r) = false) ->
  (forall t' pc, set_pc t o pcs !! t' = Some pc ->
     cl_handle (claim_of pc) <> h /\ pcs !! t' = Some pc \/
     t' = t /\ cl_handle (claim_of pc) = h /\ exists wk,
       claim_ok (set_threads (alter f h) s) t pc (claim_of pc) (f r) wk) ->
  (forall t' pc, pcs !! t' = Some pc -> cl_handle (claim_of pc) <> h -> t' <> t) ->
  (rec_join_claimed (f r) = true -> exists pc, after o = Some pc /\ cl_handle (claim_of pc) = h) ->
  tm_inv (set_threads (alter f h) s) (set_pc t o pcs).
Proof.
  intros [H1 H2 H3 H4 H5] Hr Ha Hth Hex Hpc Hne Hcl.
  assert (forall k r', alter f h (threads_ s) !! k = Some r' ->
    k = h /\ r' = f r \/ k <> h /\ threads_ s !! k = Some r') as Hl.
  { intros k r'. destruct (decide (k = h)) as [->|Hk].
    - rewrite lookup_alter_eq, Hr. cbn. intros [= <-]. by left.
    - rewrite lookup_alter_ne by done. intros. by right. }
  assert (forall k r', k <> h -> threads_ s !! k = Some r' -> alter f h (threads_ s) !! k = Some r') as Hk.
  { intros k r' Hk. by rewrite lookup_alter_ne. }
  split; cbn [threads_ workers set_threads].
  - intros k r' [[-> ->]|[Hkh Hr']]%Hl; [|by destruct (H1 k r' Hr'); split].
    destruct (H1 h r Hr) as [Ha1 Hh (w & wk & Hw) _]. split; [congruence|done| |done].
    exists w, wk. by rewrite Hth.
  - intros w k Hw. destruct (H2 w k Hw) as (r' & Hr' & Ht). destruct (decide (k = h)) as [->|Hkh].
    + exists (f r). rewrite lookup_alter_eq, Hr. cbn. split; [done|]. rewrite Hth. congruence.
    + exists r'. split; [by apply Hk|done].
  - intros t' pc Hp. destruct (Hpc t' pc Hp) as [[Hh Hp']|(-> & _ & wk & Hck)]; [|by eauto].
    destruct (H3 t' pc Hp') as (r' & wk & [? ? ? ? ? ? ?]). exists r', wk. split; try done. by apply Hk.
  - intros t1 pc1 t2 pc2 Hp1 Hp2 He.
    destruct (Hpc t1 pc1 Hp1) as [[Hh1 Hp1']|(-> & Hh1 & _)], (Hpc t2 pc2 Hp2) as [[Hh2 Hp2']|(-> & Hh2 & _)];
      try congruence. by eapply H4.
  - intros k r' [[-> ->]|[Hkh Hr']]%Hl Hc.
    + destruct (Hcl Hc) as (pc & Hpc' & Hh). exists t, pc. split; [|done].
      rewrite lookup_set_pc. by rewrite decide_True.
    + destruct (H5 k r' Hr' Hc) as (t' & pc & Hp & Hh). exists t', pc. split; [|done].
      rewrite lookup_set_pc. rewrite decide_False; [done|]. intros ->.
      apply (Hne t' pc Hp); [|done]. congruence.
Qed.

Lemma claimed_is_not_detached s pcs t pc c r wk :
  tm_inv s pcs -> claim_ok s t pc c r wk -> rec_detached r = false.
Proof.
  intros Hi [Hr _ _ Hc _ _ _]. destruct (rec_detached r) eqn:Hd; [|done].
  apply (rk_excl _ _ _ (ti_record _ _ Hi _ _ Hr)) in Hd. congruence.
Qed.

(** A thread other than the claimer does not hold a claim of the record. *)
Lemma no_other_claim s pcs h r t pc :
  tm_inv s pcs -> threads_ s !! h = Some r -> rec_join_claimed r = false ->
  pcs !! t = Some pc -> cl_handle (claim_of pc) <> h.
Proof.
  intros Hi Hr Hc Hp <-. destruct (ti_claim _ _ Hi _ _ Hp) as (r' & wk & [Hr' _ _ Hc' _ _ _]). congruence.
Qed.

Lemma detach_inv s pcs t h o out s' :
  tm_inv s pcs -> pcs !! t = None -> detach root s h = (o, out, s') -> tm_inv s' (set_pc t o pcs).
Proof.
  intros Hi Ht. unfold detach.
  destruct (h =? 0); [intros [= <- <- <-]; by apply returned_inv|].
  destruct (h =? root); [intros [= <- <- <-]; by apply returned_inv|].
  destruct (threads_ s !! h) as [r|] eqn:Hr; [|intros [= <- <- <-]; by apply returned_inv].
  destruct (rec_detached r || rec_join_claimed r) eqn:Hd; intros [= <- <- <-]; [by apply returned_inv|].
  apply orb_false_iff in Hd as [_ Hc]. eapply alter_inv; [done|exact Hr|done..| | |].
  - cbn. rewrite delete_id by done. intros t' pc Hp. left. split; [by eapply no_other_claim|done].
  - intros t' pc Hp _ ->. congruence.
  - cbn. congruence.
Qed.

Lemma join_inv s pcs t current h ret deadline o out s' :
  tm_inv s pcs -> pcs !! t = None -> caller_ok root s t current ->
  join_impl root current s h ret deadline = (o, out, s') -> tm_inv s' (set_pc t o pcs).
Proof.
  intros Hi Ht Hcall. unfold join_impl.
  destruct (Z.eqb_spec h 0) as [|H0]; [intros [= <- <- <-]; by apply returned_inv|].
  destruct (negb (current =? 0) && (h =? current)) eqn:Hcur; [intros [= <- <- <-]; by apply returned_inv|].
  destruct (Z.eqb_spec h root) as [|Hroot]; [intros [= <- <- <-]; by apply returned_inv|].
  destruct (threads_ s !! h) as [r|] eqn:Hr; [|intros [= <- <- <-]; by apply returned_inv].
  destruct (rec_detached r) eqn:Hd; [intros [= <- <- <-]; by apply returned_inv|].
  destruct (rec_join_claimed r) eqn:Hc; [intros [= <- <- <-]; by apply returned_inv|].
  destruct (ti_record _ _ Hi _ _ Hr) as [Ha _ (w & wk & Hth & Hw & Hwh) _]. rewrite Hth.
  intros [= <- <- <-]. set (c := mkClaim h (rec_address r) w ret).
  remember (match deadline with Some d => JoinTimed c d | None => JoinWorker c end) as pc eqn:Epc.
  assert (claim_of pc = c) as Hpc by (subst pc; by destruct deadline).
  eapply alter_inv; [done|exact Hr|done|done|cbn; congruence| | |].
  - intros t' pc'. rewrite lookup_set_pc. case_decide as Htt.
    + cbn. intros [= <-]. right. rewrite Hpc. split_and!; [done|done|]. exists wk. split; cbn; try done.
      * by rewrite lookup_alter_eq, Hr.
      * intros ->. unfold caller_ok in Hcall. rewrite Hw in Hcall. destruct Hcall as [_ Hcall].
        apply andb_false_iff in Hcur as [Hcur|Hcur]; [|rewrite Z.eqb_neq in Hcur; congruence].
        apply negb_false_iff, Z.eqb_eq in Hcur. congruence.
      * intros res Hres. rewrite Epc in Hres. by destruct deadline.
    + intros Hp. left. split; [by eapply no_other_claim|done].
  - intros t' pc' Hp _ ->. congruence.
  - intros _. exists pc. cbn. split; [done|]. by rewrite Hpc.
Qed.

Lemma create_inv s pcs t h ks handle_out attributes start_routine argument stack o out s' :
  tm_inv s pcs -> pcs !! t = None -> host_ok root h s pcs t ->
  create h ks s handle_out attributes start_routine argument stack = (o, out, s') ->
  tm_inv s' (set_pc t o pcs).
Proof.
  intros Hi Ht [Hrec Hwork]. unfold create.
  destruct (_ || _); [intros [= <- <- <-]; by apply returned_inv|].
  destruct (thread_options _ _ _) as [|[sz det]]; [intros [= <- <- <-]; by apply returned_inv|].
  destruct (hc_record h) as [a|]; [|intros [= <- <- <-]; by apply returned_inv].
  destruct (shutting_down_ s); [intros [= <- <- <-]; by apply returned_inv|].
  pose proof (reap_inv _ _ Hi) as Hi'. destruct (Hrec a eq_refl) as (Ha & Ha0 & Har).
  set (s1 := reap_finished_detached_locked s) in *.
  assert (threads_ s1 !! a = None) as Ha1.
  { destruct (threads_ s1 !! a) as [r|] eqn:E; [|done]. apply reap_lookup in E as [E _]. congruence. }
  rewrite Ha1. destruct (start h start_routine sz) as [w| |] eqn:Hst;
    try (intros [= <- <- <-]; by apply returned_inv).
  assert (hc_worker h = Some w) as Hw.
  { unfold start in Hst. destruct (start_routine =? 0); [done|]. destruct (_ || _); [done|].
    destruct (hc_worker h); [congruence|done]. }
  destruct (Hwork w Hw) as (Hw0 & Hwp & Hwt). clear Hst Hrec Hwork.
  intros [= <- <- <-]. cbn [set_pc]. rewrite delete_id by done.
  assert (workers s1 !! w = None) as Hw1 by done. clear Hi Ha Hw0. destruct Hi' as [H1 H2 H3 H4 H5].
  split; cbn [threads_ workers].
  - intros k r [[<- <-]|[Hk Hr]]%lookup_insert_Some.
    + split; [done|done| |done]. exists w, (mkWorker a Running). cbn. by rewrite lookup_insert_eq.
    + destruct (H1 k r Hr) as [? ? (w' & wk & Ht' & Hw' & ?) ?]. split; try done. exists w', wk. cbn [workers].
      rewrite lookup_insert_ne; [done|]. intros ->. congruence.
  - intros w' k [[<- [= <-]]|[Hk Hr]]%lookup_insert_Some.
    + eexists. by rewrite lookup_insert_eq.
    + destruct (H2 w' k Hr) as (r & Hr' & ?). exists r. rewrite lookup_insert_ne; [done|]. congruence.
  - intros t' pc Hp. destruct (H3 t' pc Hp) as (r & wk & [? ? ? ? ? ? ?]). exists r, wk.
    split; cbn; try done; (rewrite lookup_insert_ne; [done|congruence]).
  - exact H4.
  - intros k r [[<- <-]|[Hk Hr]]%lookup_insert_Some; [done|]. by apply H5.
Qed.

(** ** Joining *)

Lemma thread_at_claim s t pc c r wk : claim_ok s t pc c r wk -> thread_at s c = Ok wk.
Proof.
  intros [Hr Ha Hth _ _ Hw _]. unfold thread_at. rewrite Ha, Hr. cbn. rewrite Hth. cbn.
  by rewrite Z.eqb_refl, Hw.
Qed.

Lemma claimed_record_claim s pcs t pc c r wk :
  tm_inv s pcs -> claim_ok s t pc c r wk -> claimed_record s c = Some r.
Proof.
  intros Hi [Hr Ha _ _ _ _ _]. unfold claimed_record. rewrite Hr. cbn.
  rewrite (rk_address _ _ _ (ti_record _ _ Hi _ _ Hr)), Ha. by rewrite Z.eqb_refl.
Qed.

(** The thread moves on with the same claim. *)
Lemma repaused_inv s pcs t pc pc' :
  tm_inv s pcs -> pcs !! t = Some pc -> claim_of pc' = claim_of pc ->
  (forall r wk c res, claim_ok s t pc c r wk -> pc' = JoinFinish c res -> wk_state wk = Finished res) ->
  tm_inv s (set_pc t (Paused pc') pcs).
Proof.
  intros Hi Hp Hc Hf. pose proof Hi as [H1 H2 H3 H4 H5].
  assert (forall t1 p1, set_pc t (Paused pc') pcs !! t1 = Some p1 ->
    exists p2, pcs !! t1 = Some p2 /\ claim_of p2 = claim_of p1 /\ (t1 = t \/ p1 = p2)) as Hback.
  { intros t1 p1. rewrite lookup_set_pc. case_decide as Ht; [cbn; intros [= <-]; subst; eauto 6|eauto]. }
  split; try done.
  - intros t1 p1 Hp1. destruct (Hback t1 p1 Hp1) as (p2 & Hp2 & Hc2 & Hor).
    destruct (H3 t1 p2 Hp2) as (r & wk & Hck). exists r, wk. rewrite <- Hc2.
    destruct Hor as [->| ->]; [|done]. rewrite lookup_set_pc, decide_True in Hp1 by done.
    cbn in Hp1. injection Hp1 as <-. assert (p2 = pc) as -> by congruence.
    pose proof Hck as [? ? ? ? ? ? ?]. split; try done. intros res Hres.
    apply (Hf r wk (claim_of pc) res Hck). rewrite Hres in Hc |- *. cbn in Hc. congruence.
  - intros t1 p1 t2 p2 Hp1 Hp2 He. destruct (Hback t1 p1 Hp1) as (q1 & Hq1 & Hc1 & _).
    destruct (Hback t2 p2 Hp2) as (q2 & Hq2 & Hc2 & _). eapply H4; [done..|]. congruence.
  - intros k r Hr Hcl. destruct (H5 k r Hr Hcl) as (t1 & p1 & Hp1 & He).
    destruct (decide (t = t1)) as [->|Ht].
    + exists t1, pc'. rewrite lookup_set_pc, decide_True by done. split; [done|].
      rewrite Hc. congruence.
    + exists t1, p1. by rewrite lookup_set_pc, decide_False.
Qed.

(** The thread gives its claim up, or is done with the record. *)
Lemma released_inv s pcs t pc code :
  tm_inv s pcs -> pcs !! t = Some pc ->
  tm_inv (set_threads (alter (set_claim false) (cl_handle (claim_of pc))) s) (set_pc t (Returned code) pcs).
Proof.
  intros Hi Hp. destruct (ti_claim _ _ Hi _ _ Hp) as (r & wk & Hck).
  eapply alter_inv; [done|by eapply ck_record|done|done|done| | |done].
  - intros t' pc'. rewrite lookup_set_pc. case_decide as Ht; [done|]. intros Hp'. left. split; [|done].
    intros He. apply Ht. by eapply (ti_unique _ _ Hi).
  - intros t' pc' Hp' Hne ->. congruence.
Qed.

Lemma erased_inv s pcs t pc c res code :
  tm_inv s pcs -> pcs !! t = Some pc -> pc = JoinFinish c res ->
  tm_inv (set_threads (delete (cl_handle c)) s) (set_pc t (Returned code) pcs).
Proof.
  intros Hi Hp Hpc. destruct (ti_claim _ _ Hi _ _ Hp) as (r & wk & Hck). rewrite Hpc in Hck. cbn in Hck.
  assert (forall t' pc', set_pc t (@Returned tm_pc code) pcs !! t' = Some pc' ->
    pcs !! t' = Some pc' /\ cl_handle (claim_of pc') <> cl_handle c) as Hback.
  { intros t' pc'. rewrite lookup_set_pc. case_decide as Ht; [done|]. intros Hp'. split; [done|].
    intros He. apply Ht. eapply (ti_unique _ _ Hi); [done..|]. by rewrite Hpc. }
  pose proof Hi as [H1 H2 H3 H4 H5]. split; cbn [threads_ workers set_threads].
  - intros k r' [_ Hr]%lookup_delete_Some. destruct (H1 k r' Hr). by split.
  - intros w k Hw. destruct (H2 w k Hw) as (r' & Hr' & Ht'). exists r'.
    rewrite lookup_delete_ne; [done|]. intros <-.
    assert (w = cl_thread c) as -> by (destruct Hck; congruence).
    pose proof (ck_worker _ _ _ _ _ _ Hck). pose proof (ck_finished _ _ _ _ _ _ Hck res eq_refl).
    assert (wk = mkWorker (cl_handle c) Running) as -> by congruence. done.
  - intros t' pc' [Hp' Hne]%Hback. destruct (H3 t' pc' Hp') as (r' & wk' & [? ? ? ? ? ? ?]).
    exists r', wk'. split; try done. cbn. by rewrite lookup_delete_ne.
  - intros t1 p1 t2 p2 [Hp1 _]%Hback [Hp2 _]%Hback. by apply H4.
  - intros k r' [Hk Hr']%lookup_delete_Some Hc. destruct (H5 k r' Hr' Hc) as (t' & pc' & Hp' & He).
    exists t', pc'. split; [|done]. rewrite lookup_set_pc, decide_False; [done|]. intros <-.
    apply Hk. assert (pc' = pc) as -> by congruence. by rewrite <- He, Hpc.
Qed.

Lemma finish_join_claim s pcs t c res :
  tm_inv s pcs -> pcs !! t = Some (JoinFinish c res) ->
  finish_join s c res =
    (Returned (match res with Completed _ => 0 | _ => kEinval end),
     match res with Completed v => if cl_return c then Some v else None | _ => None end,
     set_threads (delete (cl_handle c)) s).
Proof.
  intros Hi Hp. destruct (ti_claim _ _ Hi _ _ Hp) as (r & wk & Hck). cbn in Hck.
  unfold finish_join. rewrite (claimed_record_claim _ _ _ _ _ _ _ Hi Hck). by destruct res.
Qed.

Lemma resume_inv s pcs t expired pc o out s' :
  tm_inv s pcs -> pcs !! t = Some pc -> tm_resume expired s pc = Ok (o, out, s') ->
  tm_inv s' (set_pc t o pcs).
Proof.
  intros Hi Hp. destruct (ti_claim _ _ Hi _ _ Hp) as (r & wk & Hck).
  pose proof (thread_at_claim _ _ _ _ _ _ Hck) as Hth.
  destruct pc as [c d|c|c|c res]; cbn [tm_resume claim_of] in *.
  - rewrite Hth. cbn. destruct (wk_state wk); intros [= <- <- <-]; [destruct expired|];
      (eapply repaused_inv; [done|exact Hp|done|done]).
  - rewrite (claimed_record_claim _ _ _ _ _ _ _ Hi Hck). intros [= <- <- <-].
    exact (released_inv s pcs t _ _ Hi Hp).
  - rewrite Hth. cbn. destruct (wk_state wk) eqn:Hw; intros [= <- <- <-];
      (eapply repaused_inv; [done|exact Hp|done|try done]).
    intros r' wk' c' res Hck' [= <- <-]. pose proof (ck_worker _ _ _ _ _ _ Hck).
    pose proof (ck_worker _ _ _ _ _ _ Hck'). cbn in *. congruence.
  - rewrite (finish_join_claim s pcs t c res Hi Hp). intros [= <- <- <-].
    by eapply erased_inv.
Qed.

Lemma exit_inv s pcs w h r :
  tm_inv s pcs -> workers s !! w = Some (mkWorker h Running) ->
  tm_inv (mkManager (threads_ s) (shutting_down_ s) (<[w := mkWorker h (Finished r)]> (workers s))) pcs.
Proof.
  intros [H1 H2 H3 H4 H5] Hw. split; cbn [threads_ workers]; try done.
  - intros k r' Hr. destruct (H1 k r' Hr) as [? ? (w' & wk & Ht & Hw' & Hh) ?]. split; try done.
    cbn. destruct (decide (w' = w)) as [->|Hne].
    + exists w, (mkWorker h (Finished r)). rewrite lookup_insert_eq. split_and!; try done. cbn.
      rewrite Hw in Hw'. by simplify_eq/=.
    + exists w', wk. by rewrite lookup_insert_ne.
  - intros w' k [[_ ?]|[Hne Hk]]%lookup_insert_Some; [done|]. by apply H2.
  - intros t pc Hp. destruct (H3 t pc Hp) as (r' & wk & [? ? ? ? ? Hwk Hf]). exists r'.
    destruct (decide (cl_thread (claim_of pc) = w)) as [He|Hne].
    + exists (mkWorker h (Finished r)). split; cbn; try done; [by rewrite He, lookup_insert_eq|].
      intros res Hres. specialize (Hf res Hres). assert (wk = mkWorker h Running) as -> by congruence. done.
    + exists wk. split; cbn; try done. by rewrite lookup_insert_ne.
Qed.

Lemma step_inv w l w' :
  tm_step root w l w' -> tm_inv (tw_manager w) (tw_pcs w) -> tm_inv (tw_manager w') (tw_pcs w').
Proof.
  intros [s pcs t h current ks op o out s' Ht Hcall Hhost Hsv Hc|s pcs t expired pc o out s' Hp Hr|s pcs w0 h r Hw _]
    Hi; cbn [tw_manager tw_pcs] in *.
  - destruct op; cbn [tm_call] in Hc; [apply Ok_inj in Hc|apply Ok_inj in Hc| |apply Ok_inj in Hc|apply Ok_inj in Hc].
    + by eapply create_inv.
    + by eapply join_inv.
    + unfold timed_join in Hc. destruct ks as [sv|]; [|apply Ok_inj in Hc; simplify_eq; by apply returned_inv].
      apply bind_Ok in Hc as ([code deadline] & _ & Hc).
      destruct (negb _); apply Ok_inj in Hc; [simplify_eq; by apply returned_inv|by eapply join_inv].
    + by eapply detach_inv.
    + injection Hc as <- <- <-. apply returned_inv; [done|]. by apply reap_inv.
  - by eapply resume_inv.
  - by apply exit_inv.
Qed.

Lemma run_inv tr w : tm_run root tr w -> tm_inv (tw_manager w) (tw_pcs w).
Proof. induction 1 as [|tr w l w' Hr IH Hs]; [apply start_inv|]. by eapply step_inv. Qed.

(** ** What a step does to the records *)

(** From [s] to [s'] records keep their thread and stay detached, only those in
    [gone] go, new ones are of new workers, and workers that have finished stay
    as they are. *)
Record kept (gone : Z -> ThreadRecord -> Prop) s s' : Prop := {
  kp_record h r : threads_ s !! h = Some r ->
    (exists r', threads_ s' !! h = Some r' /\ rec_thread r' = rec_thread r /\
      (rec_detached r = true -> rec_detached r' = true)) \/
    threads_ s' !! h = None /\ gone h r;
  kp_new h r' : threads_ s' !! h = Some r' ->
    (exists r, threads_ s !! h = Some r /\ rec_thread r = rec_thread r') \/
    (exists k, rec_thread r' = Some k /\ workers s !! k = None);
  kp_worker k wk : workers s !! k = Some wk ->
    exists wk', workers s' !! k = Some wk' /\ wk_handle wk' = wk_handle wk /\
      (wk_state wk <> Running -> wk' = wk);
}.

Lemma kept_refl gone s : kept gone s s.
Proof. split; eauto 6. Qed.

Lemma kept_alter gone s h f :
  (forall r, rec_thread (f r) = rec_thread r) ->
  (forall r, rec_detached r = true -> rec_detached (f r) = true) ->
  kept gone s (set_threads (alter f h) s).
Proof.
  intros Ht Hd. split; cbn; [| |eauto].
  - intros k r Hr. left. destruct (decide (k = h)) as [->|Hk].
    + exists (f r). rewrite lookup_alter_eq, Hr. eauto.
    + exists r. by rewrite lookup_alter_ne.
  - intros k r' Hr. left. apply lookup_alter_Some in Hr as [(-> & r & Hr & ->)|[_ Hr]]; eauto.
Qed.

Lemma kept_reap s : kept (fun _ r => reapable s r = true) s (reap_finished_detached_locked s).
Proof.
  split; [| |eauto].
  - intros h r Hr. destruct (reapable s r) eqn:E.
    + right. split; [|done]. apply map_lookup_filter_None. right. intros r'. rewrite Hr.
      intros [= <-]. cbn. congruence.
    + left. exists r. split; [by apply reap_lookup|done].
  - intros h r [Hr _]%reap_lookup. eauto.
Qed.

Lemma kept_delete s h : kept (fun k _ => k = h) s (set_threads (delete h) s).
Proof.
  split; cbn; [| |eauto].
  - intros k r Hr. destruct (decide (k = h)) as [->|Hk]; [right; by rewrite lookup_delete_eq|].
    left. exists r. by rewrite lookup_delete_ne.
  - intros k r' [_ Hr]%lookup_delete_Some. eauto.
Qed.

Lemma kept_exit gone s w h res :
  workers s !! w = Some (mkWorker h Running) ->
  kept gone s (mkManager (threads_ s) (shutting_down_ s) (<[w := mkWorker h (Finished res)]> (workers s))).
Proof.
  intros Hw. split; cbn; [eauto 6..|]. intros k wk Hk. destruct (decide (k = w)) as [->|Hne].
  - exists (mkWorker h (Finished res)). rewrite lookup_insert_eq. rewrite Hw in Hk.
    by injection Hk as <-.
  - exists wk. by rewrite lookup_insert_ne.
Qed.

Lemma kept_emplace gone s a w d b :
  threads_ s !! a = None -> workers s !! w = None ->
  kept gone s (mkManager (<[a := mkThreadRecord a (Some w) d false]> (threads_ s)) b
                 (<[w := mkWorker a Running]> (workers s))).
Proof.
  intros Ha Hw. split; cbn.
  - intros h r Hr. left. exists r. rewrite lookup_insert_ne; [done|]. congruence.
  - intros h r' [[<- <-]|[_ Hr]]%lookup_insert_Some; [right|left]; eauto.
  - intros k wk Hk. exists wk. rewrite lookup_insert_ne; [done|]. congruence.
Qed.

(** Reaping, then a section that loses nothing. *)
Lemma kept_reaped s s' :
  (forall h, threads_ s !! h = None -> threads_ (reap_finished_detached_locked s) !! h = None) ->
  kept (fun _ _ => False) (reap_finished_detached_locked s) s' ->
  (forall h r, threads_ s !! h = Some r -> threads_ (reap_finished_detached_locked s) !! h = None ->
    threads_ s' !! h = None) ->
  kept (fun _ r => reapable s r = true) s s'.
Proof.
  intros Hn [K1 K2 K3] Hg. pose proof (kept_reap s) as [R1 R2 _]. split.
  - intros h r Hr. destruct (R1 h r Hr) as [(r1 & Hr1 & Ht & Hd)|[Hr1 Hre]].
    + destruct (K1 h r1 Hr1) as [(r2 & ? & ? & ?)|[_ []]]. left. exists r2. split_and!; [done|congruence|auto].
    + right. split; [by eapply Hg|done].
  - intros h r' Hr'. destruct (K2 h r' Hr') as [(r1 & Hr1 & Ht)|Hk]; [|by right].
    destruct (R2 h r1 Hr1) as [(r & Hr & Ht2)|Hk]; [left; exists r; split; congruence|].
    right. destruct Hk as (k & ? & ?). exists k. split; [congruence|done].
  - exact K3.
Qed.

(** The records a step may destroy. *)
Definition step_gone s (l : tm_label) (h : Z) (r : ThreadRecord) : Prop :=
  match l with
  | TmCalled _ (TCreate _ _ _ _ _) _ _ | TmCalled _ TSize _ _ => reapable s r = true
  | TmResumed _ (JoinFinish c _) (Returned _) _ => h = cl_handle c
  | _ => False
  end.

Lemma create_kept s pcs t h ks handle_out attributes start_routine argument stack o out s' :
  host_ok root h s pcs t ->
  create h ks s handle_out attributes start_routine argument stack = (o, out, s') ->
  kept (fun _ r => reapable s r = true) s s'.
Proof.
  intros [Hrec Hwork]. unfold create. cbv zeta.
  destruct (_ || _); [intros [= <- <- <-]; apply kept_refl|].
  destruct (thread_options _ _ _) as [|[sz det]]; [intros [= <- <- <-]; apply kept_refl|].
  destruct (hc_record h) as [a|]; [|intros [= <- <- <-]; apply kept_refl].
  destruct (shutting_down_ s); [intros [= <- <- <-]; apply kept_refl|].
  destruct (Hrec a eq_refl) as (Ha & _).
  destruct (threads_ (reap_finished_detached_locked s) !! a) eqn:Ha1; [intros [= <- <- <-]; apply kept_reap|].
  destruct (start h start_routine sz) as [w| |] eqn:Hst; try (intros [= <- <- <-]; apply kept_reap).
  assert (hc_worker h = Some w) as Hw.
  { unfold start in Hst. destruct (start_routine =? 0); [done|]. destruct (_ || _); [done|].
    destruct (hc_worker h); [congruence|done]. }
  destruct (Hwork w Hw) as (Hw0 & _). intros [= <- <- <-]. apply kept_reaped.
  - intros k Hk. apply eq_None_not_Some. intros [r [Hr _]%reap_lookup]. congruence.
  - by apply (kept_emplace _ (reap_finished_detached_locked s)).
  - intros k r Hr Hk. cbn [threads_]. rewrite lookup_insert_ne; [done|]. congruence.
Qed.

Lemma join_impl_kept gone s current h ret deadline o out s' :
  join_impl root current s h ret deadline = (o, out, s') -> kept gone s s'.
Proof.
  unfold join_impl. intros E.
  repeat match type of E with
  | context [if ?b then _ else _] => destruct b; [injection E as <- <- <-; apply kept_refl|]
  | context [match ?x with Some _ => _ | None => _ end] =>
      destruct x; [|injection E as <- <- <-; apply kept_refl]
  end.
  injection E as <- <- <-. by apply kept_alter.
Qed.

Lemma step_kept w l w' :
  tm_inv (tw_manager w) (tw_pcs w) -> tm_step root w l w' ->
  kept (step_gone (tw_manager w) l) (tw_manager w) (tw_manager w').
Proof.
  intros Hi Hstep. revert Hi.
  destruct Hstep as [s pcs t h current ks op o out s' Ht Hcall Hhost _ Hc|s pcs t expired pc o out s' Hp Hr|s pcs w0 h r Hw _];
    cbn [tw_manager tw_pcs]; intros Hi; [destruct op| |].
  - cbn in Hc. apply Ok_inj in Hc. by eapply create_kept.
  - cbn in Hc. apply Ok_inj in Hc. by eapply join_impl_kept.
  - cbn [tm_call] in Hc. unfold timed_join in Hc.
    destruct ks as [sv|]; [|apply Ok_inj in Hc; simplify_eq; apply kept_refl].
    apply bind_Ok in Hc as ([code deadline] & _ & Hc).
    destruct (negb _); apply Ok_inj in Hc; [simplify_eq; apply kept_refl|by eapply join_impl_kept].
  - cbn in Hc. apply Ok_inj in Hc. unfold detach in Hc. cbn [step_gone].
    repeat (destruct (_ =? _); [simplify_eq; apply kept_refl|]).
    destruct (threads_ s !! handle); [|simplify_eq; apply kept_refl].
    destruct (_ || _); simplify_eq; [apply kept_refl|by apply kept_alter].
  - cbn in Hc. simplify_eq. apply kept_reap.
  - destruct (ti_claim _ _ Hi _ _ Hp) as (r & wk & Hck). pose proof (thread_at_claim _ _ _ _ _ _ Hck) as Hth.
    destruct pc as [c d|c|c|c res]; cbn [tm_resume claim_of] in *.
    + rewrite Hth in Hr. cbn in Hr. destruct (wk_state wk); simplify_eq; apply kept_refl.
    + rewrite (claimed_record_claim _ _ _ _ _ _ _ Hi Hck) in Hr. simplify_eq. by apply kept_alter.
    + rewrite Hth in Hr. cbn in Hr. destruct (wk_state wk); simplify_eq; apply kept_refl.
    + rewrite (finish_join_claim s pcs t c res Hi Hp) in Hr. simplify_eq. apply kept_delete.
  - by apply kept_exit.
Qed.

(** ** The handlers return *)

Lemma realtime_deadline_returns (m : M) a : gw_wf m -> exists v, realtime_deadline m a = Ok v.
Proof.
  intros Hm. unfold realtime_deadline. destruct (gw_read_timespec m a) as [ts|]; [|by eexists].
  destruct (valid_timespec ts) eqn:Hv; cbn; [|by eexists].
  unfold valid_timespec in Hv. bools. unfold deadline_of.
  rewrite saturating_timespec by lia. by eexists.
Qed.

Lemma call_returns h current ks s op :
  (forall sv, ks = Some sv -> gw_wf (sv_memory sv)) -> exists sec, tm_call root h current ks s op = Ok sec.
Proof.
  intros Hsv. destruct op; cbn; try by eexists. unfold timed_join. destruct ks as [sv|]; [|by eexists].
  destruct (realtime_deadline_returns (sv_memory sv) absolute_timeout_address (Hsv sv eq_refl)) as [[code d] Hd].
  rewrite Hd. cbn. destruct (negb _); by eexists.
Qed.

Lemma resume_returns s pcs t expired pc :
  tm_inv s pcs -> pcs !! t = Some pc -> exists sec, tm_resume expired s pc = Ok sec.
Proof.
  intros Hi Hp. destruct (ti_claim _ _ Hi _ _ Hp) as (r & wk & Hck).
  pose proof (thread_at_claim _ _ _ _ _ _ Hck) as Hth.
  destruct pc; cbn [tm_resume claim_of] in *; rewrite ?Hth; cbn; try destruct (wk_state wk); by eexists.
Qed.

(** ** What a run has joined *)

(** Some record holds the worker [k]. *)
Definition holds s (k : Z) : Prop := exists h r, threads_ s !! h = Some r /\ rec_thread r = Some k.

Lemma kept_holds gone s s' k wk :
  kept gone s s' -> workers s !! k = Some wk -> holds s' k -> holds s k.
Proof.
  intros K Hk (h & r' & Hr' & Ht). destruct (kp_new _ _ _ K h r' Hr') as [(r & Hr & Ht')|(k' & Hk' & Hw)].
  - exists h, r. split; congruence.
  - congruence.
Qed.

(** A worker has one record only, at its handle. *)
Lemma holds_handle s pcs k wk h r :
  tm_inv s pcs -> workers s !! k = Some wk -> threads_ s !! h = Some r -> rec_thread r = Some k ->
  h = wk_handle wk.
Proof.
  intros Hi Hk Hr Ht. destruct (rk_thread _ _ _ (ti_record _ _ Hi h r Hr)) as (w & wk' & Hw & Hwk & He).
  congruence.
Qed.

(** A record that goes takes its worker with it. *)
Lemma gone_holds gone s s' pcs h r k :
  tm_inv s pcs -> kept gone s s' -> threads_ s !! h = Some r -> rec_thread r = Some k ->
  threads_ s' !! h = None -> ~ holds s' k.
Proof.
  intros Hi K Hr Ht Hn (h' & r' & Hr' & Ht').
  destruct (rk_thread _ _ _ (ti_record _ _ Hi h r Hr)) as (w & wk & Hw & Hwk & He).
  assert (w = k) as -> by congruence.
  destruct (kp_new _ _ _ K h' r' Hr') as [(r1 & Hr1 & Ht1)|(k' & Hk' & Hwn)]; [|congruence].
  assert (h' = wk_handle wk) by (eapply holds_handle; [done|done|exact Hr1|congruence]). congruence.
Qed.

(** The worker whose join a step has finished, with or without success. *)
Definition ended_by (l : tm_label) : option Z :=
  match l with TmResumed _ (JoinFinish c _) (Returned _) _ => Some (cl_thread c) | _ => None end.

(** What is known of a worker whose join has finished. *)
Definition ended s (k : Z) (res : invocation) : Prop :=
  (exists h, workers s !! k = Some (mkWorker h (Finished res))) /\ ~ holds s k.

Lemma ended_kept gone s s' k res : kept gone s s' -> ended s k res -> ended s' k res.
Proof.
  intros K [[h Hk] Hn]. destruct (kp_worker _ _ _ K k _ Hk) as (wk' & Hk' & _ & Hf).
  rewrite (Hf ltac:(done)) in Hk'. split; [by exists h|]. intros Hh. apply Hn. by eapply kept_holds.
Qed.

(** The step that finishes a join. *)
Lemma finish_step w t c res o out w' :
  tm_inv (tw_manager w) (tw_pcs w) -> tm_step root w (TmResumed t (JoinFinish c res) o out) w' ->
  holds (tw_manager w) (cl_thread c) /\ ended (tw_manager w') (cl_thread c) res /\
  o = Returned (match res with Completed _ => 0 | _ => kEinval end) /\
  out = match res with Completed v => if cl_return c then Some v else None | _ => None end.
Proof.
  intros Hi Hstep. pose proof (step_kept _ _ _ Hi Hstep) as K. revert Hi K.
  inversion Hstep as [|s pcs ? expired ? ? ? s' Hp Hr|]; subst; cbn [tw_manager tw_pcs]. intros Hi K.
  destruct (ti_claim _ _ Hi _ _ Hp) as (r & wk & Hck). cbn [claim_of] in Hck.
  cbn [tm_resume] in Hr. rewrite (finish_join_claim s pcs t c res Hi Hp) in Hr. simplify_eq.
  pose proof (ck_finished _ _ _ _ _ _ Hck res eq_refl) as Hf. destruct Hck as [Hrec _ Hth _ _ Hw _].
  split_and!; [by exists (cl_handle c), r| |done|done].
  split; [exists (wk_handle wk); cbn; destruct wk; cbn in *; congruence|].
  eapply gone_holds; [exact Hi|exact K|exact Hrec|done|cbn; by rewrite lookup_delete_eq].
Qed.

Record run_history (tr : list tm_label) s : Prop := {
  rh_once : NoDup (omap ended_by tr);
  rh_ended t c res o out : TmResumed t (JoinFinish c res) o out ∈ tr ->
    ended s (cl_thread c) res /\
    o = Returned (match res with Completed _ => 0 | _ => kEinval end) /\
    out = match res with Completed v => if cl_return c then Some v else None | _ => None end;
}.

Lemma run_history_ok tr w : tm_run root tr w -> run_history tr (tw_manager w).
Proof.
  induction 1 as [|tr w l w' Hrun IH Hstep]; [split; [constructor|set_solver]|].
  pose proof (run_inv _ _ Hrun) as Hi. pose proof (step_kept _ _ _ Hi Hstep) as K.
  destruct IH as [Hnd Hend]. split.
  - destruct l as [|t pc o out|]; [done| |done]. destruct pc as [| | |c res]; try done.
    destruct (finish_step _ _ _ _ _ _ _ Hi Hstep) as (Hh & _ & -> & _). cbn. constructor; [|done].
    intros (l & Hl & He)%list_elem_of_omap. destruct l as [|t' [| | |c' res'] o' out'|]; try done.
    destruct (Hend _ _ _ _ _ Hl) as ((_ & Hn) & -> & _). cbn in He. injection He as He. by rewrite He in Hn.
  - intros t c res o out [E|Hl]%elem_of_cons.
    + subst l. destruct (finish_step _ _ _ _ _ _ _ Hi Hstep) as (_ & ? & ? & ?). done.
    + destruct (Hend _ _ _ _ _ Hl) as (He & ? & ?). split; [by eapply ended_kept|done].
Qed.

(** The sections of a join that nothing delays, at most [n] after the first. *)
Fixpoint run_join (n : nat) (expired : bool) s (pc : tm_pc) : result section :=
  '(o, out, s') ← tm_resume expired s pc;
  match n, o with
  | S n, Paused pc' => run_join n expired s' pc'
  | _, _ => Ok (o, out, s')
  end.

(** The worker has finished, with this result. *)
Definition worker_result s (k : Z) (res : invocation) : Prop :=
  exists h, workers s !! k = Some (mkWorker h (Finished res)).


(** In any run, a guest thread is joined at most once.  A join that ends
    answers what the thread ended with (0 and its value when it completed,
    [EINVAL] for a fault or a host exception) and stores the value only when it
    is wanted; it ends only after the worker has finished, and its record is
    gone for good. *)
Theorem threads_are_joined_once tr w :
  tm_run root tr w ->
  NoDup (omap ended_by tr) /\
  (forall t c res o out, TmResumed t (JoinFinish c res) o out ∈ tr ->
     worker_result (tw_manager w) (cl_thread c) res /\
     ~ holds (tw_manager w) (cl_thread c) /\
     o = Returned (match res with Completed _ => 0 | _ => kEinval end) /\
     out = match res with Completed v => if cl_return c then Some v else None | _ => None end).
Proof.
  intros [Hnd Hend]%run_history_ok. split; [done|]. intros t c res o out Hl.
  destruct (Hend _ _ _ _ _ Hl) as ([Hw Hn] & Ho & Hout). done.
Qed.

(** A record outlives its thread.  From one state to the next it stays,
    with its thread and, once detached, detached; or it is destroyed, and then
    its worker had finished (so that its destructor waits for nothing), and
    either it was detached and [create] or [size] reaped it, or it was not and
    the join that claimed it ended.  A worker that runs always has its record. *)
Theorem records_outlive_their_threads tr w l w' h r k :
  tm_run root tr w -> tm_step root w l w' ->
  threads_ (tw_manager w) !! h = Some r -> rec_thread r = Some k ->
  ((exists r', threads_ (tw_manager w') !! h = Some r' /\ rec_thread r' = Some k /\
      (rec_detached r = true -> rec_detached r' = true)) \/
   (~ holds (tw_manager w') k /\ finished (tw_manager w) k = true /\
    ((rec_detached r = true /\ exists t op o out, l = TmCalled t op o out) \/
     (rec_detached r = false /\ exists t c res o out,
        l = TmResumed t (JoinFinish c res) o out /\ cl_handle c = h /\ cl_thread c = k)))) /\
  (forall k' h', workers (tw_manager w') !! k' = Some (mkWorker h' Running) ->
     exists r', threads_ (tw_manager w') !! h' = Some r' /\ rec_thread r' = Some k').
Proof.
  intros Hi%run_inv Hstep Hr Ht. pose proof (step_inv _ _ _ Hstep Hi) as Hi'.
  split; [|exact (ti_running _ _ Hi')]. pose proof (step_kept _ _ _ Hi Hstep) as K.
  destruct (kp_record _ _ _ K h r Hr) as [(r' & Hr' & Ht' & Hd)|[Hn Hg]].
  { left. exists r'. split_and!; [done|congruence|done]. }
  right. split; [by apply (gone_holds _ _ _ _ _ _ _ Hi K Hr Ht)|].
  assert (reapable (tw_manager w) r = true -> finished (tw_manager w) k = true /\ rec_detached r = true) as Hreap.
  { unfold reapable. rewrite Ht. intros [? ?]%andb_true_iff. done. }
  destruct l as [t op o out|t pc o out|]; cbn [step_gone] in Hg; [| |done].
  - assert (reapable (tw_manager w) r = true) as [Hf Hd]%Hreap by (by destruct op). split; [done|].
    left. split; [done|]. by exists t, op, o, out.
  - destruct pc as [| | |c res]; try done. destruct o; [|done]. subst h.
    assert (tw_pcs w !! t = Some (JoinFinish c res)) as Hp by (by inversion Hstep; subst).
    destruct (ti_claim _ _ Hi _ _ Hp) as (r1 & wk & Hck). cbn [claim_of] in Hck.
    pose proof (claimed_is_not_detached _ _ _ _ _ _ _ Hi Hck) as Hd.
    pose proof (ck_finished _ _ _ _ _ _ Hck res eq_refl) as Hf. destruct Hck as [Hr1 _ Hth _ _ Hw _].
    assert (r1 = r) as -> by congruence. assert (cl_thread c = k) as Hck by congruence.
    split; [|right; split; [done|by eexists t, c, res, _, out]].
    apply finished_Finished. exists (wk_handle wk), res. rewrite <- Hck, Hw. destruct wk; cbn in *. congruence.
Qed.

(** Once the joined thread has finished, a join that has not given up
    returns after at most three of its own sections, whether or not its
    deadline has passed: with 0 and the value of the thread, or [EINVAL] when
    the thread faulted or failed; its record is erased and every other one is
    left alone. *)
Theorem finished_threads_can_be_joined tr w t pc res expired :
  tm_run root tr w -> tw_pcs w !! t = Some pc -> pc <> JoinUnclaim (claim_of pc) ->
  worker_result (tw_manager w) (cl_thread (claim_of pc)) res ->
  run_join 2 expired (tw_manager w) pc =
    Ok (Returned (match res with Completed _ => 0 | _ => kEinval end),
        match res with Completed v => if cl_return (claim_of pc) then Some v else None | _ => None end,
        set_threads (delete (cl_handle (claim_of pc))) (tw_manager w)).
Proof.
  intros Hi%run_inv Hp Hpc [hw Hw]. generalize dependent (tw_manager w). generalize dependent (tw_pcs w).
  intros pcs Hp s Hi Hw. destruct (ti_claim _ _ Hi _ _ Hp) as (r & wk & Hck).
  pose proof (thread_at_claim _ _ _ _ _ _ Hck) as Hth. pose proof (claimed_record_claim _ _ _ _ _ _ _ Hi Hck) as Hcl.
  assert (wk_state wk = Finished res) as Hf.
  { pose proof (ck_worker _ _ _ _ _ _ Hck) as Hw'. rewrite Hw in Hw'. by injection Hw' as <-. }
  assert (forall c, c = claim_of pc -> finish_join s c res =
    (Returned (match res with Completed _ => 0 | _ => kEinval end),
     match res with Completed v => if cl_return c then Some v else None | _ => None end,
     set_threads (delete (cl_handle c)) s)) as Hfin.
  { intros c ->. unfold finish_join. rewrite Hcl. by destruct res. }
  destruct pc as [c d|c|c|c res']; cbn [claim_of] in *; [|done| |].
  - do 2 (cbn; rewrite Hth; cbn; rewrite Hf). cbn. by rewrite Hfin.
  - cbn. rewrite Hth. cbn. rewrite Hf. cbn. by rewrite Hfin.
  - assert (res' = res) as -> by (pose proof (ck_finished _ _ _ _ _ _ Hck res' eq_refl); congruence).
    cbn. by rewrite Hfin.
Qed.

(** ** Shutdown *)

(** The destructor takes the records away from the joins that hold a claim. *)
Lemma shut_down_dangles s c :
  thread_at (shut_down s).2 c = Throw (undefined_behaviour "dangling pointer").
Proof. done. Qed.

(** A worker that re-enters the manager after its shutdown creates nothing and
    finds no thread. *)
Lemma shut_down_refuses s h (current : Z) (ks : option (services M))
    handle_out attributes start_routine argument stack handle ret deadline :
  let s' := (shut_down s).2 in
  (exists code, create h ks s' handle_out attributes start_routine argument stack = (Returned code, None, s') /\
     code <> 0) /\
  (exists code, join_impl root current s' handle ret deadline = (Returned code, None, s') /\ code <> 0).
Proof.
  split.
  - unfold create. destruct (_ || _); [by eexists|]. unfold thread_options.
    destruct (attributes =? 0); [cbn; destruct (hc_record h); by eexists|].
    destruct ks as [sv|]; [|by eexists]. unfold thread_attr_snapshot, attr_snapshot.
    destruct (attributes =? 0); [by eexists|]. destruct (gw_read64 _ _); [|by eexists].
    destruct (_ !! _); [|by eexists]. destruct (hc_record h); by eexists.
  - unfold join_impl. destruct (handle =? 0); [by eexists|]. destruct (_ && _); [by eexists|].
    destruct (handle =? root); by eexists.
Qed.

End Manager.

(** ** A run

    The root thread 1 of the manager at address 64 creates the thread 500 on
    the worker 7 and joins it; the worker completes with 42. *)

Section Witnesses.
Local Instance tiny_words : GuestWords space := @space_guest_words tiny_host.
Local Instance tiny_words_laws : GuestWordsLaws space := @space_guest_words_laws tiny_host.

Definition demo_host : host_create := mkHostCreate (Some 500) (fun _ => true) true true (Some 7).
Definition demo_claim : claim := mkClaim 500 500 7 true.
Definition demo_record (claimed : bool) : ThreadRecord := mkThreadRecord 500 (Some 7) false claimed.
Definition demo_manager (claimed : bool) (state : worker_state) : manager :=
  mkManager {[500 := demo_record claimed]} false {[7 := mkWorker 500 state]}.
Definition demo_joined : manager := mkManager ∅ false {[7 := mkWorker 500 (Finished (Completed 42))]}.

Definition demo_trace : list tm_label :=
  [TmResumed 1 (JoinWorker demo_claim) (Paused (JoinFinish demo_claim (Completed 42))) None;
   TmExited 7 (Completed 42);
   TmCalled 1 (TJoin 500 true) (Paused (JoinWorker demo_claim)) None;
   TmCalled 1 (TCreate true 0 4096 0 65536) (Returned 0) (Some 500)].

Lemma set_pc_returned t (pc : tm_pc) code : set_pc t (Returned code) {[t := pc]} = ∅.
Proof. apply delete_singleton_eq. Qed.

Lemma set_pc_paused t (pc pc' : tm_pc) : set_pc t (Paused pc') {[t := pc]} = {[t := pc']}.
Proof. cbn. apply insert_singleton_eq. Qed.

Lemma demo_run :
  tm_run 64 (drop 1 demo_trace)
    (mkTmWorld (demo_manager true (Finished (Completed 42))) {[1 := JoinWorker demo_claim]}) /\
  tm_run 64 demo_trace
    (mkTmWorld (demo_manager true (Finished (Completed 42))) {[1 := JoinFinish demo_claim (Completed 42)]}).
Proof.
  assert (tm_run 64 (drop 3 demo_trace) (mkTmWorld (demo_manager false Running) ∅)) as R1.
  { eapply tm_run_step; [apply tm_run_start|].
    rewrite <- (delete_empty (M := gmap Z) 1).
    apply (tm_step_call 64 _ ∅ 1 demo_host 64 (@None (services space)) (TCreate true 0 4096 0 65536)
      (Returned 0) (Some 500) (demo_manager false Running)); try done; [by right|].
    split; [intros a [= <-]|intros w [= <-]]; done. }
  assert (tm_run 64 (drop 2 demo_trace)
    (mkTmWorld (demo_manager true Running) {[1 := JoinWorker demo_claim]})) as R2.
  { eapply tm_run_step; [exact R1|].
    apply (tm_step_call 64 _ ∅ 1 (mkHostCreate None (fun _ => true) true true None) 64
      (@None (services space)) (TJoin 500 true) (Paused (JoinWorker demo_claim)) None
      (demo_manager true Running)); try done; [by right]. }
  assert (tm_run 64 (drop 1 demo_trace)
    (mkTmWorld (demo_manager true (Finished (Completed 42))) {[1 := JoinWorker demo_claim]})) as R3.
  { eapply tm_run_step; [exact R2|]. by apply (tm_step_exit 64 (demo_manager true Running) _ 7 500). }
  split; [exact R3|]. eapply tm_run_step; [exact R3|].
  rewrite <- (set_pc_paused 1 (JoinWorker demo_claim) (JoinFinish demo_claim (Completed 42))).
  by apply (tm_step_resume 64 _ _ 1 false).
Qed.

Lemma demo_finish : tm_step 64
  (mkTmWorld (demo_manager true (Finished (Completed 42))) {[1 := JoinFinish demo_claim (Completed 42)]})
  (TmResumed 1 (JoinFinish demo_claim (Completed 42)) (Returned 0) (Some 42))
  (mkTmWorld demo_joined ∅).
Proof.
  rewrite <- (set_pc_returned 1 (JoinFinish demo_claim (Completed 42)) 0).
  by apply (tm_step_resume 64 _ _ 1 false).
Qed.


Lemma threads_are_joined_once_witness :
  worker_result demo_joined 7 (Completed 42) /\ ~ holds demo_joined 7.
Proof.
  destruct demo_run as [_ Hrun].
  destruct (threads_are_joined_once 64 _ _ (tm_run_step 64 _ _ _ _ Hrun demo_finish)) as [_ H].
  destruct (H 1 demo_claim (Completed 42) (Returned 0) (Some 42)) as (H1 & H2 & _); [left|].
  split; [exact H1|exact H2].
Defined.

Lemma records_outlive_their_threads_witness :
  finished (demo_manager true (Finished (Completed 42))) 7 = true.
Proof.
  destruct demo_run as [_ Hrun].
  destruct (records_outlive_their_threads 64 _ _ _ _ 500 (demo_record true) 7 Hrun demo_finish)
    as [[(r' & Hr' & _)|(_ & Hf & _)] _]; [reflexivity|reflexivity|discriminate Hr'|exact Hf].
Defined.

Lemma finished_threads_can_be_joined_witness :
  run_join 2 true (demo_manager true (Finished (Completed 42))) (JoinWorker demo_claim) =
    Ok (Returned 0, Some 42, demo_joined).
Proof.
  destruct demo_run as [Hrun _].
  assert (demo_joined = set_threads (delete 500) (demo_manager true (Finished (Completed 42)))) as ->.
  { unfold demo_joined, demo_manager, set_threads. cbn. by rewrite delete_singleton_eq. }
  apply (finished_threads_can_be_joined 64 _ _ 1 (JoinWorker demo_claim) (Completed 42) true Hrun);
    [reflexivity|discriminate|].
  exists 500. reflexivity.
Defined.

End Witnesses.
