(* ===== verification/KernelSem.v ===== *)
(** * Semaphores

    [sem_*] of [src/src/runtime/kernel_services.cpp] (lines 2701 to 2930).  The
    guest holds a semaphore as a handle in a word of its memory; the services
    map handles to shared records ([std::shared_ptr], here indices of a store
    that only grows), so that a record outlives its handle while a handler uses
    it.  Every handler is written as the sections its locks make atomic
    ([Threads]); other threads, and the guest's own stores, run in between.
    Host memory exhaustion is not modelled. *)

From S2P Require Import Prelude NativeArena GuestMemory GuestMemoryProps KernelMem HandleTable KernelAttrs KernelTime Threads.

Local Open Scope Z_scope.

Definition kSemaphoreValueMax := 0x7fffffff.
Definition semaphore_first := 0x50000.

Record SemaphoreRecord : Type := mkSemaphoreRecord { sr_value : Z; sr_waiters : Z }.

Inductive SemaphoreWaitKind : Type :=
| sem_infinite
| sem_relative (microseconds : Z)
| sem_absolute (timeout : GuestTimespec).

Record sems (M : Type) : Type := mkSems {
  sm_memory : M;
  sm_table : table nat;
  sm_store : list SemaphoreRecord;
}.
Arguments mkSems {M} _ _ _.
Arguments sm_memory {M} _.
Arguments sm_table {M} _.
Arguments sm_store {M} _.

(** Where a thread inside a semaphore handler is: before the record section of
    [sem_try_wait], of [sem_timed_wait], of [sem_post] and of [sem_get_value],
    before [sem_timed_wait] reads its timespec, or in the wait of
    [sem_wait_impl] ([None]: without a timeout). *)
Inductive sem_pc : Type :=
| SemTry (sid : nat)
| SemTimedTry (sid : nat) (slot_address absolute_timeout_address : Z)
| SemTimed (slot_address absolute_timeout_address : Z)
| SemBlocked (sid : nat) (timeout : option Z)
| SemPost (sid : nat)
| SemGet (sid : nat) (output_address : Z).

Inductive sem_op : Type :=
| SInit (slot_address value : Z)
| SDestroy (slot_address : Z)
| SWait (slot_address : Z)
| STryWait (slot_address : Z)
| STimedWait (slot_address absolute_timeout_address : Z)
| SRelTimedWait (slot_address microseconds : Z)
| SPost (slot_address : Z)
| SGetValue (slot_address output_address : Z).

(** The arguments are machine integers. *)
Definition sem_op_wf (op : sem_op) : Prop :=
  match op with
  | SInit _ value => in_u32 value
  | SRelTimedWait _ microseconds => in_u64 microseconds
  | _ => True
  end.

Section Sem.
Context {M : Type} `{GuestWords M}.
Implicit Types (s : sems M).

Definition modify (sid : nat) (f : SemaphoreRecord -> SemaphoreRecord) s : sems M :=
  mkSems (sm_memory s) (sm_table s) (alter f sid (sm_store s)).

Definition add_value (d : Z) (r : SemaphoreRecord) := mkSemaphoreRecord (wrap32 (sr_value r + d)) (sr_waiters r).
Definition add_waiter (d : Z) (r : SemaphoreRecord) :=
  mkSemaphoreRecord (sr_value r) (wrap64 (sr_waiters r + d)).

Definition semaphore_for_slot s (slot_address : Z) : Z + nat :=
  if slot_address =? 0 then inl kPosixEinval
  else
    match gw_read64 (sm_memory s) slot_address with
    | None => inl kPosixEinval
    | Some handle =>
        if handle =? 0 then inl kPosixEinval
        else
          match tb_entries (sm_table s) !! handle with
          | None => inl kPosixEinval
          | Some sid => inr sid
          end
    end.

Definition sem_init s (slot_address value : Z) : result (Z * sems M) :=
  if kSemaphoreValueMax <? value then Ok (kPosixEinval, s)
  else if slot_address =? 0 then Ok (0, s)
  else if negb (gw_writable (sm_memory s) slot_address 8) then Ok (kPosixEinval, s)
  else
    '(handle, t) ← allocate_handle semaphore_first 0 (sm_table s);
    let t := emplace handle (length (sm_store s)) t in
    let store := sm_store s ++ [mkSemaphoreRecord value 0] in
    '(ok, m) ← gw_write64 (sm_memory s) slot_address handle;
    if negb ok then Ok (kPosixEinval, mkSems m (erase handle t) store)
    else Ok (0, mkSems m t store).

Definition sem_destroy s (slot_address : Z) : result (Z * sems M) :=
  if (slot_address =? 0) || negb (gw_writable (sm_memory s) slot_address 8) then Ok (kPosixEinval, s)
  else
    match semaphore_for_slot s slot_address with
    | inl error => Ok (error, s)
    | inr sid =>
        record ← deref (sm_store s !! sid);
        if negb (sr_waiters record =? 0) then Ok (kPosixEbusy, s)
        else
          match gw_read64 (sm_memory s) slot_address with
          | None => Ok (kPosixEinval, s)
          | Some handle =>
              '(ok, m) ← gw_write64 (sm_memory s) slot_address 0;
              if negb ok then Ok (kPosixEinval, mkSems m (sm_table s) (sm_store s))
              else Ok (0, mkSems m (erase handle (sm_table s)) (sm_store s))
          end
    end.

(** The timeout of a wait: [None] when the clock does not answer. *)
Definition sem_timeout (now : ClockReading) (kind : SemaphoreWaitKind) : result (option (option Z)) :=
  match kind with
  | sem_infinite => Ok (Some None)
  | sem_relative microseconds => timeout ← relative_timeout microseconds; Ok (Some (Some timeout))
  | sem_absolute absolute_timeout =>
      clock ← clock_now now kClockRealtime;
      match clock with
      | None => Ok None
      | Some (now_seconds, now_nanoseconds) =>
          timeout ← remaining_until (ts_seconds absolute_timeout) (ts_nanoseconds absolute_timeout)
                      now_seconds now_nanoseconds;
          Ok (Some (Some timeout))
      end
  end.

Definition sem_wait_impl (now : ClockReading) s (slot_address : Z) (kind : SemaphoreWaitKind)
  : result (outcome sem_pc * sems M) :=
  match semaphore_for_slot s slot_address with
  | inl error => Ok (Returned error, s)
  | inr sid =>
      record ← deref (sm_store s !! sid);
      if negb (sr_value record =? 0) then Ok (Returned 0, modify sid (add_value (-1)) s)
      else
        let s := modify sid (add_waiter 1) s in
        timeout ← sem_timeout now kind;
        match timeout with
        | None => Ok (Returned kPosixEinval, modify sid (add_waiter (-1)) s)
        | Some timeout => Ok (Paused (SemBlocked sid timeout), s)
        end
  end.

(** A handler up to its first pause. *)
Definition sem_call (now : ClockReading) s (op : sem_op) : result (outcome sem_pc * sems M) :=
  match op with
  | SInit slot_address value => '(code, s) ← sem_init s slot_address value; Ok (Returned code, s)
  | SDestroy slot_address => '(code, s) ← sem_destroy s slot_address; Ok (Returned code, s)
  | SWait slot_address => sem_wait_impl now s slot_address sem_infinite
  | SRelTimedWait slot_address microseconds =>
      sem_wait_impl now s slot_address (sem_relative microseconds)
  | STryWait slot_address =>
      match semaphore_for_slot s slot_address with
      | inl error => Ok (Returned error, s)
      | inr sid => Ok (Paused (SemTry sid), s)
      end
  | STimedWait slot_address absolute_timeout_address =>
      match semaphore_for_slot s slot_address with
      | inl error => Ok (Returned error, s)
      | inr sid => Ok (Paused (SemTimedTry sid slot_address absolute_timeout_address), s)
      end
  | SPost slot_address =>
      match semaphore_for_slot s slot_address with
      | inl error => Ok (Returned error, s)
      | inr sid => Ok (Paused (SemPost sid), s)
      end
  | SGetValue slot_address output_address =>
      match semaphore_for_slot s slot_address with
      | inl error => Ok (Returned error, s)
      | inr sid => Ok (Paused (SemGet sid output_address), s)
      end
  end.

(** The next section of a handler.  A blocked thread is resumed when its
    condition variable is notified, spuriously, or because its timeout
    [expired]. *)
Definition sem_resume (now : ClockReading) (expired : bool) s (pc : sem_pc)
  : result (outcome sem_pc * sems M) :=
  match pc with
  | SemTry sid =>
      record ← deref (sm_store s !! sid);
      if sr_value record =? 0 then Ok (Returned kPosixEagain, s)
      else Ok (Returned 0, modify sid (add_value (-1)) s)
  | SemTimedTry sid slot_address absolute_timeout_address =>
      record ← deref (sm_store s !! sid);
      if negb (sr_value record =? 0) then Ok (Returned 0, modify sid (add_value (-1)) s)
      else Ok (Paused (SemTimed slot_address absolute_timeout_address), s)
  | SemTimed slot_address absolute_timeout_address =>
      match gw_read_timespec (sm_memory s) absolute_timeout_address with
      | None => Ok (Returned kPosixEinval, s)
      | Some timeout =>
          if (ts_nanoseconds timeout <? 0) || (1000000000 <=? ts_nanoseconds timeout)
          then Ok (Returned kPosixEinval, s)
          else sem_wait_impl now s slot_address (sem_absolute timeout)
      end
  | SemBlocked sid timeout =>
      record ← deref (sm_store s !! sid);
      if negb (sr_value record =? 0) then
        Ok (Returned 0, modify sid (add_value (-1)) (modify sid (add_waiter (-1)) s))
      else if expired && isSome timeout then
        Ok (Returned kPosixEtimedout, modify sid (add_waiter (-1)) s)
      else Ok (Paused (SemBlocked sid timeout), s)
  | SemPost sid =>
      record ← deref (sm_store s !! sid);
      if sr_value record =? kSemaphoreValueMax then Ok (Returned kPosixEoverflow, s)
      else Ok (Returned 0, modify sid (add_value 1) s)
  | SemGet sid output_address =>
      record ← deref (sm_store s !! sid);
      if output_address =? 0 then Ok (Returned 0, s)
      else
        '(ok, m) ← gw_write32 (sm_memory s) output_address (sr_value record);
        Ok (Returned (if ok : bool then 0 else kPosixEinval), mkSems m (sm_table s) (sm_store s))
  end.

(** ** Threads *)

Record sem_world : Type := mkSemWorld { sw_sems : sems M; sw_pcs : gmap Z sem_pc }.

Inductive sem_label : Type :=
| SemCalled (t : Z) (op : sem_op) (o : outcome sem_pc)
| SemResumed (t : Z) (pc : sem_pc) (o : outcome sem_pc)
| SemMemory.

(** The steps of any number of threads (fewer than [2^64] at a time), and of
    the rest of the program, which may change the memory at will. *)
Inductive sem_step : sem_world -> sem_label -> sem_world -> Prop :=
| sem_step_call s pcs t now op o s' :
    pcs !! t = None -> Z.of_nat (size pcs) + 1 < u64_mod -> sem_op_wf op ->
    sem_call now s op = Ok (o, s') ->
    sem_step (mkSemWorld s pcs) (SemCalled t op o) (mkSemWorld s' (set_pc t o pcs))
| sem_step_resume s pcs t now expired pc o s' :
    pcs !! t = Some pc ->
    sem_resume now expired s pc = Ok (o, s') ->
    sem_step (mkSemWorld s pcs) (SemResumed t pc o) (mkSemWorld s' (set_pc t o pcs))
| sem_step_memory s pcs m :
    gw_wf m ->
    sem_step (mkSemWorld s pcs) SemMemory (mkSemWorld (mkSems m (sm_table s) (sm_store s)) pcs).

Definition sem_start (m : M) : sem_world := mkSemWorld (mkSems m (mkTable semaphore_first ∅) []) ∅.

(** ** What a step does to the values *)

Inductive sem_effect : Type :=
| Untouched
| Created (value : Z)
| Taken (sid : nat)
| Posted (sid : nat).

Definition apply_effect (values : list Z) (e : sem_effect) : list Z :=
  match e with
  | Untouched => values
  | Created value => values ++ [value]
  | Taken sid => alter (fun v => v - 1) sid values
  | Posted sid => alter (fun v => v + 1) sid values
  end.

(** A token is taken only where there is one and added only where one fits. *)
Definition effect_allowed (values : list Z) (e : sem_effect) : Prop :=
  match e with
  | Untouched => True
  | Created value => value <= kSemaphoreValueMax
  | Taken sid => exists v, values !! sid = Some v /\ 0 < v
  | Posted sid => exists v, values !! sid = Some v /\ v < kSemaphoreValueMax
  end.

Definition taken_at s (slot_address : Z) : sem_effect :=
  match semaphore_for_slot s slot_address with inr sid => Taken sid | inl _ => Untouched end.

Definition call_effect s (op : sem_op) (o : outcome sem_pc) : sem_effect :=
  match o with
  | Returned 0 =>
      match op with
      | SInit slot_address value => if slot_address =? 0 then Untouched else Created value
      | SWait slot_address | SRelTimedWait slot_address _ => taken_at s slot_address
      | _ => Untouched
      end
  | _ => Untouched
  end.

Definition resume_effect s (pc : sem_pc) (o : outcome sem_pc) : sem_effect :=
  match o with
  | Returned 0 =>
      match pc with
      | SemTry sid | SemTimedTry sid _ _ | SemBlocked sid _ => Taken sid
      | SemTimed slot_address _ => taken_at s slot_address
      | SemPost sid => Posted sid
      | SemGet _ _ => Untouched
      end
  | _ => Untouched
  end.

(** The effect of a step, from its handler and its result. *)
Definition effect_of (w : sem_world) (l : sem_label) : sem_effect :=
  match l with
  | SemCalled _ op o => call_effect (sw_sems w) op o
  | SemResumed _ pc o => resume_effect (sw_sems w) pc o
  | SemMemory => Untouched
  end.

Definition values s : list Z := sr_value <$> sm_store s.

#[export] Instance sem_effect_eq_dec : EqDecision sem_effect.
Proof. solve_decision. Defined.

(** How often an effect occurs, and the values semaphores were created with. *)
Definition occurrences (e : sem_effect) (es : list sem_effect) : Z :=
  Z.of_nat (length (filter (eq e) es)).
Definition created_value (e : sem_effect) : option Z :=
  match e with Created value => Some value | _ => None end.

(** ** The invariant *)

Definition blocked_on (sid : nat) (pc : sem_pc) : bool :=
  match pc with SemBlocked i _ => bool_decide (i = sid) | _ => false end.

(** The record a program counter points to. *)
Definition record_of (pc : sem_pc) : option nat :=
  match pc with
  | SemTry sid | SemTimedTry sid _ _ | SemBlocked sid _ | SemPost sid | SemGet sid _ => Some sid
  | SemTimed _ _ => None
  end.

(** The state when [blocked sid] threads are blocked on the record [sid]. *)
Record sems_inv (blocked : nat -> Z) s : Prop := {
  si_memory : gw_wf (sm_memory s);
  si_table : table_wf semaphore_first (sm_table s);
  si_entries h sid : tb_entries (sm_table s) !! h = Some sid -> (sid < length (sm_store s))%nat;
  si_inj h1 h2 sid : tb_entries (sm_table s) !! h1 = Some sid ->
    tb_entries (sm_table s) !! h2 = Some sid -> h1 = h2;
  si_store sid r : sm_store s !! sid = Some r ->
    0 <= sr_value r <= kSemaphoreValueMax /\ sr_waiters r = blocked sid;
  si_waited sid : 0 < blocked sid -> exists h, tb_entries (sm_table s) !! h = Some sid;
}.

Lemma sems_inv_ext b1 b2 s : (forall sid, b1 sid = b2 sid) -> sems_inv b1 s -> sems_inv b2 s.
Proof.
  intros Hb [H1 H2 H3 H4 H5 H6]. split; [done..| |].
  - intros sid r Hr. rewrite <- Hb. by apply H5.
  - intros sid. rewrite <- Hb. apply H6.
Qed.

Lemma modify_inv b b' s sid r f :
  sems_inv b s -> sm_store s !! sid = Some r ->
  0 <= sr_value (f r) <= kSemaphoreValueMax -> sr_waiters (f r) = b' sid ->
  (0 < b' sid -> exists h, tb_entries (sm_table s) !! h = Some sid) ->
  (forall i, i <> sid -> b' i = b i) ->
  sems_inv b' (modify sid f s).
Proof.
  intros [H1 H2 H3 H4 H5 H6] Hr Hv Hw Hh Hb. split; cbn; try done.
  - intros h i Hi. rewrite length_alter. by eapply H3.
  - intros i r'. destruct (decide (i = sid)) as [->|Hne].
    + rewrite list_lookup_alter_eq, Hr. intros [= <-]. done.
    + rewrite list_lookup_alter_ne by done. rewrite Hb by done. apply H5.
  - intros i. destruct (decide (i = sid)) as [->|Hne]; [done|]. rewrite Hb by done. apply H6.
Qed.

Lemma modify_values s sid r f g :
  sm_store s !! sid = Some r -> sr_value (f r) = g (sr_value r) ->
  values (modify sid f s) = alter g sid (values s).
Proof.
  intros Hr Hf. unfold values. cbn. apply list_eq. intros i. rewrite list_lookup_fmap.
  destruct (decide (i = sid)) as [->|Hne].
  - rewrite !list_lookup_alter_eq, list_lookup_fmap, Hr. cbn. by rewrite Hf.
  - by rewrite !list_lookup_alter_ne, list_lookup_fmap by done.
Qed.

(** What a section of a thread leaves, [b] threads other than it being blocked. *)
Record section_ok (b : nat -> Z) s (o : outcome sem_pc) s' (e : sem_effect) : Prop := {
  so_inv : sems_inv (fun sid => b sid + weight (blocked_on sid) (after o)) s';
  so_values : values s' = apply_effect (values s) e;
  so_allowed : effect_allowed (values s) e;
  so_record pc sid : after o = Some pc -> record_of pc = Some sid -> (sid < length (sm_store s'))%nat;
  so_grows : (length (sm_store s) <= length (sm_store s'))%nat;
}.

Lemma section_same b s (o : outcome sem_pc) :
  sems_inv b s -> (forall sid, weight (blocked_on sid) (after o) = 0) ->
  (forall pc sid, after o = Some pc -> record_of pc = Some sid -> (sid < length (sm_store s))%nat) ->
  section_ok b s o s Untouched.
Proof.
  intros Hs Hw Hr. split; [|done..].
  eapply sems_inv_ext; [|exact Hs]. intros sid. cbn. rewrite Hw. lia.
Qed.

Lemma returned_same b s code : sems_inv b s -> section_ok b s (Returned code) s Untouched.
Proof. intros Hs. by apply section_same. Qed.

Lemma slot_record b s slot sid :
  sems_inv b s -> semaphore_for_slot s slot = inr sid -> exists r, sm_store s !! sid = Some r.
Proof.
  intros Hs. unfold semaphore_for_slot. destruct (slot =? 0); [done|].
  destruct (gw_read64 _ _) as [h|]; [|done]. destruct (h =? 0); [done|].
  destruct (tb_entries _ !! h) as [i|] eqn:E; [|done]. intros [= <-].
  apply (si_entries _ _ Hs) in E. by apply lookup_lt_is_Some.
Qed.

Lemma slot_handle s slot sid :
  semaphore_for_slot s slot = inr sid -> exists h, tb_entries (sm_table s) !! h = Some sid.
Proof.
  unfold semaphore_for_slot. destruct (slot =? 0); [done|].
  destruct (gw_read64 _ _) as [h|]; [|done]. destruct (h =? 0); [done|].
  destruct (tb_entries _ !! h) as [i|] eqn:E; [|done]. intros [= <-]. by exists h.
Qed.

Lemma value_of s sid r : sm_store s !! sid = Some r -> values s !! sid = Some (sr_value r).
Proof. intros Hr. unfold values. by rewrite list_lookup_fmap, Hr. Qed.

(** Taking a token, by a thread that was ([d = 1]) or was not blocked. *)
Lemma take_ok b s sid r (d : Z) :
  sems_inv (fun i => b i + d * Z.b2z (bool_decide (sid = i))) s -> (forall i, 0 <= b i) ->
  b sid + 1 < u64_mod -> (d = 0 \/ d = 1) ->
  sm_store s !! sid = Some r -> sr_value r <> 0 ->
  section_ok b s (Returned 0)
    (modify sid (add_value (-1)) (if d =? 0 then s else modify sid (add_waiter (-1)) s)) (Taken sid).
Proof.
  intros Hs Hb0 Hb Hd Hr Hv. destruct (si_store _ _ Hs sid r Hr) as [Hrange Hw].
  rewrite bool_decide_true in Hw by done. specialize (Hb0 sid). cbn in Hw.
  assert (0 < d * 1 + b sid -> exists h, tb_entries (sm_table s) !! h = Some sid) as Hh.
  { intros Hp. apply (si_waited _ _ Hs). rewrite bool_decide_true by done. cbn. lia. }
  assert (wrap32 (sr_value r + -1) = sr_value r - 1) as Hw32.
  { rewrite wrap32_small; [lia|]. unfold kSemaphoreValueMax in *. unfold in_u32. lia. }
  set (s1 := if d =? 0 then s else _).
  assert (exists r1, sm_store s1 !! sid = Some r1 /\ sr_value r1 = sr_value r /\ sr_waiters r1 = b sid /\
    sems_inv b s1 /\ values s1 = values s /\ length (sm_store s1) = length (sm_store s))
    as (r1 & Hr1 & Hv1 & Hw1 & Hs1 & Hvs & Hl).
  { unfold s1. destruct Hd as [->| ->]; cbn [Z.eqb].
    - exists r. split_and!; try done; [lia|]. eapply sems_inv_ext; [|exact Hs]. intros i. cbn. lia.
    - assert (wrap64 (sr_waiters r + -1) = b sid) as Hd1.
      { rewrite Hw. replace (b sid + 1 * 1 + -1) with (b sid) by lia. apply wrap64_small. unfold in_u64. lia. }
      exists (add_waiter (-1) r). split; [cbn; by rewrite list_lookup_alter_eq, Hr|].
      split; [done|]. split; [done|]. split; [|split].
      + eapply modify_inv; [exact Hs|exact Hr|done|done|intros; apply Hh; lia|].
        intros i Hi. cbn. rewrite bool_decide_false by done. cbn. lia.
      + rewrite (modify_values s sid r _ id); [|done..]. unfold values. cbn. by apply list_alter_id.
      + cbn. apply length_alter. }
  split.
  - cbn. eapply (modify_inv b); [exact Hs1|exact Hr1|..].
    + cbn. rewrite Hv1, Hw32. lia.
    + cbn. rewrite Hw1. lia.
    + intros Hp. apply (si_waited _ _ Hs1). lia.
    + intros i _. lia.
  - cbn [apply_effect]. rewrite (modify_values s1 sid r1 _ (fun v => v - 1)); [by rewrite Hvs|done|].
    cbn. by rewrite Hv1, Hw32.
  - cbn. exists (sr_value r). split; [by apply value_of|lia].
  - done.
  - cbn. rewrite length_alter. lia.
Qed.

Lemma post_ok b s sid r :
  sems_inv b s -> sm_store s !! sid = Some r -> sr_value r <> kSemaphoreValueMax ->
  section_ok b s (Returned 0) (modify sid (add_value 1) s) (Posted sid).
Proof.
  intros Hs Hr Hv. destruct (si_store _ _ Hs sid r Hr) as [Hrange Hw].
  assert (wrap32 (sr_value r + 1) = sr_value r + 1) as Hw32.
  { rewrite wrap32_small; [lia|]. unfold kSemaphoreValueMax in *. unfold in_u32. lia. }
  split.
  - cbn. eapply (modify_inv b); [exact Hs|exact Hr|..].
    + cbn. rewrite Hw32. lia.
    + cbn. rewrite Hw. lia.
    + intros Hp. apply (si_waited _ _ Hs). lia.
    + intros i _. lia.
  - apply (modify_values s sid r); [done|]. cbn. by rewrite Hw32.
  - cbn. exists (sr_value r). split; [by apply value_of|lia].
  - done.
  - cbn. rewrite length_alter. lia.
Qed.

Lemma wait_impl_ok b now s slot kind o s' :
  sems_inv b s -> (forall sid, 0 <= b sid /\ b sid + 1 < u64_mod) ->
  sem_wait_impl now s slot kind = Ok (o, s') ->
  section_ok b s o s' (match o with Returned 0 => taken_at s slot | _ => Untouched end).
Proof.
  intros Hs Hb. unfold sem_wait_impl, taken_at.
  destruct (semaphore_for_slot s slot) as [e|sid] eqn:Esl.
  { intros [= <- <-]. destruct e; by apply returned_same. }
  destruct (slot_record b s slot sid Hs Esl) as [r Hr]. rewrite Hr. cbn [deref mbind result_bind].
  destruct (si_store _ _ Hs sid r Hr) as [Hrange Hw]. specialize (Hb sid) as Hbs.
  destruct (Z.eqb_spec (sr_value r) 0) as [Hz|Hz]; cbn [negb].
  2: { intros [= <- <-]. apply (take_ok b s sid r 0); try done; [|intros i; apply Hb|lia|by left].
       eapply sems_inv_ext; [|exact Hs]. intros i. cbn. lia. }
  intros (timeout & _ & Hk)%bind_Ok.
  set (s1 := modify sid (add_waiter 1) s) in Hk.
  assert (sems_inv (fun i => b i + Z.b2z (bool_decide (sid = i))) s1) as Hs1.
  { eapply (modify_inv b); [exact Hs|exact Hr|done|..].
    - cbn. rewrite bool_decide_true by done. cbn. rewrite Hw. apply wrap64_small. unfold in_u64. lia.
    - intros _. by eapply slot_handle.
    - intros i Hi. cbn. rewrite bool_decide_false by done. cbn. lia. }
  assert (values s1 = values s) as Hv1.
  { unfold s1. rewrite (modify_values s sid r _ id); [|done..]. unfold values. cbn. by apply list_alter_id. }
  destruct timeout as [timeout|]; injection Hk as <- <-.
  - split; [exact Hs1|exact Hv1|done| |].
    + intros pc i [= <-] [= <-]. cbn. rewrite length_alter. by eapply lookup_lt_Some.
    + cbn. rewrite length_alter. lia.
  - assert (sm_store s1 !! sid = Some (add_waiter 1 r)) as Hr1.
    { cbn. by rewrite list_lookup_alter_eq, Hr. }
    split.
    + cbn. eapply (modify_inv (fun i => b i + Z.b2z (bool_decide (sid = i)))); [exact Hs1|exact Hr1|done|..].
      * cbn. rewrite Hw. rewrite (wrap64_small (b sid + 1)) by (unfold in_u64; lia).
        rewrite wrap64_small by (unfold in_u64; lia). lia.
      * intros _. by eapply slot_handle.
      * intros i Hi. cbn. rewrite bool_decide_false by done. cbn. lia.
    + change (values (modify sid (add_waiter (-1)) s1) = values s).
      rewrite (modify_values s1 sid _ _ id Hr1); [|done]. unfold id. rewrite list_alter_id by done. exact Hv1.
    + done.
    + done.
    + cbn. rewrite !length_alter. lia.
Qed.

Lemma semaphore_first_ok : 0 <= 0 < semaphore_first /\ semaphore_first < 4294967296 /\ semaphore_first mod 8 = 0.
Proof. done. Qed.

Context `{!GuestWordsLaws M}.

Lemma init_ok b s slot value code s' :
  sems_inv b s -> (forall sid, 0 <= b sid) -> in_u32 value -> sem_init s slot value = Ok (code, s') ->
  section_ok b s (Returned code) s' (call_effect s (SInit slot value) (Returned code)).
Proof.
  intros Hs Hb0 Hv. assert (forall sid, (length (sm_store s) <= sid)%nat -> b sid = 0) as Hb.
  { intros sid Hl. destruct (decide (0 < b sid)) as [[h Hh%(si_entries _ _ Hs)]%(si_waited _ _ Hs)|];
      [lia|]. specialize (Hb0 sid). lia. }
  unfold sem_init.
  destruct (Z.ltb_spec kSemaphoreValueMax value) as [Hbig|Hsmall].
  { intros [= <- <-]. by apply returned_same. }
  unfold call_effect. destruct (Z.eqb_spec slot 0) as [->|Hslot].
  { intros [= <- <-]. by apply returned_same. }
  destruct (gw_writable _ _ _) eqn:Hw; cbn [negb].
  2: { intros [= <- <-]. by apply returned_same. }
  intros ([h t] & Ha & ([ok m] & Hwr & Hk)%bind_Ok)%bind_Ok.
  apply allocate_handle_Ok in Ha as (Hh & Hfree & He & Ht); [|apply semaphore_first_ok|apply Hs].
  destruct (gw_write64_ok (sm_memory s) slot h) as (ok' & m' & Hwr' & [Hok Hwf _ _ _] & _);
    [apply Hs|destruct Hh; unfold in_u64; change semaphore_first with 0x50000 in *; lia|].
  rewrite Hwr in Hwr'. injection Hwr' as <- <-. rewrite Hw in Hok. subst ok. cbn [negb] in Hk.
  injection Hk as <- <-. split; cbn; try done.
  - destruct Hs as [H1 H2 H3 H4 H5 H6]. split; cbn; try done.
    + apply emplace_wf; [done..].
    + intros k sid. rewrite He, length_app. cbn. intros [[_ <-]|[_ Hk]]%lookup_insert_Some; [lia|].
      apply H3 in Hk. lia.
    + rewrite He. intros k1 k2 sid [[<- <-]|[Hn1 Hk1]]%lookup_insert_Some [[<- E]|[Hn2 Hk2]]%lookup_insert_Some;
        try done; try (apply H3 in Hk2; lia); try (apply H3 in Hk1; lia). by eapply H4.
    + intros sid r [Hr|[Hge Hr]]%lookup_app_Some.
      * destruct (H5 sid r Hr). split; [done|lia].
      * apply list_lookup_singleton_Some in Hr as [_ <-]. cbn. unfold in_u32 in Hv. split; [lia|].
        rewrite Hb; [done|]. apply Nat.le_ngt. intros ?. lia.
    + intros sid Hp. rewrite He. assert (0 < b sid) as Hp' by lia. destruct (H6 sid Hp') as [k Hk].
      exists k. rewrite lookup_insert_ne; [done|]. intros ->. congruence.
  - unfold values. cbn. by rewrite fmap_app.
  - rewrite length_app. lia.
Qed.

Lemma destroy_ok b s slot code s' :
  sems_inv b s -> sem_destroy s slot = Ok (code, s') -> section_ok b s (Returned code) s' Untouched.
Proof.
  intros Hs. unfold sem_destroy.
  destruct (_ || _) eqn:Hu; [intros [= <- <-]; by apply returned_same|].
  apply orb_false_iff in Hu as [_ Hw%negb_false_iff].
  destruct (semaphore_for_slot s slot) as [e|sid] eqn:Esl.
  { intros [= <- <-]. by apply returned_same. }
  destruct (slot_record b s slot sid Hs Esl) as [r Hr]. rewrite Hr. cbn [deref mbind result_bind].
  destruct (si_store _ _ Hs sid r Hr) as [Hrange Hwt].
  destruct (Z.eqb_spec (sr_waiters r) 0) as [Hz|]; cbn [negb]; [|intros [= <- <-]; by apply returned_same].
  destruct (gw_read64 (sm_memory s) slot) as [h|] eqn:Erd; [|intros [= <- <-]; by apply returned_same].
  intros ([ok m] & Hwr & Hk)%bind_Ok.
  destruct (gw_write64_ok (sm_memory s) slot 0) as (ok' & m' & Hwr' & [Hok Hwf _ _ _] & _);
    [apply Hs|by unfold in_u64|].
  rewrite Hwr in Hwr'. injection Hwr' as <- <-. rewrite Hw in Hok. subst ok. cbn [negb] in Hk.
  injection Hk as <- <-.
  assert (tb_entries (sm_table s) !! h = Some sid) as Hh.
  { unfold semaphore_for_slot in Esl. rewrite Erd in Esl. destruct (slot =? 0), (h =? 0); try done.
    destruct (tb_entries _ !! h); [|done]. congruence. }
  split; try done. destruct Hs as [H1 H2 H3 H4 H5 H6]. split; cbn; try done.
  - by apply erase_wf.
  - intros k i [_ Hk]%lookup_delete_Some. by eapply H3.
  - intros k1 k2 i [_ Hk1]%lookup_delete_Some [_ Hk2]%lookup_delete_Some. by eapply H4.
  - intros i r' Hr'. destruct (H5 i r' Hr'). split; [done|lia].
  - intros i Hp. destruct (H6 i) as [k Hk]; [lia|]. exists k. rewrite lookup_delete_ne; [done|].
    intros ->. assert (i = sid) as -> by congruence. lia.
Qed.

Lemma paused_at_slot b s slot pc e :
  sems_inv b s -> (forall sid sid', blocked_on sid' (pc sid) = false) -> (forall sid, record_of (pc sid) = Some sid) ->
  e = Untouched ->
  forall o s', match semaphore_for_slot s slot with
    | inl error => Ok (Returned error, s)
    | inr sid => Ok (Paused (pc sid), s)
    end = Ok (o, s') -> section_ok b s o s' e.
Proof.
  intros Hs Hp Hr -> o s'. destruct (semaphore_for_slot s slot) as [error|sid] eqn:E; intros [= <- <-].
  - by apply returned_same.
  - apply section_same; [done|intros i; cbn; by rewrite Hp|].
    intros p i [= <-]. rewrite Hr. intros [= <-]. destruct (slot_record b s slot sid Hs E) as [r Hr'].
    by eapply lookup_lt_Some.
Qed.

Lemma call_ok b now s op o s' :
  sems_inv b s -> (forall sid, 0 <= b sid /\ b sid + 1 < u64_mod) -> sem_op_wf op ->
  sem_call now s op = Ok (o, s') -> section_ok b s o s' (call_effect s op o).
Proof.
  intros Hs Hb Hop. destruct op; cbn [sem_call].
  - intros ([c s1] & Hi & [= <- <-])%bind_Ok. eapply init_ok; [done|intros; apply Hb|done|exact Hi].
  - intros ([c s1] & Hd & [= <- <-])%bind_Ok. pose proof (destroy_ok b s _ _ _ Hs Hd) as Hok.
    by destruct c.
  - intros Hw. pose proof (wait_impl_ok b _ _ _ _ _ _ Hs Hb Hw) as Hok. by destruct o as [[]|].
  - apply paused_at_slot; try done. by destruct o as [[]|].
  - apply paused_at_slot; try done. by destruct o as [[]|].
  - intros Hw. pose proof (wait_impl_ok b _ _ _ _ _ _ Hs Hb Hw) as Hok. by destruct o as [[]|].
  - apply paused_at_slot; try done. by destruct o as [[]|].
  - apply paused_at_slot; try done. by destruct o as [[]|].
Qed.

Lemma take_unblocked b s sid r :
  sems_inv (fun i => b i + 0) s -> (forall i, 0 <= b i /\ b i + 1 < u64_mod) ->
  sm_store s !! sid = Some r -> sr_value r <> 0 ->
  section_ok b s (Returned 0) (modify sid (add_value (-1)) s) (Taken sid).
Proof.
  intros Hs Hb Hr Hv. apply (take_ok b s sid r 0); [|apply Hb|apply Hb|by left|done|done].
  eapply sems_inv_ext; [|exact Hs]. intros i. cbn. lia.
Qed.

Lemma resume_ok b now expired s pc o s' :
  sems_inv (fun sid => b sid + weight (blocked_on sid) (Some pc)) s ->
  (forall sid, 0 <= b sid /\ b sid + 1 < u64_mod) ->
  (forall sid, record_of pc = Some sid -> (sid < length (sm_store s))%nat) ->
  sem_resume now expired s pc = Ok (o, s') -> section_ok b s o s' (resume_effect s pc o).
Proof.
  intros Hs Hb Hrec.
  assert ((forall sid, blocked_on sid pc = false) -> sems_inv b s) as Hs0.
  { intros Hn. eapply sems_inv_ext; [|exact Hs]. intros i. cbn. rewrite Hn. cbn. lia. }
  destruct pc as [sid|sid a c|a c|sid timeout|sid|sid out]; cbn [sem_resume];
    try (destruct (lookup_lt_is_Some_2 (sm_store s) sid (Hrec sid eq_refl)) as [r Hr];
         rewrite Hr; cbn [deref mbind result_bind]);
    try (specialize (Hs0 ltac:(done))).
  - destruct (Z.eqb_spec (sr_value r) 0); intros [= <- <-]; [by apply returned_same|by eapply take_unblocked].
  - destruct (Z.eqb_spec (sr_value r) 0); cbn [negb]; intros [= <- <-];
      [apply section_same; [done|done|by intros ? ? [= <-]]|by eapply take_unblocked].
  - destruct (gw_read_timespec _ _) as [ts|]; [|intros [= <- <-]; by apply returned_same].
    destruct (_ || _); [intros [= <- <-]; by apply returned_same|]. intros Hw.
    pose proof (wait_impl_ok b _ _ _ _ _ _ Hs0 Hb Hw) as Hok. by destruct o as [[]|].
  - destruct (Z.eqb_spec (sr_value r) 0) as [Hz|Hz]; cbn [negb].
    2: { intros [= <- <-]. apply (take_ok b s sid r 1); [|apply Hb|apply Hb|by right|done|done].
         eapply sems_inv_ext; [|exact Hs]. intros i. cbn [weight blocked_on]. lia. }
    destruct (_ && _); intros [= <- <-].
    2: { split; [exact Hs|done|done| |done]. intros p i [= <-] [= <-]. by apply Hrec. }
    destruct (si_store _ _ Hs sid r Hr) as [Hrange Hw]. cbn in Hw. rewrite bool_decide_true in Hw by done.
    cbn in Hw. specialize (Hb sid) as Hbs. split; try done.
    + eapply (modify_inv _ _ s sid r); [exact Hs|exact Hr|done|..].
      * cbn. rewrite Hw. replace (b sid + 1 + -1) with (b sid) by lia.
        rewrite wrap64_small by (unfold in_u64; lia). lia.
      * cbn. intros Hp. apply (si_waited _ _ Hs). cbn. rewrite bool_decide_true by done. cbn. lia.
      * intros i Hi. cbn. rewrite bool_decide_false by done. cbn. lia.
    + change (values (modify sid (add_waiter (-1)) s) = values s).
      rewrite (modify_values s sid r _ id Hr); [|done]. unfold id. by rewrite list_alter_id.
    + cbn. by rewrite length_alter.
  - destruct (Z.eqb_spec (sr_value r) kSemaphoreValueMax); intros [= <- <-];
      [by apply returned_same|by eapply post_ok].
  - destruct (out =? 0); [intros [= <- <-]; by apply returned_same|].
    intros ([ok m] & Hwr & [= <- <-])%bind_Ok.
    destruct (gw_write32_ok (sm_memory s) out (sr_value r)) as (ok' & m' & Hwr' & [_ Hwf _ _ _]); [apply Hs|].
    rewrite Hwr in Hwr'. injection Hwr' as <- <-. clear Hwr.
    assert (section_ok b s (Returned (if ok : bool then 0 else kPosixEinval))
      (mkSems m (sm_table s) (sm_store s)) Untouched) as Hok; [|by destruct ok].
    split; try done. cbn. destruct Hs0 as [H1 H2 H3 H4 H5 H6]. split; cbn; try done.
    + intros i x Hx. destruct (H5 i x Hx). split; [done|lia].
    + intros i Hp. apply H6. lia.
Qed.

Record sem_world_inv (w : sem_world) : Prop := {
  swi_sems : sems_inv (fun sid => pcount (blocked_on sid) (sw_pcs w)) (sw_sems w);
  swi_records t pc sid : sw_pcs w !! t = Some pc -> record_of pc = Some sid ->
    (sid < length (sm_store (sw_sems w)))%nat;
  swi_size : Z.of_nat (size (sw_pcs w)) < u64_mod;
}.

Lemma section_world b s pcs t o s' e :
  section_ok b s o s' e -> (forall sid, b sid = pcount (blocked_on sid) (delete t pcs)) ->
  (forall u pc sid, pcs !! u = Some pc -> record_of pc = Some sid -> (sid < length (sm_store s))%nat) ->
  Z.of_nat (size (set_pc t o pcs)) < u64_mod ->
  sem_world_inv (mkSemWorld s' (set_pc t o pcs)).
Proof.
  intros [H1 _ _ H4 H5] Hb Hr Hs. split; cbn; [|..].
  - eapply sems_inv_ext; [|exact H1]. intros sid. cbn. by rewrite Hb, pcount_set.
  - intros u pc sid. rewrite lookup_set_pc. case_decide as E; [by apply H4|].
    intros Hu Hsid. specialize (Hr u pc sid Hu Hsid). lia.
  - done.
Qed.

Lemma sem_step_inv w l w' :
  sem_world_inv w -> sem_step w l w' ->
  sem_world_inv w' /\ values (sw_sems w') = apply_effect (values (sw_sems w)) (effect_of w l) /\
  effect_allowed (values (sw_sems w)) (effect_of w l).
Proof.
  intros [Hs Hr Hsz] Hstep.
  destruct Hstep as [s pcs t now op o s' Hn Hroom Hop Hc|s pcs t now expired pc o s' Hp Hc|s pcs m Hm];
    cbn [sw_sems sw_pcs effect_of] in *.
  - assert (forall sid, 0 <= pcount (blocked_on sid) pcs /\ pcount (blocked_on sid) pcs + 1 < u64_mod) as Hb.
    { intros sid. pose proof (pcount_nonneg (blocked_on sid) pcs).
      pose proof (pcount_size (blocked_on sid) pcs). lia. }
    pose proof (call_ok _ now s op o s' Hs Hb Hop Hc) as Hok. pose proof Hok as [H1 H2 H3 H4 H5].
    split; [|done]. eapply section_world; [exact Hok|..|pose proof (size_set_pc t o pcs); lia].
    + intros sid. by rewrite delete_id.
    + exact Hr.
  - assert (Z.of_nat (size (delete t pcs)) + 1 = Z.of_nat (size pcs)) as Hd.
    { rewrite map_size_delete, Hp. assert (size pcs <> 0%nat); [|lia].
      intros ->%map_size_empty_inv. by rewrite lookup_empty in Hp. }
    set (b := fun sid => pcount (blocked_on sid) (delete t pcs)).
    assert (forall sid, 0 <= b sid /\ b sid + 1 < u64_mod) as Hb.
    { intros sid. unfold b. pose proof (pcount_nonneg (blocked_on sid) (delete t pcs)).
      pose proof (pcount_size (blocked_on sid) (delete t pcs)). lia. }
    assert (section_ok b s o s' (resume_effect s pc o)) as Hok.
    { eapply resume_ok; [|exact Hb| |exact Hc].
      - eapply sems_inv_ext; [|exact Hs]. intros sid. cbn. rewrite (pcount_delete _ t), Hp. done.
      - intros sid. by eapply Hr. }
    pose proof Hok as [H1 H2 H3 H4 H5]. split; [|done]. eapply section_world; [exact Hok|done|exact Hr|].
    destruct o; cbn; [rewrite map_size_delete, Hp; unfold id; lia|].
    rewrite map_size_insert, Hp. unfold id. lia.
  - split; [|done]. destruct Hs as [H1 H2 H3 H4 H5 H6]. by split.
Qed.

(** The runs of the threads, with the effects of their steps. *)
Inductive sem_run (m : M) : list sem_effect -> sem_world -> Prop :=
| sem_run_start : sem_run m [] (sem_start m)
| sem_run_step es w l w' :
    sem_run m es w -> sem_step w l w' -> sem_run m (es ++ [effect_of w l]) w'.

Lemma sem_run_inv m es w : gw_wf m -> sem_run m es w -> sem_world_inv w.
Proof.
  intros Hm. induction 1 as [|es w l w' _ IH Hs]; [|by destruct (sem_step_inv w l w' IH Hs)].
  split; cbn; [|by intros ? ? ?; rewrite lookup_empty|done].
  split; cbn; try done.
  split; cbn; [right; by split|by intros ? ?; rewrite lookup_empty].
Qed.

Lemma occurrences_snoc e es e' :
  occurrences e (es ++ [e']) = occurrences e es + Z.b2z (bool_decide (e = e')).
Proof.
  unfold occurrences. rewrite filter_app, length_app. rewrite filter_cons, filter_nil.
  case_decide; [rewrite bool_decide_true by done|rewrite bool_decide_false by done]; cbn; lia.
Qed.

(** The value of a semaphore from the effects so far. *)
Definition accounted (es : list sem_effect) (vs : list Z) : Prop :=
  length (omap created_value es) = length vs /\
  forall sid, match vs !! sid with
    | Some v => exists v0, omap created_value es !! sid = Some v0 /\
        v = v0 + occurrences (Posted sid) es - occurrences (Taken sid) es
    | None => occurrences (Posted sid) es = 0 /\ occurrences (Taken sid) es = 0
    end.

Lemma accounted_snoc es vs e :
  accounted es vs -> effect_allowed vs e -> accounted (es ++ [e]) (apply_effect vs e).
Proof.
  intros [Hl Ha] He. split.
  { rewrite omap_app, length_app, Hl. destruct e; cbn; rewrite ?length_app, ?length_alter; cbn; lia. }
  intros sid. specialize (Ha sid). rewrite !occurrences_snoc, omap_app.
  destruct e as [|value|i|i]; cbn [apply_effect omap list_omap created_value]; rewrite ?app_nil_r.
  - rewrite !bool_decide_false by done. cbn. rewrite !Z.add_0_r. exact Ha.
  - rewrite !bool_decide_false by done. cbn [Z.b2z]. rewrite !Z.add_0_r.
    destruct (vs !! sid) as [v|] eqn:Ev.
    + rewrite (lookup_app_l_Some _ _ _ _ Ev). destruct Ha as (v0 & H0 & ->). exists v0.
      by rewrite (lookup_app_l_Some _ _ _ _ H0).
    + apply lookup_ge_None in Ev. rewrite lookup_app_r by done. destruct Ha as [-> ->].
      destruct (decide (sid = length vs)) as [->|Hne].
      * rewrite Nat.sub_diag. cbn. exists value. rewrite lookup_app_r, Hl, Nat.sub_diag by lia. split; [done|lia].
      * destruct (sid - length vs)%nat eqn:Ed; [lia|]. done.
  - destruct He as (v & Hv & Hp). destruct (decide (i = sid)) as [->|Hne].
    + rewrite Hv in Ha. destruct Ha as (v0 & H0 & ->). rewrite list_lookup_alter_eq, Hv. cbn.
      exists v0. split; [done|]. rewrite bool_decide_false, bool_decide_true by done. cbn. lia.
    + rewrite list_lookup_alter_ne by done. rewrite !bool_decide_false by congruence. cbn.
      rewrite !Z.add_0_r. exact Ha.
  - destruct He as (v & Hv & Hp). destruct (decide (i = sid)) as [->|Hne].
    + rewrite Hv in Ha. destruct Ha as (v0 & H0 & ->). rewrite list_lookup_alter_eq, Hv. cbn.
      exists v0. split; [done|]. rewrite bool_decide_true, bool_decide_false by done. cbn. lia.
    + rewrite list_lookup_alter_ne by done. rewrite !bool_decide_false by congruence. cbn.
      rewrite !Z.add_0_r. exact Ha.
Qed.

Lemma sem_run_accounted m es w : gw_wf m -> sem_run m es w -> accounted es (values (sw_sems w)).
Proof.
  intros Hm. induction 1 as [|es w l w' Hr IH Hs].
  - split; [done|]. intros sid. done.
  - destruct (sem_step_inv w l w') as (_ & -> & Ha); [by eapply sem_run_inv|done|].
    by apply accounted_snoc.
Qed.

(** C31: tokens are conserved.  However the handlers of any number of threads
    interleave, and whatever the guest does to its memory meanwhile, the value
    of every semaphore is at all times the value it was created with plus the
    successful [sem_post]s less the successful waits on it, and lies between 0
    and the maximum: no wait succeeds without a token of its own, no post is
    lost and the value never wraps. *)
Theorem semaphores_conserve_tokens m es w sid r :
  gw_wf m -> sem_run m es w -> sm_store (sw_sems w) !! sid = Some r ->
  0 <= sr_value r <= kSemaphoreValueMax /\
  exists v0, omap created_value es !! sid = Some v0 /\
    sr_value r = v0 + occurrences (Posted sid) es - occurrences (Taken sid) es.
Proof.
  intros Hm Hrun Hr. split.
  - by apply (si_store _ _ (swi_sems _ (sem_run_inv m es w Hm Hrun)) sid r Hr).
  - destruct (sem_run_accounted m es w Hm Hrun) as [_ Ha]. specialize (Ha sid).
    by rewrite (value_of _ _ _ Hr) in Ha.
Qed.

(** ** The sections return *)

Lemma sem_timeout_total now kind :
  clock_sane now ->
  match kind with
  | sem_infinite => True
  | sem_relative us => in_u64 us
  | sem_absolute ts => in_i64 (ts_seconds ts) /\ 0 <= ts_nanoseconds ts < 1000000000
  end ->
  exists t, sem_timeout now kind = Ok t.
Proof.
  intros Hn. destruct kind as [|us|ts]; cbn [sem_timeout].
  - by eexists.
  - intros Hus. rewrite relative_timeout_value by done. by eexists.
  - intros [Hs Hns]. destruct (clock_now_ok now kClockRealtime Hn) as (v & -> & Hv). cbn.
    destruct v as [[s ns]|]; [|by eexists]. destruct (Hv s ns eq_refl).
    rewrite remaining_until_value by done. by eexists.
Qed.

Lemma sem_wait_total b now s slot kind :
  sems_inv b s -> (exists t, sem_timeout now kind = Ok t) -> exists a, sem_wait_impl now s slot kind = Ok a.
Proof.
  intros Hs [t Ht]. unfold sem_wait_impl.
  destruct (semaphore_for_slot s slot) as [e|sid] eqn:E; [by eexists|].
  destruct (slot_record b s slot sid Hs E) as [r ->]. cbn. destruct (negb _); [by eexists|].
  rewrite Ht. cbn. destruct t; by eexists.
Qed.

Lemma sem_call_total b now s op :
  sems_inv b s -> clock_sane now -> sem_op_wf op ->
  Z.of_nat (size (tb_entries (sm_table s))) < slots_count semaphore_first ->
  exists a, sem_call now s op = Ok a.
Proof.
  intros Hs Hn Hop Hroom. destruct op; cbn [sem_call];
    try (destruct (semaphore_for_slot s _); by eexists);
    try (apply (sem_wait_total b); [done|by apply sem_timeout_total]).
  - unfold sem_init. do 3 (case_match; [by eexists|]).
    destruct (allocate_handle_fresh _ 0 semaphore_first_ok (sm_table s)) as (h & t & -> & Hh & _);
      [apply Hs|done|]. cbn.
    destruct (gw_write64_ok (sm_memory s) slot_address h) as (ok & m & -> & _);
      [apply Hs|destruct Hh; unfold in_u64; change semaphore_first with 0x50000 in *; lia|].
    cbn. destruct ok; by eexists.
  - unfold sem_destroy. case_match; [by eexists|].
    destruct (semaphore_for_slot s slot_address) as [e|sid] eqn:E; [by eexists|].
    destruct (slot_record b s _ sid Hs E) as [r ->]. cbn. case_match; [by eexists|].
    destruct (gw_read64 _ _); [|by eexists].
    destruct (gw_write64_ok (sm_memory s) slot_address 0) as (ok & m & -> & _); [apply Hs|by unfold in_u64|].
    cbn. destruct ok; by eexists.
Qed.

Lemma sem_resume_total b now expired s pc :
  sems_inv b s -> clock_sane now ->
  (forall sid, record_of pc = Some sid -> (sid < length (sm_store s))%nat) ->
  exists a, sem_resume now expired s pc = Ok a.
Proof.
  intros Hs Hn Hrec. destruct pc as [sid|sid a c|a c|sid timeout|sid|sid out]; cbn [sem_resume];
    try (destruct (lookup_lt_is_Some_2 (sm_store s) sid (Hrec sid eq_refl)) as [r Hr];
         rewrite Hr; cbn [deref mbind result_bind]).
  - case_match; by eexists.
  - case_match; by eexists.
  - destruct (gw_read_timespec _ _) as [ts|] eqn:Hts; [|by eexists].
    destruct (_ || _) eqn:Hns; [by eexists|]. bools. apply (sem_wait_total b); [done|].
    apply sem_timeout_total; [done|].
    destruct (gw_timespec_range (sm_memory s) c ts) as [Hsec _]; [apply Hs|done|].
    unfold in_i64. lia.
  - case_match; [by eexists|]. case_match; by eexists.
  - case_match; by eexists.
  - case_match; [by eexists|].
    destruct (gw_write32_ok (sm_memory s) out (sr_value r)) as (ok & m & -> & _); [apply Hs|]. by eexists.
Qed.

(** waiting threads.  In every reachable state every handler's next section
    returns (no dangling record, no overflow, no endless handle loop).  A
    thread blocked on a semaphore is counted by its record, which exactly
    counts such threads, and the semaphore cannot be destroyed under it; when
    it is resumed it takes a token if there is one, even if its timeout has
    expired, and otherwise times out or goes on waiting. *)
Theorem semaphore_waiters_are_served m es w now :
  gw_wf m -> sem_run m es w -> clock_sane now ->
  let s := sw_sems w in
  (forall op, sem_op_wf op -> Z.of_nat (size (tb_entries (sm_table s))) < slots_count semaphore_first ->
     exists a, sem_call now s op = Ok a) /\
  (forall t pc expired, sw_pcs w !! t = Some pc -> exists a, sem_resume now expired s pc = Ok a) /\
  (forall t sid timeout, sw_pcs w !! t = Some (SemBlocked sid timeout) ->
     exists r, sm_store s !! sid = Some r /\
       sr_waiters r = pcount (blocked_on sid) (sw_pcs w) /\ 0 < sr_waiters r /\
       (forall slot, usable (sm_memory s) slot = true -> semaphore_for_slot s slot = inr sid ->
          sem_destroy s slot = Ok (kPosixEbusy, s)) /\
       forall expired, exists s', sem_resume now expired s (SemBlocked sid timeout) =
         Ok (if negb (sr_value r =? 0) then Returned 0
             else if expired && isSome timeout then Returned kPosixEtimedout
             else Paused (SemBlocked sid timeout), s')).
Proof.
  intros Hm Hrun Hn s. destruct (sem_run_inv m es w Hm Hrun) as [Hs Hrec _]. fold s in Hs, Hrec.
  split; [|split].
  - intros op Hop Hroom. by eapply sem_call_total.
  - intros t pc expired Hpc. eapply sem_resume_total; [exact Hs|done|]. intros sid. by eapply Hrec.
  - intros t sid timeout Hpc.
    destruct (lookup_lt_is_Some_2 (sm_store s) sid) as [r Hr]; [by eapply Hrec|].
    destruct (si_store _ _ Hs sid r Hr) as [_ Hw]. exists r. split; [done|]. split; [done|].
    assert (0 < sr_waiters r) as Hpos.
    { rewrite Hw. eapply pcount_pos; [exact Hpc|]. cbn. by rewrite bool_decide_true. }
    split; [done|]. split.
    + intros slot Hu Hsl. unfold sem_destroy. unfold usable in Hu. apply negb_true_iff in Hu as ->.
      rewrite Hsl, Hr. cbn. destruct (Z.eqb_spec (sr_waiters r) 0); [lia|done].
    + intros expired. cbn [sem_resume]. rewrite Hr. cbn [deref mbind result_bind].
      destruct (negb _); [by eexists|]. destruct (_ && _); by eexists.
Qed.

End Sem.

(** ** Witnesses *)

#[local] Existing Instance tiny_host.
#[local] Existing Instance tiny_host_laws.

Definition some_time : ClockReading := mkClockReading 1700000000000000000 5000000000 None.

Lemma some_time_sane : clock_sane some_time.
Proof. split; cbn; [lia|lia|done]. Qed.

(** A semaphore made with value 0 at address 96, thread 2 blocked on it, and a
    post by thread 1. *)
Definition answer_of {A} (default : A) (a : result (outcome sem_pc * A)) : A :=
  match a with Ok (_, s) => s | Throw _ => default end.

Definition sem_1 : sems space :=
  answer_of (sw_sems (sem_start tiny_buffered)) (sem_call some_time (sw_sems (sem_start tiny_buffered)) (SInit 96 0)).
Definition sem_2 : sems space := answer_of sem_1 (sem_call some_time sem_1 (SRelTimedWait 96 1000)).
Definition sem_3 : sems space := answer_of sem_2 (sem_resume some_time false sem_2 (SemPost 0)).

Definition waiting_world : sem_world := mkSemWorld sem_2 {[2 := SemBlocked 0 (Some 1000000)]}.
Definition posted_world : sem_world := mkSemWorld sem_3 {[2 := SemBlocked 0 (Some 1000000)]}.

Lemma sample_run :
  sem_run tiny_buffered [Created 0; Untouched] waiting_world /\
  sem_run tiny_buffered [Created 0; Untouched; Untouched; Posted 0] posted_world.
Proof.
  set (w1 := mkSemWorld sem_1 (set_pc 1 (Returned 0) ∅)).
  set (w3 := mkSemWorld sem_2 (set_pc 1 (Paused (SemPost 0)) (sw_pcs waiting_world))).
  assert (sem_run tiny_buffered [Created 0] w1) as H1.
  { apply (sem_run_step _ [] (sem_start tiny_buffered) (SemCalled 1 (SInit 96 0) (Returned 0)));
      [constructor|]. by eapply sem_step_call with (now := some_time); [..|vm_compute; reflexivity]. }
  assert (sem_run tiny_buffered [Created 0; Untouched] waiting_world) as H2.
  { apply (sem_run_step _ [Created 0] w1 (SemCalled 2 (SRelTimedWait 96 1000) (Paused (SemBlocked 0 (Some 1000000)))));
      [exact H1|]. by eapply sem_step_call with (now := some_time); [..|vm_compute; reflexivity]. }
  assert (sem_run tiny_buffered [Created 0; Untouched; Untouched] w3) as H3.
  { apply (sem_run_step _ [Created 0; Untouched] waiting_world (SemCalled 1 (SPost 96) (Paused (SemPost 0))));
      [exact H2|]. by eapply sem_step_call with (now := some_time); [..|vm_compute; reflexivity]. }
  split; [exact H2|].
  apply (sem_run_step _ [Created 0; Untouched; Untouched] w3 (SemResumed 1 (SemPost 0) (Returned 0)));
    [exact H3|]. by eapply sem_step_resume with (now := some_time) (expired := false);
      [|vm_compute; reflexivity].
Qed.

Lemma semaphores_conserve_tokens_witness :
  exists r, sm_store (sw_sems posted_world) !! 0%nat = Some r /\ sr_value r = 1.
Proof.
  destruct (semaphores_conserve_tokens tiny_buffered
    [Created 0; Untouched; Untouched; Posted 0] posted_world 0%nat
    (mkSemaphoreRecord 1 1)) as (_ & v0 & Hv & Hval);
    [exact tiny_buffered_ok|exact (proj2 sample_run)|reflexivity|].
  exists (mkSemaphoreRecord 1 1). split; [reflexivity|]. rewrite Hval. injection Hv as <-. reflexivity.
Defined.

Lemma semaphore_waiters_are_served_witness :
  exists r, sm_store (sw_sems waiting_world) !! 0%nat = Some r /\ sr_waiters r = 1 /\
    sem_destroy (sw_sems waiting_world) 96 = Ok (kPosixEbusy, sw_sems waiting_world).
Proof.
  destruct (semaphore_waiters_are_served tiny_buffered [Created 0; Untouched] waiting_world some_time) as (_ & _ & H);
    [exact tiny_buffered_ok|exact (proj1 sample_run)|exact some_time_sane|].
  destruct (H 2 0%nat (Some 1000000) eq_refl) as (r & Hr & Hw & _ & Hd & _).
  exists r. split; [exact Hr|]. split; [exact Hw|]. apply Hd; reflexivity.
Defined.
