(* ===== verification/KernelSync.v ===== *)
(** * Mutexes and condition variables

    [mutex_*] and [cond_*] of [src/src/runtime/kernel_services.cpp] (lines 1977
    to 2179 and 2307 to 2639).  The guest holds a mutex or a condition variable
    as a handle in a word of its memory; the services map handles to shared
    records ([std::shared_ptr]), here indices of stores that only grow, as are
    the tokens ([CondWaiter]) of waiting threads.  A handler is written as the
    sections its locks make atomic ([Threads]).  In [mutex_lock] the record's
    lock is taken before the table's is released, so the lookup and the test of
    the record are one section; the same holds for the second section of
    [cond_wait_impl], for [cond_signal] and for [cond_broadcast].  Host memory
    exhaustion and [std::system_error] are not modelled. *)

From S2P Require Import Prelude NativeArena GuestMemory GuestMemoryProps KernelMem HandleTable KernelAttrs KernelTime Threads.

Local Open Scope Z_scope.

Definition kMutexAdaptiveInitializer := 1.
Definition kMutexDestroyed := 2.
Definition kCondDestroyed := 1.
Definition mutex_first := 0x10000.
Definition cond_first := 0x40000.

Record MutexRecord : Type := mkMutexRecord {
  mr_locked : bool;
  mr_owner : option Z;
  mr_depth : Z;
  mr_waiters : Z;
  mr_type : Z;
}.

Definition new_mutex (type : Z) : MutexRecord := mkMutexRecord false None 0 0 type.

Record CondRecord : Type := mkCondRecord { cr_waiters : list nat; cr_clock_id : Z }.

Inductive CondWaitKind : Type :=
| cond_infinite
| cond_relative (microseconds : Z)
| cond_absolute (timeout : GuestTimespec).

(** The locals of [cond_wait_impl] that outlive its second section: [cond],
    [waiter], [mutex], [mutex_slot_address] and [saved_mutex_depth]. *)
Record cond_wait_frame : Type := mkFrame {
  cf_cond : nat;
  cf_waiter : nat;
  cf_mutex : nat;
  cf_slot : Z;
  cf_depth : Z;
}.

(** What a thread that locks a mutex goes on with: [mutex_lock] itself returns,
    [reacquire_mutex] restores the recursion depth and [cond_wait_impl] returns
    [result]. *)
Inductive after_lock : Type :=
| LockReturns
| LockRestores (frame : cond_wait_frame) (result : Z).

Inductive sync_pc : Type :=
| MutexInit (slot_address type : Z)
| MutexBlocked (rid : nat) (k : after_lock)
| CondInit (slot_address clock_id : Z)
| CondEnter (slot_address mutex_slot_address : Z) (rid : nat) (kind : CondWaitKind)
| CondQueued (frame : cond_wait_frame) (kind : CondWaitKind)
| CondBlocked (frame : cond_wait_frame) (timeout : option Z)
| CondTimedOut (frame : cond_wait_frame)
| CondRelock (frame : cond_wait_frame) (result : Z)
| CondRestore (frame : cond_wait_frame) (result : Z).

Inductive sync_op : Type :=
| OMutexInit (slot_address attributes : Z)
| OMutexLock (slot_address : Z)
| OMutexUnlock (slot_address : Z)
| OMutexDestroy (slot_address : Z)
| OCondInit (slot_address attributes : Z)
| OCondDestroy (slot_address : Z)
| OCondWait (slot_address mutex_slot_address : Z)
| OCondTimedWait (slot_address mutex_slot_address absolute_timeout_address : Z)
| OCondRelTimedWait (slot_address mutex_slot_address microseconds : Z)
| OCondSignal (slot_address : Z)
| OCondBroadcast (slot_address : Z).

Definition sync_op_wf (op : sync_op) : Prop :=
  match op with OCondRelTimedWait _ _ microseconds => in_u64 microseconds | _ => True end.

Record sync (M : Type) : Type := mkSync {
  sy_memory : M;
  sy_mutex_attrs : table MutexAttributes;
  sy_cond_attrs : table CondAttributes;
  sy_mutexes : table nat;
  sy_mutex_store : list MutexRecord;
  sy_conds : table nat;
  sy_cond_store : list CondRecord;
  sy_tokens : list bool;
}.
Arguments mkSync {M} _ _ _ _ _ _ _ _.
Arguments sy_memory {M} _.
Arguments sy_mutex_attrs {M} _.
Arguments sy_cond_attrs {M} _.
Arguments sy_mutexes {M} _.
Arguments sy_mutex_store {M} _.
Arguments sy_conds {M} _.
Arguments sy_cond_store {M} _.
Arguments sy_tokens {M} _.

(** [std::find] and [erase] on a queue of waiters. *)
Fixpoint erase_first (w : nat) (waiters : list nat) : list nat :=
  match waiters with
  | [] => []
  | x :: waiters => if bool_decide (x = w) then waiters else x :: erase_first w waiters
  end.

Section Sync.
Context {M : Type} `{GuestWords M}.
Implicit Types (s : sync M).

(** Updates of the parts of the state. *)
Definition set_mutexes (m : M) (t : table nat) (store : list MutexRecord) s : sync M :=
  mkSync m (sy_mutex_attrs s) (sy_cond_attrs s) t store (sy_conds s) (sy_cond_store s) (sy_tokens s).
Definition set_conds (m : M) (t : table nat) (store : list CondRecord) s : sync M :=
  mkSync m (sy_mutex_attrs s) (sy_cond_attrs s) (sy_mutexes s) (sy_mutex_store s) t store (sy_tokens s).
Definition set_tokens (tokens : list bool) s : sync M :=
  mkSync (sy_memory s) (sy_mutex_attrs s) (sy_cond_attrs s) (sy_mutexes s) (sy_mutex_store s)
    (sy_conds s) (sy_cond_store s) tokens.
Definition set_mutex (rid : nat) (r : MutexRecord) s : sync M :=
  set_mutexes (sy_memory s) (sy_mutexes s) (<[rid := r]> (sy_mutex_store s)) s.
Definition set_waiters (cid : nat) (waiters : list nat) s : sync M :=
  set_conds (sy_memory s) (sy_conds s)
    (alter (fun c => mkCondRecord waiters (cr_clock_id c)) cid (sy_cond_store s)) s.

(** ** Mutexes *)

(** A new record under a fresh handle, which the slot gets. *)
Definition emplace_mutex s (slot_address type : Z) : result ((Z + nat) * sync M) :=
  let rid := length (sy_mutex_store s) in
  '(handle, t) ← allocate_handle mutex_first kMutexDestroyed (sy_mutexes s);
  let t := emplace handle rid t in
  '(ok, m) ← gw_write64 (sy_memory s) slot_address handle;
  if negb ok then Ok (inl kPosixEinval, set_mutexes m (erase handle t) (sy_mutex_store s) s)
  else Ok (inr rid, set_mutexes m t (sy_mutex_store s ++ [new_mutex type]) s).

Definition mutex_for_slot s (slot_address : Z) (create_static : bool) : result ((Z + nat) * sync M) :=
  match gw_read64 (sy_memory s) slot_address with
  | None => Ok (inl kPosixEinval, s)
  | Some handle =>
      if handle =? kMutexDestroyed then Ok (inl kPosixEinval, s)
      else if (handle =? 0) || (handle =? kMutexAdaptiveInitializer) then
        if negb create_static then Ok (inl kPosixEperm, s)
        else
          emplace_mutex s slot_address
            (if handle =? kMutexAdaptiveInitializer then kMutexTypeAdaptive else kMutexTypeErrorCheck)
      else
        match tb_entries (sy_mutexes s) !! handle with
        | None => Ok (inl kPosixEinval, s)
        | Some rid => Ok (inr rid, s)
        end
  end.

(** [mutex_init], before and after the attributes have been read. *)
Definition mutex_init_begin s (slot_address attributes : Z) : outcome sync_pc :=
  if (slot_address =? 0) || negb (gw_writable (sy_memory s) slot_address 8) then Returned kPosixEinval
  else if negb (attributes =? 0) then
    match mutex_attr_snapshot (sy_memory s) (sy_mutex_attrs s) attributes with
    | inl error => Returned error
    | inr resolved => Paused (MutexInit slot_address (ma_type resolved))
    end
  else Paused (MutexInit slot_address kMutexTypeErrorCheck).

Definition mutex_init_end s (slot_address type : Z) : result (Z * sync M) :=
  match gw_read64 (sy_memory s) slot_address with
  | None => Ok (kPosixEinval, s)
  | Some current =>
      if kMutexDestroyed <? current then Ok (kPosixEbusy, s)
      else
        '(r, s) ← emplace_mutex s slot_address type;
        Ok (match r with inl error => error | inr _ => 0 end, s)
  end.

(** The end of [mutex_lock], with its result, for whoever called it. *)
Definition lock_done (k : after_lock) (code : Z) : outcome sync_pc :=
  match k with
  | LockReturns => Returned code
  | LockRestores frame result =>
      if negb (code =? 0) then Returned code
      else if 1 <? cf_depth frame then Paused (CondRestore frame result)
      else Returned result
  end.

(** The wait of [mutex_lock], when its thread holds the record's lock. *)
Definition lock_wait (self : Z) s (rid : nat) (k : after_lock) : result (outcome sync_pc * sync M) :=
  record ← deref (sy_mutex_store s !! rid);
  if mr_locked record then Ok (Paused (MutexBlocked rid k), s)
  else
    Ok (lock_done k 0,
        set_mutex rid (mkMutexRecord true (Some self) 1 (wrap64 (mr_waiters record - 1)) (mr_type record)) s).

Definition lock_blocking (self : Z) s (rid : nat) (record : MutexRecord) (k : after_lock) :=
  lock_wait self
    (set_mutex rid (mkMutexRecord (mr_locked record) (mr_owner record) (mr_depth record)
                      (wrap64 (mr_waiters record + 1)) (mr_type record)) s) rid k.

Definition owned_by (self : Z) (record : MutexRecord) : bool :=
  mr_locked record && bool_decide (mr_owner record = Some self).

Definition set_depth (depth : Z) (record : MutexRecord) : MutexRecord :=
  mkMutexRecord (mr_locked record) (mr_owner record) depth (mr_waiters record) (mr_type record).
Definition release_mutex (record : MutexRecord) : MutexRecord :=
  mkMutexRecord false None 0 (mr_waiters record) (mr_type record).

Definition mutex_lock (self : Z) s (slot_address : Z) (k : after_lock)
  : result (outcome sync_pc * sync M) :=
  if slot_address =? 0 then Ok (lock_done k kPosixEinval, s)
  else
    '(r, s) ← mutex_for_slot s slot_address true;
    match r with
    | inl error => Ok (lock_done k error, s)
    | inr rid =>
        record ← deref (sy_mutex_store s !! rid);
        if owned_by self record then
          if mr_type record =? kMutexTypeRecursive then
            if mr_depth record =? u64_max then Ok (lock_done k kPosixEagain, s)
            else Ok (lock_done k 0, set_mutex rid (set_depth (wrap64 (mr_depth record + 1)) record) s)
          else if negb (mr_type record =? kMutexTypeNormal) then Ok (lock_done k kPosixEdeadlk, s)
          else lock_blocking self s rid record k
        else lock_blocking self s rid record k
    end.

Definition mutex_unlock (self : Z) s (slot_address : Z) : result (Z * sync M) :=
  if slot_address =? 0 then Ok (kPosixEinval, s)
  else
    '(r, s) ← mutex_for_slot s slot_address false;
    match r with
    | inl error => Ok (error, s)
    | inr rid =>
        record ← deref (sy_mutex_store s !! rid);
        if negb (owned_by self record) then Ok (kPosixEperm, s)
        else if (mr_type record =? kMutexTypeRecursive) && (1 <? mr_depth record) then
          Ok (0, set_mutex rid (set_depth (mr_depth record - 1) record) s)
        else Ok (0, set_mutex rid (release_mutex record) s)
    end.

Definition mutex_destroy s (slot_address : Z) : result (Z * sync M) :=
  if slot_address =? 0 then Ok (kPosixEinval, s)
  else
    match gw_read64 (sy_memory s) slot_address with
    | None => Ok (kPosixEinval, s)
    | Some handle =>
        if handle <? kMutexDestroyed then Ok (0, s)
        else if handle =? kMutexDestroyed then Ok (kPosixEinval, s)
        else
          match tb_entries (sy_mutexes s) !! handle with
          | None => Ok (kPosixEinval, s)
          | Some rid =>
              record ← deref (sy_mutex_store s !! rid);
              if mr_locked record || negb (mr_waiters record =? 0) then Ok (kPosixEbusy, s)
              else
                let t := erase handle (sy_mutexes s) in
                '(ok, m) ← gw_write64 (sy_memory s) slot_address kMutexDestroyed;
                Ok (if ok : bool then 0 else kPosixEinval, set_mutexes m t (sy_mutex_store s) s)
          end
    end.

(** ** Condition variables *)

Definition emplace_cond s (slot_address clock_id : Z) : result ((Z + nat) * sync M) :=
  let cid := length (sy_cond_store s) in
  '(handle, t) ← allocate_handle cond_first kCondDestroyed (sy_conds s);
  let t := emplace handle cid t in
  '(ok, m) ← gw_write64 (sy_memory s) slot_address handle;
  if negb ok then Ok (inl kPosixEinval, set_conds m (erase handle t) (sy_cond_store s) s)
  else Ok (inr cid, set_conds m t (sy_cond_store s ++ [mkCondRecord [] clock_id]) s).

(** [cond_for_slot_locked], whose callers all create static variables. *)
Definition cond_for_slot s (slot_address : Z) : result ((Z + nat) * sync M) :=
  match gw_read64 (sy_memory s) slot_address with
  | None => Ok (inl kPosixEinval, s)
  | Some handle =>
      if handle =? kCondDestroyed then Ok (inl kPosixEinval, s)
      else if handle =? 0 then emplace_cond s slot_address 0
      else
        match tb_entries (sy_conds s) !! handle with
        | None => Ok (inl kPosixEinval, s)
        | Some cid => Ok (inr cid, s)
        end
  end.

Definition cond_init_begin s (slot_address attributes : Z) : outcome sync_pc :=
  if (slot_address =? 0) || negb (gw_writable (sy_memory s) slot_address 8) then Returned kPosixEinval
  else if negb (attributes =? 0) then
    match cond_attr_snapshot (sy_memory s) (sy_cond_attrs s) attributes with
    | inl error => Returned error
    | inr resolved => Paused (CondInit slot_address (ca_clock_id resolved))
    end
  else Paused (CondInit slot_address 0).

Definition cond_init_end s (slot_address clock_id : Z) : result (Z * sync M) :=
  '(r, s) ← emplace_cond s slot_address clock_id;
  Ok (match r with inl error => error | inr _ => 0 end, s).

Definition cond_destroy s (slot_address : Z) : result (Z * sync M) :=
  if (slot_address =? 0) || negb (gw_writable (sy_memory s) slot_address 8) then Ok (kPosixEinval, s)
  else
    match gw_read64 (sy_memory s) slot_address with
    | None => Ok (kPosixEinval, s)
    | Some handle =>
        if handle =? 0 then Ok (0, s)
        else if handle =? kCondDestroyed then Ok (kPosixEinval, s)
        else
          match tb_entries (sy_conds s) !! handle with
          | None => Ok (kPosixEinval, s)
          | Some cid =>
              record ← deref (sy_cond_store s !! cid);
              if negb (bool_decide (cr_waiters record = [])) then Ok (kPosixEbusy, s)
              else
                '(ok, m) ← gw_write64 (sy_memory s) slot_address kCondDestroyed;
                if negb ok then Ok (kPosixEinval, set_conds m (sy_conds s) (sy_cond_store s) s)
                else Ok (0, set_conds m (erase handle (sy_conds s)) (sy_cond_store s) s)
          end
    end.

(** [cond_wait_impl]: the look-up of the mutex, ... *)
Definition cond_wait_begin s (slot_address mutex_slot_address : Z) (kind : CondWaitKind)
  : result (outcome sync_pc * sync M) :=
  if (slot_address =? 0) || (mutex_slot_address =? 0) then Ok (Returned kPosixEinval, s)
  else
    '(r, s) ← mutex_for_slot s mutex_slot_address true;
    match r with
    | inl error => Ok (Returned error, s)
    | inr rid => Ok (Paused (CondEnter slot_address mutex_slot_address rid kind), s)
    end.

(** ... the section that queues the thread and releases the mutex, ... *)
Definition cond_wait_enter (self : Z) s (slot_address mutex_slot_address : Z) (rid : nat)
    (kind : CondWaitKind) : result (outcome sync_pc * sync M) :=
  '(r, s) ← cond_for_slot s slot_address;
  match r with
  | inl error => Ok (Returned error, s)
  | inr cid =>
      mutex ← deref (sy_mutex_store s !! rid);
      cond ← deref (sy_cond_store s !! cid);
      if negb (owned_by self mutex) then Ok (Returned kPosixEperm, s)
      else
        let waiter := length (sy_tokens s) in
        let frame := mkFrame cid waiter rid mutex_slot_address (mr_depth mutex) in
        Ok (Paused (CondQueued frame kind),
            set_mutex rid (release_mutex mutex)
              (set_waiters cid (cr_waiters cond ++ [waiter]) (set_tokens (sy_tokens s ++ [false]) s)))
  end.

(** ... the removal of the thread from the queue it may still be in, ... *)
Definition leave_queue s (frame : cond_wait_frame) : result (sync M) :=
  cond ← deref (sy_cond_store s !! cf_cond frame);
  Ok (set_waiters (cf_cond frame) (erase_first (cf_waiter frame) (cr_waiters cond)) s).

(** ... the computation of the timeout, ... *)
Definition cond_wait_timeout (now : ClockReading) s (frame : cond_wait_frame) (kind : CondWaitKind)
  : result (outcome sync_pc * sync M) :=
  match kind with
  | cond_infinite => Ok (Paused (CondBlocked frame None), s)
  | cond_relative microseconds =>
      timeout ← relative_timeout microseconds;
      Ok (Paused (CondBlocked frame (Some timeout)), s)
  | cond_absolute absolute_timeout =>
      cond ← deref (sy_cond_store s !! cf_cond frame);
      clock ← clock_now now (cr_clock_id cond);
      match clock with
      | None => s ← leave_queue s frame; Ok (Paused (CondRelock frame kPosixEinval), s)
      | Some (now_seconds, now_nanoseconds) =>
          timeout ← remaining_until (ts_seconds absolute_timeout) (ts_nanoseconds absolute_timeout)
                      now_seconds now_nanoseconds;
          Ok (Paused (CondBlocked frame (Some timeout)), s)
      end
  end.

(** ... the wait itself, which a signal, a spurious notification or the end of
    the timeout ([expired]) interrupts, ... *)
Definition cond_wait_blocked (expired : bool) s (frame : cond_wait_frame) (timeout : option Z)
  : result (outcome sync_pc * sync M) :=
  signaled ← deref (sy_tokens s !! cf_waiter frame);
  if signaled : bool then Ok (Paused (CondRelock frame 0), s)
  else if expired && isSome timeout then Ok (Paused (CondTimedOut frame), s)
  else Ok (Paused (CondBlocked frame timeout), s).

(** ... the section after a timeout, which a signal may have overtaken, ... *)
Definition cond_wait_timed_out s (frame : cond_wait_frame) : result (outcome sync_pc * sync M) :=
  signaled ← deref (sy_tokens s !! cf_waiter frame);
  if signaled : bool then Ok (Paused (CondRelock frame 0), s)
  else s ← leave_queue s frame; Ok (Paused (CondRelock frame kPosixEtimedout), s).

(** ... and the recursion depth, once the mutex is locked again. *)
Definition cond_wait_restore (self : Z) s (frame : cond_wait_frame) (result : Z)
  : Prelude.result (outcome sync_pc * sync M) :=
  record ← deref (sy_mutex_store s !! cf_mutex frame);
  if owned_by self record && (mr_type record =? kMutexTypeRecursive) then
    Ok (Returned result, set_mutex (cf_mutex frame) (set_depth (cf_depth frame) record) s)
  else Ok (Returned result, s).

Definition cond_timed_wait s (slot_address mutex_slot_address absolute_timeout_address : Z)
  : result (outcome sync_pc * sync M) :=
  match gw_read_timespec (sy_memory s) absolute_timeout_address with
  | None => Ok (Returned kPosixEinval, s)
  | Some timeout =>
      if negb (valid_timespec timeout) then Ok (Returned kPosixEinval, s)
      else cond_wait_begin s slot_address mutex_slot_address (cond_absolute timeout)
  end.

Definition cond_signal s (slot_address : Z) : result (Z * sync M) :=
  if slot_address =? 0 then Ok (kPosixEinval, s)
  else
    '(r, s) ← cond_for_slot s slot_address;
    match r with
    | inl error => Ok (error, s)
    | inr cid =>
        cond ← deref (sy_cond_store s !! cid);
        match cr_waiters cond with
        | [] => Ok (0, s)
        | waiter :: waiters =>
            Ok (0, set_tokens (<[waiter := true]> (sy_tokens s)) (set_waiters cid waiters s))
        end
    end.

Definition cond_broadcast s (slot_address : Z) : result (Z * sync M) :=
  if slot_address =? 0 then Ok (kPosixEinval, s)
  else
    '(r, s) ← cond_for_slot s slot_address;
    match r with
    | inl error => Ok (error, s)
    | inr cid =>
        cond ← deref (sy_cond_store s !! cid);
        Ok (0, set_tokens (foldl (fun tokens waiter => <[waiter := true]> tokens) (sy_tokens s) (cr_waiters cond))
                 (set_waiters cid [] s))
    end.

(** ** Handlers *)

Definition returning (a : result (Z * sync M)) : result (outcome sync_pc * sync M) :=
  '(code, s) ← a; Ok (Returned code, s).

Definition sync_call (self : Z) s (op : sync_op) : result (outcome sync_pc * sync M) :=
  match op with
  | OMutexInit slot_address attributes => Ok (mutex_init_begin s slot_address attributes, s)
  | OMutexLock slot_address => mutex_lock self s slot_address LockReturns
  | OMutexUnlock slot_address => returning (mutex_unlock self s slot_address)
  | OMutexDestroy slot_address => returning (mutex_destroy s slot_address)
  | OCondInit slot_address attributes => Ok (cond_init_begin s slot_address attributes, s)
  | OCondDestroy slot_address => returning (cond_destroy s slot_address)
  | OCondWait slot_address mutex_slot_address =>
      cond_wait_begin s slot_address mutex_slot_address cond_infinite
  | OCondTimedWait slot_address mutex_slot_address absolute_timeout_address =>
      cond_timed_wait s slot_address mutex_slot_address absolute_timeout_address
  | OCondRelTimedWait slot_address mutex_slot_address microseconds =>
      cond_wait_begin s slot_address mutex_slot_address (cond_relative microseconds)
  | OCondSignal slot_address => returning (cond_signal s slot_address)
  | OCondBroadcast slot_address => returning (cond_broadcast s slot_address)
  end.

Definition sync_resume (self : Z) (now : ClockReading) (expired : bool) s (pc : sync_pc)
  : result (outcome sync_pc * sync M) :=
  match pc with
  | MutexInit slot_address type => returning (mutex_init_end s slot_address type)
  | MutexBlocked rid k => lock_wait self s rid k
  | CondInit slot_address clock_id => returning (cond_init_end s slot_address clock_id)
  | CondEnter slot_address mutex_slot_address rid kind =>
      cond_wait_enter self s slot_address mutex_slot_address rid kind
  | CondQueued frame kind => cond_wait_timeout now s frame kind
  | CondBlocked frame timeout => cond_wait_blocked expired s frame timeout
  | CondTimedOut frame => cond_wait_timed_out s frame
  | CondRelock frame result => mutex_lock self s (cf_slot frame) (LockRestores frame result)
  | CondRestore frame result => cond_wait_restore self s frame result
  end.

(** ** Threads *)

Record sync_world : Type := mkSyncWorld { yw_sync : sync M; yw_pcs : gmap Z sync_pc }.

Inductive sync_label : Type :=
| SyncCalled (op : sync_op) (o : outcome sync_pc)
| SyncResumed (pc : sync_pc) (o : outcome sync_pc)
| SyncMemory.

(** The steps of a thread (fewer than [2^64] at a time are in handlers), and of
    the rest of the program, which may change the guest memory and the
    attribute objects at will. *)
Inductive sync_step : sync_world -> Z -> sync_label -> sync_world -> Prop :=
| sync_step_call s pcs t op o s' :
    pcs !! t = None -> Z.of_nat (size pcs) + 1 < u64_mod -> sync_op_wf op ->
    sync_call t s op = Ok (o, s') ->
    sync_step (mkSyncWorld s pcs) t (SyncCalled op o) (mkSyncWorld s' (set_pc t o pcs))
| sync_step_resume s pcs t now expired pc o s' :
    pcs !! t = Some pc ->
    sync_resume t now expired s pc = Ok (o, s') ->
    sync_step (mkSyncWorld s pcs) t (SyncResumed pc o) (mkSyncWorld s' (set_pc t o pcs))
| sync_step_memory s pcs t m mutex_attrs cond_attrs :
    gw_wf m ->
    sync_step (mkSyncWorld s pcs) t SyncMemory
      (mkSyncWorld (mkSync m mutex_attrs cond_attrs (sy_mutexes s) (sy_mutex_store s)
                      (sy_conds s) (sy_cond_store s) (sy_tokens s)) pcs).

Definition sync_start (m : M) : sync_world :=
  mkSyncWorld (mkSync m (mkTable mutex_attr_first ∅) (mkTable cond_attr_first ∅)
                 (mkTable mutex_first ∅) [] (mkTable cond_first ∅) [] []) ∅.

Inductive sync_reachable (m : M) : sync_world -> Prop :=
| sync_reach_start : sync_reachable m (sync_start m)
| sync_reach_step w t l w' : sync_reachable m w -> sync_step w t l w' -> sync_reachable m w'.

End Sync.
