(* ===== verification/KernelSyncInv.v ===== *)
(** * Mutexes and condition variables: what a section preserves

    The invariants of [KernelSync] and that every section of every handler
    keeps them.  [holder_at] abstracts a mutex to who holds it and how often,
    [waiting_of] the threads to who waits for which variable; [section_ok] is
    what a section leaves. *)

From S2P Require Import Prelude NativeArena GuestMemory GuestMemoryProps KernelMem HandleTable KernelAttrs KernelTime Threads KernelSync.

Local Open Scope Z_scope.

Section Sync.
Context {M : Type} `{GuestWords M}.
Implicit Types (s : sync M).

(** ** Abstraction *)

(** Who holds a mutex, and how many times. *)
Definition holder (r : MutexRecord) : option (Z * Z) :=
  if mr_locked r then owner ← mr_owner r; Some (owner, mr_depth r) else None.

Definition holder_at s (rid : nat) : option (Z * Z) := sy_mutex_store s !! rid ≫= holder.

(** What a step of thread [t] may do to a mutex: nothing, take a free one, lock
    or unlock again one that it holds, and free one that it holds. *)
Inductive owner_step (t : Z) : option (Z * Z) -> option (Z * Z) -> Prop :=
| owner_keeps h : owner_step t h h
| owner_takes : owner_step t None (Some (t, 1))
| owner_recurs d d' : 1 <= d' -> owner_step t (Some (t, d)) (Some (t, d'))
| owner_frees d : owner_step t (Some (t, d)) None.

Definition locking (rid : nat) (pc : sync_pc) : bool :=
  match pc with MutexBlocked i _ => bool_decide (i = rid) | _ => false end.

(** The condition variable a thread waits for, and its token. *)
Definition waiting_of (pc : sync_pc) : option (nat * nat) :=
  match pc with
  | CondQueued frame _ | CondBlocked frame _ | CondTimedOut frame =>
      Some (cf_cond frame, cf_waiter frame)
  | _ => None
  end.

(** ** Invariants *)

Definition record_ok (r : MutexRecord) : Prop :=
  if mr_locked r then (exists t, mr_owner r = Some t) /\ 1 <= mr_depth r <= u64_max
  else mr_owner r = None /\ mr_depth r = 0.

(** The mutexes when [b rid] threads are blocked on the record [rid]. *)
Record mutexes_inv (b : nat -> Z) s : Prop := {
  mi_table : table_wf mutex_first (sy_mutexes s);
  mi_entries h rid : tb_entries (sy_mutexes s) !! h = Some rid -> (rid < length (sy_mutex_store s))%nat;
  mi_inj h1 h2 rid : tb_entries (sy_mutexes s) !! h1 = Some rid ->
    tb_entries (sy_mutexes s) !! h2 = Some rid -> h1 = h2;
  mi_store rid r : sy_mutex_store s !! rid = Some r -> record_ok r /\ mr_waiters r = b rid;
  mi_used rid : 0 < b rid \/ holder_at s rid <> None ->
    exists h, tb_entries (sy_mutexes s) !! h = Some rid;
}.

(** The condition variables when [waiting] maps the waiting threads to their
    variables and tokens: a queue holds distinct unsignaled tokens of waiting
    threads, and a waiting thread is in the queue or has been signaled. *)
Record conds_inv (waiting : gmap Z (nat * nat)) s : Prop := {
  ci_table : table_wf cond_first (sy_conds s);
  ci_entries h cid : tb_entries (sy_conds s) !! h = Some cid -> (cid < length (sy_cond_store s))%nat;
  ci_inj h1 h2 cid : tb_entries (sy_conds s) !! h1 = Some cid ->
    tb_entries (sy_conds s) !! h2 = Some cid -> h1 = h2;
  ci_nodup cid c : sy_cond_store s !! cid = Some c -> NoDup (cr_waiters c);
  ci_queued cid c w : sy_cond_store s !! cid = Some c -> w ∈ cr_waiters c ->
    sy_tokens s !! w = Some false /\ exists t, waiting !! t = Some (cid, w);
  ci_waiting t cid w : waiting !! t = Some (cid, w) -> exists c, sy_cond_store s !! cid = Some c /\
    ((sy_tokens s !! w = Some false /\ w ∈ cr_waiters c) \/ sy_tokens s !! w = Some true);
  ci_tokens t1 t2 c1 c2 w : waiting !! t1 = Some (c1, w) -> waiting !! t2 = Some (c2, w) -> t1 = t2;
  ci_used cid c : sy_cond_store s !! cid = Some c -> cr_waiters c <> [] ->
    exists h, tb_entries (sy_conds s) !! h = Some cid;
}.

Definition same_mutexes s s' : Prop :=
  sy_mutexes s' = sy_mutexes s /\ sy_mutex_store s' = sy_mutex_store s.
Definition same_conds s s' : Prop :=
  sy_conds s' = sy_conds s /\ sy_cond_store s' = sy_cond_store s /\ sy_tokens s' = sy_tokens s.

Lemma mutexes_inv_same b b' s s' :
  same_mutexes s s' -> (forall rid, b' rid = b rid) -> mutexes_inv b s -> mutexes_inv b' s'.
Proof.
  intros [E1 E2] Hb [H1 H2 H3 H4 H5]. split; unfold holder_at; rewrite ?E1, ?E2; try done.
  - intros rid r Hr. rewrite Hb. by apply H4.
  - intros rid. rewrite Hb. apply H5.
Qed.

Lemma conds_inv_same w s s' : same_conds s s' -> conds_inv w s -> conds_inv w s'.
Proof. intros (E1 & E2 & E3) [H1 H2 H3 H4 H5 H6 H7 H8]. split; rewrite ?E1, ?E2, ?E3; done. Qed.

Lemma same_mutexes_refl s : same_mutexes s s.
Proof. done. Qed.
Lemma same_conds_refl s : same_conds s s.
Proof. done. Qed.
Lemma same_conds_trans s1 s2 s3 : same_conds s1 s2 -> same_conds s2 s3 -> same_conds s1 s3.
Proof. unfold same_conds. intuition congruence. Qed.

(** ** Mutexes *)

Lemma set_mutex_inv b b' s rid r r' :
  mutexes_inv b s -> sy_mutex_store s !! rid = Some r ->
  record_ok r' -> mr_waiters r' = b' rid ->
  (0 < b' rid \/ holder r' <> None -> exists h, tb_entries (sy_mutexes s) !! h = Some rid) ->
  (forall i, i <> rid -> b' i = b i) ->
  mutexes_inv b' (set_mutex rid r' s).
Proof.
  intros [H1 H2 H3 H4 H5] Hr Hok Hw Hu Hb.
  assert (rid < length (sy_mutex_store s))%nat as Hlt by (by eapply lookup_lt_Some).
  split; cbn; try done.
  - intros h i Hi. rewrite length_insert. by eapply H2.
  - intros i r0. destruct (decide (i = rid)) as [->|Hne].
    + rewrite list_lookup_insert_eq by done. by intros [= <-].
    + rewrite list_lookup_insert_ne by done. rewrite Hb by done. apply H4.
  - intros i. unfold holder_at. cbn. destruct (decide (i = rid)) as [->|Hne].
    + rewrite list_lookup_insert_eq by done. exact Hu.
    + rewrite list_lookup_insert_ne by done. rewrite Hb by done. apply H5.
Qed.

Lemma holder_set s rid r' i :
  (rid < length (sy_mutex_store s))%nat ->
  holder_at (set_mutex rid r' s) i = if decide (i = rid) then holder r' else holder_at s i.
Proof.
  intros Hlt. unfold holder_at. cbn. case_decide as E.
  - subst. by rewrite list_lookup_insert_eq.
  - by rewrite list_lookup_insert_ne.
Qed.

(** Sections that leave every mutex with its holder. *)
Record same_holders (b : nat -> Z) s s' : Prop := {
  sh_memory : gw_wf (sy_memory s');
  sh_inv : mutexes_inv b s';
  sh_conds : same_conds s s';
  sh_length : (length (sy_mutex_store s) <= length (sy_mutex_store s'))%nat;
  sh_holder rid : holder_at s' rid = holder_at s rid;
}.

Lemma same_holders_refl b s : gw_wf (sy_memory s) -> mutexes_inv b s -> same_holders b s s.
Proof. intros Hm Hs. by split. Qed.

(** What a section of thread [t] does that locks or unlocks. *)
Record mutex_ok (t : Z) (b : nat -> Z) s (o : outcome sync_pc) s' : Prop := {
  mo_memory : gw_wf (sy_memory s');
  mo_inv : mutexes_inv (fun rid => b rid + weight (locking rid) (after o)) s';
  mo_conds : same_conds s s';
  mo_length : (length (sy_mutex_store s) <= length (sy_mutex_store s'))%nat;
  mo_owner rid : owner_step t (holder_at s rid) (holder_at s' rid);
}.

Lemma mutex_ok_same t b s o s' :
  same_holders b s s' -> (forall rid, weight (locking rid) (after o) = 0) -> mutex_ok t b s o s'.
Proof.
  intros [H1 H2 H3 H4 H5] Hw. split; try done.
  - eapply mutexes_inv_same; [apply same_mutexes_refl| |exact H2]. intros rid. cbn. rewrite Hw. lia.
  - intros rid. rewrite H5. constructor.
Qed.

Lemma mutex_ok_after t b b' s s1 o s' :
  same_holders b' s s1 -> mutex_ok t b s1 o s' -> mutex_ok t b s o s'.
Proof.
  intros [H1 H2 H3 H4 H5] [G1 G2 G3 G4 G5]. split; [done|done|by eapply same_conds_trans|lia|].
  intros rid. by rewrite <- H5.
Qed.

Lemma mutex_first_ok :
  0 <= kMutexDestroyed < mutex_first /\ mutex_first < 4294967296 /\ mutex_first mod 8 = 0.
Proof. done. Qed.
Lemma cond_first_ok :
  0 <= kCondDestroyed < cond_first /\ cond_first < 4294967296 /\ cond_first mod 8 = 0.
Proof. done. Qed.

Lemma handle_u64 first h : 0 < first -> is_handle first h -> in_u64 h.
Proof. intros Hf [Hr _]. unfold in_u64. lia. Qed.

Context `{!GuestWordsLaws M}.

Lemma write_word m a v ok m' :
  gw_wf m -> in_u64 v -> gw_write64 m a v = Ok (ok, m') -> gw_wf m'.
Proof.
  intros Hm Hv E. destruct (gw_write64_ok m a v Hm Hv) as (ok2 & m2 & E2 & [_ Hwf _ _ _] & _).
  rewrite E in E2. by injection E2 as <- <-.
Qed.

Lemma emplace_mutex_ok b s slot type res s' :
  gw_wf (sy_memory s) -> mutexes_inv b s -> (forall rid, 0 <= b rid) ->
  emplace_mutex s slot type = Ok (res, s') ->
  same_holders b s s' /\
  forall rid, res = inr rid -> sy_mutex_store s' !! rid = Some (new_mutex type) /\
    exists h, tb_entries (sy_mutexes s') !! h = Some rid.
Proof.
  intros Hm Hs Hb0. unfold emplace_mutex.
  intros ([h tb] & Ha & ([ok m] & Hwr & Hk)%bind_Ok)%bind_Ok.
  apply allocate_handle_Ok in Ha as (Hh & Hfree & He & Ht); [|apply mutex_first_ok|apply Hs].
  apply write_word in Hwr; [|done|by apply (handle_u64 mutex_first)]. pose proof Hs as [H1 H2 H3 H4 H5].
  destruct ok; cbn [negb] in Hk; injection Hk as <- <-.
  - assert (forall i, holder_at (set_mutexes m (emplace h (length (sy_mutex_store s)) tb)
      (sy_mutex_store s ++ [new_mutex type]) s) i = holder_at s i) as Hh2.
    { intros i. unfold holder_at. cbn. destruct (decide (i < length (sy_mutex_store s))%nat).
      - by rewrite lookup_app_l.
      - rewrite lookup_app_r, (lookup_ge_None_2 (sy_mutex_store s)) by lia.
        by destruct (i - length (sy_mutex_store s))%nat. }
    split; [split; try done|].
    + split; cbn.
      * by apply emplace_wf.
      * intros k rid. rewrite He, length_app. cbn. intros [[_ <-]|[_ Hk]]%lookup_insert_Some; [lia|].
        apply H2 in Hk. lia.
      * rewrite He. intros k1 k2 rid [[<- <-]|[Hn1 Hk1]]%lookup_insert_Some
          [[<- E]|[Hn2 Hk2]]%lookup_insert_Some; try done; try (apply H2 in Hk2; lia);
          try (apply H2 in Hk1; lia). by eapply H3.
      * intros rid r [Hr|[Hge Hr]]%lookup_app_Some; [by apply H4|].
        apply list_lookup_singleton_Some in Hr as [_ <-]. split; [done|]. cbn.
        destruct (decide (0 < b rid)) as [Hp|]; [|specialize (Hb0 rid); lia].
        destruct (H5 rid (or_introl Hp)) as [k Hk%H2]. lia.
      * intros rid Hu. rewrite Hh2 in Hu. destruct (H5 rid Hu) as [k Hk]. exists k. rewrite He.
        rewrite lookup_insert_ne; [done|]. intros ->. congruence.
    + cbn. rewrite length_app. lia.
    + intros rid [= <-]. cbn. split; [by rewrite lookup_app_r, Nat.sub_diag by lia|].
      exists h. apply lookup_insert_eq.
  - split; [|done]. split; try done. split; cbn; try done.
    + by apply erase_wf, emplace_wf.
    + intros k rid [Hne Hk]%lookup_delete_Some. rewrite lookup_insert_ne, He in Hk by done. by eapply H2.
    + intros k1 k2 rid [N1 Hk1]%lookup_delete_Some [N2 Hk2]%lookup_delete_Some.
      rewrite lookup_insert_ne, He in Hk1, Hk2 by done. by eapply H3.
    + intros rid Hu. destruct (H5 rid Hu) as [k Hk]. exists k.
      assert (h <> k) by congruence. by rewrite lookup_delete_ne, lookup_insert_ne, He.
Qed.

Lemma mutex_for_slot_ok b s slot create res s' :
  gw_wf (sy_memory s) -> mutexes_inv b s -> (forall rid, 0 <= b rid) ->
  mutex_for_slot s slot create = Ok (res, s') ->
  same_holders b s s' /\
  forall rid, res = inr rid -> exists r h, sy_mutex_store s' !! rid = Some r /\
    tb_entries (sy_mutexes s') !! h = Some rid.
Proof.
  intros Hm Hs Hb0. unfold mutex_for_slot.
  assert (forall e, Ok (inl e, s) = Ok (res, s') -> same_holders b s s' /\
    forall rid, res = inr rid -> exists r h, sy_mutex_store s' !! rid = Some r /\
    tb_entries (sy_mutexes s') !! h = Some rid) as Hsame.
  { intros e [= <- <-]. by split; [apply same_holders_refl|]. }
  destruct (gw_read64 _ _) as [h|]; [|apply Hsame]. destruct (h =? kMutexDestroyed); [apply Hsame|].
  destruct (_ || _).
  - destruct (negb create); [apply Hsame|]. intros E.
    destruct (emplace_mutex_ok b s slot _ res s' Hm Hs Hb0 E) as [Hsh Hr]. split; [done|].
    intros rid Hres. destruct (Hr rid Hres) as (? & k & ?). by eexists _, k.
  - destruct (tb_entries (sy_mutexes s) !! h) as [rid|] eqn:E; [|apply Hsame].
    intros [= <- <-]. split; [by apply same_holders_refl|]. intros i [= <-].
    destruct (lookup_lt_is_Some_2 (sy_mutex_store s) rid) as [r Hr]; [by eapply mi_entries|].
    by exists r, h.
Qed.

Lemma owned_by_holder t r : owned_by t r = true -> holder r = Some (t, mr_depth r).
Proof.
  unfold owned_by, holder. destruct (mr_locked r); [|done]. cbn.
  intros Ho%bool_decide_eq_true. by rewrite Ho.
Qed.

Lemma owned_by_iff t r : owned_by t r = true <-> exists d, holder r = Some (t, d).
Proof.
  split; [intros Ho; eexists; by apply owned_by_holder|]. intros [d Hd]. unfold holder, owned_by in *.
  destruct (mr_locked r); [|done]. destruct (mr_owner r) as [o|]; [|done]. cbn in *.
  apply bool_decide_eq_true. congruence.
Qed.

Lemma holder_of s rid r : sy_mutex_store s !! rid = Some r -> holder_at s rid = holder r.
Proof. intros Hr. unfold holder_at. by rewrite Hr. Qed.

Lemma weight_lock_done k code rid : weight (locking rid) (after (lock_done k code)) = 0.
Proof. unfold lock_done. destruct k; [done|]. by repeat case_match. Qed.

(** Replacing the record of a mutex, by a section that blocks no thread. *)
Lemma set_mutex_ok t b s rid r r' o :
  gw_wf (sy_memory s) -> mutexes_inv b s -> sy_mutex_store s !! rid = Some r ->
  record_ok r' -> mr_waiters r' = mr_waiters r -> owner_step t (holder r) (holder r') ->
  (holder r' <> None -> exists h, tb_entries (sy_mutexes s) !! h = Some rid) ->
  (forall i, weight (locking i) (after o) = 0) ->
  mutex_ok t b s o (set_mutex rid r' s).
Proof.
  intros Hm Hs Hr Hok Hw Hstep Hu Ho. destruct (mi_store _ _ Hs rid r Hr) as [_ Hb].
  assert (rid < length (sy_mutex_store s))%nat as Hlt by (by eapply lookup_lt_Some).
  split; [done| |done|cbn; rewrite length_insert; lia|].
  - eapply (set_mutex_inv b); [done|exact Hr|done|rewrite Ho; lia| |intros i _; rewrite Ho; lia].
    rewrite Ho. intros [Hp|Hh]; [|by apply Hu]. apply (mi_used _ _ Hs). left. lia.
  - intros i. rewrite holder_set by done. case_decide as E; [|constructor].
    subst. by rewrite (holder_of s rid r Hr).
Qed.

Lemma lock_wait_ok t b s rid k o s' :
  gw_wf (sy_memory s) -> mutexes_inv (fun i => b i + Z.b2z (bool_decide (rid = i))) s ->
  0 <= b rid -> b rid + 1 < u64_mod ->
  lock_wait t s rid k = Ok (o, s') -> mutex_ok t b s o s'.
Proof.
  intros Hm Hs Hb0 Hb. unfold lock_wait.
  destruct (sy_mutex_store s !! rid) as [r|] eqn:Hr; [|done]. cbn [deref mbind result_bind].
  destruct (mi_store _ _ Hs rid r Hr) as [Hok Hw]. rewrite bool_decide_true in Hw by done. cbn in Hw.
  assert (rid < length (sy_mutex_store s))%nat as Hlt by (by eapply lookup_lt_Some).
  assert (exists h, tb_entries (sy_mutexes s) !! h = Some rid) as Hh.
  { apply (mi_used _ _ Hs). left. rewrite bool_decide_true by done. cbn. lia. }
  destruct (mr_locked r) eqn:El; intros [= <- <-].
  - split; [done|exact Hs|done|done|constructor].
  - set (r' := mkMutexRecord _ _ _ _ _). split; [done| |done|cbn; rewrite length_insert; lia|].
    + eapply (set_mutex_inv (fun i => b i + Z.b2z (bool_decide (rid = i))) _ s rid r r');
        [exact Hs|exact Hr|..].
      * unfold record_ok. cbn. split; [by eexists|lia].
      * cbn [mr_waiters r']. rewrite weight_lock_done, Hw.
        replace (b rid + 1 - 1) with (b rid) by lia. rewrite wrap64_small by (unfold in_u64; lia). lia.
      * done.
      * intros i Hi. rewrite weight_lock_done, bool_decide_false by done. cbn. lia.
    + intros i. rewrite holder_set by done. case_decide as E; [|constructor]. subst i.
      rewrite (holder_of s rid r Hr). assert (holder r = None) as -> by (unfold holder; by rewrite El).
      constructor.
Qed.

Lemma lock_blocking_ok t b s rid r k o s' :
  gw_wf (sy_memory s) -> mutexes_inv b s -> (forall i, 0 <= b i /\ b i + 1 < u64_mod) ->
  sy_mutex_store s !! rid = Some r -> (exists h, tb_entries (sy_mutexes s) !! h = Some rid) ->
  lock_blocking t s rid r k = Ok (o, s') -> mutex_ok t b s o s'.
Proof.
  intros Hm Hs Hb Hr Hh. unfold lock_blocking. set (r1 := mkMutexRecord _ _ _ _ _). intros E.
  destruct (mi_store _ _ Hs rid r Hr) as [Hok Hw]. destruct (Hb rid) as [Hb0 Hb1].
  assert (rid < length (sy_mutex_store s))%nat as Hlt by (by eapply lookup_lt_Some).
  assert (same_holders (fun i => b i + Z.b2z (bool_decide (rid = i))) s (set_mutex rid r1 s)) as Hsh.
  { split; [done| |done|cbn; rewrite length_insert; lia|].
    - eapply (set_mutex_inv b); [exact Hs|exact Hr|exact Hok|..].
      + cbn. rewrite bool_decide_true by done. cbn. rewrite Hw. apply wrap64_small. unfold in_u64. lia.
      + done.
      + intros i Hi. rewrite bool_decide_false by done. cbn. lia.
    - intros i. rewrite holder_set by done. case_decide as Ei; [|done]. subst.
      rewrite (holder_of s rid r Hr). done. }
  eapply mutex_ok_after; [exact Hsh|]. destruct Hsh as [Hm1 Hs1 _ _ _].
  by eapply lock_wait_ok.
Qed.

Lemma mutex_lock_ok t b s slot k o s' :
  gw_wf (sy_memory s) -> mutexes_inv b s -> (forall i, 0 <= b i /\ b i + 1 < u64_mod) ->
  mutex_lock t s slot k = Ok (o, s') -> mutex_ok t b s o s'.
Proof.
  intros Hm Hs Hb. unfold mutex_lock.
  assert (forall s1 code, same_holders b s s1 -> mutex_ok t b s (lock_done k code) s1) as Hdone.
  { intros s1 code Hsh. apply mutex_ok_same; [done|]. intros i. apply weight_lock_done. }
  destruct (slot =? 0).
  { intros [= <- <-]. by apply Hdone, same_holders_refl. }
  intros ([res s1] & Hf & Hk)%bind_Ok.
  apply (mutex_for_slot_ok b) in Hf as [Hsh Hres]; [|done|done|intros; apply Hb].
  destruct res as [e|rid]; [injection Hk as <- <-; by apply Hdone|].
  destruct (Hres rid eq_refl) as (r & h & Hr & Hh). rewrite Hr in Hk. cbn [deref mbind result_bind] in Hk.
  pose proof Hsh as [Hm1 Hs1 _ _ _]. destruct (mi_store _ _ Hs1 rid r Hr) as [Hok Hw].
  destruct (owned_by t r) eqn:Eo.
  2: { eapply mutex_ok_after; [exact Hsh|]. eapply lock_blocking_ok; [done..|by exists h|exact Hk]. }
  destruct (mr_type r =? kMutexTypeRecursive).
  - destruct (Z.eqb_spec (mr_depth r) u64_max) as [|Hmax]; injection Hk as <- <-; [by apply Hdone|].
    eapply mutex_ok_after; [exact Hsh|]. unfold record_ok in Hok.
    pose proof Eo as Eh%owned_by_holder. unfold owned_by in Eo. destruct (mr_locked r) eqn:El; [|done].
    destruct Hok as [Ho Hd]. rewrite wrap64_small by (unfold in_u64; lia).
    eapply set_mutex_ok; [done|done|exact Hr|..].
    + unfold record_ok. cbn. rewrite El. split; [done|lia].
    + done.
    + rewrite Eh. unfold holder. cbn. rewrite El. cbn in Eo. apply bool_decide_eq_true in Eo. rewrite Eo.
      cbn. constructor. lia.
    + intros _. by exists h.
    + intros i. apply weight_lock_done.
  - destruct (negb _); [injection Hk as <- <-; by apply Hdone|].
    eapply mutex_ok_after; [exact Hsh|]. eapply lock_blocking_ok; [done..|by exists h|exact Hk].
Qed.

Lemma release_ok t b s rid r o :
  gw_wf (sy_memory s) -> mutexes_inv b s -> sy_mutex_store s !! rid = Some r -> owned_by t r = true ->
  (forall i, weight (locking i) (after o) = 0) ->
  mutex_ok t b s o (set_mutex rid (release_mutex r) s).
Proof.
  intros Hm Hs Hr Eo Hw. eapply set_mutex_ok; [done|done|exact Hr|done|done| |done|done].
  rewrite (owned_by_holder t r Eo). constructor.
Qed.

Lemma mutex_unlock_ok t b s slot code s' :
  gw_wf (sy_memory s) -> mutexes_inv b s -> (forall i, 0 <= b i) ->
  mutex_unlock t s slot = Ok (code, s') -> mutex_ok t b s (Returned code) s'.
Proof.
  intros Hm Hs Hb. unfold mutex_unlock. destruct (slot =? 0).
  { intros [= <- <-]. by apply mutex_ok_same; [apply same_holders_refl|]. }
  intros ([res s1] & Hf & Hk)%bind_Ok. apply (mutex_for_slot_ok b) in Hf as [Hsh Hres]; [|done..].
  destruct res as [e|rid]; [injection Hk as <- <-; by apply mutex_ok_same|].
  destruct (Hres rid eq_refl) as (r & h & Hr & Hh). rewrite Hr in Hk. cbn [deref mbind result_bind] in Hk.
  pose proof Hsh as [Hm1 Hs1 _ _ _]. destruct (mi_store _ _ Hs1 rid r Hr) as [Hok Hw].
  destruct (owned_by t r) eqn:Eo; cbn [negb] in Hk; [|injection Hk as <- <-; by apply mutex_ok_same].
  eapply mutex_ok_after; [exact Hsh|].
  destruct (_ && _) eqn:Erec; injection Hk as <- <-; [|by apply release_ok].
  apply andb_true_iff in Erec as [_ Hd%Z.ltb_lt]. pose proof (owned_by_holder t r Eo) as Eh.
  unfold record_ok in Hok. unfold owned_by in Eo. destruct (mr_locked r) eqn:El; [|done].
  cbn in Eo. apply bool_decide_eq_true in Eo.
  eapply set_mutex_ok; [done|done|exact Hr|..].
  - unfold record_ok. cbn. rewrite El. split; [by eexists|lia].
  - done.
  - rewrite Eh. unfold holder. cbn. rewrite El, Eo. cbn. constructor. lia.
  - intros _. by exists h.
  - done.
Qed.

Lemma mutex_destroy_ok t b s slot code s' :
  gw_wf (sy_memory s) -> mutexes_inv b s -> (forall i, 0 <= b i) ->
  mutex_destroy s slot = Ok (code, s') -> mutex_ok t b s (Returned code) s'.
Proof.
  intros Hm Hs Hb. unfold mutex_destroy.
  assert (forall c, Ok (c, s) = Ok (code, s') -> mutex_ok t b s (Returned code) s') as Hsame.
  { intros c [= <- <-]. by apply mutex_ok_same; [apply same_holders_refl|]. }
  destruct (slot =? 0); [apply Hsame|]. destruct (gw_read64 _ _) as [h|]; [|apply Hsame].
  destruct (h <? _); [apply Hsame|]. destruct (h =? _); [apply Hsame|].
  destruct (tb_entries (sy_mutexes s) !! h) as [rid|] eqn:Eh; [|apply Hsame].
  pose proof Hs as [H1 H2 H3 H4 H5].
  destruct (lookup_lt_is_Some_2 (sy_mutex_store s) rid) as [r Hr]; [by eapply H2|].
  rewrite Hr. cbn [deref mbind result_bind]. destruct (H4 rid r Hr) as [Hok Hw].
  destruct (mr_locked r) eqn:El; [apply Hsame|]. cbn [orb].
  destruct (Z.eqb_spec (mr_waiters r) 0) as [Hz|]; cbn [negb]; [|apply Hsame].
  intros ([ok m] & Hwr & [= <- <-])%bind_Ok. apply write_word in Hwr; [|done|by unfold in_u64].
  apply mutex_ok_same; [|done]. split; try done. split; cbn; try done.
  - by apply erase_wf.
  - intros k i [_ Hk]%lookup_delete_Some. by eapply H2.
  - intros k1 k2 i [_ Hk1]%lookup_delete_Some [_ Hk2]%lookup_delete_Some. by eapply H3.
  - intros i Hu. destruct (H5 i Hu) as [k Hk]. exists k. rewrite lookup_delete_ne; [done|].
    intros <-. assert (i = rid) as -> by congruence. destruct Hu as [Hp|Hp]; [lia|].
    apply Hp. unfold holder_at. cbn. rewrite Hr. cbn. unfold holder. by rewrite El.
Qed.

Lemma mutex_init_end_ok t b s slot type code s' :
  gw_wf (sy_memory s) -> mutexes_inv b s -> (forall i, 0 <= b i) ->
  mutex_init_end s slot type = Ok (code, s') -> mutex_ok t b s (Returned code) s'.
Proof.
  intros Hm Hs Hb. unfold mutex_init_end.
  assert (forall c, Ok (c, s) = Ok (code, s') -> mutex_ok t b s (Returned code) s') as Hsame.
  { intros c [= <- <-]. by apply mutex_ok_same; [apply same_holders_refl|]. }
  destruct (gw_read64 _ _) as [h|]; [|apply Hsame]. destruct (_ <? h); [apply Hsame|].
  intros ([res s1] & Hf & [= <- <-])%bind_Ok.
  apply (emplace_mutex_ok b) in Hf as [Hsh _]; [|done..]. by apply mutex_ok_same.
Qed.

(** ** Condition variables *)

Lemma erase_first_elem w q x : NoDup q -> x ∈ erase_first w q <-> x ∈ q /\ x <> w.
Proof.
  induction q as [|y q IH]; cbn; intros Hn; [set_solver|]. apply NoDup_cons in Hn as [Hy Hn].
  case_bool_decide; subst; set_solver.
Qed.

Lemma erase_first_nodup w q : NoDup q -> NoDup (erase_first w q).
Proof.
  induction q as [|y q IH]; cbn; intros Hn; [done|]. pose proof Hn as [Hy Hn']%NoDup_cons.
  case_bool_decide; [done|]. apply NoDup_cons. rewrite erase_first_elem by done. naive_solver.
Qed.

Lemma waiters_lookup s cid q i :
  sy_cond_store (set_waiters cid q s) !! i =
    if decide (i = cid) then (fun c => mkCondRecord q (cr_clock_id c)) <$> sy_cond_store s !! cid
    else sy_cond_store s !! i.
Proof.
  cbn. case_decide as E; [subst; apply list_lookup_alter_eq|by apply list_lookup_alter_ne].
Qed.

(** The tokens after a signal to those of [woken]. *)
Definition signal_all (tokens : list bool) (woken : list nat) : list bool :=
  foldl (fun tokens waiter => <[waiter := true]> tokens) tokens woken.

Lemma signal_all_lookup tokens woken w :
  signal_all tokens woken !! w = if decide (w ∈ woken) then (fun _ => true) <$> tokens !! w else tokens !! w.
Proof.
  unfold signal_all. revert tokens. induction woken as [|x woken IH]; intros tokens; cbn; [done|].
  rewrite IH. destruct (decide (x = w)) as [->|Hne].
  - rewrite (decide_True (P := w ∈ w :: woken)) by set_solver.
    destruct (tokens !! w) as [b|] eqn:E.
    + rewrite list_lookup_insert_eq by (by eapply lookup_lt_Some). by case_decide.
    + rewrite list_insert_ge by (by apply lookup_ge_None). rewrite E. by case_decide.
  - rewrite list_lookup_insert_ne by done.
    destruct (decide (w ∈ woken)); [rewrite decide_True by set_solver|rewrite decide_False by set_solver]; done.
Qed.

Lemma signal_all_length tokens woken : length (signal_all tokens woken) = length tokens.
Proof.
  unfold signal_all. revert tokens. induction woken as [|x woken IH]; intros tokens; cbn; [done|].
  by rewrite IH, length_insert.
Qed.

(** What a section does that leaves the mutexes alone; no signal is undone. *)
Record cond_ok (waiting : gmap Z (nat * nat)) s s' : Prop := {
  co_memory : gw_wf (sy_memory s');
  co_inv : conds_inv waiting s';
  co_same : same_mutexes s s';
  co_length : (length (sy_cond_store s) <= length (sy_cond_store s'))%nat;
  co_tokens : (length (sy_tokens s) <= length (sy_tokens s'))%nat;
  co_signaled w : sy_tokens s !! w = Some true -> sy_tokens s' !! w = Some true;
}.

Lemma cond_ok_refl waiting s : gw_wf (sy_memory s) -> conds_inv waiting s -> cond_ok waiting s s.
Proof. intros Hm Hs. by split. Qed.

Lemma cond_ok_trans w1 w2 s1 s2 s3 : cond_ok w1 s1 s2 -> cond_ok w2 s2 s3 -> cond_ok w2 s1 s3.
Proof.
  intros [H1 H2 [H3 H3'] H4 H5 H6] [G1 G2 [G3 G3'] G4 G5 G6].
  split; [done|done|split; congruence|lia|lia|by auto].
Qed.

Lemma emplace_cond_ok w s slot clock res s' :
  gw_wf (sy_memory s) -> conds_inv w s -> emplace_cond s slot clock = Ok (res, s') ->
  cond_ok w s s' /\
  forall cid, res = inr cid -> exists c h, sy_cond_store s' !! cid = Some c /\
    tb_entries (sy_conds s') !! h = Some cid.
Proof.
  intros Hm Hs. unfold emplace_cond.
  intros ([h tb] & Ha & ([ok m] & Hwr & Hk)%bind_Ok)%bind_Ok.
  apply allocate_handle_Ok in Ha as (Hh & Hfree & He & Ht); [|apply cond_first_ok|apply Hs].
  apply write_word in Hwr; [|done|by apply (handle_u64 cond_first)].
  pose proof Hs as [H1 H2 H3 H4 H5 H6 H7 H8].
  destruct ok; cbn [negb] in Hk; injection Hk as <- <-.
  - set (new := mkCondRecord [] clock).
    assert (forall cid c, (sy_cond_store s ++ [new]) !! cid = Some c -> cr_waiters c <> [] \/
      sy_cond_store s !! cid <> None -> sy_cond_store s !! cid = Some c) as Hold.
    { intros cid c [Hc|[Hge [_ <-]%list_lookup_singleton_Some]]%lookup_app_Some; [done|].
      intros [Hne|Hne]; [done|]. by rewrite lookup_ge_None_2 in Hne. }
    split; [split; try done|].
    + split; cbn; try done.
      * by apply emplace_wf.
      * intros k cid. rewrite He, length_app. cbn. intros [[_ <-]|[_ Hk]]%lookup_insert_Some; [lia|].
        apply H2 in Hk. lia.
      * rewrite He. intros k1 k2 cid [[<- <-]|[Hn1 Hk1]]%lookup_insert_Some
          [[<- E]|[Hn2 Hk2]]%lookup_insert_Some; try done; try (apply H2 in Hk2; lia);
          try (apply H2 in Hk1; lia). by eapply H3.
      * intros cid c [Hc|[_ [_ <-]%list_lookup_singleton_Some]]%lookup_app_Some; [by eapply H4|].
        apply NoDup_nil_2.
      * intros cid c x Hc Hx. eapply H5; [|exact Hx]. apply Hold; [done|]. left. intros E.
        rewrite E in Hx. by apply elem_of_nil in Hx.
      * intros t cid x Hx. destruct (H6 t cid x Hx) as (c & Hc & Hor). exists c. split; [|done].
        by apply lookup_app_l_Some.
      * intros cid c Hc Hne. destruct (H8 cid c) as [k Hk]; [apply Hold; [done|by left]|done|].
        exists k. rewrite He, lookup_insert_ne; [done|]. intros ->. congruence.
    + cbn. rewrite length_app. lia.
    + intros cid [= <-]. exists new, h. cbn. split; [by rewrite lookup_app_r, Nat.sub_diag by lia|].
      apply lookup_insert_eq.
  - split; [|done]. split; try done. split; cbn; try done.
    + by apply erase_wf, emplace_wf.
    + intros k cid [Hne Hk]%lookup_delete_Some. rewrite lookup_insert_ne, He in Hk by done. by eapply H2.
    + intros k1 k2 cid [N1 Hk1]%lookup_delete_Some [N2 Hk2]%lookup_delete_Some.
      rewrite lookup_insert_ne, He in Hk1, Hk2 by done. by eapply H3.
    + intros cid c Hc Hne. destruct (H8 cid c Hc Hne) as [k Hk]. exists k.
      assert (h <> k) by congruence. by rewrite lookup_delete_ne, lookup_insert_ne, He.
Qed.

Lemma cond_for_slot_ok w s slot res s' :
  gw_wf (sy_memory s) -> conds_inv w s -> cond_for_slot s slot = Ok (res, s') ->
  cond_ok w s s' /\
  forall cid, res = inr cid -> exists c h, sy_cond_store s' !! cid = Some c /\
    tb_entries (sy_conds s') !! h = Some cid.
Proof.
  intros Hm Hs. unfold cond_for_slot.
  assert (forall e, Ok (inl e, s) = Ok (res, s') -> cond_ok w s s' /\
    forall cid, res = inr cid -> exists c h, sy_cond_store s' !! cid = Some c /\
    tb_entries (sy_conds s') !! h = Some cid) as Hsame.
  { intros e [= <- <-]. by split; [apply cond_ok_refl|]. }
  destruct (gw_read64 _ _) as [h|]; [|apply Hsame]. destruct (h =? kCondDestroyed); [apply Hsame|].
  destruct (h =? 0); [by apply emplace_cond_ok|].
  destruct (tb_entries (sy_conds s) !! h) as [cid|] eqn:E; [|apply Hsame].
  intros [= <- <-]. split; [by apply cond_ok_refl|]. intros i [= <-].
  destruct (lookup_lt_is_Some_2 (sy_cond_store s) cid) as [c Hc]; [by eapply ci_entries|].
  by exists c, h.
Qed.

(** A thread joins the queue of a variable with a new token ... *)
Lemma enqueue_ok w s t cid c h :
  gw_wf (sy_memory s) -> conds_inv w s -> w !! t = None ->
  sy_cond_store s !! cid = Some c -> tb_entries (sy_conds s) !! h = Some cid ->
  let waiter := length (sy_tokens s) in
  cond_ok (<[t := (cid, waiter)]> w) s
    (set_waiters cid (cr_waiters c ++ [waiter]) (set_tokens (sy_tokens s ++ [false]) s)).
Proof.
  intros Hm Hs Ht Hc Hh waiter. pose proof Hs as [H1 H2 H3 H4 H5 H6 H7 H8].
  assert (forall x b, sy_tokens s !! x = Some b -> (sy_tokens s ++ [false]) !! x = Some b) as Hold.
  { intros x b Hx. by apply lookup_app_l_Some. }
  assert ((sy_tokens s ++ [false]) !! waiter = Some false) as Hnew.
  { unfold waiter. by rewrite lookup_app_r, Nat.sub_diag by lia. }
  assert (forall i d x, sy_cond_store s !! i = Some d -> x ∈ cr_waiters d -> x <> waiter) as Hfresh.
  { intros i d x Hd Hx ->. destruct (H5 i d waiter Hd Hx) as [Hlt%lookup_lt_Some _]. unfold waiter in Hlt. lia. }
  assert (forall u i x, w !! u = Some (i, x) -> x <> waiter) as Hfresh2.
  { intros u i x Hu ->. destruct (H6 u i waiter Hu) as (? & _ & [[Hl%lookup_lt_Some _]|Hl%lookup_lt_Some]);
      unfold waiter in Hl; lia. }
  split; try done.
  - split; rewrite ?waiters_lookup; cbn -[set_waiters]; try done.
    + intros k i Hk. cbn. rewrite length_alter. by eapply H2.
    + intros i d. rewrite waiters_lookup. case_decide as E; [|apply H4]. subst i. cbn. rewrite Hc.
      intros [= <-]. cbn. apply NoDup_app. split; [by eapply H4|]. split; [|apply NoDup_singleton].
      intros x Hx ->%list_elem_of_singleton. by eapply Hfresh.
    + intros i d x. rewrite waiters_lookup. cbn. case_decide as E.
      * subst i. rewrite Hc. intros [= <-]. cbn. intros [Hx| ->%list_elem_of_singleton]%elem_of_app.
        -- destruct (H5 cid c x Hc Hx) as [Htk [u Hu]]. split; [by apply Hold|]. exists u.
           rewrite lookup_insert_ne; [done|]. congruence.
        -- split; [done|]. exists t. apply lookup_insert_eq.
      * intros Hd Hx. destruct (H5 i d x Hd Hx) as [Htk [u Hu]]. split; [by apply Hold|]. exists u.
        rewrite lookup_insert_ne; [done|]. congruence.
    + intros u i x. rewrite waiters_lookup. cbn. intros [[<- [= <- <-]]|[Hne Hu]]%lookup_insert_Some.
      * rewrite decide_True, Hc by done. eexists. split; [done|]. left. split; [done|].
        cbn. apply elem_of_app. right. by apply list_elem_of_singleton.
      * destruct (H6 u i x Hu) as (d & Hd & Hor). case_decide as E.
        -- subst i. rewrite Hc in *. injection Hd as <-. eexists. split; [done|]. cbn.
           destruct Hor as [[Htk Hx]|Htk]; [left; split; [by apply Hold|set_solver]|right; by apply Hold].
        -- exists d. split; [done|]. destruct Hor as [[Htk Hx]|Htk]; [left|right]; [split|]; auto.
    + intros t1 t2 c1 c2 x [[<- [= <- <-]]|[Hn1 Hu1]]%lookup_insert_Some
        [[<- E]|[Hn2 Hu2]]%lookup_insert_Some; [done|by eapply Hfresh2 in Hu2| |by eapply H7].
      injection E as -> <-. by eapply Hfresh2 in Hu1.
    + intros i d. rewrite waiters_lookup. cbn. case_decide as E; [|apply H8]. subst i. by exists h.
  - cbn. by rewrite length_alter.
  - cbn. rewrite length_app. lia.
  - intros x Hx. by apply Hold.
Qed.

(** ... leaves it, ... *)
Lemma leave_ok w s t cid tk c :
  gw_wf (sy_memory s) -> conds_inv w s -> w !! t = Some (cid, tk) -> sy_cond_store s !! cid = Some c ->
  cond_ok (delete t w) s (set_waiters cid (erase_first tk (cr_waiters c)) s).
Proof.
  intros Hm Hs Ht Hc. pose proof Hs as [H1 H2 H3 H4 H5 H6 H7 H8]. pose proof (H4 cid c Hc) as Hnd.
  split; try done; [|cbn; by rewrite length_alter].
  split; try done.
  - intros k i Hk. cbn. rewrite length_alter. by eapply H2.
  - intros i d. rewrite waiters_lookup. case_decide as E; [|apply H4]. rewrite Hc. intros [= <-].
    by apply erase_first_nodup.
  - intros i d x. rewrite waiters_lookup. cbn. case_decide as E.
    + subst i. rewrite Hc. intros [= <-]. cbn. rewrite erase_first_elem by done. intros [Hx Hne].
      destruct (H5 cid c x Hc Hx) as [Htk [u Hu]]. split; [done|]. exists u.
      rewrite lookup_delete_ne; [done|]. congruence.
    + intros Hd Hx. destruct (H5 i d x Hd Hx) as [Htk [u Hu]]. split; [done|]. exists u.
      rewrite lookup_delete_ne; [done|]. congruence.
  - intros u i x [Hne Hu]%lookup_delete_Some. rewrite waiters_lookup. cbn.
    destruct (H6 u i x Hu) as (d & Hd & Hor). case_decide as E; [|by exists d].
    subst i. rewrite Hc in Hd. injection Hd as <-. rewrite Hc. eexists. split; [done|]. cbn.
    rewrite erase_first_elem by done. destruct Hor as [[? ?]|?]; [left|by right].
    split_and!; [done|done|]. intros ->. by apply Hne, (H7 t u cid cid tk).
  - intros t1 t2 c1 c2 x [_ Hu1]%lookup_delete_Some [_ Hu2]%lookup_delete_Some. by eapply H7.
  - intros i d. rewrite waiters_lookup. cbn. case_decide as E; [|apply H8]. subst i. rewrite Hc.
    intros [= <-]. cbn. intros Hne. apply (H8 cid c Hc). intros En. by rewrite En in Hne.
Qed.

(** ... or goes on because it has been signaled. *)
Lemma signaled_ok w s t cid tk :
  conds_inv w s -> w !! t = Some (cid, tk) -> sy_tokens s !! tk = Some true ->
  conds_inv (delete t w) s.
Proof.
  intros [H1 H2 H3 H4 H5 H6 H7 H8] Ht Htk. split; try done.
  - intros i d x Hd Hx. destruct (H5 i d x Hd Hx) as [Hf [u Hu]]. split; [done|]. exists u.
    rewrite lookup_delete_ne; [done|]. intros <-. rewrite Ht in Hu. congruence.
  - intros u i x [_ Hu]%lookup_delete_Some. by eapply H6.
  - intros t1 t2 c1 c2 x [_ Hu1]%lookup_delete_Some [_ Hu2]%lookup_delete_Some. by eapply H7.
Qed.

(** A signal takes the front of a queue. *)
Lemma signal_ok w s cid c woken rest :
  gw_wf (sy_memory s) -> conds_inv w s -> sy_cond_store s !! cid = Some c -> cr_waiters c = woken ++ rest ->
  cond_ok w s (set_tokens (signal_all (sy_tokens s) woken) (set_waiters cid rest s)).
Proof.
  intros Hm Hs Hc Hq. pose proof Hs as [H1 H2 H3 H4 H5 H6 H7 H8]. pose proof (H4 cid c Hc) as Hnd.
  rewrite Hq in Hnd. apply NoDup_app in Hnd as (_ & Hdisj & Hnd).
  assert (forall i d x, sy_cond_store s !! i = Some d -> x ∈ cr_waiters d -> x ∈ woken -> i = cid) as Hin.
  { intros i d x Hd Hx Hw. destruct (H5 i d x Hd Hx) as [_ [u Hu]].
    destruct (H5 cid c x Hc) as [_ [u' Hu']]; [rewrite Hq; set_solver|].
    assert (u = u') as -> by (by eapply H7). congruence. }
  split; try done.
  - split; try done.
    + intros k i Hk. cbn. rewrite length_alter. by eapply H2.
    + intros i d Hd. change (sy_cond_store (set_waiters cid rest s) !! i = Some d) in Hd.
      rewrite waiters_lookup in Hd. case_decide as E; [|by eapply H4].
      rewrite Hc in Hd. by injection Hd as <-.
    + intros i d x Hd Hx. change (sy_cond_store (set_waiters cid rest s) !! i = Some d) in Hd.
      rewrite waiters_lookup in Hd. cbn [sy_tokens set_tokens]. rewrite signal_all_lookup.
      case_decide as E.
      * subst i. rewrite Hc in Hd. injection Hd as <-. cbn in Hx.
        destruct (H5 cid c x Hc) as [Hf Hu]; [rewrite Hq; set_solver|].
        rewrite decide_False by (intros Hxw; by eapply Hdisj). done.
      * destruct (H5 i d x Hd Hx) as [Hf Hu]. rewrite decide_False; [done|].
        intros Hxw. by apply E, (Hin i d x).
    + intros u i x Hu. destruct (H6 u i x Hu) as (d & Hd & Hor).
      cbn [sy_tokens set_tokens]. rewrite signal_all_lookup.
      change (sy_cond_store (set_tokens _ (set_waiters cid rest s))) with (sy_cond_store (set_waiters cid rest s)).
      rewrite waiters_lookup. destruct Hor as [[Hf Hx]|Htk].
      * destruct (decide (i = cid)) as [->|E].
        -- rewrite Hc in *. injection Hd as <-. eexists. split; [done|]. cbn. rewrite Hq in Hx.
           case_decide; [right; by rewrite Hf|left; split; [done|set_solver]].
        -- exists d. split; [done|]. left. rewrite decide_False; [done|]. intros Hxw. by apply E, (Hin i d x).
      * rewrite Htk. destruct (decide (i = cid)) as [->|E]; [rewrite Hc; eexists|exists d];
          (split; [done|]); right; by case_decide.
    + intros i d Hd Hne. change (sy_cond_store (set_waiters cid rest s) !! i = Some d) in Hd.
      rewrite waiters_lookup in Hd. case_decide as E; [|by eapply H8].
      subst i. rewrite Hc in Hd. injection Hd as <-. apply (H8 cid c Hc). rewrite Hq. cbn in Hne.
      by destruct woken.
  - cbn. by rewrite length_alter.
  - cbn. by rewrite signal_all_length.
  - intros x Hx. cbn. rewrite signal_all_lookup, Hx. by case_decide.
Qed.

Lemma cond_destroy_ok w s slot code s' :
  gw_wf (sy_memory s) -> conds_inv w s -> cond_destroy s slot = Ok (code, s') -> cond_ok w s s'.
Proof.
  intros Hm Hs. unfold cond_destroy.
  assert (forall c, Ok (c, s) = Ok (code, s') -> cond_ok w s s') as Hsame.
  { intros c [= <- <-]. by apply cond_ok_refl. }
  destruct (_ || _); [apply Hsame|]. destruct (gw_read64 _ _) as [h|]; [|apply Hsame].
  destruct (h =? 0); [apply Hsame|]. destruct (h =? _); [apply Hsame|].
  destruct (tb_entries (sy_conds s) !! h) as [cid|] eqn:Eh; [|apply Hsame].
  pose proof Hs as [H1 H2 H3 H4 H5 H6 H7 H8].
  destruct (lookup_lt_is_Some_2 (sy_cond_store s) cid) as [c Hc]; [by eapply H2|].
  rewrite Hc. cbn [deref mbind result_bind].
  destruct (bool_decide_reflect (cr_waiters c = [])) as [Hq|]; cbn [negb]; [|apply Hsame].
  intros ([ok m] & Hwr & Hk)%bind_Ok. apply write_word in Hwr; [|done|by unfold in_u64].
  destruct ok; cbn [negb] in Hk; injection Hk as <- <-; split; try done.
  split; cbn; try done.
  - by apply erase_wf.
  - intros k i [_ Hk]%lookup_delete_Some. by eapply H2.
  - intros k1 k2 i [_ Hk1]%lookup_delete_Some [_ Hk2]%lookup_delete_Some. by eapply H3.
  - intros i d Hd Hne. destruct (H8 i d Hd Hne) as [k Hk]. exists k. rewrite lookup_delete_ne; [done|].
    intros <-. assert (i = cid) as -> by congruence. congruence.
Qed.

Lemma cond_signal_ok w s slot code s' :
  gw_wf (sy_memory s) -> conds_inv w s -> cond_signal s slot = Ok (code, s') -> cond_ok w s s'.
Proof.
  intros Hm Hs. unfold cond_signal. destruct (slot =? 0); [intros [= <- <-]; by apply cond_ok_refl|].
  intros ([res s1] & Hf & Hk)%bind_Ok. apply (cond_for_slot_ok w) in Hf as [Hok Hres]; [|done..].
  destruct res as [e|cid]; [by injection Hk as <- <-|].
  destruct (Hres cid eq_refl) as (c & h & Hc & Hh). rewrite Hc in Hk. cbn [deref mbind result_bind] in Hk.
  pose proof Hok as [Hm1 Hs1 _ _ _ _].
  destruct (cr_waiters c) as [|x q] eqn:Hq; injection Hk as <- <-; [done|].
  eapply cond_ok_trans; [exact Hok|]. by apply (signal_ok w s1 cid c [x] q).
Qed.

Lemma cond_broadcast_ok w s slot code s' :
  gw_wf (sy_memory s) -> conds_inv w s -> cond_broadcast s slot = Ok (code, s') -> cond_ok w s s'.
Proof.
  intros Hm Hs. unfold cond_broadcast. destruct (slot =? 0); [intros [= <- <-]; by apply cond_ok_refl|].
  intros ([res s1] & Hf & Hk)%bind_Ok. apply (cond_for_slot_ok w) in Hf as [Hok Hres]; [|done..].
  destruct res as [e|cid]; [by injection Hk as <- <-|].
  destruct (Hres cid eq_refl) as (c & h & Hc & Hh). rewrite Hc in Hk. cbn [deref mbind result_bind] in Hk.
  pose proof Hok as [Hm1 Hs1 _ _ _ _]. injection Hk as <- <-. eapply cond_ok_trans; [exact Hok|].
  apply (signal_ok w s1 cid c (cr_waiters c) []); [done..|]. by rewrite app_nil_r.
Qed.

(** ** Sections *)

Definition frame_ok s (f : cond_wait_frame) : Prop :=
  (cf_mutex f < length (sy_mutex_store s))%nat /\ (cf_cond f < length (sy_cond_store s))%nat /\
  (cf_waiter f < length (sy_tokens s))%nat /\ 1 <= cf_depth f <= u64_max.

Definition kind_ok (kind : CondWaitKind) : Prop :=
  match kind with
  | cond_infinite => True
  | cond_relative us => in_u64 us
  | cond_absolute ts => in_i64 (ts_seconds ts) /\ 0 <= ts_nanoseconds ts < 1000000000
  end.

Definition lock_ok s (k : after_lock) : Prop :=
  match k with LockReturns => True | LockRestores f _ => frame_ok s f end.

(** The locals of a thread inside a handler point to records. *)
Definition pc_ok s (pc : sync_pc) : Prop :=
  match pc with
  | MutexInit _ _ | CondInit _ _ => True
  | MutexBlocked rid k => lock_ok s k
  | CondEnter _ _ rid kind => (rid < length (sy_mutex_store s))%nat /\ kind_ok kind
  | CondQueued f kind => frame_ok s f /\ kind_ok kind
  | CondBlocked f _ | CondTimedOut f | CondRelock f _ | CondRestore f _ => frame_ok s f
  end.

Definition set_waiting (t : Z) (pc : option sync_pc) (waiting : gmap Z (nat * nat)) :=
  match pc ≫= waiting_of with Some v => <[t := v]> waiting | None => delete t waiting end.

Record grows s s' : Prop := {
  gr_mutexes : (length (sy_mutex_store s) <= length (sy_mutex_store s'))%nat;
  gr_conds : (length (sy_cond_store s) <= length (sy_cond_store s'))%nat;
  gr_tokens : (length (sy_tokens s) <= length (sy_tokens s'))%nat;
}.

Lemma frame_ok_grows s s' f : grows s s' -> frame_ok s f -> frame_ok s' f.
Proof. intros [? ? ?] (? & ? & ? & ?). unfold frame_ok. lia. Qed.

Lemma pc_ok_grows s s' pc : grows s s' -> pc_ok s pc -> pc_ok s' pc.
Proof.
  intros Hg. pose proof (frame_ok_grows s s') as Hf. destruct Hg as [H1 H2 H3] eqn:E.
  destruct pc as [| ? [|]| | | | | | |]; cbn; intuition auto; lia.
Qed.

(** What a section of thread [t] leaves, when [b] other threads are blocked on
    mutexes and [waiting] threads wait for condition variables. *)
Record section_ok (t : Z) (b : nat -> Z) (waiting : gmap Z (nat * nat)) s (o : outcome sync_pc) s' : Prop := {
  so_memory : gw_wf (sy_memory s');
  so_mutexes : mutexes_inv (fun rid => b rid + weight (locking rid) (after o)) s';
  so_conds : conds_inv (set_waiting t (after o) waiting) s';
  so_grows : grows s s';
  so_signaled w : sy_tokens s !! w = Some true -> sy_tokens s' !! w = Some true;
  so_owner rid : owner_step t (holder_at s rid) (holder_at s' rid);
  so_pc pc : after o = Some pc -> pc_ok s' pc;
}.

Lemma section_compose t b waiting w s1 s2 o s3 :
  cond_ok w s1 s2 -> mutex_ok t b s2 o s3 -> w = set_waiting t (after o) waiting ->
  (forall pc, after o = Some pc -> pc_ok s3 pc) -> section_ok t b waiting s1 o s3.
Proof.
  intros [H1 H2 [H3 H3'] H4 H5 H6] [G1 G2 G3 G4 G5] -> Hpc.
  pose proof G3 as (E1 & E2 & E3). split; try done.
  - by eapply conds_inv_same.
  - split; rewrite ?E1, ?E2, ?E3; [congruence|done|done].
  - intros x Hx. rewrite E3. by apply H6.
  - intros rid. unfold holder_at in *. rewrite <- H3'. apply G5.
Qed.

Lemma set_waiting_none t o (waiting : gmap Z (nat * nat)) :
  waiting !! t = None -> after o ≫= waiting_of = None -> waiting = set_waiting t (after o) waiting.
Proof.
  intros Ht Ho. unfold set_waiting. rewrite Ho. symmetry. by apply delete_id.
Qed.

(** Sections that touch mutexes only. *)
Lemma section_mutex t b waiting s o s' :
  conds_inv waiting s -> gw_wf (sy_memory s) -> mutex_ok t b s o s' -> waiting !! t = None ->
  after o ≫= waiting_of = None -> (forall pc, after o = Some pc -> pc_ok s' pc) ->
  section_ok t b waiting s o s'.
Proof.
  intros Hc Hm Hok Ht Ho Hpc. eapply section_compose; [by apply cond_ok_refl|exact Hok| |done].
  by apply set_waiting_none.
Qed.

(** Sections that touch condition variables only. *)
Lemma section_cond t b waiting w s o s' :
  mutexes_inv b s -> cond_ok w s s' -> w = set_waiting t (after o) waiting ->
  (forall rid, weight (locking rid) (after o) = 0) -> (forall pc, after o = Some pc -> pc_ok s' pc) ->
  section_ok t b waiting s o s'.
Proof.
  intros Hs Hok Hw Hl Hpc. eapply section_compose; [exact Hok| |done|done].
  apply mutex_ok_same; [|done]. apply same_holders_refl; [apply Hok|].
  eapply mutexes_inv_same; [apply Hok|done|exact Hs].
Qed.

Lemma lock_done_ok s k code pc : lock_ok s k -> after (lock_done k code) = Some pc -> pc_ok s pc.
Proof.
  unfold lock_done. destruct k as [|f r]; [done|]. intros Hf.
  destruct (negb _); [done|]. destruct (1 <? _); [by intros [= <-]|done].
Qed.

Lemma lock_done_waiting k code : after (lock_done k code) ≫= waiting_of = None.
Proof. unfold lock_done. destruct k; [done|]. by repeat case_match. Qed.

(** The program counters a locking section ends with. *)
Lemma lock_wait_pc t s rid k o s' :
  lock_wait t s rid k = Ok (o, s') ->
  (o = Paused (MutexBlocked rid k) \/ o = lock_done k 0).
Proof.
  unfold lock_wait. destruct (sy_mutex_store s !! rid) as [r|]; [|done]. cbn.
  destruct (mr_locked r); intros [= <- <-]; auto.
Qed.

Lemma mutex_lock_pc t s slot k o s' :
  mutex_lock t s slot k = Ok (o, s') ->
  (exists rid, o = Paused (MutexBlocked rid k)) \/ exists code, o = lock_done k code.
Proof.
  unfold mutex_lock. destruct (slot =? 0); [intros [= <- <-]; eauto|].
  intros ([res s1] & _ & Hk)%bind_Ok. destruct res as [e|rid]; [injection Hk as <- <-; eauto|].
  apply bind_Ok in Hk as (r & _ & Hk). unfold lock_blocking in Hk.
  repeat case_match; try (injection Hk as <- <-; by eauto);
    apply lock_wait_pc in Hk as [-> | ->]; eauto.
Qed.

Lemma section_lock t b waiting s o s' k :
  conds_inv waiting s -> gw_wf (sy_memory s) -> mutex_ok t b s o s' -> waiting !! t = None -> lock_ok s k ->
  (exists rid, o = Paused (MutexBlocked rid k)) \/ (exists code, o = lock_done k code) ->
  section_ok t b waiting s o s'.
Proof.
  intros Hc Hm Hok Ht Hk Ho.
  assert (lock_ok s' k) as Hk'.
  { destruct k as [|f r]; [done|]. eapply frame_ok_grows; [|exact Hk].
    destruct Hok as [_ _ (E1 & E2 & E3) Hl _]. split; [done|by rewrite E2|by rewrite E3]. }
  apply section_mutex; try done.
  - destruct Ho as [[rid ->]|[code ->]]; [done|apply lock_done_waiting].
  - destruct Ho as [[rid ->]|[code ->]]; [by intros pc [= <-]|]. intros pc. by apply lock_done_ok.
Qed.

Lemma returned_ok t b waiting s code s' :
  conds_inv waiting s -> gw_wf (sy_memory s) -> mutex_ok t b s (Returned code) s' -> waiting !! t = None ->
  section_ok t b waiting s (Returned code) s'.
Proof. intros. by apply section_mutex. Qed.

Lemma cond_returned_ok t b waiting s code s' :
  mutexes_inv b s -> cond_ok waiting s s' -> waiting !! t = None ->
  section_ok t b waiting s (Returned code) s'.
Proof. intros. eapply section_cond; [done..| |done|done]. by apply set_waiting_none. Qed.

Lemma returning_Ok (a : result (Z * sync M)) o s' :
  returning a = Ok (o, s') -> exists code, a = Ok (code, s') /\ o = Returned code.
Proof. unfold returning. intros ([c x] & -> & [= <- <-])%bind_Ok. by exists c. Qed.

Lemma cond_wait_begin_ok t b waiting s slot mslot kind o s' :
  gw_wf (sy_memory s) -> mutexes_inv b s -> conds_inv waiting s -> (forall i, 0 <= b i) ->
  waiting !! t = None -> kind_ok kind ->
  cond_wait_begin s slot mslot kind = Ok (o, s') -> section_ok t b waiting s o s'.
Proof.
  intros Hm Hs Hc Hb Ht Hkind. unfold cond_wait_begin. destruct (_ || _).
  { intros [= <- <-]. apply returned_ok; [done..| |done]. by apply mutex_ok_same; [apply same_holders_refl|]. }
  intros ([res s1] & Hf & Hk)%bind_Ok. apply (mutex_for_slot_ok b) in Hf as [Hsh Hres]; [|done..].
  destruct res as [e|rid]; injection Hk as <- <-; apply section_mutex; try done;
    try (by apply mutex_ok_same).
  intros pc [= <-]. destruct (Hres rid eq_refl) as (r & h & Hr & _). split; [|done].
  by eapply lookup_lt_Some.
Qed.

Lemma cond_wait_enter_ok t b waiting s slot mslot rid kind o s' :
  gw_wf (sy_memory s) -> mutexes_inv b s -> conds_inv waiting s -> waiting !! t = None ->
  (rid < length (sy_mutex_store s))%nat -> kind_ok kind ->
  cond_wait_enter t s slot mslot rid kind = Ok (o, s') -> section_ok t b waiting s o s'.
Proof.
  intros Hm Hs Hc Ht Hrid Hkind. unfold cond_wait_enter.
  intros ([res s1] & Hf & Hk)%bind_Ok. apply (cond_for_slot_ok waiting) in Hf as [Hok Hres]; [|done..].
  destruct res as [e|cid]; [injection Hk as <- <-; by apply cond_returned_ok|].
  destruct (Hres cid eq_refl) as (c & h & Hcc & Hh). pose proof Hok as [Hm1 Hc1 [_ Hst] _ _ _].
  destruct (lookup_lt_is_Some_2 (sy_mutex_store s) rid Hrid) as [r Hr].
  rewrite Hst, Hr in Hk. cbn [deref mbind result_bind] in Hk. rewrite Hcc in Hk.
  cbn [deref mbind result_bind] in Hk.
  destruct (owned_by t r) eqn:Eo; cbn [negb] in Hk; [|injection Hk as <- <-; by apply cond_returned_ok].
  set (x := length (sy_tokens s1)) in Hk.
  set (f := mkFrame cid x rid mslot (mr_depth r)) in Hk.
  set (s2 := set_waiters cid (cr_waiters c ++ [x]) (set_tokens (sy_tokens s1 ++ [false]) s1)) in Hk.
  injection Hk as <- <-.
  assert (cond_ok (<[t := (cid, x)]> waiting) s s2) as Hok2.
  { eapply cond_ok_trans; [exact Hok|]. by apply (enqueue_ok waiting s1 t cid c h). }
  assert (mutexes_inv b s2) as Hs2 by (by eapply mutexes_inv_same; [apply Hok2| |exact Hs]).
  assert (sy_mutex_store s2 = sy_mutex_store s) as Hst2 by apply Hok2.
  eapply section_compose; [exact Hok2| |done|].
  - apply release_ok; [apply Hok2|done|by rewrite Hst2|done|done].
  - intros pc [= <-]. cbn. split; [|done]. unfold frame_ok. cbn.
    rewrite length_insert, length_alter, length_app, Hst. cbn. split; [done|].
    split; [by eapply lookup_lt_Some|]. split; [unfold x; lia|].
    destruct (mi_store _ _ Hs rid r Hr) as [Hrok _]. unfold record_ok, owned_by in *.
    destruct (mr_locked r); [by apply Hrok|done].
Qed.

Lemma leave_queue_ok t b waiting s f res :
  gw_wf (sy_memory s) -> mutexes_inv b s -> conds_inv waiting s ->
  waiting !! t = Some (cf_cond f, cf_waiter f) -> frame_ok s f ->
  exists s', leave_queue s f = Ok s' /\ section_ok t b waiting s (Paused (CondRelock f res)) s'.
Proof.
  intros Hm Hs Hc Ht Hf. unfold leave_queue.
  destruct (lookup_lt_is_Some_2 (sy_cond_store s) (cf_cond f)) as [c Hcc]; [apply Hf|].
  rewrite Hcc. cbn. eexists. split; [done|].
  pose proof (leave_ok _ _ _ _ _ _ Hm Hc Ht Hcc) as Hok.
  eapply section_cond; [exact Hs|exact Hok|done|done|].
  intros pc [= <-]. unfold pc_ok, frame_ok. cbn. rewrite length_alter. apply Hf.
Qed.

(** A waiting thread that goes on waiting. *)
Lemma still_waiting_ok t b waiting s pc :
  gw_wf (sy_memory s) -> mutexes_inv b s -> conds_inv waiting s ->
  waiting !! t = waiting_of pc -> waiting_of pc <> None -> (forall rid, locking rid pc = false) -> pc_ok s pc ->
  section_ok t b waiting s (Paused pc) s.
Proof.
  intros Hm Hs Hc Ht Hw Hl Hpc. eapply section_cond; [done|by apply cond_ok_refl| |..].
  - unfold set_waiting. cbn. rewrite <- Ht. rewrite <- Ht in Hw. destruct (waiting !! t) eqn:E; [|done].
    by rewrite insert_id.
  - intros rid. cbn. by rewrite Hl.
  - by intros ? [= <-].
Qed.

(** A waiting thread that has been signaled. *)
Lemma woken_ok t b waiting s f res :
  gw_wf (sy_memory s) -> mutexes_inv b s -> conds_inv waiting s ->
  waiting !! t = Some (cf_cond f, cf_waiter f) -> frame_ok s f -> sy_tokens s !! cf_waiter f = Some true ->
  section_ok t b waiting s (Paused (CondRelock f res)) s.
Proof.
  intros Hm Hs Hc Ht Hf Htk. eapply section_cond; [done|apply cond_ok_refl; [done|]|done|done|].
  - by eapply signaled_ok.
  - by intros ? [= <-].
Qed.

Lemma cond_wait_timeout_ok t b waiting now s f kind o s' :
  gw_wf (sy_memory s) -> mutexes_inv b s -> conds_inv waiting s ->
  waiting !! t = Some (cf_cond f, cf_waiter f) -> frame_ok s f ->
  cond_wait_timeout now s f kind = Ok (o, s') -> section_ok t b waiting s o s'.
Proof.
  intros Hm Hs Hc Ht Hf.
  assert (forall timeout, section_ok t b waiting s (Paused (CondBlocked f timeout)) s) as Hstay.
  { intros timeout. by apply still_waiting_ok. }
  unfold cond_wait_timeout. destruct kind as [|us|ts].
  - by intros [= <- <-].
  - by intros (x & _ & [= <- <-])%bind_Ok.
  - intros (c & Hcc%deref_Ok & Hk)%bind_Ok. apply bind_Ok in Hk as ([[ns nn]|] & _ & Hk).
    + by apply bind_Ok in Hk as (x & _ & [= <- <-]).
    + apply bind_Ok in Hk as (s1 & Hl & [= <- <-]).
      destruct (leave_queue_ok t b waiting s f kPosixEinval Hm Hs Hc Ht Hf) as (s2 & Hl2 & Hok).
      rewrite Hl in Hl2. by injection Hl2 as <-.
Qed.

Lemma cond_wait_restore_ok t b waiting s f res o s' :
  gw_wf (sy_memory s) -> mutexes_inv b s -> conds_inv waiting s -> (forall i, 0 <= b i) ->
  waiting !! t = None -> frame_ok s f ->
  cond_wait_restore t s f res = Ok (o, s') -> section_ok t b waiting s o s'.
Proof.
  intros Hm Hs Hc Hb Ht Hf. unfold cond_wait_restore. intros (r & Hr%deref_Ok & Hk)%bind_Ok.
  destruct (_ && _) eqn:E; injection Hk as <- <-.
  2: { apply returned_ok; try done. by apply mutex_ok_same; [apply same_holders_refl|]. }
  apply andb_true_iff in E as [Eo _]. destruct (mi_store _ _ Hs _ r Hr) as [Hrok _].
  pose proof (owned_by_holder t r Eo) as Eh. destruct Hf as (_ & _ & _ & Hd).
  unfold record_ok in Hrok. unfold owned_by in Eo. destruct (mr_locked r) eqn:El; [|done].
  cbn in Eo. apply bool_decide_eq_true in Eo.
  apply returned_ok; try done. eapply set_mutex_ok; [done|done|exact Hr|..].
  - unfold record_ok. cbn. rewrite El. split; [by eexists|lia].
  - done.
  - rewrite Eh. unfold holder. cbn. rewrite El, Eo. cbn. constructor. lia.
  - intros _. apply (mi_used _ _ Hs). right. rewrite (holder_of _ _ _ Hr), Eh. done.
  - done.
Qed.

Lemma sync_call_ok t b waiting s op o s' :
  gw_wf (sy_memory s) -> mutexes_inv b s -> conds_inv waiting s ->
  (forall i, 0 <= b i /\ b i + 1 < u64_mod) -> waiting !! t = None -> sync_op_wf op ->
  sync_call t s op = Ok (o, s') -> section_ok t b waiting s o s'.
Proof.
  intros Hm Hs Hc Hb Ht Hop. assert (forall i, 0 <= b i) as Hb0 by (intros; apply Hb).
  assert (forall code, section_ok t b waiting s (Returned code) s) as Hsame.
  { intros code. apply returned_ok; try done. by apply mutex_ok_same; [apply same_holders_refl|]. }
  assert (forall pc, waiting_of pc = None -> (forall rid, locking rid pc = false) -> pc_ok s pc ->
    section_ok t b waiting s (Paused pc) s) as Hpaused.
  { intros pc Hw Hl Hpc. apply section_mutex; try done; [|by intros ? [= <-]].
    apply mutex_ok_same; [by apply same_holders_refl|]. intros rid. cbn. by rewrite Hl. }
  destruct op; cbn [sync_call].
  - intros [= <- <-]. unfold mutex_init_begin. repeat case_match; try apply Hsame; by apply Hpaused.
  - intros Hl. eapply section_lock; [done|done|by eapply mutex_lock_ok|done| |by eapply mutex_lock_pc]. done.
  - intros (code & Hu & ->)%returning_Ok. apply returned_ok; [done|done|by eapply mutex_unlock_ok|done].
  - intros (code & Hu & ->)%returning_Ok. apply returned_ok; [done|done|by eapply mutex_destroy_ok|done].
  - intros [= <- <-]. unfold cond_init_begin. repeat case_match; try apply Hsame; by apply Hpaused.
  - intros (code & Hu & ->)%returning_Ok. apply cond_returned_ok; [done|by eapply cond_destroy_ok|done].
  - by apply cond_wait_begin_ok.
  - unfold cond_timed_wait. destruct (gw_read_timespec _ _) as [ts|] eqn:Ets; [|intros [= <- <-]; apply Hsame].
    destruct (valid_timespec ts) eqn:Ev; cbn [negb]; [|intros [= <- <-]; apply Hsame].
    apply cond_wait_begin_ok; try done. unfold valid_timespec in Ev. bools.
    destruct (gw_timespec_range (sy_memory s) _ ts Hm Ets). cbn. unfold in_i64. lia.
  - by apply cond_wait_begin_ok.
  - intros (code & Hu & ->)%returning_Ok. apply cond_returned_ok; [done|by eapply cond_signal_ok|done].
  - intros (code & Hu & ->)%returning_Ok. apply cond_returned_ok; [done|by eapply cond_broadcast_ok|done].
Qed.

Lemma sync_resume_ok t b waiting now expired s pc o s' :
  gw_wf (sy_memory s) -> mutexes_inv (fun rid => b rid + weight (locking rid) (Some pc)) s ->
  conds_inv waiting s -> (forall i, 0 <= b i /\ b i + 1 < u64_mod) -> waiting !! t = waiting_of pc ->
  pc_ok s pc -> sync_resume t now expired s pc = Ok (o, s') -> section_ok t b waiting s o s'.
Proof.
  intros Hm Hs Hc Hb Ht Hpc. assert (forall i, 0 <= b i) as Hb0 by (intros; apply Hb).
  assert ((forall rid, locking rid pc = false) -> mutexes_inv b s) as Hs0.
  { intros Hn. eapply mutexes_inv_same; [apply same_mutexes_refl| |exact Hs].
    intros i. cbn. rewrite Hn. cbn. lia. }
  destruct pc as [slot type|rid k|slot clock|slot mslot rid kind|f kind|f timeout|f|f res|f res];
    cbn [sync_resume]; try (specialize (Hs0 ltac:(done))).
  - intros (code & Hu & ->)%returning_Ok. apply returned_ok; [done|done|by eapply mutex_init_end_ok|done].
  - intros Hl. eapply section_lock; [done|done| |done|exact Hpc|].
    + eapply lock_wait_ok; [done|exact Hs|done|apply Hb|exact Hl].
    + apply lock_wait_pc in Hl as [-> | ->]; eauto.
  - intros (code & Hu & ->)%returning_Ok. unfold cond_init_end in Hu.
    apply bind_Ok in Hu as ([r s1] & He & [= <- <-]).
    apply (emplace_cond_ok waiting) in He as [Hok _]; [|done..]. by apply cond_returned_ok.
  - destruct Hpc. by apply cond_wait_enter_ok.
  - destruct Hpc. by apply cond_wait_timeout_ok.
  - unfold cond_wait_blocked. intros (sg & Hsg%deref_Ok & Hk)%bind_Ok.
    destruct sg; [injection Hk as <- <-; by apply woken_ok|].
    destruct (_ && _); injection Hk as <- <-; by apply still_waiting_ok.
  - unfold cond_wait_timed_out. intros (sg & Hsg%deref_Ok & Hk)%bind_Ok.
    destruct sg; [injection Hk as <- <-; by apply woken_ok|].
    apply bind_Ok in Hk as (s1 & Hl & [= <- <-]).
    destruct (leave_queue_ok t b waiting s f kPosixEtimedout Hm Hs0 Hc Ht Hpc) as (s2 & Hl2 & Hok).
    rewrite Hl in Hl2. by injection Hl2 as <-.
  - intros Hl. eapply section_lock; [done|done|by eapply mutex_lock_ok|done| |by eapply mutex_lock_pc]. exact Hpc.
  - by apply cond_wait_restore_ok.
Qed.

End Sync.
