(* ===== verification/KernelSyncProps.v ===== *)
(** * Mutexes and condition variables: ownership and signals

    What the invariants of [KernelSyncInv] give in every reachable state: a
    mutex has one owner, no signal is lost, a signaled thread can finish its
    wait, and no section gets stuck. *)

From S2P Require Import Prelude NativeArena GuestMemory GuestMemoryProps KernelMem HandleTable KernelAttrs KernelTime Threads KernelSync KernelSyncInv.

Local Open Scope Z_scope.

Section Sync.
Context {M : Type} `{GuestWords M, !GuestWordsLaws M}.
Implicit Types (s : sync M).

(** ** Reachable states *)

Definition waiting (pcs : gmap Z sync_pc) : gmap Z (nat * nat) := omap waiting_of pcs.

Record sync_inv (w : sync_world) : Prop := {
  yi_memory : gw_wf (sy_memory (yw_sync w));
  yi_mutexes : mutexes_inv (fun rid => pcount (locking rid) (yw_pcs w)) (yw_sync w);
  yi_conds : conds_inv (waiting (yw_pcs w)) (yw_sync w);
  yi_pcs t pc : yw_pcs w !! t = Some pc -> pc_ok (yw_sync w) pc;
  yi_size : Z.of_nat (size (yw_pcs w)) < u64_mod;
}.

Lemma waiting_set_pc t o pcs : waiting (set_pc t o pcs) = set_waiting t (after o) (waiting pcs).
Proof.
  unfold waiting, set_waiting. destruct o as [c|pc]; cbn; [apply omap_delete|].
  destruct (waiting_of pc) as [v|] eqn:E; [by rewrite (omap_insert_Some _ _ _ _ v)|by apply omap_insert_None].
Qed.

Lemma sync_section_world t s pcs o s' b :
  section_ok t b (waiting pcs) s o s' -> (forall rid, b rid = pcount (locking rid) (delete t pcs)) ->
  (forall u pc, pcs !! u = Some pc -> pc_ok s pc) -> Z.of_nat (size (set_pc t o pcs)) < u64_mod ->
  sync_inv (mkSyncWorld s' (set_pc t o pcs)).
Proof.
  intros [H1 H2 H3 H4 _ _ H7] Hb Hp Hs. split; cbn; [done| | | |done].
  - eapply mutexes_inv_same; [apply same_mutexes_refl| |exact H2]. intros rid. cbn. by rewrite Hb, pcount_set.
  - by rewrite waiting_set_pc.
  - intros u pc. rewrite lookup_set_pc. case_decide as E; [by apply H7|]. intros Hu.
    by eapply pc_ok_grows, Hp.
Qed.

(** A step keeps the invariant, moves mutexes only as its thread may, and
    undoes no signal. *)
Lemma sync_step_inv w t l w' :
  sync_inv w -> sync_step w t l w' ->
  sync_inv w' /\ (forall rid, owner_step t (holder_at (yw_sync w) rid) (holder_at (yw_sync w') rid)) /\
  forall x, sy_tokens (yw_sync w) !! x = Some true -> sy_tokens (yw_sync w') !! x = Some true.
Proof.
  intros [Hm Hs Hc Hp Hsz] Hstep.
  destruct Hstep as [s pcs t op o s' Hn Hroom Hop Hcall|s pcs t now expired pc o s' Hpc Hres
                    |s pcs t m ma ca Hm']; cbn [yw_sync yw_pcs] in *.
  - assert (section_ok t (fun rid => pcount (locking rid) pcs) (waiting pcs) s o s') as Hok.
    { eapply sync_call_ok; [done..| | |exact Hop|exact Hcall].
      - intros rid. pose proof (pcount_nonneg (locking rid) pcs). pose proof (pcount_size (locking rid) pcs). lia.
      - unfold waiting. by rewrite lookup_omap, Hn. }
    split; [|split; apply Hok]. eapply sync_section_world; [exact Hok| |done|pose proof (size_set_pc t o pcs); lia].
    intros rid. by rewrite delete_id.
  - assert (Z.of_nat (size (delete t pcs)) + 1 = Z.of_nat (size pcs)) as Hd.
    { rewrite map_size_delete, Hpc. assert (size pcs <> 0%nat); [|lia].
      intros ->%map_size_empty_inv. by rewrite lookup_empty in Hpc. }
    assert (section_ok t (fun rid => pcount (locking rid) (delete t pcs)) (waiting pcs) s o s') as Hok.
    { eapply sync_resume_ok; [done| |done| | |by eapply Hp|exact Hres].
      - eapply mutexes_inv_same; [apply same_mutexes_refl| |exact Hs]. intros rid. cbn.
        by rewrite (pcount_delete _ t pcs), Hpc.
      - intros rid. pose proof (pcount_nonneg (locking rid) (delete t pcs)).
        pose proof (pcount_size (locking rid) (delete t pcs)). lia.
      - unfold waiting. by rewrite lookup_omap, Hpc. }
    split; [|split; apply Hok]. eapply sync_section_world; [exact Hok|done|done|].
    destruct o; cbn; [lia|]. rewrite map_size_insert, Hpc. unfold id. lia.
  - split; [|split; [constructor|done]]. split; cbn; try done.
    + eapply mutexes_inv_same; [| |exact Hs]; done.
    + by eapply conds_inv_same; [|exact Hc].
Qed.

Lemma sync_reachable_inv m w : gw_wf m -> sync_reachable m w -> sync_inv w.
Proof.
  intros Hm. induction 1 as [|w t l w' _ IH Hs]; [|by eapply sync_step_inv].
  split; cbn; [done| | |by intros ? ?; rewrite lookup_empty|done].
  - split; cbn; [by apply table_init_wf|by intros ? ?; rewrite lookup_empty|
      by intros ? ? ?; rewrite lookup_empty|done|].
    intros rid [Hp|Hh]; [by cbn in Hp|done].
  - split; cbn; [by apply table_init_wf|by intros ? ?; rewrite lookup_empty|
      by intros ? ? ?; rewrite lookup_empty|done|done| | |done].
    + intros t cid x. unfold waiting. by rewrite lookup_omap, lookup_empty.
    + intros t1 t2 c1 c2 x. unfold waiting. by rewrite lookup_omap, lookup_empty.
Qed.

(** The record a slot designates. *)
Definition mutex_at s (slot : Z) (rid : nat) (r : MutexRecord) : Prop :=
  exists h, gw_read64 (sy_memory s) slot = Some h /\ kMutexDestroyed < h /\
    tb_entries (sy_mutexes s) !! h = Some rid /\ sy_mutex_store s !! rid = Some r.

Definition cond_at s (slot : Z) (cid : nat) (c : CondRecord) : Prop :=
  exists h, gw_read64 (sy_memory s) slot = Some h /\ kCondDestroyed < h /\
    tb_entries (sy_conds s) !! h = Some cid /\ sy_cond_store s !! cid = Some c.

Lemma mutex_for_slot_at s slot rid r create :
  mutex_at s slot rid r -> mutex_for_slot s slot create = Ok (inr rid, s).
Proof.
  intros (h & Hr & Hh & He & _). unfold mutex_for_slot, kMutexDestroyed, kMutexAdaptiveInitializer in *.
  rewrite Hr. destruct (Z.eqb_spec h 2); [lia|]. destruct (Z.eqb_spec h 0); [lia|].
  destruct (Z.eqb_spec h 1); [lia|]. cbn. by rewrite He.
Qed.

Lemma cond_for_slot_at s slot cid c : cond_at s slot cid c -> cond_for_slot s slot = Ok (inr cid, s).
Proof.
  intros (h & Hr & Hh & He & _). unfold cond_for_slot, kCondDestroyed in *.
  rewrite Hr. destruct (Z.eqb_spec h 1); [lia|]. destruct (Z.eqb_spec h 0); [lia|]. by rewrite He.
Qed.

(** C27: mutual exclusion.  However the handlers of any number of threads
    interleave, and whatever the guest does to its memory meanwhile, a step of
    a thread takes a mutex only when nobody holds it, and changes or frees only
    a mutex that the thread holds itself.  A mutex record counts exactly the
    threads blocked on it, and a mutex that is held or waited for cannot be
    destroyed: [mutex_destroy] answers [EBUSY] and changes nothing. *)
Theorem mutexes_have_one_owner m w t l w' :
  gw_wf m -> sync_reachable m w -> sync_step w t l w' ->
  (forall rid, owner_step t (holder_at (yw_sync w) rid) (holder_at (yw_sync w') rid)) /\
  forall slot rid r, mutex_at (yw_sync w) slot rid r -> slot <> 0 ->
    mr_waiters r = pcount (locking rid) (yw_pcs w) /\
    (holder r <> None \/ 0 < pcount (locking rid) (yw_pcs w) ->
       mutex_destroy (yw_sync w) slot = Ok (kPosixEbusy, yw_sync w)).
Proof.
  intros Hm Hreach Hstep. pose proof (sync_reachable_inv m w Hm Hreach) as Hinv.
  split; [by apply (sync_step_inv w t l w')|].
  intros slot rid r (h & Hr & Hh & He & Hst) Hslot. destruct (mi_store _ _ (yi_mutexes _ Hinv) rid r Hst) as [_ Hw].
  split; [done|]. intros Hused. unfold mutex_destroy, kMutexDestroyed in *.
  destruct (Z.eqb_spec slot 0); [done|]. rewrite Hr. destruct (Z.ltb_spec h 2); [lia|].
  destruct (Z.eqb_spec h 2); [lia|]. rewrite He, Hst. cbn [deref mbind result_bind].
  destruct (mr_locked r) eqn:El; [done|]. destruct Hused as [Hu|Hu]; [unfold holder in Hu; by rewrite El in Hu|].
  rewrite Hw. destruct (Z.eqb_spec (pcount (locking rid) (yw_pcs w)) 0); [lia|done].
Qed.

(** What a locking or unlocking section answers, and what it does to the mutex
    [rid] and to no other. *)
Definition answers (rid : nat) s (a : result (outcome sync_pc * sync M)) (o : outcome sync_pc)
    (h : option (Z * Z)) : Prop :=
  exists s', a = Ok (o, s') /\ holder_at s' rid = h /\ forall i, i <> rid -> holder_at s' i = holder_at s i.

Lemma answers_same rid s o : answers rid s (Ok (o, s)) o (holder_at s rid).
Proof. by exists s. Qed.

Lemma answers_set rid s r r' o :
  sy_mutex_store s !! rid = Some r -> answers rid s (Ok (o, set_mutex rid r' s)) o (holder r').
Proof.
  intros Hr%lookup_lt_Some. exists (set_mutex rid r' s). split; [done|].
  split; [by rewrite holder_set, decide_True|]. intros i Hi. by rewrite holder_set, decide_False.
Qed.

Lemma holder_cases r : record_ok r ->
  (mr_locked r = false /\ holder r = None) \/
  exists u d, mr_locked r = true /\ mr_owner r = Some u /\ mr_depth r = d /\ holder r = Some (u, d) /\
    1 <= d <= u64_max.
Proof.
  unfold record_ok, holder. destruct (mr_locked r); [|by left]. intros [[u Hu] Hd]. right.
  exists u, (mr_depth r). by rewrite Hu.
Qed.

Lemma lock_wait_answers t s rid r k :
  sy_mutex_store s !! rid = Some r ->
  answers rid s (lock_wait t s rid k)
    (if mr_locked r then Paused (MutexBlocked rid k) else lock_done k 0)
    (if mr_locked r then holder r else Some (t, 1)).
Proof.
  intros Hr. unfold lock_wait. rewrite Hr. cbn [deref mbind result_bind]. destruct (mr_locked r) eqn:El.
  - rewrite <- (holder_of s rid r Hr). apply answers_same.
  - by eapply answers_set.
Qed.

Lemma lock_blocking_answers t s rid r k :
  sy_mutex_store s !! rid = Some r ->
  answers rid s (lock_blocking t s rid r k)
    (if mr_locked r then Paused (MutexBlocked rid k) else lock_done k 0)
    (if mr_locked r then holder r else Some (t, 1)).
Proof.
  intros Hr. unfold lock_blocking. set (r1 := mkMutexRecord _ _ _ _ _).
  assert (rid < length (sy_mutex_store s))%nat as Hlt by (by eapply lookup_lt_Some).
  destruct (lock_wait_answers t (set_mutex rid r1 s) rid r1 k) as (s' & -> & Hh & Ho).
  { cbn. by apply list_lookup_insert_eq. }
  exists s'. split; [done|]. split; [done|]. intros i Hi. by rewrite Ho, holder_set, decide_False.
Qed.

(** What [mutex_lock] by [t] makes of a mutex of a type: the result, and the
    new holder. *)
Definition lock_spec (t type : Z) (rid : nat) (k : after_lock) (h : option (Z * Z))
  : outcome sync_pc * option (Z * Z) :=
  match h with
  | None => (lock_done k 0, Some (t, 1))
  | Some (u, d) =>
      if bool_decide (u = t) && negb (type =? kMutexTypeNormal) then
        if type =? kMutexTypeRecursive then
          if d =? u64_max then (lock_done k kPosixEagain, h) else (lock_done k 0, Some (t, d + 1))
        else (lock_done k kPosixEdeadlk, h)
      else (Paused (MutexBlocked rid k), h)
  end.

Definition unlock_spec (t type : Z) (h : option (Z * Z)) : Z * option (Z * Z) :=
  match h with
  | Some (u, d) =>
      if bool_decide (u = t) then
        (0, if (type =? kMutexTypeRecursive) && (1 <? d) then Some (t, d - 1) else None)
      else (kPosixEperm, h)
  | None => (kPosixEperm, None)
  end.

Lemma mutex_lock_answers t s slot rid r k :
  mutex_at s slot rid r -> slot <> 0 -> record_ok r ->
  let (o, h) := lock_spec t (mr_type r) rid k (holder r) in
  answers rid s (mutex_lock t s slot k) o h.
Proof.
  intros Hat Hslot Hok. unfold mutex_lock. destruct (Z.eqb_spec slot 0); [done|].
  rewrite (mutex_for_slot_at s slot rid r true Hat). cbn [mbind result_bind].
  destruct Hat as (h & _ & _ & _ & Hr). rewrite Hr. cbn [deref mbind result_bind].
  pose proof (lock_blocking_answers t s rid r k Hr) as Hblock.
  destruct (holder_cases r Hok) as [[El Eh]|(u & d & El & Eu & Ed & Eh & Hd)].
  - rewrite Eh. cbn. unfold owned_by. rewrite El in *. exact Hblock.
  - rewrite Eh in *. unfold lock_spec, owned_by. rewrite El, Eu in *. cbn [andb].
    destruct (bool_decide_reflect (u = t)) as [->|Hne];
      [rewrite bool_decide_true by done|rewrite bool_decide_false by congruence; exact Hblock].
    cbn [andb]. destruct (Z.eqb_spec (mr_type r) kMutexTypeNormal) as [->|Hn]; [exact Hblock|]. cbn [negb].
    destruct (Z.eqb_spec (mr_type r) kMutexTypeRecursive).
    + rewrite Ed. destruct (Z.eqb_spec d u64_max).
      * rewrite <- Eh, <- (holder_of s rid r Hr). apply answers_same.
      * assert (Some (t, d + 1) = holder (set_depth (wrap64 (d + 1)) r)) as ->.
        { unfold holder. cbn. rewrite El, Eu. cbn. rewrite wrap64_small by (unfold in_u64; lia). done. }
        by eapply answers_set.
    + rewrite <- Eh, <- (holder_of s rid r Hr). apply answers_same.
Qed.

(** results of mutex calls.  In every reachable state, on a slot that
    designates a mutex, [mutex_lock] takes a free mutex at once, locks a
    recursive mutex of the caller once more (up to the largest count), refuses
    a second lock of an error-checking or adaptive one, and otherwise blocks;
    [mutex_unlock] undoes one lock of the caller and is refused to anybody
    else; and a blocked thread that is resumed takes the mutex exactly when it
    is free.  No other mutex changes its holder. *)
Theorem mutex_calls_follow_ownership m w slot rid r t :
  gw_wf m -> sync_reachable m w -> mutex_at (yw_sync w) slot rid r -> slot <> 0 ->
  let s := yw_sync w in
  (let (o, h) := lock_spec t (mr_type r) rid LockReturns (holder r) in
   answers rid s (sync_call t s (OMutexLock slot)) o h) /\
  (let (code, h) := unlock_spec t (mr_type r) (holder r) in
   answers rid s (sync_call t s (OMutexUnlock slot)) (Returned code) h) /\
  forall k now expired, answers rid s (sync_resume t now expired s (MutexBlocked rid k))
    (if isSome (holder r) then Paused (MutexBlocked rid k) else lock_done k 0)
    (if isSome (holder r) then holder r else Some (t, 1)).
Proof.
  intros Hm Hreach Hat Hslot s. pose proof (sync_reachable_inv m w Hm Hreach) as Hinv.
  pose proof Hat as (h0 & _ & _ & _ & Hr). destruct (mi_store _ _ (yi_mutexes _ Hinv) rid r Hr) as [Hok _].
  fold s in Hr. split; [by apply mutex_lock_answers|]. split.
  - cbn [sync_call]. unfold mutex_unlock. destruct (Z.eqb_spec slot 0); [done|].
    unfold s. rewrite (mutex_for_slot_at _ slot rid r false Hat). fold s. cbn [mbind result_bind].
    rewrite Hr. cbn [deref mbind result_bind]. pose proof (answers_same rid s) as Hsame.
    rewrite (holder_of s rid r Hr) in Hsame.
    destruct (holder_cases r Hok) as [[El Eh]|(u & d & El & Eu & Ed & Eh & Hd)]; rewrite Eh in *; cbn [unlock_spec];
      unfold owned_by; rewrite El; [apply Hsame|].
    rewrite Eu. cbn [andb]. destruct (bool_decide_reflect (u = t)) as [->|Hne];
      [rewrite bool_decide_true by done|rewrite bool_decide_false by congruence; apply Hsame].
    cbn [negb]. rewrite Ed. destruct (_ && _); [|by eapply (answers_set rid s r (release_mutex r))].
    assert (Some (t, d - 1) = holder (set_depth (d - 1) r)) as ->; [|by eapply answers_set].
    unfold holder. cbn. by rewrite El, Eu.
  - intros k now expired. cbn [sync_resume].
    pose proof (lock_wait_answers t s rid r k Hr) as Ha.
    destruct (holder_cases r Hok) as [[El Eh]|(u & d & El & Eu & Ed & Eh & Hd)]; by rewrite El, Eh in *.
Qed.

(** What a signal to the front [woken] of a queue changes. *)
Definition signals s (cid : nat) (woken rest : list nat) s' : Prop :=
  (exists c, sy_cond_store s' !! cid = Some c /\ cr_waiters c = rest) /\
  (forall x, sy_tokens s' !! x = if decide (x ∈ woken) then (fun _ => true) <$> sy_tokens s !! x
                              else sy_tokens s !! x) /\
  (forall i, i <> cid -> sy_cond_store s' !! i = sy_cond_store s !! i) /\
  sy_mutex_store s' = sy_mutex_store s.

Lemma signals_set s cid c woken rest :
  sy_cond_store s !! cid = Some c ->
  signals s cid woken rest (set_tokens (signal_all (sy_tokens s) woken) (set_waiters cid rest s)).
Proof.
  intros Hc. unfold signals. change (sy_cond_store (set_tokens _ ?x)) with (sy_cond_store x). split.
  - rewrite waiters_lookup, decide_True, Hc by done. by eexists.
  - split; [intros x; apply signal_all_lookup|]. split; [|done].
    intros i Hi. by rewrite waiters_lookup, decide_False.
Qed.

Lemma waiting_lookup pcs t pc v :
  pcs !! t = Some pc -> waiting_of pc = Some v -> waiting pcs !! t = Some v.
Proof. intros Hp Hw. unfold waiting. by rewrite lookup_omap, Hp. Qed.

(** C29: no signal is lost.  In every reachable state a thread inside
    [cond_wait_impl] either has been signaled, or stands in the queue of its
    condition variable; [cond_signal] signals exactly the thread that has been
    queued longest and [cond_broadcast] exactly all of them; and a thread
    answers [ETIMEDOUT] only if nobody has signaled it, even when its timeout
    expires first. *)
Theorem no_signal_is_lost m w :
  gw_wf m -> sync_reachable m w ->
  let s := yw_sync w in
  (forall t pc cid x, yw_pcs w !! t = Some pc -> waiting_of pc = Some (cid, x) ->
     sy_tokens s !! x = Some true \/
     (sy_tokens s !! x = Some false /\ exists c, sy_cond_store s !! cid = Some c /\ x ∈ cr_waiters c)) /\
  (forall slot cid c, cond_at s slot cid c -> slot <> 0 ->
     (forall x, x ∈ cr_waiters c -> sy_tokens s !! x = Some false /\
        exists t, waiting (yw_pcs w) !! t = Some (cid, x)) /\
     (exists s', cond_signal s slot = Ok (0, s') /\
        signals s cid (take 1 (cr_waiters c)) (drop 1 (cr_waiters c)) s') /\
     (exists s', cond_broadcast s slot = Ok (0, s') /\ signals s cid (cr_waiters c) [] s') /\
     (cr_waiters c <> [] -> usable (sy_memory s) slot = true ->
        cond_destroy s slot = Ok (kPosixEbusy, s))) /\
  (forall t f timeout expired now, yw_pcs w !! t = Some (CondBlocked f timeout) ->
     sync_resume t now expired s (CondBlocked f timeout) =
       Ok (Paused (if bool_decide (sy_tokens s !! cf_waiter f = Some true) then CondRelock f 0
                   else if expired && isSome timeout then CondTimedOut f else CondBlocked f timeout), s)) /\
  (forall t f expired now, yw_pcs w !! t = Some (CondTimedOut f) -> exists s',
     sync_resume t now expired s (CondTimedOut f) =
       Ok (Paused (CondRelock f (if bool_decide (sy_tokens s !! cf_waiter f = Some true) then 0
                                 else kPosixEtimedout)), s')).
Proof.
  intros Hm Hreach s. pose proof (sync_reachable_inv m w Hm Hreach) as [_ _ Hc Hp _]. fold s in Hc, Hp.
  split; [|split; [|split]].
  - intros t pc cid x Hpc Hw. destruct (ci_waiting _ _ Hc t cid x) as (c & Hcc & [[Hf Hx]|Htk]);
      [by eapply waiting_lookup|right; split; [done|by exists c]|by left].
  - intros slot cid c Hat Hslot. pose proof (cond_for_slot_at s slot cid c Hat) as Hfor.
    destruct Hat as (h & Hr & Hh & He & Hcc).
    split; [intros x Hx; by eapply ci_queued|].
    unfold cond_signal, cond_broadcast, cond_destroy, kCondDestroyed in *.
    destruct (Z.eqb_spec slot 0); [done|]. rewrite Hfor. cbn [mbind result_bind]. rewrite Hcc.
    cbn [deref mbind result_bind]. split; [|split].
    + destruct (cr_waiters c) as [|x q] eqn:Hq; (eexists; split; [done|]).
      * split; [by exists c|]. split; [|done]. intros x. by rewrite decide_False by set_solver.
      * cbn. rewrite drop_0. by apply (signals_set s cid c [x] q).
    + eexists. split; [done|]. by apply (signals_set s cid c).
    + intros Hne Hu. unfold usable in Hu. apply negb_true_iff, orb_false_iff in Hu as [_ ->]. cbn [orb].
      rewrite Hr. destruct (Z.eqb_spec h 0); [lia|]. destruct (Z.eqb_spec h 1); [lia|]. rewrite He, Hcc.
      cbn. by rewrite bool_decide_false.
  - intros t f timeout expired now Hpc. cbn [sync_resume]. unfold cond_wait_blocked.
    destruct (lookup_lt_is_Some_2 (sy_tokens s) (cf_waiter f)) as [b Hb]; [apply (Hp _ _ Hpc)|].
    rewrite Hb. cbn [deref mbind result_bind]. destruct b; [done|].
    by destruct (expired && isSome timeout).
  - intros t f expired now Hpc. cbn [sync_resume]. unfold cond_wait_timed_out.
    destruct (lookup_lt_is_Some_2 (sy_tokens s) (cf_waiter f)) as [b Hb]; [apply (Hp _ _ Hpc)|].
    rewrite Hb. cbn [deref mbind result_bind]. destruct b; [by exists s|]. unfold leave_queue.
    destruct (lookup_lt_is_Some_2 (sy_cond_store s) (cf_cond f)) as [c Hcc]; [apply (Hp _ _ Hpc)|].
    rewrite Hcc. by eexists.
Qed.

(** ** Progress *)

(** Thread [t], run alone, returns [code]. *)
Inductive returns (t : Z) : sync_world -> Z -> sync_world -> Prop :=
| returns_now w pc code w' : sync_step w t (SyncResumed pc (Returned code)) w' -> returns t w code w'
| returns_later w pc pc' w1 code w' :
    sync_step w t (SyncResumed pc (Paused pc')) w1 -> returns t w1 code w' -> returns t w code w'.

Lemma mutex_at_memory s s' slot rid r r' :
  mutex_at s slot rid r -> sy_memory s' = sy_memory s -> sy_mutexes s' = sy_mutexes s ->
  sy_mutex_store s' !! rid = Some r' -> mutex_at s' slot rid r'.
Proof. intros (h & H1 & H2 & H3 & _) E1 E2 E3. exists h. by rewrite E1, E2. Qed.

Lemma lock_free t s slot rid r k :
  mutex_at s slot rid r -> slot <> 0 -> record_ok r -> holder r = None -> exists s' r',
  mutex_lock t s slot k = Ok (lock_done k 0, s') /\ sy_mutex_store s' !! rid = Some r' /\
  mr_type r' = mr_type r /\ owned_by t r' = true /\ holder r' = Some (t, 1).
Proof.
  intros Hat Hslot Hok Hh. unfold mutex_lock. destruct (Z.eqb_spec slot 0); [done|].
  rewrite (mutex_for_slot_at s slot rid r true Hat). cbn [mbind result_bind].
  destruct Hat as (h & _ & _ & _ & Hr). rewrite Hr. cbn [deref mbind result_bind].
  destruct (holder_cases r Hok) as [[El _]|(u & d & _ & _ & _ & Eh & _)]; [|congruence].
  assert (rid < length (sy_mutex_store s))%nat as Hlt by (by eapply lookup_lt_Some).
  unfold owned_by at 1. rewrite El. cbn [andb]. unfold lock_blocking, lock_wait. cbn.
  rewrite list_lookup_insert_eq by done. cbn. rewrite El. do 2 eexists. split; [done|].
  cbn. rewrite list_insert_insert_eq, list_lookup_insert_eq by done. split; [done|]. split; [done|].
  unfold owned_by, holder. cbn. by rewrite bool_decide_true.
Qed.


(** ** The sections return *)

(** Both tables have a free handle. *)
Definition room s : Prop :=
  Z.of_nat (size (tb_entries (sy_mutexes s))) < slots_count mutex_first /\
  Z.of_nat (size (tb_entries (sy_conds s))) < slots_count cond_first.

Lemma write_word_total m a v :
  gw_wf m -> in_u64 v -> exists ok m', gw_write64 m a v = Ok (ok, m').
Proof. intros Hm Hv. destruct (gw_write64_ok m a v Hm Hv) as (ok & m' & E & _). by exists ok, m'. Qed.

Lemma emplace_mutex_total b s slot type :
  gw_wf (sy_memory s) -> mutexes_inv b s -> room s -> exists a, emplace_mutex s slot type = Ok a.
Proof.
  intros Hm Hs [Hroom _]. unfold emplace_mutex.
  destruct (allocate_handle_fresh _ _ mutex_first_ok (sy_mutexes s)) as (h & t & -> & Hh & _); [apply Hs|done|].
  cbn. destruct (write_word_total (sy_memory s) slot h Hm) as (ok & m & ->); [by apply (handle_u64 mutex_first)|].
  cbn. destruct ok; by eexists.
Qed.

Lemma emplace_cond_total w s slot clock :
  gw_wf (sy_memory s) -> conds_inv w s -> room s -> exists a, emplace_cond s slot clock = Ok a.
Proof.
  intros Hm Hs [_ Hroom]. unfold emplace_cond.
  destruct (allocate_handle_fresh _ _ cond_first_ok (sy_conds s)) as (h & t & -> & Hh & _); [apply Hs|done|].
  cbn. destruct (write_word_total (sy_memory s) slot h Hm) as (ok & m & ->); [by apply (handle_u64 cond_first)|].
  cbn. destruct ok; by eexists.
Qed.

Lemma mutex_for_slot_total b s slot create :
  gw_wf (sy_memory s) -> mutexes_inv b s -> (forall i, 0 <= b i) -> room s ->
  exists res s', mutex_for_slot s slot create = Ok (res, s') /\ same_holders b s s' /\
    forall rid, res = inr rid -> exists r, sy_mutex_store s' !! rid = Some r.
Proof.
  intros Hm Hs Hb Hroom. assert (exists a, mutex_for_slot s slot create = Ok a) as [[res s'] E].
  { unfold mutex_for_slot. repeat case_match; try (by eexists). all: by eapply emplace_mutex_total. }
  destruct (mutex_for_slot_ok b s slot create res s' Hm Hs Hb E) as [Hsh Hres].
  exists res, s'. split_and!; try done. intros rid Hr. destruct (Hres rid Hr) as (r & _ & ? & _). by exists r.
Qed.

Lemma cond_for_slot_total w s slot :
  gw_wf (sy_memory s) -> conds_inv w s -> room s ->
  exists res s', cond_for_slot s slot = Ok (res, s') /\ cond_ok w s s' /\
    forall cid, res = inr cid -> exists c, sy_cond_store s' !! cid = Some c.
Proof.
  intros Hm Hs Hroom. assert (exists a, cond_for_slot s slot = Ok a) as [[res s'] E].
  { unfold cond_for_slot. repeat case_match; try (by eexists). by eapply emplace_cond_total. }
  destruct (cond_for_slot_ok w s slot res s' Hm Hs E) as [Hok Hres].
  exists res, s'. split_and!; try done. intros cid Hr. destruct (Hres cid Hr) as (c & _ & ? & _). by exists c.
Qed.

Lemma mutex_lock_total b t s slot k :
  gw_wf (sy_memory s) -> mutexes_inv b s -> (forall i, 0 <= b i) -> room s ->
  exists a, mutex_lock t s slot k = Ok a.
Proof.
  intros Hm Hs Hb Hroom. unfold mutex_lock. destruct (slot =? 0); [by eexists|].
  destruct (mutex_for_slot_total b s slot true Hm Hs Hb Hroom) as (res & s' & -> & _ & Hres). cbn.
  destruct res as [e|rid]; [by eexists|]. destruct (Hres rid eq_refl) as [r Hr]. rewrite Hr. cbn.
  pose proof (lock_blocking_answers t s' rid r k Hr) as (s2 & -> & _). repeat case_match; by eexists.
Qed.

Lemma sync_call_total b w t s op :
  gw_wf (sy_memory s) -> mutexes_inv b s -> conds_inv w s -> (forall i, 0 <= b i) -> room s ->
  exists a, sync_call t s op = Ok a.
Proof.
  intros Hm Hs Hc Hb Hroom.
  assert (forall slot, exists a, mutex_unlock t s slot = Ok a) as Hunlock.
  { intros slot. unfold mutex_unlock. destruct (slot =? 0); [by eexists|].
    destruct (mutex_for_slot_total b s slot false Hm Hs Hb Hroom) as (res & s' & -> & _ & Hres). cbn.
    destruct res as [e|rid]; [by eexists|]. destruct (Hres rid eq_refl) as [r ->]. cbn.
    repeat case_match; by eexists. }
  assert (forall slot mslot kind, exists a, cond_wait_begin s slot mslot kind = Ok a) as Hwait.
  { intros slot mslot kind. unfold cond_wait_begin. destruct (_ || _); [by eexists|].
    destruct (mutex_for_slot_total b s mslot true Hm Hs Hb Hroom) as (res & s' & -> & _ & Hres). cbn.
    destruct res; by eexists. }
  destruct op; cbn [sync_call]; try (by eexists); try (by apply Hwait).
  - by eapply mutex_lock_total.
  - destruct (Hunlock slot_address) as [[c s'] ->]. by eexists.
  - unfold mutex_destroy. destruct (slot_address =? 0); [by eexists|].
    destruct (gw_read64 _ _) as [h|]; [|by eexists]. do 2 (case_match; [by eexists|]).
    destruct (tb_entries (sy_mutexes s) !! h) as [rid|] eqn:E; [|by eexists].
    destruct (lookup_lt_is_Some_2 (sy_mutex_store s) rid) as [r ->]; [by eapply mi_entries|]. cbn.
    case_match; [by eexists|]. destruct (write_word_total (sy_memory s) slot_address kMutexDestroyed Hm) as (ok & m & ->);
      [by unfold in_u64|]. by eexists.
  - unfold cond_destroy. case_match; [by eexists|].
    destruct (gw_read64 _ _) as [h|]; [|by eexists]. do 2 (case_match; [by eexists|]).
    destruct (tb_entries (sy_conds s) !! h) as [cid|] eqn:E; [|by eexists].
    destruct (lookup_lt_is_Some_2 (sy_cond_store s) cid) as [c ->]; [by eapply ci_entries|]. cbn.
    case_match; [by eexists|]. destruct (write_word_total (sy_memory s) slot_address kCondDestroyed Hm) as (ok & m & ->);
      [by unfold in_u64|]. cbn. destruct ok; by eexists.
  - unfold cond_timed_wait. destruct (gw_read_timespec _ _); [|by eexists]. case_match; [by eexists|]. apply Hwait.
  - unfold cond_signal. destruct (slot_address =? 0); [by eexists|].
    destruct (cond_for_slot_total w s slot_address Hm Hc Hroom) as (res & s' & -> & _ & Hres). cbn.
    destruct res as [e|cid]; [by eexists|]. destruct (Hres cid eq_refl) as [c ->]. cbn.
    destruct (cr_waiters c); by eexists.
  - unfold cond_broadcast. destruct (slot_address =? 0); [by eexists|].
    destruct (cond_for_slot_total w s slot_address Hm Hc Hroom) as (res & s' & -> & _ & Hres). cbn.
    destruct res as [e|cid]; [by eexists|]. destruct (Hres cid eq_refl) as [c ->]. by eexists.
Qed.

Lemma cond_wait_timeout_total now s f kind :
  clock_sane now -> frame_ok s f -> kind_ok kind -> exists a, cond_wait_timeout now s f kind = Ok a.
Proof.
  intros Hn Hf Hk. unfold cond_wait_timeout. destruct kind as [|us|ts]; [by eexists| |].
  - rewrite relative_timeout_value by done. by eexists.
  - destruct (lookup_lt_is_Some_2 (sy_cond_store s) (cf_cond f)) as [c Hc]; [apply Hf|]. rewrite Hc. cbn.
    destruct (clock_now_ok now (cr_clock_id c) Hn) as (v & -> & Hv). cbn.
    destruct v as [[x y]|]; [|unfold leave_queue; rewrite Hc; by eexists].
    destruct (Hv x y eq_refl), Hk. rewrite remaining_until_value by done. by eexists.
Qed.

Lemma cond_wait_enter_total b w t s slot mslot rid kind :
  gw_wf (sy_memory s) -> mutexes_inv b s -> conds_inv w s -> room s -> (rid < length (sy_mutex_store s))%nat ->
  exists a, cond_wait_enter t s slot mslot rid kind = Ok a.
Proof.
  intros Hm Hs Hc Hroom Hrid. unfold cond_wait_enter.
  destruct (cond_for_slot_total w s slot Hm Hc Hroom) as (res & s' & -> & Hok & Hres). cbn.
  destruct res as [e|cid]; [by eexists|]. destruct (Hres cid eq_refl) as [c Hcc].
  destruct (lookup_lt_is_Some_2 (sy_mutex_store s) rid Hrid) as [r Hr].
  destruct (co_same _ _ _ Hok) as [_ ->]. rewrite Hr. cbn. rewrite Hcc. cbn. case_match; by eexists.
Qed.

(** no handler gets stuck.  In every reachable state, with sane clocks and
    a free handle in the tables, every section of every handler returns: no
    dangling record, token or queue, no signed overflow, no endless search for
    a handle. *)
Theorem sync_sections_return m w now :
  gw_wf m -> sync_reachable m w -> clock_sane now -> room (yw_sync w) ->
  (forall t op, exists a, sync_call t (yw_sync w) op = Ok a) /\
  forall t pc expired, yw_pcs w !! t = Some pc -> exists a, sync_resume t now expired (yw_sync w) pc = Ok a.
Proof.
  intros Hm Hreach Hn Hroom. destruct (sync_reachable_inv m w Hm Hreach) as [Hmem Hs Hc Hp _].
  set (s := yw_sync w) in *. assert (forall i, 0 <= pcount (locking i) (yw_pcs w)) as Hb by (intros; apply pcount_nonneg).
  split; [intros t op; by eapply sync_call_total|].
  intros t pc expired Hpc. specialize (Hp t pc Hpc).
  assert (forall f, frame_ok s f -> exists s', leave_queue s f = Ok s') as Hleave.
  { intros f Hf. unfold leave_queue. destruct (lookup_lt_is_Some_2 (sy_cond_store s) (cf_cond f)) as [c ->];
      [apply Hf|]. by eexists. }
  destruct pc as [slot type|rid k|slot clock|slot mslot rid kind|f kind|f timeout|f|f res|f res]; cbn [sync_resume].
  - unfold mutex_init_end. destruct (gw_read64 _ _); [|by eexists]. case_match; [by eexists|].
    destruct (emplace_mutex_total _ s slot type Hmem Hs Hroom) as [[r s'] ->]. by eexists.
  - assert (exists r, sy_mutex_store s !! rid = Some r) as [r Hr].
    { destruct (mi_used _ _ Hs rid) as [h Hh]; [left; eapply pcount_pos; [exact Hpc|cbn; by rewrite bool_decide_true]|].
      apply lookup_lt_is_Some. by eapply (mi_entries _ _ Hs). }
    destruct (lock_wait_answers t s rid r k Hr) as (s' & -> & _). by eexists.
  - unfold cond_init_end. destruct (emplace_cond_total _ s slot clock Hmem Hc Hroom) as [[r s'] ->]. by eexists.
  - destruct Hp. by eapply cond_wait_enter_total.
  - destruct Hp. by apply cond_wait_timeout_total.
  - unfold cond_wait_blocked. destruct (lookup_lt_is_Some_2 (sy_tokens s) (cf_waiter f)) as [b ->]; [apply Hp|].
    cbn. repeat case_match; by eexists.
  - unfold cond_wait_timed_out. destruct (lookup_lt_is_Some_2 (sy_tokens s) (cf_waiter f)) as [b ->]; [apply Hp|].
    cbn. destruct b; [by eexists|]. destruct (Hleave f Hp) as [s' ->]. by eexists.
  - by eapply mutex_lock_total.
  - unfold cond_wait_restore. destruct (lookup_lt_is_Some_2 (sy_mutex_store s) (cf_mutex f)) as [r ->]; [apply Hp|].
    cbn. case_match; by eexists.
Qed.

End Sync.

(** ** Witnesses *)

#[local] Existing Instance tiny_host.
#[local] Existing Instance tiny_host_laws.

Definition noon : ClockReading := mkClockReading 1700000000000000000 5000000000 None.

Definition state_of {A} (default : A) (a : result (outcome sync_pc * A)) : A :=
  match a with Ok (_, s) => s | Throw _ => default end.

(** Thread 1 locks the mutex at 96 and waits for the variable at 104, which
    thread 2 signals. *)
Definition frame_1 : cond_wait_frame := mkFrame 0 0 0 96 1.
Definition sync_0 : sync space := yw_sync (sync_start tiny_buffered).
Definition sync_1 : sync space := state_of sync_0 (sync_call 1 sync_0 (OMutexLock 96)).
Definition sync_2 : sync space :=
  state_of sync_1 (sync_resume 1 noon false sync_1 (CondEnter 104 96 0 cond_infinite)).
Definition sync_3 : sync space := state_of sync_2 (sync_call 2 sync_2 (OCondSignal 104)).

Definition locked_world : sync_world := mkSyncWorld sync_1 (set_pc 1 (Returned 0) ∅).
Definition waiting_world : sync_world := mkSyncWorld sync_2 {[1 := CondBlocked frame_1 None]}.
Definition signaled_world : sync_world := mkSyncWorld sync_3 {[1 := CondBlocked frame_1 None]}.

Lemma lock_step : sync_step (sync_start tiny_buffered) 1 (SyncCalled (OMutexLock 96) (Returned 0)) locked_world.
Proof. by eapply sync_step_call; [..|vm_compute; reflexivity]. Qed.

Lemma locked_reachable : sync_reachable tiny_buffered locked_world.
Proof. eapply sync_reach_step; [apply sync_reach_start|exact lock_step]. Qed.

Lemma waiting_reachable : sync_reachable tiny_buffered waiting_world.
Proof.
  set (w2 := mkSyncWorld sync_1 {[1 := CondEnter 104 96 0 cond_infinite]}).
  set (w3 := mkSyncWorld sync_2 {[1 := CondQueued frame_1 cond_infinite]}).
  apply (sync_reach_step _ w3 1 (SyncResumed (CondQueued frame_1 cond_infinite) (Paused (CondBlocked frame_1 None)))).
  - apply (sync_reach_step _ w2 1 (SyncResumed (CondEnter 104 96 0 cond_infinite) (Paused (CondQueued frame_1 cond_infinite)))).
    + apply (sync_reach_step _ locked_world 1 (SyncCalled (OCondWait 104 96) (Paused (CondEnter 104 96 0 cond_infinite))));
        [exact locked_reachable|].
      by eapply sync_step_call; [..|vm_compute; reflexivity].
    + by eapply sync_step_resume with (now := noon) (expired := false); [|vm_compute; reflexivity].
  - by eapply sync_step_resume with (now := noon) (expired := false); [|vm_compute; reflexivity].
Qed.

Lemma signaled_reachable : sync_reachable tiny_buffered signaled_world.
Proof.
  apply (sync_reach_step _ waiting_world 2 (SyncCalled (OCondSignal 104) (Returned 0)));
    [exact waiting_reachable|].
  by eapply sync_step_call; [..|vm_compute; reflexivity].
Qed.

Lemma mutexes_have_one_owner_witness :
  owner_step 1 (holder_at sync_0 0) (holder_at sync_1 0) /\ holder_at sync_1 0 = Some (1, 1).
Proof.
  split; [|vm_compute; reflexivity].
  destruct (mutexes_have_one_owner tiny_buffered (sync_start tiny_buffered) 1
    (SyncCalled (OMutexLock 96) (Returned 0)) locked_world) as [H _];
    [exact tiny_buffered_ok|apply sync_reach_start|exact lock_step|exact (H 0%nat)].
Defined.

Definition record_1 : MutexRecord := mkMutexRecord true (Some 1) 1 0 kMutexTypeErrorCheck.

Lemma locked_mutex_at : mutex_at sync_1 96 0 record_1.
Proof. exists mutex_first. split_and!; vm_compute; reflexivity. Qed.

Lemma mutex_calls_follow_ownership_witness :
  answers 0 sync_1 (sync_call 2 sync_1 (OMutexUnlock 96)) (Returned kPosixEperm) (Some (1, 1)) /\
  answers 0 sync_1 (sync_call 1 sync_1 (OMutexUnlock 96)) (Returned 0) None.
Proof.
  split.
  - destruct (mutex_calls_follow_ownership tiny_buffered locked_world 96 0%nat record_1 2) as (_ & H & _);
      [exact tiny_buffered_ok|exact locked_reachable|exact locked_mutex_at|done|exact H].
  - destruct (mutex_calls_follow_ownership tiny_buffered locked_world 96 0%nat record_1 1) as (_ & H & _);
      [exact tiny_buffered_ok|exact locked_reachable|exact locked_mutex_at|done|exact H].
Defined.

Lemma no_signal_is_lost_witness :
  exists s', cond_signal sync_2 104 = Ok (0, s') /\ signals sync_2 0 [0%nat] [] s'.
Proof.
  destruct (no_signal_is_lost tiny_buffered waiting_world) as (_ & H & _);
    [exact tiny_buffered_ok|exact waiting_reachable|].
  destruct (H 104 0%nat (mkCondRecord [0%nat] 0)) as (_ & Hs & _); [|done|exact Hs].
  exists cond_first. split_and!; vm_compute; reflexivity.
Defined.


Lemma sync_sections_return_witness :
  exists a, sync_resume 1 noon true sync_3 (CondBlocked frame_1 None) = Ok a.
Proof.
  destruct (sync_sections_return tiny_buffered signaled_world noon) as [_ H];
    [exact tiny_buffered_ok|exact signaled_reachable|split; cbn; [lia|lia|done]|split; vm_compute; reflexivity|].
  by apply (H 1 (CondBlocked frame_1 None) true).
Defined.
