(* ===== verification/Pm4.v ===== *)
(** * PM4 command streams

    [src/include/nyxora/gpu/pm4.hpp] and [src/src/gpu/pm4.cpp]: the decoder
    that cuts a stream of 32-bit words into packets, the register state of a
    queue and the processor that turns the packets into commands.

    A [Decoder] is its stream and its cursor; [next] and the two loops over it
    are fuelled by the length of the stream ([decode_loop], [process_loop] give
    [None] when the fuel ends, and [decode_all_terminates] and
    [process_terminates] show that they never do).  A thrown exception is a
    [Throw]; [process] then leaves the processor as it was. *)

From S2P Require Import Prelude.

Local Open Scope Z_scope.

(** ** Data *)

Inductive PacketType : Type := type0 | type1 | type2 | type3.

Inductive Type3Opcode : Type :=
| op_nop | op_dispatch_direct | op_draw_index_auto | op_num_instances
| op_set_config_reg | op_set_context_reg | op_set_sh_reg | op_set_uconfig_reg.

Inductive QueueType : Type := graphics | compute.

Inductive ShaderStage : Type := stage_vertex | stage_pixel | stage_compute.

Inductive RegisterSpace : Type :=
| space_type0 | space_config | space_context
| space_shader_graphics | space_shader_compute | space_uconfig.

#[export] Instance PacketType_eq_dec : EqDecision PacketType.
Proof. solve_decision. Defined.
#[export] Instance QueueType_eq_dec : EqDecision QueueType.
Proof. solve_decision. Defined.
#[export] Instance RegisterSpace_eq_dec : EqDecision RegisterSpace.
Proof. solve_decision. Defined.

Record PacketView : Type := mkPacketView {
  type : PacketType;
  header : Z;
  type0_base : Z;
  type3_opcode : Z;
  predicate : bool;
  compute_bit : bool;
  payload : list Z;
}.

Record Decoder : Type := mkDecoder { stream_ : list Z; cursor_ : nat }.

Record RegisterWrite : Type := mkRegisterWrite {
  rw_space : RegisterSpace; rw_address : Z; rw_value : Z }.

Record SetNumInstances : Type := mkSetNumInstances { sni_count : Z }.

Record ShaderProgram : Type := mkShaderProgram {
  sp_stage : ShaderStage;
  sp_address : Z;
  sp_resource1 : option Z;
  sp_resource2 : option Z }.

Record DrawIndexAuto : Type := mkDrawIndexAuto {
  draw_index_count : Z;
  draw_initiator : Z;
  draw_vertex_shader : option ShaderProgram;
  draw_pixel_shader : option ShaderProgram }.

Record DispatchDirect : Type := mkDispatchDirect {
  dispatch_groups_x : Z;
  dispatch_groups_y : Z;
  dispatch_groups_z : Z;
  dispatch_initiator : Z;
  dispatch_compute_shader : option ShaderProgram }.

Inductive Command : Type :=
| CRegisterWrite (c : RegisterWrite)
| CSetNumInstances (c : SetNumInstances)
| CDrawIndexAuto (c : DrawIndexAuto)
| CDispatchDirect (c : DispatchDirect).

Record Submission : Type := mkSubmission {
  dwords_consumed : Z;
  packets_decoded : Z;
  commands : list Command }.

Record State : Type := mkState {
  registers_ : list (gmap Z Z);
  num_instances_ : option Z }.

Record Processor : Type := mkProcessor { queue_type_ : QueueType; state_ : State }.

(** ** Register windows *)

Definition config_start := 0x2000.
Definition config_end := 0x2c00.
Definition shader_start := 0x2c00.
Definition shader_end := 0x3000.
Definition context_start := 0xa000.
Definition context_end := 0xa400.
Definition uconfig_start := 0xc000.
Definition uconfig_end := 0xc400.

Record ShaderRegisters : Type := mkShaderRegisters {
  sr_space : RegisterSpace;
  sr_program_lo : Z;
  sr_program_hi : Z;
  sr_resource1 : Z;
  sr_resource2 : Z }.

Definition shader_registers (stage : ShaderStage) : ShaderRegisters :=
  match stage with
  | stage_vertex => mkShaderRegisters space_shader_graphics 0x2c48 0x2c49 0x2c4a 0x2c4b
  | stage_pixel => mkShaderRegisters space_shader_graphics 0x2c08 0x2c09 0x2c0a 0x2c0b
  | stage_compute => mkShaderRegisters space_shader_compute 0x2e0c 0x2e0d 0x2e12 0x2e13
  end.

(** ** The decoder *)

Definition packet_type_of (header : Z) : PacketType :=
  match Z.land (Z.shiftr header 30) 3 with
  | 0 => type0 | 1 => type1 | 2 => type2 | _ => type3
  end.

Definition done (d : Decoder) : bool := (cursor_ d =? length (stream_ d))%nat.

(** Payload words that follow a header; type-1 packets are refused. *)
Definition payload_words_of (header : Z) : result nat :=
  match packet_type_of header with
  | type0 | type3 => Ok (Z.to_nat (Z.land (Z.shiftr header 16) 0x3fff + 1))
  | type2 => Ok O
  | type1 => Throw (runtime_error "PM4 type-1 packets are not supported yet")
  end.

(** The packet whose fields are cut out of its header. *)
Definition packet_of (header : Z) (payload : list Z) : PacketView :=
  let type := packet_type_of header in
  {| type := type;
     header := header;
     type0_base := if bool_decide (type = type0) then Z.land header 0xffff else 0;
     type3_opcode :=
       if bool_decide (type = type3) then Z.land (Z.shiftr header 8) 0xff else 0;
     predicate := bool_decide (type = type3) && negb (Z.land header 1 =? 0);
     compute_bit := bool_decide (type = type3) && negb (Z.land header 2 =? 0);
     payload := payload |}.

Definition next (d : Decoder) : result (PacketView * Decoder) :=
  throw_if (done d) (out_of_range "PM4 decoder is at end of stream") ;;
  match stream_ d !! cursor_ d with
  | None => Throw (undefined_behaviour "stream_[cursor_]")
  | Some header =>
      payload_words ← payload_words_of header;
      let remaining := (length (stream_ d) - cursor_ d - 1)%nat in
      throw_if (remaining <? payload_words)%nat (runtime_error "truncated PM4 packet") ;;
      let payload := take payload_words (drop (cursor_ d + 1) (stream_ d)) in
      Ok (packet_of header payload,
          mkDecoder (stream_ d) (cursor_ d + (1 + payload_words)))
  end.

Fixpoint decode_loop (fuel : nat) (d : Decoder) (packets : list PacketView)
  : option (result (list PacketView)) :=
  match fuel with
  | O => None
  | S fuel =>
      if done d then Some (Ok packets)
      else match next d with
           | Throw e => Some (Throw e)
           | Ok (packet, d) => decode_loop fuel d (packets ++ [packet])
           end
  end.

Definition decode_all (stream : list Z) : option (result (list PacketView)) :=
  decode_loop (S (length stream)) (mkDecoder stream 0) [].

(** ** The register state *)

Definition index (space : RegisterSpace) : nat :=
  match space with
  | space_type0 => 0 | space_config => 1 | space_context => 2
  | space_shader_graphics => 3 | space_shader_compute => 4 | space_uconfig => 5
  end.

Definition State_init : State := mkState (replicate 6 ∅) None.

Definition register_map (s : State) (space : RegisterSpace) : gmap Z Z :=
  default ∅ (registers_ s !! index space).

Definition register_value (s : State) (space : RegisterSpace) (address : Z) : option Z :=
  register_map s space !! address.

Definition register_count (s : State) (space : RegisterSpace) : nat :=
  size (register_map s space).

Definition shader_program (s : State) (stage : ShaderStage) : result (option ShaderProgram) :=
  let r := shader_registers stage in
  let lo := register_value s (sr_space r) (sr_program_lo r) in
  let hi := register_value s (sr_space r) (sr_program_hi r) in
  match lo, hi with
  | None, None => Ok None
  | Some lo, Some hi =>
      let encoded_address := Z.lor (Z.shiftl (Z.land hi 0xff) 32) lo in
      Ok (Some {| sp_stage := stage;
                  sp_address := wrap64 (Z.shiftl encoded_address 8);
                  sp_resource1 := register_value s (sr_space r) (sr_resource1 r);
                  sp_resource2 := register_value s (sr_space r) (sr_resource2 r) |})
  | _, _ => Throw (runtime_error "incomplete PM4 shader program address")
  end.

Definition apply (s : State) (command : Command) : State :=
  match command with
  | CRegisterWrite w =>
      mkState (<[index (rw_space w) := <[rw_address w := rw_value w]>
                                          (register_map s (rw_space w))]> (registers_ s))
              (num_instances_ s)
  | CSetNumInstances c => mkState (registers_ s) (Some (sni_count c))
  | CDrawIndexAuto _ | CDispatchDirect _ => s
  end.

(** ** The processor *)

Definition opcode_of (packet : PacketView) : option Type3Opcode :=
  match type3_opcode packet with
  | 0x10 => Some op_nop
  | 0x15 => Some op_dispatch_direct
  | 0x2d => Some op_draw_index_auto
  | 0x2f => Some op_num_instances
  | 0x68 => Some op_set_config_reg
  | 0x69 => Some op_set_context_reg
  | 0x76 => Some op_set_sh_reg
  | 0x79 => Some op_set_uconfig_reg
  | _ => None
  end.

Definition require_payload (packet : PacketView) (expected : nat) : result unit :=
  throw_if (negb (length (payload packet) =? expected)%nat)
    (runtime_error ("invalid PM4 type-3 payload size for opcode " +:+
                    pretty (type3_opcode packet))).

Definition require_unpredicated (packet : PacketView) : result unit :=
  throw_if (predicate packet)
    (runtime_error "predicated PM4 packets require predication state").

(** [packet.payload[i]] after the payload size has been checked. *)
Definition payload_at (packet : PacketView) (i : nat) : Z := nth i (payload packet) 0.

Definition append_register_writes (packet : PacketView) (space : RegisterSpace)
    (range_start range_end : Z) (commands : list Command) : result (list Command) :=
  throw_if (length (payload packet) <? 2)%nat
    (runtime_error "PM4 set-register packet has no register values") ;;
  throw_if (negb (Z.land (payload_at packet 0) 0xffff0000 =? 0))
    (runtime_error "indexed PM4 set-register packets are not supported yet") ;;
  let offset := payload_at packet 0 in
  let value_count := zlen (payload packet) - 1 in
  throw_if ((range_end - range_start <=? offset)
            || (range_end - range_start - offset <? value_count))
    (runtime_error "PM4 set-register packet exceeds its register window") ;;
  let first := wrap32 (range_start + offset) in
  Ok (commands ++
      imap (fun i value => CRegisterWrite
              {| rw_space := space; rw_address := wrap32 (first + Z.of_nat i);
                 rw_value := value |})
        (drop 1 (payload packet))).

(** The [switch] over one decoded packet: the commands with the new ones
    appended. *)
Definition packet_commands (queue_type : QueueType) (working_state : State)
    (packet : PacketView) (commands : list Command) : result (list Command) :=
  match type packet with
  | type0 =>
      throw_if (wrap32 (0x10000 - type0_base packet) <? zlen (payload packet))
        (runtime_error "PM4 type-0 packet exceeds the register address space") ;;
      Ok (commands ++
          imap (fun i value => CRegisterWrite
                  {| rw_space := space_type0;
                     rw_address := wrap32 (type0_base packet + Z.of_nat i);
                     rw_value := value |}) (payload packet))
  | type2 => Ok commands
  | type1 => Throw (runtime_error "PM4 type-1 packets are not supported yet")
  | type3 =>
      match opcode_of packet with
      | Some op_nop => Ok commands
      | Some op_set_config_reg =>
          require_unpredicated packet ;;
          append_register_writes packet space_config config_start config_end commands
      | Some op_set_context_reg =>
          require_unpredicated packet ;;
          append_register_writes packet space_context context_start context_end commands
      | Some op_set_sh_reg =>
          require_unpredicated packet ;;
          append_register_writes packet
            (if bool_decide (queue_type = compute) || compute_bit packet
             then space_shader_compute else space_shader_graphics)
            shader_start shader_end commands
      | Some op_set_uconfig_reg =>
          require_unpredicated packet ;;
          append_register_writes packet space_uconfig uconfig_start uconfig_end commands
      | Some op_num_instances =>
          require_unpredicated packet ;;
          throw_if (bool_decide (queue_type <> graphics) || compute_bit packet)
            (runtime_error "NUM_INSTANCES is only supported on the graphics path") ;;
          require_payload packet 1 ;;
          Ok (commands ++ [CSetNumInstances {| sni_count := payload_at packet 0 |}])
      | Some op_draw_index_auto =>
          require_unpredicated packet ;;
          throw_if (bool_decide (queue_type <> graphics) || compute_bit packet)
            (runtime_error "DRAW_INDEX_AUTO is only supported on the graphics path") ;;
          require_payload packet 2 ;;
          vertex ← shader_program working_state stage_vertex;
          pixel ← shader_program working_state stage_pixel;
          Ok (commands ++
              [CDrawIndexAuto {| draw_index_count := payload_at packet 0;
                                 draw_initiator := payload_at packet 1;
                                 draw_vertex_shader := vertex;
                                 draw_pixel_shader := pixel |}])
      | Some op_dispatch_direct =>
          require_unpredicated packet ;;
          require_payload packet 4 ;;
          shader ← shader_program working_state stage_compute;
          Ok (commands ++
              [CDispatchDirect {| dispatch_groups_x := payload_at packet 0;
                                  dispatch_groups_y := payload_at packet 1;
                                  dispatch_groups_z := payload_at packet 2;
                                  dispatch_initiator := payload_at packet 3;
                                  dispatch_compute_shader := shader |}])
      | None =>
          Throw (runtime_error ("unsupported PM4 type-3 opcode " +:+
                                pretty (type3_opcode packet)))
      end
  end.

(** One turn of the loop of [Processor::process] on a decoded packet. *)
Definition process_packet (queue_type : QueueType) (packet : PacketView)
    (working_state : State) (submission : Submission) : result (State * Submission) :=
  let first_new_command := length (commands submission) in
  cs ← packet_commands queue_type working_state packet (commands submission);
  Ok (foldl apply working_state (drop first_new_command cs),
      mkSubmission (dwords_consumed submission) (packets_decoded submission + 1) cs).

Fixpoint process_loop (fuel : nat) (queue_type : QueueType) (d : Decoder)
    (working_state : State) (submission : Submission)
  : option (result (State * Submission)) :=
  match fuel with
  | O => None
  | S fuel =>
      if done d then Some (Ok (working_state, submission))
      else match next d with
           | Throw e => Some (Throw e)
           | Ok (packet, d) =>
               match process_packet queue_type packet working_state submission with
               | Throw e => Some (Throw e)
               | Ok (working_state, submission) =>
                   process_loop fuel queue_type d working_state submission
               end
           end
  end.

(** [Processor::process]: the outcome and the processor after the call. *)
Definition process (p : Processor) (stream : list Z)
  : option (result Submission) * Processor :=
  match process_loop (S (length stream)) (queue_type_ p) (mkDecoder stream 0) (state_ p)
          (mkSubmission (zlen stream) 0 []) with
  | None => (None, p)
  | Some (Throw e) => (Some (Throw e), p)
  | Some (Ok (working_state, submission)) =>
      (Some (Ok submission), mkProcessor (queue_type_ p) working_state)
  end.

Definition reset (p : Processor) : Processor := mkProcessor (queue_type_ p) State_init.

(** ** Packets and their encoding *)

#[local] Arguments packet_of : simpl never.
#[local] Arguments payload_words_of : simpl never.
#[local] Arguments append_register_writes : simpl never.
#[local] Arguments shader_program : simpl never.

(** A packet as [next] produces it: its fields are those of its header, which
    announces the length of its payload. *)
Definition wf_packet (p : PacketView) : Prop :=
  p = packet_of (header p) (payload p) /\
  payload_words_of (header p) = Ok (length (payload p)).

(** The words a packet occupies in the stream. *)
Definition encode_packet (p : PacketView) : list Z := header p :: payload p.

(** What is left of the stream. *)
Definition rest (d : Decoder) : list Z := drop (cursor_ d) (stream_ d).

Lemma done_rest d :
  (cursor_ d <= length (stream_ d))%nat -> done d = true <-> rest d = [].
Proof.
  intros Hd. unfold done, rest. rewrite Nat.eqb_eq. split.
  - intros ->. apply drop_all.
  - intros H%(f_equal length). rewrite length_drop in H. cbn in H. lia.
Qed.

Lemma payload_words_no_ub h : ~ is_ub (payload_words_of h).
Proof. unfold payload_words_of. case_match; auto with no_ub. Qed.

(** A turn of a loop over the decoder moves the cursor forward, inside the
    stream. *)
Definition advanced (d d' : Decoder) : Prop :=
  stream_ d' = stream_ d /\ (cursor_ d < cursor_ d' <= length (stream_ d))%nat.

Lemma next_sound d p d' :
  next d = Ok (p, d') ->
  wf_packet p /\ rest d = encode_packet p ++ rest d' /\ advanced d d'.
Proof.
  destruct d as [s c]. unfold next, rest, wf_packet, encode_packet, advanced.
  cbn [cursor_ stream_]. intros H. inv_result. case_match eqn:Hh; inv_result.
  rename r into n. apply Nat.ltb_ge in Hr1. pose proof (lookup_lt_Some _ _ _ Hh).
  assert (length (take n (drop (c + 1) s)) = n) as Hl.
  { rewrite length_take, length_drop. lia. }
  cbn [header payload packet_of cursor_ stream_]. rewrite !Hl. split_and!; try done; try lia.
  rewrite (drop_S _ z c) by done. f_equal. rewrite Nat.add_1_r.
  rewrite <- (take_drop n (drop (S c) s)) at 1. f_equal. rewrite drop_drop. f_equal. lia.
Qed.

Lemma next_encoded d p l :
  wf_packet p -> rest d = encode_packet p ++ l ->
  exists d', next d = Ok (p, d') /\ rest d' = l.
Proof.
  destruct d as [s c]. unfold next, rest, wf_packet, encode_packet.
  cbn [cursor_ stream_]. intros [Hp Hw] Hs.
  assert (s !! c = Some (header p)) as Hh.
  { rewrite <- (Nat.add_0_r c), <- lookup_drop, Hs. done. }
  pose proof (lookup_lt_Some _ _ _ Hh).
  rewrite (drop_S _ (header p) c) in Hs by done. injection Hs as Hs.
  assert (length (drop (S c) s) = length (payload p) + length l)%nat as Hlen
    by (by rewrite Hs, length_app). rewrite length_drop in Hlen.
  unfold done. cbn [cursor_ stream_].
  destruct (Nat.eqb_spec c (length s)); [lia|]. cbn. rewrite Hh, Hw. cbn.
  destruct (Nat.ltb_spec (length s - c - 1) (length (payload p))); [lia|]. cbn.
  rewrite Nat.add_1_r, Hs, take_app_length, <- Hp. eexists. split; [done|]. cbn.
  replace (c + S (length (payload p)))%nat with (S c + length (payload p))%nat by lia.
  by rewrite <- drop_drop, Hs, drop_app_length.
Qed.

Lemma next_no_ub d :
  (cursor_ d <= length (stream_ d))%nat -> done d = false -> ~ is_ub (next d).
Proof.
  intros Hd Hn. unfold next. rewrite Hn. cbn. unfold done in Hn. apply Nat.eqb_neq in Hn.
  destruct (lookup_lt_is_Some_2 (stream_ d) (cursor_ d)) as [h ->]; [lia|].
  apply bind_no_ub; [apply payload_words_no_ub|].
  intros n _. apply bind_no_ub; auto with no_ub.
Qed.

(** Fuel that lasts to the end of the stream. *)
Definition enough (fuel : nat) (d : Decoder) : Prop :=
  (cursor_ d <= length (stream_ d) < cursor_ d + fuel)%nat.

Lemma enough_advanced fuel d d' :
  enough (S fuel) d -> advanced d d' -> enough fuel d'.
Proof. unfold enough, advanced. intros ? [-> ?]. lia. Qed.

Lemma enough_pos fuel d : enough fuel d -> exists n, fuel = S n.
Proof. unfold enough. destruct fuel; [lia|eauto]. Qed.

(** The decoder stands before the encoding of a list of packets. *)
Definition encodes (ps : list PacketView) (d : Decoder) : Prop :=
  rest d = ps ≫= encode_packet /\ Forall wf_packet ps.

Lemma encodes_nil d : (cursor_ d <= length (stream_ d))%nat -> encodes [] d <-> done d = true.
Proof. intros. rewrite done_rest by done. split; [by intros [? _]|by split]. Qed.

Lemma encodes_cons p ps d :
  encodes (p :: ps) d -> exists d', next d = Ok (p, d') /\ encodes ps d'.
Proof.
  intros [Hr Hw]. inversion Hw; subst. destruct (next_encoded d p (ps ≫= encode_packet))
    as (d' & Hn & Hd'); [done..|]. by exists d'.
Qed.

Lemma encodes_next p ps d d' :
  next d = Ok (p, d') -> encodes ps d' -> encodes (p :: ps) d.
Proof.
  intros (Hw & Hr & _)%next_sound [Hps Hws]. split; [|by constructor].
  by rewrite Hr, Hps.
Qed.

Lemma decode_loop_sound fuel d acc packets :
  enough fuel d -> decode_loop fuel d acc = Some (Ok packets) ->
  exists ps, packets = acc ++ ps /\ encodes ps d.
Proof.
  revert d acc. induction fuel as [|fuel IH]; intros d acc Hf; cbn; [done|].
  destruct (done d) eqn:Hn.
  { intros [= <-]. exists []. rewrite app_nil_r. split; [done|].
    apply encodes_nil; [apply Hf|done]. }
  destruct (next d) as [[p d']|e] eqn:Hx; [|done].
  intros (ps & -> & Hps)%IH.
  - exists (p :: ps). rewrite <- app_assoc. split; [done|]. by eapply encodes_next.
  - apply next_sound in Hx as (_ & _ & ?). by eapply enough_advanced.
Qed.

Lemma decode_loop_complete ps fuel d acc :
  enough fuel d -> encodes ps d -> decode_loop fuel d acc = Some (Ok (acc ++ ps)).
Proof.
  revert fuel d acc. induction ps as [|p ps IH]; intros fuel d acc Hf Hps;
    destruct (enough_pos _ _ Hf) as [n ->]; cbn.
  - rewrite encodes_nil in Hps by apply Hf. by rewrite Hps, app_nil_r.
  - destruct (done d) eqn:Hd.
    { apply done_rest in Hd; [|apply Hf]. destruct Hps as [Hps _]. by rewrite Hd in Hps. }
    apply encodes_cons in Hps as (d' & Hn & Hps). rewrite Hn.
    apply next_sound in Hn as (_ & _ & ?).
    rewrite IH; [by rewrite <- app_assoc|by eapply enough_advanced|done].
Qed.

Lemma decode_loop_total fuel d acc :
  enough fuel d -> exists r, decode_loop fuel d acc = Some r /\ ~ is_ub r.
Proof.
  revert d acc. induction fuel as [|fuel IH]; intros d acc Hf.
  { by destruct (enough_pos _ _ Hf). }
  cbn. destruct (done d) eqn:Hd; [eauto with no_ub|].
  destruct (next d) as [[p d']|e] eqn:Hx.
  - apply next_sound in Hx as (_ & _ & ?). by eapply IH, enough_advanced.
  - eexists. split; [done|]. intros [w [= ->]].
    destruct (next_no_ub d); [apply Hf|done|by exists w].
Qed.

Lemma enough_start stream : enough (S (length stream)) (mkDecoder stream 0).
Proof. unfold enough. cbn. lia. Qed.
#[export] Hint Resolve enough_start : core.

Lemma decode_all_Ok stream packets :
  decode_all stream = Some (Ok packets) <-> encodes packets (mkDecoder stream 0).
Proof.
  unfold decode_all. split.
  - intros (ps & -> & Hps)%decode_loop_sound; [done|auto].
  - intros H. by rewrite (decode_loop_complete packets).
Qed.

Lemma encodes_start ps stream :
  encodes ps (mkDecoder stream 0) <-> stream = ps ≫= encode_packet /\ Forall wf_packet ps.
Proof. done. Qed.

(** ** The processor as decoding followed by execution *)

(** The packets of a submission, executed in order. *)
Fixpoint run_packets (queue_type : QueueType) (packets : list PacketView)
    (working_state : State) (submission : Submission) : result (State * Submission) :=
  match packets with
  | [] => Ok (working_state, submission)
  | packet :: packets =>
      '(working_state, submission) ← process_packet queue_type packet working_state submission;
      run_packets queue_type packets working_state submission
  end.

Lemma process_loop_sound fuel q d ws sub r :
  enough fuel d -> process_loop fuel q d ws sub = Some (Ok r) ->
  exists ps, encodes ps d /\ run_packets q ps ws sub = Ok r.
Proof.
  revert d ws sub. induction fuel as [|fuel IH]; intros d ws sub Hf; cbn; [done|].
  destruct (done d) eqn:Hn.
  { intros [= <-]. exists []. split; [|done]. apply encodes_nil; [apply Hf|done]. }
  destruct (next d) as [[p d']|e] eqn:Hx; [|done].
  destruct (process_packet _ _ _ _) as [[ws' sub']|e] eqn:Hp; [|done].
  intros (ps & Hps & Hr)%IH.
  - exists (p :: ps). split; [by eapply encodes_next|]. cbn. by rewrite Hp.
  - apply next_sound in Hx as (_ & _ & ?). by eapply enough_advanced.
Qed.

Lemma process_loop_complete ps fuel q d ws sub :
  enough fuel d -> encodes ps d ->
  process_loop fuel q d ws sub = Some (run_packets q ps ws sub).
Proof.
  revert fuel d ws sub. induction ps as [|p ps IH]; intros fuel d ws sub Hf Hps;
    destruct (enough_pos _ _ Hf) as [n ->]; cbn.
  - rewrite encodes_nil in Hps by apply Hf. by rewrite Hps.
  - destruct (done d) eqn:Hd.
    { apply done_rest in Hd; [|apply Hf]. destruct Hps as [Hps _]. by rewrite Hd in Hps. }
    apply encodes_cons in Hps as (d' & Hn & Hps). rewrite Hn.
    apply next_sound in Hn as (_ & _ & ?).
    destruct (process_packet _ _ _ _) as [[ws' sub']|e] eqn:Hp; cbn; [|done].
    apply IH; [by eapply enough_advanced|done].
Qed.

Lemma shader_program_no_ub s stage : ~ is_ub (shader_program s stage).
Proof. unfold shader_program. repeat case_match; auto with no_ub. Qed.

Lemma append_register_writes_no_ub p sp a b cs : ~ is_ub (append_register_writes p sp a b cs).
Proof.
  unfold append_register_writes. repeat (apply bind_no_ub; [auto with no_ub|intros ? _]).
  auto with no_ub.
Qed.

#[local] Hint Resolve shader_program_no_ub append_register_writes_no_ub : no_ub.

Lemma process_packet_no_ub q p ws sub : ~ is_ub (process_packet q p ws sub).
Proof.
  unfold process_packet. apply bind_no_ub; [|auto with no_ub].
  unfold packet_commands, require_payload, require_unpredicated.
  repeat (case_match || (apply bind_no_ub; [auto with no_ub|intros ? _]));
    auto with no_ub.
Qed.

Lemma process_loop_total fuel q d ws sub :
  enough fuel d -> exists r, process_loop fuel q d ws sub = Some r /\ ~ is_ub r.
Proof.
  revert d ws sub. induction fuel as [|fuel IH]; intros d ws sub Hf.
  { by destruct (enough_pos _ _ Hf). }
  cbn. destruct (done d) eqn:Hd; [eauto with no_ub|].
  destruct (next d) as [[p d']|e] eqn:Hx.
  - apply next_sound in Hx as (_ & _ & ?).
    destruct (process_packet _ _ _ _) as [[ws' sub']|e] eqn:Hp.
    + by eapply IH, enough_advanced.
    + eexists. split; [done|]. intros [w [= ->]].
      destruct (process_packet_no_ub q p ws sub). by exists w.
  - eexists. split; [done|]. intros [w [= ->]].
    destruct (next_no_ub d); [apply Hf|done|by exists w].
Qed.

Lemma run_packets_app q ps1 ps2 ws sub :
  run_packets q (ps1 ++ ps2) ws sub =
  '(ws, sub) ← run_packets q ps1 ws sub; run_packets q ps2 ws sub.
Proof.
  revert ws sub. induction ps1 as [|p ps1 IH]; intros ws sub; cbn; [done|].
  destruct (process_packet q p ws sub) as [[ws' sub']|e]; cbn; [apply IH|done].
Qed.

(** A successful call, packet by packet. *)
Lemma process_Ok p stream sub p' :
  process p stream = (Some (Ok sub), p') <->
  exists ps ws, stream = ps ≫= encode_packet /\ Forall wf_packet ps /\
    run_packets (queue_type_ p) ps (state_ p) (mkSubmission (zlen stream) 0 [])
      = Ok (ws, sub) /\
    p' = mkProcessor (queue_type_ p) ws.
Proof.
  unfold process. split.
  - destruct (process_loop _ _ _ _ _) as [[[ws sub']|e]|] eqn:Hl; intros [= <- <-].
    apply process_loop_sound in Hl as (ps & [? ?] & Hr); [|auto].
    by exists ps, ws.
  - intros (ps & ws & Hs & Hw & Hr & ->).
    rewrite (process_loop_complete ps); [by rewrite Hr|auto|done].
Qed.

(** ** The commands of a submission *)

(** The commands replayed on a register state. *)
Definition replay (s : State) (cs : list Command) : State := foldl apply s cs.

(** The shader programs a draw or a dispatch carries are those of a state. *)
Definition programs_of (s : State) (c : Command) : Prop :=
  match c with
  | CDrawIndexAuto d =>
      shader_program s stage_vertex = Ok (draw_vertex_shader d) /\
      shader_program s stage_pixel = Ok (draw_pixel_shader d)
  | CDispatchDirect d => shader_program s stage_compute = Ok (dispatch_compute_shader d)
  | _ => True
  end.

(** Every draw and dispatch of a command list carries the programs of the
    state that the commands before it leave. *)
Definition programs_current (s : State) (cs : list Command) : Prop :=
  forall i c, cs !! i = Some c -> programs_of (replay s (take i cs)) c.

(** The invariant that relates the processor's working state to the commands
    it has emitted since the start state [s0]. *)
Definition tracks (s0 : State) (ws : State) (sub : Submission) : Prop :=
  ws = replay s0 (commands sub) /\ programs_current s0 (commands sub).

Lemma replay_app s cs1 cs2 : replay s (cs1 ++ cs2) = replay (replay s cs1) cs2.
Proof. apply foldl_app. Qed.

(** The new commands of a packet are either all register writes and counters,
    or one command that carries the programs of the working state. *)
Definition batch_of (ws : State) (new : list Command) : Prop :=
  (forall c s, c ∈ new -> programs_of s c) \/ exists c, new = [c] /\ programs_of ws c.

Lemma register_batch {A} ws (f : nat -> A -> RegisterWrite) l :
  batch_of ws (imap (fun i v => CRegisterWrite (f i v)) l).
Proof.
  left. intros c s (i & x & -> & _)%elem_of_lookup_imap_1. done.
Qed.

#[local] Hint Resolve register_batch : core.

Lemma append_register_writes_batch p space a b cs r ws :
  append_register_writes p space a b cs = Ok r ->
  exists new, r = cs ++ new /\ batch_of ws new.
Proof. unfold append_register_writes. intros H. inv_result. eexists. split; [done|auto]. Qed.

Lemma packet_commands_batch q ws p cs r :
  packet_commands q ws p cs = Ok r -> exists new, r = cs ++ new /\ batch_of ws new.
Proof.
  assert (exists new, cs = cs ++ new /\ batch_of ws new).
  { exists []. rewrite app_nil_r. split; [done|]. left. by intros c s ?%elem_of_nil. }
  unfold packet_commands, require_unpredicated, require_payload. intros H'.
  repeat case_match; inv_result; try done;
    try (by eapply append_register_writes_batch);
    (eexists; split; [done|]); auto; right; eexists; split; done.
Qed.

Lemma programs_current_app s cs new :
  programs_current s cs -> batch_of (replay s cs) new -> programs_current s (cs ++ new).
Proof.
  intros Hcs Hnew i c Hi. destruct (decide (i < length cs)%nat) as [Hl|Hl].
  - rewrite lookup_app_l in Hi by done. rewrite take_app_le by lia. by apply Hcs.
  - rewrite lookup_app_r in Hi by lia. destruct Hnew as [Hnew|(c' & -> & Hc)].
    + apply Hnew. by apply list_elem_of_lookup_2 in Hi.
    + apply list_lookup_singleton_Some in Hi as [Hi ->].
      replace i with (length cs) by lia. by rewrite take_app_length.
Qed.

Lemma process_packet_tracks q p s0 ws sub ws' sub' :
  process_packet q p ws sub = Ok (ws', sub') -> tracks s0 ws sub -> tracks s0 ws' sub'.
Proof.
  unfold process_packet, tracks. intros H [-> Hc]. inv_result. cbn.
  apply packet_commands_batch in Hr as (new & -> & Hb).
  rewrite drop_app_length. split; [by rewrite replay_app|]. by apply programs_current_app.
Qed.

Lemma run_packets_tracks q ps s0 ws sub ws' sub' :
  run_packets q ps ws sub = Ok (ws', sub') -> tracks s0 ws sub -> tracks s0 ws' sub'.
Proof.
  revert ws sub. induction ps as [|p ps IH]; intros ws sub H Ht; cbn in H; inv_result; [done|].
  destruct r as [ws1 sub1]. eapply IH; [done|]. by eapply process_packet_tracks.
Qed.

(** Packets cut from the front of a stream are the packets of its prefix. *)
Lemma encode_packet_inj p q l l' :
  wf_packet p -> wf_packet q -> encode_packet p ++ l = encode_packet q ++ l' -> p = q /\ l = l'.
Proof.
  intros [Hp Hp'] [Hq Hq'] H. cbn in H. injection H as Hh H. rewrite Hh, Hq' in Hp'.
  injection Hp' as Hlen. apply app_inj_1 in H as [Hpay ->]; [|done].
  split; [|done]. by rewrite Hp, Hq, Hh, Hpay.
Qed.

Lemma encode_prefix ps1 ps l :
  Forall wf_packet ps1 -> Forall wf_packet ps ->
  (ps1 ≫= encode_packet) ++ l = ps ≫= encode_packet ->
  exists ps2, ps = ps1 ++ ps2 /\ l = ps2 ≫= encode_packet.
Proof.
  intros Hps1. revert ps. induction Hps1 as [|p ps1 Hp Hps1 IH]; intros ps Hps H.
  { by exists ps. }
  destruct Hps as [|q ps Hq Hps]; [done|]. rewrite !bind_cons, <- app_assoc in H.
  apply encode_packet_inj in H as [<- H]; [|done..].
  destruct (IH ps) as (ps2 & -> & ->); [done..|]. by exists ps2.
Qed.

(** Commands already emitted do not influence the packets to come. *)
Definition extend (sub1 sub2 : Submission) : Submission :=
  mkSubmission (dwords_consumed sub1 + dwords_consumed sub2)
    (packets_decoded sub1 + packets_decoded sub2) (commands sub1 ++ commands sub2).

Lemma append_register_writes_extend p sp a b cs cs' :
  append_register_writes p sp a b (cs ++ cs') = app cs <$> append_register_writes p sp a b cs'.
Proof.
  unfold append_register_writes, throw_if. repeat (case_match; cbn; try done).
  by rewrite <- app_assoc.
Qed.

Lemma packet_commands_extend q ws p cs cs' :
  packet_commands q ws p (cs ++ cs') = app cs <$> packet_commands q ws p cs'.
Proof.
  unfold packet_commands, require_unpredicated, require_payload, throw_if.
  rewrite !append_register_writes_extend.
  repeat (case_match; cbn; try done);
    try (destruct (shader_program ws stage_vertex); cbn; [|done]);
    try (destruct (shader_program ws _); cbn; [|done]); by rewrite ?app_assoc.
Qed.

Lemma process_packet_extend q p ws s1 s2 :
  process_packet q p ws (extend s1 s2) =
  (fun r => (r.1, extend s1 r.2)) <$> process_packet q p ws s2.
Proof.
  unfold process_packet. cbn [commands extend]. rewrite packet_commands_extend.
  destruct (packet_commands q ws p (commands s2)) as [cs|e] eqn:Hc; cbn; [|done].
  apply packet_commands_batch in Hc as (new & -> & _).
  rewrite app_assoc, !drop_app_length. unfold extend. cbn.
  by rewrite Z.add_assoc, app_assoc.
Qed.

Lemma run_packets_extend q ps ws s1 s2 :
  run_packets q ps ws (extend s1 s2) =
  (fun r => (r.1, extend s1 r.2)) <$> run_packets q ps ws s2.
Proof.
  revert ws s2. induction ps as [|p ps IH]; intros ws s2; cbn; [done|].
  rewrite process_packet_extend. destruct (process_packet q p ws s2) as [[ws' s']|e]; cbn;
    [apply IH|done].
Qed.

(** ** Registers stay in their windows *)

Definition window (space : RegisterSpace) : Z * Z :=
  match space with
  | space_type0 => (0, 0x10000)
  | space_config => (config_start, config_end)
  | space_context => (context_start, context_end)
  | space_shader_graphics | space_shader_compute => (shader_start, shader_end)
  | space_uconfig => (uconfig_start, uconfig_end)
  end.

Definition in_window (space : RegisterSpace) (address : Z) : Prop :=
  (window space).1 <= address < (window space).2.

Lemma window_bounds space : 0 <= (window space).1 /\ (window space).2 <= 0x10000.
Proof. destruct space; by split. Qed.

Definition command_wf (c : Command) : Prop :=
  match c with
  | CRegisterWrite w => in_window (rw_space w) (rw_address w) /\ in_u32 (rw_value w)
  | CSetNumInstances c => in_u32 (sni_count c)
  | _ => True
  end.

(** The type invariant of the register state. *)
Record state_wf (s : State) : Prop := {
  wf_spaces : length (registers_ s) = 6%nat;
  wf_registers space a v :
    register_value s space a = Some v -> in_window space a /\ in_u32 v;
  wf_instances n : num_instances_ s = Some n -> in_u32 n;
}.

Lemma index_lt space : (index space < 6)%nat.
Proof. destruct space; cbn; lia. Qed.
Lemma index_inj s1 s2 : index s1 = index s2 -> s1 = s2.
Proof. by destruct s1, s2. Qed.

Lemma State_init_wf : state_wf State_init.
Proof.
  split; [done| |done]. intros space a v. unfold register_value, register_map, State_init.
  cbn [registers_]. rewrite lookup_replicate_2 by apply index_lt. by cbn.
Qed.

(** Reading a register after a command. *)
Lemma register_value_apply s c space a :
  length (registers_ s) = 6%nat ->
  register_value (apply s c) space a =
  match c with
  | CRegisterWrite w =>
      if decide (rw_space w = space /\ rw_address w = a) then Some (rw_value w)
      else register_value s space a
  | _ => register_value s space a
  end.
Proof.
  intros Hl. destruct c as [w| | |]; try done.
  unfold register_value, register_map. cbn [apply registers_].
  destruct (decide (rw_space w = space)) as [<-|Hs].
  - rewrite list_lookup_insert_eq by (rewrite Hl; apply index_lt). cbn.
    destruct (decide (rw_address w = a)) as [<-|Ha].
    + rewrite lookup_insert_eq, decide_True by done. done.
    + rewrite lookup_insert_ne, decide_False by naive_solver. done.
  - rewrite list_lookup_insert_ne, decide_False; [done|naive_solver|].
    intros ?%index_inj. done.
Qed.

Lemma apply_wf s c : state_wf s -> command_wf c -> state_wf (apply s c).
Proof.
  intros [Hl Hr Hn] Hc. split.
  - destruct c; cbn; try done. by rewrite length_insert.
  - intros space a v. rewrite register_value_apply by done.
    destruct c as [w| | |]; try apply Hr. case_decide as Hd; [|apply Hr].
    intros [= <-]. destruct Hd as [<- <-]. apply Hc.
  - destruct c; cbn; try apply Hn. by intros n [= <-].
Qed.

Lemma replay_wf s cs : state_wf s -> Forall command_wf cs -> state_wf (replay s cs).
Proof.
  intros Hs Hcs. revert s Hs. induction Hcs; intros s Hs; cbn; [done|].
  apply IHHcs. by apply apply_wf.
Qed.

Lemma payload_at_u32 p i : Forall in_u32 (payload p) -> in_u32 (payload_at p i).
Proof.
  intros H. unfold payload_at. destruct (nth_in_or_default i (payload p) 0) as [Hi| ->];
    [|unfold in_u32; lia].
  rewrite Forall_forall in H. apply H. by apply list_elem_of_In.
Qed.

(** A run of writes that starts inside a window and fits in it. *)
Lemma register_run_wf space first l :
  in_window space first -> first + zlen l <= (window space).2 -> Forall in_u32 l ->
  Forall command_wf (imap (fun i v => CRegisterWrite
    {| rw_space := space; rw_address := wrap32 (first + Z.of_nat i); rw_value := v |}) l).
Proof.
  intros Hf Hl Hv. apply Forall_forall. intros c (i & v & -> & Hi)%elem_of_lookup_imap_1.
  rewrite Forall_lookup in Hv. split; [|by eapply Hv].
  apply lookup_lt_Some in Hi. cbn [rw_space rw_address]. unfold in_window in *.
  pose proof (window_bounds space). rewrite wrap32_small; [lia|]. unfold in_u32. lia.
Qed.

Lemma append_register_writes_wf p space a b cs r :
  (a, b) = window space -> Forall in_u32 (payload p) -> Forall command_wf cs ->
  append_register_writes p space a b cs = Ok r -> Forall command_wf r.
Proof.
  unfold append_register_writes. intros Hw Hp Hcs H. inv_result. bools.
  apply Forall_app. split; [done|].
  pose proof (payload_at_u32 p 0 Hp) as Hoff. unfold in_u32 in Hoff.
  assert (0 <= a /\ b <= 0x10000) as Hab.
  { pose proof (window_bounds space) as Hb. by rewrite <- Hw in Hb. }
  apply register_run_wf; rewrite <- ?Hw; cbn [fst snd].
  - unfold in_window. rewrite <- Hw. cbn [fst snd].
    rewrite wrap32_small; [lia|]. unfold in_u32; lia.
  - rewrite wrap32_small by (unfold in_u32; lia). rewrite length_drop. lia.
  - by apply Forall_drop.
Qed.

Lemma packet_commands_wf q ws p cs r :
  wf_packet p -> Forall in_u32 (encode_packet p) -> Forall command_wf cs ->
  packet_commands q ws p cs = Ok r -> Forall command_wf r.
Proof.
  intros Hwf Hp Hcs. apply Forall_cons in Hp as [Hh Hp].
  unfold packet_commands, require_unpredicated, require_payload. intros H.
  repeat case_match; inv_result; bools; try done;
    try (by eapply append_register_writes_wf; [|done..]; try destruct q, (compute_bit p));
    apply Forall_app; (split; [done|]); try (by repeat constructor).
  - assert (0 <= type0_base p < 65536) as Hb.
    { destruct Hwf as [Hf _]. rewrite Hf. unfold packet_of. cbn [type0_base].
      case_bool_decide; [|lia]. change 0xffff with (Z.ones 16).
      rewrite Z.land_ones by lia. apply Z.mod_pos_bound. lia. }
    rewrite wrap32_small in Hr by (unfold in_u32; lia).
    apply (register_run_wf space_type0); [|cbn; lia|done]. unfold in_window; cbn; lia.
  - constructor; [|done]. apply (payload_at_u32 p 0 Hp).
Qed.

Lemma run_packets_wf q ps s0 ws sub ws' sub' :
  Forall wf_packet ps -> Forall in_u32 (ps ≫= encode_packet) ->
  run_packets q ps ws sub = Ok (ws', sub') ->
  state_wf ws /\ Forall command_wf (commands sub) /\ tracks s0 ws sub ->
  state_wf ws' /\ Forall command_wf (commands sub').
Proof.
  intros Hps. revert ws sub. induction Hps as [|p ps Hp Hps IH]; intros ws sub Hw H (Hs & Hc & Ht);
    cbn in H; inv_result; [done|].
  rewrite bind_cons, Forall_app in Hw. destruct Hw as [Hwp Hw]. destruct r as [ws1 sub1].
  assert (tracks s0 ws1 sub1) by (by eapply process_packet_tracks; eauto).
  eapply IH; [done..|]. unfold process_packet in Hr. inv_result. cbn.
  assert (Forall command_wf r) by (by eapply packet_commands_wf).
  split_and!; [|done..]. apply replay_wf; [done|]. by apply Forall_drop.
Qed.

(** The address of a shader program: the 40 bits of its two registers, in
    units of 256 bytes. *)
Lemma shader_address s stage prog :
  state_wf s -> shader_program s stage = Ok (Some prog) ->
  exists lo hi,
    register_value s (sr_space (shader_registers stage)) (sr_program_lo (shader_registers stage))
      = Some lo /\
    register_value s (sr_space (shader_registers stage)) (sr_program_hi (shader_registers stage))
      = Some hi /\
    sp_address prog = 256 * (lo + 2 ^ 32 * (hi mod 256)) /\ 0 <= sp_address prog < 2 ^ 48.
Proof.
  unfold shader_program. intros Hs H. case_match eqn:Hlo; [|by case_match].
  case_match eqn:Hhi; [|done]. inv_result. exists z, z0. cbn [sp_address].
  apply (wf_registers _ Hs) in Hlo as [_ Hlo], Hhi as [_ Hhi]. unfold in_u32 in *.
  change 0xff with (Z.ones 8). rewrite Z.land_ones by lia.
  rewrite lor_shiftl_low by (change (2 ^ 32) with 4294967296; lia).
  rewrite Z.shiftl_mul_pow2 by lia. change (2 ^ 8) with 256.
  change (2 ^ 32) with 4294967296. change (2 ^ 48) with 281474976710656.
  pose proof (Z.mod_pos_bound z0 256 ltac:(lia)).
  rewrite wrap64_small by (unfold in_u64; lia). split_and!; [done|done|lia..].
Qed.

(** Both decoding loops end. *)
Lemma process_total p stream :
  exists r p', process p stream = (Some r, p') /\ ~ is_ub r /\
    forall e, r = Throw e -> p' = p.
Proof.
  destruct (process_loop_total (S (length stream)) (queue_type_ p) (mkDecoder stream 0)
    (state_ p) (mkSubmission (zlen stream) 0 [])) as (r & Hr & Hub); [done|].
  unfold process. rewrite Hr. destruct r as [[ws sub]|e]; do 2 eexists; (split; [done|]);
    split; try done; [apply Ok_no_ub|].
  intros [w [= ->]]. apply Hub. by exists w.
Qed.

(** Submitting a stream in two parts is submitting it at once.  When
    the first part is accepted, the whole stream is accepted exactly when
    the second part is accepted on the processor the first one leaves; the
    counters add up, the commands are concatenated and the final processor is
    the same. *)
Lemma process_app p s1 s2 sub1 p1 sub p2 :
  process p s1 = (Some (Ok sub1), p1) ->
  process p (s1 ++ s2) = (Some (Ok sub), p2) <->
  exists sub2, process p1 s2 = (Some (Ok sub2), p2) /\ sub = extend sub1 sub2.
Proof.
  intros (ps1 & ws1 & Hs1 & Hw1 & Hr1 & ->)%process_Ok.
  assert (forall ps2, run_packets (queue_type_ p) (ps1 ++ ps2) (state_ p)
      (mkSubmission (zlen (s1 ++ s2)) 0 []) =
      (fun r => (r.1, extend sub1 r.2)) <$>
      run_packets (queue_type_ p) ps2 ws1 (mkSubmission (zlen s2) 0 [])) as Hrun.
  { intros ps2. rewrite run_packets_app.
    replace (mkSubmission (zlen (s1 ++ s2)) 0 [])
      with (extend (mkSubmission (zlen s2) 0 []) (mkSubmission (zlen s1) 0 []))
      by (unfold extend; cbn; f_equal; rewrite length_app; lia).
    rewrite run_packets_extend, Hr1. cbn. rewrite <- run_packets_extend. f_equal.
    unfold extend. cbn. f_equal; [lia|lia|by rewrite app_nil_r]. }
  rewrite process_Ok. setoid_rewrite process_Ok. cbn [queue_type_ state_]. split.
  - intros (ps & ws & Hs & Hw & Hr & ->). rewrite Hs1 in Hs at 1.
    apply encode_prefix in Hs as (ps2 & -> & ->); [|done..].
    apply Forall_app in Hw as [_ Hw]. rewrite Hrun in Hr. inv_result. destruct r as [ws' sub2]. simplify_eq/=.
    exists sub2. split; [|done]. by exists ps2, ws'.
  - intros (sub2 & (ps2 & ws & -> & Hw & Hr & ->) & ->). exists (ps1 ++ ps2), ws.
    rewrite Hrun, Hr, bind_app, <- Hs1. split_and!; [done|by apply Forall_app|done..].
Qed.

(** A submission reports the length of its stream. *)
Lemma process_dwords p stream sub p' :
  process p stream = (Some (Ok sub), p') -> dwords_consumed sub = zlen stream.
Proof.
  intros (ps & ws & _ & _ & Hr & _)%process_Ok. 
  assert (forall ps ws sub ws' sub', run_packets (queue_type_ p) ps ws sub = Ok (ws', sub') ->
    dwords_consumed sub' = dwords_consumed sub) as H; [|by eapply H in Hr].
  clear. induction ps as [|q ps IH]; intros ws sub ws' sub' H; cbn in H; inv_result; [done|].
  destruct r as [ws1 sub1]. rewrite (IH _ _ _ _ H). unfold process_packet in Hr. by inv_result.
Qed.

(** ** Properties *)


(** the draw and dispatch commands of a submission carry the shader
    programs of the register state at their place in the stream, and the
    processor's state after the call is the state before it with the commands
    replayed. *)
Theorem process_commands_replay p stream sub p' :
  process p stream = (Some (Ok sub), p') ->
  state_ p' = replay (state_ p) (commands sub) /\
  programs_current (state_ p) (commands sub) /\
  queue_type_ p' = queue_type_ p.
Proof.
  intros (ps & ws & _ & _ & Hr & ->)%process_Ok.
  apply (run_packets_tracks _ _ (state_ p)) in Hr as [-> Hc]; [done|].
  split; [done|]. intros i c. cbn. by rewrite lookup_nil.
Qed.


(** both decoding loops end and stay inside the stream.  On every stream
    [decode_all] and [process] return a result or throw one of the exceptions
    of the source, without reading past the stream, and a call that throws
    leaves the processor as it was. *)
Theorem process_terminates p stream :
  (exists r, decode_all stream = Some r /\ ~ is_ub r) /\
  (exists r p', process p stream = (Some r, p') /\ ~ is_ub r /\
    forall e, r = Throw e -> p' = p).
Proof.
  split; [by apply decode_loop_total|apply process_total].
Qed.

(** register writes stay inside their windows.  On a stream of 32-bit
    words a well-formed register state stays well formed: every register of a
    space lies in the window of that space, every emitted write too, and the
    address of a shader program of the state is a multiple of 256 below
    [2^48]. *)
Theorem process_registers_in_windows p stream sub p' :
  state_wf (state_ p) -> Forall in_u32 stream ->
  process p stream = (Some (Ok sub), p') ->
  state_wf (state_ p') /\ Forall command_wf (commands sub) /\
  (forall stage prog, shader_program (state_ p') stage = Ok (Some prog) ->
    0 <= sp_address prog < 2 ^ 48 /\ sp_address prog mod 256 = 0).
Proof.
  intros Hs Hu (ps & ws & -> & Hw & Hr & ->)%process_Ok.
  apply (run_packets_wf _ _ (state_ p)) in Hr as [Hws Hcs]; [|done..|].
  - split; [done|]. split; [done|]. intros stage prog Hp.
    apply shader_address in Hp as (lo & hi & _ & _ & Ha & Hb); [|done].
    split; [done|]. rewrite Ha, Z.mul_comm. by apply Z.mod_mul.
  - split_and!; [done..|]. split; [done|]. intros i c. cbn. by rewrite lookup_nil.
Qed.

(** ** Witnesses *)

(** A vertex shader address, then a draw. *)
Definition sample_setup : list Z := [0xC0027600; 0x48; 0x1234; 0x80000056].
Definition sample_draw : list Z := [0x80000000; 0xC0012D00; 3; 2].

Definition sample_shader : ShaderProgram :=
  mkShaderProgram stage_vertex 0x560000123400 None None.
Definition sample_processor : Processor := mkProcessor graphics State_init.
Definition sample_setup_submission : Submission :=
  mkSubmission 4 1 [CRegisterWrite (mkRegisterWrite space_shader_graphics 0x2c48 0x1234);
                    CRegisterWrite (mkRegisterWrite space_shader_graphics 0x2c49 0x80000056)].
Definition sample_draw_submission : Submission :=
  mkSubmission 4 2 [CDrawIndexAuto (mkDrawIndexAuto 3 2 (Some sample_shader) None)].

Definition sample_state : State :=
  replay State_init (commands sample_setup_submission).

Lemma process_commands_replay_witness :
  process (mkProcessor graphics sample_state) sample_draw =
    (Some (Ok sample_draw_submission), mkProcessor graphics sample_state) /\
  shader_program sample_state stage_vertex = Ok (Some sample_shader).
Proof.
  split; [by vm_compute|].
  destruct (process_commands_replay (mkProcessor graphics sample_state) sample_draw
    sample_draw_submission (mkProcessor graphics sample_state)) as (_ & H & _);
    [by vm_compute|].
  exact (proj1 (H 0%nat _ eq_refl)).
Defined.

Lemma process_registers_in_windows_witness :
  state_wf sample_state /\ 0x560000123400 mod 256 = 0.
Proof.
  destruct (process_registers_in_windows sample_processor sample_setup sample_setup_submission
    (mkProcessor graphics sample_state)) as (H & _ & H');
    [exact State_init_wf|by repeat constructor|by vm_compute|].
  split; [exact H|exact (proj2 (H' stage_vertex sample_shader eq_refl))].
Defined.
