(* ===== verification/GpuBackend.v ===== *)
(** * GPU backends

    [src/include/nyxora/gpu/backend.hpp], [src/src/gpu/backend.cpp] and the
    null backend ([null_backend.hpp], [null_backend.cpp]).

    [Backend] is an abstract class: its two pure virtual [execute_*] methods
    are the typeclass [Executor], and the submission path is proved against
    that interface.  [NullBackend] is the instance the sources provide. *)

From S2P Require Import Prelude Pm4.

Local Open Scope Z_scope.

(** ** The submission path *)

(** The virtual methods a backend implements. *)
Class Executor (I : Type) : Type := {
  execute_graphics : I -> Submission -> I;
  execute_compute : I -> Z -> Submission -> I;
}.

Record Backend (I : Type) : Type := mkBackend {
  graphics_processor_ : Processor;
  compute_processors_ : gmap Z Processor;
  implementation : I;
}.
Arguments mkBackend {I}.
Arguments graphics_processor_ {I}.
Arguments compute_processors_ {I}.
Arguments implementation {I}.

Definition fresh_processor (q : QueueType) : Processor := mkProcessor q State_init.

(** [Processor::process]; it always returns ([process_terminates]). *)
Definition run_process (p : Processor) (stream : list Z) : result Submission * Processor :=
  match process p stream with
  | (Some r, p) => (r, p)
  | (None, p) => (Throw (undefined_behaviour "process does not return"), p)
  end.

Section Submit.
Context {I : Type} `{Executor I}.

Definition Backend_init (i : I) : Backend I :=
  mkBackend (fresh_processor graphics) ∅ i.

Definition submit_graphics (b : Backend I) (command_stream : list Z)
  : result unit * Backend I :=
  match run_process (graphics_processor_ b) command_stream with
  | (Ok submission, p) =>
      (Ok tt, mkBackend p (compute_processors_ b)
                (execute_graphics (implementation b) submission))
  | (Throw e, p) => (Throw e, mkBackend p (compute_processors_ b) (implementation b))
  end.

(** [try_emplace] creates the queue's processor before the stream is
    processed; it stays when the stream is refused. *)
Definition submit_compute (b : Backend I) (queue : Z) (command_stream : list Z)
  : result unit * Backend I :=
  let processor :=
    default (fresh_processor compute) (compute_processors_ b !! queue) in
  match run_process processor command_stream with
  | (Ok submission, p) =>
      (Ok tt, mkBackend (graphics_processor_ b) (<[queue := p]> (compute_processors_ b))
                (execute_compute (implementation b) queue submission))
  | (Throw e, p) =>
      (Throw e, mkBackend (graphics_processor_ b) (<[queue := p]> (compute_processors_ b))
                  (implementation b))
  end.
End Submit.

(** ** The null backend *)

Record SubmissionStats : Type := mkSubmissionStats {
  graphics_submissions : Z;
  compute_submissions : Z;
  stats_dwords_consumed : Z;
  stats_packets_decoded : Z;
  register_writes : Z;
  draw_calls : Z;
  dispatch_calls : Z }.

Record NullBackend : Type := mkNullBackend {
  stats_ : SubmissionStats;
  timeline_ : Z;
  completed_timeline_ : Z }.

Definition NullBackend_init : NullBackend :=
  mkNullBackend (mkSubmissionStats 0 0 0 0 0 0 0) 0 0.

Definition count_command (s : SubmissionStats) (c : Command) : SubmissionStats :=
  match c with
  | CRegisterWrite _ =>
      mkSubmissionStats (graphics_submissions s) (compute_submissions s)
        (stats_dwords_consumed s) (stats_packets_decoded s)
        (wrap64 (register_writes s + 1)) (draw_calls s) (dispatch_calls s)
  | CDrawIndexAuto _ =>
      mkSubmissionStats (graphics_submissions s) (compute_submissions s)
        (stats_dwords_consumed s) (stats_packets_decoded s)
        (register_writes s) (wrap64 (draw_calls s + 1)) (dispatch_calls s)
  | CDispatchDirect _ =>
      mkSubmissionStats (graphics_submissions s) (compute_submissions s)
        (stats_dwords_consumed s) (stats_packets_decoded s)
        (register_writes s) (draw_calls s) (wrap64 (dispatch_calls s + 1))
  | CSetNumInstances _ => s
  end.

Definition account (s : SubmissionStats) (sub : Submission) : SubmissionStats :=
  foldl count_command
    (mkSubmissionStats (graphics_submissions s) (compute_submissions s)
       (wrap64 (stats_dwords_consumed s + dwords_consumed sub))
       (wrap64 (stats_packets_decoded s + packets_decoded sub))
       (register_writes s) (draw_calls s) (dispatch_calls s))
    (commands sub).

Definition null_execute_graphics (n : NullBackend) (sub : Submission) : NullBackend :=
  let s := stats_ n in
  mkNullBackend
    (account (mkSubmissionStats (wrap64 (graphics_submissions s + 1)) (compute_submissions s)
                (stats_dwords_consumed s) (stats_packets_decoded s) (register_writes s)
                (draw_calls s) (dispatch_calls s)) sub)
    (timeline_ n) (completed_timeline_ n).

Definition null_execute_compute (n : NullBackend) (queue : Z) (sub : Submission) : NullBackend :=
  let s := stats_ n in
  mkNullBackend
    (account (mkSubmissionStats (graphics_submissions s) (wrap64 (compute_submissions s + 1))
                (stats_dwords_consumed s) (stats_packets_decoded s) (register_writes s)
                (draw_calls s) (dispatch_calls s)) sub)
    (timeline_ n) (completed_timeline_ n).

#[export] Instance NullBackend_executor : Executor NullBackend := {
  execute_graphics := null_execute_graphics;
  execute_compute := null_execute_compute }.

(** [NullBackend::flush]: the new timeline value, returned and kept. *)
Definition flush (n : NullBackend) : Z * NullBackend :=
  let t := wrap64 (timeline_ n + 1) in
  (t, mkNullBackend (stats_ n) t (completed_timeline_ n)).

Definition wait (n : NullBackend) (timeline_value : Z) : NullBackend :=
  mkNullBackend (stats_ n) (timeline_ n)
    (Z.max (completed_timeline_ n) (Z.min timeline_value (timeline_ n))).

(** ** Histories of calls *)

(** A call on a backend from outside. *)
Inductive call : Type :=
| SubmitGraphics (stream : list Z)
| SubmitCompute (queue : Z) (stream : list Z)
| Flush
| Wait (timeline_value : Z).

(** The queue a submission goes to. *)
Inductive queue_id : Type := GraphicsQueue | ComputeQueue (queue : Z).
#[export] Instance queue_id_eq_dec : EqDecision queue_id.
Proof. solve_decision. Defined.

Definition with_null (b : Backend NullBackend) (n : NullBackend) : Backend NullBackend :=
  mkBackend (graphics_processor_ b) (compute_processors_ b) n.

(** The processor of a queue. *)
Definition processor_of {I} (b : Backend I) (q : queue_id) : Processor :=
  match q with
  | GraphicsQueue => graphics_processor_ b
  | ComputeQueue q => default (fresh_processor compute) (compute_processors_ b !! q)
  end.

(** An accepted stream: its queue, its words and what they decoded to. *)
Record accepted : Type := mkAccepted {
  acc_queue : queue_id; acc_stream : list Z; acc_submission : Submission }.

(** What a submission to a queue adds to the log. *)
Definition log_entry {I} (b : Backend I) (q : queue_id) (stream : list Z) : list accepted :=
  match run_process (processor_of b q) stream with
  | (Ok sub, _) => [mkAccepted q stream sub]
  | (Throw _, _) => []
  end.

(** One call: the backend after it and its entry of the log. *)
Definition do_call (b : Backend NullBackend) (c : call) : Backend NullBackend * list accepted :=
  match c with
  | SubmitGraphics s => ((submit_graphics b s).2, log_entry b GraphicsQueue s)
  | SubmitCompute q s => ((submit_compute b q s).2, log_entry b (ComputeQueue q) s)
  | Flush => (with_null b (flush (implementation b)).2, [])
  | Wait v => (with_null b (wait (implementation b) v), [])
  end.

(** A history of calls: the state it ends in and its log. *)
Fixpoint do_calls (b : Backend NullBackend) (cs : list call)
  : Backend NullBackend * list accepted :=
  match cs with
  | [] => (b, [])
  | c :: cs =>
      let b' := (do_call b c).1 in
      ((do_calls b' cs).1, (do_call b c).2 ++ (do_calls b' cs).2)
  end.

(** The words a queue has accepted. *)
Definition queue_stream (q : queue_id) (log : list accepted) : list Z :=
  log ≫= fun a => if decide (acc_queue a = q) then acc_stream a else [].

(** The queue is fed to the processor in one piece. *)
Definition processed (p : Processor) (stream : list Z) (p' : Processor) : Prop :=
  exists sub, process p stream = (Some (Ok sub), p').

Definition sum_of {A} (f : A -> Z) (l : list A) : Z := foldr (fun a s => f a + s) 0 l.

Definition b2z (b : bool) : Z := if b then 1 else 0.

Definition is_register_write (c : Command) : bool :=
  match c with CRegisterWrite _ => true | _ => false end.
Definition is_draw (c : Command) : bool :=
  match c with CDrawIndexAuto _ => true | _ => false end.
Definition is_dispatch (c : Command) : bool :=
  match c with CDispatchDirect _ => true | _ => false end.
Definition is_graphics (a : accepted) : bool := bool_decide (acc_queue a = GraphicsQueue).

Definition commands_of (f : Command -> bool) (a : accepted) : Z :=
  sum_of (fun c => b2z (f c)) (commands (acc_submission a)).

(** The statistics a log stands for, over unbounded integers. *)
Definition stats_of_log (log : list accepted) : SubmissionStats := {|
  graphics_submissions := sum_of (fun a => b2z (is_graphics a)) log;
  compute_submissions := sum_of (fun a => b2z (negb (is_graphics a))) log;
  stats_dwords_consumed := sum_of (fun a => zlen (acc_stream a)) log;
  stats_packets_decoded := sum_of (fun a => packets_decoded (acc_submission a)) log;
  register_writes := sum_of (commands_of is_register_write) log;
  draw_calls := sum_of (commands_of is_draw) log;
  dispatch_calls := sum_of (commands_of is_dispatch) log |}.

(** Statistics that agree modulo [2^64]. *)
Record stats_eq (s t : SubmissionStats) : Prop := {
  eq_graphics : eq64 (graphics_submissions s) (graphics_submissions t);
  eq_compute : eq64 (compute_submissions s) (compute_submissions t);
  eq_dwords : eq64 (stats_dwords_consumed s) (stats_dwords_consumed t);
  eq_packets : eq64 (stats_packets_decoded s) (stats_packets_decoded t);
  eq_writes : eq64 (register_writes s) (register_writes t);
  eq_draws : eq64 (draw_calls s) (draw_calls t);
  eq_dispatches : eq64 (dispatch_calls s) (dispatch_calls t) }.

(** ** Processors and queues *)

Lemma processed_nil p : processed p [] p.
Proof. exists (mkSubmission 0 0 []). by destruct p. Qed.

Lemma processed_app p s1 p1 s2 p2 :
  processed p s1 p1 -> processed p1 s2 p2 -> processed p (s1 ++ s2) p2.
Proof.
  intros [sub1 H1] [sub2 H2]. exists (extend sub1 sub2).
  apply (process_app p s1 s2 sub1 p1 _ _ H1). by exists sub2.
Qed.

(** What a call to [process] leaves behind: the stream processed, or the
    processor untouched. *)
Lemma run_process_spec p stream r p' :
  run_process p stream = (r, p') ->
  match r with
  | Ok sub => process p stream = (Some (Ok sub), p')
  | Throw _ => p' = p
  end.
Proof.
  unfold run_process. destruct (process_total p stream) as (r' & p'' & -> & _ & Ht).
  intros [= -> ->]. destruct r; [done|by eapply Ht].
Qed.

Section Queues.
Context {I : Type} `{Executor I}.

Lemma submit_graphics_processor b s q :
  processed (processor_of b q) (queue_stream q (log_entry b GraphicsQueue s))
    (processor_of (submit_graphics b s).2 q).
Proof.
  unfold submit_graphics, log_entry. cbn [processor_of].
  destruct (run_process _ s) as [r p'] eqn:Hr. apply run_process_spec in Hr.
  destruct r as [sub|e], q as [|q]; cbn; rewrite ?app_nil_r; try apply processed_nil.
  - by exists sub.
  - subst p'. apply processed_nil.
Qed.

Lemma submit_compute_processor b q' s q :
  processed (processor_of b q) (queue_stream q (log_entry b (ComputeQueue q') s))
    (processor_of (submit_compute b q' s).2 q).
Proof.
  unfold submit_compute, log_entry. cbn [processor_of].
  destruct (run_process _ s) as [r p'] eqn:Hr. apply run_process_spec in Hr.
  destruct r as [sub|e], q as [|q]; cbn; try apply processed_nil;
    destruct (decide (q' = q)) as [<-|Hq];
    rewrite ?lookup_insert_eq, ?lookup_insert_ne by done; cbn.
  - rewrite decide_True, app_nil_r by done. by exists sub.
  - rewrite decide_False by congruence. apply processed_nil.
  - subst p'. apply processed_nil.
  - apply processed_nil.
Qed.
End Queues.

Lemma do_call_processor b c q :
  processed (processor_of b q) (queue_stream q (do_call b c).2) (processor_of (do_call b c).1 q).
Proof.
  destruct c; cbn [do_call fst snd]; [apply submit_graphics_processor|
    apply submit_compute_processor|apply processed_nil..].
Qed.

Lemma do_calls_processor b cs q :
  processed (processor_of b q) (queue_stream q (do_calls b cs).2)
    (processor_of (do_calls b cs).1 q).
Proof.
  revert b. induction cs as [|c cs IH]; intros b; cbn [do_calls fst snd].
  - apply processed_nil.
  - unfold queue_stream. rewrite bind_app.
    eapply processed_app; [apply do_call_processor|apply IH].
Qed.

Lemma do_calls_app b cs1 cs2 :
  (do_calls b (cs1 ++ cs2)).1 = (do_calls (do_calls b cs1).1 cs2).1.
Proof. revert b. induction cs1 as [|c cs1 IH]; intros b; cbn [do_calls fst app]; auto. Qed.

(** ** Statistics *)

Lemma stats_eq_refl s : stats_eq s s.
Proof. by split. Qed.
Lemma stats_eq_trans s t u : stats_eq s t -> stats_eq t u -> stats_eq s u.
Proof. intros [] []. split; etrans; eauto. Qed.

(** Field-wise sum of statistics. *)
Definition stats_add (s t : SubmissionStats) : SubmissionStats := {|
  graphics_submissions := graphics_submissions s + graphics_submissions t;
  compute_submissions := compute_submissions s + compute_submissions t;
  stats_dwords_consumed := stats_dwords_consumed s + stats_dwords_consumed t;
  stats_packets_decoded := stats_packets_decoded s + stats_packets_decoded t;
  register_writes := register_writes s + register_writes t;
  draw_calls := draw_calls s + draw_calls t;
  dispatch_calls := dispatch_calls s + dispatch_calls t |}.

Lemma stats_add_proper s s' t t' :
  stats_eq s s' -> stats_eq t t' -> stats_eq (stats_add s t) (stats_add s' t').
Proof. intros [] []. split; cbn; by apply eq64_add. Qed.

Lemma stats_add_assoc s t u : stats_add s (stats_add t u) = stats_add (stats_add s t) u.
Proof. unfold stats_add. cbn. f_equal; lia. Qed.

Lemma sum_of_app {A} (f : A -> Z) l1 l2 : sum_of f (l1 ++ l2) = sum_of f l1 + sum_of f l2.
Proof. induction l1 as [|a l1 IH]; cbn; [done|]. unfold sum_of in *. lia. Qed.

Lemma stats_of_log_app l1 l2 :
  stats_of_log (l1 ++ l2) = stats_add (stats_of_log l1) (stats_of_log l2).
Proof. unfold stats_of_log, stats_add. cbn. by rewrite !sum_of_app. Qed.

(** The counts of a command list. *)
Definition stats_of_commands (cs : list Command) : SubmissionStats := {|
  graphics_submissions := 0; compute_submissions := 0;
  stats_dwords_consumed := 0; stats_packets_decoded := 0;
  register_writes := sum_of (fun c => b2z (is_register_write c)) cs;
  draw_calls := sum_of (fun c => b2z (is_draw c)) cs;
  dispatch_calls := sum_of (fun c => b2z (is_dispatch c)) cs |}.

Lemma stats_of_commands_app l1 l2 :
  stats_of_commands (l1 ++ l2) = stats_add (stats_of_commands l1) (stats_of_commands l2).
Proof. unfold stats_of_commands, stats_add. cbn. by rewrite !sum_of_app. Qed.

Lemma stats_add_0 s : stats_add s (stats_of_commands []) = s.
Proof. destruct s. unfold stats_add. cbn. f_equal; lia. Qed.

Lemma count_command_stats s c :
  stats_eq (count_command s c) (stats_add s (stats_of_commands [c])).
Proof.
  destruct c; split; cbn; rewrite ?wrap64_eq64, ?Z.add_0_r; done.
Qed.

Lemma count_commands_stats cs s :
  stats_eq (foldl count_command s cs) (stats_add s (stats_of_commands cs)).
Proof.
  revert s. induction cs as [|c cs IH]; intros s; cbn [foldl].
  { rewrite stats_add_0. apply stats_eq_refl. }
  eapply stats_eq_trans; [apply IH|].
  change (c :: cs) with ([c] ++ cs). rewrite stats_of_commands_app, stats_add_assoc. apply stats_add_proper; [apply count_command_stats|apply stats_eq_refl].
Qed.

(** Executing an accepted submission adds its entry to the statistics. *)
Lemma execute_stats n a :
  dwords_consumed (acc_submission a) = zlen (acc_stream a) ->
  stats_eq
    (stats_ (match acc_queue a with
             | GraphicsQueue => execute_graphics n (acc_submission a)
             | ComputeQueue q => execute_compute n q (acc_submission a)
             end))
    (stats_add (stats_ n) (stats_of_log [a])).
Proof.
  intros Hd. destruct a as [[|q] s sub]; cbn in Hd |- *; unfold account;
    (eapply stats_eq_trans; [apply count_commands_stats|]);
    split; cbn; rewrite ?wrap64_eq64, ?Hd, ?Z.add_0_r; done.
Qed.

Lemma run_process_dwords p stream sub p' :
  run_process p stream = (Ok sub, p') -> dwords_consumed sub = zlen stream.
Proof. intros H%run_process_spec%process_dwords. done. Qed.

Lemma do_call_stats b c :
  stats_eq (stats_ (implementation (do_call b c).1))
    (stats_add (stats_ (implementation b)) (stats_of_log (do_call b c).2)).
Proof.
  assert (forall s, stats_eq s (stats_add s (stats_of_log []))) as Hnil.
  { intros s. split; cbn; by rewrite Z.add_0_r. }
  destruct c as [s|q s| |v]; cbn [do_call fst snd]; [| |apply Hnil..];
    unfold submit_graphics, submit_compute, log_entry; cbn [processor_of];
    destruct (run_process _ s) as [[sub|e] p'] eqn:Hr; cbn [snd implementation];
    try apply Hnil; apply run_process_dwords in Hr.
  - by apply (execute_stats _ (mkAccepted GraphicsQueue s sub)).
  - by apply (execute_stats _ (mkAccepted (ComputeQueue q) s sub)).
Qed.

Lemma do_calls_stats b cs :
  stats_eq (stats_ (implementation (do_calls b cs).1))
    (stats_add (stats_ (implementation b)) (stats_of_log (do_calls b cs).2)).
Proof.
  revert b. induction cs as [|c cs IH]; intros b; cbn [do_calls fst snd].
  { split; cbn; by rewrite Z.add_0_r. }
  eapply stats_eq_trans; [apply IH|]. rewrite stats_of_log_app, stats_add_assoc.
  apply stats_add_proper; [apply do_call_stats|apply stats_eq_refl].
Qed.

(** ** The timeline *)

(** The number of flushes of a history. *)
Definition flushes (cs : list call) : Z :=
  sum_of (fun c => match c with Flush => 1 | _ => 0 end) cs.

Lemma submit_timeline b c :
  match c with SubmitGraphics _ | SubmitCompute _ _ => True | _ => False end ->
  timeline_ (implementation (do_call b c).1) = timeline_ (implementation b) /\
  completed_timeline_ (implementation (do_call b c).1) = completed_timeline_ (implementation b).
Proof.
  destruct c as [s|q s| |v]; try done; intros _; cbn [do_call fst];
    unfold submit_graphics, submit_compute; by destruct (run_process _ s) as [[sub|e] p'].
Qed.

Lemma flushes_cons c cs :
  flushes (c :: cs) = match c with Flush => 1 | _ => 0 end + flushes cs.
Proof. done. Qed.

Lemma flushes_nonneg cs : 0 <= flushes cs.
Proof. induction cs as [|[] cs IH]; rewrite ?flushes_cons; cbn; lia. Qed.

Lemma do_calls_timeline b cs :
  0 <= completed_timeline_ (implementation b) <= timeline_ (implementation b) ->
  timeline_ (implementation b) + flushes cs < u64_mod ->
  timeline_ (implementation (do_calls b cs).1) = timeline_ (implementation b) + flushes cs /\
  completed_timeline_ (implementation b)
    <= completed_timeline_ (implementation (do_calls b cs).1)
    <= timeline_ (implementation (do_calls b cs).1).
Proof.
  revert b. induction cs as [|c cs IH]; intros b Hc Hf; cbn [do_calls fst].
  { cbn. lia. }
  pose proof (flushes_nonneg cs). rewrite flushes_cons in *.
  specialize (IH (do_call b c).1).
  destruct c as [s|q s| |v].
  - destruct (submit_timeline b (SubmitGraphics s) I) as [Ht Hcm]. rewrite Ht, Hcm in IH. lia.
  - destruct (submit_timeline b (SubmitCompute q s) I) as [Ht Hcm]. rewrite Ht, Hcm in IH. lia.
  - assert (timeline_ (implementation (do_call b Flush).1) = timeline_ (implementation b) + 1)
      as Ht by (cbn; rewrite wrap64_small; [done|unfold in_u64; lia]).
    rewrite Ht in IH. change (completed_timeline_ (implementation (do_call b Flush).1))
      with (completed_timeline_ (implementation b)) in IH. lia.
  - change (timeline_ (implementation (do_call b (Wait v)).1))
      with (timeline_ (implementation b)) in IH.
    change (completed_timeline_ (implementation (do_call b (Wait v)).1))
      with (Z.max (completed_timeline_ (implementation b))
              (Z.min v (timeline_ (implementation b)))) in IH. lia.
Qed.

(** ** Properties *)

(** a queue sees its submissions as one stream.  Whatever calls are
    interleaved, on whatever queues and with refused streams among them, the
    processor of a queue (graphics, or a compute queue) ends as it would after
    one submission of the concatenation of the streams that queue accepted:
    queues do not disturb each other and a refused stream leaves no trace. *)
Theorem queues_are_independent_streams cs q :
  processed (processor_of (Backend_init NullBackend_init) q)
    (queue_stream q (do_calls (Backend_init NullBackend_init) cs).2)
    (processor_of (do_calls (Backend_init NullBackend_init) cs).1 q).
Proof. apply do_calls_processor. Qed.

(** the null backend's statistics are the counts of the accepted
    submissions (calls per kind of queue, words, packets, register writes,
    draws and dispatches), each modulo [2^64]. *)
Theorem statistics_count_accepted_submissions cs :
  stats_eq (stats_ (implementation (do_calls (Backend_init NullBackend_init) cs).1))
    (stats_of_log (do_calls (Backend_init NullBackend_init) cs).2).
Proof.
  pose proof (do_calls_stats (Backend_init NullBackend_init) cs) as H.
  by destruct (stats_of_log _).
Qed.

(** the timeline.  Below [2^64] flushes, the timeline is the number of
    flushes so far, the completed value never exceeds it and never goes back,
    and waiting for a value of the timeline completes it. *)
Theorem timeline_counts_flushes cs1 cs2 v :
  flushes (cs1 ++ Wait v :: cs2) < u64_mod ->
  let b1 := implementation (do_calls (Backend_init NullBackend_init) cs1).1 in
  let b2 := implementation (do_calls (Backend_init NullBackend_init) (cs1 ++ Wait v :: cs2)).1 in
  timeline_ b1 = flushes cs1 /\
  timeline_ b2 = flushes (cs1 ++ Wait v :: cs2) /\
  0 <= completed_timeline_ b1 <= completed_timeline_ b2 /\
  completed_timeline_ b2 <= timeline_ b2 /\
  (v <= flushes cs1 -> v <= completed_timeline_ b2).
Proof.
  intros Hf b1 b2. subst b1 b2. rewrite do_calls_app.
  unfold flushes in Hf |- *. rewrite sum_of_app in *. fold (flushes cs1) in *.
  fold (flushes (Wait v :: cs2)) in *. rewrite flushes_cons in *.
  pose proof (flushes_nonneg cs1). pose proof (flushes_nonneg cs2).
  destruct (do_calls_timeline (Backend_init NullBackend_init) cs1) as [H1 H2]; [cbn; lia..|].
  cbn in H1, H2. set (b1 := (do_calls _ cs1).1) in *. cbn [do_calls fst].
  destruct (do_calls_timeline (do_call b1 (Wait v)).1 cs2) as [H3 H4]; [cbn; lia..|].
  cbn in H3, H4 |- *. lia.
Qed.

(** ** Witnesses *)

Definition sample_calls : list call :=
  [Flush; SubmitGraphics sample_setup; SubmitCompute 1 [0x40000000]].

Lemma timeline_counts_flushes_witness :
  completed_timeline_ (implementation
    (do_calls (Backend_init NullBackend_init) (sample_calls ++ Wait 1 :: [Flush])).1) = 1.
Proof.
  destruct (timeline_counts_flushes sample_calls [Flush] 1) as (_ & _ & H & _ & H');
    [by vm_compute|]. by vm_compute.
Defined.
